(* ===== verification/_CoqProject ===== *)
-Q . S2P
Prelude.v
BTree.v
Canonical.v
Events.v
Commands.v
Lifecycle.v
Receipts.v
Format.v
FormatFacts.v
CommandIndex.v
Disk.v
Text.v
TextFacts.v
Projectors.v
MatcherFacts.v
Streams.v
HiddenFacts.v
LineFacts.v
PlanFacts.v
Model.v
Recovery.v
JournalSpec.v
RecoveryFacts.v
Journal.v
JournalFacts.v
AppendFacts.v
CrashFacts.v
SoundFacts.v
RangeFacts.v
Projection.v
ProjectionFacts.v
ThreadIndex.v
IndexFacts.v
IndexReads.v
OpenFacts.v
Service.v
LiveThread.v
LiveFacts.v
Interleaving.v
Store.v
StoreFacts.v
Listing.v
ListingFacts.v
Capabilities.v
ScopeFacts.v
ResolveFacts.v
Generations.v
GenerationFacts.v
CapabilityRuntime.v
RuntimeFacts.v
CommitFacts.v
RuntimeCalls.v
Fork.v
ForkFacts.v
Effects.v
LoopModel.v
ToolBatch.v
BatchFacts.v
Hooks.v
TurnLoop.v
TurnFacts.v
TurnEnds.v
Truncation.v
History.v
HistoryFacts.v
Resume.v
Instances.v
Examples.v
StoreExamples.v
CapabilityExamples.v
LoopExamples.v
ContractTheorems.v
JournalTheorems.v
StoreTheorems.v
ForkTheorems.v
ListingTheorems.v
CapabilityTheorems.v
ProjectorTheorems.v
LoopTheorems.v
HistoryTheorems.v
