(* ===== verification/Prelude.v ===== *)
(** * The Praxis thread store, capability runtime, stream parsers, turn loop and
      session history, verified

    Praxis keeps the history of every conversation ("thread") in a journal of
    its own: a directory of append-only segment files, written by one process at
    a time.  Commands become batches of events; the events are the only truth.
    A SQLite database beside the journals, the index, holds a projection of each
    thread that can always be rebuilt.  What Praxis runs is published by another
    small core: plugins publish capabilities in transactions, readers lease the
    generation a capability is served by, and a generation that is replaced or
    whose scope ends is disposed when its last lease is gone.  What a model
    answers comes as a stream; stages take citations and plans out of it before
    it is shown.  A turn of a conversation asks a model, runs the tools the
    answer calls and asks again, until hooks or a limit stop it.  What a session
    said so far is its history, from which the prompts of its model come; it is
    rolled back, resumed and forked.  This library models the six crates and the
    parts of the agent core that do this and proves what they promise:

    - src/praxis-rs/thread-store-contracts: the data (events, commands,
      receipts, revisions, the turn state machine) and its canonical encoding;
    - src/praxis-rs/thread-store-journal: the file format, recovery after
      crashes, the open journal, the writer lock;
    - src/praxis-rs/thread-store: the live thread (commands, the index that
      follows), the store that opens, reads, forks, deletes and lists threads;
    - src/praxis-rs/capability-runtime: identifiers and manifests, the graphs of
      scopes and of capabilities, generations and their leases, the transactions
      that publish them and the scopes that retire them;
    - src/praxis-rs/utils/stream-parser: the stages that project streamed text
      into what is shown and events, and the adapter that feeds them bytes;
    - src/praxis-rs/loop: turns, the batches of tool calls in them and the
      effects that order these, and the hooks that decide;
    - src/praxis-rs/core: the context manager, the reconstruction of a session
      from its rollout and the snapshots of forks, with what they use of
      src/praxis-rs/protocol, src/praxis-rs/utils/string and
      src/praxis-rs/utils/output-truncation.

    ** Files and the code they model

    - Prelude: machine integers as bounded [Z], byte arrays, [result], the
      state and error monad [M], shared lemmas, tactics and hints.  BTree:
      [BTreeMap] and [BTreeSet] as lists in the order of their keys.
    - Canonical (canonical.rs, ids.rs, revision.rs), Events (event.rs), Commands
      (command.rs), Lifecycle (turn_lifecycle.rs), Receipts (receipt.rs): the
      contracts.
    - Format (format.rs, format/stored_events.rs), CommandIndex
      (command_index.rs), Disk (io.rs and the calls of [std::fs]), Model
      (model.rs, error.rs), Recovery (recovery.rs, snapshot.rs), Journal
      (journal.rs, projection.rs of the journal): the journal.  A [Disk] is what
      one journal's directory holds, what of it is synced, the lock and the
      answers to the coming system calls, so every call can fail and every write
      can stop part-way.
    - Projection (projection.rs), ThreadIndex (index.rs, index/write.rs),
      LiveThread (live_thread.rs), Store (store.rs), Fork (store.rs: deleting
      and forking), Listing (index.rs, projection.rs: listing and cursors): the
      store.  A call on an open thread runs over the thread, its directory and
      the database.
    - JournalSpec is the abstract journal: a list of segments, each a list of
      committed frames.  FormatFacts, RecoveryFacts, JournalFacts,
      AppendFacts, CrashFacts, SoundFacts, RangeFacts and OpenFacts
      relate the code of the journal to it; Service has the specification of
      [append] and the worlds that calls of several processes reach.
      ProjectionFacts, IndexFacts, IndexReads, LiveFacts,
      Interleaving, StoreFacts, ForkFacts and ListingFacts do the same for the
      store: the tables refine the fold of the events, a command refines
      [execute_spec], sequences of commands refine [calls_spec], and clones of a
      thread that work at the same time are a transition system whose steps are
      commits and statements of the database.
    - Capabilities (ids.rs, manifest.rs, scope.rs, graph.rs of the capability
      runtime), Generations (the records, state words and leases of runtime.rs
      and lease.rs), CapabilityRuntime (the rest of runtime.rs): the capability
      runtime.  A generation's state is the packed word of the code; its
      operations are the steps of threads on a shared record, one atomic access
      or critical section each, and the calls of the runtime run those steps
      alone.  An [Arc] of a record is a pointer into a heap, so that routes,
      tables and leases share it; a table published to readers is a pure value.
      ScopeFacts, ResolveFacts, GenerationFacts, RuntimeFacts,
      and CommitFacts have the lemmas; RuntimeCalls the transition
      system of all calls, in which commits stand open between their critical
      sections while others run.
    - Text (the operations of [str] and [char], [from_utf8]) and Projectors (all
      of utils/stream-parser): texts are their bytes, a stage is a state with
      [project] and [close].  Streams has the interface [StreamLaws], which says
      that the pieces of a text do not matter; the adapter for bytes is proved
      against it, and HiddenFacts and PlanFacts implement it for the stages.
      TextFacts has induction on texts by characters, MatcherFacts the search
      for literals in texts that grow; the specifications are [reads]
      (HiddenFacts; ProjectorTheorems without the rule on held openers), which
      reads a whole text for hidden tags, and [read_text]
      (LineFacts), which reads it line by line.
    - Effects (tool/effects.rs of the loop), LoopModel (outcome.rs, guard.rs,
      state.rs, context.rs, prompt.rs, model/, decisions/, services/,
      tool/types/), ToolBatch (tool/batch/, tool/lifecycle.rs, tool/traits.rs),
      Hooks (hooks.rs, noop.rs, compose/) and TurnLoop (turn_loop.rs,
      turn_start/, turn_finish/, round/, stream/, stream_tools.rs,
      turn_items.rs, tool/prepare.rs, tool/dispatch.rs): the loop.  A batch is a
      task beside its futures: [step] takes one answer of a preparation, a tool,
      the sink or the cancellation, and the runs of [bstep] are all their
      interleavings.  A turn is a function of an environment that every await may
      change (services, other tasks, the cancellation token), with a log of what
      the turn did.  BatchFacts has the invariant of a batch and
      its consequences for runs, and reads from the choices of a run alone what
      its entries are ([entries_by]).  TurnFacts has the interface [TurnInvariant]:
      what each act of a turn has to keep; whatever implements it holds of whole
      turns, as it does for the end of turns, the guard and
      the prompts.  TurnEnds has what the hooks add at the start
      ([added_at_start]), what a tool round and a stream commit
      ([round_commits], over the decisions of [before_tool_call]) and why turns
      end; LoopExamples has scripted services.
    - Truncation (utils/string: truncate.rs, lib.rs; utils/output-truncation;
      the policies of protocol/rollout_history.rs, whose factor is an [f64] of
      [SpecFloat]), History (core: context_manager/, event_mapping.rs,
      contextual_user_message.rs; instructions/fragment.rs; protocol: models.rs,
      token.rs) and Resume (core: praxis/rollout_reconstruction/,
      initial_history/, thread_rollout_truncation.rs,
      thread_manager/fork_snapshot/ and fork/history.rs; protocol:
      turn_lifecycle.rs, rollout_history.rs): the history of a session.  A
      history is a list of items; the scan of a rollout goes over it from its
      end, each item with the items after it.  HistoryFacts has the lemmas on
      the history ([rolled_back] is its rollback as a function on lists); those
      on scans, positions and forks follow the definitions of Resume, with what
      they are compared with: the items that survive the rollbacks of a rollout
      ([survivors]) and the turns a rollout leaves open ([leaves_open]).
    - Instances gives concrete functions for the parameters,
      Examples, StoreExamples and CapabilityExamples concrete journals, threads
      and transactions, on which every property with hypotheses is instantiated.

    ** What is proved

    - ContractTheorems: encodings are injective where digests are compared (and
      one that is not), frames and segment headers decode to what was encoded,
      validation accepts exactly the batches that continue the head, receipts
      are causal, turns follow their transitions, the command filter has no
      false negatives.
    - JournalTheorems: [append] refines its specification; recovery restores the
      committed frames from whatever a crash leaves and accepts nothing else;
      every acknowledged batch survives any sequence of calls, crashes and
      failing system calls; at most one writer; durable commits survive a power
      loss (and one case in which they do not); range folds, receipts and
      snapshots are exact.
    - StoreTheorems: the index follows the journal under any sequence of
      commands, stays honest whatever statements fail and however clones
      interleave (and one interleaving that leaves it behind), is repaired by an
      opening where it holds nothing of a thread, an earlier part of its journal
      or a journal that lost its end; a resumed fold is the fold of the whole journal; scan plans,
      windows, summaries, prepared projections and session metadata are exact.
    - ForkTheorems: a fork holds exactly the copy of its source's facts; one that
      fails leaves nothing behind while files and database can be removed (and one
      whose removal fails and leaves files).
    - ListingTheorems: following the cursors visits every matching thread once.
    - CapabilityTheorems: a commit publishes all of its staged capabilities, or
      fails and rolls back what it activated, or unwinds with a panicking
      activation and calls no disposer; in the latter two the runtime is as it was; readers get the generation the graph says
      they see, with values of the type they ask for; a resolution is complete,
      ends, and has dependencies first, and its errors name a real cause;
      however calls race, a generation is disposed once and never under a lease,
      and it is disposed when it is retired and its leases are gone; the runtime
      stays well formed under any sequence of calls; the last handle of a scope
      retires what the scope owns (and leaves what depends on it in place).
    - ProjectorTheorems: hidden tags, tagged lines, bytes and whole assistant
      text are projected like the whole text, whatever pieces it comes in;
      nothing is cut inside a character; refused bytes are rolled back.  Hidden
      tags need openers that are not inside another and a text that does not end
      in an opener a longer one goes on from; two cases show why.
    - LoopTheorems: every call of a batch is answered once, in its place, exactly
      with what the answers of its tool, its preparation and the sink say; calls that conflict take turns,
      only conflicts delay calls, batches end and a cancelled one starts nothing;
      plans without conflicts isolate what respects them; a turn ends once and
      says so, keeps its limit on tool calls and ends within it; requests replay
      what the hooks prepared and the turn committed; a tool round commits its
      calls as the hooks decided and answers them, a stream is
      committed as it came (and one case in which calls stay without a result);
      chains of hooks compose.
    - HistoryTheorems: what the model sees of a history pairs every call with an
      output and every output that names a call with it, and is stable; rollbacks
      cut at turns and add up (and one that drops a bundle and keeps its
      baseline); a session resumes with the replay of its rollout, wherever the
      scan stops (and one rollout whose history is lost); forks cut at the turns
      that survive, and close the turn a rollout leaves open (and one user message
      that is missed); texts over a budget of bytes keep both ends around a marker
      that counts what is gone, as those over a budget of tokens do (and one that
      is over its budget).

    ** Bounds and fuel

    Integers keep their width: revisions, sizes and counters are 64-bit and
    every overflow check of the code is a branch of the model.  The room
    hypotheses ([append_room], [calls_room], [frame_room]) say that the counters
    of a journal are below [2 ^ 64], which a journal of that many frames would
    be needed to break.  Loops that are not structural have fuel: recovery and
    the search for a command advance by a frame in each turn and have the
    length of the file; the loop over a batch takes at least one event in each
    turn and has their number; RecoveryFacts, JournalFacts and
    [batch_loop_terminates] show that this is enough.  A walk up the scopes has
    two turns more than there are scopes, the closure of a resolution
    [resolution_fuel], its visits the depth of the closure; ScopeFacts and
    ResolveFacts show that they suffice for any graph.  The loop over a piece of
    text takes a delimiter in each turn but the last and has a turn for each
    pending byte and one more ([hidden_projection_ends_with_texts]).  A batch of
    calls takes at most [batch_fuel], ten steps for each call and four, in any
    interleaving ([tool_batches_end]), and [run_batch] within a turn has as many.
    The rounds of a turn have fuel because hooks may go on forever; a turn that
    has not ended within it is [None], and [capped_turns_end] says when it has.
    Counts of rounds and tool calls saturate; sums of token usage wrap, as [+=]
    does in the release profile.  The loop of [acquire]
    has an argument for its turns, since the code's ends only when the routes it
    reads are not being replaced; alone it takes one.  A machine word is 64 bits,
    so a generation holds at most [2 ^ 61 - 1] leases, and a clone past that
    panics as in the code; [room] says that the 64-bit counters of a runtime do
    not wrap, which takes [2 ^ 64] commits.

    ** Parameters

    [External] are SHA-256, CRC-32C and UUIDv5; nothing is assumed of them,
    and the digest theorems end in a collision.  [JsonCodec] is serde_json on
    stored batches, with its round trip as law.  [Sqlite] is the database, with
    one law for each statement the store runs and one for transactions; a
    statement either has its effect or fails and changes nothing.  [ListSql] and
    [IdText] are the statement of listings, [LIKE] and the text of identifiers.
    The clock and new identifiers are arguments ([Draws]), as is whether a
    thread's directory exists; [ForkInputs] has what a fork draws.  The closures
    a plugin stages are their outcomes (a value and its disposers, or a
    failure), a value the address and the dynamic type of an object.
    [TurnServices] are the services of a turn's caller with the token and the
    order in which futures answer, [ToolTypes] the tools and what a preparation
    keeps; hooks are any record of ten functions of the environment.
    [HistoryTypes] and [RolloutTypes] are data that the history and the scan only
    carry along (JSON values, the rest of a turn's settings, events nothing here
    reads); [HistoryCodecs] is what quick-xml and serde_json read of a message,
    [HistoryEstimates] the length of an item's JSON, base64 and the sizes of
    images.  Nothing is assumed of them.

    ** Not modelled

    Syncs of the directories above a journal: [create_dir_all] makes them and
    nothing syncs them, and durability here starts with the journal's own
    directory.  The creation and migration of the SQLite schema; the text and serde forms
    of the thread store's identifiers; poisoned mutexes; the scheduling of
    tasks, but for the interleavings of Interleaving, Generations and
    RuntimeCalls.  Panics are values in the capability runtime and absent from
    the thread store.  Atomic accesses are sequentially consistent; the reaper's
    thread and its channel are a queue of jobs, run one at a time.  A fork's producer and consumer
    run one after the other and meet in the records they exchange; the two
    directories of a fork are distinct.  Of the stream parsers only the text of errors is left out.  Of the
    loop: serde forms, tracing, poisoned locks, the functions compiled for tests
    only (run_tool_plan, dependency_graph), the ratio of context pressure (a
    float), and streams that never end, a stream being the finite list of the
    polls that consume it; what a tool reports while it executes is taken
    together with its result.  Of the history: the cache of image estimates,
    which keeps what the function gives, the breakdown and the percentages of
    token usage shown to users, and logging, which is all that [error_or_panic]
    does in the source; the turn item a message becomes is
    only told apart as far as forks ask.  The rest of the repository (the agent
    core beyond its history, the gateway, the terminal interface, tools, plugins)
    is asynchronous orchestration, rendering or glue around services.

    ** This file

    Fixed-width integers, fixed-size byte arrays, little-endian byte strings, the
    result type of fallible code, and the list lemmas and tactics the components
    share. *)

From Stdlib Require Import Eqdep_dec.
From Stdlib Require Strings.Byte.
From Stdlib Require Export Lia ZArith Init.Byte.
From stdpp Require Export base gmap list strings numbers countable.

Open Scope Z_scope.

Abbreviation byte := Byte.byte.
Abbreviation bytes := (list Byte.byte).
Abbreviation len l := (Z.of_nat (length l)).

(** * Rust's [Result] *)

Inductive result (E A : Type) :=
  | Ok (a : A)
  | Err (e : E).
Arguments Ok {E A} a.
Arguments Err {E A} e.

#[export] Instance result_ret {E} : MRet (result E) := fun A a => Ok a.
#[export] Instance result_bind {E} : MBind (result E) :=
  fun A B k r => match r with Ok a => k a | Err e => Err e end.
#[export] Instance result_fmap {E} : FMap (result E) :=
  fun A B f r => match r with Ok a => Ok (f a) | Err e => Err e end.

Definition map_err {E F A} (f : E -> F) (r : result E A) : result F A :=
  match r with Ok a => Ok a | Err e => Err (f e) end.

Definition ok_or {E A} (o : option A) (e : E) : result E A :=
  match o with Some a => Ok a | None => Err e end.

(** [if c { return Err(e) }] *)
Definition ensure {E} (c : bool) (e : E) : result E unit :=
  if c then Ok tt else Err e.

Definition is_ok {E A} (r : result E A) : bool :=
  match r with Ok _ => true | Err _ => false end.

Lemma bind_Ok {E A B} (r : result E A) (k : A -> result E B) b :
  r ≫= k = Ok b <-> exists a, r = Ok a /\ k a = Ok b.
Proof.
  destruct r as [a|e]; simpl.
  - split; [by eauto|]. by intros (? & [= <-] & ?).
  - split; [done|]. by intros (? & ? & ?).
Qed.

Lemma ensure_Ok {E} c (e : E) u : ensure c e = Ok u <-> c = true.
Proof. destruct c, u; simpl; naive_solver. Qed.

Lemma ok_or_Ok {E A} (o : option A) (e : E) a : ok_or o e = Ok a <-> o = Some a.
Proof. destruct o; simpl; naive_solver. Qed.

Lemma map_err_Ok {E F A} (f : E -> F) (r : result E A) a :
  map_err f r = Ok a <-> r = Ok a.
Proof. destruct r; simpl; naive_solver. Qed.

(** Opens successful runs of fallible code. *)
Ltac inv_ok :=
  repeat match goal with
  | H : mbind _ _ = Ok _ |- _ =>
      let a := fresh "a" in let Ha := fresh "Hr" in
      apply bind_Ok in H; destruct H as (a & Ha & H)
  | H : ensure _ _ = Ok _ |- _ => apply ensure_Ok in H
  | H : ok_or _ _ = Ok _ |- _ => apply ok_or_Ok in H
  | H : map_err _ _ = Ok _ |- _ => apply map_err_Ok in H
  | H : Ok _ = Ok _ |- _ => injection H as H; subst
  | H : mret _ = Ok _ |- _ => injection H as H; subst
  | H : Err _ = Ok _ |- _ => discriminate H
  | u : unit |- _ => destruct u
  end.

Ltac inv_bool :=
  repeat match goal with
  | H : _ && _ = true |- _ => apply andb_true_iff in H; destruct H
  | H : _ || _ = false |- _ => apply orb_false_iff in H; destruct H
  | H : negb _ = true |- _ => apply negb_true_iff in H
  | H : negb _ = false |- _ => apply negb_false_iff in H
  | H : bool_decide _ = true |- _ => apply bool_decide_eq_true in H
  | H : bool_decide _ = false |- _ => apply bool_decide_eq_false in H
  | H : (_ <? _) = true |- _ => apply Z.ltb_lt in H
  | H : (_ <? _) = false |- _ => apply Z.ltb_ge in H
  | H : (_ <=? _) = true |- _ => apply Z.leb_le in H
  | H : (_ <=? _) = false |- _ => apply Z.leb_gt in H
  | H : (_ =? _) = true |- _ => apply Z.eqb_eq in H
  | H : (_ =? _) = false |- _ => apply Z.eqb_neq in H
  end.

(** Settles a comparison of integers whose truth value is given. *)
Ltac compare :=
  lazymatch goal with
  | |- true = _ => symmetry; compare
  | |- false = _ => symmetry; compare
  | |- (_ <? _) = true => apply Z.ltb_lt; lia
  | |- (_ <? _) = false => apply Z.ltb_ge; lia
  | |- (_ <=? _) = true => apply Z.leb_le; lia
  | |- (_ <=? _) = false => apply Z.leb_gt; lia
  | |- (_ =? _) = true => apply Z.eqb_eq; lia
  | |- (_ =? _) = false => apply Z.eqb_neq; lia
  end.

(** * Integers of a machine width

    A value of [ranged lo hi] is an integer [lo <= z < hi], so the types below
    hold exactly the values of Rust's integer types. *)

Definition in_range (lo hi z : Z) : bool := (lo <=? z) && (z <? hi).

Record ranged (lo hi : Z) := Ranged {
  val : Z;
  val_in_range : in_range lo hi val = true
}.
Arguments Ranged {lo hi} val val_in_range.
Arguments val {lo hi} r.
Arguments val_in_range {lo hi} r.

Abbreviation u8 := (ranged 0 (2 ^ 8)).
Abbreviation u16 := (ranged 0 (2 ^ 16)).
Abbreviation u32 := (ranged 0 (2 ^ 32)).
Abbreviation u64 := (ranged 0 (2 ^ 64)).
Abbreviation i64 := (ranged (- 2 ^ 63) (2 ^ 63)).

Lemma val_inj {lo hi} (x y : ranged lo hi) : val x = val y -> x = y.
Proof.
  destruct x as [x px], y as [y py]. simpl. intros ->. f_equal.
  apply UIP_dec. apply Bool.bool_dec.
Qed.

Lemma val_bounds {lo hi} (x : ranged lo hi) : lo <= val x < hi.
Proof. pose proof (val_in_range x) as H. unfold in_range in H. lia. Qed.

#[export] Instance ranged_eq_dec {lo hi} : EqDecision (ranged lo hi).
Proof.
  intros x y. destruct (decide (val x = val y)) as [E|E].
  - left. by apply val_inj.
  - right. congruence.
Defined.

(** [try_from] and the [checked_] operations: [None] outside the range. *)
Definition checked (lo hi z : Z) : option (ranged lo hi) :=
  match in_range lo hi z as b return in_range lo hi z = b -> option (ranged lo hi) with
  | true => fun e => Some (Ranged z e)
  | false => fun _ => None
  end eq_refl.

Lemma checked_Some lo hi z (x : ranged lo hi) :
  checked lo hi z = Some x <-> z = val x.
Proof.
  unfold checked. split.
  - generalize (eq_refl (in_range lo hi z)).
    generalize (in_range lo hi z) at 2 3. intros [] e; naive_solver.
  - intros ->. pose proof (val_in_range x) as H.
    generalize (eq_refl (in_range lo hi (val x))).
    generalize (in_range lo hi (val x)) at 2 3. intros b e.
    destruct b; [|congruence]. f_equal. by apply val_inj.
Qed.

Lemma checked_None lo hi z : checked lo hi z = None <-> ~ (lo <= z < hi).
Proof.
  unfold checked, in_range.
  generalize (eq_refl ((lo <=? z) && (z <? hi))).
  generalize ((lo <=? z) && (z <? hi)) at 2 3. intros [] e.
  - split; [discriminate|]. intros H. exfalso. apply H. lia.
  - split; [|done]. intros _ H. lia.
Qed.

Lemma checked_in lo hi z : lo <= z < hi -> exists x, checked lo hi z = Some x /\ val x = z.
Proof.
  intros H. destruct (checked lo hi z) as [x|] eqn:E.
  - exists x. split; [done|]. symmetry. by apply checked_Some.
  - apply checked_None in E. lia.
Qed.

(** Wrapping conversion into [w] bits, total. *)
Definition u64_zero : u64 := @Ranged 0 (2 ^ 64) 0 eq_refl.

Definition u64_of (z : Z) : u64 :=
  match checked 0 (2 ^ 64) (z mod 2 ^ 64) with Some x => x | None => u64_zero end.

Definition u32_of (z : Z) : u32 :=
  match checked 0 (2 ^ 32) (z mod 2 ^ 32) with Some x => x | None => @Ranged 0 (2 ^ 32) 0 eq_refl end.

Definition i64_of (z : Z) : i64 :=
  match checked (- 2 ^ 63) (2 ^ 63) ((z + 2 ^ 63) mod 2 ^ 64 - 2 ^ 63) with
  | Some x => x
  | None => @Ranged (- 2 ^ 63) (2 ^ 63) 0 eq_refl
  end.

Lemma val_u64_of z : val (u64_of z) = z mod 2 ^ 64.
Proof.
  unfold u64_of. pose proof (Z.mod_pos_bound z (2 ^ 64) ltac:(lia)).
  destruct (checked_in 0 (2 ^ 64) (z mod 2 ^ 64)) as (x & -> & ?); done.
Qed.

Lemma val_u64_of_small z : 0 <= z < 2 ^ 64 -> val (u64_of z) = z.
Proof. intros. rewrite val_u64_of. by apply Z.mod_small. Qed.

Lemma val_u32_of z : val (u32_of z) = z mod 2 ^ 32.
Proof.
  unfold u32_of. pose proof (Z.mod_pos_bound z (2 ^ 32) ltac:(lia)).
  destruct (checked_in 0 (2 ^ 32) (z mod 2 ^ 32)) as (x & -> & ?); done.
Qed.

Lemma u64_of_val (x : u64) : u64_of (val x) = x.
Proof. apply val_inj, val_u64_of_small, val_bounds. Qed.

Lemma u32_of_val (x : u32) : u32_of (val x) = x.
Proof. apply val_inj. rewrite val_u32_of. apply Z.mod_small, val_bounds. Qed.

Lemma val_i64_of z : - 2 ^ 63 <= z < 2 ^ 63 -> val (i64_of z) = z.
Proof.
  intros. unfold i64_of. rewrite Z.mod_small by lia.
  destruct (checked_in (- 2 ^ 63) (2 ^ 63) (z + 2 ^ 63 - 2 ^ 63)) as (x & -> & ?); lia.
Qed.

Definition u64_checked_add (x : u64) (y : Z) : option u64 := checked 0 (2 ^ 64) (val x + y).
Definition u64_saturating_sub (x : u64) (y : Z) : u64 := u64_of (Z.max 0 (val x - y)).
Definition u64_saturating_add (x : u64) (y : Z) : u64 := u64_of (Z.min (2 ^ 64 - 1) (val x + y)).
Definition i64_saturating_add (x y : i64) : i64 :=
  i64_of (Z.max (- 2 ^ 63) (Z.min (2 ^ 63 - 1) (val x + val y))).

Lemma u64_saturating_add_val x y :
  0 <= y -> val (u64_saturating_add x y) = Z.min (2 ^ 64 - 1) (val x + y).
Proof.
  intros. unfold u64_saturating_add. pose proof (val_bounds x).
  apply val_u64_of_small. lia.
Qed.

Lemma u64_saturating_sub_val x y :
  0 <= y -> val (u64_saturating_sub x y) = Z.max 0 (val x - y).
Proof.
  intros. unfold u64_saturating_sub. pose proof (val_bounds x).
  apply val_u64_of_small. lia.
Qed.

Lemma i64_saturating_add_val x y :
  val (i64_saturating_add x y) = Z.max (- 2 ^ 63) (Z.min (2 ^ 63 - 1) (val x + val y)).
Proof. unfold i64_saturating_add. apply val_i64_of. lia. Qed.

(** * Fixed-size byte arrays, [[u8; n]] *)

Record byte_array (n : nat) := ByteArray {
  array_bytes : bytes;
  array_length : (length array_bytes =? n)%nat = true
}.
Arguments ByteArray {n} array_bytes array_length.
Arguments array_bytes {n} b.
Arguments array_length {n} b.

Lemma array_inj {n} (x y : byte_array n) : array_bytes x = array_bytes y -> x = y.
Proof.
  destruct x as [x px], y as [y py]. simpl. intros ->. f_equal.
  apply UIP_dec. apply Bool.bool_dec.
Qed.

Lemma length_array {n} (x : byte_array n) : length (array_bytes x) = n.
Proof. apply Nat.eqb_eq, array_length. Qed.

#[export] Instance byte_eq_dec : EqDecision byte := Byte.byte_eq_dec.

#[export] Instance byte_array_eq_dec {n} : EqDecision (byte_array n).
Proof.
  intros x y. destruct (decide (array_bytes x = array_bytes y)) as [E|E].
  - left. by apply array_inj.
  - right. congruence.
Defined.

(** [copy_from_slice] into an array of [n] bytes; the slice has that length. *)
Definition array_of (n : nat) (l : bytes) : option (byte_array n) :=
  match (length l =? n)%nat as b return (length l =? n)%nat = b -> option (byte_array n) with
  | true => fun e => Some (ByteArray l e)
  | false => fun _ => None
  end eq_refl.

Lemma array_of_Some n l (a : byte_array n) : array_of n l = Some a <-> l = array_bytes a.
Proof.
  unfold array_of. split.
  - generalize (eq_refl (length l =? n)%nat).
    generalize (length l =? n)%nat at 2 3. intros [] e; naive_solver.
  - intros ->. generalize (eq_refl (length (array_bytes a) =? n)%nat).
    generalize (length (array_bytes a) =? n)%nat at 2 3. intros b e.
    destruct b; [f_equal; by apply array_inj|]. rewrite (array_length a) in e. done.
Qed.

Definition array_zero (n : nat) : byte_array n :=
  match array_of n (repeat x00 n) as o return array_of n (repeat x00 n) = o -> byte_array n with
  | Some a => fun _ => a
  | None => fun e => ByteArray (repeat x00 n)
      (match repeat_length x00 n in _ = m return ((length (repeat x00 n) =? m)%nat = true) with
       | eq_refl => Nat.eqb_refl _ end)
  end eq_refl.

(** Total version of [array_of], zero when the slice has another length. *)
Definition array_from (n : nat) (l : bytes) : byte_array n := default (array_zero n) (array_of n l).

Lemma array_from_bytes {n} (a : byte_array n) : array_from n (array_bytes a) = a.
Proof. unfold array_from. by rewrite (proj2 (array_of_Some n _ a) eq_refl). Qed.

Lemma array_bytes_from n l : length l = n -> array_bytes (array_from n l) = l.
Proof.
  intros H. unfold array_from. destruct (array_of n l) as [a|] eqn:E.
  - simpl. symmetry. by apply array_of_Some.
  - exfalso. revert E. unfold array_of.
    generalize (eq_refl (length l =? n)%nat). generalize (length l =? n)%nat at 2 3.
    intros b e. destruct b; [done|]. apply Nat.eqb_neq in e. done.
Qed.

(** * Little-endian byte strings *)

Definition byte_of_Z (z : Z) : byte := default x00 (Byte.of_N (Z.to_N (z mod 256))).

Definition Z_of_byte (b : byte) : Z := Z.of_N (Byte.to_N b).

Lemma Z_of_byte_bounds b : 0 <= Z_of_byte b < 256.
Proof. unfold Z_of_byte. pose proof (Byte.to_N_bounded b). lia. Qed.

Lemma byte_of_Z_of_byte b : byte_of_Z (Z_of_byte b) = b.
Proof.
  unfold byte_of_Z. rewrite Z.mod_small by apply Z_of_byte_bounds.
  unfold Z_of_byte. by rewrite N2Z.id, Byte.of_to_N.
Qed.

Lemma Z_of_byte_of_Z z : Z_of_byte (byte_of_Z z) = z mod 256.
Proof.
  unfold byte_of_Z. pose proof (Z.mod_pos_bound z 256 ltac:(lia)) as Hb.
  destruct (Byte.of_N (Z.to_N (z mod 256))) as [b|] eqn:E; simpl.
  - apply Byte.to_of_N in E. unfold Z_of_byte. rewrite E. lia.
  - apply Byte.of_N_None_iff in E. lia.
Qed.

Fixpoint le_bytes (n : nat) (z : Z) : bytes :=
  match n with
  | O => []
  | S n => byte_of_Z z :: le_bytes n (z / 256)
  end.

Fixpoint le_value (l : bytes) : Z :=
  match l with
  | [] => 0
  | b :: l => Z_of_byte b + 256 * le_value l
  end.

Lemma length_le_bytes n z : length (le_bytes n z) = n.
Proof. revert z. induction n; intros; simpl; auto. Qed.

Lemma le_value_bounds l : 0 <= le_value l < 256 ^ len l.
Proof.
  induction l as [|b l IH]; simpl length; [done|].
  rewrite Nat2Z.inj_succ, Z.pow_succ_r by lia. simpl le_value.
  pose proof (Z_of_byte_bounds b). lia.
Qed.

Lemma le_value_le_bytes n z : 0 <= z < 256 ^ Z.of_nat n -> le_value (le_bytes n z) = z.
Proof.
  revert z. induction n as [|n IH]; intros z Hz.
  - simpl in *. lia.
  - rewrite Nat2Z.inj_succ, Z.pow_succ_r in Hz by lia.
    simpl. rewrite Z_of_byte_of_Z, IH.
    + pose proof (Z.div_mod z 256 ltac:(lia)). lia.
    + split; [apply Z.div_pos; lia|]. apply Z.div_lt_upper_bound; lia.
Qed.

Lemma le_bytes_le_value l : le_bytes (length l) (le_value l) = l.
Proof.
  induction l as [|b l IH]; simpl; [done|].
  pose proof (Z_of_byte_bounds b). f_equal.
  - unfold byte_of_Z. rewrite (Z.mul_comm 256), Z_mod_plus_full.
    change (default x00 (Byte.of_N (Z.to_N (Z_of_byte b mod 256)))) with (byte_of_Z (Z_of_byte b)).
    apply byte_of_Z_of_byte.
  - by rewrite (Z.mul_comm 256), Z.div_add, Z.div_small by lia.
Qed.

Lemma le_bytes_inj n x y :
  0 <= x < 256 ^ Z.of_nat n -> 0 <= y < 256 ^ Z.of_nat n -> le_bytes n x = le_bytes n y -> x = y.
Proof.
  intros Hx Hy E. apply (f_equal le_value) in E. by rewrite !le_value_le_bytes in E.
Qed.

Lemma le_bytes_nth_of_value n l : length l = n -> le_bytes n (le_value l) = l.
Proof. intros <-. apply le_bytes_le_value. Qed.

(** Two's complement view of a signed 64-bit integer. *)
Definition i64_bits (x : i64) : Z := val x mod 2 ^ 64.

Lemma i64_bits_inj x y : i64_bits x = i64_bits y -> x = y.
Proof.
  unfold i64_bits. intros E. apply val_inj.
  pose proof (val_bounds x). pose proof (val_bounds y).
  pose proof (Z.div_mod (val x) (2 ^ 64) ltac:(lia)) as Hx.
  pose proof (Z.div_mod (val y) (2 ^ 64) ltac:(lia)) as Hy.
  rewrite E in Hx. nia.
Qed.

(** * Byte strings of Rust strings *)

Definition str_bytes (s : string) : bytes := String.list_byte_of_string s.

Lemma str_bytes_inj s t : str_bytes s = str_bytes t -> s = t.
Proof.
  unfold str_bytes. intros E.
  by rewrite <- (String.string_of_list_byte_of_string s), E, String.string_of_list_byte_of_string.
Qed.

(** * Slices *)

(** [&bytes[off .. off + n]]; the callers check the bounds. *)
Definition slice (off n : nat) (l : bytes) : bytes := take n (drop off l).

Lemma length_slice off n l : (off + n <= length l)%nat -> length (slice off n l) = n.
Proof. intros. unfold slice. rewrite length_take, length_drop. lia. Qed.

Lemma slice_skip off n a b :
  (length a <= off)%nat -> slice off n (a ++ b) = slice (off - length a) n b.
Proof. intros. unfold slice. by rewrite drop_app_ge. Qed.

Lemma slice_hit n a b : length a = n -> slice 0 n (a ++ b) = a.
Proof. intros <-. unfold slice. by rewrite drop_0, take_app_length. Qed.

Lemma slice_all n a : length a = n -> slice 0 n a = a.
Proof. intros <-. unfold slice. rewrite drop_0. apply take_ge. done. Qed.

Lemma slice_within off n a b :
  (off + n <= length a)%nat -> slice off n (a ++ b) = slice off n a.
Proof.
  intros. unfold slice. rewrite drop_app_le by lia. apply take_app_le.
  rewrite length_drop. lia.
Qed.

Lemma slice_split off n l :
  (off + n <= length l)%nat -> drop off l = slice off n l ++ drop (off + n) l.
Proof.
  intros. unfold slice. rewrite <- (take_drop n (drop off l)) at 1.
  by rewrite drop_drop.
Qed.

Lemma length_str_bytes s : length (str_bytes s) = String.length s.
Proof.
  unfold str_bytes, String.list_byte_of_string. rewrite length_map.
  induction s; simpl; auto.
Qed.

(** Lengths of the pieces of a record are computed by [lens]. *)
Create Rewrite HintDb lens.
#[export] Hint Rewrite @length_app length_le_bytes @length_array @length_cons @length_nil : lens.

Ltac lens := autorewrite with lens.

(** Reads a field of a concatenation of fields of known length. *)
Ltac slices :=
  repeat first
    [ rewrite slice_hit by (lens; reflexivity)
    | rewrite slice_all by (lens; reflexivity)
    | rewrite slice_skip by (lens; lia); lens; simpl Nat.sub ].

(** A byte string shorter than [2^64]: the condition under which a Rust
    length prefix ([len as u64]) is exact. *)
Definition fits (l : bytes) : Prop := len l < 2 ^ 64.

Lemma fits_app l1 l2 : fits (l1 ++ l2) -> fits l1 /\ fits l2.
Proof. unfold fits. rewrite length_app. lia. Qed.

(** Equal concatenations with equally long heads split. *)
Lemma app_eq_length {A} (a b c d : list A) :
  length a = length b -> a ++ c = b ++ d -> a = b /\ c = d.
Proof. intros L E. by apply app_inj_1 in E. Qed.

Lemma list_snoc_cases {A} (l : list A) : l = [] \/ exists l' a, l = l' ++ [a].
Proof. induction l using rev_ind; eauto. Qed.

Lemma is_empty_false {A} (l : list A) : l <> [] -> match l with [] => true | _ => false end = false.
Proof. by destruct l. Qed.
