(* ===== verification/BTree.v ===== *)
(** Rust's ordered collections: [BTreeMap] and [BTreeSet] as lists of entries
    whose keys increase, so that iterating over one is reading its list, and the
    orders of the keys the program uses: texts byte by byte, pairs, integers. *)

From Stdlib Require Import Eqdep_dec.
From S2P Require Import Prelude.

Open Scope Z_scope.

(** * Orders *)

(** [Ord] of a type of keys: a strict total order. *)
Class KeyOrder (K : Type) := {
  key_ltb : K -> K -> bool;
  key_ltb_irrefl k : key_ltb k k = false;
  key_ltb_trans k1 k2 k3 : key_ltb k1 k2 = true -> key_ltb k2 k3 = true -> key_ltb k1 k3 = true;
  key_ltb_total k1 k2 : key_ltb k1 k2 = true \/ k1 = k2 \/ key_ltb k2 k1 = true
}.

(** Texts compare byte by byte, in Rust as in SQLite. *)
Fixpoint text_lt (a b : bytes) : bool :=
  match a, b with
  | _, [] => false
  | [], _ :: _ => true
  | x :: a, y :: b => (Z_of_byte x <? Z_of_byte y) || ((Z_of_byte x =? Z_of_byte y) && text_lt a b)
  end.

Lemma text_lt_irrefl a : text_lt a a = false.
Proof. induction a as [|x a IH]; [done|]. cbn. by rewrite Z.ltb_irrefl, Z.eqb_refl, IH. Qed.

Lemma text_lt_trans a b c : text_lt a b = true -> text_lt b c = true -> text_lt a c = true.
Proof.
  revert b c. induction a as [|x a IH]; intros [|y b] [|z c]; cbn; try done.
  rewrite !orb_true_iff, !andb_true_iff, !Z.ltb_lt, !Z.eqb_eq.
  intros [H1|[H1 H2]] [H3|[H3 H4]]; [left; lia..|]. right. split; [lia|by eapply IH].
Qed.

Lemma text_lt_total a b : text_lt a b = true \/ a = b \/ text_lt b a = true.
Proof.
  revert b. induction a as [|x a IH]; intros [|y b]; cbn; [by right; left|by left|by right; right|].
  rewrite !orb_true_iff, !andb_true_iff, !Z.ltb_lt, !Z.eqb_eq.
  destruct (Z.lt_trichotomy (Z_of_byte x) (Z_of_byte y)) as [Hlt|[E|Hlt]]; [by left; left| |by right; right; left].
  destruct (IH b) as [Ht|[->|Ht]]; [left; right; done|right; left|right; right; right; done].
  f_equal. by rewrite <- (byte_of_Z_of_byte x), E, byte_of_Z_of_byte.
Qed.

Lemma str_lt_total s t :
  text_lt (str_bytes s) (str_bytes t) = true \/ s = t \/ text_lt (str_bytes t) (str_bytes s) = true.
Proof.
  destruct (text_lt_total (str_bytes s) (str_bytes t)) as [?|[E|?]]; [by left|right; left|by right; right].
  by apply str_bytes_inj.
Qed.

#[export] Instance string_order : KeyOrder string := {|
  key_ltb s t := text_lt (str_bytes s) (str_bytes t);
  key_ltb_irrefl s := text_lt_irrefl _;
  key_ltb_trans s t u := text_lt_trans _ _ _;
  key_ltb_total := str_lt_total
|}.

Lemma ranged_lt_total {lo hi} (x y : ranged lo hi) :
  (val x <? val y) = true \/ x = y \/ (val y <? val x) = true.
Proof.
  rewrite !Z.ltb_lt. destruct (Z.lt_trichotomy (val x) (val y)) as [?|[?|?]];
    [by left|right; left; by apply val_inj|by right; right].
Qed.

Lemma Zltb_trans (x y z : Z) : (x <? y) = true -> (y <? z) = true -> (x <? z) = true.
Proof. rewrite !Z.ltb_lt. lia. Qed.

#[export] Instance ranged_order {lo hi} : KeyOrder (ranged lo hi) := {|
  key_ltb x y := val x <? val y;
  key_ltb_irrefl x := Z.ltb_irrefl _;
  key_ltb_trans x y z := Zltb_trans _ _ _;
  key_ltb_total := ranged_lt_total
|}.

(** A key that is compared through an injective view of it: derived [Ord]. *)
Section Through.
Context {A B : Type} `{KeyOrder B} (f : A -> B) (f_inj : forall x y, f x = f y -> x = y).

Lemma through_total x y : key_ltb (f x) (f y) = true \/ x = y \/ key_ltb (f y) (f x) = true.
Proof.
  destruct (key_ltb_total (f x) (f y)) as [?|[?|?]]; [by left|right; left; auto|by right; right].
Qed.

Definition order_through : KeyOrder A := {|
  key_ltb x y := key_ltb (f x) (f y);
  key_ltb_irrefl x := key_ltb_irrefl _;
  key_ltb_trans x y z := key_ltb_trans _ _ _;
  key_ltb_total := through_total
|}.
End Through.

(** Pairs compare by their first component first. *)
Section Pairs.
Context {A B : Type} `{EqDecision A, KeyOrder A, KeyOrder B}.

Definition pair_ltb (p q : A * B) : bool :=
  key_ltb (fst p) (fst q) || (bool_decide (fst p = fst q) && key_ltb (snd p) (snd q)).

Lemma pair_ltb_spec p q :
  pair_ltb p q = true <->
  key_ltb (fst p) (fst q) = true \/ (fst p = fst q /\ key_ltb (snd p) (snd q) = true).
Proof. unfold pair_ltb. by rewrite orb_true_iff, andb_true_iff, bool_decide_eq_true. Qed.

Lemma pair_ltb_irrefl p : pair_ltb p p = false.
Proof.
  apply not_true_is_false. rewrite pair_ltb_spec, !key_ltb_irrefl. intros [?|[_ ?]]; done.
Qed.

Lemma pair_ltb_trans p q r : pair_ltb p q = true -> pair_ltb q r = true -> pair_ltb p r = true.
Proof.
  rewrite !pair_ltb_spec. intros [?|[E1 ?]] [?|[E2 ?]].
  - left. by eapply key_ltb_trans.
  - left. by rewrite <- E2.
  - left. by rewrite E1.
  - right. split; [by rewrite E1|by eapply key_ltb_trans].
Qed.

Lemma pair_ltb_total p q : pair_ltb p q = true \/ p = q \/ pair_ltb q p = true.
Proof.
  rewrite !pair_ltb_spec. destruct p as [a b], q as [a' b']. cbn [fst snd].
  destruct (key_ltb_total a a') as [?|[->|?]]; [by left; left| |by right; right; left].
  destruct (key_ltb_total b b') as [?|[->|?]]; [left; by right|by right; left|right; right; by right].
Qed.

#[export] Instance pair_order : KeyOrder (A * B) := {|
  key_ltb := pair_ltb;
  key_ltb_irrefl := pair_ltb_irrefl;
  key_ltb_trans := pair_ltb_trans;
  key_ltb_total := pair_ltb_total
|}.
End Pairs.

(** * Entries in order *)

Section Entries.
Context {K : Type} `{EqDecision K, KeyOrder K} {V : Type}.
Implicit Types l : list (K * V).

(** Every key is smaller than the ones after it. *)
Fixpoint increasing l : bool :=
  match l with
  | [] => true
  | (k, _) :: l => forallb (fun e => key_ltb k (fst e)) l && increasing l
  end.

Fixpoint entries_get (k : K) l : option V :=
  match l with
  | [] => None
  | (k', v) :: l => if decide (k = k') then Some v else entries_get k l
  end.

Fixpoint entries_insert (k : K) (v : V) l : list (K * V) :=
  match l with
  | [] => [(k, v)]
  | (k', v') :: l =>
      if decide (k = k') then (k, v) :: l
      else if key_ltb k k' then (k, v) :: (k', v') :: l
      else (k', v') :: entries_insert k v l
  end.

Definition entries_remove (k : K) l : list (K * V) := List.filter (fun e => bool_decide (fst e <> k)) l.

Lemma key_ltb_ne k k' : key_ltb k k' = true -> k <> k'.
Proof. intros Hlt ->. by rewrite key_ltb_irrefl in Hlt. Qed.

Lemma key_ltb_flip k k' : k <> k' -> key_ltb k k' = false -> key_ltb k' k = true.
Proof. intros Hne Hlt. destruct (key_ltb_total k k') as [?|[?|?]]; [congruence|done|done]. Qed.

Lemma increasing_cons k v l :
  increasing ((k, v) :: l) = true <->
  (forall e, e ∈ l -> key_ltb k (fst e) = true) /\ increasing l = true.
Proof.
  cbn. rewrite andb_true_iff, forallb_forall. setoid_rewrite list_elem_of_In. done.
Qed.

Lemma elem_of_entries_insert k v l e : e ∈ entries_insert k v l -> e = (k, v) \/ e ∈ l.
Proof.
  induction l as [|[k' v'] l IH]; cbn; [set_solver|]. repeat case_decide; [set_solver|].
  destruct (key_ltb k k'); [set_solver|]. rewrite !elem_of_cons. intros [?|?]; [by right; left|].
  destruct IH; auto.
Qed.

Lemma increasing_insert k v l : increasing l = true -> increasing (entries_insert k v l) = true.
Proof.
  induction l as [|[k' v'] l IH]; [done|]. rewrite increasing_cons. intros [Hk Hl]. cbn [entries_insert].
  case_decide as E; [subst; by apply increasing_cons|]. destruct (key_ltb k k') eqn:Hlt.
  - apply increasing_cons. split; [|by apply increasing_cons]. intros e. rewrite elem_of_cons.
    intros [->|He]; [done|]. eapply key_ltb_trans; [exact Hlt|]. by apply Hk.
  - apply increasing_cons. split; [|by apply IH]. intros e [->|He]%elem_of_entries_insert; [|by apply Hk].
    by apply key_ltb_flip.
Qed.

Lemma increasing_filter f l : increasing l = true -> increasing (List.filter f l) = true.
Proof.
  induction l as [|[k v] l IH]; [done|]. rewrite increasing_cons. intros [Hk Hl]. cbn [List.filter].
  destruct (f (k, v)); [|by apply IH]. apply increasing_cons. split; [|by apply IH].
  intros e He. apply Hk. apply list_elem_of_In in He. apply List.filter_In in He. apply list_elem_of_In, He.
Qed.

Lemma entries_get_elem k v l : increasing l = true -> entries_get k l = Some v <-> (k, v) ∈ l.
Proof.
  induction l as [|[k' v'] l IH]; [set_solver|]. rewrite increasing_cons. intros [Hk Hl]. cbn.
  rewrite elem_of_cons. case_decide as E.
  - subst k'. split; [intros [= ->]; by left|]. intros [[= ->]|He]; [done|].
    apply Hk in He. cbn in He. by rewrite key_ltb_irrefl in He.
  - rewrite IH by done. split; [by right|]. intros [[= ? ?]|?]; done.
Qed.

Lemma entries_get_insert k v k' l :
  entries_get k' (entries_insert k v l) = if decide (k' = k) then Some v else entries_get k' l.
Proof.
  induction l as [|[k0 v0] l IH]; cbn; [done|]. destruct (decide (k = k0)) as [->|Hne]; cbn.
  - by repeat case_decide.
  - destruct (key_ltb k k0); cbn; [by repeat case_decide|]. rewrite IH.
    repeat case_decide; congruence.
Qed.

Lemma entries_get_remove k k' l :
  entries_get k' (entries_remove k l) = if decide (k' = k) then None else entries_get k' l.
Proof.
  induction l as [|[k0 v0] l IH]; cbn; [by case_decide|]. destruct (decide (k0 = k)) as [->|Hne].
  - rewrite bool_decide_eq_false_2 by (intros Hn; by apply Hn). fold (entries_remove k l). rewrite IH.
    repeat case_decide; congruence.
  - rewrite bool_decide_eq_true_2 by done. cbn. fold (entries_remove k l). rewrite IH.
    repeat case_decide; congruence.
Qed.

Lemma entries_get_here k v l : entries_get k ((k, v) :: l) = Some v.
Proof. cbn. by rewrite decide_True. Qed.

Lemma entries_get_there k k' v l : k <> k' -> entries_get k ((k', v) :: l) = entries_get k l.
Proof. intros Hne. cbn. by rewrite decide_False. Qed.

(** A key smaller than all of a list has no entry in it. *)
Lemma entries_get_below k l :
  increasing l = true -> (forall e, e ∈ l -> key_ltb k (fst e) = true) -> entries_get k l = None.
Proof.
  intros Hl Hk. apply eq_None_not_Some. intros [v Hv%entries_get_elem]; [|done]. apply Hk in Hv. cbn in Hv.
  by rewrite key_ltb_irrefl in Hv.
Qed.

(** Lists of entries in order with the same values at every key are the same. *)
Lemma entries_ext l1 l2 :
  increasing l1 = true -> increasing l2 = true ->
  (forall k, entries_get k l1 = entries_get k l2) -> l1 = l2.
Proof.
  revert l2. induction l1 as [|[k1 v1] l1 IH]; intros [|[k2 v2] l2] Hi1 Hi2 E.
  - done.
  - specialize (E k2). by rewrite entries_get_here in E.
  - specialize (E k1). by rewrite entries_get_here in E.
  - pose proof Hi1 as [Hk1 Hl1]%increasing_cons. pose proof Hi2 as [Hk2 Hl2]%increasing_cons.
    assert (k1 = k2) as <-.
    { pose proof (E k1) as E1. pose proof (E k2) as E2. rewrite entries_get_here in E1, E2.
      destruct (decide (k1 = k2)) as [|Hne]; [done|]. rewrite entries_get_there in E1, E2 by done.
      symmetry in E1. apply entries_get_elem, Hk2 in E1; [|done]. apply entries_get_elem, Hk1 in E2; [|done].
      cbn in E1, E2. pose proof (key_ltb_trans _ _ _ E1 E2) as Ht. by rewrite key_ltb_irrefl in Ht. }
    pose proof (E k1) as E1. rewrite !entries_get_here in E1. injection E1 as <-.
    f_equal. apply IH; [done..|]. intros k. destruct (decide (k = k1)) as [->|Hne].
    + by rewrite !entries_get_below.
    + specialize (E k). by rewrite !entries_get_there in E.
Qed.
End Entries.

(** * Maps *)

Record btree (K V : Type) `{EqDecision K, KeyOrder K} := BTree {
  entries : list (K * V);
  entries_increasing : increasing entries = true
}.
Arguments BTree {K V _ _} entries entries_increasing.
Arguments entries {K V _ _} b.
Arguments entries_increasing {K V _ _} b.

Section Maps.
Context {K V : Type} `{EqDecision K, KeyOrder K}.
Implicit Types m : btree K V.

Definition bt_empty : btree K V := BTree [] eq_refl.
Definition bt_get (k : K) m : option V := entries_get k (entries m).
Definition bt_contains (k : K) m : bool := match bt_get k m with Some _ => true | None => false end.
Definition bt_insert (k : K) (v : V) m : btree K V :=
  BTree (entries_insert k v (entries m)) (increasing_insert k v _ (entries_increasing m)).
Definition bt_remove (k : K) m : btree K V :=
  BTree (entries_remove k (entries m)) (increasing_filter _ _ (entries_increasing m)).
Definition bt_keys m : list K := (entries m).*1.
Definition bt_values m : list V := (entries m).*2.
Definition bt_size m : nat := length (entries m).

(** [collect] of entries into a map: later ones replace earlier ones. *)
Definition bt_collect (l : list (K * V)) : btree K V :=
  fold_left (fun m e => bt_insert (fst e) (snd e) m) l bt_empty.

Lemma bt_get_empty k : bt_get k bt_empty = None.
Proof. done. Qed.

Lemma bt_get_insert k v k' m : bt_get k' (bt_insert k v m) = if decide (k' = k) then Some v else bt_get k' m.
Proof. apply entries_get_insert. Qed.

Lemma bt_get_insert_eq k v m : bt_get k (bt_insert k v m) = Some v.
Proof. by rewrite bt_get_insert, decide_True. Qed.

Lemma bt_get_insert_ne k v k' m : k' <> k -> bt_get k' (bt_insert k v m) = bt_get k' m.
Proof. intros. by rewrite bt_get_insert, decide_False. Qed.

Lemma bt_get_remove k k' m : bt_get k' (bt_remove k m) = if decide (k' = k) then None else bt_get k' m.
Proof. apply entries_get_remove. Qed.

Lemma bt_entry k v m : (k, v) ∈ entries m <-> bt_get k m = Some v.
Proof. symmetry. apply entries_get_elem, entries_increasing. Qed.

Lemma bt_contains_spec k m : bt_contains k m = true <-> is_Some (bt_get k m).
Proof. unfold bt_contains, is_Some. destruct (bt_get k m); naive_solver. Qed.

Lemma bt_contains_false k m : bt_contains k m = false <-> bt_get k m = None.
Proof. unfold bt_contains. by destruct (bt_get k m). Qed.

Lemma bt_key k m : k ∈ bt_keys m <-> is_Some (bt_get k m).
Proof.
  unfold bt_keys. rewrite list_elem_of_fmap. split.
  - intros ([k' v] & -> & He). exists v. by apply bt_entry.
  - intros [v Hv]. exists (k, v). by rewrite bt_entry.
Qed.

Lemma bt_value v m : v ∈ bt_values m <-> exists k, bt_get k m = Some v.
Proof.
  unfold bt_values. rewrite list_elem_of_fmap. split.
  - intros ([k v'] & -> & He). exists k. by apply bt_entry.
  - intros [k Hk]. exists (k, v). by rewrite bt_entry.
Qed.

Lemma bt_ext m1 m2 : (forall k, bt_get k m1 = bt_get k m2) -> m1 = m2.
Proof.
  destruct m1 as [l1 i1], m2 as [l2 i2]. intros E.
  assert (l1 = l2) as -> by by apply entries_ext. f_equal. apply UIP_dec, Bool.bool_dec.
Qed.

Lemma increasing_NoDup (l : list (K * V)) : increasing l = true -> NoDup l.*1.
Proof.
  induction l as [|[k v] l IH]; [by constructor|]. rewrite increasing_cons. intros [Hk Hl]. cbn. constructor; [|by apply IH].
  rewrite list_elem_of_fmap. intros (e & -> & He). apply Hk in He. by rewrite key_ltb_irrefl in He.
Qed.

Lemma bt_keys_NoDup m : NoDup (bt_keys m).
Proof. apply increasing_NoDup, entries_increasing. Qed.

Lemma bt_entries_NoDup m : NoDup (entries m).
Proof. eapply NoDup_fmap_1, bt_keys_NoDup. Qed.

(** Later keys are larger. *)
Lemma increasing_lookup_lt (l : list (K * V)) i j e1 e2 :
  increasing l = true -> l !! i = Some e1 -> l !! j = Some e2 -> (i < j)%nat -> key_ltb (fst e1) (fst e2) = true.
Proof.
  revert i j. induction l as [|[k v] l IH]; intros i j Hi E1 E2 Hij; [done|].
  apply increasing_cons in Hi as [Hk Hl]. destruct j as [|j]; [lia|]. cbn in E2. destruct i as [|i].
  - injection E1 as <-. apply Hk. by eapply list_elem_of_lookup_2.
  - eapply (IH i j); [done..|lia].
Qed.

(** The size counts the keys: a list without repetition of present keys is no
    longer. *)
Lemma bt_size_keys m (l : list K) : NoDup l -> (forall k, k ∈ l -> is_Some (bt_get k m)) -> (length l <= bt_size m)%nat.
Proof.
  intros Hnd Hin. assert (length (bt_keys m) = bt_size m) as <- by apply length_fmap.
  apply submseteq_length, NoDup_submseteq; [done|]. intros k Hk. apply bt_key, Hin, Hk.
Qed.

Lemma entries_insert_length k v (l : list (K * V)) :
  increasing l = true -> entries_get k l = None -> length (entries_insert k v l) = S (length l).
Proof.
  induction l as [|[k' v'] l IH]; [done|]. rewrite increasing_cons. intros [Hk Hl]. cbn. case_decide; [done|]. intros Hn.
  destruct (key_ltb k k'); [done|]. cbn. by rewrite IH.
Qed.

Lemma bt_size_insert k v m : bt_get k m = None -> bt_size (bt_insert k v m) = S (bt_size m).
Proof. intros. apply entries_insert_length; [apply entries_increasing|done]. Qed.
End Maps.

(** Two maps with the same keys and related values. *)
#[export] Instance btree_eq_dec {K V} `{EqDecision K, KeyOrder K, EqDecision V} : EqDecision (btree K V).
Proof.
  intros [l1 i1] [l2 i2]. destruct (decide (l1 = l2)) as [->|Hne].
  - left. f_equal. apply UIP_dec, Bool.bool_dec.
  - right. congruence.
Defined.

(** * Sets *)

Abbreviation bset K := (btree K unit).

Section Sets.
Context {K : Type} `{EqDecision K, KeyOrder K}.
Implicit Types s : bset K.

Definition bs_add (k : K) s : bset K := bt_insert k tt s.
Definition bs_list s : list K := bt_keys s.

(** [extend] and [collect] *)
Definition bs_extend (l : list K) s : bset K := fold_left (fun s k => bs_add k s) l s.
Definition bs_collect (l : list K) : bset K := bs_extend l bt_empty.

Lemma bs_contains_add k k' s : bt_contains k' (bs_add k s) = bool_decide (k' = k) || bt_contains k' s.
Proof. unfold bs_add, bt_contains. rewrite bt_get_insert. case_decide; by case_bool_decide. Qed.

Lemma bs_contains_remove k k' s : bt_contains k' (bt_remove k s) = negb (bool_decide (k' = k)) && bt_contains k' s.
Proof. unfold bt_contains. rewrite bt_get_remove. case_decide; by case_bool_decide. Qed.

Lemma bs_elem k s : k ∈ bs_list s <-> bt_contains k s = true.
Proof. by rewrite bt_contains_spec, <- bt_key. Qed.

Lemma bs_extend_elem k l s : bt_contains k (bs_extend l s) = true <-> k ∈ l \/ bt_contains k s = true.
Proof.
  revert s. induction l as [|k' l IH]; intros s; cbn; [set_solver|]. unfold bs_extend in IH. rewrite IH, bs_contains_add.
  rewrite orb_true_iff, bool_decide_eq_true, elem_of_cons. naive_solver.
Qed.

Lemma bs_collect_elem k l : bt_contains k (bs_collect l) = true <-> k ∈ l.
Proof. unfold bs_collect. rewrite bs_extend_elem. naive_solver. Qed.

Lemma bs_list_NoDup s : NoDup (bs_list s).
Proof. apply bt_keys_NoDup. Qed.

Lemma bs_ext s1 s2 : (forall k, bt_contains k s1 = bt_contains k s2) -> s1 = s2.
Proof.
  intros E. apply bt_ext. intros k. specialize (E k). unfold bt_contains in E.
  destruct (bt_get k s1) as [[]|], (bt_get k s2) as [[]|]; done.
Qed.
End Sets.
