(* ===== verification/Canonical.v ===== *)
(** Identifiers, revisions and the canonical byte encoding
    (thread-store-contracts: canonical.rs, ids.rs, revision.rs).

    A [CanonicalHasher] is modelled by the bytes fed to it so far; [finish]
    applies the SHA-256 parameter of the class [External].  The interface
    [PrefixFree] is the promise the encoders make to the digests built from
    them: an encoding is recognised in front of any continuation. *)

From S2P Require Import Prelude.

(** * Code of other crates *)

Abbreviation Uuid := (byte_array 16).

Class External := {
  sha256 : bytes -> byte_array 32;
  crc32c : bytes -> u32;
  uuid_v5 : Uuid -> bytes -> Uuid
}.

(** * Identifiers: the types the macro [uuid_id!] declares *)

Inductive IdKind := BatchKind | CommandKind | EventKind | ItemKind | ThreadKind | TurnKind.

Record uuid_id (k : IdKind) := from_uuid { as_uuid : Uuid }.
Arguments from_uuid {k} as_uuid.
Arguments as_uuid {k} u.

Abbreviation BatchId := (uuid_id BatchKind).
Abbreviation CommandId := (uuid_id CommandKind).
Abbreviation EventId := (uuid_id EventKind).
Abbreviation ItemId := (uuid_id ItemKind).
Abbreviation ThreadId := (uuid_id ThreadKind).
Abbreviation TurnId := (uuid_id TurnKind).

#[export] Instance uuid_id_eq_dec k : EqDecision (uuid_id k).
Proof. solve_decision. Defined.

Definition id_bytes {k} (i : uuid_id k) : bytes := array_bytes (as_uuid i).

Lemma id_bytes_inj {k} (i j : uuid_id k) : id_bytes i = id_bytes j -> i = j.
Proof. destruct i, j. unfold id_bytes. simpl. intros E. f_equal. by apply array_inj. Qed.

Lemma length_id_bytes {k} (i : uuid_id k) : length (id_bytes i) = 16%nat.
Proof. apply length_array. Qed.
#[export] Hint Rewrite @length_id_bytes : lens.

Record ReceiptId := { receipt_uuid : Uuid }.

#[export] Instance receipt_id_eq_dec : EqDecision ReceiptId.
Proof. solve_decision. Defined.

(** The big-endian bytes of the constant [0x43d5_e6b6_7610_5c89_a255_6730_20ce_d910]. *)
Definition RECEIPT_NAMESPACE : Uuid :=
  array_from 16 [x43; xd5; xe6; xb6; x76; x10; x5c; x89; xa2; x55; x67; x30; x20; xce; xd9; x10].

Definition ReceiptId_for_command `{External} (command_id : CommandId) : ReceiptId :=
  {| receipt_uuid := uuid_v5 RECEIPT_NAMESPACE (id_bytes command_id) |}.

(** * Digests *)

Record Digest := digest_from_bytes { digest_array : byte_array 32 }.

#[export] Instance digest_eq_dec : EqDecision Digest.
Proof. solve_decision. Defined.

Definition digest_bytes (d : Digest) : bytes := array_bytes (digest_array d).

Definition DIGEST_ZERO : Digest := {| digest_array := array_zero 32 |}.

Lemma digest_bytes_inj d e : digest_bytes d = digest_bytes e -> d = e.
Proof. destruct d, e. unfold digest_bytes. simpl. intros E. f_equal. by apply array_inj. Qed.

Lemma length_digest_bytes d : length (digest_bytes d) = 32%nat.
Proof. apply length_array. Qed.
#[export] Hint Rewrite length_digest_bytes : lens.

(** * Revisions *)

Record ThreadRevision := revision_new { revision_get : u64 }.

#[export] Instance thread_revision_eq_dec : EqDecision ThreadRevision.
Proof. solve_decision. Defined.

(** The revision as an integer, the order of the derived [Ord]. *)
Definition rev (r : ThreadRevision) : Z := val (revision_get r).

Definition REVISION_ZERO : ThreadRevision := revision_new u64_zero.

Definition revision_of (z : Z) : ThreadRevision := revision_new (u64_of z).

Definition checked_next (r : ThreadRevision) : option ThreadRevision :=
  revision_new <$> u64_checked_add (revision_get r) 1.

Definition checked_advance (r : ThreadRevision) (count : u64) : option ThreadRevision :=
  revision_new <$> u64_checked_add (revision_get r) (val count).

Lemma rev_inj r s : rev r = rev s -> r = s.
Proof. destruct r, s. unfold rev. simpl. intros E. f_equal. by apply val_inj. Qed.

Lemma rev_bounds r : 0 <= rev r < 2 ^ 64.
Proof. apply val_bounds. Qed.

Lemma rev_of_small z : 0 <= z < 2 ^ 64 -> rev (revision_of z) = z.
Proof. apply val_u64_of_small. Qed.

Lemma revision_of_rev r : revision_of (rev r) = r.
Proof. apply rev_inj. apply rev_of_small, rev_bounds. Qed.

Lemma checked_next_Some r s : checked_next r = Some s <-> rev s = rev r + 1.
Proof.
  unfold checked_next, u64_checked_add. rewrite fmap_Some. split.
  - intros (x & E & ->). apply checked_Some in E. unfold rev. simpl. lia.
  - intros E. exists (revision_get s). rewrite checked_Some. destruct s. unfold rev in *. naive_solver.
Qed.

Lemma checked_next_None r : checked_next r = None <-> rev r = 2 ^ 64 - 1.
Proof.
  unfold checked_next, u64_checked_add. rewrite fmap_None, checked_None.
  pose proof (rev_bounds r). unfold rev in *. lia.
Qed.

Lemma checked_advance_Some r n s : checked_advance r n = Some s <-> rev s = rev r + val n.
Proof.
  unfold checked_advance, u64_checked_add. rewrite fmap_Some. split.
  - intros (x & E & ->). apply checked_Some in E. unfold rev. simpl. lia.
  - intros E. exists (revision_get s). rewrite checked_Some. destruct s. unfold rev in *. naive_solver.
Qed.

Record ThreadHead := { head_revision : ThreadRevision; head_digest : Digest }.

#[export] Instance thread_head_eq_dec : EqDecision ThreadHead.
Proof. solve_decision. Defined.

Definition HEAD_EMPTY : ThreadHead :=
  {| head_revision := REVISION_ZERO; head_digest := DIGEST_ZERO |}.

Record ThreadRevisionRef := { ref_thread_id : ThreadId; ref_revision : ThreadRevision }.

#[export] Instance thread_revision_ref_eq_dec : EqDecision ThreadRevisionRef.
Proof. solve_decision. Defined.

(** * The hasher *)

Record CanonicalHasher := Hasher { hashed : bytes }.

Definition hasher_update (l : bytes) (h : CanonicalHasher) : CanonicalHasher :=
  Hasher (hashed h ++ l).
Definition hasher_u8 (v : u8) : CanonicalHasher -> CanonicalHasher :=
  hasher_update (le_bytes 1 (val v)).
Definition hasher_u32 (v : u32) : CanonicalHasher -> CanonicalHasher :=
  hasher_update (le_bytes 4 (val v)).
Definition hasher_u64 (v : u64) : CanonicalHasher -> CanonicalHasher :=
  hasher_update (le_bytes 8 (val v)).
Definition hasher_i64 (v : i64) : CanonicalHasher -> CanonicalHasher :=
  hasher_update (le_bytes 8 (i64_bits v)).
Definition hasher_tag (z : Z) : CanonicalHasher -> CanonicalHasher :=
  hasher_u8 (default (@Ranged 0 (2 ^ 8) 0 eq_refl) (checked 0 (2 ^ 8) z)).
Definition hasher_bool (v : bool) : CanonicalHasher -> CanonicalHasher :=
  hasher_tag (if v then 1 else 0).
Definition hasher_bytes (v : bytes) (h : CanonicalHasher) : CanonicalHasher :=
  hasher_update v (hasher_u64 (u64_of (len v)) h).
Definition hasher_string (v : string) : CanonicalHasher -> CanonicalHasher :=
  hasher_bytes (str_bytes v).
Definition hasher_digest (v : Digest) : CanonicalHasher -> CanonicalHasher :=
  hasher_update (digest_bytes v).
Definition hasher_domain (domain : string) : CanonicalHasher :=
  hasher_bytes (str_bytes domain) (Hasher []).
Definition hasher_finish `{External} (h : CanonicalHasher) : Digest :=
  digest_from_bytes (sha256 (hashed h)).

(** The trait [CanonicalEncode]. *)
Class CanonicalEncode (T : Type) := {
  encode_canonical : T -> CanonicalHasher -> CanonicalHasher
}.

Definition canonical_digest `{External, CanonicalEncode T} (domain : string) (x : T) : Digest :=
  hasher_finish (encode_canonical x (hasher_domain domain)).

Definition hasher_optional `{CanonicalEncode T} (v : option T) (h : CanonicalHasher)
    : CanonicalHasher :=
  match v with
  | Some value => encode_canonical value (hasher_bool true h)
  | None => hasher_bool false h
  end.

Definition hasher_sequence `{CanonicalEncode T} (vs : list T) (h : CanonicalHasher)
    : CanonicalHasher :=
  fold_left (fun h v => encode_canonical v h) vs (hasher_u64 (u64_of (len vs)) h).

Declare Scope canonical_scope.
Notation "h |> f" := (f h) (at level 50, left associativity, only parsing) : canonical_scope.
Open Scope canonical_scope.

#[export] Instance encode_bool : CanonicalEncode bool :=
  {| encode_canonical := hasher_bool |}.
#[export] Instance encode_u32 : CanonicalEncode u32 :=
  {| encode_canonical := hasher_u32 |}.
#[export] Instance encode_u64 : CanonicalEncode u64 :=
  {| encode_canonical := hasher_u64 |}.
#[export] Instance encode_i64 : CanonicalEncode i64 :=
  {| encode_canonical := hasher_i64 |}.
#[export] Instance encode_string : CanonicalEncode string :=
  {| encode_canonical := hasher_string |}.
#[export] Instance encode_option `{CanonicalEncode T} : CanonicalEncode (option T) :=
  {| encode_canonical := hasher_optional |}.
#[export] Instance encode_vec `{CanonicalEncode T} : CanonicalEncode (list T) :=
  {| encode_canonical := hasher_sequence |}.
#[export] Instance encode_digest : CanonicalEncode Digest :=
  {| encode_canonical := hasher_digest |}.
#[export] Instance encode_id k : CanonicalEncode (uuid_id k) :=
  {| encode_canonical := fun i => hasher_bytes (id_bytes i) |}.
#[export] Instance encode_receipt_id : CanonicalEncode ReceiptId :=
  {| encode_canonical := fun i => hasher_bytes (array_bytes (receipt_uuid i)) |}.
#[export] Instance encode_revision : CanonicalEncode ThreadRevision :=
  {| encode_canonical := fun r => hasher_u64 (revision_get r) |}.
#[export] Instance encode_head : CanonicalEncode ThreadHead :=
  {| encode_canonical := fun t h => h |> encode_canonical (head_revision t) |> encode_canonical (head_digest t) |}.
#[export] Instance encode_revision_ref : CanonicalEncode ThreadRevisionRef :=
  {| encode_canonical := fun t h => h |> encode_canonical (ref_thread_id t) |> encode_canonical (ref_revision t) |}.

(** * Laws of the encoders *)

(** What one value contributes to the hashed message. *)
Definition canonical_bytes `{CanonicalEncode T} (x : T) : bytes :=
  hashed (encode_canonical x (Hasher [])).

Class Lawful (T : Type) `{CanonicalEncode T} := {
  lawful : forall (x : T) h, hashed (encode_canonical x h) = hashed h ++ canonical_bytes x
}.

Class PrefixFree (T : Type) `{CanonicalEncode T} := {
  pf_lawful :: Lawful T;
  prefix_free : forall (x y : T) r s,
    fits (canonical_bytes x ++ r) -> canonical_bytes x ++ r = canonical_bytes y ++ s ->
    x = y /\ r = s
}.

Definition tag_bytes (z : Z) : bytes := hashed (hasher_tag z (Hasher [])).
Definition prefixed (l : bytes) : bytes := le_bytes 8 (len l mod 2 ^ 64) ++ l.
Arguments tag_bytes : simpl never.
Arguments prefixed : simpl never.

Lemma hashed_tag z h : hashed (hasher_tag z h) = hashed h ++ tag_bytes z.
Proof. reflexivity. Qed.

Lemma hashed_u32 v h : hashed (hasher_u32 v h) = hashed h ++ le_bytes 4 (val v).
Proof. reflexivity. Qed.

Lemma hashed_u64 v h : hashed (hasher_u64 v h) = hashed h ++ le_bytes 8 (val v).
Proof. reflexivity. Qed.

Lemma hashed_i64 v h : hashed (hasher_i64 v h) = hashed h ++ le_bytes 8 (i64_bits v).
Proof. reflexivity. Qed.

Lemma hashed_digest v h : hashed (hasher_digest v h) = hashed h ++ digest_bytes v.
Proof. reflexivity. Qed.

Lemma hashed_bool v h : hashed (hasher_bool v h) = hashed h ++ tag_bytes (if v then 1 else 0).
Proof. reflexivity. Qed.

Lemma hashed_bytes v h : hashed (hasher_bytes v h) = hashed h ++ prefixed v.
Proof.
  unfold hasher_bytes, hasher_u64, hasher_update, prefixed. simpl.
  by rewrite val_u64_of, <- app_assoc.
Qed.

Lemma hashed_string v h : hashed (hasher_string v h) = hashed h ++ prefixed (str_bytes v).
Proof. apply hashed_bytes. Qed.

Lemma hashed_domain d : hashed (hasher_domain d) = prefixed (str_bytes d).
Proof. apply (hashed_bytes _ (Hasher [])). Qed.

Lemma canonical_bytes_unfold `{CanonicalEncode T} (x : T) :
  canonical_bytes x = hashed (encode_canonical x (Hasher [])).
Proof. reflexivity. Qed.

#[global] Opaque canonical_bytes.

(** Computes what an encoder feeds, field encoders first. *)
Ltac canonical :=
  repeat first
    [ rewrite lawful
    | rewrite hashed_tag | rewrite hashed_string | rewrite hashed_bytes | rewrite hashed_bool
    | rewrite hashed_u32 | rewrite hashed_u64 | rewrite hashed_i64 | rewrite hashed_digest
    | rewrite hashed_domain ];
  rewrite ?app_nil_l, <- ?app_assoc.

Tactic Notation "encodes" reference(i) := rewrite ?canonical_bytes_unfold; cbn [encode_canonical i].

(** ** Recognising the pieces *)

Lemma tag_bytes_split a b r s :
  0 <= a < 256 -> 0 <= b < 256 -> tag_bytes a ++ r = tag_bytes b ++ s -> a = b /\ r = s.
Proof.
  intros Ha Hb E. unfold tag_bytes, hasher_tag, hasher_u8 in E. simpl hashed in E.
  apply app_eq_length in E as [E ->]; [|reflexivity]. split; [|done].
  destruct (checked_in 0 (2 ^ 8) a) as (x & Ex & Hx); [done|].
  destruct (checked_in 0 (2 ^ 8) b) as (y & Ey & Hy); [done|].
  rewrite Ex, Ey in E. simpl default in E.
  apply (le_bytes_inj 1) in E; simpl; lia.
Qed.

#[global] Opaque tag_bytes.

Lemma le_bytes_split n x y r s :
  0 <= x < 256 ^ Z.of_nat n -> 0 <= y < 256 ^ Z.of_nat n ->
  le_bytes n x ++ r = le_bytes n y ++ s -> x = y /\ r = s.
Proof.
  intros Hx Hy E. apply app_eq_length in E as [E ->]; [|by rewrite !length_le_bytes].
  split; [|done]. by apply le_bytes_inj in E.
Qed.

Lemma prefixed_split a b r s :
  fits (prefixed a ++ r) -> prefixed a ++ r = prefixed b ++ s -> a = b /\ r = s.
Proof.
  intros Hf E. assert (Hb : fits b).
  { rewrite E in Hf. apply fits_app in Hf as [Hf _]. by apply fits_app in Hf as [_ Hf]. }
  apply fits_app in Hf as [Hf _]. apply fits_app in Hf as [_ Hf].
  unfold prefixed, fits in *. rewrite !Z.mod_small in E by lia.
  rewrite <- !app_assoc in E. apply le_bytes_split in E as [El E].
  - apply app_eq_length in E; [done|lia].
  - change (256 ^ Z.of_nat 8) with (2 ^ 64). lia.
  - change (256 ^ Z.of_nat 8) with (2 ^ 64). lia.
Qed.

Lemma pf_step `{PrefixFree T} (x y : T) r s :
  fits (canonical_bytes x ++ r) -> canonical_bytes x ++ r = canonical_bytes y ++ s ->
  x = y /\ r = s /\ fits r.
Proof.
  intros Hf E. destruct (prefix_free _ _ _ _ Hf E) as [-> ->].
  apply fits_app in Hf. naive_solver.
Qed.

Lemma pf_nil `{PrefixFree T} (x y : T) :
  fits (canonical_bytes x) -> canonical_bytes x = canonical_bytes y -> x = y.
Proof.
  intros Hf E. apply (prefix_free x y [] []); by rewrite !app_nil_r.
Qed.

(** ** Base instances *)

#[export] Instance lawful_option `{PrefixFree T} : Lawful (option T).
Proof. split. intros [x|] h; encodes encode_option; cbn [hasher_optional]; by canonical. Qed.

#[export] Instance prefix_free_bool : PrefixFree bool.
Proof.
  split; [split; intros; encodes encode_bool; by canonical|].
  intros x y r s _. encodes encode_bool. canonical. intros E.
  apply tag_bytes_split in E as [E ->]; destruct x, y; done.
Qed.

#[export] Instance prefix_free_u32 : PrefixFree u32.
Proof.
  split; [split; intros; encodes encode_u32; by canonical|].
  intros x y r s _. encodes encode_u32. canonical. intros E.
  pose proof (val_bounds x). pose proof (val_bounds y).
  apply le_bytes_split in E as [E ->]; [by apply val_inj in E| |];
    change (256 ^ Z.of_nat 4) with (2 ^ 32); done.
Qed.

Lemma u64_split (x y : u64) r s :
  le_bytes 8 (val x) ++ r = le_bytes 8 (val y) ++ s -> x = y /\ r = s.
Proof.
  intros E. pose proof (val_bounds x). pose proof (val_bounds y).
  apply le_bytes_split in E as [E ->]; [by apply val_inj in E| |];
    change (256 ^ Z.of_nat 8) with (2 ^ 64); done.
Qed.

#[export] Instance prefix_free_u64 : PrefixFree u64.
Proof.
  split; [split; intros; encodes encode_u64; by canonical|].
  intros x y r s _. encodes encode_u64. canonical. apply u64_split.
Qed.

#[export] Instance prefix_free_i64 : PrefixFree i64.
Proof.
  split; [split; intros; encodes encode_i64; by canonical|].
  intros x y r s _. encodes encode_i64. canonical. intros E.
  apply le_bytes_split in E as [E ->]; [by apply i64_bits_inj in E| |];
    change (256 ^ Z.of_nat 8) with (2 ^ 64); unfold i64_bits; apply Z.mod_pos_bound; lia.
Qed.

#[export] Instance prefix_free_string : PrefixFree string.
Proof.
  split; [split; intros; encodes encode_string; by canonical|].
  intros x y r s. encodes encode_string. canonical. intros Hf E.
  apply prefixed_split in E as [E ->]; [|done]. by apply str_bytes_inj in E.
Qed.

#[export] Instance prefix_free_digest : PrefixFree Digest.
Proof.
  split; [split; intros; encodes encode_digest; by canonical|].
  intros x y r s _. encodes encode_digest. canonical. intros E.
  apply app_eq_length in E as [E ->]; [|by lens]. by apply digest_bytes_inj in E.
Qed.

#[export] Instance prefix_free_id k : PrefixFree (uuid_id k).
Proof.
  split; [split; intros; encodes encode_id; by canonical|].
  intros x y r s. encodes encode_id. canonical. intros Hf E.
  apply prefixed_split in E as [E ->]; [|done]. by apply id_bytes_inj in E.
Qed.

#[export] Instance prefix_free_option `{PrefixFree T} : PrefixFree (option T).
Proof.
  split; [apply lawful_option|].
  intros x y r s. encodes encode_option.
  destruct x as [x|], y as [y|]; cbn [hasher_optional]; canonical; intros Hf E;
    apply fits_app in Hf as [_ Hf]; apply tag_bytes_split in E as [E E']; try lia.
  - apply prefix_free in E'; [naive_solver|done].
  - naive_solver.
Qed.

#[export] Instance prefix_free_revision : PrefixFree ThreadRevision.
Proof.
  split; [split; intros; encodes encode_revision; by canonical|].
  intros [x] [y] r s _. encodes encode_revision. canonical. intros E.
  apply u64_split in E. naive_solver.
Qed.

(** ** Records and enums

    [split_fields] peels equal encodings field by field, a [tag_bytes] being
    the discriminant of an enum; distinct discriminants close the goal. *)

Ltac split_field :=
  match goal with
  | Hf : fits (tag_bytes ?a ++ _), E : tag_bytes ?a ++ _ = tag_bytes ?b ++ _ |- _ =>
      let E1 := fresh "E" in let Ht := fresh "Ht" in
      apply fits_app in Hf as [_ Hf];
      apply tag_bytes_split in E as [Ht E1]; [|lia|lia];
      first [discriminate Ht | clear Ht]; rename E1 into E
  | Hf : fits (canonical_bytes ?x ++ _), E : canonical_bytes ?x ++ _ = canonical_bytes _ ++ _ |- _ =>
      let H := fresh "Hx" in let E1 := fresh "E" in let F1 := fresh "Hf" in
      destruct (pf_step _ _ _ _ Hf E) as (H & E1 & F1); clear Hf E;
      rename E1 into E; rename F1 into Hf;
      first [subst | idtac]
  end.

Ltac split_fields := repeat split_field; subst.

(** Completes a goal left by equal whole encodings. *)
Ltac split_last :=
  match goal with
  | Hf : fits (canonical_bytes ?x), E : canonical_bytes ?x = canonical_bytes _ |- _ =>
      apply (pf_nil _ _ Hf) in E
  end; subst; try done.

#[export] Instance prefix_free_head : PrefixFree ThreadHead.
Proof.
  split; [split; intros; encodes encode_head; by canonical|].
  intros [] [] r s. encodes encode_head. canonical. simpl. intros Hf E. by split_fields.
Qed.

#[export] Instance prefix_free_revision_ref : PrefixFree ThreadRevisionRef.
Proof.
  split; [split; intros; encodes encode_revision_ref; by canonical|].
  intros [] [] r s. encodes encode_revision_ref. canonical. simpl. intros Hf E. by split_fields.
Qed.

(** Sequences: the elements must take at least one byte each for the count
    to be bounded by the size of the message. *)
Class NonEmptyEncoding (T : Type) `{CanonicalEncode T} := {
  encoding_nonempty : forall x : T, (0 < length (canonical_bytes x))%nat
}.

#[export] Instance nonempty_id k : NonEmptyEncoding (uuid_id k).
Proof.
  split. intros x. encodes encode_id. canonical. unfold prefixed.
  rewrite length_app, length_le_bytes. lia.
Qed.

Definition elements_bytes `{CanonicalEncode T} (l : list T) : bytes := concat (map canonical_bytes l).

Lemma hashed_elements `{Lawful T} (l : list T) h :
  hashed (fold_left (fun h v => encode_canonical v h) l h) = hashed h ++ elements_bytes l.
Proof.
  revert h. unfold elements_bytes. induction l as [|x l IH]; intros h; simpl.
  - by rewrite app_nil_r.
  - rewrite IH. canonical. done.
Qed.

Lemma elements_length `{NonEmptyEncoding T} (l : list T) : len l <= len (elements_bytes l).
Proof.
  unfold elements_bytes. induction l as [|x l IH]; simpl; [done|].
  rewrite length_app. pose proof (encoding_nonempty x). lia.
Qed.

Lemma elements_split `{PrefixFree T} (l k : list T) r s :
  length l = length k -> fits (elements_bytes l ++ r) ->
  elements_bytes l ++ r = elements_bytes k ++ s -> l = k /\ r = s.
Proof.
  unfold elements_bytes. revert k. induction l as [|x l IH]; intros [|y k] L Hf E; try done.
  simpl in *. rewrite <- app_assoc in Hf. rewrite <- !app_assoc in E. split_fields.
  edestruct IH as [-> ->]; [|done|done|done]. lia.
Qed.

#[export] Instance prefix_free_vec `{PrefixFree T, !NonEmptyEncoding T} : PrefixFree (list T).
Proof.
  assert (Hl : forall (l : list T) h,
    hashed (encode_canonical l h) = hashed h ++ le_bytes 8 (len l mod 2 ^ 64) ++ elements_bytes l).
  { intros l h. cbn [encode_canonical encode_vec]. unfold hasher_sequence.
    rewrite hashed_elements, hashed_u64, val_u64_of. by rewrite <- app_assoc. }
  split.
  { split. intros l h. rewrite canonical_bytes_unfold. by rewrite !Hl. }
  intros l k r s. rewrite !canonical_bytes_unfold, !Hl. rewrite !app_nil_l, <- !app_assoc.
  intros Hf E. pose proof (elements_length l). pose proof (elements_length k).
  assert (Hk := Hf). rewrite E in Hk. unfold fits in Hf, Hk. rewrite !length_app in Hf, Hk.
  rewrite !Z.mod_small in E by lia. apply le_bytes_split in E as [E1 E2];
    [|change (256 ^ Z.of_nat 8) with (2 ^ 64); lia..].
  apply elements_split in E2; [done|lia|]. unfold fits. rewrite length_app. lia.
Qed.
