(* ===== verification/Events.v ===== *)
(** Thread events (thread-store-contracts: event.rs): actors, content
    references, the event bodies with their canonical encoding, and the event
    envelope with its payload and record digests. *)

From S2P Require Import Prelude Canonical.

Definition THREAD_STORE_SCHEMA_VERSION : u32 := u32_of 1.
Definition EVENT_PAYLOAD_DOMAIN : string := "praxis.thread-store.event-payload.v1".
Definition EVENT_RECORD_DOMAIN : string := "praxis.thread-store.event-record.v1".

(** * Data *)

Inductive ThreadActor :=
  | ActorUser
  | ActorAgent
  | ActorRuntime
  | ActorSystem
  | ActorImporter (importer : string).

Inductive ContentRef :=
  | InlineText (text : string)
  | Artifact (digest : Digest) (size : u64) (media_type : string).

Inductive TranscriptItemKind :=
  | UserMessage
  | AssistantMessage
  | ReasoningSummary
  | ToolCall
  | ToolResult
  | FileChange
  | CollaborationAction
  | SystemNotice
  | OpaqueImported.

Inductive TurnAbortReason :=
  | Interrupted
  | Replaced
  | ReviewEnded
  | OtherReason (detail : string).

Inductive AgentEventRoute :=
  | RouteTurnStarted
  | RouteUserMessage
  | RouteAssistantMessage
  | RouteTranscript
  | RouteOther.

Inductive ThreadEventBody :=
  | ThreadCreated (source workspace : string) (parent : option ThreadRevisionRef)
  | ThreadNameSet (name : option string)
  | ThreadSummarySet (summary : option string)
  | ThreadArchived (archived : bool)
  | ThreadWorkspaceSet (workspace : string)
  | TurnStarted (turn_id : TurnId) (collaboration_mode : option string)
  | TurnExecutionContextCaptured (turn_id : TurnId) (context : ContentRef)
  | NativeAgentEventRecorded (agent_sequence : u64) (event_id : string)
      (turn_id : option TurnId) (route : AgentEventRoute) (payload : ContentRef)
  | TranscriptItemCreated (item_id : ItemId) (turn_id : option TurnId)
      (item_kind : TranscriptItemKind) (content : ContentRef)
  | TranscriptItemFinalized (item_id : ItemId) (content : ContentRef)
  | TranscriptItemCancelled (item_id : ItemId) (reason : string)
  | TurnCompleted (turn_id : TurnId)
  | TurnAborted (turn_id : TurnId) (reason : TurnAbortReason)
  | TurnFailed (turn_id : TurnId) (error_code message : string)
  | ModelContextBaselineReplaced (basis_revision : ThreadRevision) (summary : ContentRef)
      (retained_item_ids : list ItemId)
  | ModelContextSnapshotReplaced (basis_revision : ThreadRevision) (snapshot : ContentRef)
  | ModelContextRolledBack (user_turns : u32)
  | TranscriptHeadMoved (from_revision to_revision : ThreadRevision) (reason : string)
  | ContentRedacted (item_id : ItemId) (replacement : option ContentRef) (reason : string)
  | ExternalHistoryImported (source_format : string) (source_fingerprint : Digest)
      (importer_id importer_version : string) (imported_event_count warning_count : u64)
      (source : option ContentRef)
  | OpaqueImportedEvent (source_format original_type : string) (payload : ContentRef)
  | ModelContextItemRecorded (item_id : ItemId) (turn_id : option TurnId) (content : ContentRef)
  | TurnCostRecorded (cost_micros : option i64)
  | ThreadResumeConfigSet (model model_provider reasoning_effort : option string)
  | ThreadDynamicToolsSet (tools : ContentRef)
  | ThreadPreviewSet (preview first_user_message : option string)
  | AgentEventMetadataReconciled (generation : u32)
  | AgentEventTimelineReconciled (generation : u32)
      (created_at_unix_ms updated_at_unix_ms : option i64).

#[export] Instance thread_actor_eq_dec : EqDecision ThreadActor.
Proof. solve_decision. Defined.
#[export] Instance content_ref_eq_dec : EqDecision ContentRef.
Proof. solve_decision. Defined.
#[export] Instance transcript_item_kind_eq_dec : EqDecision TranscriptItemKind.
Proof. solve_decision. Defined.
#[export] Instance turn_abort_reason_eq_dec : EqDecision TurnAbortReason.
Proof. solve_decision. Defined.
#[export] Instance agent_event_route_eq_dec : EqDecision AgentEventRoute.
Proof. solve_decision. Defined.
#[export] Instance thread_event_body_eq_dec : EqDecision ThreadEventBody.
Proof. solve_decision. Defined.

Definition affects_transcript (r : AgentEventRoute) : bool :=
  match r with RouteOther => false | _ => true end.

Definition affects_conversation (r : AgentEventRoute) : bool :=
  match r with RouteUserMessage | RouteAssistantMessage => true | _ => false end.

Definition type_name (b : ThreadEventBody) : string :=
  match b with
  | ThreadCreated _ _ _ => "thread_created"
  | ThreadNameSet _ => "thread_name_set"
  | ThreadSummarySet _ => "thread_summary_set"
  | ThreadArchived _ => "thread_archived"
  | ThreadWorkspaceSet _ => "thread_workspace_set"
  | TurnStarted _ _ => "turn_started"
  | TurnExecutionContextCaptured _ _ => "turn_execution_context_captured"
  | NativeAgentEventRecorded _ _ _ _ _ => "native_agent_event_recorded"
  | TranscriptItemCreated _ _ _ _ => "transcript_item_created"
  | TranscriptItemFinalized _ _ => "transcript_item_finalized"
  | TranscriptItemCancelled _ _ => "transcript_item_cancelled"
  | TurnCompleted _ => "turn_completed"
  | TurnAborted _ _ => "turn_aborted"
  | TurnFailed _ _ _ => "turn_failed"
  | ModelContextBaselineReplaced _ _ _ => "model_context_baseline_replaced"
  | ModelContextSnapshotReplaced _ _ => "model_context_snapshot_replaced"
  | ModelContextRolledBack _ => "model_context_rolled_back"
  | TranscriptHeadMoved _ _ _ => "transcript_head_moved"
  | ContentRedacted _ _ _ => "content_redacted"
  | ExternalHistoryImported _ _ _ _ _ _ _ => "external_history_imported"
  | OpaqueImportedEvent _ _ _ => "opaque_imported_event"
  | ModelContextItemRecorded _ _ _ => "model_context_item_recorded"
  | TurnCostRecorded _ => "turn_cost_recorded"
  | ThreadResumeConfigSet _ _ _ => "thread_resume_config_set"
  | ThreadDynamicToolsSet _ => "thread_dynamic_tools_set"
  | ThreadPreviewSet _ _ => "thread_preview_set"
  | AgentEventMetadataReconciled _ => "agent_event_metadata_reconciled"
  | AgentEventTimelineReconciled _ _ _ => "agent_event_timeline_reconciled"
  end.

(** * Canonical encodings *)

#[export] Instance encode_actor : CanonicalEncode ThreadActor := {|
  encode_canonical a h :=
    match a with
    | ActorUser => h |> hasher_tag 0
    | ActorAgent => h |> hasher_tag 1
    | ActorRuntime => h |> hasher_tag 2
    | ActorSystem => h |> hasher_tag 3
    | ActorImporter importer => h |> hasher_tag 4 |> encode_canonical importer
    end |}.

#[export] Instance encode_content_ref : CanonicalEncode ContentRef := {|
  encode_canonical c h :=
    match c with
    | InlineText text => h |> hasher_tag 0 |> encode_canonical text
    | Artifact digest size media_type =>
        h |> hasher_tag 1 |> encode_canonical digest |> encode_canonical size
          |> encode_canonical media_type
    end |}.

Definition item_kind_tag (k : TranscriptItemKind) : Z :=
  match k with
  | UserMessage => 0
  | AssistantMessage => 1
  | ReasoningSummary => 2
  | ToolCall => 3
  | ToolResult => 4
  | FileChange => 5
  | CollaborationAction => 6
  | SystemNotice => 7
  | OpaqueImported => 8
  end.

#[export] Instance encode_item_kind : CanonicalEncode TranscriptItemKind := {|
  encode_canonical k h := h |> hasher_tag (item_kind_tag k) |}.

Definition route_tag (r : AgentEventRoute) : Z :=
  match r with
  | RouteTurnStarted => 0
  | RouteUserMessage => 1
  | RouteAssistantMessage => 2
  | RouteTranscript => 3
  | RouteOther => 4
  end.

#[export] Instance encode_route : CanonicalEncode AgentEventRoute := {|
  encode_canonical r h := h |> hasher_tag (route_tag r) |}.

#[export] Instance encode_abort_reason : CanonicalEncode TurnAbortReason := {|
  encode_canonical r h :=
    match r with
    | Interrupted => h |> hasher_tag 0
    | Replaced => h |> hasher_tag 1
    | ReviewEnded => h |> hasher_tag 2
    | OtherReason detail => h |> hasher_tag 3 |> encode_canonical detail
    end |}.

(** [if let Some(model_provider) = ... { model_provider.encode_canonical(hasher) }] *)
Definition encode_trailing (provider : option string) (h : CanonicalHasher) : CanonicalHasher :=
  match provider with Some p => h |> encode_canonical p | None => h end.

Definition encode_event_fields (b : ThreadEventBody) (h : CanonicalHasher) : CanonicalHasher :=
  match b with
  | ThreadCreated source workspace parent =>
      h |> encode_canonical source |> encode_canonical workspace |> encode_canonical parent
  | ThreadNameSet name => h |> encode_canonical name
  | ThreadSummarySet summary => h |> encode_canonical summary
  | ThreadArchived archived => h |> encode_canonical archived
  | ThreadWorkspaceSet workspace => h |> encode_canonical workspace
  | TurnStarted turn_id mode => h |> encode_canonical turn_id |> encode_canonical mode
  | TurnExecutionContextCaptured turn_id context =>
      h |> encode_canonical turn_id |> encode_canonical context
  | NativeAgentEventRecorded agent_sequence event_id turn_id route payload =>
      h |> encode_canonical agent_sequence |> encode_canonical event_id
        |> encode_canonical turn_id |> encode_canonical route |> encode_canonical payload
  | TranscriptItemCreated item_id turn_id item_kind content =>
      h |> encode_canonical item_id |> encode_canonical turn_id
        |> encode_canonical item_kind |> encode_canonical content
  | TranscriptItemFinalized item_id content =>
      h |> encode_canonical item_id |> encode_canonical content
  | TranscriptItemCancelled item_id reason =>
      h |> encode_canonical item_id |> encode_canonical reason
  | TurnCompleted turn_id => h |> encode_canonical turn_id
  | TurnAborted turn_id reason => h |> encode_canonical turn_id |> encode_canonical reason
  | TurnFailed turn_id error_code message =>
      h |> encode_canonical turn_id |> encode_canonical error_code |> encode_canonical message
  | ModelContextBaselineReplaced basis summary retained =>
      h |> encode_canonical basis |> encode_canonical summary |> encode_canonical retained
  | ModelContextSnapshotReplaced basis snapshot =>
      h |> encode_canonical basis |> encode_canonical snapshot
  | ModelContextRolledBack user_turns => h |> encode_canonical user_turns
  | TranscriptHeadMoved from to reason =>
      h |> encode_canonical from |> encode_canonical to |> encode_canonical reason
  | ContentRedacted item_id replacement reason =>
      h |> encode_canonical item_id |> encode_canonical replacement |> encode_canonical reason
  | ExternalHistoryImported format fingerprint importer_id importer_version count warnings source =>
      h |> encode_canonical format |> encode_canonical fingerprint
        |> encode_canonical importer_id |> encode_canonical importer_version
        |> encode_canonical count |> encode_canonical warnings |> encode_canonical source
  | OpaqueImportedEvent format original_type payload =>
      h |> encode_canonical format |> encode_canonical original_type |> encode_canonical payload
  | ModelContextItemRecorded item_id turn_id content =>
      h |> encode_canonical item_id |> encode_canonical turn_id |> encode_canonical content
  | TurnCostRecorded cost_micros => h |> encode_canonical cost_micros
  | ThreadResumeConfigSet model model_provider reasoning_effort =>
      h |> encode_canonical model |> encode_canonical reasoning_effort
        |> encode_trailing model_provider
  | ThreadDynamicToolsSet tools => h |> encode_canonical tools
  | ThreadPreviewSet preview first => h |> encode_canonical preview |> encode_canonical first
  | AgentEventMetadataReconciled generation => h |> encode_canonical generation
  | AgentEventTimelineReconciled generation created updated =>
      h |> encode_canonical generation |> encode_canonical created |> encode_canonical updated
  end.

#[export] Instance encode_event_body : CanonicalEncode ThreadEventBody := {|
  encode_canonical b h := h |> encode_canonical (type_name b) |> encode_event_fields b |}.

(** * The event envelope *)

Record ThreadEventEnvelope := {
  ev_schema_version : u32;
  ev_thread_id : ThreadId;
  ev_revision : ThreadRevision;
  ev_event_id : EventId;
  ev_batch_id : BatchId;
  ev_sequence : u32;
  ev_recorded_at_unix_ms : i64;
  ev_actor : ThreadActor;
  ev_correlation_id : option string;
  ev_causation_id : option EventId;
  ev_body : ThreadEventBody;
  ev_payload_digest : Digest;
  ev_previous_record_digest : Digest;
  ev_record_digest : Digest
}.

#[export] Instance thread_event_envelope_eq_dec : EqDecision ThreadEventEnvelope.
Proof. solve_decision. Defined.

Record NewThreadEvent := {
  ne_thread_id : ThreadId;
  ne_revision : ThreadRevision;
  ne_event_id : EventId;
  ne_batch_id : BatchId;
  ne_sequence : u32;
  ne_recorded_at_unix_ms : i64;
  ne_actor : ThreadActor;
  ne_correlation_id : option string;
  ne_causation_id : option EventId;
  ne_body : ThreadEventBody;
  ne_previous_record_digest : Digest
}.

(** The message hashed by [compute_record_digest]. *)
Definition record_hasher (e : ThreadEventEnvelope) : CanonicalHasher :=
  hasher_domain EVENT_RECORD_DOMAIN
    |> encode_canonical (ev_schema_version e)
    |> encode_canonical (ev_thread_id e)
    |> encode_canonical (ev_revision e)
    |> encode_canonical (ev_event_id e)
    |> encode_canonical (ev_batch_id e)
    |> encode_canonical (ev_sequence e)
    |> encode_canonical (ev_recorded_at_unix_ms e)
    |> encode_canonical (ev_actor e)
    |> encode_canonical (ev_correlation_id e)
    |> encode_canonical (ev_causation_id e)
    |> encode_canonical (ev_payload_digest e)
    |> encode_canonical (ev_previous_record_digest e).

Definition compute_record_digest `{External} (e : ThreadEventEnvelope) : Digest :=
  hasher_finish (record_hasher e).

Definition payload_digest_of `{External} (b : ThreadEventBody) : Digest :=
  canonical_digest EVENT_PAYLOAD_DOMAIN b.

Definition with_record_digest (d : Digest) (e : ThreadEventEnvelope) : ThreadEventEnvelope := {|
  ev_schema_version := ev_schema_version e;
  ev_thread_id := ev_thread_id e;
  ev_revision := ev_revision e;
  ev_event_id := ev_event_id e;
  ev_batch_id := ev_batch_id e;
  ev_sequence := ev_sequence e;
  ev_recorded_at_unix_ms := ev_recorded_at_unix_ms e;
  ev_actor := ev_actor e;
  ev_correlation_id := ev_correlation_id e;
  ev_causation_id := ev_causation_id e;
  ev_body := ev_body e;
  ev_payload_digest := ev_payload_digest e;
  ev_previous_record_digest := ev_previous_record_digest e;
  ev_record_digest := d
|}.

Definition envelope_new `{External} (event : NewThreadEvent) : ThreadEventEnvelope :=
  let envelope := {|
    ev_schema_version := THREAD_STORE_SCHEMA_VERSION;
    ev_thread_id := ne_thread_id event;
    ev_revision := ne_revision event;
    ev_event_id := ne_event_id event;
    ev_batch_id := ne_batch_id event;
    ev_sequence := ne_sequence event;
    ev_recorded_at_unix_ms := ne_recorded_at_unix_ms event;
    ev_actor := ne_actor event;
    ev_correlation_id := ne_correlation_id event;
    ev_causation_id := ne_causation_id event;
    ev_body := ne_body event;
    ev_payload_digest := payload_digest_of (ne_body event);
    ev_previous_record_digest := ne_previous_record_digest event;
    ev_record_digest := DIGEST_ZERO
  |} in
  with_record_digest (compute_record_digest envelope) envelope.

Definition has_valid_digests `{External} (e : ThreadEventEnvelope) : bool :=
  bool_decide (ev_payload_digest e = payload_digest_of (ev_body e))
  && bool_decide (ev_record_digest e = compute_record_digest e).

(** * Laws *)

#[export] Instance prefix_free_actor : PrefixFree ThreadActor.
Proof.
  split; [split; intros [] h; encodes encode_actor; by canonical|].
  intros [] [] r s; encodes encode_actor; canonical; intros Hf E; split_fields; done.
Qed.

#[export] Instance prefix_free_content_ref : PrefixFree ContentRef.
Proof.
  split; [split; intros [] h; encodes encode_content_ref; by canonical|].
  intros [] [] r s; encodes encode_content_ref; canonical; intros Hf E; split_fields; done.
Qed.

#[export] Instance prefix_free_item_kind : PrefixFree TranscriptItemKind.
Proof.
  split; [split; intros [] h; encodes encode_item_kind; by canonical|].
  intros [] [] r s; encodes encode_item_kind; cbn [item_kind_tag]; canonical;
    intros Hf E; split_fields; done.
Qed.

#[export] Instance prefix_free_route : PrefixFree AgentEventRoute.
Proof.
  split; [split; intros [] h; encodes encode_route; by canonical|].
  intros [] [] r s; encodes encode_route; cbn [route_tag]; canonical;
    intros Hf E; split_fields; done.
Qed.

#[export] Instance prefix_free_abort_reason : PrefixFree TurnAbortReason.
Proof.
  split; [split; intros [] h; encodes encode_abort_reason; by canonical|].
  intros [] [] r s; encodes encode_abort_reason; canonical; intros Hf E; split_fields; done.
Qed.

Definition trailing_bytes (provider : option string) : bytes :=
  match provider with Some p => canonical_bytes p | None => [] end.

Lemma hashed_trailing p h : hashed (encode_trailing p h) = hashed h ++ trailing_bytes p.
Proof. destruct p; cbn [encode_trailing trailing_bytes]; [apply lawful|by rewrite app_nil_r]. Qed.

Lemma length_string_encoding (p : string) : (8 <= length (canonical_bytes p))%nat.
Proof. encodes encode_string. canonical. unfold prefixed. rewrite length_app, length_le_bytes. lia. Qed.

Lemma trailing_bytes_inj p q :
  fits (trailing_bytes p) -> trailing_bytes p = trailing_bytes q -> p = q.
Proof.
  destruct p as [p|], q as [q|]; cbn [trailing_bytes]; intros Hf E; [| | |done].
  - f_equal. by apply pf_nil in E.
  - pose proof (length_string_encoding p) as L. by rewrite E in L; simpl in L; lia.
  - pose proof (length_string_encoding q) as L. by rewrite <- E in L; simpl in L; lia.
Qed.

(** What the fields of a body contribute after its type name. *)
Definition event_field_bytes (b : ThreadEventBody) : bytes :=
  hashed (encode_event_fields b (Hasher [])).

Lemma hashed_event_fields b h :
  hashed (encode_event_fields b h) = hashed h ++ event_field_bytes b.
Proof.
  unfold event_field_bytes.
  destruct b; cbn [encode_event_fields]; rewrite ?hashed_trailing; by canonical.
Qed.

#[export] Instance lawful_event_body : Lawful ThreadEventBody.
Proof.
  split. intros b h. encodes encode_event_body. rewrite !hashed_event_fields. by canonical.
Qed.

Lemma type_name_fields_inj b c :
  type_name b = type_name c -> fits (event_field_bytes b) ->
  event_field_bytes b = event_field_bytes c -> b = c.
Proof.
  intros Hn. destruct b, c; try (vm_compute in Hn; discriminate Hn);
    clear Hn; unfold event_field_bytes; cbn [encode_event_fields];
    rewrite ?hashed_trailing; canonical; intros Hf E;
    split_fields; try split_last.
  by apply trailing_bytes_inj in E as ->.
Qed.

Lemma event_body_bytes_split b :
  canonical_bytes b = canonical_bytes (type_name b) ++ event_field_bytes b.
Proof. encodes encode_event_body. rewrite hashed_event_fields. by canonical. Qed.

Lemma event_body_bytes_inj b c :
  fits (canonical_bytes b) -> canonical_bytes b = canonical_bytes c -> b = c.
Proof.
  rewrite !event_body_bytes_split. intros Hf E.
  destruct (pf_step _ _ _ _ Hf E) as (Hn & E' & Hf'). by apply type_name_fields_inj.
Qed.

(** SHA-256 has no collision among the given messages. *)
Definition collision_free `{External} (ms : list bytes) : Prop :=
  forall m m', m ∈ ms -> m' ∈ ms -> sha256 m = sha256 m' -> m = m'.

Lemma finish_inj `{External} ms h h' :
  collision_free ms -> hashed h ∈ ms -> hashed h' ∈ ms ->
  hasher_finish h = hasher_finish h' -> hashed h = hashed h'.
Proof. intros Hc Hh Hh' E. apply Hc; [done..|]. by injection E. Qed.

(** The message whose digest is the payload digest of a body. *)
Definition payload_message (b : ThreadEventBody) : bytes :=
  hashed (encode_canonical b (hasher_domain EVENT_PAYLOAD_DOMAIN)).

Definition record_message (e : ThreadEventEnvelope) : bytes := hashed (record_hasher e).

(** The two messages hashed for one event. *)
Definition event_messages (e : ThreadEventEnvelope) : list bytes :=
  [payload_message (ev_body e); record_message e].

Lemma domain_split d (l k : bytes) :
  fits (prefixed (str_bytes d) ++ l) ->
  prefixed (str_bytes d) ++ l = prefixed (str_bytes d) ++ k -> l = k /\ fits l.
Proof. intros Hf E. apply app_inv_head in E as ->. split; [done|]. by apply fits_app in Hf as [_ ?]. Qed.

Lemma payload_message_inj b c :
  fits (payload_message b) -> payload_message b = payload_message c -> b = c.
Proof.
  unfold payload_message. canonical. intros Hf E.
  apply domain_split in E as [E Hf']; [|done]. by apply event_body_bytes_inj.
Qed.

(** The fields the record digest covers directly. *)
Definition record_fields (e : ThreadEventEnvelope) :=
  (ev_schema_version e, ev_thread_id e, ev_revision e, ev_event_id e, ev_batch_id e,
   ev_sequence e, ev_recorded_at_unix_ms e, ev_actor e, ev_correlation_id e,
   ev_causation_id e, ev_payload_digest e, ev_previous_record_digest e).

Lemma record_message_inj e e' :
  fits (record_message e) -> record_message e = record_message e' ->
  record_fields e = record_fields e'.
Proof.
  unfold record_message, record_hasher. canonical. intros Hf E.
  apply domain_split in E as [E Hf']; [|done]. clear Hf.
  destruct e, e'; cbn in *. unfold record_fields. cbn. split_fields. split_last.
Qed.

Lemma has_valid_digests_iff `{External} e :
  has_valid_digests e = true <->
  ev_payload_digest e = payload_digest_of (ev_body e) /\
  ev_record_digest e = compute_record_digest e.
Proof. unfold has_valid_digests. rewrite andb_true_iff, !bool_decide_eq_true. done. Qed.

Lemma payload_digest_message `{External} ms b c :
  collision_free ms -> payload_message b ∈ ms -> payload_message c ∈ ms ->
  payload_digest_of b = payload_digest_of c -> payload_message b = payload_message c.
Proof.
  intros Hc Hb Hc'. apply (finish_inj ms (encode_canonical b (hasher_domain EVENT_PAYLOAD_DOMAIN))
    (encode_canonical c (hasher_domain EVENT_PAYLOAD_DOMAIN)) Hc Hb Hc').
Qed.

Lemma record_digest_message `{External} ms e e' :
  collision_free ms -> record_message e ∈ ms -> record_message e' ∈ ms ->
  compute_record_digest e = compute_record_digest e' -> record_message e = record_message e'.
Proof. apply finish_inj. Qed.

(** The digests of two valid events determine them, up to a SHA-256 collision. *)
Lemma valid_events_equal `{External} e e' :
  has_valid_digests e = true -> has_valid_digests e' = true ->
  Forall fits (event_messages e) ->
  collision_free (event_messages e ++ event_messages e') ->
  ev_record_digest e = ev_record_digest e' -> e = e'.
Proof.
  rewrite !has_valid_digests_iff. intros [Hp Hr] [Hp' Hr'] Hfit Hcf E.
  unfold event_messages in Hfit. rewrite !Forall_cons_iff in Hfit.
  destruct Hfit as (Hf1 & Hf2 & _).
  assert (Hrec : record_fields e = record_fields e').
  { apply record_message_inj; [done|].
    apply (record_digest_message _ _ _ Hcf); [set_solver..|congruence]. }
  assert (Hpd : payload_message (ev_body e) = payload_message (ev_body e')).
  { apply (payload_digest_message _ _ _ Hcf); [set_solver..|].
    unfold record_fields in Hrec. congruence. }
  apply payload_message_inj in Hpd; [|done].
  destruct e, e'; unfold record_fields in Hrec; cbn in *. naive_solver.
Qed.
