(* ===== verification/Commands.v ===== *)
(** Thread commands (thread-store-contracts: command.rs): the command data, its
    canonical encoding and the digests a command is identified by. *)

From S2P Require Import Prelude Canonical Events.

Definition COMMAND_DOMAIN : string := "praxis.thread-store.command.v1".

(** * Data *)

Record ThreadResumeConfig := {
  rc_model : option string;
  rc_model_provider : option string;
  rc_reasoning_effort : option string
}.

#[export] Instance thread_resume_config_eq_dec : EqDecision ThreadResumeConfig.
Proof. solve_decision. Defined.

Record NativeAgentEventCommand := {
  na_agent_sequence : u64;
  na_event_id : string;
  na_turn_id : option TurnId;
  na_route : AgentEventRoute;
  na_payload : ContentRef
}.

#[export] Instance native_agent_event_command_eq_dec : EqDecision NativeAgentEventCommand.
Proof. solve_decision. Defined.

Inductive ThreadCommand :=
  | Create (source workspace : string) (parent : option ThreadRevisionRef)
  | SetName (name : option string)
  | SetSummary (summary : option string)
  | SetArchived (archived : bool)
  | SetWorkspace (workspace : string)
  | StartTurn (turn_id : TurnId) (collaboration_mode : option string)
  | CaptureTurnExecutionContext (turn_id : TurnId) (context : ContentRef)
  | RecordNativeAgentEvent (agent_sequence : u64) (event_id : string)
      (turn_id : option TurnId) (route : AgentEventRoute) (payload : ContentRef)
  | RecordNativeAgentEvents (events : list NativeAgentEventCommand)
  | AppendTranscriptItem (item_id : ItemId) (turn_id : option TurnId)
      (item_kind : TranscriptItemKind) (content : ContentRef)
  | FinalizeTranscriptItem (item_id : ItemId) (content : ContentRef)
  | CancelTranscriptItem (item_id : ItemId) (reason : string)
  | CompleteTurn (turn_id : TurnId)
  | AbortTurn (turn_id : TurnId) (reason : TurnAbortReason)
  | FailTurn (turn_id : TurnId) (error_code message : string)
  | ReplaceModelContextBaseline (basis_revision : ThreadRevision) (summary : ContentRef)
      (retained_item_ids : list ItemId)
  | ReplaceModelContextSnapshot (basis_revision : ThreadRevision) (snapshot : ContentRef)
  | RollbackModelContext (user_turns : u32)
  | MoveTranscriptHead (from_revision to_revision : ThreadRevision) (reason : string)
  | RedactContent (item_id : ItemId) (replacement : option ContentRef) (reason : string)
  | RecordModelContextItem (item_id : ItemId) (turn_id : option TurnId) (content : ContentRef)
  | RecordTurnCost (cost_micros : option i64)
  | SetResumeConfig (model model_provider reasoning_effort : option string)
  | SetDynamicTools (tools : ContentRef)
  | SetPreview (preview first_user_message : option string)
  | MarkAgentEventMetadataReconciled (generation : u32)
  | ReconcileAgentEventTimeline (generation : u32)
      (created_at_unix_ms updated_at_unix_ms : option i64)
  | ReconcileSessionMetadata (name : option string)
      (resume_config : option ThreadResumeConfig) (dynamic_tools : option ContentRef).

#[export] Instance thread_command_eq_dec : EqDecision ThreadCommand.
Proof. solve_decision. Defined.

(** * Canonical encodings *)

#[export] Instance encode_native_agent_event : CanonicalEncode NativeAgentEventCommand := {|
  encode_canonical e h :=
    h |> encode_canonical (na_agent_sequence e) |> encode_canonical (na_event_id e)
      |> encode_canonical (na_turn_id e) |> encode_canonical (na_route e)
      |> encode_canonical (na_payload e) |}.

#[export] Instance encode_resume_config : CanonicalEncode ThreadResumeConfig := {|
  encode_canonical c h :=
    h |> encode_canonical (rc_model c) |> encode_canonical (rc_reasoning_effort c)
      |> encode_trailing (rc_model_provider c) |}.

#[export] Instance encode_command : CanonicalEncode ThreadCommand := {|
  encode_canonical c h :=
    match c with
    | Create source workspace parent =>
        h |> hasher_tag 0 |> encode_canonical source |> encode_canonical workspace
          |> encode_canonical parent
    | SetName name => h |> hasher_tag 1 |> encode_canonical name
    | SetSummary summary => h |> hasher_tag 2 |> encode_canonical summary
    | SetArchived archived => h |> hasher_tag 3 |> encode_canonical archived
    | StartTurn turn_id mode =>
        h |> hasher_tag 4 |> encode_canonical turn_id |> encode_canonical mode
    | CaptureTurnExecutionContext turn_id context =>
        h |> hasher_tag 5 |> encode_canonical turn_id |> encode_canonical context
    | AppendTranscriptItem item_id turn_id item_kind content =>
        h |> hasher_tag 6 |> encode_canonical item_id |> encode_canonical turn_id
          |> encode_canonical item_kind |> encode_canonical content
    | FinalizeTranscriptItem item_id content =>
        h |> hasher_tag 7 |> encode_canonical item_id |> encode_canonical content
    | CancelTranscriptItem item_id reason =>
        h |> hasher_tag 8 |> encode_canonical item_id |> encode_canonical reason
    | CompleteTurn turn_id => h |> hasher_tag 9 |> encode_canonical turn_id
    | AbortTurn turn_id reason =>
        h |> hasher_tag 10 |> encode_canonical turn_id |> encode_canonical reason
    | FailTurn turn_id error_code message =>
        h |> hasher_tag 11 |> encode_canonical turn_id |> encode_canonical error_code
          |> encode_canonical message
    | ReplaceModelContextBaseline basis summary retained =>
        h |> hasher_tag 12 |> encode_canonical basis |> encode_canonical summary
          |> encode_canonical retained
    | MoveTranscriptHead from to reason =>
        h |> hasher_tag 13 |> encode_canonical from |> encode_canonical to
          |> encode_canonical reason
    | RedactContent item_id replacement reason =>
        h |> hasher_tag 14 |> encode_canonical item_id |> encode_canonical replacement
          |> encode_canonical reason
    | RecordModelContextItem item_id turn_id content =>
        h |> hasher_tag 16 |> encode_canonical item_id |> encode_canonical turn_id
          |> encode_canonical content
    | SetWorkspace workspace => h |> hasher_tag 17 |> encode_canonical workspace
    | RecordTurnCost cost_micros => h |> hasher_tag 18 |> encode_canonical cost_micros
    | SetResumeConfig model model_provider reasoning_effort =>
        h |> hasher_tag 19 |> encode_canonical model |> encode_canonical reasoning_effort
          |> encode_trailing model_provider
    | RollbackModelContext user_turns => h |> hasher_tag 20 |> encode_canonical user_turns
    | ReplaceModelContextSnapshot basis snapshot =>
        h |> hasher_tag 21 |> encode_canonical basis |> encode_canonical snapshot
    | RecordNativeAgentEvent agent_sequence event_id turn_id route payload =>
        h |> hasher_tag 22 |> encode_canonical agent_sequence |> encode_canonical event_id
          |> encode_canonical turn_id |> encode_canonical route |> encode_canonical payload
    | SetDynamicTools tools => h |> hasher_tag 23 |> encode_canonical tools
    | ReconcileSessionMetadata name resume_config dynamic_tools =>
        h |> hasher_tag 24 |> encode_canonical name |> encode_canonical resume_config
          |> encode_canonical dynamic_tools
    | SetPreview preview first =>
        h |> hasher_tag 25 |> encode_canonical preview |> encode_canonical first
    | MarkAgentEventMetadataReconciled generation =>
        h |> hasher_tag 26 |> encode_canonical generation
    | ReconcileAgentEventTimeline generation created updated =>
        h |> hasher_tag 27 |> encode_canonical generation |> encode_canonical created
          |> encode_canonical updated
    | RecordNativeAgentEvents events => h |> hasher_tag 28 |> encode_canonical events
    end |}.

(** * Command identity *)

(** The message hashed by [compute_command_digest]. *)
Definition command_hasher (schema_version : u32) (command_id : CommandId) (thread_id : ThreadId)
    (expected_revision : ThreadRevision) (actor : ThreadActor) (correlation_id : option string)
    (command : ThreadCommand) : CanonicalHasher :=
  hasher_domain COMMAND_DOMAIN
    |> encode_canonical schema_version
    |> encode_canonical command_id
    |> encode_canonical thread_id
    |> encode_canonical expected_revision
    |> encode_canonical actor
    |> encode_canonical correlation_id
    |> encode_canonical command.

Definition compute_command_digest `{External} (schema_version : u32) (command_id : CommandId)
    (thread_id : ThreadId) (expected_revision : ThreadRevision) (actor : ThreadActor)
    (correlation_id : option string) (command : ThreadCommand) : Digest :=
  hasher_finish
    (command_hasher schema_version command_id thread_id expected_revision actor correlation_id
       command).

Record ThreadCommandHeader := {
  ch_command_id : CommandId;
  ch_thread_id : ThreadId;
  ch_expected_revision : ThreadRevision;
  ch_command_digest : Digest
}.

Definition command_header_new `{External} (command_id : CommandId) (thread_id : ThreadId)
    (expected_revision : ThreadRevision) (actor : ThreadActor) (correlation_id : option string)
    (command : ThreadCommand) : ThreadCommandHeader := {|
  ch_command_id := command_id;
  ch_thread_id := thread_id;
  ch_expected_revision := expected_revision;
  ch_command_digest := compute_command_digest THREAD_STORE_SCHEMA_VERSION command_id thread_id
    expected_revision actor correlation_id command
|}.

Record ThreadCommandEnvelope := {
  ce_schema_version : u32;
  ce_command_id : CommandId;
  ce_thread_id : ThreadId;
  ce_expected_revision : ThreadRevision;
  ce_actor : ThreadActor;
  ce_correlation_id : option string;
  ce_command : ThreadCommand;
  ce_command_digest : Digest
}.

#[export] Instance thread_command_envelope_eq_dec : EqDecision ThreadCommandEnvelope.
Proof. solve_decision. Defined.

Definition command_envelope_new `{External} (command_id : CommandId) (thread_id : ThreadId)
    (expected_revision : ThreadRevision) (actor : ThreadActor) (correlation_id : option string)
    (command : ThreadCommand) : ThreadCommandEnvelope := {|
  ce_schema_version := THREAD_STORE_SCHEMA_VERSION;
  ce_command_id := command_id;
  ce_thread_id := thread_id;
  ce_expected_revision := expected_revision;
  ce_actor := actor;
  ce_correlation_id := correlation_id;
  ce_command := command;
  ce_command_digest := compute_command_digest THREAD_STORE_SCHEMA_VERSION command_id thread_id
    expected_revision actor correlation_id command
|}.

Definition compute_digest `{External} (c : ThreadCommandEnvelope) : Digest :=
  compute_command_digest (ce_schema_version c) (ce_command_id c) (ce_thread_id c)
    (ce_expected_revision c) (ce_actor c) (ce_correlation_id c) (ce_command c).

Definition has_valid_digest `{External} (c : ThreadCommandEnvelope) : bool :=
  bool_decide (ce_command_digest c = compute_digest c).

(** * Laws *)

#[export] Instance prefix_free_native_agent_event : PrefixFree NativeAgentEventCommand.
Proof.
  split; [split; intros; encodes encode_native_agent_event; by canonical|].
  intros [] [] r s. encodes encode_native_agent_event. canonical. cbn. intros Hf E.
  split_fields. done.
Qed.

#[export] Instance nonempty_native_agent_event : NonEmptyEncoding NativeAgentEventCommand.
Proof.
  split. intros e. encodes encode_native_agent_event. canonical. rewrite !length_app.
  pose proof (length_string_encoding (na_event_id e)). lia.
Qed.

#[export] Instance lawful_resume_config : Lawful ThreadResumeConfig.
Proof.
  split. intros c h. encodes encode_resume_config. rewrite !hashed_trailing. by canonical.
Qed.

Lemma resume_config_bytes (c : ThreadResumeConfig) :
  canonical_bytes c = canonical_bytes (rc_model c) ++ canonical_bytes (rc_reasoning_effort c)
    ++ trailing_bytes (rc_model_provider c).
Proof. encodes encode_resume_config. rewrite hashed_trailing. by canonical. Qed.

#[export] Instance lawful_option_resume_config : Lawful (option ThreadResumeConfig).
Proof. split. intros [x|] h; encodes encode_option; cbn [hasher_optional]; by canonical. Qed.

Lemma option_resume_config_bytes (o : option ThreadResumeConfig) :
  canonical_bytes o =
    match o with
    | Some c => tag_bytes 1 ++ canonical_bytes c
    | None => tag_bytes 0
    end.
Proof.
  rewrite (canonical_bytes_unfold o).
  cbn [encode_canonical encode_option]. destruct o; cbn [hasher_optional]; by canonical.
Qed.

(** Whether a resume configuration carries a provider: the one choice its
    encoding leaves unmarked. *)
Definition provider_presence (o : option ThreadResumeConfig) : option bool :=
  match o with
  | Some c => Some (match rc_model_provider c with Some _ => true | None => false end)
  | None => None
  end.

Lemma option_resume_config_split (o p : option ThreadResumeConfig) r s :
  provider_presence o = provider_presence p ->
  fits (canonical_bytes o ++ r) -> canonical_bytes o ++ r = canonical_bytes p ++ s ->
  o = p /\ r = s /\ fits r.
Proof.
  rewrite !option_resume_config_bytes. intros Hp Hf E.
  destruct o as [[m pr e]|], p as [[m' pr' e']|]; try discriminate Hp.
  - rewrite !resume_config_bytes in *. cbn in *. rewrite <- !app_assoc in *. split_fields.
    destruct pr, pr'; try discriminate Hp; cbn [trailing_bytes] in *; split_fields; done.
  - by split_fields.
Qed.

#[export] Instance lawful_command : Lawful ThreadCommand.
Proof.
  split. intros [] h; encodes encode_command; rewrite ?hashed_trailing; by canonical.
Qed.

(** The presence marker missing from the encoding of a command. *)
Definition unmarked_provider (c : ThreadCommand) : option bool :=
  match c with
  | ReconcileSessionMetadata _ resume_config _ => provider_presence resume_config
  | _ => None
  end.

Lemma command_bytes_inj c d :
  unmarked_provider c = unmarked_provider d ->
  fits (canonical_bytes c) -> canonical_bytes c = canonical_bytes d -> c = d.
Proof.
  destruct c, d; encodes encode_command; rewrite ?hashed_trailing; canonical;
    intros Hu Hf E; split_fields; try split_last.
  - by apply trailing_bytes_inj in E as ->.
  - apply option_resume_config_split in E as (-> & E & Hf'); [|done..].
    clear Hf. by split_last.
Qed.

(** The message hashed for a command's envelope. *)
Definition command_message (c : ThreadCommandEnvelope) : bytes :=
  hashed (command_hasher (ce_schema_version c) (ce_command_id c) (ce_thread_id c)
            (ce_expected_revision c) (ce_actor c) (ce_correlation_id c) (ce_command c)).

Lemma command_message_inj c d :
  unmarked_provider (ce_command c) = unmarked_provider (ce_command d) ->
  ce_command_digest c = ce_command_digest d ->
  fits (command_message c) -> command_message c = command_message d -> c = d.
Proof.
  intros Hu Hd. unfold command_message, command_hasher. canonical. intros Hf E.
  apply domain_split in E as [E Hf']; [|done]. clear Hf.
  destruct c as [v1 i1 t1 r1 a1 o1 c1 d1], d as [v2 i2 t2 r2 a2 o2 c2 d2]. cbn in *. split_fields.
  by apply command_bytes_inj in E as ->.
Qed.
