(* ===== verification/Lifecycle.v ===== *)
(** The turn state machine (thread-store-contracts: turn_lifecycle.rs). *)

From stdpp Require Import relations.
From S2P Require Import Prelude Canonical Events.

Inductive TurnLifecycle :=
  | Pending
  | Running
  | Completed
  | Aborted (reason : TurnAbortReason)
  | Failed (error_code : string).

Inductive TurnTransition :=
  | Start
  | Complete
  | Abort (reason : TurnAbortReason)
  | Fail_ (error_code : string).

Inductive TurnTransitionOutcome := Applied | NoOp.

Record TurnLifecycleError := { le_from : TurnLifecycle; le_to : TurnLifecycle }.

#[export] Instance turn_lifecycle_eq_dec : EqDecision TurnLifecycle.
Proof. solve_decision. Defined.

Definition target (t : TurnTransition) : TurnLifecycle :=
  match t with
  | Start => Running
  | Complete => Completed
  | Abort reason => Aborted reason
  | Fail_ error_code => Failed error_code
  end.

(** [apply(&mut self, transition)]: the new state beside the outcome. *)
Definition lifecycle_apply (s : TurnLifecycle) (t : TurnTransition)
    : TurnLifecycle * result TurnLifecycleError TurnTransitionOutcome :=
  let target := target t in
  if bool_decide (s = target) then (s, Ok NoOp)
  else
    let allowed :=
      match s, target with
      | Pending, Running => true
      | Running, Completed => true
      | Running, Aborted _ => true
      | Running, Failed _ => true
      | _, _ => false
      end in
    if negb allowed then (s, Err {| le_from := s; le_to := target |})
    else (target, Ok Applied).

(** * Specification *)

Inductive lifecycle_step : TurnLifecycle -> TurnTransition -> TurnLifecycle -> Prop :=
  | step_start : lifecycle_step Pending Start Running
  | step_complete : lifecycle_step Running Complete Completed
  | step_abort r : lifecycle_step Running (Abort r) (Aborted r)
  | step_fail c : lifecycle_step Running (Fail_ c) (Failed c).

Definition terminal (s : TurnLifecycle) : bool :=
  match s with Pending | Running => false | _ => true end.

Fixpoint lifecycle_run (s : TurnLifecycle) (ts : list TurnTransition) : TurnLifecycle :=
  match ts with
  | [] => s
  | t :: ts => lifecycle_run (lifecycle_apply s t).1 ts
  end.

Lemma lifecycle_apply_cases s t :
  (lifecycle_apply s t = (s, Ok NoOp) /\ s = target t) \/
  (lifecycle_apply s t = (target t, Ok Applied) /\ lifecycle_step s t (target t)) \/
  (lifecycle_apply s t = (s, Err {| le_from := s; le_to := target t |}) /\
   s <> target t /\ forall s', ~ lifecycle_step s t s').
Proof.
  unfold lifecycle_apply. case_bool_decide as E; [by left|right].
  destruct s, t; simpl; first [left; split; [done|constructor] | right; split; [done|]; split; [done|]];
    intros s' Hs; inversion Hs.
Qed.

Lemma terminal_stable s ts : terminal s = true -> lifecycle_run s ts = s.
Proof.
  intros Ht. induction ts as [|t ts IH]; simpl; [done|].
  destruct (lifecycle_apply_cases s t) as [[-> _]|[[-> Hs]|[-> _]]]; [done| |done].
  by inversion Hs; subst.
Qed.
