(* ===== verification/Receipts.v ===== *)
(** Command receipts (thread-store-contracts: receipt.rs): the three
    constructors and the causality check. *)

From S2P Require Import Prelude Canonical Events.

Inductive ReceiptStatus := StatusApplied | StatusNoOp | StatusRejected.

Inductive AchievedDurability := DurNone | DurVolatile | DurBuffered | DurDurable.

#[export] Instance receipt_status_eq_dec : EqDecision ReceiptStatus.
Proof. solve_decision. Defined.
#[export] Instance achieved_durability_eq_dec : EqDecision AchievedDurability.
Proof. solve_decision. Defined.

Record ReceiptDiagnostic := {
  diag_code : string;
  diag_message : string;
  diag_path : option string
}.

#[export] Instance receipt_diagnostic_eq_dec : EqDecision ReceiptDiagnostic.
Proof. solve_decision. Defined.

Record CommittedEventRef := {
  cr_event_id : EventId;
  cr_revision : ThreadRevision
}.

#[export] Instance committed_event_ref_eq_dec : EqDecision CommittedEventRef.
Proof. solve_decision. Defined.

Record ThreadCommandReceipt := {
  r_schema_version : u32;
  r_receipt_id : ReceiptId;
  r_command_id : CommandId;
  r_command_digest : Digest;
  r_batch_id : option BatchId;
  r_status : ReceiptStatus;
  r_expected_revision : ThreadRevision;
  r_revision_before : ThreadRevision;
  r_revision_after : ThreadRevision;
  r_events : list CommittedEventRef;
  r_batch_digest : option Digest;
  r_durability : AchievedDurability;
  r_diagnostics : list ReceiptDiagnostic;
  r_recorded_at_unix_ms : i64
}.

#[export] Instance thread_command_receipt_eq_dec : EqDecision ThreadCommandReceipt.
Proof. solve_decision. Defined.

Inductive ReceiptValidationError :=
  | SchemaVersion
  | BadReceiptId
  | CommandDigest
  | StatusPayload
  | RevisionRange
  | EventSequence.

Section Receipts.
Context `{External}.

Definition receipt_applied (command_id : CommandId) (command_digest : Digest) (batch_id : BatchId)
    (expected_revision : ThreadRevision) (events : list CommittedEventRef)
    (batch_digest : Digest) (durability : AchievedDurability) (recorded_at_unix_ms : i64)
    : ThreadCommandReceipt :=
  let revision_after :=
    match list.last events with Some event => cr_revision event | None => expected_revision end in
  {| r_schema_version := THREAD_STORE_SCHEMA_VERSION;
     r_receipt_id := ReceiptId_for_command command_id;
     r_command_id := command_id;
     r_command_digest := command_digest;
     r_batch_id := Some batch_id;
     r_status := StatusApplied;
     r_expected_revision := expected_revision;
     r_revision_before := expected_revision;
     r_revision_after := revision_after;
     r_events := events;
     r_batch_digest := Some batch_digest;
     r_durability := durability;
     r_diagnostics := [];
     r_recorded_at_unix_ms := recorded_at_unix_ms |}.

Definition receipt_no_op (command_id : CommandId) (command_digest : Digest)
    (revision : ThreadRevision) (recorded_at_unix_ms : i64) : ThreadCommandReceipt :=
  {| r_schema_version := THREAD_STORE_SCHEMA_VERSION;
     r_receipt_id := ReceiptId_for_command command_id;
     r_command_id := command_id;
     r_command_digest := command_digest;
     r_batch_id := None;
     r_status := StatusNoOp;
     r_expected_revision := revision;
     r_revision_before := revision;
     r_revision_after := revision;
     r_events := [];
     r_batch_digest := None;
     r_durability := DurNone;
     r_diagnostics := [];
     r_recorded_at_unix_ms := recorded_at_unix_ms |}.

Definition receipt_rejected (command_id : CommandId) (command_digest : Digest)
    (expected_revision current_revision : ThreadRevision) (diagnostic : ReceiptDiagnostic)
    (recorded_at_unix_ms : i64) : ThreadCommandReceipt :=
  {| r_schema_version := THREAD_STORE_SCHEMA_VERSION;
     r_receipt_id := ReceiptId_for_command command_id;
     r_command_id := command_id;
     r_command_digest := command_digest;
     r_batch_id := None;
     r_status := StatusRejected;
     r_expected_revision := expected_revision;
     r_revision_before := current_revision;
     r_revision_after := current_revision;
     r_events := [];
     r_batch_digest := None;
     r_durability := DurNone;
     r_diagnostics := [diagnostic];
     r_recorded_at_unix_ms := recorded_at_unix_ms |}.

Definition is_none {A} (o : option A) : bool := match o with Some _ => false | None => true end.
Definition is_empty {A} (l : list A) : bool := match l with [] => true | _ => false end.

(** The loop over [self.events.iter().enumerate()] from [index]. *)
Fixpoint validate_event_sequence (before : ThreadRevision) (index : Z)
    (events : list CommittedEventRef) : result ReceiptValidationError unit :=
  match events with
  | [] => Ok tt
  | event :: rest =>
      offset ← ok_or (checked 0 (2 ^ 64) index) RevisionRange;
      expected ← ok_or (checked_advance before (u64_of (val offset + 1))) RevisionRange;
      _ ← ensure (bool_decide (cr_revision event = expected)) EventSequence;
      validate_event_sequence before (index + 1) rest
  end.

Definition validate_applied (r : ThreadCommandReceipt) : result ReceiptValidationError unit :=
  _ ← ensure
    (negb (negb (bool_decide (r_expected_revision r = r_revision_before r))
      || (rev (r_revision_after r) <=? rev (r_revision_before r))
      || is_none (r_batch_id r)
      || is_none (r_batch_digest r)
      || bool_decide (r_durability r = DurNone)
      || negb (is_empty (r_diagnostics r))
      || is_empty (r_events r))) StatusPayload;
  expected_count ←
    ok_or (checked 0 (2 ^ 64) (rev (r_revision_after r) - rev (r_revision_before r))) RevisionRange;
  _ ← ensure (val expected_count =? len (r_events r)) RevisionRange;
  validate_event_sequence (r_revision_before r) 0 (r_events r).

Definition validate_no_op (r : ThreadCommandReceipt) : result ReceiptValidationError unit :=
  ensure
    (negb (negb (bool_decide (r_expected_revision r = r_revision_before r))
      || negb (bool_decide (r_revision_before r = r_revision_after r))
      || negb (is_none (r_batch_id r))
      || negb (is_none (r_batch_digest r))
      || negb (bool_decide (r_durability r = DurNone))
      || negb (is_empty (r_events r))
      || negb (is_empty (r_diagnostics r)))) StatusPayload.

Definition validate_rejected (r : ThreadCommandReceipt) : result ReceiptValidationError unit :=
  ensure
    (negb (negb (bool_decide (r_revision_before r = r_revision_after r))
      || negb (is_none (r_batch_id r))
      || negb (is_none (r_batch_digest r))
      || negb (bool_decide (r_durability r = DurNone))
      || negb (is_empty (r_events r))
      || is_empty (r_diagnostics r))) StatusPayload.

Definition validate_causality (r : ThreadCommandReceipt) (expected_command_digest : Digest)
    : result ReceiptValidationError unit :=
  _ ← ensure (bool_decide (r_schema_version r = THREAD_STORE_SCHEMA_VERSION)) SchemaVersion;
  _ ← ensure (bool_decide (r_receipt_id r = ReceiptId_for_command (r_command_id r))) BadReceiptId;
  _ ← ensure (bool_decide (r_command_digest r = expected_command_digest)) CommandDigest;
  match r_status r with
  | StatusApplied => validate_applied r
  | StatusNoOp => validate_no_op r
  | StatusRejected => validate_rejected r
  end.

End Receipts.

(** * Functional behaviour of the causality check *)

Section Causality.
Context `{External}.

(** Revisions [before + 1, before + 2, ...] of a committed batch. *)
Definition contiguous_from (before : Z) (events : list CommittedEventRef) : Prop :=
  forall i event, events !! i = Some event -> rev (cr_revision event) = before + 1 + Z.of_nat i.

Lemma contiguous_from_cons before event events :
  contiguous_from before (event :: events) <->
  rev (cr_revision event) = before + 1 /\ contiguous_from (before + 1) events.
Proof.
  unfold contiguous_from. split.
  - intros Hc. split; [specialize (Hc 0%nat event eq_refl); lia|].
    intros i e Hi. specialize (Hc (S i) e Hi). lia.
  - intros [He Hc] [|i] e Hi; simpl in Hi; [simplify_eq; lia|].
    apply Hc in Hi. lia.
Qed.

Lemma validate_event_sequence_Ok before index events u :
  0 <= index -> index + len events < 2 ^ 64 ->
  validate_event_sequence before index events = Ok u <->
  contiguous_from (rev before + index) events.
Proof.
  revert index. destruct u.
  induction events as [|event events IH]; intros index Hi Hl; simpl; [by split|].
  simpl length in Hl. rewrite contiguous_from_cons.
  destruct (checked_in 0 (2 ^ 64) index) as (o & Eo & Ho); [lia|]. rewrite Eo. simpl.
  replace (rev before + index + 1) with (rev before + (index + 1)) by lia.
  rewrite <- IH by lia.
  assert (Hadd : val (u64_of (val o + 1)) = index + 1) by (rewrite val_u64_of_small; lia).
  destruct (checked_advance before (u64_of (val o + 1))) as [expected|] eqn:Ea; simpl.
  - apply checked_advance_Some in Ea. rewrite Hadd in Ea.
    case_bool_decide as Eq; simpl.
    + subst expected. split; [intros E; split; [lia|done]|by intros [_ ?]].
    + split; [done|]. intros [E _]. destruct Eq. apply rev_inj. lia.
  - split; [done|]. intros [E _]. exfalso.
    assert (Hs : checked_advance before (u64_of (val o + 1)) = Some (cr_revision event)).
    { apply checked_advance_Some. lia. }
    congruence.
Qed.

Lemma validate_applied_Ok r u :
  validate_applied r = Ok u <->
  r_expected_revision r = r_revision_before r /\
  is_Some (r_batch_id r) /\ is_Some (r_batch_digest r) /\
  r_durability r <> DurNone /\ r_diagnostics r = [] /\ r_events r <> [] /\
  rev (r_revision_after r) = rev (r_revision_before r) + len (r_events r) /\
  contiguous_from (rev (r_revision_before r)) (r_events r).
Proof.
  unfold validate_applied. set (n := len (r_events r)).
  pose proof (rev_bounds (r_revision_after r)). pose proof (rev_bounds (r_revision_before r)).
  split.
  - intros E. inv_ok. inv_bool.
    destruct (r_batch_id r), (r_batch_digest r), (r_diagnostics r), (r_events r) eqn:Ee; try done.
    apply checked_Some in Hr0. pose proof (val_bounds a0).
    apply validate_event_sequence_Ok in E; [|lia|fold n; lia].
    rewrite Z.add_0_r in E. repeat split; eauto. lia.
  - intros (He & [b Hb] & [d Hd] & Hdur & Hdiag & Hev & Hafter & Hc).
    destruct (checked_in 0 (2 ^ 64) n) as (x & Ex & Hx); [subst n; lia|].
    assert (Hpos : 0 < n) by (subst n; destruct (r_events r); [done|]; simpl; lia).
    rewrite Hb, Hd, Hdiag, He. simpl.
    rewrite bool_decide_eq_true_2, (bool_decide_eq_false_2 (_ = DurNone)) by done. simpl.
    replace (rev (r_revision_after r) <=? rev (r_revision_before r)) with false by lia.
    destruct (r_events r) as [|event events] eqn:Ee; [done|]. simpl is_empty.
    cbv beta iota delta [orb negb ensure]. cbn [mbind result_bind].
    replace (rev (r_revision_after r) - rev (r_revision_before r)) with n by lia.
    rewrite Ex. cbn [mbind result_bind ok_or]. rewrite Hx. fold n. rewrite Z.eqb_refl.
    cbn [mbind result_bind]. destruct u.
    apply validate_event_sequence_Ok; [lia|subst n; lia|]. by rewrite Z.add_0_r.
Qed.
End Causality.
