(* ===== verification/Format.v ===== *)
(** The on-disk format of the journal (thread-store-journal: format.rs,
    format/stored_events.rs, model.rs): segment headers, frames made of a
    header, a JSON payload and a commit trailer, and the validation of a
    stored batch against the preceding thread head.

    [crc32c] and the JSON text of a batch belong to other crates: the class
    [External] and the class [JsonCodec] stand for them. *)

From stdpp Require Import pretty.
From S2P Require Import Prelude Canonical Events Commands Receipts.

Open Scope string_scope.
Open Scope list_scope.
Open Scope Z_scope.

Definition SEGMENT_HEADER_LEN : nat := 80.
Definition FRAME_HEADER_LEN : nat := 184.
Definition FRAME_TRAILER_LEN : nat := 52.
Definition SEGMENT_MAGIC : bytes := str_bytes "PRXTSJ01".
Definition FRAME_MAGIC : bytes := str_bytes "PRXBTH01".
Definition TRAILER_MAGIC : bytes := str_bytes "PRXCOM01".
Definition FORMAT_VERSION : Z := 1.
Definition JSON_CODEC : Z := 1.
Definition BATCH_DIGEST_DOMAIN : string := "praxis.thread-store.journal-batch.v1".
Definition LEGACY_STORED_BATCH_SCHEMA_VERSION : Z := 1.
Definition STORED_BATCH_SCHEMA_VERSION : Z := 2.
Definition STORED_RECEIPT_SCHEMA_VERSION : Z := 1.

(** * Data *)

Inductive JournalDurability := Buffered | Durable.

#[export] Instance journal_durability_eq_dec : EqDecision JournalDurability.
Proof. solve_decision. Defined.

Record JournalBatch := {
  jb_thread_id : ThreadId;
  jb_batch_id : BatchId;
  jb_command_id : CommandId;
  jb_command_digest : Digest;
  jb_expected_revision : ThreadRevision;
  jb_recorded_at_unix_ms : i64;
  jb_events : list ThreadEventEnvelope
}.

Definition journal_batch_new (command : ThreadCommandHeader) (batch_id : BatchId)
    (recorded_at_unix_ms : i64) (events : list ThreadEventEnvelope) : JournalBatch := {|
  jb_thread_id := ch_thread_id command;
  jb_batch_id := batch_id;
  jb_command_id := ch_command_id command;
  jb_command_digest := ch_command_digest command;
  jb_expected_revision := ch_expected_revision command;
  jb_recorded_at_unix_ms := recorded_at_unix_ms;
  jb_events := events
|}.

Record SegmentHeader := {
  sh_sequence : u64;
  sh_first_revision : ThreadRevision;
  sh_thread_id : byte_array 16;
  sh_previous_record_digest : Digest
}.

Record FrameHeader := {
  fh_payload_len : u64;
  fh_start_revision : ThreadRevision;
  fh_end_revision : ThreadRevision;
  fh_event_count : u32;
  fh_batch_id : byte_array 16;
  fh_command_id : byte_array 16;
  fh_command_digest : Digest;
  fh_previous_record_digest : Digest;
  fh_last_record_digest : Digest;
  fh_payload_crc32c : u32
}.

Inductive StoredEvents :=
  | SEmpty
  | SOne (event : ThreadEventEnvelope)
  | SMany (events : list ThreadEventEnvelope).

Definition preserve_allocation (events : list ThreadEventEnvelope) : StoredEvents := SMany events.

(** [into_vec], [consume] and [deref] yield the same elements. *)
Definition stored_list (s : StoredEvents) : list ThreadEventEnvelope :=
  match s with
  | SEmpty => []
  | SOne event => [event]
  | SMany events => events
  end.

(** [visit_seq] of the deserializer. *)
Definition visit_seq (sequence : list ThreadEventEnvelope) : StoredEvents :=
  match sequence with
  | [] => SEmpty
  | [first] => SOne first
  | first :: second :: rest => SMany (first :: second :: rest)
  end.

(** [StoredBatch], over the representation of its events. *)
Record StoredBatchOf (E : Type) := {
  sb_schema_version : u32;
  sb_thread_id : ThreadId;
  sb_batch_id : BatchId;
  sb_command_id : CommandId;
  sb_command_digest : Digest;
  sb_expected_revision : ThreadRevision;
  sb_recorded_at_unix_ms : i64;
  sb_batch_digest : Digest;
  sb_legacy_receipt : option ThreadCommandReceipt;
  sb_durability : option AchievedDurability;
  sb_receipt_schema_version : option u32;
  sb_events : E
}.
Arguments sb_schema_version {E} s.
Arguments sb_thread_id {E} s.
Arguments sb_batch_id {E} s.
Arguments sb_command_id {E} s.
Arguments sb_command_digest {E} s.
Arguments sb_expected_revision {E} s.
Arguments sb_recorded_at_unix_ms {E} s.
Arguments sb_batch_digest {E} s.
Arguments sb_legacy_receipt {E} s.
Arguments sb_durability {E} s.
Arguments sb_receipt_schema_version {E} s.
Arguments sb_events {E} s.

Abbreviation StoredBatch := (StoredBatchOf StoredEvents).
(** The fields serde writes and reads: the events as a JSON array. *)
Abbreviation StoredBatchJson := (StoredBatchOf (list ThreadEventEnvelope)).

Definition map_events {E F} (f : E -> F) (s : StoredBatchOf E) : StoredBatchOf F := {|
  sb_schema_version := sb_schema_version s;
  sb_thread_id := sb_thread_id s;
  sb_batch_id := sb_batch_id s;
  sb_command_id := sb_command_id s;
  sb_command_digest := sb_command_digest s;
  sb_expected_revision := sb_expected_revision s;
  sb_recorded_at_unix_ms := sb_recorded_at_unix_ms s;
  sb_batch_digest := sb_batch_digest s;
  sb_legacy_receipt := sb_legacy_receipt s;
  sb_durability := sb_durability s;
  sb_receipt_schema_version := sb_receipt_schema_version s;
  sb_events := f (sb_events s)
|}.

(** serde_json: the chunks [to_writer] writes, and [from_slice]. *)
Class JsonCodec := {
  json_chunks : StoredBatchJson -> list bytes;
  json_from_slice : bytes -> result string StoredBatchJson;
  json_roundtrip : forall w, json_from_slice (concat (json_chunks w)) = Ok w
}.

Record EncodedFrame := {
  ef_bytes : bytes;
  ef_header : FrameHeader;
  ef_stored : StoredBatch
}.

Record DecodedFrame := {
  df_header : FrameHeader;
  df_stored : StoredBatch
}.

(** * Little-endian access *)

Definition u16_at (b : bytes) (offset : nat) : Z := le_value (slice offset 2 b).
Definition u32_at (b : bytes) (offset : nat) : u32 := u32_of (le_value (slice offset 4 b)).
Definition u64_at (b : bytes) (offset : nat) : u64 := u64_of (le_value (slice offset 8 b)).
Definition digest_at (b : bytes) (offset : nat) : Digest :=
  digest_from_bytes (array_from 32 (slice offset 32 b)).
Definition push_u16 (b : bytes) (value : Z) : bytes := b ++ le_bytes 2 value.
Definition push_u32 (b : bytes) (value : Z) : bytes := b ++ le_bytes 4 value.
Definition push_u64 (b : bytes) (value : Z) : bytes := b ++ le_bytes 8 value.

Section Format.
Context `{External, JsonCodec}.

(** * Receipts of a stored batch *)

Definition derive_receipt (s : StoredBatch) : result string ThreadCommandReceipt :=
  if val (sb_schema_version s) =? LEGACY_STORED_BATCH_SCHEMA_VERSION then
    ok_or (sb_legacy_receipt s) "legacy stored batch is missing its receipt"
  else if val (sb_schema_version s) =? STORED_BATCH_SCHEMA_VERSION then
    durability ← ok_or (sb_durability s) "stored batch is missing its durability";
    receipt_schema_version ←
      ok_or (sb_receipt_schema_version s) "stored batch is missing its receipt schema version";
    let events := map (fun event =>
      {| cr_event_id := ev_event_id event; cr_revision := ev_revision event |})
      (stored_list (sb_events s)) in
    let receipt := receipt_applied (sb_command_id s) (sb_command_digest s) (sb_batch_id s)
      (sb_expected_revision s) events (sb_batch_digest s) durability
      (sb_recorded_at_unix_ms s) in
    mret {| r_schema_version := receipt_schema_version;
            r_receipt_id := r_receipt_id receipt;
            r_command_id := r_command_id receipt;
            r_command_digest := r_command_digest receipt;
            r_batch_id := r_batch_id receipt;
            r_status := r_status receipt;
            r_expected_revision := r_expected_revision receipt;
            r_revision_before := r_revision_before receipt;
            r_revision_after := r_revision_after receipt;
            r_events := r_events receipt;
            r_batch_digest := r_batch_digest receipt;
            r_durability := r_durability receipt;
            r_diagnostics := r_diagnostics receipt;
            r_recorded_at_unix_ms := r_recorded_at_unix_ms receipt |}
  else Err "unsupported stored batch schema version".

Definition into_receipt (s : StoredBatch) : result string ThreadCommandReceipt := derive_receipt s.

Definition into_receipt_and_events (s : StoredBatch)
    : result string (ThreadCommandReceipt * list ThreadEventEnvelope) :=
  receipt ← derive_receipt s;
  mret (receipt, stored_list (sb_events s)).

(** * Segment headers *)

Definition encode_segment_header (sequence : u64) (first_revision : ThreadRevision)
    (thread_id : ThreadId) (previous_record_digest : Digest) : bytes :=
  let b := SEGMENT_MAGIC in
  let b := push_u16 b FORMAT_VERSION in
  let b := push_u16 b (Z.of_nat SEGMENT_HEADER_LEN) in
  let b := push_u64 b (val sequence) in
  let b := push_u64 b (rev first_revision) in
  let b := b ++ id_bytes thread_id in
  let b := b ++ digest_bytes previous_record_digest in
  push_u32 b (val (crc32c b)).

Definition decode_segment_header (b : bytes) : result string SegmentHeader :=
  _ ← ensure (length b =? SEGMENT_HEADER_LEN)%nat "incomplete segment header";
  _ ← ensure (bool_decide (slice 0 8 b = SEGMENT_MAGIC)) "invalid segment magic";
  _ ← ensure (u16_at b 8 =? FORMAT_VERSION) "unsupported segment format version";
  _ ← ensure (u16_at b 10 =? Z.of_nat SEGMENT_HEADER_LEN) "invalid segment header length";
  _ ← ensure (bool_decide (u32_at b (SEGMENT_HEADER_LEN - 4)
                = crc32c (slice 0 (SEGMENT_HEADER_LEN - 4) b))) "segment header CRC32C mismatch";
  mret {| sh_sequence := u64_at b 12;
          sh_first_revision := revision_new (u64_at b 20);
          sh_thread_id := array_from 16 (slice 28 16 b);
          sh_previous_record_digest := digest_at b 44 |}.

(** * Batch digests *)

(** The message hashed by [compute_digest_fields]. *)
Definition digest_fields_hasher (thread_id : ThreadId) (batch_id : BatchId)
    (command_id : CommandId) (command_digest : Digest) (expected_revision : ThreadRevision)
    (recorded_at_unix_ms : i64) (events : list ThreadEventEnvelope) : CanonicalHasher :=
  fold_left (fun h event => encode_canonical (ev_record_digest event) h) events
    (hasher_domain BATCH_DIGEST_DOMAIN
      |> encode_canonical thread_id
      |> encode_canonical batch_id
      |> encode_canonical command_id
      |> encode_canonical command_digest
      |> encode_canonical expected_revision
      |> encode_canonical recorded_at_unix_ms
      |> hasher_u64 (u64_of (len events))).

Definition compute_digest_fields (thread_id : ThreadId) (batch_id : BatchId)
    (command_id : CommandId) (command_digest : Digest) (expected_revision : ThreadRevision)
    (recorded_at_unix_ms : i64) (events : list ThreadEventEnvelope) : Digest :=
  hasher_finish (digest_fields_hasher thread_id batch_id command_id command_digest
    expected_revision recorded_at_unix_ms events).

Definition compute_batch_digest (batch : JournalBatch) : Digest :=
  compute_digest_fields (jb_thread_id batch) (jb_batch_id batch) (jb_command_id batch)
    (jb_command_digest batch) (jb_expected_revision batch) (jb_recorded_at_unix_ms batch)
    (jb_events batch).

Definition compute_stored_batch_digest (batch : StoredBatch) : Digest :=
  compute_digest_fields (sb_thread_id batch) (sb_batch_id batch) (sb_command_id batch)
    (sb_command_digest batch) (sb_expected_revision batch) (sb_recorded_at_unix_ms batch)
    (stored_list (sb_events batch)).

(** * Frames *)

Definition encode_frame_header (header : FrameHeader) : bytes :=
  let b := FRAME_MAGIC in
  let b := push_u16 b FORMAT_VERSION in
  let b := b ++ le_bytes 1 JSON_CODEC in
  let b := b ++ le_bytes 1 0 in
  let b := push_u32 b (Z.of_nat FRAME_HEADER_LEN) in
  let b := push_u64 b (val (fh_payload_len header)) in
  let b := push_u64 b (rev (fh_start_revision header)) in
  let b := push_u64 b (rev (fh_end_revision header)) in
  let b := push_u32 b (val (fh_event_count header)) in
  let b := push_u32 b 0 in
  let b := b ++ array_bytes (fh_batch_id header) in
  let b := b ++ array_bytes (fh_command_id header) in
  let b := b ++ digest_bytes (fh_command_digest header) in
  let b := b ++ digest_bytes (fh_previous_record_digest header) in
  let b := b ++ digest_bytes (fh_last_record_digest header) in
  let b := push_u32 b (val (fh_payload_crc32c header)) in
  push_u32 b (val (crc32c b)).

Definition encode_trailer (frame_len : u64) (batch_digest : Digest) : bytes :=
  let b := TRAILER_MAGIC in
  let b := push_u64 b (val frame_len) in
  let b := b ++ digest_bytes batch_digest in
  push_u32 b (val (crc32c b)).

Definition decode_frame_header (b : bytes) : result string FrameHeader :=
  _ ← ensure (length b =? FRAME_HEADER_LEN)%nat "incomplete frame header";
  _ ← ensure (bool_decide (slice 0 8 b = FRAME_MAGIC)) "invalid frame magic";
  _ ← ensure ((u16_at b 8 =? FORMAT_VERSION) && (le_value (slice 10 1 b) =? JSON_CODEC)
              && (le_value (slice 11 1 b) =? 0)) "unsupported frame format or codec";
  _ ← ensure (val (u32_at b 12) =? Z.of_nat FRAME_HEADER_LEN) "invalid frame header length";
  _ ← ensure (bool_decide (u32_at b (FRAME_HEADER_LEN - 4)
                = crc32c (slice 0 (FRAME_HEADER_LEN - 4) b))) "frame header CRC32C mismatch";
  mret {| fh_payload_len := u64_at b 16;
          fh_start_revision := revision_new (u64_at b 24);
          fh_end_revision := revision_new (u64_at b 32);
          fh_event_count := u32_at b 40;
          fh_batch_id := array_from 16 (slice 48 16 b);
          fh_command_id := array_from 16 (slice 64 16 b);
          fh_command_digest := digest_at b 80;
          fh_previous_record_digest := digest_at b 112;
          fh_last_record_digest := digest_at b 144;
          fh_payload_crc32c := u32_at b 176 |}.

Definition frame_len (header : FrameHeader) : result string u64 :=
  ok_or (u64_checked_add (fh_payload_len header)
           (Z.of_nat (FRAME_HEADER_LEN + FRAME_TRAILER_LEN))) "frame length overflow".

(** One [write] of the payload writer; [b] holds the header space and what was
    written before. *)
Definition payload_write (max_payload_bytes : u64) (b input : bytes) : result string bytes :=
  let current := Z.max 0 (len b - Z.of_nat FRAME_HEADER_LEN) in
  next ← ok_or (checked 0 (2 ^ 64) (current + len input)) "frame payload length overflow";
  _ ← ensure (negb (val max_payload_bytes <? val next)) "frame payload exceeds configured maximum";
  mret (b ++ input).

Fixpoint write_chunks (max_payload_bytes : u64) (b : bytes) (chunks : list bytes)
    : result string bytes :=
  match chunks with
  | [] => Ok b
  | input :: chunks => b ← payload_write max_payload_bytes b input;
                       write_chunks max_payload_bytes b chunks
  end.

Definition achieved (durability : JournalDurability) : AchievedDurability :=
  match durability with Buffered => DurBuffered | Durable => DurDurable end.

Definition stored_of_batch (batch : JournalBatch) (durability : JournalDurability) : StoredBatch := {|
  sb_schema_version := u32_of STORED_BATCH_SCHEMA_VERSION;
  sb_thread_id := jb_thread_id batch;
  sb_batch_id := jb_batch_id batch;
  sb_command_id := jb_command_id batch;
  sb_command_digest := jb_command_digest batch;
  sb_expected_revision := jb_expected_revision batch;
  sb_recorded_at_unix_ms := jb_recorded_at_unix_ms batch;
  sb_batch_digest := compute_batch_digest batch;
  sb_legacy_receipt := None;
  sb_durability := Some (achieved durability);
  sb_receipt_schema_version := Some (u32_of STORED_RECEIPT_SCHEMA_VERSION);
  sb_events := preserve_allocation (jb_events batch)
|}.

Definition encode_batch (batch : JournalBatch) (durability : JournalDurability)
    (max_payload_bytes : u64) : result string EncodedFrame :=
  let stored := stored_of_batch batch durability in
  first ← ok_or (head (stored_list (sb_events stored))) "event batch is empty";
  last ← ok_or (list.last (stored_list (sb_events stored))) "event batch is empty";
  event_count ← ok_or (checked 0 (2 ^ 32) (len (stored_list (sb_events stored))))
                  "event count exceeds the frame format";
  b ← write_chunks max_payload_bytes (repeat x00 FRAME_HEADER_LEN)
        (json_chunks (map_events stored_list stored));
  let payload := drop FRAME_HEADER_LEN b in
  payload_len ← ok_or (checked 0 (2 ^ 64) (len payload)) "batch payload length overflow";
  let header := {|
    fh_payload_len := payload_len;
    fh_start_revision := ev_revision first;
    fh_end_revision := ev_revision last;
    fh_event_count := event_count;
    fh_batch_id := as_uuid (sb_batch_id stored);
    fh_command_id := as_uuid (sb_command_id stored);
    fh_command_digest := sb_command_digest stored;
    fh_previous_record_digest := ev_previous_record_digest first;
    fh_last_record_digest := ev_record_digest last;
    fh_payload_crc32c := crc32c payload |} in
  frame_len ← ok_or (checked 0 (2 ^ 64) (len b + Z.of_nat FRAME_TRAILER_LEN)) "frame length overflow";
  let trailer := encode_trailer frame_len (sb_batch_digest stored) in
  mret {| ef_bytes := encode_frame_header header ++ drop FRAME_HEADER_LEN b ++ trailer;
          ef_header := header;
          ef_stored := stored |}.

Definition decode_complete_frame (b : bytes) : result string DecodedFrame :=
  _ ← ensure (negb (length b <? FRAME_HEADER_LEN + FRAME_TRAILER_LEN)%nat) "incomplete frame";
  header ← decode_frame_header (slice 0 FRAME_HEADER_LEN b);
  expected_len ← frame_len header;
  _ ← ensure (len b =? val expected_len) "frame length does not match its header";
  let payload_end := (length b - FRAME_TRAILER_LEN)%nat in
  let payload := slice FRAME_HEADER_LEN (payload_end - FRAME_HEADER_LEN) b in
  _ ← ensure (bool_decide (crc32c payload = fh_payload_crc32c header)) "frame payload CRC32C mismatch";
  let trailer := drop payload_end b in
  _ ← ensure (bool_decide (slice 0 8 trailer = TRAILER_MAGIC)) "missing atomic batch commit trailer";
  _ ← ensure (bool_decide (u64_at trailer 8 = expected_len)) "commit trailer frame length mismatch";
  _ ← ensure (bool_decide (u32_at trailer (FRAME_TRAILER_LEN - 4)
                = crc32c (slice 0 (FRAME_TRAILER_LEN - 4) trailer))) "commit trailer CRC32C mismatch";
  stored ← map_err (fun error => String.append "invalid batch payload: " error)
             (map_events visit_seq <$> json_from_slice payload);
  _ ← ensure (bool_decide (digest_at trailer 16 = sb_batch_digest stored))
        "commit trailer batch digest mismatch";
  mret {| df_header := header; df_stored := stored |}.

(** * Validation against the preceding head *)

Definition is_committed_durability (durability : AchievedDurability) : bool :=
  match durability with DurBuffered | DurDurable => true | _ => false end.

Definition receipt_events_match (receipt : ThreadCommandReceipt)
    (events : list ThreadEventEnvelope) : bool :=
  (length (r_events receipt) =? length events)%nat
  && forallb (fun '(committed, event) =>
       bool_decide (cr_event_id committed = ev_event_id event)
       && bool_decide (cr_revision committed = ev_revision event))
     (combine (r_events receipt) events).

Definition receipt_error_message (e : ReceiptValidationError) : string :=
  match e with
  | SchemaVersion => "unsupported ThreadStore receipt schema version"
  | BadReceiptId => "receipt id does not match command id"
  | CommandDigest => "receipt command digest does not match the submitted command"
  | StatusPayload => "receipt status does not match revision or payload fields"
  | RevisionRange => "receipt revision range does not match committed event count"
  | EventSequence => "committed event revisions are not contiguous"
  end.

Definition validate_receipt_encoding (s : StoredBatch) : result string unit :=
  if val (sb_schema_version s) =? LEGACY_STORED_BATCH_SCHEMA_VERSION then
    _ ← ensure (is_none (sb_durability s) && is_none (sb_receipt_schema_version s))
          "legacy stored batch contains canonical receipt metadata";
    receipt ← ok_or (sb_legacy_receipt s) "legacy stored batch is missing its receipt";
    _ ← map_err (fun e => String.append "invalid stored receipt: " (receipt_error_message e))
          (validate_causality receipt (sb_command_digest s));
    ensure (bool_decide (r_command_id receipt = sb_command_id s)
            && bool_decide (r_batch_id receipt = Some (sb_batch_id s))
            && receipt_events_match receipt (stored_list (sb_events s))
            && bool_decide (r_batch_digest receipt = Some (sb_batch_digest s))
            && bool_decide (r_recorded_at_unix_ms receipt = sb_recorded_at_unix_ms s)
            && is_committed_durability (r_durability receipt))
      "stored receipt does not describe its batch"
  else if val (sb_schema_version s) =? STORED_BATCH_SCHEMA_VERSION then
    ensure (is_none (sb_legacy_receipt s)
            && match sb_durability s with Some d => is_committed_durability d | None => false end
            && bool_decide (sb_receipt_schema_version s = Some (u32_of STORED_RECEIPT_SCHEMA_VERSION)))
      "canonical stored batch has invalid receipt metadata"
  else Err "unsupported stored batch schema version".

(** The loop over the events of a batch: [index] is the position, [prior] the
    digest of the preceding record, [event_ids] the identifiers seen when
    duplicates are checked.  The number of events equals a [u32] count, so the
    conversion of [index] to [u32] succeeds. *)
Fixpoint validate_events (thread_id : ThreadId) (batch_id : BatchId)
    (previous_revision : ThreadRevision) (check_duplicate_ids : bool)
    (index : Z) (prior : Digest) (event_ids : list EventId)
    (events : list ThreadEventEnvelope) : result string unit :=
  match events with
  | [] => Ok tt
  | event :: rest =>
      index64 ← ok_or (checked 0 (2 ^ 64) index) "event index exceeds u64";
      offset ← ok_or (u64_checked_add index64 1) "event index overflow";
      revision ← ok_or (checked_advance previous_revision offset) "thread revision overflow";
      _ ← ensure
        (bool_decide (ev_thread_id event = thread_id)
         && bool_decide (ev_batch_id event = batch_id)
         && (val (ev_sequence event) =? index)
         && bool_decide (ev_revision event = revision)
         && bool_decide (ev_previous_record_digest event = prior)
         && has_valid_digests event)
        (String.append "invalid event at batch sequence " (pretty (Z.to_N index)));
      _ ← ensure (negb (check_duplicate_ids && bool_decide (ev_event_id event ∈ event_ids)))
        "duplicate event id inside one batch";
      validate_events thread_id batch_id previous_revision check_duplicate_ids
        (index + 1) (ev_record_digest event)
        (if check_duplicate_ids then ev_event_id event :: event_ids else event_ids) rest
  end.

Definition validate_stored_batch (header : FrameHeader) (stored : StoredBatch)
    (thread_id : ThreadId) (previous_head : ThreadHead) : result string ThreadHead :=
  let events := stored_list (sb_events stored) in
  _ ← validate_receipt_encoding stored;
  _ ← ensure
    (bool_decide (sb_thread_id stored = thread_id)
     && bool_decide (fh_batch_id header = as_uuid (sb_batch_id stored))
     && bool_decide (fh_command_id header = as_uuid (sb_command_id stored))
     && bool_decide (fh_command_digest header = sb_command_digest stored))
    "frame identity does not match its payload";
  _ ← ensure
    (bool_decide (sb_expected_revision stored = head_revision previous_head)
     && bool_decide (fh_previous_record_digest header = head_digest previous_head))
    "batch does not continue the preceding thread head";
  let count := val (fh_event_count header) in
  _ ← ensure (negb (count =? 0) && (count =? len events))
    "frame event count does not match its payload";
  expected_start ← ok_or (checked_next (head_revision previous_head)) "thread revision overflow";
  _ ← ensure (bool_decide (fh_start_revision header = expected_start))
    "frame start revision is not contiguous";
  let check_duplicate_ids := (1 <? length events)%nat in
  _ ← validate_events thread_id (sb_batch_id stored) (head_revision previous_head)
        check_duplicate_ids 0 (head_digest previous_head) [] events;
  last ← ok_or (list.last events) "event batch is empty";
  _ ← ensure
    (bool_decide (fh_end_revision header = ev_revision last)
     && bool_decide (fh_last_record_digest header = ev_record_digest last))
    "frame end does not match its final event";
  _ ← ensure (bool_decide (sb_batch_digest stored = compute_stored_batch_digest stored))
    "canonical batch digest mismatch";
  mret {| head_revision := ev_revision last; head_digest := ev_record_digest last |}.

End Format.
