(* ===== verification/FormatFacts.v ===== *)
(** Round trips of the journal format: headers, trailers and whole frames are
    decoded to what was encoded, and a decoded segment header determines its
    bytes; and a declarative reading of what [validate_stored_batch] accepts. *)

From stdpp Require Import pretty.
From S2P Require Import Prelude Canonical Events Commands Receipts Format.

Section FormatFacts.
Context `{External, JsonCodec}.

(** * Fields of a byte string *)

Lemma u64_at_hit b (x : u64) off r :
  drop off b = le_bytes 8 (val x) ++ r -> u64_at b off = x.
Proof.
  intros E. unfold u64_at, slice. rewrite E, take_app_le by (lens; lia).
  rewrite take_ge by (lens; lia). rewrite le_value_le_bytes; [apply u64_of_val|].
  change (256 ^ Z.of_nat 8) with (2 ^ 64). apply val_bounds.
Qed.

Lemma u32_at_hit b (x : u32) off r :
  drop off b = le_bytes 4 (val x) ++ r -> u32_at b off = x.
Proof.
  intros E. unfold u32_at, slice. rewrite E, take_app_le by (lens; lia).
  rewrite take_ge by (lens; lia). rewrite le_value_le_bytes; [apply u32_of_val|].
  change (256 ^ Z.of_nat 4) with (2 ^ 32). apply val_bounds.
Qed.

Lemma u16_at_hit b x off r :
  0 <= x < 2 ^ 16 -> drop off b = le_bytes 2 x ++ r -> u16_at b off = x.
Proof.
  intros Hx E. unfold u16_at, slice. rewrite E, take_app_le by (lens; lia).
  rewrite take_ge by (lens; lia). rewrite le_value_le_bytes; [done|].
  change (256 ^ Z.of_nat 2) with (2 ^ 16). done.
Qed.

Lemma slice_of_drop off n b a r : drop off b = a ++ r -> length a = n -> slice off n b = a.
Proof. intros E <-. unfold slice. by rewrite E, take_app_length. Qed.

Lemma digest_at_hit b d off r : drop off b = digest_bytes d ++ r -> digest_at b off = d.
Proof.
  intros E. unfold digest_at. rewrite (slice_of_drop _ _ _ _ _ E) by (lens; done).
  apply digest_bytes_inj. unfold digest_bytes. simpl. apply array_bytes_from. by lens.
Qed.

Lemma drop_skip {A} n (a r : list A) k : length a = k -> (k <= n)%nat -> drop n (a ++ r) = drop (n - k) r.
Proof. intros <- Hn. by rewrite drop_app_ge. Qed.

(** Moves a [drop] at a constant offset over fields of known length. *)
Ltac drops :=
  rewrite <- ?app_assoc;
  repeat (first [ rewrite drop_0 | erewrite drop_skip by first [lens; reflexivity | simpl; lia] ];
          cbn [Nat.sub]);
  first [reflexivity | symmetry; apply app_nil_r | idtac].

Lemma length_SEGMENT_MAGIC : length SEGMENT_MAGIC = 8%nat.
Proof. reflexivity. Qed.
Lemma length_FRAME_MAGIC : length FRAME_MAGIC = 8%nat.
Proof. reflexivity. Qed.
Lemma length_TRAILER_MAGIC : length TRAILER_MAGIC = 8%nat.
Proof. reflexivity. Qed.
Hint Rewrite length_SEGMENT_MAGIC length_FRAME_MAGIC length_TRAILER_MAGIC : lens.

(** Evaluates the guards of a decoder on an encoding. *)
Ltac field := solve [eapply slice_of_drop; [drops|by lens] | eapply u16_at_hit; [done|drops]
                    | eapply u32_at_hit; drops | eapply u64_at_hit; drops
                    | eapply digest_at_hit; drops].

Definition segment_body (sequence : u64) (first_revision : ThreadRevision)
    (thread_id : ThreadId) (previous_record_digest : Digest) : bytes :=
  SEGMENT_MAGIC ++ le_bytes 2 FORMAT_VERSION ++ le_bytes 2 (Z.of_nat SEGMENT_HEADER_LEN)
    ++ le_bytes 8 (val sequence) ++ le_bytes 8 (rev first_revision) ++ id_bytes thread_id
    ++ digest_bytes previous_record_digest.

Lemma encode_segment_header_eq s r t d :
  encode_segment_header s r t d = segment_body s r t d ++ le_bytes 4 (val (crc32c (segment_body s r t d))).
Proof. unfold encode_segment_header, push_u16, push_u32, push_u64, segment_body. by rewrite <- !app_assoc. Qed.

Lemma length_segment_body s r t d : length (segment_body s r t d) = 76%nat.
Proof. unfold segment_body. by lens. Qed.
Hint Rewrite length_segment_body : lens.

Lemma length_encode_segment_header s r t d : length (encode_segment_header s r t d) = SEGMENT_HEADER_LEN.
Proof. rewrite encode_segment_header_eq. by lens. Qed.
Hint Rewrite length_encode_segment_header : lens.

Lemma segment_header_roundtrip s r t d :
  decode_segment_header (encode_segment_header s r t d) =
    Ok {| sh_sequence := s; sh_first_revision := r; sh_thread_id := as_uuid t;
          sh_previous_record_digest := d |}.
Proof.
  set (b := encode_segment_header s r t d).
  assert (Eb := encode_segment_header_eq s r t d). fold b in Eb. set (crc := crc32c _) in Eb.
  assert (El : length b = SEGMENT_HEADER_LEN) by apply length_encode_segment_header.
  assert (E0 : slice 0 76 b = segment_body s r t d) by (rewrite Eb; field).
  assert (E1 : slice 0 8 b = SEGMENT_MAGIC) by (rewrite Eb; unfold segment_body; field).
  assert (E2 : u16_at b 8 = FORMAT_VERSION) by (rewrite Eb; unfold segment_body; field).
  assert (E3 : u16_at b 10 = Z.of_nat SEGMENT_HEADER_LEN) by (rewrite Eb; unfold segment_body; field).
  assert (E4 : u32_at b 76 = crc) by (rewrite Eb; field).
  assert (E5 : u64_at b 12 = s) by (rewrite Eb; unfold segment_body; field).
  assert (E6 : u64_at b 20 = revision_get r) by (rewrite Eb; unfold segment_body; field).
  assert (E7 : slice 28 16 b = id_bytes t) by (rewrite Eb; unfold segment_body; field).
  assert (E8 : digest_at b 44 = d) by (rewrite Eb; unfold segment_body; field).
  unfold decode_segment_header.
  change (SEGMENT_HEADER_LEN - 4)%nat with 76%nat.
  rewrite El, E0, E1, E2, E3, E4, E5, E6, E7, E8, !bool_decide_eq_true_2 by done.
  rewrite Nat.eqb_refl, !Z.eqb_refl. simpl. unfold id_bytes. rewrite array_from_bytes.
  by destruct r.
Qed.

(** The other direction: slices rebuild the fields that were read. *)
Lemma slice_u64 b off :
  (off + 8 <= length b)%nat -> slice off 8 b = le_bytes 8 (val (u64_at b off)).
Proof.
  intros L. pose proof (length_slice off 8 b L) as Ls.
  unfold u64_at. pose proof (le_value_bounds (slice off 8 b)) as Hb. rewrite Ls in Hb.
  rewrite val_u64_of_small by exact Hb. by rewrite le_bytes_nth_of_value.
Qed.

Lemma slice_u32 b off :
  (off + 4 <= length b)%nat -> slice off 4 b = le_bytes 4 (val (u32_at b off)).
Proof.
  intros L. pose proof (length_slice off 4 b L) as Ls.
  unfold u32_at. pose proof (le_value_bounds (slice off 4 b)) as Hb. rewrite Ls in Hb.
  rewrite val_u32_of, Z.mod_small by exact Hb. by rewrite le_bytes_nth_of_value.
Qed.

Lemma slice_u16 b off :
  (off + 2 <= length b)%nat -> slice off 2 b = le_bytes 2 (u16_at b off).
Proof.
  intros L. pose proof (length_slice off 2 b L) as Ls.
  unfold u16_at. by rewrite le_bytes_nth_of_value.
Qed.

Lemma slice_digest b off :
  (off + 32 <= length b)%nat -> slice off 32 b = digest_bytes (digest_at b off).
Proof.
  intros L. unfold digest_at, digest_bytes. simpl. by rewrite array_bytes_from by by apply length_slice.
Qed.

Lemma slice_array b off n :
  (off + n <= length b)%nat -> slice off n b = array_bytes (array_from n (slice off n b)).
Proof. intros L. by rewrite array_bytes_from by by apply length_slice. Qed.

Lemma segment_header_exact b h :
  decode_segment_header b = Ok h ->
  b = encode_segment_header (sh_sequence h) (sh_first_revision h)
        (from_uuid (sh_thread_id h)) (sh_previous_record_digest h).
Proof.
  unfold decode_segment_header. intros E. inv_ok. inv_bool.
  apply Nat.eqb_eq in Hr. change (SEGMENT_HEADER_LEN) with 80%nat in Hr.
  change (SEGMENT_HEADER_LEN - 4)%nat with 76%nat in *.
  assert (Eb : b = segment_body (u64_at b 12) (revision_new (u64_at b 20))
    (from_uuid (array_from 16 (slice 28 16 b))) (digest_at b 44) ++ drop 76 b).
  { rewrite <- (drop_0 b) at 1. unfold segment_body, id_bytes. simpl as_uuid.
    change (rev _) with (val (u64_at b 20)).
    rewrite <- slice_array, <- slice_digest, <- !slice_u64 by lia.
    rewrite <- Hr1, <- Hr2, <- Hr0, <- !slice_u16 by lia. rewrite <- !app_assoc.
    rewrite (slice_split 0 8), (slice_split 8 2), (slice_split 10 2), (slice_split 12 8),
      (slice_split 20 8), (slice_split 28 16), (slice_split 44 32) by lia. reflexivity. }
  set (body := segment_body _ _ _ _) in Eb.
  assert (Hbody : slice 0 76 b = body) by (rewrite Eb; apply slice_hit, length_segment_body).
  rewrite encode_segment_header_eq. simpl sh_sequence. simpl sh_first_revision.
  simpl sh_thread_id. simpl sh_previous_record_digest. fold body. rewrite Eb at 1. f_equal.
  rewrite <- Hbody, <- Hr3, <- slice_u32 by lia. unfold slice. symmetry. apply take_ge.
  rewrite length_drop. lia.
Qed.

(** * Frame headers and trailers *)

Definition frame_header_body (h : FrameHeader) : bytes :=
  FRAME_MAGIC ++ le_bytes 2 FORMAT_VERSION ++ le_bytes 1 JSON_CODEC ++ le_bytes 1 0
    ++ le_bytes 4 (Z.of_nat FRAME_HEADER_LEN) ++ le_bytes 8 (val (fh_payload_len h))
    ++ le_bytes 8 (rev (fh_start_revision h)) ++ le_bytes 8 (rev (fh_end_revision h))
    ++ le_bytes 4 (val (fh_event_count h)) ++ le_bytes 4 0
    ++ array_bytes (fh_batch_id h) ++ array_bytes (fh_command_id h)
    ++ digest_bytes (fh_command_digest h) ++ digest_bytes (fh_previous_record_digest h)
    ++ digest_bytes (fh_last_record_digest h) ++ le_bytes 4 (val (fh_payload_crc32c h)).

Lemma encode_frame_header_eq h :
  encode_frame_header h = frame_header_body h ++ le_bytes 4 (val (crc32c (frame_header_body h))).
Proof.
  unfold encode_frame_header, push_u16, push_u32, push_u64, frame_header_body.
  by rewrite <- !app_assoc.
Qed.

Lemma length_frame_header_body h : length (frame_header_body h) = 180%nat.
Proof. unfold frame_header_body. by lens. Qed.
Hint Rewrite length_frame_header_body : lens.

Lemma length_encode_frame_header h : length (encode_frame_header h) = FRAME_HEADER_LEN.
Proof. rewrite encode_frame_header_eq. by lens. Qed.
Hint Rewrite length_encode_frame_header : lens.

Lemma frame_header_roundtrip h : decode_frame_header (encode_frame_header h) = Ok h.
Proof.
  set (b := encode_frame_header h).
  assert (Eb := encode_frame_header_eq h). fold b in Eb. set (crc := crc32c _) in Eb.
  assert (El : length b = FRAME_HEADER_LEN) by apply length_encode_frame_header.
  assert (E0 : slice 0 180 b = frame_header_body h) by (rewrite Eb; field).
  assert (E1 : slice 0 8 b = FRAME_MAGIC) by (rewrite Eb; unfold frame_header_body; field).
  assert (E2 : u16_at b 8 = FORMAT_VERSION) by (rewrite Eb; unfold frame_header_body; field).
  assert (E3 : slice 10 1 b = le_bytes 1 JSON_CODEC) by (rewrite Eb; unfold frame_header_body; field).
  assert (E4 : slice 11 1 b = le_bytes 1 0) by (rewrite Eb; unfold frame_header_body; field).
  assert (E5 : slice 12 4 b = le_bytes 4 (Z.of_nat FRAME_HEADER_LEN))
    by (rewrite Eb; unfold frame_header_body; field).
  assert (E6 : u32_at b 180 = crc) by (rewrite Eb; field).
  assert (E7 : u64_at b 16 = fh_payload_len h) by (rewrite Eb; unfold frame_header_body; field).
  assert (E8 : u64_at b 24 = revision_get (fh_start_revision h))
    by (rewrite Eb; unfold frame_header_body; field).
  assert (E9 : u64_at b 32 = revision_get (fh_end_revision h))
    by (rewrite Eb; unfold frame_header_body; field).
  assert (E10 : u32_at b 40 = fh_event_count h) by (rewrite Eb; unfold frame_header_body; field).
  assert (E11 : slice 48 16 b = array_bytes (fh_batch_id h))
    by (rewrite Eb; unfold frame_header_body; field).
  assert (E12 : slice 64 16 b = array_bytes (fh_command_id h))
    by (rewrite Eb; unfold frame_header_body; field).
  assert (E13 : digest_at b 80 = fh_command_digest h) by (rewrite Eb; unfold frame_header_body; field).
  assert (E14 : digest_at b 112 = fh_previous_record_digest h)
    by (rewrite Eb; unfold frame_header_body; field).
  assert (E15 : digest_at b 144 = fh_last_record_digest h)
    by (rewrite Eb; unfold frame_header_body; field).
  assert (E16 : u32_at b 176 = fh_payload_crc32c h) by (rewrite Eb; unfold frame_header_body; field).
  unfold decode_frame_header. change (FRAME_HEADER_LEN - 4)%nat with 180%nat.
  assert (E5' : val (u32_at b 12) = Z.of_nat FRAME_HEADER_LEN) by (unfold u32_at; by rewrite E5).
  rewrite El, E0, E1, E2, E3, E4, E5', E6, E7, E8, E9, E10, E11, E12, E13, E14, E15, E16.
  rewrite !bool_decide_eq_true_2, Nat.eqb_refl, !Z.eqb_refl by done. simpl.
  rewrite !array_from_bytes. by destruct h as [? [] [] ? ? ? ? ? ? ?].
Qed.

Lemma decode_frame_header_length b h : decode_frame_header b = Ok h -> length b = FRAME_HEADER_LEN.
Proof. unfold decode_frame_header. intros E. inv_ok. by apply Nat.eqb_eq. Qed.

Definition trailer_body (n : u64) (d : Digest) : bytes :=
  TRAILER_MAGIC ++ le_bytes 8 (val n) ++ digest_bytes d.

Lemma encode_trailer_eq n d :
  encode_trailer n d = trailer_body n d ++ le_bytes 4 (val (crc32c (trailer_body n d))).
Proof. unfold encode_trailer, push_u32, push_u64, trailer_body. by rewrite <- !app_assoc. Qed.

Lemma length_trailer_body n d : length (trailer_body n d) = 48%nat.
Proof. unfold trailer_body. by lens. Qed.
Hint Rewrite length_trailer_body : lens.

Lemma length_encode_trailer n d : length (encode_trailer n d) = FRAME_TRAILER_LEN.
Proof. rewrite encode_trailer_eq. by lens. Qed.
Hint Rewrite length_encode_trailer : lens.

Lemma trailer_fields n d :
  let b := encode_trailer n d in
  slice 0 8 b = TRAILER_MAGIC /\ u64_at b 8 = n /\ digest_at b 16 = d /\
  u32_at b 48 = crc32c (slice 0 48 b).
Proof.
  simpl. rewrite encode_trailer_eq. set (crc := crc32c _).
  assert (E0 : slice 0 48 (trailer_body n d ++ le_bytes 4 (val crc)) = trailer_body n d) by field.
  rewrite E0. repeat split; unfold trailer_body; field.
Qed.

(** * Whole frames *)

Lemma write_chunks_Ok max b chunks c :
  write_chunks max b chunks = Ok c -> c = b ++ concat chunks.
Proof.
  revert b. induction chunks as [|i chunks IH]; intros b E; simpl in *.
  - injection E as <-. by rewrite app_nil_r.
  - unfold payload_write in E. inv_ok. apply IH in E as ->. by rewrite <- app_assoc.
Qed.

(** The writer accepts exactly the payloads within the configured maximum. *)
Lemma write_chunks_iff max b chunks :
  (FRAME_HEADER_LEN <= length b)%nat -> len b - Z.of_nat FRAME_HEADER_LEN <= val max ->
  write_chunks max b chunks = Ok (b ++ concat chunks) <->
  len (b ++ concat chunks) - Z.of_nat FRAME_HEADER_LEN <= val max.
Proof.
  pose proof (val_bounds max) as Hmax.
  revert b. induction chunks as [|i chunks IH]; intros b Hb Hl; simpl.
  - rewrite app_nil_r. by split.
  - unfold payload_write. rewrite length_app, length_app.
    rewrite Z.max_r by lia.
    destruct (checked 0 (2 ^ 64) (len b - Z.of_nat FRAME_HEADER_LEN + len i)) as [next|] eqn:En.
    + apply checked_Some in En. simpl. rewrite <- En.
      destruct (val max <? _) eqn:Ec; simpl; inv_bool.
      * split; [done|lia].
      * rewrite app_assoc, IH by (rewrite length_app; lia). rewrite !length_app. lia.
    + apply checked_None in En. simpl. split; [done|lia].
Qed.

Definition payload_of (s : StoredBatch) : bytes := concat (json_chunks (map_events stored_list s)).

(** The batch a reader of the frame obtains: the same fields, the events in the
    representation [visit_seq] chooses. *)
Definition normalized (s : StoredBatch) : StoredBatch := map_events (fun e => visit_seq (stored_list e)) s.

Lemma stored_list_visit_seq l : stored_list (visit_seq l) = l.
Proof. by destruct l as [|? [|? ?]]. Qed.

Lemma encode_batch_Ok batch d max f :
  encode_batch batch d max = Ok f ->
  let stored := stored_of_batch batch d in
  let payload := payload_of stored in
  exists first last n,
    head (jb_events batch) = Some first /\ list.last (jb_events batch) = Some last /\
    ef_stored f = stored /\
    val (fh_payload_len (ef_header f)) = len payload /\
    ef_header f = {|
      fh_payload_len := fh_payload_len (ef_header f);
      fh_start_revision := ev_revision first;
      fh_end_revision := ev_revision last;
      fh_event_count := fh_event_count (ef_header f);
      fh_batch_id := as_uuid (jb_batch_id batch);
      fh_command_id := as_uuid (jb_command_id batch);
      fh_command_digest := jb_command_digest batch;
      fh_previous_record_digest := ev_previous_record_digest first;
      fh_last_record_digest := ev_record_digest last;
      fh_payload_crc32c := crc32c payload |} /\
    val (fh_event_count (ef_header f)) = len (jb_events batch) /\
    len payload <= val max /\
    val n = len payload + Z.of_nat (FRAME_HEADER_LEN + FRAME_TRAILER_LEN) /\
    ef_bytes f = encode_frame_header (ef_header f) ++ payload
                   ++ encode_trailer n (sb_batch_digest stored).
Proof.
  unfold encode_batch. intros E. inv_ok. cbn [stored_of_batch sb_events preserve_allocation] in *.
  cbn [stored_list] in *.
  match goal with Hw : write_chunks _ _ _ = Ok ?b |- _ =>
    pose proof (write_chunks_Ok _ _ _ _ Hw) as Eb; subst b; rename Hw into Hwr end.
  pose proof (val_bounds max).
  apply write_chunks_iff in Hwr; [|rewrite repeat_length; lia..].
  rewrite length_app, repeat_length in Hwr.
  assert (Ed : forall l : bytes, drop FRAME_HEADER_LEN (repeat x00 FRAME_HEADER_LEN ++ l) = l).
  { intros l. by apply drop_app_length'. }
  rewrite Ed in *.
  repeat match goal with Hc : checked _ _ _ = Some _ |- _ => apply checked_Some in Hc end.
  match goal with Hn : len (repeat _ _ ++ _) + _ = val ?n |- _ =>
    rewrite length_app, repeat_length in Hn; do 2 eexists; exists n end.
  split; [eassumption|]. split; [eassumption|].
  fold (payload_of (stored_of_batch batch d)) in *.
  cbn [ef_header ef_stored ef_bytes fh_payload_len fh_event_count].
  repeat split; try done; try lia.
Qed.

Lemma frame_len_of header n :
  val n = val (fh_payload_len header) + Z.of_nat (FRAME_HEADER_LEN + FRAME_TRAILER_LEN) ->
  frame_len header = Ok n.
Proof.
  intros E. unfold frame_len, u64_checked_add. rewrite <- E.
  by rewrite (proj2 (checked_Some 0 (2 ^ 64) (val n) n) eq_refl).
Qed.

Lemma decode_complete_frame_of header payload n w :
  val (fh_payload_len header) = len payload ->
  fh_payload_crc32c header = crc32c payload ->
  val n = len payload + Z.of_nat (FRAME_HEADER_LEN + FRAME_TRAILER_LEN) ->
  json_from_slice payload = Ok w ->
  decode_complete_frame (encode_frame_header header ++ payload
      ++ encode_trailer n (sb_batch_digest w))
    = Ok {| df_header := header; df_stored := map_events visit_seq w |}.
Proof.
  intros Hlen Hcrc Hn Hw. set (d := sb_batch_digest w).
  set (b := encode_frame_header header ++ payload ++ encode_trailer n d).
  assert (Lb : length b = (FRAME_HEADER_LEN + length payload + FRAME_TRAILER_LEN)%nat).
  { unfold b. rewrite !length_app, length_encode_frame_header, length_encode_trailer. lia. }
  assert (Eend : (length b - FRAME_TRAILER_LEN)%nat = (FRAME_HEADER_LEN + length payload)%nat) by lia.
  assert (E0 : slice 0 FRAME_HEADER_LEN b = encode_frame_header header).
  { apply slice_hit, length_encode_frame_header. }
  assert (E1 : slice FRAME_HEADER_LEN (length payload) b = payload).
  { unfold b. rewrite slice_skip; rewrite length_encode_frame_header; [|done].
    rewrite Nat.sub_diag. by apply slice_hit. }
  assert (E2 : drop (FRAME_HEADER_LEN + length payload) b = encode_trailer n d).
  { unfold b. rewrite app_assoc. apply drop_app_length'.
    by rewrite length_app, length_encode_frame_header. }
  destruct (trailer_fields n d) as (T1 & T2 & T3 & T4).
  unfold decode_complete_frame. rewrite Eend, E0, E2.
  replace (FRAME_HEADER_LEN + length payload - FRAME_HEADER_LEN)%nat with (length payload) by lia.
  rewrite E1, frame_header_roundtrip.
  assert (Hge : (length b <? FRAME_HEADER_LEN + FRAME_TRAILER_LEN)%nat = false).
  { apply Nat.ltb_ge. lia. }
  rewrite Hge. cbn [negb ensure mbind result_bind].
  rewrite (frame_len_of header n) by lia. cbn [mbind result_bind].
  replace (len b =? val n) with true by lia.
  change (FRAME_TRAILER_LEN - 4)%nat with 48%nat.
  rewrite Hcrc, T1, T2, T3, T4, Hw, !bool_decide_eq_true_2 by done.
  cbn [ensure mbind result_bind fmap result_fmap map_err].
  by rewrite bool_decide_eq_true_2.
Qed.

(** Decoding an encoded batch yields the batch. *)
Lemma frame_roundtrip batch d max f :
  encode_batch batch d max = Ok f ->
  decode_complete_frame (ef_bytes f)
    = Ok {| df_header := ef_header f; df_stored := normalized (ef_stored f) |}.
Proof.
  intros E. apply encode_batch_Ok in E
    as (first & last & n & _ & _ & Hs & Hpl & Hh & _ & _ & Hn & ->).
  rewrite Hs. set (stored := stored_of_batch batch d) in *.
  change (sb_batch_digest stored) with (sb_batch_digest (map_events stored_list stored)).
  apply decode_complete_frame_of; [done| |done|apply json_roundtrip].
  by rewrite Hh.
Qed.

Lemma frame_bytes_length batch d max f :
  encode_batch batch d max = Ok f ->
  len (ef_bytes f) = val (fh_payload_len (ef_header f)) + Z.of_nat (FRAME_HEADER_LEN + FRAME_TRAILER_LEN).
Proof.
  intros E. apply encode_batch_Ok in E
    as (first & last & n & _ & _ & _ & Hpl & _ & _ & _ & _ & ->).
  rewrite Hpl, !length_app, length_encode_frame_header, length_encode_trailer. lia.
Qed.

(** What a decoded frame tells about its bytes. *)
Lemma decode_complete_frame_Ok b f :
  decode_complete_frame b = Ok f ->
  decode_frame_header (slice 0 FRAME_HEADER_LEN b) = Ok (df_header f) /\
  frame_len (df_header f) = Ok (u64_of (len b)) /\
  len b = val (fh_payload_len (df_header f)) + Z.of_nat (FRAME_HEADER_LEN + FRAME_TRAILER_LEN).
Proof.
  unfold decode_complete_frame. intros E. inv_ok. cbn [df_header]. split; [done|].
  pose proof Hr1 as Hf. unfold frame_len in Hf. inv_ok. apply checked_Some in Hf.
  inv_bool. rewrite Hr2, u64_of_val. split; [done|]. lia.
Qed.
End FormatFacts.

Open Scope Z_scope.

Section Validation.
Context `{External, JsonCodec}.

(** The events of one batch continue the record [prior] at [revision]: they
    belong to the thread and batch, are numbered from [index], and each is
    sealed onto the record before it. *)
Fixpoint events_chain (thread_id : ThreadId) (batch_id : BatchId) (revision index : Z)
    (prior : Digest) (events : list ThreadEventEnvelope) : Prop :=
  match events with
  | [] => True
  | event :: rest =>
      ev_thread_id event = thread_id /\ ev_batch_id event = batch_id /\
      val (ev_sequence event) = index /\ rev (ev_revision event) = revision + index + 1 /\
      ev_previous_record_digest event = prior /\ has_valid_digests event = true /\
      events_chain thread_id batch_id revision (index + 1) (ev_record_digest event) rest
  end.

Lemma ok_or_checked {E} lo hi z (e : E) x : ok_or (checked lo hi z) e = Ok x <-> z = val x.
Proof. by rewrite ok_or_Ok, checked_Some. Qed.

Lemma validate_events_Ok tid bid rev0 dup index prior ids events u :
  0 <= index ->
  validate_events tid bid rev0 dup index prior ids events = Ok u <->
  events_chain tid bid (rev rev0) index prior events /\
  (dup = true -> NoDup (map ev_event_id events) /\
                 forall e, e ∈ map ev_event_id events -> e ∉ ids).
Proof.
  destruct u. revert index prior ids.
  induction events as [|e events IH]; intros index prior ids Hi; cbn [validate_events events_chain map].
  { split; [|done]. intros _. split; [done|]. intros _. split; [constructor|].
    by intros ? ?%not_elem_of_nil. }
  split.
  - intros E. inv_ok. repeat match goal with Hc : checked _ _ _ = Some _ |- _ => apply checked_Some in Hc end.
    unfold u64_checked_add in *. repeat match goal with Hc : checked _ _ _ = Some _ |- _ => apply checked_Some in Hc end.
    apply checked_advance_Some in Hr1. inv_bool. apply IH in E as [Hch Hd]; [|lia].
    subst a1. split; [repeat split; try done; lia|].
    intros ->. cbn [andb] in Hr3. inv_bool.
    specialize (Hd eq_refl) as [Hd1 Hd2]. split.
    + apply list.NoDup_cons. split; [|done]. intros Hin. by apply Hd2 in Hin; apply Hin, list_elem_of_here.
    + intros e' [->|Hin]%elem_of_cons; [done|]. apply Hd2 in Hin. rewrite elem_of_cons in Hin. tauto.
  - intros [(Ht & Hb & Hs & Hr & Hp & Hv & Hch) Hd].
    pose proof (val_bounds (ev_sequence e)). pose proof (rev_bounds (ev_revision e)).
    pose proof (rev_bounds rev0).
    destruct (checked_in 0 (2 ^ 64) index) as (i & Hi1 & Hi2); [lia|].
    rewrite Hi1. cbn [ok_or mbind result_bind].
    destruct (checked_in 0 (2 ^ 64) (val i + 1)) as (j & Hj1 & Hj2); [lia|].
    unfold u64_checked_add. rewrite Hj1. cbn [ok_or mbind result_bind].
    rewrite (proj2 (checked_advance_Some rev0 j (ev_revision e))) by lia.
    cbn [ok_or mbind result_bind].
    rewrite (bool_decide_eq_true_2 _ Ht), (bool_decide_eq_true_2 _ Hb), (bool_decide_eq_true_2 _ Hp),
      (bool_decide_eq_true_2 (ev_revision e = _) eq_refl), Hv, Hs, Z.eqb_refl. cbn [andb ensure mbind result_bind].
    assert (Hneg : negb (dup && bool_decide (ev_event_id e ∈ ids)) = true).
    { destruct dup; [|done]. cbn. apply negb_true_iff, bool_decide_eq_false.
      apply Hd; [done|]. apply list_elem_of_here. }
    rewrite Hneg. cbn [ensure mbind result_bind].
    apply IH; [lia|]. split; [done|]. intros ->. specialize (Hd eq_refl) as [Hd1 Hd2].
    apply list.NoDup_cons in Hd1 as [Hn Hd1]. split; [done|].
    intros e' Hin. rewrite elem_of_cons. intros [->|Hin2]; [done|].
    apply (Hd2 e'); [|done]. by apply list_elem_of_further.
Qed.

(** The batch of a frame continues the head [h]. *)
Record continues (thread_id : ThreadId) (h : ThreadHead) (header : FrameHeader) (stored : StoredBatch)
    : Prop := {
  ct_receipt : validate_receipt_encoding stored = Ok tt;
  ct_thread : sb_thread_id stored = thread_id;
  ct_batch : fh_batch_id header = as_uuid (sb_batch_id stored);
  ct_command : fh_command_id header = as_uuid (sb_command_id stored);
  ct_command_digest : fh_command_digest header = sb_command_digest stored;
  ct_expected : sb_expected_revision stored = head_revision h;
  ct_previous : fh_previous_record_digest header = head_digest h;
  ct_count : val (fh_event_count header) = len (stored_list (sb_events stored));
  ct_start : rev (fh_start_revision header) = rev (head_revision h) + 1;
  ct_chain : events_chain thread_id (sb_batch_id stored) (rev (head_revision h)) 0 (head_digest h)
               (stored_list (sb_events stored));
  ct_distinct : NoDup (map ev_event_id (stored_list (sb_events stored)));
  ct_last : exists event, list.last (stored_list (sb_events stored)) = Some event /\
              fh_end_revision header = ev_revision event /\
              fh_last_record_digest header = ev_record_digest event;
  ct_digest : sb_batch_digest stored = compute_stored_batch_digest stored
}.

(** The head after a frame. *)
Definition header_head (header : FrameHeader) : ThreadHead :=
  {| head_revision := fh_end_revision header; head_digest := fh_last_record_digest header |}.

Lemma nodup_short {A B} (f : A -> B) (l : list A) : (length l <= 1)%nat -> NoDup (map f l).
Proof.
  destruct l as [|a [|b l]]; simpl; intros; [constructor|apply NoDup_singleton|lia].
Qed.

Lemma validate_stored_batch_iff header stored tid h h' :
  validate_stored_batch header stored tid h = Ok h' <->
  continues tid h header stored /\ h' = header_head header.
Proof.
  unfold validate_stored_batch. set (events := stored_list (sb_events stored)). split.
  - intros E. inv_ok. inv_bool. apply checked_next_Some in Hr3.
    apply validate_events_Ok in Hr5 as [Hch Hdup]; [|lia].
    split.
    + split; try done; try congruence.
      * destruct (decide (length events <= 1)%nat); [by apply nodup_short|].
        apply Hdup. apply Nat.ltb_lt. lia.
      * eauto.
    + unfold header_head. by f_equal.
  - intros [[] ->]. subst events. set (events := stored_list (sb_events stored)) in *.
    destruct ct_last0 as (event & Hlast & He & Hd).
    rewrite ct_receipt0. cbn [mbind result_bind].
    rewrite !bool_decide_eq_true_2 by done. cbn [andb ensure mbind result_bind].
    assert (Hne : events <> []) by (by intros E; rewrite E in Hlast).
    rewrite ct_count0, Z.eqb_refl, andb_true_r.
    replace (len events =? 0) with false by (destruct events; simpl; [done|lia]).
    cbn [negb ensure mbind result_bind].
    rewrite (proj2 (checked_next_Some _ (fh_start_revision header)) ct_start0).
    cbn [ok_or mbind result_bind]. rewrite bool_decide_eq_true_2 by done.
    cbn [ensure mbind result_bind].
    rewrite (proj2 (validate_events_Ok tid (sb_batch_id stored) (head_revision h)
      (1 <? length events)%nat 0 (head_digest h) [] events tt ltac:(lia))).
    + cbn [mbind result_bind]. rewrite Hlast. cbn [ok_or mbind result_bind].
      rewrite He, Hd, !bool_decide_eq_true_2 by done. cbn [andb ensure mbind result_bind mret result_ret].
      unfold header_head. by rewrite He, Hd.
    + split; [done|]. intros _. split; [done|]. intros ? ?. apply not_elem_of_nil.
Qed.

(** The revisions of a chained batch. *)
Lemma events_chain_lookup tid bid r index prior events k event :
  events_chain tid bid r index prior events -> events !! k = Some event ->
  rev (ev_revision event) = r + index + Z.of_nat k + 1.
Proof.
  revert index prior k. induction events as [|e events IH]; intros index prior k Hc Hk; [done|].
  cbn in Hc. destruct Hc as (_ & _ & _ & Hr & _ & _ & Hc). destruct k as [|k]; simpl in Hk.
  - injection Hk as <-. lia.
  - apply (IH (index + 1) _ k) in Hc; [|done]. lia.
Qed.

Lemma continues_end tid h header stored :
  continues tid h header stored ->
  rev (fh_end_revision header) = rev (head_revision h) + len (stored_list (sb_events stored)).
Proof.
  intros []. destruct ct_last0 as (event & Hlast & -> & _).
  rewrite last_lookup in Hlast. rewrite (events_chain_lookup _ _ _ _ _ _ _ _ ct_chain0 Hlast).
  destruct (stored_list (sb_events stored)); [done|]. simpl. lia.
Qed.

Lemma continues_nonempty tid h header stored :
  continues tid h header stored -> (0 < length (stored_list (sb_events stored)))%nat.
Proof.
  intros []. destruct ct_last0 as (event & Hlast & _).
  destruct (stored_list _); [done|]. simpl. lia.
Qed.

(** Validation reads the events through [stored_list], so the representation
    the deserializer picks does not matter. *)
Lemma continues_normalized tid h header stored :
  continues tid h header stored -> continues tid h header (normalized stored).
Proof.
  assert (E : stored_list (sb_events (normalized stored)) = stored_list (sb_events stored))
    by apply stored_list_visit_seq.
  intros []. split; rewrite ?E; try done.
  - revert ct_receipt0. unfold validate_receipt_encoding. rewrite E. done.
  - change (sb_batch_digest stored = compute_stored_batch_digest (normalized stored)).
    rewrite ct_digest0. unfold compute_stored_batch_digest. by rewrite E.
Qed.

Lemma into_receipt_normalized stored : into_receipt (normalized stored) = into_receipt stored.
Proof.
  assert (E : stored_list (sb_events (normalized stored)) = stored_list (sb_events stored))
    by apply stored_list_visit_seq.
  unfold into_receipt, derive_receipt. rewrite E. done.
Qed.

End Validation.
