(* ===== verification/CommandIndex.v ===== *)
(** The command index of an open journal (thread-store-journal:
    command_index.rs): a Bloom filter over every committed command and a
    bounded first-in first-out cache of recent frame pointers. *)

From S2P Require Import Prelude Canonical.

Definition FILTER_WORDS : Z := Z.shiftl 1 15.
Definition FILTER_MASK : Z := FILTER_WORDS * 64 - 1.
Definition RECENT_COMMANDS : nat := 512.
Definition HASH_STEP : Z := 0x9e3779b97f4a7c15.

(** * Data *)

(** [FramePointer] of recovery.rs. *)
Record FramePointer := {
  fp_previous_record_digest : Digest;
  fp_start_revision : ThreadRevision;
  fp_offset : u64;
  fp_len : u64
}.

#[export] Instance byte_countable : Countable byte.
Proof.
  apply (inj_countable Byte.to_N Byte.of_N). apply Byte.of_to_N.
Defined.

#[export] Instance uuid_id_countable k : Countable (uuid_id k).
Proof.
  apply (inj_countable id_bytes (fun l => from_uuid <$> array_of 16 l)).
  intros [u]. unfold id_bytes. simpl. rewrite (proj2 (array_of_Some 16 _ u) eq_refl). done.
Defined.

Record CommandIndex := {
  ci_filter : option (list u64);
  ci_recent : gmap CommandId FramePointer;
  ci_order : list CommandId
}.

Definition command_index_new : CommandIndex :=
  {| ci_filter := None; ci_recent := ∅; ci_order := [] |}.

(** * Hashing *)

Definition wrap64 (z : Z) : Z := z mod 2 ^ 64.

Definition rotate_left (z n : Z) : Z :=
  Z.lor (wrap64 (Z.shiftl z n)) (Z.shiftr z (64 - n)).
Definition rotate_right (z n : Z) : Z := rotate_left z (64 - n).

Definition mix (value : Z) : Z :=
  let value := Z.lxor value (Z.shiftr value 30) in
  let value := wrap64 (value * 0xbf58476d1ce4e5b9) in
  let value := Z.lxor value (Z.shiftr value 27) in
  let value := wrap64 (value * 0x94d049bb133111eb) in
  Z.lxor value (Z.shiftr value 31).

(** [Uuid::as_u128]: the bytes in big-endian order. *)
Definition as_u128 (u : Uuid) : Z := le_value (reverse (array_bytes u)).

Definition command_bits (command_id : CommandId) : list Z :=
  let value := as_u128 (as_uuid command_id) in
  let low := wrap64 value in
  let high := wrap64 (Z.shiftr value 64) in
  let first := mix (Z.lxor low (rotate_left high 17)) in
  let step := Z.lor (mix (Z.lxor (Z.lxor high (rotate_right low 11)) HASH_STEP)) 1 in
  map (fun index =>
         Z.land (wrap64 (wrap64 (first + wrap64 (index * step))
                         + wrap64 (wrap64 (index * index) * HASH_STEP))) FILTER_MASK)
      [0; 1; 2; 3].

(** * Operations *)

(** [filter[bit / 64] |= 1 << (bit % 64)] *)
Definition set_bit (bit : Z) (filter : list u64) : list u64 :=
  alter (fun word => u64_of (Z.lor (val word) (Z.shiftl 1 (bit mod 64))))
        (Z.to_nat (bit / 64)) filter.

(** [filter[bit / 64] & (1 << (bit % 64)) != 0] *)
Definition test_bit (filter : list u64) (bit : Z) : bool :=
  match filter !! Z.to_nat (bit / 64) with
  | Some word => negb (Z.land (val word) (Z.shiftl 1 (bit mod 64)) =? 0)
  | None => false
  end.

Definition empty_filter : list u64 := replicate (Z.to_nat FILTER_WORDS) u64_zero.

Definition index_insert (command_id : CommandId) (pointer : FramePointer) (c : CommandIndex)
    : CommandIndex :=
  let filter := default empty_filter (ci_filter c) in
  let filter := fold_left (fun filter bit => set_bit bit filter) (command_bits command_id) filter in
  let recent := <[command_id := pointer]> (ci_recent c) in
  match ci_recent c !! command_id with
  | Some _ => {| ci_filter := Some filter; ci_recent := recent; ci_order := ci_order c |}
  | None =>
      let order := ci_order c ++ [command_id] in
      if (RECENT_COMMANDS <? length order)%nat then
        match order with
        | expired :: rest =>
            {| ci_filter := Some filter; ci_recent := delete expired recent; ci_order := rest |}
        | [] => {| ci_filter := Some filter; ci_recent := recent; ci_order := order |}
        end
      else {| ci_filter := Some filter; ci_recent := recent; ci_order := order |}
  end.

Definition maybe_contains (c : CommandIndex) (command_id : CommandId) : bool :=
  match ci_filter c with
  | None => false
  | Some filter => forallb (test_bit filter) (command_bits command_id)
  end.

Definition recent_frame (c : CommandIndex) (command_id : CommandId) : option FramePointer :=
  ci_recent c !! command_id.

(** * Invariant and lemmas *)

Lemma command_bits_bounds id bit : bit ∈ command_bits id -> 0 <= bit < FILTER_WORDS * 64.
Proof.
  unfold command_bits. rewrite list_elem_of_In, in_map_iff. intros (i & <- & _).
  change FILTER_MASK with (Z.ones 21). rewrite Z.land_ones by lia.
  change (FILTER_WORDS * 64) with (2 ^ 21). apply Z.mod_pos_bound. lia.
Qed.

(** The filter is absent before the first insertion, then has all its words; the
    cache and its queue hold the same commands, within the capacity. *)
Record index_ok (c : CommandIndex) : Prop := {
  io_filter : forall filter, ci_filter c = Some filter -> len filter = FILTER_WORDS;
  io_nodup : NoDup (ci_order c);
  io_recent : forall id, is_Some (ci_recent c !! id) <-> id ∈ ci_order c;
  io_capacity : (length (ci_order c) <= RECENT_COMMANDS)%nat
}.

Lemma index_ok_new : index_ok command_index_new.
Proof.
  split; simpl; [done|apply NoDup_nil_2| |lia].
  intros id. rewrite lookup_empty. split; [by intros []|]. intros Hid. by apply not_elem_of_nil in Hid.
Qed.

Lemma length_set_bit bit filter : length (set_bit bit filter) = length filter.
Proof. apply length_alter. Qed.

Lemma length_set_bits bits filter :
  length (fold_left (fun filter bit => set_bit bit filter) bits filter) = length filter.
Proof. revert filter. induction bits; intros; simpl; [done|]. by rewrite IHbits, length_set_bit. Qed.

Lemma land_pow2_testbit a n : 0 <= n -> (Z.land a (Z.shiftl 1 n) =? 0) = negb (Z.testbit a n).
Proof.
  intros Hn. rewrite Z.shiftl_1_l. destruct (Z.testbit a n) eqn:E; simpl.
  - apply Z.eqb_neq. intros H0. apply (f_equal (fun z => Z.testbit z n)) in H0.
    by rewrite Z.land_spec, E, Z.pow2_bits_true, Z.testbit_0_l in H0.
  - apply Z.eqb_eq. apply Z.bits_inj'. intros m Hm. rewrite Z.land_spec, Z.testbit_0_l.
    destruct (decide (m = n)) as [->|Hne]; [by rewrite E|].
    rewrite Z.pow2_bits_false by done. apply andb_false_r.
Qed.

Lemma test_bit_iff filter bit :
  test_bit filter bit = true <->
  exists word, filter !! Z.to_nat (bit / 64) = Some word /\ Z.testbit (val word) (bit mod 64) = true.
Proof.
  unfold test_bit. pose proof (Z.mod_pos_bound bit 64 ltac:(lia)).
  destruct (filter !! _) as [word|].
  - rewrite land_pow2_testbit, negb_involutive by lia. split; [by eauto|]. by intros (? & [= <-] & ?).
  - split; [done|]. by intros (? & ? & _).
Qed.

Lemma set_bit_word (word : u64) n :
  0 <= n < 64 ->
  forall m, 0 <= m -> Z.testbit (val (u64_of (Z.lor (val word) (Z.shiftl 1 n)))) m
    = Z.testbit (val word) m || (m =? n).
Proof.
  intros Hn m Hm. pose proof (val_bounds word) as Hw.
  rewrite val_u64_of_small.
  - rewrite Z.lor_spec, Z.shiftl_1_l, Z.pow2_bits_eqb by lia. by rewrite (Z.eqb_sym n m).
  - split; [apply Z.lor_nonneg; split; [lia|apply Z.shiftl_nonneg; lia]|].
    destruct (decide (Z.lor (val word) (Z.shiftl 1 n) = 0)) as [->|Hz]; [lia|].
    apply Z.log2_lt_pow2.
    { pose proof (proj2 (Z.lor_nonneg (val word) (Z.shiftl 1 n))) as Hnn.
      rewrite Z.shiftl_1_l in *. specialize (Hnn ltac:(lia)). lia. }
    rewrite Z.log2_lor by (rewrite ?Z.shiftl_1_l; lia).
    apply Z.max_lub_lt.
    + destruct (decide (val word = 0)) as [->|]; [simpl; lia|]. apply Z.log2_lt_pow2; lia.
    + rewrite Z.shiftl_1_l, Z.log2_pow2; lia.
Qed.

(** Setting a bit sets it and clears none. *)
Lemma test_set_bit filter bit other :
  0 <= bit < len filter * 64 ->
  other = bit \/ test_bit filter other = true -> test_bit (set_bit bit filter) other = true.
Proof.
  intros Hbit Ho. pose proof (Z.mod_pos_bound bit 64 ltac:(lia)).
  pose proof (Z.mod_pos_bound other 64 ltac:(lia)).
  rewrite !test_bit_iff in *. unfold set_bit.
  destruct (decide (Z.to_nat (bit / 64) = Z.to_nat (other / 64))) as [Ew|Ew].
  - rewrite Ew, list_lookup_alter_eq.
    destruct Ho as [->|(word & Hl & Ht)].
    + assert (Hi : (Z.to_nat (bit / 64) < length filter)%nat).
      { assert (bit / 64 < len filter) by (apply Z.div_lt_upper_bound; lia).
        assert (0 <= bit / 64) by (apply Z.div_pos; lia). lia. }
      apply lookup_lt_is_Some in Hi as [word Hw]. rewrite Hw. simpl. eexists. split; [done|].
      rewrite set_bit_word, Z.eqb_refl by lia. apply orb_true_r.
    + rewrite Hl. simpl. eexists. split; [done|]. rewrite set_bit_word, Ht by lia. done.
  - rewrite list_lookup_alter_ne by done.
    destruct Ho as [->|(word & Hl & Ht)]; [done|]. eauto.
Qed.

Lemma test_set_bits filter bits other :
  (forall bit, bit ∈ bits -> 0 <= bit < len filter * 64) ->
  other ∈ bits \/ test_bit filter other = true ->
  test_bit (fold_left (fun filter bit => set_bit bit filter) bits filter) other = true.
Proof.
  revert filter. induction bits as [|bit bits IH]; intros filter Hb Ho; simpl.
  - destruct Ho as [Ho|Ho]; [by apply not_elem_of_nil in Ho|done].
  - apply IH; [intros ? ?; rewrite length_set_bit; by apply Hb, list_elem_of_further|].
    rewrite elem_of_cons in Ho. destruct Ho as [[->|Ho]|Ho]; [right| by left |right];
      (apply test_set_bit; [by apply Hb, list_elem_of_here|auto]).
Qed.

Lemma length_empty_filter : len empty_filter = FILTER_WORDS.
Proof.
  unfold empty_filter. rewrite length_replicate. rewrite Z2Nat.id; [done|]. by vm_compute.
Qed.

Lemma default_filter_length c : index_ok c -> len (default empty_filter (ci_filter c)) = FILTER_WORDS.
Proof.
  intros [Hf _ _ _]. destruct (ci_filter c) as [f|] eqn:E; simpl; [by apply Hf|].
  apply length_empty_filter.
Qed.

Lemma index_insert_filter id p c :
  ci_filter (index_insert id p c) =
    Some (fold_left (fun filter bit => set_bit bit filter) (command_bits id)
            (default empty_filter (ci_filter c))).
Proof. unfold index_insert. repeat (case_match; simpl); done. Qed.

Lemma maybe_contains_insert id p c other :
  index_ok c -> other = id \/ maybe_contains c other = true ->
  maybe_contains (index_insert id p c) other = true.
Proof.
  intros Hok Ho. unfold maybe_contains. rewrite index_insert_filter.
  apply forallb_forall. intros bit Hbit. rewrite <- list_elem_of_In in Hbit.
  apply test_set_bits.
  - intros b Hb. rewrite default_filter_length by done. by apply command_bits_bounds in Hb.
  - destruct Ho as [->|Ho]; [by left|right]. unfold maybe_contains in Ho.
    destruct (ci_filter c); [|done]. rewrite forallb_forall in Ho. apply Ho.
    by rewrite <- list_elem_of_In.
Qed.

Lemma index_ok_insert id p c : index_ok c -> index_ok (index_insert id p c).
Proof.
  intros Hok. pose proof (index_insert_filter id p c) as Ef.
  assert (Hlen : forall f, ci_filter (index_insert id p c) = Some f -> len f = FILTER_WORDS).
  { intros f. rewrite Ef. intros Hf. apply (inj Some) in Hf. subst f. rewrite length_set_bits.
    by apply default_filter_length. }
  clear Ef. destruct Hok as [_ Hnd Hrec Hcap].
  enough (NoDup (ci_order (index_insert id p c))
          /\ (forall i, is_Some (ci_recent (index_insert id p c) !! i)
                        <-> i ∈ ci_order (index_insert id p c))
          /\ (length (ci_order (index_insert id p c)) <= RECENT_COMMANDS)%nat)
    as (? & ? & ?) by (split; assumption).
  clear Hlen. unfold index_insert. destruct (ci_recent c !! id) as [q|] eqn:Eq.
  - split; [done|]. split; [|done]. intros i. cbn [ci_recent ci_order].
    rewrite lookup_insert. case_decide as E; [|done].
    subst. split; [|by eauto]. intros _. apply Hrec. eauto.
  - assert (Hnew : id ∉ ci_order c) by (rewrite <- Hrec, Eq; by intros []).
    assert (Hnd' : NoDup (ci_order c ++ [id])).
    { apply list.NoDup_app. split; [done|]. split; [set_solver|apply NoDup_singleton]. }
    assert (Hrec' : forall i, is_Some (<[id:=p]> (ci_recent c) !! i) <-> i ∈ ci_order c ++ [id]).
    { intros i. rewrite lookup_insert, elem_of_app, list_elem_of_singleton.
      case_decide; [naive_solver|]. rewrite Hrec. naive_solver. }
    destruct (RECENT_COMMANDS <? length (ci_order c ++ [id]))%nat eqn:El.
    + destruct (ci_order c ++ [id]) as [|expired rest] eqn:Eo; [done|].
      apply list.NoDup_cons in Hnd' as [Hx Hnd']. cbn [ci_recent ci_order].
      split; [done|]. split.
      * intros i. rewrite lookup_delete. case_decide as Ei.
        -- subst. split; [by intros []|done].
        -- rewrite Hrec'. rewrite elem_of_cons. naive_solver.
      * apply (f_equal length) in Eo. rewrite length_app in Eo. simpl in Eo. lia.
    + apply Nat.ltb_ge in El. cbn [ci_recent ci_order]. done.
Qed.

(** The cache never answers with a pointer other than the last inserted one. *)
Lemma recent_frame_insert id p c other q :
  recent_frame (index_insert id p c) other = Some q ->
  (other = id /\ q = p) \/ (other <> id /\ recent_frame c other = Some q).
Proof.
  unfold recent_frame, index_insert. intros E.
  assert (Hcore : <[id:=p]> (ci_recent c) !! other = Some q).
  { revert E. repeat (case_match; simpl); try done. rewrite lookup_delete. by case_decide. }
  rewrite lookup_insert in Hcore. case_decide; naive_solver.
Qed.
