(* ===== verification/Disk.v ===== *)
(** The file system under one thread's journal, and the file operations of
    thread-store-journal/src/io.rs over it.

    A [Disk] is the state the code reaches through [std::fs] for one journal
    directory: the entries of [segments/], what of them has been synced, the
    writer lock, and the answers the operating system will give to the coming
    calls: a call fails when its answer is [Some k] (a failing [write_all] has
    written [k] bytes by then). *)

From stdpp Require Import sorting.
From S2P Require Import Prelude Canonical.

Open Scope string_scope.
Open Scope list_scope.
Open Scope Z_scope.

(** * Stateful fallible code *)

Definition M (S E A : Type) : Type := S -> S * result E A.

#[export] Instance M_ret {S E} : MRet (M S E) := fun A a s => (s, Ok a).
#[export] Instance M_bind {S E} : MBind (M S E) := fun A B k m s =>
  match m s with
  | (s, Ok a) => k a s
  | (s, Err e) => (s, Err e)
  end.

Definition throw {S E A} (e : E) : M S E A := fun s => (s, Err e).
Definition of_result {S E A} (r : result E A) : M S E A := fun s => (s, r).
Definition of_option {S E A} (o : option A) (e : E) : M S E A := of_result (ok_or o e).
Definition guard_m {S E} (c : bool) (e : E) : M S E unit := of_result (ensure c e).
Definition gets {S E A} (f : S -> A) : M S E A := fun s => (s, Ok (f s)).
Definition modify {S E} (f : S -> S) : M S E unit := fun s => (f s, Ok tt).
Definition map_error {S E F A} (f : E -> F) (m : M S E A) : M S F A :=
  fun s => let (s, r) := m s in (s, map_err f r).
(** The outcome as a value: [match m { .. }]. *)
Definition outcome {S E F A} (m : M S E A) : M S F (result E A) :=
  fun s => let (s, r) := m s in (s, Ok r).
(** [let _ = m;] *)
Definition ignore {S E F A} (m : M S E A) : M S F unit :=
  fun s => let (s, _) := m s in (s, Ok tt).

Lemma M_bind_Ok {S E A B} (m : M S E A) (k : A -> M S E B) s s' b :
  (m ≫= k) s = (s', Ok b) <-> exists s1 a, m s = (s1, Ok a) /\ k a s1 = (s', Ok b).
Proof.
  unfold mbind, M_bind. destruct (m s) as [s1 [a|e]]; simpl.
  - split; [by eauto|]. by intros (? & ? & [= <- <-] & ?).
  - split; [by intros [=]|]. by intros (? & ? & [=] & ?).
Qed.

(** The step of a run whose first part is known to succeed. *)
Lemma M_bind_run {S E A B} (m : M S E A) (k : A -> M S E B) s s1 a :
  m s = (s1, Ok a) -> (m ≫= k) s = k a s1.
Proof. unfold mbind, M_bind. by intros ->. Qed.

Lemma M_bind_fails {S E A B} (m : M S E A) (k : A -> M S E B) s s1 e :
  m s = (s1, Err e) -> (m ≫= k) s = (s1, Err e).
Proof. unfold mbind, M_bind. by intros ->. Qed.

Lemma M_bind_cases {S E A B} (m : M S E A) (k : A -> M S E B) s s' r :
  (m ≫= k) s = (s', r) ->
  (exists s1 a, m s = (s1, Ok a) /\ k a s1 = (s', r)) \/ (exists e, m s = (s', Err e) /\ r = Err e).
Proof.
  unfold mbind, M_bind. destruct (m s) as [s1 [a|e]].
  - intros. left. eauto.
  - intros [= <- <-]. right. eauto.
Qed.

Lemma map_error_run {S E F A} (f : E -> F) (m : M S E A) s s' a :
  m s = (s', Ok a) -> map_error f m s = (s', Ok a).
Proof. unfold map_error. by intros ->. Qed.

Lemma map_error_Ok {S E F A} (f : E -> F) (m : M S E A) s s' a :
  map_error f m s = (s', Ok a) <-> m s = (s', Ok a).
Proof. unfold map_error. destruct (m s) as [? [?|?]]; simpl; naive_solver. Qed.

Lemma of_result_Ok {S E A} (r : result E A) (s s' : S) a :
  of_result r s = (s', Ok a) <-> s' = s /\ r = Ok a.
Proof. unfold of_result. naive_solver. Qed.

(** Replaces the first action of a sequence by its known result. *)
Ltac run lemma := erewrite M_bind_run by (first [apply lemma | apply map_error_run, lemma]).
(** The same for a pure fallible expression whose value [H] gives. *)
Ltac run_pure H := erewrite M_bind_run by (unfold guard_m, of_option, of_result; rewrite H; reflexivity).

(** * The disk *)

(** The kinds of [std::io::Error] the code tells apart. *)
Inductive IoError := NotFound | AlreadyExists | UnexpectedEof | WouldBlock | OtherIo.

#[export] Instance io_error_eq_dec : EqDecision IoError.
Proof. solve_decision. Defined.

Record Disk := {
  d_files : gmap string bytes;       (** regular files of [segments/] *)
  d_others : gset string;            (** its other entries *)
  d_synced : gmap string bytes;      (** each file's content at its last [sync_all] *)
  d_synced_names : gset string;      (** the entries at the last sync of the directory *)
  d_lock_file : bool;                (** [.writer.lock] exists *)
  d_lock_held : bool;                (** some open file holds its exclusive lock *)
  d_writers : gset nat;              (** processes whose [process_writer_paths] has it *)
  d_faults : list (option nat)       (** the coming failures *)
}.

Definition with_files (files : gmap string bytes) (d : Disk) : Disk :=
  {| d_files := files; d_others := d_others d; d_synced := d_synced d;
     d_synced_names := d_synced_names d; d_lock_file := d_lock_file d;
     d_lock_held := d_lock_held d; d_writers := d_writers d; d_faults := d_faults d |}.

Definition with_synced (synced : gmap string bytes) (names : gset string) (d : Disk) : Disk :=
  {| d_files := d_files d; d_others := d_others d; d_synced := synced;
     d_synced_names := names; d_lock_file := d_lock_file d;
     d_lock_held := d_lock_held d; d_writers := d_writers d; d_faults := d_faults d |}.

Definition with_lock (file held : bool) (writers : gset nat) (d : Disk) : Disk :=
  {| d_files := d_files d; d_others := d_others d; d_synced := d_synced d;
     d_synced_names := d_synced_names d; d_lock_file := file;
     d_lock_held := held; d_writers := writers; d_faults := d_faults d |}.

Definition with_faults (faults : list (option nat)) (d : Disk) : Disk :=
  {| d_files := d_files d; d_others := d_others d; d_synced := d_synced d;
     d_synced_names := d_synced_names d; d_lock_file := d_lock_file d;
     d_lock_held := d_lock_held d; d_writers := d_writers d; d_faults := faults |}.

Abbreviation io := (M Disk IoError).

Definition take_fault (d : Disk) : Disk * option nat :=
  match d_faults d with
  | [] => (d, None)
  | fault :: faults => (with_faults faults d, fault)
  end.

(** One call: it fails without effect when the next answer says so. *)
Definition syscall {A} (run : io A) : io A := fun d =>
  match take_fault d with
  | (d, Some _) => (d, Err OtherIo)
  | (d, None) => run d
  end.

(** ** [std::fs] and [std::fs::File]; a file handle is the name it was opened under *)

Definition fs_open (name : string) : io unit :=
  syscall (fun d => match d_files d !! name with
                    | Some _ => (d, Ok tt)
                    | None => (d, Err (if bool_decide (name ∈ d_others d) then OtherIo else NotFound))
                    end).

Definition fs_create_new (name : string) : io unit :=
  syscall (fun d =>
    if bool_decide (is_Some (d_files d !! name)) || bool_decide (name ∈ d_others d)
    then (d, Err AlreadyExists)
    else (with_files (<[name := []]> (d_files d)) d, Ok tt)).

(** [metadata().len()] and [seek(SeekFrom::End(0))] *)
Definition fs_len (name : string) : io Z :=
  syscall (fun d => match d_files d !! name with
                    | Some content => (d, Ok (len content))
                    | None => (d, Err NotFound)
                    end).

(** [read_exact] of [n] bytes at [offset] *)
Definition fs_read_exact (name : string) (offset n : Z) : io bytes :=
  syscall (fun d => match d_files d !! name with
                    | Some content =>
                        if offset + n <=? len content
                        then (d, Ok (slice (Z.to_nat offset) (Z.to_nat n) content))
                        else (d, Err UnexpectedEof)
                    | None => (d, Err NotFound)
                    end).

(** [seek(SeekFrom::Start(offset))] *)
Definition fs_seek (name : string) (offset : Z) : io unit := syscall (fun d => (d, Ok tt)).

(** [write_all] with the position at the end of the file *)
Definition fs_write_all (name : string) (b : bytes) : io unit := fun d =>
  let (d, fault) := take_fault d in
  match d_files d !! name with
  | None => (d, Err NotFound)
  | Some content =>
      match fault with
      | None => (with_files (<[name := content ++ b]> (d_files d)) d, Ok tt)
      | Some k => (with_files (<[name := content ++ take k b]> (d_files d)) d, Err OtherIo)
      end
  end.

Definition resize (n : nat) (content : bytes) : bytes :=
  take n content ++ repeat x00 (n - length content).

Definition fs_set_len (name : string) (n : Z) : io unit :=
  syscall (fun d => match d_files d !! name with
                    | Some content => (with_files (<[name := resize (Z.to_nat n) content]> (d_files d)) d, Ok tt)
                    | None => (d, Err NotFound)
                    end).

Definition fs_sync_all (name : string) : io unit :=
  syscall (fun d => match d_files d !! name with
                    | Some content =>
                        (with_synced (<[name := content]> (d_synced d)) (d_synced_names d) d, Ok tt)
                    | None => (d, Err NotFound)
                    end).

Definition fs_remove_file (name : string) : io unit :=
  syscall (fun d => match d_files d !! name with
                    | Some _ => (with_files (delete name (d_files d)) d, Ok tt)
                    | None => (d, Err NotFound)
                    end).

(** [read_dir]: the names with [file_type()?.is_file()]; one call stands for
    the iteration over the entries. *)
Definition fs_read_dir : io (list (string * bool)) :=
  syscall (fun d => (d, Ok (map (fun '(name, _) => (name, true)) (map_to_list (d_files d))
                            ++ map (fun name => (name, false)) (elements (d_others d))))).

(** ** io.rs *)

Inductive AppendError :=
  | OffsetChanged (actual : Z)
  | BeforeWrite (e : IoError)
  | DuringWrite (e : IoError).

Definition append_at (path : string) (expected_offset : Z) (b : bytes) : M Disk AppendError unit :=
  _ ← map_error BeforeWrite (fs_open path);
  actual ← map_error BeforeWrite (fs_len path);
  _ ← guard_m (actual =? expected_offset) (OffsetChanged actual);
  map_error DuringWrite (fs_write_all path b).

Definition sync_file (path : string) : io unit :=
  _ ← fs_open path;
  fs_sync_all path.

Definition truncate_and_sync (path : string) (n : Z) : io unit :=
  _ ← fs_open path;
  _ ← fs_set_len path n;
  fs_sync_all path.

(** [File::open(dir)?.sync_all()] of the segments directory *)
Definition sync_directory : io unit :=
  _ ← syscall (fun d => (d, Ok tt));
  syscall (fun d => (with_synced (d_synced d) (dom (d_files d) ∪ d_others d) d, Ok tt)).

(** ** Runs without failures *)

Definition healthy (d : Disk) : Prop := d_faults d = [].

Lemma syscall_healthy {A} (run : io A) d : healthy d -> syscall run d = run d.
Proof. unfold healthy, syscall, take_fault. by intros ->. Qed.

Lemma syscall_cases {A} (run : io A) d d' r :
  syscall run d = (d', r) ->
  exists faults, (r = Err OtherIo /\ d' = with_faults faults d) \/ run (with_faults faults d) = (d', r).
Proof.
  unfold syscall, take_fault. destruct (d_faults d) as [|[k|] faults] eqn:E.
  - intros Hr. exists []. right. destruct d; simpl in *; subst. done.
  - intros [= <- <-]. exists faults. by left.
  - intros Hr. exists faults. by right.
Qed.

Lemma fs_open_healthy name d content :
  healthy d -> d_files d !! name = Some content -> fs_open name d = (d, Ok tt).
Proof. intros Hd Hc. unfold fs_open. rewrite syscall_healthy by done. by rewrite Hc. Qed.

Lemma fs_len_healthy name d content :
  healthy d -> d_files d !! name = Some content -> fs_len name d = (d, Ok (len content)).
Proof. intros Hd Hc. unfold fs_len. rewrite syscall_healthy by done. by rewrite Hc. Qed.

Lemma fs_read_exact_healthy name d content offset n :
  healthy d -> d_files d !! name = Some content -> offset + n <= len content ->
  fs_read_exact name offset n d = (d, Ok (slice (Z.to_nat offset) (Z.to_nat n) content)).
Proof.
  intros Hd Hc Hn. unfold fs_read_exact. rewrite syscall_healthy by done. rewrite Hc.
  by rewrite (proj2 (Z.leb_le _ _) Hn).
Qed.

Lemma resize_prefix n a b : n = length a -> resize n (a ++ b) = a.
Proof.
  intros ->. unfold resize. rewrite take_app_length, length_app.
  replace (length a - (length a + length b))%nat with 0%nat by lia. by rewrite app_nil_r.
Qed.

(** Truncating to a prefix of the content leaves that prefix, synced. *)
Lemma truncate_and_sync_healthy name d a b n :
  healthy d -> d_files d !! name = Some (a ++ b) -> n = len a ->
  truncate_and_sync name n d =
    (with_synced (<[name := a]> (d_synced d)) (d_synced_names d)
       (with_files (<[name := a]> (d_files d)) d), Ok tt).
Proof.
  intros Hd Hc ->. unfold truncate_and_sync.
  rewrite (M_bind_run _ _ _ _ _ (fs_open_healthy _ _ _ Hd Hc)).
  erewrite M_bind_run; [|unfold fs_set_len; rewrite syscall_healthy by done; rewrite Hc; done].
  rewrite resize_prefix by lia.
  unfold fs_sync_all. rewrite syscall_healthy by done. simpl. by rewrite lookup_insert_eq.
Qed.

(** * Segment file names *)

Definition SEGMENT_PREFIX : bytes := str_bytes "segment-".
Definition SEGMENT_SUFFIX : bytes := str_bytes ".ptj".

Definition string_of_bytes (b : bytes) : string := String.string_of_list_byte b.

(** The [k] low decimal digits, most significant first: [{:0k}] of a number
    below [10 ^ k]. *)
Fixpoint dec_digits (k : nat) (z : Z) : bytes :=
  match k with
  | O => []
  | S k => dec_digits k (z / 10) ++ [byte_of_Z (48 + z mod 10)]
  end.

(** [format!("segment-{sequence:020}.ptj")] *)
Definition segment_file_name (sequence : u64) : string :=
  string_of_bytes (SEGMENT_PREFIX ++ dec_digits 20 (val sequence) ++ SEGMENT_SUFFIX).

Definition strip_prefix (p l : bytes) : option bytes :=
  if bool_decide (take (length p) l = p) then Some (drop (length p) l) else None.

Definition strip_suffix (p l : bytes) : option bytes :=
  let k := (length l - length p)%nat in
  if (length p <=? length l)%nat && bool_decide (drop k l = p) then Some (take k l) else None.

(** [u64::from_str]: an optional [+], at least one digit, no overflow. *)
Definition parse_digit (acc : option u64) (b : byte) : option u64 :=
  acc ← acc;
  let digit := Z_of_byte b - 48 in
  if (0 <=? digit) && (digit <? 10) then
    scaled ← checked 0 (2 ^ 64) (val acc * 10);
    u64_checked_add scaled digit
  else None.

Definition parse_u64 (l : bytes) : option u64 :=
  let digits := match l with
                | b :: rest => if Z_of_byte b =? 43 then rest else l
                | [] => l
                end in
  match digits with
  | [] => None
  | _ => fold_left parse_digit digits (Some u64_zero)
  end.

Definition parse_segment_name (name : string) : option u64 :=
  value ← strip_prefix SEGMENT_PREFIX (str_bytes name);
  value ← strip_suffix SEGMENT_SUFFIX value;
  parse_u64 value.

(** [OsStr::to_str]: well-formed UTF-8. *)
Definition byte_in (lo hi : Z) (b : byte) : bool := (lo <=? Z_of_byte b) && (Z_of_byte b <=? hi).
Definition continuation (b : byte) : bool := byte_in 0x80 0xBF b.

Fixpoint utf8_valid (l : bytes) : bool :=
  match l with
  | [] => true
  | b0 :: l1 =>
      if byte_in 0 0x7F b0 then utf8_valid l1
      else match l1 with
      | [] => false
      | b1 :: l2 =>
          if byte_in 0xC2 0xDF b0 then continuation b1 && utf8_valid l2
          else match l2 with
          | [] => false
          | b2 :: l3 =>
              if byte_in 0xE0 0xEF b0 then
                (if byte_in 0xE0 0xE0 b0 then byte_in 0xA0 0xBF b1
                 else if byte_in 0xED 0xED b0 then byte_in 0x80 0x9F b1
                 else continuation b1)
                && continuation b2 && utf8_valid l3
              else match l3 with
              | [] => false
              | b3 :: l4 =>
                  byte_in 0xF0 0xF4 b0
                  && (if byte_in 0xF0 0xF0 b0 then byte_in 0x90 0xBF b1
                      else if byte_in 0xF4 0xF4 b0 then byte_in 0x80 0x8F b1
                      else continuation b1)
                  && continuation b2 && continuation b3 && utf8_valid l4
              end
          end
      end
  end.

(** ** Segment names parse back *)

Lemma str_bytes_of b : str_bytes (string_of_bytes b) = b.
Proof. apply String.list_byte_of_string_of_list_byte. Qed.

Lemma strip_prefix_app p l : strip_prefix p (p ++ l) = Some l.
Proof. unfold strip_prefix. by rewrite take_app_length, bool_decide_true, drop_app_length. Qed.

Lemma strip_suffix_app p l : strip_suffix p (l ++ p) = Some l.
Proof.
  unfold strip_suffix. rewrite length_app.
  replace (length l + length p - length p)%nat with (length l) by lia.
  rewrite take_app_length, drop_app_length, bool_decide_true by done.
  by rewrite (proj2 (Nat.leb_le _ _)) by lia.
Qed.

Lemma length_dec_digits k z : length (dec_digits k z) = k.
Proof. revert z. induction k; intros; simpl; [done|]. rewrite length_app, IHk. simpl. lia. Qed.

Lemma digit_byte z : 0 <= z < 10 -> Z_of_byte (byte_of_Z (48 + z)) = 48 + z.
Proof. intros. rewrite Z_of_byte_of_Z, Z.mod_small; lia. Qed.

Lemma dec_digits_range k z b : b ∈ dec_digits k z -> 48 <= Z_of_byte b < 58.
Proof.
  revert z. induction k as [|k IH]; intros z; simpl; [by intros ?%not_elem_of_nil|].
  rewrite elem_of_app, list_elem_of_singleton. intros [Hb| ->]; [by eauto|].
  pose proof (Z.mod_pos_bound z 10 ltac:(lia)). rewrite digit_byte; lia.
Qed.

Lemma parse_dec_digits k z :
  0 <= z < 2 ^ 64 -> z < 10 ^ Z.of_nat k ->
  fold_left parse_digit (dec_digits k z) (Some u64_zero) = Some (u64_of z).
Proof.
  revert z. induction k as [|k IH]; intros z Hz Hk; simpl dec_digits.
  - simpl in *. f_equal. apply val_inj. rewrite val_u64_of_small; simpl; lia.
  - rewrite Nat2Z.inj_succ, Z.pow_succ_r in Hk by lia.
    pose proof (Z.mod_pos_bound z 10 ltac:(lia)). pose proof (Z.div_mod z 10 ltac:(lia)).
    assert (Hq : 0 <= z / 10 < 10 ^ Z.of_nat k)
      by (split; [apply Z.div_pos|apply Z.div_lt_upper_bound]; lia).
    rewrite fold_left_app, IH by lia. simpl. rewrite digit_byte by lia.
    replace (48 + z mod 10 - 48) with (z mod 10) by lia.
    rewrite (proj2 (Z.leb_le _ _)), (proj2 (Z.ltb_lt _ _)) by lia. simpl.
    rewrite val_u64_of_small by lia.
    destruct (checked_in 0 (2 ^ 64) (z / 10 * 10)) as (x & Hx & Ex); [lia|].
    rewrite Hx. simpl. unfold u64_checked_add. rewrite Ex.
    apply checked_Some. rewrite val_u64_of_small; lia.
Qed.

Lemma parse_segment_file_name sequence :
  parse_segment_name (segment_file_name sequence) = Some sequence.
Proof.
  unfold parse_segment_name, segment_file_name. rewrite str_bytes_of, strip_prefix_app. cbn [mbind option_bind].
  rewrite strip_suffix_app. cbn [mbind option_bind]. unfold parse_u64.
  pose proof (val_bounds sequence) as Hs.
  destruct (dec_digits 20 (val sequence)) as [|b rest] eqn:E.
  { apply (f_equal length) in E. by rewrite length_dec_digits in E. }
  assert (Hb : 48 <= Z_of_byte b < 58) by (eapply dec_digits_range; rewrite E; apply list_elem_of_here).
  rewrite (proj2 (Z.eqb_neq _ _)) by lia. rewrite <- E, parse_dec_digits by lia. by rewrite u64_of_val.
Qed.

#[export] Instance segment_file_name_inj : Inj (=) (=) segment_file_name.
Proof.
  intros a b E. apply (f_equal parse_segment_name) in E.
  rewrite !parse_segment_file_name in E. by injection E.
Qed.

Lemma utf8_valid_ascii l :
  (forall b, b ∈ l -> byte_in 0 0x7F b = true) -> utf8_valid l = true.
Proof.
  induction l as [|b l IH]; intros Hl; simpl; [done|].
  rewrite (Hl b) by apply list_elem_of_here. apply IH. intros. apply Hl. by apply list_elem_of_further.
Qed.

Lemma segment_file_name_utf8 sequence : utf8_valid (str_bytes (segment_file_name sequence)) = true.
Proof.
  unfold segment_file_name. rewrite str_bytes_of. apply utf8_valid_ascii. intros b.
  rewrite !elem_of_app. intros [Hb|[Hb|Hb]].
  - revert b Hb. rewrite <- list.Forall_forall. by repeat constructor.
  - apply dec_digits_range in Hb. unfold byte_in. lia.
  - revert b Hb. rewrite <- list.Forall_forall. by repeat constructor.
Qed.
