(* ===== verification/Text.v ===== *)
(** Texts: the operations of Rust's [str] and [char] that the program uses, on
    the bytes of well-formed UTF-8 ([utf8_valid], Disk), and [from_utf8], which
    finds where bytes stop being that. *)

From S2P Require Import Prelude Disk.

Open Scope Z_scope.

(** * Characters *)

(** The first byte of a character. *)
Definition starts_char (b : byte) : bool := negb (in_range 128 192 (Z_of_byte b)).

(** [str::chars] on valid UTF-8: the code points. *)
Fixpoint chars (l : bytes) : list Z :=
  match l with
  | [] => []
  | b0 :: l1 =>
      let x := Z_of_byte b0 in
      if x <? 128 then x :: chars l1
      else match l1 with
      | [] => []
      | b1 :: l2 =>
          if x <? 224 then (x - 192) * 64 + (Z_of_byte b1 - 128) :: chars l2
          else match l2 with
          | [] => []
          | b2 :: l3 =>
              if x <? 240
              then (x - 224) * 4096 + (Z_of_byte b1 - 128) * 64 + (Z_of_byte b2 - 128) :: chars l3
              else match l3 with
              | [] => []
              | b3 :: l4 =>
                  (x - 240) * 262144 + (Z_of_byte b1 - 128) * 4096 + (Z_of_byte b2 - 128) * 64
                    + (Z_of_byte b3 - 128) :: chars l4
              end
          end
      end
  end.

(** [char::is_whitespace]: the Unicode property [White_Space] *)
Definition is_whitespace (c : Z) : bool :=
  ((9 <=? c) && (c <=? 13)) || (c =? 32) || (c =? 133) || (c =? 160) || (c =? 5760)
  || ((8192 <=? c) && (c <=? 8202)) || (c =? 8232) || (c =? 8233) || (c =? 8239) || (c =? 8287)
  || (c =? 12288).

(** [char::is_control]: the Unicode category [Cc] *)
Definition is_control (c : Z) : bool := (c <? 32) || ((127 <=? c) && (c <=? 159)).

Fixpoint trim_start (cs : list Z) : list Z :=
  match cs with
  | [] => []
  | c :: cs => if is_whitespace c then trim_start cs else c :: cs
  end.

Definition trim (cs : list Z) : list Z := rev (trim_start (rev (trim_start cs))).

(** [char::encode_utf8], as [String::push] appends it *)
Definition encode_utf8 (c : Z) : bytes :=
  if c <? 0x80 then [byte_of_Z c]
  else if c <? 0x800 then [byte_of_Z (192 + c / 64); byte_of_Z (128 + c mod 64)]
  else if c <? 0x10000 then
    [byte_of_Z (224 + c / 4096); byte_of_Z (128 + c / 64 mod 64); byte_of_Z (128 + c mod 64)]
  else
    [byte_of_Z (240 + c / 262144); byte_of_Z (128 + c / 4096 mod 64); byte_of_Z (128 + c / 64 mod 64);
     byte_of_Z (128 + c mod 64)].

(** The text with the given characters. *)
Definition encode_all (cs : list Z) : bytes := concat (map encode_utf8 cs).

(** [str::trim] *)
Definition trim_str (text : bytes) : bytes := encode_all (trim (chars text)).

(** * Searching *)

(** [text.starts_with(needle)] *)
Fixpoint starts_with (needle text : bytes) : bool :=
  match needle, text with
  | [], _ => true
  | b :: needle, c :: text => bool_decide (b = c) && starts_with needle text
  | _ :: _, [] => false
  end.

(** [text.ends_with(needle)] *)
Definition ends_with (needle text : bytes) : bool :=
  (length needle <=? length text)%nat && bool_decide (drop (length text - length needle) text = needle).

(** [text.find(needle)] *)
Fixpoint find (needle text : bytes) : option nat :=
  if starts_with needle text then Some O
  else match text with
  | [] => None
  | _ :: text => option_map S (find needle text)
  end.

(** [text.is_char_boundary(at)] *)
Definition is_char_boundary (text : bytes) (at_ : nat) : bool :=
  (at_ =? 0)%nat || (at_ =? length text)%nat
  || match text !! at_ with Some b => starts_char b | None => false end.

(** * [std::str::from_utf8] *)

Record Utf8Error := { valid_up_to : nat; error_len : option nat }.

Definition utf8_char_width (b : byte) : nat :=
  if byte_in 0 0x7F b then 1
  else if byte_in 0xC2 0xDF b then 2
  else if byte_in 0xE0 0xEF b then 3
  else if byte_in 0xF0 0xF4 b then 4
  else 0.

(** The second byte of a character of three bytes, and of four. *)
Definition second_of_three (b0 b1 : byte) : bool :=
  if byte_in 0xE0 0xE0 b0 then byte_in 0xA0 0xBF b1
  else if byte_in 0xED 0xED b0 then byte_in 0x80 0x9F b1
  else continuation b1.

Definition second_of_four (b0 b1 : byte) : bool :=
  if byte_in 0xF0 0xF0 b0 then byte_in 0x90 0xBF b1
  else if byte_in 0xF4 0xF4 b0 then byte_in 0x80 0x8F b1
  else continuation b1.

(** The bytes from [index] on. *)
Fixpoint validate_utf8 (index : nat) (l : bytes) : result Utf8Error unit :=
  let invalid n := Err {| valid_up_to := index; error_len := Some n |} in
  let incomplete := Err {| valid_up_to := index; error_len := None |} in
  match l with
  | [] => Ok tt
  | b0 :: l1 =>
      match utf8_char_width b0 with
      | 1 => validate_utf8 (S index) l1
      | 2 =>
          match l1 with
          | [] => incomplete
          | b1 :: l2 => if continuation b1 then validate_utf8 (S (S index)) l2 else invalid 1
          end
      | 3 =>
          match l1 with
          | [] => incomplete
          | b1 :: l2 =>
              if second_of_three b0 b1 then
                match l2 with
                | [] => incomplete
                | b2 :: l3 => if continuation b2 then validate_utf8 (S (S (S index))) l3 else invalid 2
                end
              else invalid 1
          end
      | 4 =>
          match l1 with
          | [] => incomplete
          | b1 :: l2 =>
              if second_of_four b0 b1 then
                match l2 with
                | [] => incomplete
                | b2 :: l3 =>
                    if continuation b2 then
                      match l3 with
                      | [] => incomplete
                      | b3 :: l4 => if continuation b3 then validate_utf8 (S (S (S (S index)))) l4 else invalid 3
                      end
                    else invalid 2
                end
              else invalid 1
          end
      | _ => invalid 1
      end
  end%nat.

Definition from_utf8 (l : bytes) : result Utf8Error bytes :=
  _ ← validate_utf8 0 l; Ok l.
