(* ===== verification/TextFacts.v ===== *)
(** Texts: induction on well-formed UTF-8 by characters, where texts can be cut,
    what is found in a text that grows, and what [from_utf8] reports (lemmas on
    Text). *)

From S2P Require Import Prelude Disk Text.

Open Scope Z_scope.

(** * Characters *)

(** [ch] are the bytes of the character [code]. *)
Record is_char (ch : bytes) (code : Z) : Prop := {
  ic_head : exists b c, ch = b :: c /\ starts_char b = true /\ Forall (fun x => starts_char x = false) c;
  ic_valid rest : utf8_valid (ch ++ rest) = utf8_valid rest;
  ic_chars rest : chars (ch ++ rest) = code :: chars rest;
  ic_encode : encode_utf8 code = ch
}.

Lemma byte_in_iff lo hi b : byte_in lo hi b = true <-> lo <= Z_of_byte b <= hi.
Proof. unfold byte_in. rewrite andb_true_iff, !Z.leb_le. done. Qed.

Lemma byte_in_false lo hi b : byte_in lo hi b = false <-> Z_of_byte b < lo \/ hi < Z_of_byte b.
Proof. unfold byte_in. rewrite andb_false_iff, !Z.leb_gt. done. Qed.

Lemma starts_char_iff b : starts_char b = true <-> Z_of_byte b < 128 \/ 192 <= Z_of_byte b.
Proof.
  unfold starts_char, in_range. rewrite negb_true_iff, andb_false_iff, Z.leb_gt, Z.ltb_ge. done.
Qed.

Lemma starts_char_false b : starts_char b = false <-> 128 <= Z_of_byte b < 192.
Proof.
  unfold starts_char, in_range. rewrite negb_false_iff, andb_true_iff, Z.leb_le, Z.ltb_lt. done.
Qed.

Lemma continuation_iff b : continuation b = true <-> 128 <= Z_of_byte b <= 191.
Proof. apply byte_in_iff. Qed.

Lemma continuation_starts b : continuation b = negb (starts_char b).
Proof.
  destruct (starts_char b) eqn:E; cbn.
  - apply byte_in_false. apply starts_char_iff in E. lia.
  - apply continuation_iff. apply starts_char_false in E. lia.
Qed.

Ltac ranges :=
  repeat match goal with
  | H : byte_in _ _ _ = true |- _ => apply byte_in_iff in H
  | H : byte_in _ _ _ = false |- _ => apply byte_in_false in H
  | H : continuation _ = true |- _ => apply continuation_iff in H
  end.

Ltac leading x :=
  destruct (Z.ltb_spec x 128); try lia; destruct (Z.ltb_spec x 224); try lia; destruct (Z.ltb_spec x 240); try lia.

Lemma byte_of_eq z b : z = Z_of_byte b -> byte_of_Z z = b.
Proof. intros ->. apply byte_of_Z_of_byte. Qed.

Lemma one_byte_char b : byte_in 0 0x7F b = true -> is_char [b] (Z_of_byte b).
Proof.
  intros E. pose proof (proj1 (byte_in_iff _ _ _) E) as Hb. constructor.
  - exists b, []. split; [done|]. split; [apply starts_char_iff; lia|constructor].
  - intros rest. cbn [app utf8_valid]. by rewrite E.
  - intros rest. cbn [app chars]. leading (Z_of_byte b). done.
  - unfold encode_utf8. destruct (Z.ltb_spec (Z_of_byte b) 128); [|lia]. by rewrite byte_of_Z_of_byte.
Qed.

Lemma continuations_Forall l : forallb continuation l = true -> Forall (fun x => starts_char x = false) l.
Proof.
  induction l as [|b l IH]; cbn; [constructor|]. rewrite continuation_starts, andb_true_iff, negb_true_iff.
  intros [Hb Hl]. constructor; [done|by apply IH].
Qed.

Lemma two_byte_char b0 b1 :
  byte_in 0xC2 0xDF b0 = true -> continuation b1 = true ->
  is_char [b0; b1] ((Z_of_byte b0 - 192) * 64 + (Z_of_byte b1 - 128)).
Proof.
  intros E0 E1. pose proof (proj1 (byte_in_iff _ _ _) E0) as Hb0. pose proof (proj1 (continuation_iff _) E1) as Hb1.
  assert (byte_in 0 0x7F b0 = false) as E by (apply byte_in_false; lia). constructor.
  - exists b0, [b1]. split; [done|]. split; [apply starts_char_iff; lia|]. apply continuations_Forall. cbn. by rewrite E1.
  - intros rest. cbn [app utf8_valid]. by rewrite E, E0, E1.
  - intros rest. cbn [app chars]. leading (Z_of_byte b0). done.
  - unfold encode_utf8. set (c := (_ - _) * 64 + _).
    destruct (Z.ltb_spec c 128); [lia|]. destruct (Z.ltb_spec c 2048); [|lia].
    repeat f_equal; apply byte_of_eq; unfold c; Z.to_euclidean_division_equations; lia.
Qed.

Lemma second_of_three_bounds b0 b1 :
  second_of_three b0 b1 = true -> byte_in 0xE0 0xEF b0 = true ->
  128 <= Z_of_byte b1 <= 191 /\ (Z_of_byte b0 = 224 -> 160 <= Z_of_byte b1).
Proof.
  unfold second_of_three. intros H1 H0.
  destruct (byte_in 224 224 b0) eqn:E; [|destruct (byte_in 237 237 b0) eqn:E']; ranges; lia.
Qed.

Lemma second_of_four_bounds b0 b1 :
  second_of_four b0 b1 = true -> byte_in 0xF0 0xF4 b0 = true ->
  128 <= Z_of_byte b1 <= 191 /\ (Z_of_byte b0 = 240 -> 144 <= Z_of_byte b1).
Proof.
  unfold second_of_four. intros H1 H0.
  destruct (byte_in 240 240 b0) eqn:E; [|destruct (byte_in 244 244 b0) eqn:E']; ranges; lia.
Qed.


Lemma three_byte_char b0 b1 b2 :
  byte_in 0xE0 0xEF b0 = true -> second_of_three b0 b1 = true -> continuation b2 = true ->
  is_char [b0; b1; b2] ((Z_of_byte b0 - 224) * 4096 + (Z_of_byte b1 - 128) * 64 + (Z_of_byte b2 - 128)).
Proof.
  intros E0 E1 E2. pose proof (proj1 (byte_in_iff _ _ _) E0) as Hb0. pose proof (proj1 (continuation_iff _) E2) as Hb2.
  destruct (second_of_three_bounds _ _ E1 E0) as [Hb1 Hlow].
  assert (byte_in 0 0x7F b0 = false) as E by (apply byte_in_false; lia).
  assert (byte_in 0xC2 0xDF b0 = false) as E' by (apply byte_in_false; lia).
  assert (continuation b1 = true) as Ec by (by apply continuation_iff). constructor.
  - exists b0, [b1; b2]. split; [done|]. split; [apply starts_char_iff; lia|].
    apply continuations_Forall. cbn. by rewrite Ec, E2.
  - intros rest. cbn [app utf8_valid]. unfold second_of_three in E1. by rewrite E, E', E0, E1, E2.
  - intros rest. cbn [app chars]. leading (Z_of_byte b0). done.
  - unfold encode_utf8. set (c := (_ - _) * 4096 + _ + _).
    destruct (Z.ltb_spec c 128); [lia|]. destruct (Z.ltb_spec c 2048); [lia|]. destruct (Z.ltb_spec c 65536); [|lia].
    repeat f_equal; apply byte_of_eq; unfold c; Z.to_euclidean_division_equations; lia.
Qed.

Lemma four_byte_char b0 b1 b2 b3 :
  byte_in 0xF0 0xF4 b0 = true -> second_of_four b0 b1 = true -> continuation b2 = true -> continuation b3 = true ->
  is_char [b0; b1; b2; b3]
    ((Z_of_byte b0 - 240) * 262144 + (Z_of_byte b1 - 128) * 4096 + (Z_of_byte b2 - 128) * 64 + (Z_of_byte b3 - 128)).
Proof.
  intros E0 E1 E2 E3. pose proof (proj1 (byte_in_iff _ _ _) E0) as Hb0.
  pose proof (proj1 (continuation_iff _) E2) as Hb2. pose proof (proj1 (continuation_iff _) E3) as Hb3.
  destruct (second_of_four_bounds _ _ E1 E0) as [Hb1 Hlow].
  assert (byte_in 0 0x7F b0 = false) as E by (apply byte_in_false; lia).
  assert (byte_in 0xC2 0xDF b0 = false) as E' by (apply byte_in_false; lia).
  assert (byte_in 0xE0 0xEF b0 = false) as E'' by (apply byte_in_false; lia).
  assert (continuation b1 = true) as Ec by (by apply continuation_iff). constructor.
  - exists b0, [b1; b2; b3]. split; [done|]. split; [apply starts_char_iff; lia|].
    apply continuations_Forall. cbn. by rewrite Ec, E2, E3.
  - intros rest. cbn [app utf8_valid]. unfold second_of_four in E1. by rewrite E, E', E'', E0, E1, E2, E3.
  - intros rest. cbn [app chars]. leading (Z_of_byte b0). done.
  - unfold encode_utf8. set (c := (_ - _) * 262144 + _ + _ + _).
    destruct (Z.ltb_spec c 128); [lia|]. destruct (Z.ltb_spec c 2048); [lia|]. destruct (Z.ltb_spec c 65536); [lia|].
    repeat f_equal; apply byte_of_eq; unfold c; Z.to_euclidean_division_equations; lia.
Qed.

(** Where a text does not end it has a character, whose bytes the width of the
    first one counts. *)
Lemma first_char l :
  utf8_valid l = true -> l = [] \/ exists ch code rest, l = ch ++ rest /\ is_char ch code /\ utf8_valid rest = true.
Proof.
  destruct l as [|b0 l1]; [by left|]. cbn [utf8_valid]. intros Hv. right.
  destruct (byte_in 0 0x7F b0) eqn:E; [by exists [b0], (Z_of_byte b0), l1; split; [|split; [apply one_byte_char|]]|].
  destruct l1 as [|b1 l2]; [done|].
  destruct (byte_in 0xC2 0xDF b0) eqn:E2.
  { apply andb_true_iff in Hv as [H1 Hv]. eexists [b0; b1], _, l2.
    split; [done|]. split; [by apply two_byte_char|done]. }
  destruct l2 as [|b2 l3]; [done|].
  destruct (byte_in 0xE0 0xEF b0) eqn:E3.
  { apply andb_true_iff in Hv as [Hv Hr]. apply andb_true_iff in Hv as [H1 H2]. eexists [b0; b1; b2], _, l3.
    split; [done|]. split; [by apply three_byte_char|done]. }
  destruct l3 as [|b3 l4]; [done|].
  apply andb_true_iff in Hv as [Hv Hr]. apply andb_true_iff in Hv as [Hv H3].
  apply andb_true_iff in Hv as [Hv H2]. apply andb_true_iff in Hv as [H0 H1]. eexists [b0; b1; b2; b3], _, l4.
  split; [done|]. split; [by apply four_byte_char|done].
Qed.

Lemma is_char_nonempty ch code : is_char ch code -> (0 < length ch)%nat.
Proof. intros [(b & c & -> & _) _ _ _]. cbn. lia. Qed.

(** Induction on a text, character by character. *)
Lemma utf8_ind (P : bytes -> Prop) :
  P [] -> (forall ch code rest, is_char ch code -> utf8_valid rest = true -> P rest -> P (ch ++ rest)) ->
  forall l, utf8_valid l = true -> P l.
Proof.
  intros Hnil Hchar l. induction l as [l IH] using (induction_ltof1 _ (@length byte)). intros Hv.
  destruct (first_char l Hv) as [->|(ch & code & rest & -> & Hc & Hr)]; [done|].
  apply (Hchar ch code); [done|done|]. apply IH; [|done]. unfold ltof. rewrite length_app.
  pose proof (is_char_nonempty _ _ Hc). lia.
Qed.

(** * Cutting texts *)

Lemma utf8_valid_app a b : utf8_valid a = true -> utf8_valid (a ++ b) = utf8_valid b.
Proof.
  intros Ha. revert a Ha. apply utf8_ind; [done|]. intros ch code rest Hc _ IH.
  by rewrite <- app_assoc, (ic_valid _ _ Hc).
Qed.

Lemma utf8_valid_both a b : utf8_valid a = true -> utf8_valid b = true -> utf8_valid (a ++ b) = true.
Proof. intros Ha Hb. by rewrite utf8_valid_app. Qed.

Lemma chars_app a b : utf8_valid a = true -> chars (a ++ b) = chars a ++ chars b.
Proof.
  intros Ha. revert a Ha. apply utf8_ind; [done|]. intros ch code rest Hc _ IH.
  by rewrite <- app_assoc, !(ic_chars _ _ Hc), IH.
Qed.

Lemma encode_all_app cs ds : encode_all (cs ++ ds) = encode_all cs ++ encode_all ds.
Proof. unfold encode_all. by rewrite map_app, concat_app. Qed.

Lemma encode_all_cons c cs : encode_all (c :: cs) = encode_utf8 c ++ encode_all cs.
Proof. done. Qed.

Lemma encode_chars l : utf8_valid l = true -> encode_all (chars l) = l.
Proof.
  revert l. apply utf8_ind; [done|]. intros ch code rest Hc _ IH.
  by rewrite (ic_chars _ _ Hc), encode_all_cons, (ic_encode _ _ Hc), IH.
Qed.

(** A Unicode scalar value. *)
Definition scalar (c : Z) : Prop := is_char (encode_utf8 c) c.

Lemma chars_scalar l : utf8_valid l = true -> Forall scalar (chars l).
Proof.
  revert l. apply utf8_ind; [constructor|]. intros ch code rest Hc _ IH.
  rewrite (ic_chars _ _ Hc). constructor; [|done]. unfold scalar. by rewrite (ic_encode _ _ Hc).
Qed.

Lemma encode_all_valid cs : Forall scalar cs -> utf8_valid (encode_all cs) = true.
Proof. induction 1 as [|c cs Hc _ IH]; [done|]. by rewrite encode_all_cons, (ic_valid _ _ Hc). Qed.

Lemma chars_encode cs : Forall scalar cs -> chars (encode_all cs) = cs.
Proof. induction 1 as [|c cs Hc _ IH]; [done|]. by rewrite encode_all_cons, (ic_chars _ _ Hc), IH. Qed.

Lemma encode_all_inj cs ds : Forall scalar cs -> Forall scalar ds -> encode_all cs = encode_all ds -> cs = ds.
Proof. intros Hc Hd E. by rewrite <- (chars_encode cs), <- (chars_encode ds), E. Qed.

(** A text can be cut where a character starts. *)
Lemma utf8_cut a b :
  utf8_valid (a ++ b) = true -> (forall x, head b = Some x -> starts_char x = true) ->
  utf8_valid a = true /\ utf8_valid b = true.
Proof.
  remember (a ++ b) as l eqn:El. intros Hl Hb. revert a El.
  revert l Hl. apply (utf8_ind (fun l => forall a, l = a ++ b -> utf8_valid a = true /\ utf8_valid b = true)).
  - intros [|? ?] E; [|done]. cbn in E. by subst b.
  - intros ch code rest Hc Hrest IH a E. apply app_eq_app in E as [m [[-> ->]|[-> ->]]].
    + destruct (ic_head _ _ Hc) as (x & c & Ech & Hx & Hcs). destruct a as [|y a].
      { cbn in Ech. split; [done|]. cbn in *. subst m. by rewrite (ic_valid _ _ Hc). }
      destruct m as [|z m]; cbn [app] in *.
      { rewrite app_nil_r in *. split; [|done]. rewrite <- (app_nil_r (y :: a)). by rewrite (ic_valid _ _ Hc). }
      injection Ech as -> <-. specialize (Hb z eq_refl). apply Forall_app in Hcs as [_ Hz]. inversion Hz. congruence.
    + destruct (IH m eq_refl) as [Hm Hbv]. split; [|done]. by rewrite (ic_valid _ _ Hc).
Qed.

Lemma utf8_head l x : utf8_valid l = true -> head l = Some x -> starts_char x = true.
Proof.
  intros Hv Hx. destruct (first_char l Hv) as [->|(ch & code & rest & -> & Hc & _)]; [done|].
  destruct (ic_head _ _ Hc) as (b & c & -> & Hb & _). cbn in Hx. congruence.
Qed.

Lemma utf8_cut_left a b : utf8_valid (a ++ b) = true -> utf8_valid b = true -> utf8_valid a = true.
Proof. intros Hab Hb. apply (utf8_cut a b Hab). intros x. by apply utf8_head. Qed.

(** * What [from_utf8] reports *)

(** The bytes [bad] begin a character that more bytes could complete. *)
Definition incomplete_char (bad : bytes) : Prop :=
  utf8_valid bad = false /\ exists more, utf8_valid (bad ++ more) = true.

(** No bytes after [bad] make a text of it. *)
Definition never_text (bad : bytes) : Prop := forall more, utf8_valid (bad ++ more) = false.

Definition explains (index : nat) (l : bytes) (e : Utf8Error) : Prop :=
  exists good bad, l = good ++ bad /\ utf8_valid good = true /\ valid_up_to e = (index + length good)%nat
  /\ match error_len e with None => incomplete_char bad | Some n => (n <= 3)%nat /\ never_text bad end.

Definition checked_utf8 (index : nat) (l : bytes) (r : result Utf8Error unit) : Prop :=
  match r with Ok _ => utf8_valid l = true | Err e => explains index l e end.

Lemma explains_here index bad e :
  valid_up_to e = index ->
  match error_len e with None => incomplete_char bad | Some n => (n <= 3)%nat /\ never_text bad end ->
  explains index bad e.
Proof. intros Hv He. exists [], bad. split; [done|]. split; [done|]. split; [cbn; lia|done]. Qed.

Lemma checked_char index ch code rest r :
  is_char ch code -> checked_utf8 (length ch + index) rest r -> checked_utf8 index (ch ++ rest) r.
Proof.
  intros Hc. destruct r as [?|e]; cbn.
  - by rewrite (ic_valid _ _ Hc).
  - intros (good & bad & -> & Hg & Hv & He). exists (ch ++ good), bad. rewrite <- app_assoc.
    split; [done|]. split; [by rewrite (ic_valid _ _ Hc)|]. split; [|done]. rewrite Hv, length_app. lia.
Qed.

Lemma width_cases b :
  (utf8_char_width b = 1%nat /\ byte_in 0 0x7F b = true)
  \/ (utf8_char_width b = 2%nat /\ byte_in 0 0x7F b = false /\ byte_in 0xC2 0xDF b = true)
  \/ (utf8_char_width b = 3%nat /\ byte_in 0 0x7F b = false /\ byte_in 0xC2 0xDF b = false /\ byte_in 0xE0 0xEF b = true)
  \/ (utf8_char_width b = 4%nat /\ byte_in 0 0x7F b = false /\ byte_in 0xC2 0xDF b = false /\ byte_in 0xE0 0xEF b = false
      /\ byte_in 0xF0 0xF4 b = true)
  \/ (utf8_char_width b = 0%nat /\ byte_in 0 0x7F b = false /\ byte_in 0xC2 0xDF b = false /\ byte_in 0xE0 0xEF b = false
      /\ byte_in 0xF0 0xF4 b = false).
Proof.
  unfold utf8_char_width.
  destruct (byte_in 0 0x7F b), (byte_in 0xC2 0xDF b), (byte_in 0xE0 0xEF b), (byte_in 0xF0 0xF4 b); tauto.
Qed.

(** Two bytes that complete a first byte of three or four. *)
Lemma second_of_three_exists b0 : exists b1, second_of_three b0 b1 = true.
Proof.
  unfold second_of_three. destruct (byte_in 0xE0 0xE0 b0); [by exists xa0|].
  destruct (byte_in 0xED 0xED b0); by exists x80.
Qed.

Lemma second_of_four_exists b0 : exists b1, second_of_four b0 b1 = true.
Proof.
  unfold second_of_four. destruct (byte_in 0xF0 0xF0 b0); [by exists x90|].
  destruct (byte_in 0xF4 0xF4 b0); by exists x80.
Qed.

(** [utf8_valid] on the bytes of one character, whole or cut. *)
Ltac char_bytes :=
  cbn [app utf8_valid]; repeat match goal with
  | E : byte_in _ _ _ = _ |- _ => rewrite E
  | E : continuation _ = _ |- _ => rewrite E
  | E : second_of_three _ _ = _ |- _ => unfold second_of_three in E; rewrite E
  | E : second_of_four _ _ = _ |- _ => unfold second_of_four in E; rewrite E
  end; rewrite ?andb_true_r, ?andb_false_r; try done.

Ltac reports := apply explains_here; [done|cbn [error_len]].
Ltac never := split; [lia|]; intros more; char_bytes.

Lemma validate_two index b0 l1 :
  byte_in 0 0x7F b0 = false -> byte_in 0xC2 0xDF b0 = true -> utf8_char_width b0 = 2%nat ->
  (forall i l2 b1, l1 = b1 :: l2 -> checked_utf8 i l2 (validate_utf8 i l2)) ->
  checked_utf8 index (b0 :: l1) (validate_utf8 index (b0 :: l1)).
Proof.
  intros E E2 Hw IH. cbn [validate_utf8]. rewrite Hw. destruct l1 as [|b1 l2].
  { reports. split; [char_bytes|]. exists [x80]. char_bytes. }
  destruct (continuation b1) eqn:E1; [|reports; never].
  apply (checked_char index [b0; b1] _ l2 _ (two_byte_char _ _ E2 E1)). by apply (IH _ l2 b1).
Qed.

Lemma validate_three index b0 l1 :
  byte_in 0 0x7F b0 = false -> byte_in 0xC2 0xDF b0 = false -> byte_in 0xE0 0xEF b0 = true -> utf8_char_width b0 = 3%nat ->
  (forall i l3 b1 b2, l1 = b1 :: b2 :: l3 -> checked_utf8 i l3 (validate_utf8 i l3)) ->
  checked_utf8 index (b0 :: l1) (validate_utf8 index (b0 :: l1)).
Proof.
  intros E E2 E3 Hw IH. cbn [validate_utf8]. rewrite Hw. destruct l1 as [|b1 l2].
  { reports. split; [char_bytes|]. destruct (second_of_three_exists b0) as [b1 E1]. exists [b1; x80]. char_bytes. }
  destruct (second_of_three b0 b1) eqn:E1; [|reports; split; [lia|]; intros [|m more]; destruct l2; char_bytes].
  destruct l2 as [|b2 l3].
  { reports. split; [char_bytes|]. exists [x80]. char_bytes. }
  destruct (continuation b2) eqn:Ec; [|reports; never].
  apply (checked_char index [b0; b1; b2] _ l3 _ (three_byte_char _ _ _ E3 E1 Ec)). by apply (IH _ l3 b1 b2).
Qed.

Lemma validate_four index b0 l1 :
  byte_in 0 0x7F b0 = false -> byte_in 0xC2 0xDF b0 = false -> byte_in 0xE0 0xEF b0 = false ->
  byte_in 0xF0 0xF4 b0 = true -> utf8_char_width b0 = 4%nat ->
  (forall i l4 b1 b2 b3, l1 = b1 :: b2 :: b3 :: l4 -> checked_utf8 i l4 (validate_utf8 i l4)) ->
  checked_utf8 index (b0 :: l1) (validate_utf8 index (b0 :: l1)).
Proof.
  intros E E2 E3 E4 Hw IH. cbn [validate_utf8]. rewrite Hw. destruct l1 as [|b1 l2].
  { reports. split; [char_bytes|]. destruct (second_of_four_exists b0) as [b1 E1]. exists [b1; x80; x80]. char_bytes. }
  destruct (second_of_four b0 b1) eqn:E1.
  2: { reports. split; [lia|]. intros more. destruct (l2 ++ more) as [|b2 [|b3 l]] eqn:El; cbn [app]; rewrite El; char_bytes. }
  destruct l2 as [|b2 l3].
  { reports. split; [char_bytes|]. exists [x80; x80]. char_bytes. }
  destruct (continuation b2) eqn:Ec.
  2: { reports. split; [lia|]. intros more. destruct (l3 ++ more) as [|b3 l] eqn:El; cbn [app]; rewrite El; char_bytes. }
  destruct l3 as [|b3 l4].
  { reports. split; [char_bytes|]. exists [x80]. char_bytes. }
  destruct (continuation b3) eqn:Ec3; [|reports; never].
  apply (checked_char index [b0; b1; b2; b3] _ l4 _ (four_byte_char _ _ _ _ E4 E1 Ec Ec3)). by apply (IH _ l4 b1 b2 b3).
Qed.

Lemma validate_utf8_checked index l : checked_utf8 index l (validate_utf8 index l).
Proof.
  revert index. induction l as [l IH] using (induction_ltof1 _ (@length byte)). intros index. unfold ltof in IH.
  destruct l as [|b0 l1]; [done|].
  destruct (width_cases b0) as [(Hw & E)|[(Hw & E & E2)|[(Hw & E & E2 & E3)|[(Hw & E & E2 & E3 & E4)|(Hw & E & E2 & E3 & E4)]]]].
  - cbn [validate_utf8]. rewrite Hw. apply (checked_char index [b0] _ l1 _ (one_byte_char _ E)). apply IH. cbn. lia.
  - apply validate_two; [done..|]. intros i l2 b1 ->. apply IH. cbn. lia.
  - apply validate_three; [done..|]. intros i l3 b1 b2 ->. apply IH. cbn. lia.
  - apply validate_four; [done..|]. intros i l4 b1 b2 b3 ->. apply IH. cbn. lia.
  - cbn [validate_utf8]. rewrite Hw. reports. split; [lia|]. intros more.
    destruct (l1 ++ more) as [|b1 [|b2 [|b3 l]]] eqn:El; cbn [app]; rewrite El; char_bytes.
Qed.

(** [from_utf8] accepts exactly the texts. *)
Lemma from_utf8_Ok l : utf8_valid l = true -> from_utf8 l = Ok l.
Proof.
  intros Hl. unfold from_utf8. pose proof (validate_utf8_checked 0 l) as Hc. destruct (validate_utf8 0 l) as [[]|e]; [done|].
  destruct Hc as (good & bad & -> & Hg & _ & He). rewrite utf8_valid_app in Hl by done. destruct (error_len e).
  - destruct He as [_ Hn]. specialize (Hn []). rewrite app_nil_r in Hn. congruence.
  - destruct He as [Hn _]. congruence.
Qed.

Lemma from_utf8_inv l r : from_utf8 l = r -> match r with Ok t => t = l /\ utf8_valid l = true | Err e => explains 0 l e end.
Proof.
  intros <-. unfold from_utf8. pose proof (validate_utf8_checked 0 l) as Hc. by destruct (validate_utf8 0 l) as [[]|e].
Qed.

(** * Searching *)

Lemma starts_with_iff needle text : starts_with needle text = true <-> needle `prefix_of` text.
Proof.
  revert text. induction needle as [|b needle IH]; intros text; cbn.
  - split; [|done]. intros _. apply prefix_nil.
  - destruct text as [|c text]; [split; [done|]; intros [? ?]; done|]. rewrite andb_true_iff, IH, bool_decide_eq_true. split.
    + intros [-> Hp]. by apply prefix_cons.
    + intros Hp. split; [by eapply prefix_cons_inv_1|by eapply prefix_cons_inv_2].
Qed.

Lemma starts_with_false needle text : starts_with needle text = false <-> ~ needle `prefix_of` text.
Proof. rewrite <- starts_with_iff, not_true_iff_false. done. Qed.

Lemma ends_with_iff needle text : ends_with needle text = true <-> needle `suffix_of` text.
Proof.
  unfold ends_with. rewrite andb_true_iff, Nat.leb_le, bool_decide_eq_true. split.
  - intros [Hl E]. exists (take (length text - length needle) text).
    rewrite <- E at 2. by rewrite take_drop.
  - intros [before ->]. rewrite length_app. split; [lia|].
    replace (length before + length needle - length needle)%nat with (length before) by lia. by rewrite drop_app_length.
Qed.

(** [needle] is in [text] at [i]. *)
Definition occurs (needle text : bytes) (i : nat) : Prop := (i <= length text)%nat /\ needle `prefix_of` drop i text.

Lemma find_spec needle text :
  match find needle text with
  | Some i => occurs needle text i /\ forall j, occurs needle text j -> (i <= j)%nat
  | None => forall j, ~ occurs needle text j
  end.
Proof.
  induction text as [|b text IH]; cbn [find].
  - destruct (starts_with needle []) eqn:E.
    + split; [|intros; lia]. split; [done|]. by apply starts_with_iff.
    + intros j [Hj Hp]. apply starts_with_false in E. by rewrite drop_nil in Hp.
  - destruct (starts_with needle (b :: text)) eqn:E.
    { split; [|intros; lia]. split; [cbn; lia|]. by apply starts_with_iff. }
    apply starts_with_false in E.
    assert (Hshift : forall j, occurs needle (b :: text) j -> exists k, j = S k /\ occurs needle text k).
    { intros [|k] [Hk Hp]; [done|]. exists k. split; [done|]. split; [cbn in Hk; lia|done]. }
    destruct (find needle text) as [i|]; cbn.
    + destruct IH as [[Hi Hp] Hmin]. split; [split; [cbn; lia|done]|]. intros j (k & -> & Hk)%Hshift.
      specialize (Hmin k Hk). lia.
    + intros j (k & -> & Hk)%Hshift. by apply (IH k).
Qed.

Lemma find_Some needle text i :
  find needle text = Some i <-> occurs needle text i /\ forall j, occurs needle text j -> (i <= j)%nat.
Proof.
  pose proof (find_spec needle text) as Hs. split.
  - intros E. by rewrite E in Hs.
  - intros [Ho Hmin]. destruct (find needle text) as [k|]; [|by destruct (Hs i)].
    destruct Hs as [Hk Hmin']. f_equal. specialize (Hmin k Hk). specialize (Hmin' i Ho). lia.
Qed.

Lemma find_None needle text : find needle text = None <-> forall j, ~ occurs needle text j.
Proof.
  pose proof (find_spec needle text) as Hs. split.
  - intros E. by rewrite E in Hs.
  - intros Hn. destruct (find needle text) as [k|]; [|done]. destruct (Hn k). apply Hs.
Qed.

Lemma occurs_bound needle text i : occurs needle text i -> (i + length needle <= length text)%nat.
Proof. intros [Hi Hp]. apply prefix_length in Hp. rewrite length_drop in Hp. lia. Qed.

Lemma occurs_app needle text more i : occurs needle text i -> occurs needle (text ++ more) i.
Proof.
  intros [Hi [rest Hr]]. split; [rewrite length_app; lia|]. rewrite drop_app_le by done. rewrite Hr, <- app_assoc.
  by apply prefix_app_r.
Qed.

Lemma occurs_app_inv needle text more i :
  (i + length needle <= length text)%nat -> occurs needle (text ++ more) i -> occurs needle text i.
Proof.
  intros Hl [_ Hp]. split; [lia|]. rewrite drop_app_le in Hp by lia.
  destruct Hp as [rest Hr]. apply app_eq_app in Hr as [m [[Hd Hm]|[Hd Hm]]]; [by exists m|].
  assert (length (drop i text) = length needle + 0)%nat as E.
  { pose proof (f_equal length Hd) as E. rewrite !length_app, length_drop in *. lia. }
  exists []. rewrite Hd, length_app in E. assert (m = []) as -> by (apply nil_length_inv; lia). by rewrite app_nil_r in *.
Qed.

Lemma occurs_shift before needle text j :
  occurs needle (before ++ text) (length before + j) <-> occurs needle text j.
Proof.
  unfold occurs. rewrite length_app, drop_app_add. split; intros [? ?]; split; try done; lia.
Qed.

(** What is found stays found when the text grows. *)
Lemma find_app needle text more i : find needle text = Some i -> find needle (text ++ more) = Some i.
Proof.
  intros [Ho Hmin]%find_Some. apply find_Some. split; [by apply occurs_app|]. intros j Hj.
  destruct (Nat.le_gt_cases i j); [done|]. apply occurs_bound in Ho. apply Hmin.
  apply (occurs_app_inv needle text more); [lia|done].
Qed.

(** What is found only then ends in what was added. *)
Lemma find_app_new needle text more i :
  find needle text = None -> find needle (text ++ more) = Some i -> (length text < i + length needle)%nat.
Proof.
  intros Hn [Ho _]%find_Some. apply Nat.lt_nge. intros Hl.
  apply (proj1 (find_None needle text) Hn i). by apply (occurs_app_inv needle text more).
Qed.

(** A text cut before what was found in it. *)
Lemma find_cut needle text i :
  find needle text = Some i -> text = take i text ++ needle ++ drop (i + length needle) text.
Proof.
  intros [[Hi [rest Hr]] _]%find_Some. rewrite <- (take_drop i text) at 1. f_equal. rewrite Hr. f_equal.
  rewrite <- drop_drop, Hr. by rewrite drop_app_length.
Qed.

Lemma find_utf8 needle text i :
  utf8_valid text = true -> utf8_valid needle = true -> needle <> [] -> find needle text = Some i ->
  utf8_valid (take i text) = true /\ utf8_valid (drop i text) = true
  /\ utf8_valid (drop (i + length needle) text) = true.
Proof.
  intros Ht Hn Hne Hf. pose proof (find_cut _ _ _ Hf) as Ecut.
  assert (drop i text = needle ++ drop (i + length needle) text) as Ed.
  { apply find_Some in Hf as [[_ [rest Hr]] _]. rewrite <- drop_drop, Hr. by rewrite drop_app_length. }
  rewrite Ecut, app_assoc in Ht. destruct (utf8_cut (take i text) (drop i text)) as [H1 H2].
  - by rewrite Ed, app_assoc.
  - intros x Hx. rewrite Ed in Hx. destruct needle as [|b needle]; [done|]. by apply (utf8_head (b :: needle)).
  - split; [done|]. split; [done|]. rewrite Ed in H2. by rewrite utf8_valid_app in H2.
Qed.
