(* ===== verification/Projectors.v ===== *)
(** The stages that project streamed model text into what is shown and events
    (utils/stream-parser: literal_matcher.rs, projection.rs,
    inline_hidden_tag.rs, tagged_line_parser.rs, citation.rs, proposed_plan.rs,
    assistant_text.rs, utf8_stream.rs).  A method that takes [&mut self] returns
    the new state first.  A [String] or [&str] is its bytes; offsets and lengths
    count bytes, as in the code. *)

From S2P Require Import Prelude Disk Text.

Open Scope string_scope.
Open Scope list_scope.
Open Scope Z_scope.

(** * Projections *)

Record TextProjection (E : Type) := { renderable : bytes; events : list E }.
Arguments Build_TextProjection {E} renderable events.
Arguments renderable {E} t.
Arguments events {E} t.

Definition nothing {E} : TextProjection E := {| renderable := []; events := [] |}.

(** [TextProjection::renderable] *)
Definition only_renderable {E} (text : bytes) : TextProjection E := {| renderable := text; events := [] |}.

Definition is_empty {E} (self : TextProjection E) : bool :=
  (length (renderable self) =? 0)%nat && (length (events self) =? 0)%nat.

Definition map_events {E U} (map_event : E -> U) (self : TextProjection E) : TextProjection U :=
  {| renderable := renderable self; events := map map_event (events self) |}.

Definition merge {E} (self next : TextProjection E) : TextProjection E :=
  {| renderable := renderable self ++ renderable next; events := events self ++ events next |}.

(** A stage: [project] takes the next piece of the text, [close] the end of it. *)
Class TextProjector (P E : Type) := {
  project : bytes -> P -> P * TextProjection E;
  close : P -> P * TextProjection E
}.

(** * Literals *)

Record Literal (T : Type) := { li_text : bytes; li_value : T }.
Arguments Build_Literal {T} li_text li_value.
Arguments li_text {T} l.
Arguments li_value {T} l.

Abbreviation LiteralMatcher T := (list (Literal T)).

Definition matcher_new {T} (entries : list (bytes * T)) : LiteralMatcher T :=
  map (fun entry => {| li_text := fst entry; li_value := snd entry |}) entries.

Definition exact {T} (self : LiteralMatcher T) (candidate : bytes) : option T :=
  li_value <$> List.find (fun entry => bool_decide (li_text entry = candidate)) self.

Definition could_match_prefix {T} (self : LiteralMatcher T) (candidate : bytes) : bool :=
  existsb (fun entry => starts_with candidate (li_text entry)) self.

Definition could_extend_match {T} (self : LiteralMatcher T) (candidate : bytes) : bool :=
  existsb (fun entry => (length candidate <? length (li_text entry))%nat && starts_with candidate (li_text entry)) self.

(** What [earliest] knows of an entry that is in the text. *)
Record Found (T : Type) := { fd_offset : nat; fd_len : nat; fd_order : nat; fd_value : T }.
Arguments Build_Found {T} fd_offset fd_len fd_order fd_value.
Arguments fd_offset {T} f.
Arguments fd_len {T} f.
Arguments fd_order {T} f.
Arguments fd_value {T} f.

(** The key [(offset, Reverse(len), order)] of [x] is less than that of [y]. *)
Definition found_before {T} (x y : Found T) : bool :=
  (fd_offset x <? fd_offset y)%nat
  || ((fd_offset x =? fd_offset y)%nat
      && ((fd_len y <? fd_len x)%nat || ((fd_len x =? fd_len y)%nat && (fd_order x <? fd_order y)%nat))).

(** [Iterator::min_by_key]: the first of the least. *)
Fixpoint min_by {A} (before : A -> A -> bool) (l : list A) : option A :=
  match l with
  | [] => None
  | x :: l =>
      match min_by before l with
      | Some y => Some (if before y x then y else x)
      | None => Some x
      end
  end.

Definition found_in {T} (self : LiteralMatcher T) (text : bytes) : list (Found T) :=
  omap (fun '(order, entry) =>
          (fun offset => {| fd_offset := offset; fd_len := length (li_text entry); fd_order := order;
                            fd_value := li_value entry |}) <$> find (li_text entry) text)
    (zip (seq 0 (length self)) self).

Definition earliest {T} (self : LiteralMatcher T) (text : bytes) : option (nat * T) :=
  (fun f => (fd_offset f, fd_value f)) <$> min_by found_before (found_in self text).

Definition partial_suffix_len (text delimiter : bytes) : nat :=
  default 0%nat
    (List.find (fun len => is_char_boundary delimiter len && ends_with (take len delimiter) text)
       (rev (seq 1 (Nat.min (length text) (length delimiter - 1))))).

Definition retained_suffix_len {T} (self : LiteralMatcher T) (text : bytes) : nat :=
  list_max (map (fun entry => partial_suffix_len text (li_text entry)) self).

(** * Hidden tags *)

Section Hidden.
Context {T : Type}.

Record ExtractedInlineTag := { ex_tag : T; ex_content : bytes }.
Record InlineTagSpec := { sp_tag : T; sp_open : bytes; sp_close : bytes }.
Record ActiveTag := { at_tag : T; at_close : bytes; at_content : bytes }.
Inductive ParseMode := Visible | Hidden (active : ActiveTag).

Record HiddenTagProjector := {
  ht_specs : list InlineTagSpec;
  ht_openers : LiteralMatcher nat;
  ht_pending : bytes;
  ht_mode : ParseMode
}.

Definition with_pending (pending : bytes) (self : HiddenTagProjector) : HiddenTagProjector :=
  {| ht_specs := ht_specs self; ht_openers := ht_openers self; ht_pending := pending; ht_mode := ht_mode self |}.
Definition with_mode (mode : ParseMode) (self : HiddenTagProjector) : HiddenTagProjector :=
  {| ht_specs := ht_specs self; ht_openers := ht_openers self; ht_pending := ht_pending self; ht_mode := mode |}.

(** The assertions of [new] on each tag. *)
Fixpoint check_specs (specs : list InlineTagSpec) : result string unit :=
  match specs with
  | [] => Ok tt
  | spec :: specs =>
      _ ← ensure (negb (length (sp_open spec) =? 0)%nat) "HiddenTagProjector requires non-empty open delimiters";
      _ ← ensure (negb (length (sp_close spec) =? 0)%nat) "HiddenTagProjector requires non-empty close delimiters";
      check_specs specs
  end.

(** [new]; [Err] is the message of the panic. *)
Definition hidden_new (specs : list InlineTagSpec) : result string HiddenTagProjector :=
  _ ← ensure (negb (length specs =? 0)%nat) "HiddenTagProjector requires at least one tag spec";
  _ ← check_specs specs;
  Ok {| ht_specs := specs;
        ht_openers := matcher_new (imap (fun index spec => (sp_open spec, index)) specs);
        ht_pending := []; ht_mode := Visible |}.

Abbreviation Out := (TextProjection ExtractedInlineTag).

Definition push_renderable (text : bytes) (out : Out) : Out :=
  {| renderable := renderable out ++ text; events := events out |}.
Definition push_event (event : ExtractedInlineTag) (out : Out) : Out :=
  {| renderable := renderable out; events := events out ++ [event] |}.

Definition drain_visible (len : nat) (self : HiddenTagProjector) (out : Out) : HiddenTagProjector * Out :=
  (with_pending (drop len (ht_pending self)) self, push_renderable (take len (ht_pending self)) out).

Definition consume_hidden (self : HiddenTagProjector) (out : Out) : bool * HiddenTagProjector * Out :=
  match ht_mode self with
  | Visible => (false, self, out)
  | Hidden active =>
      match find (at_close active) (ht_pending self) with
      | Some close_at =>
          (true,
           with_pending (drop (close_at + length (at_close active)) (ht_pending self)) (with_mode Visible self),
           push_event {| ex_tag := at_tag active;
                         ex_content := at_content active ++ take close_at (ht_pending self) |} out)
      | None =>
          let keep := partial_suffix_len (ht_pending self) (at_close active) in
          let drain := (length (ht_pending self) - keep)%nat in
          if (0 <? drain)%nat then
            (false,
             with_pending (drop drain (ht_pending self))
               (with_mode (Hidden {| at_tag := at_tag active; at_close := at_close active;
                                     at_content := at_content active ++ take drain (ht_pending self) |}) self),
             out)
          else (false, self, out)
      end
  end.

(** The loop of [project]; [None] when it runs out of turns, or indexes a tag
    that is not there. *)
Fixpoint project_loop (turns : nat) (self : HiddenTagProjector) (out : Out) : option (HiddenTagProjector * Out) :=
  match turns with
  | O => None
  | S turns =>
      match ht_mode self with
      | Hidden _ =>
          let '(consumed, self, out) := consume_hidden self out in
          if consumed then project_loop turns self out else Some (self, out)
      | Visible =>
          match earliest (ht_openers self) (ht_pending self) with
          | Some (open_at, spec_index) =>
              let candidate := drop open_at (ht_pending self) in
              let extends := could_extend_match (ht_openers self) candidate in
              let (self, out) := drain_visible open_at self out in
              if extends then Some (self, out)
              else
                spec ← ht_specs self !! spec_index;
                project_loop turns
                  (with_mode (Hidden {| at_tag := sp_tag spec; at_close := sp_close spec; at_content := [] |})
                     (with_pending (drop (length (sp_open spec)) (ht_pending self)) self)) out
          | None =>
              let keep := retained_suffix_len (ht_openers self) (ht_pending self) in
              Some (drain_visible (length (ht_pending self) - keep) self out)
          end
      end
  end.

(** Every turn but the last takes a delimiter from what is pending; the loop
    never fails ([project_loop_ends]). *)
Definition hidden_project (input : bytes) (self : HiddenTagProjector) : HiddenTagProjector * Out :=
  let self := with_pending (ht_pending self ++ input) self in
  default (self, nothing) (project_loop (S (length (ht_pending self))) self nothing).

Definition hidden_close (self : HiddenTagProjector) : HiddenTagProjector * Out :=
  match ht_mode self with
  | Hidden active =>
      (with_pending [] (with_mode Visible self),
       push_event {| ex_tag := at_tag active; ex_content := at_content active ++ ht_pending self |} nothing)
  | Visible => (with_pending [] self, push_renderable (ht_pending self) nothing)
  end.

#[export] Instance hidden_projector : TextProjector HiddenTagProjector ExtractedInlineTag := {
  project := hidden_project;
  close := hidden_close
}.

End Hidden.

Arguments ExtractedInlineTag T : clear implicits.
Arguments InlineTagSpec T : clear implicits.
Arguments ActiveTag T : clear implicits.
Arguments ParseMode T : clear implicits.
Arguments HiddenTagProjector T : clear implicits.

(** * Tagged lines *)

Section Lines.
Context {T : Type} `{EqDecision T}.

Record TagSpec := { ts_open : bytes; ts_close : bytes; ts_tag : T }.

Inductive TaggedLineSegment :=
  | Normal (text : bytes)
  | TagStart (tag : T)
  | TagDelta (tag : T) (text : bytes)
  | TagEnd (tag : T).

Inductive LineMode := Probe | Stream.

Record TaggedLineParser := {
  tl_opens : LiteralMatcher T;
  tl_closes : LiteralMatcher T;
  tl_active_tag : option T;
  tl_mode : LineMode;
  tl_line_buffer : bytes
}.

Definition parser_new (specs : list TagSpec) : TaggedLineParser :=
  {| tl_opens := matcher_new (map (fun spec => (ts_open spec, ts_tag spec)) specs);
     tl_closes := matcher_new (map (fun spec => (ts_close spec, ts_tag spec)) specs);
     tl_active_tag := None; tl_mode := Probe; tl_line_buffer := [] |}.

Definition with_line (mode : LineMode) (line_buffer : bytes) (self : TaggedLineParser) : TaggedLineParser :=
  {| tl_opens := tl_opens self; tl_closes := tl_closes self; tl_active_tag := tl_active_tag self;
     tl_mode := mode; tl_line_buffer := line_buffer |}.
Definition with_tag (tag : option T) (self : TaggedLineParser) : TaggedLineParser :=
  {| tl_opens := tl_opens self; tl_closes := tl_closes self; tl_active_tag := tag;
     tl_mode := tl_mode self; tl_line_buffer := tl_line_buffer self |}.

Definition push_segment (segments : list TaggedLineSegment) (segment : TaggedLineSegment) : list TaggedLineSegment :=
  match segment with
  | Normal delta =>
      if (length delta =? 0)%nat then segments
      else match list.last segments with
      | Some (Normal existing) => removelast segments ++ [Normal (existing ++ delta)]
      | _ => segments ++ [Normal delta]
      end
  | TagDelta tag delta =>
      if (length delta =? 0)%nat then segments
      else match list.last segments with
      | Some (TagDelta existing_tag existing) =>
          if bool_decide (existing_tag = tag) then removelast segments ++ [TagDelta existing_tag (existing ++ delta)]
          else segments ++ [TagDelta tag delta]
      | _ => segments ++ [TagDelta tag delta]
      end
  | TagStart tag => segments ++ [TagStart tag]
  | TagEnd tag => segments ++ [TagEnd tag]
  end.

Definition push_text (self : TaggedLineParser) (text : bytes) (segments : list TaggedLineSegment)
    : list TaggedLineSegment :=
  push_segment segments (match tl_active_tag self with Some tag => TagDelta tag text | None => Normal text end).

Definition could_be_marker (self : TaggedLineParser) (candidate : bytes) : bool :=
  could_match_prefix (tl_opens self) candidate || could_match_prefix (tl_closes self) candidate.

(** ['\n'] *)
Definition newline : Z := 10.

(** [line.strip_suffix('\n').unwrap_or(&line)] *)
Definition strip_newline (line : bytes) : bytes :=
  match list.last line with
  | Some b => if bool_decide (b = byte_of_Z newline) then removelast line else line
  | None => line
  end.

Definition classify_buffer (self : TaggedLineParser) (segments : list TaggedLineSegment)
    : TaggedLineParser * list TaggedLineSegment :=
  let line := tl_line_buffer self in
  let self := with_line (tl_mode self) [] self in
  let candidate := trim_str (strip_newline line) in
  match exact (tl_opens self) candidate, tl_active_tag self with
  | Some tag, None => (with_tag (Some tag) (with_line Probe [] self), push_segment segments (TagStart tag))
  | _, _ =>
      match exact (tl_closes self) candidate with
      | Some tag =>
          if bool_decide (tl_active_tag self = Some tag)
          then (with_tag None (with_line Probe [] self), push_segment segments (TagEnd tag))
          else let self := with_line Probe [] self in (self, push_text self line segments)
      | None => let self := with_line Probe [] self in (self, push_text self line segments)
      end
  end.

(** [if !run.is_empty() { self.push_text(take(&mut run), ..) }] *)
Definition flush_run (self : TaggedLineParser) (run : bytes) (segments : list TaggedLineSegment)
    : list TaggedLineSegment :=
  if (length run =? 0)%nat then segments else push_text self run segments.

(** The loop of [parse] over the characters of [delta]. *)
Fixpoint parse_chars (delta : list Z) (self : TaggedLineParser) (run : bytes) (segments : list TaggedLineSegment)
    : TaggedLineParser * bytes * list TaggedLineSegment :=
  match delta with
  | [] => (self, run, segments)
  | ch :: delta =>
      match tl_mode self with
      | Probe =>
          let segments := flush_run self run segments in
          let self := with_line Probe (tl_line_buffer self ++ encode_utf8 ch) self in
          if ch =? newline then
            let (self, segments) := classify_buffer self segments in parse_chars delta self [] segments
          else
            let candidate := trim_str (tl_line_buffer self) in
            if (length candidate =? 0)%nat || could_be_marker self candidate then parse_chars delta self [] segments
            else
              let buffered := tl_line_buffer self in
              let self := with_line Stream [] self in
              parse_chars delta self [] (push_text self buffered segments)
      | Stream =>
          let run := run ++ encode_utf8 ch in
          if ch =? newline then
            parse_chars delta (with_line Probe (tl_line_buffer self) self) [] (push_text self run segments)
          else parse_chars delta self run segments
      end
  end.

Definition parse (delta : bytes) (self : TaggedLineParser) : TaggedLineParser * list TaggedLineSegment :=
  let '(self, run, segments) := parse_chars (chars delta) self [] [] in
  (self, flush_run self run segments).

Definition finish (self : TaggedLineParser) : TaggedLineParser * list TaggedLineSegment :=
  let (self, segments) :=
    if (length (tl_line_buffer self) =? 0)%nat then (self, []) else classify_buffer self [] in
  let segments := match tl_active_tag self with Some tag => push_segment segments (TagEnd tag) | None => segments end in
  (with_line Probe (tl_line_buffer self) (with_tag None self), segments).

End Lines.

Arguments TagSpec T : clear implicits.
Arguments TaggedLineSegment T : clear implicits.
Arguments TaggedLineParser T : clear implicits.

(** * Citations *)

Inductive CitationTag := Citation.

Definition CITATION_OPEN : bytes := str_bytes "<praxis-memory-citation>".
Definition CITATION_CLOSE : bytes := str_bytes "</praxis-memory-citation>".

Record CitationProjector := { ci_inner : HiddenTagProjector CitationTag }.

Definition citation_new : result string CitationProjector :=
  inner ← hidden_new [{| sp_tag := Citation; sp_open := CITATION_OPEN; sp_close := CITATION_CLOSE |}];
  Ok {| ci_inner := inner |}.

Definition citation_projection (projection : TextProjection (ExtractedInlineTag CitationTag)) : TextProjection bytes :=
  map_events ex_content projection.

#[export] Instance citation_projector : TextProjector CitationProjector bytes := {
  project input self :=
    let (inner, projection) := project input (ci_inner self) in
    ({| ci_inner := inner |}, citation_projection projection);
  close self :=
    let (inner, projection) := close (ci_inner self) in
    ({| ci_inner := inner |}, citation_projection projection)
}.

Definition strip_citations (text : bytes) : result string (bytes * list bytes) :=
  parser ← citation_new;
  let (parser, out) := project text parser in
  let (_, tail) := close parser in
  let out := merge out tail in
  Ok (renderable out, events out).

(** * Proposed plans *)

Definition OPEN_TAG : bytes := str_bytes "<proposed_plan>".
Definition CLOSE_TAG : bytes := str_bytes "</proposed_plan>".

Inductive PlanTag := ProposedPlan.

#[export] Instance PlanTag_eq_dec : EqDecision PlanTag.
Proof. solve_decision. Defined.

Inductive ProposedPlanSegment :=
  | PlanNormal (text : bytes)
  | ProposedPlanStart
  | ProposedPlanDelta (text : bytes)
  | ProposedPlanEnd.

#[export] Instance ProposedPlanSegment_eq_dec : EqDecision ProposedPlanSegment.
Proof. solve_decision. Defined.

Record ProposedPlanProjector := { pp_parser : TaggedLineParser PlanTag }.

Definition plan_new : ProposedPlanProjector :=
  {| pp_parser := parser_new [{| ts_open := OPEN_TAG; ts_close := CLOSE_TAG; ts_tag := ProposedPlan |}] |}.

(** One turn of the loop of [map_segments]. *)
Definition map_segment (out : TextProjection ProposedPlanSegment) (segment : TaggedLineSegment PlanTag)
    : TextProjection ProposedPlanSegment :=
  match segment with
  | Normal text => {| renderable := renderable out ++ text; events := events out ++ [PlanNormal text] |}
  | TagStart ProposedPlan => {| renderable := renderable out; events := events out ++ [ProposedPlanStart] |}
  | TagDelta ProposedPlan text => {| renderable := renderable out; events := events out ++ [ProposedPlanDelta text] |}
  | TagEnd ProposedPlan => {| renderable := renderable out; events := events out ++ [ProposedPlanEnd] |}
  end.

Definition map_segments (segments : list (TaggedLineSegment PlanTag)) : TextProjection ProposedPlanSegment :=
  fold_left map_segment segments nothing.

#[export] Instance plan_projector : TextProjector ProposedPlanProjector ProposedPlanSegment := {
  project input self :=
    let (parser, segments) := parse input (pp_parser self) in
    ({| pp_parser := parser |}, map_segments segments);
  close self :=
    let (parser, segments) := finish (pp_parser self) in
    ({| pp_parser := parser |}, map_segments segments)
}.

Record ProposedPlanCapture := { pc_saw_plan : bool; pc_active : bool; pc_text : bytes }.

Definition capture_default : ProposedPlanCapture := {| pc_saw_plan := false; pc_active := false; pc_text := [] |}.

Definition observe (self : ProposedPlanCapture) (segment : ProposedPlanSegment) : ProposedPlanCapture :=
  match segment with
  | ProposedPlanStart => {| pc_saw_plan := true; pc_active := true; pc_text := [] |}
  | ProposedPlanDelta delta =>
      if pc_active self
      then {| pc_saw_plan := pc_saw_plan self; pc_active := true; pc_text := pc_text self ++ delta |}
      else self
  | ProposedPlanEnd => {| pc_saw_plan := pc_saw_plan self; pc_active := false; pc_text := pc_text self |}
  | PlanNormal _ => self
  end.

Definition captured (self : ProposedPlanCapture) : option bytes :=
  if pc_saw_plan self then Some (pc_text self) else None.

Definition strip_proposed_plan_blocks (text : bytes) : bytes :=
  let (parser, out) := project text plan_new in
  let (_, tail) := close parser in
  renderable (merge out tail).

Definition extract_proposed_plan_text (text : bytes) : option bytes :=
  let (parser, out) := project text plan_new in
  let (_, tail) := close parser in
  captured (fold_left observe (events out ++ events tail) capture_default).

(** * Assistant text *)

Record AssistantTextChunk := {
  visible_text : bytes;
  citations : list bytes;
  plan_segments : list ProposedPlanSegment
}.

Definition chunk_is_empty (self : AssistantTextChunk) : bool :=
  (length (visible_text self) =? 0)%nat && (length (citations self) =? 0)%nat && (length (plan_segments self) =? 0)%nat.

Record AssistantTextFeatures := { fe_citations : bool; fe_proposed_plan : bool }.

Definition features_default : AssistantTextFeatures := {| fe_citations := true; fe_proposed_plan := false |}.

Record AssistantTextProjector := { as_citations : option CitationProjector; as_plan : option ProposedPlanProjector }.

Definition with_features (features : AssistantTextFeatures) : result string AssistantTextProjector :=
  citations ← (if fe_citations features then Some <$> citation_new else Ok None);
  Ok {| as_citations := citations; as_plan := if fe_proposed_plan features then Some plan_new else None |}.

Definition assistant_new (plan_mode : bool) : result string AssistantTextProjector :=
  with_features {| fe_citations := fe_citations features_default; fe_proposed_plan := plan_mode |}.

Definition route (citations : TextProjection bytes) (self : AssistantTextProjector)
    : AssistantTextProjector * AssistantTextChunk :=
  match as_plan self with
  | None => (self, {| visible_text := renderable citations; citations := events citations; plan_segments := [] |})
  | Some plan =>
      let (plan, plan_projection) := project (renderable citations) plan in
      ({| as_citations := as_citations self; as_plan := Some plan |},
       {| visible_text := renderable plan_projection; citations := events citations;
          plan_segments := events plan_projection |})
  end.

Definition assistant_project (input : bytes) (self : AssistantTextProjector)
    : AssistantTextProjector * AssistantTextChunk :=
  match as_citations self with
  | None => route (only_renderable input) self
  | Some projector =>
      let (projector, projection) := project input projector in
      route projection {| as_citations := Some projector; as_plan := as_plan self |}
  end.

Definition assistant_close (self : AssistantTextProjector) : AssistantTextProjector * AssistantTextChunk :=
  let (self, citation_tail) :=
    match as_citations self with
    | None => (self, nothing)
    | Some projector =>
        let (projector, projection) := close projector in
        ({| as_citations := Some projector; as_plan := as_plan self |}, projection)
    end in
  let (self, out) := route citation_tail self in
  match as_plan self with
  | None => (self, out)
  | Some plan =>
      let (plan, tail) := close plan in
      ({| as_citations := as_citations self; as_plan := Some plan |},
       {| visible_text := visible_text out ++ renderable tail; citations := citations out;
          plan_segments := plan_segments out ++ events tail |})
  end.

(** * Bytes *)

Inductive Utf8Status :=
  | Complete (text : bytes)
  | Prefix (prefix : bytes)
  | Invalid (valid_up_to error_len : nat).

Definition classify_utf8 (l : bytes) : Utf8Status :=
  match from_utf8 l with
  | Ok text => Complete text
  | Err error =>
      match error_len error with
      | Some error_len => Invalid (valid_up_to error) error_len
      | None =>
          match from_utf8 (take (valid_up_to error) l) with
          | Ok prefix => Prefix prefix
          | Err prefix_error => Invalid (valid_up_to prefix_error) (default 0%nat (error_len prefix_error))
          end
      end
  end.

Inductive Utf8ProjectionError :=
  | InvalidUtf8 (valid_up_to error_len : nat)
  | IncompleteUtf8AtEof.

Section Adapter.
Context {P E : Type} `{TextProjector P E}.

Record Utf8ProjectionAdapter := { ad_inner : P; ad_pending_utf8 : bytes }.

Definition adapter_new (inner : P) : Utf8ProjectionAdapter := {| ad_inner := inner; ad_pending_utf8 := [] |}.

Definition push_bytes (chunk : bytes) (self : Utf8ProjectionAdapter)
    : Utf8ProjectionAdapter * result Utf8ProjectionError (TextProjection E) :=
  let old_len := length (ad_pending_utf8 self) in
  let pending := ad_pending_utf8 self ++ chunk in
  match classify_utf8 pending with
  | Complete text =>
      let (inner, out) := project text (ad_inner self) in
      ({| ad_inner := inner; ad_pending_utf8 := [] |}, Ok out)
  | Prefix prefix =>
      if (length prefix =? 0)%nat then ({| ad_inner := ad_inner self; ad_pending_utf8 := pending |}, Ok nothing)
      else
        let (inner, out) := project prefix (ad_inner self) in
        ({| ad_inner := inner; ad_pending_utf8 := drop (length prefix) pending |}, Ok out)
  | Invalid valid_up_to error_len =>
      ({| ad_inner := ad_inner self; ad_pending_utf8 := take old_len pending |},
       Err (InvalidUtf8 valid_up_to error_len))
  end.

Definition adapter_close (self : Utf8ProjectionAdapter)
    : Utf8ProjectionAdapter * result Utf8ProjectionError (TextProjection E) :=
  let finish_inner (inner : P) (out : TextProjection E)
      : Utf8ProjectionAdapter * result Utf8ProjectionError (TextProjection E) :=
    let (inner, tail) := close inner in
    ({| ad_inner := inner; ad_pending_utf8 := [] |}, Ok (merge out tail)) in
  if (length (ad_pending_utf8 self) =? 0)%nat then finish_inner (ad_inner self) nothing
  else
    match classify_utf8 (ad_pending_utf8 self) with
    | Complete text => let (inner, out) := project text (ad_inner self) in finish_inner inner out
    | Prefix _ => (self, Err IncompleteUtf8AtEof)
    | Invalid valid_up_to error_len => (self, Err (InvalidUtf8 valid_up_to error_len))
    end.

Definition into_inner (self : Utf8ProjectionAdapter) : result Utf8ProjectionError P :=
  match classify_utf8 (ad_pending_utf8 self) with
  | Complete _ => Ok (ad_inner self)
  | Prefix _ => Err IncompleteUtf8AtEof
  | Invalid valid_up_to error_len => Err (InvalidUtf8 valid_up_to error_len)
  end.

Definition into_inner_lossy (self : Utf8ProjectionAdapter) : P := ad_inner self.

End Adapter.

Arguments Utf8ProjectionAdapter P : clear implicits.
