(* ===== verification/MatcherFacts.v ===== *)
(** The literals that projectors look for: which one is found first, how much of
    a text could be the start of one, and both as the text grows (lemmas on
    Projectors). *)

From S2P Require Import Prelude Disk Text TextFacts Projectors.

Open Scope Z_scope.

(** * The earliest literal *)

Lemma min_by_spec {A} (before : A -> A -> bool) l :
  (forall x y, before x y = true -> before y x = false) ->
  (forall x y z, before z x = true -> before z y = true \/ before y x = true) ->
  match min_by before l with
  | Some x => x ∈ l /\ forall y, y ∈ l -> before y x = false
  | None => l = []
  end.
Proof.
  intros Hasym Hneg. assert (Hirr : forall x, before x x = false).
  { intros x. destruct (before x x) eqn:E; [|done]. by rewrite <- E, (Hasym x x E) at 1. }
  induction l as [|a l IH]; cbn [min_by]; [done|]. destruct (min_by before l) as [m|].
  2: { subst l. split; [by left|]. intros y [->|Hy]%elem_of_cons; [apply Hirr|]. by apply not_elem_of_nil in Hy. }
  destruct IH as [Hm Hmin]. destruct (before m a) eqn:E.
  - split; [by right|]. intros y [->|Hy]%elem_of_cons; [by apply Hasym|by apply Hmin].
  - split; [by left|]. intros y [->|Hy]%elem_of_cons; [apply Hirr|].
    destruct (before y a) eqn:E'; [|done]. destruct (Hneg a m y E') as [C|C]; [|congruence]. by rewrite Hmin in C.
Qed.

Lemma found_before_iff {T} (x y : Found T) :
  found_before x y = true <->
  (fd_offset x < fd_offset y \/ fd_offset x = fd_offset y
   /\ (fd_len y < fd_len x \/ fd_len x = fd_len y /\ fd_order x < fd_order y))%nat.
Proof.
  unfold found_before. rewrite orb_true_iff, andb_true_iff, orb_true_iff, andb_true_iff.
  rewrite !Nat.ltb_lt, !Nat.eqb_eq. done.
Qed.

Section Matcher.
Context {T : Type} (m : LiteralMatcher T).

Lemma found_in_elem text f :
  f ∈ found_in m text <->
  exists e, m !! fd_order f = Some e /\ find (li_text e) text = Some (fd_offset f)
            /\ fd_len f = length (li_text e) /\ fd_value f = li_value e.
Proof.
  unfold found_in. rewrite list_elem_of_omap. split.
  - intros ([order e] & Hin & Hf). apply list_elem_of_lookup in Hin as [i Hi]. apply lookup_zip_Some in Hi as [Hi He].
    apply lookup_seq in Hi as [-> _]. destruct (find (li_text e) text) as [offset|] eqn:Eo; [|done].
    injection Hf as <-. cbn. exists e. done.
  - intros (e & He & Hf & Hl & Hv). exists (fd_order f, e). split.
    + apply list_elem_of_lookup. exists (fd_order f). apply lookup_zip_Some. split; [|done].
      apply lookup_seq. split; [done|]. by eapply lookup_lt_Some.
    + rewrite Hf. cbn. destruct f. cbn in *. by subst.
Qed.

(** The entry [e], number [order], found at [i], comes before all that is found. *)
Definition is_earliest (text : bytes) (i order : nat) (e : Literal T) : Prop :=
  m !! order = Some e /\ find (li_text e) text = Some i
  /\ forall order' e' j, m !! order' = Some e' -> find (li_text e') text = Some j ->
       (i < j \/ i = j /\ (length (li_text e') < length (li_text e)
                          \/ length (li_text e') = length (li_text e) /\ order <= order'))%nat.

Lemma earliest_spec text :
  match earliest m text with
  | Some (i, v) => exists order e, is_earliest text i order e /\ v = li_value e
  | None => forall e, e ∈ m -> find (li_text e) text = None
  end.
Proof.
  unfold earliest. pose proof (min_by_spec found_before (found_in m text)) as Hs.
  destruct (min_by found_before (found_in m text)) as [f|]; cbn.
  - destruct Hs as [Hf Hmin].
    { intros x y. rewrite <- not_true_iff_false, !found_before_iff. lia. }
    { intros x y z. rewrite !found_before_iff. lia. }
    apply found_in_elem in Hf as (e & He & Hfind & Hl & Hv). exists (fd_order f), e. split; [|done].
    split; [done|]. split; [done|]. intros order' e' j He' Hj.
    specialize (Hmin {| fd_offset := j; fd_len := length (li_text e'); fd_order := order'; fd_value := li_value e' |}).
    rewrite <- not_true_iff_false, found_before_iff, found_in_elem in Hmin. cbn in Hmin.
    rewrite Hl in Hmin. apply Decidable.not_or in Hmin; [|by exists e']. lia.
  - intros e He. destruct (find (li_text e) text) as [i|] eqn:E; [|done]. exfalso.
    apply list_elem_of_lookup in He as [order He].
    assert ({| fd_offset := i; fd_len := length (li_text e); fd_order := order; fd_value := li_value e |} ∈ found_in m text)
      as Hin by (apply found_in_elem; by exists e).
    rewrite Hs in Hin; [by apply not_elem_of_nil in Hin|..].
    + intros x y. rewrite <- not_true_iff_false, !found_before_iff. lia.
    + intros x y z. rewrite !found_before_iff. lia.
Qed.

Lemma earliest_is text i order e : is_earliest text i order e -> earliest m text = Some (i, li_value e).
Proof.
  intros (He & Hf & Hmin). pose proof (earliest_spec text) as Hs. destruct (earliest m text) as [[j v]|].
  - destruct Hs as (order' & e' & (He' & Hf' & Hmin') & ->).
    specialize (Hmin order' e' j He' Hf'). specialize (Hmin' order e i He Hf).
    assert (order = order' /\ i = j) as [-> ->] by lia. congruence.
  - apply list_elem_of_lookup_2 in He. by rewrite (Hs e He) in Hf.
Qed.

Lemma earliest_none text : earliest m text = None <-> forall e, e ∈ m -> find (li_text e) text = None.
Proof.
  pose proof (earliest_spec text) as Hs. split; [by intros E; rewrite E in Hs|]. intros Hn.
  destruct (earliest m text) as [[j v]|]; [|done]. destruct Hs as (order & e & (He & Hf & _) & _).
  apply list_elem_of_lookup_2 in He. by rewrite (Hn e He) in Hf.
Qed.

End Matcher.

(** * Texts that grow *)

(** Neither text starts with the other. *)
Definition apart (e s : bytes) : Prop := ~ e `prefix_of` s /\ ~ s `prefix_of` e.

Lemma prefix_app_cases (e s more : bytes) : e `prefix_of` s ++ more -> e `prefix_of` s \/ s `prefix_of` e.
Proof. intros [rest Hr]. apply app_eq_app in Hr as [k [[-> _]|[-> _]]]; [left|right]; by exists k. Qed.

Lemma apart_app e s more : apart e s -> apart e (s ++ more).
Proof.
  intros [H1 H2]. split.
  - by intros [Hp|Hp]%prefix_app_cases.
  - intros Hp. apply H2. etrans; [|exact Hp]. by apply prefix_app_r.
Qed.

(** No literal starts, or could start, in [x] of [x ++ y]. *)
Definition quiet {T} (m : LiteralMatcher T) (x y : bytes) : Prop :=
  forall e, e ∈ m -> forall j, (j < length x)%nat -> apart (li_text e) (drop j (x ++ y)).

Lemma quiet_app {T} (m : LiteralMatcher T) x y more : quiet m x y -> quiet m x (y ++ more).
Proof.
  intros Hq e He j Hj. rewrite app_assoc, drop_app_le by (rewrite length_app; lia). by apply apart_app, Hq.
Qed.

Lemma find_skip needle x z :
  (forall j, (j < length x)%nat -> ~ needle `prefix_of` drop j (x ++ z)) ->
  find needle (x ++ z) = (fun i => (length x + i)%nat) <$> find needle z.
Proof.
  intros Hno. destruct (find needle z) as [i|] eqn:E; cbn.
  - apply find_Some in E as [Ho Hmin]. apply find_Some. split; [by apply occurs_shift|]. intros j Hj.
    destruct (Nat.lt_ge_cases j (length x)) as [Hlt|Hge]; [by destruct (Hno j Hlt), Hj|].
    replace j with (length x + (j - length x))%nat in * by lia. apply occurs_shift, Hmin in Hj. lia.
  - apply find_None. intros j Hj. destruct (Nat.lt_ge_cases j (length x)) as [Hlt|Hge]; [by destruct (Hno j Hlt), Hj|].
    replace j with (length x + (j - length x))%nat in * by lia. apply occurs_shift in Hj. by apply (proj1 (find_None _ _) E _ Hj).
Qed.

Lemma earliest_skip {T} (m : LiteralMatcher T) x z :
  quiet m x z -> earliest m (x ++ z) = (fun '(i, v) => ((length x + i)%nat, v)) <$> earliest m z.
Proof.
  intros Hq. assert (Hf : forall e, e ∈ m -> find (li_text e) (x ++ z) = (fun i => (length x + i)%nat) <$> find (li_text e) z).
  { intros e He. apply find_skip. intros j Hj. by apply Hq. }
  pose proof (earliest_spec m z) as Hs. destruct (earliest m z) as [[i v]|]; cbn.
  - destruct Hs as (order & e & (He & Hfe & Hmin) & ->). apply (earliest_is m _ _ order e). split; [done|].
    split; [rewrite Hf, Hfe; [done|by eapply list_elem_of_lookup_2]|]. intros order' e' j He' Hj.
    rewrite Hf in Hj by (by eapply list_elem_of_lookup_2). apply fmap_Some in Hj as (k & Hk & ->).
    specialize (Hmin order' e' k He' Hk). lia.
  - apply earliest_none. intros e He. by rewrite Hf, Hs.
Qed.

(** No literal is inside another, other than at its start. *)
Definition no_inner {T} (m : LiteralMatcher T) : Prop :=
  forall e e' i, e ∈ m -> e' ∈ m -> (0 < i)%nat -> ~ occurs (li_text e) (li_text e') i.

Lemma could_extend_iff {T} (m : LiteralMatcher T) candidate :
  could_extend_match m candidate = true <->
  exists e, e ∈ m /\ (length candidate < length (li_text e))%nat /\ candidate `prefix_of` li_text e.
Proof.
  unfold could_extend_match. rewrite existsb_exists. split.
  - intros (e & He & Hc). apply andb_true_iff in Hc as [Hl Hp]. exists e. rewrite list_elem_of_In.
    split; [done|]. split; [by apply Nat.ltb_lt|by apply starts_with_iff].
  - intros (e & He & Hl & Hp). exists e. rewrite <- list_elem_of_In. split; [done|]. apply andb_true_iff.
    split; [by apply Nat.ltb_lt|by apply starts_with_iff].
Qed.

Definition no_inner_check {T} (m : LiteralMatcher T) : bool :=
  forallb (fun e => forallb (fun e' =>
    forallb (fun i => negb (starts_with (li_text e) (drop i (li_text e')))) (seq 1 (length (li_text e')))) m) m.

Lemma no_inner_check_sound {T} (m : LiteralMatcher T) : no_inner_check m = true -> no_inner m.
Proof.
  unfold no_inner_check. intros Hc e e' i He He' Hi [Hle Hp]. apply list_elem_of_In in He, He'.
  rewrite forallb_forall in Hc. specialize (Hc e He). rewrite forallb_forall in Hc. specialize (Hc e' He').
  rewrite forallb_forall in Hc. specialize (Hc i). rewrite negb_true_iff, starts_with_false in Hc. apply Hc; [|done].
  apply in_seq. lia.
Qed.

(** A literal that starts at [j] and goes past the end of [p] contains what is in
    [p] after [j]. *)
Lemma crossing_contains e e' p more i j :
  occurs e p i -> occurs e' (p ++ more) j -> (j <= i)%nat -> (length p < j + length e')%nat -> occurs e e' (i - j).
Proof.
  intros Ho Ho' Hij Hlong. pose proof (occurs_bound _ _ _ Ho) as Hb. destruct Ho as [Hi [rest Hr]], Ho' as [Hj Hp'].
  rewrite drop_app_le in Hp' by lia. apply prefix_app_cases in Hp' as [Hp'|[tail Ht]].
  { apply prefix_length in Hp'. rewrite length_drop in Hp'. lia. }
  split; [rewrite Ht, length_app, length_drop; lia|]. rewrite Ht.
  rewrite drop_app_le by (rewrite length_drop; lia). rewrite drop_drop.
  replace (j + (i - j))%nat with i by lia. rewrite Hr, <- app_assoc. by apply prefix_app_r.
Qed.

(** What is found first stays first when the text grows, unless a longer literal
    may be under way at its place. *)
Lemma earliest_app {T} (m : LiteralMatcher T) p more i v :
  no_inner m -> earliest m p = Some (i, v) -> could_extend_match m (drop i p) = false ->
  earliest m (p ++ more) = Some (i, v).
Proof.
  intros Hni E Hext. pose proof (earliest_spec m p) as Hs. rewrite E in Hs.
  destruct Hs as (order & e & (He & Hf & Hmin) & ->). apply (earliest_is m _ _ order e).
  split; [done|]. split; [by apply find_app|]. intros order' e' j He' Hj.
  pose proof (list_elem_of_lookup_2 _ _ _ He) as Hin. pose proof (list_elem_of_lookup_2 _ _ _ He') as Hin'.
  destruct (find (li_text e') p) as [j'|] eqn:Ej'.
  { rewrite (find_app _ _ _ _ Ej') in Hj. injection Hj as ->. by apply (Hmin order' e'). }
  pose proof (find_app_new _ _ _ _ Ej' Hj) as Hlong. apply find_Some in Hj as [Hoj _]. apply find_Some in Hf as [Ho _].
  destruct (Nat.lt_trichotomy i j) as [?|[->|Hlt]]; [lia| |].
  - exfalso. apply not_true_iff_false in Hext. apply Hext, could_extend_iff. exists e'. split; [done|].
    destruct Ho as [Hjp _], Hoj as [_ Hp]. rewrite length_drop. split; [lia|]. rewrite drop_app_le in Hp by done.
    apply prefix_app_cases in Hp as [Hp|Hp]; [|done]. apply prefix_length in Hp. rewrite length_drop in Hp. lia.
  - exfalso. apply (Hni e e' (i - j)%nat Hin Hin'); [lia|]. by apply (crossing_contains _ _ p more); [..|lia|].
Qed.

(** Before what is found first, nothing is under way. *)
Lemma quiet_before_earliest {T} (m : LiteralMatcher T) p i v :
  no_inner m -> earliest m p = Some (i, v) -> quiet m (take i p) (drop i p).
Proof.
  intros Hni E e' He' j Hj. rewrite take_drop. pose proof (earliest_spec m p) as Hs. rewrite E in Hs.
  destruct Hs as (order & e & (He & Hf & Hmin) & ->). pose proof (list_elem_of_lookup_2 _ _ _ He) as Hin.
  apply find_Some in Hf as [Ho _]. pose proof (occurs_bound _ _ _ Ho) as Hb. rewrite length_take in Hj.
  assert (Hnot : ~ li_text e' `prefix_of` drop j p).
  { intros Hp. apply list_elem_of_lookup in He' as [order' He']. destruct (find (li_text e') p) as [k|] eqn:Ek.
    - specialize (Hmin _ _ _ He' Ek). apply find_Some in Ek as [_ Hk].
      specialize (Hk j ltac:(split; [lia|done])). lia.
    - apply (proj1 (find_None _ _) Ek j). split; [lia|done]. }
  split; [done|]. intros [tail Ht]. apply (Hni e e' (i - j)%nat Hin He'); [lia|].
  apply (crossing_contains _ _ p tail); [done| |lia|].
  - split; [rewrite length_app; lia|]. rewrite drop_app_le by lia. by rewrite Ht.
  - rewrite Ht, length_app, length_drop. destruct tail; cbn; [|lia]. rewrite app_nil_r in Ht. destruct Hnot. by rewrite Ht.
Qed.

(** * Partial literals at the end of a text *)

(** The end of [text] is the start of [delimiter], and [len] bytes long. *)
Definition partial_end (text delimiter : bytes) (len : nat) : Prop :=
  (len <= length text)%nat /\ (len < length delimiter)%nat /\ drop (length text - len) text `prefix_of` delimiter.

Lemma partial_end_take text delimiter len :
  partial_end text delimiter len <->
  (len <= length text)%nat /\ (len < length delimiter)%nat /\ take len delimiter `suffix_of` text.
Proof.
  unfold partial_end. split; intros (Hl & Hd & Hp); do 2 (split; [done|]).
  - exists (take (length text - len) text). rewrite <- (take_drop (length text - len) text) at 1. f_equal.
    destruct Hp as [rest ->].
    assert (length (drop (length text - len) text) = len) as E by (rewrite length_drop; lia).
    by rewrite take_app_le, take_ge by lia.
  - destruct Hp as [before ->]. rewrite length_app, length_take. replace (_ + _ - len)%nat with (length before) by lia.
    rewrite drop_app_length. exists (drop len delimiter). by rewrite take_drop.
Qed.

Lemma boundary_redundant text delimiter len :
  utf8_valid text = true -> utf8_valid delimiter = true -> (0 < len < length delimiter)%nat ->
  take len delimiter `suffix_of` text -> is_char_boundary delimiter len = true.
Proof.
  intros Ht Hd Hl [before ->]. assert (utf8_valid (take len delimiter) = true) as Hv.
  { apply (utf8_cut before); [done|]. intros x Hx. apply (utf8_head delimiter); [done|].
    destruct delimiter as [|b d]; [by rewrite take_nil in Hx|]. destruct len; [lia|done]. }
  unfold is_char_boundary. rewrite <- (take_drop len delimiter) in Hd. rewrite utf8_valid_app in Hd by done.
  destruct (delimiter !! len) as [b|] eqn:Eb; [|apply lookup_ge_None in Eb; lia].
  rewrite (drop_S _ _ _ Eb) in Hd. rewrite (utf8_head _ b Hd); [|done]. by rewrite orb_true_r.
Qed.

Lemma find_rev_seq (test : nat -> bool) n :
  (forall len, List.find test (rev (seq 1 n)) = Some len ->
     (1 <= len <= n)%nat /\ test len = true /\ forall k, (len < k <= n)%nat -> test k = false)
  /\ (List.find test (rev (seq 1 n)) = None -> forall k, (1 <= k <= n)%nat -> test k = false).
Proof.
  induction n as [|n [IH1 IH2]].
  { split; [done|]. intros _ k Hk. lia. }
  rewrite seq_S, rev_app_distr. cbn [rev app List.find plus]. destruct (test (S n)) eqn:E.
  - split; [|done]. intros len [= <-]. split; [lia|]. split; [done|]. intros k Hk. lia.
  - split.
    + intros len Hlen. destruct (IH1 len Hlen) as (Hl & Ht & Hmax). split; [lia|]. split; [done|]. intros k Hk.
      destruct (decide (k = S n)) as [->|]; [done|]. apply Hmax. lia.
    + intros Hn k Hk. destruct (decide (k = S n)) as [->|]; [done|]. apply IH2; [done|lia].
Qed.

Lemma partial_suffix_spec text delimiter :
  utf8_valid text = true -> utf8_valid delimiter = true -> delimiter <> [] ->
  partial_end text delimiter (partial_suffix_len text delimiter)
  /\ forall len, partial_end text delimiter len -> (len <= partial_suffix_len text delimiter)%nat.
Proof.
  intros Ht Hd Hne. assert (0 < length delimiter)%nat as Hpos by (destruct delimiter; [done|cbn; lia]).
  unfold partial_suffix_len. set (n := Nat.min _ _).
  set (test := fun len => is_char_boundary delimiter len && ends_with (take len delimiter) text).
  assert (Htest : forall len, (1 <= len <= n)%nat -> test len = true <-> partial_end text delimiter len).
  { intros len Hl. unfold test. rewrite andb_true_iff, ends_with_iff, partial_end_take. split.
    - intros [_ Hs]. split; [lia|]. split; [lia|done].
    - intros (_ & _ & Hs). split; [|done]. apply (boundary_redundant text); [done..|lia|done]. }
  destruct (find_rev_seq test n) as [H1 H2]. destruct (List.find test (rev (seq 1 n))) as [len|]; cbn [default].
  - destruct (H1 len eq_refl) as (Hl & Hp & Hmax). split; [by apply Htest|]. intros k Hk.
    destruct (Nat.le_gt_cases k len); [done|]. assert (k <= n)%nat by (destruct Hk as (? & ? & _); lia).
    apply Htest in Hk; [|lia]. rewrite Hmax in Hk by lia. done.
  - split.
    + split; [lia|]. split; [done|]. rewrite Nat.sub_0_r, drop_all. apply prefix_nil.
    + intros k Hk. destruct (decide (k = 0%nat)) as [->|]; [done|].
      assert (k <= n)%nat by (destruct Hk as (? & ? & _); lia). apply Htest in Hk; [|lia]. rewrite H2 in Hk; [done|done|lia].
Qed.

Lemma partial_suffix_is text delimiter len :
  utf8_valid text = true -> utf8_valid delimiter = true -> delimiter <> [] -> partial_end text delimiter len ->
  (forall k, partial_end text delimiter k -> (k <= len)%nat) -> partial_suffix_len text delimiter = len.
Proof.
  intros Ht Hd Hne Hl Hmax. destruct (partial_suffix_spec text delimiter Ht Hd Hne) as [Hp Hmax'].
  specialize (Hmax _ Hp). specialize (Hmax' _ Hl). lia.
Qed.

Lemma partial_end_skip x z delimiter len :
  (len <= length z)%nat -> partial_end (x ++ z) delimiter len <-> partial_end z delimiter len.
Proof.
  intros Hl. unfold partial_end. rewrite length_app.
  replace (length x + length z - len)%nat with (length x + (length z - len))%nat by lia. rewrite drop_app_add.
  split; intros (? & ? & ?); repeat (split; [lia|]); done.
Qed.

Lemma partial_suffix_skip x z delimiter :
  utf8_valid (x ++ z) = true -> utf8_valid z = true -> utf8_valid delimiter = true -> delimiter <> [] ->
  (forall j, (j < length x)%nat -> ~ drop j (x ++ z) `prefix_of` delimiter) ->
  partial_suffix_len (x ++ z) delimiter = partial_suffix_len z delimiter.
Proof.
  intros Hxz Hz Hd Hne Hno. destruct (partial_suffix_spec z delimiter Hz Hd Hne) as [Hp Hmax].
  apply partial_suffix_is; [done..| |].
  - apply partial_end_skip; [apply Hp|done].
  - intros k Hk. destruct (Nat.le_gt_cases k (length z)); [by apply Hmax, (partial_end_skip x)|].
    destruct Hk as (Hl & _ & Hk). rewrite length_app in *. destruct (Hno (length x + length z - k)%nat); [lia|done].
Qed.

(** A text without the delimiter, before what could be its start. *)
Lemma apart_before_partial text delimiter j :
  utf8_valid text = true -> utf8_valid delimiter = true -> delimiter <> [] -> find delimiter text = None ->
  (j < length text - partial_suffix_len text delimiter)%nat -> apart delimiter (drop j text).
Proof.
  intros Ht Hd Hne Hf Hj. destruct (partial_suffix_spec text delimiter Ht Hd Hne) as [_ Hmax].
  assert (Hnot : ~ delimiter `prefix_of` drop j text).
  { intros Hp. apply (proj1 (find_None _ _) Hf j). split; [lia|done]. }
  split; [done|]. intros Hp. pose proof (prefix_length _ _ Hp) as Hl. rewrite length_drop in Hl.
  destruct (decide (length delimiter = length text - j)%nat) as [E|].
  - destruct Hp as [tail Htail]. apply Hnot. assert (tail = []) as ->.
    { apply nil_length_inv. apply (f_equal length) in Htail. rewrite length_app, length_drop in Htail. lia. }
    by rewrite app_nil_r in Htail; rewrite Htail.
  - specialize (Hmax (length text - j)%nat). assert (partial_end text delimiter (length text - j)) as Hpe; [|specialize (Hmax Hpe); lia].
    split; [lia|]. split; [lia|]. by replace (length text - (length text - j))%nat with j by lia.
Qed.

(** The part of a text that is kept is a text. *)
Lemma partial_suffix_utf8 text delimiter :
  utf8_valid text = true -> utf8_valid delimiter = true -> delimiter <> [] ->
  let cut := (length text - partial_suffix_len text delimiter)%nat in
  utf8_valid (take cut text) = true /\ utf8_valid (drop cut text) = true.
Proof.
  intros Ht Hd Hne cut. apply utf8_cut; [by rewrite take_drop|]. intros x Hx.
  destruct (partial_suffix_spec text delimiter Ht Hd Hne) as [(_ & _ & [rest Hr]) _]. fold cut in Hr.
  apply (utf8_head delimiter); [done|]. rewrite Hr. by destruct (drop cut text).
Qed.

(** * Several literals *)

Definition literals_ok {T} (m : LiteralMatcher T) : Prop :=
  forall e, e ∈ m -> li_text e <> [] /\ utf8_valid (li_text e) = true.

Lemma list_max_spec l : (forall n, n ∈ l -> (n <= list_max l)%nat) /\ (list_max l ∈ l \/ list_max l = 0%nat).
Proof.
  induction l as [|n l [IH1 IH2]]; [split; [intros n Hn; by apply not_elem_of_nil in Hn|by right]|].
  change (list_max (n :: l)) with (Nat.max n (list_max l)). split.
  - intros k [->|Hk]%elem_of_cons; [lia|]. specialize (IH1 k Hk). lia.
  - destruct (Nat.max_spec n (list_max l)) as [[? ->]|[? ->]]; [|left; by left].
    destruct IH2 as [?|?]; [left; by right|by right].
Qed.

Lemma retained_skip {T} (m : LiteralMatcher T) x z :
  literals_ok m -> utf8_valid (x ++ z) = true -> utf8_valid z = true -> quiet m x z ->
  retained_suffix_len m (x ++ z) = retained_suffix_len m z.
Proof.
  intros Hm Hxz Hz Hq. unfold retained_suffix_len. f_equal. apply map_ext_in. intros e He%list_elem_of_In.
  destruct (Hm e He). apply partial_suffix_skip; [done..|]. intros j Hj. by apply Hq.
Qed.

Lemma retained_le {T} (m : LiteralMatcher T) text e :
  e ∈ m -> (partial_suffix_len text (li_text e) <= retained_suffix_len m text)%nat.
Proof. intros He. apply list_max_spec, list_elem_of_fmap. by exists e. Qed.

Lemma quiet_before_retained {T} (m : LiteralMatcher T) p :
  literals_ok m -> utf8_valid p = true -> earliest m p = None ->
  let cut := (length p - retained_suffix_len m p)%nat in quiet m (take cut p) (drop cut p).
Proof.
  intros Hm Hp E cut e He j Hj. rewrite take_drop. rewrite length_take in Hj. destruct (Hm e He) as [Hne Hv].
  pose proof (proj1 (earliest_none m p) E e He) as Hf. pose proof (retained_le m p e He).
  apply apart_before_partial; [done..|]. unfold cut in Hj. lia.
Qed.

Lemma retained_utf8 {T} (m : LiteralMatcher T) p :
  literals_ok m -> utf8_valid p = true ->
  let cut := (length p - retained_suffix_len m p)%nat in
  utf8_valid (take cut p) = true /\ utf8_valid (drop cut p) = true.
Proof.
  intros Hm Hp cut. unfold cut, retained_suffix_len.
  destruct (proj2 (list_max_spec (map (fun e => partial_suffix_len p (li_text e)) m))) as [Hin| ->].
  - apply list_elem_of_fmap in Hin as (e & -> & He). destruct (Hm e He). by apply partial_suffix_utf8.
  - by rewrite Nat.sub_0_r, take_ge, drop_ge by lia.
Qed.
