(* ===== verification/Streams.v ===== *)
(** What a stage promises to those who feed it: the pieces in which a text comes
    do not matter.  [StreamLaws] is that interface; the adapter for bytes is
    proved against it, and the stages implement it. *)

From S2P Require Import Prelude Disk Text TextFacts Projectors.

Open Scope Z_scope.

(** * Pieces of a text *)

(** The pieces one after the other. *)
Fixpoint project_all {P E} `{TextProjector P E} (pieces : list bytes) (p : P) : P * TextProjection E :=
  match pieces with
  | [] => (p, nothing)
  | piece :: pieces =>
      let (p, out) := project piece p in
      let (p, rest) := project_all pieces p in
      (p, merge out rest)
  end.

(** All pieces, then the end of the text. *)
Definition collect {P E} `{TextProjector P E} (pieces : list bytes) (p : P) : TextProjection E :=
  let (p, out) := project_all pieces p in merge out (snd (close p)).

Definition texts (pieces : list bytes) : Prop := Forall (fun piece => utf8_valid piece = true) pieces.

Lemma texts_concat pieces : texts pieces -> utf8_valid (concat pieces) = true.
Proof. induction 1 as [|piece pieces Hp _ IH]; [done|]. cbn. by apply utf8_valid_both. Qed.

(** * The interface *)

(** [same] is when two outputs show and mean the same, however they are cut. *)
Class StreamLaws (P E : Type) `{TextProjector P E} := {
  stream_ok : P -> Prop;
  same : relation (TextProjection E);
  same_equivalence :: Equivalence same;
  same_merge :: Proper (same ==> same ==> same) merge;
  project_keeps input p : stream_ok p -> utf8_valid input = true -> stream_ok (fst (project input p));
  project_nothing p : stream_ok p -> project [] p = (p, nothing);
  project_two a b p :
    stream_ok p -> utf8_valid a = true -> utf8_valid b = true ->
    let (p1, out1) := project a p in
    let (p2, out2) := project b p1 in
    fst (project (a ++ b) p) = p2 /\ same (snd (project (a ++ b) p)) (merge out1 out2);
  close_again p : stream_ok p -> snd (close (fst (close p))) = nothing
}.

Section Laws.
Context {P E : Type} `{StreamLaws P E}.

Lemma merge_nothing (out : TextProjection E) : merge out nothing = out.
Proof. destruct out. unfold merge. cbn. by rewrite !app_nil_r. Qed.

Lemma nothing_merge (out : TextProjection E) : merge nothing out = out.
Proof. by destruct out. Qed.

Lemma merge_assoc (a b c : TextProjection E) : merge a (merge b c) = merge (merge a b) c.
Proof. unfold merge. cbn. by rewrite !app_assoc. Qed.

(** Pieces are projected like the text they make. *)
Lemma project_all_whole pieces p :
  stream_ok p -> texts pieces ->
  fst (project_all pieces p) = fst (project (concat pieces) p)
  /\ same (snd (project_all pieces p)) (snd (project (concat pieces) p)).
Proof.
  intros Hp Hs. revert p Hp. induction Hs as [|piece pieces Hv Hs IH]; intros p Hp; cbn [project_all concat].
  { rewrite project_nothing by done. split; [done|reflexivity]. }
  pose proof (project_keeps piece p Hp Hv) as Hk. pose proof (project_two piece (concat pieces) p Hp Hv (texts_concat _ Hs)) as Htwo.
  destruct (project piece p) as [p1 out1]. cbn [fst] in Hk. destruct (IH p1 Hk) as [E1 E2].
  destruct (project_all pieces p1) as [p2 out2]. destruct (project (concat pieces) p1) as [p2' out2']. cbn [fst snd] in *.
  destruct Htwo as [Ef Es]. split; [congruence|]. by rewrite Es, E2.
Qed.

Lemma collect_whole pieces p :
  stream_ok p -> texts pieces -> same (collect pieces p) (collect [concat pieces] p).
Proof.
  intros Hp Hs. destruct (project_all_whole pieces p Hp Hs) as [Ef Es]. unfold collect. cbn [project_all].
  destruct (project_all pieces p) as [p1 out1], (project (concat pieces) p) as [p2 out2]. cbn [fst snd] in *. subst p2.
  by rewrite merge_nothing, Es.
Qed.

(** * The adapter for bytes *)

(** What is pending is the beginning of a character, or nothing. *)
Definition adapter_ok (self : Utf8ProjectionAdapter P) : Prop :=
  stream_ok (ad_inner self) /\ (ad_pending_utf8 self = [] \/ incomplete_char (ad_pending_utf8 self)).

Inductive classified (l : bytes) : Utf8Status -> Prop :=
  | classified_complete : utf8_valid l = true -> classified l (Complete l)
  | classified_prefix good bad :
      l = good ++ bad -> utf8_valid good = true -> incomplete_char bad -> classified l (Prefix good)
  | classified_invalid good bad n :
      l = good ++ bad -> utf8_valid good = true -> (n <= 3)%nat -> never_text bad ->
      classified l (Invalid (length good) n).

Lemma classify_utf8_spec l : classified l (classify_utf8 l).
Proof.
  unfold classify_utf8. pose proof (from_utf8_inv l _ eq_refl) as Hf. destruct (from_utf8 l) as [t|e].
  - destruct Hf as [-> Hv]. by constructor.
  - destruct Hf as (good & bad & -> & Hg & Hv & He). rewrite Hv. cbn [plus]. destruct (error_len e) as [n|].
    + destruct He. by eapply classified_invalid.
    + rewrite take_app_length, from_utf8_Ok by done. by eapply classified_prefix.
Qed.

Lemma incomplete_nonempty bad : incomplete_char bad -> bad <> [].
Proof. by intros [Hf _] ->. Qed.

(** The adapter's pieces: each chunk passes on the characters it completes. *)
Lemma push_bytes_spec chunk self :
  adapter_ok self ->
  (exists good bad, ad_pending_utf8 self ++ chunk = good ++ bad /\ utf8_valid good = true
     /\ (bad = [] \/ incomplete_char bad)
     /\ push_bytes chunk self
        = ({| ad_inner := fst (project good (ad_inner self)); ad_pending_utf8 := bad |},
           Ok (snd (project good (ad_inner self)))))
  \/ (exists good bad n, ad_pending_utf8 self ++ chunk = good ++ bad /\ utf8_valid good = true /\ never_text bad
     /\ (n <= 3)%nat /\ push_bytes chunk self = (self, Err (InvalidUtf8 (length good) n))).
Proof.
  intros [Hin _]. unfold push_bytes. destruct (classify_utf8_spec (ad_pending_utf8 self ++ chunk)) as [Hv|good bad El Hg Hb|good bad n El Hg Hn Hb].
  - left. exists (ad_pending_utf8 self ++ chunk), []. rewrite app_nil_r. split; [done|]. split; [done|]. split; [by left|].
    by destruct (project (ad_pending_utf8 self ++ chunk) (ad_inner self)).
  - left. exists good, bad. split; [done|]. split; [done|]. split; [by right|]. destruct (Nat.eqb_spec (length good) 0) as [E0|E0].
    + apply nil_length_inv in E0 as ->. rewrite project_nothing by done. by rewrite El.
    + destruct (project good (ad_inner self)). by rewrite El, drop_app_length.
  - right. exists good, bad, n. do 4 (split; [done|]). rewrite take_app_length. by destruct self.
Qed.

Lemma push_bytes_ok chunk self : adapter_ok self -> adapter_ok (fst (push_bytes chunk self)).
Proof.
  intros Hok. destruct (push_bytes_spec chunk self Hok) as [(good & bad & _ & Hg & Hb & ->)|(good & bad & n & _ & _ & _ & _ & ->)]; [|done].
  split; [|done]. apply project_keeps; [apply Hok|done].
Qed.

(** Chunks one after the other; the first error stops. *)
Fixpoint push_all (chunks : list bytes) (self : Utf8ProjectionAdapter P)
    : Utf8ProjectionAdapter P * result Utf8ProjectionError (TextProjection E) :=
  match chunks with
  | [] => (self, Ok nothing)
  | chunk :: chunks =>
      let (self, r) := push_bytes chunk self in
      match r with
      | Ok out =>
          let (self, r) := push_all chunks self in
          (self, rest ← r; Ok (merge out rest))
      | Err e => (self, Err e)
      end
  end.

(** Chunks of the bytes of a text are all accepted, and passed on as pieces of it. *)
Lemma push_all_pieces chunks self after :
  adapter_ok self -> utf8_valid (ad_pending_utf8 self ++ concat chunks ++ after) = true ->
  exists pieces bad, ad_pending_utf8 self ++ concat chunks = concat pieces ++ bad /\ texts pieces
    /\ (bad = [] \/ incomplete_char bad)
    /\ push_all chunks self = ({| ad_inner := fst (project_all pieces (ad_inner self)); ad_pending_utf8 := bad |},
                               Ok (snd (project_all pieces (ad_inner self)))).
Proof.
  revert self. induction chunks as [|chunk chunks IH]; intros self Hok Hv; cbn [concat push_all] in *.
  { exists [], (ad_pending_utf8 self). rewrite app_nil_r. split; [done|]. split; [constructor|]. split; [apply Hok|].
    by destruct self. }
  pose proof (push_bytes_ok chunk self Hok) as Hok'.
  destruct (push_bytes_spec chunk self Hok) as [(good & bad & El & Hg & Hb & Epush)|(good & bad & n & El & Hg & Hn & _)].
  2: { rewrite <- app_assoc, app_assoc, El, <- app_assoc, utf8_valid_app in Hv by done. by rewrite Hn in Hv. }
  rewrite Epush in *. cbn [fst] in Hok'. rewrite <- app_assoc, app_assoc, El, <- app_assoc, utf8_valid_app in Hv by done.
  destruct (IH _ Hok' Hv) as (pieces & rest & Er & Hs & Hr & E'). rewrite E'. cbn [ad_pending_utf8 ad_inner] in *.
  exists (good :: pieces), rest. cbn [concat project_all]. rewrite app_assoc, El, <- !app_assoc. split; [by rewrite Er|].
  split; [by constructor|]. split; [done|]. destruct (project good (ad_inner self)) as [p1 out1]. cbn [fst snd].
  by destruct (project_all pieces p1).
Qed.

Lemma adapter_close_clean p :
  adapter_close {| ad_inner := p; ad_pending_utf8 := [] |}
  = ({| ad_inner := fst (close p); ad_pending_utf8 := [] |}, Ok (snd (close p))).
Proof. unfold adapter_close. cbn. destruct (close p) as [p' out]. by rewrite nothing_merge. Qed.

Lemma adapter_close_incomplete p bad :
  incomplete_char bad ->
  adapter_close {| ad_inner := p; ad_pending_utf8 := bad |}
  = ({| ad_inner := p; ad_pending_utf8 := bad |}, Err IncompleteUtf8AtEof).
Proof.
  intros Hb. unfold adapter_close. cbn [ad_pending_utf8 ad_inner].
  destruct (Nat.eqb_spec (length bad) 0) as [E0|_]; [by apply nil_length_inv in E0 as ->; destruct Hb|].
  destruct Hb as [Hf [more Hm]]. destruct (classify_utf8_spec bad) as [Hv|good rest El Hg Hr|good rest n El Hg _ Hr]; [congruence|done|].
  rewrite El, <- app_assoc, utf8_valid_app in Hm by done. by rewrite Hr in Hm.
Qed.

End Laws.

(** What a text leaves pending is nothing. *)
Lemma rest_of_text text pieces bad :
  text = concat pieces ++ bad -> texts pieces -> utf8_valid text = true -> bad = [] \/ incomplete_char bad -> bad = [].
Proof.
  intros -> Hs Hv [->|[Hf _]]; [done|]. rewrite utf8_valid_app in Hv by by apply texts_concat. congruence.
Qed.
