(* ===== verification/HiddenFacts.v ===== *)
(** Hidden tags: the loop of [project] ends, keeps its texts well formed, and does
    the same whatever pieces the text comes in (lemmas on Projectors). *)

From S2P Require Import Prelude Disk Text TextFacts Projectors MatcherFacts Streams.

Open Scope Z_scope.

Section Hidden.
Context {T : Type}.
Implicit Types (self : HiddenTagProjector T) (out : TextProjection (ExtractedInlineTag T)).

(** * The invariant *)

Definition delimiter_ok (d : bytes) : Prop := d <> [] /\ utf8_valid d = true.

Definition specs_ok (specs : list (InlineTagSpec T)) : Prop :=
  Forall (fun spec => delimiter_ok (sp_open spec) /\ delimiter_ok (sp_close spec)) specs.

Definition openers_of (specs : list (InlineTagSpec T)) : LiteralMatcher nat :=
  matcher_new (imap (fun index spec => (sp_open spec, index)) specs).

Definition mode_ok (mode : ParseMode T) : Prop :=
  match mode with
  | Visible => True
  | Hidden active => delimiter_ok (at_close active) /\ utf8_valid (at_content active) = true
  end.

Record hidden_ok self : Prop := {
  ho_specs : specs_ok (ht_specs self);
  ho_openers : ht_openers self = openers_of (ht_specs self);
  ho_pending : utf8_valid (ht_pending self) = true;
  ho_mode : mode_ok (ht_mode self)
}.

(** What is shown and extracted are texts. *)
Definition texts_ok out : Prop :=
  utf8_valid (renderable out) = true /\ Forall (fun event => utf8_valid (ex_content event) = true) (events out).

Lemma openers_lookup specs i :
  openers_of specs !! i = (fun spec => {| li_text := sp_open spec; li_value := i |}) <$> specs !! i.
Proof.
  unfold openers_of, matcher_new. rewrite list_lookup_fmap, list_lookup_imap. by destruct (specs !! i).
Qed.

Lemma openers_elem specs e : e ∈ openers_of specs -> exists spec, specs !! li_value e = Some spec /\ li_text e = sp_open spec.
Proof.
  intros [i Hi]%list_elem_of_lookup. rewrite openers_lookup in Hi. apply fmap_Some in Hi as (spec & Hs & ->). by exists spec.
Qed.

Lemma openers_literals_ok specs : specs_ok specs -> literals_ok (openers_of specs).
Proof.
  intros Hs e (spec & Hspec & ->)%openers_elem. unfold specs_ok in Hs. rewrite Forall_lookup in Hs.
  apply (Hs _ _ Hspec).
Qed.

(** The tag that [earliest] names is there. *)
Lemma earliest_opener specs text i v :
  earliest (openers_of specs) text = Some (i, v) ->
  exists spec, specs !! v = Some spec /\ find (sp_open spec) text = Some i.
Proof.
  intros E. pose proof (earliest_spec (openers_of specs) text) as Hs. rewrite E in Hs.
  destruct Hs as (order & e & (He & Hf & _) & ->). apply list_elem_of_lookup_2, openers_elem in He as (spec & Hspec & Et).
  exists spec. by rewrite <- Et.
Qed.

(** * Accumulated output *)

Lemma push_renderable_merge before text out :
  push_renderable text (merge before out) = merge before (push_renderable text out).
Proof. unfold push_renderable, merge. cbn. by rewrite app_assoc. Qed.

Lemma push_event_merge before event out : push_event event (merge before out) = merge before (push_event event out).
Proof. unfold push_event, merge. cbn. by rewrite app_assoc. Qed.

Lemma consume_from before self out :
  consume_hidden self (merge before out) =
  let '(consumed, self', out') := consume_hidden self out in (consumed, self', merge before out').
Proof.
  unfold consume_hidden. destruct (ht_mode self) as [|active]; [done|].
  destruct (find (at_close active) (ht_pending self)); [by rewrite push_event_merge|].
  by destruct (0 <? _)%nat.
Qed.

Lemma loop_from turns before self out :
  project_loop turns self (merge before out) =
  (fun '(self', out') => (self', merge before out')) <$> project_loop turns self out.
Proof.
  revert self out. induction turns as [|turns IH]; intros self out; [done|]. cbn [project_loop].
  destruct (ht_mode self) as [|active].
  - destruct (earliest (ht_openers self) (ht_pending self)) as [[open_at index]|].
    + unfold drain_visible. rewrite push_renderable_merge.
      destruct (could_extend_match _ _); [done|]. cbn. destruct (ht_specs self !! index); [|done]. apply IH.
    + unfold drain_visible. by rewrite push_renderable_merge.
  - rewrite consume_from. destruct (consume_hidden self out) as [[[] self'] out']; [apply IH|done].
Qed.

Lemma loop_start turns self out :
  project_loop turns self out = (fun '(self', out') => (self', merge out out')) <$> project_loop turns self nothing.
Proof. rewrite <- loop_from. by rewrite merge_nothing. Qed.

Lemma loop_more turns more self out r :
  project_loop turns self out = Some r -> project_loop (turns + more) self out = Some r.
Proof.
  revert self out. induction turns as [|turns IH]; intros self out; [done|]. cbn [project_loop plus].
  destruct (ht_mode self) as [|active].
  - destruct (earliest (ht_openers self) (ht_pending self)) as [[open_at index]|]; [|done].
    unfold drain_visible. destruct (could_extend_match _ _); [done|]. cbn. destruct (ht_specs self !! index); [|done]. apply IH.
  - destruct (consume_hidden self out) as [[[] self'] out']; [apply IH|done].
Qed.

Lemma loop_same turns turns' self out r r' :
  project_loop turns self out = Some r -> project_loop turns' self out = Some r' -> r = r'.
Proof.
  intros E E'. destruct (Nat.le_ge_cases turns turns') as [Hle|Hle].
  - apply (loop_more _ (turns' - turns)) in E. replace (turns + (turns' - turns))%nat with turns' in E by lia. congruence.
  - apply (loop_more _ (turns - turns')) in E'. replace (turns' + (turns - turns'))%nat with turns in E' by lia. congruence.
Qed.

(** * The loop ends *)

(** What a turn leaves of the content and of what is pending, when the tag is not
    closed in it. *)
Lemma consume_open self active out :
  ht_mode self = Hidden active -> find (at_close active) (ht_pending self) = None ->
  let cut := (length (ht_pending self) - partial_suffix_len (ht_pending self) (at_close active))%nat in
  consume_hidden self out =
    (false, with_pending (drop cut (ht_pending self))
              (with_mode (Hidden {| at_tag := at_tag active; at_close := at_close active;
                                    at_content := at_content active ++ take cut (ht_pending self) |}) self), out).
Proof.
  intros Em Ef cut. unfold consume_hidden. rewrite Em, Ef. fold cut. destruct (Nat.ltb_spec 0 cut); [done|].
  assert (cut = 0%nat) as -> by lia. cbn [take drop]. rewrite app_nil_r. destruct self, active. cbn in *. by subst.
Qed.

Lemma hidden_ok_with self pending mode :
  hidden_ok self -> utf8_valid pending = true -> mode_ok mode -> hidden_ok (with_pending pending (with_mode mode self)).
Proof. intros [Hs Ho Hp Hm] Hp' Hm'. by constructor. Qed.

Lemma hidden_ok_pending self pending : hidden_ok self -> utf8_valid pending = true -> hidden_ok (with_pending pending self).
Proof. intros [Hs Ho Hp Hm] Hp'. by constructor. Qed.

Lemma texts_ok_renderable text out : utf8_valid text = true -> texts_ok out -> texts_ok (push_renderable text out).
Proof. intros Ht [Hr He]. split; [by apply utf8_valid_both|done]. Qed.

Lemma texts_ok_event event out : utf8_valid (ex_content event) = true -> texts_ok out -> texts_ok (push_event event out).
Proof. intros Ht [Hr He]. split; [done|]. apply Forall_app. split; [done|by repeat constructor]. Qed.

Lemma consume_ok self active out :
  hidden_ok self -> texts_ok out -> ht_mode self = Hidden active ->
  let '(consumed, self', out') := consume_hidden self out in
  hidden_ok self' /\ texts_ok out' /\ ht_openers self' = ht_openers self /\ ht_specs self' = ht_specs self
  /\ (consumed = true -> (length (ht_pending self') < length (ht_pending self))%nat).
Proof.
  intros Hok Ht Em. pose proof (ho_mode _ Hok) as Hm. rewrite Em in Hm. destruct Hm as [[Hne Hc] Hcontent].
  destruct (find (at_close active) (ht_pending self)) as [at_|] eqn:Ef.
  - unfold consume_hidden. rewrite Em, Ef. destruct (find_utf8 _ _ _ (ho_pending _ Hok) Hc Hne Ef) as (H1 & H2 & H3).
    split; [by apply hidden_ok_with|]. split; [apply texts_ok_event; [by apply utf8_valid_both|done]|].
    do 2 (split; [done|]). intros _. apply find_Some in Ef as [Ho _]. apply occurs_bound in Ho. cbn. rewrite length_drop.
    destruct (at_close active); [done|]. cbn in *. lia.
  - rewrite (consume_open self active) by done.
    destruct (partial_suffix_utf8 _ _ (ho_pending _ Hok) Hc Hne) as [H1 H2].
    split; [apply hidden_ok_with; [done..|]; split; [done|by apply utf8_valid_both]|]. done.
Qed.

(** The state after the opener of [spec] at [open_at]. *)
Definition opened (spec : InlineTagSpec T) (open_at : nat) self : HiddenTagProjector T :=
  with_mode (Hidden {| at_tag := sp_tag spec; at_close := sp_close spec; at_content := [] |})
    (with_pending (drop (open_at + length (sp_open spec)) (ht_pending self)) self).

Lemma open_turn turns self out open_at index spec :
  ht_mode self = Visible -> earliest (ht_openers self) (ht_pending self) = Some (open_at, index) ->
  ht_specs self !! index = Some spec -> could_extend_match (ht_openers self) (drop open_at (ht_pending self)) = false ->
  project_loop (S turns) self out
  = project_loop turns (opened spec open_at self) (push_renderable (take open_at (ht_pending self)) out).
Proof.
  intros Em Ee Hspec Ext. cbn [project_loop]. rewrite Em, Ee. unfold drain_visible. rewrite Ext. cbn.
  rewrite Hspec. cbn. by rewrite drop_drop.
Qed.

Lemma opened_ok spec open_at index self :
  hidden_ok self -> earliest (ht_openers self) (ht_pending self) = Some (open_at, index) ->
  ht_specs self !! index = Some spec ->
  hidden_ok (opened spec open_at self) /\ utf8_valid (take open_at (ht_pending self)) = true
  /\ utf8_valid (drop open_at (ht_pending self)) = true
  /\ (open_at + length (sp_open spec) <= length (ht_pending self))%nat /\ (0 < length (sp_open spec))%nat.
Proof.
  intros Hok Ee Hspec. rewrite (ho_openers _ Hok) in Ee. destruct (earliest_opener _ _ _ _ Ee) as (spec' & Hspec' & Ef).
  assert (spec' = spec) as -> by congruence. pose proof (ho_specs _ Hok) as Hs. unfold specs_ok in Hs. rewrite Forall_lookup in Hs.
  destruct (Hs _ _ Hspec) as [[Hne Ho] Hc]. destruct (find_utf8 _ _ _ (ho_pending _ Hok) Ho Hne Ef) as (H1 & H2 & H3).
  apply find_Some in Ef as [Hoc _]. apply occurs_bound in Hoc.
  split; [split; [apply Hok|apply Hok|done|by split]|]. do 3 (split; [done|]). destruct (sp_open spec); [done|cbn; lia].
Qed.

(** The tag that was found is there. *)
Lemma opener_there self open_at index :
  hidden_ok self -> earliest (ht_openers self) (ht_pending self) = Some (open_at, index) ->
  exists spec, ht_specs self !! index = Some spec.
Proof.
  intros Hok Ee. rewrite (ho_openers _ Hok) in Ee. destruct (earliest_opener _ _ _ _ Ee) as (spec & Hspec & _). by exists spec.
Qed.

Lemma loop_ends turns self out :
  hidden_ok self -> texts_ok out -> (length (ht_pending self) < turns)%nat ->
  exists self' out', project_loop turns self out = Some (self', out')
    /\ hidden_ok self' /\ texts_ok out' /\ ht_specs self' = ht_specs self.
Proof.
  revert self out. induction turns as [|turns IH]; intros self out Hok Ht Hl; [lia|].
  destruct (ht_mode self) as [|active] eqn:Em.
  - destruct (earliest (ht_openers self) (ht_pending self)) as [[open_at index]|] eqn:Ee.
    + destruct (opener_there _ _ _ Hok Ee) as [spec Hspec].
      destruct (opened_ok _ _ _ _ Hok Ee Hspec) as (Hok' & H1 & H2 & Hb & Hpos).
      destruct (could_extend_match (ht_openers self) (drop open_at (ht_pending self))) eqn:Ext.
      * cbn [project_loop]. rewrite Em, Ee, Ext. unfold drain_visible. do 2 eexists. split; [done|].
        split; [by apply hidden_ok_pending|]. split; [by apply texts_ok_renderable|done].
      * rewrite (open_turn _ _ _ _ _ _ Em Ee Hspec Ext). refine (IH _ _ Hok' (texts_ok_renderable _ _ H1 Ht) _).
        cbn. rewrite length_drop. lia.
    + pose proof (openers_literals_ok _ (ho_specs _ Hok)) as Hlit. rewrite <- (ho_openers _ Hok) in Hlit.
      destruct (retained_utf8 _ _ Hlit (ho_pending _ Hok)) as [H1 H2]. cbn [project_loop]. rewrite Em, Ee.
      do 2 eexists. split; [done|]. split; [by apply hidden_ok_pending|]. split; [by apply texts_ok_renderable|done].
  - cbn [project_loop]. rewrite Em. pose proof (consume_ok self active out Hok Ht Em) as Hc.
    destruct (consume_hidden self out) as [[[] self'] out'].
    + destruct Hc as (Hok' & Ht' & _ & Es & Hlt). specialize (Hlt eq_refl).
      destruct (IH self' out' Hok' Ht' ltac:(lia)) as (self2 & out2 & Er & Hok2 & Ht2 & Es2).
      exists self2, out2. by rewrite Er, Es2.
    + destruct Hc as (Hok' & Ht' & _ & Es & _). by exists self', out'.
Qed.

Lemma nothing_texts_ok : texts_ok nothing.
Proof. split; [done|constructor]. Qed.

(** ** [project] is a finished run of its loop *)

Definition extend (more : bytes) self : HiddenTagProjector T := with_pending (ht_pending self ++ more) self.

Lemma extend_ok more self : hidden_ok self -> utf8_valid more = true -> hidden_ok (extend more self).
Proof. intros Hok Hm. apply hidden_ok_pending; [done|]. apply utf8_valid_both; [apply Hok|done]. Qed.

Lemma project_runs input self :
  hidden_ok self -> utf8_valid input = true ->
  exists turns, project_loop turns (extend input self) nothing = Some (hidden_project input self).
Proof.
  intros Hok Hi. exists (S (length (ht_pending (extend input self)))).
  destruct (loop_ends (S (length (ht_pending (extend input self)))) (extend input self) nothing) as (self' & out' & E & _);
    [by apply extend_ok|apply nothing_texts_ok|lia|]. unfold hidden_project, extend in *. cbn [ht_pending with_pending] in *.
  by rewrite E.
Qed.

Lemma project_is turns input self r :
  hidden_ok self -> utf8_valid input = true ->
  project_loop turns (extend input self) nothing = Some r -> hidden_project input self = r.
Proof. intros Hok Hi E. destruct (project_runs input self Hok Hi) as [turns' E']. by eapply loop_same. Qed.

Lemma project_ok input self :
  hidden_ok self -> utf8_valid input = true ->
  let (self', out) := hidden_project input self in
  hidden_ok self' /\ texts_ok out /\ ht_specs self' = ht_specs self.
Proof.
  intros Hok Hi.
  destruct (loop_ends (S (length (ht_pending (extend input self)))) (extend input self) nothing)
    as (self' & out' & E & Hok' & Ht' & Es); [by apply extend_ok|apply nothing_texts_ok|lia|].
  by rewrite (project_is _ _ _ _ Hok Hi E).
Qed.

(** * Pieces *)

(** The tags of [self] are told apart: no opener is inside another. *)
Definition apart_openers (specs : list (InlineTagSpec T)) : Prop := no_inner (openers_of specs).

(** A turn on a text whose beginning neither is nor could be a delimiter shows,
    or keeps as content, that beginning. *)
Lemma visible_skip turns self x z out :
  hidden_ok self -> ht_mode self = Visible -> utf8_valid (x ++ z) = true -> utf8_valid z = true ->
  quiet (ht_openers self) x z ->
  project_loop (S turns) (with_pending (x ++ z) self) out
  = project_loop (S turns) (with_pending z self) (push_renderable x out).
Proof.
  intros Hok Em Hxz Hz Hq. pose proof (openers_literals_ok _ (ho_specs _ Hok)) as Hlit. rewrite <- (ho_openers _ Hok) in Hlit.
  cbn [project_loop ht_mode ht_openers ht_pending ht_specs with_pending]. rewrite Em, earliest_skip by done.
  destruct (earliest (ht_openers self) z) as [[open_at index]|]; cbn [fmap option_fmap option_map].
  - unfold drain_visible. cbn [ht_pending with_pending]. rewrite drop_app_add, take_app_add.
    unfold push_renderable, with_pending. cbn. rewrite <- !app_assoc. done.
  - rewrite retained_skip by done. unfold drain_visible. cbn [ht_pending with_pending].
    destruct (Nat.le_gt_cases (retained_suffix_len (ht_openers self) z) (length z)) as [Hle|Hgt].
    + rewrite length_app. replace (length x + length z - _)%nat with (length x + (length z - retained_suffix_len (ht_openers self) z))%nat by lia.
      rewrite drop_app_add, take_app_add. unfold push_renderable, with_pending. cbn. by rewrite <- app_assoc.
    + exfalso. destruct (proj2 (list_max_spec (map (fun e => partial_suffix_len z (li_text e)) (ht_openers self)))) as [Hin|E0].
      * apply list_elem_of_fmap in Hin as (e & Ee & He). destruct (Hlit e He).
        destruct (partial_suffix_spec z (li_text e)) as [(Hl & _) _]; [done..|]. unfold retained_suffix_len in Hgt. lia.
      * unfold retained_suffix_len in Hgt. lia.
Qed.

Lemma hidden_skip self active x z out :
  delimiter_ok (at_close active) -> utf8_valid (x ++ z) = true -> utf8_valid z = true ->
  (forall j, (j < length x)%nat -> apart (at_close active) (drop j (x ++ z))) ->
  consume_hidden (with_pending (x ++ z) (with_mode (Hidden active) self)) out
  = consume_hidden (with_pending z (with_mode (Hidden {| at_tag := at_tag active; at_close := at_close active;
                                                         at_content := at_content active ++ x |}) self)) out.
Proof.
  intros [Hne Hc] Hxz Hz Hq. assert (Hf : find (at_close active) (x ++ z) = (fun i => (length x + i)%nat) <$> find (at_close active) z).
  { apply find_skip. intros j Hj. by apply Hq. }
  destruct (find (at_close active) z) as [i|] eqn:Ei; cbn [fmap option_fmap option_map] in Hf.
  - unfold consume_hidden. cbn [ht_mode with_pending with_mode ht_pending at_close]. rewrite Hf, Ei.
    rewrite <- Nat.add_assoc, drop_app_add, take_app_add. cbn. by rewrite <- app_assoc.
  - rewrite (consume_open _ active) by done.
    rewrite (consume_open _ {| at_tag := at_tag active; at_close := at_close active; at_content := at_content active ++ x |}) by done.
    cbn [ht_pending with_pending with_mode at_close at_tag at_content].
    assert (Hp : partial_suffix_len (x ++ z) (at_close active) = partial_suffix_len z (at_close active)).
    { apply partial_suffix_skip; [done..|]. intros j Hj. by apply Hq. }
    rewrite Hp, length_app. destruct (partial_suffix_spec z (at_close active) Hz Hc Hne) as [(Hl & _) _].
    replace (length x + length z - _)%nat with (length x + (length z - partial_suffix_len z (at_close active)))%nat by lia.
    rewrite drop_app_add, take_app_add. unfold with_pending, with_mode. cbn. by rewrite <- app_assoc.
Qed.

(** What a turn that ends the loop leaves continues like the text it had. *)
Lemma stop_continues turns self active out more :
  hidden_ok self -> utf8_valid more = true -> ht_mode self = Hidden active ->
  find (at_close active) (ht_pending self) = None ->
  let '(_, self', out') := consume_hidden self out in
  project_loop (S turns) (extend more self) out' = project_loop (S turns) (extend more self') out'.
Proof.
  intros Hok Hm Em Ef. rewrite (consume_open self active) by done.
  pose proof (ho_mode _ Hok) as Hmode. rewrite Em in Hmode. destruct Hmode as [Hd _].
  destruct (partial_suffix_utf8 _ _ (ho_pending _ Hok) (proj2 Hd) (proj1 Hd)) as [H1 H2].
  set (cut := (length (ht_pending self) - _)%nat) in *.
  assert (self = with_mode (Hidden active) self) as Eself by (destruct self; cbn in *; by subst).
  assert (consume_hidden (extend more self) out
          = consume_hidden (with_pending (take cut (ht_pending self) ++ drop cut (ht_pending self) ++ more)
                              (with_mode (Hidden active) self)) out) as E.
  { rewrite app_assoc, take_drop. unfold extend. by rewrite <- Eself. }
  rewrite hidden_skip in E; [|done|by repeat apply utf8_valid_both|by apply utf8_valid_both|].
  - cbn [project_loop]. change (ht_mode (extend more self)) with (ht_mode self). rewrite Em, E. done.
  - intros j Hj. rewrite length_take in Hj. rewrite app_assoc, take_drop, drop_app_le by lia. apply apart_app.
    apply apart_before_partial; [apply Hok|apply Hd|apply Hd|done|]. lia.
Qed.

Lemma wait_continues turns self out more x y :
  hidden_ok self -> utf8_valid more = true -> ht_mode self = Visible -> ht_pending self = x ++ y ->
  utf8_valid x = true -> utf8_valid y = true -> quiet (ht_openers self) x y ->
  project_loop (S turns) (extend more self) out
  = project_loop (S turns) (extend more (with_pending y self)) (push_renderable x out).
Proof.
  intros Hok Hm Em Ep Hx Hy Hq. unfold extend. rewrite Ep, <- app_assoc. cbn [ht_pending with_pending].
  rewrite (visible_skip turns self x (y ++ more)); [done|done|done|by repeat apply utf8_valid_both|by apply utf8_valid_both|].
  by apply quiet_app.
Qed.

Lemma extends_shorter {A} (m : LiteralMatcher A) candidate more :
  could_extend_match m candidate = false -> could_extend_match m (candidate ++ more) = false.
Proof.
  rewrite <- !not_true_iff_false, !could_extend_iff. intros Hno (e & He & Hl & Hp). apply Hno. exists e.
  rewrite length_app in Hl. split; [done|]. split; [lia|]. etrans; [|exact Hp]. by apply prefix_app_r.
Qed.

Lemma open_turn_app turns self out open_at index spec more :
  hidden_ok self -> apart_openers (ht_specs self) -> ht_mode self = Visible ->
  earliest (ht_openers self) (ht_pending self) = Some (open_at, index) -> ht_specs self !! index = Some spec ->
  could_extend_match (ht_openers self) (drop open_at (ht_pending self)) = false ->
  project_loop (S turns) (extend more self) out
  = project_loop turns (extend more (opened spec open_at self)) (push_renderable (take open_at (ht_pending self)) out).
Proof.
  intros Hok Ha Em Ee Hspec Ext. unfold apart_openers in Ha. rewrite <- (ho_openers _ Hok) in Ha.
  destruct (opened_ok _ _ _ _ Hok Ee Hspec) as (_ & _ & _ & Hb & Hpos).
  rewrite (open_turn turns (extend more self) out open_at index spec);
    [|done|by apply (earliest_app _ _ _ _ _ Ha Ee Ext)|done|].
  - unfold opened, extend. cbn. by rewrite take_app_le, drop_app_le by lia.
  - cbn. rewrite drop_app_le by lia. by apply extends_shorter.
Qed.

Lemma consume_app self active out more close_at :
  ht_mode self = Hidden active -> find (at_close active) (ht_pending self) = Some close_at ->
  exists self' out', consume_hidden self out = (true, self', out')
    /\ consume_hidden (extend more self) out = (true, extend more self', out').
Proof.
  intros Em Ef. pose proof (find_app _ _ more _ Ef) as Ef'. unfold consume_hidden. cbn [ht_mode extend with_pending ht_pending].
  rewrite Em, Ef, Ef'. apply find_Some in Ef as [Hoc _]. apply occurs_bound in Hoc.
  do 2 eexists. split; [done|]. unfold extend. cbn. by rewrite take_app_le, drop_app_le by lia.
Qed.

(** A run on a piece, and then on what it left with more, is a run on both. *)
Lemma loop_app turns more self out self1 out1 turns' r :
  hidden_ok self -> texts_ok out -> utf8_valid more = true -> apart_openers (ht_specs self) ->
  project_loop turns self out = Some (self1, out1) -> project_loop turns' (extend more self1) out1 = Some r ->
  exists turns2, project_loop turns2 (extend more self) out = Some r.
Proof.
  intros Hok Ht Hm Ha. revert self out Hok Ht Ha. induction turns as [|turns IH]; intros self out Hok Ht Ha E E'; [done|].
  assert (Hstep : exists k, turns' = S k) by (destruct turns'; [done|by eexists]). destruct Hstep as [k ->].
  destruct (ht_mode self) as [|active] eqn:Em.
  - destruct (earliest (ht_openers self) (ht_pending self)) as [[open_at index]|] eqn:Ee.
    + destruct (opener_there _ _ _ Hok Ee) as [spec Hspec].
      destruct (opened_ok _ _ _ _ Hok Ee Hspec) as (Hok' & H1 & H2 & Hb & Hpos).
      destruct (could_extend_match (ht_openers self) (drop open_at (ht_pending self))) eqn:Ext.
      * cbn [project_loop] in E. rewrite Em, Ee, Ext in E. injection E as <- <-. exists (S k).
        rewrite (wait_continues k self out more (take open_at (ht_pending self)) (drop open_at (ht_pending self)));
          [done|done|done|done|by rewrite take_drop|done|done|].
        unfold apart_openers in Ha. rewrite <- (ho_openers _ Hok) in Ha. by eapply quiet_before_earliest.
      * rewrite (open_turn _ _ _ _ _ _ Em Ee Hspec Ext) in E.
        destruct (IH _ _ Hok' (texts_ok_renderable _ _ H1 Ht) Ha E E') as [turns2 E2].
        exists (S turns2). by rewrite (open_turn_app _ _ _ _ _ _ _ Hok Ha Em Ee Hspec Ext).
    + pose proof (openers_literals_ok _ (ho_specs _ Hok)) as Hlit. rewrite <- (ho_openers _ Hok) in Hlit.
      destruct (retained_utf8 _ _ Hlit (ho_pending _ Hok)) as [H1 H2].
      cbn [project_loop] in E. rewrite Em, Ee in E. injection E as <- <-. exists (S k).
      rewrite (wait_continues k self out more _ _ Hok Hm Em (eq_sym (take_drop _ _)) H1 H2); [done|].
      exact (quiet_before_retained _ _ Hlit (ho_pending _ Hok) Ee).
  - cbn [project_loop] in E. rewrite Em in E. destruct (find (at_close active) (ht_pending self)) as [close_at|] eqn:Ef.
    + pose proof (consume_ok self active out Hok Ht Em) as Hc.
      destruct (consume_app self active out more close_at Em Ef) as (self' & out' & Ec & Ec'). rewrite Ec in *.
      destruct Hc as (Hok' & Ht' & _ & Es & _). destruct (IH _ _ Hok' Ht' ltac:(by rewrite Es) E E') as [turns2 E2].
      exists (S turns2). cbn [project_loop]. change (ht_mode (extend more self)) with (ht_mode self). by rewrite Em, Ec'.
    + pose proof (stop_continues k self active out more Hok Hm Em Ef) as Hcont.
      rewrite (consume_open self active) in * by done. injection E as <- <-. exists (S k). by rewrite Hcont.
Qed.

(** Projecting a text in two pieces is projecting it whole. *)
Lemma project_pieces a b self :
  hidden_ok self -> apart_openers (ht_specs self) -> utf8_valid a = true -> utf8_valid b = true ->
  let (self1, out1) := hidden_project a self in
  let (self2, out2) := hidden_project b self1 in
  hidden_project (a ++ b) self = (self2, merge out1 out2).
Proof.
  intros Hok Ha Hva Hvb. pose proof (project_ok a self Hok Hva) as H1. destruct (hidden_project a self) as [self1 out1] eqn:E1.
  destruct H1 as (Hok1 & Ht1 & Es1). destruct (project_runs a self Hok Hva) as [turns1 R1]. rewrite E1 in R1.
  destruct (hidden_project b self1) as [self2 out2] eqn:E2. destruct (project_runs b self1 Hok1 Hvb) as [turns2 R2].
  rewrite E2 in R2.
  assert (project_loop turns2 (extend b self1) out1 = Some (self2, merge out1 out2)) as R2'.
  { rewrite loop_start, R2. done. }
  destruct (loop_app turns1 b (extend a self) nothing self1 out1 turns2 (self2, merge out1 out2)) as [turns E]; [by apply extend_ok|apply nothing_texts_ok|
    done|done|done|exact R2'|].
  apply (project_is turns); [done|by apply utf8_valid_both|]. unfold extend in *. cbn in *. by rewrite app_assoc.
Qed.

(** * What a text reads as *)

(** A whole text, read without buffers: its first opener hides what comes before
    the next delimiter that closes it; a tag that is not closed ends with the
    text; an opener at the end that a longer one starts with is only text. *)
Inductive reads (specs : list (InlineTagSpec T)) : bytes -> bytes -> list (ExtractedInlineTag T) -> Prop :=
  | reads_text text : earliest (openers_of specs) text = None -> reads specs text text []
  | reads_held text open_at index :
      earliest (openers_of specs) text = Some (open_at, index) ->
      could_extend_match (openers_of specs) (drop open_at text) = true -> reads specs text text []
  | reads_tag text open_at index spec close_at visible extracted :
      earliest (openers_of specs) text = Some (open_at, index) ->
      could_extend_match (openers_of specs) (drop open_at text) = false -> specs !! index = Some spec ->
      let inside := drop (open_at + length (sp_open spec)) text in
      find (sp_close spec) inside = Some close_at ->
      reads specs (drop (close_at + length (sp_close spec)) inside) visible extracted ->
      reads specs text (take open_at text ++ visible)
        ({| ex_tag := sp_tag spec; ex_content := take close_at inside |} :: extracted)
  | reads_unclosed text open_at index spec :
      earliest (openers_of specs) text = Some (open_at, index) ->
      could_extend_match (openers_of specs) (drop open_at text) = false -> specs !! index = Some spec ->
      let inside := drop (open_at + length (sp_open spec)) text in
      find (sp_close spec) inside = None ->
      reads specs text (take open_at text) [{| ex_tag := sp_tag spec; ex_content := inside |}].

(** A run of the loop, and the end of the text. *)
Definition closed_run turns self out out' : Prop :=
  exists self1 out1, project_loop turns self out = Some (self1, out1) /\ out' = merge out1 (snd (hidden_close self1)).

Lemma hidden_close_visible self : ht_mode self = Visible -> snd (hidden_close self) = only_renderable (ht_pending self).
Proof. intros Em. unfold hidden_close. by rewrite Em. Qed.

Lemma run_reads turns self out out' :
  hidden_ok self -> ht_mode self = Visible -> closed_run turns self out out' ->
  exists visible extracted, reads (ht_specs self) (ht_pending self) visible extracted
    /\ out' = merge out {| renderable := visible; events := extracted |}.
Proof.
  revert self out. induction turns as [turns IH] using (well_founded_induction Nat.lt_wf_0).
  intros self out Hok Em (self1 & out1 & E & ->). destruct turns as [|turns]; [done|].
  destruct (earliest (ht_openers self) (ht_pending self)) as [[open_at index]|] eqn:Ee.
  2: { exists (ht_pending self), []. cbn [project_loop] in E. rewrite Em, Ee in E. injection E as <- <-.
    split; [apply reads_text; by rewrite <- (ho_openers _ Hok)|].
    unfold hidden_close, push_renderable, merge. cbn. rewrite Em. cbn. by rewrite <- app_assoc, take_drop, app_nil_r. }
  destruct (opener_there _ _ _ Hok Ee) as [spec Hspec]. pose proof Ee as Ee'. rewrite (ho_openers _ Hok) in Ee'.
  destruct (could_extend_match (ht_openers self) (drop open_at (ht_pending self))) eqn:Ext.
  { exists (ht_pending self), []. cbn [project_loop] in E. rewrite Em, Ee, Ext in E. injection E as <- <-.
    split; [rewrite (ho_openers _ Hok) in Ext; by apply (reads_held _ _ open_at index)|].
    unfold hidden_close, push_renderable, merge. cbn. rewrite Em. cbn. by rewrite <- app_assoc, take_drop, app_nil_r. }
  destruct (opened_ok _ _ _ _ Hok Ee Hspec) as (Hok' & H1 & H2 & Hb & Hpos).
  rewrite (open_turn _ _ _ _ _ _ Em Ee Hspec Ext) in E. rewrite (ho_openers _ Hok) in Ext.
  destruct turns as [|turns]; [done|]. cbn [project_loop opened ht_mode with_mode] in E.
  set (inside := drop (open_at + length (sp_open spec)) (ht_pending self)) in *.
  destruct (find (sp_close spec) inside) as [close_at|] eqn:Ef.
  - pose proof (consume_ok _ _ (push_renderable (take open_at (ht_pending self)) nothing) Hok'
      (texts_ok_renderable _ _ H1 nothing_texts_ok) eq_refl) as Hc.
    unfold consume_hidden in E, Hc. cbn in E, Hc. fold inside in E, Hc. rewrite Ef in E, Hc. destruct Hc as (Hok2 & _).
    destruct (IH turns ltac:(lia) _ _ Hok2 eq_refl (ex_intro _ _ (ex_intro _ _ (conj E eq_refl)))) as (v & x & Hr & Eo).
    do 2 eexists. split; [exact (reads_tag _ _ _ _ _ _ _ _ Ee' Ext Hspec Ef Hr)|]. rewrite Eo.
    unfold push_event, push_renderable, merge. cbn. by rewrite <- !app_assoc.
  - rewrite (consume_open (opened spec open_at self) _ _ eq_refl Ef) in E. injection E as <- <-.
    do 2 eexists. split; [exact (reads_unclosed _ _ _ _ _ Ee' Ext Hspec Ef)|].
    unfold hidden_close, push_renderable, merge. cbn. fold inside. by rewrite take_drop, !app_nil_r.
Qed.

(** * The interface *)

Definition hidden_stream_ok self : Prop :=
  hidden_ok self /\ apart_openers (ht_specs self) /\ hidden_project [] self = (self, nothing).

Lemma merge_same {E : Type} (out rest : TextProjection E) : out = merge out rest -> rest = nothing.
Proof.
  destruct out as [v es], rest as [v' es']. unfold merge. cbn. intros [= Hv He].
  apply (f_equal length) in Hv, He. rewrite !length_app in *.
  destruct v', es'; cbn in *; try lia. done.
Qed.

Lemma project_settles input self :
  hidden_ok self -> apart_openers (ht_specs self) -> utf8_valid input = true ->
  hidden_project [] (fst (hidden_project input self)) = (fst (hidden_project input self), nothing).
Proof.
  intros Hok Ha Hi. pose proof (project_pieces input [] self Hok Ha Hi eq_refl) as H1. rewrite app_nil_r in H1.
  destruct (hidden_project input self) as [self1 out1]. cbn [fst]. destruct (hidden_project [] self1) as [self2 out2].
  injection H1 as -> Ho. by rewrite (merge_same out1 out2).
Qed.

Lemma hidden_close_twice self : snd (hidden_close (fst (hidden_close self))) = nothing.
Proof. unfold hidden_close. by destruct (ht_mode self) eqn:E; cbn; rewrite ?E. Qed.

#[export] Program Instance hidden_laws : StreamLaws (HiddenTagProjector T) (ExtractedInlineTag T) := {
  stream_ok := hidden_stream_ok;
  same := eq
}.
Next Obligation.
  intros input self (Hok & Ha & Hn) Hi. pose proof (project_ok input self Hok Hi) as Hp.
  pose proof (project_settles input self Hok Ha Hi) as Hs. cbn [project hidden_projector] in *.
  destruct (hidden_project input self) as [self' out]. cbn [fst] in *. destruct Hp as (Hok' & _ & Es).
  split; [done|]. by rewrite Es.
Qed.
Next Obligation. intros self (_ & _ & Hn). exact Hn. Qed.
Next Obligation.
  intros a b self (Hok & Ha & _) Hva Hvb. pose proof (project_pieces a b self Hok Ha Hva Hvb) as Happ. cbn [project hidden_projector].
  destruct (hidden_project a self) as [self1 out1], (hidden_project b self1) as [self2 out2]. by rewrite Happ.
Qed.
Next Obligation. intros self _. apply hidden_close_twice. Qed.

(** ** What [new] makes *)

Lemma check_specs_Ok specs :
  check_specs specs = Ok tt <-> Forall (fun spec : InlineTagSpec T => sp_open spec <> [] /\ sp_close spec <> []) specs.
Proof.
  assert (Hne : forall d : bytes, negb (length d =? 0)%nat = true <-> d <> []).
  { intros d. rewrite negb_true_iff, Nat.eqb_neq. split; [by intros Hl ->|]. destruct d; [done|cbn; lia]. }
  induction specs as [|spec specs IH]; cbn [check_specs]; [split; [constructor|done]|].
  pose proof (Hne (sp_open spec)) as Ho. pose proof (Hne (sp_close spec)) as Hc. unfold ensure. split.
  - intros E. destruct (negb (length (sp_open spec) =? 0)%nat), (negb (length (sp_close spec) =? 0)%nat); try done.
    constructor; [tauto|by apply IH].
  - intros Hs. inversion Hs as [|x l [Hx Hy] Hl]; subst. rewrite (proj2 Ho Hx), (proj2 Hc Hy). by apply IH.
Qed.

Definition specs_utf8 (specs : list (InlineTagSpec T)) : Prop :=
  Forall (fun spec => utf8_valid (sp_open spec) = true /\ utf8_valid (sp_close spec) = true) specs.

Lemma hidden_new_ok specs self :
  hidden_new specs = Ok self -> specs_utf8 specs ->
  hidden_ok self /\ ht_specs self = specs /\ ht_mode self = Visible /\ ht_pending self = [].
Proof.
  unfold hidden_new, specs_utf8. intros E Hu. inv_ok. rename Hr0 into Hcheck. apply check_specs_Ok in Hcheck.
  split; [|done]. split; [|done|done|done]. unfold specs_ok. cbn.
  rewrite Forall_lookup in Hcheck. rewrite Forall_lookup in Hu. apply Forall_lookup. intros i spec Hspec.
  destruct (Hcheck i spec Hspec), (Hu i spec Hspec). done.
Qed.

Lemma hidden_new_stream specs self :
  hidden_new specs = Ok self -> specs_utf8 specs -> apart_openers specs -> stream_ok self.
Proof.
  intros E Hu Ha. destruct (hidden_new_ok specs self E Hu) as (Hok & Es & Em & Ep). split; [done|]. split; [by rewrite Es|].
  apply (project_is 1); [done|done|]. unfold extend. rewrite Ep. cbn [project_loop ht_mode ht_pending ht_openers with_pending app].
  pose proof (openers_literals_ok _ (ho_specs _ Hok)) as Hlit. rewrite <- (ho_openers _ Hok) in Hlit.
  assert (earliest (ht_openers self) [] = None) as Ee.
  { apply earliest_none. intros e He. destruct (Hlit e He) as [Hne _]. by destruct (li_text e). }
  rewrite Em, Ee. unfold drain_visible. cbn [ht_pending with_pending]. rewrite drop_nil, take_nil.
  unfold push_renderable, nothing. cbn. by destruct self; cbn in *; subst.
Qed.

(** There is one way to read a text. *)
Lemma reads_functional specs text visible extracted visible' extracted' :
  reads specs text visible extracted -> reads specs text visible' extracted' -> visible = visible' /\ extracted = extracted'.
Proof.
  intros Hr. revert visible' extracted'.
  induction Hr as [text E|text i k E Ext|text i k spec c v x E Ext Hs inside Hf Hr IH|text i k spec E Ext Hs inside Hf];
    intros v' x' Hr'; inversion Hr' as [? E'|? i' k' E' Ext'|? i' k' spec' c' v2 x2 E' Ext' Hs' inside' Hf' Hr2|? i' k' spec' E' Ext' Hs' inside' Hf'];
    subst; rewrite E in E'; try discriminate; try injection E' as <- <-; try congruence; try done;
    assert (spec' = spec) as -> by congruence; unfold inside, inside' in *; try congruence.
  - assert (c' = c) as -> by congruence. destruct (IH _ _ Hr2) as [-> ->]. done.
  - done.
Qed.

(** One tag is always told apart from itself. *)
Lemma single_apart spec : apart_openers [spec].
Proof.
  intros e e' i He He' Hi Ho. cbn in He, He'. apply list_elem_of_singleton in He as ->. apply list_elem_of_singleton in He' as ->.
  apply occurs_bound in Ho. cbn in Ho. lia.
Qed.

(** Pieces read like the text they make. *)
Lemma collect_reads specs self pieces :
  hidden_new specs = Ok self -> specs_utf8 specs -> apart_openers specs -> texts pieces ->
  reads specs (concat pieces) (renderable (collect pieces self)) (events (collect pieces self)).
Proof.
  intros E Hu Ha Hs. destruct (hidden_new_ok specs self E Hu) as (Hok & Es & Em & Ep).
  pose proof (hidden_new_stream specs self E Hu Ha) as Hstream.
  pose proof (collect_whole pieces self Hstream Hs) as Hw. change (same ?x ?y) with (x = y) in Hw. rewrite Hw.
  pose proof (texts_concat _ Hs) as Hv. destruct (project_runs (concat pieces) self Hok Hv) as [turns Hrun].
  unfold collect. cbn [project_all project hidden_projector close]. destruct (hidden_project (concat pieces) self) as [self1 out1].
  rewrite merge_nothing.
  destruct (run_reads turns (extend (concat pieces) self) nothing _ (extend_ok _ _ Hok Hv) Em
              (ex_intro _ _ (ex_intro _ _ (conj Hrun eq_refl)))) as (visible & extracted & Hr & Eo).
  rewrite Eo, nothing_merge. cbn. unfold extend in Hr. cbn [ht_specs ht_pending with_pending] in Hr. rewrite Ep, Es in Hr. exact Hr.
Qed.

End Hidden.

(** * Citations *)

Lemma citation_new_is : exists inner,
  hidden_new [{| sp_tag := Citation; sp_open := CITATION_OPEN; sp_close := CITATION_CLOSE |}] = Ok inner
  /\ citation_new = Ok {| ci_inner := inner |} /\ stream_ok inner.
Proof.
  eexists. split; [reflexivity|]. split; [reflexivity|]. apply (hidden_new_stream [{| sp_tag := Citation; sp_open := CITATION_OPEN; sp_close := CITATION_CLOSE |}]);
    [reflexivity| |apply single_apart].
  repeat constructor.
Qed.

#[export] Program Instance citation_laws : StreamLaws CitationProjector bytes := {
  stream_ok := fun self => stream_ok (ci_inner self);
  same := eq
}.
Next Obligation.
  intros input self Hok Hi. pose proof (project_keeps input (ci_inner self) Hok Hi) as Hk. cbn [project citation_projector].
  by destruct (project input (ci_inner self)).
Qed.
Next Obligation.
  intros self Hok. cbn [project citation_projector]. rewrite (project_nothing (ci_inner self) Hok). by destruct self.
Qed.
Next Obligation.
  intros a b self Hok Ha Hb. pose proof (project_two a b (ci_inner self) Hok Ha Hb) as Htwo. cbn [project citation_projector] in *.
  destruct (project a (ci_inner self)) as [p1 out1]. cbn [ci_inner]. destruct (project b p1) as [p2 out2].
  destruct (project (a ++ b) (ci_inner self)) as [p3 out3]. cbn [fst snd] in *. destruct Htwo as [-> ->]. split; [done|].
  unfold citation_projection, map_events, merge. cbn. by rewrite map_app.
Qed.
Next Obligation.
  intros self Hok. pose proof (close_again (ci_inner self) Hok) as Hc. cbn [close citation_projector].
  destruct (close (ci_inner self)) as [p1 out1]. cbn [fst ci_inner] in *. destruct (close p1) as [p2 out2]. cbn in *. by rewrite Hc.
Qed.

Lemma citation_collect pieces inner :
  collect pieces {| ci_inner := inner |} = citation_projection (collect pieces inner).
Proof.
  unfold collect. revert inner. induction pieces as [|piece pieces IH]; intros inner.
  { cbn. destruct (hidden_close inner) as [p out]. by rewrite !nothing_merge. }
  cbn [project_all]. change (project piece {| ci_inner := inner |}) with
    (let (inner, projection) := project piece inner in ({| ci_inner := inner |}, citation_projection projection)).
  destruct (project piece inner) as [p out]. specialize (IH p).
  destruct (project_all pieces {| ci_inner := p |}) as [p1 out1], (project_all pieces p) as [p2 out2].
  rewrite <- !merge_assoc, IH. unfold citation_projection, map_events, merge. cbn. by rewrite !map_app.
Qed.
