(* ===== verification/LineFacts.v ===== *)
(** Tagged lines: the parser that decides about each line as early as it can
    agrees with reading the text line by line, whatever pieces it comes in
    (lemmas on Projectors). *)

From S2P Require Import Prelude Disk Text TextFacts Projectors Streams.

Open Scope Z_scope.

(** * Trimming *)

Lemma trim_start_app cs ds :
  trim_start (cs ++ ds) = match trim_start cs with [] => trim_start ds | rest => rest ++ ds end.
Proof.
  induction cs as [|c cs IH]; cbn [app trim_start]; [done|]. by destruct (is_whitespace c).
Qed.

Lemma trim_start_suffix cs : exists white, cs = white ++ trim_start cs /\ Forall (fun c => is_whitespace c = true) white.
Proof.
  induction cs as [|c cs (white & E & Hw)]; cbn [trim_start]; [by exists []|]. destruct (is_whitespace c) eqn:Ec.
  - exists (c :: white). cbn. rewrite <- E. split; [done|by constructor].
  - by exists [].
Qed.

(** [trim] without its first step. *)
Definition trim_end (cs : list Z) : list Z := rev (trim_start (rev cs)).

Lemma trim_end_prefix cs : trim_end cs `prefix_of` cs.
Proof.
  unfold trim_end. destruct (trim_start_suffix (rev cs)) as (white & E & _). exists (rev white).
  rewrite <- rev_app_distr, <- E. by rewrite rev_involutive.
Qed.

Lemma trim_end_app cs ds : trim_end cs `prefix_of` trim_end (cs ++ ds).
Proof.
  unfold trim_end. rewrite rev_app_distr, trim_start_app. destruct (trim_start (rev ds)) as [|d rest]; [done|].
  rewrite rev_app_distr, rev_involutive. apply prefix_app_r, trim_end_prefix.
Qed.

(** The trimmed beginning of a line begins the trimmed line. *)
Lemma trim_prefix cs ds : trim cs `prefix_of` trim (cs ++ ds).
Proof.
  change (trim cs) with (trim_end (trim_start cs)). change (trim (cs ++ ds)) with (trim_end (trim_start (cs ++ ds))).
  rewrite trim_start_app. destruct (trim_start cs) as [|c rest]; [apply prefix_nil|]. apply trim_end_app.
Qed.

Lemma trim_whitespace cs c : is_whitespace c = true -> trim (cs ++ [c]) = trim cs.
Proof.
  intros Hc. change (trim cs) with (trim_end (trim_start cs)). change (trim (cs ++ [c])) with (trim_end (trim_start (cs ++ [c]))).
  rewrite trim_start_app. destruct (trim_start cs) as [|d rest]; cbn [trim_start]; [by rewrite Hc|].
  unfold trim_end. rewrite rev_app_distr. cbn [rev app trim_start]. by rewrite Hc.
Qed.

Lemma encode_all_prefix cs ds : cs `prefix_of` ds -> encode_all cs `prefix_of` encode_all ds.
Proof. intros [rest ->]. rewrite encode_all_app. by apply prefix_app_r. Qed.

Lemma trim_str_encode cs : Forall scalar cs -> trim_str (encode_all cs) = encode_all (trim cs).
Proof. intros Hc. unfold trim_str. by rewrite chars_encode. Qed.

Lemma newline_scalar : scalar newline.
Proof. apply (one_byte_char x0a). done. Qed.

Lemma strip_newline_trim line : utf8_valid line = true -> trim_str (strip_newline line) = trim_str line.
Proof.
  intros Hv. unfold strip_newline. destruct line as [|b line _] using rev_ind; [done|].
  rewrite list.last_snoc. case_bool_decide as Eb; [|done]. rewrite removelast_last.
  assert (b = x0a) as -> by exact Eb. destruct (utf8_cut line [x0a] Hv) as [Hl _]; [by intros x [= <-]|].
  unfold trim_str. rewrite chars_app by done. f_equal. symmetry. by apply trim_whitespace.
Qed.

(** * Joining segments *)

Section Lines.
Context {T : Type} `{EqDecision T}.
Implicit Types (self : TaggedLineParser T) (segments : list (TaggedLineSegment T)).

(** A segment, byte by byte. *)
Inductive Item :=
  | Byte (tag : option T) (b : byte)
  | Starts (tag : T)
  | Ends (tag : T).

Definition segment_items (segment : TaggedLineSegment T) : list Item :=
  match segment with
  | Normal text => map (Byte None) text
  | TagStart tag => [Starts tag]
  | TagDelta tag text => map (Byte (Some tag)) text
  | TagEnd tag => [Ends tag]
  end.

Definition items segments : list Item := concat (map segment_items segments).

Lemma items_app segments segments' : items (segments ++ segments') = items segments ++ items segments'.
Proof. unfold items. by rewrite map_app, concat_app. Qed.

Lemma items_one segment : items [segment] = segment_items segment.
Proof. unfold items. cbn. by rewrite app_nil_r. Qed.

Lemma push_segment_items segments segment : items (push_segment segments segment) = items segments ++ segment_items segment.
Proof.
  assert (Hadd : forall s, items (segments ++ [s]) = items segments ++ segment_items s) by (intros s; by rewrite items_app, items_one).
  destruct segment as [text|tag|tag text|tag]; cbn [push_segment]; try apply Hadd.
  - destruct text as [|b text]; [cbn; by rewrite app_nil_r|]. cbn [length Nat.eqb].
    destruct segments as [|s segments _] using rev_ind; [exact (Hadd _)|]. rewrite list.last_snoc, removelast_last.
    destruct s as [existing|t|t existing|t]; try apply Hadd. rewrite !items_app, !items_one, <- app_assoc. cbn [segment_items].
    by rewrite map_app.
  - destruct text as [|b text]; [cbn; by rewrite app_nil_r|]. cbn [length Nat.eqb].
    destruct segments as [|s segments _] using rev_ind; [exact (Hadd _)|]. rewrite list.last_snoc, removelast_last.
    destruct s as [existing|t|t existing|t]; try apply Hadd. case_bool_decide as Et; [|apply Hadd]. subst t.
    rewrite !items_app, !items_one, <- app_assoc. cbn [segment_items]. by rewrite map_app.
Qed.

(** Adjacent texts joined, as [push_segment] does within one call. *)
Definition joined segments : list (TaggedLineSegment T) := fold_left push_segment segments [].

Definition item_segment (item : Item) : TaggedLineSegment T :=
  match item with
  | Byte None b => Normal [b]
  | Byte (Some tag) b => TagDelta tag [b]
  | Starts tag => TagStart tag
  | Ends tag => TagEnd tag
  end.

Lemma push_text_cons segments b text :
  push_segment segments (Normal (b :: text)) = push_segment (push_segment segments (Normal [b])) (Normal text).
Proof.
  destruct text as [|c text]; [by cbn|]. cbn [push_segment length Nat.eqb].
  destruct segments as [|s segments _] using rev_ind; [done|]. rewrite !list.last_snoc, !removelast_last.
  destruct s; rewrite ?list.last_snoc, ?removelast_last; try done. by rewrite <- app_assoc.
Qed.

Lemma push_delta_cons segments tag b text :
  push_segment segments (TagDelta tag (b :: text)) = push_segment (push_segment segments (TagDelta tag [b])) (TagDelta tag text).
Proof.
  destruct text as [|c text]; [by cbn|]. cbn [push_segment length Nat.eqb].
  assert (Hnew : forall l, match list.last (l ++ [TagDelta tag [b]]) with
    | Some (TagDelta existing_tag existing) =>
        if bool_decide (existing_tag = tag)
        then removelast (l ++ [TagDelta tag [b]]) ++ [TagDelta existing_tag (existing ++ c :: text)]
        else (l ++ [TagDelta tag [b]]) ++ [TagDelta tag (c :: text)]
    | _ => (l ++ [TagDelta tag [b]]) ++ [TagDelta tag (c :: text)]
    end = l ++ [TagDelta tag (b :: c :: text)]).
  { intros l. rewrite list.last_snoc, removelast_last. by rewrite bool_decide_true. }
  destruct segments as [|s segments _] using rev_ind; [exact (eq_sym (Hnew []))|]. rewrite !list.last_snoc, !removelast_last.
  destruct s as [existing|t|t existing|t]; try by rewrite Hnew. case_bool_decide as Et; [|by rewrite Hnew]. subst t.
  rewrite list.last_snoc, removelast_last, bool_decide_true by done. by rewrite <- app_assoc.
Qed.

Lemma push_segment_bytes segments segment :
  push_segment segments segment = fold_left push_segment (map item_segment (segment_items segment)) segments.
Proof.
  destruct segment as [text|tag|tag text|tag]; [|done| |done]; revert segments; induction text as [|b text IH]; intros segments;
    [done| |done|].
  - rewrite push_text_cons, IH. done.
  - rewrite push_delta_cons, IH. done.
Qed.

Lemma joined_items segments : joined segments = fold_left push_segment (map item_segment (items segments)) [].
Proof.
  unfold joined. generalize (@nil (TaggedLineSegment T)) as start. induction segments as [|s segments IH]; intros start; [done|].
  cbn [fold_left items map concat]. rewrite IH, push_segment_bytes. unfold items. cbn. by rewrite map_app, fold_left_app.
Qed.

(** Segments that say the same byte by byte are joined to the same. *)
Lemma joined_same segments segments' : items segments = items segments' -> joined segments = joined segments'.
Proof. intros E. by rewrite !joined_items, E. Qed.

(** * Reading line by line *)

(** The lines of a text, each with its newline; [line] is what the first one has
    already. *)
Fixpoint split_lines (line cs : list Z) : list (list Z) :=
  match cs with
  | [] => match line with [] => [] | _ => [line] end
  | c :: cs => if c =? newline then (line ++ [c]) :: split_lines [] cs else split_lines (line ++ [c]) cs
  end.

Context (specs : list (TagSpec T)).

Definition opens : LiteralMatcher T := matcher_new (map (fun spec => (ts_open spec, ts_tag spec)) specs).
Definition closes : LiteralMatcher T := matcher_new (map (fun spec => (ts_close spec, ts_tag spec)) specs).

Definition line_text (active : option T) (line : list Z) : TaggedLineSegment T :=
  match active with Some tag => TagDelta tag (encode_all line) | None => Normal (encode_all line) end.

(** A line is a marker when nothing else is on it: of a tag that starts, when none
    is active, or of the active tag that ends.  Any other line is text. *)
Definition read_line (active : option T) (line : list Z) : option T * TaggedLineSegment T :=
  let candidate := encode_all (trim line) in
  match exact opens candidate, active with
  | Some tag, None => (Some tag, TagStart tag)
  | _, _ =>
      match exact closes candidate with
      | Some tag => if bool_decide (active = Some tag) then (None, TagEnd tag) else (active, line_text active line)
      | None => (active, line_text active line)
      end
  end.

Fixpoint read_lines (active : option T) (lines : list (list Z)) : option T * list (TaggedLineSegment T) :=
  match lines with
  | [] => (active, [])
  | line :: lines =>
      let (active, segment) := read_line active line in
      let (active, segments) := read_lines active lines in
      (active, segment :: segments)
  end.

(** A whole text; a tag that is still active ends with it. *)
Definition read_text (text : bytes) : list (TaggedLineSegment T) :=
  let (active, segments) := read_lines None (split_lines [] (chars text)) in
  segments ++ match active with Some tag => [TagEnd tag] | None => [] end.

Lemma read_lines_snoc active lines line :
  read_lines active (lines ++ [line]) =
  let (active', segments) := read_lines active lines in
  let (active'', segment) := read_line active' line in (active'', segments ++ [segment]).
Proof.
  revert active. induction lines as [|l lines IH]; intros active; cbn [read_lines app].
  { by destruct (read_line active line). }
  destruct (read_line active l) as [a s]. rewrite IH. destruct (read_lines a lines) as [a' ss]. by destruct (read_line a' line).
Qed.

Lemma split_lines_app line cs ds :
  (forall c, c ∈ cs -> c <> newline) -> split_lines line (cs ++ ds) = split_lines (line ++ cs) ds.
Proof.
  revert line. induction cs as [|c cs IH]; intros line Hc; cbn [split_lines app]; [by rewrite app_nil_r|].
  destruct (Z.eqb_spec c newline) as [E|_]; [destruct (Hc c); [by left|done]|].
  rewrite IH by (intros d Hd; apply Hc; by right). by rewrite <- app_assoc.
Qed.

(** Whole lines, and the beginning of another. *)
Definition cut_lines (consumed : list Z) (lines : list (list Z)) (line : list Z) : Prop :=
  forall rest, split_lines [] (consumed ++ rest) = lines ++ split_lines line rest.

Lemma cut_lines_nil : cut_lines [] [] [].
Proof. intros rest. done. Qed.

Lemma cut_lines_char consumed lines line c :
  cut_lines consumed lines line -> c <> newline -> cut_lines (consumed ++ [c]) lines (line ++ [c]).
Proof.
  intros Hcut Hc rest. rewrite <- app_assoc, (Hcut ([c] ++ rest)). cbn [app split_lines].
  by destruct (Z.eqb_spec c newline).
Qed.

Lemma cut_lines_newline consumed lines line :
  cut_lines consumed lines line -> cut_lines (consumed ++ [newline]) (lines ++ [line ++ [newline]]) [].
Proof. intros Hcut rest. rewrite <- app_assoc, (Hcut ([newline] ++ rest)). cbn [app split_lines]. by rewrite <- app_assoc. Qed.

(** ** Deciding early *)

(** However it goes on, the line is text. *)
Definition never_marker (line : list Z) : Prop :=
  forall more active, Forall scalar more -> read_line active (line ++ more) = (active, line_text active (line ++ more)).

Lemma exact_prefix (m : LiteralMatcher T) candidate whole tag :
  exact m whole = Some tag -> candidate `prefix_of` whole -> could_match_prefix m candidate = true.
Proof.
  unfold exact, could_match_prefix. intros E Hp. apply fmap_Some in E as (e & He & _). apply List.find_some in He as [Hin He].
  apply bool_decide_eq_true in He. apply existsb_exists. exists e. split; [done|]. apply starts_with_iff. by rewrite He.
Qed.

Lemma decided_early self line :
  tl_opens self = opens -> tl_closes self = closes -> Forall scalar line ->
  could_be_marker self (trim_str (encode_all line)) = false -> never_marker line.
Proof.
  intros Ho Hc Hl Hm more active Hmore. unfold could_be_marker in Hm. apply orb_false_iff in Hm as [Hmo Hmc].
  rewrite Ho in Hmo. rewrite Hc in Hmc. rewrite trim_str_encode in * by done.
  assert (Hp : encode_all (trim line) `prefix_of` encode_all (trim (line ++ more))) by (apply encode_all_prefix, trim_prefix).
  unfold read_line. destruct (exact opens (encode_all (trim (line ++ more)))) as [tag|] eqn:Eo.
  { by rewrite (exact_prefix _ _ _ _ Eo Hp) in Hmo. }
  destruct (exact closes (encode_all (trim (line ++ more)))) as [tag|] eqn:Ec; [|done].
  by rewrite (exact_prefix _ _ _ _ Ec Hp) in Hmc.
Qed.

(** ** The parser follows the lines *)

Definition bytes_items (active : option T) (text : bytes) : list Item := map (Byte active) text.

Lemma line_text_items active line : segment_items (line_text active line) = bytes_items active (encode_all line).
Proof. by destruct active. Qed.

Record follows (consumed : list Z) self (said : list Item) : Prop := {
  fo_opens : tl_opens self = opens;
  fo_closes : tl_closes self = closes;
  fo_scalar : Forall scalar consumed;
  fo_lines : exists lines line segments,
    cut_lines consumed lines line /\ Forall scalar line /\ read_lines None lines = (tl_active_tag self, segments)
    /\ match tl_mode self with
       | Probe => tl_line_buffer self = encode_all line /\ said = items segments
       | Stream => tl_line_buffer self = [] /\ never_marker line
                   /\ said = items segments ++ bytes_items (tl_active_tag self) (encode_all line)
       end
}.

Lemma classify_reads self line segments :
  tl_opens self = opens -> tl_closes self = closes -> Forall scalar line -> tl_line_buffer self = encode_all line ->
  let (self', segments') := classify_buffer self segments in
  let (active, segment) := read_line (tl_active_tag self) line in
  self' = with_tag active (with_line Probe [] self) /\ items segments' = items segments ++ segment_items segment.
Proof.
  intros Ho Hc Hl Hb. unfold classify_buffer, read_line. rewrite Hb. cbn [tl_opens tl_closes tl_active_tag with_line].
  rewrite strip_newline_trim, trim_str_encode by (done || by apply encode_all_valid). rewrite Ho, Hc.
  assert (Hsame : with_tag (tl_active_tag self) (with_line Probe [] self) = with_line Probe [] self) by by destruct self.
  assert (Htext : forall s, tl_active_tag s = tl_active_tag self ->
    items (push_text s (encode_all line) segments) = items segments ++ segment_items (line_text (tl_active_tag self) line)).
  { intros s Es. unfold push_text. rewrite push_segment_items, Es. done. }
  destruct (exact opens (encode_all (trim line))) as [tag|], (tl_active_tag self) as [old|] eqn:Ea; cbn [with_tag with_line tl_active_tag];
    rewrite ?Ea; try (split; [done|by rewrite push_segment_items]);
    destruct (exact closes (encode_all (trim line))) as [tag'|]; try (split; [by rewrite <- Hsame at 1; rewrite ?Ea|by apply Htext]);
    case_bool_decide; try (split; [done|by rewrite push_segment_items]); (split; [by rewrite <- Hsame at 1|by apply Htext]).
Qed.

Lemma follows_probe_newline consumed self segments said :
  follows consumed self (said ++ items segments) -> tl_mode self = Probe ->
  let (self', segments') := classify_buffer (with_line Probe (tl_line_buffer self ++ encode_utf8 newline) self) segments in
  follows (consumed ++ [newline]) self' (said ++ items segments') /\ tl_mode self' = Probe.
Proof.
  intros [Ho Hc Hs (lines & line & segs & Hcut & Hl & Hr & Hm)] Em. rewrite Em in Hm. destruct Hm as [Hb Hsaid].
  set (self1 := with_line Probe _ self).
  assert (Hl' : Forall scalar (line ++ [newline])) by (apply Forall_app; split; [done|by constructor; [apply newline_scalar|constructor]]).
  pose proof (classify_reads self1 (line ++ [newline]) segments Ho Hc Hl') as Hcl. cbn [tl_line_buffer with_line self1] in Hcl.
  rewrite Hb, encode_all_app in Hcl. cbn [encode_all map concat] in Hcl. rewrite app_nil_r in Hcl. specialize (Hcl eq_refl).
  destruct (classify_buffer self1 segments) as [self' segments'] eqn:Ecl. change (tl_active_tag self1) with (tl_active_tag self) in Hcl.
  destruct (read_line (tl_active_tag self) (line ++ [newline])) as [active segment] eqn:Erl.
  destruct Hcl as [-> Hi]. split; [|done]. split; [done|done|apply Forall_app; split; [done|by constructor; [apply newline_scalar|constructor]]|].
  exists (lines ++ [line ++ [newline]]), [], (segs ++ [segment]). split; [by apply cut_lines_newline|]. split; [constructor|].
  split; [by rewrite read_lines_snoc, Hr, Erl|]. split; [done|].
  by rewrite Hi, app_assoc, Hsaid, items_app, items_one.
Qed.

Lemma follows_probe_char consumed self c said :
  follows consumed self said -> tl_mode self = Probe -> scalar c -> c <> newline ->
  follows (consumed ++ [c]) (with_line Probe (tl_line_buffer self ++ encode_utf8 c) self) said.
Proof.
  intros [Ho Hc Hs (lines & line & segs & Hcut & Hl & Hr & Hm)] Em Hsc Hne. rewrite Em in Hm. destruct Hm as [Hb Hsaid].
  split; [done|done|apply Forall_app; split; [done|by constructor]|].
  exists lines, (line ++ [c]), segs. split; [by apply cut_lines_char|]. split; [apply Forall_app; split; [done|by constructor]|].
  split; [done|]. split; [|done]. cbn. rewrite Hb, encode_all_app. cbn. by rewrite app_nil_r.
Qed.

(** The line is decided to be text, and what is kept of it is said. *)
Lemma follows_decided consumed self segments said :
  follows consumed self (said ++ items segments) -> tl_mode self = Probe ->
  could_be_marker self (trim_str (tl_line_buffer self)) = false ->
  follows consumed (with_line Stream [] self)
    (said ++ items (push_text (with_line Stream [] self) (tl_line_buffer self) segments)).
Proof.
  intros [Ho Hc Hs (lines & line & segs & Hcut & Hl & Hr & Hm)] Em Hmark. rewrite Em in Hm. destruct Hm as [Hb Hsaid].
  split; [done|done|done|]. exists lines, line, segs. do 3 (split; [done|]). split; [done|]. rewrite Hb in *.
  split; [by apply (decided_early self)|]. unfold push_text. rewrite push_segment_items, app_assoc, Hsaid.
  change (tl_active_tag (with_line Stream [] self)) with (tl_active_tag self). f_equal. by destruct (tl_active_tag self).
Qed.

Lemma follows_stream_char consumed self c said :
  follows consumed self said -> tl_mode self = Stream -> scalar c -> c <> newline ->
  follows (consumed ++ [c]) self (said ++ bytes_items (tl_active_tag self) (encode_utf8 c)).
Proof.
  intros [Ho Hc Hs (lines & line & segs & Hcut & Hl & Hr & Hm)] Em Hsc Hne. rewrite Em in Hm. destruct Hm as (Hb & Hnm & Hsaid).
  split; [done|done|apply Forall_app; split; [done|by constructor]|].
  exists lines, (line ++ [c]), segs. split; [by apply cut_lines_char|]. split; [apply Forall_app; split; [done|by constructor]|].
  split; [done|]. rewrite Em. split; [done|]. split.
  - intros more active Hmore. rewrite <- app_assoc. apply Hnm. by constructor.
  - rewrite Hsaid, <- app_assoc, encode_all_app. unfold bytes_items. rewrite map_app. cbn. by rewrite app_nil_r.
Qed.

Lemma follows_stream_newline consumed self said :
  follows consumed self said -> tl_mode self = Stream ->
  follows (consumed ++ [newline]) (with_line Probe (tl_line_buffer self) self)
    (said ++ bytes_items (tl_active_tag self) (encode_utf8 newline)).
Proof.
  intros [Ho Hc Hs (lines & line & segs & Hcut & Hl & Hr & Hm)] Em. rewrite Em in Hm. destruct Hm as (Hb & Hnm & Hsaid).
  assert (Hn : Forall scalar [newline]) by (constructor; [apply newline_scalar|constructor]).
  split; [done|done|apply Forall_app; by split|].
  exists (lines ++ [line ++ [newline]]), [], (segs ++ [line_text (tl_active_tag self) (line ++ [newline])]).
  split; [by apply cut_lines_newline|]. split; [constructor|].
  split; [by rewrite read_lines_snoc, Hr, (Hnm [newline] _ Hn)|]. split; [done|].
  rewrite Hsaid, items_app, items_one, line_text_items, encode_all_app, <- app_assoc. unfold bytes_items. by rewrite map_app.
Qed.

Lemma push_text_items self text segments :
  items (push_text self text segments) = items segments ++ bytes_items (tl_active_tag self) text.
Proof. unfold push_text. rewrite push_segment_items. by destruct (tl_active_tag self). Qed.

Lemma flush_run_items self run segments :
  items (flush_run self run segments) = items segments ++ bytes_items (tl_active_tag self) run.
Proof.
  unfold flush_run. destruct (Nat.eqb_spec (length run) 0) as [E|_]; [|apply push_text_items].
  apply nil_length_inv in E as ->. cbn. by rewrite app_nil_r.
Qed.

Lemma parse_chars_follows delta consumed self run segments said :
  Forall scalar delta -> (tl_mode self = Probe -> run = []) ->
  follows consumed self (said ++ items segments ++ bytes_items (tl_active_tag self) run) ->
  let '(self', run', segments') := parse_chars delta self run segments in
  follows (consumed ++ delta) self' (said ++ items segments' ++ bytes_items (tl_active_tag self') run').
Proof.
  intros Hd. revert consumed self run segments. induction Hd as [|c delta Hc Hd IH]; intros consumed self run segments Hrun Hf.
  { cbn [parse_chars]. by rewrite app_nil_r. }
  change (consumed ++ c :: delta) with (consumed ++ [c] ++ delta). rewrite app_assoc. cbn [parse_chars].
  destruct (tl_mode self) eqn:Em.
  - rewrite (Hrun eq_refl) in *. cbn [flush_run length Nat.eqb]. cbn [bytes_items map] in Hf. rewrite app_nil_r in Hf.
    destruct (Z.eqb_spec c newline) as [->|Hne].
    + pose proof (follows_probe_newline consumed self segments said Hf Em) as Hn. cbn [tl_line_buffer with_line] in *.
      destruct (classify_buffer _ segments) as [self' segments']. apply IH; [done|]. cbn. rewrite app_nil_r. apply Hn.
    + pose proof (follows_probe_char consumed self c _ Hf Em Hc Hne) as Hn. set (self1 := with_line Probe _ self) in *.
      destruct ((length (trim_str (tl_line_buffer self1)) =? 0)%nat || could_be_marker self1 (trim_str (tl_line_buffer self1))) eqn:Ek.
      * apply IH; [done|]. cbn [bytes_items map]. by rewrite app_nil_r.
      * apply orb_false_iff in Ek as [_ Ek]. apply IH; [done|]. cbn [bytes_items map]. rewrite app_nil_r.
        by apply follows_decided.
  - destruct (Z.eqb_spec c newline) as [->|Hne].
    + apply IH; [done|]. cbn [bytes_items map]. rewrite app_nil_r, push_text_items.
      pose proof (follows_stream_newline consumed self _ Hf Em) as Hn. unfold bytes_items in *. by rewrite map_app, <- !app_assoc in *.
    + apply IH; [by rewrite Em|]. pose proof (follows_stream_char consumed self c _ Hf Em Hc Hne) as Hn.
      unfold bytes_items in *. by rewrite map_app, <- !app_assoc in *.
Qed.

Lemma parse_follows input consumed self said :
  utf8_valid input = true -> follows consumed self said ->
  let (self', segments) := parse input self in follows (consumed ++ chars input) self' (said ++ items segments).
Proof.
  intros Hi Hf. unfold parse.
  pose proof (parse_chars_follows (chars input) consumed self [] [] said (chars_scalar _ Hi) ltac:(done)) as Hp.
  cbn [bytes_items map items concat app] in Hp. rewrite app_nil_r in Hp. specialize (Hp Hf).
  destruct (parse_chars (chars input) self [] []) as [[self' run] segments]. by rewrite flush_run_items.
Qed.

(** At the end all that was read has been said. *)
Lemma finish_reads consumed self said :
  follows consumed self said ->
  said ++ items (snd (finish self)) = items (read_text (encode_all consumed)).
Proof.
  intros [Ho Hc Hs (lines & line & segs & Hcut & Hl & Hr & Hm)]. unfold read_text. rewrite chars_encode by done.
  specialize (Hcut []). rewrite app_nil_r in Hcut. rewrite Hcut. cbn [split_lines]. unfold finish.
  assert (Hend : forall active (segments : list (TaggedLineSegment T)),
    items (match active with Some tag => push_segment segments (TagEnd tag) | None => segments end)
    = items segments ++ items (match active with Some tag => [TagEnd tag] | None => [] end)).
  { intros [tag|] segments; [by rewrite push_segment_items, items_one|by rewrite app_nil_r]. }
  destruct (tl_mode self) eqn:Em.
  - destruct Hm as [Hb ->]. rewrite Hb. destruct line as [|c line].
    { cbn [encode_all map concat length Nat.eqb]. rewrite app_nil_r, Hr. cbn [snd]. by rewrite Hend, items_app. }
    destruct (Nat.eqb_spec (length (encode_all (c :: line))) 0) as [E|_].
    { exfalso. rewrite encode_all_cons, length_app in E. inversion Hl as [|? ? Hsc]; subst. pose proof (is_char_nonempty _ _ Hsc). lia. }
    rewrite read_lines_snoc, Hr. pose proof (classify_reads self (c :: line) [] Ho Hc Hl Hb) as Hcl.
    destruct (classify_buffer self []) as [self' segments'], (read_line (tl_active_tag self) (c :: line)) as [active segment].
    destruct Hcl as [-> Hi]. cbn [snd with_tag tl_active_tag]. rewrite Hend, Hi, !items_app, items_one, <- !app_assoc. done.
  - destruct Hm as (Hb & Hnm & ->). rewrite Hb. cbn [length Nat.eqb snd]. rewrite Hend. destruct line as [|c line].
    { cbn [encode_all map concat bytes_items]. rewrite !app_nil_r, Hr. by rewrite items_app. }
    rewrite read_lines_snoc, Hr. pose proof (Hnm [] (tl_active_tag self) ltac:(constructor)) as Hrl. rewrite app_nil_r in Hrl.
    by rewrite Hrl, !items_app, items_one, line_text_items.
Qed.

Lemma parser_new_follows : follows [] (parser_new specs) [].
Proof.
  split; [done|done|constructor|]. exists [], [], []. split; [apply cut_lines_nil|]. split; [constructor|]. done.
Qed.

(** * Pieces *)

Lemma classify_from self segments :
  fst (classify_buffer self segments) = fst (classify_buffer self [])
  /\ items (snd (classify_buffer self segments)) = items segments ++ items (snd (classify_buffer self [])).
Proof.
  assert (Hpush : forall s, items (push_segment segments s) = items segments ++ items (push_segment [] s)).
  { intros s. by rewrite !push_segment_items. }
  unfold classify_buffer, push_text. destruct (exact (tl_opens _) _), (tl_active_tag _); try (split; [done|apply Hpush]);
    destruct (exact (tl_closes _) _); try case_bool_decide; try (split; [done|apply Hpush]).
Qed.

(** What is said from some state on does not depend on what was said before. *)
Lemma parse_chars_from delta self run segments run' segments' said :
  items segments ++ bytes_items (tl_active_tag self) run
  = said ++ items segments' ++ bytes_items (tl_active_tag self) run' ->
  let '(self1, run1, segments1) := parse_chars delta self run segments in
  let '(self2, run2, segments2) := parse_chars delta self run' segments' in
  self1 = self2 /\ items segments1 ++ bytes_items (tl_active_tag self1) run1
                   = said ++ items segments2 ++ bytes_items (tl_active_tag self1) run2.
Proof.
  revert self run segments run' segments'. induction delta as [|c delta IH]; intros self run segments run' segments' E;
    cbn [parse_chars]; [done|]. destruct (tl_mode self).
  - set (self1 := with_line Probe _ self).
    assert (Ef : items (flush_run self run segments) = said ++ items (flush_run self run' segments')) by (by rewrite !flush_run_items).
    destruct (c =? newline).
    + destruct (classify_from self1 (flush_run self run segments)) as [E1 E2].
      destruct (classify_from self1 (flush_run self run' segments')) as [E1' E2'].
      destruct (classify_buffer self1 (flush_run self run segments)) as [s g], (classify_buffer self1 (flush_run self run' segments')) as [s' g'].
      cbn [fst snd] in *. subst s s'. apply IH. cbn [bytes_items map]. by rewrite !app_nil_r, E2, E2', Ef, app_assoc.
    + destruct (_ || _); apply IH; cbn [bytes_items map]; rewrite !app_nil_r; [done|]. by rewrite !push_text_items, Ef, app_assoc.
  - assert (Er : forall tag b, tag = tl_active_tag self ->
      items segments ++ bytes_items tag (run ++ b) = said ++ items segments' ++ bytes_items tag (run' ++ b)).
    { intros tag b ->. unfold bytes_items in *. by rewrite !map_app, app_assoc, E, <- !app_assoc. }
    destruct (c =? newline); apply IH; [|by apply Er].
    cbn [bytes_items map]. rewrite !app_nil_r, !push_text_items. by apply Er.
Qed.

Lemma parse_chars_app x y self run segments :
  parse_chars (x ++ y) self run segments
  = let '(self1, run1, segments1) := parse_chars x self run segments in parse_chars y self1 run1 segments1.
Proof.
  revert self run segments. induction x as [|c x IH]; intros self run segments; cbn [parse_chars app]; [done|].
  destruct (tl_mode self).
  - destruct (c =? newline); [by destruct (classify_buffer _ _)|]. by destruct (_ || _).
  - by destruct (c =? newline).
Qed.

Lemma parse_two a b self :
  utf8_valid a = true ->
  let (self1, segments1) := parse a self in
  let (self2, segments2) := parse b self1 in
  fst (parse (a ++ b) self) = self2 /\ items (snd (parse (a ++ b) self)) = items (segments1 ++ segments2).
Proof.
  intros Ha. unfold parse. rewrite chars_app, parse_chars_app by done.
  destruct (parse_chars (chars a) self [] []) as [[self1 run1] segments1].
  pose proof (parse_chars_from (chars b) self1 run1 segments1 [] [] (items segments1 ++ bytes_items (tl_active_tag self1) run1)) as Hf.
  cbn [bytes_items map] in Hf. specialize (Hf ltac:(by rewrite !app_nil_r)).
  destruct (parse_chars (chars b) self1 run1 segments1) as [[self2 run2] segments2],
    (parse_chars (chars b) self1 [] []) as [[self3 run3] segments3]. destruct Hf as [-> Hf]. cbn [fst snd].
  split; [done|]. by rewrite items_app, !flush_run_items, Hf.
Qed.

Lemma parse_nothing self : parse [] self = (self, []).
Proof. done. Qed.

Lemma finish_twice self : snd (finish (fst (finish self))) = [].
Proof.
  assert (tl_line_buffer (fst (finish self)) = [] /\ tl_active_tag (fst (finish self)) = None) as [Hb Ha].
  { unfold finish. destruct (Nat.eqb_spec (length (tl_line_buffer self)) 0) as [E|_].
    - apply nil_length_inv in E. by split.
    - split; [|by destruct (classify_buffer self []) as [self' segments']].
      unfold classify_buffer. destruct (exact (tl_opens _) _), (tl_active_tag _); try done;
        destruct (exact (tl_closes _) _); try case_bool_decide; done. }
  unfold finish at 1. rewrite Hb. cbn [length Nat.eqb]. by rewrite Ha.
Qed.

End Lines.
