(* ===== verification/PlanFacts.v ===== *)
(** Proposed plans and assistant text: the plan's stage says what reading line by
    line gives, and the stages behind one another do too (lemmas on Projectors). *)

From S2P Require Import Prelude Disk Text TextFacts Projectors MatcherFacts Streams HiddenFacts LineFacts.

Open Scope Z_scope.

(** * Plan segments *)

Definition plan_specs : list (TagSpec PlanTag) :=
  [{| ts_open := OPEN_TAG; ts_close := CLOSE_TAG; ts_tag := ProposedPlan |}].

(** The event of a segment, and back. *)
Definition plan_event (segment : TaggedLineSegment PlanTag) : ProposedPlanSegment :=
  match segment with
  | Normal text => PlanNormal text
  | TagStart _ => ProposedPlanStart
  | TagDelta _ text => ProposedPlanDelta text
  | TagEnd _ => ProposedPlanEnd
  end.

Definition tagged (event : ProposedPlanSegment) : TaggedLineSegment PlanTag :=
  match event with
  | PlanNormal text => Normal text
  | ProposedPlanStart => TagStart ProposedPlan
  | ProposedPlanDelta text => TagDelta ProposedPlan text
  | ProposedPlanEnd => TagEnd ProposedPlan
  end.

Lemma tagged_event segment : tagged (plan_event segment) = segment.
Proof. by destruct segment as [text|[]|[] text|[]]. Qed.

Lemma tagged_events segments : map tagged (map plan_event segments) = segments.
Proof. rewrite map_map. erewrite map_ext by apply tagged_event. apply map_id. Qed.

(** The bytes that are shown: those outside of plans. *)
Definition shown_item (item : @Item PlanTag) : option byte :=
  match item with Byte None b => Some b | _ => None end.

Definition shown (segments : list (TaggedLineSegment PlanTag)) : bytes := omap shown_item (items segments).

Lemma shown_app segments segments' : shown (segments ++ segments') = shown segments ++ shown segments'.
Proof. unfold shown. by rewrite items_app, omap_app. Qed.

Lemma shown_one segment : shown [segment] = match segment with Normal text => text | _ => [] end.
Proof.
  unfold shown. rewrite items_one. destruct segment as [text|tag|tag text|tag]; cbn; try done;
    induction text as [|b text IH]; cbn; try done. by f_equal.
Qed.

Lemma map_segments_is segments :
  map_segments segments = {| renderable := shown segments; events := map plan_event segments |}.
Proof.
  induction segments as [|segment segments IH] using rev_ind; [done|]. unfold map_segments in *.
  rewrite fold_left_app, IH, map_app, shown_app, shown_one. cbn [fold_left map].
  destruct segment as [text|[]|[] text|[]]; cbn; by rewrite ?app_nil_r.
Qed.

(** Two outputs that show the same, with the same events once texts are joined. *)
Definition same_plan (x y : TextProjection ProposedPlanSegment) : Prop :=
  renderable x = renderable y /\ items (map tagged (events x)) = items (map tagged (events y)).

#[export] Instance same_plan_equivalence : Equivalence same_plan.
Proof.
  split; [intros x; done|intros x y [? ?]; done|]. intros x y z [E1 E2] [E3 E4]. split; congruence.
Qed.

#[export] Instance same_plan_merge : Proper (same_plan ==> same_plan ==> same_plan) merge.
Proof.
  intros x x' [E1 E2] y y' [E3 E4]. split; unfold merge; cbn [renderable events]; [by rewrite E1, E3|]. by rewrite !map_app, !items_app, E2, E4.
Qed.

Lemma same_plan_segments segments segments' :
  items segments = items segments' -> same_plan (map_segments segments) (map_segments segments').
Proof.
  intros E. rewrite !map_segments_is. split; cbn [renderable events]; [unfold shown; by rewrite E|]. by rewrite !tagged_events.
Qed.

Lemma map_segments_app segments segments' :
  map_segments (segments ++ segments') = merge (map_segments segments) (map_segments segments').
Proof. rewrite !map_segments_is. unfold merge. cbn. by rewrite shown_app, map_app. Qed.

(** * The interface *)

Definition plan_stream_ok (self : ProposedPlanProjector) : Prop :=
  exists consumed said, follows plan_specs consumed (pp_parser self) said.

#[export] Program Instance plan_laws : StreamLaws ProposedPlanProjector ProposedPlanSegment := {
  stream_ok := plan_stream_ok;
  same := same_plan
}.
Next Obligation.
  intros input self (consumed & said & Hf) Hi. pose proof (parse_follows plan_specs input consumed _ said Hi Hf) as Hp.
  cbn [project plan_projector]. destruct (parse input (pp_parser self)) as [parser segments]. cbn [fst]. by do 2 eexists.
Qed.
Next Obligation.
  intros self _. cbn [project plan_projector]. rewrite parse_nothing. by destruct self.
Qed.
Next Obligation.
  intros a b self _ Ha _. pose proof (parse_two a b (pp_parser self) Ha) as Htwo. cbn [project plan_projector].
  destruct (parse a (pp_parser self)) as [p1 s1]. cbn [pp_parser]. destruct (parse b p1) as [p2 s2].
  destruct (parse (a ++ b) (pp_parser self)) as [p3 s3]. cbn [fst snd] in *. destruct Htwo as [-> E]. split; [done|].
  rewrite <- map_segments_app. by apply same_plan_segments.
Qed.
Next Obligation.
  intros self _. cbn [close plan_projector]. pose proof (finish_twice (pp_parser self)) as Ht.
  destruct (finish (pp_parser self)) as [p1 s1]. cbn [fst pp_parser] in *. destruct (finish p1) as [p2 s2]. cbn [snd] in *.
  by rewrite Ht.
Qed.

Lemma plan_new_ok : stream_ok plan_new.
Proof. exists [], []. apply (parser_new_follows plan_specs). Qed.

(** * What a text reads as *)

Lemma plan_collect_whole text :
  utf8_valid text = true -> same_plan (collect [text] plan_new) (map_segments (read_text plan_specs text)).
Proof.
  intros Hv. unfold collect. cbn [project_all project close plan_projector].
  pose proof (parse_follows plan_specs text [] (pp_parser plan_new) [] Hv (parser_new_follows plan_specs)) as Hf.
  destruct (parse text (pp_parser plan_new)) as [parser segments]. cbn [app] in Hf. cbn [pp_parser].
  pose proof (finish_reads _ _ _ _ Hf) as Hr. rewrite encode_chars in Hr by done.
  destruct (finish parser) as [parser' tail]. cbn [snd] in *. rewrite merge_nothing, <- map_segments_app.
  apply same_plan_segments. by rewrite items_app.
Qed.

Lemma plan_collect pieces :
  texts pieces -> same_plan (collect pieces plan_new) (map_segments (read_text plan_specs (concat pieces))).
Proof.
  intros Hs. etrans; [exact (collect_whole pieces plan_new plan_new_ok Hs)|]. by apply plan_collect_whole, texts_concat.
Qed.

(** ** The plan that is captured *)

(** What a capture sees of an item. *)
Definition observe_item (self : ProposedPlanCapture) (item : @Item PlanTag) : ProposedPlanCapture :=
  match item with
  | Byte None _ => self
  | Byte (Some _) b =>
      if pc_active self
      then {| pc_saw_plan := pc_saw_plan self; pc_active := true; pc_text := pc_text self ++ [b] |}
      else self
  | Starts _ => {| pc_saw_plan := true; pc_active := true; pc_text := [] |}
  | Ends _ => {| pc_saw_plan := pc_saw_plan self; pc_active := false; pc_text := pc_text self |}
  end.

Lemma observe_items self event :
  observe self event = fold_left observe_item (segment_items (tagged event)) self.
Proof.
  destruct event as [text| |text|]; cbn [tagged segment_items fold_left observe observe_item]; try done.
  - induction text as [|b text IH]; [done|]. exact IH.
  - revert self. induction text as [|b text IH]; intros self; cbn [map fold_left observe_item].
    + destruct self as [saw [] text']; cbn; by rewrite ?app_nil_r.
    + rewrite <- IH. destruct self as [saw [] text']; cbn; by rewrite <- ?app_assoc.
Qed.

Lemma observe_all events self :
  fold_left observe events self = fold_left observe_item (items (map tagged events)) self.
Proof.
  revert self. induction events as [|event events IH]; intros self; [done|].
  cbn [fold_left map]. rewrite IH, observe_items. unfold items. cbn [map concat]. by rewrite fold_left_app.
Qed.

(** A capture does not depend on how the texts were cut. *)
Lemma captured_same events events' :
  items (map tagged events) = items (map tagged events') ->
  captured (fold_left observe events capture_default) = captured (fold_left observe events' capture_default).
Proof. intros E. by rewrite !observe_all, E. Qed.

(** * Assistant text *)

Definition chunk_merge (x y : AssistantTextChunk) : AssistantTextChunk :=
  {| visible_text := visible_text x ++ visible_text y; citations := citations x ++ citations y;
     plan_segments := plan_segments x ++ plan_segments y |}.

Definition no_chunk : AssistantTextChunk := {| visible_text := []; citations := []; plan_segments := [] |}.

(** The pieces one after the other, then the end of the text. *)
Fixpoint assistant_collect (pieces : list bytes) (self : AssistantTextProjector) : AssistantTextChunk :=
  match pieces with
  | [] => snd (assistant_close self)
  | piece :: pieces =>
      let (self, chunk) := assistant_project piece self in
      chunk_merge chunk (assistant_collect pieces self)
  end.

(** The two stages apart: what the first passes on for each piece and for the end,
    and the second on that. *)
Definition cite_end (c : option CitationProjector) : TextProjection bytes :=
  match c with Some p => snd (close p) | None => nothing end.

Fixpoint cite_all (pieces : list bytes) (c : option CitationProjector) : list (TextProjection bytes) :=
  match pieces with
  | [] => [cite_end c]
  | piece :: pieces =>
      match c with
      | Some p => let (p, out) := project piece p in out :: cite_all pieces (Some p)
      | None => only_renderable piece :: cite_all pieces None
      end
  end.

Fixpoint route_all (cited : list (TextProjection bytes)) (p : option ProposedPlanProjector) : AssistantTextChunk :=
  match cited with
  | [] =>
      match p with
      | Some plan => {| visible_text := renderable (snd (close plan)); citations := []; plan_segments := events (snd (close plan)) |}
      | None => no_chunk
      end
  | c :: cited =>
      match p with
      | Some plan =>
          let (plan, out) := project (renderable c) plan in
          chunk_merge {| visible_text := renderable out; citations := events c; plan_segments := events out |}
            (route_all cited (Some plan))
      | None => chunk_merge {| visible_text := renderable c; citations := events c; plan_segments := [] |} (route_all cited None)
      end
  end.

Lemma assistant_stages pieces c p :
  assistant_collect pieces {| as_citations := c; as_plan := p |} = route_all (cite_all pieces c) p.
Proof.
  revert c p. induction pieces as [|piece pieces IH]; intros c p.
  - unfold assistant_collect, assistant_close, route. cbn [cite_all route_all as_citations as_plan].
    assert (Hc : forall A (k : AssistantTextProjector * TextProjection bytes -> A),
      k (match c with
         | Some projector => let (projector0, projection) := close projector in
             ({| as_citations := Some projector0; as_plan := p |}, projection)
         | None => ({| as_citations := c; as_plan := p |}, nothing)
         end) = k ({| as_citations := match c with Some q => Some (fst (close q)) | None => None end; as_plan := p |}, cite_end c)).
    { intros A k. unfold cite_end. destruct c as [q|]; [by destruct (close q)|done]. }
    rewrite (Hc _ (fun x => x)). cbn [as_plan]. destruct p as [plan|].
    + destruct (project (renderable (cite_end c)) plan) as [plan' out]. cbn [as_plan as_citations]. destruct (close plan') as [plan2 tail].
      unfold chunk_merge. cbn. by rewrite app_nil_r.
    + unfold chunk_merge, no_chunk. cbn. by rewrite !app_nil_r.
  - cbn [assistant_collect cite_all]. unfold assistant_project, route. cbn [as_citations as_plan]. destruct c as [q|].
    + destruct (project piece q) as [q' out]. cbn [as_plan as_citations route_all]. destruct p as [plan|]; [|by rewrite IH].
      destruct (project (renderable out) plan) as [plan' out']. by rewrite IH.
    + cbn [route_all as_plan as_citations renderable events only_renderable]. destruct p as [plan|]; [|by rewrite IH].
      destruct (project piece plan) as [plan' out']. by rewrite IH.
Qed.

(** The citations' stage passes on texts. *)
Lemma citation_texts input (self : CitationProjector) :
  stream_ok self -> utf8_valid input = true ->
  utf8_valid (renderable (snd (project input self))) = true /\ stream_ok (fst (project input self)).
Proof.
  intros Hok Hi. split; [|by apply (project_keeps input self)]. cbn [project citation_projector hidden_projector].
  pose proof (project_ok input (ci_inner self) (proj1 Hok) Hi) as Hp. destruct (hidden_project input (ci_inner self)) as [inner out].
  apply Hp.
Qed.

Lemma citation_end_texts (self : CitationProjector) : stream_ok self -> utf8_valid (renderable (snd (close self))) = true.
Proof.
  intros [Hok _]. cbn [close citation_projector hidden_projector]. unfold hidden_close.
  destruct (ht_mode (ci_inner self)); cbn; [apply Hok|done].
Qed.

Lemma cite_all_some pieces (self : CitationProjector) :
  stream_ok self -> texts pieces ->
  texts (map renderable (cite_all pieces (Some self)))
  /\ concat (map renderable (cite_all pieces (Some self))) = renderable (collect pieces self)
  /\ concat (map events (cite_all pieces (Some self))) = events (collect pieces self).
Proof.
  intros Hok Hs. revert self Hok. unfold collect. induction Hs as [|piece pieces Hv _ IH]; intros self Hok.
  - cbn. rewrite !app_nil_r. split; [|done]. constructor; [by apply citation_end_texts|constructor].
  - destruct (citation_texts piece self Hok Hv) as [Ht Hk]. cbn [cite_all project_all].
    destruct (project piece self) as [self' out]. cbn [fst snd] in *. destruct (IH self' Hk) as (H1 & H2 & H3).
    destruct (project_all pieces self') as [self2 rest]. cbn [map concat]. unfold merge in *. cbn [renderable events] in *.
    rewrite H2, H3, <- !app_assoc. split; [by constructor|done].
Qed.

Lemma cite_all_none pieces :
  texts pieces ->
  texts (map renderable (cite_all pieces None)) /\ concat (map renderable (cite_all pieces None)) = concat pieces
  /\ concat (map events (cite_all pieces None)) = [].
Proof.
  induction 1 as [|piece pieces Hv _ (H1 & H2 & H3)]; cbn [cite_all map concat cite_end].
  - split; [by repeat constructor|done].
  - rewrite H2, H3. split; [by constructor|done].
Qed.

Lemma route_all_some cited plan :
  visible_text (route_all cited (Some plan)) = renderable (collect (map renderable cited) plan)
  /\ citations (route_all cited (Some plan)) = concat (map events cited)
  /\ plan_segments (route_all cited (Some plan)) = events (collect (map renderable cited) plan).
Proof.
  unfold collect. revert plan. induction cited as [|c cited IH]; intros plan; cbn [route_all map project_all concat].
  { by rewrite nothing_merge. }
  destruct (project (renderable c) plan) as [plan' out]. destruct (IH plan') as (H1 & H2 & H3).
  destruct (project_all (map renderable cited) plan') as [plan2 rest]. unfold chunk_merge, merge in *. cbn in *.
  rewrite H1, H2, H3. by rewrite <- !app_assoc.
Qed.

Lemma route_all_none cited :
  route_all cited None = {| visible_text := concat (map renderable cited); citations := concat (map events cited); plan_segments := [] |}.
Proof. induction cited as [|c cited IH]; [done|]. cbn [route_all map concat]. by rewrite IH. Qed.
