(* ===== verification/Model.v ===== *)
(** The journal's public data and errors (thread-store-journal: model.rs,
    error.rs) and the slice searches of [std] it uses. *)

From S2P Require Import Prelude Canonical Events Receipts Disk.

Open Scope string_scope.
Open Scope list_scope.
Open Scope Z_scope.

(** * Errors *)

Inductive JournalError :=
  | InvalidConfig (reason : string)
  | WriterBusy
  | RevisionConflict (expected current : ThreadRevision)
  | IdempotencyCollision (command_id : CommandId)
  | InvalidBatch (reason : string)
  | InvalidRange (reason : string)
  | CorruptSegment (path : string) (offset : Z) (reason : string)
  | Io (e : IoError).

Definition corrupt (path : string) (offset : Z) (reason : string) : JournalError :=
  CorruptSegment path offset reason.

(** * Configuration *)

Record JournalConfig := {
  jc_root : string;
  jc_max_segment_bytes : u64;
  jc_max_frame_payload_bytes : u64
}.

Definition DEFAULT_MAX_SEGMENT_BYTES : u64 := u64_of (64 * 1024 * 1024).
Definition DEFAULT_MAX_FRAME_PAYLOAD_BYTES : u64 := u64_of (256 * 1024 * 1024).

Definition journal_config_new (root : string) : JournalConfig :=
  {| jc_root := root; jc_max_segment_bytes := DEFAULT_MAX_SEGMENT_BYTES;
     jc_max_frame_payload_bytes := DEFAULT_MAX_FRAME_PAYLOAD_BYTES |}.

Definition with_max_segment_bytes (value : u64) (c : JournalConfig) : JournalConfig :=
  {| jc_root := jc_root c; jc_max_segment_bytes := value;
     jc_max_frame_payload_bytes := jc_max_frame_payload_bytes c |}.

Definition with_max_frame_payload_bytes (value : u64) (c : JournalConfig) : JournalConfig :=
  {| jc_root := jc_root c; jc_max_segment_bytes := jc_max_segment_bytes c;
     jc_max_frame_payload_bytes := value |}.

(** * Data *)

Inductive AppendOutcome :=
  | Committed (receipt : ThreadCommandReceipt) (events : list ThreadEventEnvelope)
  | Duplicate (receipt : ThreadCommandReceipt).

Definition outcome_receipt (o : AppendOutcome) : ThreadCommandReceipt :=
  match o with Committed receipt _ | Duplicate receipt => receipt end.

Definition outcome_receipt_and_events (o : AppendOutcome)
    : ThreadCommandReceipt * option (list ThreadEventEnvelope) :=
  match o with
  | Committed receipt events => (receipt, Some events)
  | Duplicate receipt => (receipt, None)
  end.

Record DurabilityBarrier := { db_through : ThreadHead; db_batch_count : u64 }.

Record SegmentInfo := {
  sg_sequence : u64;
  sg_first_revision : ThreadRevision;
  sg_last_revision : ThreadRevision;
  sg_path : string;
  sg_bytes : u64
}.

Record ThreadRevisionRange := {
  range_start : ThreadRevision;
  range_end_inclusive : ThreadRevision
}.

(** [ThreadRevisionRange::inclusive] *)
Definition range_inclusive (start end_inclusive : ThreadRevision)
    : result JournalError ThreadRevisionRange :=
  _ ← ensure (negb (bool_decide (start = REVISION_ZERO)))
        (InvalidRange "revision zero does not identify an event");
  _ ← ensure (negb (rev end_inclusive <? rev start)) (InvalidRange "range end precedes its start");
  mret {| range_start := start; range_end_inclusive := end_inclusive |}.

(** * [std] slice searches *)

(** [partition_point] of a slice whose elements satisfying [p] come first: the
    number of those elements. *)
Fixpoint partition_point {A} (p : A -> bool) (l : list A) : nat :=
  match l with
  | [] => 0
  | a :: l => if p a then S (partition_point p l) else 0
  end.

(** [binary_search] of a sorted vector without duplicates: [Ok] of the index,
    or [Err] of the index where the element would be inserted. *)
Definition binary_search (l : list u64) (x : u64) : result nat nat :=
  let i := partition_point (fun y => val y <? val x) l in
  match l !! i with
  | Some y => if val y =? val x then Ok i else Err i
  | None => Err i
  end.

(** [Vec::insert] at an index within bounds. *)
Definition vec_insert {A} (i : nat) (x : A) (l : list A) : list A := take i l ++ x :: drop i l.
