(* ===== verification/Recovery.v ===== *)
(** Recovery of a journal from its segment files
    (thread-store-journal: recovery.rs, snapshot.rs). *)

From stdpp Require Import sorting.
From S2P Require Import Prelude Canonical Events Commands Receipts Format CommandIndex Disk Model.

Open Scope string_scope.
Open Scope list_scope.
Open Scope Z_scope.

(** [FramePointer::previous_head] *)
Definition pointer_previous_head (p : FramePointer) : ThreadHead :=
  {| head_revision := revision_new (u64_saturating_sub (revision_get (fp_start_revision p)) 1);
     head_digest := fp_previous_record_digest p |}.

Record RecoveryState := {
  rs_head : ThreadHead;
  rs_segments : list SegmentInfo;
  rs_command_index : CommandIndex
}.

Definition segment_index_for_revision (segments : list SegmentInfo) (revision : ThreadRevision)
    : option nat :=
  let index := partition_point (fun segment => rev (sg_last_revision segment) <? rev revision) segments in
  segment ← segments !! index;
  if rev (sg_first_revision segment) <=? rev revision then Some index else None.

Inductive RecoveryMode := Writer | Snapshot.

Definition is_writer (mode : RecoveryMode) : bool :=
  match mode with Writer => true | Snapshot => false end.

(** * Segment files of the directory *)

Definition sequence_le (a b : u64 * string) : Prop := val (fst a) <= val (fst b).
#[export] Instance sequence_le_dec a b : Decision (sequence_le a b).
Proof. unfold sequence_le. apply _. Defined.

(** The loop over the directory entries. *)
Fixpoint numbered_paths (entries : list (string * bool)) : result JournalError (list (u64 * string)) :=
  match entries with
  | [] => Ok []
  | (name, is_file) :: entries =>
      if negb is_file then numbered_paths entries
      else
        _ ← ensure (utf8_valid (str_bytes name)) (corrupt name 0 "segment filename is not UTF-8");
        match parse_segment_name name with
        | None => numbered_paths entries
        | Some sequence => numbered ← numbered_paths entries; mret ((sequence, name) :: numbered)
        end
  end.

Definition segment_paths : M Disk JournalError (list (u64 * string)) :=
  entries ← map_error Io fs_read_dir;
  numbered ← of_result (numbered_paths entries);
  mret (merge_sort sequence_le numbered).

Section Recovery.
Context `{External, JsonCodec}.

(** * Reading frames through pointers *)

(** [FrameReadCursor]; its buffer is overwritten by every read. *)
Record FrameReadCursor := { fc_offset : u64 }.
Definition cursor_default : FrameReadCursor := {| fc_offset := u64_zero |}.
Definition reset_position (c : FrameReadCursor) : FrameReadCursor := {| fc_offset := u64_zero |}.

(** Reads the frame of [pointer] from the file [path], whose handle stands at
    [position]. *)
Definition read_pointer (pointer : FramePointer) (position : Z) (cursor : FrameReadCursor)
    (path : string) (thread_id : ThreadId) (max_payload_bytes : u64)
    : M Disk JournalError (DecodedFrame * FrameReadCursor) :=
  let offset := val (fp_offset pointer) in
  position ← (if bool_decide (fc_offset cursor = fp_offset pointer) then mret position
              else _ ← map_error Io (fs_seek path offset); mret offset);
  b ← map_error Io (fs_read_exact path position (val (fp_len pointer)));
  next ← of_option (u64_checked_add (fp_offset pointer) (val (fp_len pointer)))
           (CorruptSegment path offset "frame end offset overflow");
  frame ← of_result (map_err (CorruptSegment path offset) (decode_complete_frame b));
  _ ← guard_m (negb (val max_payload_bytes <? val (fh_payload_len (df_header frame))))
        (CorruptSegment path offset "frame payload exceeds configured maximum");
  _ ← of_result (map_err (CorruptSegment path offset)
        (validate_stored_batch (df_header frame) (df_stored frame) thread_id
           (pointer_previous_head pointer)));
  mret (frame, {| fc_offset := next |}).

(** The loop of [visit_segment_pointers] from [offset]; [visit] receives the
    pointer, the command identifier and the position of the file handle, and
    answers whether to stop.  Every frame advances the offset, so [fuel] bytes
    of remaining file are enough. *)
Fixpoint visit_pointers {A} (visit : FramePointer -> byte_array 16 -> Z -> A -> M Disk JournalError (A * bool))
    (fuel : nat) (segment : SegmentInfo) (offset : u64) (acc : A) : M Disk JournalError (A * bool) :=
  let path := sg_path segment in
  let finish :=
    if negb (bool_decide (offset = sg_bytes segment))
    then throw (corrupt path (val offset) "segment framing does not end at recovered length")
    else mret (acc, false) in
  match fuel with
  | O => finish
  | S fuel =>
      if negb (val offset <? val (sg_bytes segment)) then finish
      else
        _ ← map_error Io (fs_seek path (val offset));
        b ← map_error Io (fs_read_exact path (val offset) (Z.of_nat FRAME_HEADER_LEN));
        header ← of_result (map_err (corrupt path (val offset)) (decode_frame_header b));
        length ← of_result (map_err (corrupt path (val offset)) (frame_len header));
        next ← of_option (u64_checked_add offset (val length))
                 (corrupt path (val offset) "segment offset overflow");
        _ ← guard_m (negb (val (sg_bytes segment) <? val next))
              (corrupt path (val offset) "frame extends beyond recovered segment length");
        let pointer := {| fp_previous_record_digest := fh_previous_record_digest header;
                          fp_start_revision := fh_start_revision header;
                          fp_offset := offset;
                          fp_len := length |} in
        '(acc, stop) ← visit pointer (fh_command_id header) (val offset + Z.of_nat FRAME_HEADER_LEN) acc;
        if (stop : bool) then mret (acc, true) else visit_pointers visit fuel segment next acc
  end.

Definition visit_segment_pointers {A}
    (visit : FramePointer -> byte_array 16 -> Z -> A -> M Disk JournalError (A * bool))
    (segment : SegmentInfo) (acc : A) : M Disk JournalError (A * bool) :=
  _ ← map_error Io (fs_open (sg_path segment));
  visit_pointers visit (Z.to_nat (val (sg_bytes segment))) segment
    (u64_of (Z.of_nat SEGMENT_HEADER_LEN)) acc.

(** The visitor of [find_command_pointer]. *)
Definition match_command (expected : byte_array 16) (pointer : FramePointer)
    (stored_command_id : byte_array 16) (position : Z) (found : option FramePointer)
    : M Disk JournalError (option FramePointer * bool) :=
  if bool_decide (stored_command_id = expected) then mret (Some pointer, true)
  else mret (found, false).

Fixpoint find_command_pointer (segments : list SegmentInfo) (command_id : CommandId)
    : M Disk JournalError (option FramePointer) :=
  match segments with
  | [] => mret None
  | segment :: segments =>
      '(found, _) ← visit_segment_pointers (match_command (as_uuid command_id)) segment None;
      match found with
      | Some pointer => mret (Some pointer)
      | None => find_command_pointer segments command_id
      end
  end.

(** * Recovery *)

Section Fold.
Context {St : Type} (visit : St -> ThreadEventEnvelope -> St).

(** The mutable arguments of [recover_segment]. *)
Record Recovering := {
  rg_state : RecoveryState;
  rg_commands : gset CommandId;
  rg_visited : St
}.

Definition handle_incomplete_tail (path : string) (offset : Z) (is_last : bool) (mode : RecoveryMode)
    : M Disk JournalError unit :=
  _ ← guard_m is_last (corrupt path offset "incomplete frame before the final segment");
  if is_writer mode then
    _ ← map_error Io (fs_set_len path offset);
    map_error Io (fs_sync_all path)
  else mret tt.

(** Decodes and checks the frame at [offset], whose header is known, and
    accounts for it. *)
Definition recover_frame (thread_id : ThreadId) (path : string) (mode : RecoveryMode)
    (offset : u64) (length : u64) (frame_bytes : bytes) (g : Recovering)
    : result JournalError Recovering :=
  decoded ← map_err (corrupt path (val offset)) (decode_complete_frame frame_bytes);
  let previous_head := rs_head (rg_state g) in
  next_head ← map_err (corrupt path (val offset))
    (validate_stored_batch (df_header decoded) (df_stored decoded) thread_id previous_head);
  let command_id := sb_command_id (df_stored decoded) in
  _ ← ensure (negb (is_writer mode && bool_decide (command_id ∈ rg_commands g)))
        (corrupt path (val offset) "duplicate committed command id");
  let state := rg_state g in
  mret {| rg_state := {|
            rs_head := next_head;
            rs_segments := rs_segments state;
            rs_command_index :=
              if is_writer mode then
                index_insert command_id
                  {| fp_previous_record_digest := head_digest previous_head;
                     fp_start_revision := fh_start_revision (df_header decoded);
                     fp_offset := offset;
                     fp_len := length |} (rs_command_index state)
              else rs_command_index state |};
          rg_commands := if is_writer mode then {[ command_id ]} ∪ rg_commands g else rg_commands g;
          rg_visited := fold_left visit (stored_list (sb_events (df_stored decoded))) (rg_visited g) |}.

(** The loop of [recover_segment] from [offset]; it returns the final length
    of the file and the offset reached. *)
Fixpoint recover_frames (fuel : nat) (config : JournalConfig) (thread_id : ThreadId)
    (path : string) (is_last : bool) (mode : RecoveryMode) (file_len : Z) (offset : u64)
    (g : Recovering) : M Disk JournalError (Recovering * Z * u64) :=
  match fuel with
  | O => mret (g, file_len, offset)
  | S fuel =>
      if negb (val offset <? file_len) then mret (g, file_len, offset)
      else
        let remaining := file_len - val offset in
        if remaining <? Z.of_nat FRAME_HEADER_LEN then
          _ ← handle_incomplete_tail path (val offset) is_last mode;
          mret (g, val offset, offset)
        else
          frame_header_bytes ←
            map_error Io (fs_read_exact path (val offset) (Z.of_nat FRAME_HEADER_LEN));
          frame_header ← of_result (map_err (corrupt path (val offset))
                                      (decode_frame_header frame_header_bytes));
          _ ← guard_m (negb (val (jc_max_frame_payload_bytes config) <? val (fh_payload_len frame_header)))
                (corrupt path (val offset) "frame payload exceeds configured maximum");
          length ← of_result (map_err (corrupt path (val offset)) (frame_len frame_header));
          if remaining <? val length then
            _ ← handle_incomplete_tail path (val offset) is_last mode;
            mret (g, val offset, offset)
          else
            rest ← map_error Io (fs_read_exact path (val offset + Z.of_nat FRAME_HEADER_LEN)
                                   (val length - Z.of_nat FRAME_HEADER_LEN));
            g ← of_result (recover_frame thread_id path mode offset length
                             (frame_header_bytes ++ rest) g);
            next ← of_option (u64_checked_add offset (val length))
                     (corrupt path (val offset) "segment offset overflow");
            recover_frames fuel config thread_id path is_last mode file_len next g
  end.

Definition recover_segment (config : JournalConfig) (thread_id : ThreadId) (path : string)
    (expected_sequence : u64) (is_last : bool) (mode : RecoveryMode) (g : Recovering)
    : M Disk JournalError Recovering :=
  _ ← map_error Io (fs_open path);
  file_len ← map_error Io (fs_len path);
  _ ← guard_m (negb (file_len <? Z.of_nat SEGMENT_HEADER_LEN)) (corrupt path 0 "incomplete segment header");
  header_bytes ← map_error Io (fs_read_exact path 0 (Z.of_nat SEGMENT_HEADER_LEN));
  header ← of_result (map_err (corrupt path 0) (decode_segment_header header_bytes));
  expected_first ← of_option (checked_next (head_revision (rs_head (rg_state g))))
                     (corrupt path 0 "thread revision overflow");
  _ ← guard_m (bool_decide (sh_sequence header = expected_sequence)
               && bool_decide (sh_first_revision header = expected_first)
               && bool_decide (sh_thread_id header = as_uuid thread_id)
               && bool_decide (sh_previous_record_digest header = head_digest (rs_head (rg_state g))))
        (corrupt path 0 "segment header breaks journal continuity");
  let first_revision := sh_first_revision header in
  '(g, file_len, offset) ←
    recover_frames (Z.to_nat file_len) config thread_id path is_last mode file_len
      (u64_of (Z.of_nat SEGMENT_HEADER_LEN)) g;
  _ ← guard_m (negb (negb is_last && (val offset =? Z.of_nat SEGMENT_HEADER_LEN)))
        (corrupt path (val offset) "empty segment before journal tail");
  if is_writer mode then
    let state := rg_state g in
    mret {| rg_state := {|
              rs_head := rs_head state;
              rs_segments := rs_segments state ++ [{|
                sg_sequence := expected_sequence;
                sg_first_revision := first_revision;
                sg_last_revision := head_revision (rs_head state);
                sg_path := path;
                sg_bytes := u64_of file_len |}];
              rs_command_index := rs_command_index state |};
            rg_commands := rg_commands g;
            rg_visited := rg_visited g |}
  else mret g.

(** The loop over the numbered segment files, [index] being the position of
    the first one left. *)
Fixpoint recover_paths (config : JournalConfig) (thread_id : ThreadId) (mode : RecoveryMode)
    (path_count index : Z) (paths : list (u64 * string)) (g : Recovering)
    : M Disk JournalError Recovering :=
  match paths with
  | [] => mret g
  | (sequence, path) :: paths =>
      expected_sequence ← of_option (checked 0 (2 ^ 64) index)
                            (corrupt path 0 "segment count exceeds u64");
      _ ← guard_m (bool_decide (sequence = expected_sequence))
            (corrupt path 0 "segment sequence has a gap");
      let is_last := index + 1 =? path_count in
      short ← (if is_last then
                 file_len ← map_error Io (fs_len path);
                 mret (file_len <? Z.of_nat SEGMENT_HEADER_LEN)
               else mret false);
      if (short : bool) then
        if is_writer mode then
          _ ← map_error Io (fs_remove_file path);
          _ ← map_error Io sync_directory;
          mret g
        else mret g
      else
        g ← recover_segment config thread_id path sequence is_last mode g;
        recover_paths config thread_id mode path_count (index + 1) paths g
  end.

Definition recovering_new (state : St) : Recovering :=
  {| rg_state := {| rs_head := HEAD_EMPTY; rs_segments := []; rs_command_index := command_index_new |};
     rg_commands := ∅;
     rg_visited := state |}.

Definition recover_with_mode (config : JournalConfig) (thread_id : ThreadId) (mode : RecoveryMode)
    (state : St) : M Disk JournalError (RecoveryState * St) :=
  paths ← segment_paths;
  g ← recover_paths config thread_id mode (len paths) 0 paths (recovering_new state);
  mret (rg_state g, rg_visited g).

Definition recover_fold (config : JournalConfig) (thread_id : ThreadId) (state : St)
    : M Disk JournalError (RecoveryState * St) :=
  recover_with_mode config thread_id Writer state.

Definition recover_snapshot_consume (config : JournalConfig) (thread_id : ThreadId) (state : St)
    : M Disk JournalError St :=
  '(_, state) ← recover_with_mode config thread_id Snapshot state;
  mret state.

End Fold.

(** * Snapshots (snapshot.rs) *)

Definition validate_config (config : JournalConfig) : result JournalError unit :=
  _ ← ensure (negb (val (jc_max_segment_bytes config) <=? Z.of_nat SEGMENT_HEADER_LEN))
        (InvalidConfig "max segment bytes must exceed the segment header");
  ensure (negb (val (jc_max_frame_payload_bytes config) =? 0))
    (InvalidConfig "max frame payload bytes must be non-zero").

Definition consume_snapshot {St} (config : JournalConfig) (thread_id : ThreadId) (state : St)
    (consume : St -> ThreadEventEnvelope -> St) : M Disk JournalError St :=
  _ ← of_result (validate_config config);
  recover_snapshot_consume consume config thread_id state.

Definition fold_snapshot {St} (config : JournalConfig) (thread_id : ThreadId) (state : St)
    (fold : St -> ThreadEventEnvelope -> St) : M Disk JournalError St :=
  consume_snapshot config thread_id state (fun state event => fold state event).

End Recovery.
