(* ===== verification/JournalSpec.v ===== *)
(** The abstract journal: a list of segments, each a list of committed frames
    chained from the empty head, and what the files, the segment table and the
    command index of such a journal are.  RecoveryFacts and JournalFacts relate
    the code of Recovery and Journal to it. *)

From S2P Require Import Prelude Canonical Events Commands Receipts Format FormatFacts.
From S2P Require Import CommandIndex Disk Model Recovery.

Open Scope string_scope.
Open Scope list_scope.
Open Scope Z_scope.

(** A committed frame: its bytes and what they decode to. *)
Record Frame := {
  fr_bytes : bytes;
  fr_header : FrameHeader;
  fr_stored : StoredBatch
}.

Definition frame_events (f : Frame) : list ThreadEventEnvelope := stored_list (sb_events (fr_stored f)).
Definition frame_id (f : Frame) : CommandId := sb_command_id (fr_stored f).
Definition frame_head (f : Frame) : ThreadHead := header_head (fr_header f).

(** The segments of a journal, oldest first. *)
Abbreviation Layout := (list (list Frame)).

(** The head after some frames. *)
Definition last_head (h : ThreadHead) (fs : list Frame) : ThreadHead :=
  fold_left (fun _ f => frame_head f) fs h.

Definition frames_bytes (fs : list Frame) : bytes := concat (map fr_bytes fs).

Definition HEADER_BYTES : Z := Z.of_nat SEGMENT_HEADER_LEN.

(** The frame pointers of the frames laid out from [offset]. *)
Definition pointer_of (offset : Z) (f : Frame) : FramePointer :=
  {| fp_previous_record_digest := fh_previous_record_digest (fr_header f);
     fp_start_revision := fh_start_revision (fr_header f);
     fp_offset := u64_of offset;
     fp_len := u64_of (len (fr_bytes f)) |}.

Fixpoint frame_pointers (offset : Z) (fs : list Frame) : list (CommandId * FramePointer) :=
  match fs with
  | [] => []
  | f :: fs => (frame_id f, pointer_of offset f) :: frame_pointers (offset + len (fr_bytes f)) fs
  end.

Definition layout_pointers (layout : Layout) : list (CommandId * FramePointer) :=
  concat (map (frame_pointers HEADER_BYTES) layout).

Definition index_of (pointers : list (CommandId * FramePointer)) (c : CommandIndex) : CommandIndex :=
  fold_left (fun c '(id, p) => index_insert id p c) pointers c.

(** The segment table. *)
Definition segment_info (i : Z) (h : ThreadHead) (fs : list Frame) : SegmentInfo :=
  {| sg_sequence := u64_of i;
     sg_first_revision := revision_of (rev (head_revision h) + 1);
     sg_last_revision := head_revision (last_head h fs);
     sg_path := segment_file_name (u64_of i);
     sg_bytes := u64_of (HEADER_BYTES + len (frames_bytes fs)) |}.

Fixpoint segment_infos (i : Z) (h : ThreadHead) (layout : Layout) : list SegmentInfo :=
  match layout with
  | [] => []
  | fs :: layout => segment_info i h fs :: segment_infos (i + 1) (last_head h fs) layout
  end.

Definition layout_events (layout : Layout) : list ThreadEventEnvelope :=
  concat (map frame_events (concat layout)).

Lemma header_bytes : HEADER_BYTES = 80.
Proof. reflexivity. Qed.

Section Spec.
Context `{External, JsonCodec} (cfg : JournalConfig) (tid : ThreadId).

(** The frame decodes, fits the configuration and continues the head [h]. *)
Record frame_ok (h : ThreadHead) (f : Frame) : Prop := {
  fo_decode : decode_complete_frame (fr_bytes f) = Ok {| df_header := fr_header f; df_stored := fr_stored f |};
  fo_payload : val (fh_payload_len (fr_header f)) <= val (jc_max_frame_payload_bytes cfg);
  fo_continues : continues tid h (fr_header f) (fr_stored f)
}.

Fixpoint frames_ok (h : ThreadHead) (fs : list Frame) : Prop :=
  match fs with
  | [] => True
  | f :: fs => frame_ok h f /\ frames_ok (frame_head f) fs
  end.

(** What a crash can leave after the frames that lead to [h]: a proper prefix
    of a frame being appended. *)
Definition torn_tail (h : ThreadHead) (t : bytes) : Prop :=
  t = [] \/ exists f r, frame_ok h f /\ r <> [] /\ fr_bytes f = t ++ r.

(** The content of a segment file. *)
Definition segment_content (i : Z) (h : ThreadHead) (fs : list Frame) : bytes :=
  encode_segment_header (u64_of i) (revision_of (rev (head_revision h) + 1)) tid (head_digest h)
    ++ frames_bytes fs.

(** The files of the journal, with [t] after the last segment. *)
Fixpoint segment_files (i : Z) (h : ThreadHead) (layout : Layout) (t : bytes) : list (string * bytes) :=
  match layout with
  | [] => []
  | fs :: rest =>
      (segment_file_name (u64_of i), segment_content i h fs ++ (if is_empty rest then t else []))
        :: segment_files (i + 1) (last_head h fs) rest t
  end.

(** The segments are chained, only the last may be empty, and the files are
    shorter than [2 ^ 64] bytes. *)
Fixpoint layout_ok (i : Z) (h : ThreadHead) (layout : Layout) : Prop :=
  match layout with
  | [] => True
  | fs :: rest =>
      rev (head_revision h) + 1 < 2 ^ 64 /\ frames_ok h fs /\ (rest <> [] -> fs <> []) /\
      HEADER_BYTES + len (frames_bytes fs) < 2 ^ 64 /\ i + 1 < 2 ^ 64 /\
      layout_ok (i + 1) (last_head h fs) rest
  end.

Definition distinct_commands (layout : Layout) : Prop := NoDup (map frame_id (concat layout)).

(** The directory holds exactly these segment files, besides entries whose
    names are not segment names. *)
Record dir_holds (files : list (string * bytes)) (d : Disk) : Prop := {
  dh_files : forall name content, (name, content) ∈ files -> d_files d !! name = Some content;
  dh_only : forall name content, d_files d !! name = Some content ->
              is_Some (parse_segment_name name) -> (name, content) ∈ files;
  dh_utf8 : forall name, is_Some (d_files d !! name) -> utf8_valid (str_bytes name) = true;
  dh_others : forall name, name ∈ d_others d -> parse_segment_name name = None
}.

(** * Lemmas on frames *)

Lemma frame_lengths : Z.of_nat FRAME_HEADER_LEN = 184 /\ Z.of_nat FRAME_TRAILER_LEN = 52.
Proof. done. Qed.

Lemma last_head_app h fs1 fs2 : last_head h (fs1 ++ fs2) = last_head (last_head h fs1) fs2.
Proof. apply fold_left_app. Qed.

Lemma frames_ok_app h fs1 fs2 :
  frames_ok h (fs1 ++ fs2) <-> frames_ok h fs1 /\ frames_ok (last_head h fs1) fs2.
Proof. revert h. induction fs1 as [|f fs1 IH]; intros h; simpl; [tauto|]. rewrite IH. tauto. Qed.

Lemma frames_bytes_app fs1 fs2 : frames_bytes (fs1 ++ fs2) = frames_bytes fs1 ++ frames_bytes fs2.
Proof. unfold frames_bytes. by rewrite map_app, concat_app. Qed.

Lemma frames_bytes_cons f fs : frames_bytes (f :: fs) = fr_bytes f ++ frames_bytes fs.
Proof. done. Qed.

Lemma frame_pointers_app offset fs1 fs2 :
  frame_pointers offset (fs1 ++ fs2)
    = frame_pointers offset fs1 ++ frame_pointers (offset + len (frames_bytes fs1)) fs2.
Proof.
  revert offset. induction fs1 as [|f fs1 IH]; intros offset; simpl.
  - f_equal. lia.
  - rewrite IH. do 3 f_equal. rewrite frames_bytes_cons, length_app. lia.
Qed.

Lemma layout_ok_app i h l1 l2 :
  layout_ok i h (l1 ++ l2) <->
  layout_ok i h l1 /\ layout_ok (i + len l1) (last_head h (concat l1)) l2
  /\ (l2 <> [] -> Forall (fun fs => fs <> []) l1).
Proof.
  revert i h. induction l1 as [|fs l1 IH]; intros i h; simpl.
  - rewrite Z.add_0_r. split; [by intros|by intros (? & ? & ?)].
  - rewrite IH, last_head_app, list.Forall_cons.
    replace (i + 1 + len l1) with (i + len (fs :: l1)) by (simpl length; lia).
    split.
    + intros (? & ? & Hne & ? & ? & ? & ? & Hl). repeat split; try done.
      * intros Hr. apply Hne. destruct l1; [done|discriminate].
      * apply Hne. destruct l1; simpl; done.
      * by apply Hl.
    + intros ((? & ? & Hne & ? & ? & ?) & ? & Hl). repeat split; try done.
      * intros Hr. destruct l1; [|apply Hne; discriminate]. apply Hl. done.
      * intros Hl2. by apply Hl.
Qed.

Lemma segment_infos_app i h l1 l2 :
  segment_infos i h (l1 ++ l2)
    = segment_infos i h l1 ++ segment_infos (i + len l1) (last_head h (concat l1)) l2.
Proof.
  revert i h. induction l1 as [|fs l1 IH]; intros i h; simpl.
  - by rewrite Z.add_0_r.
  - rewrite IH, last_head_app. do 2 f_equal. simpl length. f_equal. lia.
Qed.

Lemma segment_files_app i h l1 l2 t :
  l2 <> [] ->
  segment_files i h (l1 ++ l2) t
    = segment_files i h l1 [] ++ segment_files (i + len l1) (last_head h (concat l1)) l2 t.
Proof.
  intros Hl2. revert i h. induction l1 as [|fs l1 IH]; intros i h; simpl.
  - by rewrite Z.add_0_r.
  - rewrite IH, last_head_app.
    replace (is_empty (l1 ++ l2)) with false by (by destruct l1, l2).
    rewrite app_nil_r. simpl length. f_equal.
    + f_equal. destruct (is_empty l1); by rewrite app_nil_r.
    + f_equal. f_equal. lia.
Qed.

Lemma segment_infos_length i h l : length (segment_infos i h l) = length l.
Proof. revert i h. induction l; intros; simpl; auto. Qed.

(** The bytes of a good frame and its header. *)
Lemma frame_ok_bytes h f :
  frame_ok h f ->
  decode_frame_header (slice 0 FRAME_HEADER_LEN (fr_bytes f)) = Ok (fr_header f) /\
  frame_len (fr_header f) = Ok (u64_of (len (fr_bytes f))) /\
  Z.of_nat (FRAME_HEADER_LEN + FRAME_TRAILER_LEN) <= len (fr_bytes f) < 2 ^ 64.
Proof.
  intros [Hd _ _]. apply decode_complete_frame_Ok in Hd as (Hh & Hl & Hn). cbn [df_header] in *.
  split; [done|]. split; [done|]. pose proof (val_bounds (fh_payload_len (fr_header f))).
  split; [lia|]. unfold frame_len, u64_checked_add in Hl. apply ok_or_Ok in Hl.
  apply checked_Some in Hl. rewrite <- Hn in Hl. rewrite Hl. apply val_bounds.
Qed.

Lemma frame_ok_validate h f :
  frame_ok h f -> validate_stored_batch (fr_header f) (fr_stored f) tid h = Ok (frame_head f).
Proof. intros [_ _ Hc]. by apply validate_stored_batch_iff. Qed.

Lemma frame_ok_end h f :
  frame_ok h f ->
  rev (head_revision (frame_head f)) = rev (head_revision h) + len (frame_events f) /\
  (0 < length (frame_events f))%nat /\
  rev (fh_start_revision (fr_header f)) = rev (head_revision h) + 1.
Proof.
  intros [_ _ Hc]. split; [by apply (continues_end tid)|]. split; [by eapply continues_nonempty|].
  by destruct Hc.
Qed.

Lemma frames_ok_end h fs :
  frames_ok h fs ->
  rev (head_revision (last_head h fs)) = rev (head_revision h) + len (concat (map frame_events fs)).
Proof.
  revert h. induction fs as [|f fs IH]; intros h; simpl; [lia|].
  intros [Hf Hfs]. rewrite (IH _ Hfs), length_app. apply frame_ok_end in Hf as [-> _]. lia.
Qed.

Lemma frames_ok_le h fs :
  frames_ok h fs -> rev (head_revision h) <= rev (head_revision (last_head h fs)).
Proof. intros Hf. rewrite (frames_ok_end _ _ Hf). lia. Qed.

Lemma length_segment_content i h fs : len (segment_content i h fs) = HEADER_BYTES + len (frames_bytes fs).
Proof. unfold segment_content. rewrite length_app, length_encode_segment_header. unfold HEADER_BYTES. lia. Qed.

End Spec.
