(* ===== verification/RecoveryFacts.v ===== *)
(** Recovery of a journal's files yields the journal: the loop over frames,
    one segment, the directory, and the torn tails crashes leave. *)

From stdpp Require Import sorting.
From S2P Require Import Prelude Canonical Events Commands Receipts Format FormatFacts.
From S2P Require Import CommandIndex Disk Model Recovery JournalSpec.

Open Scope string_scope.
Open Scope list_scope.
Open Scope Z_scope.

(** * What recovery accumulates over good frames *)

Section Replay.
Context {St : Type} (visit : St -> ThreadEventEnvelope -> St) (mode : RecoveryMode).

Definition replay_frame (offset : Z) (f : Frame) (g : Recovering (St := St)) : Recovering (St := St) :=
  {| rg_state := {|
       rs_head := frame_head f;
       rs_segments := rs_segments (rg_state g);
       rs_command_index :=
         if is_writer mode then index_insert (frame_id f) (pointer_of offset f) (rs_command_index (rg_state g))
         else rs_command_index (rg_state g) |};
     rg_commands := if is_writer mode then {[ frame_id f ]} ∪ rg_commands g else rg_commands g;
     rg_visited := fold_left visit (frame_events f) (rg_visited g) |}.

Fixpoint replay_frames (offset : Z) (fs : list Frame) (g : Recovering (St := St)) : Recovering (St := St) :=
  match fs with
  | [] => g
  | f :: fs => replay_frames (offset + len (fr_bytes f)) fs (replay_frame offset f g)
  end.

Lemma replay_frames_head offset fs g :
  rs_head (rg_state (replay_frames offset fs g)) = last_head (rs_head (rg_state g)) fs.
Proof. revert offset g. induction fs as [|f fs IH]; intros; simpl; [done|]. by rewrite IH. Qed.

Lemma replay_frames_segments offset fs g :
  rs_segments (rg_state (replay_frames offset fs g)) = rs_segments (rg_state g).
Proof. revert offset g. induction fs as [|f fs IH]; intros; simpl; [done|]. by rewrite IH. Qed.

Lemma replay_frames_visited offset fs g :
  rg_visited (replay_frames offset fs g) = fold_left visit (concat (map frame_events fs)) (rg_visited g).
Proof.
  revert offset g. induction fs as [|f fs IH]; intros; simpl; [done|].
  by rewrite IH, fold_left_app.
Qed.

Lemma replay_frames_index offset fs g :
  rs_command_index (rg_state (replay_frames offset fs g))
    = if is_writer mode then index_of (frame_pointers offset fs) (rs_command_index (rg_state g))
      else rs_command_index (rg_state g).
Proof.
  revert offset g. induction fs as [|f fs IH]; intros; simpl; [by destruct (is_writer mode)|].
  rewrite IH. simpl. by destruct (is_writer mode).
Qed.

Lemma replay_frames_commands offset fs g id :
  is_writer mode = true ->
  id ∈ rg_commands (replay_frames offset fs g) <-> id ∈ map frame_id fs \/ id ∈ rg_commands g.
Proof.
  intros Hm. revert offset g. induction fs as [|f fs IH]; intros; simpl.
  - split; [by right|]. by intros [[]%not_elem_of_nil|?].
  - rewrite IH. simpl. rewrite Hm, elem_of_cons, elem_of_union, elem_of_singleton. tauto.
Qed.

End Replay.

Section RecoveryFacts.
Context `{External, JsonCodec} (cfg : JournalConfig) (tid : ThreadId).

Abbreviation frame_ok := (frame_ok cfg tid).
Abbreviation frames_ok := (frames_ok cfg tid).
Abbreviation torn_tail := (torn_tail cfg tid).
Abbreviation layout_ok := (layout_ok cfg tid).
Abbreviation segment_content := (segment_content tid).
Abbreviation segment_files := (segment_files tid).

(** * One frame *)

Section Frames.
Context {St : Type} (visit : St -> ThreadEventEnvelope -> St).
Abbreviation Recovering := (Recovering (St := St)).

Lemma recover_frame_ok path mode (offset : u64) f (g : Recovering) :
  frame_ok (rs_head (rg_state g)) f ->
  (is_writer mode = true -> frame_id f ∉ rg_commands g) ->
  recover_frame visit tid path mode offset (u64_of (len (fr_bytes f))) (fr_bytes f) g
    = Ok (replay_frame visit mode (val offset) f g).
Proof.
  intros Hf Hid. unfold recover_frame. rewrite (fo_decode _ _ _ _ Hf).
  cbn [map_err mbind result_bind df_header df_stored].
  rewrite (frame_ok_validate _ _ _ _ Hf). cbn [map_err mbind result_bind].
  replace (negb (is_writer mode && bool_decide (sb_command_id (fr_stored f) ∈ rg_commands g)))
    with true.
  2: { symmetry. apply negb_true_iff, andb_false_iff. destruct (is_writer mode); [right|by left].
       apply bool_decide_eq_false. by apply Hid. }
  cbn [ensure mbind result_bind mret result_ret]. unfold replay_frame, pointer_of.
  destruct Hf as [_ _ Hc]. rewrite (ct_previous _ _ _ _ Hc), u64_of_val. done.
Qed.

(** * The loop over frames *)

Lemma handle_incomplete_tail_run d path pre t mode :
  healthy d -> d_files d !! path = Some (pre ++ t) ->
  exists d', handle_incomplete_tail path (len pre) true mode d = (d', Ok tt) /\
    d' = (if is_writer mode then
            with_synced (<[path := pre]> (d_synced d)) (d_synced_names d)
              (with_files (<[path := pre]> (d_files d)) d)
          else d).
Proof.
  intros Hd Hp. eexists. split; [|done]. unfold handle_incomplete_tail.
  erewrite M_bind_run by reflexivity.
  destruct mode; cbn [is_writer]; [|done].
  erewrite M_bind_run.
  2: { apply map_error_run. unfold fs_set_len. rewrite syscall_healthy, Hp by done. done. }
  apply map_error_run. unfold fs_sync_all. rewrite syscall_healthy by done. simpl.
  rewrite lookup_insert_eq. rewrite resize_prefix by lia. done.
Qed.

(** The disk once the tail [t] after [pre] in [path] was handled. *)
Definition settled (mode : RecoveryMode) (path : string) (pre t : bytes) (d : Disk) : Disk :=
  if is_writer mode && negb (is_empty t) then
    with_synced (<[path := pre]> (d_synced d)) (d_synced_names d)
      (with_files (<[path := pre]> (d_files d)) d)
  else d.

Lemma recover_tail_run fuel path mode is_last pre t (offset : u64) (g : Recovering) d :
  healthy d -> d_files d !! path = Some (pre ++ t) -> val offset = len pre ->
  len (pre ++ t) < 2 ^ 64 -> torn_tail (rs_head (rg_state g)) t -> (t <> [] -> is_last = true) ->
  (length t <= fuel)%nat ->
  recover_frames visit fuel cfg tid path is_last mode (len (pre ++ t)) offset g d
    = (settled mode path pre t d, Ok (g, len pre, offset)).
Proof.
  intros Hd Hp Hoff Hfit Ht Hlast Hfuel. unfold settled.
  destruct t as [|b t].
  { rewrite app_nil_r, andb_false_r. destruct fuel; cbn [recover_frames]; [done|].
    by rewrite Hoff, Z.ltb_irrefl. }
  set (t0 := b :: t) in *. rewrite Hlast in * by done.
  destruct fuel as [|fuel]; [simpl in Hfuel; lia|]. cbn [recover_frames].
  rewrite length_app in *. rewrite Hoff in *.
  assert (Ht0 : 0 < len t0) by (subst t0; simpl length; lia).
  replace (len pre <? Z.of_nat (length pre + length t0)) with true by compare. cbn [negb].
  replace (Z.of_nat (length pre + length t0) - len pre) with (len t0) by lia.
  destruct (handle_incomplete_tail_run d path pre t0 mode Hd Hp) as (d' & Hh & Ed).
  assert (Edone : (settled mode path pre t0 d) = d').
  { subst d'. unfold settled. by destruct (is_writer mode). }
  unfold settled in Edone. rewrite Edone.
  destruct (len t0 <? Z.of_nat FRAME_HEADER_LEN) eqn:Eshort.
  - by rewrite (M_bind_run _ _ _ _ _ Hh).
  - apply Z.ltb_ge in Eshort. destruct Ht as [|(f & r & Hf & Hr & Eb)]; [done|].
    destruct (frame_ok_bytes _ _ _ _ Hf) as (Hhd & Hlen & Hbounds).
    assert (Hslice : slice (Z.to_nat (len pre)) (Z.to_nat (Z.of_nat FRAME_HEADER_LEN)) (pre ++ t0)
                     = slice 0 FRAME_HEADER_LEN (fr_bytes f)).
    { rewrite !Nat2Z.id, slice_skip by done. rewrite Nat.sub_diag, Eb, slice_within; [done|]. lia. }
    erewrite M_bind_run.
    2: { apply map_error_run, (fs_read_exact_healthy _ _ _ _ _ Hd Hp). rewrite length_app. lia. }
    rewrite Hslice. run_pure Hhd.
    assert (Hpl : negb (val (jc_max_frame_payload_bytes cfg) <? val (fh_payload_len (fr_header f))) = true).
    { apply negb_true_iff, Z.ltb_ge, (fo_payload _ _ _ _ Hf). }
    run_pure Hpl. run_pure Hlen.
    assert (Hlong : (len t0 <? val (u64_of (len (fr_bytes f)))) = true).
    { rewrite val_u64_of_small by lia. apply Z.ltb_lt. rewrite Eb, length_app.
      destruct r; [done|]. simpl length. lia. }
    rewrite Hlong. by rewrite (M_bind_run _ _ _ _ _ Hh).
Qed.

Lemma recover_frames_run fuel path mode is_last pre fs t (offset : u64) (g : Recovering) d :
  healthy d -> d_files d !! path = Some (pre ++ frames_bytes fs ++ t) -> val offset = len pre ->
  len (pre ++ frames_bytes fs ++ t) < 2 ^ 64 ->
  frames_ok (rs_head (rg_state g)) fs -> torn_tail (last_head (rs_head (rg_state g)) fs) t ->
  (t <> [] -> is_last = true) ->
  (is_writer mode = true -> NoDup (map frame_id fs) /\ forall id, id ∈ map frame_id fs -> id ∉ rg_commands g) ->
  (length (frames_bytes fs ++ t) <= fuel)%nat ->
  recover_frames visit fuel cfg tid path is_last mode (len (pre ++ frames_bytes fs ++ t)) offset g d
    = (settled mode path (pre ++ frames_bytes fs) t d,
       Ok (replay_frames visit mode (val offset) fs g, len (pre ++ frames_bytes fs),
           u64_of (len (pre ++ frames_bytes fs)))).
Proof.
  revert fuel pre offset g.
  induction fs as [|f fs IH]; intros fuel pre offset g Hd Hp Hoff Hfit Hfs Ht Hlast Hids Hfuel.
  - cbn [frames_bytes map concat app replay_frames] in *. rewrite app_nil_r.
    rewrite (recover_tail_run fuel path mode is_last pre t offset g d) by done.
    rewrite <- Hoff, u64_of_val. done.
  - pose proof frame_lengths as [Hfh Hft].
    destruct Hfs as [Hf Hfs]. destruct (frame_ok_bytes _ _ _ _ Hf) as (Hhd & Hlen & Hbounds).
    rewrite frames_bytes_cons in *. rewrite <- app_assoc in *.
    set (tail := frames_bytes fs ++ t) in *.
    assert (Elen : len (pre ++ fr_bytes f ++ tail) = len pre + len (fr_bytes f) + len tail)
      by (rewrite !length_app; lia).
    destruct fuel as [|fuel]; [rewrite length_app in Hfuel; lia|]. cbn [recover_frames].
    rewrite Elen in *. rewrite Hoff.
    replace (len pre <? len pre + len (fr_bytes f) + len tail) with true by compare. cbn [negb].
    replace (len pre + len (fr_bytes f) + len tail - len pre) with (len (fr_bytes f) + len tail) by lia.
    replace (len (fr_bytes f) + len tail <? Z.of_nat FRAME_HEADER_LEN) with false by compare.
    erewrite M_bind_run.
    2: { apply map_error_run, (fs_read_exact_healthy _ _ _ _ _ Hd Hp). lia. }
    assert (Hs1 : slice (Z.to_nat (len pre)) (Z.to_nat (Z.of_nat FRAME_HEADER_LEN)) (pre ++ fr_bytes f ++ tail)
                  = slice 0 FRAME_HEADER_LEN (fr_bytes f)).
    { rewrite !Nat2Z.id, slice_skip by done. rewrite Nat.sub_diag, slice_within; [done|]. lia. }
    rewrite Hs1. run_pure Hhd.
    assert (Hpl : negb (val (jc_max_frame_payload_bytes cfg) <? val (fh_payload_len (fr_header f))) = true).
    { apply negb_true_iff, Z.ltb_ge, (fo_payload _ _ _ _ Hf). }
    run_pure Hpl. run_pure Hlen. rewrite val_u64_of_small by lia.
    replace (len (fr_bytes f) + len tail <? len (fr_bytes f)) with false by compare.
    erewrite M_bind_run.
    2: { apply map_error_run, (fs_read_exact_healthy _ _ _ _ _ Hd Hp). lia. }
    assert (Hs2 : slice (Z.to_nat (len pre + Z.of_nat FRAME_HEADER_LEN))
                    (Z.to_nat (len (fr_bytes f) - Z.of_nat FRAME_HEADER_LEN)) (pre ++ fr_bytes f ++ tail)
                  = drop FRAME_HEADER_LEN (fr_bytes f)).
    { rewrite slice_skip by lia.
      replace (Z.to_nat (len pre + Z.of_nat FRAME_HEADER_LEN) - length pre)%nat with FRAME_HEADER_LEN by lia.
      rewrite slice_within by lia. unfold slice. apply take_ge. rewrite length_drop. lia. }
    rewrite Hs2. replace (slice 0 FRAME_HEADER_LEN (fr_bytes f) ++ drop FRAME_HEADER_LEN (fr_bytes f))
      with (fr_bytes f) by (unfold slice; by rewrite drop_0, take_drop).
    assert (Hg : recover_frame visit tid path mode offset (u64_of (len (fr_bytes f))) (fr_bytes f) g
                 = Ok (replay_frame visit mode (val offset) f g)).
    { apply recover_frame_ok; [done|]. intros Hw. apply (Hids Hw). apply list_elem_of_here. }
    erewrite M_bind_run by (unfold of_result; rewrite Hg; reflexivity).
    destruct (checked_in 0 (2 ^ 64) (val offset + len (fr_bytes f))) as (next & Hn & En); [lia|].
    unfold u64_checked_add. rewrite Hn.
    erewrite M_bind_run by reflexivity.
    rewrite app_assoc in Hp. unfold tail in Hp.
    replace (len pre + len (fr_bytes f) + len tail) with (len ((pre ++ fr_bytes f) ++ frames_bytes fs ++ t))
      by (rewrite !length_app; unfold tail; rewrite length_app; lia).
    rewrite (IH fuel (pre ++ fr_bytes f) next).
    + rewrite <- app_assoc. cbn [replay_frames]. by rewrite En, Hoff.
    + done.
    + done.
    + rewrite En, length_app. lia.
    + rewrite !length_app in *. unfold tail in *. rewrite length_app in *. lia.
    + done.
    + done.
    + done.
    + intros Hw. destruct (Hids Hw) as [Hnd Hids']. cbn [map] in Hnd.
      apply list.NoDup_cons in Hnd as [Hni Hnd]. split; [done|]. intros id Hid.
      cbn [replay_frame rg_commands]. rewrite Hw, elem_of_union, elem_of_singleton.
      intros [->|Hin]; [by apply Hni|]. revert Hin. apply Hids'. by apply list_elem_of_further.
    + fold tail. rewrite length_app in Hfuel. lia.
Qed.

(** * One segment *)

Definition push_segment (mode : RecoveryMode) (info : SegmentInfo) (g : Recovering) : Recovering :=
  if is_writer mode then
    {| rg_state := {| rs_head := rs_head (rg_state g);
                      rs_segments := rs_segments (rg_state g) ++ [info];
                      rs_command_index := rs_command_index (rg_state g) |};
       rg_commands := rg_commands g;
       rg_visited := rg_visited g |}
  else g.

Definition replay_segment (mode : RecoveryMode) (i : Z) (fs : list Frame) (g : Recovering) : Recovering :=
  push_segment mode (segment_info i (rs_head (rg_state g)) fs) (replay_frames visit mode HEADER_BYTES fs g).

Definition fresh_commands (mode : RecoveryMode) (fs : list Frame) (g : Recovering) : Prop :=
  is_writer mode = true -> NoDup (map frame_id fs) /\ forall id, id ∈ map frame_id fs -> id ∉ rg_commands g.

Lemma frames_bytes_nonempty h fs : frames_ok h fs -> fs <> [] -> 0 < len (frames_bytes fs).
Proof.
  destruct fs as [|f fs]; [done|]. intros [Hf _] _. rewrite frames_bytes_cons, length_app.
  pose proof frame_lengths. apply frame_ok_bytes in Hf as (_ & _ & Hb). lia.
Qed.

Lemma recover_segment_run h i path mode is_last fs t (g : Recovering) d :
  rs_head (rg_state g) = h -> path = segment_file_name (u64_of i) -> healthy d -> d_files d !! path = Some (segment_content i h fs ++ t) ->
  len (segment_content i h fs ++ t) < 2 ^ 64 -> 
  rev (head_revision h) + 1 < 2 ^ 64 ->
  frames_ok h fs -> torn_tail (last_head h fs) t ->
  (is_last = false -> t = [] /\ fs <> []) ->
  fresh_commands mode fs g ->
  recover_segment visit cfg tid path (u64_of i) is_last mode g d
    = (settled mode path (segment_content i h fs) t d, Ok (replay_segment mode i fs g)).
Proof.
  intros Eh Epath Hd Hp Hfit Hrev Hfs Ht Hlast Hids. unfold recover_segment. rewrite Eh.
  pose proof (rev_bounds (head_revision h)) as Hb.
  assert (Elen : len (segment_content i h fs ++ t) = HEADER_BYTES + len (frames_bytes fs) + len t)
    by (rewrite length_app; pose proof (length_segment_content tid i h fs); lia).
  set (header := encode_segment_header (u64_of i) (revision_of (rev (head_revision h) + 1)) tid (head_digest h)).
  assert (Lheader : length header = SEGMENT_HEADER_LEN) by apply length_encode_segment_header.
  erewrite M_bind_run by (apply map_error_run, (fs_open_healthy _ _ _ Hd Hp)).
  erewrite M_bind_run by (apply map_error_run, (fs_len_healthy _ _ _ Hd Hp)).
  assert (Hshort : negb (len (segment_content i h fs ++ t) <? Z.of_nat SEGMENT_HEADER_LEN) = true).
  { rewrite Elen. apply negb_true_iff. unfold HEADER_BYTES. compare. }
  run_pure Hshort.
  erewrite M_bind_run.
  2: { apply map_error_run, (fs_read_exact_healthy _ _ _ _ _ Hd Hp). rewrite Elen. unfold HEADER_BYTES. lia. }
  assert (Hs : slice (Z.to_nat 0) (Z.to_nat (Z.of_nat SEGMENT_HEADER_LEN)) (segment_content i h fs ++ t) = header).
  { rewrite Nat2Z.id. unfold segment_content. fold header. rewrite <- app_assoc. by apply slice_hit. }
  rewrite Hs. unfold header at 1. erewrite M_bind_run.
  2: { unfold of_result. rewrite segment_header_roundtrip. reflexivity. }
  erewrite M_bind_run.
  2: { unfold of_option, of_result.
       rewrite (proj2 (checked_next_Some _ (revision_of (rev (head_revision h) + 1))))
         by (apply rev_of_small; lia). reflexivity. }
  cbn [sh_sequence sh_first_revision sh_thread_id sh_previous_record_digest].
  rewrite !bool_decide_eq_true_2 by done. erewrite M_bind_run by reflexivity.
  assert (E80 : val (u64_of (Z.of_nat SEGMENT_HEADER_LEN)) = HEADER_BYTES) by done.
  assert (Hrun := recover_frames_run (Z.to_nat (len (segment_content i h fs ++ t))) path mode is_last
    header fs t (u64_of (Z.of_nat SEGMENT_HEADER_LEN)) g d Hd).
  rewrite app_assoc, Eh in Hrun. change (header ++ frames_bytes fs) with (segment_content i h fs) in Hrun.
  erewrite M_bind_run.
  2: { apply Hrun; try done.
       - rewrite E80. unfold HEADER_BYTES. by rewrite Lheader.
       - intros Hne. destruct is_last; [done|]. by destruct Hlast.
       - rewrite length_app. pose proof (length_segment_content tid i h fs).
         rewrite length_app. unfold HEADER_BYTES in *. lia. }
  cbn beta iota. rewrite E80.
  assert (Hval : val (u64_of (len (segment_content i h fs))) = HEADER_BYTES + len (frames_bytes fs)).
  { rewrite length_segment_content. apply val_u64_of_small. unfold HEADER_BYTES in *. lia. }
  assert (Hempty : negb (negb is_last && (val (u64_of (len (segment_content i h fs))) =? Z.of_nat SEGMENT_HEADER_LEN)) = true).
  { rewrite Hval. apply negb_true_iff. destruct is_last; [done|]. destruct Hlast as [_ Hne]; [done|].
    pose proof (frames_bytes_nonempty _ _ Hfs Hne). cbn [negb andb]. unfold HEADER_BYTES. compare. }
  run_pure Hempty.
  unfold replay_segment, push_segment. destruct (is_writer mode); [|done].
  unfold mret, M_ret. rewrite replay_frames_head, Eh. unfold segment_info.
  by rewrite length_segment_content, Epath.
Qed.

(** * All segments *)

Fixpoint segment_names (i : Z) (n : nat) : list (u64 * string) :=
  match n with
  | O => []
  | S n => (u64_of i, segment_file_name (u64_of i)) :: segment_names (i + 1) n
  end.

Fixpoint replay_layout (mode : RecoveryMode) (i : Z) (layout : Layout) (g : Recovering) : Recovering :=
  match layout with
  | [] => g
  | fs :: layout => replay_layout mode (i + 1) layout (replay_segment mode i fs g)
  end.

Lemma replay_segment_head mode i fs g :
  rs_head (rg_state (replay_segment mode i fs g)) = last_head (rs_head (rg_state g)) fs.
Proof.
  unfold replay_segment, push_segment. destruct (is_writer mode); cbn [rg_state rs_head]; apply replay_frames_head.
Qed.

Lemma replay_layout_app mode i l1 l2 g :
  replay_layout mode i (l1 ++ l2) g = replay_layout mode (i + len l1) l2 (replay_layout mode i l1 g).
Proof.
  revert i g. induction l1 as [|fs l1 IH]; intros i g; simpl; [by rewrite Z.add_0_r|].
  rewrite IH. f_equal. lia.
Qed.

Lemma replay_layout_head mode i layout g :
  rs_head (rg_state (replay_layout mode i layout g)) = last_head (rs_head (rg_state g)) (concat layout).
Proof.
  revert i g. induction layout as [|fs layout IH]; intros; simpl; [done|].
  by rewrite IH, replay_segment_head, last_head_app.
Qed.

Lemma fresh_segment mode i fs rest g :
  fresh_commands mode (fs ++ rest) g ->
  fresh_commands mode fs g /\ fresh_commands mode rest (replay_segment mode i fs g).
Proof.
  intros Hf. unfold fresh_commands in *. rewrite map_app in Hf. split.
  - intros Hw. destruct (Hf Hw) as [Hnd Hni]. apply list.NoDup_app in Hnd as (? & ? & ?).
    split; [done|]. intros id Hid. apply Hni. set_solver.
  - intros Hw. destruct (Hf Hw) as [Hnd Hni]. apply list.NoDup_app in Hnd as (? & Hdis & ?).
    split; [done|]. intros id Hid. unfold replay_segment, push_segment. rewrite Hw. cbn [rg_commands].
    rewrite replay_frames_commands by done. intros [Hin|Hin].
    + by apply (Hdis id).
    + apply (Hni id); [set_solver|done].
Qed.

Lemma fresh_layout mode i layout rest (g : Recovering) :
  fresh_commands mode (concat layout ++ rest) g ->
  fresh_commands mode rest (replay_layout mode i layout g).
Proof.
  revert i g. induction layout as [|fs layout IH]; intros i g; [done|].
  cbn [concat replay_layout]. rewrite <- app_assoc. intros Hf.
  apply IH. by apply (fresh_segment mode i) in Hf as [_ Hf].
Qed.

(** Segments that are not the last. *)
Lemma recover_paths_before i mode layout more count (g : Recovering) d :
  healthy d -> 0 <= i -> i + len layout < count -> count < 2 ^ 64 ->
  layout_ok i (rs_head (rg_state g)) layout -> Forall (fun fs => fs <> []) layout ->
  (forall name content, (name, content) ∈ segment_files i (rs_head (rg_state g)) layout [] ->
     d_files d !! name = Some content) ->
  fresh_commands mode (concat layout) g ->
  recover_paths visit cfg tid mode count i (segment_names i (length layout) ++ more) g d
    = recover_paths visit cfg tid mode count (i + len layout) more (replay_layout mode i layout g) d.
Proof.
  revert i g. induction layout as [|fs layout IH]; intros i g Hd Hi Hn Hc Hok Hne Hfiles Hids.
  - simpl. by rewrite Z.add_0_r.
  - cbn [length segment_names app recover_paths replay_layout].
    simpl length in Hn. apply list.Forall_cons in Hne as [Hne0 Hne].
    destruct Hok as (Hrev & Hfs & _ & Hfit & _ & Hok).
    cbn [concat] in Hids. apply (fresh_segment mode i) in Hids as [Hids0 Hids].
    unfold of_option, guard_m.
    assert (Hchk : checked 0 (2 ^ 64) i = Some (u64_of i))
      by (apply checked_Some; rewrite val_u64_of_small; lia).
    erewrite M_bind_run by (unfold of_result; rewrite Hchk; reflexivity).
    rewrite bool_decide_eq_true_2 by done. erewrite M_bind_run by reflexivity.
    replace (i + 1 =? count) with false by compare.
    erewrite M_bind_run by reflexivity. cbn beta iota.
    cbn [segment_files] in Hfiles.
    assert (Hfile : d_files d !! segment_file_name (u64_of i)
                    = Some (segment_content i (rs_head (rg_state g)) fs ++ [])).
    { apply Hfiles. replace (if is_empty layout then [] else []) with (@nil byte) by (by destruct layout).
      apply list_elem_of_here. }
    erewrite M_bind_run.
    2: { apply recover_segment_run; try done.
         - rewrite app_nil_r, length_segment_content. done.
         - by left. }
    unfold settled. rewrite andb_false_r.
    replace (i + Z.of_nat (S (length layout))) with (i + 1 + len layout) by lia.
    apply IH; try done; try lia.
    + by rewrite replay_segment_head.
    + rewrite replay_segment_head. intros name content Hin. apply Hfiles.
      by apply list_elem_of_further.
Qed.

(** The last segment, possibly with a torn tail. *)
Lemma recover_paths_last i mode fs t (g : Recovering) d :
  let h := rs_head (rg_state g) in
  healthy d -> 0 <= i < 2 ^ 64 - 1 -> rev (head_revision h) + 1 < 2 ^ 64 -> frames_ok h fs ->
  torn_tail (last_head h fs) t ->
  len (segment_content i h fs ++ t) < 2 ^ 64 ->
  d_files d !! segment_file_name (u64_of i) = Some (segment_content i h fs ++ t) ->
  fresh_commands mode fs g ->
  recover_paths visit cfg tid mode (i + 1) i (segment_names i 1) g d
    = (settled mode (segment_file_name (u64_of i)) (segment_content i h fs) t d,
       Ok (replay_segment mode i fs g)).
Proof.
  intros h Hd Hi Hrev Hfs Ht Hfit Hfile Hids. cbn [segment_names recover_paths].
  unfold of_option, guard_m.
  assert (Hchk : checked 0 (2 ^ 64) i = Some (u64_of i))
    by (apply checked_Some; rewrite val_u64_of_small; lia).
  erewrite M_bind_run by (unfold of_result; rewrite Hchk; reflexivity).
  rewrite bool_decide_eq_true_2 by done. erewrite M_bind_run by reflexivity.
  rewrite Z.eqb_refl.
  erewrite M_bind_run.
  2: { erewrite M_bind_run by (apply map_error_run, (fs_len_healthy _ _ _ Hd Hfile)). reflexivity. }
  replace (len (segment_content i h fs ++ t) <? Z.of_nat SEGMENT_HEADER_LEN) with false.
  2: { symmetry. apply Z.ltb_ge. rewrite length_app. pose proof (length_segment_content tid i h fs).
       unfold HEADER_BYTES in *. lia. }
  erewrite M_bind_run by (apply (recover_segment_run h); done). reflexivity.
Qed.

(** A last file too short for a segment header. *)
Definition removed (mode : RecoveryMode) (name : string) (d : Disk) : Disk :=
  if is_writer mode then
    with_synced (d_synced d) (dom (delete name (d_files d)) ∪ d_others d)
      (with_files (delete name (d_files d)) d)
  else d.

Lemma recover_paths_short i mode content (g : Recovering) d :
  healthy d -> 0 <= i < 2 ^ 64 -> len content < HEADER_BYTES ->
  d_files d !! segment_file_name (u64_of i) = Some content ->
  recover_paths visit cfg tid mode (i + 1) i (segment_names i 1) g d
    = (removed mode (segment_file_name (u64_of i)) d, Ok g).
Proof.
  intros Hd Hi Hlen Hfile. cbn [segment_names recover_paths]. unfold of_option, guard_m.
  assert (Hchk : checked 0 (2 ^ 64) i = Some (u64_of i))
    by (apply checked_Some; rewrite val_u64_of_small; lia).
  erewrite M_bind_run by (unfold of_result; rewrite Hchk; reflexivity).
  rewrite bool_decide_eq_true_2 by done. erewrite M_bind_run by reflexivity.
  rewrite Z.eqb_refl.
  erewrite M_bind_run.
  2: { erewrite M_bind_run by (apply map_error_run, (fs_len_healthy _ _ _ Hd Hfile)). reflexivity. }
  unfold HEADER_BYTES in Hlen.
  replace (len content <? Z.of_nat SEGMENT_HEADER_LEN) with true by compare.
  unfold removed. destruct (is_writer mode); [|done].
  erewrite M_bind_run.
  2: { apply map_error_run. unfold fs_remove_file. rewrite syscall_healthy, Hfile by done. reflexivity. }
  erewrite M_bind_run; [reflexivity|]. apply map_error_run. unfold sync_directory.
  erewrite M_bind_run by (rewrite syscall_healthy by done; reflexivity).
  by rewrite syscall_healthy.
Qed.

End Frames.

(** * The directory *)

Lemma length_segment_names i n : length (segment_names i n) = n.
Proof. revert i. induction n; intros; simpl; auto. Qed.

Lemma segment_names_elem i n s name :
  0 <= i -> i + Z.of_nat n <= 2 ^ 64 ->
  (s, name) ∈ segment_names i n <->
  i <= val s < i + Z.of_nat n /\ name = segment_file_name s.
Proof.
  revert i. induction n as [|n IH]; intros i Hi Hn; simpl.
  - split; [by intros ?%not_elem_of_nil|]. lia.
  - rewrite elem_of_cons, IH by lia. split.
    + intros [[= -> ->]|[? ->]]; [|split; [lia|done]]. rewrite val_u64_of_small by lia. split; [lia|done].
    + intros [Hs ->]. destruct (decide (val s = i)) as [<-|]; [left; by rewrite u64_of_val|].
      right. split; [lia|done].
Qed.

Lemma segment_names_sorted i n :
  0 <= i -> i + Z.of_nat n <= 2 ^ 64 ->
  StronglySorted sequence_le (segment_names i n) /\ NoDup (segment_names i n).
Proof.
  revert i. induction n as [|n IH]; intros i Hi Hn; simpl; [split; constructor|].
  destruct (IH (i + 1)) as [Hs Hnd]; [lia..|]. split.
  - constructor; [done|]. apply list.Forall_forall. intros [s name] Hin.
    apply segment_names_elem in Hin as [Hin _]; [|lia..].
    unfold sequence_le. simpl. rewrite val_u64_of_small by lia. lia.
  - apply list.NoDup_cons. split; [|done]. intros Hin.
    apply segment_names_elem in Hin as [Hin _]; [|lia..]. rewrite val_u64_of_small in Hin by lia. lia.
Qed.

(** The entries that name segments, in directory order. *)
Definition numbered_entries (entries : list (string * bool)) : list (u64 * string) :=
  omap (fun '(name, is_file) => if is_file : bool then (fun s => (s, name)) <$> parse_segment_name name else None)
    entries.

Lemma numbered_paths_run entries :
  (forall name, (name, true) ∈ entries -> utf8_valid (str_bytes name) = true) ->
  numbered_paths entries = Ok (numbered_entries entries).
Proof.
  induction entries as [|[name is_file] entries IH]; intros Hu; cbn [numbered_paths]; [done|].
  assert (IH' := IH (fun n Hn => Hu n (list_elem_of_further _ _ _ Hn))).
  destruct is_file; cbn [negb]; [|exact IH'].
  rewrite (Hu name (list_elem_of_here _ _)). cbn [ensure mbind result_bind].
  unfold numbered_entries. simpl. destruct (parse_segment_name name); [|exact IH'].
  rewrite IH'. done.
Qed.

Lemma read_dir_numbered d s name :
  (s, name) ∈ numbered_entries
    (map (fun '(name, _) => (name, true)) (map_to_list (d_files d))
     ++ map (fun name => (name, false)) (elements (d_others d))) <->
  is_Some (d_files d !! name) /\ parse_segment_name name = Some s.
Proof.
  unfold numbered_entries. rewrite list_elem_of_omap. split.
  - intros ([n is_file] & Hin & Hp). destruct is_file; [|done].
    apply fmap_Some in Hp as (s' & Hp & [= -> ->]). split; [|done].
    apply elem_of_app in Hin as [Hin|Hin]; apply list_elem_of_In, in_map_iff in Hin.
    + destruct Hin as ([n' c] & [= <-] & Hin). apply list_elem_of_In, elem_of_map_to_list in Hin. eauto.
    + by destruct Hin as (? & [=] & _).
  - intros [[c Hc] Hp]. exists (name, true). split.
    + apply elem_of_app. left. apply list_elem_of_In, in_map_iff. exists (name, c). split; [done|].
      by apply list_elem_of_In, elem_of_map_to_list.
    + by rewrite Hp.
Qed.

Lemma numbered_entries_nodup entries :
  NoDup (map fst (filter (fun e => snd e = true) entries)) -> NoDup (numbered_entries entries).
Proof.
  induction entries as [|[name is_file] entries IH]; [constructor|].
  destruct is_file.
  - rewrite filter_cons_True by done. cbn [map fst]. intros Hnd.
    apply list.NoDup_cons in Hnd as [Hni Hnd].
    assert (E : numbered_entries ((name, true) :: entries)
                = match parse_segment_name name with
                  | Some s => (s, name) :: numbered_entries entries
                  | None => numbered_entries entries
                  end) by (unfold numbered_entries; simpl; by destruct (parse_segment_name name)).
    rewrite E. destruct (parse_segment_name name) as [s|]; [|by apply IH].
    apply list.NoDup_cons. split; [|by apply IH]. unfold numbered_entries. rewrite list_elem_of_omap.
    intros ([n f] & Hin & Hp). destruct f; [|done]. apply fmap_Some in Hp as (? & _ & [= _ ->]).
    apply Hni. apply list_elem_of_In, in_map_iff. exists (n, true). split; [done|].
    apply list_elem_of_In, list_elem_of_filter. done.
  - rewrite filter_cons_False by done. exact IH.
Qed.

Lemma read_dir_nodup d :
  NoDup (map fst (filter (fun e => snd e = true)
    (map (fun '(name, _) => (name, true)) (map_to_list (d_files d))
     ++ map (fun name => (name, false)) (elements (d_others d))))).
Proof.
  rewrite list.filter_app, map_app.
  assert (E2 : forall l : list string, filter (fun e : string * bool => snd e = true)
                 (map (fun name => (name, false)) l) = []).
  { induction l; cbn [map]; [done|]. by rewrite filter_cons_False. }
  assert (E1 : forall l : list (string * bytes), filter (fun e : string * bool => snd e = true)
                 (map (fun '(name, _) => (name, true)) l) = map (fun '(name, _) => (name, true)) l).
  { induction l as [|[a b] l IH]; cbn [map]; [done|]. by rewrite filter_cons_True, IH. }
  rewrite E1, E2, app_nil_r, map_map.
  replace (map _ (map_to_list (d_files d))) with ((map_to_list (d_files d)).*1)
    by (apply map_ext; by intros []).
  apply NoDup_fst_map_to_list.
Qed.

Lemma segment_paths_run d n files :
  healthy d -> dir_holds files d -> Z.of_nat n <= 2 ^ 64 ->
  map fst files = map snd (segment_names 0 n) ->
  segment_paths d = (d, Ok (segment_names 0 n)).
Proof.
  intros Hd Hdir Hn Hnames. unfold segment_paths.
  erewrite M_bind_run.
  2: { apply map_error_run. unfold fs_read_dir. rewrite syscall_healthy by done. reflexivity. }
  set (entries := map _ _ ++ map _ _).
  erewrite M_bind_run.
  2: { unfold of_result. rewrite numbered_paths_run; [reflexivity|]. intros name Hin.
       apply (dh_utf8 _ _ Hdir). unfold entries in Hin.
       apply elem_of_app in Hin as [Hin|Hin]; apply list_elem_of_In, in_map_iff in Hin.
       - destruct Hin as ([n' c] & [= <-] & Hin). apply list_elem_of_In, elem_of_map_to_list in Hin. eauto.
       - by destruct Hin as (? & [=] & _). }
  unfold mret, M_ret. do 2 f_equal.
  destruct (segment_names_sorted 0 n) as [Hsort Hnd]; [lia..|].
  assert (Hperm : numbered_entries entries ≡ₚ segment_names 0 n).
  { apply NoDup_Permutation; [apply numbered_entries_nodup, read_dir_nodup|done|].
    intros [s name]. unfold entries. rewrite read_dir_numbered. split.
    - intros [[c Hc] Hp]. assert (Hin : (name, c) ∈ files) by (eapply dh_only; eauto).
      assert (Hin2 : name ∈ map fst files).
      { apply list_elem_of_In, in_map_iff. exists (name, c). by rewrite <- list_elem_of_In. }
      rewrite Hnames in Hin2. apply list_elem_of_In, in_map_iff in Hin2 as ([s' name'] & Es & Hin2).
      apply list_elem_of_In in Hin2. cbn [snd] in Es. subst name'.
      pose proof Hin2 as Hin3. apply segment_names_elem in Hin3 as [_ ->]; [|lia..].
      rewrite parse_segment_file_name in Hp. by injection Hp as <-.
    - intros Hin. pose proof Hin as Hin3. apply segment_names_elem in Hin3 as [_ ->]; [|lia..].
      rewrite parse_segment_file_name. split; [|done].
      assert (Hin2 : segment_file_name s ∈ map snd (segment_names 0 n)).
      { apply list_elem_of_In, in_map_iff. exists (s, segment_file_name s). by rewrite <- list_elem_of_In. }
      rewrite <- Hnames in Hin2. apply list_elem_of_In, in_map_iff in Hin2 as ([name' c] & E & Hin2).
      cbn [fst] in E. subst name'. apply list_elem_of_In in Hin2.
      exists c. by apply (dh_files _ _ Hdir). }
  apply (StronglySorted_unique_strong sequence_le).
  - intros [s1 n1] [s2 n2] H1 H2 Hle1 Hle2. rewrite merge_sort_Permutation, Hperm in H1.
    apply segment_names_elem in H1 as [_ ->]; [|lia..]. apply segment_names_elem in H2 as [_ ->]; [|lia..].
    unfold sequence_le in *. simpl in *. assert (s1 = s2) as -> by (apply val_inj; lia). done.
  - apply StronglySorted_merge_sort.
    + intros a b c. unfold sequence_le. lia.
    + intros a b. unfold sequence_le. lia.
  - done.
  - by rewrite merge_sort_Permutation.
Qed.

Lemma segment_files_names i h layout t :
  map fst (segment_files i h layout t) = map snd (segment_names i (length layout)).
Proof. revert i h. induction layout; intros; simpl; [done|]. by rewrite IHlayout. Qed.

Lemma segment_names_snoc i n :
  segment_names i (S n) = segment_names i n ++ [(u64_of (i + Z.of_nat n), segment_file_name (u64_of (i + Z.of_nat n)))].
Proof.
  revert i. induction n as [|n IH]; intros i.
  - simpl. by rewrite Z.add_0_r.
  - change (segment_names i (S (S n))) with ((u64_of i, segment_file_name (u64_of i)) :: segment_names (i + 1) (S n)).
    rewrite IH. cbn [segment_names app]. by replace (i + 1 + Z.of_nat n) with (i + Z.of_nat (S n)) by lia.
Qed.

Lemma next_name_fresh h layout t i :
  len layout <= i < 2 ^ 64 ->
  segment_file_name (u64_of i) ∉ map fst (segment_files 0 h layout t).
Proof.
  intros Hn. rewrite segment_files_names. intros Hin.
  apply list_elem_of_In, in_map_iff in Hin as ([s name] & E & Hin). cbn [snd] in E. subst name.
  apply list_elem_of_In, segment_names_elem in Hin as [Hs E]; [|lia..].
  apply (inj segment_file_name) in E. subst s. rewrite val_u64_of_small in Hs; lia.
Qed.

Lemma dir_holds_replace files name c c' d d' :
  dir_holds (files ++ [(name, c)]) d -> name ∉ map fst files ->
  d_files d' = <[name := c']> (d_files d) -> d_others d' = d_others d ->
  dir_holds (files ++ [(name, c')]) d'.
Proof.
  intros [Hf Ho Hu Hx] Hni Ef Eo. split; rewrite ?Ef, ?Eo.
  - intros n cn Hin. apply elem_of_app in Hin as [Hin|Hin].
    + rewrite lookup_insert_ne; [apply Hf; set_solver|]. intros ->. apply Hni.
      apply list_elem_of_In, in_map_iff. exists (n, cn). by rewrite <- list_elem_of_In.
    + apply list_elem_of_singleton in Hin as [= -> ->]. by rewrite lookup_insert_eq.
  - intros n cn. rewrite lookup_insert. case_decide as En.
    + intros [= ->] _. subst n. set_solver.
    + intros Hl Hp. apply (Ho n cn Hl) in Hp. apply elem_of_app in Hp as [Hp|Hp]; [set_solver|].
      apply list_elem_of_singleton in Hp as [= -> _]. done.
  - intros n. rewrite lookup_insert. case_decide as En; [|by apply Hu].
    intros _. subst n. apply Hu. exists c. apply Hf. set_solver.
  - done.
Qed.

Lemma dir_holds_add files name c d d' i :
  dir_holds files d -> name = segment_file_name i -> name ∉ map fst files ->
  d_files d' = <[name := c]> (d_files d) -> d_others d' = d_others d ->
  dir_holds (files ++ [(name, c)]) d'.
Proof.
  intros [Hf Ho Hu Hx] -> Hni Ef Eo. split; rewrite ?Ef, ?Eo.
  - intros n cn Hin. apply elem_of_app in Hin as [Hin|Hin].
    + rewrite lookup_insert_ne; [by apply Hf|]. intros <-. apply Hni.
      apply list_elem_of_In, in_map_iff. exists (segment_file_name i, cn). by rewrite <- list_elem_of_In.
    + apply list_elem_of_singleton in Hin as [= -> ->]. by rewrite lookup_insert_eq.
  - intros n cn. rewrite lookup_insert. case_decide as En.
    + intros [= ->] _. subst n. set_solver.
    + intros Hl Hp. apply (Ho n cn Hl) in Hp. set_solver.
  - intros n. rewrite lookup_insert. case_decide as En; [|by apply Hu].
    intros _. subst n. apply segment_file_name_utf8.
  - done.
Qed.

Lemma dir_holds_remove files name c d d' :
  dir_holds (files ++ [(name, c)]) d -> name ∉ map fst files ->
  d_files d' = delete name (d_files d) -> d_others d' = d_others d ->
  dir_holds files d'.
Proof.
  intros [Hf Ho Hu Hx] Hni Ef Eo. split; rewrite ?Ef, ?Eo.
  - intros n cn Hin. rewrite lookup_delete_ne; [apply Hf; set_solver|]. intros ->. apply Hni.
    apply list_elem_of_In, in_map_iff. exists (n, cn). by rewrite <- list_elem_of_In.
  - intros n cn. rewrite lookup_delete. case_decide as En; [done|].
    intros Hl Hp. apply (Ho n cn Hl) in Hp. apply elem_of_app in Hp as [Hp|Hp]; [done|].
    apply list_elem_of_singleton in Hp as [= -> _]. done.
  - intros n. rewrite lookup_delete. case_decide; [by intros []|]. apply Hu.
  - done.
Qed.

(** The directories a crash can leave of a journal with these segments: the
    last file ends in part of a frame, or a new segment's header was cut. *)
Inductive crashed (layout : Layout) (d : Disk) : Prop :=
  | crashed_tail t :
      torn_tail (last_head HEAD_EMPTY (concat layout)) t -> (layout = [] -> t = []) ->
      (forall name content, (name, content) ∈ segment_files 0 HEAD_EMPTY layout t -> len content < 2 ^ 64) ->
      dir_holds (segment_files 0 HEAD_EMPTY layout t) d -> crashed layout d
  | crashed_header content :
      len content < HEADER_BYTES -> Forall (fun fs => fs <> []) layout ->
      dir_holds (segment_files 0 HEAD_EMPTY layout []
                 ++ [(segment_file_name (u64_of (len layout)), content)]) d ->
      crashed layout d.

(** The disk after recovery in some mode. *)
Definition repaired (mode : RecoveryMode) (layout : Layout) (d d' : Disk) : Prop :=
  (if is_writer mode then dir_holds (segment_files 0 HEAD_EMPTY layout []) d' else d' = d) /\
  d_faults d' = d_faults d /\ d_lock_file d' = d_lock_file d /\
  d_lock_held d' = d_lock_held d /\ d_writers d' = d_writers d.

Section Whole.
Context {St : Type} (visit : St -> ThreadEventEnvelope -> St).

Definition recovered_state (mode : RecoveryMode) (layout : Layout) : RecoveryState :=
  {| rs_head := last_head HEAD_EMPTY (concat layout);
     rs_segments := if is_writer mode then segment_infos 0 HEAD_EMPTY layout else [];
     rs_command_index := if is_writer mode then index_of (layout_pointers layout) command_index_new
                         else command_index_new |}.

Lemma replay_layout_fields mode i layout (g : Recovering (St := St)) :
  let g' := replay_layout visit mode i layout g in
  rs_segments (rg_state g')
    = rs_segments (rg_state g)
      ++ (if is_writer mode then segment_infos i (rs_head (rg_state g)) layout else []) /\
  rs_command_index (rg_state g')
    = (if is_writer mode then index_of (layout_pointers layout) (rs_command_index (rg_state g))
       else rs_command_index (rg_state g)) /\
  rg_visited g' = fold_left visit (layout_events layout) (rg_visited g).
Proof.
  revert i g. induction layout as [|fs layout IH]; intros i g; cbn zeta in *.
  - simpl. destruct (is_writer mode); by rewrite app_nil_r.
  - cbn [replay_layout]. destruct (IH (i + 1) (replay_segment visit mode i fs g)) as (-> & -> & ->).
    rewrite replay_segment_head.
    unfold layout_pointers, layout_events. cbn [map concat segment_infos].
    rewrite map_app, concat_app. unfold index_of. rewrite !fold_left_app.
    unfold replay_segment, push_segment.
    destruct (is_writer mode) eqn:Em; cbn [rg_state rs_segments rs_command_index rg_visited];
      rewrite replay_frames_segments, replay_frames_index, replay_frames_visited, Em.
    + by rewrite <- app_assoc.
    + by rewrite app_nil_r.
Qed.

Lemma replay_layout_new mode layout s :
  let g := replay_layout visit mode 0 layout (recovering_new s) in
  rg_state g = recovered_state mode layout /\ rg_visited g = fold_left visit (layout_events layout) s.
Proof.
  cbn zeta. destruct (replay_layout_fields mode 0 layout (recovering_new s)) as (Es & Ei & Ev).
  pose proof (replay_layout_head visit mode 0 layout (recovering_new s)) as Eh.
  rewrite Ev. split; [|done]. destruct (rg_state _) as [h segs idx]. cbn [rs_head rs_segments rs_command_index] in *.
  unfold recovered_state. subst. cbn. by destruct (is_writer mode).
Qed.

Lemma fresh_new mode layout s : distinct_commands layout -> fresh_commands mode (concat layout) (recovering_new (St := St) s).
Proof. intros Hd _. split; [done|]. intros id _. cbn. set_solver. Qed.

Lemma repaired_refl mode layout d :
  dir_holds (segment_files 0 HEAD_EMPTY layout []) d -> repaired mode layout d d.
Proof. intros. unfold repaired. by destruct (is_writer mode). Qed.

Lemma recover_paths_tail mode l1 fs t s d :
  let layout := l1 ++ [fs] in
  healthy d -> layout_ok 0 HEAD_EMPTY layout -> distinct_commands layout -> len layout + 1 < 2 ^ 64 ->
  torn_tail (last_head HEAD_EMPTY (concat layout)) t ->
  (forall name content, (name, content) ∈ segment_files 0 HEAD_EMPTY layout t -> len content < 2 ^ 64) ->
  dir_holds (segment_files 0 HEAD_EMPTY layout t) d ->
  exists d', recover_paths visit cfg tid mode (len layout) 0 (segment_names 0 (length layout)) (recovering_new s) d
      = (d', Ok (replay_layout visit mode 0 layout (recovering_new s)))
    /\ repaired mode layout d d'.
Proof.
  intros layout Hd Hok Hdist Hn Ht Hfit Hdir. unfold layout in *.
  pose proof (fresh_new mode _ s Hdist) as Hids.
  rewrite segment_files_app in * by done.
  rewrite length_app in *. cbn [length] in *. rewrite Nat.add_1_r in *.
  apply layout_ok_app in Hok as (Hok1 & Hok2 & Hne). specialize (Hne ltac:(done)).
  set (h := last_head HEAD_EMPTY (concat l1)) in *. rewrite Z.add_0_l in *.
  destruct Hok2 as (Hrev & Hfs & _ & Hfs_fit & Hi & _).
  cbn [segment_files is_empty] in *.
  set (name := segment_file_name (u64_of (len l1))) in *.
  assert (Hlast : (name, segment_content (len l1) h fs ++ t)
                  ∈ segment_files 0 HEAD_EMPTY l1 [] ++ [(name, segment_content (len l1) h fs ++ t)]) by set_solver.
  rewrite segment_names_snoc, Z.add_0_l.
  rewrite concat_app in Hids. cbn [concat] in Hids. rewrite app_nil_r in Hids.
  assert (Hids1 : fresh_commands mode (concat l1) (recovering_new (St := St) s)).
  { intros Hw. destruct (Hids Hw) as [Hnd _]. split; [|intros; cbn; set_solver].
    rewrite map_app in Hnd. by apply list.NoDup_app in Hnd as [? _]. }
  rewrite (recover_paths_before visit 0 mode l1) by
    (try done; try lia; intros n c Hin; apply (dh_files _ _ Hdir); set_solver).
  set (g := replay_layout visit mode 0 l1 (recovering_new s)).
  assert (Eh : rs_head (rg_state g) = h) by apply replay_layout_head.
  assert (Hg : fresh_commands mode fs g).
  { by apply fresh_layout. }
  replace (Z.of_nat (S (length l1))) with (len l1 + 1) by lia. rewrite Z.add_0_l.
  assert (Hfile := dh_files _ _ Hdir _ _ Hlast).
  exists (settled mode name (segment_content (len l1) h fs) t d). split.
  - change [(u64_of (len l1), segment_file_name (u64_of (len l1)))] with (segment_names (len l1) 1).
    rewrite (recover_paths_last visit (len l1) mode fs t g d); rewrite ?Eh; try done; try lia.
    + by rewrite replay_layout_app, Z.add_0_l.
    + rewrite concat_app, last_head_app in Ht. cbn [concat] in Ht. by rewrite app_nil_r in Ht.
    + by eapply Hfit.
  - assert (Hni : name ∉ map fst (segment_files 0 HEAD_EMPTY l1 [])) by (apply next_name_fresh; lia).
    unfold repaired, settled. rewrite segment_files_app by done.
    fold h. rewrite Z.add_0_l. cbn [segment_files is_empty]. rewrite app_nil_r.
    destruct (is_writer mode); cbn [andb]; [|done].
    destruct t as [|b t]; cbn [is_empty negb].
    + rewrite app_nil_r in Hdir. done.
    + split; [|done]. by apply (dir_holds_replace _ _ _ _ _ _ Hdir Hni).
Qed.

Lemma recover_paths_header mode layout content s d :
  healthy d -> layout_ok 0 HEAD_EMPTY layout -> distinct_commands layout -> len layout + 1 < 2 ^ 64 ->
  len content < HEADER_BYTES -> Forall (fun fs => fs <> []) layout ->
  dir_holds (segment_files 0 HEAD_EMPTY layout []
             ++ [(segment_file_name (u64_of (len layout)), content)]) d ->
  exists d', recover_paths visit cfg tid mode (len layout + 1) 0 (segment_names 0 (S (length layout)))
               (recovering_new s) d
      = (d', Ok (replay_layout visit mode 0 layout (recovering_new s)))
    /\ repaired mode layout d d'.
Proof.
  intros Hd Hok Hdist Hn Hshort Hne Hdir. pose proof (fresh_new mode _ s Hdist) as Hids.
  set (name := segment_file_name (u64_of (len layout))) in *.
  assert (Hfile : d_files d !! name = Some content) by (apply (dh_files _ _ Hdir); set_solver).
  exists (removed mode name d). split.
  - rewrite segment_names_snoc, Z.add_0_l.
    rewrite recover_paths_before by
      (try done; try lia; intros n c Hin; apply (dh_files _ _ Hdir); set_solver).
    rewrite Z.add_0_l.
    change [(u64_of (len layout), segment_file_name (u64_of (len layout)))] with (segment_names (len layout) 1).
    by rewrite (recover_paths_short visit (len layout) mode content) by (try done; lia).
  - assert (Hni : name ∉ map fst (segment_files 0 HEAD_EMPTY layout [])) by (apply next_name_fresh; lia).
    unfold repaired, removed. destruct (is_writer mode); [|done]. split; [|done].
    by apply (dir_holds_remove _ name content d).
Qed.

(** Recovery of whatever a crash leaves yields the journal's committed frames,
    and a writer's recovery repairs the directory. *)
Lemma recover_crashed_run mode layout s d :
  healthy d -> layout_ok 0 HEAD_EMPTY layout -> distinct_commands layout -> crashed layout d ->
  len layout + 1 < 2 ^ 64 ->
  exists d', recover_with_mode visit cfg tid mode s d
      = (d', Ok (recovered_state mode layout, fold_left visit (layout_events layout) s))
    /\ repaired mode layout d d'.
Proof.
  intros Hd Hok Hdist Hcr Hn. destruct (replay_layout_new mode layout s) as [Eg Ev].
  assert (Hrest : forall n count, segment_paths d = (d, Ok (segment_names 0 n)) -> Z.of_nat n = count ->
    (exists d', recover_paths visit cfg tid mode count 0 (segment_names 0 n) (recovering_new s) d
                = (d', Ok (replay_layout visit mode 0 layout (recovering_new s)))
                /\ repaired mode layout d d') ->
    exists d', recover_with_mode visit cfg tid mode s d
      = (d', Ok (recovered_state mode layout, fold_left visit (layout_events layout) s))
      /\ repaired mode layout d d').
  { intros n count Hpaths <- (d' & Hrun & Hrep). exists d'. split; [|done].
    unfold recover_with_mode. erewrite M_bind_run by exact Hpaths.
    rewrite length_segment_names. erewrite M_bind_run by exact Hrun. by rewrite Eg, Ev. }
  destruct Hcr as [t Ht Hnil Hfit Hdir|content Hshort Hne Hdir].
  - apply (Hrest (length layout) (len layout)); [|done|].
    { apply (segment_paths_run d _ _ Hd Hdir); [lia|apply segment_files_names]. }
    destruct (list_snoc_cases layout) as [->|(l1 & fs & ->)].
    + rewrite (Hnil eq_refl) in Hdir. exists d. split; [done|by apply repaired_refl].
    + by apply (recover_paths_tail mode l1 fs t).
  - apply (Hrest (S (length layout)) (len layout + 1)); [|lia|].
    + apply (segment_paths_run d _ _ Hd Hdir); [lia|].
      rewrite segment_names_snoc, !map_app, segment_files_names, Z.add_0_l. done.
    + by apply (recover_paths_header mode layout content).
Qed.

End Whole.

End RecoveryFacts.
