(* ===== verification/Journal.v ===== *)
(** The open journal of a thread: writer lock, append, sync, receipts and
    ranges (thread-store-journal: journal.rs, projection.rs). *)

From stdpp Require Import pretty.
From S2P Require Import Prelude Canonical Events Commands Receipts Format CommandIndex Disk Model Recovery.

Open Scope string_scope.
Open Scope list_scope.
Open Scope Z_scope.

(** * Segments with unsynced batches *)

Record PendingSegmentSyncs := { ps_sequences : list u64 }.

Definition pending_default : PendingSegmentSyncs := {| ps_sequences := [] |}.

Definition mark (sequence : u64) (p : PendingSegmentSyncs) : PendingSegmentSyncs :=
  let pushed := {| ps_sequences := ps_sequences p ++ [sequence] |} in
  match list.last (ps_sequences p) with
  | None => pushed
  | Some last =>
      if bool_decide (last = sequence) then p
      else if val last <? val sequence then pushed
      else match binary_search (ps_sequences p) sequence with
           | Err index => {| ps_sequences := vec_insert index sequence (ps_sequences p) |}
           | Ok _ => p
           end
  end.

Definition iter_including (p : PendingSegmentSyncs) (current : option u64) : list u64 :=
  ps_sequences p ++
  match current with
  | Some sequence => if is_ok (binary_search (ps_sequences p) sequence) then [] else [sequence]
  | None => []
  end.

(** * The journal *)

Record ThreadJournal := {
  tj_config : JournalConfig;
  tj_thread_id : ThreadId;
  tj_process : nat;
  tj_head : ThreadHead;
  tj_segments : list SegmentInfo;
  tj_command_index : CommandIndex;
  tj_pending_syncs : PendingSegmentSyncs;
  tj_dirty_batch_count : u64
}.

Definition set_segments (segments : list SegmentInfo) (j : ThreadJournal) : ThreadJournal :=
  {| tj_config := tj_config j; tj_thread_id := tj_thread_id j; tj_process := tj_process j;
     tj_head := tj_head j; tj_segments := segments; tj_command_index := tj_command_index j;
     tj_pending_syncs := tj_pending_syncs j; tj_dirty_batch_count := tj_dirty_batch_count j |}.

Definition set_pending (pending : PendingSegmentSyncs) (dirty : u64) (j : ThreadJournal) : ThreadJournal :=
  {| tj_config := tj_config j; tj_thread_id := tj_thread_id j; tj_process := tj_process j;
     tj_head := tj_head j; tj_segments := tj_segments j; tj_command_index := tj_command_index j;
     tj_pending_syncs := pending; tj_dirty_batch_count := dirty |}.

Definition set_head (head : ThreadHead) (j : ThreadJournal) : ThreadJournal :=
  {| tj_config := tj_config j; tj_thread_id := tj_thread_id j; tj_process := tj_process j;
     tj_head := head; tj_segments := tj_segments j; tj_command_index := tj_command_index j;
     tj_pending_syncs := tj_pending_syncs j; tj_dirty_batch_count := tj_dirty_batch_count j |}.

Definition set_command_index (index : CommandIndex) (j : ThreadJournal) : ThreadJournal :=
  {| tj_config := tj_config j; tj_thread_id := tj_thread_id j; tj_process := tj_process j;
     tj_head := tj_head j; tj_segments := tj_segments j; tj_command_index := index;
     tj_pending_syncs := tj_pending_syncs j; tj_dirty_batch_count := tj_dirty_batch_count j |}.

(** Methods of an open journal run over the journal and the disk. *)
Abbreviation journal_io := (M (ThreadJournal * Disk) JournalError).

Definition on_disk {A} (m : M Disk JournalError A) : journal_io A := fun '(j, d) =>
  let (d, r) := m d in ((j, d), r).
Definition self {A} (f : ThreadJournal -> A) : journal_io A := gets (fun s => f (fst s)).
Definition update (f : ThreadJournal -> ThreadJournal) : journal_io unit :=
  modify (fun '(j, d) => (f j, d)).

Section Journal.
Context `{External, JsonCodec}.

(** ** Opening and the writer lock *)

(** [release_process_writer] *)
Definition release_process_writer (process : nat) (d : Disk) : Disk :=
  with_lock (d_lock_file d) (d_lock_held d) (d_writers d ∖ {[ process ]}) d.

(** [FileExt::unlock]; the lock also ends when its file is closed. *)
Definition unlock (d : Disk) : Disk := with_lock (d_lock_file d) false (d_writers d) d.

Definition create_dir_all : io unit := syscall (fun d => (d, Ok tt)).

(** Opens [.writer.lock], creating it. *)
Definition open_lock_file : io unit :=
  syscall (fun d => (with_lock true (d_lock_held d) (d_writers d) d, Ok tt)).

Definition try_lock_exclusive : io unit :=
  syscall (fun d => if d_lock_held d then (d, Err WouldBlock)
                    else (with_lock (d_lock_file d) true (d_writers d) d, Ok tt)).

Definition is_writer_busy_error (e : IoError) : bool := bool_decide (e = WouldBlock).

Definition open_and_fold {St} (process : nat) (config : JournalConfig) (thread_id : ThreadId)
    (state : St) (fold : St -> ThreadEventEnvelope -> St)
    : M Disk JournalError (ThreadJournal * St) :=
  _ ← of_result (validate_config config);
  _ ← map_error Io create_dir_all;
  busy ← gets (fun d => bool_decide (process ∈ d_writers d));
  _ ← modify (fun d => with_lock (d_lock_file d) (d_lock_held d) ({[ process ]} ∪ d_writers d) d);
  _ ← guard_m (negb busy) WriterBusy;
  opened ← outcome open_lock_file;
  match opened with
  | Err e => _ ← modify (release_process_writer process); throw (Io e)
  | Ok _ =>
      locked ← outcome try_lock_exclusive;
      match locked with
      | Err e =>
          _ ← modify (release_process_writer process);
          throw (if is_writer_busy_error e then WriterBusy else Io e)
      | Ok _ =>
          recovered ← outcome (recover_fold fold config thread_id state);
          match recovered with
          | Err e =>
              _ ← modify unlock;
              _ ← modify (release_process_writer process);
              throw e
          | Ok (recovered, state) =>
              mret ({| tj_config := config;
                       tj_thread_id := thread_id;
                       tj_process := process;
                       tj_head := rs_head recovered;
                       tj_segments := rs_segments recovered;
                       tj_command_index := rs_command_index recovered;
                       tj_pending_syncs := pending_default;
                       tj_dirty_batch_count := u64_zero |}, state)
          end
      end
  end.

Definition open (process : nat) (config : JournalConfig) (thread_id : ThreadId)
    : M Disk JournalError ThreadJournal :=
  '(journal, _) ← open_and_fold process config thread_id tt (fun _ _ => tt);
  mret journal.

(** [Drop for ThreadJournal] *)
Definition drop_journal (j : ThreadJournal) (d : Disk) : Disk :=
  release_process_writer (tj_process j) (unlock d).

(** Closing the probe's file releases its lock even when [unlock] fails. *)
Definition writer_is_busy (process : nat) (config : JournalConfig) : M Disk JournalError bool :=
  _ ← of_result (validate_config config);
  known ← gets (fun d => bool_decide (process ∈ d_writers d));
  if (known : bool) then mret true
  else
    opened ← outcome (syscall (fun d => if d_lock_file d then (d, Ok tt) else (d, Err NotFound)));
    match opened with
    | Err NotFound => mret false
    | Err e => throw (Io e)
    | Ok _ =>
        locked ← outcome try_lock_exclusive;
        match locked with
        | Ok _ =>
            released ← outcome (syscall (fun d => (d, Ok tt)));
            _ ← modify unlock;
            match released with
            | Ok _ => mret false
            | Err e => throw (Io e)
            end
        | Err e => if is_writer_busy_error e then mret true else throw (Io e)
        end
    end.

(** ** Finding committed commands *)

Definition find_command_frame (command_id : CommandId) (j : ThreadJournal)
    : M Disk JournalError (option FramePointer) :=
  if negb (maybe_contains (tj_command_index j) command_id) then mret None
  else match recent_frame (tj_command_index j) command_id with
       | Some frame => mret (Some frame)
       | None => find_command_pointer (tj_segments j) command_id
       end.

Definition read_committed_command (frame : FramePointer) (j : ThreadJournal)
    : M Disk JournalError (Digest * ThreadCommandReceipt) :=
  segment ← of_option (index ← segment_index_for_revision (tj_segments j) (fp_start_revision frame);
                       tj_segments j !! index)
              (InvalidConfig "receipt frame references a missing segment");
  _ ← map_error Io (fs_open (sg_path segment));
  '(decoded, _) ← read_pointer frame 0 cursor_default (sg_path segment) (tj_thread_id j)
                    (jc_max_frame_payload_bytes (tj_config j));
  receipt ← of_result (map_err (CorruptSegment (sg_path segment) (val (fp_offset frame)))
                         (into_receipt (df_stored decoded)));
  mret (sb_command_digest (df_stored decoded), receipt).

Definition receipt (command_id : CommandId) (j : ThreadJournal)
    : M Disk JournalError (option ThreadCommandReceipt) :=
  frame ← find_command_frame command_id j;
  match frame with
  | None => mret None
  | Some frame =>
      '(_, receipt) ← read_committed_command frame j;
      mret (Some receipt)
  end.

(** ** Writing *)

Definition create_segment : journal_io unit :=
  segments ← self tj_segments;
  head ← self tj_head;
  thread_id ← self tj_thread_id;
  sequence ← of_option (checked 0 (2 ^ 64) (len segments)) (InvalidConfig "segment sequence overflow");
  first_revision ← of_option (checked_next (head_revision head)) (InvalidBatch "thread revision overflow");
  let path := segment_file_name sequence in
  _ ← on_disk (map_error Io (fs_create_new path));
  let header := encode_segment_header sequence first_revision thread_id (head_digest head) in
  written ← outcome (on_disk (map_error Io (fs_write_all path header)));
  match written with
  | Err error =>
      _ ← ignore (on_disk (map_error Io (fs_remove_file path)));
      throw error
  | Ok _ =>
      update (set_segments (segments ++ [{|
        sg_sequence := sequence;
        sg_first_revision := first_revision;
        sg_last_revision := head_revision head;
        sg_path := path;
        sg_bytes := u64_of (Z.of_nat SEGMENT_HEADER_LEN) |}]))
  end.

(** Whether [select_segment] starts a new segment. *)
Definition must_rotate (config : JournalConfig) (segments : list SegmentInfo) (frame_bytes : Z) : bool :=
  match list.last segments with
  | None => true
  | Some segment =>
      (Z.of_nat SEGMENT_HEADER_LEN <? val (sg_bytes segment))
      && match u64_checked_add (sg_bytes segment) frame_bytes with
         | None => true
         | Some n => val (jc_max_segment_bytes config) <? val n
         end
  end.

Definition select_segment (frame_bytes : Z) : journal_io nat :=
  _ ← of_option (checked 0 (2 ^ 64) frame_bytes) (InvalidBatch "frame length exceeds u64");
  rotate ← self (fun j => must_rotate (tj_config j) (tj_segments j) frame_bytes);
  _ ← (if (rotate : bool) then create_segment else mret tt);
  self (fun j => (length (tj_segments j) - 1)%nat).

Fixpoint sync_segments (segments : list SegmentInfo) (sequences : list u64) : M Disk JournalError unit :=
  match sequences with
  | [] => mret tt
  | sequence :: sequences =>
      segment ← of_option (segments !! Z.to_nat (val sequence)) (InvalidConfig "dirty segment is not open");
      _ ← map_error Io (sync_file (sg_path segment));
      sync_segments segments sequences
  end.

Definition sync_pending_segments (current : option u64) (j : ThreadJournal) : M Disk JournalError unit :=
  _ ← sync_segments (tj_segments j) (iter_including (tj_pending_syncs j) current);
  if negb (is_none current) || negb (is_empty (ps_sequences (tj_pending_syncs j)))
  then map_error Io sync_directory else mret tt.

Definition write_frame (path : string) (expected_offset : Z) (frame : EncodedFrame)
    : M Disk JournalError unit :=
  appended ← outcome (append_at path expected_offset (ef_bytes frame));
  match appended with
  | Ok _ => mret tt
  | Err (OffsetChanged actual) =>
      throw (CorruptSegment path actual
        (String.append "segment length changed from expected offset " (pretty (Z.to_N expected_offset))))
  | Err (BeforeWrite error) => throw (Io error)
  | Err (DuringWrite error) =>
      _ ← map_error Io (truncate_and_sync path expected_offset);
      throw (Io error)
  end.

Definition rollback_frame (path : string) (offset : Z) : M Disk JournalError unit :=
  map_error Io (truncate_and_sync path offset).

(** The bookkeeping of durability once the frame is written. *)
Definition settle (durability : JournalDurability) (path : string) (sequence : u64) (before : Z)
    : journal_io unit :=
  match durability with
  | Durable =>
      j ← self (fun j => j);
      synced ← outcome (on_disk (sync_pending_segments (Some sequence) j));
      match synced with
      | Err error =>
          _ ← on_disk (rollback_frame path before);
          throw error
      | Ok _ => update (set_pending pending_default u64_zero)
      end
  | Buffered =>
      j ← self (fun j => j);
      _ ← update (fun j => set_pending (mark sequence (tj_pending_syncs j)) (tj_dirty_batch_count j) j);
      count ← of_option (u64_checked_add (tj_dirty_batch_count j) 1)
                (InvalidBatch "dirty batch count overflow");
      update (fun j => set_pending (tj_pending_syncs j) count j)
  end.

(** The segment after a frame of [n] bytes was committed to it. *)
Definition grow_segment (bytes : u64) (last_revision : ThreadRevision) (s : SegmentInfo) : SegmentInfo :=
  {| sg_sequence := sg_sequence s; sg_first_revision := sg_first_revision s;
     sg_last_revision := last_revision; sg_path := sg_path s; sg_bytes := bytes |}.

Definition commit (command_id : CommandId) (encoded : EncodedFrame) (next_head : ThreadHead)
    (segment_index : nat) (before : u64) : journal_io AppendOutcome :=
  length ← of_option (checked 0 (2 ^ 64) (len (ef_bytes encoded))) (InvalidBatch "frame length exceeds u64");
  total ← of_option (u64_checked_add before (val length)) (InvalidBatch "segment length overflow");
  _ ← update (fun j => set_segments
        (alter (grow_segment total (head_revision next_head)) segment_index (tj_segments j)) j);
  previous ← self (fun j => head_digest (tj_head j));
  let frame := {| fp_previous_record_digest := previous;
                  fp_start_revision := fh_start_revision (ef_header encoded);
                  fp_offset := before;
                  fp_len := length |} in
  _ ← update (set_head next_head);
  '(receipt, events) ← of_result (map_err InvalidBatch (into_receipt_and_events (ef_stored encoded)));
  _ ← update (fun j => set_command_index (index_insert command_id frame (tj_command_index j)) j);
  mret (Committed receipt events).

(** The branch of [append] for a command without a committed frame. *)
Definition append_new (batch : JournalBatch) (durability : JournalDurability) : journal_io AppendOutcome :=
  j ← self (fun j => j);
  _ ← guard_m (bool_decide (jb_thread_id batch = tj_thread_id j))
        (InvalidBatch "batch thread id does not match the open journal");
  _ ← guard_m (bool_decide (jb_expected_revision batch = head_revision (tj_head j)))
        (RevisionConflict (jb_expected_revision batch) (head_revision (tj_head j)));
  encoded ← of_result (map_err InvalidBatch
              (encode_batch batch durability (jc_max_frame_payload_bytes (tj_config j))));
  next_head ← of_result (map_err InvalidBatch
                (validate_stored_batch (ef_header encoded) (ef_stored encoded) (tj_thread_id j) (tj_head j)));
  segment_index ← select_segment (len (ef_bytes encoded));
  segment ← self (fun j => tj_segments j !! segment_index);
  segment ← of_option segment (InvalidConfig "segment index out of range");
  let before := sg_bytes segment in
  _ ← on_disk (write_frame (sg_path segment) (val before) encoded);
  _ ← settle durability (sg_path segment) (sg_sequence segment) (val before);
  commit (jb_command_id batch) encoded next_head segment_index before.

Definition append (batch : JournalBatch) (durability : JournalDurability) : journal_io AppendOutcome :=
  j ← self (fun j => j);
  found ← on_disk (find_command_frame (jb_command_id batch) j);
  match found with
  | Some frame =>
      '(command_digest, receipt) ← on_disk (read_committed_command frame j);
      if bool_decide (command_digest = jb_command_digest batch) then mret (Duplicate receipt)
      else throw (IdempotencyCollision (jb_command_id batch))
  | None => append_new batch durability
  end.

Definition needs_sync (j : ThreadJournal) : bool := 0 <? val (tj_dirty_batch_count j).

Definition sync : journal_io DurabilityBarrier :=
  j ← self (fun j => j);
  let count := tj_dirty_batch_count j in
  _ ← (if 0 <? val count then
         _ ← on_disk (sync_pending_segments None j);
         update (set_pending pending_default u64_zero)
       else mret tt);
  mret {| db_through := tj_head j; db_batch_count := count |}.

(** ** Ranges (projection.rs) *)

Definition segment_window (segments : list SegmentInfo) (range : ThreadRevisionRange) : list SegmentInfo :=
  let start := partition_point (fun s => rev (sg_last_revision s) <? rev (range_start range)) segments in
  let stop := partition_point (fun s => rev (sg_first_revision s) <=? rev (range_end_inclusive range)) segments in
  take (stop - start) (drop start segments).

(** [{:?}] of a revision *)
Definition revision_debug (r : ThreadRevision) : string :=
  String.append "ThreadRevision(" (String.append (pretty (Z.to_N (rev r))) ")").

Section Fold.
Context {St : Type} (fold : St -> ThreadEventEnvelope -> St).

(** The loop over the events of one frame. *)
Fixpoint visit_events (range : ThreadRevisionRange) (observed : u64) (state : St)
    (events : list ThreadEventEnvelope) : result JournalError (u64 * St) :=
  match events with
  | [] => Ok (observed, state)
  | event :: events =>
      if (rev (range_start range) <=? rev (ev_revision event))
         && (rev (ev_revision event) <=? rev (range_end_inclusive range)) then
        expected_revision ← ok_or (checked_advance (range_start range) observed)
                              (InvalidRange "revision range overflow");
        _ ← ensure (bool_decide (ev_revision event = expected_revision))
              (InvalidRange "journal does not contain the complete requested range");
        observed ← ok_or (u64_checked_add observed 1) (InvalidRange "revision range overflow");
        visit_events range observed (fold state event) events
      else visit_events range observed state events
  end.

(** The variables the visitor of [visit_range] mutates. *)
Record Visiting := { vi_observed : u64; vi_cursor : FrameReadCursor; vi_state : St }.

Definition visit_frame (config : JournalConfig) (thread_id : ThreadId) (range : ThreadRevisionRange)
    (path : string) (pointer : FramePointer) (_ : byte_array 16) (position : Z) (v : Visiting)
    : M Disk JournalError (Visiting * bool) :=
  '(frame, cursor) ← read_pointer pointer position (reset_position (vi_cursor v)) path thread_id
                       (jc_max_frame_payload_bytes config);
  '(observed, state) ← of_result (visit_events range (vi_observed v) (vi_state v)
                                    (stored_list (sb_events (df_stored frame))));
  mret ({| vi_observed := observed; vi_cursor := cursor; vi_state := state |}, false).

Fixpoint visit_window (config : JournalConfig) (thread_id : ThreadId) (range : ThreadRevisionRange)
    (segments : list SegmentInfo) (v : Visiting) : M Disk JournalError Visiting :=
  match segments with
  | [] => mret v
  | segment :: segments =>
      let v := {| vi_observed := vi_observed v; vi_cursor := reset_position (vi_cursor v);
                  vi_state := vi_state v |} in
      '(v, _) ← visit_segment_pointers (visit_frame config thread_id range (sg_path segment)) segment v;
      visit_window config thread_id range segments v
  end.

Definition visit_range (config : JournalConfig) (thread_id : ThreadId) (head : ThreadHead)
    (segments : list SegmentInfo) (range : ThreadRevisionRange) (state : St) : M Disk JournalError St :=
  _ ← guard_m (negb (rev (head_revision head) <? rev (range_end_inclusive range)))
        (InvalidRange (String.append "requested end " (String.append (revision_debug (range_end_inclusive range))
           (String.append " exceeds thread head " (revision_debug (head_revision head))))));
  v ← visit_window config thread_id range (segment_window segments range)
        {| vi_observed := u64_zero; vi_cursor := cursor_default; vi_state := state |};
  expected ← of_option
    (value ← checked 0 (2 ^ 64) (rev (range_end_inclusive range) - rev (range_start range));
     u64_checked_add value 1) (InvalidRange "revision range overflow");
  _ ← guard_m (bool_decide (vi_observed v = expected))
        (InvalidRange "journal does not contain the complete requested range");
  mret (vi_state v).

End Fold.

(** [ThreadJournal::fold_range] *)
Definition fold_range {St} (range : ThreadRevisionRange) (state : St)
    (fold : St -> ThreadEventEnvelope -> St) (j : ThreadJournal) : M Disk JournalError St :=
  visit_range fold (tj_config j) (tj_thread_id j) (tj_head j) (tj_segments j) range state.

(** [ThreadJournalSnapshot] *)
Record ThreadJournalSnapshot := {
  ts_config : JournalConfig;
  ts_thread_id : ThreadId;
  ts_head : ThreadHead;
  ts_segments : list SegmentInfo
}.

Definition snapshot (j : ThreadJournal) : ThreadJournalSnapshot :=
  {| ts_config := tj_config j; ts_thread_id := tj_thread_id j;
     ts_head := tj_head j; ts_segments := tj_segments j |}.

Definition snapshot_fold_range {St} (range : ThreadRevisionRange) (state : St)
    (fold : St -> ThreadEventEnvelope -> St) (s : ThreadJournalSnapshot) : M Disk JournalError St :=
  visit_range fold (ts_config s) (ts_thread_id s) (ts_head s) (ts_segments s) range state.

End Journal.
