(* ===== verification/JournalFacts.v ===== *)
(** An open journal over the disk it describes: finding and reading committed
    commands, and what appending does to the abstract journal. *)

From stdpp Require Import sorting.
From S2P Require Import Prelude Canonical Events Commands Receipts Format FormatFacts.
From S2P Require Import CommandIndex Disk Model Recovery JournalSpec RecoveryFacts Journal.

Open Scope string_scope.
Open Scope list_scope.
Open Scope Z_scope.

(** * The command index of a journal *)

Lemma index_of_app ps1 ps2 c : index_of (ps1 ++ ps2) c = index_of ps2 (index_of ps1 c).
Proof. apply fold_left_app. Qed.

Lemma index_of_ok ps c : index_ok c -> index_ok (index_of ps c).
Proof.
  revert c. induction ps as [|[id p] ps IH]; intros c Hc; simpl; [done|].
  apply IH. by apply index_ok_insert.
Qed.

(** No false negatives. *)
Lemma index_of_contains ps c id :
  index_ok c -> id ∈ map fst ps \/ maybe_contains c id = true -> maybe_contains (index_of ps c) id = true.
Proof.
  revert c. induction ps as [|[i p] ps IH]; intros c Hc Hid; simpl in *.
  - destruct Hid as [Hid|Hid]; [by apply not_elem_of_nil in Hid|done].
  - apply IH; [by apply index_ok_insert|]. rewrite elem_of_cons in Hid.
    destruct Hid as [[->|Hid]|Hid]; [right|by left|right]; apply maybe_contains_insert; auto.
Qed.

(** The cache only answers with inserted pointers. *)
Lemma index_of_recent ps c id q :
  recent_frame (index_of ps c) id = Some q -> (id, q) ∈ ps \/ recent_frame c id = Some q.
Proof.
  revert c. induction ps as [|[i p] ps IH]; intros c Hq; simpl in *; [by right|].
  apply IH in Hq as [Hq|Hq]; [left; by apply list_elem_of_further|].
  apply recent_frame_insert in Hq as [[-> ->]|[_ Hq]]; [left; apply list_elem_of_here|by right].
Qed.

(** The pointer of a command in a list of pointers. *)
Definition lookup_pointer (id : CommandId) (ps : list (CommandId * FramePointer)) : option FramePointer :=
  snd <$> List.find (fun e => bool_decide (fst e = id)) ps.

Lemma lookup_pointer_Some id p ps :
  NoDup (map fst ps) -> lookup_pointer id ps = Some p <-> (id, p) ∈ ps.
Proof.
  unfold lookup_pointer. induction ps as [|[i q] ps IH]; intros Hnd; simpl.
  - split; [done|]. by intros ?%not_elem_of_nil.
  - cbn [map fst] in Hnd. apply list.NoDup_cons in Hnd as [Hni Hnd]. rewrite elem_of_cons.
    case_bool_decide as E; simpl.
    + subst. split; [intros [= ->]; by left|]. intros [[= ->]|Hin]; [done|].
      exfalso. apply Hni. apply list_elem_of_In, in_map_iff. exists (id, p). by rewrite <- list_elem_of_In.
    + rewrite (IH Hnd). split; [by right|]. by intros [[= -> ->]|Hin].
Qed.

Lemma lookup_pointer_None id ps : lookup_pointer id ps = None <-> id ∉ map fst ps.
Proof.
  unfold lookup_pointer. rewrite fmap_None. induction ps as [|[i q] ps IH]; simpl.
  - split; [|done]. intros _. apply not_elem_of_nil.
  - rewrite elem_of_cons. case_bool_decide; [naive_solver|]. rewrite IH. naive_solver.
Qed.

Lemma lookup_pointer_app id ps1 ps2 :
  lookup_pointer id (ps1 ++ ps2)
    = match lookup_pointer id ps1 with Some p => Some p | None => lookup_pointer id ps2 end.
Proof.
  unfold lookup_pointer. induction ps1 as [|[i q] ps1 IH]; simpl; [done|]. by case_bool_decide.
Qed.

Lemma frame_pointers_ids offset fs : map fst (frame_pointers offset fs) = map frame_id fs.
Proof. revert offset. induction fs as [|f fs IH]; intros; simpl; [done|]. by rewrite IH. Qed.

Lemma layout_pointers_ids layout : map fst (layout_pointers layout) = map frame_id (concat layout).
Proof.
  unfold layout_pointers. induction layout as [|fs layout IH]; simpl; [done|].
  by rewrite !map_app, frame_pointers_ids, IH.
Qed.

Section JournalFacts.
Context `{External, JsonCodec} (cfg : JournalConfig) (tid : ThreadId).

Abbreviation frame_ok := (frame_ok cfg tid).
Abbreviation frames_ok := (frames_ok cfg tid).
Abbreviation layout_ok := (layout_ok cfg tid).
Abbreviation segment_content := (segment_content tid).
Abbreviation segment_files := (segment_files tid).

(** * Visiting the frames of a segment *)

(** [visit_pointers] over good frames, with the visitor's effect as a value. *)
Fixpoint visit_frames {A} (step : Z -> Frame -> A -> result JournalError (A * bool))
    (offset : Z) (fs : list Frame) (acc : A) : result JournalError (A * bool) :=
  match fs with
  | [] => Ok (acc, false)
  | f :: fs =>
      '(acc, stop) ← step offset f acc;
      if (stop : bool) then Ok (acc, true) else visit_frames step (offset + len (fr_bytes f)) fs acc
  end.

Lemma visit_pointers_run {A} (visit : FramePointer -> byte_array 16 -> Z -> A -> M Disk JournalError (A * bool))
    step fuel info pre fs h acc d (offset : u64) :
  healthy d -> d_files d !! sg_path info = Some (pre ++ frames_bytes fs) ->
  val offset = len pre -> val (sg_bytes info) = len (pre ++ frames_bytes fs) ->
  frames_ok h fs ->
  (forall l1 f l2 acc, fs = l1 ++ f :: l2 ->
     let offset := len (pre ++ frames_bytes l1) in
     visit (pointer_of offset f) (as_uuid (frame_id f)) (offset + Z.of_nat FRAME_HEADER_LEN) acc d
       = (d, step offset f acc)) ->
  (length (frames_bytes fs) <= fuel)%nat ->
  visit_pointers visit fuel info offset acc d = (d, visit_frames step (len pre) fs acc).
Proof.
  revert fuel pre h acc offset.
  induction fs as [|f fs IH]; intros fuel pre h acc offset Hd Hp Hoff Hbytes Hfs Hvisit Hfuel.
  - rewrite app_nil_r in *. assert (E : offset = sg_bytes info) by (apply val_inj; congruence).
    subst offset. destruct fuel; cbn [visit_pointers]; rewrite ?Z.ltb_irrefl, bool_decide_eq_true_2 by done; done.
  - pose proof frame_lengths as [Hfh Hft].
    destruct Hfs as [Hf Hfs]. destruct (frame_ok_bytes _ _ _ _ Hf) as (Hhd & Hlen & Hbounds).
    rewrite frames_bytes_cons in *. pose proof (val_bounds (sg_bytes info)) as Hbb.
    rewrite Hbytes, !length_app in Hbb.
    destruct fuel as [|fuel]; [rewrite length_app in Hfuel; lia|]. cbn [visit_pointers].
    rewrite Hbytes, Hoff, !length_app.
    replace (len pre <? _) with true by (rewrite !Nat2Z.inj_add; compare). cbn [negb].
    erewrite M_bind_run by (apply map_error_run; unfold fs_seek; by rewrite syscall_healthy).
    erewrite M_bind_run.
    2: { apply map_error_run, (fs_read_exact_healthy _ _ _ _ _ Hd Hp). rewrite !length_app. lia. }
    rewrite !Nat2Z.id, slice_skip, Nat.sub_diag, slice_within by lia.
    run_pure Hhd. run_pure Hlen.
    destruct (checked_in 0 (2 ^ 64) (val offset + len (fr_bytes f))) as (next & Hn & En); [lia|].
    unfold u64_checked_add. rewrite val_u64_of_small by lia. rewrite Hn. erewrite M_bind_run by reflexivity.
    replace (_ <? val next) with false by (rewrite En, !Nat2Z.inj_add; compare).
    erewrite M_bind_run by reflexivity.
    assert (Hv := Hvisit [] f fs acc eq_refl). cbn zeta in Hv.
    change (frames_bytes []) with (@nil byte) in Hv. rewrite app_nil_r in Hv.
    assert (Eptr : {| fp_previous_record_digest := fh_previous_record_digest (fr_header f);
                      fp_start_revision := fh_start_revision (fr_header f);
                      fp_offset := offset; fp_len := u64_of (len (fr_bytes f)) |} = pointer_of (len pre) f).
    { unfold pointer_of. by rewrite <- Hoff, u64_of_val. }
    rewrite Eptr. destruct Hf as [Hdec Hpl Hc]. rewrite (ct_command _ _ _ _ Hc).
    change (as_uuid (sb_command_id (fr_stored f))) with (as_uuid (frame_id f)).
    cbn [visit_frames]. destruct (step (len pre) f acc) as [[acc' stop]|e].
    2: { by erewrite M_bind_fails by exact Hv. }
    erewrite M_bind_run by exact Hv. cbn [mbind result_bind]. destruct stop; [done|].
    replace (len pre + len (fr_bytes f)) with (len (pre ++ fr_bytes f)) by (rewrite length_app; lia).
    apply (IH fuel (pre ++ fr_bytes f) (frame_head f)); try done.
    + by rewrite <- app_assoc.
    + rewrite En, length_app. lia.
    + rewrite Hbytes, !length_app. lia.
    + intros l1 f' l2 acc'' ->. cbn zeta. assert (Hv2 := Hvisit (f :: l1) f' l2 acc'' eq_refl).
      cbn zeta in Hv2. rewrite frames_bytes_cons, app_assoc in Hv2. exact Hv2.
    + rewrite length_app in Hfuel. lia.
Qed.

Lemma visit_segment_run {A} (visit : FramePointer -> byte_array 16 -> Z -> A -> M Disk JournalError (A * bool))
    step i fs h acc d :
  healthy d -> d_files d !! segment_file_name (u64_of i) = Some (segment_content i h fs) ->
  HEADER_BYTES + len (frames_bytes fs) < 2 ^ 64 -> frames_ok h fs ->
  (forall l1 f l2 acc, fs = l1 ++ f :: l2 ->
     let offset := HEADER_BYTES + len (frames_bytes l1) in
     visit (pointer_of offset f) (as_uuid (frame_id f)) (offset + Z.of_nat FRAME_HEADER_LEN) acc d
       = (d, step offset f acc)) ->
  visit_segment_pointers visit (segment_info i h fs) acc d = (d, visit_frames step HEADER_BYTES fs acc).
Proof.
  intros Hd Hp Hfit Hfs Hvisit. unfold visit_segment_pointers. cbn [segment_info sg_path sg_bytes].
  erewrite M_bind_run by (apply map_error_run, (fs_open_healthy _ _ _ Hd Hp)).
  set (header := encode_segment_header (u64_of i) (revision_of (rev (head_revision h) + 1)) tid (head_digest h)).
  assert (Lheader : len header = HEADER_BYTES) by (unfold header; by rewrite length_encode_segment_header).
  assert (Eb : val (u64_of (HEADER_BYTES + len (frames_bytes fs))) = HEADER_BYTES + len (frames_bytes fs)).
  { apply val_u64_of_small. unfold HEADER_BYTES in *. lia. }
  rewrite <- Lheader.
  apply (visit_pointers_run visit step _ (segment_info i h fs) header fs h); try done.
  - cbn [segment_info sg_bytes]. rewrite Eb, length_app. lia.
  - intros l1 f l2 acc' El. cbn zeta. assert (Hv := Hvisit l1 f l2 acc' El). cbn zeta in Hv.
    rewrite length_app, Nat2Z.inj_add, Lheader. exact Hv.
  - rewrite Lheader, Eb. unfold HEADER_BYTES. lia.
Qed.

(** * Finding a command in the segments *)

Definition match_step (id : CommandId) (offset : Z) (f : Frame) (found : option FramePointer)
    : result JournalError (option FramePointer * bool) :=
  if bool_decide (frame_id f = id) then Ok (Some (pointer_of offset f), true) else Ok (found, false).

Lemma match_command_run id offset f position found (d : Disk) :
  match_command (as_uuid id) (pointer_of offset f) (as_uuid (frame_id f)) position found d
    = (d, match_step id offset f found).
Proof.
  unfold match_command, match_step.
  destruct (decide (frame_id f = id)) as [E|E].
  - rewrite (bool_decide_eq_true_2 (as_uuid _ = _)) by (by rewrite E).
    rewrite (bool_decide_eq_true_2 _ E). reflexivity.
  - rewrite (bool_decide_eq_false_2 (as_uuid _ = _)), (bool_decide_eq_false_2 _ E); [reflexivity|].
    intros E2. apply E. destruct (frame_id f), id. simpl in E2. by subst.
Qed.

Lemma visit_match id offset fs :
  visit_frames (match_step id) offset fs None
    = Ok (lookup_pointer id (frame_pointers offset fs),
          match lookup_pointer id (frame_pointers offset fs) with Some _ => true | None => false end).
Proof.
  revert offset. induction fs as [|f fs IH]; intros offset; [done|].
  cbn [visit_frames frame_pointers]. unfold lookup_pointer in *. cbn [List.find fst].
  assert (E : match_step id offset f None
              = if bool_decide (frame_id f = id) then Ok (Some (pointer_of offset f), true) else Ok (None, false))
    by reflexivity.
  rewrite E.
  case_bool_decide; cbn [mbind result_bind fmap option_fmap option_map snd]; [reflexivity|apply IH].
Qed.

Lemma find_command_pointer_run id i h layout d :
  healthy d -> layout_ok i h layout ->
  (forall name content, (name, content) ∈ segment_files i h layout [] -> d_files d !! name = Some content) ->
  find_command_pointer (segment_infos i h layout) id d = (d, Ok (lookup_pointer id (layout_pointers layout))).
Proof.
  revert i h. induction layout as [|fs layout IH]; intros i h Hd Hok Hfiles; [done|].
  destruct Hok as (_ & Hfs & _ & Hfit & _ & Hok). cbn [segment_infos find_command_pointer].
  cbn [JournalSpec.segment_files] in Hfiles.
  assert (Hfile : d_files d !! segment_file_name (u64_of i) = Some (segment_content i h fs)).
  { erewrite Hfiles by apply list_elem_of_here. f_equal. destruct (is_empty layout); by rewrite app_nil_r. }
  erewrite M_bind_run.
  2: { rewrite (visit_segment_run _ (match_step id) i fs h None d Hd Hfile Hfit Hfs).
       - by rewrite visit_match.
       - intros. cbn zeta. apply match_command_run. }
  unfold layout_pointers. cbn [map concat]. rewrite lookup_pointer_app.
  destruct (lookup_pointer id (frame_pointers HEADER_BYTES fs)); [done|].
  apply IH; [done|done|]. intros. apply Hfiles. by apply list_elem_of_further.
Qed.

(** * Reading a committed frame *)

Lemma layout_frames_ok i h layout : layout_ok i h layout -> frames_ok h (concat layout).
Proof.
  revert i h. induction layout as [|fs layout IH]; intros i h; simpl; [done|].
  intros (_ & Hfs & _ & _ & _ & Hok). apply frames_ok_app. split; [done|]. by eapply IH.
Qed.

(** A frame [f] of a layout: after [l1] and, in its segment, after [a]. *)
Definition located (layout : Layout) (l1 : Layout) (a : list Frame) (f : Frame) : Prop :=
  exists b l2, layout = l1 ++ (a ++ f :: b) :: l2.

Lemma pointer_located id p layout :
  (id, p) ∈ layout_pointers layout ->
  exists l1 a f, located layout l1 a f /\ frame_id f = id
    /\ p = pointer_of (HEADER_BYTES + len (frames_bytes a)) f.
Proof.
  unfold layout_pointers. induction layout as [|fs layout IH]; simpl; [by intros ?%not_elem_of_nil|].
  intros [Hin|Hin]%elem_of_app.
  - assert (Hfs : exists a f b, fs = a ++ f :: b /\ frame_id f = id
              /\ p = pointer_of (HEADER_BYTES + len (frames_bytes a)) f).
    { revert Hin. generalize HEADER_BYTES. induction fs as [|f fs IHf]; intros off Hin; simpl in Hin.
      - by apply not_elem_of_nil in Hin.
      - apply elem_of_cons in Hin as [[= -> ->]|Hin].
        + exists [], f, fs. split; [done|]. split; [done|]. f_equal. unfold frames_bytes. simpl. lia.
        + apply IHf in Hin as (a & f' & b & -> & Hid & ->). exists (f :: a), f', b.
          split; [done|]. split; [done|]. f_equal. rewrite frames_bytes_cons, length_app. lia. }
    destruct Hfs as (a & f & b & -> & Hid & ->). exists [], a, f. split; [|done]. by exists b, layout.
  - apply IH in Hin as (l1 & a & f & (b & l2 & ->) & Hid & ->).
    exists (fs :: l1), a, f. split; [|done]. by exists b, l2.
Qed.

(** The head before a located frame. *)
Definition head_before (l1 : Layout) (a : list Frame) : ThreadHead :=
  last_head (last_head HEAD_EMPTY (concat l1)) a.

Lemma located_ok layout l1 a f :
  layout_ok 0 HEAD_EMPTY layout -> located layout l1 a f -> frame_ok (head_before l1 a) f.
Proof.
  intros Hok (b & l2 & ->). apply layout_ok_app in Hok as (_ & (_ & Hfs & _) & _).
  apply frames_ok_app in Hfs as [_ [Hf _]]. exact Hf.
Qed.

Lemma located_content layout l1 a f d :
  layout_ok 0 HEAD_EMPTY layout -> located layout l1 a f ->
  dir_holds (segment_files 0 HEAD_EMPTY layout []) d ->
  exists pre post, d_files d !! segment_file_name (u64_of (len l1)) = Some (pre ++ fr_bytes f ++ post)
    /\ len pre = HEADER_BYTES + len (frames_bytes a)
    /\ HEADER_BYTES + len (frames_bytes a) + len (fr_bytes f) < 2 ^ 64.
Proof.
  intros Hok (b & l2 & ->) Hdir. apply layout_ok_app in Hok as (_ & (_ & _ & _ & Hfit & _) & _).
  rewrite segment_files_app in Hdir by done. cbn [JournalSpec.segment_files] in Hdir.
  rewrite frames_bytes_app, frames_bytes_cons in *. rewrite !length_app in Hfit.
  exists (encode_segment_header (u64_of (len l1))
            (revision_of (rev (head_revision (last_head HEAD_EMPTY (concat l1))) + 1)) tid
            (head_digest (last_head HEAD_EMPTY (concat l1))) ++ frames_bytes a), (frames_bytes b).
  split; [|split].
  - erewrite (dh_files _ _ Hdir) by (apply elem_of_app; right; apply list_elem_of_here).
    unfold JournalSpec.segment_content.
    rewrite Z.add_0_l, frames_bytes_app, frames_bytes_cons, <- !app_assoc.
    destruct (is_empty l2); by rewrite app_nil_r.
  - rewrite length_app, length_encode_segment_header. unfold HEADER_BYTES. lia.
  - lia.
Qed.

Lemma segment_index_located i h layout l1 a f b l2 :
  layout = l1 ++ (a ++ f :: b) :: l2 -> layout_ok i h layout ->
  segment_index_for_revision (segment_infos i h layout) (fh_start_revision (fr_header f)) = Some (length l1) /\
  segment_infos i h layout !! length l1
    = Some (segment_info (i + len l1) (last_head h (concat l1)) (a ++ f :: b)).
Proof.
  intros -> Hok.
  assert (Hnth : segment_infos i h (l1 ++ (a ++ f :: b) :: l2) !! length l1
                 = Some (segment_info (i + len l1) (last_head h (concat l1)) (a ++ f :: b))).
  { rewrite segment_infos_app. cbn [segment_infos].
    apply list_lookup_middle. by rewrite segment_infos_length. }
  split; [|done]. unfold segment_index_for_revision.
  assert (Hpp : partition_point (fun s => rev (sg_last_revision s) <? rev (fh_start_revision (fr_header f)))
                  (segment_infos i h (l1 ++ (a ++ f :: b) :: l2)) = length l1).
  2: { rewrite Hpp, Hnth. cbn [mbind option_bind segment_info sg_first_revision].
       apply layout_ok_app in Hok as (_ & (Hrev & Hfs & _) & _).
       apply frames_ok_app in Hfs as [Ha [Hf _]]. apply frames_ok_le in Ha.
       apply frame_ok_end in Hf as (_ & _ & Hs).
       pose proof (rev_bounds (head_revision (last_head h (concat l1)))).
       rewrite rev_of_small by lia. rewrite Hs. by replace (_ <=? _) with true by compare. }
  clear Hnth. revert i h Hok. induction l1 as [|fs l1 IH]; intros i h Hok.
  - cbn [app segment_infos partition_point segment_info sg_last_revision length].
    destruct Hok as (_ & Hfs & _). apply frames_ok_app in Hfs as [_ [Hf Hb]].
    rewrite last_head_app. cbn [last_head fold_left].
    apply frames_ok_le in Hb. apply frame_ok_end in Hf as (He & Hn & Hs).
    change (last_head (frame_head f) b) with (fold_left (fun _ f => frame_head f) b (frame_head f)) in Hb.
    rewrite Hs. by replace (_ <? _) with false by compare.
  - cbn [app segment_infos partition_point segment_info sg_last_revision length].
    pose proof (layout_frames_ok _ _ _ Hok) as Hall. cbn [app concat] in Hall.
    destruct Hok as (_ & _ & _ & _ & _ & Hok). rewrite (IH (i + 1) _ Hok).
    apply frames_ok_app in Hall as [_ Hall]. rewrite concat_app in Hall. cbn [concat] in Hall.
    rewrite <- app_assoc in Hall. apply frames_ok_app in Hall as [Hl Hall].
    apply frames_ok_app in Hall as [Ha [Hf _]]. apply frame_ok_end in Hf as (_ & _ & Hs).
    apply frames_ok_le in Hl. apply frames_ok_le in Ha. rewrite Hs.
    by replace (_ <? _) with true by compare.
Qed.

Lemma pointer_previous_head_of h f offset :
  frame_ok h f -> pointer_previous_head (pointer_of offset f) = h.
Proof.
  intros Hf. pose proof (frame_ok_end _ _ _ _ Hf) as (_ & _ & Hs). destruct Hf as [_ _ Hc].
  unfold pointer_previous_head. cbn [pointer_of fp_start_revision fp_previous_record_digest].
  rewrite (ct_previous _ _ _ _ Hc). destruct h as [r dg]. cbn [head_revision head_digest] in *. f_equal.
  apply rev_inj. unfold rev at 1. cbn [revision_get].
  rewrite u64_saturating_sub_val by lia. fold (rev (fh_start_revision (fr_header f))).
  pose proof (rev_bounds r). lia.
Qed.

Lemma read_pointer_run h f pre post position path max d :
  healthy d -> d_files d !! path = Some (pre ++ fr_bytes f ++ post) -> 0 < len pre ->
  len pre + len (fr_bytes f) < 2 ^ 64 -> frame_ok h f -> max = jc_max_frame_payload_bytes cfg ->
  read_pointer (pointer_of (len pre) f) position cursor_default path tid max d
    = (d, Ok ({| df_header := fr_header f; df_stored := fr_stored f |},
              {| fc_offset := u64_of (len pre + len (fr_bytes f)) |})).
Proof.
  intros Hd Hp Hpos Hfit Hf ->. destruct (frame_ok_bytes _ _ _ _ Hf) as (_ & _ & Hb).
  pose proof frame_lengths.
  unfold read_pointer. cbn [pointer_of fp_offset fp_len cursor_default fc_offset].
  rewrite bool_decide_eq_false_2.
  2: { intros E. apply (f_equal val) in E. rewrite val_u64_of_small in E by lia. cbn in E. lia. }
  rewrite !val_u64_of_small by lia.
  erewrite M_bind_run.
  2: { erewrite M_bind_run by (apply map_error_run; unfold fs_seek; by rewrite syscall_healthy). reflexivity. }
  erewrite M_bind_run.
  2: { apply map_error_run, (fs_read_exact_healthy _ _ _ _ _ Hd Hp). rewrite !length_app. lia. }
  rewrite !Nat2Z.id, slice_skip, Nat.sub_diag, slice_within, slice_all by lia.
  destruct (checked_in 0 (2 ^ 64) (len pre + len (fr_bytes f))) as (next & Hn & En); [lia|].
  unfold u64_checked_add. rewrite val_u64_of_small by lia. rewrite Hn. erewrite M_bind_run by reflexivity.
  erewrite M_bind_run by (unfold of_result; rewrite (fo_decode _ _ _ _ Hf); reflexivity).
  cbn [df_header df_stored].
  assert (Hpl : negb (val (jc_max_frame_payload_bytes cfg) <? val (fh_payload_len (fr_header f))) = true).
  { apply negb_true_iff, Z.ltb_ge, (fo_payload _ _ _ _ Hf). }
  run_pure Hpl.
  change {| fp_previous_record_digest := fh_previous_record_digest (fr_header f);
            fp_start_revision := fh_start_revision (fr_header f);
            fp_offset := u64_of (len pre); fp_len := u64_of (len (fr_bytes f)) |} with (pointer_of (len pre) f).
  rewrite (pointer_previous_head_of h) by done.
  erewrite M_bind_run by (unfold of_result; rewrite (frame_ok_validate _ _ _ _ Hf); reflexivity).
  unfold mret, M_ret. do 4 f_equal. apply val_inj. rewrite En, val_u64_of_small; lia.
Qed.

(** A committed batch always yields its receipt. *)
Lemma validated_receipt stored :
  validate_receipt_encoding stored = Ok tt -> exists r, into_receipt stored = Ok r.
Proof.
  unfold validate_receipt_encoding, into_receipt, derive_receipt.
  destruct (val (sb_schema_version stored) =? LEGACY_STORED_BATCH_SCHEMA_VERSION).
  - intros E. inv_ok. rewrite Hr0. by eexists.
  - destruct (val (sb_schema_version stored) =? STORED_BATCH_SCHEMA_VERSION); [|done].
    intros E. inv_ok. inv_bool. rewrite H2. destruct (sb_durability stored); [|done]. by eexists.
Qed.

(** * The invariant of an open journal *)

(** Segments waiting for a sync are segments of the table, in order. *)
Definition pending_ok (p : PendingSegmentSyncs) (n : Z) : Prop :=
  StronglySorted (fun a b => val a < val b) (ps_sequences p) /\
  Forall (fun s => val s < n) (ps_sequences p).

Record journal_inv (j : ThreadJournal) (layout : Layout) (d : Disk) : Prop := {
  ji_config : tj_config j = cfg;
  ji_thread : tj_thread_id j = tid;
  ji_layout : layout_ok 0 HEAD_EMPTY layout;
  ji_distinct : distinct_commands layout;
  ji_head : tj_head j = last_head HEAD_EMPTY (concat layout);
  ji_segments : tj_segments j = segment_infos 0 HEAD_EMPTY layout;
  ji_index : tj_command_index j = index_of (layout_pointers layout) command_index_new;
  ji_pending : pending_ok (tj_pending_syncs j) (len layout);
  ji_dirty : val (tj_dirty_batch_count j) = 0 -> ps_sequences (tj_pending_syncs j) = [];
  ji_dir : dir_holds (segment_files 0 HEAD_EMPTY layout []) d
}.

Lemma find_command_frame_run id j layout d :
  healthy d -> journal_inv j layout d ->
  find_command_frame id j d = (d, Ok (lookup_pointer id (layout_pointers layout))).
Proof.
  intros Hd Hj. pose proof (ji_distinct _ _ _ Hj) as Hnd. unfold distinct_commands in Hnd.
  rewrite <- layout_pointers_ids in Hnd.
  unfold find_command_frame. rewrite (ji_index _ _ _ Hj).
  destruct (maybe_contains _ id) eqn:Em; cbn [negb].
  - destruct (recent_frame _ id) as [p|] eqn:Er.
    + apply index_of_recent in Er as [Hin|Hc]; [|done].
      by rewrite (proj2 (lookup_pointer_Some _ _ _ Hnd) Hin).
    + rewrite (ji_segments _ _ _ Hj).
      apply find_command_pointer_run; [done|apply (ji_layout _ _ _ Hj)|].
      intros. by apply (dh_files _ _ (ji_dir _ _ _ Hj)).
  - rewrite (proj2 (lookup_pointer_None id (layout_pointers layout))); [done|].
    intros Hin. rewrite index_of_contains in Em; [done|apply index_ok_new|by left].
Qed.

(** The receipt recorded in a frame. *)
Definition frame_receipt (f : Frame) : option ThreadCommandReceipt :=
  match into_receipt (fr_stored f) with Ok r => Some r | Err _ => None end.

Lemma read_committed_command_run l1 a f j layout d :
  healthy d -> journal_inv j layout d -> located layout l1 a f ->
  exists r, frame_receipt f = Some r /\
    read_committed_command (pointer_of (HEADER_BYTES + len (frames_bytes a)) f) j d
      = (d, Ok (sb_command_digest (fr_stored f), r)).
Proof.
  intros Hd Hj Hloc. pose proof (ji_layout _ _ _ Hj) as Hok.
  pose proof (located_ok _ _ _ _ Hok Hloc) as Hf.
  destruct (located_content _ _ _ _ _ Hok Hloc (ji_dir _ _ _ Hj)) as (pre & post & Hp & Epre & Hfit).
  destruct (validated_receipt (fr_stored f)) as [r Hr]; [by destruct Hf as [_ _ []]|].
  exists r. unfold frame_receipt. rewrite Hr. split; [done|].
  destruct Hloc as (b & l2 & El).
  destruct (segment_index_located 0 HEAD_EMPTY layout l1 a f b l2 El Hok) as [Hidx Hinfo].
  unfold read_committed_command. rewrite (ji_segments _ _ _ Hj), (ji_thread _ _ _ Hj), (ji_config _ _ _ Hj).
  cbn [pointer_of fp_start_revision]. rewrite Hidx. cbn [mbind option_bind]. rewrite Hinfo.
  erewrite M_bind_run by reflexivity. cbn [segment_info sg_path]. rewrite Z.add_0_l.
  erewrite M_bind_run by (apply map_error_run, (fs_open_healthy _ _ _ Hd Hp)).
  change {| fp_previous_record_digest := fh_previous_record_digest (fr_header f);
            fp_start_revision := fh_start_revision (fr_header f);
            fp_offset := u64_of (HEADER_BYTES + len (frames_bytes a));
            fp_len := u64_of (len (fr_bytes f)) |}
    with (pointer_of (HEADER_BYTES + len (frames_bytes a)) f).
  rewrite <- Epre.
  assert (Hpos : 0 < len pre).
  { rewrite Epre. unfold HEADER_BYTES. pose proof (eq_refl : SEGMENT_HEADER_LEN = 80%nat). lia. }
  erewrite M_bind_run.
  2: { apply (read_pointer_run (head_before l1 a) f pre post 0 (segment_file_name (u64_of (len l1)))
              (jc_max_frame_payload_bytes cfg) d); try done. lia. }
  cbn [df_stored].
  erewrite M_bind_run by (unfold of_result; rewrite Hr; reflexivity). done.
Qed.

(** The committed frame of a command. *)
Lemma committed_frame id layout :
  id ∈ map frame_id (concat layout) ->
  exists l1 a f, located layout l1 a f /\ frame_id f = id /\ f ∈ concat layout.
Proof.
  rewrite <- layout_pointers_ids. intros Hin. apply list_elem_of_In, in_map_iff in Hin as ([i p] & <- & Hin).
  apply list_elem_of_In, pointer_located in Hin as (l1 & a & f & Hloc & Hid & _).
  exists l1, a, f. split; [done|]. split; [done|]. destruct Hloc as (b & l2 & ->).
  rewrite concat_app, elem_of_app. right. simpl. rewrite !elem_of_app. left. right. apply list_elem_of_here.
Qed.

Lemma distinct_frame layout f f' :
  distinct_commands layout -> f ∈ concat layout -> f' ∈ concat layout -> frame_id f = frame_id f' -> f = f'.
Proof.
  unfold distinct_commands. induction (concat layout) as [|g fs IH]; intros Hnd Hf Hf' E; [by apply not_elem_of_nil in Hf|].
  cbn [map] in Hnd. apply list.NoDup_cons in Hnd as [Hni Hnd]. rewrite elem_of_cons in Hf, Hf'.
  assert (Hin : forall x, x ∈ fs -> frame_id x ∈ map frame_id fs).
  { intros x Hx. apply list_elem_of_In, in_map_iff. exists x. by rewrite <- list_elem_of_In. }
  destruct Hf as [->|Hf], Hf' as [->|Hf']; [done| | |by apply IH].
  - exfalso. apply Hni. rewrite E. by apply Hin.
  - exfalso. apply Hni. rewrite <- E. by apply Hin.
Qed.

(** The frame of a committed command is found and read back. *)
Lemma committed_command_run f j layout d :
  healthy d -> journal_inv j layout d -> f ∈ concat layout ->
  exists p r, find_command_frame (frame_id f) j d = (d, Ok (Some p)) /\ frame_receipt f = Some r /\
    read_committed_command p j d = (d, Ok (sb_command_digest (fr_stored f), r)).
Proof.
  intros Hd Hj Hf. pose proof (ji_distinct _ _ _ Hj) as Hnd.
  assert (Hin : frame_id f ∈ map fst (layout_pointers layout)).
  { rewrite layout_pointers_ids. apply list_elem_of_In, in_map_iff. exists f. by rewrite <- list_elem_of_In. }
  destruct (lookup_pointer (frame_id f) (layout_pointers layout)) as [p|] eqn:El.
  2: { by apply lookup_pointer_None in El. }
  pose proof El as Hp. apply lookup_pointer_Some in Hp; [|by rewrite layout_pointers_ids].
  apply pointer_located in Hp as (l1 & a & f' & Hloc & Hid' & ->).
  assert (f' = f) as ->.
  { apply (distinct_frame layout); [done| |done|congruence]. destruct Hloc as (b & l2 & ->).
    rewrite concat_app, elem_of_app. right. simpl. rewrite !elem_of_app. left. right. apply list_elem_of_here. }
  destruct (read_committed_command_run l1 a f j layout d Hd Hj Hloc) as (r & Hr & Hread).
  eexists _, r. split; [|split; [done|exact Hread]].
  by rewrite (find_command_frame_run _ _ _ _ Hd Hj), El.
Qed.

(** Appending a command that is already committed. *)
Lemma append_committed_run batch durability f j layout d :
  healthy d -> journal_inv j layout d -> f ∈ concat layout -> frame_id f = jb_command_id batch ->
  exists r, frame_receipt f = Some r /\
    append batch durability (j, d)
      = ((j, d), if bool_decide (sb_command_digest (fr_stored f) = jb_command_digest batch)
                 then Ok (Duplicate r) else Err (IdempotencyCollision (jb_command_id batch))).
Proof.
  intros Hd Hj Hf Hid. destruct (committed_command_run f j layout d Hd Hj Hf) as (p & r & Hfind & Hr & Hread).
  rewrite Hid in Hfind. exists r. split; [done|]. unfold append. erewrite M_bind_run by reflexivity.
  erewrite M_bind_run by (unfold on_disk; cbn [fst]; rewrite Hfind; reflexivity). cbn beta iota.
  erewrite M_bind_run by (unfold on_disk; cbn [fst]; rewrite Hread; reflexivity).
  cbn beta iota. by case_bool_decide.
Qed.

End JournalFacts.
