(* ===== verification/AppendFacts.v ===== *)
(** Appending to a journal: the successful run of every step of [append], and
    the abstract journal it reaches. *)

From stdpp Require Import sorting.
From S2P Require Import Prelude Canonical Events Commands Receipts Format FormatFacts.
From S2P Require Import CommandIndex Disk Model Recovery JournalSpec RecoveryFacts Journal JournalFacts.

Open Scope string_scope.
Open Scope list_scope.
Open Scope Z_scope.

(** * Pending syncs *)

Lemma partition_point_spec {A} (p : A -> bool) l :
  (partition_point p l <= length l)%nat /\
  Forall (fun a => p a = true) (take (partition_point p l) l) /\
  (forall a, l !! partition_point p l = Some a -> p a = false).
Proof.
  induction l as [|a l (Hle & Hall & Hnext)]; simpl; [by repeat split; [lia|constructor|]|].
  destruct (p a) eqn:Ep; simpl.
  - split; [lia|]. split; [by constructor|done].
  - split; [lia|]. split; [constructor|]. by intros ? [= <-].
Qed.

(** The sequences marked so far, and the new one. *)
Lemma mark_elem sequence p s :
  StronglySorted (fun a b => val a < val b) (ps_sequences p) ->
  s ∈ ps_sequences (mark sequence p) <-> s = sequence \/ s ∈ ps_sequences p.
Proof.
  intros Hs. unfold mark.
  destruct (list_snoc_cases (ps_sequences p)) as [E|(l & x & E)]; rewrite E.
  { simpl. rewrite elem_of_cons. naive_solver. }
  rewrite last_snoc. case_bool_decide as Ex.
  { subst x. rewrite E, elem_of_app, list_elem_of_singleton. naive_solver. }
  destruct (val x <? val sequence).
  { cbn [ps_sequences]. rewrite !elem_of_app, !list_elem_of_singleton. naive_solver. }
  unfold binary_search. set (pp := partition_point _ _).
  destruct ((l ++ [x]) !! pp) as [y|] eqn:Ey.
  - destruct (val y =? val sequence) eqn:Eyz.
    + rewrite E. apply Z.eqb_eq, val_inj in Eyz. subst y. apply list_elem_of_lookup_2 in Ey. naive_solver.
    + cbn [ps_sequences]. unfold vec_insert. rewrite elem_of_app, elem_of_cons.
      rewrite <- (take_drop pp (l ++ [x])) at 3. rewrite elem_of_app. tauto.
  - cbn [ps_sequences]. unfold vec_insert. rewrite elem_of_app, elem_of_cons.
    rewrite <- (take_drop pp (l ++ [x])) at 3. rewrite elem_of_app. tauto.
Qed.

Lemma StronglySorted_app_iff {A} (R : A -> A -> Prop) l1 l2 :
  StronglySorted R (l1 ++ l2) <->
  StronglySorted R l1 /\ StronglySorted R l2 /\ (forall a b, a ∈ l1 -> b ∈ l2 -> R a b).
Proof.
  induction l1 as [|x l1 IH]; simpl.
  - split; [|tauto]. intros. split; [constructor|]. split; [done|]. by intros ? ? ?%not_elem_of_nil.
  - split.
    + intros Hs. apply StronglySorted_inv in Hs as [Hs Hx]. apply IH in Hs as (H1 & H2 & H3).
      rewrite list.Forall_forall in Hx.
      split; [constructor; [done|]; apply list.Forall_forall; intros; apply Hx; apply elem_of_app; by left|].
      split; [done|]. intros a b [->|Ha]%elem_of_cons Hb; [|by apply H3]. apply Hx, elem_of_app. by right.
    + intros (H1 & H2 & H3). apply StronglySorted_inv in H1 as [H1 Hx]. rewrite list.Forall_forall in Hx.
      constructor.
      * apply IH. split; [done|]. split; [done|]. intros. apply H3; [by apply list_elem_of_further|done].
      * apply list.Forall_forall. intros y [Hy|Hy]%elem_of_app; [by apply Hx|].
        apply H3; [apply list_elem_of_here|done].
Qed.

Lemma mark_sorted sequence p :
  StronglySorted (fun a b => val a < val b) (ps_sequences p) ->
  StronglySorted (fun a b => val a < val b) (ps_sequences (mark sequence p)).
Proof.
  intros Hs. unfold mark.
  destruct (list_snoc_cases (ps_sequences p)) as [E|(l & x & E)]; rewrite E in *.
  { simpl. by repeat constructor. }
  rewrite last_snoc. case_bool_decide as Ex; [by rewrite E|].
  destruct (val x <? val sequence) eqn:Elt.
  { cbn [ps_sequences]. apply StronglySorted_app_iff. split; [done|]. split; [by repeat constructor|].
    intros a b Ha Hb. apply list_elem_of_singleton in Hb. subst b. apply Z.ltb_lt in Elt.
    apply StronglySorted_app_iff in Hs as (_ & _ & Hlx).
    apply elem_of_app in Ha as [Ha|Ha]; [specialize (Hlx a x Ha ltac:(by apply list_elem_of_here)); lia|].
    apply list_elem_of_singleton in Ha. by subst a. }
  unfold binary_search. set (p0 := fun y : u64 => val y <? val sequence).
  destruct (partition_point_spec p0 (l ++ [x])) as (_ & Hbefore & Hat).
  set (pp := partition_point p0 (l ++ [x])) in *.
  assert (Hins : forall y, (l ++ [x]) !! pp = Some y -> val y <> val sequence ->
            StronglySorted (fun a b => val a < val b) (vec_insert pp sequence (l ++ [x]))).
  { intros y Ey Hne. pose proof (Hat _ Ey) as Hy. unfold p0 in Hy. apply Z.ltb_ge in Hy.
    unfold vec_insert. rewrite <- (take_drop_middle (l ++ [x]) pp y Ey) in Hs.
    assert (Ed : drop pp (l ++ [x]) = y :: drop (S pp) (l ++ [x])) by (by apply drop_S).
    rewrite Ed. apply StronglySorted_app_iff in Hs as (H1 & H2 & H3).
    apply StronglySorted_app_iff. split; [done|]. split.
    - constructor; [done|]. apply StronglySorted_inv in H2 as [_ H2]. rewrite list.Forall_forall in H2.
      apply list.Forall_forall. intros z [->|Hz]%elem_of_cons; [lia|]. specialize (H2 z Hz). lia.
    - rewrite list.Forall_forall in Hbefore. intros a b Ha [->|Hb]%elem_of_cons.
      + specialize (Hbefore a Ha). unfold p0 in Hbefore. by apply Z.ltb_lt in Hbefore.
      + by apply H3. }
  destruct ((l ++ [x]) !! pp) as [y|] eqn:Ey.
  - destruct (val y =? val sequence) eqn:Eyz; [by rewrite E|]. apply Z.eqb_neq in Eyz. cbn [ps_sequences].
    by apply (Hins y).
  - exfalso. apply Z.ltb_ge in Elt. apply lookup_ge_None in Ey.
    destruct (partition_point_spec p0 (l ++ [x])) as (Hle & Hall & _). fold pp in Hle, Hall.
    rewrite take_ge in Hall by done. rewrite list.Forall_forall in Hall.
    specialize (Hall x ltac:(apply elem_of_app; right; apply list_elem_of_here)).
    unfold p0 in Hall. apply Z.ltb_lt in Hall. lia.
Qed.

Lemma iter_including_elem p current s :
  s ∈ iter_including p current -> s ∈ ps_sequences p \/ current = Some s.
Proof.
  unfold iter_including. rewrite elem_of_app. intros [Hs|Hs]; [by left|].
  destruct current as [c|]; [|by apply not_elem_of_nil in Hs].
  destruct (is_ok _); [by apply not_elem_of_nil in Hs|]. apply list_elem_of_singleton in Hs as ->. by right.
Qed.

Lemma iter_including_all p current s :
  s ∈ ps_sequences p \/ current = Some s -> s ∈ iter_including p current.
Proof.
  unfold iter_including. rewrite elem_of_app. intros [Hs|Hs]; [by left|]. subst current.
  unfold binary_search. destruct (_ !! _) as [y|] eqn:Ey; cbn [is_ok]; [|right; apply list_elem_of_here].
  destruct (val y =? val s) eqn:Eys; cbn [is_ok]; [|right; apply list_elem_of_here].
  left. apply Z.eqb_eq, val_inj in Eys. subst. by apply list_elem_of_lookup_2 in Ey.
Qed.

(** [iter_including] adds the current segment at most once. *)
Lemma iter_including_nodup p current :
  StronglySorted (fun a b => val a < val b) (ps_sequences p) -> NoDup (iter_including p current).
Proof.
  intros Hs. assert (Hnd : NoDup (ps_sequences p)).
  { clear current. induction Hs as [|a l Hl IH Ha]; [constructor|]. apply list.NoDup_cons. split; [|done].
    intros Hin. rewrite list.Forall_forall in Ha. specialize (Ha a Hin). simpl in Ha. lia. }
  unfold iter_including. destruct current as [c|]; [|by rewrite app_nil_r].
  destruct (is_ok (binary_search (ps_sequences p) c)) eqn:Eb; [by rewrite app_nil_r|].
  apply list.NoDup_app. split; [done|]. split; [|apply NoDup_singleton].
  intros x Hx Hc. apply list_elem_of_singleton in Hc. subst x.
  revert Eb. unfold binary_search. set (p0 := fun y : u64 => val y <? val c).
  destruct (partition_point_spec p0 (ps_sequences p)) as (Hle & Hbefore & Hat).
  set (pp := partition_point p0 (ps_sequences p)) in *.
  rewrite list.Forall_forall in Hbefore.
  apply list_elem_of_lookup_1 in Hx as (k & Hk).
  destruct (ps_sequences p !! pp) as [y|] eqn:Ey.
  - pose proof (Hat y eq_refl) as Hy. unfold p0 in Hy. apply Z.ltb_ge in Hy.
    destruct (val y =? val c) eqn:Eyc; [done|]. intros _. apply Z.eqb_neq in Eyc.
    rewrite <- (take_drop_middle _ _ _ Ey) in Hs. apply StronglySorted_app_iff in Hs as (_ & Hs & _).
    apply StronglySorted_inv in Hs as [_ Hs]. rewrite list.Forall_forall in Hs.
    destruct (decide (k < pp)%nat) as [Hlt|Hge].
    + assert (Hin : c ∈ take pp (ps_sequences p)).
      { apply (list_elem_of_lookup_2 _ k). by rewrite lookup_take_lt. }
      apply Hbefore in Hin. unfold p0 in Hin. apply Z.ltb_lt in Hin. lia.
    + destruct (decide (k = pp)) as [->|Hne]; [congruence|].
      assert (Hin : c ∈ drop (S pp) (ps_sequences p)).
      { apply (list_elem_of_lookup_2 _ (k - S pp)). rewrite lookup_drop. by replace (S pp + (k - S pp))%nat with k by lia. }
      apply Hs in Hin. lia.
  - intros _. apply lookup_ge_None in Ey.
    assert (Hin : c ∈ take pp (ps_sequences p)).
    { rewrite take_ge by done. by apply list_elem_of_lookup_2 in Hk. }
    apply Hbefore in Hin. unfold p0 in Hin. apply Z.ltb_lt in Hin. lia.
Qed.

Section AppendFacts.
Context `{External, JsonCodec} (cfg : JournalConfig) (tid : ThreadId).

Abbreviation frame_ok := (frame_ok cfg tid).
Abbreviation frames_ok := (frames_ok cfg tid).
Abbreviation layout_ok := (layout_ok cfg tid).
Abbreviation segment_content := (segment_content tid).
Abbreviation segment_files := (segment_files tid).
Abbreviation journal_inv := (journal_inv cfg tid).

(** * Syncing *)

(** Two disks with the same entries, answers and lock. *)
Record same_entries (d d' : Disk) : Prop := {
  se_files : d_files d' = d_files d;
  se_others : d_others d' = d_others d;
  se_faults : d_faults d' = d_faults d;
  se_lock_file : d_lock_file d' = d_lock_file d;
  se_lock_held : d_lock_held d' = d_lock_held d;
  se_writers : d_writers d' = d_writers d
}.

Lemma same_entries_refl d : same_entries d d.
Proof. done. Qed.

Lemma same_entries_trans d1 d2 d3 : same_entries d1 d2 -> same_entries d2 d3 -> same_entries d1 d3.
Proof. intros [] []. split; congruence. Qed.

Lemma dir_holds_same files d d' : same_entries d d' -> dir_holds files d -> dir_holds files d'.
Proof. intros [Ef Eo _ _ _ _] [? ? ? ?]. split; by rewrite ?Ef, ?Eo. Qed.

Lemma segment_infos_lookup i h layout k info :
  segment_infos i h layout !! k = Some info ->
  sg_path info = segment_file_name (u64_of (i + Z.of_nat k)) /\ sg_sequence info = u64_of (i + Z.of_nat k).
Proof.
  revert i h k. induction layout as [|fs layout IH]; intros i h k Hk; [done|].
  cbn [segment_infos] in Hk. destruct k as [|k]; cbn [lookup list_lookup] in Hk.
  - injection Hk as <-. cbn. by rewrite Z.add_0_r.
  - apply IH in Hk. by replace (i + Z.of_nat (S k)) with (i + 1 + Z.of_nat k) by lia.
Qed.

Lemma layout_file_exists layout d k :
  dir_holds (segment_files 0 HEAD_EMPTY layout []) d -> (k < length layout)%nat ->
  is_Some (d_files d !! segment_file_name (u64_of (Z.of_nat k))).
Proof.
  intros Hdir Hk.
  assert (Hin : (u64_of (Z.of_nat k), segment_file_name (u64_of (Z.of_nat k))) ∈ segment_names 0 (length layout)).
  { revert Hk. generalize (length layout). intros n. induction n as [|n IH]; intros Hk; [lia|].
    rewrite segment_names_snoc, elem_of_app, Z.add_0_l.
    destruct (decide (k = n)) as [->|]; [right; apply list_elem_of_here|left; apply IH; lia]. }
  assert (Hname : segment_file_name (u64_of (Z.of_nat k)) ∈ map fst (segment_files 0 HEAD_EMPTY layout [])).
  { rewrite segment_files_names. apply list_elem_of_In, in_map_iff.
    eexists. split; [|apply list_elem_of_In, Hin]. done. }
  apply list_elem_of_In, in_map_iff in Hname as ([n c] & En & Hin'). cbn [fst] in En. subst n.
  apply list_elem_of_In, (dh_files _ _ Hdir) in Hin'. eauto.
Qed.

Lemma sync_segments_run layout layout' sequences d :
  healthy d -> dir_holds (segment_files 0 HEAD_EMPTY layout' []) d -> length layout' = length layout ->
  Forall (fun s => val s < len layout) sequences ->
  exists d', sync_segments (segment_infos 0 HEAD_EMPTY layout) sequences d = (d', Ok tt)
    /\ same_entries d d' /\ d_synced_names d' = d_synced_names d
    /\ (forall s, s ∈ sequences -> d_synced d' !! segment_file_name s = d_files d !! segment_file_name s)
    /\ (forall name, (forall s, s ∈ sequences -> name <> segment_file_name s) ->
          d_synced d' !! name = d_synced d !! name).
Proof.
  intros Hd Hdir Hl. revert d Hd Hdir.
  induction sequences as [|s sequences IH]; intros d Hd Hdir Hall.
  { exists d. split; [done|]. split; [done|]. split; [done|]. split; [|done]. by intros ? ?%not_elem_of_nil. }
  apply list.Forall_cons in Hall as [Hs Hall]. cbn [sync_segments].
  pose proof (val_bounds s) as Hb.
  destruct (segment_infos 0 HEAD_EMPTY layout !! Z.to_nat (val s)) as [info|] eqn:Ei.
  2: { apply lookup_ge_None in Ei. rewrite segment_infos_length in Ei. lia. }
  erewrite M_bind_run by reflexivity.
  apply segment_infos_lookup in Ei as [Ep _].
  assert (Epath : sg_path info = segment_file_name s).
  { rewrite Ep. f_equal. apply val_inj. rewrite val_u64_of_small; lia. }
  destruct (layout_file_exists layout' d (Z.to_nat (val s)) Hdir) as [c Hc]; [lia|].
  rewrite Z2Nat.id, u64_of_val in Hc by lia.
  assert (Hsync : sync_file (sg_path info) d
            = (with_synced (<[segment_file_name s := c]> (d_synced d)) (d_synced_names d) d, Ok tt)).
  { rewrite Epath. unfold sync_file. rewrite (M_bind_run _ _ _ _ _ (fs_open_healthy _ _ _ Hd Hc)).
    unfold fs_sync_all. rewrite syscall_healthy by done. by rewrite Hc. }
  erewrite M_bind_run by (apply map_error_run, Hsync).
  set (d1 := with_synced _ _ _).
  destruct (IH d1) as (d' & Hrun & Hsame & Hnames & Hin & Hout); [done|by apply (dir_holds_same _ d)|done|].
  exists d'. split; [done|]. split; [by apply (same_entries_trans d d1)|]. split; [done|]. split.
  - intros s' [->|Hs']%elem_of_cons; [|by apply Hin].
    destruct (decide (s ∈ sequences)) as [Hss|Hss]; [by apply Hin|].
    rewrite Hout by (intros s' Hs' E; apply (inj segment_file_name) in E; congruence).
    unfold d1. cbn [d_synced with_synced]. by rewrite lookup_insert_eq.
  - intros name Hname. rewrite Hout by (intros s' Hs'; apply Hname; by apply list_elem_of_further).
    unfold d1. cbn [d_synced with_synced]. rewrite lookup_insert_ne; [done|].
    apply not_eq_sym, Hname, list_elem_of_here.
Qed.

(** A sync of the pending segments and the current one succeeds and leaves
    their contents synced, and every entry of the directory with them. *)
Lemma sync_pending_run current j layout layout' d :
  healthy d -> dir_holds (segment_files 0 HEAD_EMPTY layout' []) d -> length layout' = length layout ->
  tj_segments j = segment_infos 0 HEAD_EMPTY layout -> pending_ok (tj_pending_syncs j) (len layout) ->
  (forall s, current = Some s -> val s < len layout) ->
  exists d', sync_pending_segments current j d = (d', Ok tt) /\ same_entries d d'
    /\ (forall s, s ∈ ps_sequences (tj_pending_syncs j) \/ current = Some s ->
          d_synced d' !! segment_file_name s = d_files d !! segment_file_name s)
    /\ (forall name, d_synced d' !! name = d_files d !! name \/ d_synced d' !! name = d_synced d !! name)
    /\ (d_synced_names d' = dom (d_files d) ∪ d_others d \/ 
        current = None /\ ps_sequences (tj_pending_syncs j) = [] /\ d_synced_names d' = d_synced_names d).
Proof.
  intros Hd Hdir Hl Hseg [Hsorted Hall] Hcur.
  destruct (sync_segments_run layout layout' (iter_including (tj_pending_syncs j) current) d)
    as (d1 & Hrun & Hsame & Hnames & Hin & Hout); [done|done|done| |].
  { apply list.Forall_forall. intros s Hs. apply iter_including_elem in Hs as [Hs|Hs]; [|by apply Hcur].
    rewrite list.Forall_forall in Hall. by apply Hall. }
  assert (Hd1 : healthy d1) by (unfold healthy; by rewrite (se_faults _ _ Hsame)).
  assert (Hcase : forall name, d_synced d1 !! name = d_files d !! name \/ d_synced d1 !! name = d_synced d !! name).
  { intros name. destruct (decide (Exists (fun s => name = segment_file_name s)
                                     (iter_including (tj_pending_syncs j) current))) as [Hex|Hex].
    - apply list.Exists_exists in Hex as (s & Hs & ->). left. by apply Hin.
    - right. apply Hout. intros s Hs E. apply Hex, list.Exists_exists. by exists s. }
  unfold sync_pending_segments. rewrite Hseg. rewrite (M_bind_run _ _ _ _ _ Hrun).
  destruct (negb (is_none current) || negb (is_empty (ps_sequences (tj_pending_syncs j)))) eqn:Ed.
  - exists (with_synced (d_synced d1) (dom (d_files d1) ∪ d_others d1) d1). split.
    { apply map_error_run. unfold sync_directory.
      erewrite M_bind_run by (rewrite syscall_healthy by done; reflexivity). by rewrite syscall_healthy. }
    split; [destruct Hsame; by split|]. split; [intros; by apply Hin, iter_including_all|].
    split; [done|]. left. cbn. by rewrite (se_files _ _ Hsame), (se_others _ _ Hsame).
  - exists d1. split; [done|]. split; [done|]. split; [intros; by apply Hin, iter_including_all|].
    split; [done|]. right. apply orb_false_iff in Ed as [Ed1 Ed2].
    destruct current; [done|]. destruct (ps_sequences _); done.
Qed.

(** * Choosing the segment *)

(** Only new entries appear; nothing is synced. *)
Definition only_adds (d d' : Disk) : Prop :=
  d_synced d' = d_synced d /\ d_synced_names d' = d_synced_names d /\
  forall name content, d_files d !! name = Some content -> d_files d' !! name = Some content.

(** The file of the next segment, and that nothing has its name yet. *)
Definition next_name (layout : Layout) : string := segment_file_name (u64_of (len layout)).
Definition next_header (h : ThreadHead) (layout : Layout) : bytes :=
  encode_segment_header (u64_of (len layout)) (revision_of (rev (head_revision h) + 1)) tid (head_digest h).

Lemma next_name_free layout d :
  dir_holds (segment_files 0 HEAD_EMPTY layout []) d -> len layout + 1 < 2 ^ 64 ->
  (next_name layout ∉ map fst (segment_files 0 HEAD_EMPTY layout [])) /\
  d_files d !! next_name layout = None /\ (next_name layout ∉ d_others d).
Proof.
  intros Hdir Hn.
  assert (Hni : next_name layout ∉ map fst (segment_files 0 HEAD_EMPTY layout [])) by (apply next_name_fresh; lia).
  split; [done|]. split.
  - destruct (d_files d !! next_name layout) as [c|] eqn:E; [|done]. exfalso. apply Hni.
    apply (dh_only _ _ Hdir) in E; [|unfold next_name; rewrite parse_segment_file_name; eauto].
    apply list_elem_of_In, in_map_iff. exists (next_name layout, c). by rewrite <- list_elem_of_In.
  - intros Hin. apply (dh_others _ _ Hdir) in Hin. unfold next_name in Hin. by rewrite parse_segment_file_name in Hin.
Qed.

(** The journal with a new, empty last segment. *)
Lemma create_segment_inv j layout d d' :
  journal_inv j layout d -> Forall (fun fs => fs <> []) layout ->
  rev (head_revision (tj_head j)) + 1 < 2 ^ 64 -> len layout + 1 < 2 ^ 64 ->
  d_files d' = <[next_name layout := next_header (tj_head j) layout]> (d_files d) -> d_others d' = d_others d ->
  journal_inv (set_segments (tj_segments j ++ [segment_info (len layout) (tj_head j) []]) j) (layout ++ [[]]) d'.
Proof.
  intros Hj Hne Hrev Hn Ef Eo. pose proof (ji_dir _ _ _ _ _ Hj) as Hdir.
  destruct (next_name_free layout d Hdir Hn) as (Hni & _ & _).
  destruct Hj as [Hcfg Htid Hok Hdist Hhead Hseg Hidx [Hp1 Hp2] Hdirty _].
  split; cbn [set_segments tj_config tj_thread_id tj_head tj_segments tj_command_index
              tj_pending_syncs tj_dirty_batch_count]; try done.
  + apply layout_ok_app. split; [done|]. split; [|done]. rewrite <- Hhead. simpl.
    by repeat split.
  + unfold distinct_commands. rewrite concat_app. simpl. by rewrite app_nil_r.
  + rewrite concat_app. simpl. by rewrite app_nil_r.
  + rewrite segment_infos_app, Hseg, Z.add_0_l. cbn [segment_infos]. by rewrite <- Hhead.
  + rewrite Hidx. unfold layout_pointers. rewrite map_app, concat_app. simpl. by rewrite app_nil_r.
  + split; [done|]. rewrite list.Forall_forall in Hp2. apply list.Forall_forall. intros x Hx. apply Hp2 in Hx.
    rewrite length_app. simpl. lia.
  + rewrite segment_files_app by done. cbn [JournalSpec.segment_files is_empty].
    rewrite Z.add_0_l, app_nil_r, <- Hhead.
    apply (dir_holds_add _ _ _ d _ (u64_of (len layout))); try done.
    rewrite Ef. f_equal.
    unfold JournalSpec.segment_content, frames_bytes. cbn [map concat]. by rewrite app_nil_r.
Qed.

Lemma create_segment_run j layout d :
  healthy d -> journal_inv j layout d -> Forall (fun fs => fs <> []) layout ->
  rev (head_revision (tj_head j)) + 1 < 2 ^ 64 -> len layout + 1 < 2 ^ 64 ->
  exists d', create_segment (j, d)
      = ((set_segments (tj_segments j ++ [segment_info (len layout) (tj_head j) []]) j, d'), Ok tt)
    /\ journal_inv (set_segments (tj_segments j ++ [segment_info (len layout) (tj_head j) []]) j)
         (layout ++ [[]]) d'
    /\ healthy d' /\ only_adds d d'.
Proof.
  intros Hd Hj Hne Hrev Hn. pose proof (rev_bounds (head_revision (tj_head j))) as Hb.
  destruct (next_name_free layout d (ji_dir _ _ _ _ _ Hj) Hn) as (_ & Hnofile & Hnoother).
  set (name := next_name layout) in *. set (header := next_header (tj_head j) layout).
  exists (with_files (<[name := [] ++ header]> (<[name := []]> (d_files d))) (with_files (<[name := []]> (d_files d)) d)).
  split; [|split].
  - unfold create_segment. do 3 erewrite M_bind_run by reflexivity. cbn [fst].
    rewrite (ji_segments _ _ _ _ _ Hj), segment_infos_length.
    assert (Hchk : checked 0 (2 ^ 64) (len layout) = Some (u64_of (len layout)))
      by (apply checked_Some; rewrite val_u64_of_small; lia).
    erewrite M_bind_run by (unfold of_option, of_result; rewrite Hchk; reflexivity).
    erewrite M_bind_run.
    2: { unfold of_option, of_result.
         rewrite (proj2 (checked_next_Some _ (revision_of (rev (head_revision (tj_head j)) + 1))))
           by (apply rev_of_small; lia). reflexivity. }
    fold (next_name layout). fold name.
    erewrite M_bind_run.
    2: { unfold on_disk. erewrite map_error_run; [reflexivity|]. unfold fs_create_new.
         rewrite syscall_healthy by done. rewrite Hnofile.
         rewrite (bool_decide_eq_false_2 (is_Some None)) by (by intros []).
         by rewrite bool_decide_eq_false_2. }
    rewrite (ji_thread _ _ _ _ _ Hj). fold (next_header (tj_head j) layout). fold header.
    erewrite M_bind_run.
    2: { unfold outcome, on_disk. erewrite map_error_run; [reflexivity|]. unfold fs_write_all, take_fault.
         cbn [d_faults with_files]. unfold healthy in Hd. rewrite Hd. cbn [d_files with_files].
         by rewrite lookup_insert_eq. }
    reflexivity.
  - apply (create_segment_inv j layout d); try done. cbn [with_files d_files]. by rewrite insert_insert_eq.
  - split; [done|]. split; [done|]. split; [done|]. intros n c Hc. cbn [with_files d_files].
    rewrite insert_insert_eq, lookup_insert_ne; [done|]. intros <-. congruence.
Qed.

Lemma layout_init_nonempty i h l1 fs : layout_ok i h (l1 ++ [fs]) -> Forall (fun fs => fs <> []) l1.
Proof. intros Hok. apply layout_ok_app in Hok as (_ & _ & Hne). by apply Hne. Qed.

(** When a new segment starts, all segments hold frames. *)
Lemma rotate_nonempty j layout d n :
  journal_inv j layout d -> must_rotate (tj_config j) (tj_segments j) n = true -> Forall (fun fs => fs <> []) layout.
Proof.
  intros Hj Erot. pose proof (ji_layout _ _ _ _ _ Hj) as Hok.
  destruct (list_snoc_cases layout) as [->|(l1 & fs & ->)]; [constructor|].
  apply list.Forall_app. split; [by eapply layout_init_nonempty|]. constructor; [|constructor].
  intros ->. revert Erot. unfold must_rotate. rewrite (ji_segments _ _ _ _ _ Hj), segment_infos_app.
  cbn [segment_infos]. rewrite last_snoc. cbn [segment_info sg_bytes]. unfold frames_bytes. cbn [map concat length].
  intros [Hr _]%andb_true_iff. done.
Qed.

(** Otherwise the last segment has room for the frame. *)
Lemma no_rotate_room j layout d n :
  journal_inv j layout d -> 0 < n -> HEADER_BYTES + n < 2 ^ 64 ->
  must_rotate (tj_config j) (tj_segments j) n = false ->
  exists l1 fs, layout = l1 ++ [fs]
    /\ HEADER_BYTES + len (frames_bytes fs) + n < 2 ^ 64
    /\ (fs <> [] -> HEADER_BYTES + len (frames_bytes fs) + n <= val (jc_max_segment_bytes cfg)).
Proof.
  intros Hj Hn Hfit. pose proof (ji_segments _ _ _ _ _ Hj) as Hseg. pose proof (ji_layout _ _ _ _ _ Hj) as Hok.
  unfold must_rotate. rewrite Hseg.
  destruct (list_snoc_cases layout) as [->|(l1 & fs & ->)]; [done|].
  apply layout_ok_app in Hok as (_ & (_ & Hfs & _ & Hfsfit & _) & _).
  rewrite segment_infos_app. cbn [segment_infos].
  rewrite last_snoc. cbn [segment_info sg_bytes]. intros Erot. exists l1, fs. split; [done|].
  destruct fs as [|f fs]; [unfold frames_bytes; simpl; split; [lia|done]|].
  pose proof (frames_bytes_nonempty cfg tid _ _ Hfs ltac:(done)) as Hpos.
  revert Erot. unfold HEADER_BYTES in *. rewrite val_u64_of_small by lia.
  replace (_ <? _) with true by compare. cbn [andb]. unfold u64_checked_add.
  rewrite val_u64_of_small by lia.
  destruct (checked 0 (2 ^ 64) (Z.of_nat SEGMENT_HEADER_LEN + len (frames_bytes (f :: fs)) + n))
    as [total|] eqn:Et; [|done]. apply checked_Some in Et.
  intros Hle. apply Z.ltb_ge in Hle. rewrite (ji_config _ _ _ _ _ Hj) in Hle.
  pose proof (val_bounds total). split; [lia|]. intros _. lia.
Qed.

(** The journal after [select_segment]: the committed frames are the same and
    the last segment has room for the frame. *)
Lemma select_segment_run n j layout d :
  healthy d -> journal_inv j layout d -> 0 < n -> HEADER_BYTES + n < 2 ^ 64 ->
  rev (head_revision (tj_head j)) + 1 < 2 ^ 64 -> len layout + 1 < 2 ^ 64 ->
  exists l1 fs d' segments,
    let layout' := l1 ++ [fs] in
    let j' := set_segments segments j in
    select_segment n (j, d) = ((j', d'), Ok (length l1))
    /\ journal_inv j' layout' d' /\ healthy d' /\ concat layout' = concat layout
    /\ HEADER_BYTES + len (frames_bytes fs) + n < 2 ^ 64
    /\ len layout <= len layout' <= len layout + 1
    /\ (fs <> [] -> HEADER_BYTES + len (frames_bytes fs) + n <= val (jc_max_segment_bytes cfg))
    /\ only_adds d d' /\ (layout' = layout \/ layout' = layout ++ [[]]).
Proof.
  intros Hd Hj Hn Hfit Hrev Hlen. unfold select_segment.
  destruct (checked_in 0 (2 ^ 64) n) as (n64 & Hn64 & En64); [unfold HEADER_BYTES in Hfit; lia|].
  assert (Hself : j = set_segments (tj_segments j) j) by (by destruct j).
  pose proof (ji_segments _ _ _ _ _ Hj) as Hseg.
  destruct (must_rotate (tj_config j) (tj_segments j) n) eqn:Erot.
  - destruct (create_segment_run j layout d) as (d' & Hrun & Hinv & Hd' & Hadds); try done.
    { by eapply rotate_nonempty. }
    exists layout, [], d', (tj_segments j ++ [segment_info (len layout) (tj_head j) []]).
    cbn zeta. split.
    { erewrite M_bind_run by (unfold of_option, of_result; rewrite Hn64; reflexivity).
      erewrite M_bind_run by reflexivity. cbn [fst]. rewrite Erot. erewrite M_bind_run by exact Hrun.
      unfold self, gets. cbn [fst set_segments tj_segments]. rewrite Hseg, length_app, segment_infos_length.
      do 2 f_equal. simpl. lia. }
    split; [done|]. split; [done|]. rewrite concat_app, length_app. simpl. rewrite app_nil_r.
    unfold frames_bytes. simpl. split; [done|]. split; [lia|]. split; [lia|].
    split; [done|]. split; [done|]. by right.
  - destruct (no_rotate_room j layout d n) as (l1 & fs & -> & Hroom & Hmax); try done.
    exists l1, fs, d, (tj_segments j). cbn zeta. rewrite <- Hself. split.
    { erewrite M_bind_run by (unfold of_option, of_result; rewrite Hn64; reflexivity).
      erewrite M_bind_run by reflexivity. cbn [fst]. rewrite Erot. erewrite M_bind_run by reflexivity.
      unfold self, gets. cbn [fst]. rewrite Hseg, segment_infos_length, length_app. do 2 f_equal. simpl. lia. }
    split; [done|]. split; [done|]. split; [done|]. split; [done|]. split; [lia|].
    split; [done|]. split; [done|]. by left.
Qed.

(** * Committing a frame *)

(** The committed frame of an encoded batch. *)
Definition frame_of (e : EncodedFrame) : Frame :=
  {| fr_bytes := ef_bytes e; fr_header := ef_header e; fr_stored := normalized (ef_stored e) |}.

Lemma encoded_frame_ok batch durability e h h' :
  encode_batch batch durability (jc_max_frame_payload_bytes cfg) = Ok e ->
  validate_stored_batch (ef_header e) (ef_stored e) tid h = Ok h' ->
  frame_ok h (frame_of e) /\ frame_head (frame_of e) = h' /\
  frame_id (frame_of e) = jb_command_id batch /\ frame_events (frame_of e) = jb_events batch /\
  sb_command_digest (fr_stored (frame_of e)) = jb_command_digest batch /\
  exists r, frame_receipt (frame_of e) = Some r /\
    into_receipt_and_events (ef_stored e) = Ok (r, jb_events batch).
Proof.
  intros He Hv. pose proof (frame_roundtrip _ _ _ _ He) as Hdec.
  apply validate_stored_batch_iff in Hv as [Hc ->].
  pose proof He as He'. apply encode_batch_Ok in He'
    as (first & last & n & _ & _ & Hs & Hpl & _ & _ & Hmax & _ & _).
  assert (Hev : frame_events (frame_of e) = jb_events batch).
  { unfold frame_events, frame_of. cbn [fr_stored].
    change (sb_events (normalized (ef_stored e))) with (visit_seq (stored_list (sb_events (ef_stored e)))).
    by rewrite stored_list_visit_seq, Hs. }
  assert (Hid : sb_command_id (ef_stored e) = jb_command_id batch) by (by rewrite Hs).
  assert (Hdig : sb_command_digest (ef_stored e) = jb_command_digest batch) by (by rewrite Hs).
  split; [|split; [done|split; [done|split; [done|split; [done|]]]]].
  - split; cbn [frame_of fr_bytes fr_header fr_stored]; [done|lia|by apply continues_normalized].
  - destruct (validated_receipt (ef_stored e)) as [r Hr]; [by destruct Hc|].
    exists r. split.
    + unfold frame_receipt, frame_of. cbn [fr_stored]. by rewrite into_receipt_normalized, Hr.
    + unfold into_receipt_and_events. unfold into_receipt in Hr. rewrite Hr. cbn [mbind result_bind mret result_ret].
      by rewrite Hs.
Qed.

(** The last segment's file, before and after a frame. *)
Lemma last_segment_file l1 fs d :
  dir_holds (segment_files 0 HEAD_EMPTY (l1 ++ [fs]) []) d ->
  d_files d !! segment_file_name (u64_of (len l1))
    = Some (segment_content (len l1) (last_head HEAD_EMPTY (concat l1)) fs).
Proof.
  intros Hdir. apply (dh_files _ _ Hdir). rewrite segment_files_app by done.
  cbn [JournalSpec.segment_files is_empty]. rewrite Z.add_0_l, app_nil_r, elem_of_app.
  right. apply list_elem_of_here.
Qed.

Lemma push_frame_dir l1 fs f d d' :
  layout_ok 0 HEAD_EMPTY (l1 ++ [fs]) -> 
  dir_holds (segment_files 0 HEAD_EMPTY (l1 ++ [fs]) []) d ->
  d_files d' = <[segment_file_name (u64_of (len l1))
                 := segment_content (len l1) (last_head HEAD_EMPTY (concat l1)) fs ++ fr_bytes f]> (d_files d) ->
  d_others d' = d_others d ->
  dir_holds (segment_files 0 HEAD_EMPTY (l1 ++ [fs ++ [f]]) []) d'.
Proof.
  intros Hok Hdir Hf Ho. rewrite segment_files_app in * by done.
  cbn [JournalSpec.segment_files is_empty] in *. rewrite Z.add_0_l, app_nil_r in *.
  apply layout_ok_app in Hok as (_ & (_ & _ & _ & _ & Hn & _) & _).
  apply (dir_holds_replace _ _ _ _ d d' Hdir).
  - apply next_name_fresh. lia.
  - rewrite Hf. do 2 f_equal. unfold JournalSpec.segment_content.
    rewrite frames_bytes_app, <- app_assoc. do 2 f_equal. unfold frames_bytes. simpl. by rewrite app_nil_r.
  - done.
Qed.

Lemma push_frame_layout l1 fs f :
  layout_ok 0 HEAD_EMPTY (l1 ++ [fs]) ->
  frame_ok (last_head HEAD_EMPTY (concat (l1 ++ [fs]))) f ->
  HEADER_BYTES + len (frames_bytes fs) + len (fr_bytes f) < 2 ^ 64 ->
  layout_ok 0 HEAD_EMPTY (l1 ++ [fs ++ [f]]).
Proof.
  intros Hok Hf Hfit. apply layout_ok_app in Hok as (Hok1 & (Hrev & Hfs & _ & _ & Hn & _) & Hne).
  apply layout_ok_app. split; [done|]. split; [|intros _; by apply Hne]. simpl. split; [done|].
  rewrite concat_app, last_head_app in Hf. simpl in Hf. rewrite app_nil_r in Hf.
  split; [by apply frames_ok_app|]. split; [done|]. split; [|done].
  rewrite frames_bytes_app, length_app. unfold frames_bytes at 2. simpl. rewrite app_nil_r. lia.
Qed.

Lemma concat_push (l1 : Layout) fs f : concat (l1 ++ [fs ++ [f]]) = concat (l1 ++ [fs]) ++ [f].
Proof. rewrite !concat_app. simpl. by rewrite !app_nil_r, app_assoc. Qed.

Lemma push_frame_infos l1 fs f :
  layout_ok 0 HEAD_EMPTY (l1 ++ [fs]) ->
  segment_infos 0 HEAD_EMPTY (l1 ++ [fs ++ [f]])
    = alter (grow_segment (u64_of (HEADER_BYTES + len (frames_bytes fs) + len (fr_bytes f)))
                          (head_revision (frame_head f)))
            (length l1) (segment_infos 0 HEAD_EMPTY (l1 ++ [fs])).
Proof.
  intros Hok. rewrite !segment_infos_app. cbn [segment_infos]. rewrite Z.add_0_l.
  replace (length l1) with (length (segment_infos 0 HEAD_EMPTY l1) + 0)%nat
    by (rewrite segment_infos_length; lia).
  rewrite alter_app_r. f_equal. simpl. f_equal. unfold segment_info, grow_segment.
  cbn [sg_sequence sg_first_revision sg_path]. rewrite last_head_app. cbn [last_head fold_left].
  f_equal. rewrite frames_bytes_app, length_app. unfold frames_bytes at 2. simpl. rewrite app_nil_r.
  f_equal. lia.
Qed.

Lemma push_frame_pointers l1 fs f :
  layout_pointers (l1 ++ [fs ++ [f]])
    = layout_pointers (l1 ++ [fs]) ++ [(frame_id f, pointer_of (HEADER_BYTES + len (frames_bytes fs)) f)].
Proof.
  unfold layout_pointers. rewrite !map_app, !concat_app. simpl. rewrite !app_nil_r, frame_pointers_app.
  by rewrite app_assoc.
Qed.

Lemma push_frame_distinct l1 fs f :
  distinct_commands (l1 ++ [fs]) -> frame_id f ∉ map frame_id (concat (l1 ++ [fs])) ->
  distinct_commands (l1 ++ [fs ++ [f]]).
Proof.
  unfold distinct_commands. rewrite concat_push, map_app. intros Hnd Hni.
  apply list.NoDup_app. split; [done|]. split; [|apply NoDup_singleton].
  intros x Hx Hs. simpl in Hs. apply list_elem_of_singleton in Hs as ->. done.
Qed.

(** * The steps of [append] after the segment is chosen *)

Lemma write_frame_run path content e d :
  healthy d -> d_files d !! path = Some content ->
  write_frame path (len content) e d
    = (with_files (<[path := content ++ ef_bytes e]> (d_files d)) d, Ok tt).
Proof.
  intros Hd Hc.
  assert (Happ : append_at path (len content) (ef_bytes e) d
                 = (with_files (<[path := content ++ ef_bytes e]> (d_files d)) d, Ok tt)).
  { unfold append_at.
    rewrite (M_bind_run _ _ _ _ _ (map_error_run BeforeWrite _ _ _ _ (fs_open_healthy _ _ _ Hd Hc))).
    rewrite (M_bind_run _ _ _ _ _ (map_error_run BeforeWrite _ _ _ _ (fs_len_healthy _ _ _ Hd Hc))).
    rewrite Z.eqb_refl. erewrite M_bind_run by reflexivity.
    apply map_error_run. unfold fs_write_all, take_fault. unfold healthy in Hd. by rewrite Hd, Hc. }
  unfold write_frame. erewrite M_bind_run by (unfold outcome; rewrite Happ; reflexivity). reflexivity.
Qed.

(** What [settle] does to the durability bookkeeping. *)
Definition settled_pending (durability : JournalDurability) (sequence : u64) (j j' : ThreadJournal) : Prop :=
  match durability with
  | Durable => j' = set_pending pending_default u64_zero j
  | Buffered => exists count, val count = val (tj_dirty_batch_count j) + 1 /\
                  j' = set_pending (mark sequence (tj_pending_syncs j)) count j
  end.

Lemma settle_run durability path sequence before j layout layout' d :
  healthy d -> dir_holds (segment_files 0 HEAD_EMPTY layout' []) d -> length layout' = length layout ->
  tj_segments j = segment_infos 0 HEAD_EMPTY layout -> pending_ok (tj_pending_syncs j) (len layout) ->
  val sequence < len layout -> val (tj_dirty_batch_count j) + 1 < 2 ^ 64 ->
  exists j' d', settle durability path sequence before (j, d) = ((j', d'), Ok tt)
    /\ settled_pending durability sequence j j' /\ same_entries d d'
    /\ (durability = Durable ->
          (forall s, s ∈ ps_sequences (tj_pending_syncs j) \/ s = sequence ->
             d_synced d' !! segment_file_name s = d_files d !! segment_file_name s)
          /\ (forall name, d_synced d' !! name = d_files d !! name \/ d_synced d' !! name = d_synced d !! name)
          /\ d_synced_names d' = dom (d_files d) ∪ d_others d)
    /\ (durability = Buffered -> d' = d).
Proof.
  intros Hd Hdir Hl Hseg Hpend Hs Hdirty. unfold settle. destruct durability.
  - destruct (checked_in 0 (2 ^ 64) (val (tj_dirty_batch_count j) + 1)) as (count & Hcount & Ec).
    { pose proof (val_bounds (tj_dirty_batch_count j)). lia. }
    exists (set_pending (mark sequence (tj_pending_syncs j)) count j), d. split; [|split; [by exists count|]].
    + erewrite M_bind_run by reflexivity. erewrite M_bind_run by reflexivity.
      unfold u64_checked_add. cbn [fst].
      erewrite M_bind_run by (unfold of_option, of_result; rewrite Hcount; reflexivity). reflexivity.
    + split; [done|]. by split.
  - destruct (sync_pending_run (Some sequence) j layout layout' d Hd Hdir Hl Hseg Hpend) as (d' & Hrun & Hsame & Hin & Hall & Hnames).
    { by intros ? [= <-]. }
    exists (set_pending pending_default u64_zero j), d'. split; [|split; [done|split; [done|]]].
    + erewrite M_bind_run by reflexivity.
      erewrite M_bind_run by (unfold outcome, on_disk; cbn [fst]; rewrite Hrun; reflexivity). reflexivity.
    + split; [|done]. intros _. split; [|split; [done|]].
      * intros s [Hs'| ->]; apply Hin; [by left|by right].
      * destruct Hnames as [Hn|[Hn _]]; [done|by discriminate Hn].
Qed.

(** The journal after a frame was committed to its last segment. *)
Lemma commit_run command_id e h' r events segment_index before total j d :
  checked 0 (2 ^ 64) (len (ef_bytes e)) = Some (u64_of (len (ef_bytes e))) ->
  u64_checked_add before (val (u64_of (len (ef_bytes e)))) = Some total ->
  into_receipt_and_events (ef_stored e) = Ok (r, events) ->
  exists j', commit command_id e h' segment_index before (j, d) = ((j', d), Ok (Committed r events))
    /\ j' = {| tj_config := tj_config j; tj_thread_id := tj_thread_id j; tj_process := tj_process j;
               tj_head := h';
               tj_segments := alter (grow_segment total (head_revision h')) segment_index (tj_segments j);
               tj_command_index :=
                 index_insert command_id
                   {| fp_previous_record_digest := head_digest (tj_head j);
                      fp_start_revision := fh_start_revision (ef_header e);
                      fp_offset := before; fp_len := u64_of (len (ef_bytes e)) |} (tj_command_index j);
               tj_pending_syncs := tj_pending_syncs j; tj_dirty_batch_count := tj_dirty_batch_count j |}.
Proof.
  intros Hlen Htotal Hr. eexists. split; [|reflexivity]. unfold commit.
  erewrite M_bind_run by (unfold of_option, of_result; rewrite Hlen; reflexivity).
  erewrite M_bind_run by (unfold of_option, of_result; rewrite Htotal; reflexivity).
  do 3 erewrite M_bind_run by reflexivity.
  erewrite M_bind_run by (unfold of_result; rewrite Hr; reflexivity). reflexivity.
Qed.

(** * A new batch *)

(** Every non-empty segment that is not pending is synced with its name. *)
Definition durable_inv (j : ThreadJournal) (layout : Layout) (d : Disk) : Prop :=
  forall k fs, layout !! k = Some fs -> fs <> [] ->
    u64_of (Z.of_nat k) ∉ ps_sequences (tj_pending_syncs j) ->
    let name := segment_file_name (u64_of (Z.of_nat k)) in
    is_Some (d_files d !! name) /\ d_synced d !! name = d_files d !! name /\ name ∈ d_synced_names d.

(** Nothing waits for a sync, and the directory was synced as it is. *)
Definition settled (j : ThreadJournal) (d : Disk) : Prop :=
  ps_sequences (tj_pending_syncs j) = [] /\ d_synced_names d = dom (d_files d) ∪ d_others d.

Lemma durable_inv_adds j layout layout' segments d d' :
  durable_inv j layout d -> only_adds d d' -> layout' = layout \/ layout' = layout ++ [[]] ->
  durable_inv (set_segments segments j) layout' d'.
Proof.
  intros Hdur (Es & En & Ef) Hl k fs Hk Hne Hp. cbn zeta.
  assert (Hk' : layout !! k = Some fs).
  { destruct Hl as [->| ->]; [done|]. apply lookup_app_Some in Hk as [Hk|[_ Hk]]; [done|].
    apply list_elem_of_lookup_2, list_elem_of_singleton in Hk. done. }
  destruct (Hdur k fs Hk' Hne Hp) as ([c Hc] & H2 & H3). rewrite Es, En, (Ef _ _ Hc), H2, Hc. eauto.
Qed.

(** The frame [f] went to the last segment [l1]: its file grew from [c], the
    bookkeeping was settled. *)
Lemma durable_inv_push durability j j1 j2 l1 fs f d d1 d2 c :
  let name := segment_file_name (u64_of (len l1)) in
  durable_inv j (l1 ++ [fs]) d -> pending_ok (tj_pending_syncs j) (len (l1 ++ [fs])) ->
  dir_holds (segment_files 0 HEAD_EMPTY (l1 ++ [fs]) []) d ->
  len l1 + 1 < 2 ^ 64 ->
  d1 = with_files (<[name := c]> (d_files d)) d ->
  tj_pending_syncs j2 = tj_pending_syncs j1 ->
  settled_pending durability (u64_of (len l1)) j j1 -> same_entries d1 d2 ->
  (durability = Durable ->
     (forall s, s ∈ ps_sequences (tj_pending_syncs j) \/ s = u64_of (len l1) ->
        d_synced d2 !! segment_file_name s = d_files d1 !! segment_file_name s)
     /\ (forall name, d_synced d2 !! name = d_files d1 !! name \/ d_synced d2 !! name = d_synced d1 !! name)
     /\ d_synced_names d2 = dom (d_files d1) ∪ d_others d1) ->
  (durability = Buffered -> d2 = d1) ->
  durable_inv j2 (l1 ++ [fs ++ [f]]) d2.
Proof.
  intros name Hdur [Hsorted _] Hdir Hn -> Ep Hset Hsame HD HB k gs Hk Hne Hni. cbn zeta. rewrite Ep in Hni.
  set (nk := segment_file_name (u64_of (Z.of_nat k))).
  assert (Hkl : (k <= length l1)%nat).
  { apply lookup_lt_Some in Hk. rewrite length_app in Hk. simpl in Hk. lia. }
  assert (Hold : (k < length l1)%nat -> (l1 ++ [fs]) !! k = Some gs).
  { intros Hlt. rewrite lookup_app_l in Hk |- * by done. done. }
  assert (Hname : (k < length l1)%nat -> nk <> name).
  { intros Hlt E. apply (inj segment_file_name) in E. apply (f_equal val) in E.
    rewrite !val_u64_of_small in E by lia. lia. }
  assert (Hother : (k < length l1)%nat ->
            d_files (with_files (<[name := c]> (d_files d)) d) !! nk = d_files d !! nk).
  { intros Hlt. cbn [with_files d_files]. rewrite lookup_insert_ne; [done|]. apply not_eq_sym. by apply Hname. }
  rewrite (se_files _ _ Hsame). destruct durability; cbn [settled_pending] in Hset.
  - destruct Hset as (count & _ & ->). cbn [set_pending tj_pending_syncs] in Hni.
    rewrite mark_elem in Hni by done. rewrite (HB eq_refl).
    assert (Hlt : (k < length l1)%nat).
    { destruct (decide (k = length l1)) as [->|]; [|lia]. exfalso. apply Hni. by left. }
    rewrite (Hother Hlt). apply (Hdur k gs); [by apply Hold|done|]. intros Hin. apply Hni. by right.
  - clear Hset. destruct (HD eq_refl) as (Hin & Hall & Hnames). rewrite Hnames.
    assert (Hfile : is_Some (d_files (with_files (<[name := c]> (d_files d)) d) !! nk) /\
                    d_synced d2 !! nk = d_files (with_files (<[name := c]> (d_files d)) d) !! nk).
    { destruct (decide (k = length l1)) as [->|Hk'].
      - split; [|apply Hin; by right]. cbn [with_files d_files]. unfold nk. fold name.
        rewrite lookup_insert_eq. eauto.
      - assert (Hlt : (k < length l1)%nat) by lia.
        destruct (decide (u64_of (Z.of_nat k) ∈ ps_sequences (tj_pending_syncs j))) as [Hp|Hp].
        + rewrite (Hother Hlt). split; [|rewrite <- (Hother Hlt); apply Hin; by left].
          apply (layout_file_exists (l1 ++ [fs])); [done|]. rewrite length_app. lia.
        + destruct (Hdur k gs (Hold Hlt) Hne Hp) as (Hsome & Es & _). fold nk in Hsome, Es.
          rewrite (Hother Hlt). split; [done|]. destruct (Hall nk) as [->|Hs]; [by apply Hother|].
          rewrite Hs. done. }
    destruct Hfile as [Hsome Hs]. split; [done|]. split; [done|]. apply elem_of_union. left.
    by apply elem_of_dom.
Qed.

Lemma settled_dirty durability sequence j j' :
  settled_pending durability sequence j j' ->
  val (tj_dirty_batch_count j') <= val (tj_dirty_batch_count j) + 1.
Proof.
  pose proof (val_bounds (tj_dirty_batch_count j)). destruct durability; cbn [settled_pending].
  - intros (count & Hc & ->). cbn. lia.
  - intros ->. cbn. lia.
Qed.

Lemma pending_settled durability sequence j j' n :
  pending_ok (tj_pending_syncs j) n -> val sequence < n ->
  settled_pending durability sequence j j' ->
  pending_ok (tj_pending_syncs j') n /\
  (val (tj_dirty_batch_count j') = 0 -> ps_sequences (tj_pending_syncs j') = []) /\
  tj_config j' = tj_config j /\ tj_thread_id j' = tj_thread_id j /\ tj_head j' = tj_head j /\
  tj_segments j' = tj_segments j /\ tj_command_index j' = tj_command_index j /\ tj_process j' = tj_process j.
Proof.
  intros [Hs Hall] Hn. destruct durability; cbn [settled_pending].
  - intros (count & Hc & ->). cbn. pose proof (val_bounds (tj_dirty_batch_count j)).
    split; [|split; [lia|done]]. split; [by apply mark_sorted|].
    rewrite list.Forall_forall in *. intros s Hin. apply mark_elem in Hin as [->|Hin]; [done| |done]. by apply Hall.
  - intros ->. cbn. split; [|done]. split; constructor.
Qed.

(** The whole step: the committed frames grow by the batch's frame. *)
Lemma append_new_run batch durability j layout d e h' :
  healthy d -> journal_inv j layout d ->
  jb_command_id batch ∉ map frame_id (concat layout) ->
  jb_thread_id batch = tid -> jb_expected_revision batch = head_revision (tj_head j) ->
  encode_batch batch durability (jc_max_frame_payload_bytes cfg) = Ok e ->
  validate_stored_batch (ef_header e) (ef_stored e) tid (tj_head j) = Ok h' ->
  len layout + 1 < 2 ^ 64 -> HEADER_BYTES + len (ef_bytes e) < 2 ^ 64 ->
  val (tj_dirty_batch_count j) + 1 < 2 ^ 64 ->
  exists j' d' l1 fs r,
    append batch durability (j, d) = ((j', d'), Ok (Committed r (jb_events batch))) /\
    concat (l1 ++ [fs]) = concat layout /\ journal_inv j' (l1 ++ [fs ++ [frame_of e]]) d' /\ healthy d' /\
    frame_receipt (frame_of e) = Some r /\
    (durability = Durable -> settled j' d') /\
    (durable_inv j layout d -> durable_inv j' (l1 ++ [fs ++ [frame_of e]]) d') /\
    val (tj_dirty_batch_count j') <= val (tj_dirty_batch_count j) + 1 /\
    len (l1 ++ [fs]) <= len layout + 1.
Proof.
  intros Hd Hj Hni Htid Hexp He Hv Hlen Hfit Hdirty.
  destruct (encoded_frame_ok _ _ _ _ _ He Hv) as (Hf & Hhead & Hid & _ & _ & r & Hr & Hrr).
  set (f := frame_of e) in *.
  assert (Hpos : 236 <= len (ef_bytes e)).
  { destruct (frame_ok_bytes _ _ _ _ Hf) as (_ & _ & Hb & _). pose proof frame_lengths. cbn in Hb. lia. }
  assert (Hrev : rev (head_revision (tj_head j)) + 1 < 2 ^ 64).
  { destruct (frame_ok_end _ _ _ _ Hf) as (_ & _ & Hs).
    pose proof (rev_bounds (fh_start_revision (fr_header f))). lia. }
  destruct (select_segment_run (len (ef_bytes e)) j layout d)
    as (l1 & fs & d1 & segs & Hsel & Hj1 & Hd1 & Hcat & Hroom & Hl & _ & Hadds & Hlayout); try done; [lia|].
  cbn zeta in *. set (j1 := set_segments segs j) in *.
  pose proof (ji_layout _ _ _ _ _ Hj1) as Hok1. pose proof (ji_dir _ _ _ _ _ Hj1) as Hdir1.
  assert (Hl1 : len l1 + 1 < 2 ^ 64).
  { pose proof Hok1 as Hok1'. apply layout_ok_app in Hok1' as (_ & (_ & _ & _ & _ & Hn & _) & _). lia. }
  set (h1 := last_head HEAD_EMPTY (concat l1)) in *.
  set (info := segment_info (len l1) h1 fs).
  assert (Hinfo : tj_segments j1 !! length l1 = Some info).
  { rewrite (ji_segments _ _ _ _ _ Hj1), segment_infos_app. cbn [segment_infos].
    rewrite list_lookup_middle by (by rewrite segment_infos_length). by rewrite Z.add_0_l. }
  pose proof (last_segment_file _ _ _ Hdir1) as Hfile. fold h1 in Hfile.
  assert (Hbefore : val (sg_bytes info) = len (segment_content (len l1) h1 fs)).
  { rewrite length_segment_content. apply val_u64_of_small. unfold HEADER_BYTES in *. lia. }
  set (name := segment_file_name (u64_of (len l1))) in *.
  set (d2 := with_files (<[name := segment_content (len l1) h1 fs ++ ef_bytes e]> (d_files d1)) d1).
  assert (Hwrite : write_frame (sg_path info) (val (sg_bytes info)) e d1 = (d2, Ok tt)).
  { rewrite Hbefore. by apply write_frame_run. }
  assert (Hseq : val (u64_of (len l1)) < len (l1 ++ [fs])).
  { rewrite val_u64_of_small, length_app by lia. simpl. lia. }
  assert (Hdir2 : dir_holds (segment_files 0 HEAD_EMPTY (l1 ++ [fs ++ [f]]) []) d2)
    by (by apply (push_frame_dir l1 fs f d1)).
  assert (Hlen_eq : len (l1 ++ [fs ++ [f]]) = len (l1 ++ [fs])) by (rewrite !length_app; done).
  assert (Hseg2 : tj_segments j1 = segment_infos 0 HEAD_EMPTY (l1 ++ [fs])) by apply (ji_segments _ _ _ _ _ Hj1).
  destruct (settle_run durability (sg_path info) (sg_sequence info) (val (sg_bytes info)) j1 (l1 ++ [fs])
              (l1 ++ [fs ++ [f]]) d2) as (j2 & d3 & Hsettle & Hset & Hsame & HD & HB); try done.
  { rewrite !length_app. done. }
  { apply (ji_pending _ _ _ _ _ Hj1). }
  destruct (pending_settled _ _ _ _ _ (ji_pending _ _ _ _ _ Hj1) Hseq Hset)
    as (Hpend & Hdirty2 & Ecfg & Etid & Ehead & Esegs & Eidx & _).
  assert (Hbytes : checked 0 (2 ^ 64) (len (ef_bytes e)) = Some (u64_of (len (ef_bytes e)))).
  { apply checked_Some. rewrite val_u64_of_small; unfold HEADER_BYTES in *; lia. }
  set (total := u64_of (HEADER_BYTES + len (frames_bytes fs) + len (ef_bytes e))).
  assert (Htotal : u64_checked_add (sg_bytes info) (val (u64_of (len (ef_bytes e)))) = Some total).
  { apply checked_Some. unfold total. cbn [info segment_info sg_bytes].
    rewrite !val_u64_of_small by (unfold HEADER_BYTES in *; lia). done. }
  destruct (commit_run (jb_command_id batch) e h' r (jb_events batch) (length l1) (sg_bytes info) total j2 d3)
    as (j3 & Hcommit & Ej3); try done.
  exists j3, d3, l1, fs, r. split; [|split; [done|split; [|split; [|split; [done|split; [|split]]]]]].
  - unfold append. erewrite M_bind_run by reflexivity. cbn [fst].
    erewrite M_bind_run by (unfold on_disk; rewrite (find_command_frame_run _ _ _ _ _ _ Hd Hj); reflexivity).
    rewrite (proj2 (lookup_pointer_None (jb_command_id batch) (layout_pointers layout)))
      by (by rewrite layout_pointers_ids).
    unfold append_new. erewrite M_bind_run by reflexivity. cbn [fst].
    rewrite (ji_thread _ _ _ _ _ Hj), (ji_config _ _ _ _ _ Hj).
    rewrite (bool_decide_eq_true_2 _ Htid), (bool_decide_eq_true_2 _ Hexp).
    do 2 erewrite M_bind_run by reflexivity.
    erewrite M_bind_run by (unfold of_result; rewrite He; reflexivity).
    erewrite M_bind_run by (unfold of_result; rewrite Hv; reflexivity).
    erewrite M_bind_run by exact Hsel.
    erewrite M_bind_run by reflexivity. cbn [fst].
    erewrite M_bind_run by (unfold of_option, of_result; rewrite Hinfo; reflexivity).
    erewrite M_bind_run by (unfold on_disk; rewrite Hwrite; reflexivity).
    erewrite M_bind_run by exact Hsettle. exact Hcommit.
  - assert (Ehj : head_digest (tj_head j2) = fh_previous_record_digest (fr_header f)).
    { rewrite Ehead. destruct Hf as [_ _ Hc]. by rewrite (ct_previous _ _ _ _ Hc). }
    assert (Hf1 : frame_ok (last_head HEAD_EMPTY (concat (l1 ++ [fs]))) f).
    { rewrite Hcat, <- (ji_head _ _ _ _ _ Hj). done. }
    rewrite Ej3. split; cbn [tj_config tj_thread_id tj_head tj_segments tj_command_index
                              tj_pending_syncs tj_dirty_batch_count].
    + rewrite Ecfg. apply (ji_config _ _ _ _ _ Hj1).
    + rewrite Etid. apply (ji_thread _ _ _ _ _ Hj1).
    + by apply push_frame_layout.
    + apply push_frame_distinct; [apply (ji_distinct _ _ _ _ _ Hj1)|]. by rewrite Hid, Hcat.
    + by rewrite concat_push, last_head_app.
    + rewrite push_frame_infos, Esegs, Hseg2, <- Hhead by done. done.
    + rewrite push_frame_pointers, index_of_app, Eidx, (ji_index _ _ _ _ _ Hj1). simpl index_of.
      rewrite Hid, Ehj. done.
    + by rewrite Hlen_eq.
    + done.
    + by apply (dir_holds_same _ d2).
  - unfold healthy. by rewrite (se_faults _ _ Hsame).
  - intros ->. cbn [settled_pending] in Hset. destruct (HD eq_refl) as (_ & _ & Hnames). unfold settled.
    by rewrite Ej3, Hset, Hnames, (se_files _ _ Hsame), (se_others _ _ Hsame).
  - intros Hdur. apply (durable_inv_push durability j1 j2 j3 l1 fs f d1 d2 d3
                          (segment_content (len l1) h1 fs ++ ef_bytes e)); try done.
    + by apply (durable_inv_adds j layout _ segs d).
    + apply (ji_pending _ _ _ _ _ Hj1).
    + by rewrite Ej3.
  - split; [|lia]. rewrite Ej3. cbn [tj_dirty_batch_count]. apply settled_dirty in Hset. exact Hset.
Qed.

End AppendFacts.
