(* ===== verification/CrashFacts.v ===== *)
(** Failing system calls: whatever call fails while a batch is appended, and
    however many of its bytes were written, what is left in the directory
    recovers to the frames committed before, or to those and the batch. *)

From S2P Require Import Prelude Canonical Events Commands Receipts Format FormatFacts.
From S2P Require Import CommandIndex Disk Model Recovery JournalSpec RecoveryFacts Journal JournalFacts AppendFacts.

Open Scope string_scope.
Open Scope list_scope.
Open Scope Z_scope.

(** * Code that only reads the directory *)

Definition same_dir (d d' : Disk) : Prop := d_files d' = d_files d /\ d_others d' = d_others d.

Definition reads {E A} (m : M Disk E A) : Prop := forall d d' r, m d = (d', r) -> same_dir d d'.

Lemma same_dir_trans d1 d2 d3 : same_dir d1 d2 -> same_dir d2 d3 -> same_dir d1 d3.
Proof. unfold same_dir. intros [] []. split; congruence. Qed.

Lemma reads_bind {E A B} (m : M Disk E A) (k : A -> M Disk E B) :
  reads m -> (forall a, reads (k a)) -> reads (m ≫= k).
Proof.
  intros Hm Hk d d' r Hr. apply M_bind_cases in Hr as [(d1 & a & H1 & H2)|(e & H1 & _)].
  - eapply same_dir_trans; [by eapply Hm|by eapply Hk].
  - by eapply Hm.
Qed.

Lemma reads_ret {E A} (a : A) : reads (E := E) (mret a).
Proof. by intros d d' r [= <- <-]. Qed.

Lemma reads_of_result {E A} (r : result E A) : reads (of_result r).
Proof. by intros d d' r' [= <- <-]. Qed.

Lemma reads_throw {E A} (e : E) : reads (A := A) (throw e).
Proof. by intros d d' r [= <- <-]. Qed.

Lemma reads_map_error {E F A} (f : E -> F) (m : M Disk E A) : reads m -> reads (map_error f m).
Proof. unfold map_error. intros Hm d d' r. destruct (m d) as [d1 r1] eqn:E1. intros [= <- <-]. by eapply Hm. Qed.

Lemma reads_outcome {E F A} (m : M Disk E A) : reads m -> reads (outcome (F := F) m).
Proof. unfold outcome. intros Hm d d' r. destruct (m d) as [d1 r1] eqn:E1. intros [= <- <-]. by eapply Hm. Qed.

Lemma reads_syscall {A} (run : io A) : (forall d, same_dir d (fst (run d))) -> reads (syscall run).
Proof.
  intros Hrun d d' r Hr. apply syscall_cases in Hr as (faults & [[_ ->]|Hr]); [done|].
  specialize (Hrun (with_faults faults d)). by rewrite Hr in Hrun.
Qed.

Create HintDb reads.
#[export] Hint Resolve reads_bind reads_ret reads_of_result reads_throw reads_map_error reads_outcome : reads.
#[export] Hint Extern 1 (reads (of_option _ _)) => apply reads_of_result : reads.
#[export] Hint Extern 1 (reads (guard_m _ _)) => apply reads_of_result : reads.

Lemma reads_fs_open name : reads (fs_open name).
Proof. apply reads_syscall. intros d. by destruct (d_files d !! name). Qed.

Lemma reads_fs_len name : reads (fs_len name).
Proof. apply reads_syscall. intros d. by destruct (d_files d !! name). Qed.

Lemma reads_fs_read_exact name offset n : reads (fs_read_exact name offset n).
Proof.
  apply reads_syscall. intros d. destruct (d_files d !! name); [|done].
  by destruct (_ <=? _).
Qed.

Lemma reads_fs_seek name offset : reads (fs_seek name offset).
Proof. by apply reads_syscall. Qed.

Lemma reads_fs_sync_all name : reads (fs_sync_all name).
Proof. apply reads_syscall. intros d. by destruct (d_files d !! name). Qed.

Lemma reads_sync_directory : reads sync_directory.
Proof. apply reads_bind; [by apply reads_syscall|]. intros _. by apply reads_syscall. Qed.

#[export] Hint Resolve reads_fs_open reads_fs_len reads_fs_read_exact reads_fs_seek reads_fs_sync_all
  reads_sync_directory : reads.

(** * Runs that succeed met no failure *)

Definition quiet (d : Disk) : Disk := with_faults [] d.

(** A run that succeeds does the same without the failures. *)
Definition faultless {E A} (m : M Disk E A) : Prop :=
  forall d d' a, m d = (d', Ok a) -> m (quiet d) = (quiet d', Ok a).

Lemma faultless_bind {E A B} (m : M Disk E A) (k : A -> M Disk E B) :
  faultless m -> (forall a, faultless (k a)) -> faultless (m ≫= k).
Proof.
  intros Hm Hk d d' b Hr. apply M_bind_Ok in Hr as (d1 & a & H1 & H2).
  apply M_bind_Ok. exists (quiet d1), a. split; [by apply Hm|by apply Hk].
Qed.

Lemma faultless_ret {E A} (a : A) : faultless (E := E) (mret a).
Proof. by intros d d' a' [= <- <-]. Qed.

Lemma faultless_of_result {E A} (r : result E A) : faultless (of_result r).
Proof. intros d d' a [= <- ->]. done. Qed.

Lemma faultless_throw {E A} (e : E) : faultless (A := A) (throw e).
Proof. by intros d d' r [=]. Qed.

Lemma faultless_map_error {E F A} (f : E -> F) (m : M Disk E A) : faultless m -> faultless (map_error f m).
Proof. intros Hm d d' a. rewrite !map_error_Ok. apply Hm. Qed.

(** The effect of a call does not depend on the answers to the calls after it. *)
Lemma faultless_syscall {A} (run : io A) :
  (forall d faults, run (with_faults faults d) = let (d', r) := run d in (with_faults faults d', r)) ->
  faultless (syscall run).
Proof.
  intros Hrun d d' a Hr. rewrite syscall_healthy by done.
  apply syscall_cases in Hr as (faults & [[? _]|Hr]); [done|].
  rewrite Hrun in Hr. unfold quiet. rewrite Hrun. destruct (run d) as [d1 r1].
  injection Hr as <- ->. done.
Qed.

Create HintDb faultless.
#[export] Hint Resolve faultless_bind faultless_ret faultless_of_result faultless_throw faultless_map_error : faultless.
#[export] Hint Extern 1 (faultless (of_option _ _)) => apply faultless_of_result : faultless.
#[export] Hint Extern 1 (faultless (guard_m _ _)) => apply faultless_of_result : faultless.

Ltac faultless_call :=
  apply faultless_syscall; intros d faults; cbn; repeat case_match; done.

Lemma faultless_fs_open name : faultless (fs_open name).
Proof. faultless_call. Qed.
Lemma faultless_fs_len name : faultless (fs_len name).
Proof. faultless_call. Qed.
Lemma faultless_fs_read_exact name offset n : faultless (fs_read_exact name offset n).
Proof. faultless_call. Qed.
Lemma faultless_fs_seek name offset : faultless (fs_seek name offset).
Proof. faultless_call. Qed.
Lemma faultless_fs_sync_all name : faultless (fs_sync_all name).
Proof. faultless_call. Qed.
Lemma faultless_fs_create_new name : faultless (fs_create_new name).
Proof. faultless_call. Qed.
Lemma faultless_fs_set_len name n : faultless (fs_set_len name n).
Proof. faultless_call. Qed.
Lemma faultless_sync_directory : faultless sync_directory.
Proof. apply faultless_bind; [|intros _]; faultless_call. Qed.

Lemma faultless_fs_write_all name b : faultless (fs_write_all name b).
Proof.
  intros d d' a. unfold fs_write_all, take_fault, quiet. cbn.
  destruct (d_faults d) as [|[k|] faults]; cbn; destruct (d_files d !! name); try done; by intros [= <- <-].
Qed.

#[export] Hint Resolve faultless_fs_open faultless_fs_len faultless_fs_read_exact faultless_fs_seek
  faultless_fs_sync_all faultless_fs_create_new faultless_fs_set_len faultless_sync_directory
  faultless_fs_write_all : faultless.

Section CrashFacts.
Context `{External, JsonCodec} (cfg : JournalConfig) (tid : ThreadId).

Abbreviation frame_ok := (frame_ok cfg tid).
Abbreviation layout_ok := (layout_ok cfg tid).
Abbreviation segment_content := (segment_content tid).
Abbreviation segment_files := (segment_files tid).
Abbreviation journal_inv := (journal_inv cfg tid).
Abbreviation crashed := (crashed cfg tid).

(** * Lookups only read *)

Lemma reads_read_pointer p position c path t max : reads (read_pointer p position c path t max).
Proof.
  unfold read_pointer. apply reads_bind; [case_bool_decide; eauto with reads|]. intros.
  repeat (apply reads_bind; [eauto with reads|intros]). eauto with reads.
Qed.

Lemma reads_visit_pointers {A} (visit : FramePointer -> byte_array 16 -> Z -> A -> M Disk JournalError (A * bool))
    fuel info offset acc :
  (forall p id position acc, reads (visit p id position acc)) -> reads (visit_pointers visit fuel info offset acc).
Proof.
  intros Hv. revert offset acc. induction fuel as [|fuel IH]; intros offset acc; cbn [visit_pointers].
  - case_bool_decide; simpl; eauto with reads.
  - destruct (negb _); [case_bool_decide; simpl; eauto with reads|].
    repeat (apply reads_bind; [eauto with reads|intros]).
    destruct a5 as [acc' [|]]; eauto with reads.
Qed.

Lemma reads_find_command_frame id j : reads (find_command_frame id j).
Proof.
  unfold find_command_frame. destruct (negb _); [eauto with reads|].
  destruct (recent_frame _ id); [eauto with reads|].
  induction (tj_segments j) as [|info infos IH]; cbn [find_command_pointer]; [eauto with reads|].
  apply reads_bind.
  - unfold visit_segment_pointers. apply reads_bind; [eauto with reads|]. intros _.
    apply reads_visit_pointers. intros. unfold match_command. case_bool_decide; eauto with reads.
  - intros [[p|] b]; eauto with reads.
Qed.

Lemma reads_read_committed_command p j : reads (read_committed_command p j).
Proof.
  unfold read_committed_command.
  apply reads_bind; [eauto with reads|intros info]. apply reads_bind; [eauto with reads|intros _].
  apply reads_bind; [apply reads_read_pointer|intros [decoded c]].
  apply reads_bind; eauto with reads.
Qed.

Lemma reads_sync_pending current j : reads (sync_pending_segments current j).
Proof.
  unfold sync_pending_segments. apply reads_bind.
  - induction (iter_including _ _) as [|s l IH]; cbn [sync_segments]; [eauto with reads|].
    apply reads_bind; [eauto with reads|]. intros info. apply reads_bind; [|intros _; exact IH].
    apply reads_map_error. unfold sync_file. eauto with reads.
  - intros _. destruct (_ || _); eauto with reads.
Qed.

(** * Truncation either happens or leaves the file alone *)

Lemma fs_set_len_cases name pre t d d' r :
  d_files d !! name = Some (pre ++ t) -> fs_set_len name (len pre) d = (d', r) ->
  d_others d' = d_others d /\
  (d_files d' = d_files d /\ (exists e, r = Err e) \/ d_files d' = <[name := pre]> (d_files d) /\ r = Ok tt).
Proof.
  intros Hc Hr. apply syscall_cases in Hr as (faults & [[-> ->]|Hr]).
  - split; [done|]. left. eauto.
  - cbn in Hr. rewrite Hc, resize_prefix in Hr by lia. injection Hr as <- <-. split; [done|]. by right.
Qed.

Lemma truncate_cases name pre t d d' r :
  d_files d !! name = Some (pre ++ t) -> truncate_and_sync name (len pre) d = (d', r) ->
  d_others d' = d_others d /\
  (d_files d' = d_files d /\ (exists e, r = Err e) \/ d_files d' = <[name := pre]> (d_files d)).
Proof.
  intros Hc Hr. unfold truncate_and_sync in Hr.
  apply M_bind_cases in Hr as [(d1 & [] & H1 & Hr)|(e & H1 & ->)].
  2: { apply reads_fs_open in H1 as [Hf Ho]. rewrite Hf, Ho. split; [done|]. left. eauto. }
  apply reads_fs_open in H1 as [Hf1 Ho1].
  apply M_bind_cases in Hr as [(d2 & [] & H2 & Hr)|(e & H2 & ->)];
    (eapply fs_set_len_cases in H2 as [Ho2 H2]; [|by rewrite Hf1]).
  - apply reads_fs_sync_all in Hr as [Hf3 Ho3]. rewrite Hf3, Ho3, Ho2, Ho1. split; [done|].
    destruct H2 as [[_ [e He]]|[H2 _]]; [done|]. right. by rewrite H2, Hf1.
  - rewrite Ho2, Ho1. split; [done|]. destruct H2 as [[H2 _]|[_ H2]]; [|done].
    left. rewrite H2, Hf1. eauto.
Qed.

Lemma fs_write_all_cases name b content d d' r :
  d_files d !! name = Some content -> fs_write_all name b d = (d', r) ->
  d_others d' = d_others d /\
  (r = Ok tt /\ d_files d' = <[name := content ++ b]> (d_files d) \/
   exists k, r = Err OtherIo /\ d_files d' = <[name := content ++ take k b]> (d_files d)).
Proof.
  intros Hc. unfold fs_write_all, take_fault.
  destruct (d_faults d) as [|[k|] faults]; cbn [d_files with_faults]; rewrite Hc; intros [= <- <-];
    (split; [done|]); [by left|right; by exists k|by left].
Qed.

(** * Writing a frame *)

(** The file after a failed [write_frame]: what it was, or with a part of the
    frame after it. *)
Lemma write_frame_cases path content e d d' r :
  d_files d !! path = Some content -> write_frame path (len content) e d = (d', r) ->
  d_others d' = d_others d /\
  (r = Ok tt /\ d_files d' = <[path := content ++ ef_bytes e]> (d_files d) \/
   exists k error, r = Err error /\ d_files d' = <[path := content ++ take k (ef_bytes e)]> (d_files d)).
Proof.
  intros Hc Hr. unfold write_frame in Hr.
  assert (Hid : forall m : gmap string bytes, m !! path = Some content -> m = <[path := content ++ take 0 (ef_bytes e)]> m).
  { intros m Hm. by rewrite app_nil_r, insert_id. }
  apply M_bind_cases in Hr as [(d1 & res & H1 & Hr)|(e0 & H1 & _)].
  2: { exfalso. revert H1. unfold outcome. by destruct (append_at _ _ _ _). }
  unfold outcome in H1. destruct (append_at path (len content) (ef_bytes e) d) as [d1' res'] eqn:Ha.
  injection H1 as -> <-. unfold append_at in Ha.
  apply M_bind_cases in Ha as [(d2 & [] & H2 & Ha)|(e0 & H2 & ->)].
  2: { assert (Hs := reads_map_error _ _ (reads_fs_open path) _ _ _ H2). destruct Hs as [Hf Ho].
       unfold map_error in H2. destruct (fs_open path d) as [dd [?|e1]]; injection H2 as -> H2; [done|].
       subst e0. injection Hr as <- <-. rewrite Hf, Ho. split; [done|]. right. exists 0%nat. eauto. }
  apply map_error_Ok, reads_fs_open in H2 as [Hf2 Ho2].
  apply M_bind_cases in Ha as [(d3 & n & H3 & Ha)|(e0 & H3 & ->)].
  2: { assert (Hs := reads_map_error _ _ (reads_fs_len path) _ _ _ H3). destruct Hs as [Hf Ho].
       unfold map_error in H3. destruct (fs_len path d2) as [dd [?|e1]]; injection H3 as -> H3; [done|].
       subst e0. injection Hr as <- <-. rewrite Hf, Ho, Hf2, Ho2. split; [done|]. right. exists 0%nat. eauto. }
  apply map_error_Ok in H3. pose proof H3 as H3'. apply reads_fs_len in H3 as [Hf3 Ho3].
  apply syscall_cases in H3' as (faults & [[? _]|H3']); [done|]. cbn in H3'.
  rewrite Hf2, Hc in H3'. injection H3' as _ <-. rewrite Z.eqb_refl in Ha.
  apply M_bind_cases in Ha as [(d4 & [] & [= <-] & Ha)|(e0 & [=] & _)].
  unfold map_error, fs_write_all, take_fault in Ha.
  assert (Hc3 : d_files d3 !! path = Some content) by (by rewrite Hf3, Hf2).
  destruct (d_faults d3) as [|[k|] faults3]; cbn in Ha; rewrite Hc3 in Ha; injection Ha as <- <-; cbn in Hr.
  - injection Hr as <- <-. cbn. rewrite Hf3, Ho3, Hf2, Ho2. split; [done|]. by left.
  - apply M_bind_cases in Hr as [(d4 & [] & H4 & Hr)|(e1 & H4 & ->)].
    + injection Hr as <- <-. apply map_error_Ok in H4.
      eapply (truncate_cases path content (take k (ef_bytes e))) in H4 as [Ho4 H4].
      2: { cbn. by rewrite lookup_insert_eq. }
      cbn in Ho4, H4. rewrite Ho4, Ho3, Ho2. split; [done|]. right.
      destruct H4 as [[_ [e1 ?]]|H4]; [done|]. exists 0%nat, (Io OtherIo). split; [done|].
      rewrite H4, insert_insert_eq, Hf3, Hf2. cbn [take]. by rewrite app_nil_r.
    + unfold map_error in H4. destruct (truncate_and_sync _ _ _) as [d4 [?|e2]] eqn:Et; [done|].
      injection H4 as <- <-.
      eapply (truncate_cases path content (take k (ef_bytes e))) in Et as [Ho4 H4].
      2: { cbn. by rewrite lookup_insert_eq. }
      cbn in Ho4, H4. rewrite Ho4, Ho3, Ho2. split; [done|]. right.
      destruct H4 as [[H4 _]|H4].
      * exists k, (Io e2). split; [done|]. by rewrite H4, Hf3, Hf2.
      * exists 0%nat, (Io e2). split; [done|].
        rewrite H4, insert_insert_eq, Hf3, Hf2. cbn [take]. by rewrite app_nil_r.
  - injection Hr as <- <-. cbn. rewrite Hf3, Ho3, Hf2, Ho2. split; [done|]. by left.
Qed.

(** * What a failed append leaves *)

(** Recovery of this directory yields exactly these frames. *)
Definition recoverable (fs : list Frame) (d : Disk) : Prop :=
  exists layout, concat layout = fs /\ layout_ok 0 HEAD_EMPTY layout /\ crashed layout d /\ len layout + 1 < 2 ^ 64.

Lemma dir_holds_dir files d d' : same_dir d d' -> dir_holds files d -> dir_holds files d'.
Proof. intros [Ef Eo] [? ? ? ?]. split; by rewrite ?Ef, ?Eo. Qed.

Lemma crashed_dir layout d d' : same_dir d d' -> crashed layout d -> crashed layout d'.
Proof.
  intros Hs [t ? ? ? Hd|content ? ? Hd].
  - apply (crashed_tail _ _ _ _ t); try done. by eapply dir_holds_dir.
  - apply (crashed_header _ _ _ _ content); try done. by eapply dir_holds_dir.
Qed.

Lemma recoverable_dir fs d d' : same_dir d d' -> recoverable fs d -> recoverable fs d'.
Proof. intros Hs (l & ? & ? & ? & ?). exists l. split; [done|]. split; [done|]. split; [by eapply crashed_dir|done]. Qed.

Lemma segment_files_fit i h layout name content t :
  layout_ok i h layout -> (name, content) ∈ segment_files i h layout t ->
  (forall l1 fs, layout = l1 ++ [fs] -> HEADER_BYTES + len (frames_bytes fs) + len t < 2 ^ 64) ->
  len content < 2 ^ 64.
Proof.
  revert i h. induction layout as [|fs layout IH]; intros i h Hok Hin Ht; [by apply not_elem_of_nil in Hin|].
  destruct Hok as (_ & _ & _ & Hfit & _ & Hok). cbn [JournalSpec.segment_files] in Hin.
  apply elem_of_cons in Hin as [Hin|Hin].
  - apply pair_equal_spec in Hin as [_ ->].
    rewrite length_app, Nat2Z.inj_add, length_segment_content. destruct layout; simpl is_empty; cbn iota.
    + by apply (Ht [] fs).
    + simpl. lia.
  - apply (IH _ _ Hok Hin). intros l1 fs' ->. by apply (Ht (fs :: l1)).
Qed.

(** The last file ends in the first [k] bytes of a frame that continues the
    journal. *)
Lemma crashed_prefix l1 fs f k d :
  layout_ok 0 HEAD_EMPTY (l1 ++ [fs]) -> frame_ok (last_head HEAD_EMPTY (concat (l1 ++ [fs]))) f ->
  (k < length (fr_bytes f))%nat -> HEADER_BYTES + len (frames_bytes fs) + len (fr_bytes f) < 2 ^ 64 ->
  dir_holds (segment_files 0 HEAD_EMPTY (l1 ++ [fs]) (take k (fr_bytes f))) d -> crashed (l1 ++ [fs]) d.
Proof.
  intros Hok Hf Hk Hfit Hdir. apply (crashed_tail _ _ _ _ (take k (fr_bytes f))).
  - right. exists f, (drop k (fr_bytes f)). split; [done|]. split; [|by rewrite take_drop].
    intros E. apply (f_equal length) in E. rewrite length_drop in E. simpl in E. lia.
  - by destruct l1.
  - intros name content Hin. eapply segment_files_fit; [done|done|].
    intros l fs' E. apply app_inj_tail in E as [_ <-]. rewrite length_take. lia.
  - done.
Qed.

Lemma crashed_intact layout d :
  layout_ok 0 HEAD_EMPTY layout -> dir_holds (segment_files 0 HEAD_EMPTY layout []) d -> crashed layout d.
Proof.
  intros Hok Hdir. apply (crashed_tail _ _ _ _ []); [by left|done| |done].
  intros name content Hin. eapply segment_files_fit; [done|done|].
  intros l1 fs ->. apply layout_ok_app in Hok as (_ & (_ & _ & _ & Hfit & _) & _). simpl. lia.
Qed.

Lemma recoverable_intact layout d :
  layout_ok 0 HEAD_EMPTY layout -> dir_holds (segment_files 0 HEAD_EMPTY layout []) d ->
  len layout + 1 < 2 ^ 64 -> recoverable (concat layout) d.
Proof. intros. exists layout. split; [done|]. split; [done|]. split; [by apply crashed_intact|done]. Qed.

Lemma last_tail_dir l1 fs f t d d' :
  layout_ok 0 HEAD_EMPTY (l1 ++ [fs]) -> dir_holds (segment_files 0 HEAD_EMPTY (l1 ++ [fs]) []) d ->
  d_files d' = <[segment_file_name (u64_of (len l1))
                 := segment_content (len l1) (last_head HEAD_EMPTY (concat l1)) fs ++ take t (fr_bytes f)]> (d_files d) ->
  d_others d' = d_others d ->
  dir_holds (segment_files 0 HEAD_EMPTY (l1 ++ [fs]) (take t (fr_bytes f))) d'.
Proof.
  intros Hok Hdir Hf Ho. rewrite segment_files_app in * by done.
  cbn [JournalSpec.segment_files is_empty] in *. rewrite Z.add_0_l, app_nil_r in *.
  apply layout_ok_app in Hok as (_ & (_ & _ & _ & _ & Hn & _) & _).
  eapply dir_holds_replace; [exact Hdir| |exact Hf|exact Ho]. apply next_name_fresh. lia.
Qed.

(** With [k] bytes of the frame in the last file, the directory recovers to the
    frames before it, or also to it when all of its bytes are there. *)
Lemma recoverable_partial l1 fs f k d d' :
  layout_ok 0 HEAD_EMPTY (l1 ++ [fs]) -> len (l1 ++ [fs]) + 1 < 2 ^ 64 ->
  dir_holds (segment_files 0 HEAD_EMPTY (l1 ++ [fs]) []) d ->
  frame_ok (last_head HEAD_EMPTY (concat (l1 ++ [fs]))) f ->
  HEADER_BYTES + len (frames_bytes fs) + len (fr_bytes f) < 2 ^ 64 ->
  d_files d' = <[segment_file_name (u64_of (len l1))
                 := segment_content (len l1) (last_head HEAD_EMPTY (concat l1)) fs ++ take k (fr_bytes f)]> (d_files d) ->
  d_others d' = d_others d ->
  recoverable (concat (l1 ++ [fs])) d' \/ recoverable (concat (l1 ++ [fs]) ++ [f]) d'.
Proof.
  intros Hok Hn Hdir Hf Hfit Ef Eo. destruct (decide (k < length (fr_bytes f))%nat) as [Hk|Hk].
  - left. exists (l1 ++ [fs]). split; [done|]. split; [done|]. split; [|done].
    eapply crashed_prefix; [done|exact Hf|exact Hk|done|]. by eapply last_tail_dir.
  - right. rewrite <- concat_push. apply recoverable_intact.
    + by apply push_frame_layout.
    + rewrite take_ge in Ef by lia. by apply (push_frame_dir cfg tid l1 fs f d).
    + rewrite !length_app in *. simpl in *. lia.
Qed.

(** ** Starting a segment *)

Lemma create_segment_cases j layout d j' d' r :
  journal_inv j layout d -> Forall (fun fs => fs <> []) layout ->
  rev (head_revision (tj_head j)) + 1 < 2 ^ 64 -> len layout + 2 < 2 ^ 64 ->
  create_segment (j, d) = ((j', d'), r) ->
  (r = Ok tt /\ j' = set_segments (tj_segments j ++ [segment_info (len layout) (tj_head j) []]) j /\
   journal_inv j' (layout ++ [[]]) d') \/
  (exists e, r = Err e /\ j' = j /\ recoverable (concat layout) d').
Proof.
  intros Hj Hne Hrev Hn Hr. pose proof (rev_bounds (head_revision (tj_head j))) as Hb.
  pose proof (ji_dir _ _ _ _ _ Hj) as Hdir. pose proof (ji_layout _ _ _ _ _ Hj) as Hok.
  destruct (next_name_free tid layout d Hdir) as (Hni & Hnofile & Hnoother); [lia|].
  assert (Hsame : forall d1, same_dir d d1 -> recoverable (concat layout) d1).
  { intros d1 Hs. apply recoverable_intact; [done|by eapply dir_holds_dir|lia]. }
  unfold create_segment in Hr. do 3 erewrite M_bind_run in Hr by reflexivity. cbn [fst] in Hr.
  rewrite (ji_segments _ _ _ _ _ Hj), segment_infos_length in Hr.
  assert (Hchk : checked 0 (2 ^ 64) (len layout) = Some (u64_of (len layout)))
    by (apply checked_Some; rewrite val_u64_of_small; lia).
  erewrite M_bind_run in Hr by (unfold of_option, of_result; rewrite Hchk; reflexivity).
  erewrite M_bind_run in Hr.
  2: { unfold of_option, of_result.
       rewrite (proj2 (checked_next_Some _ (revision_of (rev (head_revision (tj_head j)) + 1))))
         by (apply rev_of_small; lia). reflexivity. }
  rewrite (ji_thread _ _ _ _ _ Hj) in Hr.
  fold (next_name layout) (next_header tid (tj_head j) layout) in Hr.
  set (name := next_name layout) in *. set (header := next_header tid (tj_head j) layout) in *.
  apply M_bind_cases in Hr as [((j1 & d1) & [] & H1 & Hr)|(e & H1 & ->)].
  2: { right. unfold on_disk in H1. destruct (map_error Io (fs_create_new name) d) as [d1 r1] eqn:E1.
       injection H1 as -> -> ->. exists e. split; [done|]. split; [done|]. apply Hsame.
       unfold map_error in E1. destruct (fs_create_new name d) as [d2 r2] eqn:E2. injection E1 as <- E1.
       destruct r2; [done|]. apply syscall_cases in E2 as (faults & [[_ ->]|E2]); [done|].
       revert E2. cbn. case_match; [by intros [= <- _]|done]. }
  unfold on_disk in H1. destruct (map_error Io (fs_create_new name) d) as [d1' r1] eqn:E1.
  injection H1 as -> -> ->. apply map_error_Ok in E1.
  assert (E1f : d_files d1 = <[name := []]> (d_files d) /\ d_others d1 = d_others d).
  { apply syscall_cases in E1 as (faults & [[? _]|E1]); [done|]. revert E1. cbn.
    case_match; [done|]. by intros [= <-]. }
  destruct E1f as [Ef1 Eo1].
  apply M_bind_cases in Hr as [((j2 & d2) & res & H2 & Hr)|(e & H2 & _)].
  2: { exfalso. revert H2. unfold outcome. by destruct (on_disk _ _). }
  unfold outcome, on_disk in H2.
  destruct (map_error Io (fs_write_all name header) d1) as [d2' r2] eqn:E2. injection H2 as <- <- <-.
  unfold map_error in E2. destruct (fs_write_all name header d1) as [d2'' r2'] eqn:E2'. injection E2 as -> <-.
  assert (Hl1 : d_files d1 !! name = Some []) by (rewrite Ef1; apply lookup_insert_eq).
  destruct (fs_write_all_cases _ _ _ _ _ _ Hl1 E2') as [Eo2 Hres].
  rewrite Ef1 in Hres. rewrite Eo1 in Eo2.
  assert (Hwrote : exists k, d_files d2' = <[name := take k header]> (d_files d) /\
            (map_err Io r2' = Ok tt /\ take k header = header \/ exists e, map_err Io r2' = Err e)).
  { destruct Hres as [[-> Ef]|(k & -> & Ef)]; rewrite insert_insert_eq in Ef.
    - exists (length header). rewrite take_ge by done. split; [done|]. by left.
    - exists k. split; [done|]. right. by eexists. }
  clear Hres. destruct Hwrote as (k & Ef2 & Hres). destruct Hres as [[Er Ek]|[e Er]]; rewrite Er in Hr.
  - left. unfold update, modify in Hr. injection Hr as <- <- <-. split; [done|].
    assert (Ej : set_segments (segment_infos 0 HEAD_EMPTY layout ++
        [{| sg_sequence := u64_of (len layout);
            sg_first_revision := revision_of (rev (head_revision (tj_head j1)) + 1);
            sg_last_revision := head_revision (tj_head j1); sg_path := name;
            sg_bytes := u64_of (Z.of_nat SEGMENT_HEADER_LEN) |}]) j1
      = set_segments (tj_segments j1 ++ [segment_info (len layout) (tj_head j1) []]) j1).
    { by rewrite (ji_segments _ _ _ _ _ Hj). }
    rewrite Ej. split; [done|]. rewrite Ek in Ef2.
    apply (create_segment_inv cfg tid j1 layout d); [done|done|done|lia|done|done].
  - right. exists e. apply M_bind_cases in Hr as [((j3 & d3) & [] & H3 & Hr)|(e' & H3 & _)].
    2: { exfalso. revert H3. unfold ignore. by destruct (on_disk _ _). }
    injection Hr as <- <- <-. split; [done|].
    unfold ignore, on_disk in H3. destruct (map_error Io (fs_remove_file name) d2') as [d3' r3] eqn:E3.
    injection H3 as -> ->. split; [done|].
    assert (Hd3 : d_others d3 = d_others d /\ (d_files d3 = d_files d \/ d_files d3 = d_files d2')).
    { unfold map_error in E3. destruct (fs_remove_file name d2') as [d4 r4] eqn:E4. injection E3 as -> _.
      apply syscall_cases in E4 as (faults & [[_ ->]|E4]); [split; [done|by right]|].
      cbn in E4. rewrite Ef2, lookup_insert_eq in E4. injection E4 as <- _. cbn. split; [done|]. left.
      by rewrite delete_insert_eq, delete_id. }
    destruct Hd3 as [Eo3 [Ef3|Ef3]]; [by apply Hsame|]. rewrite Ef2 in Ef3.
    destruct (decide (k < length header)%nat) as [Hk|Hk].
    + exists layout. split; [done|]. split; [done|]. split; [|lia].
      apply (crashed_header _ _ _ _ (take k header)).
      * rewrite length_take, header_bytes. unfold header, next_header in *.
        rewrite length_encode_segment_header in *. unfold SEGMENT_HEADER_LEN in *. lia.
      * done.
      * by apply (dir_holds_add _ _ _ d _ (u64_of (len layout))).
    + rewrite take_ge in Ef3 by lia. 
      assert (Hinv := create_segment_inv cfg tid _ layout d d3 Hj Hne Hrev ltac:(lia) Ef3 Eo3).
      replace (concat layout) with (concat (layout ++ [[]])) by (rewrite concat_app; apply app_nil_r).
      apply recoverable_intact; [apply (ji_layout _ _ _ _ _ Hinv)|apply (ji_dir _ _ _ _ _ Hinv)|].
      rewrite length_app. simpl. lia.
Qed.

Lemma select_segment_cases n j layout d j' d' r :
  journal_inv j layout d -> 0 < n -> HEADER_BYTES + n < 2 ^ 64 ->
  rev (head_revision (tj_head j)) + 1 < 2 ^ 64 -> len layout + 2 < 2 ^ 64 ->
  select_segment n (j, d) = ((j', d'), r) ->
  (exists l1 fs, r = Ok (length l1) /\ journal_inv j' (l1 ++ [fs]) d' /\ concat (l1 ++ [fs]) = concat layout
     /\ HEADER_BYTES + len (frames_bytes fs) + n < 2 ^ 64 /\ len (l1 ++ [fs]) <= len layout + 1
     /\ tj_head j' = tj_head j) \/
  (exists e, r = Err e /\ j' = j /\ recoverable (concat layout) d').
Proof.
  intros Hj Hn Hfit Hrev Hlen Hr. unfold select_segment in Hr.
  destruct (checked_in 0 (2 ^ 64) n) as (n64 & Hn64 & _); [unfold HEADER_BYTES in Hfit; lia|].
  erewrite M_bind_run in Hr by (unfold of_option, of_result; rewrite Hn64; reflexivity).
  erewrite M_bind_run in Hr by reflexivity. cbn [fst] in Hr.
  destruct (must_rotate (tj_config j) (tj_segments j) n) eqn:Erot.
  - pose proof (rotate_nonempty _ _ _ _ _ _ Hj Erot) as Hne.
    apply M_bind_cases in Hr as [((j1 & d1) & [] & H1 & Hr)|(e & H1 & ->)];
      apply (create_segment_cases _ layout) in H1; try done.
    + left. destruct H1 as [(_ & -> & Hinv)|(e & [=] & _)]. injection Hr as <- <- <-.
      exists layout, []. cbn [fst set_segments tj_segments tj_head].
      rewrite (ji_segments _ _ _ _ _ Hj), length_app, segment_infos_length.
      split; [f_equal; simpl; lia|]. rewrite <- (ji_segments _ _ _ _ _ Hj). split; [exact Hinv|].
      rewrite concat_app, length_app. simpl. rewrite app_nil_r. unfold frames_bytes. simpl.
      split; [done|]. split; [lia|]. split; [lia|done].
    + right. destruct H1 as [([=] & _)|(e' & [= <-] & -> & Hrec)]. eauto.
  - destruct (no_rotate_room _ _ j layout d n Hj Hn Hfit Erot) as (l1 & fs & -> & Hroom & _).
    left. exists l1, fs. erewrite M_bind_run in Hr by reflexivity. injection Hr as <- <- <-. cbn [fst].
    rewrite (ji_segments _ _ _ _ _ Hj), segment_infos_length, length_app.
    split; [f_equal; simpl; lia|]. split; [exact Hj|]. split; [done|]. split; [done|]. split; [lia|done].
Qed.

Lemma settle_cases durability path sequence pre t j d j' d' r :
  d_files d !! path = Some (pre ++ t) -> settle durability path sequence (len pre) (j, d) = ((j', d'), r) ->
  tj_head j' = tj_head j /\ d_others d' = d_others d /\
  (d_files d' = d_files d \/ (exists e, r = Err e) /\ d_files d' = <[path := pre]> (d_files d)).
Proof.
  intros Hc Hr. unfold settle in Hr. destruct durability.
  - do 2 erewrite M_bind_run in Hr by reflexivity. cbn [fst] in Hr.
    apply M_bind_cases in Hr as [((j1 & d1) & n & H1 & Hr)|(e & H1 & ->)].
    + injection H1 as <- <- _. injection Hr as <- <- _. cbn. split; [done|]. split; [done|]. by left.
    + injection H1 as <- <- _. split; [done|]. split; [done|]. by left.
  - erewrite M_bind_run in Hr by reflexivity. cbn [fst] in Hr.
    apply M_bind_cases in Hr as [((j1 & d1) & res & H1 & Hr)|(e & H1 & _)].
    2: { exfalso. revert H1. unfold outcome. by destruct (on_disk _ _). }
    unfold outcome, on_disk in H1. destruct (sync_pending_segments (Some sequence) j d) as [d1' r1] eqn:Es.
    injection H1 as <- <- <-. apply reads_sync_pending in Es as [Ef Eo].
    destruct r1 as [u|error].
    + injection Hr as <- <- _. cbn. split; [done|]. split; [done|]. by left.
    + unfold on_disk, rollback_frame in Hr.
      apply M_bind_cases in Hr as [((j2 & d2) & [] & H2 & Hr)|(e & H2 & ->)].
      * destruct (map_error Io (truncate_and_sync path (len pre)) d1') as [d2' r2] eqn:Et.
        injection H2 as <- <- ->. injection Hr as <- <- <-. apply map_error_Ok in Et.
        apply (truncate_cases path pre t) in Et as [Eo2 Ef2]; [|by rewrite Ef].
        split; [done|]. split; [congruence|]. rewrite Ef in Ef2.
        destruct Ef2 as [[Ef2 _]|Ef2]; [by left|right]. split; [by eexists|done].
      * unfold map_error in H2. destruct (truncate_and_sync path (len pre) d1') as [d2' r2] eqn:Et.
        injection H2 as <- <- _. 
        apply (truncate_cases path pre t) in Et as [Eo2 Ef2]; [|by rewrite Ef].
        split; [done|]. split; [congruence|]. rewrite Ef in Ef2.
        destruct Ef2 as [[Ef2 _]|Ef2]; [by left|right]. split; [by eexists|done].
Qed.

Lemma commit_keeps_disk command_id e h' segment_index before j d j' d' r :
  commit command_id e h' segment_index before (j, d) = ((j', d'), r) -> d' = d.
Proof.
  intros Hr. unfold commit in Hr.
  apply M_bind_cases in Hr as [((j1 & d1) & n & [= <- <- _] & Hr)|(e0 & [= _ <- _] & _)]; [|done].
  apply M_bind_cases in Hr as [((j1 & d1) & n1 & [= <- <- _] & Hr)|(e0 & [= _ <- _] & _)]; [|done].
  do 3 erewrite M_bind_run in Hr by reflexivity. 
  apply M_bind_cases in Hr as [((j1 & d1) & [rc evs] & [= <- <- _] & Hr)|(e0 & [= _ <- _] & _)]; [|done].
  by injection Hr as _ <- _.
Qed.

(** The bound that keeps a segment of one frame below [2 ^ 64] bytes. *)
Definition frame_room : Prop := HEADER_BYTES + val (jc_max_frame_payload_bytes cfg) + 236 < 2 ^ 64.

(** The frame [f] holds the batch and continues the head [h]. *)
Definition batch_frame (batch : JournalBatch) (h : ThreadHead) (f : Frame) : Prop :=
  frame_ok h f /\ frame_id f = jb_command_id batch /\ frame_events f = jb_events batch /\
  sb_command_digest (fr_stored f) = jb_command_digest batch.

(** The directory recovers to the frames of the layout, or to those and a
    frame of the new batch. *)
Definition append_left (batch : JournalBatch) (j : ThreadJournal) (layout : Layout) (d : Disk) : Prop :=
  recoverable (concat layout) d \/
  exists f, (jb_command_id batch ∉ map frame_id (concat layout)) /\ batch_frame batch (tj_head j) f /\
    recoverable (concat layout ++ [f]) d.

Lemma append_new_recoverable batch durability j layout d j' d' r :
  journal_inv j layout d -> frame_room -> len layout + 3 < 2 ^ 64 ->
  jb_command_id batch ∉ map frame_id (concat layout) ->
  append_new batch durability (j, d) = ((j', d'), r) -> append_left batch j layout d'.
Proof.
  intros Hj Hroom Hlen Hni Hr. pose proof (ji_layout _ _ _ _ _ Hj) as Hok. pose proof (ji_dir _ _ _ _ _ Hj) as Hdir.
  assert (Hsame : recoverable (concat layout) d) by (apply recoverable_intact; [done|done|lia]).
  unfold append_new in Hr. erewrite M_bind_run in Hr by reflexivity. cbn [fst] in Hr.
  apply M_bind_cases in Hr as [((j2 & d2) & [] & [= <- <- _] & Hr)|(e & [= _ <- _] & _)]; [|by left].
  apply M_bind_cases in Hr as [((j2 & d2) & [] & [= <- <- _] & Hr)|(e & [= _ <- _] & _)]; [|by left].
  apply M_bind_cases in Hr as [((j2 & d2) & e & [= <- <- He] & Hr)|(e & [= _ <- _] & _)]; [|by left].
  apply M_bind_cases in Hr as [((j2 & d2) & h' & [= <- <- Hv] & Hr)|(e' & [= _ <- _] & _)]; [|by left].
  apply map_err_Ok in He. apply map_err_Ok in Hv.
  rewrite (ji_config _ _ _ _ _ Hj) in He. rewrite (ji_thread _ _ _ _ _ Hj) in Hv.
  destruct (encoded_frame_ok _ _ _ _ _ _ _ He Hv) as (Hf & Hhead & Hid & Hevents & Hdigest & _).
  set (f := frame_of e) in *.
  destruct (frame_ok_bytes _ _ _ _ Hf) as (_ & _ & Hb & _). pose proof frame_lengths as [Hfh Hft].
  pose proof (frame_bytes_length _ _ _ _ He) as Hpl. pose proof (fo_payload _ _ _ _ Hf) as Hmax.
  cbn [fr_bytes fr_header f frame_of] in Hb, Hmax. unfold frame_room in Hroom.
  assert (Hrev : rev (head_revision (tj_head j)) + 1 < 2 ^ 64).
  { destruct (frame_ok_end _ _ _ _ Hf) as (_ & _ & Hs).
    pose proof (rev_bounds (fh_start_revision (fr_header f))). lia. }
  apply M_bind_cases in Hr as [((j2 & d2) & idx & Hsel & Hr)|(e' & Hsel & ->)];
    apply (select_segment_cases _ _ layout) in Hsel; try done; try lia.
  2: { left. destruct Hsel as [(? & ? & [=] & _)|(? & _ & _ & Hrec)]. done. }
  destruct Hsel as [(l1 & fs & [= ->] & Hj2 & Hcat & Hfit & Hll & Ehead)|(? & [=] & _)].
  erewrite M_bind_run in Hr by reflexivity. cbn [fst] in Hr.
  set (h1 := last_head HEAD_EMPTY (concat l1)).
  set (info := segment_info (len l1) h1 fs).
  assert (Hinfo : tj_segments j2 !! length l1 = Some info).
  { rewrite (ji_segments _ _ _ _ _ Hj2), segment_infos_app. cbn [segment_infos].
    rewrite list_lookup_middle by (by rewrite segment_infos_length). by rewrite Z.add_0_l. }
  rewrite Hinfo in Hr. erewrite M_bind_run in Hr by reflexivity.
  pose proof (ji_layout _ _ _ _ _ Hj2) as Hok2. pose proof (ji_dir _ _ _ _ _ Hj2) as Hdir2.
  pose proof (last_segment_file _ _ _ _ Hdir2) as Hfile. fold h1 in Hfile.
  assert (Hbefore : val (sg_bytes info) = len (segment_content (len l1) h1 fs)).
  { rewrite length_segment_content. apply val_u64_of_small. unfold HEADER_BYTES in *. lia. }
  rewrite Hbefore in Hr.
  set (name := segment_file_name (u64_of (len l1))) in *. change (sg_path info) with name in Hr.
  assert (Hf2 : frame_ok (last_head HEAD_EMPTY (concat (l1 ++ [fs]))) f).
  { rewrite Hcat, <- (ji_head _ _ _ _ _ Hj). done. }
  assert (Hdone : forall k d3, d_files d3 = <[name := segment_content (len l1) h1 fs ++ take k (ef_bytes e)]> (d_files d2) ->
            d_others d3 = d_others d2 ->
            append_left batch j layout d3).
  { intros k d3 Ef Eo. unfold append_left. rewrite <- Hcat.
    destruct (recoverable_partial l1 fs f k d2 d3) as [Hrec|Hrec]; try done; try lia; [by left|right].
    exists f. split; [by rewrite Hcat|]. by split. }
  apply M_bind_cases in Hr as [((j3 & d3) & [] & Hw & Hr)|(e' & Hw & ->)];
    (unfold on_disk in Hw; destruct (write_frame _ _ _ _) as [d3' r3] eqn:E3; injection Hw as <- <- ->).
  2: { destruct (write_frame_cases _ _ _ _ _ _ Hfile E3) as [Eo [[[=] _]|(k & err & _ & Ef)]]. by apply (Hdone k). }
  destruct (write_frame_cases _ _ _ _ _ _ Hfile E3) as [Eo3 [[_ Ef3]|(k & err & [=] & _)]].
  assert (Hfile3 : d_files d3' !! name = Some (segment_content (len l1) h1 fs ++ ef_bytes e))
    by (rewrite Ef3; apply lookup_insert_eq).
  assert (Hsettled : forall j4 d4 r4, settle durability name (sg_sequence info) (len (segment_content (len l1) h1 fs))
              (j2, d3') = ((j4, d4), r4) ->
            append_left batch j layout d4).
  { intros j4 d4 r4 Hs. apply (settle_cases _ _ _ _ _ _ _ _ _ _ Hfile3) in Hs as (_ & Eo4 & [Ef4|[_ Ef4]]).
    - apply (Hdone (length (ef_bytes e))); [|congruence]. by rewrite Ef4, Ef3, take_ge.
    - apply (Hdone 0%nat); [|congruence]. cbn [take]. by rewrite Ef4, Ef3, insert_insert_eq, app_nil_r. }
  apply M_bind_cases in Hr as [((j4 & d4) & [] & Hs & Hr)|(e' & Hs & ->)]; [|by eapply Hsettled].
  apply commit_keeps_disk in Hr. subst d'. by eapply Hsettled.
Qed.



Lemma faultless_visit_pointers {A} (visit : FramePointer -> byte_array 16 -> Z -> A -> M Disk JournalError (A * bool))
    fuel info offset acc :
  (forall p id position acc, faultless (visit p id position acc)) ->
  faultless (visit_pointers visit fuel info offset acc).
Proof.
  intros Hv. revert offset acc. induction fuel as [|fuel IH]; intros offset acc; cbn [visit_pointers].
  - case_bool_decide; simpl; eauto with faultless.
  - destruct (negb _); [case_bool_decide; simpl; eauto with faultless|].
    repeat (apply faultless_bind; [eauto with faultless|intros]).
    destruct a5 as [acc' [|]]; eauto with faultless.
Qed.

(** The search for a committed command depends on the answers only by failing. *)
Lemma faultless_find_command_frame id j : faultless (find_command_frame id j).
Proof.
  unfold find_command_frame. destruct (negb _); [eauto with faultless|].
  destruct (recent_frame _ id); [eauto with faultless|].
  induction (tj_segments j) as [|info infos IH]; cbn [find_command_pointer]; [eauto with faultless|].
  apply faultless_bind.
  - unfold visit_segment_pointers. apply faultless_bind; [eauto with faultless|]. intros _.
    apply faultless_visit_pointers. intros. unfold match_command. case_bool_decide; eauto with faultless.
  - intros [[p|] b]; eauto with faultless.
Qed.

Lemma journal_inv_dir j layout d d' : same_dir d d' -> journal_inv j layout d -> journal_inv j layout d'.
Proof. intros Hs []. split; try done. by eapply dir_holds_dir. Qed.

(** A search that finds nothing says that nothing is there. *)
Lemma find_command_none id j layout d d' :
  journal_inv j layout d -> find_command_frame id j d = (d', Ok None) -> id ∉ map frame_id (concat layout).
Proof.
  intros Hj Hr. apply faultless_find_command_frame in Hr.
  rewrite (find_command_frame_run cfg tid id j layout (quiet d)) in Hr; [|done|by apply (journal_inv_dir _ _ d)].
  injection Hr as Hr. rewrite <- layout_pointers_ids. by apply lookup_pointer_None.
Qed.

(** After [append], whatever its result and whichever calls failed, the
    directory recovers to the frames committed before, or to those and a frame
    of the batch. *)
Lemma append_recoverable batch durability j layout d j' d' r :
  journal_inv j layout d -> frame_room -> len layout + 3 < 2 ^ 64 ->
  append batch durability (j, d) = ((j', d'), r) -> append_left batch j layout d'.
Proof.
  intros Hj Hroom Hlen Hr. pose proof (ji_layout _ _ _ _ _ Hj) as Hok. pose proof (ji_dir _ _ _ _ _ Hj) as Hdir.
  assert (Hsame : forall d1, same_dir d d1 -> recoverable (concat layout) d1).
  { intros d1 Hs. apply recoverable_intact; [done|by eapply dir_holds_dir|lia]. }
  unfold append in Hr. erewrite M_bind_run in Hr by reflexivity. cbn [fst] in Hr.
  apply M_bind_cases in Hr as [((j1 & d1) & found & H1 & Hr)|(e & H1 & ->)].
  2: { left. unfold on_disk in H1. destruct (find_command_frame _ j d) as [d1 r1] eqn:E1.
       injection H1 as _ <- _. by apply Hsame, (reads_find_command_frame _ _ _ _ _ E1). }
  unfold on_disk in H1. destruct (find_command_frame _ j d) as [d1' r1] eqn:E1. injection H1 as <- <- ->.
  pose proof (reads_find_command_frame _ _ _ _ _ E1) as Hs1.
  destruct found as [frame|].
  { left. apply M_bind_cases in Hr as [((j2 & d2) & [dg rc] & H2 & Hr)|(e & H2 & ->)].
    - unfold on_disk in H2. destruct (read_committed_command frame j d1') as [d2' r2] eqn:E2.
      injection H2 as <- <- ->. apply reads_read_committed_command in E2. apply Hsame.
      revert Hr. case_bool_decide; intros [= _ <- _]; by apply (same_dir_trans d d1').
    - unfold on_disk in H2. destruct (read_committed_command frame j d1') as [d2' r2] eqn:E2.
      injection H2 as _ <- _. apply reads_read_committed_command in E2. apply Hsame. by apply (same_dir_trans d d1'). }
  assert (Hj1 : journal_inv j layout d1') by (by apply (journal_inv_dir j layout d)).
  apply (append_new_recoverable batch durability j layout d1' j' d' r); try done.
  by apply (find_command_none _ j _ d d1').
Qed.

End CrashFacts.
