(* ===== verification/SoundFacts.v ===== *)
(** What a writer's recovery accepts, whatever the directory held and whichever
    calls failed, is a journal: chained segments of valid frames with distinct
    commands, and the state it returns is the state of that journal. *)

From stdpp Require Import sorting.
From S2P Require Import Prelude Canonical Events Commands Receipts Format FormatFacts.
From S2P Require Import CommandIndex Disk Model Recovery JournalSpec RecoveryFacts Journal JournalFacts AppendFacts CrashFacts.

Open Scope string_scope.
Open Scope list_scope.
Open Scope Z_scope.

Section SoundFacts.
Context `{External, JsonCodec} (cfg : JournalConfig) (tid : ThreadId).
Context {St : Type} (visit : St -> ThreadEventEnvelope -> St).

Abbreviation frame_ok := (frame_ok cfg tid).
Abbreviation frames_ok := (frames_ok cfg tid).
Abbreviation layout_ok := (layout_ok cfg tid).
Abbreviation segment_content := (segment_content tid).
Abbreviation segment_files := (segment_files tid).
Abbreviation Recovering := (Recovering (St := St)).

Lemma fs_read_exact_Ok name offset n content d d' b :
  d_files d !! name = Some content -> fs_read_exact name offset n d = (d', Ok b) ->
  offset + n <= len content /\ b = slice (Z.to_nat offset) (Z.to_nat n) content /\ same_dir d d'.
Proof.
  intros Hc Hr. pose proof (reads_fs_read_exact _ _ _ _ _ _ Hr) as Hs.
  apply syscall_cases in Hr as (faults & [[? _]|Hr]); [done|]. cbn in Hr. rewrite Hc in Hr.
  destruct (offset + n <=? len content) eqn:E; [|done]. apply Z.leb_le in E. injection Hr as _ <-. done.
Qed.

Lemma fs_len_Ok name content d d' n :
  d_files d !! name = Some content -> fs_len name d = (d', Ok n) -> n = len content /\ same_dir d d'.
Proof.
  intros Hc Hr. pose proof (reads_fs_len _ _ _ _ Hr) as Hs.
  apply syscall_cases in Hr as (faults & [[? _]|Hr]); [done|]. cbn in Hr. rewrite Hc in Hr.
  by injection Hr as _ <-.
Qed.

Lemma fs_remove_file_Ok name content d d' u :
  d_files d !! name = Some content -> fs_remove_file name d = (d', Ok u) ->
  d_files d' = delete name (d_files d) /\ d_others d' = d_others d.
Proof.
  intros Hc Hr. apply syscall_cases in Hr as (faults & [[? _]|Hr]); [done|].
  cbn [d_files with_faults] in Hr. rewrite Hc in Hr. by injection Hr as <-.
Qed.

(** One accepted frame. *)
Lemma recover_frame_sound path (offset length : u64) b (g g' : Recovering) :
  recover_frame visit tid path Writer offset length b g = Ok g' ->
  (exists header, decode_frame_header (slice 0 FRAME_HEADER_LEN b) = Ok header
     /\ val (fh_payload_len header) <= val (jc_max_frame_payload_bytes cfg)) ->
  length = u64_of (len b) ->
  exists f, fr_bytes f = b /\ frame_ok (rs_head (rg_state g)) f /\ (frame_id f ∉ rg_commands g)
    /\ g' = replay_frame visit Writer (val offset) f g.
Proof.
  unfold recover_frame. intros Hr (header & Hh & Hmax) ->. cbn [is_writer andb] in Hr. inv_ok.
  apply validate_stored_batch_iff in Hr1 as [Hc ->].
  destruct (decode_complete_frame_Ok _ _ Hr0) as (Hh' & _). rewrite Hh in Hh'. injection Hh' as ->.
  apply negb_true_iff, bool_decide_eq_false in Hr2.
  exists {| fr_bytes := b; fr_header := df_header a; fr_stored := df_stored a |}.
  split; [done|]. split; [split; [by destruct a|done|done]|]. split; [done|].
  unfold replay_frame, pointer_of. cbn [fr_bytes fr_header fr_stored is_writer].
  rewrite (ct_previous _ _ _ _ Hc), u64_of_val. done.
Qed.

(** The directory after the tail of [path] was handled. *)
Definition tail_dir (path : string) (pre t : bytes) (d d' : Disk) : Prop :=
  d_others d' = d_others d /\
  d_files d' = (if is_empty t then d_files d else <[path := pre]> (d_files d)).

Lemma tail_dir_same path pre t d d1 d2 : same_dir d d1 -> tail_dir path pre t d1 d2 -> tail_dir path pre t d d2.
Proof. intros [Ef Eo] [H1 H2]. unfold tail_dir. by rewrite H1, H2, Ef, Eo. Qed.

Lemma handle_tail_sound path pre t is_last d d' u :
  d_files d !! path = Some (pre ++ t) -> t <> [] ->
  handle_incomplete_tail path (len pre) is_last Writer d = (d', Ok u) ->
  is_last = true /\ tail_dir path pre t d d'.
Proof.
  intros Hc Ht Hr. unfold handle_incomplete_tail in Hr. cbn [is_writer] in Hr.
  apply M_bind_Ok in Hr as (d1 & [] & Hg & Hr). apply of_result_Ok in Hg as [-> Hg]. apply ensure_Ok in Hg.
  split; [done|]. apply M_bind_Ok in Hr as (d2 & [] & Hs & Hr).
  apply map_error_Ok in Hs, Hr. apply reads_fs_sync_all in Hr as [Ef Eo].
  apply (fs_set_len_cases _ _ _ _ _ _ Hc) in Hs as [Eo2 [[_ [e [=]]]|[Ef2 _]]].
  unfold tail_dir. rewrite Ef, Eo, Ef2, Eo2. destruct t; done.
Qed.

Lemma fresh_nil mode (g : Recovering) : fresh_commands mode [] g.
Proof. intros _. split; [apply NoDup_nil_2|]. by intros ? ?%not_elem_of_nil. Qed.

Lemma recover_frames_sound fuel path is_last pre rest (offset : u64) (g : Recovering) d d' g' flen offset' :
  d_files d !! path = Some (pre ++ rest) -> val offset = len pre -> len (pre ++ rest) < 2 ^ 64 ->
  (length rest <= fuel)%nat ->
  recover_frames visit fuel cfg tid path is_last Writer (len (pre ++ rest)) offset g d = (d', Ok (g', flen, offset')) ->
  exists fs t, rest = frames_bytes fs ++ t /\ frames_ok (rs_head (rg_state g)) fs /\
    fresh_commands Writer fs g /\ g' = replay_frames visit Writer (val offset) fs g /\
    flen = len (pre ++ frames_bytes fs) /\ val offset' = flen /\
    tail_dir path (pre ++ frames_bytes fs) t d d' /\ (t <> [] -> is_last = true).
Proof.
  revert fuel pre rest offset g d. induction fuel as [|fuel IH]; intros pre rest offset g d Hc Hoff Hfit Hfuel Hr.
  { assert (rest = []) as -> by (destruct rest; [done|simpl in Hfuel; lia]).
    injection Hr as <- <- <- <-. exists [], []. rewrite !app_nil_r. split; [done|]. split; [done|]. split; [apply fresh_nil|]. done. }
  cbn [recover_frames] in Hr. rewrite Hoff in Hr.
  destruct (len pre <? len (pre ++ rest)) eqn:Elt; cbn [negb] in Hr.
  2: { apply Z.ltb_ge in Elt. rewrite length_app in Elt.
       assert (rest = []) as -> by (destruct rest; [done|simpl in Elt; lia]).
       injection Hr as <- <- <- <-. exists [], []. rewrite !app_nil_r. split; [done|]. split; [done|]. split; [apply fresh_nil|]. done. }
  apply Z.ltb_lt in Elt. rewrite length_app in Elt.
  assert (Hne : rest <> []) by (intros ->; simpl in Elt; lia). rewrite Hoff.
  assert (Htail : forall d1, same_dir d d1 ->
    (handle_incomplete_tail path (len pre) is_last Writer ≫= λ _ : (), mret (g, len pre, offset)) d1
      = (d', Ok (g', flen, offset')) ->
    exists fs t, rest = frames_bytes fs ++ t /\ frames_ok (rs_head (rg_state g)) fs /\
      fresh_commands Writer fs g /\ g' = replay_frames visit Writer (len pre) fs g /\
      flen = len (pre ++ frames_bytes fs) /\ val offset' = flen /\
      tail_dir path (pre ++ frames_bytes fs) t d d' /\ (t <> [] -> is_last = true)).
  { intros d1 Hs Ht. apply M_bind_Ok in Ht as (d2 & u & Ht & [= <- <- <- <-]).
    apply (handle_tail_sound _ _ rest) in Ht as [Hl Ht]; [|by destruct Hs as [-> _]|done].
    exists [], rest. unfold frames_bytes. cbn [map concat app]. rewrite app_nil_r.
    split; [done|]. split; [done|]. split; [apply fresh_nil|]. split; [done|]. split; [done|]. split; [done|].
    split; [by apply (tail_dir_same _ _ _ _ _ _ Hs)|done]. }
  rewrite length_app in Hr. replace (Z.of_nat (length pre + length rest) - len pre) with (len rest) in Hr by lia.
  destruct (len rest <? Z.of_nat FRAME_HEADER_LEN) eqn:Eshort; [by apply (Htail d)|].
  apply Z.ltb_ge in Eshort. pose proof frame_lengths as [Hfh Hft].
  apply M_bind_Ok in Hr as (d1 & hb & Hread & Hr). apply map_error_Ok in Hread.
  apply (fs_read_exact_Ok _ _ _ _ _ _ _ Hc) in Hread as (_ & Ehb & Hs1).
  apply M_bind_Ok in Hr as (d1' & header & Hh & Hr). apply of_result_Ok in Hh as [-> Hh]. apply map_err_Ok in Hh.
  apply M_bind_Ok in Hr as (d1' & [] & Hg & Hr). apply of_result_Ok in Hg as [-> Hg].
  apply ensure_Ok, negb_true_iff, Z.ltb_ge in Hg.
  apply M_bind_Ok in Hr as (d1' & length & Hl & Hr). apply of_result_Ok in Hl as [-> Hl]. apply map_err_Ok in Hl.
  destruct (len rest <? val length) eqn:Elong; [by apply (Htail d1)|]. apply Z.ltb_ge in Elong.
  apply M_bind_Ok in Hr as (d2 & rb & Hread & Hr). apply map_error_Ok in Hread.
  assert (Hc1 : d_files d1 !! path = Some (pre ++ rest)) by (by destruct Hs1 as [-> _]).
  apply (fs_read_exact_Ok _ _ _ _ _ _ _ Hc1) in Hread as (_ & Erb & Hs2).
  assert (Hlen : Z.of_nat FRAME_HEADER_LEN <= val length).
  { unfold frame_len, u64_checked_add in Hl. apply ok_or_Ok, checked_Some in Hl.
    pose proof (val_bounds (fh_payload_len header)). lia. }
  set (fb := take (Z.to_nat (val length)) rest).
  assert (Efb : hb ++ rb = fb).
  { rewrite Ehb, Erb. unfold slice, fb. rewrite Nat2Z.id, drop_app_length' by lia.
    rewrite drop_app_ge by lia.
    replace (Z.to_nat (len pre + Z.of_nat FRAME_HEADER_LEN) - List.length pre)%nat with FRAME_HEADER_LEN by lia.
    rewrite take_drop_commute.
    replace (FRAME_HEADER_LEN + Z.to_nat (val length - Z.of_nat FRAME_HEADER_LEN))%nat
      with (Z.to_nat (val length)) by lia.
    rewrite <- (take_drop FRAME_HEADER_LEN (take (Z.to_nat (val length)) rest)) at 2.
    by rewrite take_take, Nat.min_l by lia. }
  rewrite Efb in Hr.
  apply M_bind_Ok in Hr as (d2' & g1 & Hg1 & Hr). apply of_result_Ok in Hg1 as [-> Hg1].
  assert (Lfb : len fb = val length) by (unfold fb; rewrite length_take; lia).
  assert (Ehb' : slice 0 FRAME_HEADER_LEN fb = hb).
  { rewrite <- Efb. apply slice_hit. rewrite Ehb. rewrite length_slice; rewrite ?length_app; lia. }
  apply recover_frame_sound in Hg1 as (f & Ef & Hf & Hid & ->).
  2: { exists header. by rewrite Ehb'. }
  2: { by rewrite Lfb, u64_of_val. }
  apply M_bind_Ok in Hr as (d2' & next & Hn & Hr). apply of_result_Ok in Hn as [-> Hn].
  apply ok_or_Ok, checked_Some in Hn.
  assert (Erest : rest = fb ++ drop (Z.to_nat (val length)) rest) by (unfold fb; by rewrite take_drop).
  set (rest' := drop (Z.to_nat (val length)) rest) in *.
  assert (Etot : Z.of_nat (List.length pre + List.length rest) = len ((pre ++ fb) ++ rest')).
  { rewrite Erest. rewrite !length_app. lia. }
  rewrite Etot in Hr.
  assert (Hs : same_dir d d2) by (by eapply same_dir_trans).
  apply IH in Hr as (fs & t & Er & Hfs & [Hnd Hfr] & Eg & Eflen & Eo & Htd & Hlast); try done.
  - exists (f :: fs), t. rewrite frames_bytes_cons, Ef, Erest.
    split; [by rewrite Er, app_assoc|]. split; [split; [done|exact Hfs]|].
    split.
    { intros _. cbn [map]. split.
      - apply list.NoDup_cons. split; [|done]. intros Hin. apply (Hfr _ Hin).
        cbn [replay_frame rg_commands is_writer]. apply elem_of_union. left. by apply elem_of_singleton.
      - intros id [->|Hin]%elem_of_cons; [done|]. intros Hg'. apply (Hfr _ Hin).
        cbn [replay_frame rg_commands is_writer]. apply elem_of_union. by right. }
    split; [cbn [replay_frames]; by rewrite Eg, <- Hn, Hoff, Ef, Lfb|].
    rewrite app_assoc. split; [done|]. split; [done|]. split; [by apply (tail_dir_same _ _ _ _ _ _ Hs)|done].
  - destruct Hs as [-> _]. by rewrite <- app_assoc, <- Erest.
  - rewrite <- Hn, Hoff, length_app. lia.
  - rewrite <- Etot. rewrite length_app in Hfit. lia.
  - unfold rest'. rewrite length_drop. lia.
Qed.

(** * One segment *)

Lemma recover_segment_sound i is_last content (g : Recovering) d d' g' :
  let path := segment_file_name (u64_of i) in
  let h := rs_head (rg_state g) in
  d_files d !! path = Some content -> len content < 2 ^ 64 ->
  recover_segment visit cfg tid path (u64_of i) is_last Writer g d = (d', Ok g') ->
  exists fs t, content = segment_content i h fs ++ t /\ rev (head_revision h) + 1 < 2 ^ 64 /\
    frames_ok h fs /\ fresh_commands Writer fs g /\ g' = replay_segment visit Writer i fs g /\
    tail_dir path (segment_content i h fs) t d d' /\ (t <> [] -> is_last = true) /\ (is_last = false -> fs <> []).
Proof.
  intros path h Hc Hfit Hr. unfold recover_segment in Hr.
  apply M_bind_Ok in Hr as (d1 & [] & Hs & Hr). apply map_error_Ok, reads_fs_open in Hs.
  apply M_bind_Ok in Hr as (d2 & n & Hn & Hr). apply map_error_Ok in Hn.
  apply (fs_len_Ok _ content) in Hn as [-> Hs2]; [|by destruct Hs as [-> _]].
  assert (Hs02 : same_dir d d2) by (by eapply same_dir_trans).
  apply M_bind_Ok in Hr as (d2' & [] & Hg & Hr). apply of_result_Ok in Hg as [-> Hg].
  apply ensure_Ok, negb_true_iff, Z.ltb_ge in Hg.
  apply M_bind_Ok in Hr as (d3 & hb & Hread & Hr). apply map_error_Ok in Hread.
  apply (fs_read_exact_Ok _ _ _ content) in Hread as (_ & Ehb & Hs3); [|by destruct Hs02 as [-> _]].
  assert (Hs03 : same_dir d d3) by (by eapply same_dir_trans).
  apply M_bind_Ok in Hr as (d3' & header & Hh & Hr). apply of_result_Ok in Hh as [-> Hh]. apply map_err_Ok in Hh.
  apply M_bind_Ok in Hr as (d3' & first & Hf & Hr). apply of_result_Ok in Hf as [-> Hf].
  apply ok_or_Ok, checked_next_Some in Hf.
  apply M_bind_Ok in Hr as (d3' & [] & Hg2 & Hr). apply of_result_Ok in Hg2 as [-> Hg2].
  apply ensure_Ok in Hg2. inv_bool.
  pose proof (rev_bounds first) as Hbf. pose proof (rev_bounds (head_revision h)) as Hbh.
  assert (Efirst : first = revision_of (rev (head_revision h) + 1)).
  { apply rev_inj. rewrite rev_of_small; unfold h in *; lia. }
  assert (Eheader : hb = encode_segment_header (u64_of i) (revision_of (rev (head_revision h) + 1)) tid (head_digest h)).
  { apply segment_header_exact in Hh. rewrite Hh. rewrite H1, H4, H3, H2, Efirst. f_equal; by destruct tid. }
  rewrite Nat2Z.id in Ehb. change (Z.to_nat 0) with 0%nat in Ehb.
  assert (Lhb : length hb = SEGMENT_HEADER_LEN) by (rewrite Eheader; apply length_encode_segment_header).
  assert (Econtent : content = hb ++ drop SEGMENT_HEADER_LEN content).
  { rewrite Ehb. unfold slice. by rewrite drop_0, take_drop. }
  set (rest := drop SEGMENT_HEADER_LEN content) in *.
  apply M_bind_Ok in Hr as (d4 & [[g1 flen] offset] & Hrun & Hr).
  rewrite Econtent in Hrun at 2.
  apply (recover_frames_sound _ _ _ hb rest) in Hrun
    as (fs & t & Erest & Hfs & Hfresh & Eg & Eflen & Eoff & Htd & Hlast).
  2: { rewrite <- Econtent. by destruct Hs03 as [-> _]. }
  2: { rewrite Lhb. done. }
  2: { by rewrite <- Econtent. }
  2: { rewrite Econtent, length_app. lia. }
  assert (Epre : hb ++ frames_bytes fs = segment_content i h fs).
  { unfold JournalSpec.segment_content. by rewrite <- Eheader. }
  rewrite Epre in *.
  apply M_bind_Ok in Hr as (d4' & [] & Hg3 & Hr). apply of_result_Ok in Hg3 as [-> Hg3].
  apply ensure_Ok, negb_true_iff in Hg3. cbn [is_writer] in Hr. injection Hr as -> <-.
  exists fs, t. split; [by rewrite <- Epre, <- app_assoc, <- Erest|]. split; [unfold h in *; lia|].
  split; [done|]. split; [done|]. split.
  { unfold replay_segment, push_segment. cbn [is_writer]. rewrite Eg.
    change (val (u64_of (Z.of_nat SEGMENT_HEADER_LEN))) with HEADER_BYTES.
    rewrite replay_frames_head. fold h. unfold segment_info.
    rewrite H4, Efirst, Eflen. by rewrite length_segment_content. }
  split; [by apply (tail_dir_same _ _ _ _ _ _ Hs03)|]. split; [done|].
  intros -> ->. cbn [negb andb] in Hg3. apply Z.eqb_neq in Hg3. apply Hg3. rewrite Eoff, Eflen.
  rewrite <- Epre. unfold frames_bytes. cbn [map concat]. by rewrite app_nil_r, Lhb.
Qed.

(** * All segments *)

(** Files named from [i] on. *)
Fixpoint named (i : Z) (contents : list bytes) : list (string * bytes) :=
  match contents with
  | [] => []
  | c :: contents => (segment_file_name (u64_of i), c) :: named (i + 1) contents
  end.

Lemma named_names i contents : map fst (named i contents) = map snd (segment_names i (length contents)).
Proof. revert i. induction contents; intros; simpl; [done|]. by rewrite IHcontents. Qed.

(** The sequences of a successful recovery are consecutive. *)
Lemma recover_paths_sequences count i paths (g g' : Recovering) d d' :
  0 <= i -> count = i + len paths ->
  recover_paths visit cfg tid Writer count i paths g d = (d', Ok g') ->
  (forall s name, (s, name) ∈ paths -> name = segment_file_name s) ->
  paths = segment_names i (length paths).
Proof.
  revert i g d. induction paths as [|[s name] paths IH]; intros i g d Hi Ecount Hr Hnames; [done|].
  cbn [recover_paths] in Hr. simpl length in *.
  apply M_bind_Ok in Hr as (d1 & es & He & Hr). apply of_result_Ok in He as [-> He].
  apply ok_or_Ok, checked_Some in He.
  apply M_bind_Ok in Hr as (d1 & [] & Hg & Hr). apply of_result_Ok in Hg as [-> Hg].
  apply ensure_Ok in Hg. inv_bool. subst es.
  assert (Es : s = u64_of i) by (apply val_inj; rewrite val_u64_of_small, He; pose proof (val_bounds s); lia).
  cbn [segment_names]. rewrite (Hnames s name (list_elem_of_here _ _)), Es. f_equal.
  apply M_bind_Ok in Hr as (d2 & short & Hshort & Hr).
  destruct short.
  - assert (Elast : i + 1 = count).
    { destruct (i + 1 =? count) eqn:E; [by apply Z.eqb_eq|]. unfold mret, M_ret in Hshort. congruence. }
    destruct paths as [|p paths]; [done|]. simpl length in *. lia.
  - apply M_bind_Ok in Hr as (d3 & g1 & _ & Hr). apply (IH (i + 1) g1 d3); [lia|lia|done|].
    intros s' n' Hin. apply Hnames. by apply list_elem_of_further.
Qed.

Lemma dir_holds_tail F path pre t d d' :
  dir_holds (F ++ [(path, pre ++ t)]) d -> path ∉ map fst F -> tail_dir path pre t d d' ->
  dir_holds (F ++ [(path, pre)]) d'.
Proof.
  intros Hd Hni [Eo Ef]. destruct t as [|b t]; cbn [is_empty] in Ef.
  - rewrite app_nil_r in Hd. by apply (dir_holds_dir _ d).
  - by apply (dir_holds_replace _ _ _ _ d d' Hd).
Qed.

Lemma recover_paths_sound contents i F (g g' : Recovering) d d' :
  let h := rs_head (rg_state g) in
  0 <= i -> i + len contents < 2 ^ 64 -> Forall (fun c => len c < 2 ^ 64) contents ->
  map fst F = map snd (segment_names 0 (Z.to_nat i)) ->
  dir_holds (F ++ named i contents) d ->
  recover_paths visit cfg tid Writer (i + len contents) i (segment_names i (length contents)) g d = (d', Ok g') ->
  exists layout, layout_ok i h layout /\ fresh_commands Writer (concat layout) g /\
    g' = replay_layout visit Writer i layout g /\ dir_holds (F ++ segment_files i h layout []) d' /\
    (length layout <= length contents)%nat.
Proof.
  revert i F g d. induction contents as [|c contents IH]; intros i F g d h Hi Hn Hfits HF Hdir Hr.
  { injection Hr as <- <-. exists []. split; [done|]. split; [apply fresh_nil|]. done. }
  simpl length in *. cbn [segment_names recover_paths named] in *.
  apply list.Forall_cons in Hfits as [Hfit Hfits].
  set (path := segment_file_name (u64_of i)) in *.
  assert (Hni : path ∉ map fst F).
  { rewrite HF. intros Hin. apply list_elem_of_In, in_map_iff in Hin as ([s name] & E & Hin). cbn [snd] in E. subst name.
    apply list_elem_of_In, segment_names_elem in Hin as [Hs E]; [|lia..].
    apply (inj segment_file_name) in E. subst s. rewrite val_u64_of_small in Hs; lia. }
  assert (Hfile : d_files d !! path = Some c).
  { apply (dh_files _ _ Hdir), elem_of_app. right. apply list_elem_of_here. }
  apply M_bind_Ok in Hr as (d1 & es & He & Hr). apply of_result_Ok in He as [-> He].
  apply M_bind_Ok in Hr as (d1 & [] & Hg & Hr). apply of_result_Ok in Hg as [-> _].
  destruct contents as [|c2 contents].
  - (* the last file *)
    simpl length in *. rewrite (proj2 (Z.eqb_eq (i + 1) (i + Z.of_nat 1))) in Hr by lia.
    apply M_bind_Ok in Hr as (d2 & short & Hshort & Hr).
    apply M_bind_Ok in Hshort as (d2' & n & Hlen & [= -> <-]). apply map_error_Ok in Hlen.
    apply (fs_len_Ok _ c) in Hlen as [-> Hs2]; [|done]. cbn [named] in Hdir.
    assert (Hdir2 : dir_holds (F ++ [(path, c)]) d2) by (by apply (dir_holds_dir _ d)).
    destruct (len c <? Z.of_nat SEGMENT_HEADER_LEN); cbn [is_writer] in Hr.
    + apply M_bind_Ok in Hr as (d3 & [] & Hrm & Hr). apply M_bind_Ok in Hr as (d4 & [] & Hsd & [= <- <-]).
      apply map_error_Ok in Hrm, Hsd. apply reads_sync_directory in Hsd.
      exists []. split; [done|]. split; [apply fresh_nil|]. split; [done|]. cbn [JournalSpec.segment_files].
      rewrite app_nil_r. split; [|simpl; lia]. apply (dir_holds_dir _ d3); [done|].
      assert (Hf2 : d_files d2 !! path = Some c) by (by destruct Hs2 as [-> _]).
      apply (fs_remove_file_Ok _ _ _ _ _ Hf2) in Hrm as [Ef Eo]. by apply (dir_holds_remove _ path c d2).
    + apply M_bind_Ok in Hr as (d3 & g1 & Hseg & [= <- <-]).
      apply (recover_segment_sound i true c) in Hseg as (fs & t & Ec & Hrev & Hfs & Hfresh & -> & Htd & _ & _);
        [|by destruct Hs2 as [-> _]|done].
      exists [fs]. fold h in Hrev, Hfs, Htd, Ec. cbn [concat]. rewrite app_nil_r.
      split; [|split; [done|split; [done|split; [|simpl; lia]]]].
      * simpl. split; [done|]. split; [done|]. split; [done|].
        rewrite Ec, length_app, Nat2Z.inj_add, length_segment_content in Hfit. lia.
      * cbn [JournalSpec.segment_files is_empty]. rewrite app_nil_r. rewrite Ec in Hdir2.
        by apply (dir_holds_tail _ _ _ t d2).
  - (* a file before others *)
    set (rest := c2 :: contents) in *.
    assert (Hrest : 0 < len rest) by (subst rest; simpl; lia).
    replace (i + 1 =? i + Z.of_nat (S (length rest))) with false in Hr by compare.
    apply M_bind_Ok in Hr as (d2 & short & [= <- <-] & Hr). cbn iota in Hr.
    apply M_bind_Ok in Hr as (d3 & g1 & Hseg & Hr).
    apply (recover_segment_sound i false c) in Hseg as (fs & t & Ec & Hrev & Hfs & Hfresh & -> & Htd & Ht & Hne);
      [|done|done].
    assert (t = []) as -> by (destruct t; [done|by specialize (Ht ltac:(done))]).
    rewrite app_nil_r in Ec. fold h in Hrev, Hfs, Htd, Ec. destruct Htd as [Eo Ef]. cbn [is_empty] in Ef.
    replace (i + Z.of_nat (S (length rest))) with (i + 1 + len rest) in Hr by lia.
    apply (IH (i + 1) (F ++ [(path, c)])) in Hr as (layout & Hok & Hfr & -> & Hdir' & Hl).
    + exists (fs :: layout). cbn [concat replay_layout JournalSpec.segment_files].
      rewrite replay_segment_head in Hok, Hdir'. fold h in Hok, Hdir'.
      split; [|split; [|split; [done|split; [|cbn [length]; lia]]]].
      * simpl. split; [done|]. split; [done|]. split; [intros _; by apply Hne|].
        rewrite Ec, length_segment_content in Hfit. split; [done|]. split; [lia|done].
      * intros _. destruct (Hfresh eq_refl) as [Hnd1 Hni1]. destruct (Hfr eq_refl) as [Hnd2 Hni2].
        rewrite map_app.
        assert (Hcm : forall id, id ∈ rg_commands (replay_segment visit Writer i fs g)
                       <-> id ∈ map frame_id fs \/ id ∈ rg_commands g).
        { intros id. unfold replay_segment, push_segment. cbn [is_writer rg_commands].
          by apply replay_frames_commands. }
        split.
        -- apply list.NoDup_app. split; [done|]. split; [|done]. intros id H1 H2. apply (Hni2 _ H2), Hcm. by left.
        -- intros id [H1|H2]%elem_of_app; [by apply Hni1|]. intros H3. apply (Hni2 _ H2), Hcm. by right.
      * rewrite <- app_assoc in Hdir'. cbn [app] in Hdir'.
        replace (segment_content i h fs ++ (if is_empty layout then [] else [])) with c; [done|].
        rewrite Ec. destruct (is_empty layout); by rewrite app_nil_r.
    + lia.
    + lia.
    + done.
    + rewrite map_app, HF. cbn [map fst]. replace (Z.to_nat (i + 1)) with (S (Z.to_nat i)) by lia.
      rewrite segment_names_snoc, map_app. cbn [map snd]. rewrite Z2Nat.id by lia. done.
    + rewrite <- app_assoc. apply (dir_holds_dir _ d); [done|exact Hdir].
Qed.

(** * The directory *)

(** File names that parse as segment names are the names the journal writes,
    and belong to regular files of a realistic size. *)
Record plain_directory (d : Disk) : Prop := {
  pd_names : forall name s, is_Some (d_files d !! name) -> parse_segment_name name = Some s ->
               name = segment_file_name s;
  pd_others : forall name, name ∈ d_others d -> parse_segment_name name = None;
  pd_sizes : forall name content, d_files d !! name = Some content -> len content < 2 ^ 64;
  pd_count : Z.of_nat (size (d_files d)) < 2 ^ 64
}.

Lemma numbered_paths_Ok entries l :
  numbered_paths entries = Ok l ->
  l = numbered_entries entries /\ (forall name, (name, true) ∈ entries -> utf8_valid (str_bytes name) = true).
Proof.
  revert l. induction entries as [|[name is_file] entries IH]; intros l; cbn [numbered_paths].
  { intros [= <-]. split; [done|]. by intros ? ?%not_elem_of_nil. }
  destruct is_file; cbn [negb].
  - intros Hr. inv_ok.
    assert (E : numbered_entries ((name, true) :: entries)
                = match parse_segment_name name with
                  | Some s => (s, name) :: numbered_entries entries
                  | None => numbered_entries entries
                  end) by (unfold numbered_entries; simpl; by destruct (parse_segment_name name)).
    rewrite E. destruct (parse_segment_name name) as [s|].
    + inv_ok. apply IH in Hr1 as [-> Hu]. split; [done|].
      intros n [[= ->]|Hin]%elem_of_cons; [done|by apply Hu].
    + apply IH in Hr as [-> Hu]. split; [done|]. intros n [[= ->]|Hin]%elem_of_cons; [done|by apply Hu].
  - intros Hr. apply IH in Hr as [-> Hu]. split; [done|].
    intros n [[=]|Hin]%elem_of_cons. by apply Hu.
Qed.

Lemma numbered_entries_length entries : (length (numbered_entries entries) <= length entries)%nat.
Proof.
  assert (Hle : forall A B (f : A -> option B) (l : list A), (length (omap f l) <= length l)%nat).
  { intros A B f l. induction l as [|x l IH]; cbn; [lia|]. destruct (f x); cbn [length]; lia. }
  apply Hle.
Qed.

Lemma segment_paths_sound d d' paths :
  segment_paths d = (d', Ok paths) ->
  same_dir d d' /\ NoDup paths /\ (length paths <= size (d_files d))%nat /\
  (forall name, is_Some (d_files d !! name) -> utf8_valid (str_bytes name) = true) /\
  (forall s name, (s, name) ∈ paths <-> is_Some (d_files d !! name) /\ parse_segment_name name = Some s).
Proof.
  intros Hr. unfold segment_paths in Hr.
  apply M_bind_Ok in Hr as (d1 & entries & Hdir & Hr). apply map_error_Ok in Hdir.
  apply M_bind_Ok in Hr as (d2 & numbered & Hnum & [= <- <-]). apply of_result_Ok in Hnum as [-> Hnum].
  apply numbered_paths_Ok in Hnum as [-> Hutf].
  assert (Hent : same_dir d d1 /\ entries = map (fun '(name, _) => (name, true)) (map_to_list (d_files d))
             ++ map (fun name => (name, false)) (elements (d_others d))).
  { apply syscall_cases in Hdir as (faults & [[? _]|Hdir]); [done|]. by injection Hdir as <- <-. }
  destruct Hent as [Hs ->]. split; [done|]. rewrite !merge_sort_Permutation.
  pose proof (numbered_entries_nodup _ (read_dir_nodup d)) as Hnd.
  split; [done|]. split; [|split].
  - unfold numbered_entries. rewrite omap_app, length_app.
    assert (E0 : forall l : list string, length (numbered_entries (map (fun name => (name, false)) l)) = 0%nat)
      by (by induction l).
    pose proof (E0 (elements (d_others d))) as E1. unfold numbered_entries in E1. rewrite E1.
    rewrite <- length_map_to_list, Nat.add_0_r. etransitivity; [apply numbered_entries_length|]. by rewrite length_map.
  - intros name [c Hc]. apply Hutf. apply elem_of_app. left. apply list_elem_of_In, in_map_iff.
    exists (name, c). split; [done|]. by apply list_elem_of_In, elem_of_map_to_list.
  - intros s name. rewrite merge_sort_Permutation. apply read_dir_numbered.
Qed.

Lemma named_elem i contents name content :
  (name, content) ∈ named i contents <->
  exists k, contents !! k = Some content /\ name = segment_file_name (u64_of (i + Z.of_nat k)).
Proof.
  revert i. induction contents as [|c contents IH]; intros i; simpl.
  - split; [by intros ?%not_elem_of_nil|by intros (? & ? & _)].
  - rewrite elem_of_cons, IH. split.
    + intros [[= -> ->]|(k & Hk & ->)].
      * exists 0%nat. split; [done|]. by rewrite Z.add_0_r.
      * exists (S k). split; [done|]. do 2 f_equal. lia.
    + intros ([|k] & Hk & ->); simpl in Hk.
      * injection Hk as ->. left. by rewrite Z.add_0_r.
      * right. exists k. split; [done|]. do 2 f_equal. lia.
Qed.

(** The contents of the segment files of a directory. *)
Lemma plain_named d n :
  plain_directory d -> Z.of_nat n < 2 ^ 64 ->
  (forall name, is_Some (d_files d !! name) -> utf8_valid (str_bytes name) = true) ->
  (forall s name, (s, name) ∈ segment_names 0 n <-> is_Some (d_files d !! name) /\ parse_segment_name name = Some s) ->
  exists contents, length contents = n /\ dir_holds (named 0 contents) d /\ Forall (fun c => len c < 2 ^ 64) contents.
Proof.
  intros [Hnames Hothers Hsizes _] Hn Hutf Hin.
  set (file k := default [] (d_files d !! segment_file_name (u64_of (Z.of_nat k)))).
  exists (map file (seq 0 n)).
  assert (Hlen : length (map file (seq 0 n)) = n) by (by rewrite length_map, length_seq).
  assert (Hk : forall k, (k < n)%nat -> d_files d !! segment_file_name (u64_of (Z.of_nat k)) = Some (file k)).
  { intros k Hk. destruct (proj1 (Hin (u64_of (Z.of_nat k)) (segment_file_name (u64_of (Z.of_nat k))))) as [[c Hc] _].
    - apply segment_names_elem; [lia..|]. split; [|done]. rewrite val_u64_of_small by lia. lia.
    - unfold file. by rewrite Hc. }
  assert (Hget : forall k c, map file (seq 0 n) !! k = Some c -> (k < n)%nat /\ c = file k).
  { intros k c Hc. pose proof (lookup_lt_Some _ _ _ Hc) as Hlt. rewrite Hlen in Hlt. split; [done|].
    rewrite list_lookup_fmap, lookup_seq_lt in Hc by done. by injection Hc. }
  split; [done|]. split.
  - split; [| |done|done].
    + intros name c Hc. apply named_elem in Hc as (k & Hc & ->). apply Hget in Hc as [Hlt ->]. by apply Hk.
    + intros name c Hc [s Hs]. apply named_elem.
      assert (Hmem : (s, name) ∈ segment_names 0 n) by (apply Hin; eauto).
      apply segment_names_elem in Hmem as [Hs2 ->]; [|lia..]. exists (Z.to_nat (val s)).
      rewrite Z.add_0_l, Z2Nat.id, u64_of_val by lia. split; [|done].
      rewrite list_lookup_fmap, lookup_seq_lt by lia. simpl. f_equal. unfold file.
      rewrite Z2Nat.id, u64_of_val by lia. by rewrite Hc.
  - apply list.Forall_forall. intros c Hc. apply list_elem_of_lookup_1 in Hc as (k & Hc).
    apply Hget in Hc as [Hlt ->]. eapply Hsizes. by apply Hk.
Qed.

Lemma recover_sound state d d' rs state' :
  plain_directory d ->
  recover_with_mode visit cfg tid Writer state d = (d', Ok (rs, state')) ->
  exists layout, layout_ok 0 HEAD_EMPTY layout /\ distinct_commands layout /\
    rs = recovered_state Writer layout /\ state' = fold_left visit (layout_events layout) state /\
    dir_holds (segment_files 0 HEAD_EMPTY layout []) d'.
Proof.
  intros Hplain Hr. unfold recover_with_mode in Hr.
  apply M_bind_Ok in Hr as (d1 & paths & Hp & Hr). apply segment_paths_sound in Hp as (Hs & Hnd & Hsize & Hutf & Hin).
  apply M_bind_Ok in Hr as (d2 & g & Hrun & [= <- <- <-]).
  assert (Epaths : paths = segment_names 0 (length paths)).
  { eapply (recover_paths_sequences (len paths) 0); [done|lia|exact Hrun|].
    intros s name Hsn. apply Hin in Hsn as [Hf Hpn]. by apply (pd_names _ Hplain). }
  set (n := length paths) in *. rewrite Epaths in Hrun, Hin.
  assert (Hn : Z.of_nat n < 2 ^ 64) by (pose proof (pd_count _ Hplain); lia).
  destruct (plain_named d n Hplain Hn Hutf Hin) as (contents & Hlen & Hdir & Hfits).
  rewrite <- Hlen in Hrun.
  apply (recover_paths_sound contents 0 []) in Hrun as (layout & Hok & Hfresh & -> & Hdir' & _);
    [|done|simpl; lia|done|done|by apply (dir_holds_dir _ d)].
  exists layout. destruct (replay_layout_new visit Writer layout state) as [-> ->].
  split; [done|]. split; [|done]. destruct (Hfresh eq_refl) as [Hnd' _]. exact Hnd'.
Qed.

End SoundFacts.
