(* ===== verification/RangeFacts.v ===== *)
(** Folding a range of revisions of an open journal visits exactly the events
    of those revisions, in order. *)

From S2P Require Import Prelude Canonical Events Commands Receipts Format FormatFacts.
From S2P Require Import CommandIndex Disk Model Recovery JournalSpec RecoveryFacts Journal JournalFacts.

Open Scope string_scope.
Open Scope list_scope.
Open Scope Z_scope.

(** Events numbered consecutively after [r]. *)
Definition numbered (r : Z) (es : list ThreadEventEnvelope) : Prop :=
  forall k e, es !! k = Some e -> rev (ev_revision e) = r + Z.of_nat k + 1.

Lemma numbered_cons r e es : numbered r (e :: es) -> rev (ev_revision e) = r + 1 /\ numbered (r + 1) es.
Proof.
  intros Hn. split.
  - rewrite (Hn 0%nat e eq_refl). lia.
  - intros k e' Hk. rewrite (Hn (S k) e' Hk). lia.
Qed.

Lemma numbered_app r es1 es2 :
  numbered r es1 -> numbered (r + len es1) es2 -> numbered r (es1 ++ es2).
Proof.
  intros H1 H2 k e Hk. apply lookup_app_Some in Hk as [Hk|[Hl Hk]]; [by apply H1|].
  rewrite (H2 _ _ Hk). lia.
Qed.

Lemma numbered_split r es1 es2 :
  numbered r (es1 ++ es2) -> numbered r es1 /\ numbered (r + len es1) es2.
Proof.
  intros Hn. split; intros k e Hk.
  - apply Hn. by apply lookup_app_l_Some.
  - rewrite (Hn (length es1 + k)%nat e); [lia|]. rewrite lookup_app_r by lia.
    by replace (length es1 + k - length es1)%nat with k by lia.
Qed.

Definition in_range_event (range : ThreadRevisionRange) (e : ThreadEventEnvelope) : bool :=
  (rev (range_start range) <=? rev (ev_revision e)) && (rev (ev_revision e) <=? rev (range_end_inclusive range)).

(** The events of the revisions of a range. *)
Definition range_events (range : ThreadRevisionRange) (es : list ThreadEventEnvelope) : list ThreadEventEnvelope :=
  take (Z.to_nat (rev (range_end_inclusive range) - rev (range_start range) + 1))
    (drop (Z.to_nat (rev (range_start range) - 1)) es).

(** [range.start .. range.end] is a range [ThreadRevisionRange::inclusive] accepts. *)
Definition range_valid (range : ThreadRevisionRange) : Prop :=
  1 <= rev (range_start range) <= rev (range_end_inclusive range).

Lemma filter_true {A} (p : A -> bool) l : (forall a, a ∈ l -> p a = true) -> List.filter p l = l.
Proof.
  induction l as [|a l IH]; intros Hl; simpl; [done|].
  rewrite (Hl a) by apply list_elem_of_here. f_equal. apply IH. intros. apply Hl. by apply list_elem_of_further.
Qed.

Lemma filter_false {A} (p : A -> bool) l : (forall a, a ∈ l -> p a = false) -> List.filter p l = [].
Proof.
  induction l as [|a l IH]; intros Hl; simpl; [done|].
  rewrite (Hl a) by apply list_elem_of_here. apply IH. intros. apply Hl. by apply list_elem_of_further.
Qed.

Lemma numbered_filter range es :
  range_valid range -> numbered 0 es -> List.filter (in_range_event range) es = range_events range es.
Proof.
  intros [H1 H2] Hn. unfold range_events.
  set (a := Z.to_nat (rev (range_start range) - 1)).
  set (b := Z.to_nat (rev (range_end_inclusive range) - rev (range_start range) + 1)).
  rewrite <- (take_drop a es) at 1. rewrite List.filter_app.
  rewrite <- (take_drop b (drop a es)) at 1. rewrite List.filter_app.
  assert (Hin : forall k e, es !! k = Some e -> in_range_event range e
                = ((a <=? k)%nat && (k <? a + b)%nat)).
  { intros k e Hk. unfold in_range_event. rewrite (Hn k e Hk). unfold a, b.
    apply eq_true_iff_eq. rewrite !andb_true_iff, !Z.leb_le, Nat.leb_le, Nat.ltb_lt. lia. }
  rewrite (filter_false _ (take a es)), (filter_true _ (take b _)), (filter_false _ (drop b _)).
  - by rewrite app_nil_r.
  - intros e He. apply list_elem_of_lookup_1 in He as (k & Hk). rewrite !lookup_drop in Hk.
    rewrite (Hin _ _ Hk). apply andb_false_iff. right. apply Nat.ltb_ge. lia.
  - intros e He. apply list_elem_of_lookup_1 in He as (k & Hk). apply lookup_take_Some in Hk as [Hk Hlt].
    rewrite lookup_drop in Hk. rewrite (Hin _ _ Hk). apply andb_true_iff.
    split; [apply Nat.leb_le|apply Nat.ltb_lt]; lia.
  - intros e He. apply list_elem_of_lookup_1 in He as (k & Hk). apply lookup_take_Some in Hk as [Hk Hlt].
    rewrite (Hin _ _ Hk). apply andb_false_iff. left. apply Nat.leb_gt. lia.
Qed.

Section RangeFacts.
Context `{External, JsonCodec} (cfg : JournalConfig) (tid : ThreadId).

Abbreviation frame_ok := (frame_ok cfg tid).
Abbreviation frames_ok := (frames_ok cfg tid).
Abbreviation layout_ok := (layout_ok cfg tid).
Abbreviation segment_content := (segment_content tid).
Abbreviation segment_files := (segment_files tid).
Abbreviation journal_inv := (journal_inv cfg tid).

Lemma frame_numbered h f : frame_ok h f -> numbered (rev (head_revision h)) (frame_events f).
Proof.
  intros [_ _ Hc] k e Hk. pose proof (ct_chain _ _ _ _ Hc) as Hch.
  rewrite (events_chain_lookup _ _ _ _ _ _ _ _ Hch Hk). lia.
Qed.

Lemma frames_numbered h fs :
  frames_ok h fs -> numbered (rev (head_revision h)) (concat (map frame_events fs)).
Proof.
  revert h. induction fs as [|f fs IH]; intros h; [by intros _ k e|].
  intros [Hf Hfs]. simpl. apply numbered_app; [by apply frame_numbered|].
  apply IH in Hfs. apply frame_ok_end in Hf as (<- & _). exact Hfs.
Qed.

Section Fold.
Context {St : Type} (fold : St -> ThreadEventEnvelope -> St) (range : ThreadRevisionRange).

(** How many events of the range have a revision up to [r]. *)
Definition observed_at (r : Z) : Z :=
  Z.max 0 (Z.min r (rev (range_end_inclusive range)) - rev (range_start range) + 1).

Lemma visit_events_run r es st :
  range_valid range -> numbered r es -> 0 <= r ->
  visit_events fold range (u64_of (observed_at r)) st es
    = Ok (u64_of (observed_at (r + len es)), fold_left fold (List.filter (in_range_event range) es) st).
Proof.
  intros [Hs He]. pose proof (rev_bounds (range_end_inclusive range)) as Hb.
  revert r st. induction es as [|e es IH]; intros r st Hn Hr.
  { simpl. by rewrite Z.add_0_r. }
  apply numbered_cons in Hn as [Hrev Hn]. cbn [visit_events List.filter].
  fold (in_range_event range e).
  replace (r + len (e :: es)) with (r + 1 + len es) by (simpl length; lia).
  destruct (in_range_event range e) eqn:Ein; unfold in_range_event in Ein; rewrite Hrev in Ein.
  - apply andb_true_iff in Ein as [E1 E2]. apply Z.leb_le in E1, E2.
    assert (Eo : observed_at r = r + 1 - rev (range_start range)) by (unfold observed_at; lia).
    assert (Eo' : observed_at (r + 1) = observed_at r + 1) by (unfold observed_at; lia).
    assert (Evo : val (u64_of (observed_at r)) = r + 1 - rev (range_start range))
      by (rewrite val_u64_of_small; lia).
    rewrite (proj2 (checked_advance_Some (range_start range) (u64_of (observed_at r)) (ev_revision e))) by lia.
    cbn [ok_or mbind result_bind]. rewrite bool_decide_eq_true_2 by done. cbn [ensure mbind result_bind].
    unfold u64_checked_add.
    rewrite (proj2 (checked_Some 0 (2 ^ 64) _ (u64_of (observed_at (r + 1)))))
      by (rewrite Evo, val_u64_of_small; lia).
    cbn [ok_or mbind result_bind]. rewrite IH by (done || lia). done.
  - assert (Eo : observed_at (r + 1) = observed_at r).
    { apply andb_false_iff in Ein as [E1|E1]; apply Z.leb_gt in E1; unfold observed_at; lia. }
    rewrite <- Eo. by apply IH; [|lia].
Qed.

(** The visitor of [visit_range] on one frame. *)
Definition visit_step (offset : Z) (f : Frame) (v : Visiting (St := St)) : result JournalError (Visiting * bool) :=
  '(observed, state) ← visit_events fold range (vi_observed v) (vi_state v) (frame_events f);
  Ok ({| vi_observed := observed; vi_cursor := {| fc_offset := u64_of (offset + len (fr_bytes f)) |};
         vi_state := state |}, false).

Lemma visit_frame_run h f pre post path position d v :
  healthy d -> d_files d !! path = Some (pre ++ fr_bytes f ++ post) -> 0 < len pre ->
  len pre + len (fr_bytes f) < 2 ^ 64 -> frame_ok h f ->
  visit_frame fold cfg tid range path (pointer_of (len pre) f) (as_uuid (frame_id f)) position v d
    = (d, visit_step (len pre) f v).
Proof.
  intros Hd Hp Hpos Hfit Hf. unfold visit_frame, visit_step.
  change (reset_position (vi_cursor v)) with cursor_default.
  erewrite M_bind_run by (by apply (read_pointer_run cfg tid h f pre post)).
  cbn [df_stored]. change (stored_list (sb_events (fr_stored f))) with (frame_events f).
  destruct (visit_events fold range (vi_observed v) (vi_state v) (frame_events f)) as [[observed state]|e]; done.
Qed.

Lemma visit_frames_range h fs offset v r :
  range_valid range -> frames_ok h fs -> r = rev (head_revision h) ->
  vi_observed v = u64_of (observed_at r) ->
  exists v', visit_frames visit_step offset fs v = Ok (v', false) /\
    vi_observed v' = u64_of (observed_at (rev (head_revision (last_head h fs)))) /\
    vi_state v' = fold_left fold (List.filter (in_range_event range) (concat (map frame_events fs))) (vi_state v).
Proof.
  intros Hv. revert h offset v r. induction fs as [|f fs IH]; intros h offset v r Hfs -> Ho.
  { exists v. done. }
  destruct Hfs as [Hf Hfs]. pose proof (rev_bounds (head_revision h)).
  assert (Hstep : visit_step offset f v =
    Ok ({| vi_observed := u64_of (observed_at (rev (head_revision h) + len (frame_events f)));
           vi_cursor := {| fc_offset := u64_of (offset + len (fr_bytes f)) |};
           vi_state := fold_left fold (List.filter (in_range_event range) (frame_events f)) (vi_state v) |}, false)).
  { unfold visit_step. rewrite Ho. by rewrite visit_events_run by (try done; try lia; by apply frame_numbered). }
  cbn [visit_frames]. rewrite Hstep. cbn [mbind result_bind].
  destruct (frame_ok_end _ _ _ _ Hf) as (He & _). rewrite <- He.
  destruct (IH (frame_head f) (offset + len (fr_bytes f))
              {| vi_observed := u64_of (observed_at (rev (head_revision (frame_head f))));
                 vi_cursor := {| fc_offset := u64_of (offset + len (fr_bytes f)) |};
                 vi_state := fold_left fold (List.filter (in_range_event range) (frame_events f)) (vi_state v) |}
              _ Hfs eq_refl eq_refl) as (v' & Hrun & Ho' & Hs').
  exists v'. split; [exact Hrun|]. split; [done|].
  rewrite Hs'. simpl. by rewrite List.filter_app, fold_left_app.
Qed.

Lemma visit_window_run i h layout d v :
  range_valid range -> healthy d -> layout_ok i h layout ->
  (forall name content, (name, content) ∈ segment_files i h layout [] -> d_files d !! name = Some content) ->
  vi_observed v = u64_of (observed_at (rev (head_revision h))) ->
  exists v', visit_window fold cfg tid range (segment_infos i h layout) v d = (d, Ok v') /\
    vi_observed v' = u64_of (observed_at (rev (head_revision (last_head h (concat layout))))) /\
    vi_state v' = fold_left fold (List.filter (in_range_event range) (layout_events layout)) (vi_state v).
Proof.
  intros Hv Hd. revert i h v. induction layout as [|fs layout IH]; intros i h v Hok Hfiles Ho.
  { exists v. done. }
  destruct Hok as (_ & Hfs & _ & Hfit & _ & Hok). cbn [segment_infos visit_window].
  cbn [JournalSpec.segment_files] in Hfiles.
  assert (Hfile : d_files d !! segment_file_name (u64_of i) = Some (segment_content i h fs)).
  { erewrite Hfiles by apply list_elem_of_here. f_equal. destruct (is_empty layout); by rewrite app_nil_r. }
  set (v0 := {| vi_observed := vi_observed v; vi_cursor := _; vi_state := vi_state v |}).
  destruct (visit_frames_range h fs HEADER_BYTES v0 _ Hv Hfs eq_refl Ho) as (v1 & Hrun & Ho1 & Hs1).
  erewrite M_bind_run.
  2: { rewrite (visit_segment_run cfg tid _ visit_step i fs h v0 d Hd Hfile Hfit Hfs); [by rewrite Hrun|].
       intros l1 f l2 acc ->. cbn zeta.
       set (pre := encode_segment_header (u64_of i) (revision_of (rev (head_revision h) + 1)) tid (head_digest h)
                   ++ frames_bytes l1).
       assert (Epre : HEADER_BYTES + len (frames_bytes l1) = len pre).
       { unfold pre. rewrite length_app, length_encode_segment_header. unfold HEADER_BYTES. lia. }
       rewrite Epre. rewrite frames_bytes_app, frames_bytes_cons in Hfit. rewrite !length_app in Hfit.
       apply frames_ok_app in Hfs as [_ [Hf _]].
       apply (visit_frame_run (last_head h l1) f pre (frames_bytes l2)); try done.
       - cbn [segment_info sg_path]. rewrite Hfile. unfold JournalSpec.segment_content, pre.
         by rewrite frames_bytes_app, frames_bytes_cons, <- !app_assoc.
       - rewrite <- Epre. lia. }
  cbn beta iota.
  destruct (IH (i + 1) (last_head h fs) v1) as (v2 & Hrun2 & Ho2 & Hs2); [done| |done|].
  { intros. apply Hfiles. by apply list_elem_of_further. }
  exists v2. split; [done|]. cbn [concat]. rewrite last_head_app. split; [done|].
  rewrite Hs2, Hs1. unfold layout_events. cbn [concat].
  by rewrite map_app, concat_app, List.filter_app, fold_left_app.
Qed.

End Fold.

(** * The window of segments *)

(** Segments are ordered, so the two partition points cut the layout in three:
    the segments before the range, those overlapping it, those after it. *)
Lemma partition_point_layout (p : SegmentInfo -> bool) i h layout :
  exists l1 l2, layout = l1 ++ l2
    /\ partition_point p (segment_infos i h layout) = length l1
    /\ (forall l fs l', l1 = l ++ fs :: l' -> p (segment_info (i + len l) (last_head h (concat l)) fs) = true)
    /\ (forall fs l', l2 = fs :: l' -> p (segment_info (i + len l1) (last_head h (concat l1)) fs) = false).
Proof.
  revert i h. induction layout as [|fs layout IH]; intros i h.
  { exists [], []. repeat split; try done. by intros [|]. }
  cbn [segment_infos partition_point].
  destruct (p (segment_info i h fs)) eqn:Ep.
  - destruct (IH (i + 1) (last_head h fs)) as (l1 & l2 & -> & Hpp & H1 & H2).
    exists (fs :: l1), l2. split; [done|]. split; [simpl; by rewrite Hpp|]. split.
    + intros l fs' l' E. destruct l as [|fs0 l]; simpl in E; injection E as E1 E2.
      * subst fs'. simpl. by rewrite Z.add_0_r.
      * subst fs0. specialize (H1 l fs' l' E2). cbn [concat length]. rewrite last_head_app.
        by replace (i + Z.of_nat (S (length l))) with (i + 1 + len l) by lia.
    + intros fs' l' E. specialize (H2 fs' l' E). cbn [concat length]. rewrite last_head_app.
      by replace (i + Z.of_nat (S (length l1))) with (i + 1 + len l1) by lia.
  - exists [], (fs :: layout). split; [done|]. split; [done|]. split; [by intros [|]|].
    intros fs' l' [= <- <-]. simpl. by rewrite Z.add_0_r.
Qed.

Lemma layout_le i h layout :
  layout_ok i h layout -> rev (head_revision h) <= rev (head_revision (last_head h (concat layout))).
Proof. intros Hok. by eapply frames_ok_le, layout_frames_ok. Qed.

Lemma layout_numbered i h layout :
  layout_ok i h layout -> numbered (rev (head_revision h)) (layout_events layout).
Proof. intros Hok. unfold layout_events. by eapply frames_numbered, layout_frames_ok. Qed.

Lemma layout_end i h layout :
  layout_ok i h layout ->
  rev (head_revision (last_head h (concat layout))) = rev (head_revision h) + len (layout_events layout).
Proof. intros Hok. apply layout_frames_ok in Hok. by rewrite (frames_ok_end _ _ _ _ Hok). Qed.

(** The window of a range inside the journal splits the layout. *)
Lemma segment_window_layout range layout :
  layout_ok 0 HEAD_EMPTY layout -> range_valid range ->
  rev (range_end_inclusive range) <= rev (head_revision (last_head HEAD_EMPTY (concat layout))) ->
  exists before mid after,
    layout = before ++ mid ++ after /\
    segment_window (segment_infos 0 HEAD_EMPTY layout) range
      = segment_infos (len before) (last_head HEAD_EMPTY (concat before)) mid /\
    rev (head_revision (last_head HEAD_EMPTY (concat before))) < rev (range_start range) /\
    rev (range_end_inclusive range) <= rev (head_revision (last_head HEAD_EMPTY (concat (before ++ mid)))).
Proof.
  intros Hok [Hs He] Hend. unfold segment_window.
  set (p1 := fun s => rev (sg_last_revision s) <? rev (range_start range)).
  set (p2 := fun s => rev (sg_first_revision s) <=? rev (range_end_inclusive range)).
  destruct (partition_point_layout p1 0 HEAD_EMPTY layout) as (A & B & EA & HA & HA1 & HA2).
  destruct (partition_point_layout p2 0 HEAD_EMPTY layout) as (C & D & EC & HC & HC1 & HC2).
  rewrite HA, HC.
  assert (Hle : (length A <= length C)%nat).
  { destruct (decide (length A <= length C)%nat) as [|Hgt]; [done|]. exfalso.
    assert (HAC : exists fs A2, A = C ++ fs :: A2).
    { rewrite EC in EA. exists (nth (length C) A []), (drop (S (length C)) A).
      assert (Ec : take (length C) A = C).
      { apply (f_equal (take (length C))) in EA. rewrite take_app_length in EA.
        rewrite take_app_le in EA by lia. done. }
      rewrite <- Ec at 1. symmetry. apply take_drop_middle.
      destruct (lookup_lt_is_Some_2 A (length C)) as [x Hx]; [lia|].
      rewrite Hx. f_equal. symmetry. by apply nth_lookup_Some. }
    destruct HAC as (fs & A2 & ->).
    assert (ED : D = fs :: (A2 ++ B)).
    { rewrite EC in EA. rewrite <- app_assoc in EA. apply app_inv_head in EA. done. }
    specialize (HA1 C fs A2 eq_refl). specialize (HC2 fs _ ED). unfold p1, p2 in HA1, HC2.
    apply Z.ltb_lt in HA1. apply Z.leb_gt in HC2. cbn [segment_info sg_last_revision sg_first_revision] in *.
    rewrite EA, <- app_assoc in Hok. apply layout_ok_app in Hok as (_ & (Hrev & Hfs & _) & _).
    apply frames_ok_le in Hfs. pose proof (rev_bounds (head_revision (last_head HEAD_EMPTY (concat C)))).
    rewrite rev_of_small in HC2 by lia. lia. }
  assert (Hmid : exists mid, C = A ++ mid).
  { rewrite EC in EA. exists (drop (length A) C).
    apply (f_equal (take (length A))) in EA. rewrite take_app_length in EA.
    rewrite take_app_le in EA by lia. rewrite <- EA at 1. by rewrite take_drop. }
  destruct Hmid as (mid & ->). exists A, mid, D. rewrite <- app_assoc in EC. split; [done|].
  rewrite EC, !segment_infos_app, Z.add_0_l.
  rewrite drop_app_length' by (by rewrite segment_infos_length).
  rewrite length_app, take_app_length' by (rewrite segment_infos_length; lia).
  split; [done|]. split.
  - destruct (list_snoc_cases A) as [->|(A' & fs & ->)]; [cbn; lia|].
    specialize (HA1 A' fs [] eq_refl). unfold p1 in HA1. apply Z.ltb_lt in HA1.
    cbn [segment_info sg_last_revision] in HA1. rewrite concat_app, last_head_app. simpl.
    by rewrite app_nil_r.
  - destruct D as [|fs D'].
    + rewrite app_nil_r in EC. by rewrite <- EC.
    + specialize (HC2 fs D' eq_refl). unfold p2 in HC2. apply Z.leb_gt in HC2.
      cbn [segment_info sg_first_revision] in HC2.
      rewrite EC, app_assoc in Hok. apply layout_ok_app in Hok as (_ & (Hrev & _) & _).
      pose proof (rev_bounds (head_revision (last_head HEAD_EMPTY (concat (A ++ mid))))).
      rewrite rev_of_small in HC2 by lia. lia.
Qed.

Lemma visit_range_run {St} (fold : St -> ThreadEventEnvelope -> St) range layout st d :
  healthy d -> layout_ok 0 HEAD_EMPTY layout -> dir_holds (segment_files 0 HEAD_EMPTY layout []) d ->
  range_valid range ->
  rev (range_end_inclusive range) <= rev (head_revision (last_head HEAD_EMPTY (concat layout))) ->
  visit_range fold cfg tid (last_head HEAD_EMPTY (concat layout)) (segment_infos 0 HEAD_EMPTY layout) range st d
    = (d, Ok (fold_left fold (range_events range (layout_events layout)) st)).
Proof.
  intros Hd Hok Hdir Hv Hend.
  destruct (segment_window_layout range layout Hok Hv Hend) as (before & mid & after & E & Hw & Hb & Hm).
  pose proof (layout_numbered _ _ _ Hok) as Hnum. change (rev (head_revision HEAD_EMPTY)) with 0 in Hnum.
  rewrite <- numbered_filter by done. destruct Hv as [Hs He].
  pose proof (rev_bounds (range_end_inclusive range)) as Hbe.
  unfold visit_range. rewrite Hw.
  assert (Hg : negb (rev (head_revision (last_head HEAD_EMPTY (concat layout))) <? rev (range_end_inclusive range)) = true)
    by (apply negb_true_iff; compare).
  run_pure Hg.
  pose proof Hok as Hok'. rewrite E in Hok'. apply layout_ok_app in Hok' as (Hokb & Hokm & _).
  rewrite Z.add_0_l in Hokm. apply layout_ok_app in Hokm as (Hokm & Hoka & _).
  set (hb := last_head HEAD_EMPTY (concat before)) in *.
  set (v := {| vi_observed := u64_zero; vi_cursor := cursor_default; vi_state := st |}).
  destruct (visit_window_run fold range (len before) hb mid d v (conj Hs He) Hd Hokm) as (v' & Hrun & Ho & Hst).
  { intros name content Hin. apply (dh_files _ _ Hdir). rewrite E.
    destruct (is_empty after) eqn:Ea.
    - destruct after; [|done]. rewrite app_nil_r. destruct mid as [|m mid']; [by apply not_elem_of_nil in Hin|].
      rewrite segment_files_app, Z.add_0_l by done. apply elem_of_app. by right.
    - assert (after <> []) by (by destruct after). assert (mid ++ after <> []) by (by destruct mid, after).
      rewrite segment_files_app, Z.add_0_l, segment_files_app by done. fold hb. rewrite !elem_of_app. auto. }
  { unfold v. cbn [vi_observed]. apply val_inj. unfold observed_at.
    rewrite val_u64_of_small; cbn; lia. }
  erewrite M_bind_run by exact Hrun. rewrite Hst.
  assert (Ehm : last_head HEAD_EMPTY (concat (before ++ mid)) = last_head hb (concat mid))
    by (by rewrite concat_app, last_head_app).
  rewrite Ehm in Hm.
  set (n := rev (range_end_inclusive range) - rev (range_start range)) in *.
  destruct (checked_in 0 (2 ^ 64) n) as (n64 & Hn & En); [unfold n; lia|].
  destruct (checked_in 0 (2 ^ 64) (val n64 + 1)) as (e64 & He64 & Ee); [unfold n in *; lia|].
  rewrite Hn. cbn [mbind option_bind]. unfold u64_checked_add. rewrite He64.
  erewrite M_bind_run by reflexivity.
  rewrite bool_decide_eq_true_2.
  2: { rewrite Ho. apply val_inj. unfold observed_at. rewrite val_u64_of_small; unfold n in *; lia. }
  erewrite M_bind_run by reflexivity. unfold mret, M_ret. do 3 f_equal.
  rewrite E. unfold layout_events. rewrite !concat_app, !map_app, !concat_app, !List.filter_app.
  fold (layout_events before) (layout_events mid) (layout_events after).
  rewrite (filter_false _ (layout_events before)), (filter_false _ (layout_events after)); [by rewrite app_nil_r| |].
  - intros e Hin. apply list_elem_of_lookup_1 in Hin as (k & Hk). apply layout_numbered in Hoka.
    unfold in_range_event. rewrite (Hoka k e Hk).
    apply andb_false_iff. right. apply Z.leb_gt. lia.
  - intros e Hin. apply list_elem_of_lookup_1 in Hin as (k & Hk).
    pose proof (layout_end _ _ _ Hokb) as Eb. fold hb in Eb. apply layout_numbered in Hokb.
    unfold in_range_event. rewrite (Hokb k e Hk). apply lookup_lt_Some in Hk.
    change (rev (head_revision HEAD_EMPTY)) with 0 in *.
    apply andb_false_iff. left. apply Z.leb_gt. lia.
Qed.

End RangeFacts.
