(* ===== verification/Projection.v ===== *)
(** The index projection of a thread (thread-store: projection.rs): what the
    thread list and the restore path keep of a journal, folded event by event,
    with the checkpoints that let a reader scan the transcript from a recent
    turn. *)

From S2P Require Import Prelude Canonical Events Disk Text.

Open Scope string_scope.
Open Scope list_scope.
Open Scope Z_scope.

Definition RECENT_TURN_CHECKPOINT_CAPACITY : nat := 256.
Definition DYNAMIC_TOOLS_DIGEST_DOMAIN : string := "praxis.thread-store.dynamic-tools.v1".

(** * Data *)

Record ThreadSummary := {
  su_thread_id : ThreadId;
  su_revision : ThreadRevision;
  su_source : string;
  su_workspace : string;
  su_name : option string;
  su_summary : option string;
  su_archived : bool;
  su_created_at_unix_ms : i64;
  su_updated_at_unix_ms : i64;
  su_preview : option string;
  su_first_user_message : option string;
  su_total_cost_micros : option i64;
  su_last_cost_micros : option i64;
  su_model : option string;
  su_model_provider : option string;
  su_reasoning_effort : option string
}.

Record TurnCheckpoint := {
  tc_ordinal : u64;
  tc_scan_after : ThreadRevision;
  tc_previous_agent_sequence : option u64
}.

Record NativeTranscriptIndex := {
  ti_total_turns : u64;
  ti_checkpoints : list TurnCheckpoint;
  ti_through_revision : ThreadRevision;
  ti_frontier_sequence : option u64
}.

Record ThreadIndexProjection := {
  pr_summary : ThreadSummary;
  pr_last_agent_sequence : u64;
  pr_model_context_checkpoint : option ThreadRevision;
  pr_dynamic_tools_digest : option Digest;
  pr_agent_event_metadata_generation : u32;
  pr_transcript_index : NativeTranscriptIndex
}.

Record TranscriptScanPlan := {
  sp_turns_before : u64;
  sp_scan_after : ThreadRevision;
  sp_through_revision : ThreadRevision;
  sp_previous_agent_sequence : option u64
}.

Inductive ThreadIndexMutation :=
  | MutUnchanged
  | MutName (value : option string)
  | MutSummary (value : option string)
  | MutArchived (value : bool)
  | MutWorkspace (value : string)
  | MutPreview (value : option string)
  | MutPreviewSnapshot (preview first_user_message : option string)
  | MutUserMessage (value : string)
  | MutCost (value : option i64)
  | MutResumeConfig (model provider effort : option string)
  | MutNativeAgent (sequence : u64) (turn_started : bool)
  | MutModelContextCheckpoint (checkpoint : option ThreadRevision)
  | MutDynamicTools (tools : ContentRef)
  | MutAgentEventMetadataGeneration (generation : u32)
  | MutAgentEventTimeline (generation : u32) (created_at updated_at : option i64).

Inductive ThreadIndexAccumulator :=
  | AwaitingCreation
  | Projected (projection : ThreadIndexProjection)
  | Rejected.

(** * Transcript checkpoints *)

Definition NativeTranscriptIndex_default : NativeTranscriptIndex := {|
  ti_total_turns := u64_zero; ti_checkpoints := [];
  ti_through_revision := REVISION_ZERO; ti_frontier_sequence := None |}.

Definition u64_min (x y : u64) : u64 := if val x <=? val y then x else y.
Definition u64_max (x y : u64) : u64 := if val x <=? val y then y else x.

(** [plan_from_checkpoint]; a [usize] holds 64 bits. *)
Definition plan_from_checkpoint (index : NativeTranscriptIndex) (first_turn : u64)
    (checkpoint : option TurnCheckpoint) : option TranscriptScanPlan :=
  let first_turn := u64_min first_turn (ti_total_turns index) in
  if val first_turn =? 0 then
    Some {| sp_turns_before := u64_zero;
            sp_scan_after := REVISION_ZERO;
            sp_through_revision := ti_through_revision index;
            sp_previous_agent_sequence := None |}
  else if bool_decide (first_turn = ti_total_turns index) then
    Some {| sp_turns_before := first_turn;
            sp_scan_after := ti_through_revision index;
            sp_through_revision := ti_through_revision index;
            sp_previous_agent_sequence := ti_frontier_sequence index |}
  else
    checkpoint ← checkpoint;
    if bool_decide (tc_ordinal checkpoint = first_turn) then
      Some {| sp_turns_before := first_turn;
              sp_scan_after := tc_scan_after checkpoint;
              sp_through_revision := ti_through_revision index;
              sp_previous_agent_sequence := tc_previous_agent_sequence checkpoint |}
    else None.

Definition plan_from (index : NativeTranscriptIndex) (first_turn : u64) : option TranscriptScanPlan :=
  let checkpoint :=
    List.find (fun checkpoint => bool_decide (tc_ordinal checkpoint = u64_min first_turn (ti_total_turns index)))
      (ti_checkpoints index) in
  plan_from_checkpoint index first_turn checkpoint.

(** The loop that keeps the most recent checkpoints. *)
Fixpoint pop_checkpoints (checkpoints : list TurnCheckpoint) : list TurnCheckpoint :=
  match checkpoints with
  | [] => []
  | checkpoint :: rest =>
      if (RECENT_TURN_CHECKPOINT_CAPACITY <? length (checkpoint :: rest))%nat
      then pop_checkpoints rest else checkpoint :: rest
  end.

Definition native_turn_started (revision : ThreadRevision) (previous_agent_sequence : option u64)
    (index : NativeTranscriptIndex) : NativeTranscriptIndex :=
  let checkpoint := {|
    tc_ordinal := ti_total_turns index;
    tc_scan_after := revision_new (u64_saturating_sub (revision_get revision) 1);
    tc_previous_agent_sequence := previous_agent_sequence |} in
  {| ti_total_turns := u64_saturating_add (ti_total_turns index) 1;
     ti_checkpoints := pop_checkpoints (ti_checkpoints index ++ [checkpoint]);
     ti_through_revision := ti_through_revision index;
     ti_frontier_sequence := ti_frontier_sequence index |}.

(** * Previews *)

(** [char_indices().nth(n)] cuts before the character with index [n]. *)
Fixpoint char_prefix (n : nat) (l : bytes) : bytes :=
  match l with
  | [] => []
  | b :: l =>
      if starts_char b then
        match n with O => [] | S n => b :: char_prefix n l end
      else b :: char_prefix n l
  end.

Definition PREVIEW_MAX_CHARS : nat := 160.

Definition preview (text : string) : string :=
  String.string_of_list_byte (char_prefix PREVIEW_MAX_CHARS (str_bytes text)).

Definition content_preview (content : ContentRef) : option string :=
  match content with
  | InlineText text => Some (preview text)
  | Artifact _ _ _ => None
  end.

(** * Setting fields *)

Definition set_su_revision x '(Build_ThreadSummary t _ so w n su a c u p f tc lc m mp re) :=
  Build_ThreadSummary t x so w n su a c u p f tc lc m mp re.
Definition set_su_workspace x '(Build_ThreadSummary t r so _ n su a c u p f tc lc m mp re) :=
  Build_ThreadSummary t r so x n su a c u p f tc lc m mp re.
Definition set_su_name x '(Build_ThreadSummary t r so w _ su a c u p f tc lc m mp re) :=
  Build_ThreadSummary t r so w x su a c u p f tc lc m mp re.
Definition set_su_summary x '(Build_ThreadSummary t r so w n _ a c u p f tc lc m mp re) :=
  Build_ThreadSummary t r so w n x a c u p f tc lc m mp re.
Definition set_su_archived x '(Build_ThreadSummary t r so w n su _ c u p f tc lc m mp re) :=
  Build_ThreadSummary t r so w n su x c u p f tc lc m mp re.
Definition set_su_created_at x '(Build_ThreadSummary t r so w n su a _ u p f tc lc m mp re) :=
  Build_ThreadSummary t r so w n su a x u p f tc lc m mp re.
Definition set_su_updated_at x '(Build_ThreadSummary t r so w n su a c _ p f tc lc m mp re) :=
  Build_ThreadSummary t r so w n su a c x p f tc lc m mp re.
Definition set_su_preview x '(Build_ThreadSummary t r so w n su a c u _ f tc lc m mp re) :=
  Build_ThreadSummary t r so w n su a c u x f tc lc m mp re.
Definition set_su_first_user_message x '(Build_ThreadSummary t r so w n su a c u p _ tc lc m mp re) :=
  Build_ThreadSummary t r so w n su a c u p x tc lc m mp re.
Definition set_su_total_cost x '(Build_ThreadSummary t r so w n su a c u p f _ lc m mp re) :=
  Build_ThreadSummary t r so w n su a c u p f x lc m mp re.
Definition set_su_last_cost x '(Build_ThreadSummary t r so w n su a c u p f tc _ m mp re) :=
  Build_ThreadSummary t r so w n su a c u p f tc x m mp re.
Definition set_su_resume x y z '(Build_ThreadSummary t r so w n su a c u p f tc lc _ _ _) :=
  Build_ThreadSummary t r so w n su a c u p f tc lc x y z.

Definition on_summary (f : ThreadSummary -> ThreadSummary) (p : ThreadIndexProjection) : ThreadIndexProjection :=
  {| pr_summary := f (pr_summary p); pr_last_agent_sequence := pr_last_agent_sequence p;
     pr_model_context_checkpoint := pr_model_context_checkpoint p;
     pr_dynamic_tools_digest := pr_dynamic_tools_digest p;
     pr_agent_event_metadata_generation := pr_agent_event_metadata_generation p;
     pr_transcript_index := pr_transcript_index p |}.

Definition on_transcript (f : NativeTranscriptIndex -> NativeTranscriptIndex) (p : ThreadIndexProjection) :=
  {| pr_summary := pr_summary p; pr_last_agent_sequence := pr_last_agent_sequence p;
     pr_model_context_checkpoint := pr_model_context_checkpoint p;
     pr_dynamic_tools_digest := pr_dynamic_tools_digest p;
     pr_agent_event_metadata_generation := pr_agent_event_metadata_generation p;
     pr_transcript_index := f (pr_transcript_index p) |}.

Definition set_last_agent_sequence x (p : ThreadIndexProjection) : ThreadIndexProjection :=
  {| pr_summary := pr_summary p; pr_last_agent_sequence := x;
     pr_model_context_checkpoint := pr_model_context_checkpoint p;
     pr_dynamic_tools_digest := pr_dynamic_tools_digest p;
     pr_agent_event_metadata_generation := pr_agent_event_metadata_generation p;
     pr_transcript_index := pr_transcript_index p |}.

Definition set_model_context_checkpoint x (p : ThreadIndexProjection) : ThreadIndexProjection :=
  {| pr_summary := pr_summary p; pr_last_agent_sequence := pr_last_agent_sequence p;
     pr_model_context_checkpoint := x; pr_dynamic_tools_digest := pr_dynamic_tools_digest p;
     pr_agent_event_metadata_generation := pr_agent_event_metadata_generation p;
     pr_transcript_index := pr_transcript_index p |}.

Definition set_dynamic_tools_digest x (p : ThreadIndexProjection) : ThreadIndexProjection :=
  {| pr_summary := pr_summary p; pr_last_agent_sequence := pr_last_agent_sequence p;
     pr_model_context_checkpoint := pr_model_context_checkpoint p; pr_dynamic_tools_digest := x;
     pr_agent_event_metadata_generation := pr_agent_event_metadata_generation p;
     pr_transcript_index := pr_transcript_index p |}.

Definition set_agent_event_metadata_generation x (p : ThreadIndexProjection) : ThreadIndexProjection :=
  {| pr_summary := pr_summary p; pr_last_agent_sequence := pr_last_agent_sequence p;
     pr_model_context_checkpoint := pr_model_context_checkpoint p;
     pr_dynamic_tools_digest := pr_dynamic_tools_digest p;
     pr_agent_event_metadata_generation := x; pr_transcript_index := pr_transcript_index p |}.

Definition set_through_revision x (i : NativeTranscriptIndex) : NativeTranscriptIndex :=
  {| ti_total_turns := ti_total_turns i; ti_checkpoints := ti_checkpoints i;
     ti_through_revision := x; ti_frontier_sequence := ti_frontier_sequence i |}.

Definition set_frontier_sequence x (i : NativeTranscriptIndex) : NativeTranscriptIndex :=
  {| ti_total_turns := ti_total_turns i; ti_checkpoints := ti_checkpoints i;
     ti_through_revision := ti_through_revision i; ti_frontier_sequence := x |}.

(** * The fold *)

Section Projection.
Context `{External}.

Definition dynamic_tools_digest (tools : ContentRef) : Digest :=
  canonical_digest DYNAMIC_TOOLS_DIGEST_DOMAIN tools.

Definition dynamic_tools_match (tools : ContentRef) (p : ThreadIndexProjection) : bool :=
  bool_decide (pr_dynamic_tools_digest p = Some (dynamic_tools_digest tools)).

Definition from_created (event : ThreadEventEnvelope) : option ThreadIndexProjection :=
  match ev_body event with
  | ThreadCreated source workspace _ =>
      Some {|
        pr_summary := {|
          su_thread_id := ev_thread_id event;
          su_revision := ev_revision event;
          su_source := source;
          su_workspace := workspace;
          su_name := None;
          su_summary := None;
          su_archived := false;
          su_created_at_unix_ms := ev_recorded_at_unix_ms event;
          su_updated_at_unix_ms := ev_recorded_at_unix_ms event;
          su_preview := None;
          su_first_user_message := None;
          su_total_cost_micros := None;
          su_last_cost_micros := None;
          su_model := None;
          su_model_provider := None;
          su_reasoning_effort := None |};
        pr_last_agent_sequence := u64_zero;
        pr_model_context_checkpoint := None;
        pr_dynamic_tools_digest := None;
        pr_agent_event_metadata_generation := u32_of 0;
        pr_transcript_index := set_through_revision (ev_revision event) NativeTranscriptIndex_default |}
  | _ => None
  end.

Definition mutation_from_event (event : ThreadEventEnvelope) : ThreadIndexMutation :=
  match ev_body event with
  | ThreadNameSet name => MutName name
  | ThreadSummarySet summary => MutSummary summary
  | ThreadArchived archived => MutArchived archived
  | ThreadWorkspaceSet workspace => MutWorkspace workspace
  | NativeAgentEventRecorded agent_sequence _ _ route _ =>
      MutNativeAgent agent_sequence (bool_decide (route = RouteTurnStarted))
  | ModelContextSnapshotReplaced basis_revision _ =>
      MutModelContextCheckpoint
        (if rev basis_revision <? rev (ev_revision event) then Some basis_revision else None)
  | ModelContextRolledBack _ => MutModelContextCheckpoint None
  | ThreadDynamicToolsSet tools => MutDynamicTools tools
  | ThreadPreviewSet preview first_user_message => MutPreviewSnapshot preview first_user_message
  | AgentEventMetadataReconciled generation => MutAgentEventMetadataGeneration generation
  | AgentEventTimelineReconciled generation created_at updated_at =>
      MutAgentEventTimeline generation created_at updated_at
  | TurnCostRecorded cost_micros => MutCost cost_micros
  | ThreadResumeConfigSet model model_provider reasoning_effort =>
      MutResumeConfig model model_provider reasoning_effort
  | TranscriptItemCreated _ _ UserMessage content =>
      match content_preview content with
      | None => MutPreview None
      | Some value => MutUserMessage value
      end
  | TranscriptItemCreated _ _ _ content | TranscriptItemFinalized _ content =>
      MutPreview (content_preview content)
  | ContentRedacted _ replacement _ => MutPreview (replacement ← replacement; content_preview replacement)
  | _ => MutUnchanged
  end.

Definition mutation_apply (m : ThreadIndexMutation) (revision : ThreadRevision)
    (p : ThreadIndexProjection) : ThreadIndexProjection :=
  match m with
  | MutUnchanged => p
  | MutName value => on_summary (set_su_name value) p
  | MutSummary value => on_summary (set_su_summary value) p
  | MutArchived value => on_summary (set_su_archived value) p
  | MutWorkspace value => on_summary (set_su_workspace value) p
  | MutPreview value => on_summary (set_su_preview value) p
  | MutPreviewSnapshot preview first_user_message =>
      on_summary (set_su_first_user_message first_user_message) (on_summary (set_su_preview preview) p)
  | MutUserMessage value =>
      let p := on_summary (set_su_preview (Some value)) p in
      match su_first_user_message (pr_summary p) with
      | None => on_summary (set_su_first_user_message (Some value)) p
      | Some _ => p
      end
  | MutCost value =>
      let p := on_summary (set_su_last_cost value) p in
      match value with
      | None => p
      | Some value =>
          on_summary (set_su_total_cost
            (Some (i64_saturating_add (default (i64_of 0) (su_total_cost_micros (pr_summary p))) value))) p
      end
  | MutResumeConfig model provider effort => on_summary (set_su_resume model provider effort) p
  | MutNativeAgent sequence turn_started =>
      let previous := if negb (val (pr_last_agent_sequence p) =? 0)
                      then Some (pr_last_agent_sequence p) else None in
      let p := if (turn_started : bool) then on_transcript (native_turn_started revision previous) p else p in
      let p := set_last_agent_sequence (u64_max (pr_last_agent_sequence p) sequence) p in
      on_transcript (set_frontier_sequence (Some (pr_last_agent_sequence p))) p
  | MutModelContextCheckpoint checkpoint => set_model_context_checkpoint checkpoint p
  | MutDynamicTools tools => set_dynamic_tools_digest (Some (dynamic_tools_digest tools)) p
  | MutAgentEventMetadataGeneration generation => set_agent_event_metadata_generation generation p
  | MutAgentEventTimeline generation created_at updated_at =>
      let p := set_agent_event_metadata_generation generation p in
      let p := match created_at with
               | Some created_at => on_summary (set_su_created_at created_at) p
               | None => p
               end in
      match updated_at with
      | Some updated_at => on_summary (set_su_updated_at updated_at) p
      | None => p
      end
  end.

(** The event [push] applies to a projection behind it. *)
Definition project_event (event : ThreadEventEnvelope) (p : ThreadIndexProjection) : ThreadIndexProjection :=
  let p := on_summary (set_su_revision (ev_revision event)) p in
  let p := on_summary (set_su_updated_at (ev_recorded_at_unix_ms event)) p in
  let p := on_transcript (set_through_revision (ev_revision event)) p in
  mutation_apply (mutation_from_event event) (ev_revision event) p.

Definition accumulator_push (a : ThreadIndexAccumulator) (event : ThreadEventEnvelope)
    : ThreadIndexAccumulator :=
  let a := match a with
           | AwaitingCreation =>
               match from_created event with Some p => Projected p | None => Rejected end
           | a => a
           end in
  match a with
  | Projected p =>
      if rev (ev_revision event) <=? rev (su_revision (pr_summary p)) then Projected p
      else Projected (project_event event p)
  | a => a
  end.

Definition accumulator_revision (a : ThreadIndexAccumulator) : option ThreadRevision :=
  match a with Projected p => Some (su_revision (pr_summary p)) | _ => None end.

Definition accumulator_finish (a : ThreadIndexAccumulator) : option ThreadIndexProjection :=
  match a with Projected p => Some p | _ => None end.

Definition accumulate (events : list ThreadEventEnvelope) (a : ThreadIndexAccumulator)
    : ThreadIndexAccumulator := fold_left accumulator_push events a.

(** The projection of a journal, from its first event. *)
Definition project (events : list ThreadEventEnvelope) : option ThreadIndexProjection :=
  accumulator_finish (accumulate events AwaitingCreation).

End Projection.
