(* ===== verification/ProjectionFacts.v ===== *)
(** Facts about the index projection: what a fold over numbered events leaves,
    resuming from the projection of a prefix, the transcript checkpoints, and
    the cut of a preview. *)

From S2P Require Import Prelude Canonical Events Disk Text TextFacts RangeFacts Projection.

Open Scope string_scope.
Open Scope list_scope.
Open Scope Z_scope.

Section Facts.
Context `{External}.
Implicit Types (p : ThreadIndexProjection) (e : ThreadEventEnvelope) (es : list ThreadEventEnvelope).

(** * One event *)

Ltac by_mutation :=
  repeat (first [case_match | progress cbn]).

Ltac transcript_fields :=
  cbn [on_transcript on_summary set_through_revision pr_transcript_index set_last_agent_sequence
    native_turn_started set_frontier_sequence pr_last_agent_sequence ti_total_turns ti_frontier_sequence
    ti_checkpoints ti_through_revision].

Lemma set_su_revision_thread x s : su_thread_id (set_su_revision x s) = su_thread_id s.
Proof. by destruct s. Qed.

Lemma mutation_apply_fixed m r p :
  su_revision (pr_summary (mutation_apply m r p)) = su_revision (pr_summary p) /\
  su_thread_id (pr_summary (mutation_apply m r p)) = su_thread_id (pr_summary p) /\
  ti_through_revision (pr_transcript_index (mutation_apply m r p)) = ti_through_revision (pr_transcript_index p).
Proof. destruct p as [[] ? ? ? ? []], m; cbn; by_mutation; done. Qed.

(** What the mutations that are not about the agent leave of the transcript. *)
Lemma mutation_apply_transcript m r p :
  (forall s b, m <> MutNativeAgent s b) ->
  pr_transcript_index (mutation_apply m r p) = pr_transcript_index p /\
  pr_last_agent_sequence (mutation_apply m r p) = pr_last_agent_sequence p.
Proof. intros Hm. destruct p as [[] ? ? ? ? []], m; cbn; by_mutation; try done; by destruct (Hm _ _ eq_refl). Qed.

Lemma project_event_fixed e p :
  su_revision (pr_summary (project_event e p)) = ev_revision e /\
  su_thread_id (pr_summary (project_event e p)) = su_thread_id (pr_summary p) /\
  ti_through_revision (pr_transcript_index (project_event e p)) = ev_revision e.
Proof.
  unfold project_event. destruct (mutation_apply_fixed (mutation_from_event e) (ev_revision e)
    (on_transcript (set_through_revision (ev_revision e))
      (on_summary (set_su_updated_at (ev_recorded_at_unix_ms e)) (on_summary (set_su_revision (ev_revision e)) p))))
    as (-> & -> & ->). by destruct p as [[] ? ? ? ? []].
Qed.

Lemma from_created_fixed e p :
  from_created e = Some p ->
  su_revision (pr_summary p) = ev_revision e /\ su_thread_id (pr_summary p) = ev_thread_id e /\
  pr_last_agent_sequence p = u64_zero /\
  pr_transcript_index p = set_through_revision (ev_revision e) NativeTranscriptIndex_default.
Proof. unfold from_created. destruct (ev_body e); try discriminate. by intros [= <-]. Qed.

(** * Folding numbered events *)

Definition project_all es p : ThreadIndexProjection := fold_left (fun p e => project_event e p) es p.

Lemma accumulate_new r es p :
  numbered r es -> rev (su_revision (pr_summary p)) = r ->
  accumulate es (Projected p) = Projected (project_all es p).
Proof.
  revert r p. induction es as [|e es IH]; intros r p Hn Hr; [done|].
  apply numbered_cons in Hn as [He Hn]. unfold accumulate, project_all in *. cbn [fold_left].
  unfold accumulator_push at 2. rewrite (proj2 (Z.leb_gt _ _)) by lia.
  apply (IH (r + 1)); [done|]. destruct (project_event_fixed e p) as (-> & _). done.
Qed.

Lemma accumulate_old r es p :
  numbered r es -> r + len es <= rev (su_revision (pr_summary p)) ->
  accumulate es (Projected p) = Projected p.
Proof.
  revert r. induction es as [|e es IH]; intros r Hn Hr; [done|].
  apply numbered_cons in Hn as [He Hn]. unfold accumulate in *. cbn [fold_left].
  cbn [length] in Hr. unfold accumulator_push at 2. rewrite (proj2 (Z.leb_le _ _)) by lia.
  apply (IH (r + 1)); [done|lia].
Qed.

Lemma accumulate_app es1 es2 a : accumulate (es1 ++ es2) a = accumulate es2 (accumulate es1 a).
Proof. apply fold_left_app. Qed.

Lemma project_cons e es p0 :
  numbered 0 (e :: es) -> from_created e = Some p0 -> project (e :: es) = Some (project_all es p0).
Proof.
  intros Hn Hp. unfold project, accumulate. cbn [fold_left]. apply numbered_cons in Hn as [He Hn].
  unfold accumulator_push at 2. rewrite Hp. destruct (from_created_fixed _ _ Hp) as (Er & _).
  rewrite (proj2 (Z.leb_le _ _)) by (rewrite Er; lia).
  change (fold_left accumulator_push es (Projected p0)) with (accumulate es (Projected p0)).
  rewrite (accumulate_new 1) by (try done; rewrite Er; lia). done.
Qed.

Lemma project_cons_inv e es p : numbered 0 (e :: es) -> project (e :: es) = Some p ->
  exists p0, from_created e = Some p0 /\ p = project_all es p0.
Proof.
  intros Hn Hp. destruct (from_created e) as [p0|] eqn:E.
  - rewrite (project_cons _ _ _ Hn E) in Hp. injection Hp as <-. eauto.
  - unfold project, accumulate in Hp. cbn [fold_left] in Hp. unfold accumulator_push at 2 in Hp. rewrite E in Hp.
    exfalso. revert Hp. clear. induction es as [|e es IH]; [done|]. apply IH.
Qed.

Lemma numbered_length_last r es e : numbered r (es ++ [e]) -> rev (ev_revision e) = r + len es + 1.
Proof.
  intros Hn. apply (Hn (length es)). by apply list_lookup_middle.
Qed.

Lemma project_all_revision r es p :
  numbered r es -> rev (su_revision (pr_summary p)) = r ->
  rev (su_revision (pr_summary (project_all es p))) = r + len es.
Proof.
  revert r p. induction es as [|e es IH]; intros r p Hn Hr; [cbn; lia|].
  apply numbered_cons in Hn as [He Hn]. unfold project_all in *. cbn [fold_left length].
  rewrite (IH (r + 1)); [lia|done|]. by destruct (project_event_fixed e p) as (-> & _).
Qed.

Lemma project_revision es p :
  numbered 0 es -> project es = Some p -> rev (su_revision (pr_summary p)) = len es.
Proof.
  destruct es as [|e es]; [done|]. intros Hn Hp. destruct (project_cons_inv _ _ _ Hn Hp) as (p0 & H0 & ->).
  destruct (from_created_fixed _ _ H0) as (Er & _). apply numbered_cons in Hn as [He Hn].
  rewrite (project_all_revision 1) by (try done; rewrite Er; lia). cbn [length]. lia.
Qed.

(** A projection taken after a prefix, fed the whole journal again, becomes the
    projection of the whole journal. *)
Lemma accumulate_resumed es1 es2 p :
  numbered 0 (es1 ++ es2) -> project es1 = Some p ->
  accumulate (es1 ++ es2) (Projected p) = accumulate (es1 ++ es2) AwaitingCreation.
Proof.
  intros Hn Hp. pose proof (numbered_split _ _ _ Hn) as [Hn1 Hn2].
  pose proof (project_revision _ _ Hn1 Hp) as Hr.
  rewrite !accumulate_app. rewrite (accumulate_old 0) by (try done; lia).
  f_equal. unfold project in Hp. destruct (accumulate es1 AwaitingCreation); try done. by injection Hp as ->.
Qed.

(** * The transcript *)

Definition agent_event e : option (u64 * bool) :=
  match ev_body e with
  | NativeAgentEventRecorded agent_sequence _ _ route _ =>
      Some (agent_sequence, bool_decide (route = RouteTurnStarted))
  | _ => None
  end.

Definition starts_turn e : bool := match agent_event e with Some (_, started) => started | None => false end.
Definition agent_sequence_of e : Z := match agent_event e with Some (s, _) => val s | None => 0 end.

(** The turns that some events start, and the highest agent sequence in them. *)
Definition turns es : Z := len (List.filter starts_turn es).
Definition agent_max es : Z := fold_left (fun z e => Z.max z (agent_sequence_of e)) es 0.

Lemma turns_app es1 es2 : turns (es1 ++ es2) = turns es1 + turns es2.
Proof. unfold turns. rewrite List.filter_app, length_app. lia. Qed.

Lemma turns_one e : turns [e] = if starts_turn e then 1 else 0.
Proof. unfold turns. cbn [List.filter]. by destruct (starts_turn e). Qed.

Lemma turns_bounds es : 0 <= turns es <= len es.
Proof. unfold turns. pose proof (filter_length_le starts_turn es). lia. Qed.

Lemma agent_max_snoc es e : agent_max (es ++ [e]) = Z.max (agent_max es) (agent_sequence_of e).
Proof. unfold agent_max. by rewrite fold_left_app. Qed.

Lemma agent_sequence_bounds e : 0 <= agent_sequence_of e < 2 ^ 64.
Proof. unfold agent_sequence_of. destruct (agent_event e) as [[s ?]|]; [apply val_bounds|lia]. Qed.

Lemma agent_max_bounds es : 0 <= agent_max es < 2 ^ 64.
Proof.
  induction es as [|e es IH] using rev_ind; [cbn; lia|]. rewrite agent_max_snoc.
  pose proof (agent_sequence_bounds e). lia.
Qed.

(** The checkpoint of the turn that [e] starts after the events [before]. *)
Definition checkpoint_at (before : list ThreadEventEnvelope) e : TurnCheckpoint := {|
  tc_ordinal := u64_of (turns before);
  tc_scan_after := revision_of (rev (ev_revision e) - 1);
  tc_previous_agent_sequence := if agent_max before =? 0 then None else Some (u64_of (agent_max before)) |}.

Fixpoint all_checkpoints (before es : list ThreadEventEnvelope) : list TurnCheckpoint :=
  match es with
  | [] => []
  | e :: es => (if starts_turn e then [checkpoint_at before e] else []) ++ all_checkpoints (before ++ [e]) es
  end.

Lemma all_checkpoints_app before es1 es2 :
  all_checkpoints before (es1 ++ es2) = all_checkpoints before es1 ++ all_checkpoints (before ++ es1) es2.
Proof.
  revert before. induction es1 as [|e es1 IH]; intros before; cbn [app all_checkpoints].
  - by rewrite app_nil_r.
  - rewrite IH. cbn [app]. by rewrite <- !app_assoc.
Qed.

Lemma all_checkpoints_length before es : len (all_checkpoints before es) = turns es.
Proof.
  revert before. induction es as [|e es IH]; intros before; [done|].
  change (e :: es) with ([e] ++ es). rewrite turns_app, turns_one, all_checkpoints_app, length_app.
  cbn [all_checkpoints app]. rewrite <- (IH (before ++ [e])). rewrite app_nil_r. destruct (starts_turn e); cbn; lia.
Qed.

Lemma all_checkpoints_lookup before es k c :
  all_checkpoints before es !! k = Some c ->
  exists es1 e es2, es = es1 ++ e :: es2 /\ starts_turn e = true /\ turns es1 = Z.of_nat k /\
    c = checkpoint_at (before ++ es1) e.
Proof.
  revert before k. induction es as [|e es IH]; intros before k Hk; [done|]. cbn [all_checkpoints] in Hk.
  destruct (starts_turn e) eqn:Es; [destruct k as [|k]|]; cbn [app] in Hk.
  - injection Hk as <-. exists [], e, es. by rewrite app_nil_r.
  - apply IH in Hk as (es1 & e' & es2 & -> & ? & Ht & ->). exists (e :: es1), e', es2. do 2 (split; [done|]).
    change (e :: es1) with ([e] ++ es1). rewrite turns_app, turns_one, Es, app_assoc. split; [lia|done].
  - apply IH in Hk as (es1 & e' & es2 & -> & ? & Ht & ->). exists (e :: es1), e', es2. do 2 (split; [done|]).
    change (e :: es1) with ([e] ++ es1). rewrite turns_app, turns_one, Es, app_assoc. split; [lia|done].
Qed.

Lemma pop_checkpoints_drop l :
  pop_checkpoints l = drop (length l - RECENT_TURN_CHECKPOINT_CAPACITY) l.
Proof.
  induction l as [|c l IH]; [done|]. cbn [pop_checkpoints].
  destruct (Nat.ltb_spec RECENT_TURN_CHECKPOINT_CAPACITY (length (c :: l))) as [Hl|Hl]; rewrite ?IH.
  - replace (length (c :: l) - _)%nat with (S (length l - RECENT_TURN_CHECKPOINT_CAPACITY)) by (cbn [length] in *; lia).
    done.
  - by replace (length (c :: l) - _)%nat with 0%nat by lia.
Qed.

Lemma pop_checkpoints_snoc l c :
  pop_checkpoints (drop (length l - RECENT_TURN_CHECKPOINT_CAPACITY) l ++ [c])
    = drop (length (l ++ [c]) - RECENT_TURN_CHECKPOINT_CAPACITY) (l ++ [c]).
Proof.
  rewrite pop_checkpoints_drop, !length_app, length_drop. cbn [length].
  rewrite !drop_app, drop_drop, length_drop. f_equal; f_equal; lia.
Qed.

(** The transcript index of the projection of some events. *)
Record transcript_ok es p : Prop := {
  to_total : val (ti_total_turns (pr_transcript_index p)) = turns es;
  to_last : val (pr_last_agent_sequence p) = agent_max es;
  to_frontier : from_option val 0 (ti_frontier_sequence (pr_transcript_index p)) = agent_max es;
  to_checkpoints : ti_checkpoints (pr_transcript_index p)
    = drop (length (all_checkpoints [] es) - RECENT_TURN_CHECKPOINT_CAPACITY) (all_checkpoints [] es);
  to_through : rev (ti_through_revision (pr_transcript_index p)) = len es
}.

Lemma mutation_agent e s b : agent_event e = Some (s, b) -> mutation_from_event e = MutNativeAgent s b.
Proof. unfold agent_event, mutation_from_event. destruct (ev_body e); try discriminate. by intros [= <- <-]. Qed.

Lemma mutation_not_agent e s b : agent_event e = None -> mutation_from_event e <> MutNativeAgent s b.
Proof. unfold agent_event, mutation_from_event. destruct (ev_body e); repeat case_match; try discriminate; done. Qed.

Lemma u64_max_val x y : val (u64_max x y) = Z.max (val x) (val y).
Proof. unfold u64_max. destruct (Z.leb_spec (val x) (val y)); lia. Qed.

Lemma u64_of_nonzero (x : u64) z : val x = z ->
  (if negb (val x =? 0) then Some x else None) = (if z =? 0 then None else Some (u64_of z)).
Proof. intros <-. rewrite u64_of_val. by destruct (val x =? 0). Qed.

Lemma transcript_ok_not_agent es e p :
  transcript_ok es p -> agent_event e = None -> rev (ev_revision e) = len es + 1 ->
  transcript_ok (es ++ [e]) (project_event e p).
Proof.
  intros [Ht Hl Hf Hc Hth] He Hrev.
  assert (Hs : starts_turn e = false) by (unfold starts_turn; by rewrite He).
  assert (Ha : agent_sequence_of e = 0) by (unfold agent_sequence_of; by rewrite He).
  pose proof (agent_max_bounds es). unfold project_event.
  destruct (mutation_apply_transcript (mutation_from_event e) (ev_revision e)
    (on_transcript (set_through_revision (ev_revision e))
      (on_summary (set_su_updated_at (ev_recorded_at_unix_ms e)) (on_summary (set_su_revision (ev_revision e)) p))))
    as [Ei El]; [intros s b; by apply mutation_not_agent|].
  split; rewrite ?Ei, ?El; transcript_fields.
  - rewrite turns_app, turns_one, Hs. lia.
  - rewrite agent_max_snoc. lia.
  - rewrite agent_max_snoc. lia.
  - rewrite all_checkpoints_app. cbn [all_checkpoints app]. by rewrite Hs, !app_nil_r.
  - rewrite length_app. cbn [length]. lia.
Qed.

Lemma transcript_ok_agent es e s b p :
  transcript_ok es p -> agent_event e = Some (s, b) -> rev (ev_revision e) = len es + 1 ->
  transcript_ok (es ++ [e]) (project_event e p).
Proof.
  intros [Ht Hl Hf Hc Hth] He Hrev.
  assert (Hs : starts_turn e = b) by (unfold starts_turn; by rewrite He).
  assert (Ha : agent_sequence_of e = val s) by (unfold agent_sequence_of; by rewrite He).
  pose proof (turns_bounds es). pose proof (rev_bounds (ev_revision e)).
  assert (Hprev : (if negb (val (pr_last_agent_sequence p) =? 0) then Some (pr_last_agent_sequence p) else None)
                  = tc_previous_agent_sequence (checkpoint_at es e)) by (by apply u64_of_nonzero).
  assert (Hscan : revision_new (u64_saturating_sub (revision_get (ev_revision e)) 1) = tc_scan_after (checkpoint_at es e)).
  { unfold checkpoint_at, revision_of. cbn [tc_scan_after]. f_equal. unfold u64_saturating_sub.
    change (val (revision_get (ev_revision e))) with (rev (ev_revision e)). f_equal. lia. }
  assert (Hord : ti_total_turns (pr_transcript_index p) = tc_ordinal (checkpoint_at es e)).
  { cbn [checkpoint_at tc_ordinal]. by rewrite <- Ht, u64_of_val. }
  unfold project_event. rewrite (mutation_agent _ _ _ He). cbn [mutation_apply].
  destruct b.
  - split; transcript_fields.
    + rewrite turns_app, turns_one, Hs, u64_saturating_add_val by lia. lia.
    + rewrite u64_max_val, agent_max_snoc. lia.
    + cbn [from_option]. rewrite u64_max_val, agent_max_snoc. lia.
    + rewrite Hprev, Hscan, Hord, Hc, all_checkpoints_app. cbn [all_checkpoints app]. rewrite Hs, app_nil_r.
      rewrite <- pop_checkpoints_snoc. by destruct (checkpoint_at es e).
    + rewrite length_app. cbn [length]. lia.
  - split; transcript_fields.
    + rewrite turns_app, turns_one, Hs. lia.
    + rewrite u64_max_val, agent_max_snoc. lia.
    + cbn [from_option]. rewrite u64_max_val, agent_max_snoc. lia.
    + rewrite Hc, all_checkpoints_app. cbn [all_checkpoints app]. by rewrite Hs, !app_nil_r.
    + rewrite length_app. cbn [length]. lia.
Qed.

Lemma transcript_ok_created e p : rev (ev_revision e) = 1 -> from_created e = Some p -> transcript_ok [e] p.
Proof.
  intros Hr Hp. destruct (from_created_fixed _ _ Hp) as (_ & _ & El & Ei).
  assert (He : agent_event e = None) by (unfold from_created in Hp; unfold agent_event; by destruct (ev_body e)).
  assert (Hs : starts_turn e = false) by (unfold starts_turn; by rewrite He).
  split; rewrite ?El, ?Ei; cbn; rewrite ?Hs; try done.
  - by rewrite turns_one, Hs.
  - unfold agent_max, agent_sequence_of. cbn. by rewrite He.
  - unfold agent_max, agent_sequence_of. cbn. by rewrite He.
Qed.

Lemma project_transcript es p : numbered 0 es -> project es = Some p -> transcript_ok es p.
Proof.
  destruct es as [|e0 es]; [done|]. intros Hn Hp. destruct (project_cons_inv _ _ _ Hn Hp) as (p0 & H0 & ->). clear Hp.
  induction es as [|e es IH] using rev_ind.
  - apply (numbered_cons 0) in Hn as [Hr _]. by apply transcript_ok_created.
  - change (e0 :: es ++ [e]) with ((e0 :: es) ++ [e]) in *. pose proof (numbered_length_last _ _ _ Hn) as Hr.
    apply numbered_split in Hn as [Hn _]. specialize (IH Hn). unfold project_all. rewrite fold_left_app. cbn [fold_left].
    destruct (agent_event e) as [[s b]|] eqn:He.
    + by eapply transcript_ok_agent.
    + by apply transcript_ok_not_agent.
Qed.

(** What a scan plan has to say: it starts after [n] turns, at a revision
    before which the events start exactly those turns, and knows the highest
    agent sequence up to there. *)
Definition plans es (n : Z) (plan : TranscriptScanPlan) : Prop :=
  val (sp_turns_before plan) = n /\ rev (sp_through_revision plan) = len es /\
  rev (sp_scan_after plan) <= len es /\
  turns (take (Z.to_nat (rev (sp_scan_after plan))) es) = n /\
  from_option val 0 (sp_previous_agent_sequence plan) = agent_max (take (Z.to_nat (rev (sp_scan_after plan))) es).

Lemma u64_min_val x y : val (u64_min x y) = Z.min (val x) (val y).
Proof. unfold u64_min. destruct (Z.leb_spec (val x) (val y)); lia. Qed.

Lemma numbered_length es : numbered 0 es -> len es < 2 ^ 64.
Proof.
  intros Hn. destruct (list_snoc_cases es) as [->|(es' & e & ->)]; [cbn; lia|].
  pose proof (numbered_length_last _ _ _ Hn). pose proof (rev_bounds (ev_revision e)).
  rewrite length_app. cbn [length]. lia.
Qed.

Lemma checkpoint_plans es es1 e es2 :
  numbered 0 es -> es = es1 ++ e :: es2 ->
  let c := checkpoint_at es1 e in
  rev (tc_scan_after c) = len es1 /\ take (Z.to_nat (rev (tc_scan_after c))) es = es1 /\
  val (tc_ordinal c) = turns es1 /\ from_option val 0 (tc_previous_agent_sequence c) = agent_max es1.
Proof.
  intros Hn -> c. pose proof (numbered_length _ Hn) as Hl. rewrite length_app in Hl. cbn [length] in Hl.
  assert (He : rev (ev_revision e) = len es1 + 1)
    by (rewrite (Hn (length es1) e); [lia|by apply list_lookup_middle]).
  assert (Hs : rev (tc_scan_after c) = len es1) by (cbn; rewrite rev_of_small; lia).
  pose proof (turns_bounds es1). pose proof (agent_max_bounds es1).
  split; [done|]. split; [|split].
  - rewrite Hs, Nat2Z.id. by rewrite take_app_length.
  - cbn. by rewrite val_u64_of_small by lia.
  - cbn. destruct (Z.eqb_spec (agent_max es1) 0) as [->|]; [done|]. cbn. by rewrite val_u64_of_small by lia.
Qed.

Lemma plan_from_exact es p k plan :
  numbered 0 es -> transcript_ok es p -> plan_from (pr_transcript_index p) k = Some plan ->
  plans es (Z.min (val k) (turns es)) plan.
Proof.
  intros Hn [Ht _ Hf Hc Hth] Hplan.
  unfold plan_from, plan_from_checkpoint in Hplan.
  set (n := u64_min k (ti_total_turns (pr_transcript_index p))) in *.
  assert (Hnv : val n = Z.min (val k) (turns es)) by (unfold n; rewrite u64_min_val; lia).
  pose proof (turns_bounds es). pose proof (val_bounds k).
  destruct (Z.eqb_spec (val n) 0) as [Hz|Hz]; [injection Hplan as <-|].
  { unfold plans. cbn [sp_turns_before sp_through_revision sp_scan_after sp_previous_agent_sequence].
    change (val u64_zero) with 0. change (rev REVISION_ZERO) with 0.
    split; [lia|]. split; [done|]. split; [lia|]. split; [|done]. change (turns (take _ es)) with 0. lia. }
  case_bool_decide as Htot.
  - injection Hplan as <-. unfold plans. cbn. rewrite Hth, Nat2Z.id, firstn_all. rewrite Htot, Ht in Hnv.
    split; [by rewrite Htot, Ht|]. split; [done|]. split; [lia|]. split; [lia|done].
  - destruct (List.find _ _) as [c|] eqn:Ec; [|discriminate Hplan]. cbn in Hplan.
    case_bool_decide as Ho; [|discriminate Hplan]. injection Hplan as <-.
    apply find_some in Ec as [Hin _]. rewrite Hc in Hin. apply list_elem_of_In, list_elem_of_lookup_1 in Hin as (i & Hi). rewrite lookup_drop in Hi.
    apply all_checkpoints_lookup in Hi as (es1 & e & es2 & Ees & _ & _ & ->). cbn [app] in *.
    destruct (checkpoint_plans _ _ _ _ Hn Ees) as (Hs & Htake & Hord & Hprev).
    unfold plans. cbn [sp_turns_before sp_scan_after sp_through_revision sp_previous_agent_sequence].
    rewrite Htake. rewrite Ho in Hord. split; [done|]. split; [done|]. split; [|split; [lia|done]].
    rewrite Hs, Ees, length_app. lia.
Qed.

(** Plans exist for the last 256 turns. *)
Lemma plan_from_recent es p k :
  numbered 0 es -> transcript_ok es p ->
  turns es - Z.of_nat RECENT_TURN_CHECKPOINT_CAPACITY <= val k \/ val k = 0 ->
  is_Some (plan_from (pr_transcript_index p) k).
Proof.
  intros Hn [Ht _ _ Hc _] Hk.
  unfold plan_from, plan_from_checkpoint.
  set (n := u64_min k (ti_total_turns (pr_transcript_index p))) in *.
  assert (Hnv : val n = Z.min (val k) (turns es)) by (unfold n; rewrite u64_min_val; lia).
  destruct (Z.eqb_spec (val n) 0) as [Hz|Hz]; [eauto|]. case_bool_decide as Htot; [eauto|].
  assert (Hlt : val n < turns es).
  { assert (val n <> turns es) by (rewrite <- Ht; intros E; apply Htot; by apply val_inj). lia. }
  pose proof (val_bounds n).
  destruct (List.find _ _) as [c|] eqn:Ec.
  - apply find_some in Ec as [_ Ho]. apply bool_decide_eq_true in Ho. cbn.
    rewrite bool_decide_eq_true_2 by done. eauto.
  - exfalso. pose proof (all_checkpoints_length [] es) as Hlen.
    destruct (lookup_lt_is_Some_2 (all_checkpoints [] es) (Z.to_nat (val n))) as [c Hk']; [lia|].
    pose proof (find_none _ _ Ec c) as Hnone. rewrite Hc in Hnone.
    destruct (all_checkpoints_lookup _ _ _ _ Hk') as (es1 & e & es2 & Ees & _ & Hord & Ec').
    destruct (checkpoint_plans _ _ _ _ Hn Ees) as (_ & _ & Ho & _). cbn [app] in Ec'. rewrite <- Ec' in Ho.
    assert (Hin : List.In c (ti_checkpoints (pr_transcript_index p))).
    { rewrite Hc. apply list_elem_of_In.
      apply (list_elem_of_lookup_2 _ (Z.to_nat (val n) - (length (all_checkpoints [] es) - RECENT_TURN_CHECKPOINT_CAPACITY))).
      rewrite lookup_drop, <- Hk'. f_equal. lia. }
    rewrite Hc in Hin. apply Hnone, bool_decide_eq_false in Hin. apply Hin, val_inj. lia.
Qed.

(** ** Bounds *)

Lemma mutation_apply_checkpoint m r p :
  pr_model_context_checkpoint (mutation_apply m r p)
    = match m with MutModelContextCheckpoint c => c | _ => pr_model_context_checkpoint p end.
Proof. destruct m; cbn; by_mutation; done. Qed.

Lemma project_event_checkpoint e p r :
  rev (su_revision (pr_summary p)) <= rev (ev_revision e) ->
  (forall s, pr_model_context_checkpoint p = Some s -> rev s <= rev (su_revision (pr_summary p))) ->
  pr_model_context_checkpoint (project_event e p) = Some r -> rev r <= rev (ev_revision e).
Proof.
  intros He Hp. unfold project_event. rewrite mutation_apply_checkpoint. unfold mutation_from_event.
  destruct (ev_body e); repeat case_match; cbn; try (intros Hr; specialize (Hp _ Hr); lia); try discriminate.
  all: intros; simplify_eq; match goal with E : (_ <? _) = true |- _ => apply Z.ltb_lt in E; lia end.
Qed.

Lemma project_all_checkpoint r es p :
  numbered r es -> rev (su_revision (pr_summary p)) = r ->
  (forall s, pr_model_context_checkpoint p = Some s -> rev s <= r) ->
  forall s, pr_model_context_checkpoint (project_all es p) = Some s -> rev s <= r + len es.
Proof.
  revert r p. induction es as [|e es IH]; intros r p Hn Hr Hp s Hs; [specialize (Hp s Hs); cbn; lia|].
  apply numbered_cons in Hn as [He Hn]. unfold project_all in *. cbn [fold_left length] in *.
  pose proof (IH (r + 1) (project_event e p) Hn) as IH'.
  destruct (project_event_fixed e p) as (Er & _). rewrite Er in IH'.
  assert (rev s <= r + 1 + len es); [|lia]. apply IH'; [done| |done].
  intros s' Hs'. apply project_event_checkpoint in Hs'; [lia|lia|]. intros s'' Hs''. rewrite Hr. by apply Hp.
Qed.

Lemma project_checkpoint es p s :
  numbered 0 es -> project es = Some p -> pr_model_context_checkpoint p = Some s -> rev s <= len es.
Proof.
  destruct es as [|e es]; [done|]. intros Hn Hp Hs. destruct (project_cons_inv _ _ _ Hn Hp) as (p0 & Hc & ->).
  destruct (from_created_fixed _ _ Hc) as (Er & _). apply numbered_cons in Hn as [He Hn].
  assert (Hnone : pr_model_context_checkpoint p0 = None).
  { unfold from_created in Hc. destruct (ev_body e); try discriminate Hc. by injection Hc as <-. }
  cbn [length]. assert (rev s <= 1 + len es); [|lia].
  apply (project_all_checkpoint 1 es p0); [done|rewrite Er; lia| |done]. by rewrite Hnone.
Qed.

Lemma agent_max_app es1 es2 : agent_max es1 <= agent_max (es1 ++ es2).
Proof.
  induction es2 as [|e es2 IH] using rev_ind; [by rewrite app_nil_r|]. rewrite app_assoc, agent_max_snoc. lia.
Qed.

(** The checkpoints of a projection, by position. *)
Lemma checkpoints_lookup es p k c :
  numbered 0 es -> transcript_ok es p -> ti_checkpoints (pr_transcript_index p) !! k = Some c ->
  val (tc_ordinal c) = turns es - len (ti_checkpoints (pr_transcript_index p)) + Z.of_nat k /\
  rev (tc_scan_after c) < len es /\
  forall s, tc_previous_agent_sequence c = Some s -> val s <= agent_max es.
Proof.
  intros Hn [_ _ _ Hc _] Hk. pose proof (all_checkpoints_length [] es) as Hlen.
  assert (Hk' := Hk). rewrite Hc, lookup_drop in Hk'.
  destruct (all_checkpoints_lookup _ _ _ _ Hk') as (es1 & e & es2 & Ees & _ & Hord & Ec). cbn [app] in Ec.
  destruct (checkpoint_plans _ _ _ _ Hn Ees) as (Hs & _ & Ho & Hp). rewrite <- Ec in *.
  apply lookup_lt_Some in Hk'. split; [|split].
  - rewrite Ho, Hord, Hc, length_drop. lia.
  - rewrite Hs, Ees, length_app. cbn [length]. lia.
  - intros s Eq. rewrite Eq in Hp. cbn in Hp. rewrite Hp, Ees. apply agent_max_app.
Qed.

Lemma checkpoints_count es p : transcript_ok es p ->
  (length (ti_checkpoints (pr_transcript_index p)) <= RECENT_TURN_CHECKPOINT_CAPACITY)%nat /\
  len (ti_checkpoints (pr_transcript_index p)) <= turns es.
Proof.
  intros [_ _ _ Hc _]. pose proof (all_checkpoints_length [] es). rewrite Hc, length_drop. lia.
Qed.

(** * Previews *)

Definition char_count (l : bytes) : nat := length (List.filter starts_char l).

Lemma char_prefix_prefix n l : char_prefix n l `prefix_of` l.
Proof.
  revert n. induction l as [|b l IH]; intros n; [done|]. cbn [char_prefix].
  destruct (starts_char b); [destruct n; [apply prefix_nil|]|]; apply prefix_cons, IH.
Qed.

Lemma char_prefix_count n l : char_count (char_prefix n l) = Nat.min n (char_count l).
Proof.
  revert n. induction l as [|b l IH]; intros n; [cbn; lia|]. cbn [char_prefix]. unfold char_count in *. cbn [List.filter].
  destruct (starts_char b) eqn:Eb; [destruct n as [|n]|]; cbn [List.filter]; rewrite ?Eb; cbn [length]; rewrite ?IH; lia.
Qed.

Lemma char_prefix_all n l : (char_count l <= n)%nat -> char_prefix n l = l.
Proof.
  revert n. induction l as [|b l IH]; intros n Hn; [done|]. cbn [char_prefix]. unfold char_count in *. cbn [List.filter] in Hn.
  destruct (starts_char b); [destruct n as [|n]|]; cbn [length] in Hn; [lia| |]; f_equal; apply IH; lia.
Qed.

Lemma char_prefix_inside n c l :
  Forall (fun x => starts_char x = false) c -> char_prefix n (c ++ l) = c ++ char_prefix n l.
Proof. induction 1 as [|b c Hb _ IH]; [done|]. cbn [app char_prefix]. by rewrite Hb, IH. Qed.

Lemma char_prefix_utf8 n l : utf8_valid l = true -> utf8_valid (char_prefix n l) = true.
Proof.
  intros Hv. revert l Hv n. apply (utf8_ind (fun l => forall n, utf8_valid (char_prefix n l) = true)); [done|].
  intros ch code rest Hc _ IH n. destruct (ic_head _ _ Hc) as (b & c & Ech & Hb & Hcs). rewrite Ech. cbn [app char_prefix].
  rewrite Hb. destruct n as [|n]; [done|]. rewrite char_prefix_inside by done.
  change (b :: c ++ char_prefix n rest) with ((b :: c) ++ char_prefix n rest). by rewrite <- Ech, (ic_valid _ _ Hc).
Qed.

End Facts.
