(* ===== verification/ThreadIndex.v ===== *)
(** The SQLite index of the thread store (thread-store: index.rs,
    index/write.rs, error.rs).  The database itself is a parameter: the class
    [Sqlite] says what its statements do to the two tables. *)

From stdpp Require Import pretty.
From S2P Require Import Prelude Canonical Events Commands Receipts Format CommandIndex Disk Model Projection.

Open Scope string_scope.
Open Scope list_scope.
Open Scope Z_scope.

(** * The tables *)

(** A row of [thread_projection]; [thread_id], its key, is the textual form of
    the identifier. *)
Record ProjectionRow := {
  ro_revision : i64;
  ro_source : string;
  ro_workspace : string;
  ro_name : option string;
  ro_summary : option string;
  ro_archived : bool;
  ro_created_at : i64;
  ro_updated_at : i64;
  ro_preview : option string;
  ro_first_user_message : option string;
  ro_total_cost_micros : option i64;
  ro_last_cost_micros : option i64;
  ro_model : option string;
  ro_model_provider : option string;
  ro_reasoning_effort : option string;
  ro_last_agent_sequence : i64;
  ro_model_context_checkpoint_revision : option i64;
  ro_dynamic_tools_digest : option bytes;
  ro_agent_event_metadata_generation : i64;
  ro_transcript_total_turns : i64;
  ro_projection_generation : i64
}.

(** A row of [thread_turn_checkpoint] beside its [thread_id]. *)
Record CheckpointRow := {
  ck_ordinal : i64;
  ck_scan_after_revision : i64;
  ck_previous_agent_sequence : option i64
}.

Definition CURRENT_PROJECTION_GENERATION : i64 := i64_of 7.

(** * The database

    Each statement either does what SQL says, or fails and changes nothing.  A
    working database does not fail, except on a duplicate or dangling
    checkpoint. *)

(** [INSERT] keeps the rows of a thread in the order of their ordinals. *)
Fixpoint insert_row (c : CheckpointRow) (rows : list CheckpointRow) : list CheckpointRow :=
  match rows with
  | [] => [c]
  | row :: rows => if val (ck_ordinal c) <? val (ck_ordinal row) then c :: row :: rows
                   else row :: insert_row c rows
  end.

Class Sqlite := {
  Db : Type;
  SqlError : Type;
  db_rows : Db -> gmap ThreadId ProjectionRow;
  db_checkpoints : Db -> ThreadId -> list CheckpointRow;
  db_works : Db -> Prop;

  (** [UPDATE thread_projection SET .. WHERE thread_id = ? AND ..]: the number
      of rows; an assignment that leaves the integers of SQL has no result. *)
  sql_update : ThreadId -> (ProjectionRow -> bool) -> (ProjectionRow -> option ProjectionRow) -> M Db SqlError Z;
  (** [INSERT .. ON CONFLICT DO UPDATE SET .. WHERE ..] *)
  sql_upsert : ThreadId -> ProjectionRow -> (ProjectionRow -> bool) -> M Db SqlError unit;
  (** [SELECT .. FROM thread_projection WHERE thread_id = ? AND ..] *)
  sql_select : ThreadId -> (ProjectionRow -> bool) -> M Db SqlError (option ProjectionRow);
  (** [DELETE FROM thread_projection WHERE thread_id = ?], with its checkpoints *)
  sql_delete : ThreadId -> M Db SqlError unit;
  sql_insert_checkpoint : ThreadId -> CheckpointRow -> M Db SqlError unit;
  (** [DELETE FROM thread_turn_checkpoint WHERE thread_id = ? AND ..]; the condition
      may look at all the rows of the thread. *)
  sql_delete_checkpoints : ThreadId -> (list CheckpointRow -> CheckpointRow -> bool) -> M Db SqlError unit;
  (** [SELECT .. FROM thread_turn_checkpoint WHERE thread_id = ? ORDER BY ordinal] *)
  sql_select_checkpoints : ThreadId -> M Db SqlError (list CheckpointRow);
  (** Begins a transaction, runs the body, and commits when the body succeeds
      with a value to keep; otherwise the transaction is rolled back. *)
  sql_transaction {E A} (of_sql : SqlError -> E) (keep : A -> bool) (body : M Db E A) : M Db E A
}.

Section Laws.
Context `{Sqlite}.

Definition same_tables (d d' : Db) : Prop :=
  db_rows d' = db_rows d /\ forall t, db_checkpoints d' t = db_checkpoints d t.

(** A statement leaves the database working, and fails only when it is not,
    changing nothing. *)
Definition statement {A} (d d' : Db) (r : result SqlError A) (effect : A -> Prop) : Prop :=
  (db_works d -> db_works d') /\
  match r with
  | Ok a => effect a
  | Err _ => same_tables d d' /\ ~ db_works d
  end.

End Laws.

Class SqliteLaws `{Sqlite} : Prop := {
  sql_update_law t guard f d d' r :
    sql_update t guard f d = (d', r) ->
    statement d d' r (fun n =>
      (forall t, db_checkpoints d' t = db_checkpoints d t) /\
      match db_rows d !! t with
      | Some row =>
          if guard row then
            n = 1 /\ forall row', f row = Some row' -> db_rows d' = <[t := row']> (db_rows d)
          else n = 0 /\ db_rows d' = db_rows d
      | None => n = 0 /\ db_rows d' = db_rows d
      end);
  sql_upsert_law t row replace d d' r :
    sql_upsert t row replace d = (d', r) ->
    statement d d' r (fun _ =>
      (forall t, db_checkpoints d' t = db_checkpoints d t) /\
      db_rows d' = match db_rows d !! t with
                   | Some old => if replace old then <[t := row]> (db_rows d) else db_rows d
                   | None => <[t := row]> (db_rows d)
                   end);
  sql_select_law t guard d d' r :
    sql_select t guard d = (d', r) ->
    statement d d' r (fun found => same_tables d d' /\
      found = (row ← db_rows d !! t; if guard row then Some row else None));
  sql_delete_law t d d' r :
    sql_delete t d = (d', r) ->
    statement d d' r (fun _ => db_rows d' = delete t (db_rows d) /\
      forall t', db_checkpoints d' t' = if bool_decide (t' = t) then [] else db_checkpoints d t');
  sql_insert_checkpoint_law t c d d' r :
    sql_insert_checkpoint t c d = (d', r) ->
    is_Some (db_rows d !! t) -> ck_ordinal c ∉ map ck_ordinal (db_checkpoints d t) ->
    statement d d' r (fun _ => db_rows d' = db_rows d /\
      forall t', db_checkpoints d' t' =
        if bool_decide (t' = t) then insert_row c (db_checkpoints d t) else db_checkpoints d t');
  sql_delete_checkpoints_law t which d d' r :
    sql_delete_checkpoints t which d = (d', r) ->
    statement d d' r (fun _ => db_rows d' = db_rows d /\
      forall t', db_checkpoints d' t' =
        if bool_decide (t' = t)
        then List.filter (fun c => negb (which (db_checkpoints d t) c)) (db_checkpoints d t)
        else db_checkpoints d t');
  sql_select_checkpoints_law t d d' r :
    sql_select_checkpoints t d = (d', r) ->
    statement d d' r (fun found => same_tables d d' /\ found = db_checkpoints d t);
  sql_transaction_law {E A} (of_sql : SqlError -> E) keep (body : M Db E A) d d' r :
    sql_transaction of_sql keep body d = (d', r) ->
    (same_tables d d' /\ ~ db_works d /\ exists e, r = Err (of_sql e)) \/
    exists d1 d2 rb, body d1 = (d2, rb) /\ same_tables d d1 /\ (db_works d -> db_works d1) /\
      (db_works d -> db_works d2 -> db_works d') /\
      match rb with
      | Ok a => if keep a then (r = Ok a /\ same_tables d2 d') \/
                               (same_tables d d' /\ ~ db_works d2 /\ exists e, r = Err (of_sql e))
                else same_tables d d' /\ r = Ok a
      | Err e => same_tables d d' /\ r = Err e
      end
}.

(** * Errors of the store (error.rs) *)

Inductive ThreadStoreError `{Sqlite} :=
  | Journal (error : JournalError)
  | Index (error : SqlError)
  | ThreadNotCreated
  | ThreadAlreadyExists
  | RevisionNotFound (revision : u64)
  | PreparedProjectionAhead (prepared recovered : u64)
  | Worker (message : string)
  | WriterPoisoned
  | InvalidClock
  | RevisionOverflow.

Section Index.
Context `{External, Sqlite}.

Abbreviation index_io := (M Db ThreadStoreError).

Definition try_i64 (z : Z) : result ThreadStoreError i64 := ok_or (checked (- 2 ^ 63) (2 ^ 63) z) RevisionOverflow.
Definition try_u64 (z : Z) : result ThreadStoreError u64 := ok_or (checked 0 (2 ^ 64) z) RevisionOverflow.

Definition revision_to_i64 (revision : ThreadRevision) : result ThreadStoreError i64 := try_i64 (rev revision).
Definition revision_from_i64 (revision : i64) : result ThreadStoreError ThreadRevision :=
  value ← try_u64 (val revision); mret (revision_new value).

(** [Option::map(..).transpose()] *)
Definition transpose {A B} (f : A -> result ThreadStoreError B) (o : option A) : result ThreadStoreError (option B) :=
  match o with
  | None => mret None
  | Some a => b ← f a; mret (Some b)
  end.

Fixpoint collect {A B} (f : A -> result ThreadStoreError B) (l : list A) : result ThreadStoreError (list B) :=
  match l with
  | [] => mret []
  | a :: l => b ← f a; rest ← collect f l; mret (b :: rest)
  end.

Definition is_current (row : ProjectionRow) : bool :=
  bool_decide (ro_projection_generation row = CURRENT_PROJECTION_GENERATION).

(** ** Whole projections *)

Definition checkpoint_row (checkpoint : TurnCheckpoint) : result ThreadStoreError CheckpointRow :=
  ordinal ← try_i64 (val (tc_ordinal checkpoint));
  scan_after ← revision_to_i64 (tc_scan_after checkpoint);
  previous ← transpose (fun s : u64 => try_i64 (val s)) (tc_previous_agent_sequence checkpoint);
  mret {| ck_ordinal := ordinal; ck_scan_after_revision := scan_after; ck_previous_agent_sequence := previous |}.

(** The values [write_projection] binds; the revision is bound first. *)
Definition projection_row (revision : i64) (p : ThreadIndexProjection) : result ThreadStoreError ProjectionRow :=
  let s := pr_summary p in
  last_agent_sequence ← try_i64 (val (pr_last_agent_sequence p));
  model_context_checkpoint ← transpose revision_to_i64 (pr_model_context_checkpoint p);
  total_turns ← try_i64 (val (ti_total_turns (pr_transcript_index p)));
  mret {|
    ro_revision := revision;
    ro_source := su_source s;
    ro_workspace := su_workspace s;
    ro_name := su_name s;
    ro_summary := su_summary s;
    ro_archived := su_archived s;
    ro_created_at := su_created_at_unix_ms s;
    ro_updated_at := su_updated_at_unix_ms s;
    ro_preview := su_preview s;
    ro_first_user_message := su_first_user_message s;
    ro_total_cost_micros := su_total_cost_micros s;
    ro_last_cost_micros := su_last_cost_micros s;
    ro_model := su_model s;
    ro_model_provider := su_model_provider s;
    ro_reasoning_effort := su_reasoning_effort s;
    ro_last_agent_sequence := last_agent_sequence;
    ro_model_context_checkpoint_revision := model_context_checkpoint;
    ro_dynamic_tools_digest := digest_bytes <$> pr_dynamic_tools_digest p;
    ro_agent_event_metadata_generation := i64_of (val (pr_agent_event_metadata_generation p));
    ro_transcript_total_turns := total_turns;
    ro_projection_generation := CURRENT_PROJECTION_GENERATION |}.

Fixpoint insert_checkpoints (t : ThreadId) (rows : list CheckpointRow) : index_io unit :=
  match rows with
  | [] => mret tt
  | row :: rows => _ ← map_error Index (sql_insert_checkpoint t row); insert_checkpoints t rows
  end.

Definition write_projection (p : ThreadIndexProjection) (force : bool) : index_io unit :=
  let t := su_thread_id (pr_summary p) in
  revision ← of_result (revision_to_i64 (su_revision (pr_summary p)));
  checkpoint_rows ← of_result (collect checkpoint_row (ti_checkpoints (pr_transcript_index p)));
  sql_transaction Index (fun _ => true)
    (row ← of_result (projection_row revision p);
     _ ← map_error Index (sql_upsert t row (fun old =>
           force || negb (bool_decide (ro_revision old = ro_revision row))
           || negb (bool_decide (ro_projection_generation old = ro_projection_generation row))));
     _ ← map_error Index (sql_delete_checkpoints t (fun _ _ => true));
     insert_checkpoints t checkpoint_rows).

Definition index_synchronize (p : ThreadIndexProjection) : index_io unit := write_projection p false.
Definition index_replace (p : ThreadIndexProjection) : index_io unit := write_projection p true.

Definition row_to_summary (t : ThreadId) (row : ProjectionRow) : result ThreadStoreError ThreadSummary :=
  revision ← revision_from_i64 (ro_revision row);
  mret {|
    su_thread_id := t;
    su_revision := revision;
    su_source := ro_source row;
    su_workspace := ro_workspace row;
    su_name := ro_name row;
    su_summary := ro_summary row;
    su_archived := ro_archived row;
    su_created_at_unix_ms := ro_created_at row;
    su_updated_at_unix_ms := ro_updated_at row;
    su_preview := ro_preview row;
    su_first_user_message := ro_first_user_message row;
    su_total_cost_micros := ro_total_cost_micros row;
    su_last_cost_micros := ro_last_cost_micros row;
    su_model := ro_model row;
    su_model_provider := ro_model_provider row;
    su_reasoning_effort := ro_reasoning_effort row |}.

Definition digest_from_blob (b : bytes) : result ThreadStoreError Digest :=
  match array_of 32 b with
  | Some array => Ok (digest_from_bytes array)
  | None => Err (Worker (String.append "invalid projection digest length: " (pretty (N.of_nat (length b)))))
  end.

(** The frontier read back from a row: no sequence when it is zero. *)
Definition frontier_of (last_agent_sequence : i64) : result ThreadStoreError (option u64) :=
  transpose try_u64 (if negb (val last_agent_sequence =? 0) then Some (val last_agent_sequence) else None).

Definition row_to_projection (t : ThreadId) (row : ProjectionRow) : result ThreadStoreError ThreadIndexProjection :=
  model_context_checkpoint ← transpose revision_from_i64 (ro_model_context_checkpoint_revision row);
  dynamic_tools_digest ← transpose digest_from_blob (ro_dynamic_tools_digest row);
  summary ← row_to_summary t row;
  total_turns ← try_u64 (val (ro_transcript_total_turns row));
  frontier_sequence ← frontier_of (ro_last_agent_sequence row);
  last_agent_sequence ← try_u64 (val (ro_last_agent_sequence row));
  generation ← ok_or (checked 0 (2 ^ 32) (val (ro_agent_event_metadata_generation row))) RevisionOverflow;
  mret {|
    pr_summary := summary;
    pr_last_agent_sequence := last_agent_sequence;
    pr_model_context_checkpoint := model_context_checkpoint;
    pr_dynamic_tools_digest := dynamic_tools_digest;
    pr_agent_event_metadata_generation := generation;
    pr_transcript_index := {|
      ti_total_turns := total_turns;
      ti_checkpoints := [];
      ti_through_revision := su_revision summary;
      ti_frontier_sequence := frontier_sequence |} |}.

Definition row_to_turn_checkpoint (row : CheckpointRow) : result ThreadStoreError TurnCheckpoint :=
  ordinal ← try_u64 (val (ck_ordinal row));
  scan_after ← revision_from_i64 (ck_scan_after_revision row);
  previous ← transpose (fun s : i64 => try_u64 (val s)) (ck_previous_agent_sequence row);
  mret {| tc_ordinal := ordinal; tc_scan_after := scan_after; tc_previous_agent_sequence := previous |}.

Definition set_checkpoints x (i : NativeTranscriptIndex) : NativeTranscriptIndex :=
  {| ti_total_turns := ti_total_turns i; ti_checkpoints := x;
     ti_through_revision := ti_through_revision i; ti_frontier_sequence := ti_frontier_sequence i |}.

Definition index_read_summary (t : ThreadId) : index_io (option ThreadSummary) :=
  row ← map_error Index (sql_select t is_current);
  of_result (transpose (row_to_summary t) row).

Definition read_projection (t : ThreadId) : index_io (option ThreadIndexProjection) :=
  sql_transaction Index (fun _ => true)
    (row ← map_error Index (sql_select t is_current);
     match row with
     | None => mret None
     | Some row =>
         projection ← of_result (row_to_projection t row);
         checkpoints ← map_error Index (sql_select_checkpoints t);
         checkpoints ← of_result (collect row_to_turn_checkpoint checkpoints);
         mret (Some (on_transcript (set_checkpoints checkpoints) projection))
     end).

Definition latest_agent_event_sequence (t : ThreadId) : index_io u64 :=
  row ← map_error Index (sql_select t is_current);
  sequence ← of_result (transpose (fun row => try_u64 (val (ro_last_agent_sequence row))) row);
  mret (default u64_zero sequence).

Definition index_agent_event_metadata_generation (t : ThreadId) : index_io u32 :=
  row ← map_error Index (sql_select t is_current);
  of_result (ok_or (checked 0 (2 ^ 32)
    (match row with Some row => val (ro_agent_event_metadata_generation row) | None => 0 end)) RevisionOverflow).

Definition index_model_context_checkpoint (t : ThreadId) : index_io (option ThreadRevision) :=
  row ← map_error Index (sql_select t is_current);
  of_result (transpose revision_from_i64 (row ← row; ro_model_context_checkpoint_revision row)).

Definition index_remove (t : ThreadId) : index_io unit := map_error Index (sql_delete t).

(** ** Incremental writes (index/write.rs) *)

Record WriteCursor := {
  wc_thread_id : ThreadId;
  wc_revision : i64;
  wc_expected_revision : i64;
  wc_updated_at : i64
}.

Definition cursor_new (event : ThreadEventEnvelope) : result ThreadStoreError WriteCursor :=
  revision ← revision_to_i64 (ev_revision event);
  expected ← revision_to_i64 (revision_new (u64_saturating_sub (revision_get (ev_revision event)) 1));
  mret {| wc_thread_id := ev_thread_id event; wc_revision := revision;
          wc_expected_revision := expected; wc_updated_at := ev_recorded_at_unix_ms event |}.

(** [revision = ? AND projection_generation = ?] *)
Definition at_revision (revision : i64) (row : ProjectionRow) : bool :=
  bool_decide (ro_revision row = revision) && is_current row.

(** [SET revision = ?, updated_at = ?] *)
Definition advance_row (revision updated_at : i64) (r : ProjectionRow) : ProjectionRow := {|
  ro_revision := revision; ro_source := ro_source r; ro_workspace := ro_workspace r; ro_name := ro_name r;
  ro_summary := ro_summary r; ro_archived := ro_archived r; ro_created_at := ro_created_at r;
  ro_updated_at := updated_at; ro_preview := ro_preview r; ro_first_user_message := ro_first_user_message r;
  ro_total_cost_micros := ro_total_cost_micros r; ro_last_cost_micros := ro_last_cost_micros r;
  ro_model := ro_model r; ro_model_provider := ro_model_provider r; ro_reasoning_effort := ro_reasoning_effort r;
  ro_last_agent_sequence := ro_last_agent_sequence r;
  ro_model_context_checkpoint_revision := ro_model_context_checkpoint_revision r;
  ro_dynamic_tools_digest := ro_dynamic_tools_digest r;
  ro_agent_event_metadata_generation := ro_agent_event_metadata_generation r;
  ro_transcript_total_turns := ro_transcript_total_turns r;
  ro_projection_generation := ro_projection_generation r |}.

(** The assignments to the columns of metadata. *)
Definition set_row_text (name summary preview first_user_message : option string) (workspace : string)
    (archived : bool) (r : ProjectionRow) : ProjectionRow := {|
  ro_revision := ro_revision r; ro_source := ro_source r; ro_workspace := workspace; ro_name := name;
  ro_summary := summary; ro_archived := archived; ro_created_at := ro_created_at r;
  ro_updated_at := ro_updated_at r; ro_preview := preview; ro_first_user_message := first_user_message;
  ro_total_cost_micros := ro_total_cost_micros r; ro_last_cost_micros := ro_last_cost_micros r;
  ro_model := ro_model r; ro_model_provider := ro_model_provider r; ro_reasoning_effort := ro_reasoning_effort r;
  ro_last_agent_sequence := ro_last_agent_sequence r;
  ro_model_context_checkpoint_revision := ro_model_context_checkpoint_revision r;
  ro_dynamic_tools_digest := ro_dynamic_tools_digest r;
  ro_agent_event_metadata_generation := ro_agent_event_metadata_generation r;
  ro_transcript_total_turns := ro_transcript_total_turns r;
  ro_projection_generation := ro_projection_generation r |}.

Definition set_row_cost (total last : option i64) (r : ProjectionRow) : ProjectionRow := {|
  ro_revision := ro_revision r; ro_source := ro_source r; ro_workspace := ro_workspace r; ro_name := ro_name r;
  ro_summary := ro_summary r; ro_archived := ro_archived r; ro_created_at := ro_created_at r;
  ro_updated_at := ro_updated_at r; ro_preview := ro_preview r; ro_first_user_message := ro_first_user_message r;
  ro_total_cost_micros := total; ro_last_cost_micros := last;
  ro_model := ro_model r; ro_model_provider := ro_model_provider r; ro_reasoning_effort := ro_reasoning_effort r;
  ro_last_agent_sequence := ro_last_agent_sequence r;
  ro_model_context_checkpoint_revision := ro_model_context_checkpoint_revision r;
  ro_dynamic_tools_digest := ro_dynamic_tools_digest r;
  ro_agent_event_metadata_generation := ro_agent_event_metadata_generation r;
  ro_transcript_total_turns := ro_transcript_total_turns r;
  ro_projection_generation := ro_projection_generation r |}.

Definition set_row_resume (model provider effort : option string) (r : ProjectionRow) : ProjectionRow := {|
  ro_revision := ro_revision r; ro_source := ro_source r; ro_workspace := ro_workspace r; ro_name := ro_name r;
  ro_summary := ro_summary r; ro_archived := ro_archived r; ro_created_at := ro_created_at r;
  ro_updated_at := ro_updated_at r; ro_preview := ro_preview r; ro_first_user_message := ro_first_user_message r;
  ro_total_cost_micros := ro_total_cost_micros r; ro_last_cost_micros := ro_last_cost_micros r;
  ro_model := model; ro_model_provider := provider; ro_reasoning_effort := effort;
  ro_last_agent_sequence := ro_last_agent_sequence r;
  ro_model_context_checkpoint_revision := ro_model_context_checkpoint_revision r;
  ro_dynamic_tools_digest := ro_dynamic_tools_digest r;
  ro_agent_event_metadata_generation := ro_agent_event_metadata_generation r;
  ro_transcript_total_turns := ro_transcript_total_turns r;
  ro_projection_generation := ro_projection_generation r |}.

(** The assignments to the columns of the agent and the restore checkpoints. *)
Definition set_row_agent (sequence turns generation created_at updated_at : i64) (checkpoint : option i64)
    (tools : option bytes) (r : ProjectionRow) : ProjectionRow := {|
  ro_revision := ro_revision r; ro_source := ro_source r; ro_workspace := ro_workspace r; ro_name := ro_name r;
  ro_summary := ro_summary r; ro_archived := ro_archived r; ro_created_at := created_at;
  ro_updated_at := updated_at; ro_preview := ro_preview r; ro_first_user_message := ro_first_user_message r;
  ro_total_cost_micros := ro_total_cost_micros r; ro_last_cost_micros := ro_last_cost_micros r;
  ro_model := ro_model r; ro_model_provider := ro_model_provider r; ro_reasoning_effort := ro_reasoning_effort r;
  ro_last_agent_sequence := sequence;
  ro_model_context_checkpoint_revision := checkpoint;
  ro_dynamic_tools_digest := tools;
  ro_agent_event_metadata_generation := generation;
  ro_transcript_total_turns := turns;
  ro_projection_generation := ro_projection_generation r |}.

(** [MAX(a, b)] and [a + b] on SQL integers. *)
Definition sql_max (a b : i64) : i64 := if val a <=? val b then b else a.
Definition sql_add (a : i64) (b : Z) : option i64 := checked (- 2 ^ 63) (2 ^ 63) (val a + b).

Definition set_row_sequence (sequence turns : i64) (r : ProjectionRow) : ProjectionRow :=
  set_row_agent (sql_max (ro_last_agent_sequence r) sequence) turns (ro_agent_event_metadata_generation r)
    (ro_created_at r) (ro_updated_at r) (ro_model_context_checkpoint_revision r) (ro_dynamic_tools_digest r) r.

(** [rows_affected() == 1] of an update of the row at the cursor. *)
Definition update_at (t : ThreadId) (expected : i64) (f : ProjectionRow -> option ProjectionRow) : index_io bool :=
  affected ← map_error Index (sql_update t (at_revision expected) f);
  mret (affected =? 1).

Definition touch (cursor : WriteCursor) : index_io bool :=
  update_at (wc_thread_id cursor) (wc_expected_revision cursor)
    (fun r => Some (advance_row (wc_revision cursor) (wc_updated_at cursor) r)).

(** The update of native agent events without a turn start. *)
Definition advance_agent (t : ThreadId) (expected revision updated_at sequence : i64) : index_io bool :=
  update_at t expected (fun r =>
    let r := advance_row revision updated_at r in
    Some (set_row_sequence sequence (ro_transcript_total_turns r) r)).

(** [COALESCE(MAX(ordinal), 0)] *)
Definition max_ordinal (rows : list CheckpointRow) : Z :=
  match map (fun c => val (ck_ordinal c)) rows with
  | [] => 0
  | o :: os => fold_left Z.max os o
  end.

Definition insert_turn_checkpoint (cursor : WriteCursor) (ordinal previous_sequence : i64) : index_io unit :=
  let t := wc_thread_id cursor in
  _ ← map_error Index (sql_insert_checkpoint t {|
        ck_ordinal := ordinal;
        ck_scan_after_revision := wc_expected_revision cursor;
        ck_previous_agent_sequence := if negb (val previous_sequence =? 0) then Some previous_sequence else None |});
  map_error Index (sql_delete_checkpoints t (fun rows c => val (ck_ordinal c) <? max_ordinal rows - 255)).

Definition apply_turn_start (cursor : WriteCursor) (sequence : i64) : index_io bool :=
  let t := wc_thread_id cursor in
  sql_transaction Index (fun kept => kept)
    (frontier ← map_error Index (sql_select t (at_revision (wc_expected_revision cursor)));
     match frontier with
     | None => mret false
     | Some row =>
         updated ← update_at t (wc_expected_revision cursor) (fun r =>
           let r := advance_row (wc_revision cursor) (wc_updated_at cursor) r in
           turns ← sql_add (ro_transcript_total_turns r) 1;
           Some (set_row_sequence sequence turns r));
         if negb updated then mret false
         else
           _ ← insert_turn_checkpoint cursor (ro_transcript_total_turns row) (ro_last_agent_sequence row);
           mret true
     end).

Definition apply_native_agent (cursor : WriteCursor) (sequence : u64) (turn_started : bool) : index_io bool :=
  sequence ← of_result (try_i64 (val sequence));
  if negb turn_started then
    advance_agent (wc_thread_id cursor) (wc_expected_revision cursor) (wc_revision cursor)
      (wc_updated_at cursor) sequence
  else apply_turn_start cursor sequence.

Definition apply_native_agent_run (first last : WriteCursor) (max_sequence : u64) : index_io bool :=
  if negb (bool_decide (wc_thread_id first = wc_thread_id last)) then mret false
  else
    sequence ← of_result (try_i64 (val max_sequence));
    advance_agent (wc_thread_id first) (wc_expected_revision first) (wc_revision last) (wc_updated_at last) sequence.

(** The assignments [apply_metadata] adds to its query. *)
Definition metadata_columns (mutation : ThreadIndexMutation)
    : result ThreadStoreError (ProjectionRow -> option ProjectionRow) :=
  let text f : result ThreadStoreError (ProjectionRow -> option ProjectionRow) := mret (fun r => Some (f r)) in
  let keep_text name summary preview first workspace archived := fun r => set_row_text
    (default (ro_name r) name) (default (ro_summary r) summary) (default (ro_preview r) preview)
    (default (ro_first_user_message r) first) (default (ro_workspace r) workspace)
    (default (ro_archived r) archived) r in
  match mutation with
  | MutName value => text (keep_text (Some value) None None None None None)
  | MutSummary value => text (keep_text None (Some value) None None None None)
  | MutArchived value => text (keep_text None None None None None (Some value))
  | MutWorkspace value => text (keep_text None None None None (Some value) None)
  | MutPreview value => text (keep_text None None (Some value) None None None)
  | MutPreviewSnapshot preview first => text (keep_text None None (Some preview) (Some first) None None)
  | MutUserMessage value =>
      text (fun r => keep_text None None (Some (Some value))
                       (Some (match ro_first_user_message r with Some m => Some m | None => Some value end)) None None r)
  | MutCost value =>
      mret (fun r =>
        match value with
        | None => Some (set_row_cost (ro_total_cost_micros r) value r)
        | Some v => total ← sql_add (default (i64_of 0) (ro_total_cost_micros r)) (val v);
                    Some (set_row_cost (Some total) value r)
        end)
  | MutResumeConfig model provider effort => text (set_row_resume model provider effort)
  | MutModelContextCheckpoint revision =>
      revision ← transpose revision_to_i64 revision;
      text (fun r => set_row_agent (ro_last_agent_sequence r) (ro_transcript_total_turns r)
                       (ro_agent_event_metadata_generation r) (ro_created_at r) (ro_updated_at r)
                       revision (ro_dynamic_tools_digest r) r)
  | MutDynamicTools tools =>
      text (fun r => set_row_agent (ro_last_agent_sequence r) (ro_transcript_total_turns r)
                       (ro_agent_event_metadata_generation r) (ro_created_at r) (ro_updated_at r)
                       (ro_model_context_checkpoint_revision r)
                       (Some (digest_bytes (dynamic_tools_digest tools))) r)
  | MutAgentEventMetadataGeneration generation =>
      text (fun r => set_row_agent (ro_last_agent_sequence r) (ro_transcript_total_turns r)
                       (i64_of (val generation)) (ro_created_at r) (ro_updated_at r)
                       (ro_model_context_checkpoint_revision r) (ro_dynamic_tools_digest r) r)
  | MutAgentEventTimeline generation created_at updated_at =>
      text (fun r => set_row_agent (ro_last_agent_sequence r) (ro_transcript_total_turns r)
                       (i64_of (val generation)) (default (ro_created_at r) created_at)
                       (default (ro_updated_at r) updated_at)
                       (ro_model_context_checkpoint_revision r) (ro_dynamic_tools_digest r) r)
  | MutUnchanged | MutNativeAgent _ _ => Err (Worker "index mutation routed to the wrong writer")
  end.

Definition apply_metadata (cursor : WriteCursor) (mutation : ThreadIndexMutation) : index_io bool :=
  columns ← of_result (metadata_columns mutation);
  update_at (wc_thread_id cursor) (wc_expected_revision cursor)
    (fun r => columns (advance_row (wc_revision cursor) (wc_updated_at cursor) r)).

Definition is_created (event : ThreadEventEnvelope) : bool :=
  match ev_body event with ThreadCreated _ _ _ => true | _ => false end.

Definition index_apply (event : ThreadEventEnvelope) : index_io bool :=
  if is_created event then
    _ ← match from_created event with
        | Some projection => index_replace projection
        | None => mret tt
        end;
    mret true
  else
    cursor ← of_result (cursor_new event);
    match mutation_from_event event with
    | MutNativeAgent sequence turn_started => apply_native_agent cursor sequence turn_started
    | MutUnchanged => touch cursor
    | mutation => apply_metadata cursor mutation
    end.

(** The sequence of a native agent event that starts no turn. *)
Definition agent_step (event : ThreadEventEnvelope) : option u64 :=
  match mutation_from_event event with MutNativeAgent sequence false => Some sequence | _ => None end.

(** The inner loop of [apply_all]: the rest of a run of agent steps, its last
    cursor and highest sequence, and the events after it. *)
Fixpoint agent_run (last : WriteCursor) (max_sequence : u64) (events : list ThreadEventEnvelope)
    : result ThreadStoreError (WriteCursor * u64 * list ThreadEventEnvelope) :=
  match events with
  | [] => mret (last, max_sequence, [])
  | event :: rest =>
      match agent_step event with
      | None => mret (last, max_sequence, events)
      | Some sequence =>
          last ← cursor_new event;
          agent_run last (u64_max max_sequence sequence) rest
      end
  end.

(** [apply_all]; every turn of its loop takes at least one event, so the
    number of events is enough fuel. *)
Fixpoint apply_loop (fuel : nat) (events : list ThreadEventEnvelope) : index_io bool :=
  match fuel, events with
  | _, [] | O, _ => mret true
  | S fuel, event :: rest =>
      match agent_step event with
      | None =>
          applied ← index_apply event;
          if negb applied then mret false else apply_loop fuel rest
      | Some sequence =>
          first ← of_result (cursor_new event);
          '(last, max_sequence, rest) ← of_result (agent_run first sequence rest);
          applied ← apply_native_agent_run first last max_sequence;
          if negb applied then mret false else apply_loop fuel rest
      end
  end.

Definition apply_all (events : list ThreadEventEnvelope) : index_io bool := apply_loop (length events) events.

(** ** Scan plans *)

(** [usize] holds 64 bits; [select_first_turn] is the caller's. *)
Definition index_transcript_scan_plan (t : ThreadId) (select_first_turn : u64 -> option u64)
    : index_io (option TranscriptScanPlan) :=
  sql_transaction Index (fun _ => true)
    (frontier ← map_error Index (sql_select t is_current);
     match frontier with
     | None => mret None
     | Some row =>
         total_turns ← of_result (try_u64 (val (ro_transcript_total_turns row)));
         through ← of_result (revision_from_i64 (ro_revision row));
         frontier_sequence ← of_result (frontier_of (ro_last_agent_sequence row));
         let index := {| ti_total_turns := total_turns; ti_checkpoints := [];
                         ti_through_revision := through; ti_frontier_sequence := frontier_sequence |} in
         match select_first_turn total_turns with
         | None => mret None
         | Some first_turn =>
             let first := u64_min first_turn total_turns in
             checkpoint ← (if (val first =? 0) || bool_decide (first = total_turns) then mret None
                           else
                             ordinal ← of_result (try_i64 (val first));
                             rows ← map_error Index (sql_select_checkpoints t);
                             of_result (transpose row_to_turn_checkpoint
                               (find (fun c => bool_decide (ck_ordinal c = ordinal)) rows)));
             mret (plan_from_checkpoint index first_turn checkpoint)
         end
     end).

End Index.
