(* ===== verification/IndexFacts.v ===== *)
(** The index refines the projection: what a write of a projection, of one
    event or of a batch leaves in the tables is the projection of the journal. *)

From stdpp Require Import sorting.
From S2P Require Import Prelude Canonical Events Commands Receipts Format CommandIndex Disk Model RangeFacts Projection ProjectionFacts.
From S2P Require Import ThreadIndex.

Open Scope string_scope.
Open Scope list_scope.
Open Scope Z_scope.

Section Facts.
Context `{External, SqliteLaws}.
Implicit Types (p : ThreadIndexProjection) (e : ThreadEventEnvelope) (es : list ThreadEventEnvelope) (d : Db).

(** * Rows *)

(** The row holds the projection. *)
Record row_of p (row : ProjectionRow) : Prop := {
  rw_revision : val (ro_revision row) = rev (su_revision (pr_summary p));
  rw_source : ro_source row = su_source (pr_summary p);
  rw_workspace : ro_workspace row = su_workspace (pr_summary p);
  rw_name : ro_name row = su_name (pr_summary p);
  rw_summary : ro_summary row = su_summary (pr_summary p);
  rw_archived : ro_archived row = su_archived (pr_summary p);
  rw_created_at : ro_created_at row = su_created_at_unix_ms (pr_summary p);
  rw_updated_at : ro_updated_at row = su_updated_at_unix_ms (pr_summary p);
  rw_preview : ro_preview row = su_preview (pr_summary p);
  rw_first_user_message : ro_first_user_message row = su_first_user_message (pr_summary p);
  rw_total_cost : ro_total_cost_micros row = su_total_cost_micros (pr_summary p);
  rw_last_cost : ro_last_cost_micros row = su_last_cost_micros (pr_summary p);
  rw_model : ro_model row = su_model (pr_summary p);
  rw_model_provider : ro_model_provider row = su_model_provider (pr_summary p);
  rw_reasoning_effort : ro_reasoning_effort row = su_reasoning_effort (pr_summary p);
  rw_last_agent_sequence : val (ro_last_agent_sequence row) = val (pr_last_agent_sequence p);
  rw_checkpoint : val <$> ro_model_context_checkpoint_revision row = rev <$> pr_model_context_checkpoint p;
  rw_tools : ro_dynamic_tools_digest row = digest_bytes <$> pr_dynamic_tools_digest p;
  rw_generation : val (ro_agent_event_metadata_generation row) = val (pr_agent_event_metadata_generation p);
  rw_turns : val (ro_transcript_total_turns row) = val (ti_total_turns (pr_transcript_index p));
  rw_current : ro_projection_generation row = CURRENT_PROJECTION_GENERATION
}.

Record checkpoint_of (c : TurnCheckpoint) (row : CheckpointRow) : Prop := {
  co_ordinal : val (ck_ordinal row) = val (tc_ordinal c);
  co_scan_after : val (ck_scan_after_revision row) = rev (tc_scan_after c);
  co_previous : val <$> ck_previous_agent_sequence row = val <$> tc_previous_agent_sequence c
}.

Lemma option_val_inj {lo hi} (a b : option (ranged lo hi)) : val <$> a = val <$> b -> a = b.
Proof. destruct a, b; cbn; intros E; try done. injection E as E. by rewrite (val_inj _ _ E). Qed.

Lemma row_of_unique p row row' : row_of p row -> row_of p row' -> row = row'.
Proof.
  intros [] []. destruct row, row'; cbn in *. f_equal; try congruence; try (apply val_inj; congruence).
  apply option_val_inj. congruence.
Qed.

Lemma row_is_current p row : row_of p row -> is_current row = true.
Proof. intros []. unfold is_current. by rewrite bool_decide_eq_true_2. Qed.

(** * Storable projections *)

Lemma try_i64_Ok z : - 2 ^ 63 <= z < 2 ^ 63 -> exists i, try_i64 z = Ok i /\ val i = z.
Proof. intros Hz. destruct (checked_in _ _ _ Hz) as (i & Hi & E). exists i. unfold try_i64. by rewrite Hi. Qed.

Lemma try_u64_Ok z : 0 <= z < 2 ^ 64 -> exists u, try_u64 z = Ok u /\ val u = z.
Proof. intros Hz. destruct (checked_in _ _ _ Hz) as (u & Hu & E). exists u. unfold try_u64. by rewrite Hu. Qed.

(** What fits the integers of SQL. *)
Record storable p : Prop := {
  sb_revision : rev (su_revision (pr_summary p)) < 2 ^ 63;
  sb_sequence : val (pr_last_agent_sequence p) < 2 ^ 63;
  sb_checkpoint : forall r, pr_model_context_checkpoint p = Some r -> rev r < 2 ^ 63;
  sb_turns : val (ti_total_turns (pr_transcript_index p)) < 2 ^ 63
}.

Definition storable_checkpoint (c : TurnCheckpoint) : Prop :=
  val (tc_ordinal c) < 2 ^ 63 /\ rev (tc_scan_after c) < 2 ^ 63 /\
  forall s, tc_previous_agent_sequence c = Some s -> val s < 2 ^ 63.

Lemma projection_row_Ok p revision :
  storable p -> val revision = rev (su_revision (pr_summary p)) ->
  exists row, projection_row revision p = Ok row /\ row_of p row.
Proof.
  intros [Hr Hs Hc Ht] Er. unfold projection_row.
  pose proof (val_bounds (pr_last_agent_sequence p)). pose proof (val_bounds (ti_total_turns (pr_transcript_index p))).
  pose proof (val_bounds (pr_agent_event_metadata_generation p)).
  destruct (try_i64_Ok (val (pr_last_agent_sequence p))) as (s & -> & Es); [lia|].
  destruct (try_i64_Ok (val (ti_total_turns (pr_transcript_index p)))) as (n & En' & En); [lia|].
  assert (Hck : exists c, transpose revision_to_i64 (pr_model_context_checkpoint p) = Ok c
                /\ val <$> c = rev <$> pr_model_context_checkpoint p).
  { destruct (pr_model_context_checkpoint p) as [r|]; [|by exists None]. specialize (Hc r eq_refl).
    pose proof (rev_bounds r). destruct (try_i64_Ok (rev r)) as (c & E & Ec); [lia|]. exists (Some c).
    cbn [transpose]. unfold revision_to_i64. rewrite E. cbn. by rewrite Ec. }
  destruct Hck as (c & E & Ec). cbn [mbind result_bind]. rewrite E. cbn [mbind result_bind]. rewrite En'.
  cbn [mbind result_bind]. eexists. split; [reflexivity|]. split; cbn [ro_revision ro_source ro_workspace ro_name
    ro_summary ro_archived ro_created_at ro_updated_at ro_preview ro_first_user_message ro_total_cost_micros
    ro_last_cost_micros ro_model ro_model_provider ro_reasoning_effort ro_last_agent_sequence
    ro_model_context_checkpoint_revision ro_dynamic_tools_digest ro_agent_event_metadata_generation
    ro_transcript_total_turns ro_projection_generation]; try done. rewrite val_i64_of; lia.
Qed.

Lemma checkpoint_row_Ok c : storable_checkpoint c -> exists row, checkpoint_row c = Ok row /\ checkpoint_of c row.
Proof.
  intros (Ho & Hs & Hp). unfold checkpoint_row, revision_to_i64.
  pose proof (val_bounds (tc_ordinal c)). pose proof (rev_bounds (tc_scan_after c)).
  destruct (try_i64_Ok (val (tc_ordinal c))) as (o & -> & Eo); [lia|].
  destruct (try_i64_Ok (rev (tc_scan_after c))) as (s & Es' & Es); [lia|].
  cbn [mbind result_bind]. rewrite Es'. cbn [mbind result_bind].
  destruct (tc_previous_agent_sequence c) as [q|] eqn:Eq; cbn [transpose].
  - specialize (Hp q eq_refl). pose proof (val_bounds q). destruct (try_i64_Ok (val q)) as (i & -> & Ei); [lia|].
    cbn. eexists. split; [reflexivity|]. split; cbn; rewrite ?Eq; try done. cbn. by rewrite Ei.
  - cbn. eexists. split; [reflexivity|]. split; cbn; rewrite ?Eq; done.
Qed.

Lemma collect_Ok {A B} (f : A -> result ThreadStoreError B) (P : A -> B -> Prop) l :
  (forall a, a ∈ l -> exists b, f a = Ok b /\ P a b) -> exists bs, collect f l = Ok bs /\ Forall2 P l bs.
Proof.
  induction l as [|a l IH]; intros Hf; [exists []; split; [done|constructor]|].
  destruct (Hf a) as (b & E & Hb); [set_solver|]. destruct IH as (bs & E' & Hbs); [set_solver|].
  exists (b :: bs). cbn [collect]. rewrite E. cbn [mbind result_bind]. rewrite E'. by split; [|constructor].
Qed.

(** * Runs of index code

    [runs d m Q]: from [d], [m] ends with a value and a database for which [Q]
    holds, or fails because the database does not work; [atomic] adds that a
    failure changes nothing. *)

Definition runs {A} d (m : M Db ThreadStoreError A) (Q : A -> Db -> Prop) : Prop :=
  forall d' r, m d = (d', r) -> (db_works d -> db_works d') /\
    match r with
    | Ok a => Q a d'
    | Err err => (exists s, err = Index s) /\ ~ db_works d
    end.

Definition atomic {A} d (m : M Db ThreadStoreError A) (Q : A -> Db -> Prop) : Prop :=
  forall d' r, m d = (d', r) -> (db_works d -> db_works d') /\
    match r with
    | Ok a => Q a d'
    | Err err => (exists s, err = Index s) /\ ~ db_works d /\ same_tables d d'
    end.

Lemma same_tables_refl d : same_tables d d.
Proof. done. Qed.

Lemma same_tables_trans d1 d2 d3 : same_tables d1 d2 -> same_tables d2 d3 -> same_tables d1 d3.
Proof. intros [E1 F1] [E2 F2]. split; [congruence|]. intros t. by rewrite F2. Qed.

Lemma atomic_runs {A} d (m : M Db ThreadStoreError A) Q : atomic d m Q -> runs d m Q.
Proof. intros Hm d' r E. destruct (Hm _ _ E) as [Hw Hr]. split; [done|]. destruct r; [done|]. tauto. Qed.

Lemma runs_ret {A} d (a : A) (Q : A -> Db -> Prop) : Q a d -> runs d (mret a) Q.
Proof. by intros Ha d' r [= <- <-]. Qed.

Lemma runs_bind {A B} d (m : M Db ThreadStoreError A) (k : A -> M Db ThreadStoreError B) Q Q' :
  runs d m Q -> (forall a d1, Q a d1 -> runs d1 (k a) Q') -> runs d (m ≫= k) Q'.
Proof.
  intros Hm Hk d' r E. apply M_bind_cases in E as [(d1 & a & E1 & E2)|(e & E1 & ->)].
  - destruct (Hm _ _ E1) as [Hw1 Ha]. destruct (Hk a d1 Ha _ _ E2) as [Hw2 Hr]. split; [tauto|].
    destruct r; [done|]. tauto.
  - by apply Hm in E1.
Qed.

Lemma runs_pure {A B} d (f : result ThreadStoreError A) a (k : A -> M Db ThreadStoreError B) Q :
  f = Ok a -> runs d (k a) Q -> runs d (of_result f ≫= k) Q.
Proof. intros -> Hk d' r E. apply Hk. exact E. Qed.

Lemma atomic_pure {A B} d (f : result ThreadStoreError A) a (k : A -> M Db ThreadStoreError B) Q :
  f = Ok a -> atomic d (k a) Q -> atomic d (of_result f ≫= k) Q.
Proof. intros -> Hk d' r E. apply Hk. exact E. Qed.

Lemma atomic_mono {A} d (m : M Db ThreadStoreError A) (Q Q' : A -> Db -> Prop) :
  atomic d m Q -> (forall a d', Q a d' -> Q' a d') -> atomic d m Q'.
Proof. intros Hm HQ d' r E. destruct (Hm _ _ E) as [Hw Hr]. split; [done|]. destruct r; auto. Qed.

(** Something pure follows the only action on the database. *)
Lemma atomic_then {A B} d (m : M Db ThreadStoreError A) (f : A -> B) Q :
  atomic d m (fun a => Q (f a)) -> atomic d (a ← m; mret (f a)) Q.
Proof.
  intros Hm d' r E. apply M_bind_cases in E as [(d1 & a & E1 & [= <- <-])|(e & E1 & ->)]; by apply Hm in E1.
Qed.

Lemma atomic_statement {A} d (op : M Db SqlError A) (Q : A -> Db -> Prop) :
  (forall d' r, op d = (d', r) -> statement d d' r (fun a => Q a d')) -> atomic d (map_error Index op) Q.
Proof.
  intros Hop d' r E. unfold map_error in E. destruct (op d) as [d1 r1] eqn:E1. injection E as <- <-.
  destruct (Hop _ _ eq_refl) as [Hw Hr]. split; [done|]. destruct r1; cbn; [done|].
  destruct Hr. split; [eauto|]. by split.
Qed.

Lemma atomic_transaction {A} d keep (body : M Db ThreadStoreError A) (Q : A -> Db -> Prop) :
  (forall d1, same_tables d d1 -> runs d1 body Q) ->
  (forall a d2 d', keep a = true -> Q a d2 -> same_tables d2 d' -> Q a d') ->
  (forall a d2 d', keep a = false -> Q a d2 -> same_tables d d' -> Q a d') ->
  atomic d (sql_transaction Index keep body) Q.
Proof.
  intros Hbody Hkeep Hundo d' r E.
  apply sql_transaction_law in E as [(Hs & Hw & e & ->)|(d1 & d2 & rb & Eb & Hs1 & Hw1 & Hw' & Hr)].
  - split; [done|]. split; [eauto|]. by split.
  - destruct (Hbody d1 Hs1 _ _ Eb) as [Hw2 Hb]. split; [tauto|]. destruct rb as [a|e].
    + destruct (keep a) eqn:Ek.
      * destruct Hr as [[-> Hs]|(Hs & Hnw & e & ->)]; [by eapply Hkeep|]. split; [eauto|]. by split; [tauto|].
      * destruct Hr as [Hs ->]. by eapply Hundo.
    + destruct Hr as [Hs ->], Hb as [? Hnw]. split; [done|]. split; [tauto|done].
Qed.

(** * Whole projections *)

Abbreviation thread_of p := (su_thread_id (pr_summary p)).

(** The tables hold the projection. *)
Definition stored d p : Prop :=
  (exists row, db_rows d !! thread_of p = Some row /\ row_of p row) /\
  Forall2 checkpoint_of (ti_checkpoints (pr_transcript_index p)) (db_checkpoints d (thread_of p)).

(** The rows of other threads are as they were. *)
Definition others_kept t d d' : Prop :=
  forall t', t' <> t -> db_rows d' !! t' = db_rows d !! t' /\ db_checkpoints d' t' = db_checkpoints d t'.

Lemma stored_same d d' p : same_tables d d' -> stored d p -> stored d' p.
Proof. intros [E F] [(row & Hr & Hrow) Hc]. split; [exists row; by rewrite E|by rewrite F]. Qed.

Lemma others_kept_same t d1 d2 d3 : others_kept t d1 d2 -> same_tables d2 d3 -> others_kept t d1 d3.
Proof. intros Ho [E F] t' Ht. by rewrite E, F; apply Ho. Qed.

Lemma others_kept_of_same t d d' : same_tables d d' -> others_kept t d d'.
Proof. intros [E F] t' _. by rewrite E, F. Qed.

Lemma others_kept_trans t d1 d2 d3 : others_kept t d1 d2 -> others_kept t d2 d3 -> others_kept t d1 d3.
Proof. intros K1 K2 t' Ht. destruct (K1 t' Ht) as [<- <-]. by apply K2. Qed.

Lemma filter_nothing {A} (l : list A) : List.filter (fun _ => negb true) l = [].
Proof. induction l as [|a l IH]; [done|exact IH]. Qed.

Definition ordinal_lt (a b : CheckpointRow) : Prop := val (ck_ordinal a) < val (ck_ordinal b).

Lemma insert_row_last c rows : Forall (fun r => ordinal_lt r c) rows -> insert_row c rows = rows ++ [c].
Proof.
  induction 1 as [|r rows Hr _ IH]; [done|]. cbn [insert_row app]. unfold ordinal_lt in Hr.
  rewrite (proj2 (Z.ltb_ge _ _)) by lia. by rewrite IH.
Qed.

Lemma insert_checkpoints_runs t rows d :
  is_Some (db_rows d !! t) -> StronglySorted ordinal_lt (db_checkpoints d t ++ rows) ->
  runs d (insert_checkpoints t rows) (fun _ d' => db_rows d' = db_rows d /\ forall t',
    db_checkpoints d' t' = if bool_decide (t' = t) then db_checkpoints d t ++ rows else db_checkpoints d t').
Proof.
  revert d. induction rows as [|row rows IH]; intros d Hd Hs; cbn [insert_checkpoints].
  - apply runs_ret. split; [done|]. intros t'. case_bool_decide; [by subst; rewrite app_nil_r|done].
  - assert (Hlt : Forall (fun r => ordinal_lt r row) (db_checkpoints d t)).
    { clear -Hs. induction (db_checkpoints d t) as [|r l IHl]; [constructor|].
      apply StronglySorted_inv in Hs as [Hs Hr]. constructor; [|by apply IHl].
      rewrite list.Forall_forall in Hr. apply Hr. set_solver. }
    eapply runs_bind.
    + apply atomic_runs, atomic_statement. intros d1 r E. apply sql_insert_checkpoint_law in E; [exact E|done|].
      intros Hin. apply list_elem_of_In, in_map_iff in Hin as (r' & Er & Hin%list_elem_of_In).
      rewrite list.Forall_forall in Hlt. specialize (Hlt _ Hin). unfold ordinal_lt in Hlt. rewrite Er in Hlt. lia.
    + intros [] d1 [Er Ec]. rewrite insert_row_last in Ec by done.
      assert (Et : db_checkpoints d1 t = db_checkpoints d t ++ [row]) by (rewrite Ec; by rewrite bool_decide_eq_true_2).
      intros d' r E. destruct (IH d1) with (d' := d') (r := r) as [Hw Hr]; [by rewrite Er|by rewrite Et, <- app_assoc|done|].
      split; [done|]. destruct r as [[]|]; [|done]. destruct Hr as [Er' Ec']. split; [congruence|]. intros t'.
      rewrite Ec', Et, Ec. case_bool_decide; [by rewrite <- app_assoc|done].
Qed.

(** Checkpoints in the order of their turns. *)
Definition checkpoints_sorted (l : list TurnCheckpoint) : Prop :=
  StronglySorted (fun a b => val (tc_ordinal a) < val (tc_ordinal b)) l.

Lemma checkpoints_sorted_rows l rows :
  Forall2 checkpoint_of l rows -> checkpoints_sorted l -> StronglySorted ordinal_lt rows.
Proof.
  induction 1 as [|c row l rows Hc Hrows IH]; intros Hs; [constructor|].
  apply StronglySorted_inv in Hs as [Hs Hlt]. constructor; [by apply IH|].
  clear -Hc Hrows Hlt. induction Hrows as [|c' row' l rows Hc' _ IH]; [constructor|].
  apply list.Forall_cons in Hlt as [Hlt Hl]. constructor; [|by apply IH].
  unfold ordinal_lt. rewrite (co_ordinal _ _ Hc), (co_ordinal _ _ Hc'). done.
Qed.

Definition storable_checkpoints (l : list TurnCheckpoint) : Prop :=
  Forall storable_checkpoint l /\ checkpoints_sorted l.

(** A projection is written whole or not at all.  Without [force], a row of the
    same revision is taken to be the projection's. *)
Lemma write_projection_atomic p force d :
  storable p -> storable_checkpoints (ti_checkpoints (pr_transcript_index p)) ->
  (force = false -> forall old, db_rows d !! thread_of p = Some old -> is_current old = true ->
     val (ro_revision old) = rev (su_revision (pr_summary p)) -> row_of p old) ->
  atomic d (write_projection p force) (fun _ d' => stored d' p /\ others_kept (thread_of p) d d').
Proof.
  intros Hp [Hc Hsorted] Hforce. pose proof (rev_bounds (su_revision (pr_summary p))) as Hrb.
  destruct (try_i64_Ok (rev (su_revision (pr_summary p)))) as (rv & Erv & Hrv); [pose proof (sb_revision _ Hp); lia|].
  destruct (collect_Ok checkpoint_row checkpoint_of (ti_checkpoints (pr_transcript_index p))) as (rows & Erows & Hrows).
  { intros c Hin. apply checkpoint_row_Ok. by eapply list.Forall_forall in Hc. }
  destruct (projection_row_Ok p rv Hp Hrv) as (row & Erow & Hrow).
  unfold write_projection. apply (atomic_pure _ _ rv); [exact Erv|]. apply (atomic_pure _ _ rows); [exact Erows|].
  apply atomic_transaction; [|intros _ d2 d' _ [] ?; split; [by eapply stored_same|by eapply others_kept_same]|done].
  intros d1 [Et Ec]. apply (runs_pure _ _ row); [exact Erow|].
  eapply runs_bind; [apply atomic_runs, atomic_statement; intros d2 r E; exact (sql_upsert_law _ _ _ _ _ _ E)|].
  intros [] d2 [Hc2 Hr2]. cbn beta in Hr2.
  eapply runs_bind; [apply atomic_runs, atomic_statement; intros d3 r E; exact (sql_delete_checkpoints_law _ _ _ _ _ E)|].
  intros [] d3 [Hr3 Hc3]. cbn beta in Hc3.
  pose proof (filter_nothing (db_checkpoints d2 (thread_of p))) as Hnil.
  assert (Hnow : db_rows d3 !! thread_of p = Some row
                 /\ forall t', t' <> thread_of p -> db_rows d3 !! t' = db_rows d !! t').
  { rewrite Hr3, Hr2, Et. destruct (db_rows d !! thread_of p) as [old|] eqn:Eold.
    - destruct (force || negb (bool_decide (ro_revision old = ro_revision row))
                || negb (bool_decide (ro_projection_generation old = ro_projection_generation row))) eqn:Ew.
      + split; [apply lookup_insert_eq|]. intros. by apply lookup_insert_ne.
      + split; [|done]. rewrite Eold. f_equal. apply orb_false_iff in Ew as [[Hf Hrev]%orb_false_iff Hgen].
        apply negb_false_iff, bool_decide_eq_true in Hrev, Hgen. apply (row_of_unique p); [|done].
        apply (Hforce Hf old eq_refl); [unfold is_current; rewrite Hgen, (rw_current _ _ Hrow); by apply bool_decide_eq_true|].
        rewrite Hrev. apply (rw_revision _ _ Hrow).
    - split; [apply lookup_insert_eq|]. intros. by apply lookup_insert_ne. }
  destruct Hnow as [Hnow Hother].
  intros d' r E. destruct (insert_checkpoints_runs (thread_of p) rows d3) with (d' := d') (r := r) as [Hw Hr]; [by eauto| |done|].
  { rewrite Hc3, bool_decide_eq_true_2, Hnil by done. by eapply checkpoints_sorted_rows. }
  split; [done|]. destruct r as [[]|]; [|done]. destruct Hr as [Er' Ec'].
  rewrite Hc3, (bool_decide_eq_true_2 (_ = _)), Hnil in Ec' by done. cbn [app] in Ec'. split.
  - split; [exists row; by rewrite Er'|]. by rewrite Ec', bool_decide_eq_true_2.
  - intros t' Ht. rewrite Er', Ec', bool_decide_eq_false_2 by done. split; [by apply Hother|].
    by rewrite Hc3, bool_decide_eq_false_2, Hc2, Ec by done.
Qed.

(** * Single events *)

Lemma update_atomic t expected f d row row' :
  db_rows d !! t = Some row -> at_revision expected row = true -> f row = Some row' ->
  atomic d (update_at t expected f) (fun b d' => b = true /\ db_rows d' = <[t := row']> (db_rows d) /\
    forall t', db_checkpoints d' t' = db_checkpoints d t').
Proof.
  intros Hrow Hat Hf. unfold update_at.
  apply (atomic_then _ _ (fun n => n =? 1)), atomic_statement. intros d' r E. apply sql_update_law in E.
  rewrite Hrow, Hat in E. destruct E as [Hw Hr]. split; [done|]. destruct r as [n|]; [|done].
  destruct Hr as (Hc & -> & Hr). split; [done|]. split; [by apply Hr|done].
Qed.

(** The columns every event sets. *)
Definition header e p : ThreadIndexProjection :=
  on_transcript (set_through_revision (ev_revision e))
    (on_summary (set_su_updated_at (ev_recorded_at_unix_ms e)) (on_summary (set_su_revision (ev_revision e)) p)).

Lemma project_event_header e p :
  project_event e p = mutation_apply (mutation_from_event e) (ev_revision e) (header e p).
Proof. done. Qed.

Lemma row_of_advance e p row rv :
  row_of p row -> val rv = rev (ev_revision e) ->
  row_of (header e p) (advance_row rv (ev_recorded_at_unix_ms e) row).
Proof. destruct p as [[] ? ? ? ? []]. intros [] Hr. by split. Qed.

(** The total the turn's cost brings the row to stays within the integers. *)
Definition exact_cost e p : Prop :=
  match mutation_from_event e with
  | MutCost (Some v) =>
      - 2 ^ 63 <= val (default (i64_of 0) (su_total_cost_micros (pr_summary p))) + val v < 2 ^ 63
  | _ => True
  end.

Lemma metadata_columns_ok m r p row :
  row_of p row -> m <> MutUnchanged -> (forall s b, m <> MutNativeAgent s b) ->
  storable (mutation_apply m r p) ->
  match m with
  | MutCost (Some v) =>
      - 2 ^ 63 <= val (default (i64_of 0) (su_total_cost_micros (pr_summary p))) + val v < 2 ^ 63
  | _ => True
  end ->
  exists f row', metadata_columns m = Ok f /\ f row = Some row' /\ row_of (mutation_apply m r p) row'.
Proof.
  intros Hrow Hu Ha Hst Hcost. destruct p as [[] ? ? ? ? []], Hrow; cbn in *.
  destruct m; try done; cbn [metadata_columns mret result_ret];
    try (by (eexists _, _; split; [reflexivity|]; split; [reflexivity|]; split; cbn; congruence)).
  - eexists _, _. split; [reflexivity|]. split; [reflexivity|]. cbn in *.
    destruct su_first_user_message; split; cbn; try congruence;
      match goal with E : ro_first_user_message _ = _ |- _ => by rewrite E end.
  - destruct value as [v|]; cbn in *;
      [|eexists _, _; split; [reflexivity|]; split; [reflexivity|]; split; cbn; congruence].
    destruct (checked_in _ _ _ Hcost) as (x & Hx & Ex). eexists _, _. split; [reflexivity|].
    cbn. unfold sql_add. match goal with E : ro_total_cost_micros _ = _ |- _ => rewrite E end.
    rewrite Hx. cbn. split; [reflexivity|]. split; cbn; try congruence. f_equal. apply val_inj.
    rewrite Ex, i64_saturating_add_val. lia.
  - by destruct (Ha _ _ eq_refl).
  - destruct checkpoint as [c|]; cbn [transpose]; [|by (eexists _, _; split; [reflexivity|]; split; [reflexivity|];
      split; cbn; congruence)].
    destruct Hst as [_ _ Hc _]. specialize (Hc c eq_refl). pose proof (rev_bounds c).
    unfold revision_to_i64. destruct (try_i64_Ok (rev c)) as (x & -> & Ex); [lia|]. cbn.
    eexists _, _. split; [reflexivity|]. split; [reflexivity|]. split; cbn; congruence.
  - eexists _, _. split; [reflexivity|]. split; [reflexivity|]. pose proof (val_bounds generation).
    split; cbn; try congruence. rewrite val_i64_of; lia.
  - eexists _, _. split; [reflexivity|]. split; [reflexivity|]. pose proof (val_bounds generation).
    destruct created_at, updated_at; split; cbn; try congruence; rewrite val_i64_of; lia.
Qed.

(** * Journals that fit the index *)

Lemma StronglySorted_lookup {A} (R : A -> A -> Prop) l :
  (forall i j x y, (i < j)%nat -> l !! i = Some x -> l !! j = Some y -> R x y) -> StronglySorted R l.
Proof.
  induction l as [|a l IH]; intros Hl; [constructor|]. constructor.
  - apply IH. intros i j x y Hij Hi Hj. apply (Hl (S i) (S j)); [lia|done|done].
  - apply list.Forall_lookup. intros i x Hi. apply (Hl 0%nat (S i)); [lia|done|done].
Qed.

(** The journals the index can hold: revisions and agent sequences stay within
    the integers of SQL. *)
Record indexable es : Prop := {
  ix_numbered : numbered 0 es;
  ix_length : len es < 2 ^ 63;
  ix_sequences : agent_max es < 2 ^ 63
}.

Lemma indexable_prefix es1 es2 : indexable (es1 ++ es2) -> indexable es1.
Proof.
  intros [Hn Hl Ha]. apply numbered_split in Hn as [Hn _]. rewrite length_app in Hl.
  pose proof (agent_max_app es1 es2). split; [done|lia|lia].
Qed.

Lemma project_storable es p :
  indexable es -> project es = Some p ->
  storable p /\ storable_checkpoints (ti_checkpoints (pr_transcript_index p)).
Proof.
  intros [Hn Hl Ha] Hp. pose proof (project_transcript _ _ Hn Hp) as Hok. pose proof (turns_bounds es) as Htb.
  pose proof (checkpoints_count _ _ Hok) as [_ Hcount]. split; [split|split].
  - by rewrite (project_revision _ _ Hn Hp).
  - rewrite (to_last _ _ Hok). lia.
  - intros r Hr. pose proof (project_checkpoint _ _ _ Hn Hp Hr). lia.
  - rewrite (to_total _ _ Hok). lia.
  - apply list.Forall_lookup. intros k c Hk. pose proof (lookup_lt_Some _ _ _ Hk).
    destruct (checkpoints_lookup _ _ _ _ Hn Hok Hk) as (Ho & Hs & Hq).
    split; [lia|]. split; [lia|]. intros s Es. specialize (Hq s Es). lia.
  - apply StronglySorted_lookup. intros i j x y Hij Hi Hj.
    destruct (checkpoints_lookup _ _ _ _ Hn Hok Hi) as (Hx & _).
    destruct (checkpoints_lookup _ _ _ _ Hn Hok Hj) as (Hy & _). lia.
Qed.

Lemma project_snoc es e p :
  numbered 0 (es ++ [e]) -> project es = Some p -> project (es ++ [e]) = Some (project_event e p).
Proof.
  destruct es as [|e0 es]; [done|]. intros Hn Hp. pose proof (numbered_split _ _ _ Hn) as [Hn0 _].
  destruct (project_cons_inv _ _ _ Hn0 Hp) as (p0 & Hc & ->).
  change ((e0 :: es) ++ [e]) with (e0 :: es ++ [e]) in *. rewrite (project_cons _ _ _ Hn Hc).
  unfold project_all. by rewrite fold_left_app.
Qed.

Lemma cursor_new_Ok e es :
  len es + 1 < 2 ^ 63 -> rev (ev_revision e) = len es + 1 ->
  exists c, cursor_new e = Ok c /\ wc_thread_id c = ev_thread_id e /\ val (wc_revision c) = rev (ev_revision e) /\
    val (wc_expected_revision c) = len es /\ wc_updated_at c = ev_recorded_at_unix_ms e.
Proof.
  intros Hl Hr. unfold cursor_new, revision_to_i64.
  destruct (try_i64_Ok (rev (ev_revision e))) as (r & -> & Er); [lia|]. cbn [mbind result_bind].
  assert (Hs : rev (revision_new (u64_saturating_sub (revision_get (ev_revision e)) 1)) = len es).
  { unfold rev at 1. cbn [revision_get]. rewrite u64_saturating_sub_val by lia.
    change (val (revision_get (ev_revision e))) with (rev (ev_revision e)). lia. }
  rewrite Hs. destruct (try_i64_Ok (len es)) as (x & -> & Ex); [lia|]. cbn.
  eexists. split; [reflexivity|]. done.
Qed.

Lemma at_revision_row p row expected :
  row_of p row -> val expected = rev (su_revision (pr_summary p)) -> at_revision expected row = true.
Proof.
  intros Hrow He. unfold at_revision. rewrite (row_is_current _ _ Hrow), andb_true_r.
  apply bool_decide_eq_true, val_inj. by rewrite (rw_revision _ _ Hrow).
Qed.

(** An update that turns the row of [p] into the row of [p'], with the same
    checkpoints, is a step of the index. *)
Lemma update_stored t expected f d p p' row row' :
  db_rows d !! t = Some row -> row_of p row -> thread_of p = t -> thread_of p' = t ->
  Forall2 checkpoint_of (ti_checkpoints (pr_transcript_index p)) (db_checkpoints d t) ->
  ti_checkpoints (pr_transcript_index p') = ti_checkpoints (pr_transcript_index p) ->
  val expected = rev (su_revision (pr_summary p)) -> f row = Some row' -> row_of p' row' ->
  atomic d (update_at t expected f) (fun b d' => b = true /\ stored d' p' /\ others_kept t d d').
Proof.
  intros Hrow Hp Et Et' Hc Hc' He Hf Hp'.
  eapply atomic_mono; [apply (update_atomic _ _ _ _ row row'); [done|by eapply at_revision_row|done]|].
  intros b d' (-> & Er & Ec). split; [done|]. split.
  - split; [exists row'; rewrite Er, Et'; split; [apply lookup_insert_eq|done]|]. by rewrite Et', Ec, Hc'.
  - intros t' Ht. rewrite Er, Ec, lookup_insert_ne by done. done.
Qed.

Lemma header_thread e p : thread_of (header e p) = thread_of p.
Proof. by destruct p as [[] ? ? ? ? []]. Qed.

Lemma header_checkpoints e p :
  ti_checkpoints (pr_transcript_index (header e p)) = ti_checkpoints (pr_transcript_index p).
Proof. by destruct p as [[] ? ? ? ? []]. Qed.

Lemma header_sequence e p : pr_last_agent_sequence (header e p) = pr_last_agent_sequence p.
Proof. done. Qed.

(** An agent event that starts no turn. *)
Lemma row_of_agent p row s seq rv :
  row_of p row -> val s = val seq ->
  row_of (mutation_apply (MutNativeAgent seq false) rv p)
    (set_row_sequence s (ro_transcript_total_turns row) row).
Proof.
  intros Hrow Es. destruct p as [[] ? ? ? ? []], Hrow; cbn in *. split; cbn; try congruence.
  unfold sql_max. rewrite u64_max_val. destruct (Z.leb_spec (val (ro_last_agent_sequence row)) (val s)); lia.
Qed.

Lemma row_of_turn_start p row s seq rv n :
  row_of p row -> val s = val seq -> val n = val (ro_transcript_total_turns row) + 1 -> val n < 2 ^ 63 ->
  row_of (mutation_apply (MutNativeAgent seq true) rv p) (set_row_sequence s n row).
Proof.
  intros Hrow Es En Hn. destruct p as [[] ? ? ? ? []], Hrow; cbn in *. split; cbn; try congruence.
  - unfold sql_max. rewrite u64_max_val. destruct (Z.leb_spec (val (ro_last_agent_sequence row)) (val s)); lia.
  - rewrite u64_saturating_add_val by lia. lia.
Qed.

(** Which old checkpoints a turn start deletes. *)
Lemma max_ordinal_last rows c : Forall (fun r => ordinal_lt r c) rows ->
  0 <= val (ck_ordinal c) -> max_ordinal (rows ++ [c]) = val (ck_ordinal c).
Proof.
  intros Hlt Hc. unfold max_ordinal. rewrite map_app. destruct rows as [|r rows]; [done|]. cbn [map app].
  rewrite fold_left_app. cbn [map fold_left].
  enough (fold_left Z.max (map (fun c => val (ck_ordinal c)) rows) (val (ck_ordinal r)) <= val (ck_ordinal c)) by lia.
  apply list.Forall_cons in Hlt as [Hr Hlt]. unfold ordinal_lt in Hr. revert Hr Hlt.
  generalize (val (ck_ordinal r)). induction rows as [|r' rows IH]; intros z Hz Hlt; [cbn; lia|].
  apply list.Forall_cons in Hlt as [Hr' Hlt]. unfold ordinal_lt in Hr'. cbn [map fold_left]. apply IH; [lia|done].
Qed.

Lemma filter_ordinals base n rows :
  (forall k r, rows !! k = Some r -> val (ck_ordinal r) = base + Z.of_nat k) ->
  List.filter (fun c => negb (val (ck_ordinal c) <? base + Z.of_nat n)) rows = drop n rows.
Proof.
  revert base n. induction rows as [|r rows IH]; intros base n Hk; [by destruct n|]. cbn [List.filter].
  pose proof (Hk 0%nat r eq_refl) as Hr.
  assert (Hk' : forall k r', rows !! k = Some r' -> val (ck_ordinal r') = (base + 1) + Z.of_nat k)
    by (intros k r' E; rewrite (Hk (S k) r' E); lia).
  destruct n as [|n].
  - rewrite (proj2 (Z.ltb_ge _ _)) by lia. cbn [negb drop]. f_equal.
    rewrite <- (IH (base + 1) 0%nat Hk') at 2. apply filter_ext_in. intros c Hin.
    apply list_elem_of_In, list_elem_of_lookup_1 in Hin as (k & Hc). rewrite (Hk' k c Hc).
    rewrite !(proj2 (Z.ltb_ge _ _)) by lia. done.
  - rewrite (proj2 (Z.ltb_lt _ _)) by lia. cbn [negb drop]. rewrite <- (IH (base + 1) n Hk').
    apply filter_ext_in. intros c _. do 2 f_equal. lia.
Qed.

Lemma Forall2_checkpoints_lookup cps rows k row :
  Forall2 checkpoint_of cps rows -> rows !! k = Some row -> exists c, cps !! k = Some c /\ checkpoint_of c row.
Proof. intros Hf Hk. by destruct (Forall2_lookup_r _ _ _ _ _ Hf Hk) as (c & ? & ?); eauto. Qed.

(** The rows a turn start leaves are those of the projection. *)
Lemma turn_start_rows es p c row rows :
  numbered 0 es -> transcript_ok es p ->
  Forall2 checkpoint_of (ti_checkpoints (pr_transcript_index p)) rows ->
  val (tc_ordinal c) = turns es -> checkpoint_of c row ->
  (ck_ordinal row ∉ map ck_ordinal rows) /\
  Forall2 checkpoint_of (pop_checkpoints (ti_checkpoints (pr_transcript_index p) ++ [c]))
    (List.filter (fun r => negb (val (ck_ordinal r) <? max_ordinal (insert_row row rows) - 255)) (insert_row row rows)).
Proof.
  intros Hn Hok Hrows Hc Hrow. pose proof (Forall2_length Hrows) as Hlen.
  destruct (checkpoints_count _ _ Hok) as [Hcap Hcount]. pose proof (turns_bounds es) as Hturns.
  assert (Hord : forall k r, rows !! k = Some r -> val (ck_ordinal r) = turns es - len rows + Z.of_nat k).
  { intros k r Hk. destruct (Forall2_checkpoints_lookup _ _ _ _ Hrows Hk) as (c' & Hk' & Hc').
    destruct (checkpoints_lookup _ _ _ _ Hn Hok Hk') as (Ho & _). rewrite (co_ordinal _ _ Hc'), Ho. lia. }
  assert (Hro : val (ck_ordinal row) = turns es) by (rewrite (co_ordinal _ _ Hrow); done).
  assert (Hlt : Forall (fun r => ordinal_lt r row) rows).
  { apply list.Forall_lookup. intros k r Hk. unfold ordinal_lt. rewrite (Hord k r Hk), Hro.
    apply lookup_lt_Some in Hk. lia. }
  split.
  { intros Hin. apply list_elem_of_In, in_map_iff in Hin as (r & Er & Hin%list_elem_of_In).
    rewrite list.Forall_forall in Hlt. specialize (Hlt _ Hin). unfold ordinal_lt in Hlt. rewrite Er in Hlt. lia. }
  rewrite insert_row_last by done. rewrite max_ordinal_last, Hro by (done || lia).
  set (n := (length (rows ++ [row]) - RECENT_TURN_CHECKPOINT_CAPACITY)%nat).
  assert (Hn' : turns es - 255 <= turns es - len rows + Z.of_nat n).
  { unfold n. rewrite length_app. cbn [length]. unfold RECENT_TURN_CHECKPOINT_CAPACITY in *. lia. }
  assert (Hfilter : List.filter (fun r => negb (val (ck_ordinal r) <? turns es - 255)) (rows ++ [row])
                    = drop n (rows ++ [row])).
  { rewrite <- (filter_ordinals (turns es - len rows) n (rows ++ [row])).
    - apply filter_ext_in. intros r Hin. f_equal.
      apply list_elem_of_In, list_elem_of_lookup_1 in Hin as (k & Hk).
      assert (Hv : val (ck_ordinal r) = turns es - len rows + Z.of_nat k).
      { apply lookup_app_Some in Hk as [Hk|[Hl Hk]]; [by apply Hord|].
        apply list_lookup_singleton_Some in Hk as [Ek <-]. rewrite Hro. lia. }
      unfold n, RECENT_TURN_CHECKPOINT_CAPACITY in *. rewrite length_app in *. cbn [length] in *.
      destruct (Z.ltb_spec (val (ck_ordinal r)) (turns es - 255)); compare.
    - intros k r Hk. apply lookup_app_Some in Hk as [Hk|[Hl Hk]]; [by apply Hord|].
      apply list_lookup_singleton_Some in Hk as [Ek <-]. rewrite Hro. lia. }
  rewrite Hfilter, pop_checkpoints_drop. unfold n. rewrite !length_app, Hlen.
  apply Forall2_drop, Forall2_app; [done|by constructor].
Qed.

(** A turn start is one transaction: the row and the checkpoint, or nothing. *)
Lemma turn_start_atomic es e p d c s seq :
  indexable (es ++ [e]) -> project es = Some p -> stored d p -> ev_thread_id e = thread_of p ->
  agent_event e = Some (seq, true) -> cursor_new e = Ok c -> val s = val seq ->
  atomic d (apply_turn_start c s)
    (fun b d' => b = true /\ stored d' (project_event e p) /\ others_kept (thread_of p) d d').
Proof.
  intros Hix Hp [(row & Hrow & Hro) Hcks] Ht Hagent Hc Hs.
  pose proof (indexable_prefix _ _ Hix) as Hix0. destruct Hix as [Hn Hl _]. destruct Hix0 as [Hn0 _ _].
  rewrite length_app in Hl. cbn [length] in Hl.
  pose proof (numbered_length_last _ _ _ Hn) as Hr. rewrite Z.add_0_l in Hr.
  pose proof (project_transcript _ _ Hn0 Hp) as Hok. pose proof (project_revision _ _ Hn0 Hp) as Hrev.
  destruct (cursor_new_Ok e es) as (c' & Hc' & Ect & Ecr & Ece & Ecu); [lia|done|].
  rewrite Hc in Hc'. injection Hc' as <-. rewrite Ht in Ect.
  pose proof (turns_bounds es) as Htb. pose proof (rw_turns _ _ Hro) as Hrt. rewrite (to_total _ _ Hok) in Hrt.
  assert (Hat : at_revision (wc_expected_revision c) row = true)
    by (apply (at_revision_row p); [done|rewrite Ece, Hrev; done]).
  destruct (checked_in (- 2 ^ 63) (2 ^ 63) (val (ro_transcript_total_turns row) + 1)) as (n & En & Hnv); [lia|].
  set (row' := set_row_sequence s n (advance_row (wc_revision c) (wc_updated_at c) row)).
  assert (Hrow' : row_of (project_event e p) row').
  { rewrite project_event_header, (mutation_agent _ _ _ Hagent). unfold row'. rewrite Ecu.
    apply row_of_turn_start; [by apply row_of_advance|done|done|lia]. }
  set (cp := {| tc_ordinal := ti_total_turns (pr_transcript_index p);
                tc_scan_after := revision_new (u64_saturating_sub (revision_get (ev_revision e)) 1);
                tc_previous_agent_sequence := if negb (val (pr_last_agent_sequence p) =? 0)
                                              then Some (pr_last_agent_sequence p) else None |}).
  set (ck := {| ck_ordinal := ro_transcript_total_turns row; ck_scan_after_revision := wc_expected_revision c;
                ck_previous_agent_sequence := if negb (val (ro_last_agent_sequence row) =? 0)
                                              then Some (ro_last_agent_sequence row) else None |}).
  assert (Hcp : ti_checkpoints (pr_transcript_index (project_event e p))
                = pop_checkpoints (ti_checkpoints (pr_transcript_index p) ++ [cp])).
  { rewrite project_event_header, (mutation_agent _ _ _ Hagent). by destruct p as [[] ? ? ? ? []]. }
  assert (Hck : checkpoint_of cp ck).
  { split; cbn.
    - apply (rw_turns _ _ Hro).
    - rewrite Ece. unfold rev. cbn. rewrite u64_saturating_sub_val by lia.
      change (val (revision_get (ev_revision e))) with (rev (ev_revision e)). lia.
    - rewrite (rw_last_agent_sequence _ _ Hro). destruct (val (pr_last_agent_sequence p) =? 0); [done|]. cbn.
      by rewrite (rw_last_agent_sequence _ _ Hro). }
  destruct (turn_start_rows es p cp ck (db_checkpoints d (thread_of p)) Hn0 Hok Hcks) as [Hfresh Hnew];
    [apply (to_total _ _ Hok)|done|].
  unfold apply_turn_start. rewrite Ect.
  apply atomic_transaction; [|intros b d2 d' _ (-> & Hst & Ho) Hsame; split; [done|];
    split; [by eapply stored_same|by eapply others_kept_same]|intros b d2 d' -> (? & _) _; done].
  intros d1 [Er Ec].
  eapply runs_bind; [apply atomic_runs, atomic_statement; intros d2 r E; exact (sql_select_law _ _ _ _ _ E)|].
  intros found d2 [[Er2 Ec2] Hfound]. cbn beta in Hfound. rewrite Er, Hrow in Hfound. cbn in Hfound.
  rewrite Hat in Hfound. subst found.
  eapply runs_bind.
  { apply atomic_runs, (update_atomic _ _ _ _ row row'); [by rewrite Er2, Er|done|].
    cbn. unfold sql_add. by rewrite En. }
  intros b d3 (-> & Er3 & Ec3). cbn beta iota. cbn [negb].
  assert (Erows : db_rows d3 = <[thread_of p := row']> (db_rows d)) by congruence.
  assert (Ecks : forall t', db_checkpoints d3 t' = db_checkpoints d t') by (intros; by rewrite Ec3, Ec2, Ec).
  eapply (runs_bind _ _ _ (fun _ d' => stored d' (project_event e p) /\ others_kept (thread_of p) d d'));
    [|intros [] d4 [Hst Ho]; by apply runs_ret].
  unfold insert_turn_checkpoint. rewrite Ect.
  eapply runs_bind.
  { apply atomic_runs, atomic_statement. intros d4 r E. apply sql_insert_checkpoint_law in E; [exact E| |].
    - rewrite Erows, lookup_insert_eq. eauto.
    - rewrite Ecks. exact Hfresh. }
  intros [] d4 [Er4 Ec4]. fold ck in Ec4. rewrite Ecks in Ec4. cbn beta in Ec4.
  apply atomic_runs, atomic_statement. intros d5 r E. apply sql_delete_checkpoints_law in E.
  destruct E as [Hw E]. split; [done|]. destruct r as [[]|]; [|done]. destruct E as [Er5 Ec5].
  destruct (project_event_fixed e p) as (_ & Eth & _).
  assert (Erow5 : db_rows d5 = <[thread_of p := row']> (db_rows d)) by congruence.
  split.
  - unfold stored. rewrite Eth, Hcp, Erow5, Ec5, Ec4, !bool_decide_eq_true_2 by done.
    split; [exists row'; split; [apply lookup_insert_eq|done]|exact Hnew].
  - intros t' Hne. rewrite Erow5, Ec5, bool_decide_eq_false_2, Ec4, bool_decide_eq_false_2, lookup_insert_ne by done.
    by rewrite Ecks.
Qed.

Lemma exact_cost_header e p : exact_cost e p -> exact_cost e (header e p).
Proof. by destruct p as [[] ? ? ? ? []]. Qed.

(** One event after the first is applied in one step. *)
Lemma index_apply_atomic es e p d :
  indexable (es ++ [e]) -> project es = Some p -> stored d p -> ev_thread_id e = thread_of p ->
  is_created e = false -> exact_cost e p ->
  atomic d (index_apply e)
    (fun b d' => b = true /\ stored d' (project_event e p) /\ others_kept (thread_of p) d d').
Proof.
  intros Hix Hp Hst Ht Hcr Hcost%exact_cost_header. pose proof (indexable_prefix _ _ Hix) as Hix0.
  pose proof Hix as [Hn Hl Hmax]. pose proof Hix0 as [Hn0 _ _]. rewrite length_app in Hl. cbn [length] in Hl.
  pose proof (numbered_length_last _ _ _ Hn) as Hr. rewrite Z.add_0_l in Hr.
  pose proof (project_revision _ _ Hn0 Hp) as Hrev. pose proof (project_snoc _ _ _ Hn Hp) as Hp'.
  pose proof (project_storable _ _ Hix Hp') as [Hstore _].
  destruct (cursor_new_Ok e es) as (c & Hc & Ect & Ecr & Ece & Ecu); [lia|done|]. rewrite Ht in Ect.
  pose proof Hst as [(row & Hrow & Hro) Hcks]. pose proof (row_of_advance e p row _ Hro Ecr) as Hadv. rewrite <- Ecu in Hadv.
  destruct (project_event_fixed e p) as (_ & Eth & _).
  assert (Hexp : val (wc_expected_revision c) = rev (su_revision (pr_summary p))) by (by rewrite Ece, Hrev).
  assert (Hupdate : forall f row', f row = Some row' -> row_of (project_event e p) row' ->
            ti_checkpoints (pr_transcript_index (project_event e p)) = ti_checkpoints (pr_transcript_index p) ->
            atomic d (update_at (wc_thread_id c) (wc_expected_revision c) f)
              (fun b d' => b = true /\ stored d' (project_event e p) /\ others_kept (thread_of p) d d')).
  { intros f row' Hf Hrow' Hck. rewrite Ect. by apply (update_stored _ _ _ _ p (project_event e p) row row'). }
  unfold index_apply. rewrite Hcr. apply (atomic_pure _ _ c); [done|].
  rewrite project_event_header in *. destruct (mutation_from_event e) as
    [|?|?|?|?|?|? ?|?|?|? ? ?|seq started|?|?|?|? ? ?] eqn:Em;
    try (unfold apply_metadata;
         match type of Em with _ = ?m =>
           destruct (metadata_columns_ok m (ev_revision e) (header e p) _ Hadv)
             as (f & row' & Ef & Efr & Hrow'); [done|done|exact Hstore| |] end;
         [unfold exact_cost in Hcost; rewrite Em in Hcost; first [exact Hcost|exact I]|];
         apply (atomic_pure _ _ f); [exact Ef|]; apply (Hupdate _ row'); [exact Efr|exact Hrow'|];
         match type of Em with _ = ?m =>
           destruct (mutation_apply_transcript m (ev_revision e) (header e p)) as [-> _]; [done|] end;
         apply header_checkpoints).
  - apply (Hupdate _ (advance_row (wc_revision c) (wc_updated_at c) row)); [done|done|]. apply header_checkpoints.
  - assert (Hagent : agent_event e = Some (seq, started)).
    { destruct (agent_event e) as [[s b]|] eqn:Ea; [|by destruct (mutation_not_agent _ seq started Ea)].
      apply mutation_agent in Ea. rewrite Em in Ea. by injection Ea as <- <-. }
    assert (Hseq : val seq < 2 ^ 63).
    { rewrite agent_max_snoc in Hmax. unfold agent_sequence_of in Hmax. rewrite Hagent in Hmax. lia. }
    pose proof (val_bounds seq). destruct (try_i64_Ok (val seq)) as (s & Es & Esv); [lia|].
    unfold apply_native_agent. apply (atomic_pure _ _ s); [exact Es|]. destruct started; cbn [negb].
    + pose proof (turn_start_atomic es e p d c s seq Hix Hp Hst Ht Hagent Hc Esv) as W.
      rewrite project_event_header, Em in W. exact W.
    + apply (Hupdate _ (set_row_sequence s (ro_transcript_total_turns row) (advance_row (wc_revision c) (wc_updated_at c) row)));
        [done| |].
      * by apply (row_of_agent (header e p) (advance_row (wc_revision c) (wc_updated_at c) row)).
      * by destruct p as [[] ? ? ? ? []].
Qed.

(** * Batches of events *)

(** A run of agent events that start no turn counts as one event with the
    highest sequence and the last header. *)
Definition agent_bump e (seq : u64) p : ThreadIndexProjection :=
  mutation_apply (MutNativeAgent seq false) (ev_revision e) (header e p).

Lemma u64_max_assoc x y z : u64_max (u64_max x y) z = u64_max x (u64_max y z).
Proof. apply val_inj. rewrite !u64_max_val. lia. Qed.

Lemma agent_bump_twice e1 e2 m1 m2 p : agent_bump e2 m2 (agent_bump e1 m1 p) = agent_bump e2 (u64_max m1 m2) p.
Proof. destruct p as [[] ? ? ? ? []]. unfold agent_bump. cbn. by rewrite u64_max_assoc. Qed.

Lemma agent_step_mutation e s : agent_step e = Some s -> mutation_from_event e = MutNativeAgent s false.
Proof. unfold agent_step. destruct (mutation_from_event e) as [| | | | | | | | | |seq []| | | |]; try done. by intros [= ->]. Qed.

Lemma agent_step_project e s p : agent_step e = Some s -> project_event e p = agent_bump e s p.
Proof. intros Hs. rewrite project_event_header. by rewrite (agent_step_mutation _ _ Hs). Qed.

Lemma agent_step_event e s : agent_step e = Some s -> agent_event e = Some (s, false).
Proof.
  intros Hs%agent_step_mutation. destruct (agent_event e) as [[s' b]|] eqn:Ea.
  - apply mutation_agent in Ea. rewrite Hs in Ea. by injection Ea as -> ->.
  - by destruct (mutation_not_agent _ s false Ea).
Qed.

Lemma project_all_app es1 es2 p : project_all (es1 ++ es2) p = project_all es2 (project_all es1 p).
Proof. apply fold_left_app. Qed.

(** The inner loop of [apply_all] takes a run of agent events and finds its
    last cursor and highest sequence. *)
Lemma agent_run_ok es e c mx events :
  indexable (es ++ e :: events) -> cursor_new e = Ok c ->
  exists run c' e' mx' rest, agent_run c mx events = Ok (c', mx', rest) /\ events = run ++ rest /\
    cursor_new e' = Ok c' /\ e' ∈ e :: run /\ rev (ev_revision e') = len (es ++ e :: run) /\
    val mx <= val mx' <= Z.max (val mx) (agent_max (es ++ e :: run)) /\
    forall p, project_all run (agent_bump e mx p) = agent_bump e' mx' p.
Proof.
  revert es e c mx. induction events as [|e2 events IH]; intros es e c mx Hix Hc; cbn [agent_run].
  - pose proof (numbered_length_last _ _ _ (ix_numbered _ Hix)) as Hr.
    exists [], c, e, mx, []. do 3 (split; [done|]). split; [set_solver|].
    split; [rewrite length_app; cbn [length]; lia|]. split; [lia|done].
  - assert (Hsplit : es ++ e :: e2 :: events = (es ++ [e]) ++ e2 :: events) by (by rewrite <- app_assoc).
    destruct (agent_step e2) as [s|] eqn:Es.
    + rewrite Hsplit in Hix.
      assert (Hlen : len (es ++ [e]) + 1 < 2 ^ 63 /\ rev (ev_revision e2) = len (es ++ [e]) + 1).
      { destruct Hix as [Hn Hl _]. rewrite length_app in Hl. cbn [length] in Hl.
        rewrite (Hn (length (es ++ [e])) e2) by (by apply list_lookup_middle). lia. }
      destruct (cursor_new_Ok e2 (es ++ [e])) as (c2 & Hc2 & _); [tauto|tauto|].
      destruct (IH (es ++ [e]) e2 c2 (u64_max mx s) Hix Hc2)
        as (run & c' & e' & mx' & rest & Hrun & -> & Hc' & He' & Hr' & Hm & Hproj).
      exists (e2 :: run), c', e', mx', rest. rewrite Hc2. cbn [mbind result_bind].
      assert (Esplit : (es ++ [e]) ++ e2 :: run = es ++ e :: e2 :: run) by (by rewrite <- app_assoc).
      rewrite Esplit in *. split; [exact Hrun|]. split; [done|]. split; [done|]. split; [set_solver|]. split; [done|].
      rewrite u64_max_val in Hm. split; [|intros p; unfold project_all in *; cbn [fold_left];
        by rewrite (agent_step_project _ _ _ Es), agent_bump_twice].
      assert (Hs : val s <= agent_max (es ++ e :: e2 :: run)); [|lia].
      rewrite <- Esplit. change (e2 :: run) with ([e2] ++ run). rewrite app_assoc.
      transitivity (agent_max ((es ++ [e]) ++ [e2])); [|apply agent_max_app].
      rewrite agent_max_snoc. unfold agent_sequence_of. rewrite (agent_step_event _ _ Es). lia.
    + pose proof Hix as [Hn _ _]. rewrite Hsplit in Hn. apply numbered_split in Hn as [Hn _].
      pose proof (numbered_length_last _ _ _ Hn) as Hr.
      exists [], c, e, mx, (e2 :: events). do 3 (split; [done|]). split; [set_solver|].
      split; [rewrite length_app; cbn [length]; lia|]. split; [lia|done].
Qed.

Fixpoint exact_costs es p : Prop :=
  match es with
  | [] => True
  | e :: es => exact_cost e p /\ exact_costs es (project_event e p)
  end.

Lemma exact_costs_app es1 es2 p : exact_costs (es1 ++ es2) p -> exact_costs es2 (project_all es1 p).
Proof. revert p. induction es1 as [|e es1 IH]; intros p Hx; [done|]. destruct Hx as [_ Hx]. by apply IH. Qed.

Lemma project_app es1 es2 p :
  numbered 0 (es1 ++ es2) -> project es1 = Some p -> project (es1 ++ es2) = Some (project_all es2 p).
Proof.
  revert es1 p. induction es2 as [|e es2 IH]; intros es1 p Hn Hp; [by rewrite app_nil_r|].
  change (e :: es2) with ([e] ++ es2) in *. rewrite app_assoc in *.
  pose proof (numbered_split _ _ _ Hn) as [Hn1 _]. by apply (IH (es1 ++ [e])), project_snoc.
Qed.

(** The run of agent events from [e] on, applied by one update. *)
Lemma agent_run_atomic es e run rest p d first c' e' s mx' :
  indexable (es ++ e :: run ++ rest) -> project es = Some p -> stored d p ->
  (forall x, x ∈ e :: run -> ev_thread_id x = thread_of p) ->
  agent_step e = Some s -> cursor_new e = Ok first -> cursor_new e' = Ok c' -> e' ∈ e :: run ->
  val mx' < 2 ^ 63 -> project_all run (agent_bump e s p) = agent_bump e' mx' p ->
  atomic d (apply_native_agent_run first c' mx')
    (fun b d' => b = true /\ stored d' (project_all (e :: run) p) /\ others_kept (thread_of p) d d').
Proof.
  intros Hix Hp [(row & Hrow & Hro) Hcks] Hth Hs Hfirst Hc' He' Hmx Hproj.
  assert (Ebump : project_all (e :: run) p = agent_bump e' mx' p)
    by (unfold project_all in *; cbn [fold_left]; by rewrite (agent_step_project _ _ _ Hs)).
  rewrite Ebump. pose proof Hix as [Hn Hl _]. rewrite length_app in Hl. cbn [length] in Hl. rewrite length_app in Hl.
  pose proof (numbered_split _ _ _ Hn) as [Hn0 _]. pose proof (project_revision _ _ Hn0 Hp) as Hrev.
  destruct (cursor_new_Ok e es) as (f & Hf & Eft & _ & Efe & _);
    [lia|rewrite (Hn (length es) e) by (by apply list_lookup_middle); lia|].
  rewrite Hfirst in Hf. injection Hf as <-. rewrite Hth in Eft by set_solver.
  assert (Hpos : exists k, (es ++ e :: run ++ rest) !! (length es + k)%nat = Some e' /\ (k <= length run)%nat).
  { apply list_elem_of_lookup_1 in He' as (k & Hk). exists k. split.
    - rewrite lookup_app_r by lia. replace (length es + k - length es)%nat with k by lia.
      change (e :: run ++ rest) with ((e :: run) ++ rest). by apply lookup_app_l_Some.
    - apply lookup_lt_Some in Hk. cbn [length] in Hk. lia. }
  destruct Hpos as (k & Hk & Hkl). pose proof (Hn _ _ Hk) as Hre'.
  set (before := take (length es + k) (es ++ e :: run ++ rest)).
  assert (Hbl : len before = Z.of_nat (length es + k)).
  { unfold before. rewrite length_take, length_app. cbn [length]. rewrite length_app. lia. }
  destruct (cursor_new_Ok e' before) as (c & Hc & Ect & Ecr & _ & Ecu); [rewrite Hbl; lia|rewrite Hbl; lia|].
  rewrite Hc' in Hc. injection Hc as <-. rewrite Hth in Ect by done.
  pose proof (val_bounds mx'). destruct (try_i64_Ok (val mx')) as (x & Ex & Exv); [lia|].
  unfold apply_native_agent_run. rewrite Eft, Ect, bool_decide_eq_true_2 by done. cbn [negb].
  apply (atomic_pure _ _ x); [exact Ex|]. rewrite Ecu.
  apply (update_stored _ _ _ _ p (agent_bump e' mx' p) row
           (set_row_sequence x (ro_transcript_total_turns row) (advance_row (wc_revision c') (ev_recorded_at_unix_ms e') row)));
    [done|done|done|by destruct p as [[] ? ? ? ? []]|done|by destruct p as [[] ? ? ? ? []]|by rewrite Efe, Hrev|done|].
  apply (row_of_agent (header e' p) (advance_row (wc_revision c') (ev_recorded_at_unix_ms e') row)); [|done].
  by apply row_of_advance.
Qed.

(** What applying events to the index comes to: all of them, or those before a
    failure of the database. *)
Definition applies p events d d' (r : result ThreadStoreError bool) : Prop :=
  (db_works d -> db_works d') /\
  exists now rest, events = now ++ rest /\ stored d' (project_all now p) /\ others_kept (thread_of p) d d' /\
    ((rest = [] /\ r = Ok true) \/ ((exists s, r = Err (Index s)) /\ ~ db_works d)).

Lemma applies_step p now rest d d1 d' r :
  (db_works d -> db_works d1) -> others_kept (thread_of p) d d1 ->
  thread_of (project_all now p) = thread_of p ->
  applies (project_all now p) rest d1 d' r -> applies p (now ++ rest) d d' r.
Proof.
  intros Hw Ho Ht (Hw' & now' & rest' & -> & Hst & Ho' & Hr). rewrite Ht in Ho'. split; [tauto|].
  exists (now ++ now'), rest'. rewrite app_assoc, project_all_app. split; [done|]. split; [done|].
  split; [by eapply others_kept_trans|]. destruct Hr as [?|[? ?]]; [by left|right; tauto].
Qed.

Lemma applies_failed p events d d' s :
  (db_works d -> db_works d') -> stored d p -> same_tables d d' -> ~ db_works d ->
  applies p events d d' (Err (Index s)).
Proof.
  intros Hw Hst Hs Hnw. split; [done|]. exists [], events. split; [done|]. split; [by eapply stored_same|].
  split; [by apply others_kept_of_same|]. right. eauto.
Qed.

Lemma project_all_thread es p : thread_of (project_all es p) = thread_of p.
Proof.
  revert p. induction es as [|e es IH]; intros p; [done|]. unfold project_all in *. cbn [fold_left]. rewrite IH.
  by destruct (project_event_fixed e p) as (_ & -> & _).
Qed.

(** [agent_run_ok] bounds the sequence of the run it finds. *)
Lemma agent_run_bound es e run rest s (mx' : u64) :
  indexable (es ++ e :: run ++ rest) -> agent_step e = Some s ->
  val mx' <= Z.max (val s) (agent_max (es ++ e :: run)) -> val mx' < 2 ^ 63.
Proof.
  intros Hix Es Hm.
  assert (agent_max (es ++ e :: run) < 2 ^ 63).
  { pose proof (ix_sequences _ Hix). change (e :: run ++ rest) with ((e :: run) ++ rest) in *.
    rewrite app_assoc in *. pose proof (agent_max_app (es ++ e :: run) rest). lia. }
  assert (val s <= agent_max (es ++ e :: run)); [|lia].
  change (e :: run) with ([e] ++ run). rewrite app_assoc.
  transitivity (agent_max (es ++ [e])); [|apply agent_max_app].
  rewrite agent_max_snoc. unfold agent_sequence_of. rewrite (agent_step_event _ _ Es). lia.
Qed.

Lemma M_bind_ext {S E A B} (m : M S E A) (k1 k2 : A -> M S E B) (s : S) :
  (forall s' a, m s = (s', Ok a) -> k1 a s' = k2 a s') -> (m ≫= k1) s = (m ≫= k2) s.
Proof. intros Hk. unfold mbind, M_bind. destruct (m s) as [s' [a|]]; [by apply Hk|done]. Qed.

(** The loop takes at least one event in each turn. *)
Lemma agent_run_shorter c mx events c' mx' rest :
  agent_run c mx events = Ok (c', mx', rest) -> (length rest <= length events)%nat.
Proof.
  revert c mx. induction events as [|e events IH]; intros c mx; cbn [agent_run].
  - by intros [= <- <- <-].
  - destruct (agent_step e) as [s|]; [|by intros [= <- <- <-]]. intros Hr. inv_ok.
    match goal with Hr : agent_run _ _ _ = Ok _ |- _ => apply IH in Hr end. cbn [length]. lia.
Qed.

Lemma apply_loop_fuel fuel1 fuel2 events d :
  (length events <= fuel1)%nat -> (length events <= fuel2)%nat ->
  apply_loop fuel1 events d = apply_loop fuel2 events d.
Proof.
  revert fuel2 events d. induction fuel1 as [|fuel1 IH]; intros fuel2 events d Hf1 Hf2.
  { destruct events; [by destruct fuel2|cbn in Hf1; lia]. }
  destruct events as [|e events]; [by destruct fuel2|]. destruct fuel2 as [|fuel2]; [cbn in Hf2; lia|].
  cbn [length] in *. cbn [apply_loop].
  destruct (agent_step e) as [s|].
  - apply M_bind_ext. intros d1 first _. apply M_bind_ext. intros d2 [[last mx] rest] Hrun.
    assert (length rest <= length events)%nat.
    { unfold of_result in Hrun. destruct (agent_run first s events) as [[[c x] y]|] eqn:E; [|done].
      injection Hrun as _ -> -> ->. by eapply agent_run_shorter. }
    apply M_bind_ext. intros d3 [] _; [|done]. cbn [negb]. apply IH; lia.
  - apply M_bind_ext. intros d1 [] _; [|done]. cbn [negb]. apply IH; lia.
Qed.

Lemma apply_loop_applies fuel es events p d d' r :
  (length events <= fuel)%nat -> indexable (es ++ events) -> project es = Some p -> stored d p ->
  (forall e, e ∈ events -> ev_thread_id e = thread_of p /\ is_created e = false) -> exact_costs events p ->
  apply_loop fuel events d = (d', r) -> applies p events d d' r.
Proof.
  revert es events p d. induction fuel as [|fuel IH]; intros es events p d Hfuel Hix Hp Hst Hev Hcost Hr;
    (destruct events as [|e events];
      [injection Hr as <- <-; split; [done|]; exists [], []; do 2 (split; [done|]); split; [by apply others_kept_of_same|by left]|]);
    [cbn [length] in Hfuel; lia|]. cbn [apply_loop length] in *.
  assert (Hnext : forall now rest d1, e :: events = now ++ rest -> (1 <= length now)%nat ->
            stored d1 (project_all now p) -> others_kept (thread_of p) d d1 -> (db_works d -> db_works d1) ->
            apply_loop fuel rest d1 = (d', r) -> applies p (e :: events) d d' r).
  { intros now rest d1 E Hnow Hst1 Ho Hw Hr1. rewrite E in *.
    assert (Hlen : length (e :: events) = length (now ++ rest)) by (by rewrite E).
    rewrite length_app in Hlen. cbn [length] in Hlen.
    apply (applies_step p now rest d d1); [done|done|apply project_all_thread|].
    pose proof Hix as Hix'. rewrite app_assoc in Hix'.
    apply (IH (es ++ now) rest); try done; [lia| | |by apply exact_costs_app].
    - apply project_app; [|done]. destruct Hix' as [Hn _ _]. by apply numbered_split in Hn as [Hn _].
    - intros x Hx. rewrite project_all_thread. apply Hev. set_solver. }
  destruct (agent_step e) as [s|] eqn:Es.
  - assert (Hcur : exists c, cursor_new e = Ok c).
    { pose proof Hix as [Hn Hl _]. rewrite length_app in Hl. cbn [length] in Hl.
      destruct (cursor_new_Ok e es) as (c & Hc & _); [lia| |by exists c].
      rewrite (Hn (length es) e) by (by apply list_lookup_middle). lia. }
    destruct Hcur as (first & Hfirst). rewrite Hfirst in Hr.
    destruct (agent_run_ok es e first s events Hix Hfirst)
      as (run & c' & e' & mx' & rest & Hrun & -> & Hc' & He' & _ & Hm & Hproj).
    erewrite M_bind_run in Hr by reflexivity. rewrite Hrun in Hr. erewrite M_bind_run in Hr by reflexivity. cbn beta iota in Hr.
    pose proof (agent_run_bound es e run rest s mx' Hix Es ltac:(lia)) as Hmx.
    pose proof (agent_run_atomic es e run rest p d first c' e' s mx' Hix Hp Hst) as Hat.
    assert (Hth : forall x, x ∈ e :: run -> ev_thread_id x = thread_of p) by (intros x Hx; apply Hev; set_solver).
    specialize (Hat Hth Es Hfirst Hc' He' Hmx (Hproj p)).
    apply M_bind_cases in Hr as [(d1 & b & E1 & Hr)|(err & E1 & ->)]; apply Hat in E1 as [Hw E1].
    + destruct E1 as (-> & Hst1 & Ho). cbn [negb] in Hr. apply (Hnext (e :: run) rest d1); try done. cbn [length]. lia.
    + destruct E1 as ([x ->] & Hnw & Hsame). by apply applies_failed.
  - destruct (Hev e) as [Hth Hcr]; [set_solver|]. destruct Hcost as [Hc Hcost].
    assert (Hix1 : indexable (es ++ [e])).
    { apply (indexable_prefix _ events). rewrite <- app_assoc. exact Hix. }
    pose proof (index_apply_atomic es e p d Hix1 Hp Hst Hth Hcr Hc) as Hat.
    apply M_bind_cases in Hr as [(d1 & b & E1 & Hr)|(err & E1 & ->)]; apply Hat in E1 as [Hw E1].
    + destruct E1 as (-> & Hst1 & Ho). cbn [negb] in Hr. apply (Hnext [e] events d1); try done.
    + destruct E1 as ([x ->] & Hnw & Hsame). by apply applies_failed.
Qed.

End Facts.
