(* ===== verification/IndexReads.v ===== *)
(** How the index follows a journal: it shows the thread at some revision of
    its journal whatever fails, a batch applied to it brings it to the head or
    reports that it was behind, and what is read back from it is the
    projection that was written. *)

From stdpp Require Import sorting.
From S2P Require Import Prelude Canonical Events Commands Receipts Format CommandIndex Disk Model RangeFacts Projection ProjectionFacts.
From S2P Require Import ThreadIndex IndexFacts.

Open Scope string_scope.
Open Scope list_scope.
Open Scope Z_scope.

(** * Journals of one thread *)

(** The events of a thread: its creation comes first, and only there. *)
Record thread_events (t : ThreadId) (es : list ThreadEventEnvelope) : Prop := {
  te_numbered : numbered 0 es;
  te_thread : Forall (fun e => ev_thread_id e = t) es;
  te_created : forall k e, es !! k = Some e -> is_created e = (k =? 0)%nat
}.

Lemma thread_events_app t es1 es2 : thread_events t (es1 ++ es2) -> thread_events t es1.
Proof.
  intros [Hn Ht Hc]. apply numbered_split in Hn as [Hn _]. apply list.Forall_app in Ht as [Ht _].
  split; [done|done|]. intros k e Hk. apply Hc. by apply lookup_app_l_Some.
Qed.

Section Reads.
Context `{External, SqliteLaws}.
Implicit Types (p : ThreadIndexProjection) (e : ThreadEventEnvelope) (es : list ThreadEventEnvelope) (d : Db).

Abbreviation thread_of p := (su_thread_id (pr_summary p)).

Lemma is_created_from e : is_created e = true -> is_Some (from_created e).
Proof. unfold is_created, from_created. destruct (ev_body e); try discriminate. eauto. Qed.

Lemma project_thread_events t es : thread_events t es -> es <> [] -> exists p, project es = Some p /\ thread_of p = t.
Proof.
  intros [Hn Ht Hc] Hne. destruct es as [|e es]; [done|]. pose proof (Hc 0%nat e eq_refl) as He.
  destruct (is_created_from e) as [p0 Hp0]; [done|]. exists (project_all es p0).
  split; [by apply project_cons|]. rewrite project_all_thread. destruct (from_created_fixed _ _ Hp0) as (_ & -> & _).
  by apply list.Forall_cons in Ht as [-> _].
Qed.

Lemma project_prefix_thread t es p : thread_events t es -> project es = Some p -> thread_of p = t.
Proof.
  intros Hte Hp. destruct (project_thread_events t es Hte) as (q & Hq & Ht); [by intros ->|].
  rewrite Hp in Hq. by injection Hq as ->.
Qed.

Lemma exact_costs_all_app es1 es2 p : exact_costs (es1 ++ es2) p -> exact_costs es1 p.
Proof. revert p. induction es1 as [|e es1 IH]; intros p Hx; [done|]. destruct Hx as [He Hx]. split; [done|by apply IH]. Qed.

(** The costs recorded in a journal add up within the integers of SQL. *)
Definition exact_totals es : Prop :=
  match es with
  | [] => True
  | e :: es => forall p, from_created e = Some p -> exact_costs es p
  end.

Lemma exact_totals_app es1 es2 p :
  numbered 0 es1 -> exact_totals (es1 ++ es2) -> project es1 = Some p -> exact_costs es2 p.
Proof.
  intros Hn Hx Hp. destruct es1 as [|e es1]; [done|].
  destruct (project_cons_inv _ _ _ Hn Hp) as (p0 & Hp0 & ->). by apply exact_costs_app, Hx.
Qed.

(** * Misses *)

(** No row of the thread waits at the revision [n]. *)
Definition missed d (t : ThreadId) (n : Z) : Prop :=
  forall row, db_rows d !! t = Some row -> is_current row = true -> val (ro_revision row) <> n.

Lemma at_revision_missed d t n expected row :
  missed d t n -> val expected = n -> db_rows d !! t = Some row -> at_revision expected row = false.
Proof.
  intros Hm He Hrow. unfold at_revision. destruct (is_current row) eqn:Ec; [|apply andb_false_r].
  rewrite andb_true_r. apply bool_decide_eq_false. intros E. apply (Hm row Hrow Ec). by rewrite E.
Qed.

Lemma update_missed t n expected f d :
  missed d t n -> val expected = n ->
  atomic d (update_at t expected f) (fun b d' => b = false /\ same_tables d d').
Proof.
  intros Hm He. unfold update_at. apply (atomic_then _ _ (fun n => n =? 1)), atomic_statement. intros d' r E.
  apply sql_update_law in E as [Hw Hr]. split; [done|]. destruct r as [k|]; [|done]. destruct Hr as [Hc Hr].
  assert (k = 0 /\ db_rows d' = db_rows d) as [-> Er].
  { destruct (db_rows d !! t) as [row|] eqn:Erow; [|done]. by rewrite (at_revision_missed d t n expected row) in Hr. }
  done.
Qed.

Lemma metadata_columns_total m :
  m <> MutUnchanged -> (forall s b, m <> MutNativeAgent s b) ->
  (forall r, m = MutModelContextCheckpoint (Some r) -> rev r < 2 ^ 63) -> exists f, metadata_columns m = Ok f.
Proof.
  intros Hu Ha Hc. destruct m; try done; try (eexists; reflexivity); [by destruct (Ha _ _ eq_refl)|].
  destruct checkpoint as [r|]; [|eexists; reflexivity]. specialize (Hc r eq_refl). pose proof (rev_bounds r).
  cbn [metadata_columns transpose]. unfold revision_to_i64.
  destruct (try_i64_Ok (rev r)) as (x & -> & _); [lia|]. eexists; reflexivity.
Qed.

Lemma mutation_checkpoint e r : mutation_from_event e = MutModelContextCheckpoint (Some r) -> rev r < rev (ev_revision e).
Proof.
  unfold mutation_from_event. destruct (ev_body e); repeat case_match; try discriminate.
  intros [= <-]. by apply Z.ltb_lt.
Qed.

(** A step of the loop of [apply_all] on an index that is not at the revision
    before the event: it reports so and changes nothing. *)
Lemma index_apply_missed es e d :
  indexable (es ++ [e]) -> is_created e = false -> missed d (ev_thread_id e) (len es) ->
  atomic d (index_apply e) (fun b d' => b = false /\ same_tables d d').
Proof.
  intros Hix Hcr Hm. pose proof (numbered_length_last _ _ _ (ix_numbered _ Hix)) as Hr.
  pose proof (ix_length _ Hix) as Hl. rewrite length_app in Hl. cbn [length] in Hl.
  pose proof (ix_sequences _ Hix) as Hmax.
  destruct (cursor_new_Ok e es) as (c & Hc & Ect & _ & Ece & _); [lia|lia|]. rewrite <- Ect in Hm.
  unfold index_apply. rewrite Hcr. apply (atomic_pure _ _ c); [exact Hc|].
  destruct (mutation_from_event e) as
    [|?|?|?|?|?|? ?|?|?|? ? ?|seq started|?|?|?|? ? ?] eqn:Em;
    try (unfold apply_metadata;
         match type of Em with _ = ?m =>
           destruct (metadata_columns_total m) as (f & Ef); [done|done| |] end;
         [intros r Er; rewrite Er in Em; apply mutation_checkpoint in Em; lia|];
         apply (atomic_pure _ _ f); [exact Ef|]; by apply (update_missed _ (len es))).
  - by apply (update_missed _ (len es)).
  - assert (Hseq : val seq < 2 ^ 63).
    { destruct (agent_event e) as [[s b]|] eqn:Ea; [|by destruct (mutation_not_agent _ seq started Ea)].
      rewrite (mutation_agent _ _ _ Ea) in Em. injection Em as -> ->.
      rewrite agent_max_snoc in Hmax. unfold agent_sequence_of in Hmax. rewrite Ea in Hmax. lia. }
    pose proof (val_bounds seq). destruct (try_i64_Ok (val seq)) as (s & Es & _); [lia|].
    unfold apply_native_agent. apply (atomic_pure _ _ s); [exact Es|]. destruct started; cbn [negb].
    2: by apply (update_missed _ (len es)).
    unfold apply_turn_start. apply atomic_transaction.
    + intros d1 Hs. eapply runs_bind; [apply atomic_runs, atomic_statement; intros d2 x E; exact (sql_select_law _ _ _ _ _ E)|].
      intros found d2 [Hs2 ->]. pose proof Hs as [Er _]. rewrite Er.
      destruct (db_rows d !! wc_thread_id c) as [row|] eqn:Erow; cbn [mbind option_bind].
      * rewrite (at_revision_missed d (wc_thread_id c) (len es) _ row) by done.
        apply runs_ret. split; [done|]. by eapply same_tables_trans.
      * apply runs_ret. split; [done|]. by eapply same_tables_trans.
    + by intros a d2 d' Hk [-> _].
    + intros a d2 d' _ [-> _] Hs. done.
Qed.

Lemma agent_run_missed es e run rest d first c' e' mx' :
  indexable (es ++ e :: run ++ rest) -> missed d (ev_thread_id e) (len es) ->
  (forall x, x ∈ e :: run -> ev_thread_id x = ev_thread_id e) ->
  cursor_new e = Ok first -> cursor_new e' = Ok c' -> e' ∈ e :: run -> val mx' < 2 ^ 63 ->
  atomic d (apply_native_agent_run first c' mx') (fun b d' => b = false /\ same_tables d d').
Proof.
  intros Hix Hm Hth Hfirst Hc' He' Hmx. pose proof Hix as [Hn Hl _].
  rewrite length_app in Hl. cbn [length] in Hl.
  destruct (cursor_new_Ok e es) as (f & Hf & Eft & _ & Efe & _);
    [lia|rewrite (Hn (length es) e) by (by apply list_lookup_middle); lia|].
  rewrite Hfirst in Hf. injection Hf as <-.
  assert (Ect : wc_thread_id c' = ev_thread_id e').
  { unfold cursor_new in Hc'. by inv_ok. }
  pose proof (val_bounds mx'). destruct (try_i64_Ok (val mx')) as (x & Ex & _); [lia|].
  unfold apply_native_agent_run. rewrite Eft, Ect, (Hth e' He'), bool_decide_eq_true_2 by done. cbn [negb].
  apply (atomic_pure _ _ x); [exact Ex|]. by apply (update_missed _ (len es)).
Qed.

Lemma apply_all_missed es e events d :
  indexable (es ++ e :: events) -> missed d (ev_thread_id e) (len es) -> is_created e = false ->
  (forall x, x ∈ e :: events -> ev_thread_id x = ev_thread_id e) ->
  atomic d (apply_all (e :: events)) (fun b d' => b = false /\ same_tables d d').
Proof.
  intros Hix Hm Hcr Hth d' r Hr. unfold apply_all in Hr. cbn [length apply_loop] in Hr.
  destruct (agent_step e) as [s|] eqn:Es.
  - assert (Hcur : exists c, cursor_new e = Ok c).
    { pose proof Hix as [Hn Hl _]. rewrite length_app in Hl. cbn [length] in Hl.
      destruct (cursor_new_Ok e es) as (c & Hc & _); [lia| |by exists c].
      rewrite (Hn (length es) e) by (by apply list_lookup_middle). lia. }
    destruct Hcur as (first & Hfirst). rewrite Hfirst in Hr.
    destruct (agent_run_ok es e first s events Hix Hfirst)
      as (run & c' & e' & mx' & rest & Hrun & -> & Hc' & He' & _ & Hmx & _).
    erewrite M_bind_run in Hr by reflexivity. rewrite Hrun in Hr. erewrite M_bind_run in Hr by reflexivity. cbn beta iota in Hr.
    pose proof (agent_run_missed es e run rest d first c' e' mx' Hix Hm) as Hat.
    assert (Hth' : forall x, x ∈ e :: run -> ev_thread_id x = ev_thread_id e) by (intros x Hx; apply Hth; set_solver).
    pose proof (agent_run_bound es e run rest s mx' Hix Es ltac:(lia)) as Hb.
    specialize (Hat Hth' Hfirst Hc' He' Hb).
    apply M_bind_cases in Hr as [(d1 & b & E1 & Hr)|(err & E1 & ->)]; apply Hat in E1 as [Hw E1]; [|done].
    destruct E1 as (-> & Hs). injection Hr as <- <-. done.
  - assert (Hix1 : indexable (es ++ [e])).
    { apply (indexable_prefix _ events). rewrite <- app_assoc. exact Hix. }
    pose proof (index_apply_missed es e d Hix1 Hcr Hm) as Hat.
    apply M_bind_cases in Hr as [(d1 & b & E1 & Hr)|(err & E1 & ->)]; apply Hat in E1 as [Hw E1]; [|done].
    destruct E1 as (-> & Hs). injection Hr as <- <-. done.
Qed.

(** * The index and the journal *)

(** A current row of the thread is the projection of some prefix of its journal. *)
Definition honest d (t : ThreadId) es : Prop :=
  forall row, db_rows d !! t = Some row -> is_current row = true ->
  exists es1 es2 p, es = es1 ++ es2 /\ project es1 = Some p /\ thread_of p = t /\ stored d p.

(** The row of the thread, when there is a thread, is the projection of its journal. *)
Definition shows d (t : ThreadId) es : Prop :=
  match project es with
  | Some p => thread_of p = t /\ stored d p
  | None => forall row, db_rows d !! t = Some row -> is_current row = false
  end.

Lemma honest_app d t es more : honest d t es -> honest d t (es ++ more).
Proof.
  intros Hh row Hrow Hc. destruct (Hh row Hrow Hc) as (es1 & es2 & p & -> & Hp & Ht & Hs).
  exists es1, (es2 ++ more), p. by rewrite app_assoc.
Qed.

Lemma honest_same d d' t es : same_tables d d' -> honest d t es -> honest d' t es.
Proof.
  intros Hs Hh row Hrow Hc. pose proof Hs as [Er _]. rewrite Er in Hrow.
  destruct (Hh row Hrow Hc) as (es1 & es2 & p & -> & Hp & Ht & Hst).
  exists es1, es2, p. do 3 (split; [done|]). by eapply stored_same.
Qed.

Lemma stored_honest d p t es1 es2 :
  project es1 = Some p -> thread_of p = t -> stored d p -> honest d t (es1 ++ es2).
Proof. intros Hp Ht Hs row _ _. by exists es1, es2, p. Qed.

Lemma shows_honest d t es : shows d t es -> honest d t es.
Proof.
  unfold shows. destruct (project es) as [p|] eqn:Ep.
  - intros [Ht Hs]. rewrite <- (app_nil_r es). by eapply stored_honest.
  - intros Hn row Hrow Hc. rewrite (Hn row Hrow) in Hc. done.
Qed.

(** An honest index misses a revision, or shows the journal that ends there. *)
Lemma honest_missed d t es :
  numbered 0 es -> honest d t es ->
  missed d t (len es) \/ exists p, project es = Some p /\ thread_of p = t /\ stored d p.
Proof.
  intros Hn Hh. destruct (db_rows d !! t) as [row|] eqn:Erow; [|left; intros ? E; by rewrite Erow in E].
  destruct (is_current row) eqn:Ec; [|left; intros ? E E'; rewrite Erow in E; injection E as ->; by rewrite Ec in E'].
  destruct (Hh row Erow Ec) as (es1 & es2 & p & -> & Hp & Ht & Hs).
  pose proof (numbered_split _ _ _ Hn) as [Hn1 _]. destruct es2 as [|e es2].
  - right. exists p. by rewrite app_nil_r.
  - left. intros row' E' _. pose proof Hs as [(row2 & E2 & Hrow2) _]. rewrite Ht, E' in E2. injection E2 as <-.
    rewrite (rw_revision _ _ Hrow2), (project_revision _ _ Hn1 Hp), length_app. cbn [length]. lia.
Qed.

Lemma created_projection t e events :
  thread_events t (e :: events) -> is_created e = true ->
  exists p, from_created e = Some p /\ project [e] = Some p /\ thread_of p = t.
Proof.
  intros Hte He. pose proof (thread_events_app t [e] events Hte) as Hte1.
  destruct (is_created_from e He) as [p Hp]. exists p. split; [done|].
  assert (Hpe : project [e] = Some p) by exact (project_cons e [] p (te_numbered _ _ Hte1) Hp).
  split; [done|]. by eapply project_prefix_thread.
Qed.

(** The creation event replaces whatever the tables hold of the thread. *)
Lemma index_apply_created t e d :
  thread_events t [e] -> indexable [e] -> is_created e = true ->
  exists p, project [e] = Some p /\ thread_of p = t /\
    atomic d (index_apply e) (fun b d' => b = true /\ stored d' p /\ others_kept t d d').
Proof.
  intros Hte Hix He. destruct (created_projection t e [] Hte He) as (p & Hp & Hpe & Ht). exists p.
  split; [done|]. split; [done|]. destruct (project_storable _ _ Hix Hpe) as [Hs Hcs].
  unfold index_apply. rewrite He, Hp. apply (atomic_then _ _ (fun _ => true)). rewrite <- Ht.
  eapply atomic_mono; [apply write_projection_atomic; [done|done|done]|]. intros _ d' [? ?]. done.
Qed.

(** What a batch of the journal leaves in the index. *)
Definition follows (t : ThreadId) es d d' (r : result ThreadStoreError bool) : Prop :=
  (db_works d -> db_works d') /\ others_kept t d d' /\ honest d' t es /\
  match r with
  | Ok true => shows d' t es
  | Ok false => True
  | Err err => (exists s, err = Index s) /\ ~ db_works d
  end.

Lemma applies_follows t es p events d d' r :
  numbered 0 (es ++ events) -> project es = Some p -> thread_of p = t ->
  applies p events d d' r -> follows t (es ++ events) d d' r.
Proof.
  intros Hn Hp Ht (Hw & now & rest & -> & Hst & Ho & Hr). rewrite Ht in Ho.
  rewrite app_assoc in Hn. pose proof (numbered_split _ _ _ Hn) as [Hn1 _].
  pose proof (project_app es now p Hn1 Hp) as Hpn.
  assert (Ht' : thread_of (project_all now p) = t) by (by rewrite project_all_thread).
  split; [done|]. split; [done|]. split; [rewrite app_assoc; by eapply stored_honest|].
  destruct Hr as [[-> ->]|[[s ->] Hnw]]; [|by split; [eauto|]]. rewrite app_nil_r. unfold shows. by rewrite Hpn.
Qed.

Lemma apply_all_follows t es events d d' r :
  thread_events t (es ++ events) -> indexable (es ++ events) -> exact_totals (es ++ events) ->
  honest d t es -> events <> [] -> apply_all events d = (d', r) -> follows t (es ++ events) d d' r.
Proof.
  intros Hte Hix Hx Hh Hne Hr. destruct events as [|e events]; [done|].
  pose proof (te_numbered _ _ Hte) as Hn. pose proof (numbered_split _ _ _ Hn) as [Hn1 _].
  assert (Hth : forall x, x ∈ e :: events -> ev_thread_id x = t).
  { intros x Hin. pose proof (te_thread _ _ Hte) as Ht. apply list.Forall_app in Ht as [_ Ht].
    rewrite list.Forall_forall in Ht. by apply Ht. }
  assert (Hcr : forall k x, (e :: events) !! k = Some x -> is_created x = (length es + k =? 0)%nat).
  { intros k x Hk. apply (te_created _ _ Hte). rewrite lookup_app_r by lia. by replace (length es + k - length es)%nat with k by lia. }
  assert (Hlater : forall es1 p x, es ++ e :: events = es1 ++ x -> es1 <> [] -> project es1 = Some p ->
            forall y, y ∈ x -> ev_thread_id y = thread_of p /\ is_created y = false).
  { intros es1 p x E Hne1 Hp y Hy. rewrite E in Hte. pose proof (thread_events_app _ _ _ Hte) as Hte1.
    rewrite (project_prefix_thread _ _ _ Hte1 Hp). split.
    - pose proof (te_thread _ _ Hte) as Ht. apply list.Forall_app in Ht as [_ Ht].
      rewrite list.Forall_forall in Ht. by apply Ht.
    - apply list_elem_of_lookup_1 in Hy as (k & Hk).
      rewrite (te_created _ _ Hte (length es1 + k)%nat y).
      + apply Nat.eqb_neq. destruct es1; [done|cbn; lia].
      + rewrite lookup_app_r by lia. by replace (length es1 + k - length es1)%nat with k by lia. }
  assert (Happly : forall es1 p x d1 r1, es ++ e :: events = es1 ++ x -> es1 <> [] -> project es1 = Some p ->
            stored d1 p -> apply_loop (length x) x d1 = (d', r1) -> applies p x d1 d' r1).
  { intros es1 p x d1 r1 E Hne1 Hp Hst Hrun.
    apply (apply_loop_applies (length x) es1 x p d1 d' r1); try done; [by rewrite <- E|by apply (Hlater es1)|].
    apply (exact_totals_app es1); [|by rewrite <- E|done]. rewrite E in Hn. by apply numbered_split in Hn as [Hn _]. }
  destruct es as [|e0 es].
  - pose proof (Hcr 0%nat e eq_refl) as He. cbn in He. cbn [app] in *.
    destruct (index_apply_created t e d) as (p & Hp & Ht & Hat);
      [by apply (thread_events_app t [e] events)|by apply (indexable_prefix [e] events)|done|].
    unfold apply_all in Hr. cbn [length apply_loop] in Hr.
    assert (Es : agent_step e = None).
    { unfold is_created in He. unfold agent_step, mutation_from_event. by destruct (ev_body e). }
    rewrite Es in Hr. change (e :: events) with ([e] ++ events) in *.
    apply M_bind_cases in Hr as [(d1 & b & E1 & Hr)|(err & E1 & ->)]; apply Hat in E1 as [Hw E1].
    + destruct E1 as (-> & Hst & Ho). cbn [negb] in Hr.
      apply (applies_follows t [e] p events d1 d' r) in Hn as (Hw' & Ho' & Hh' & Hr'); [|done|done|by apply (Happly [e])].
      split; [tauto|]. split; [by eapply others_kept_trans|]. split; [done|]. destruct r as [[]|]; [done|done|tauto].
    + destruct E1 as (Hs & Hnw & Hsame). split; [done|]. split; [by apply others_kept_of_same|].
      split; [|done]. apply (honest_app d' t []). by eapply honest_same.
  - pose proof (Hth e ltac:(set_solver)) as Hte0.
    destruct (honest_missed d t (e0 :: es) Hn1 Hh) as [Hm|(p & Hp & Ht & Hst)].
    + rewrite <- Hte0 in Hm.
      apply (apply_all_missed (e0 :: es) e events d Hix Hm) in Hr as [Hw Hr];
        [|by rewrite (Hcr 0%nat e eq_refl)|by intros x Hx'; rewrite Hte0; apply Hth].
      assert (Hs : same_tables d d') by (destruct r; [by destruct Hr|by destruct Hr as (_ & _ & ?)]).
      split; [done|]. split; [by apply others_kept_of_same|].
      split; [apply honest_app; by eapply honest_same|]. destruct r; [by destruct Hr as [-> _]|tauto].
    + apply (applies_follows t (e0 :: es) p (e :: events) d d' r); [done|done|done|]. by apply (Happly (e0 :: es)).
Qed.

(** A projection written whole shows the journal. *)
Lemma index_replace_shows t es p d :
  thread_events t es -> indexable es -> project es = Some p ->
  atomic d (index_replace p) (fun _ d' => shows d' t es /\ others_kept t d d').
Proof.
  intros Hte Hix Hp. destruct (project_storable _ _ Hix Hp) as [Hs Hcs].
  pose proof (project_prefix_thread _ _ _ Hte Hp) as Ht.
  eapply atomic_mono; [apply write_projection_atomic; [done|done|done]|].
  intros _ d' [Hst Ho]. unfold shows. rewrite Hp, <- Ht. done.
Qed.

(** * Reading the index *)

(** Projections that differ at most in a frontier sequence of zero, which the
    tables do not distinguish from none. *)
#[export] Instance projection_equiv : Equiv ThreadIndexProjection := fun p q =>
  on_transcript (set_frontier_sequence None) p = on_transcript (set_frontier_sequence None) q /\
  from_option val 0 (ti_frontier_sequence (pr_transcript_index p))
    = from_option val 0 (ti_frontier_sequence (pr_transcript_index q)).

#[export] Instance projection_equivalence : Equivalence (≡@{ThreadIndexProjection}).
Proof.
  split; [by intros p|by intros p q []|]. intros p q r [E1 F1] [E2 F2]. split; [by rewrite E1|by rewrite F1].
Qed.

#[export] Instance project_event_proper e : Proper ((≡) ==> (≡)) (project_event e).
Proof.
  intros p q [E F]. destruct p as [[] ? ? ? ? []], q as [[] ? ? ? ? []]. cbn in *. injection E. intros. subst.
  unfold project_event. destruct (mutation_from_event e); cbn; repeat case_match; by split.
Qed.

#[export] Instance project_all_proper es : Proper ((≡) ==> (≡)) (project_all es).
Proof.
  induction es as [|e es IH]; intros p q E; [done|]. unfold project_all in *. cbn [fold_left]. apply IH. by rewrite E.
Qed.

#[export] Instance stored_proper d : Proper ((≡) ==> iff) (stored d).
Proof.
  assert (Hdir : forall p q, p ≡ q -> stored d p -> stored d q).
  { intros p q [E F] [(row & Hrow & []) Hc]. destruct p as [[] ? ? ? ? []], q as [[] ? ? ? ? []]. cbn in *.
    injection E. intros. subst. split; [|done]. exists row. by split; [|split]. }
  intros p q E. split; apply Hdir; [done|by symmetry].
Qed.

#[export] Instance transcript_ok_proper es : Proper ((≡) ==> iff) (transcript_ok es).
Proof.
  assert (Hdir : forall p q, p ≡ q -> transcript_ok es p -> transcript_ok es q).
  { intros p q [E F] []. destruct p as [[] ? ? ? ? []], q as [[] ? ? ? ? []]. cbn in *.
    injection E. intros. subst. split; cbn in *; congruence. }
  intros p q E. split; apply Hdir; [done|by symmetry].
Qed.

Lemma equiv_summary p q : p ≡ q -> pr_summary p = pr_summary q.
Proof. intros [E _]. by apply (f_equal pr_summary) in E. Qed.

Lemma revision_from_i64_Ok (i : i64) r : val i = rev r -> revision_from_i64 i = Ok r.
Proof.
  intros E. unfold revision_from_i64. rewrite E. pose proof (rev_bounds r).
  destruct (try_u64_Ok (rev r)) as (u & -> & Eu); [lia|]. cbn. f_equal. apply rev_inj. exact Eu.
Qed.

Lemma digest_from_blob_Ok g : digest_from_blob (digest_bytes g) = Ok g.
Proof.
  unfold digest_from_blob, digest_bytes. rewrite (proj2 (array_of_Some 32 _ _) eq_refl). by destruct g.
Qed.

Lemma try_u64_val z (u : u64) : z = val u -> try_u64 z = Ok u.
Proof.
  intros ->. pose proof (val_bounds u). destruct (try_u64_Ok (val u)) as (x & E & Ex); [lia|].
  rewrite E. f_equal. by apply val_inj.
Qed.

Lemma row_to_summary_Ok p row : row_of p row -> row_to_summary (thread_of p) row = Ok (pr_summary p).
Proof.
  intros []. unfold row_to_summary. rewrite (revision_from_i64_Ok _ _ rw_revision). cbn.
  destruct p as [[] ? ? ? ? ?]. cbn in *. unfold mret, result_ret. f_equal. f_equal; congruence.
Qed.

Lemma frontier_of_Ok (i : i64) (u : u64) : val i = val u ->
  frontier_of i = Ok (if val u =? 0 then None else Some u).
Proof.
  intros E. unfold frontier_of. rewrite E. destruct (val u =? 0); [done|]. cbn [negb transpose].
  by rewrite (try_u64_val _ u).
Qed.

(** The projection [row_to_projection] makes of its row, without checkpoints. *)
Definition restored p : ThreadIndexProjection := {|
  pr_summary := pr_summary p;
  pr_last_agent_sequence := pr_last_agent_sequence p;
  pr_model_context_checkpoint := pr_model_context_checkpoint p;
  pr_dynamic_tools_digest := pr_dynamic_tools_digest p;
  pr_agent_event_metadata_generation := pr_agent_event_metadata_generation p;
  pr_transcript_index := {|
    ti_total_turns := ti_total_turns (pr_transcript_index p);
    ti_checkpoints := [];
    ti_through_revision := su_revision (pr_summary p);
    ti_frontier_sequence := if val (pr_last_agent_sequence p) =? 0 then None else Some (pr_last_agent_sequence p) |} |}.

Lemma row_to_projection_Ok p row :
  row_of p row -> row_to_projection (thread_of p) row = Ok (restored p).
Proof.
  intros Hrow. pose proof (row_to_summary_Ok p row Hrow) as Es. destruct Hrow.
  unfold row_to_projection, restored.
  assert (Ec : transpose revision_from_i64 (ro_model_context_checkpoint_revision row) = Ok (pr_model_context_checkpoint p)).
  { destruct (ro_model_context_checkpoint_revision row) as [i|], (pr_model_context_checkpoint p) as [r|]; try done.
    cbn in rw_checkpoint. injection rw_checkpoint as E. cbn. by rewrite (revision_from_i64_Ok _ _ E). }
  assert (Ed : transpose digest_from_blob (ro_dynamic_tools_digest row) = Ok (pr_dynamic_tools_digest p)).
  { rewrite rw_tools. destruct (pr_dynamic_tools_digest p); [|done]. cbn. by rewrite digest_from_blob_Ok. }
  rewrite Ec. cbn [mbind result_bind]. rewrite Ed. cbn [mbind result_bind]. rewrite Es. cbn [mbind result_bind].
  rewrite (try_u64_val _ _ rw_turns). cbn [mbind result_bind].
  rewrite (frontier_of_Ok _ _ rw_last_agent_sequence). cbn [mbind result_bind].
  rewrite (try_u64_val _ _ rw_last_agent_sequence). cbn [mbind result_bind].
  rewrite rw_generation. rewrite (proj2 (checked_Some _ _ _ (pr_agent_event_metadata_generation p)) eq_refl). done.
Qed.

Lemma checkpoint_of_Ok c row : checkpoint_of c row -> row_to_turn_checkpoint row = Ok c.
Proof.
  intros []. unfold row_to_turn_checkpoint. rewrite (try_u64_val _ _ co_ordinal). cbn [mbind result_bind].
  rewrite (revision_from_i64_Ok _ _ co_scan_after). cbn [mbind result_bind].
  destruct (ck_previous_agent_sequence row) as [i|], (tc_previous_agent_sequence c) as [s|] eqn:Es; try done;
    cbn [transpose]; [|cbn; rewrite <- Es; by destruct c].
  cbn in co_previous. injection co_previous as E. rewrite (try_u64_val _ _ E). cbn. rewrite <- Es. by destruct c.
Qed.

Lemma collect_checkpoints cs rows : Forall2 checkpoint_of cs rows -> collect row_to_turn_checkpoint rows = Ok cs.
Proof.
  induction 1 as [|c row cs rows Hc _ IH]; [done|]. cbn [collect]. rewrite (checkpoint_of_Ok _ _ Hc). cbn. by rewrite IH.
Qed.

(** The row a [SELECT] of the current generation finds. *)
Definition found d (t : ThreadId) : option ProjectionRow :=
  row ← db_rows d !! t; if is_current row then Some row else None.

Lemma found_honest d t es row : honest d t es -> found d t = Some row ->
  exists es1 es2 p, es = es1 ++ es2 /\ project es1 = Some p /\ thread_of p = t /\ stored d p /\ row_of p row.
Proof.
  intros Hh Hf. unfold found in Hf. destruct (db_rows d !! t) as [row'|] eqn:Er; [|done]. cbn in Hf.
  destruct (is_current row') eqn:Ec; [|done]. injection Hf as ->.
  destruct (Hh row Er Ec) as (es1 & es2 & p & E & Hp & Ht & Hst). exists es1, es2, p. do 4 (split; [done|]).
  destruct Hst as [(row2 & E2 & Hrow) _]. rewrite Ht, Er in E2. by injection E2 as ->.
Qed.

Lemma found_stored d t p : stored d p -> thread_of p = t -> exists row, found d t = Some row /\ row_of p row.
Proof.
  intros [(row & Hr & Hrow) _] Ht. exists row. split; [|done]. unfold found. rewrite <- Ht, Hr. cbn.
  by rewrite (row_is_current p).
Qed.

Lemma select_runs d t :
  atomic d (map_error Index (sql_select t is_current)) (fun row d' => same_tables d d' /\ row = found d t).
Proof. apply atomic_statement. intros d' r E. exact (sql_select_law _ _ _ _ _ E). Qed.

Lemma select_checkpoints_runs d t :
  atomic d (map_error Index (sql_select_checkpoints t)) (fun rows d' => same_tables d d' /\ rows = db_checkpoints d t).
Proof. apply atomic_statement. intros d' r E. exact (sql_select_checkpoints_law _ _ _ _ E). Qed.

(** Pure steps at the end of a run. *)
Lemma runs_pure_last {A} d (f : result ThreadStoreError A) a (Q : A -> Db -> Prop) :
  f = Ok a -> Q a d -> runs d (of_result f) Q.
Proof. intros -> Hq d' r [= <- <-]. done. Qed.

Lemma atomic_bind_pure {A B} d (m : M Db ThreadStoreError A) (f : A -> result ThreadStoreError B) (Q : A -> Db -> Prop) Q' :
  atomic d m Q -> (forall a d', Q a d' -> exists b, f a = Ok b /\ Q' b d') -> atomic d (a ← m; of_result (f a)) Q'.
Proof.
  intros Hm Hf d' r E. apply M_bind_cases in E as [(d1 & a & E1 & E2)|(e & E1 & ->)]; apply Hm in E1 as [Hw E1]; [|done].
  destruct (Hf a d1 E1) as (b & Eb & Hb). unfold of_result in E2. rewrite Eb in E2. injection E2 as <- <-. done.
Qed.

Lemma restored_equiv es p :
  numbered 0 es -> project es = Some p ->
  on_transcript (set_checkpoints (ti_checkpoints (pr_transcript_index p))) (restored p) ≡ p.
Proof.
  intros Hn Hp. pose proof (project_transcript _ _ Hn Hp) as [_ Hl Hf _ Hth].
  pose proof (project_revision _ _ Hn Hp) as Hr.
  assert (Et : ti_through_revision (pr_transcript_index p) = su_revision (pr_summary p)) by (apply rev_inj; congruence).
  destruct p as [s l c dt g []]. cbn in *. subst. split; cbn; [done|]. rewrite Hf, <- Hl.
  destruct (Z.eqb_spec (val l) 0) as [->|]; done.
Qed.

(** What [read_projection] reads back of an honest row: the projection written,
    from which folding on gives the same. *)
Lemma read_projection_runs d t es :
  numbered 0 es -> honest d t es ->
  atomic d (read_projection t) (fun o d' => same_tables d d' /\
    match o with
    | Some q => exists es1 es2 p, es = es1 ++ es2 /\ project es1 = Some p /\ thread_of p = t /\ stored d p /\
                  q ≡ p /\ found d t <> None
    | None => found d t = None
    end).
Proof.
  intros Hn Hh. unfold read_projection. apply atomic_transaction; [|intros a d2 d' _ [Hs ?] Hs'; split; [by eapply same_tables_trans|done]|done].
  intros d1 Hs1. eapply runs_bind; [apply atomic_runs, select_runs|]. intros row d2 [Hs2 ->].
  assert (Hfound : found d1 t = found d t) by (unfold found; destruct Hs1 as [-> _]; done). rewrite Hfound.
  destruct (found d t) as [row|] eqn:Ef.
  2: { apply runs_ret. split; [by eapply same_tables_trans|done]. }
  destruct (found_honest d t es row Hh Ef) as (es1 & es2 & p & E & Hp & Ht & Hst & Hrow).
  apply (runs_pure _ _ (restored p)); [rewrite <- Ht; by apply row_to_projection_Ok|].
  eapply runs_bind; [apply atomic_runs, select_checkpoints_runs|]. intros rows d3 [Hs3 ->].
  pose proof (same_tables_trans _ _ _ (same_tables_trans _ _ _ Hs1 Hs2) Hs3) as Hs.
  assert (Hrows : Forall2 checkpoint_of (ti_checkpoints (pr_transcript_index p)) (db_checkpoints d2 t)).
  { destruct Hst as [_ Hc]. destruct (same_tables_trans _ _ _ Hs1 Hs2) as [_ Ec]. by rewrite Ec, <- Ht. }
  apply (runs_pure _ _ (ti_checkpoints (pr_transcript_index p))); [by apply collect_checkpoints|].
  apply runs_ret. split; [done|]. exists es1, es2, p. do 4 (split; [done|]). split; [|done].
  rewrite E in Hn. apply numbered_split in Hn as [Hn _]. by apply (restored_equiv es1).
Qed.

(** ** Scan plans *)

Lemma find_row_checkpoint cs rows (n : u64) (i : i64) :
  Forall2 checkpoint_of cs rows -> val i = val n ->
  transpose row_to_turn_checkpoint (find (fun c => bool_decide (ck_ordinal c = i)) rows)
    = Ok (find (fun c => bool_decide (tc_ordinal c = n)) cs).
Proof.
  intros Hf Hi. induction Hf as [|c row cs rows Hc _ IH]; [done|]. cbn [find].
  assert (E : bool_decide (ck_ordinal row = i) = bool_decide (tc_ordinal c = n)).
  { apply bool_decide_ext. pose proof (co_ordinal _ _ Hc). split; intros Eq; apply val_inj; congruence. }
  rewrite E. destruct (bool_decide (tc_ordinal c = n)); [|exact IH]. cbn. by rewrite (checkpoint_of_Ok _ _ Hc).
Qed.

(** A plan needs no checkpoint at the ends. *)
Lemma plan_from_checkpoint_found i cs first :
  let n := u64_min first (ti_total_turns i) in
  plan_from_checkpoint i first
    (if (val n =? 0) || bool_decide (n = ti_total_turns i) then None
     else find (fun c => bool_decide (tc_ordinal c = n)) cs)
  = plan_from (set_checkpoints cs i) first.
Proof.
  intros n. unfold plan_from, plan_from_checkpoint. cbn [set_checkpoints ti_total_turns ti_checkpoints
    ti_through_revision ti_frontier_sequence]. fold n.
  destruct (val n =? 0); [done|]. cbn [orb]. by destruct (bool_decide (n = ti_total_turns i)).
Qed.

(** The plan the index gives is the one its projection gives: what the
    checkpoint query selects is what [plan_from] finds. *)
Lemma scan_plan_runs d t es p select :
  indexable es -> project es = Some p -> thread_of p = t -> stored d p ->
  atomic d (index_transcript_scan_plan t select) (fun plan d' => same_tables d d' /\
    exists q, q ≡ p /\
      plan = (first ← select (ti_total_turns (pr_transcript_index p)); plan_from (pr_transcript_index q) first)).
Proof.
  intros Hix Hp Ht Hst. pose proof (restored_equiv es p (ix_numbered _ Hix) Hp) as Hq.
  unfold index_transcript_scan_plan. destruct (found_stored d t p Hst Ht) as (row & Ef & Hrow).
  apply atomic_transaction; [|intros a d2 d' _ [Hs ?] Hs'; split; [by eapply same_tables_trans|done]|done].
  intros d1 Hs1. eapply runs_bind; [apply atomic_runs, select_runs|]. intros row' d2 [Hs2 ->].
  assert (Hfound : found d1 t = found d t) by (unfold found; destruct Hs1 as [-> _]; done). rewrite Hfound, Ef.
  pose proof (same_tables_trans _ _ _ Hs1 Hs2) as Hs12.
  eapply runs_pure; [exact (try_u64_val _ _ (rw_turns _ _ Hrow))|].
  eapply runs_pure; [exact (revision_from_i64_Ok _ _ (rw_revision _ _ Hrow))|].
  eapply runs_pure; [exact (frontier_of_Ok _ _ (rw_last_agent_sequence _ _ Hrow))|]. cbn beta zeta.
  destruct (select (ti_total_turns (pr_transcript_index p))) as [first|]; [|by apply runs_ret; split; [|exists p]].
  cbn [mbind option_bind]. set (n := u64_min first (ti_total_turns (pr_transcript_index p))).
  set (cs := ti_checkpoints (pr_transcript_index p)).
  eapply (runs_bind _ _ _ (fun c d3 => same_tables d d3 /\
    c = if (val n =? 0) || bool_decide (n = ti_total_turns (pr_transcript_index p)) then None
        else find (fun c => bool_decide (tc_ordinal c = n)) cs)).
  - destruct ((val n =? 0) || bool_decide (n = ti_total_turns (pr_transcript_index p))) eqn:Eb; [by apply runs_ret|].
    assert (Hni : 0 <= val n < 2 ^ 63).
    { destruct (project_storable _ _ Hix Hp) as [[_ _ _ Hsb] _]. pose proof (val_bounds n) as Hnb.
      assert (val n <= val (ti_total_turns (pr_transcript_index p))) by (unfold n; rewrite u64_min_val; lia). lia. }
    destruct (try_i64_Ok (val n)) as (i & Ei & Eiv); [lia|].
    eapply runs_pure; [exact Ei|].
    eapply runs_bind; [apply atomic_runs, select_checkpoints_runs|]. intros rows d3 [Hs3 ->].
    assert (Hrows : Forall2 checkpoint_of cs (db_checkpoints d2 t)).
    { destruct Hst as [_ Hc]. destruct Hs12 as [_ Ec]. by rewrite Ec, <- Ht. }
    eapply runs_pure_last; [by apply (find_row_checkpoint cs)|]. split; [by eapply same_tables_trans|done].
  - intros c d3 [Hs3 ->]. apply runs_ret. split; [done|].
    exists (on_transcript (set_checkpoints cs) (restored p)). split; [exact Hq|].
    exact (plan_from_checkpoint_found (pr_transcript_index (restored p)) cs first).
Qed.

End Reads.
