(* ===== verification/OpenFacts.v ===== *)
(** Opening, closing and probing a journal: the invariant of a freshly opened
    journal, and the writer lock as a transition system over the calls the
    processes make. *)

From S2P Require Import Prelude Canonical Events Commands Receipts Format FormatFacts.
From S2P Require Import CommandIndex Disk Model Recovery JournalSpec RecoveryFacts Journal JournalFacts AppendFacts CrashFacts.

Open Scope string_scope.
Open Scope list_scope.
Open Scope Z_scope.

Lemma outcome_cases {S E F A B} (m : M S E A) (k : result E A -> M S F B) s s' r :
  (outcome m ≫= k) s = (s', r) -> exists s1 a, outcome (F := F) m s = (s1, Ok a) /\ k a s1 = (s', r).
Proof. unfold mbind, M_bind, outcome. destruct (m s) as [s1 a]. eauto. Qed.

(** * Code that leaves part of the state alone *)

(** Every run of [m], failed or not, leaves [view] of the state as it was. *)
Definition keeps {S X E A} (view : S -> X) (m : M S E A) : Prop :=
  forall s s' r, m s = (s', r) -> view s' = view s.

Section Keeps.
Context {S X : Type} (view : S -> X).

Lemma keeps_bind {E A B} (m : M S E A) (k : A -> M S E B) :
  keeps view m -> (forall a, keeps view (k a)) -> keeps view (m ≫= k).
Proof.
  intros Hm Hk s s' r Hr. apply M_bind_cases in Hr as [(s1 & a & H1 & H2)|(e & H1 & _)].
  - transitivity (view s1); [by eapply Hk|by eapply Hm].
  - by eapply Hm.
Qed.

Lemma keeps_ret {E A} (a : A) : keeps (E := E) view (mret a).
Proof. by intros s s' r [= <- <-]. Qed.

Lemma keeps_of_result {E A} (r : result E A) : keeps view (of_result r).
Proof. by intros s s' r' [= <- <-]. Qed.

Lemma keeps_throw {E A} (e : E) : keeps (A := A) view (throw e).
Proof. by intros s s' r [= <- <-]. Qed.

Lemma keeps_gets {E A} (f : S -> A) : keeps (E := E) view (gets f).
Proof. by intros s s' r [= <- <-]. Qed.

Lemma keeps_modify {E} (f : S -> S) : (forall s, view (f s) = view s) -> keeps (E := E) view (modify f).
Proof. intros Hf s s' r [= <- <-]. apply Hf. Qed.

Lemma keeps_map_error {E F A} (f : E -> F) (m : M S E A) : keeps view m -> keeps view (map_error f m).
Proof. unfold map_error. intros Hm s s' r. destruct (m s) as [s1 r1] eqn:E1. intros [= <- <-]. by eapply Hm. Qed.

Lemma keeps_outcome {E F A} (m : M S E A) : keeps view m -> keeps view (outcome (F := F) m).
Proof. unfold outcome. intros Hm s s' r. destruct (m s) as [s1 r1] eqn:E1. intros [= <- <-]. by eapply Hm. Qed.

Lemma keeps_ignore {E F A} (m : M S E A) : keeps view m -> keeps view (ignore (F := F) m).
Proof. unfold ignore. intros Hm s s' r. destruct (m s) as [s1 r1] eqn:E1. intros [= <- <-]. by eapply Hm. Qed.

End Keeps.

Create HintDb keeps.
#[export] Hint Resolve keeps_bind keeps_ret keeps_of_result keeps_throw keeps_gets keeps_map_error
  keeps_outcome keeps_ignore : keeps.
#[export] Hint Extern 1 (keeps _ (of_option _ _)) => apply keeps_of_result : keeps.
#[export] Hint Extern 1 (keeps _ (guard_m _ _)) => apply keeps_of_result : keeps.
#[export] Hint Extern 1 (keeps _ (modify _)) => apply keeps_modify; intros; reflexivity : keeps.

(** * The lock fields *)

(** The state of [.writer.lock] and of the processes' writer tables. *)
Definition locks (d : Disk) : bool * bool * gset nat := (d_lock_file d, d_lock_held d, d_writers d).

Lemma keeps_syscall {A} (run : io A) : (forall d, locks (fst (run d)) = locks d) -> keeps locks (syscall run).
Proof.
  intros Hrun d d' r Hr. apply syscall_cases in Hr as (faults & [[_ ->]|Hr]); [done|].
  specialize (Hrun (with_faults faults d)). by rewrite Hr in Hrun.
Qed.

Ltac keeps_call := apply keeps_syscall; intros ?; repeat case_match; done.

Lemma keeps_fs_open name : keeps locks (fs_open name).
Proof. keeps_call. Qed.
Lemma keeps_fs_create_new name : keeps locks (fs_create_new name).
Proof. keeps_call. Qed.
Lemma keeps_fs_len name : keeps locks (fs_len name).
Proof. keeps_call. Qed.
Lemma keeps_fs_read_exact name offset n : keeps locks (fs_read_exact name offset n).
Proof. keeps_call. Qed.
Lemma keeps_fs_seek name offset : keeps locks (fs_seek name offset).
Proof. keeps_call. Qed.
Lemma keeps_fs_set_len name n : keeps locks (fs_set_len name n).
Proof. keeps_call. Qed.
Lemma keeps_fs_sync_all name : keeps locks (fs_sync_all name).
Proof. keeps_call. Qed.
Lemma keeps_fs_remove_file name : keeps locks (fs_remove_file name).
Proof. keeps_call. Qed.
Lemma keeps_fs_read_dir : keeps locks fs_read_dir.
Proof. keeps_call. Qed.
Lemma keeps_sync_directory : keeps locks sync_directory.
Proof. apply keeps_bind; [keeps_call|]. intros _. keeps_call. Qed.

Lemma keeps_fs_write_all name b : keeps locks (fs_write_all name b).
Proof.
  intros d d' r. unfold fs_write_all, take_fault.
  destruct (d_faults d); repeat case_match; simplify_eq; by intros [= <- <-].
Qed.

#[export] Hint Resolve keeps_fs_open keeps_fs_create_new keeps_fs_len keeps_fs_read_exact keeps_fs_seek
  keeps_fs_set_len keeps_fs_sync_all keeps_fs_remove_file keeps_fs_read_dir keeps_sync_directory
  keeps_fs_write_all : keeps.

(** Steps through a sequence of calls. *)
Ltac keeps :=
  repeat (first
    [ progress (eauto 1 with keeps nocore)
    | apply keeps_bind; [|intros ?]
    | apply keeps_map_error | apply keeps_outcome | apply keeps_ignore
    | match goal with
      | |- keeps _ (match ?x with _ => _ end) => destruct x
      | |- keeps _ (if ?x then _ else _) => destruct x
      end ]).

Section Open.
Context `{External, JsonCodec}.

Lemma keeps_segment_paths : keeps locks segment_paths.
Proof. unfold segment_paths. keeps. Qed.

Lemma keeps_handle_incomplete_tail path offset is_last mode :
  keeps locks (handle_incomplete_tail path offset is_last mode).
Proof. unfold handle_incomplete_tail. keeps. Qed.

Section Recover.
Context {St : Type} (visit : St -> ThreadEventEnvelope -> St) (config : JournalConfig) (tid : ThreadId).

Lemma keeps_recover_frames fuel path is_last mode file_len offset g :
  keeps locks (recover_frames visit fuel config tid path is_last mode file_len offset g).
Proof.
  revert offset g. induction fuel as [|fuel IH]; intros offset g; cbn [recover_frames]; [keeps|].
  pose proof keeps_handle_incomplete_tail. keeps.
Qed.

Lemma keeps_recover_segment path sequence is_last mode g :
  keeps locks (recover_segment visit config tid path sequence is_last mode g).
Proof. unfold recover_segment. pose proof keeps_recover_frames. keeps. Qed.

Lemma keeps_recover_paths mode count index paths g :
  keeps locks (recover_paths visit config tid mode count index paths g).
Proof.
  revert index g. induction paths as [|[s path] paths IH]; intros index g; cbn [recover_paths]; [keeps|].
  pose proof keeps_recover_segment. keeps.
Qed.

Lemma keeps_recover_fold st : keeps locks (recover_fold visit config tid st).
Proof.
  unfold recover_fold, recover_with_mode. pose proof keeps_segment_paths. pose proof keeps_recover_paths. keeps.
Qed.

End Recover.

(** * The calls that take and release the lock *)

Lemma released (process : nat) (writers : gset nat) :
  process ∉ writers -> ({[ process ]} ∪ writers) ∖ {[ process ]} = writers.
Proof. set_solver. Qed.

Lemma try_lock_cases d d' r :
  outcome (F := JournalError) try_lock_exclusive d = (d', Ok r) ->
  match r with
  | Ok _ => d_lock_held d = false /\ d_lock_held d' = true /\ d_writers d' = d_writers d
  | Err _ => True /\ d_lock_held d' = d_lock_held d /\ d_writers d' = d_writers d
  end.
Proof.
  unfold outcome. destruct (try_lock_exclusive d) as [d1 r1] eqn:E. intros [= <- <-].
  apply syscall_cases in E as (faults & [[-> ->]|E]); [done|]. revert E. cbn.
  destruct (d_lock_held d) eqn:Eh; intros [= <- <-]; by rewrite ?Eh.
Qed.

(** What an attempt to open leaves of the lock, whatever calls failed. *)
Lemma open_locks {St} process config tid st (fold : St -> ThreadEventEnvelope -> St) d d' r :
  open_and_fold process config tid st fold d = (d', r) ->
  match r with
  | Ok (j, _) => (process ∉ d_writers d) /\ d_lock_held d = false /\ tj_process j = process /\
                 d_lock_held d' = true /\ (d_writers d' = {[ process ]} ∪ d_writers d)
  | Err _ => d_lock_held d' = d_lock_held d /\ d_writers d' = d_writers d
  end.
Proof.
  intros Hr. unfold open_and_fold in Hr.
  apply M_bind_cases in Hr as [(d0 & [] & [= <- _] & Hr)|(e & [= <- _] & ->)]; [|done].
  apply M_bind_cases in Hr as [(d1 & [] & H1 & Hr)|(e & H1 & ->)];
    (apply (keeps_map_error locks _ create_dir_all) in H1; [|keeps_call]); [|by injection H1].
  injection H1 as Elf Elh Ew. rewrite <- Elh, <- Ew. clear Elf Elh Ew d.
  erewrite M_bind_run in Hr by reflexivity. erewrite M_bind_run in Hr by reflexivity.
  set (d2 := with_lock _ _ _ d1) in Hr.
  assert (E2 : locks d2 = (d_lock_file d1, d_lock_held d1, {[ process ]} ∪ d_writers d1)) by done. clearbody d2.
  case_bool_decide as Hp; cbn [negb] in Hr.
  { injection Hr as <- <-. injection E2 as Elf Elh Ew. rewrite Elh, Ew. split; [done|]. set_solver. }
  erewrite M_bind_run in Hr by reflexivity.
  apply outcome_cases in Hr as (d3 & opened & H3 & Hr).
  assert (E3 : d_lock_held d3 = d_lock_held d1 /\ d_writers d3 = {[ process ]} ∪ d_writers d1).
  { injection E2 as _ <- <-. unfold outcome in H3. destruct (open_lock_file d2) as [d3' r3] eqn:E3.
    injection H3 as -> _. apply syscall_cases in E3 as (faults & [[_ ->]|[= <- _]]); done. }
  clear E2 H3 d2. destruct E3 as [Elh Ew].
  apply released in Hp as Hrel.
  destruct opened as [[]|e]; cbn beta iota in Hr.
  2: { erewrite M_bind_run in Hr by reflexivity. injection Hr as <- <-. cbn. by rewrite Elh, Ew. }
  apply outcome_cases in Hr as (d4 & locked & H4 & Hr).
  apply try_lock_cases in H4. rewrite Ew, Elh in H4.
  destruct locked as [[]|e]; cbn beta iota in Hr; destruct H4 as (Eh & Eh' & Ew').
  2: { erewrite M_bind_run in Hr by reflexivity. injection Hr as <- <-. cbn. by rewrite Eh', Ew', Hrel. }
  apply outcome_cases in Hr as (d5 & recovered & H5 & Hr).
  apply (keeps_outcome locks) in H5; [|apply keeps_recover_fold]. injection H5 as _ Eh5 Ew5.
  destruct recovered as [[rs st']|e]; cbn beta iota in Hr.
  - injection Hr as <- <-. by rewrite Eh5, Ew5, Eh', Ew'.
  - erewrite M_bind_run in Hr by reflexivity. erewrite M_bind_run in Hr by reflexivity.
    injection Hr as <- <-. cbn. by rewrite Ew5, Ew', Hrel, Eh.
Qed.

(** What a probe leaves of the lock, and its answer. *)
Lemma probe_locks process config d d' r :
  writer_is_busy process config d = (d', r) ->
  d_lock_held d' = d_lock_held d /\ d_writers d' = d_writers d.
Proof.
  intros Hr. unfold writer_is_busy in Hr.
  apply M_bind_cases in Hr as [(d0 & [] & [= <- _] & Hr)|(e & [= <- _] & ->)]; [|done].
  erewrite M_bind_run in Hr by reflexivity. case_bool_decide; [by injection Hr as <- <-|].
  apply outcome_cases in Hr as (d1 & opened & Hop & Hr). apply (keeps_outcome locks) in Hop; [|keeps_call]. injection Hop as _ <- <-.
  destruct opened as [[]|[]]; cbn beta iota in Hr; try by injection Hr as <- <-.
  apply outcome_cases in Hr as (d2 & locked & Hlk & Hr).
  apply try_lock_cases in Hlk.
  destruct locked as [[]|e]; cbn beta iota in Hr; destruct Hlk as (Eh & Eh' & Ew').
  2: { revert Hr. destruct (is_writer_busy_error e); intros [= <- _]; by rewrite Eh', Ew'. }
  apply outcome_cases in Hr as (d3 & released & Hrl & Hr). apply (keeps_outcome locks) in Hrl; [|keeps_call]. injection Hrl as _ E3h E3w.
  erewrite M_bind_run in Hr by reflexivity.
  destruct released as [[]|e]; injection Hr as <- _; cbn; by rewrite E3w, Ew', Eh.
Qed.

(** * The calls of an open journal *)

(** The process of the journal and the lock. *)
Definition journal_locks (s : ThreadJournal * Disk) : nat * (bool * bool * gset nat) :=
  (tj_process (fst s), locks (snd s)).

Lemma keeps_on_disk {A} (m : M Disk JournalError A) : keeps locks m -> keeps journal_locks (on_disk m).
Proof.
  intros Hm [j d] s r. unfold on_disk. destruct (m d) as [d' r'] eqn:E. intros [= <- _].
  unfold journal_locks. cbn. by rewrite (Hm _ _ _ E).
Qed.

Lemma keeps_self {A} (f : ThreadJournal -> A) : keeps journal_locks (self f).
Proof. apply keeps_gets. Qed.

Lemma keeps_update f : (forall j, tj_process (f j) = tj_process j) -> keeps journal_locks (update f).
Proof. intros Hf. apply keeps_modify. intros [j d]. unfold journal_locks. cbn. by rewrite Hf. Qed.

#[local] Hint Resolve keeps_on_disk keeps_self : keeps.
#[local] Hint Extern 1 (keeps _ (update _)) => apply keeps_update; intros; reflexivity : keeps.
#[local] Hint Extern 2 (keeps _ (on_disk _)) => apply keeps_on_disk; keeps : keeps.

Lemma keeps_read_pointer p position c path tid max : keeps locks (read_pointer p position c path tid max).
Proof. unfold read_pointer. keeps. Qed.

Lemma keeps_visit_pointers {A} (visit : FramePointer -> byte_array 16 -> Z -> A -> M Disk JournalError (A * bool))
    fuel segment offset acc :
  (forall p id position a, keeps locks (visit p id position a)) ->
  keeps locks (visit_pointers visit fuel segment offset acc).
Proof.
  intros Hv. revert offset acc. induction fuel as [|fuel IH]; intros offset acc; cbn [visit_pointers]; keeps.
Qed.

Lemma keeps_find_command_frame id j : keeps locks (find_command_frame id j).
Proof.
  unfold find_command_frame. keeps. induction (tj_segments j) as [|s segments IH]; cbn [find_command_pointer]; [keeps|].
  assert (forall fuel offset acc, keeps locks (visit_pointers (match_command (as_uuid id)) fuel s offset acc)).
  { intros. apply keeps_visit_pointers. intros. unfold match_command. keeps. }
  unfold visit_segment_pointers. keeps.
Qed.

Lemma keeps_read_committed p j : keeps locks (read_committed_command p j).
Proof. unfold read_committed_command. pose proof keeps_read_pointer. keeps. Qed.

Lemma keeps_sync_pending current j : keeps locks (sync_pending_segments current j).
Proof.
  assert (forall segments sequences, keeps locks (sync_segments segments sequences)).
  { intros segments sequences. induction sequences; cbn [sync_segments]; unfold sync_file; keeps. }
  unfold sync_pending_segments. keeps.
Qed.

Lemma keeps_write_frame path offset e : keeps locks (write_frame path offset e).
Proof. unfold write_frame, append_at, truncate_and_sync. keeps. Qed.

Lemma keeps_append batch durability : keeps journal_locks (append batch durability).
Proof.
  pose proof keeps_find_command_frame. pose proof keeps_read_committed. pose proof keeps_sync_pending.
  pose proof keeps_write_frame. unfold append, append_new, select_segment, create_segment, settle, commit.
  unfold rollback_frame, truncate_and_sync. keeps.
Qed.

Lemma keeps_sync : keeps journal_locks sync.
Proof. pose proof keeps_sync_pending. unfold sync. keeps. Qed.

(** * What opening, probing and syncing do when no call fails *)

Section Runs.
Context (cfg : JournalConfig) (tid : ThreadId).

Lemma consume_snapshot_run {St} (fold : St -> ThreadEventEnvelope -> St) st layout d :
  healthy d -> validate_config cfg = Ok tt ->
  layout_ok cfg tid 0 HEAD_EMPTY layout -> distinct_commands layout -> crashed cfg tid layout d ->
  len layout + 1 < 2 ^ 64 ->
  consume_snapshot cfg tid st fold d = (d, Ok (fold_left fold (layout_events layout) st)).
Proof.
  intros Hd Hv Hok Hdist Hcr Hlen. unfold consume_snapshot. run_pure Hv.
  destruct (recover_crashed_run cfg tid fold Snapshot layout st d) as (d' & Hrun & Hrep & _); try done.
  cbn [is_writer] in Hrep. subst d'. unfold recover_snapshot_consume.
  erewrite M_bind_run by exact Hrun. done.
Qed.

Lemma open_run {St} process (fold : St -> ThreadEventEnvelope -> St) st layout d :
  healthy d -> validate_config cfg = Ok tt ->
  process ∉ d_writers d -> d_lock_held d = false ->
  layout_ok cfg tid 0 HEAD_EMPTY layout -> distinct_commands layout -> crashed cfg tid layout d ->
  len layout + 1 < 2 ^ 64 ->
  exists j d', open_and_fold process cfg tid st fold d
      = (d', Ok (j, fold_left fold (layout_events layout) st)) /\
    journal_inv cfg tid j layout d' /\ healthy d' /\ tj_process j = process /\
    tj_pending_syncs j = pending_default /\ tj_dirty_batch_count j = u64_zero.
Proof.
  intros Hd Hv Hp Hl Hok Hdist Hcr Hn. unfold open_and_fold.
  run_pure Hv. erewrite M_bind_run by (apply map_error_run; unfold create_dir_all; by rewrite syscall_healthy).
  do 2 erewrite M_bind_run by reflexivity.
  set (d1 := with_lock (d_lock_file d) (d_lock_held d) ({[ process ]} ∪ d_writers d) d).
  rewrite (bool_decide_eq_false_2 _ Hp). cbn [negb]. erewrite M_bind_run by reflexivity.
  set (d2 := with_lock true (d_lock_held d) ({[ process ]} ∪ d_writers d) d).
  assert (H2 : open_lock_file d1 = (d2, Ok tt)) by (unfold open_lock_file; by rewrite syscall_healthy).
  erewrite M_bind_run by (unfold outcome; rewrite H2; reflexivity). cbn beta iota.
  set (d3 := with_lock true true ({[ process ]} ∪ d_writers d) d).
  assert (H3 : try_lock_exclusive d2 = (d3, Ok tt)).
  { unfold try_lock_exclusive. rewrite syscall_healthy by done. cbn. by rewrite Hl. }
  erewrite M_bind_run by (unfold outcome; rewrite H3; reflexivity). cbn beta iota.
  destruct (recover_crashed_run cfg tid fold Writer layout st d3) as (d4 & Hrec & Hrep); try done.
  { by apply (crashed_dir cfg tid layout d). }
  erewrite M_bind_run by (unfold outcome, recover_fold; rewrite Hrec; reflexivity).
  cbn beta iota. eexists _, d4. split; [reflexivity|].
  destruct Hrep as (Hdir & Hf & _). split; [|by unfold healthy; rewrite Hf].
  split; cbn; try done. split; constructor.
Qed.

(** While a journal is open, in this process or another, opening it again is
    refused and changes nothing. *)
Lemma open_busy_run {St} process (fold : St -> ThreadEventEnvelope -> St) st d :
  healthy d -> validate_config cfg = Ok tt ->
  process ∈ d_writers d \/ d_lock_held d = true ->
  exists d', open_and_fold process cfg tid st fold d = (d', Err WriterBusy) /\
    same_dir d d' /\ d_lock_held d' = d_lock_held d /\ d_writers d' = d_writers d /\ healthy d'.
Proof.
  intros Hd Hv Hbusy. unfold open_and_fold.
  run_pure Hv. erewrite M_bind_run by (apply map_error_run; unfold create_dir_all; by rewrite syscall_healthy).
  do 2 erewrite M_bind_run by reflexivity.
  destruct (bool_decide_reflect (process ∈ d_writers d)) as [Hp|Hp]; cbn [negb].
  { eexists. split; [by erewrite M_bind_fails by reflexivity|]. cbn.
    do 2 (split; [done|]). split; [set_solver|done]. }
  destruct Hbusy as [|Hl]; [done|]. erewrite M_bind_run by reflexivity.
  set (d1 := with_lock (d_lock_file d) (d_lock_held d) ({[ process ]} ∪ d_writers d) d).
  set (d2 := with_lock true (d_lock_held d) ({[ process ]} ∪ d_writers d) d).
  assert (H2 : open_lock_file d1 = (d2, Ok tt)) by (unfold open_lock_file; by rewrite syscall_healthy).
  erewrite M_bind_run by (unfold outcome; rewrite H2; reflexivity). cbn beta iota.
  assert (H3 : try_lock_exclusive d2 = (d2, Err WouldBlock)).
  { unfold try_lock_exclusive. rewrite syscall_healthy by done. cbn. by rewrite Hl. }
  erewrite M_bind_run by (unfold outcome; rewrite H3; reflexivity). cbn beta iota.
  erewrite M_bind_run by reflexivity. eexists. split; [reflexivity|]. cbn.
  split; [done|]. split; [done|]. split; [by apply released|done].
Qed.

Lemma probe_run process d :
  healthy d -> validate_config cfg = Ok tt ->
  exists d', writer_is_busy process cfg d
    = (d', Ok (bool_decide (process ∈ d_writers d) || (d_lock_file d && d_lock_held d))) /\
    d_files d' = d_files d /\ d_others d' = d_others d /\ healthy d'.
Proof.
  intros Hd Hv. unfold writer_is_busy. run_pure Hv. erewrite M_bind_run by reflexivity.
  case_bool_decide as Hp; [by exists d|]. cbn [orb].
  destruct (d_lock_file d) eqn:Ef; cbn [andb].
  2: { exists d. split; [|done].
       erewrite M_bind_run by (unfold outcome; rewrite syscall_healthy, Ef by done; reflexivity). done. }
  erewrite M_bind_run by (unfold outcome; rewrite syscall_healthy, Ef by done; reflexivity). cbn beta iota.
  destruct (d_lock_held d) eqn:Eh.
  - exists d. split; [|done].
    erewrite M_bind_run by (unfold outcome, try_lock_exclusive; rewrite syscall_healthy, Eh by done; reflexivity).
    done.
  - erewrite M_bind_run by (unfold outcome, try_lock_exclusive; rewrite syscall_healthy, Eh by done; reflexivity).
    cbn beta iota.
    erewrite M_bind_run by (unfold outcome; rewrite syscall_healthy by done; reflexivity).
    eexists. split; [reflexivity|]. done.
Qed.

Lemma sync_run j layout d :
  healthy d -> journal_inv cfg tid j layout d ->
  exists j' d', sync (j, d)
      = ((j', d'), Ok {| db_through := tj_head j; db_batch_count := tj_dirty_batch_count j |}) /\
    journal_inv cfg tid j' layout d' /\ same_entries d d' /\ tj_process j' = tj_process j /\
    ps_sequences (tj_pending_syncs j') = [] /\ val (tj_dirty_batch_count j') = 0 /\
    (durable_inv j layout d -> durable_inv j' layout d').
Proof.
  intros Hd Hj. pose proof Hj as []. unfold sync. erewrite M_bind_run by reflexivity. cbn [fst].
  destruct (0 <? val (tj_dirty_batch_count j)) eqn:Ed.
  2: { exists j, d. split; [done|]. pose proof (val_bounds (tj_dirty_batch_count j)).
       apply Z.ltb_ge in Ed. assert (val (tj_dirty_batch_count j) = 0) as Hz by lia.
       split; [done|]. split; [apply same_entries_refl|]. split; [done|]. split; [by apply ji_dirty|]. done. }
  destruct (sync_pending_run tid None j layout layout d) as (d' & Hrun & Hsame & Hin & Hall & Hnames); try done.
  exists (set_pending pending_default u64_zero j), d'. split.
  { erewrite M_bind_run by (erewrite M_bind_run by (unfold on_disk; rewrite Hrun; reflexivity); reflexivity).
    reflexivity. }
  split; [|split; [done|do 3 (split; [done|])]].
  - split; cbn; try done; [|by apply (dir_holds_same _ d)]. split; constructor.
  - intros Hdur k fs Hk Hne _ name. rewrite (se_files _ _ Hsame). unfold name.
    destruct (decide (u64_of (Z.of_nat k) ∈ ps_sequences (tj_pending_syncs j))) as [Hp|Hp].
    + pose proof (layout_file_exists tid layout d k ji_dir (lookup_lt_Some _ _ _ Hk)) as Hsome.
      split; [done|]. split; [apply Hin; by left|].
      destruct Hnames as [->|(_ & E & _)]; [|by rewrite E in Hp; apply not_elem_of_nil in Hp].
      apply elem_of_union. left. by apply elem_of_dom.
    + destruct (Hdur k fs Hk Hne Hp) as (Hsome & Hs & Hn). split; [done|]. split.
      * destruct (Hall (segment_file_name (u64_of (Z.of_nat k)))) as [->| ->]; done.
      * destruct Hnames as [->|(_ & _ & ->)]; [|done]. apply elem_of_union. left. by apply elem_of_dom.
Qed.

End Runs.

End Open.
