(* ===== verification/Service.v ===== *)
(** The journal as its callers see it: an abstract specification of [append]
    over the committed frames, which the code refines, and the worlds that any
    sequence of calls by any processes can reach, with crashes between and
    inside the calls; and what a synced journal keeps when power is lost. *)

From S2P Require Import Prelude Canonical Events Commands Receipts Format FormatFacts.
From S2P Require Import CommandIndex Disk Model Recovery JournalSpec RecoveryFacts Journal JournalFacts AppendFacts CrashFacts OpenFacts.

Open Scope string_scope.
Open Scope list_scope.
Open Scope Z_scope.

Section Service.
Context `{External, JsonCodec} (cfg : JournalConfig) (tid : ThreadId).

Abbreviation frame_ok := (frame_ok cfg tid).
Abbreviation layout_ok := (layout_ok cfg tid).
Abbreviation journal_inv := (journal_inv cfg tid).
Abbreviation crashed := (crashed cfg tid).
Abbreviation max_payload := (jc_max_frame_payload_bytes cfg).

(** * Batches the journal accepts *)

(** The batch belongs to the thread, continues the head [h] event by event,
    repeats no event identifier, and fits one frame. *)
Record acceptable (h : ThreadHead) (batch : JournalBatch) (durability : JournalDurability) : Prop := {
  ac_thread : jb_thread_id batch = tid;
  ac_expected : jb_expected_revision batch = head_revision h;
  ac_nonempty : jb_events batch <> [];
  ac_chain : events_chain tid (jb_batch_id batch) (rev (head_revision h)) 0 (head_digest h) (jb_events batch);
  ac_distinct : NoDup (map ev_event_id (jb_events batch));
  ac_count : len (jb_events batch) < 2 ^ 32;
  ac_payload : len (payload_of (stored_of_batch batch durability)) <= val max_payload
}.

Lemma encode_batch_succeeds batch durability max :
  jb_events batch <> [] -> len (jb_events batch) < 2 ^ 32 ->
  len (payload_of (stored_of_batch batch durability)) <= val max -> val max + 236 < 2 ^ 64 ->
  exists e, encode_batch batch durability max = Ok e.
Proof.
  intros Hne Hcount Hpl Hmax. pose proof frame_lengths as [Hfh Hft]. unfold payload_of in Hpl.
  assert (Hr : len (repeat x00 FRAME_HEADER_LEN) = 184) by (by rewrite repeat_length).
  assert (Hw : write_chunks max (repeat x00 FRAME_HEADER_LEN)
                 (json_chunks (map_events stored_list (stored_of_batch batch durability)))
               = Ok (repeat x00 FRAME_HEADER_LEN
                     ++ concat (json_chunks (map_events stored_list (stored_of_batch batch durability))))).
  { pose proof (val_bounds max).
    apply write_chunks_iff; [by rewrite repeat_length|lia|]. rewrite length_app. lia. }
  unfold encode_batch. cbn zeta. rewrite Hw. clear Hw.
  set (content := concat _) in *.
  assert (El : stored_list (sb_events (stored_of_batch batch durability)) = jb_events batch) by done.
  rewrite !El. destruct (jb_events batch) as [|first rest] eqn:Ee; [done|]. cbn [head ok_or mbind result_bind].
  destruct (list_snoc_cases (first :: rest)) as [?|(l & x & Es)]; [done|].
  rewrite Es, last_snoc, <- Es. cbn [ok_or mbind result_bind].
  destruct (checked_in 0 (2 ^ 32) (len (first :: rest))) as (n & -> & _); [lia|]. cbn [ok_or mbind result_bind].
  rewrite drop_app_length' by (by rewrite repeat_length).
  destruct (checked_in 0 (2 ^ 64) (len content)) as (m & -> & _); [lia|]. cbn [ok_or mbind result_bind].
  destruct (checked_in 0 (2 ^ 64) (len (repeat x00 FRAME_HEADER_LEN ++ content) + Z.of_nat FRAME_TRAILER_LEN))
    as (k & -> & _); [rewrite length_app; lia|]. cbn [ok_or mbind result_bind]. eauto.
Qed.

(** The checks of [append] accept exactly the acceptable batches. *)
Lemma acceptable_iff h batch durability :
  val max_payload + 236 < 2 ^ 64 ->
  acceptable h batch durability <->
  jb_thread_id batch = tid /\ jb_expected_revision batch = head_revision h /\
  exists e h', encode_batch batch durability max_payload = Ok e /\
    validate_stored_batch (ef_header e) (ef_stored e) tid h = Ok h'.
Proof.
  intros Hmax. split.
  - intros []. split; [done|]. split; [done|].
    destruct (encode_batch_succeeds batch durability max_payload) as [e He]; try done. exists e.
    pose proof He as Hok. apply encode_batch_Ok in Hok
      as (first & last & n & Hfirst & Hlast & Est & _ & Eh & Ec & _).
    exists (header_head (ef_header e)). split; [done|]. apply validate_stored_batch_iff. split; [|done].
    rewrite Eh, Est. destruct (jb_events batch) as [|f0 rest] eqn:Ee; [done|]. injection Hfirst as ->.
    cbn [events_chain] in ac_chain0. destruct ac_chain0 as (? & ? & ? & Hrev & Hprev & Hchain).
    split; cbn [fh_batch_id fh_command_id fh_command_digest fh_previous_record_digest fh_event_count
                 fh_start_revision fh_end_revision fh_last_record_digest stored_of_batch sb_thread_id
                 sb_batch_id sb_command_id sb_command_digest sb_expected_revision sb_events sb_batch_digest
                 preserve_allocation stored_list] in *; rewrite ?Ee in *; try done.
    + by destruct durability.
    + lia.
    + by exists last.
  - intros (Htid & Hexp & e & h' & He & Hv). apply validate_stored_batch_iff in Hv as [[] _].
    pose proof He as Hok. apply encode_batch_Ok in Hok
      as (first & last & n & Hfirst & Hlast & Est & Hp & Eh & Ec & Hpl & _).
    rewrite Est in *. cbn [stored_of_batch sb_events preserve_allocation stored_list sb_batch_id] in *.
    pose proof (val_bounds (fh_event_count (ef_header e))).
    split; try done; [|lia]. intros E. by rewrite E in Hfirst.
Qed.

(** Acceptability is decided by the checks. *)
Lemma acceptable_or_not h batch durability :
  val max_payload + 236 < 2 ^ 64 -> acceptable h batch durability \/ ~ acceptable h batch durability.
Proof.
  intros Hmax. rewrite acceptable_iff by done.
  destruct (decide (jb_thread_id batch = tid)); [|naive_solver].
  destruct (decide (jb_expected_revision batch = head_revision h)); [|naive_solver].
  destruct (encode_batch batch durability max_payload) as [enc|]; [|right; by intros (_ & _ & ? & ? & [=] & _)].
  destruct (validate_stored_batch (ef_header enc) (ef_stored enc) tid h) as [h'|] eqn:E.
  - left. eauto 6.
  - right. intros (_ & _ & ? & ? & [= <-] & E'). by rewrite E in E'.
Qed.

(** * The specification of [append] *)

(** The frame that holds an acceptable batch. *)
Definition committed_frame_of (batch : JournalBatch) (durability : JournalDurability) (f : Frame) : Prop :=
  exists e, encode_batch batch durability max_payload = Ok e /\ f = frame_of e.

(** From the frames committed so far: the frames after [append], and its result. *)
Inductive append_spec (batch : JournalBatch) (durability : JournalDurability) (frames : list Frame) :
    list Frame -> result JournalError AppendOutcome -> Prop :=
  | spec_duplicate f r :
      f ∈ frames -> frame_id f = jb_command_id batch ->
      sb_command_digest (fr_stored f) = jb_command_digest batch -> frame_receipt f = Some r ->
      append_spec batch durability frames frames (Ok (Duplicate r))
  | spec_collision f :
      f ∈ frames -> frame_id f = jb_command_id batch ->
      sb_command_digest (fr_stored f) <> jb_command_digest batch ->
      append_spec batch durability frames frames (Err (IdempotencyCollision (jb_command_id batch)))
  | spec_wrong_thread :
      jb_command_id batch ∉ map frame_id frames -> jb_thread_id batch <> tid ->
      append_spec batch durability frames frames
        (Err (InvalidBatch "batch thread id does not match the open journal"))
  | spec_conflict :
      jb_command_id batch ∉ map frame_id frames -> jb_thread_id batch = tid ->
      jb_expected_revision batch <> head_revision (last_head HEAD_EMPTY frames) ->
      append_spec batch durability frames frames
        (Err (RevisionConflict (jb_expected_revision batch) (head_revision (last_head HEAD_EMPTY frames))))
  | spec_invalid message :
      jb_command_id batch ∉ map frame_id frames -> jb_thread_id batch = tid ->
      jb_expected_revision batch = head_revision (last_head HEAD_EMPTY frames) ->
      ~ acceptable (last_head HEAD_EMPTY frames) batch durability ->
      append_spec batch durability frames frames (Err (InvalidBatch message))
  | spec_committed f r :
      jb_command_id batch ∉ map frame_id frames ->
      acceptable (last_head HEAD_EMPTY frames) batch durability ->
      committed_frame_of batch durability f -> frame_receipt f = Some r ->
      batch_frame cfg tid batch (last_head HEAD_EMPTY frames) f ->
      append_spec batch durability frames (frames ++ [f]) (Ok (Committed r (jb_events batch))).

(** The bounds under which no counter of the journal overflows. *)
Definition append_room (j : ThreadJournal) (layout : Layout) : Prop :=
  frame_room cfg /\ len layout + 1 < 2 ^ 64 /\ val (tj_dirty_batch_count j) + 1 < 2 ^ 64.

Lemma append_absent batch durability j layout d :
  healthy d -> journal_inv j layout d -> jb_command_id batch ∉ map frame_id (concat layout) ->
  append batch durability (j, d) = append_new batch durability (j, d).
Proof.
  intros Hd Hj Hni. unfold append. erewrite M_bind_run by reflexivity. cbn [fst].
  erewrite M_bind_run by (unfold on_disk; rewrite (find_command_frame_run _ _ _ _ _ _ Hd Hj); reflexivity).
  by rewrite (proj2 (lookup_pointer_None (jb_command_id batch) (layout_pointers layout)))
    by (by rewrite layout_pointers_ids).
Qed.

(** The guards of [append_new], in order. *)
Lemma append_new_rejects batch durability j layout d :
  journal_inv j layout d -> val max_payload + 236 < 2 ^ 64 ->
  jb_command_id batch ∉ map frame_id (concat layout) -> ~ acceptable (tj_head j) batch durability ->
  exists e, append_new batch durability (j, d) = ((j, d), Err e) /\
    append_spec batch durability (concat layout) (concat layout) (Err e).
Proof.
  intros Hj Hmax Hni Hna. pose proof (ji_head _ _ _ _ _ Hj) as Eh. unfold append_new.
  erewrite M_bind_run by reflexivity. cbn [fst].
  rewrite (ji_thread _ _ _ _ _ Hj), (ji_config _ _ _ _ _ Hj).
  destruct (bool_decide_reflect (jb_thread_id batch = tid)) as [Ht|Ht].
  2: { eexists. split; [by erewrite M_bind_fails by reflexivity|]. by apply spec_wrong_thread. }
  erewrite M_bind_run by reflexivity.
  destruct (bool_decide_reflect (jb_expected_revision batch = head_revision (tj_head j))) as [Hr|Hr].
  2: { eexists. split; [by erewrite M_bind_fails by reflexivity|]. rewrite Eh in *. by apply spec_conflict. }
  erewrite M_bind_run by reflexivity. rewrite Eh in Hr, Hna.
  destruct (encode_batch batch durability max_payload) as [e|msg] eqn:Ee.
  2: { eexists. split; [by erewrite M_bind_fails by reflexivity|]. by apply spec_invalid. }
  erewrite M_bind_run by reflexivity. rewrite Eh.
  destruct (validate_stored_batch _ _ tid _) as [h'|msg] eqn:Ev.
  2: { eexists. split; [by erewrite M_bind_fails by reflexivity|]. by apply spec_invalid. }
  exfalso. apply Hna, acceptable_iff; eauto 6.
Qed.

(** When no call fails, [append] does exactly what the specification says. *)
Lemma append_run batch durability j layout d :
  healthy d -> journal_inv j layout d -> append_room j layout ->
  exists j' layout' d' r,
    append batch durability (j, d) = ((j', d'), r) /\
    append_spec batch durability (concat layout) (concat layout') r /\
    journal_inv j' layout' d' /\ healthy d' /\
    val (tj_dirty_batch_count j') <= val (tj_dirty_batch_count j) + 1 /\
    (durable_inv j layout d -> durable_inv j' layout' d') /\
    (forall rc events, r = Ok (Committed rc events) ->
       Forall (fun fs => fs <> []) layout' /\ (durability = Durable -> settled j' d')) /\
    len layout' <= len layout + 1.
Proof.
  intros Hd Hj (Hroom & Hlen & Hdirty). unfold frame_room in Hroom. rewrite header_bytes in Hroom.
  destruct (decide (jb_command_id batch ∈ map frame_id (concat layout))) as [Hin|Hni].
  - apply list_elem_of_In, in_map_iff in Hin as (f & Hid & Hf%list_elem_of_In).
    destruct (append_committed_run cfg tid batch durability f j layout d Hd Hj Hf Hid) as (r & Hr & Hrun).
    do 4 eexists. split; [exact Hrun|]. split; [|do 2 (split; [done|]); split; [lia|split; [done|split; [by case_bool_decide|lia]]]].
    case_bool_decide; [by eapply spec_duplicate|by eapply spec_collision].
  - destruct (acceptable_or_not (tj_head j) batch durability) as [Ha|Hna]; [lia| |].
    + apply acceptable_iff in Ha as Hw; [|lia]. destruct Hw as (Ht & He & e & h' & Hen & Hv).
      assert (Hfit : HEADER_BYTES + len (ef_bytes e) < 2 ^ 64).
      { rewrite header_bytes. apply frame_bytes_length in Hen as Hl. pose proof frame_lengths.
        apply encode_batch_Ok in Hen as (? & ? & ? & _ & _ & _ & Hpl & _ & _ & Hle & _). lia. }
      destruct (append_new_run cfg tid batch durability j layout d e h' Hd Hj Hni Ht He Hen Hv Hlen Hfit Hdirty)
        as (j' & d' & l1 & fs & r & Hrun & Hcat & Hj' & Hd' & Hr & Hdur & Hdi & Hc & Hgrow).
      exists j', (l1 ++ [fs ++ [frame_of e]]), d'. eexists. split; [exact Hrun|].
      rewrite concat_push, Hcat. rewrite (ji_head _ _ _ _ _ Hj) in Ha, Hv.
      assert (Hne : Forall (fun gs => gs <> []) (l1 ++ [fs ++ [frame_of e]])).
      { pose proof (ji_layout _ _ _ _ _ Hj') as Hl. apply layout_ok_app in Hl as (_ & _ & Hl).
        apply list.Forall_app. split; [by apply Hl|]. constructor; [|constructor]. by destruct fs. }
      split; [|do 3 (split; [done|]); split; [done|split; [by intros rc events _|]]].
      2: { rewrite !length_app in *. simpl in *. lia. }
      destruct (encoded_frame_ok _ _ _ _ _ _ _ Hen Hv) as (Hf & _ & Hid & Hev & Hdig & _).
      apply spec_committed; [done|done|by exists e|done|done].
    + destruct (append_new_rejects batch durability j layout d Hj) as (e & Hrun & Hspec); [lia|done|done|].
      exists j, layout, d, (Err e). rewrite (append_absent _ _ _ layout) by done.
      do 4 (split; [done|]). split; [lia|]. split; [done|]. split; [done|lia].
Qed.

(** * Worlds: processes calling the journal of one thread *)

Record World := { w_open : list ThreadJournal; w_disk : Disk }.

(** The calls, on the [k]-th open journal where there is one.  [Exit] is the end
    of a process, whose files the operating system closes; [Crash] is its end
    inside [append]. *)
Inductive Call :=
  | OpenCall (process : nat)
  | AppendCall (k : nat) (batch : JournalBatch) (durability : JournalDurability)
  | SyncCall (k : nat)
  | DropCall (k : nat)
  | ProbeCall (process : nat)
  | Exit (process : nat)
  | Crash (k : nat) (batch : JournalBatch) (durability : JournalDurability).

(** A call and the answers the operating system will give during it. *)
Record Step := { st_call : Call; st_faults : list (option nat) }.

Inductive Reply :=
  | Opened (r : result JournalError unit)
  | Appended (r : result JournalError AppendOutcome)
  | Synced (r : result JournalError DurabilityBarrier)
  | Probed (r : result JournalError bool)
  | Nothing.

Definition on_open (k : nat) (w : World) (run : ThreadJournal -> World * Reply) : World * Reply :=
  match w_open w !! k with Some j => run j | None => (w, Nothing) end.

(** The operating system closes the files of an ended process. *)
Definition process_exit (process : nat) (open : list ThreadJournal) (d : Disk) : World :=
  let held := existsb (fun j => bool_decide (tj_process j = process)) open in
  {| w_open := List.filter (fun j => negb (bool_decide (tj_process j = process))) open;
     w_disk := with_lock (d_lock_file d) (if held then false else d_lock_held d) (d_writers d ∖ {[ process ]}) d |}.

Definition perform (s : Step) (w : World) : World * Reply :=
  let d := with_faults (st_faults s) (w_disk w) in
  match st_call s with
  | OpenCall process =>
      match open process cfg tid d with
      | (d, Ok j) => ({| w_open := w_open w ++ [j]; w_disk := d |}, Opened (Ok tt))
      | (d, Err e) => ({| w_open := w_open w; w_disk := d |}, Opened (Err e))
      end
  | AppendCall k batch durability =>
      on_open k w (fun j =>
        let '((j, d), r) := append batch durability (j, d) in
        ({| w_open := <[ k := j ]> (w_open w); w_disk := d |}, Appended r))
  | SyncCall k =>
      on_open k w (fun j =>
        let '((j, d), r) := sync (j, d) in
        ({| w_open := <[ k := j ]> (w_open w); w_disk := d |}, Synced r))
  | DropCall k =>
      on_open k w (fun j =>
        ({| w_open := delete k (w_open w); w_disk := drop_journal j d |}, Nothing))
  | ProbeCall process =>
      let (d, r) := writer_is_busy process cfg d in
      ({| w_open := w_open w; w_disk := d |}, Probed r)
  | Exit process => (process_exit process (w_open w) d, Nothing)
  | Crash k batch durability =>
      on_open k w (fun j =>
        let '((_, d), _) := append batch durability (j, d) in
        (process_exit (tj_process j) (w_open w) d, Nothing))
  end.

Fixpoint perform_all (steps : list Step) (w : World) : World * list Reply :=
  match steps with
  | [] => (w, [])
  | s :: steps => let (w, r) := perform s w in
                  let (w, rs) := perform_all steps w in (w, r :: rs)
  end.

(** ** One writer at a time *)

Definition lock_inv (w : World) : Prop :=
  match w_open w with
  | [] => d_lock_held (w_disk w) = false /\ d_writers (w_disk w) = ∅
  | [j] => d_lock_held (w_disk w) = true /\ d_writers (w_disk w) = {[ tj_process j ]}
  | _ => False
  end.

Lemma on_open_cases k w run : lock_inv w ->
  (on_open k w run = (w, Nothing)) \/ (exists j, k = 0%nat /\ w_open w = [j] /\ on_open k w run = run j).
Proof.
  unfold lock_inv, on_open. intros Hw. destruct (w_open w) as [|j [|]]; [by left| |done].
  destruct k as [|k]; [right; by exists j|by left].
Qed.

Lemma exit_lock_inv process j d :
  d_lock_held d = true -> d_writers d = {[ tj_process j ]} -> lock_inv (process_exit process [j] d).
Proof.
  intros Hh Hw. unfold process_exit, lock_inv. cbn [existsb List.filter w_open w_disk].
  destruct (bool_decide_reflect (tj_process j = process)) as [<-|Hne]; cbn; rewrite ?Hh, Hw.
  - split; [done|]. set_solver.
  - split; [done|]. set_solver.
Qed.

Lemma append_locks batch durability j d j' d' r :
  append batch durability (j, d) = ((j', d'), r) -> tj_process j' = tj_process j /\ locks d' = locks d.
Proof. intros Hr. pose proof (keeps_append batch durability _ _ _ Hr) as E. exact (conj (f_equal fst E) (f_equal snd E)). Qed.

Lemma sync_locks j d j' d' r :
  sync (j, d) = ((j', d'), r) -> tj_process j' = tj_process j /\ locks d' = locks d.
Proof. intros Hr. pose proof (keeps_sync _ _ _ Hr) as E. exact (conj (f_equal fst E) (f_equal snd E)). Qed.

Lemma open_call_locks process d d' r :
  open process cfg tid d = (d', r) ->
  match r with
  | Ok j => d_lock_held d = false /\ tj_process j = process /\
            d_lock_held d' = true /\ d_writers d' = {[ process ]} ∪ d_writers d
  | Err _ => d_lock_held d' = d_lock_held d /\ d_writers d' = d_writers d
  end.
Proof.
  intros Hr. unfold open in Hr.
  apply M_bind_cases in Hr as [(d1 & [j st] & Ho & [= <- <-])|(e & Ho & ->)]; apply open_locks in Ho; [|done].
  tauto.
Qed.

(** The lock allows one open journal, whatever calls fail. *)
Lemma perform_lock_inv s w : lock_inv w -> lock_inv (fst (perform s w)).
Proof.
  intros Hw. unfold perform.
  assert (Hlocks : forall j d, w_open w = [j] -> locks d = locks (w_disk w) ->
            d_lock_held d = true /\ d_writers d = {[ tj_process j ]}).
  { intros j d Ew E. unfold lock_inv in Hw. rewrite Ew in Hw. by injection E as _ -> ->. }
  set (d := with_faults (st_faults s) (w_disk w)). assert (Ed : locks d = locks (w_disk w)) by done.
  destruct (st_call s) as [p|k b du|k|k|p|p|k b du].
  - destruct (open p cfg tid d) as [d' [j|e]] eqn:Eo; apply open_call_locks in Eo; cbn [fst];
      change (d_lock_held d) with (d_lock_held (w_disk w)) in Eo;
      change (d_writers d) with (d_writers (w_disk w)) in Eo; unfold lock_inv in *; cbn [w_open w_disk];
      destruct (w_open w) as [|j1 [|]]; try done.
    + destruct Eo as (_ & Ep & Eh & Ewr), Hw as [_ Hwr]. cbn. rewrite Ep, Eh, Ewr, Hwr. split; [done|]. set_solver.
    + destruct Eo as (Eo & _), Hw as [Hh _]. congruence.
    + by destruct Eo as [-> ->].
    + by destruct Eo as [-> ->].
  - edestruct (on_open_cases k w) as [->|(j & -> & Ew & ->)]; [done|done|].
    destruct (append b du (j, d)) as [[j' d'] r] eqn:Ea. apply append_locks in Ea as [Ep El].
    unfold lock_inv. cbn [fst w_open w_disk]. rewrite Ew. cbn. rewrite Ep. apply Hlocks; [done|congruence].
  - edestruct (on_open_cases k w) as [->|(j & -> & Ew & ->)]; [done|done|].
    destruct (sync (j, d)) as [[j' d'] r] eqn:Ea. apply sync_locks in Ea as [Ep El].
    unfold lock_inv. cbn [fst w_open w_disk]. rewrite Ew. cbn. rewrite Ep. apply Hlocks; [done|congruence].
  - edestruct (on_open_cases k w) as [->|(j & -> & Ew & ->)]; [done|done|].
    unfold lock_inv. rewrite Ew. cbn. split; [done|]. destruct (Hlocks j d Ew Ed) as [_ Hd]. cbn in Hd.
    rewrite Hd. set_solver.
  - destruct (writer_is_busy p cfg d) as [d' r] eqn:Ep. apply probe_locks in Ep as [Eh Ewr].
    unfold lock_inv in *. cbn [fst w_open w_disk]. rewrite Eh, Ewr. exact Hw.
  - cbn [fst]. destruct (w_open w) as [|j [|]] eqn:Ew; unfold lock_inv in Hw; rewrite Ew in Hw; [|by destruct Hw; apply exit_lock_inv|done].
    destruct Hw as [Hh Hwr]. unfold process_exit, lock_inv. cbn. rewrite Hh, Hwr. split; [done|]. set_solver.
  - edestruct (on_open_cases k w) as [->|(j & -> & Ew & ->)]; [done|done|].
    destruct (append b du (j, d)) as [[j' d'] r] eqn:Ea. apply append_locks in Ea as [Ep El].
    cbn [fst]. rewrite Ew. destruct (Hlocks j d' Ew) as [? ?]; [congruence|]. by apply exit_lock_inv.
Qed.

Lemma perform_all_lock_inv steps w : lock_inv w -> lock_inv (fst (perform_all steps w)).
Proof.
  revert w. induction steps as [|s steps IH]; intros w Hw; [done|]. cbn [perform_all].
  destruct (perform s w) as [w1 r1] eqn:E1. destruct (perform_all steps w1) as [w2 rs] eqn:E2.
  cbn [fst]. change w2 with (fst (w2, rs)). rewrite <- E2. apply IH.
  change w1 with (fst (w1, r1)). rewrite <- E1. by apply perform_lock_inv.
Qed.

(** ** Nothing committed is lost *)

(** Calls fail only while a process dies in [append]. *)
Definition clean (s : Step) : Prop :=
  match st_call s with Crash _ _ _ => True | _ => st_faults s = [] end.

(** The world's disk and open journal hold the frames of the layout; [n] bounds
    the frames and the batches written since a sync. *)
Record world_inv (n : Z) (layout : Layout) (w : World) : Prop := {
  wi_layout : layout_ok 0 HEAD_EMPTY layout;
  wi_distinct : distinct_commands layout;
  wi_frames : len (concat layout) <= n;
  wi_lock : lock_inv w;
  wi_state :
    match w_open w with
    | [] => crashed layout (w_disk w)
    | j :: _ => journal_inv j layout (w_disk w) /\ val (tj_dirty_batch_count j) <= n
    end
}.

(** The frames hold the batch under this receipt. *)
Definition recorded (frames : list Frame) (batch : JournalBatch) (r : ThreadCommandReceipt) : Prop :=
  exists f, f ∈ frames /\ frame_id f = jb_command_id batch /\
    sb_command_digest (fr_stored f) = jb_command_digest batch /\ frame_receipt f = Some r.

(** What an answer says of the frames. *)
Definition answered (s : Step) (reply : Reply) (frames : list Frame) : Prop :=
  match st_call s, reply with
  | AppendCall _ batch _, Appended (Ok (Committed r events)) =>
      events = jb_events batch /\ recorded frames batch r
  | AppendCall _ batch _, Appended (Ok (Duplicate r)) => recorded frames batch r
  | _, _ => True
  end.

Lemma layout_length i h layout : layout_ok i h layout -> len layout <= len (concat layout) + 1.
Proof.
  revert i h. induction layout as [|fs layout IH]; intros i h Hok; [simpl; lia|].
  cbn [JournalSpec.layout_ok] in Hok. destruct Hok as (_ & _ & Hne & _ & _ & Hok). apply IH in Hok.
  simpl concat. rewrite length_app. simpl length.
  destruct layout as [|gs layout]; [simpl; lia|].
  destruct fs as [|f fs]; [by destruct (Hne ltac:(done))|]. simpl in *. lia.
Qed.

Lemma append_spec_answered batch durability frames frames' r :
  append_spec batch durability frames frames' r ->
  (exists more, frames' = frames ++ more /\ len more <= 1) /\
  (forall s k, st_call s = AppendCall k batch durability -> answered s (Appended r) frames').
Proof.
  intros Hs. assert (Hnil : exists more, frames = frames ++ more /\ len more <= 1).
  { exists []. rewrite app_nil_r. split; [done|simpl; lia]. }
  split.
  - destruct Hs; try done. exists [f]. split; [done|simpl; lia].
  - intros s k Es. unfold answered. rewrite Es. destruct Hs; try done.
    + by exists f.
    + split; [done|]. exists f. split; [apply elem_of_app; right; apply list_elem_of_here|].
      destruct H5 as (_ & -> & _ & ->). done.
Qed.

Section Bounds.
Context (Hconfig : validate_config cfg = Ok tt) (Hroom : frame_room cfg).

Lemma world_open n layout w process d :
  world_inv n layout w -> d = with_faults [] (w_disk w) -> n + 4 < 2 ^ 64 ->
  let (d', r) := open process cfg tid d in
  match r, w_open w with
  | Ok j, [] => journal_inv j layout d' /\ val (tj_dirty_batch_count j) = 0
  | Ok _, _ :: _ => False
  | Err e, _ => e = WriterBusy /\ w_open w <> [] /\ same_dir d d'
  end.
Proof.
  intros [Hok Hdist Hn Hlock Hst] -> Hbound. pose proof (layout_length _ _ _ Hok) as Hlen.
  set (d := with_faults [] (w_disk w)). unfold lock_inv in Hlock. unfold open.
  destruct (w_open w) as [|j [|]]; [| |done].
  - destruct Hlock as [Hh Hw].
    destruct (open_run cfg tid process (fun _ _ => tt) tt layout d) as (j & d' & Hrun & Hj & _ & _ & _ & Hz);
      try done; [change (process ∉ d_writers (w_disk w)); rewrite Hw; set_solver| |lia|].
    { by apply (crashed_dir _ _ _ (w_disk w)). }
    erewrite M_bind_run by exact Hrun. cbn. by rewrite Hz.
  - destruct Hlock as [Hh Hw].
    destruct (open_busy_run cfg tid process (fun _ _ => tt) tt d) as (d' & Hrun & Hsame & _);
      [done|done|by right|].
    by erewrite M_bind_fails by exact Hrun.
Qed.

(** The disk of a world with its journal closed. *)
Lemma inv_crashed n layout w j d :
  w_open w = [j] -> world_inv n layout w -> same_dir (w_disk w) d -> crashed layout d.
Proof.
  intros Ew [Hok _ _ _ Hst] Hs. rewrite Ew in Hst. destruct Hst as [Hj _].
  apply (crashed_dir _ _ _ (w_disk w)); [done|]. apply crashed_intact; [done|apply (ji_dir _ _ _ _ _ Hj)].
Qed.

Lemma with_faults_dir faults d : same_dir d (with_faults faults d).
Proof. done. Qed.

(** A process that dies in [append] leaves the frames, or the frames and the
    batch's. *)
Lemma world_crash n layout w j batch durability d d' j' r :
  w_open w = [j] -> world_inv n layout w -> n + 4 < 2 ^ 64 -> same_dir (w_disk w) d ->
  append batch durability (j, d) = ((j', d'), r) ->
  exists layout', layout_ok 0 HEAD_EMPTY layout' /\ distinct_commands layout' /\ crashed layout' d' /\
    exists more, concat layout' = concat layout ++ more /\ len more <= 1.
Proof.
  intros Ew [Hok Hdist Hn _ Hst] Hbound Hs Hr. rewrite Ew in Hst. destruct Hst as [Hj _].
  pose proof (layout_length _ _ _ Hok) as Hlen.
  apply (append_recoverable cfg tid batch durability j layout d) in Hr;
    [|by apply (journal_inv_dir _ _ _ _ (w_disk w))|done|lia].
  destruct Hr as [(layout' & Hcat & Hok' & Hcr & _)|(f & Hni & Hf & (layout' & Hcat & Hok' & Hcr & _))];
    exists layout'; (split; [done|]); unfold distinct_commands in *; rewrite Hcat; (split; [|split; [done|]]).
  - done.
  - exists []. rewrite app_nil_r. split; [done|simpl; lia].
  - rewrite map_app. apply list.NoDup_app. split; [done|]. split; [|apply NoDup_singleton].
    intros id Hin Hs'. simpl in Hs'. apply list_elem_of_singleton in Hs' as ->.
    destruct Hf as (_ & Eid & _). by rewrite Eid in Hin.
  - exists [f]. split; [done|simpl; lia].
Qed.

Lemma world_append n layout w j batch durability :
  w_open w = [j] -> world_inv n layout w -> n + 4 < 2 ^ 64 ->
  let d := with_faults [] (w_disk w) in
  exists j' layout' d' r,
    append batch durability (j, d) = ((j', d'), r) /\
    append_spec batch durability (concat layout) (concat layout') r /\
    journal_inv j' layout' d' /\ val (tj_dirty_batch_count j') <= n + 1.
Proof.
  intros Ew [Hok Hdist Hn _ Hst] Hbound d. rewrite Ew in Hst. destruct Hst as [Hj Hdirty].
  pose proof (layout_length _ _ _ Hok) as Hlen.
  destruct (append_run batch durability j layout d) as (j' & layout' & d' & r & Hrun & Hspec & Hj' & _ & Hc & _);
    [done|by apply (journal_inv_dir _ _ _ _ (w_disk w))|split; [done|lia]|].
  exists j', layout', d', r. repeat split; try done; try apply Hj'. lia.
Qed.

(** A step that only closes journals, or changes nothing of the directory. *)
Lemma world_closed n layout w d :
  world_inv n layout w -> same_dir (w_disk w) d -> 0 <= n ->
  lock_inv {| w_open := []; w_disk := d |} ->
  world_inv (n + 1) layout {| w_open := []; w_disk := d |}.
Proof.
  intros Hw Hs H0n Hl. pose proof Hw as [Hok Hdist Hn _ Hst]. split; try done; [lia|]. cbn.
  destruct (w_open w) as [|j [|]] eqn:Ew; [by eapply crashed_dir|by eapply inv_crashed|].
  destruct Hst as [Hj _]. apply (crashed_dir _ _ _ (w_disk w)); [done|].
  apply crashed_intact; [done|apply (ji_dir _ _ _ _ _ Hj)].
Qed.

Lemma world_reads n layout w d :
  world_inv n layout w -> same_dir (w_disk w) d ->
  lock_inv {| w_open := w_open w; w_disk := d |} ->
  world_inv (n + 1) layout {| w_open := w_open w; w_disk := d |}.
Proof.
  intros [Hok Hdist Hn _ Hst] Hs Hl. split; try done; [lia|]. cbn.
  destruct (w_open w) as [|j o]; [by eapply crashed_dir|]. destruct Hst.
  split; [by eapply journal_inv_dir|lia].
Qed.

Lemma world_journal n layout w j d :
  layout_ok 0 HEAD_EMPTY layout -> distinct_commands layout -> len (concat layout) <= n ->
  lock_inv w -> w = {| w_open := [j]; w_disk := d |} ->
  journal_inv j layout d -> val (tj_dirty_batch_count j) <= n ->
  world_inv n layout w.
Proof. intros ? ? ? ? -> ? ?. by split. Qed.

Lemma world_inv_mono n m layout w : world_inv n layout w -> n <= m -> world_inv m layout w.
Proof.
  intros [Hok Hdist Hn Hl Hst] Hm. split; try done; [lia|].
  destruct (w_open w); [done|]. split; [apply Hst|]. destruct Hst. lia.
Qed.

Lemma world_exit n layout w process d :
  world_inv n layout w -> same_dir (w_disk w) d -> 0 <= n ->
  lock_inv (process_exit process (w_open w) d) ->
  world_inv (n + 1) layout (process_exit process (w_open w) d).
Proof.
  intros Hw Hs Hn. unfold process_exit. destruct (w_open w) as [|j [|]] eqn:Ew; cbn [existsb List.filter].
  - intros Hl. by apply (world_closed _ _ w).
  - destruct (bool_decide_reflect (tj_process j = process)); cbn [negb orb].
    + intros Hl. by apply (world_closed _ _ w).
    + rewrite <- Ew. intros Hl. by apply (world_reads _ _ w).
  - pose proof (wi_lock _ _ _ Hw) as Hl. unfold lock_inv in Hl. by rewrite Ew in Hl.
Qed.

(** Any clean step keeps the committed frames, adds at most one, and answers
    truthfully. *)
Lemma perform_inv n layout w s :
  world_inv n layout w -> clean s -> n + 4 < 2 ^ 64 ->
  exists layout', world_inv (n + 1) layout' (fst (perform s w)) /\
    (exists more, concat layout' = concat layout ++ more) /\
    answered s (snd (perform s w)) (concat layout').
Proof.
  intros Hw Hc Hbound. pose proof (perform_lock_inv s w (wi_lock _ _ _ Hw)) as Hlock.
  pose proof Hw as [Hok Hdist Hn Hl Hst]. revert Hlock.
  assert (Hn0 : 0 <= n) by lia.
  assert (Hnil : exists more, concat layout = concat layout ++ more) by (exists []; by rewrite app_nil_r).
  assert (Hidle : world_inv (n + 1) layout w) by (apply (world_inv_mono n); [done|lia]).
  unfold perform, clean, answered in *.
  destruct (st_call s) as [p|k b du|k|k|p|p|k b du] eqn:Ecall.
  - rewrite Hc. set (d := with_faults [] (w_disk w)). pose proof (world_open n layout w p d Hw eq_refl Hbound) as Ho.
    destruct (open p cfg tid d) as [d' [j|e]]; cbn [fst snd]; intros Hlock.
    + destruct (w_open w) eqn:Ew; [|done]. destruct Ho as [Hj Hz]. exists layout. split; [|done].
      apply (world_journal _ _ _ j d'); try done; lia.
    + destruct Ho as (_ & _ & Hsame). exists layout. split; [|done]. by apply world_reads.
  - edestruct (on_open_cases k w) as [->|(j & -> & Ew & ->)]; [done|by exists layout; split; [apply Hidle|]|].
    destruct (world_append n layout w j b du Ew Hw Hbound) as (j' & layout' & d' & r & Hrun & Hspec & Hj' & Hd').
    rewrite Hc, Hrun, Ew. cbn [fst snd]. intros Hlock. exists layout'.
    destruct (append_spec_answered _ _ _ _ _ Hspec) as [(more & Hcat & Hmore) Hans]. split; [|split; [by exists more|]].
    + apply (world_journal _ _ _ j' d'); try done; [apply Hj'|apply Hj'|rewrite Hcat, length_app; lia].
    + specialize (Hans s 0%nat Ecall). unfold answered in Hans. by rewrite Ecall in Hans.
  - edestruct (on_open_cases k w) as [->|(j & -> & Ew & ->)]; [done|by exists layout; split; [apply Hidle|]|].
    rewrite Ew in Hst. destruct Hst as [Hj Hdirty].
    destruct (sync_run cfg tid j layout (with_faults [] (w_disk w))) as (j' & d' & Hrun & Hj' & _ & _ & _ & Hz & _);
      [done|by apply (journal_inv_dir _ _ _ _ (w_disk w))|].
    rewrite Hc, Hrun, Ew. cbn [fst snd]. intros Hlock. exists layout. split; [|done].
    apply (world_journal _ _ _ j' d'); try done; lia.
  - edestruct (on_open_cases k w) as [->|(j & -> & Ew & ->)]; [done|by exists layout; split; [apply Hidle|]|].
    rewrite Hc, Ew. cbn [fst snd delete list_delete]. intros Hlock. exists layout. split; [|done].
    by apply (world_closed _ _ w).
  - rewrite Hc. destruct (probe_run cfg p (with_faults [] (w_disk w))) as (d' & -> & Hf & Ho & _); [done|done|].
    cbn [fst snd]. intros Hlock. exists layout. split; [|done]. by apply world_reads.
  - rewrite Hc. cbn [fst snd]. intros Hlock. exists layout. split; [|done]. by apply world_exit.
  - edestruct (on_open_cases k w) as [->|(j & -> & Ew & ->)]; [done|by exists layout; split; [apply Hidle|]|].
    destruct (append b du (j, _)) as [[j' d'] r] eqn:Ea. cbn [fst snd]. rewrite Ew. intros Hlock.
    destruct (world_crash n layout w j b du _ _ _ _ Ew Hw Hbound (with_faults_dir _ _) Ea)
      as (layout' & Hok' & Hdist' & Hcr & more & Hcat & Hmore).
    exists layout'. split; [|split; [by exists more|done]].
    revert Hlock. unfold process_exit. cbn [existsb List.filter]. rewrite bool_decide_eq_true_2 by done. cbn [negb orb].
    intros Hlock. split; try done; [rewrite Hcat, length_app; lia|]. cbn. by apply (crashed_dir _ _ _ d').
Qed.

Lemma answered_mono s r frames more : answered s r frames -> answered s r (frames ++ more).
Proof.
  assert (Hmono : forall b rc, recorded frames b rc -> recorded (frames ++ more) b rc).
  { intros b rc (f & Hf & ?). exists f. split; [apply elem_of_app; by left|done]. }
  unfold answered. destruct (st_call s); try done. destruct r as [|[[|]|]| | |]; try done; naive_solver.
Qed.

Lemma perform_all_inv n layout w steps :
  world_inv n layout w -> Forall clean steps -> n + len steps + 4 < 2 ^ 64 ->
  exists layout', world_inv (n + len steps) layout' (fst (perform_all steps w)) /\
    (exists more, concat layout' = concat layout ++ more) /\
    Forall2 (fun s r => answered s r (concat layout')) steps (snd (perform_all steps w)).
Proof.
  revert n layout w. induction steps as [|s steps IH]; intros n layout w Hw Hall Hbound.
  { exists layout. rewrite Z.add_0_r. split; [done|]. split; [exists []; by rewrite app_nil_r|constructor]. }
  apply list.Forall_cons in Hall as [Hs Hall]. simpl length in *.
  destruct (perform_inv n layout w s Hw Hs) as (layout1 & Hw1 & (more1 & E1) & Ha1); [lia|].
  cbn [perform_all]. destruct (perform s w) as [w1 r1]. cbn [fst snd] in *.
  destruct (IH (n + 1) layout1 w1 Hw1 Hall) as (layout2 & Hw2 & (more2 & E2) & Ha2); [lia|].
  destruct (perform_all steps w1) as [w2 rs]. cbn [fst snd] in *.
  exists layout2. split; [|split].
  - by replace (n + Z.of_nat (S (length steps))) with (n + 1 + len steps) by lia.
  - exists (more1 ++ more2). by rewrite E2, E1, app_assoc.
  - constructor; [|done]. rewrite E2. by apply answered_mono.
Qed.

End Bounds.

(** A directory without segments, and nobody has it open. *)
Definition fresh (d : Disk) : Prop := dir_holds [] d /\ d_lock_held d = false /\ d_writers d = ∅.

Lemma fresh_inv d : fresh d -> world_inv 0 [] {| w_open := []; w_disk := d |}.
Proof.
  intros (Hdir & Hh & Hw). split; try done.
  - apply NoDup_nil_2.
  - cbn. apply (crashed_tail _ _ _ _ []); [by left|done| |done]. by intros ? ? ?%not_elem_of_nil.
Qed.

End Service.

(** After a power loss an entry that was in the directory at its last sync, and
    whose content was synced since it last changed, is there with that content.
    Any other entry may be lost, or be there with any content, but no entry
    appears that the directory never had. *)
Record power_loss (d d' : Disk) : Prop := {
  pl_synced : forall name content,
    name ∈ d_synced_names d -> d_files d !! name = Some content -> d_synced d !! name = Some content ->
    d_files d' !! name = Some content;
  pl_names : forall name, is_Some (d_files d' !! name) ->
    is_Some (d_files d !! name) \/ (name ∈ d_synced_names d /\ name ∉ d_others d);
  pl_others : d_others d' ⊆ d_others d;
  pl_lock : d_lock_held d' = false /\ d_writers d' = ∅ /\ d_faults d' = []
}.

Section Durability.
Context `{External, JsonCodec} (cfg : JournalConfig) (tid : ThreadId).

Abbreviation segment_files := (segment_files tid).
Abbreviation journal_inv := (journal_inv cfg tid).

(** The [k]-th file of a journal. *)
Lemma segment_files_lookup i h layout name content :
  (name, content) ∈ segment_files i h layout [] ->
  exists k fs, layout !! k = Some fs /\ name = segment_file_name (u64_of (i + Z.of_nat k)).
Proof.
  revert i h. induction layout as [|fs layout IH]; intros i h Hin; cbn [JournalSpec.segment_files] in Hin;
    [by apply not_elem_of_nil in Hin|].
  apply elem_of_cons in Hin as [[= -> _]|Hin].
  - exists 0%nat, fs. by rewrite Z.add_0_r.
  - apply IH in Hin as (k & gs & Hk & ->). exists (S k), gs. split; [done|].
    do 2 f_equal. lia.
Qed.

(** A journal whose segments all hold frames, with nothing waiting for a sync,
    keeps its files. *)
Lemma settled_power_loss j layout d d' :
  journal_inv j layout d -> durable_inv j layout d -> settled j d ->
  Forall (fun fs => fs <> []) layout -> power_loss d d' ->
  dir_holds (segment_files 0 HEAD_EMPTY layout []) d'.
Proof.
  intros Hj Hdur [Hpend Hnames] Hne [Hsynced Hn Ho _]. pose proof (ji_dir _ _ _ _ _ Hj) as [Hfiles Honly Hutf Hoth].
  assert (Hkeep : forall name content, (name, content) ∈ segment_files 0 HEAD_EMPTY layout [] ->
            d_files d' !! name = Some content).
  { intros name content Hin. pose proof (Hfiles _ _ Hin) as Hf.
    destruct (segment_files_lookup _ _ _ _ _ Hin) as (k & fs & Hk & ->). rewrite Z.add_0_l in *.
    rewrite list.Forall_lookup in Hne. specialize (Hne _ _ Hk).
    destruct (Hdur k fs Hk Hne) as (_ & Hs & Hin'); [rewrite Hpend; apply not_elem_of_nil|].
    apply Hsynced; [done|done|]. by rewrite Hs. }
  assert (Hback : forall name, is_Some (d_files d' !! name) -> is_Some (d_files d !! name)).
  { intros name Hs. apply Hn in Hs as [Hs|[Hs Hno]]; [done|]. rewrite Hnames in Hs.
    apply elem_of_union in Hs as [Hs|Hs]; [by apply elem_of_dom|done]. }
  split.
  - done.
  - intros name content Hc Hp. destruct (Hback name) as [c Hc']; [eauto|].
    pose proof (Honly _ _ Hc' Hp) as Hin. rewrite (Hkeep _ _ Hin) in Hc. by injection Hc as <-.
  - intros name Hs. by apply Hutf, Hback.
  - intros name Hin. apply Hoth. set_solver.
Qed.

(** A committed durable batch, with all that came before it in a journal whose
    past is synced, is read back after a power loss. *)
Lemma durable_append_run batch j layout d j' d' r events :
  healthy d -> journal_inv j layout d -> append_room cfg j layout -> durable_inv j layout d ->
  append batch Durable (j, d) = ((j', d'), Ok (Committed r events)) ->
  exists layout' f, concat layout' = concat layout ++ [f] /\ frame_id f = jb_command_id batch /\
    frame_events f = jb_events batch /\ frame_receipt f = Some r /\ durable_inv j' layout' d' /\
    len layout' <= len layout + 1 /\
    journal_inv j' layout' d' /\
    forall d'', power_loss d' d'' ->
      layout_ok cfg tid 0 HEAD_EMPTY layout' /\ distinct_commands layout' /\
      dir_holds (segment_files 0 HEAD_EMPTY layout' []) d''.
Proof.
  intros Hd Hj Hroom Hdur Hr.
  destruct (append_run cfg tid batch Durable j layout d Hd Hj Hroom)
    as (j1 & layout' & d1 & r1 & Hr1 & Hspec & Hj' & _ & _ & Hdur' & Hc & Hgrow).
  rewrite Hr in Hr1. injection Hr1 as <- <- <-. destruct (Hc r events eq_refl) as [Hne Hset].
  inversion Hspec as [| | | | |f r2 Hni Ha Hf Hrec Hbf Eframes Eout]; subst.
  destruct Hbf as (_ & Hid & Hev & _). exists layout', f. do 4 (split; [done|]). split; [by apply Hdur'|].
  split; [done|]. split; [done|]. intros d'' Hpl. split; [apply (ji_layout _ _ _ _ _ Hj')|].
  split; [apply (ji_distinct _ _ _ _ _ Hj')|]. apply (settled_power_loss j' layout' d'); auto.
Qed.

End Durability.
