(* ===== verification/LiveThread.v ===== *)
(** The writer of one thread (thread-store: live_thread.rs): commands become
    batches of events appended to the journal, and the index follows. *)

From S2P Require Import Prelude Canonical Events Commands Receipts Format CommandIndex Disk Model Journal Projection ThreadIndex.

Open Scope string_scope.
Open Scope list_scope.
Open Scope Z_scope.

(** * Data *)

Inductive CommitMode := CommitBuffered | CommitDurable.

Record ThreadSessionMetadata := {
  sm_name : option string;
  sm_model : string;
  sm_model_provider : option string;
  sm_reasoning_effort : option string;
  sm_dynamic_tools : ContentRef
}.

Record ThreadSessionMetadataState := {
  ms_name : option string;
  ms_model : option string;
  ms_model_provider : option string;
  ms_reasoning_effort : option string;
  ms_dynamic_tools_digest : option Digest
}.

Record CommitOutcome := {
  co_receipt : ThreadCommandReceipt;
  co_events : list ThreadEventEnvelope
}.

(** What a call draws from outside: the time since the epoch, when the clock is
    not before it, and new identifiers. *)
Record Draws := {
  dr_clock : option Z;
  dr_command_id : CommandId;
  dr_batch_id : BatchId;
  dr_event_id : nat -> EventId
}.

(** * Events of a command *)

Definition native_agent_event_body (event : NativeAgentEventCommand) : ThreadEventBody :=
  NativeAgentEventRecorded (na_agent_sequence event) (na_event_id event) (na_turn_id event)
    (na_route event) (na_payload event).

Definition metadata_event_bodies (name : option string) (resume_config : option ThreadResumeConfig)
    (dynamic_tools : option ContentRef) : list ThreadEventBody :=
  let events := match name with Some name => [ThreadNameSet (Some name)] | None => [] end in
  let events := match resume_config with
                | Some c => events ++ [ThreadResumeConfigSet (rc_model c) (rc_model_provider c) (rc_reasoning_effort c)]
                | None => events
                end in
  match dynamic_tools with
  | Some tools => events ++ [ThreadDynamicToolsSet tools]
  | None => events
  end.

(** [None] where the code has [unreachable!]. *)
Definition event_body (command : ThreadCommand) : option ThreadEventBody :=
  match command with
  | Create source workspace parent => Some (ThreadCreated source workspace parent)
  | SetName name => Some (ThreadNameSet name)
  | SetSummary summary => Some (ThreadSummarySet summary)
  | SetArchived archived => Some (ThreadArchived archived)
  | SetWorkspace workspace => Some (ThreadWorkspaceSet workspace)
  | StartTurn turn_id collaboration_mode => Some (TurnStarted turn_id collaboration_mode)
  | CaptureTurnExecutionContext turn_id context => Some (TurnExecutionContextCaptured turn_id context)
  | RecordNativeAgentEvent agent_sequence event_id turn_id route payload =>
      Some (NativeAgentEventRecorded agent_sequence event_id turn_id route payload)
  | RecordNativeAgentEvents _ => None
  | AppendTranscriptItem item_id turn_id item_kind content =>
      Some (TranscriptItemCreated item_id turn_id item_kind content)
  | FinalizeTranscriptItem item_id content => Some (TranscriptItemFinalized item_id content)
  | CancelTranscriptItem item_id reason => Some (TranscriptItemCancelled item_id reason)
  | CompleteTurn turn_id => Some (TurnCompleted turn_id)
  | AbortTurn turn_id reason => Some (TurnAborted turn_id reason)
  | FailTurn turn_id error_code message => Some (TurnFailed turn_id error_code message)
  | ReplaceModelContextBaseline basis_revision summary retained_item_ids =>
      Some (ModelContextBaselineReplaced basis_revision summary retained_item_ids)
  | ReplaceModelContextSnapshot basis_revision snapshot =>
      Some (ModelContextSnapshotReplaced basis_revision snapshot)
  | RollbackModelContext user_turns => Some (ModelContextRolledBack user_turns)
  | MoveTranscriptHead from_revision to_revision reason =>
      Some (TranscriptHeadMoved from_revision to_revision reason)
  | RedactContent item_id replacement reason => Some (ContentRedacted item_id replacement reason)
  | RecordModelContextItem item_id turn_id content => Some (ModelContextItemRecorded item_id turn_id content)
  | RecordTurnCost cost_micros => Some (TurnCostRecorded cost_micros)
  | SetResumeConfig model model_provider reasoning_effort =>
      Some (ThreadResumeConfigSet model model_provider reasoning_effort)
  | SetDynamicTools tools => Some (ThreadDynamicToolsSet tools)
  | SetPreview preview first_user_message => Some (ThreadPreviewSet preview first_user_message)
  | MarkAgentEventMetadataReconciled generation => Some (AgentEventMetadataReconciled generation)
  | ReconcileAgentEventTimeline generation created_at updated_at =>
      Some (AgentEventTimelineReconciled generation created_at updated_at)
  | ReconcileSessionMetadata _ _ _ => None
  end.

Definition event_bodies (command : ThreadCommand) : list ThreadEventBody :=
  match command with
  | RecordNativeAgentEvents events => map native_agent_event_body events
  | ReconcileSessionMetadata name resume_config dynamic_tools =>
      metadata_event_bodies name resume_config dynamic_tools
  | command => match event_body command with Some body => [body] | None => [] end
  end.

Definition is_create (command : ThreadCommand) : bool :=
  match command with Create _ _ _ => true | _ => false end.

(** * The writer *)

Section LiveThread.
Context `{External, JsonCodec, Sqlite}.

Record LiveThreadStore := {
  lt_thread_id : ThreadId;
  lt_journal : ThreadJournal;
  lt_session_metadata : ThreadSessionMetadataState
}.

(** Calls on an open thread run over it, the files of its journal and the index. *)
Abbreviation live_io := (M (LiveThreadStore * Disk * Db) ThreadStoreError).

Definition with_journal (j : ThreadJournal) (l : LiveThreadStore) : LiveThreadStore :=
  {| lt_thread_id := lt_thread_id l; lt_journal := j; lt_session_metadata := lt_session_metadata l |}.

Definition with_session_metadata (m : ThreadSessionMetadataState) (l : LiveThreadStore) : LiveThreadStore :=
  {| lt_thread_id := lt_thread_id l; lt_journal := lt_journal l; lt_session_metadata := m |}.

Definition live {A} (f : LiveThreadStore -> A) : live_io A := gets (fun s => f (fst (fst s))).

(** The journal behind its mutex; a call that panics is not modelled, so the
    mutex is never poisoned. *)
Definition on_journal {A} (m : M (ThreadJournal * Disk) ThreadStoreError A) : live_io A := fun '(l, d, db) =>
  let '((j, d), r) := m (lt_journal l, d) in ((with_journal j l, d, db), r).

Definition on_index {A} (m : M Db ThreadStoreError A) : live_io A := fun '(l, d, db) =>
  let (db, r) := m db in ((l, d, db), r).

(** [now_unix_ms] *)
Definition now_unix_ms (clock : option Z) : result ThreadStoreError i64 :=
  millis ← ok_or clock InvalidClock;
  ok_or (checked (- 2 ^ 63) (2 ^ 63) millis) InvalidClock.

(** The loop that makes the events of a batch, from [sequence] on. *)
Fixpoint build_events (draws : Draws) (thread_id : ThreadId) (recorded_at_unix_ms : i64) (actor : ThreadActor)
    (correlation_id : option string) (sequence : nat) (revision : ThreadRevision)
    (previous_record_digest : Digest) (bodies : list ThreadEventBody)
    : result ThreadStoreError (list ThreadEventEnvelope) :=
  match bodies with
  | [] => mret []
  | body :: bodies =>
      revision ← ok_or (checked_next revision) RevisionOverflow;
      sequence_u32 ← ok_or (checked 0 (2 ^ 32) (Z.of_nat sequence)) RevisionOverflow;
      let event := envelope_new {|
        ne_thread_id := thread_id;
        ne_revision := revision;
        ne_event_id := dr_event_id draws sequence;
        ne_batch_id := dr_batch_id draws;
        ne_sequence := sequence_u32;
        ne_recorded_at_unix_ms := recorded_at_unix_ms;
        ne_actor := actor;
        ne_correlation_id := correlation_id;
        ne_causation_id := None;
        ne_body := body;
        ne_previous_record_digest := previous_record_digest |} in
      events ← build_events draws thread_id recorded_at_unix_ms actor correlation_id (S sequence) revision
                 (ev_record_digest event) bodies;
      mret (event :: events)
  end.

Definition durability_of (commit_mode : CommitMode) : JournalDurability :=
  match commit_mode with CommitBuffered => Buffered | CommitDurable => Durable end.

Definition execute_locked (draws : Draws) (thread_id : ThreadId) (actor : ThreadActor)
    (correlation_id : option string) (command : ThreadCommand) (commit_mode : CommitMode)
    : M (ThreadJournal * Disk) ThreadStoreError CommitOutcome :=
  head ← gets (fun s => tj_head (fst s));
  recorded_at_unix_ms ← of_result (now_unix_ms (dr_clock draws));
  let command_header := command_header_new (dr_command_id draws) thread_id (head_revision head) actor
                          correlation_id command in
  let no_op := {|
    co_receipt := receipt_no_op (ch_command_id command_header) (ch_command_digest command_header)
                    (head_revision head) recorded_at_unix_ms;
    co_events := [] |} in
  if is_create command && negb (bool_decide (head = HEAD_EMPTY)) then mret no_op
  else
    _ ← guard_m (negb (negb (is_create command) && bool_decide (head = HEAD_EMPTY))) ThreadNotCreated;
    match event_bodies command with
    | [] => mret no_op
    | bodies =>
        events ← of_result (build_events draws thread_id recorded_at_unix_ms actor correlation_id 0
                              (head_revision head) (head_digest head) bodies);
        let batch := journal_batch_new command_header (dr_batch_id draws) recorded_at_unix_ms events in
        outcome ← map_error Journal (append batch (durability_of commit_mode));
        let (receipt, committed_events) := outcome_receipt_and_events outcome in
        mret {| co_receipt := receipt; co_events := default [] committed_events |}
    end.

(** ** Reading the journal *)

Definition fold_window {St} (after : ThreadRevision) (through : option ThreadRevision) (state : St)
    (fold : St -> ThreadEventEnvelope -> St) : live_io St :=
  snapshot ← live (fun l => snapshot (lt_journal l));
  let head := ts_head snapshot in
  let through := default (head_revision head) through in
  _ ← guard_m (negb (rev (head_revision head) <? rev through)) (RevisionNotFound (revision_get through));
  _ ← guard_m (negb (rev through <? rev after)) (RevisionNotFound (revision_get after));
  if bool_decide (after = through) then mret state
  else
    start ← of_option (checked_next after) RevisionOverflow;
    range ← of_result (map_err Journal (range_inclusive start through));
    on_journal (map_error Journal (on_disk (snapshot_fold_range range state fold snapshot))).

Definition fold_all {St} (state : St) (fold : St -> ThreadEventEnvelope -> St) : live_io St :=
  fold_window REVISION_ZERO None state fold.
Definition fold_through {St} (through : ThreadRevision) (state : St) (fold : St -> ThreadEventEnvelope -> St) : live_io St :=
  fold_window REVISION_ZERO (Some through) state fold.
Definition fold_after {St} (after : ThreadRevision) (state : St) (fold : St -> ThreadEventEnvelope -> St) : live_io St :=
  fold_window after None state fold.
Definition fold_between {St} (after through : ThreadRevision) (state : St)
    (fold : St -> ThreadEventEnvelope -> St) : live_io St :=
  fold_window after (Some through) state fold.

Definition live_head : live_io ThreadHead := live (fun l => tj_head (lt_journal l)).

Definition next_agent_event_sequence : live_io u64 :=
  thread_id ← live lt_thread_id;
  last ← on_index (latest_agent_event_sequence thread_id);
  mret (u64_max (u64_saturating_add last 1) (u64_of 1)).

Definition agent_event_metadata_generation : live_io u32 :=
  thread_id ← live lt_thread_id;
  on_index (index_agent_event_metadata_generation thread_id).

Definition live_summary : live_io (option ThreadSummary) :=
  thread_id ← live lt_thread_id;
  on_index (index_read_summary thread_id).

Definition model_context_checkpoint : live_io (option ThreadRevision) :=
  thread_id ← live lt_thread_id;
  on_index (index_model_context_checkpoint thread_id).

Definition transcript_scan_plan (select_first_turn : u64 -> option u64) : live_io (option TranscriptScanPlan) :=
  thread_id ← live lt_thread_id;
  on_index (index_transcript_scan_plan thread_id select_first_turn).

(** ** Writing *)

Definition synchronize_index : live_io unit :=
  accumulator ← fold_all AwaitingCreation accumulator_push;
  match accumulator_finish accumulator with
  | Some projection => on_index (index_replace projection)
  | None => mret tt
  end.

Definition live_sync : live_io ThreadHead :=
  barrier ← on_journal (map_error Journal sync);
  mret (db_through barrier).

Definition execute (draws : Draws) (actor : ThreadActor) (correlation_id : option string)
    (command : ThreadCommand) (commit_mode : CommitMode) : live_io ThreadCommandReceipt :=
  thread_id ← live lt_thread_id;
  outcome ← on_journal (execute_locked draws thread_id actor correlation_id command commit_mode);
  applied ← on_index (apply_all (co_events outcome));
  _ ← (if negb applied then synchronize_index else mret tt);
  mret (co_receipt outcome).

Definition ensure_created (draws : Draws) (source workspace : string) (parent : option ThreadRevisionRef)
    : live_io ThreadCommandReceipt :=
  execute draws ActorRuntime None (Create source workspace parent) CommitDurable.

(** What of the desired metadata is not persisted yet. *)
Definition changed_name (persisted : ThreadSessionMetadataState) (desired : ThreadSessionMetadata) : option string :=
  match sm_name desired with
  | Some name => if bool_decide (ms_name persisted = Some name) then None else Some name
  | None => None
  end.

Definition changed_resume_config (persisted : ThreadSessionMetadataState) (desired : ThreadSessionMetadata)
    : option ThreadResumeConfig :=
  if negb (bool_decide (ms_model persisted = Some (sm_model desired)))
     || negb (bool_decide (ms_model_provider persisted = sm_model_provider desired))
     || negb (bool_decide (ms_reasoning_effort persisted = sm_reasoning_effort desired))
  then Some {| rc_model := Some (sm_model desired);
               rc_model_provider := sm_model_provider desired;
               rc_reasoning_effort := sm_reasoning_effort desired |}
  else None.

Definition changed_dynamic_tools (persisted : ThreadSessionMetadataState) (desired : ThreadSessionMetadata)
    : option ContentRef :=
  if negb (bool_decide (ms_dynamic_tools_digest persisted = Some (dynamic_tools_digest (sm_dynamic_tools desired))))
  then Some (sm_dynamic_tools desired) else None.

(** The metadata held in memory once the desired metadata is persisted. *)
Definition reconciled (persisted : ThreadSessionMetadataState) (desired : ThreadSessionMetadata)
    : ThreadSessionMetadataState := {|
  ms_name := match sm_name desired with Some name => Some name | None => ms_name persisted end;
  ms_model := Some (sm_model desired);
  ms_model_provider := sm_model_provider desired;
  ms_reasoning_effort := sm_reasoning_effort desired;
  ms_dynamic_tools_digest := Some (dynamic_tools_digest (sm_dynamic_tools desired)) |}.

Definition reconcile_session_metadata (draws : Draws) (desired : ThreadSessionMetadata)
    (commit_mode : CommitMode) : live_io bool :=
  persisted ← live lt_session_metadata;
  let name := changed_name persisted desired in
  let resume_config := changed_resume_config persisted desired in
  let dynamic_tools := changed_dynamic_tools persisted desired in
  if is_none name && is_none resume_config && is_none dynamic_tools then mret false
  else
    _ ← execute draws ActorRuntime None (ReconcileSessionMetadata name resume_config dynamic_tools) commit_mode;
    _ ← modify (fun '(l, d, db) => (with_session_metadata (reconciled persisted desired) l, d, db));
    mret true.

End LiveThread.
