(* ===== verification/LiveFacts.v ===== *)
(** What the writer of a thread does: the events of its commands, how the
    journal and the index change under [execute], and its reads; and sequences
    of commands: the journal grows by what the specification of each command
    says, and the index stays in step. *)

From S2P Require Import Prelude Canonical Events Commands Receipts Format FormatFacts CommandIndex Disk Model Recovery JournalSpec.
From S2P Require Import RecoveryFacts Journal JournalFacts AppendFacts CrashFacts RangeFacts Projection ProjectionFacts ThreadIndex IndexFacts IndexReads.
From S2P Require Import OpenFacts Service LiveThread.

Open Scope string_scope.
Open Scope list_scope.
Open Scope Z_scope.

(** * Events of a command *)

Definition body_is_created (b : ThreadEventBody) : bool :=
  match b with ThreadCreated _ _ _ => true | _ => false end.

Lemma event_body_total command :
  event_body command = None ->
  exists bodies, event_bodies command = bodies /\
    match command with RecordNativeAgentEvents _ | ReconcileSessionMetadata _ _ _ => True | _ => False end.
Proof. destruct command; try discriminate; eauto. Qed.

(** A command other than [Create] creates nothing; [Create] is one event. *)
Lemma event_bodies_created command :
  if is_create command then exists b, event_bodies command = [b] /\ body_is_created b = true
  else Forall (fun b => body_is_created b = false) (event_bodies command).
Proof.
  destruct command; cbn; try (by repeat constructor); try (by eauto).
  - induction events as [|e events IH]; constructor; done.
  - unfold metadata_event_bodies. destruct name, resume_config, dynamic_tools; cbn; repeat constructor.
Qed.

Section Facts.
Context `{External, JsonCodec}.

Lemma envelope_new_valid event : has_valid_digests (envelope_new event) = true.
Proof. apply has_valid_digests_iff. by split. Qed.

Lemma build_events_chain `{Sqlite} draws tid now actor corr k r prev bodies events :
  build_events draws tid now actor corr k r prev bodies = Ok events ->
  events_chain tid (dr_batch_id draws) (rev r - Z.of_nat k) (Z.of_nat k) prev events /\
  map ev_body events = bodies /\
  map ev_event_id events = map (dr_event_id draws) (seq k (length bodies)) /\
  Forall (fun e => ev_actor e = actor /\ ev_recorded_at_unix_ms e = now /\ ev_correlation_id e = corr) events.
Proof.
  revert k r prev events. induction bodies as [|body bodies IH]; intros k r prev events; cbn [build_events].
  { intros [= <-]. by repeat split. }
  intros E. inv_ok.
  match goal with Ha : checked_next r = Some ?a |- _ => apply checked_next_Some in Ha as Er; rename a into r' end.
  match goal with Ha : checked 0 (2 ^ 32) _ = Some ?a |- _ => apply checked_Some in Ha as Ek; rename a into k' end.
  match goal with Ha : build_events _ _ _ _ _ _ _ _ _ = Ok ?a |- _ => apply IH in Ha as (Hc & Hb & Hi & Hf) end.
  split; [|split; [|split]].
  - cbn [events_chain]. split; [done|]. split; [done|]. split; [cbn; by rewrite <- Ek|].
    split; [cbn; lia|]. split; [done|]. split; [apply envelope_new_valid|].
    replace (rev r' - Z.of_nat (S k)) with (rev r - Z.of_nat k) in Hc by lia.
    by replace (Z.of_nat (S k)) with (Z.of_nat k + 1) in Hc by lia.
  - cbn [map]. by rewrite Hb.
  - cbn [map length seq]. by rewrite Hi.
  - by constructor.
Qed.

Lemma build_events_Ok `{Sqlite} draws tid now actor corr k r prev bodies :
  rev r + len bodies < 2 ^ 64 -> Z.of_nat k + len bodies <= 2 ^ 32 ->
  exists events, build_events draws tid now actor corr k r prev bodies = Ok events.
Proof.
  revert k r prev. induction bodies as [|body bodies IH]; intros k r prev Hr Hk; [by eexists|].
  cbn [length build_events] in *. pose proof (rev_bounds r).
  destruct (checked_next r) as [r'|] eqn:En; [|apply checked_next_None in En; lia].
  apply checked_next_Some in En. cbn [ok_or mbind result_bind].
  destruct (checked_in 0 (2 ^ 32) (Z.of_nat k)) as (k' & -> & _); [lia|]. cbn [ok_or mbind result_bind].
  match goal with |- context [build_events _ _ _ _ _ _ _ ?g _] => destruct (IH (S k) r' g) as (events & ->) end; [lia|lia|].
  by eexists.
Qed.

End Facts.

Section Live.
Context `{External, JsonCodec, Sqlite} (cfg : JournalConfig) (tid : ThreadId).

Abbreviation journal_inv := (journal_inv cfg tid).

(** * The specification of [execute_locked] *)

Definition frames_events (frames : list Frame) : list ThreadEventEnvelope := concat (map frame_events frames).

Definition committed_outcome (r : result JournalError AppendOutcome) : result ThreadStoreError CommitOutcome :=
  match r with
  | Ok (Committed receipt events) => Ok {| co_receipt := receipt; co_events := events |}
  | Ok (Duplicate receipt) => Ok {| co_receipt := receipt; co_events := [] |}
  | Err e => Err (Journal e)
  end.

Section Spec.
Context (draws : Draws) (actor : ThreadActor) (corr : option string) (command : ThreadCommand) (mode : CommitMode).

Definition header_at (h : ThreadHead) : ThreadCommandHeader :=
  command_header_new (dr_command_id draws) tid (head_revision h) actor corr command.

Definition no_op_at (h : ThreadHead) (now : i64) : CommitOutcome := {|
  co_receipt := receipt_no_op (ch_command_id (header_at h)) (ch_command_digest (header_at h)) (head_revision h) now;
  co_events := [] |}.

Definition events_at (h : ThreadHead) (now : i64) : result ThreadStoreError (list ThreadEventEnvelope) :=
  build_events draws tid now actor corr 0 (head_revision h) (head_digest h) (event_bodies command).

Definition batch_at (h : ThreadHead) (now : i64) (events : list ThreadEventEnvelope) : JournalBatch :=
  journal_batch_new (header_at h) (dr_batch_id draws) now events.

(** From the frames of the journal: the frames after a command, and its result. *)
Inductive execute_spec (frames : list Frame) : list Frame -> result ThreadStoreError CommitOutcome -> Prop :=
  | spec_clock e :
      now_unix_ms (dr_clock draws) = Err e -> execute_spec frames frames (Err e)
  | spec_exists now :
      now_unix_ms (dr_clock draws) = Ok now -> is_create command = true -> frames <> [] ->
      execute_spec frames frames (Ok (no_op_at (last_head HEAD_EMPTY frames) now))
  | spec_not_created now :
      now_unix_ms (dr_clock draws) = Ok now -> is_create command = false -> frames = [] ->
      execute_spec frames frames (Err ThreadNotCreated)
  | spec_nothing now :
      now_unix_ms (dr_clock draws) = Ok now -> is_create command = false -> frames <> [] ->
      event_bodies command = [] ->
      execute_spec frames frames (Ok (no_op_at (last_head HEAD_EMPTY frames) now))
  | spec_overflow now e :
      now_unix_ms (dr_clock draws) = Ok now -> (is_create command = true <-> frames = []) ->
      events_at (last_head HEAD_EMPTY frames) now = Err e ->
      execute_spec frames frames (Err e)
  | spec_appended now events frames' r :
      now_unix_ms (dr_clock draws) = Ok now -> (is_create command = true <-> frames = []) ->
      event_bodies command <> [] ->
      events_at (last_head HEAD_EMPTY frames) now = Ok events ->
      append_spec cfg tid (batch_at (last_head HEAD_EMPTY frames) now events) (durability_of mode) frames frames' r ->
      execute_spec frames frames' (committed_outcome r).

Lemma frames_head_empty frames : frames_ok cfg tid HEAD_EMPTY frames ->
  bool_decide (last_head HEAD_EMPTY frames = HEAD_EMPTY) = bool_decide (frames = []).
Proof.
  intros Hok. apply bool_decide_ext. split; [|by intros ->]. intros E. destruct frames as [|f fs]; [done|exfalso].
  pose proof (frames_ok_end _ _ _ _ Hok) as Hend. rewrite E in Hend. change (rev (head_revision HEAD_EMPTY)) with 0 in Hend.
  destruct Hok as [Hf _]. apply frame_ok_end in Hf as (_ & Hne & _). cbn [map concat] in Hend.
  rewrite length_app in Hend. lia.
Qed.

(** A frame holds events. *)
Lemma frames_events_nil frames : frames_ok cfg tid HEAD_EMPTY frames -> frames_events frames = [] -> frames = [].
Proof.
  destruct frames as [|f fs]; [done|]. intros [Hf _] E. apply frame_ok_end in Hf as (_ & Hne & _).
  unfold frames_events in E. cbn [map concat] in E. apply app_eq_nil in E as [E _].
  rewrite E in Hne. cbn in Hne. lia.
Qed.

(** A journal grows by one frame at most, and so does what waits to be synced. *)
Definition grows j (layout : Layout) j' (layout' : Layout) : Prop :=
  len layout' <= len layout + 1 /\ val (tj_dirty_batch_count j') <= val (tj_dirty_batch_count j) + 1.

(** What a run of [execute_locked] establishes. *)
Definition executes (m : M (ThreadJournal * Disk) ThreadStoreError CommitOutcome) j layout d : Prop :=
  exists j' layout' d' r,
    m (j, d) = ((j', d'), r) /\ execute_spec (concat layout) (concat layout') r /\
    journal_inv j' layout' d' /\ healthy d' /\
    tj_process j' = tj_process j /\ grows j layout j' layout'.

Lemma executes_stay m j layout d r :
  healthy d -> journal_inv j layout d -> m (j, d) = ((j, d), r) ->
  execute_spec (concat layout) (concat layout) r -> executes m j layout d.
Proof. intros Hd Hj E Hs. exists j, layout, d, r. unfold grows. do 4 (split; [done|]). lia. Qed.

Lemma execute_bodies_run now j layout d :
  healthy d -> journal_inv j layout d -> append_room cfg j layout ->
  now_unix_ms (dr_clock draws) = Ok now -> (is_create command = true <-> concat layout = []) ->
  event_bodies command <> [] ->
  executes
    (events ← of_result (events_at (last_head HEAD_EMPTY (concat layout)) now);
     outcome ← map_error Journal (append (batch_at (last_head HEAD_EMPTY (concat layout)) now events) (durability_of mode));
     let (receipt, committed_events) := outcome_receipt_and_events outcome in
     mret {| co_receipt := receipt; co_events := default [] committed_events |}) j layout d.
Proof.
  intros Hd Hj Hroom Hnow Hcr Hb.
  destruct (events_at (last_head HEAD_EMPTY (concat layout)) now) as [events|e] eqn:Ee.
  2: { eapply executes_stay; [done|done|by erewrite M_bind_fails by reflexivity|by eapply spec_overflow]. }
  destruct (append_run cfg tid (batch_at (last_head HEAD_EMPTY (concat layout)) now events) (durability_of mode)
              j layout d Hd Hj Hroom) as (j' & layout' & d' & r & Hrun & Hspec & Hj' & Hd' & Hdirty & _ & _ & Hlen).
  pose proof (append_locks _ _ _ _ _ _ _ Hrun) as [Hproc _].
  exists j', layout', d', (committed_outcome r). split; [|do 4 (split; [by eauto using spec_appended|]); by split].
  erewrite M_bind_run by reflexivity. unfold mbind, M_bind, map_error. rewrite Hrun.
  by destruct r as [[]|].
Qed.

(** When no call fails, [execute_locked] does exactly what the specification says. *)
Lemma execute_locked_run j layout d :
  healthy d -> journal_inv j layout d -> append_room cfg j layout ->
  executes (execute_locked draws tid actor corr command mode) j layout d.
Proof.
  intros Hd Hj Hroom. pose proof (ji_head _ _ _ _ _ Hj) as Eh.
  pose proof (frames_head_empty (concat layout) (layout_frames_ok _ _ _ _ _ (ji_layout _ _ _ _ _ Hj))) as Hempty.
  destruct (now_unix_ms (dr_clock draws)) as [now|e] eqn:Enow.
  2: { eapply executes_stay; [done|done| |by apply spec_clock]. unfold execute_locked.
       erewrite M_bind_run by reflexivity. rewrite Enow. by erewrite M_bind_fails by reflexivity. }
  pose proof (execute_bodies_run now j layout d Hd Hj Hroom Enow) as Hbodies.
  assert (Hstart : forall k, executes k j layout d ->
            execute_locked draws tid actor corr command mode (j, d) = k (j, d) ->
            executes (execute_locked draws tid actor corr command mode) j layout d).
  { intros k (j' & layout' & d' & r & E & Hk) Ek. exists j', layout', d', r. by rewrite Ek. }
  unfold execute_locked at 1 in Hstart. pose proof (event_bodies_created command) as Hb.
  revert Hstart. erewrite M_bind_run by reflexivity. cbn [fst]. rewrite Eh, Enow.
  erewrite M_bind_run by reflexivity. cbn zeta. rewrite Hempty. intros Hstart.
  destruct (is_create command) eqn:Ecr; cbn [negb andb] in Hstart;
    destruct (bool_decide_reflect (concat layout = [])) as [Hnil|Hne]; cbn [negb andb] in Hstart.
  - destruct Hb as (b & Eb & _). apply (Hstart _ (Hbodies ltac:(done) ltac:(by rewrite Eb))).
    erewrite M_bind_run by reflexivity. unfold events_at. rewrite Eb. reflexivity.
  - apply (Hstart (mret (no_op_at (last_head HEAD_EMPTY (concat layout)) now))); [|done].
    eapply executes_stay; [done|done|reflexivity|by apply spec_exists].
  - apply (Hstart (throw ThreadNotCreated)); [|by erewrite M_bind_fails by reflexivity].
    eapply executes_stay; [done|done|reflexivity|by eapply spec_not_created].
  - destruct (event_bodies command) as [|b bs] eqn:Eb.
    + apply (Hstart (mret (no_op_at (last_head HEAD_EMPTY (concat layout)) now)));
        [|by erewrite M_bind_run by reflexivity].
      eapply executes_stay; [done|done|reflexivity|by apply spec_nothing].
    + apply (Hstart _ (Hbodies ltac:(done) ltac:(done))).
      erewrite M_bind_run by reflexivity. unfold events_at. rewrite Eb. reflexivity.
Qed.

(** The events a command commits, and that they keep the journal a thread's. *)
Lemma build_events_created h now events :
  events_at h now = Ok events -> map is_created events = map body_is_created (event_bodies command).
Proof. intros E. apply build_events_chain in E as (_ & <- & _). by rewrite map_map. Qed.

Lemma events_at_facts h now events :
  events_at h now = Ok events ->
  events_chain tid (dr_batch_id draws) (rev (head_revision h)) 0 (head_digest h) events /\
  map ev_body events = event_bodies command /\
  map ev_event_id events = map (dr_event_id draws) (seq 0 (length (event_bodies command))).
Proof. intros E. apply build_events_chain in E as (Hc & Hb & Hi & _). by rewrite Z.sub_0_r in Hc. Qed.

Lemma chain_threads r k prior events bid :
  events_chain tid bid r k prior events -> Forall (fun e => ev_thread_id e = tid) events.
Proof.
  revert k prior. induction events as [|e events IH]; intros k prior Hc; [constructor|].
  destruct Hc as (Ht & _ & _ & _ & _ & _ & Hc). constructor; [done|by eapply IH].
Qed.

(** What a result of [execute_locked] says of the events. *)
Definition outcome_events frames frames' (r : result ThreadStoreError CommitOutcome) : Prop :=
  match r with
  | Ok o => frames_events frames' = frames_events frames ++ co_events o /\
            (co_events o = [] \/ map ev_body (co_events o) = event_bodies command)
  | Err _ => frames' = frames
  end.

Lemma execute_spec_events frames frames' r :
  execute_spec frames frames' r -> outcome_events frames frames' r.
Proof.
  assert (Hnil : forall o, co_events o = [] -> outcome_events frames frames (Ok o)).
  { intros o E. cbn. rewrite E, app_nil_r. by split; [|left]. }
  intros []; try done; try (by apply Hnil).
  match goal with E : events_at _ _ = Ok _ |- _ => apply events_at_facts in E as (_ & Hb & _) end.
  match goal with S : append_spec _ _ _ _ _ _ _ |- _ => destruct S as [? ? ? ? ? ?|? ? ? ?|? ?|? ? ?|? ? ? ? ?|f r' ? ? ? ? Hf] end;
    cbn [committed_outcome]; try done; try (by apply Hnil).
  destruct Hf as (_ & _ & Ef & _). split; [|right; exact Hb].
  unfold frames_events. rewrite map_app, concat_app. cbn [map concat]. by rewrite app_nil_r, Ef.
Qed.

(** New frames carry the identifier the command drew. *)
Lemma spec_commands frames frames' r :
  execute_spec frames frames' r ->
  forall f, f ∈ frames' -> f ∈ frames \/ frame_id f = dr_command_id draws.
Proof.
  intros Hs f Hf. destruct Hs as [| | | | |now events frames' r Hnow Hcr Hb Ee Hs]; try by left.
  destruct Hs as [? ? ? ? ? ?|? ? ? ?|? ?|? ? ?|? ? ? ? ?|f0 r' ? ? ? ? Hb0]; try by left.
  apply elem_of_app in Hf as [Hf| ->%list_elem_of_singleton]; [by left|right].
  by destruct Hb0 as (_ & Hid & _).
Qed.

(** A command under a new identifier that succeeds commits all its events. *)
Lemma fresh_command_commits frames frames' o :
  execute_spec frames frames' (Ok o) -> dr_command_id draws ∉ map frame_id frames ->
  is_create command = false -> event_bodies command <> [] ->
  frames <> [] /\ frames_events frames' = frames_events frames ++ co_events o /\
  map ev_body (co_events o) = event_bodies command.
Proof.
  intros Hs Hfresh Hcr Hne. pose proof (execute_spec_events _ _ _ Hs) as [Hcat _].
  inversion Hs as [|now Hnow Hcr'| |now Hnow _ _ Hnil| |now events frames1 r Hnow Hiff _ Ee Ha Ef Er]; try congruence.
  subst frames1. split; [intros E; apply Hiff in E; congruence|]. split; [done|].
  apply events_at_facts in Ee as (_ & Hb & _).
  destruct Ha as [f r' Hin Hid ? ?|? ? ? ?|? ?|? ? ?|? ? ? ? ?|f r' ? ? ? ? Hf]; try discriminate Er.
  - destruct Hfresh. apply list_elem_of_fmap. exists f. by split.
  - by injection Er as <-.
Qed.

(** New frames come only with new events. *)
Lemma execute_spec_thread frames frames' r :
  execute_spec frames frames' r -> frames_ok cfg tid HEAD_EMPTY frames' -> frames_ok cfg tid HEAD_EMPTY frames ->
  thread_events tid (frames_events frames) -> thread_events tid (frames_events frames').
Proof.
  intros Hs Hok' Hok Hte.
  assert (Hn : numbered 0 (frames_events frames')) by exact (frames_numbered _ _ _ _ Hok').
  destruct Hs as [| | | | |now events frames' r Hnow Hcr Hb Ee Hs]; try done.
  pose proof (build_events_created _ _ _ Ee) as Hcreated. apply events_at_facts in Ee as (Hc & Hbody & _).
  destruct Hs as [? ? ? ? ? ?|? ? ? ?|? ?|? ? ?|? ? ? ? ?|f r' ? ? ? ? Hf]; try done.
  destruct Hf as (_ & _ & Ef & _).
  assert (E : frames_events (frames ++ [f]) = frames_events frames ++ events).
  { unfold frames_events. rewrite map_app, concat_app. cbn [map concat]. by rewrite app_nil_r, Ef. }
  rewrite E in *. destruct Hte as [_ Ht Hcre]. split; [done| |].
  - apply list.Forall_app. split; [done|]. by eapply chain_threads.
  - intros k e Hk. apply lookup_app_Some in Hk as [Hk|[Hle Hk]]; [by apply Hcre|].
    assert (Ek : map is_created events !! (k - length (frames_events frames))%nat = Some (is_created e))
      by (by rewrite list_lookup_fmap, Hk).
    rewrite Hcreated in Ek. pose proof (event_bodies_created command) as Hbs.
    destruct (is_create command) eqn:Ecr.
    + pose proof (proj1 Hcr eq_refl) as Hnil. subst frames. destruct Hbs as (b & Eb & Ebc). rewrite Eb in Ek.
      destruct k as [|k]; [|by destruct k]. cbn in Ek. injection Ek as <-. by rewrite Ebc.
    + assert (Hfr : frames <> []) by (intros E0; apply Hcr in E0; done).
      rewrite (proj2 (Nat.eqb_neq _ _)).
      * rewrite list_lookup_fmap in Ek. destruct (event_bodies command !! _) as [b|] eqn:Eb; [|done].
        cbn in Ek. injection Ek as <-. rewrite list.Forall_lookup in Hbs. by apply (Hbs _ _ Eb).
      * destruct frames as [|f0 fs]; [done|]. destruct Hok as [Hf0 _].
        apply frame_ok_end in Hf0 as (_ & Hne & _). unfold frames_events in Hle. cbn [map concat] in Hle.
        rewrite length_app in Hle. lia.
Qed.

End Spec.
(** * The open thread *)

Context `{!SqliteLaws}.
Implicit Types (l : LiveThreadStore) (d : Disk) (db : Db).

(** The journal holds the layout's frames, the events of one thread. *)
Record live_inv (layout : Layout) l d : Prop := {
  li_id : lt_thread_id l = tid;
  li_journal : journal_inv (lt_journal l) layout d;
  li_healthy : healthy d;
  li_events : thread_events tid (layout_events layout)
}.

(** What the integers of SQL can hold of a journal. *)
Definition fits_index (es : list ThreadEventEnvelope) : Prop := indexable es /\ exact_totals es.

Lemma with_same_journal l : with_journal (lt_journal l) l = l.
Proof. by destruct l. Qed.

Lemma live_bind {A B} (f : LiveThreadStore -> A) (k : A -> M (LiveThreadStore * Disk * Db) ThreadStoreError B) l d db :
  (a ← live f; k a) (l, d, db) = k (f l) (l, d, db).
Proof. done. Qed.

Lemma live_head_revision layout l d :
  live_inv layout l d -> rev (head_revision (tj_head (lt_journal l))) = len (layout_events layout).
Proof.
  intros Hl. pose proof (li_journal _ _ _ Hl) as Hj. rewrite (ji_head _ _ _ _ _ Hj).
  rewrite (layout_end _ _ _ _ _ (ji_layout _ _ _ _ _ Hj)). change (rev (head_revision HEAD_EMPTY)) with 0. lia.
Qed.

(** ** Reading *)

(** The events after a revision, through another. *)
Definition events_between (after through : ThreadRevision) (es : list ThreadEventEnvelope) : list ThreadEventEnvelope :=
  take (Z.to_nat (rev through - rev after)) (drop (Z.to_nat (rev after)) es).

(** A window of the journal is folded exactly, or refused. *)
Definition window_result {St} (after through : ThreadRevision) (st : St) (fold : St -> ThreadEventEnvelope -> St)
    (es : list ThreadEventEnvelope) : result ThreadStoreError St :=
  if len es <? rev through then Err (RevisionNotFound (revision_get through))
  else if rev through <? rev after then Err (RevisionNotFound (revision_get after))
  else Ok (fold_left fold (events_between after through es) st).

Lemma fold_window_run {St} layout l d db after through (st : St) fold :
  live_inv layout l d ->
  fold_window after through st fold (l, d, db)
    = ((l, d, db), window_result after (default (head_revision (tj_head (lt_journal l))) through) st fold
                     (layout_events layout)).
Proof.
  intros Hl. pose proof (live_head_revision _ _ _ Hl) as Hh. destruct Hl as [_ Hj Hd _].
  unfold fold_window, window_result. rewrite live_bind. cbn [snapshot ts_head]. rewrite <- Hh.
  set (th := default _ through).
  destruct (Z.ltb_spec (rev (head_revision (tj_head (lt_journal l)))) (rev th)) as [Hlt|Hge].
  { by erewrite M_bind_fails by reflexivity. }
  erewrite M_bind_run by reflexivity.
  destruct (Z.ltb_spec (rev th) (rev after)) as [Hlt|Hle].
  { by erewrite M_bind_fails by reflexivity. }
  erewrite M_bind_run by reflexivity.
  destruct (bool_decide_reflect (after = th)) as [->|Hne].
  { unfold events_between. by rewrite Z.sub_diag. }
  pose proof (rev_bounds after). pose proof (rev_bounds th).
  assert (Hlt : rev after < rev th) by (assert (rev after <> rev th) by (intros E; by apply Hne, rev_inj); lia).
  destruct (checked_next after) as [start|] eqn:En; [|apply checked_next_None in En; lia].
  apply checked_next_Some in En. erewrite M_bind_run by reflexivity.
  assert (Hr : range_inclusive start th = Ok {| range_start := start; range_end_inclusive := th |}).
  { unfold range_inclusive. rewrite bool_decide_eq_false_2 by (intros ->; cbn in En; lia).
    cbn [negb]. rewrite (proj2 (Z.ltb_ge _ _)) by lia. done. }
  rewrite Hr. erewrite M_bind_run by reflexivity.
  pose proof (ji_layout _ _ _ _ _ Hj) as Hok.
  unfold on_journal, map_error, on_disk, snapshot_fold_range. cbn [ts_config ts_thread_id ts_head ts_segments snapshot].
  rewrite (ji_config _ _ _ _ _ Hj), (ji_thread _ _ _ _ _ Hj), (ji_head _ _ _ _ _ Hj), (ji_segments _ _ _ _ _ Hj).
  rewrite (ji_head _ _ _ _ _ Hj) in Hge.
  rewrite (visit_range_run cfg tid) by (first [done | apply (ji_dir _ _ _ _ _ Hj) | split; cbn; lia]).
  rewrite with_same_journal. cbn [map_err]. do 3 f_equal. unfold range_events, events_between. cbn [range_start range_end_inclusive].
  f_equal; [|f_equal]; lia.
Qed.

Lemma fold_all_run {St} layout l d db (st : St) fold :
  live_inv layout l d ->
  fold_all st fold (l, d, db) = ((l, d, db), Ok (fold_left fold (layout_events layout) st)).
Proof.
  intros Hl. unfold fold_all. rewrite (fold_window_run layout) by done. cbn [default].
  unfold window_result, events_between. rewrite (live_head_revision _ _ _ Hl).
  rewrite (proj2 (Z.ltb_ge _ _)) by lia. change (rev REVISION_ZERO) with 0.
  rewrite (proj2 (Z.ltb_ge _ _)) by lia. rewrite Z.sub_0_r, Nat2Z.id, drop_0. by rewrite firstn_all.
Qed.

(** ** Session metadata *)

Lemma reconciled_unchanged (m : ThreadSessionMetadataState) (desired : ThreadSessionMetadata) :
  let m' := reconciled m desired in
  changed_name m' desired = None /\ changed_resume_config m' desired = None /\ changed_dynamic_tools m' desired = None.
Proof.
  cbn. unfold changed_name, changed_resume_config, changed_dynamic_tools. cbn.
  rewrite !bool_decide_eq_true_2 by done. cbn. split; [|done]. destruct (sm_name desired); [|done].
  by rewrite bool_decide_eq_true_2.
Qed.

Definition metadata_of_projection (p : ThreadIndexProjection) : ThreadSessionMetadataState := {|
  ms_name := su_name (pr_summary p); ms_model := su_model (pr_summary p);
  ms_model_provider := su_model_provider (pr_summary p); ms_reasoning_effort := su_reasoning_effort (pr_summary p);
  ms_dynamic_tools_digest := pr_dynamic_tools_digest p |}.

(** The metadata a body sets, of the bodies of a reconciliation. *)
Definition body_metadata (b : ThreadEventBody) (m : ThreadSessionMetadataState) : ThreadSessionMetadataState :=
  match b with
  | ThreadNameSet name =>
      {| ms_name := name; ms_model := ms_model m; ms_model_provider := ms_model_provider m;
         ms_reasoning_effort := ms_reasoning_effort m; ms_dynamic_tools_digest := ms_dynamic_tools_digest m |}
  | ThreadResumeConfigSet model provider effort =>
      {| ms_name := ms_name m; ms_model := model; ms_model_provider := provider;
         ms_reasoning_effort := effort; ms_dynamic_tools_digest := ms_dynamic_tools_digest m |}
  | ThreadDynamicToolsSet tools =>
      {| ms_name := ms_name m; ms_model := ms_model m; ms_model_provider := ms_model_provider m;
         ms_reasoning_effort := ms_reasoning_effort m; ms_dynamic_tools_digest := Some (dynamic_tools_digest tools) |}
  | _ => m
  end.

Definition mutation_metadata (mu : ThreadIndexMutation) (m : ThreadSessionMetadataState) : ThreadSessionMetadataState :=
  match mu with
  | MutName value => body_metadata (ThreadNameSet value) m
  | MutResumeConfig model provider effort => body_metadata (ThreadResumeConfigSet model provider effort) m
  | MutDynamicTools tools => body_metadata (ThreadDynamicToolsSet tools) m
  | _ => m
  end.

Lemma mutation_apply_metadata mu r p :
  metadata_of_projection (mutation_apply mu r p) = mutation_metadata mu (metadata_of_projection p).
Proof. destruct p as [[] ? ? ? ? []], mu; cbn; repeat case_match; done. Qed.

Lemma project_event_metadata e p :
  metadata_of_projection (project_event e p) = body_metadata (ev_body e) (metadata_of_projection p).
Proof.
  rewrite project_event_header, mutation_apply_metadata.
  assert (Eh : metadata_of_projection (header e p) = metadata_of_projection p) by (by destruct p as [[] ? ? ? ? []]).
  rewrite Eh. unfold mutation_from_event. destruct (ev_body e); try done; cbn; repeat case_match; done.
Qed.

Lemma project_all_metadata es p :
  metadata_of_projection (project_all es p)
    = fold_left (fun m b => body_metadata b m) (map ev_body es) (metadata_of_projection p).
Proof.
  revert p. induction es as [|e es IH]; intros p; [done|]. unfold project_all in *. cbn [fold_left map].
  by rewrite IH, project_event_metadata.
Qed.

(** The events of a reconciliation bring the metadata to what is then held in memory. *)
Lemma reconciliation_metadata (m : ThreadSessionMetadataState) (desired : ThreadSessionMetadata) :
  fold_left (fun m b => body_metadata b m)
    (metadata_event_bodies (changed_name m desired) (changed_resume_config m desired) (changed_dynamic_tools m desired)) m
  = reconciled m desired.
Proof.
  unfold metadata_event_bodies, reconciled, changed_name, changed_resume_config, changed_dynamic_tools.
  destruct m as [name model provider effort tools]. cbn [ms_name ms_model ms_model_provider ms_reasoning_effort ms_dynamic_tools_digest].
  destruct (sm_name desired) as [n|];
    [destruct (bool_decide_reflect (name = Some n)) as [->|]|];
    (destruct (bool_decide_reflect (model = Some (sm_model desired))) as [->|]; cbn [negb orb]);
    (destruct (bool_decide_reflect (provider = sm_model_provider desired)) as [->|]; cbn [negb orb]);
    (destruct (bool_decide_reflect (effort = sm_reasoning_effort desired)) as [->|]; cbn [negb orb]);
    (destruct (bool_decide_reflect (tools = Some (dynamic_tools_digest (sm_dynamic_tools desired)))) as [->|]; cbn [negb]);
    done.
Qed.

(** ** The index *)

Lemma on_index_run {A} (m : M Db ThreadStoreError A) l d db db' r :
  m db = (db', r) -> on_index m (l, d, db) = ((l, d, db'), r).
Proof. unfold on_index. by intros ->. Qed.

(** [synchronize_index] touches the index only. *)
Lemma synchronize_index_index layout l d db :
  live_inv layout l d ->
  exists m, synchronize_index (l, d, db) = on_index m (l, d, db) /\
    m = match project (layout_events layout) with Some p => index_replace p | None => mret tt end.
Proof.
  intros Hl. eexists. split; [|reflexivity].
  unfold synchronize_index. erewrite M_bind_run by exact (fold_all_run layout l d db AwaitingCreation accumulator_push Hl).
  change (accumulator_finish (fold_left accumulator_push (layout_events layout) AwaitingCreation))
    with (project (layout_events layout)).
  by destruct (project (layout_events layout)).
Qed.

(** It makes the index show the journal, or fails with the database. *)
Lemma replace_shows t es db :
  thread_events t es -> indexable es -> es <> [] ->
  atomic db (match project es with Some p => index_replace p | None => mret tt end)
    (fun _ db' => shows db' t es /\ others_kept t db db').
Proof.
  intros Hte Hix Hne. destruct (project_thread_events t es Hte Hne) as (p & Ep & _). rewrite Ep.
  by apply index_replace_shows.
Qed.

(** ** Commands *)

Lemma layout_events_frames layout : layout_events layout = frames_events (concat layout).
Proof. done. Qed.

(** What [execute] answers and leaves in the index, given what [execute_locked]
    did to the journal. *)
Definition answered_by (es : list ThreadEventEnvelope) db db' (ro : result ThreadStoreError CommitOutcome)
    (r : result ThreadStoreError ThreadCommandReceipt) : Prop :=
  (db_works db -> db_works db') /\ others_kept tid db db' /\ honest db' tid es /\
  match ro with
  | Err e => r = Err e /\ db' = db
  | Ok o =>
      (r = Ok (co_receipt o) /\ (co_events o = [] -> db' = db) /\ (co_events o <> [] -> shows db' tid es)) \/
      ((exists s, r = Err (Index s)) /\ ~ db_works db)
  end.

(** [execute] after its events are committed. *)
Lemma execute_index_run (o : CommitOutcome) es layout l d db :
  live_inv layout l d -> layout_events layout = es ++ co_events o ->
  exists db' r,
    (applied ← on_index (apply_all (co_events o));
     _ ← (if negb applied then synchronize_index else mret tt);
     mret (co_receipt o)) (l, d, db) = ((l, d, db'), r) /\ (forall receipt, r = Ok receipt -> receipt = co_receipt o) /\
    (honest db tid es -> fits_index (layout_events layout) -> answered_by (layout_events layout) db db' (Ok o) r).
Proof.
  intros Hl Hcat. pose proof (li_events _ _ _ Hl) as Hte. rewrite Hcat in Hte |- *.
  destruct (decide (co_events o = [])) as [E0|Hne].
  { rewrite E0, app_nil_r. exists db, (Ok (co_receipt o)). split; [done|]. split; [by intros ? [=]|]. intros Hh _.
    split; [done|]. split; [by apply others_kept_of_same|]. split; [done|]. left. by rewrite E0. }
  destruct (apply_all (co_events o) db) as [db1 r1] eqn:Ea.
  assert (Hfollows : honest db tid es -> fits_index (es ++ co_events o) -> follows tid (es ++ co_events o) db db1 r1).
  { intros Hh [Hix Hx]. by apply (apply_all_follows tid es (co_events o)). }
  unfold mbind at 1, M_bind at 1. rewrite (on_index_run _ _ _ _ _ _ Ea).
  destruct r1 as [[]|err]; cbn [negb].
  - exists db1, (Ok (co_receipt o)). split; [done|]. split; [by intros ? [=]|]. intros Hh Hfit.
    destruct (Hfollows Hh Hfit) as (Hw & Ho & Hh1 & Hs). do 3 (split; [done|]). left. by split.
  - destruct (synchronize_index_index layout l d db1 Hl) as (m & Em & Emd). rewrite Hcat in Emd.
    unfold mbind, M_bind. rewrite Em. destruct (m db1) as [db2 r2] eqn:E2. rewrite (on_index_run _ _ _ _ _ _ E2).
    assert (Hshow : fits_index (es ++ co_events o) -> (db_works db1 -> db_works db2) /\
              match r2 with
              | Ok _ => shows db2 tid (es ++ co_events o) /\ others_kept tid db1 db2
              | Err err => (exists s, err = Index s) /\ ~ db_works db1 /\ same_tables db1 db2
              end).
    { intros [Hix _]. subst m. apply (replace_shows tid (es ++ co_events o) db1) in E2; [exact E2|done|done|].
      intros E. apply app_eq_nil in E as [_ E]. done. }
    destruct r2 as [u|err].
    + exists db2, (Ok (co_receipt o)). split; [done|]. split; [by intros ? [=]|]. intros Hh Hfit.
      destruct (Hfollows Hh Hfit) as (Hw & Ho & _), (Hshow Hfit) as (Hw2 & Hs & Ho2).
      split; [tauto|]. split; [by eapply others_kept_trans|]. split; [by apply shows_honest|]. left. by split.
    + exists db2, (Err err). split; [done|]. split; [by intros ? [=]|]. intros Hh Hfit.
      destruct (Hfollows Hh Hfit) as (Hw & Ho & Hh1 & _), (Hshow Hfit) as (Hw2 & Hs & Hnw & Hsame).
      split; [tauto|]. split; [by eapply others_kept_same|]. split; [by eapply honest_same|]. right.
      destruct Hs as [x ->]. split; [eauto|tauto].
  - exists db1, (Err err). split; [done|]. split; [by intros ? [=]|]. intros Hh Hfit. destruct (Hfollows Hh Hfit) as (Hw & Ho & Hh1 & [x ->] & Hnw).
    do 3 (split; [done|]). right. eauto.
Qed.

Lemma execute_run draws actor corr command mode layout l d db :
  live_inv layout l d -> append_room cfg (lt_journal l) layout ->
  exists l' layout' d' db' ro r,
    execute draws actor corr command mode (l, d, db) = ((l', d', db'), r) /\
    execute_spec draws actor corr command mode (concat layout) (concat layout') ro /\
    live_inv layout' l' d' /\
    (lt_session_metadata l' = lt_session_metadata l /\ tj_process (lt_journal l') = tj_process (lt_journal l) /\
     grows (lt_journal l) layout (lt_journal l') layout') /\
    (forall receipt, r = Ok receipt -> exists o, ro = Ok o /\ receipt = co_receipt o) /\
    (honest db tid (layout_events layout) -> fits_index (layout_events layout') ->
     answered_by (layout_events layout') db db' ro r).
Proof.
  intros Hl Hroom. pose proof Hl as [Hid Hj Hd Hte].
  destruct (execute_locked_run draws actor corr command mode (lt_journal l) layout d Hd Hj Hroom)
    as (j' & layout' & d' & ro & Hrun & Hspec & Hj' & Hd' & Hkeep).
  set (l' := with_journal j' l).
  assert (Hl' : live_inv layout' l' d').
  { split; [done|done|done|].
    apply (execute_spec_thread draws actor corr command mode (concat layout) (concat layout') ro); try done.
    - apply (layout_frames_ok _ _ _ _ _ (ji_layout _ _ _ _ _ Hj')).
    - apply (layout_frames_ok _ _ _ _ _ (ji_layout _ _ _ _ _ Hj)). }
  pose proof (execute_spec_events _ _ _ _ _ _ _ _ Hspec) as Hev.
  assert (Hlocked : on_journal (execute_locked draws tid actor corr command mode) (l, d, db) = ((l', d', db), ro))
    by (unfold on_journal; by rewrite Hrun).
  destruct ro as [o|e]; cbn [outcome_events] in Hev.
  - destruct Hev as [Hcat _].
    destruct (execute_index_run o (layout_events layout) layout' l' d' db Hl' Hcat) as (db' & r & Hrest & Hrec & Hans).
    exists l', layout', d', db', (Ok o), r. split; [|do 3 (split; [done|]); split; [|done]].
    + unfold execute. rewrite live_bind, Hid. erewrite M_bind_run by exact Hlocked. exact Hrest.
    + intros receipt E. exists o. split; [done|by apply Hrec].
  - exists l', layout', d', db, (Err e), (Err e). split; [|do 3 (split; [done|]); split; [by intros ? [=]|]].
    + unfold execute. rewrite live_bind, Hid. by erewrite M_bind_fails by exact Hlocked.
    + intros Hh _. split; [done|]. split; [by apply others_kept_of_same|]. by rewrite layout_events_frames, Hev.
Qed.

End Live.

(** * Sequences of commands on an open thread *)

Record LiveCall := {
  lc_draws : Draws;
  lc_actor : ThreadActor;
  lc_correlation : option string;
  lc_command : ThreadCommand;
  lc_mode : CommitMode
}.

Section Sequences.
Context `{External, JsonCodec, SqliteLaws} (cfg : JournalConfig) (tid : ThreadId).

Definition run_call (c : LiveCall) : M (LiveThreadStore * Disk * Db) ThreadStoreError ThreadCommandReceipt :=
  execute (lc_draws c) (lc_actor c) (lc_correlation c) (lc_command c) (lc_mode c).

(** A client that goes on after a command that fails. *)
Fixpoint run_calls (calls : list LiveCall) (s : LiveThreadStore * Disk * Db)
    : (LiveThreadStore * Disk * Db) * list (result ThreadStoreError ThreadCommandReceipt) :=
  match calls with
  | [] => (s, [])
  | c :: calls => let (s, r) := run_call c s in let (s, rs) := run_calls calls s in (s, r :: rs)
  end.

(** The frames after some commands, and their results. *)
Fixpoint calls_spec (calls : list LiveCall) (frames frames' : list Frame)
    (rs : list (result ThreadStoreError CommitOutcome)) : Prop :=
  match calls, rs with
  | [], [] => frames' = frames
  | c :: calls, r :: rs =>
      exists frames1,
        execute_spec cfg tid (lc_draws c) (lc_actor c) (lc_correlation c) (lc_command c) (lc_mode c) frames frames1 r /\
        calls_spec calls frames1 frames' rs
  | _, _ => False
  end.

Definition receipt_of (r : result ThreadStoreError CommitOutcome) : result ThreadStoreError ThreadCommandReceipt :=
  co_receipt <$> r.

(** Room for so many more commands. *)
Definition calls_room (n : Z) (l : LiveThreadStore) (layout : Layout) : Prop :=
  frame_room cfg /\ len layout + n < 2 ^ 64 /\ val (tj_dirty_batch_count (lt_journal l)) + n < 2 ^ 64.

Lemma calls_room_append n l layout : calls_room n l layout -> 1 <= n -> append_room cfg (lt_journal l) layout.
Proof. intros (Hf & Hlen & Hdirty) Hn. split; [done|]. lia. Qed.

Lemma calls_room_grows n l layout l' layout' :
  calls_room n l layout -> grows (lt_journal l) layout (lt_journal l') layout' -> calls_room (n - 1) l' layout'.
Proof. intros (Hf & Hlen & Hdirty) [Hl' Hd']. split; [done|]. lia. Qed.

Lemma fits_index_prefix es1 es2 : fits_index (es1 ++ es2) -> fits_index es1.
Proof.
  intros [Hix Hx]. split; [by eapply indexable_prefix|]. destruct es1 as [|e es1]; [done|]. intros p Hp.
  eapply exact_costs_all_app. by apply Hx.
Qed.

Lemma spec_extends draws actor corr command mode frames frames' r :
  execute_spec cfg tid draws actor corr command mode frames frames' r ->
  exists es, frames_events frames' = frames_events frames ++ es.
Proof.
  intros Hs%execute_spec_events. destruct r as [o|e]; [destruct Hs as [-> _]; eauto|]. cbn in Hs. subst.
  exists []. by rewrite app_nil_r.
Qed.

Lemma calls_extend calls frames frames' rs :
  calls_spec calls frames frames' rs -> exists es, frames_events frames' = frames_events frames ++ es.
Proof.
  revert frames rs. induction calls as [|c calls IH]; intros frames [|r rs] Hs; try done.
  - cbn in Hs. subst. exists []. by rewrite app_nil_r.
  - destruct Hs as (frames1 & [es1 E1]%spec_extends & Hs). destruct (IH _ _ Hs) as [es2 ->]. rewrite E1.
    exists (es1 ++ es2). by rewrite app_assoc.
Qed.

(** One command on an index that shows the journal and a database that works. *)
Definition in_step es db : Prop := shows db tid es /\ db_works db.

Lemma working_call_run c layout l d db :
  live_inv cfg tid layout l d -> append_room cfg (lt_journal l) layout ->
  exists l' layout' d' db' ro r,
    run_call c (l, d, db) = ((l', d', db'), r) /\
    execute_spec cfg tid (lc_draws c) (lc_actor c) (lc_correlation c) (lc_command c) (lc_mode c)
      (concat layout) (concat layout') ro /\
    live_inv cfg tid layout' l' d' /\ grows (lt_journal l) layout (lt_journal l') layout' /\
    (in_step (layout_events layout) db -> fits_index (layout_events layout') ->
     r = receipt_of ro /\ in_step (layout_events layout') db').
Proof.
  intros Hl Hroom.
  destruct (execute_run cfg tid (lc_draws c) (lc_actor c) (lc_correlation c) (lc_command c) (lc_mode c) layout l d db Hl)
    as (l' & layout' & d' & db' & ro & r & Hrun & Hspec & Hl' & (_ & _ & Hg) & _ & Hans); [done|].
  exists l', layout', d', db', ro, r. do 4 (split; [done|]). intros [Hs Hw] Hfit.
  destruct (Hans (shows_honest _ _ _ Hs) Hfit) as (Hw' & _ & _ & Hres).
  pose proof (execute_spec_events _ _ _ _ _ _ _ _ _ _ Hspec) as Hev.
  destruct ro as [o|e]; cbn [outcome_events] in Hev.
  - destruct Hres as [(-> & Hnil & Hsome)|[_ Hnw]]; [|by destruct (Hnw Hw)]. split; [done|]. split; [|by apply Hw'].
    destruct (decide (co_events o = [])) as [E|Hne]; [|by apply Hsome]. rewrite (Hnil E).
    destruct Hev as [Hcat _]. rewrite E, app_nil_r in Hcat. by rewrite layout_events_frames, Hcat.
  - destruct Hres as [-> ->]. split; [done|]. split; [|done]. by rewrite layout_events_frames, Hev.
Qed.

Lemma run_calls_run calls layout l d db :
  live_inv cfg tid layout l d -> calls_room (len calls) l layout ->
  exists l' layout' d' db' ros rs,
    run_calls calls (l, d, db) = ((l', d', db'), rs) /\
    calls_spec calls (concat layout) (concat layout') ros /\ live_inv cfg tid layout' l' d' /\
    (in_step (layout_events layout) db -> fits_index (layout_events layout') ->
     rs = map receipt_of ros /\ in_step (layout_events layout') db').
Proof.
  revert layout l d db. induction calls as [|c calls IH]; intros layout l d db Hl Hroom.
  { exists l, layout, d, db, [], []. do 3 (split; [done|]). done. }
  cbn [length] in Hroom.
  destruct (working_call_run c layout l d db Hl) as (l1 & layout1 & d1 & db1 & ro & r & Hrun & Hspec & Hl1 & Hg & Hfit1).
  { eapply calls_room_append; [done|lia]. }
  pose proof (calls_room_grows _ _ _ _ _ Hroom Hg) as Hroom1.
  replace (Z.of_nat (S (length calls)) - 1) with (len calls) in Hroom1 by lia.
  destruct (IH layout1 l1 d1 db1 Hl1 Hroom1) as (l' & layout' & d' & db' & ros & rs & Hruns & Hspecs & Hl' & Hfit').
  exists l', layout', d', db', (ro :: ros), (r :: rs). split; [cbn [run_calls]; by rewrite Hrun, Hruns|].
  split; [by exists (concat layout1)|]. split; [done|]. intros Hin Hfit.
  destruct (calls_extend _ _ _ _ Hspecs) as [es E]. rewrite <- !layout_events_frames in E.
  assert (Hf1 : fits_index (layout_events layout1)) by (rewrite E in Hfit; by eapply fits_index_prefix).
  destruct (Hfit1 Hin Hf1) as [-> Hin1]. destruct (Hfit' Hin1 Hfit) as [-> Hin']. by split.
Qed.

End Sequences.
