(* ===== verification/Interleaving.v ===== *)
(** Clones of an open thread that run commands at the same time: commits are
    serialized by the journal's mutex, what follows them on the index is not.
    Statements and transactions of the index are the atomic steps. *)

From S2P Require Import Prelude Canonical Events Commands Receipts Format CommandIndex Disk Model RangeFacts Projection ProjectionFacts.
From S2P Require Import ThreadIndex IndexFacts IndexReads LiveThread LiveFacts.

Open Scope string_scope.
Open Scope list_scope.
Open Scope Z_scope.

Section Interleaving.
Context `{External, SqliteLaws} (tid : ThreadId).
Implicit Types (p : ThreadIndexProjection) (e : ThreadEventEnvelope) (es : list ThreadEventEnvelope) (db : Db).

(** One turn of the loop of [apply_all]: the events left, or [None] when the
    index was not at the revision before. *)
Definition apply_turn (events : list ThreadEventEnvelope) : M Db ThreadStoreError (option (list ThreadEventEnvelope)) :=
  match events with
  | [] => mret (Some [])
  | event :: rest =>
      match agent_step event with
      | None => applied ← index_apply event; mret (if negb applied then None else Some rest)
      | Some sequence =>
          first ← of_result (cursor_new event);
          '(last, max_sequence, rest) ← of_result (agent_run first sequence rest);
          applied ← apply_native_agent_run first last max_sequence;
          mret (if negb applied then None else Some rest)
      end
  end.

(** The loop is its turns. *)
Lemma apply_loop_turns fuel events db :
  apply_loop (S fuel) events db
    = (left ← apply_turn events; match left with Some rest => apply_loop fuel rest | None => mret false end) db.
Proof.
  destruct events as [|e events]; [by destruct fuel|]. cbn [apply_loop apply_turn].
  destruct (agent_step e) as [s|].
  - unfold mbind, M_bind. destruct (of_result (cursor_new e) db) as [d1 [first|]]; [|done].
    destruct (of_result (agent_run first s events) d1) as [d2 [[[last mx] rest]|]]; [|done].
    by destruct (apply_native_agent_run first last mx d2) as [d3 [[]|]].
  - unfold mbind, M_bind. by destruct (index_apply e db) as [d1 [[]|]].
Qed.

Lemma apply_turn_shorter e events db db' rest :
  apply_turn (e :: events) db = (db', Ok (Some rest)) -> (length rest <= length events)%nat.
Proof.
  cbn [apply_turn]. destruct (agent_step e) as [s|]; intros Hr.
  - apply M_bind_cases in Hr as [(d1 & first & _ & Hr)|(err & _ & [=])].
    apply M_bind_cases in Hr as [(d2 & [[last mx] rest'] & E & Hr)|(err & _ & [=])].
    apply M_bind_cases in Hr as [(d3 & b & _ & Hr)|(err & _ & [=])].
    unfold of_result in E. destruct (agent_run first s events) as [[[c x] y]|] eqn:Er; [|done].
    injection E as _ -> -> ->. destruct b; [|discriminate Hr]. injection Hr as _ <-. by eapply agent_run_shorter.
  - apply M_bind_cases in Hr as [(d1 & b & _ & Hr)|(err & _ & [=])]. destruct b; [|discriminate Hr].
    by injection Hr as _ <-.
Qed.

(** What a call has left to do on the index. *)
Inductive Work :=
  | Applying (events : list ThreadEventEnvelope)
  | Synchronizing
  | Replacing (projection : ThreadIndexProjection).

(** The committed events, the tables, and the calls under way. *)
Record Shared := {
  sh_events : list ThreadEventEnvelope;
  sh_db : Db;
  sh_work : list Work
}.

Definition turn_work (left : result ThreadStoreError (option (list ThreadEventEnvelope))) : list Work :=
  match left with
  | Ok (Some []) => []
  | Ok (Some rest) => [Applying rest]
  | Ok None => [Synchronizing]
  | Err _ => []
  end.

(** The steps; [before] and [after] are the other calls under way. *)
Inductive shared_step : Shared -> Shared -> Prop :=
  | step_commit es db work events :
      events <> [] -> thread_events tid (es ++ events) -> fits_index (es ++ events) ->
      shared_step {| sh_events := es; sh_db := db; sh_work := work |}
        {| sh_events := es ++ events; sh_db := db; sh_work := work ++ [Applying events] |}
  | step_turn es db db' before events after left :
      apply_turn events db = (db', left) ->
      shared_step {| sh_events := es; sh_db := db; sh_work := before ++ Applying events :: after |}
        {| sh_events := es; sh_db := db'; sh_work := before ++ turn_work left ++ after |}
  | step_fold es db before after :
      shared_step {| sh_events := es; sh_db := db; sh_work := before ++ Synchronizing :: after |}
        {| sh_events := es; sh_db := db;
           sh_work := before ++ match project es with Some p => [Replacing p] | None => [] end ++ after |}
  | step_replace es db db' before p after r :
      index_replace p db = (db', r) ->
      shared_step {| sh_events := es; sh_db := db; sh_work := before ++ Replacing p :: after |}
        {| sh_events := es; sh_db := db'; sh_work := before ++ after |}.

(** * The invariant *)

(** What a call has left is about events of the journal. *)
Definition work_ok es (w : Work) : Prop :=
  match w with
  | Applying events => exists before after, es = before ++ events ++ after
  | Synchronizing => True
  | Replacing p => exists before after, es = before ++ after /\ project before = Some p
  end.

Record shared_inv (start : Db) (s : Shared) : Prop := {
  si_events : thread_events tid (sh_events s);
  si_fits : fits_index (sh_events s);
  si_honest : honest (sh_db s) tid (sh_events s);
  si_others : others_kept tid start (sh_db s);
  si_work : Forall (work_ok (sh_events s)) (sh_work s)
}.

Lemma work_ok_app es more w : work_ok es w -> work_ok (es ++ more) w.
Proof.
  destruct w as [events| |p]; [|done|]; cbn.
  - intros (before & after & ->). exists before, (after ++ more). by rewrite <- !app_assoc.
  - intros (before & after & -> & Hp). exists before, (after ++ more). by rewrite <- app_assoc.
Qed.

(** An honest index misses the revision after a prefix, or shows that prefix. *)
Lemma honest_missed_prefix db pre post :
  numbered 0 (pre ++ post) -> honest db tid (pre ++ post) ->
  missed db tid (len pre) \/ exists p, project pre = Some p /\ su_thread_id (pr_summary p) = tid /\ stored db p.
Proof.
  intros Hn Hh. destruct (db_rows db !! tid) as [row|] eqn:Erow; [|left; intros ? E; by rewrite Erow in E].
  destruct (is_current row) eqn:Ec; [|left; intros ? E E'; rewrite Erow in E; injection E as ->; by rewrite Ec in E'].
  destruct (Hh row Erow Ec) as (es1 & es2 & p & E & Hp & Ht & Hs). pose proof Hn as Hn1.
  rewrite E in Hn1. apply numbered_split in Hn1 as [Hn1 _].
  destruct (decide (length es1 = length pre)) as [El|Hne].
  - right. exists p. apply app_inj_1 in E as [-> _]; done.
  - left. intros row' E' _ Er. pose proof Hs as [(row2 & E2 & Hrow2) _]. rewrite Ht, E' in E2. injection E2 as <-.
    rewrite (rw_revision _ _ Hrow2), (project_revision _ _ Hn1 Hp) in Er. lia.
Qed.

(** What a turn may do to the index of a journal. *)
Definition turn_ok es db (events : list ThreadEventEnvelope) db'
    (left : result ThreadStoreError (option (list ThreadEventEnvelope))) : Prop :=
  honest db' tid es /\ others_kept tid db db' /\
  match left with Ok (Some rest) => exists now, events = now ++ rest | _ => True end.

Lemma turn_same es db events db' left :
  honest db tid es -> same_tables db db' ->
  match left with Ok (Some rest) => exists now, events = now ++ rest | _ => True end -> turn_ok es db events db' left.
Proof. intros Hh Hs Hl. split; [by eapply honest_same|]. split; [by apply others_kept_of_same|done]. Qed.

(** The outcome of a turn, from the statement it runs. *)
Lemma turn_missed es now rest db db' left (m : M Db ThreadStoreError bool) :
  honest db tid es -> atomic db m (fun b d' => b = false /\ same_tables db d') ->
  (applied ← m; mret (if negb applied then None else Some rest)) db = (db', left) ->
  turn_ok es db (now ++ rest) db' left.
Proof.
  intros Hh Hat Hr. apply M_bind_cases in Hr as [(d1 & b & E & Hr)|(err & E & ->)]; apply Hat in E as [_ E].
  - injection Hr as <- <-. destruct E as [-> Hs]. by apply turn_same.
  - destruct E as (_ & _ & Hs). by apply turn_same.
Qed.

Lemma turn_hit pre now rest post db db' left (m : M Db ThreadStoreError bool) p :
  honest db tid (pre ++ (now ++ rest) ++ post) ->
  project (pre ++ now) = Some p -> su_thread_id (pr_summary p) = tid ->
  atomic db m (fun b d' => b = true /\ stored d' p /\ others_kept tid db d') ->
  (applied ← m; mret (if negb applied then None else Some rest)) db = (db', left) ->
  turn_ok (pre ++ (now ++ rest) ++ post) db (now ++ rest) db' left.
Proof.
  intros Hh Hp Ht Hat Hr. apply M_bind_cases in Hr as [(d1 & b & E & Hr)|(err & E & ->)]; apply Hat in E as [_ E].
  - injection Hr as <- <-. destruct E as (-> & Hst & Ho). split; [|split; [done|by exists now]].
    rewrite <- app_assoc, app_assoc. by apply (stored_honest _ p).
  - destruct E as (_ & _ & Hs). by apply turn_same.
Qed.

Section Turn.
Context (pre : list ThreadEventEnvelope) (e : ThreadEventEnvelope) (events post : list ThreadEventEnvelope).
Abbreviation es := (pre ++ (e :: events) ++ post).
Context (Hte : thread_events tid es) (Hfit : fits_index es).

Lemma turn_threads x : x ∈ e :: events -> ev_thread_id x = tid.
Proof. intros Hin. pose proof (te_thread _ _ Hte) as Ht. rewrite list.Forall_forall in Ht. apply Ht. set_solver. Qed.

Lemma turn_created : is_created e = (length pre =? 0)%nat.
Proof. apply (te_created _ _ Hte). cbn [app]. by apply list_lookup_middle. Qed.

Lemma turn_numbered : numbered 0 pre.
Proof. exact (proj1 (numbered_split _ _ _ (te_numbered _ _ Hte))). Qed.

Lemma turn_indexable : indexable (pre ++ e :: events).
Proof.
  destruct Hfit as [Hix _]. apply (indexable_prefix _ post). rewrite <- app_assoc. exact Hix.
Qed.

Lemma turn_cursor : exists c, cursor_new e = Ok c.
Proof.
  pose proof (ix_length _ turn_indexable) as Hl. rewrite length_app in Hl. cbn [length] in Hl.
  destruct (cursor_new_Ok e pre) as (c & Hc & _); [lia| |by exists c].
  rewrite (te_numbered _ _ Hte (length pre) e) by (by apply list_lookup_middle). lia.
Qed.

(** The creation event. *)
Lemma turn_created_honest db db' left :
  pre = [] -> honest db tid es -> apply_turn (e :: events) db = (db', left) -> turn_ok es db (e :: events) db' left.
Proof.
  intros Epre Hh Hr. pose proof turn_created as Hcr. pose proof turn_indexable as Hix.
  assert (Hte1 : thread_events tid [e]).
  { apply (thread_events_app tid [e] (events ++ post)). pose proof Hte as Hte'. rewrite Epre in Hte'. exact Hte'. }
  rewrite Epre in *. cbn [app length Nat.eqb] in *.
  assert (Es : agent_step e = None).
  { unfold is_created in Hcr. unfold agent_step, mutation_from_event. by destruct (ev_body e). }
  cbn [apply_turn] in Hr. rewrite Es in Hr.
  destruct (index_apply_created tid e db Hte1 (indexable_prefix [e] events Hix) Hcr) as (p & Hp & Ht & Hat).
  by apply (turn_hit [] [e] events post db db' left (index_apply e) p).
Qed.

(** A run of agent events. *)
Lemma turn_agent_honest db db' left s :
  agent_step e = Some s -> pre <> [] -> honest db tid es -> apply_turn (e :: events) db = (db', left) ->
  turn_ok es db (e :: events) db' left.
Proof.
  intros Es Hne Hh Hr. destruct turn_cursor as (first & Hfirst). pose proof turn_indexable as Hix.
  pose proof turn_threads as Hth. pose proof (honest_missed_prefix db pre _ (te_numbered _ _ Hte) Hh) as Hat.
  cbn [apply_turn] in Hr. rewrite Es, Hfirst in Hr.
  destruct (agent_run_ok pre e first s events Hix Hfirst)
    as (run & c' & e' & mx' & rest & Hrun & Eev & Hc' & He' & _ & Hm & Hproj).
  erewrite M_bind_run in Hr by reflexivity. rewrite Hrun in Hr. erewrite M_bind_run in Hr by reflexivity.
  cbn beta iota in Hr. rewrite Eev in *.
  pose proof (agent_run_bound pre e run rest s mx' Hix Es ltac:(lia)) as Hmx.
  change (e :: run ++ rest) with ((e :: run) ++ rest) in *.
  assert (Hthr : forall x, x ∈ e :: run -> ev_thread_id x = tid) by (intros x Hin; apply Hth; set_solver).
  destruct Hat as [Hmiss|(p & Hp & Ht & Hst)].
  - eapply turn_missed; [done| |exact Hr]. apply (agent_run_missed pre e run rest db first c' e' mx'); try done.
    + by rewrite (Hthr e) by set_solver.
    + intros x Hin. by rewrite (Hthr e), Hthr by set_solver.
  - eapply (turn_hit pre (e :: run) rest post); [done| | | |exact Hr].
    + apply project_app; [|done]. pose proof Hix as [Hn _ _]. rewrite app_assoc in Hn. by apply numbered_split in Hn as [Hn _].
    + by rewrite project_all_thread.
    + rewrite <- Ht. apply (agent_run_atomic pre e run rest p db first c' e' s mx'); try done.
      intros x Hin. rewrite Ht. by apply Hthr.
Qed.

(** Any other event. *)
Lemma turn_event_honest db db' left :
  agent_step e = None -> pre <> [] -> honest db tid es -> apply_turn (e :: events) db = (db', left) ->
  turn_ok es db (e :: events) db' left.
Proof.
  intros Es Hne Hh Hr. pose proof turn_threads as Hth. pose proof turn_created as Hcr.
  assert (Hcre : is_created e = false) by (rewrite Hcr; apply Nat.eqb_neq; by destruct pre).
  pose proof (honest_missed_prefix db pre _ (te_numbered _ _ Hte) Hh) as Hat.
  assert (Hixe : indexable (pre ++ [e])).
  { apply (indexable_prefix _ events). rewrite <- app_assoc. exact turn_indexable. }
  pose proof (Hth e ltac:(set_solver)) as He. cbn [apply_turn] in Hr. rewrite Es in Hr.
  change (e :: events) with ([e] ++ events) in *. destruct Hat as [Hmiss|(p & Hp & Ht & Hst)].
  - eapply turn_missed; [done| |exact Hr]. apply (index_apply_missed pre); [done|done|by rewrite He].
  - eapply (turn_hit pre [e] events post _ _ _ _ (project_event e p)); [done| | | |exact Hr].
    + apply project_snoc; [|done]. apply (ix_numbered _ Hixe).
    + destruct (project_event_fixed e p) as (_ & -> & _). done.
    + rewrite <- Ht. apply (index_apply_atomic pre); try done; [by rewrite He|].
      destruct Hfit as [_ Hx]. pose proof (exact_totals_app pre _ p turn_numbered Hx Hp) as Hc. by destruct Hc.
Qed.

Lemma turn_honest db db' left :
  honest db tid es -> apply_turn (e :: events) db = (db', left) -> turn_ok es db (e :: events) db' left.
Proof.
  intros Hh Hr. destruct (decide (pre = [])); [by apply turn_created_honest|].
  destruct (agent_step e) as [s|] eqn:Es; [by apply (turn_agent_honest _ _ _ s)|by apply turn_event_honest].
Qed.

End Turn.

(** * Every interleaving *)

Lemma works_split es before w after ws :
  Forall (work_ok es) (before ++ w :: after) -> Forall (work_ok es) ws -> Forall (work_ok es) (before ++ ws ++ after).
Proof.
  intros Hw Hws. apply list.Forall_app in Hw as [Hb Hw]. apply list.Forall_cons in Hw as [_ Ha].
  apply list.Forall_app. split; [done|]. by apply list.Forall_app.
Qed.

Lemma work_of es before w after : Forall (work_ok es) (before ++ w :: after) -> work_ok es w.
Proof. intros Hw. apply list.Forall_app in Hw as [_ Hw]. by apply list.Forall_cons in Hw as [Hw _]. Qed.

Lemma turn_works es pre events post db db' left :
  es = pre ++ events ++ post -> turn_ok es db events db' left -> Forall (work_ok es) (turn_work left).
Proof.
  intros -> (_ & _ & Hl). destruct left as [[[|e rest]|]|]; cbn [turn_work]; try (by repeat constructor).
  destruct Hl as [now ->]. constructor; [|constructor]. exists (pre ++ now), post. by rewrite <- !app_assoc.
Qed.

Lemma shared_step_inv start s s' : shared_inv start s -> shared_step s s' -> shared_inv start s'.
Proof.
  intros [Hte Hfit Hh Ho Hw] Hs. destruct Hs as [es db work events Hne Hte' Hfit'|es db db' before events after left Hr|es db before after|es db db' before p after r Hr];
    cbn [sh_events sh_db sh_work] in *.
  - split; cbn [sh_events sh_db sh_work]; try done; [by apply honest_app|].
    apply list.Forall_app. split; [eapply list.Forall_impl; [exact Hw|]; intros w; apply work_ok_app|].
    constructor; [|constructor]. exists es, []. by rewrite app_nil_r.
  - destruct (work_of _ _ _ _ Hw) as (pre & post & Ees). subst es.
    assert (Hturn : turn_ok (pre ++ events ++ post) db events db' left).
    { destruct events as [|e events]; [|by apply turn_honest]. injection Hr as <- <-.
      apply turn_same; [done|done|by exists []]. }
    pose proof Hturn as (Hh' & Ho' & _). split; cbn [sh_events sh_db sh_work]; try done; [by eapply others_kept_trans|].
    eapply works_split; [exact Hw|]. by eapply turn_works.
  - split; cbn [sh_events sh_db sh_work]; try done. eapply works_split; [exact Hw|].
    destruct (project es) as [p|] eqn:Hp; [|constructor]. constructor; [|constructor]. exists es, []. by rewrite app_nil_r.
  - destruct (work_of _ _ _ _ Hw) as (pre & post & Ees & Hp). subst es.
    pose proof (thread_events_app _ _ _ Hte) as Hte1. pose proof (indexable_prefix _ _ (proj1 Hfit)) as Hix.
    destruct (index_replace_shows tid pre p db Hte1 Hix Hp _ _ Hr) as [_ Hres].
    assert (Hboth : honest db' tid (pre ++ post) /\ others_kept tid db db').
    { destruct r as [u|err].
      - destruct Hres as [Hs Ho']. split; [|done]. by apply honest_app, shows_honest.
      - destruct Hres as (_ & _ & Hsame). split; [by eapply honest_same|by apply others_kept_of_same]. }
    destruct Hboth as [Hh' Ho']. split; cbn [sh_events sh_db sh_work]; try done; [by eapply others_kept_trans|].
    exact (works_split _ _ _ _ [] Hw (list.Forall_nil_2 _)).
Qed.

Lemma shared_reachable_inv start s s' : shared_inv start s -> rtc shared_step s s' -> shared_inv start s'.
Proof. intros Hi Hs. induction Hs as [|s s1 s2 Hstep _ IH]; [done|]. by apply IH, (shared_step_inv start s). Qed.

(** ** One call at a time *)

(** What [execute] does on the index is a sequence of these steps. *)
Lemma apply_all_steps fuel es db events db' r before after :
  events <> [] -> (length events <= fuel)%nat -> apply_loop fuel events db = (db', r) ->
  rtc shared_step {| sh_events := es; sh_db := db; sh_work := before ++ Applying events :: after |}
    {| sh_events := es; sh_db := db';
       sh_work := before ++ match r with Ok false => [Synchronizing] | _ => [] end ++ after |}.
Proof.
  revert events db. induction fuel as [|fuel IH]; intros events db Hne Hf Hr; [by destruct events; cbn in Hf; [|lia]|].
  rewrite apply_loop_turns in Hr. destruct (apply_turn events db) as [db1 left] eqn:Et.
  pose proof (step_turn es db db1 before events after left Et) as Hstep.
  unfold mbind, M_bind in Hr. rewrite Et in Hr. destruct left as [[rest|]|err].
  - destruct rest as [|e rest].
    + eapply rtc_l; [exact Hstep|]. assert (E : (db1, Ok true) = (db', r)) by (by destruct fuel).
      injection E as <- <-. apply rtc_refl.
    + eapply rtc_l; [exact Hstep|]. apply IH; [done| |exact Hr].
      destruct events as [|e0 events]; [done|]. cbn [length] in Hf. apply (apply_turn_shorter e0 events) in Et. lia.
  - injection Hr as <- <-. eapply rtc_l; [exact Hstep|apply rtc_refl].
  - injection Hr as <- <-. eapply rtc_l; [exact Hstep|apply rtc_refl].
Qed.

End Interleaving.
