(* ===== verification/Store.v ===== *)
(** The thread store (thread-store: store.rs): opening a thread brings journal,
    fold and index together again; prepared projections, summaries, and the
    administrative commands.  The calls below are about one thread; [Disk] is
    its journal directory. *)

From S2P Require Import Prelude Canonical Events Commands Receipts Format CommandIndex Disk Model Recovery Journal.
From S2P Require Import Projection ThreadIndex LiveThread.

Open Scope string_scope.
Open Scope list_scope.
Open Scope Z_scope.

(** * Data *)

Inductive ModelContextFoldCoverage := Complete | Checkpointed | CheckpointInvalidated.

#[export] Instance coverage_eq_dec : EqDecision ModelContextFoldCoverage.
Proof. solve_decision. Defined.

Definition requires_complete_replay (coverage : ModelContextFoldCoverage) : bool :=
  match coverage with CheckpointInvalidated => true | _ => false end.

Definition model_context_fold_coverage (opened recovered : option ThreadRevision) : ModelContextFoldCoverage :=
  match opened with
  | None => Complete
  | Some opened =>
      if match recovered with Some current => rev opened <=? rev current | None => false end
      then Checkpointed else CheckpointInvalidated
  end.

Record RecoveredThreadState := {
  rt_summary : ThreadSummary;
  rt_next_agent_event_sequence : u64
}.

(** [ThreadOpenIndex]: the projection a restore starts from, borrowed. *)
Abbreviation ThreadOpenIndex := (option ThreadIndexProjection).

Definition open_model_context_checkpoint (index : ThreadOpenIndex) : option ThreadRevision :=
  projection ← index; pr_model_context_checkpoint projection.

Definition open_transcript_total_turns (index : ThreadOpenIndex) : option u64 :=
  (fun projection => ti_total_turns (pr_transcript_index projection)) <$> index.

Definition open_transcript_plan_from (index : ThreadOpenIndex) (first_turn : u64) : option TranscriptScanPlan :=
  projection ← index; plan_from (pr_transcript_index projection) first_turn.

Record PreparedThreadProjection := {
  pt_store_root : string;
  pt_thread_id : ThreadId;
  pt_projection : ThreadIndexProjection
}.

Record PreparedThreadFold := {
  pf_summary : ThreadSummary;
  pf_model_context_coverage : ModelContextFoldCoverage
}.

Definition next_sequence_after (last : u64) : u64 := u64_max (u64_saturating_add last 1) (u64_of 1).

Section Store.
Context `{External, JsonCodec, Sqlite}.

Definition open_dynamic_tools_match (index : ThreadOpenIndex) (tools : ContentRef) : bool :=
  match index with Some projection => dynamic_tools_match tools projection | None => false end.

(** A store is its root directory; its calls run over the journal directory of
    the thread they are about and the index. *)
Abbreviation store_io := (M (Disk * Db) ThreadStoreError).

Definition in_journal {A} (m : M Disk JournalError A) : store_io A := fun '(d, db) =>
  let (d, r) := m d in ((d, db), map_err Journal r).

Definition in_index {A} (m : M Db ThreadStoreError A) : store_io A := fun '(d, db) =>
  let (db, r) := m db in ((d, db), r).

(** [m] with the journal dropped when it fails. *)
Definition or_drop {A} (journal : ThreadJournal) (m : store_io A) : store_io A :=
  result ← outcome m;
  match result with
  | Ok a => mret a
  | Err e => _ ← modify (fun '(d, db) => (drop_journal journal d, db)); throw e
  end.

(** Calls on an open thread, which is dropped at their end. *)
Definition with_thread {A} (thread : LiveThreadStore)
    (m : M (LiveThreadStore * Disk * Db) ThreadStoreError A) : store_io A := fun '(d, db) =>
  let '((thread, d, db), r) := m (thread, d, db) in ((drop_journal (lt_journal thread) d, db), r).

Definition store_writer_is_busy (process : nat) (root : string) : store_io bool :=
  in_journal (writer_is_busy process (journal_config_new root)).

(** ** Opening *)

Definition rebuild_index (journal : ThreadJournal) : M Disk JournalError ThreadIndexAccumulator :=
  let head := head_revision (tj_head journal) in
  if bool_decide (head = REVISION_ZERO) then mret AwaitingCreation
  else
    range ← of_result (range_inclusive (revision_of 1) head);
    fold_range range AwaitingCreation accumulator_push journal.

Definition session_metadata_of (recovered_index : option ThreadIndexProjection) : ThreadSessionMetadataState :=
  match recovered_index with
  | None => {| ms_name := None; ms_model := None; ms_model_provider := None;
               ms_reasoning_effort := None; ms_dynamic_tools_digest := None |}
  | Some p => {| ms_name := su_name (pr_summary p); ms_model := su_model (pr_summary p);
                 ms_model_provider := su_model_provider (pr_summary p);
                 ms_reasoning_effort := su_reasoning_effort (pr_summary p);
                 ms_dynamic_tools_digest := pr_dynamic_tools_digest p |}
  end.

(** The write that brings the index to the recovered projection. *)
Definition repair_index (thread_id : ThreadId) (indexed_revision : option ThreadRevision)
    (recovered_index : option ThreadIndexProjection) : M Db ThreadStoreError unit :=
  match recovered_index with
  | Some projection =>
      if negb (bool_decide (indexed_revision = Some (su_revision (pr_summary projection))))
      then index_synchronize projection else mret tt
  | None => match indexed_revision with Some _ => index_remove thread_id | None => mret tt end
  end.

(** The journal and the recovered fold, with the index projection rebuilt when
    it is ahead of the journal. *)
Definition recover_index (journal : ThreadJournal) (index : ThreadIndexAccumulator)
    : M Disk JournalError ThreadIndexAccumulator :=
  match accumulator_revision index with
  | Some revision =>
      if rev (head_revision (tj_head journal)) <? rev revision then rebuild_index journal else mret index
  | None => mret index
  end.

Definition open_thread_and_fold_with_projection {St} (process : nat) (root : string) (thread_id : ThreadId)
    (indexed : option ThreadIndexProjection) (initialize : ThreadOpenIndex -> St)
    (fold : St -> ThreadEventEnvelope -> St)
    : store_io (LiveThreadStore * St * ModelContextFoldCoverage * option RecoveredThreadState) :=
  let indexed_revision := (fun p => su_revision (pr_summary p)) <$> indexed in
  let opened_checkpoint := open_model_context_checkpoint indexed in
  let state := initialize indexed in
  let index := match indexed with Some p => Projected p | None => AwaitingCreation end in
  '(journal, (index, state)) ← in_journal
    (open_and_fold process (journal_config_new root) thread_id (index, state)
       (fun '(index, state) event => (accumulator_push index event, fold state event)));
  index ← or_drop journal (in_journal (recover_index journal index));
  let recovered_index := accumulator_finish index in
  let recovered_checkpoint := (projection ← recovered_index; pr_model_context_checkpoint projection) in
  let coverage := model_context_fold_coverage opened_checkpoint recovered_checkpoint in
  _ ← or_drop journal (in_index (repair_index thread_id indexed_revision recovered_index));
  let thread := {| lt_thread_id := thread_id; lt_journal := journal;
                   lt_session_metadata := session_metadata_of recovered_index |} in
  let summary := (fun p => {| rt_summary := pr_summary p;
                              rt_next_agent_event_sequence := next_sequence_after (pr_last_agent_sequence p) |})
                   <$> recovered_index in
  mret (thread, state, coverage, summary).

Definition open_thread_and_fold {St} (process : nat) (root : string) (thread_id : ThreadId)
    (initialize : ThreadOpenIndex -> St) (fold : St -> ThreadEventEnvelope -> St)
    : store_io (LiveThreadStore * St * ModelContextFoldCoverage) :=
  indexed ← in_index (read_projection thread_id);
  '(thread, state, coverage, _) ←
    open_thread_and_fold_with_projection process root thread_id indexed initialize fold;
  mret (thread, state, coverage).

Definition open_thread (process : nat) (root : string) (thread_id : ThreadId) : store_io LiveThreadStore :=
  '(thread, _, _) ← open_thread_and_fold process root thread_id (fun _ => tt) (fun _ _ => tt);
  mret thread.

(** ** Reading without opening; [exists_] is what [thread_exists] answered *)

Definition fold_existing_thread_events {St} (root : string) (thread_id : ThreadId) (state : St)
    (fold : St -> ThreadEventEnvelope -> St) : store_io St :=
  in_journal (consume_snapshot (journal_config_new root) thread_id state fold).

Definition fold_thread_events {St} (root : string) (thread_id : ThreadId) (exists_ : bool) (state : St)
    (fold : St -> ThreadEventEnvelope -> St) : store_io (option St) :=
  if negb exists_ then mret None
  else state ← fold_existing_thread_events root thread_id state fold; mret (Some state).

Definition rebuild_projection (root : string) (thread_id : ThreadId) : store_io (option ThreadIndexProjection) :=
  accumulator ← fold_existing_thread_events root thread_id AwaitingCreation accumulator_push;
  match accumulator_finish accumulator with
  | None => mret None
  | Some projection => _ ← in_index (index_replace projection); mret (Some projection)
  end.

Definition read_summary (root : string) (thread_id : ThreadId) (exists_ : bool) : store_io (option ThreadSummary) :=
  if negb exists_ then mret None
  else
    summary ← in_index (index_read_summary thread_id);
    match summary with
    | Some summary => mret (Some summary)
    | None => projection ← rebuild_projection root thread_id; mret (pr_summary <$> projection)
    end.

Definition prepare_thread_projection (root : string) (thread_id : ThreadId) (exists_ : bool)
    : store_io (option PreparedThreadProjection) :=
  if negb exists_ then mret None
  else
    indexed ← in_index (read_projection thread_id);
    projection ← match indexed with
                 | Some projection => mret (Some projection)
                 | None => rebuild_projection root thread_id
                 end;
    mret ((fun projection => {| pt_store_root := root; pt_thread_id := thread_id; pt_projection := projection |})
            <$> projection).

Definition ensure_prepared_root (root prepared_root : string) : result ThreadStoreError unit :=
  ensure (bool_decide (prepared_root = root)) (Worker "prepared thread belongs to a different ThreadStore").

Definition fold_prepared_thread_events {St} (root : string) (prepared : PreparedThreadProjection) (state : St)
    (fold : St -> ThreadEventEnvelope -> St) : store_io (St * PreparedThreadFold) :=
  _ ← of_result (ensure_prepared_root root (pt_store_root prepared));
  let prepared_revision := su_revision (pr_summary (pt_projection prepared)) in
  let prepared_checkpoint := pr_model_context_checkpoint (pt_projection prepared) in
  '(state, index, last_seen) ← fold_existing_thread_events root (pt_thread_id prepared)
    (state, Projected (pt_projection prepared), REVISION_ZERO)
    (fun '(state, index, _) event => (fold state event, accumulator_push index event, ev_revision event));
  _ ← guard_m (negb (rev last_seen <? rev prepared_revision))
        (PreparedProjectionAhead (revision_get prepared_revision) (revision_get last_seen));
  projection ← of_result (ok_or (accumulator_finish index) ThreadNotCreated);
  _ ← (if negb (bool_decide (su_revision (pr_summary projection) = prepared_revision))
       then in_index (index_synchronize projection) else mret tt);
  let coverage := model_context_fold_coverage prepared_checkpoint (pr_model_context_checkpoint projection) in
  mret (state, {| pf_summary := pr_summary projection; pf_model_context_coverage := coverage |}).

Definition open_prepared_thread_and_fold {St} (process : nat) (root : string) (prepared : PreparedThreadProjection)
    (initialize : ThreadOpenIndex -> St) (fold : St -> ThreadEventEnvelope -> St)
    : store_io (LiveThreadStore * St * ModelContextFoldCoverage * RecoveredThreadState) :=
  _ ← of_result (ensure_prepared_root root (pt_store_root prepared));
  '(thread, state, coverage, summary) ← open_thread_and_fold_with_projection process root
    (pt_thread_id prepared) (Some (pt_projection prepared)) initialize fold;
  match summary with
  | Some summary => mret (thread, state, coverage, summary)
  | None => _ ← modify (fun '(d, db) => (drop_journal (lt_journal thread) d, db)); throw ThreadNotCreated
  end.

(** ** Administrative commands *)

Definition run_command (process : nat) (root : string) (thread_id : ThreadId) (draws : Draws)
    (command : ThreadCommand) : store_io unit :=
  thread ← open_thread process root thread_id;
  with_thread thread (_ ← execute draws ActorUser None command CommitDurable; mret tt).

Definition set_archived (process : nat) (root : string) (thread_id : ThreadId) (draws : Draws) (archived : bool)
    : store_io unit := run_command process root thread_id draws (SetArchived archived).

Definition set_name (process : nat) (root : string) (thread_id : ThreadId) (draws : Draws) (name : option string)
    : store_io unit := run_command process root thread_id draws (SetName name).

Definition rollback (process : nat) (root : string) (thread_id : ThreadId) (draws : Draws)
    (to_revision : ThreadRevision) (reason : string) : store_io unit :=
  thread ← open_thread process root thread_id;
  with_thread thread
    (head ← live_head;
     let from_revision := head_revision head in
     _ ← guard_m (negb (rev from_revision <? rev to_revision)) (RevisionNotFound (revision_get to_revision));
     _ ← execute draws ActorUser None (MoveTranscriptHead from_revision to_revision reason) CommitDurable;
     mret tt).

End Store.
