(* ===== verification/StoreFacts.v ===== *)
(** What opening a thread establishes: whatever the index held of the thread, a
    fold resumed from it is the fold of the whole journal, and the index shows
    the journal again. *)

From S2P Require Import Prelude Canonical Events Commands Receipts Format FormatFacts CommandIndex Disk Model Recovery JournalSpec.
From S2P Require Import RecoveryFacts Journal JournalFacts AppendFacts CrashFacts RangeFacts Projection ProjectionFacts ThreadIndex IndexFacts IndexReads.
From S2P Require Import OpenFacts Service LiveThread LiveFacts Store.

Open Scope string_scope.
Open Scope list_scope.
Open Scope Z_scope.

Lemma default_config_valid root : validate_config (journal_config_new root) = Ok tt.
Proof. vm_compute. reflexivity. Qed.

Lemma default_config_room root : frame_room (journal_config_new root).
Proof. vm_compute. done. Qed.

Lemma fold_left_pair {A B C} (f : A -> C -> A) (g : B -> C -> B) cs a b :
  fold_left (fun '(a, b) c => (f a c, g b c)) cs (a, b) = (fold_left f cs a, fold_left g cs b).
Proof. revert a b. induction cs as [|c cs IH]; intros a b; [done|]. cbn [fold_left]. apply IH. Qed.

Section Facts.
Context `{External, JsonCodec, SqliteLaws} (root : string) (tid : ThreadId).
Implicit Types (p : ThreadIndexProjection) (e : ThreadEventEnvelope) (es : list ThreadEventEnvelope) (db : Db).

Abbreviation cfg := (journal_config_new root).
Abbreviation thread_of p := (su_thread_id (pr_summary p)).

(** * The index before an opening *)

(** What the index shows of the thread belongs to a prefix of the journal, or to
    a journal that went further and lost its end. *)
Definition shows_some db es p : Prop :=
  exists es0, numbered 0 es0 /\ project es0 = Some p /\ thread_of p = tid /\ stored db p /\
    ((exists es2, es = es0 ++ es2) \/ len es < len es0).

Definition recoverable_index db es : Prop :=
  forall row, found db tid = Some row -> exists p, shows_some db es p.

(** What was read of the index. *)
Definition indexed_ok db es (indexed : option ThreadIndexProjection) : Prop :=
  match indexed with
  | None => found db tid = None
  | Some q => exists p, q ≡ p /\ shows_some db es p
  end.

Lemma found_current db row : found db tid = Some row -> db_rows db !! tid = Some row /\ is_current row = true.
Proof.
  unfold found. destruct (db_rows db !! tid) as [r|]; [|done]. cbn. destruct (is_current r) eqn:E; [|done].
  by intros [= <-].
Qed.

Lemma honest_recoverable db es : numbered 0 es -> honest db tid es -> recoverable_index db es.
Proof.
  intros Hn Hh row Hrow. apply found_current in Hrow as [Hr Hc].
  destruct (Hh row Hr Hc) as (es1 & es2 & p & -> & Hp & Ht & Hs). exists p, es1.
  apply numbered_split in Hn as [Hn _]. do 4 (split; [done|]). left. by exists es2.
Qed.

Lemma stored_row db p : stored db p -> thread_of p = tid ->
  exists row, found db tid = Some row /\ val (ro_revision row) = rev (su_revision (pr_summary p)).
Proof.
  intros Hs Ht. destruct (found_stored db tid p Hs Ht) as (row & Hf & Hrow). exists row.
  split; [done|]. apply (rw_revision _ _ Hrow).
Qed.

Lemma read_projection_indexed db es :
  recoverable_index db es ->
  atomic db (read_projection tid) (fun indexed db' => same_tables db db' /\ indexed_ok db es indexed).
Proof.
  intros Hri. destruct (found db tid) as [row|] eqn:Ef.
  - destruct (Hri row Ef) as (p & es0 & Hn & Hp & Ht & Hs & Hes).
    eapply atomic_mono; [apply (read_projection_runs db tid es0 Hn)|].
    { rewrite <- (app_nil_r es0). by apply (stored_honest db p). }
    intros [q|] db' [Hsame Hq]; [|by rewrite Ef in Hq]. split; [done|].
    destruct Hq as (es1 & es2 & p1 & E & Hp1 & Ht1 & Hs1 & Hq & _). exists p1. split; [done|].
    destruct (stored_row db p Hs Ht) as (r0 & Hr0 & E0). destruct (stored_row db p1 Hs1 Ht1) as (r1 & Hr1 & E1).
    rewrite Hr0 in Hr1. injection Hr1 as <-. pose proof Hn as Hn'. rewrite E in Hn'. apply numbered_split in Hn' as [Hn1 _].
    rewrite (project_revision _ _ Hn Hp) in E0. rewrite (project_revision _ _ Hn1 Hp1), E0, E, length_app in E1.
    destruct es2; [|cbn [length] in E1; lia]. rewrite app_nil_r in E. subst es1. by exists es0.
  - eapply atomic_mono; [apply (read_projection_runs db tid [])|].
    { by intros k e. }
    { intros row Hr Hc. exfalso. unfold found in Ef. rewrite Hr in Ef. cbn in Ef. by rewrite Hc in Ef. }
    intros [q|] db' [Hsame Hq]; [|done]. by destruct Hq as (? & ? & ? & _ & _ & _ & _ & _ & Hq).
Qed.

(** * The fold resumed from the index *)

#[local] Instance storable_proper : Proper ((≡) ==> iff) storable.
Proof.
  assert (Hdir : forall p q, p ≡ q -> storable p -> storable q).
  { intros p q [E F] []. destruct p as [[] ? ? ? ? []], q as [[] ? ? ? ? []]. cbn in *.
    injection E. intros. subst. by split. }
  intros p q E. split; apply Hdir; [done|by symmetry].
Qed.

Lemma equiv_checkpoints p q : p ≡ q -> ti_checkpoints (pr_transcript_index p) = ti_checkpoints (pr_transcript_index q).
Proof. intros [E _]. by apply (f_equal (fun p => ti_checkpoints (pr_transcript_index p))) in E. Qed.

(** Folding the whole journal again from what was read. *)
Lemma accumulate_indexed q p es0 es2 :
  numbered 0 (es0 ++ es2) -> project es0 = Some p -> q ≡ p ->
  exists q', accumulate (es0 ++ es2) (Projected q) = Projected q' /\ q' ≡ project_all es2 p.
Proof.
  intros Hn Hp Hq. pose proof (numbered_split _ _ _ Hn) as [Hn0 Hn2].
  assert (Hr : rev (su_revision (pr_summary q)) = len es0) by (rewrite (equiv_summary _ _ Hq); by apply project_revision).
  rewrite accumulate_app, (accumulate_old 0) by (try done; lia).
  rewrite (accumulate_new (len es0)) by done. exists (project_all es2 q). split; [done|]. by rewrite Hq.
Qed.

(** A fold from an index that is ahead changes nothing. *)
Lemma accumulate_ahead q es :
  numbered 0 es -> len es < rev (su_revision (pr_summary q)) -> accumulate es (Projected q) = Projected q.
Proof. intros Hn Hl. apply (accumulate_old 0); [done|lia]. Qed.

(** What [recover_index] makes of the fold. *)
Lemma recover_index_run j layout d a :
  healthy d -> journal_inv cfg tid j layout d ->
  recover_index j a d = (d, Ok (match accumulator_revision a with
                                | Some r => if len (layout_events layout) <? rev r
                                            then accumulate (layout_events layout) AwaitingCreation else a
                                | None => a
                                end)).
Proof.
  intros Hd Hj. unfold recover_index. destruct (accumulator_revision a) as [r|]; [|done].
  pose proof (ji_layout _ _ _ _ _ Hj) as Hok.
  assert (Hh : rev (head_revision (tj_head j)) = len (layout_events layout)).
  { rewrite (ji_head _ _ _ _ _ Hj), (layout_end _ _ _ _ _ Hok). change (rev (head_revision HEAD_EMPTY)) with 0. lia. }
  rewrite Hh. destruct (Z.ltb_spec (len (layout_events layout)) (rev r)) as [Hlt|]; [|done]. unfold rebuild_index.
  destruct (bool_decide_reflect (head_revision (tj_head j) = REVISION_ZERO)) as [E|Hne].
  { rewrite E in Hh. change (rev REVISION_ZERO) with 0 in Hh. by destruct (layout_events layout). }
  assert (Hpos : 1 <= rev (head_revision (tj_head j))).
  { pose proof (rev_bounds (head_revision (tj_head j))).
    assert (rev (head_revision (tj_head j)) <> 0) by (intros E; apply Hne, rev_inj; done). lia. }
  assert (Hone : rev (revision_of 1) = 1) by (by apply rev_of_small).
  assert (Hr : range_inclusive (revision_of 1) (head_revision (tj_head j))
               = Ok {| range_start := revision_of 1; range_end_inclusive := head_revision (tj_head j) |}).
  { unfold range_inclusive. rewrite bool_decide_eq_false_2 by done. cbn [negb].
    rewrite (proj2 (Z.ltb_ge _ _)) by lia. done. }
  rewrite Hr. erewrite M_bind_run by reflexivity. unfold fold_range.
  rewrite (ji_config _ _ _ _ _ Hj), (ji_thread _ _ _ _ _ Hj), (ji_segments _ _ _ _ _ Hj).
  rewrite (ji_head _ _ _ _ _ Hj) in *.
  rewrite (visit_range_run cfg tid) by (first [done | apply (ji_dir _ _ _ _ _ Hj) | split; cbn; lia | cbn; lia]).
  do 2 f_equal. unfold range_events. cbn [range_start range_end_inclusive]. rewrite Hone, Hh, Z.sub_diag. rewrite Z2Nat.inj_0, drop_0.
  rewrite firstn_all2 by lia. done.
Qed.

(** ** Repairing the index *)

(** The recovered fold and the journal's own. *)
Definition recovers (a : ThreadIndexAccumulator) es : Prop :=
  match project es with
  | Some p => exists q, accumulator_finish a = Some q /\ q ≡ p
  | None => accumulator_finish a = None
  end.

Lemma recovers_self es : recovers (accumulate es AwaitingCreation) es.
Proof. unfold recovers, project. destruct (accumulator_finish _) as [p|]; [by exists p|done]. Qed.

(** The accumulator after the recovery fold and [recover_index]. *)
Definition recovered (indexed : option ThreadIndexProjection) es : ThreadIndexAccumulator :=
  let a := accumulate es (match indexed with Some p => Projected p | None => AwaitingCreation end) in
  match accumulator_revision a with
  | Some r => if len es <? rev r then accumulate es AwaitingCreation else a
  | None => a
  end.

Lemma recovered_recovers db es indexed :
  numbered 0 es -> indexed_ok db es indexed -> recovers (recovered indexed es) es.
Proof.
  intros Hn Hi. unfold recovered. destruct indexed as [q|].
  - destruct Hi as (p & Hq & es0 & Hn0 & Hp & _ & _ & [[es2 ->]|Hlt]).
    + destruct (accumulate_indexed q p es0 es2 Hn Hp Hq) as (q' & -> & Hq'). cbn [accumulator_revision].
      pose proof (project_app es0 es2 p Hn Hp) as Hpe. pose proof (project_revision _ _ Hn Hpe) as Hr.
      rewrite (equiv_summary _ _ Hq'), (proj2 (Z.ltb_ge _ _)) by lia. unfold recovers. rewrite Hpe. by exists q'.
    + assert (Hr : rev (su_revision (pr_summary q)) = len es0) by (rewrite (equiv_summary _ _ Hq); by apply project_revision).
      rewrite (accumulate_ahead q es) by (try done; lia). cbn [accumulator_revision].
      rewrite (proj2 (Z.ltb_lt _ _)) by lia. apply recovers_self.
  - destruct (accumulator_revision (accumulate es AwaitingCreation)) as [r|]; [|apply recovers_self].
    destruct (len es <? rev r); apply recovers_self.
Qed.

Lemma indexed_recoverable db es indexed : indexed_ok db es indexed -> recoverable_index db es.
Proof.
  intros Hi row Hrow. destruct indexed as [q|]; [destruct Hi as (p & _ & Hs); by exists p|]. cbn in Hi.
  by rewrite Hrow in Hi.
Qed.

(** A current row at the journal's revision holds the journal's projection. *)
Lemma recoverable_head db es p row :
  numbered 0 es -> recoverable_index db es -> project es = Some p ->
  found db tid = Some row -> val (ro_revision row) = len es -> stored db p.
Proof.
  intros Hn Hri Hp Hrow Hrev. destruct (Hri row Hrow) as (p0 & es0 & Hn0 & Hp0 & Ht0 & Hs0 & Hes).
  destruct (stored_row db p0 Hs0 Ht0) as (row0 & Hf0 & Hrev0). rewrite Hrow in Hf0. injection Hf0 as <-.
  rewrite (project_revision _ _ Hn0 Hp0), Hrev in Hrev0. destruct Hes as [[es2 E]|Hlt]; [|lia].
  destruct es2; [|rewrite E, length_app in Hrev0; cbn [length] in Hrev0; lia].
  rewrite app_nil_r in E. subst es0. rewrite Hp in Hp0. by injection Hp0 as ->.
Qed.

(** Synchronizing with the recovered projection brings the index to the journal. *)
Lemma synchronize_shows db es p q :
  thread_events tid es -> indexable es -> recoverable_index db es -> project es = Some p -> q ≡ p ->
  atomic db (index_synchronize q) (fun _ db' => shows db' tid es /\ others_kept tid db db').
Proof.
  intros Hte Hix Hri Hp Hq. pose proof (te_numbered _ _ Hte) as Hn. unfold shows. rewrite Hp.
  pose proof (project_prefix_thread _ _ _ Hte Hp) as Ht. destruct (project_storable _ _ Hix Hp) as [Hs Hcs].
  pose proof (project_revision _ _ Hn Hp) as Hr. pose proof (equiv_summary _ _ Hq) as Es.
  eapply atomic_mono; [apply write_projection_atomic|].
  - by rewrite Hq.
  - by rewrite (equiv_checkpoints _ _ Hq).
  - intros _ old Hold Hc Hrev. rewrite Es, Ht in Hold. rewrite Es, Hr in Hrev.
    assert (Hf : found db tid = Some old) by (unfold found; rewrite Hold; cbn; by rewrite Hc).
    pose proof (recoverable_head db es p old Hn Hri Hp Hf Hrev) as Hst. rewrite <- Hq in Hst.
    destruct Hst as [(row & Hrow & Hro) _]. rewrite Es, Ht, Hold in Hrow. by injection Hrow as ->.
  - intros _ db' [Hst Ho]. rewrite Es, Ht in Ho. split; [|done]. split; [done|]. by rewrite <- Hq.
Qed.

(** [repair_index] brings the index to the journal. *)
Lemma repair_index_runs db es indexed a :
  thread_events tid es -> indexable es -> indexed_ok db es indexed -> recovers a es ->
  atomic db (repair_index tid ((fun p => su_revision (pr_summary p)) <$> indexed) (accumulator_finish a))
    (fun _ db' => shows db' tid es /\ others_kept tid db db').
Proof.
  intros Hte Hix Hi Ha. pose proof (te_numbered _ _ Hte) as Hn. pose proof (indexed_recoverable _ _ _ Hi) as Hri.
  unfold repair_index, recovers in *. destruct (project es) as [p|] eqn:Ep.
  - destruct Ha as (q & -> & Hq). pose proof (project_revision _ _ Hn Ep) as Hr.
    destruct (bool_decide_reflect (((fun p => su_revision (pr_summary p)) <$> indexed) = Some (su_revision (pr_summary q)))) as [Erev|Erev];
      cbn [negb]; [|by apply (synchronize_shows db es p)].
    intros d' r [= <- <-]. split; [done|]. split; [|by apply others_kept_of_same]. unfold shows. rewrite Ep.
    split; [by eapply project_prefix_thread|]. destruct indexed as [q0|]; [|done]. cbn in Erev. injection Erev as Erev.
    destruct Hi as (p0 & Hq0 & es0 & Hn0 & Hp0 & Ht0 & Hs0 & Hes).
    destruct (stored_row db p0 Hs0 Ht0) as (row0 & Hf0 & Hrev0). apply (recoverable_head db es p row0); try done.
    rewrite Hrev0, <- (equiv_summary _ _ Hq0), Erev, (equiv_summary _ _ Hq). done.
  - rewrite Ha. unfold shows. rewrite Ep. destruct indexed as [q0|]; cbn [fmap option_fmap option_map].
    + unfold index_remove. eapply atomic_mono;
        [apply atomic_statement; intros d' r E; exact (sql_delete_law _ _ _ _ E)|].
      intros _ db' [Er Ec]. cbn beta in *. split.
      * intros row Hrow. by rewrite Er, lookup_delete_eq in Hrow.
      * intros t' Hne. rewrite Er, Ec, lookup_delete_ne, bool_decide_eq_false_2 by done. done.
    + intros d' r [= <- <-]. split; [done|]. split; [|by apply others_kept_of_same].
      intros row Hrow. cbn in Hi. unfold found in Hi. rewrite Hrow in Hi. cbn in Hi. by destruct (is_current row).
Qed.

(** * Opening *)

(** Nobody has the journal open, and its files hold the layout, with at most
    what a crash left after it. *)
Record closed (process : nat) (layout : Layout) (d : Disk) : Prop := {
  cl_healthy : healthy d;
  cl_writers : process ∉ d_writers d;
  cl_lock : d_lock_held d = false;
  cl_layout : layout_ok cfg tid 0 HEAD_EMPTY layout;
  cl_distinct : distinct_commands layout;
  cl_disk : crashed cfg tid layout d;
  cl_length : len layout + 1 < 2 ^ 64;
  cl_events : thread_events tid (layout_events layout)
}.

(** The value a successful opening returns. *)
Definition opened_value {St} (process : nat) (layout : Layout) (indexed : option ThreadIndexProjection) (initialize : ThreadOpenIndex -> St)
    (fold : St -> ThreadEventEnvelope -> St) (d' : Disk)
    (v : LiveThreadStore * St * ModelContextFoldCoverage * option RecoveredThreadState) : Prop :=
  let '(thread, state, coverage, summary) := v in
  let es := layout_events layout in
  live_inv cfg tid layout thread d' /\
  (tj_process (lt_journal thread) = process /\ tj_dirty_batch_count (lt_journal thread) = u64_zero) /\
  lt_session_metadata thread = session_metadata_of (project es) /\
  state = fold_left fold es (initialize indexed) /\
  coverage = model_context_fold_coverage (open_model_context_checkpoint indexed)
               (projection ← project es; pr_model_context_checkpoint projection) /\
  summary = (fun p => {| rt_summary := pr_summary p;
                         rt_next_agent_event_sequence := next_sequence_after (pr_last_agent_sequence p) |}) <$> project es.

Lemma recovers_checkpoint a es : recovers a es ->
  (projection ← accumulator_finish a; pr_model_context_checkpoint projection)
    = (projection ← project es; pr_model_context_checkpoint projection) /\
  session_metadata_of (accumulator_finish a) = session_metadata_of (project es) /\
  (fun p => {| rt_summary := pr_summary p;
               rt_next_agent_event_sequence := next_sequence_after (pr_last_agent_sequence p) |}) <$> accumulator_finish a
    = (fun p => {| rt_summary := pr_summary p;
                   rt_next_agent_event_sequence := next_sequence_after (pr_last_agent_sequence p) |}) <$> project es.
Proof.
  unfold recovers. destruct (project es) as [p|]; [|by intros ->]. intros (q & -> & Hq). cbn.
  destruct Hq as [E _]. pose proof (f_equal pr_summary E) as E1. pose proof (f_equal pr_model_context_checkpoint E) as E2.
  pose proof (f_equal pr_last_agent_sequence E) as E3. pose proof (f_equal pr_dynamic_tools_digest E) as E4.
  cbn in *. by rewrite E1, E2, E3, E4.
Qed.

Lemma in_journal_run {A} (m : M Disk JournalError A) d db d' r :
  m d = (d', r) -> in_journal m (d, db) = ((d', db), map_err Journal r).
Proof. unfold in_journal. by intros ->. Qed.

Lemma in_index_run {A} (m : M Db ThreadStoreError A) d db db' r :
  m db = (db', r) -> in_index m (d, db) = ((d, db'), r).
Proof. unfold in_index. by intros ->. Qed.

(** Opening with a projection of the thread: the fold covers the whole journal,
    and the index shows it, or the journal is closed again. *)
Lemma open_with_projection_run {St} process indexed (initialize : ThreadOpenIndex -> St) fold layout d db :
  closed process layout d -> indexable (layout_events layout) -> indexed_ok db (layout_events layout) indexed ->
  exists d' db' r,
    open_thread_and_fold_with_projection process root tid indexed initialize fold (d, db) = ((d', db'), r) /\
    (db_works db -> db_works db') /\
    match r with
    | Ok v => opened_value process layout indexed initialize fold d' v /\ shows db' tid (layout_events layout) /\
              others_kept tid db db'
    | Err err => (exists s, err = Index s) /\ ~ db_works db /\ same_tables db db' /\
                 d_lock_held d' = false /\ process ∉ d_writers d'
    end.
Proof.
  intros [Hd Hw Hl Hok Hdist Hcr Hlen Hte] Hix Hi. pose proof (te_numbered _ _ Hte) as Hn.
  set (es := layout_events layout) in *.
  set (a0 := match indexed with Some p => Projected p | None => AwaitingCreation end).
  destruct (open_run cfg tid process (fun '(index, state) event => (accumulator_push index event, fold state event))
              (a0, initialize indexed) layout d Hd (default_config_valid root) Hw Hl Hok Hdist Hcr Hlen)
    as (j & d1 & Hopen & Hj & Hd1 & Hproc & _ & Hdirty).
  rewrite fold_left_pair in Hopen. fold es in Hopen. change (fold_left accumulator_push es a0) with (accumulate es a0) in Hopen.
  pose proof (recover_index_run j layout d1 (accumulate es a0) Hd1 Hj) as Hrec. fold es in Hrec.
  change (match accumulator_revision (accumulate es a0) with
          | Some r => if len es <? rev r then accumulate es AwaitingCreation else accumulate es a0
          | None => accumulate es a0 end) with (recovered indexed es) in Hrec.
  pose proof (recovered_recovers db es indexed Hn Hi) as Hrecovers.
  destruct (repair_index tid ((fun p => su_revision (pr_summary p)) <$> indexed) (accumulator_finish (recovered indexed es)) db)
    as [db' r] eqn:Erep.
  pose proof (repair_index_runs db es indexed _ Hte Hix Hi Hrecovers _ _ Erep) as [Hworks Hr].
  unfold open_thread_and_fold_with_projection. fold a0.
  erewrite M_bind_run by (rewrite (in_journal_run _ _ _ _ _ Hopen); reflexivity). cbn beta iota.
  erewrite M_bind_run; [|unfold or_drop; erewrite M_bind_run by
    (unfold outcome; rewrite (in_journal_run _ _ _ _ _ Hrec); reflexivity); reflexivity].
  destruct (recovers_checkpoint _ _ Hrecovers) as (Ec & Em & Es).
  destruct r as [u|err].
  - erewrite M_bind_run; [|unfold or_drop; erewrite M_bind_run by
      (unfold outcome; rewrite (in_index_run _ _ _ _ _ Erep); reflexivity); reflexivity].
    exists d1, db'. eexists. split; [reflexivity|]. split; [done|]. split; [|exact Hr].
    split; [by split|]. split; [done|]. split; [exact Em|]. split; [done|]. split; [by rewrite Ec|exact Es].
  - erewrite M_bind_fails; [|unfold or_drop; erewrite M_bind_run by
      (unfold outcome; rewrite (in_index_run _ _ _ _ _ Erep); reflexivity); reflexivity].
    exists (drop_journal j d1), db'. eexists. split; [reflexivity|]. split; [done|].
    destruct Hr as (Hs & Hnw & Hsame). do 3 (split; [done|]). split; [done|]. cbn. rewrite Hproc. set_solver.
Qed.

(** Opening reads the index first. *)
Lemma open_thread_and_fold_run {St} process (initialize : ThreadOpenIndex -> St) fold layout d db :
  closed process layout d -> indexable (layout_events layout) -> recoverable_index db (layout_events layout) ->
  exists d' db' r,
    open_thread_and_fold process root tid initialize fold (d, db) = ((d', db'), r) /\
    (db_works db -> db_works db') /\
    match r with
    | Ok (thread, state, coverage) =>
        exists indexed summary, indexed_ok db (layout_events layout) indexed /\
          opened_value process layout indexed initialize fold d' (thread, state, coverage, summary) /\
          shows db' tid (layout_events layout) /\ others_kept tid db db'
    | Err err => (exists s, err = Index s) /\ ~ db_works db /\ same_tables db db' /\
                 d_lock_held d' = false /\ process ∉ d_writers d'
    end.
Proof.
  intros Hcl Hix Hri. unfold open_thread_and_fold. destruct (read_projection tid db) as [db1 r1] eqn:Er.
  pose proof (read_projection_indexed db _ Hri _ _ Er) as [Hw1 Hr1]. destruct r1 as [indexed|err].
  - destruct Hr1 as [Hsame Hi].
    assert (Hi1 : indexed_ok db1 (layout_events layout) indexed).
    { destruct Hsame as [E1 E2]. destruct indexed as [q|]; cbn in *; [|unfold found in *; by rewrite E1].
      destruct Hi as (p & Hq & es0 & ? & ? & ? & Hst & ?). exists p. split; [done|]. exists es0.
      do 3 (split; [done|]). split; [by apply (stored_same db)|done]. }
    destruct (open_with_projection_run process indexed initialize fold layout d db1 Hcl Hix Hi1)
      as (d' & db' & r & Hrun & Hw2 & Hr).
    erewrite M_bind_run by exact (in_index_run _ d _ _ _ Er).
    destruct r as [[[[thread state] coverage] summary]|err].
    + erewrite M_bind_run by exact Hrun. exists d', db'. eexists. split; [reflexivity|]. split; [tauto|].
      destruct Hr as (Hv & Hs & Ho). exists indexed, summary. do 3 (split; [done|]).
      intros t' Ht. destruct (Ho t' Ht) as [-> ->]. destruct Hsame as [E1 E2]. by rewrite E1, E2.
    + erewrite M_bind_fails by exact Hrun. exists d', db'. eexists. split; [reflexivity|]. split; [tauto|].
      destruct Hr as (Hs & Hnw & Hsame' & Hl). split; [done|]. split; [tauto|]. split; [|done].
      by eapply same_tables_trans.
  - destruct Hr1 as (Hs & Hnw & Hsame). exists d, db1, (Err err). split; [|split; [done|]].
    + by erewrite M_bind_fails by exact (in_index_run _ d _ _ _ Er).
    + do 3 (split; [done|]). destruct Hcl. done.
Qed.

(** * Prepared projections *)

Lemma last_seen_fold es r : fold_left (fun _ e => ev_revision e) es r = default r (ev_revision <$> list.last es).
Proof.
  destruct (list_snoc_cases es) as [->|(es' & e & ->)]; [done|]. rewrite fold_left_app, last_snoc. done.
Qed.

Lemma fold_left_triple {St} (f : St -> ThreadEventEnvelope -> St) es st a r :
  fold_left (fun '(st, a, _) e => (f st e, accumulator_push a e, ev_revision e)) es (st, a, r)
    = (fold_left f es st, accumulate es a, default r (ev_revision <$> list.last es)).
Proof.
  rewrite <- last_seen_fold. unfold accumulate. revert st a r. induction es as [|e es IH]; intros st a r; [done|].
  cbn [fold_left]. by rewrite IH.
Qed.

Lemma last_revision es : numbered 0 es -> rev (default REVISION_ZERO (ev_revision <$> list.last es)) = len es.
Proof.
  destruct (list_snoc_cases es) as [->|(es' & e & ->)]; intros Hn; [done|]. rewrite last_snoc. cbn.
  rewrite (numbered_length_last _ _ _ Hn), length_app. cbn [length]. lia.
Qed.

(** A prepared projection is folded forward to the journal's and the index
    brought along, or refused when the journal has lost what it shows. *)
Lemma fold_prepared_run {St} q p es0 (state : St) fold process layout d db :
  closed process layout d -> indexable (layout_events layout) ->
  numbered 0 es0 -> project es0 = Some p -> thread_of p = tid -> q ≡ p ->
  let es := layout_events layout in
  let prepared := {| pt_store_root := root; pt_thread_id := tid; pt_projection := q |} in
  if len es <? len es0 then
    exists recovered, rev recovered = len es /\
      fold_prepared_thread_events root prepared state fold (d, db)
        = ((d, db), Err (PreparedProjectionAhead (revision_get (su_revision (pr_summary q))) (revision_get recovered)))
  else
    (exists es2, es = es0 ++ es2) -> recoverable_index db es ->
    exists db' r, fold_prepared_thread_events root prepared state fold (d, db) = ((d, db'), r) /\
      (db_works db -> db_works db') /\
      match r with
      | Ok (state', folded) =>
          state' = fold_left fold es state /\
          (fun p => pr_summary p) <$> project es = Some (pf_summary folded) /\
          pf_model_context_coverage folded = model_context_fold_coverage (pr_model_context_checkpoint p)
            (projection ← project es; pr_model_context_checkpoint projection) /\
          (len es0 < len es -> shows db' tid es)
      | Err err => (exists s, err = Index s) /\ ~ db_works db /\ same_tables db db'
      end.
Proof.
  intros Hcl Hix Hn0 Hp Ht Hq es prepared. pose proof Hcl as [Hd Hw Hl Hok Hdist Hcr Hlen Hte].
  pose proof (te_numbered _ _ Hte) as Hn. fold es in Hn, Hix.
  assert (Hr : rev (su_revision (pr_summary q)) = len es0) by (rewrite (equiv_summary _ _ Hq); by apply project_revision).
  pose proof (consume_snapshot_run cfg tid
    (fun '(st, a, _) e => (fold st e, accumulator_push a e, ev_revision e)) (state, Projected q, REVISION_ZERO)
    layout d Hd (default_config_valid root) Hok Hdist Hcr Hlen) as Hrun.
  rewrite fold_left_triple in Hrun. fold es in Hrun.
  assert (Hstart : fold_prepared_thread_events root prepared state fold (d, db)
            = (_ ← guard_m (negb (rev (default REVISION_ZERO (ev_revision <$> list.last es)) <? rev (su_revision (pr_summary q))))
                     (PreparedProjectionAhead (revision_get (su_revision (pr_summary q)))
                        (revision_get (default REVISION_ZERO (ev_revision <$> list.last es))));
               projection ← of_result (ok_or (accumulator_finish (accumulate es (Projected q))) ThreadNotCreated);
               _ ← (if negb (bool_decide (su_revision (pr_summary projection) = su_revision (pr_summary q)))
                    then in_index (index_synchronize projection) else mret tt);
               mret (fold_left fold es state,
                     {| pf_summary := pr_summary projection;
                        pf_model_context_coverage := model_context_fold_coverage (pr_model_context_checkpoint q)
                                                       (pr_model_context_checkpoint projection) |})) (d, db)).
  { unfold fold_prepared_thread_events. cbn [prepared pt_store_root pt_projection pt_thread_id]. unfold ensure_prepared_root.
    rewrite bool_decide_eq_true_2 by done. erewrite M_bind_run by reflexivity.
    erewrite M_bind_run by exact (in_journal_run _ d db _ _ Hrun). done. }
  rewrite Hstart, (last_revision es Hn), Hr. destruct (Z.ltb_spec (len es) (len es0)) as [Hlt|Hge].
  { exists (default REVISION_ZERO (ev_revision <$> list.last es)). split; [by apply last_revision|].
    by erewrite M_bind_fails by reflexivity. }
  intros [es2 Ees] Hri. erewrite M_bind_run by reflexivity.
  rewrite Ees in Hn. destruct (accumulate_indexed q p es0 es2 Hn Hp Hq) as (q' & Eacc & Hq').
  pose proof (project_app es0 es2 p Hn Hp) as Hpe. rewrite <- Ees in Eacc, Hpe, Hn. rewrite Eacc.
  erewrite M_bind_run by reflexivity. rewrite Hpe. pose proof (equiv_summary _ _ Hq') as Esum.
  assert (Erev : rev (su_revision (pr_summary q')) = len es) by (rewrite Esum; by apply project_revision).
  assert (Hcov : pr_model_context_checkpoint q = pr_model_context_checkpoint p
                 /\ pr_model_context_checkpoint q' = pr_model_context_checkpoint (project_all es2 p)).
  { destruct Hq as [E _], Hq' as [E' _]. split.
    - exact (f_equal pr_model_context_checkpoint E).
    - exact (f_equal pr_model_context_checkpoint E'). }
  destruct Hcov as [Ec Ec'].
  destruct (bool_decide_reflect (su_revision (pr_summary q') = su_revision (pr_summary q))) as [E|E]; cbn [negb].
  - exists db. eexists. split; [by erewrite M_bind_run by reflexivity|]. split; [done|]. cbn.
    rewrite Esum, Ec, Ec'. do 3 (split; [done|]). intros Hlt. rewrite E in Erev. lia.
  - destruct (index_synchronize q' db) as [db' r] eqn:Es.
    destruct (synchronize_shows db es _ q' Hte Hix Hri Hpe Hq' _ _ Es) as [Hworks Hres].
    destruct r as [u|err].
    + exists db'. eexists. split; [erewrite M_bind_run by exact (in_index_run _ d _ _ _ Es); reflexivity|].
      split; [done|]. cbn. rewrite Esum, Ec, Ec'. do 3 (split; [done|]). tauto.
    + exists db', (Err err). split; [by erewrite M_bind_fails by exact (in_index_run _ d _ _ _ Es)|]. done.
Qed.

(** ** Reading without opening *)

(** A projection rebuilt from the journal, or what the database refused. *)
Lemma rebuild_projection_run process layout d db :
  closed process layout d -> indexable (layout_events layout) ->
  exists db' r, rebuild_projection root tid (d, db) = ((d, db'), r) /\ (db_works db -> db_works db') /\
    match r with
    | Ok o => o = project (layout_events layout) /\
              (layout_events layout <> [] -> shows db' tid (layout_events layout)) /\ others_kept tid db db'
    | Err err => (exists s, err = Index s) /\ ~ db_works db /\ same_tables db db'
    end.
Proof.
  intros [Hd _ _ Hok Hdist Hcr Hlen Hte] Hix.
  pose proof (consume_snapshot_run cfg tid accumulator_push AwaitingCreation layout d Hd
                (default_config_valid root) Hok Hdist Hcr Hlen) as Hrun.
  unfold rebuild_projection. erewrite M_bind_run by exact (in_journal_run _ d db _ _ Hrun).
  change (accumulator_finish (fold_left accumulator_push (layout_events layout) AwaitingCreation))
    with (project (layout_events layout)).
  destruct (project (layout_events layout)) as [p|] eqn:Ep.
  - destruct (index_replace p db) as [db' r] eqn:Er.
    destruct (index_replace_shows tid _ p db Hte Hix Ep _ _ Er) as [Hw Hr].
    destruct r as [u|err].
    + exists db', (Ok (Some p)). split; [by erewrite M_bind_run by exact (in_index_run _ d _ _ _ Er)|]. tauto.
    + exists db', (Err err). split; [by erewrite M_bind_fails by exact (in_index_run _ d _ _ _ Er)|]. done.
  - exists db, (Ok None). split; [done|]. split; [done|]. split; [done|]. split; [|by apply others_kept_of_same].
    intros Hne. destruct (project_thread_events tid _ Hte Hne) as (p & E & _). by rewrite Ep in E.
Qed.

(** The projection a restore is prepared from: the one the index shows, or the
    journal's where it shows none. *)
Lemma prepare_run process layout d db :
  closed process layout d -> indexable (layout_events layout) -> recoverable_index db (layout_events layout) ->
  exists db' r, prepare_thread_projection root tid true (d, db) = ((d, db'), r) /\ (db_works db -> db_works db') /\
    match r with
    | Ok (Some prepared) =>
        pt_store_root prepared = root /\ pt_thread_id prepared = tid /\
        exists p, pt_projection prepared ≡ p /\
          (shows_some db (layout_events layout) p \/
           (found db tid = None /\ project (layout_events layout) = Some p /\ shows db' tid (layout_events layout)))
    | Ok None => found db tid = None /\ layout_events layout = []
    | Err err => (exists s, err = Index s) /\ ~ db_works db /\ same_tables db db'
    end.
Proof.
  intros Hcl Hix Hri. pose proof (cl_events _ _ _ Hcl) as Hte. unfold prepare_thread_projection. cbn [negb].
  destruct (read_projection tid db) as [db1 r1] eqn:Er.
  pose proof (read_projection_indexed db _ Hri _ _ Er) as [Hw1 Hr1]. destruct r1 as [[q|]|err].
  - destruct Hr1 as [Hsame (p & Hq & Hs)]. exists db1. eexists.
    split; [erewrite M_bind_run by exact (in_index_run _ d _ _ _ Er); reflexivity|]. split; [done|]. cbn.
    do 2 (split; [done|]). exists p. split; [done|]. by left.
  - destruct Hr1 as [Hsame Hnone]. cbn in Hnone.
    destruct (rebuild_projection_run process layout d db1 Hcl Hix) as (db' & r & Hrun & Hw2 & Hr).
    erewrite M_bind_run by exact (in_index_run _ d _ _ _ Er). destruct r as [o|err].
    + exists db'. eexists. split; [erewrite M_bind_run by exact Hrun; reflexivity|]. split; [tauto|].
      destruct Hr as (-> & Hs & _). destruct (project (layout_events layout)) as [p|] eqn:Ep; cbn.
      * do 2 (split; [done|]). exists p. split; [done|]. right. do 2 (split; [done|]). apply Hs.
        intros E. by rewrite E in Ep.
      * split; [done|]. destruct (layout_events layout) as [|e es] eqn:El; [done|].
        destruct (project_thread_events tid (e :: es) Hte) as (p & E & _); [done|]. by rewrite Ep in E.
    + exists db', (Err err). split; [by erewrite M_bind_fails by exact Hrun|]. split; [tauto|].
      destruct Hr as (Hs & Hnw & Hsame'). split; [done|]. split; [tauto|]. by eapply same_tables_trans.
  - exists db1, (Err err). split; [by erewrite M_bind_fails by exact (in_index_run _ d _ _ _ Er)|]. done.
Qed.

Lemma read_summary_indexed db es :
  recoverable_index db es ->
  atomic db (index_read_summary tid) (fun o db' => same_tables db db' /\
    match o with
    | Some summary => exists p, shows_some db es p /\ summary = pr_summary p
    | None => found db tid = None
    end).
Proof.
  intros Hri. unfold index_read_summary.
  apply (atomic_bind_pure _ _ (transpose (row_to_summary tid)) (fun row db' => same_tables db db' /\ row = found db tid));
    [apply select_runs|]. intros row db' [Hsame ->]. destruct (found db tid) as [row|] eqn:Ef; [|by exists None].
  destruct (Hri row Ef) as (p & Hs). pose proof Hs as (es0 & _ & _ & Ht & Hst & _).
  destruct (found_stored db tid p Hst Ht) as (row' & Hf & Hrow). rewrite Ef in Hf. injection Hf as <-.
  exists (Some (pr_summary p)). cbn [transpose]. rewrite <- Ht at 1. rewrite (row_to_summary_Ok p row Hrow). split; [done|].
  split; [done|]. by exists p.
Qed.

(** [read_summary] gives the summary the index shows, or rebuilds it. *)
Lemma read_summary_run process layout d db :
  closed process layout d -> indexable (layout_events layout) -> recoverable_index db (layout_events layout) ->
  exists db' r, read_summary root tid true (d, db) = ((d, db'), r) /\ (db_works db -> db_works db') /\
    match r with
    | Ok o =>
        (exists p, shows_some db (layout_events layout) p /\ o = Some (pr_summary p)) \/
        (found db tid = None /\ o = pr_summary <$> project (layout_events layout) /\
         (layout_events layout <> [] -> shows db' tid (layout_events layout)))
    | Err err => (exists s, err = Index s) /\ ~ db_works db /\ same_tables db db'
    end.
Proof.
  intros Hcl Hix Hri. unfold read_summary. cbn [negb]. destruct (index_read_summary tid db) as [db1 r1] eqn:Er.
  pose proof (read_summary_indexed db _ Hri _ _ Er) as [Hw1 Hr1]. destruct r1 as [[summary|]|err].
  - destruct Hr1 as [Hsame (p & Hs & ->)]. exists db1. eexists.
    split; [erewrite M_bind_run by exact (in_index_run _ d _ _ _ Er); reflexivity|]. split; [done|]. left. by exists p.
  - destruct Hr1 as [Hsame Hnone].
    destruct (rebuild_projection_run process layout d db1 Hcl Hix) as (db' & r & Hrun & Hw2 & Hr).
    erewrite M_bind_run by exact (in_index_run _ d _ _ _ Er). destruct r as [o|err].
    + exists db'. eexists. split; [erewrite M_bind_run by exact Hrun; reflexivity|]. split; [tauto|].
      destruct Hr as (-> & Hshows & _). by right.
    + exists db', (Err err). split; [by erewrite M_bind_fails by exact Hrun|]. split; [tauto|].
      destruct Hr as (Hs & Hnw & Hsame'). split; [done|]. split; [tauto|]. by eapply same_tables_trans.
  - exists db1, (Err err). split; [by erewrite M_bind_fails by exact (in_index_run _ d _ _ _ Er)|]. done.
Qed.

(** * Administrative commands *)

(** A thread opened for writing. *)
Lemma open_thread_run process layout d db :
  closed process layout d -> indexable (layout_events layout) -> recoverable_index db (layout_events layout) ->
  exists d' db' r,
    open_thread process root tid (d, db) = ((d', db'), r) /\ (db_works db -> db_works db') /\
    match r with
    | Ok thread =>
        live_inv cfg tid layout thread d' /\
        (tj_process (lt_journal thread) = process /\ tj_dirty_batch_count (lt_journal thread) = u64_zero) /\
        lt_session_metadata thread = session_metadata_of (project (layout_events layout)) /\
        shows db' tid (layout_events layout) /\ others_kept tid db db'
    | Err err => (exists s, err = Index s) /\ ~ db_works db /\ same_tables db db' /\
                 d_lock_held d' = false /\ process ∉ d_writers d'
    end.
Proof.
  intros Hcl Hix Hri.
  destruct (open_thread_and_fold_run process (fun _ => tt) (fun _ _ => tt) layout d db Hcl Hix Hri)
    as (d' & db' & r & Hopen & Hw & Hr).
  exists d', db', (match r with Ok (thread, _, _) => Ok thread | Err e => Err e end).
  split; [unfold open_thread, mbind, M_bind; rewrite Hopen; by destruct r as [[[]]|]|]. split; [done|].
  destruct r as [[[thread []] coverage]|err]; [|done].
  destruct Hr as (_ & _ & _ & (Hlive & Hproc & Hmeta & _) & Hs & Ho). done.
Qed.

(** A thread that is dropped leaves its journal closed. *)
Lemma dropped_closed layout (l : LiveThreadStore) d :
  live_inv cfg tid layout l d -> len layout + 1 < 2 ^ 64 ->
  closed (tj_process (lt_journal l)) layout (drop_journal (lt_journal l) d).
Proof.
  intros [_ Hj Hd Hte] Hlen. split; try done.
  - cbn. set_solver.
  - apply Hj.
  - apply Hj.
  - apply (crashed_dir _ _ _ d); [done|]. apply crashed_intact; [apply Hj|apply (ji_dir _ _ _ _ _ Hj)].
Qed.

(** A command run on a thread that is opened for it and closed after it. *)
Lemma run_command_run process draws command layout d db :
  closed process layout d -> indexable (layout_events layout) -> recoverable_index db (layout_events layout) ->
  len layout + 2 < 2 ^ 64 ->
  exists d' db' r,
    run_command process root tid draws command (d, db) = ((d', db'), r) /\
    (((exists s, r = Err (Index s)) /\ ~ db_works db /\ same_tables db db' /\
      d_lock_held d' = false /\ process ∉ d_writers d') \/
     exists layout' ro, closed process layout' d' /\
       execute_spec (journal_config_new root) tid draws ActorUser None command CommitDurable
         (concat layout) (concat layout') ro /\
       (fits_index (layout_events layout') ->
        match ro with
        | Ok _ => (r = Ok tt /\ shows db' tid (layout_events layout')) \/ ((exists s, r = Err (Index s)) /\ ~ db_works db)
        | Err e => r = Err e /\ shows db' tid (layout_events layout')
        end)).
Proof.
  intros Hcl Hix Hri Hlen.
  destruct (open_thread_run process layout d db Hcl Hix Hri) as (d1 & db1 & r1 & Hot & Hw1 & Hr1).
  unfold run_command. destruct r1 as [thread|err].
  2: { exists d1, db1, (Err err). split; [by erewrite M_bind_fails by exact Hot|].
       left. destruct Hr1 as ([s ->] & Hnw & Hsame & Hl & Hp). split; [eauto|]. done. }
  destruct Hr1 as (Hlive & [Hproc Hdirty] & _ & Hs & Ho).
  erewrite M_bind_run by exact Hot. unfold with_thread.
  destruct (execute_run (journal_config_new root) tid draws ActorUser None command CommitDurable layout thread d1 db1 Hlive)
    as (l' & layout' & d2 & db2 & ro & r & Hrun & Hspec & Hlive' & (_ & Hproc' & Hlen' & _) & _ & Hans).
  { split; [apply default_config_room|]. rewrite Hdirty. cbn. lia. }
  unfold mbind, M_bind. rewrite Hrun.
  pose proof (dropped_closed layout' l' d2 Hlive' ltac:(lia)) as Hclosed. rewrite Hproc', Hproc in Hclosed.
  pose proof (execute_spec_events _ _ _ _ _ _ _ _ _ _ Hspec) as Hev.
  exists (drop_journal (lt_journal l') d2), db2, (match r with Ok _ => Ok tt | Err e => Err e end).
  split; [by destruct r|]. right. exists layout', ro. split; [done|]. split; [done|].
  intros Hfit. destruct (Hans (shows_honest _ _ _ Hs) Hfit) as (_ & _ & _ & Hres). destruct ro as [o|e]; cbn [outcome_events] in Hev.
  - destruct Hev as [Hcat _]. destruct Hres as [(-> & Hnil & Hsome)|[[s ->] Hnw]]; [|right; split; [by eexists|tauto]].
    left. split; [done|]. destruct (decide (co_events o = [])) as [E0|Hne]; [|by apply Hsome].
    rewrite (Hnil E0). rewrite E0, app_nil_r in Hcat. rewrite layout_events_frames, Hcat. done.
  - destruct Hres as [-> ->]. split; [done|]. by rewrite layout_events_frames, Hev.
Qed.

End Facts.
