(* ===== verification/Listing.v ===== *)
(** Listing threads page by page (thread-store: index.rs, projection.rs): the
    filters of a query, the order of its rows and the cursor that names where the
    next page starts.  The text of identifiers, [LIKE] and the statement that
    selects the rows are parameters. *)

From stdpp Require Import sorting.
From S2P Require Import Prelude BTree Canonical Events Receipts CommandIndex Disk Model Projection ThreadIndex.

Open Scope string_scope.
Open Scope list_scope.
Open Scope Z_scope.

(** * Data *)

Inductive ThreadListSort := SortCreatedAt | SortUpdatedAt.

#[export] Instance ThreadListSort_eq_dec : EqDecision ThreadListSort.
Proof. solve_decision. Defined.

Record ThreadListQuery := {
  lq_archived : option bool;
  lq_workspace : option string;
  lq_sources : option (list string);
  lq_model_providers : option (list string);
  lq_search : option string;
  lq_cursor : option string;
  lq_limit : option Z;
  lq_sort : ThreadListSort
}.

Record ThreadListPage := {
  pg_items : list ThreadSummary;
  pg_next_cursor : option string
}.

Record ThreadListCursor := { lc_sort_value : i64; lc_thread_id : ThreadId }.

(** * Texts of numbers *)

(** How many decimal digits a number has; twenty are enough for [2 ^ 64]. *)
Fixpoint dec_width (fuel : nat) (z : Z) : nat :=
  match fuel with
  | O => 1
  | S fuel => if z <? 10 then 1%nat else S (dec_width fuel (z / 10))
  end.

Definition dec_text (z : Z) : bytes := dec_digits (dec_width 20 z) z.

(** [Display] of an [i64] *)
Definition display_i64 (x : i64) : bytes :=
  if val x <? 0 then str_bytes "-" ++ dec_text (- val x) else dec_text (val x).

(** [i64::from_str]: an optional sign, at least one digit, no overflow; the
    digits of a negative number are subtracted. *)
Definition parse_i64_digit (negative : bool) (acc : option Z) (b : byte) : option Z :=
  acc ← acc;
  let digit := Z_of_byte b - 48 in
  if (0 <=? digit) && (digit <? 10) then
    scaled ← checked (- 2 ^ 63) (2 ^ 63) (acc * 10);
    sum ← checked (- 2 ^ 63) (2 ^ 63) (if negative then val scaled - digit else val scaled + digit);
    Some (val sum)
  else None.

Definition parse_i64 (l : bytes) : option i64 :=
  let '(negative, digits) := match l with
                             | b :: rest => if Z_of_byte b =? 43 then (false, rest)
                                            else if Z_of_byte b =? 45 then (true, rest)
                                            else (false, l)
                             | [] => (false, l)
                             end in
  match digits with
  | [] => None
  | _ => i64_of <$> fold_left (parse_i64_digit negative) digits (Some 0)
  end.

(** [str::splitn(n, ':')] *)
Fixpoint splitn (n : nat) (l field : bytes) : list bytes :=
  match n with
  | O => []
  | S O => [field ++ l]
  | S n' =>
      match l with
      | [] => [field]
      | b :: l => if Z_of_byte b =? 58 then field :: splitn n' l [] else splitn n l (field ++ [b])
      end
  end.

(** * Parameters *)

(** [Uuid]'s [Display] and [parse_str] on thread identifiers. *)
Class IdText := {
  id_text : ThreadId -> bytes;
  parse_id : bytes -> option ThreadId
}.
Class IdTextLaws `{IdText} : Prop := parse_id_text t : parse_id (id_text t) = Some t.

(** [(column, thread_id) < (?, ?)] *)
Definition key_lt (k k' : Z * bytes) : bool := (fst k <? fst k') || ((fst k =? fst k') && text_lt (snd k) (snd k')).

Section Order.
Context `{IdText}.

Definition sort_column (sort : ThreadListSort) (row : ProjectionRow) : i64 :=
  match sort with SortCreatedAt => ro_created_at row | SortUpdatedAt => ro_updated_at row end.

Definition row_key (sort : ThreadListSort) (entry : ThreadId * ProjectionRow) : Z * bytes :=
  (val (sort_column sort (snd entry)), id_text (fst entry)).

(** [ORDER BY column DESC, thread_id DESC] *)
Definition listed_before (sort : ThreadListSort) (entry entry' : ThreadId * ProjectionRow) : Prop :=
  key_lt (row_key sort entry) (row_key sort entry') = false.

#[export] Instance listed_before_dec sort : RelDecision (listed_before sort).
Proof. intros entry entry'. unfold listed_before. apply _. Defined.

Definition ordered_rows (sort : ThreadListSort) (matches : ThreadId -> ProjectionRow -> bool)
    (rows : gmap ThreadId ProjectionRow) : list (ThreadId * ProjectionRow) :=
  merge_sort (listed_before sort) (List.filter (fun entry => matches (fst entry) (snd entry)) (map_to_list rows)).

End Order.

Class ListSql `{Sqlite} := {
  (** [text LIKE pattern] *)
  sql_like : string -> string -> bool;
  (** [SELECT .. FROM thread_projection WHERE .. ORDER BY .. LIMIT ?] *)
  sql_select_page : ThreadListSort -> (ThreadId -> ProjectionRow -> bool) -> Z -> M Db SqlError (list (ThreadId * ProjectionRow))
}.

Class ListSqlLaws `{ListSql, IdText} : Prop :=
  sql_select_page_law sort matches limit d d' r :
    sql_select_page sort matches limit d = (d', r) ->
    statement d d' r (fun found => same_tables d d' /\
      found = take (Z.to_nat limit) (ordered_rows sort matches (db_rows d))).

(** * Cursors *)

Section Cursors.
Context `{IdText}.

Definition sort_tag (sort : ThreadListSort) : bytes :=
  match sort with SortCreatedAt => str_bytes "c" | SortUpdatedAt => str_bytes "u" end.

Definition cursor_text (sort : ThreadListSort) (sort_value : i64) (thread_id : ThreadId) : string :=
  string_of_bytes (str_bytes "v1:" ++ sort_tag sort ++ str_bytes ":" ++ display_i64 sort_value ++ str_bytes ":"
                   ++ id_text thread_id).

(** [ThreadListCursor::encode] *)
Definition cursor_encode (summary : ThreadSummary) (sort : ThreadListSort) : string :=
  cursor_text sort
    (match sort with SortCreatedAt => su_created_at_unix_ms summary | SortUpdatedAt => su_updated_at_unix_ms summary end)
    (su_thread_id summary).

(** [ThreadListCursor::decode] *)
Definition cursor_decode (cursor : option string) (sort : ThreadListSort) : option ThreadListCursor :=
  cursor ← cursor;
  match splitn 4 (str_bytes cursor) [] with
  | version :: tag :: fields =>
      if negb (bool_decide (version = str_bytes "v1")) || negb (bool_decide (tag = sort_tag sort)) then None
      else
        match fields with
        | sort_value :: thread_id :: _ =>
            sort_value ← parse_i64 sort_value;
            thread_id ← parse_id thread_id;
            Some {| lc_sort_value := sort_value; lc_thread_id := thread_id |}
        | _ => None
        end
  | _ => None
  end.

Definition with_cursor (cursor : option string) (q : ThreadListQuery) : ThreadListQuery := {|
  lq_archived := lq_archived q; lq_workspace := lq_workspace q; lq_sources := lq_sources q;
  lq_model_providers := lq_model_providers q; lq_search := lq_search q; lq_cursor := cursor;
  lq_limit := lq_limit q; lq_sort := lq_sort q |}.

(** [ThreadListQuery::set_cursor_after] *)
Definition set_cursor_after (sort_value_unix_ms : i64) (thread_id : ThreadId) (q : ThreadListQuery) : ThreadListQuery :=
  with_cursor (Some (cursor_text (lq_sort q) sort_value_unix_ms thread_id)) q.

End Cursors.

(** * The listing *)

Section Listing.
Context `{ListSql, IdText}.

(** A column that is NULL equals nothing, is in no list and is like nothing. *)
Definition column_in (values : option (list string)) (column : option string) : bool :=
  match values with
  | Some ((_ :: _) as values) => match column with Some column => bool_decide (column ∈ values) | None => false end
  | _ => true
  end.

Definition column_like (pattern : string) (column : option string) : bool :=
  match column with Some column => sql_like column pattern | None => false end.

(** The conditions of the query but for its cursor. *)
Definition query_matches (q : ThreadListQuery) (row : ProjectionRow) : bool :=
  match lq_archived q with Some archived => bool_decide (ro_archived row = archived) | None => true end
  && match lq_workspace q with Some workspace => bool_decide (ro_workspace row = workspace) | None => true end
  && column_in (lq_sources q) (Some (ro_source row))
  && column_in (lq_model_providers q) (ro_model_provider row)
  && match lq_search q with
     | Some search =>
         let pattern := String.append "%" (String.append search "%") in
         column_like pattern (ro_name row) || column_like pattern (ro_summary row) || column_like pattern (ro_preview row)
     | None => true
     end.

Definition after_cursor (sort : ThreadListSort) (cursor : option ThreadListCursor) (t : ThreadId) (row : ProjectionRow) : bool :=
  match cursor with
  | Some cursor => key_lt (row_key sort (t, row)) (val (lc_sort_value cursor), id_text (lc_thread_id cursor))
  | None => true
  end.

Definition page_limit (q : ThreadListQuery) : Z := Z.max 1 (Z.min 200 (default 50 (lq_limit q))).

(** [ThreadIndex::list] *)
Definition index_list (q : ThreadListQuery) : M Db ThreadStoreError ThreadListPage :=
  let limit := page_limit q in
  let cursor := cursor_decode (lq_cursor q) (lq_sort q) in
  rows ← map_error Index (sql_select_page (lq_sort q)
           (fun t row => query_matches q row && after_cursor (lq_sort q) cursor t row) (limit + 1));
  let has_more := limit <? len rows in
  items ← of_result (collect (fun '(t, row) => row_to_summary t row) (take (Z.to_nat limit) rows));
  mret {| pg_items := items;
          pg_next_cursor := if has_more then (fun item => cursor_encode item (lq_sort q)) <$> list.last items else None |}.

(** [ThreadStore::list_threads], once the tables are there. *)
Definition list_threads (q : ThreadListQuery) : M Db ThreadStoreError ThreadListPage := index_list q.

(** A client that follows the cursors until there is none; it runs out of
    [fuel] never before as many pages. *)
Fixpoint list_pages (fuel : nat) (q : ThreadListQuery) : M Db ThreadStoreError (list ThreadListPage) :=
  match fuel with
  | O => mret []
  | S fuel =>
      page ← list_threads q;
      match pg_next_cursor page with
      | Some cursor => pages ← list_pages fuel (with_cursor (Some cursor) q); mret (page :: pages)
      | None => mret [page]
      end
  end.

End Listing.
