(* ===== verification/ListingFacts.v ===== *)
(** Paging through a listing: cursors are read back, and the rows after the last
    one of a page are the rest of the listing. *)

From stdpp Require Import sorting.
From S2P Require Import Prelude BTree Canonical Events Receipts CommandIndex Disk Model Projection ThreadIndex IndexFacts IndexReads Listing.

Open Scope string_scope.
Open Scope list_scope.
Open Scope Z_scope.

(** * Numbers in texts *)

Lemma dec_width_bound fuel z : 0 <= z < 10 ^ (Z.of_nat fuel + 1) -> z < 10 ^ Z.of_nat (dec_width fuel z).
Proof.
  revert z. induction fuel as [|fuel IH]; intros z Hz; [exact (proj2 Hz)|]. cbn [dec_width].
  destruct (Z.ltb_spec z 10); [done|].
  rewrite Nat2Z.inj_succ in Hz |- *. rewrite Z.pow_succ_r by lia.
  replace (Z.succ (Z.of_nat fuel) + 1) with (Z.succ (Z.of_nat fuel + 1)) in Hz by lia. rewrite Z.pow_succ_r in Hz by lia.
  assert (Hq : z / 10 < 10 ^ Z.of_nat (dec_width fuel (z / 10))).
  { apply IH. split; [apply Z.div_pos; lia|apply Z.div_lt_upper_bound; lia]. }
  pose proof (Z.div_mod z 10 ltac:(lia)). pose proof (Z.mod_pos_bound z 10 ltac:(lia)). lia.
Qed.

Lemma dec_width_pos fuel z : exists w, dec_width fuel z = S w.
Proof. destruct fuel; cbn; [by exists 0%nat|]. destruct (z <? 10); eauto. Qed.

(** The digits of a number are read back, or those of its opposite. *)
Lemma parse_i64_dec_digits (negative : bool) k z :
  let signed z := if negative then - z else z in
  0 <= z -> - 2 ^ 63 <= signed z < 2 ^ 63 -> z < 10 ^ Z.of_nat k ->
  fold_left (parse_i64_digit negative) (dec_digits k z) (Some 0) = Some (signed z).
Proof.
  intros signed. revert z. induction k as [|k IH]; intros z Hz Hs Hk; cbn [dec_digits].
  - simpl in *. f_equal. unfold signed. destruct negative; lia.
  - rewrite Nat2Z.inj_succ, Z.pow_succ_r in Hk by lia.
    pose proof (Z.mod_pos_bound z 10 ltac:(lia)). pose proof (Z.div_mod z 10 ltac:(lia)).
    assert (Hq : 0 <= z / 10 < 10 ^ Z.of_nat k)
      by (split; [apply Z.div_pos|apply Z.div_lt_upper_bound]; lia).
    rewrite fold_left_app, IH; [|lia|unfold signed in *; destruct negative; lia|lia].
    cbn [fold_left]. unfold parse_i64_digit. cbn [mbind option_bind]. rewrite digit_byte by lia.
    replace (48 + z mod 10 - 48) with (z mod 10) by lia.
    rewrite (proj2 (Z.leb_le _ _)), (proj2 (Z.ltb_lt _ _)) by lia. cbn [andb].
    destruct (checked_in (- 2 ^ 63) (2 ^ 63) (signed (z / 10) * 10)) as (x & Hx & Ex);
      [unfold signed in *; destruct negative; lia|].
    rewrite Hx. cbn [mbind option_bind]. rewrite Ex.
    destruct (checked_in (- 2 ^ 63) (2 ^ 63) (if negative then signed (z / 10) * 10 - z mod 10 else signed (z / 10) * 10 + z mod 10))
      as (y & Hy & Ey); [unfold signed in *; destruct negative; lia|].
    rewrite Hy. cbn [mbind option_bind]. f_equal. rewrite Ey. unfold signed. destruct negative; lia.
Qed.

Lemma dec_text_bytes z b : b ∈ dec_text z -> 48 <= Z_of_byte b < 58.
Proof. apply dec_digits_range. Qed.

Lemma dec_text_cons z : exists b rest, dec_text z = b :: rest /\ 48 <= Z_of_byte b < 58.
Proof.
  destruct (dec_text z) as [|b rest] eqn:E.
  - apply (f_equal length) in E. unfold dec_text in E. rewrite length_dec_digits in E.
    destruct (dec_width_pos 20 z) as [w Ew]. rewrite Ew in E. discriminate E.
  - exists b, rest. split; [done|]. apply (dec_text_bytes z). rewrite E. apply list_elem_of_here.
Qed.

Lemma parse_display_i64 x : parse_i64 (display_i64 x) = Some x.
Proof.
  pose proof (val_bounds x) as Hx. unfold display_i64. destruct (Z.ltb_spec (val x) 0) as [Hneg|Hpos].
  - change (parse_i64 (str_bytes "-" ++ dec_text (- val x)))
      with (match dec_text (- val x) with
            | [] => None
            | _ => i64_of <$> fold_left (parse_i64_digit true) (dec_text (- val x)) (Some 0)
            end).
    destruct (dec_text_cons (- val x)) as (b & rest & E & _). rewrite E, <- E. unfold dec_text.
    rewrite (parse_i64_dec_digits true) by (try apply dec_width_bound; lia). cbn. f_equal. apply val_inj.
    rewrite val_i64_of by lia. lia.
  - unfold parse_i64. destruct (dec_text_cons (val x)) as (b & rest & E & Hb). rewrite E.
    rewrite (proj2 (Z.eqb_neq _ 43)), (proj2 (Z.eqb_neq _ 45)) by lia. rewrite <- E. unfold dec_text.
    rewrite (parse_i64_dec_digits false) by (try apply dec_width_bound; lia). cbn. f_equal. apply val_inj.
    rewrite val_i64_of by lia. lia.
Qed.

(** * Cursors *)

Definition no_colon (l : bytes) : Prop := Forall (fun b => Z_of_byte b <> 58) l.

Lemma splitn_field n l rest field :
  no_colon l -> splitn (S (S n)) (l ++ str_bytes ":" ++ rest) field = (field ++ l) :: splitn (S n) rest [].
Proof.
  intros Hl. revert field. induction Hl as [|b l Hb _ IH]; intros field; [by rewrite app_nil_r|].
  cbn [app splitn]. rewrite (proj2 (Z.eqb_neq _ _) Hb). change (splitn (S (S n)) (l ++ str_bytes ":" ++ rest) (field ++ [b])
    = (field ++ b :: l) :: splitn (S n) rest []). by rewrite IH, <- app_assoc.
Qed.

Lemma splitn_last l field : splitn 1 l field = [field ++ l].
Proof. by destruct l. Qed.

Lemma display_no_colon x : no_colon (display_i64 x).
Proof.
  assert (Hdec : forall z, no_colon (dec_text z)).
  { intros z. apply list.Forall_forall. intros b Hb%dec_text_bytes. lia. }
  unfold display_i64. destruct (val x <? 0); [|apply Hdec]. constructor; [done|apply Hdec].
Qed.

Section Facts.
Context `{IdTextLaws}.

Lemma sort_tag_no_colon sort : no_colon (sort_tag sort).
Proof. destruct sort; by repeat constructor. Qed.

Lemma sort_tag_inj sort sort' : sort_tag sort = sort_tag sort' <-> sort = sort'.
Proof. split; [|by intros ->]. by destruct sort, sort'. Qed.

(** A cursor is read back in its own order, and in no other. *)
Lemma cursor_decode_text sort sort' sort_value t :
  cursor_decode (Some (cursor_text sort sort_value t)) sort'
    = if bool_decide (sort = sort') then Some {| lc_sort_value := sort_value; lc_thread_id := t |} else None.
Proof.
  unfold cursor_decode, cursor_text. cbn [mbind option_bind]. rewrite str_bytes_of.
  change (str_bytes "v1:" ++ ?l) with (str_bytes "v1" ++ str_bytes ":" ++ l).
  rewrite splitn_field by (by repeat constructor). cbn [app].
  rewrite splitn_field by apply sort_tag_no_colon. rewrite splitn_field by apply display_no_colon.
  rewrite splitn_last. cbn [app]. rewrite bool_decide_eq_true_2 by done. cbn [negb orb].
  rewrite (bool_decide_ext _ _ (sort_tag_inj sort sort')). case_bool_decide; [|done]. cbn [negb].
  rewrite parse_display_i64. cbn [mbind option_bind]. by rewrite parse_id_text.
Qed.

(** * The order of the rows *)

Lemma key_lt_spec k k' : key_lt k k' = true <-> fst k < fst k' \/ (fst k = fst k' /\ text_lt (snd k) (snd k') = true).
Proof. unfold key_lt. by rewrite orb_true_iff, andb_true_iff, Z.ltb_lt, Z.eqb_eq. Qed.

Lemma key_lt_irrefl k : key_lt k k = false.
Proof. unfold key_lt. by rewrite Z.ltb_irrefl, Z.eqb_refl, text_lt_irrefl. Qed.

Lemma key_lt_trans k1 k2 k3 : key_lt k1 k2 = true -> key_lt k2 k3 = true -> key_lt k1 k3 = true.
Proof.
  rewrite !key_lt_spec. intros [H1|[H1 H2]] [H3|[H3 H4]]; [left; lia..|]. right. split; [lia|by eapply text_lt_trans].
Qed.

Lemma key_lt_total k k' : key_lt k k' = true \/ k = k' \/ key_lt k' k = true.
Proof.
  rewrite !key_lt_spec. destruct k as [v a], k' as [v' a']. cbn [fst snd].
  destruct (Z.lt_trichotomy v v') as [Hlt|[->|Hlt]]; [by left; left| |by right; right; left].
  destruct (text_lt_total a a') as [Ht|[->|Ht]]; [left; right; done|by right; left|right; right; right; done].
Qed.

#[local] Instance listed_before_total sort : Total (listed_before sort).
Proof.
  intros x y. unfold listed_before. destruct (key_lt (row_key sort x) (row_key sort y)) eqn:E; [|by left]. right.
  destruct (key_lt (row_key sort y) (row_key sort x)) eqn:E'; [|done].
  pose proof (key_lt_trans _ _ _ E E') as Ec. by rewrite key_lt_irrefl in Ec.
Qed.

#[local] Instance listed_before_trans sort : Transitive (listed_before sort).
Proof.
  intros x y z Hxy Hyz. unfold listed_before in *. destruct (key_lt (row_key sort x) (row_key sort z)) eqn:E; [|done].
  destruct (key_lt_total (row_key sort y) (row_key sort z)) as [Hk|[Ek|Hk]]; [by rewrite Hk in Hyz| |].
  - by rewrite Ek, E in Hxy.
  - pose proof (key_lt_trans _ _ _ E Hk) as Ec. by rewrite Ec in Hxy.
Qed.

Lemma id_text_inj t t' : id_text t = id_text t' -> t = t'.
Proof. intros E. apply (f_equal parse_id) in E. rewrite !parse_id_text in E. by injection E. Qed.

(** A list of rows, best first, with a row for a thread at most. *)
Record listed (sort : ThreadListSort) (entries : list (ThreadId * ProjectionRow)) : Prop := {
  ls_sorted : StronglySorted (listed_before sort) entries;
  ls_threads : NoDup entries.*1
}.

Lemma listed_app sort l1 l2 : listed sort (l1 ++ l2) -> listed sort l2.
Proof.
  intros [Hs Hn]. split; [by eapply StronglySorted_app_1_r|]. rewrite fmap_app in Hn. by apply list.NoDup_app in Hn as (_ & _ & Hn).
Qed.

(** Rows after an entry: those that come later. *)
Lemma listed_after sort l1 e l2 :
  listed sort (l1 ++ e :: l2) ->
  List.filter (fun e' => key_lt (row_key sort e') (row_key sort e)) (l1 ++ e :: l2) = l2.
Proof.
  intros [Hs Hn]. rewrite List.filter_app. cbn [List.filter]. rewrite key_lt_irrefl.
  assert (E1 : List.filter (fun e' => key_lt (row_key sort e') (row_key sort e)) l1 = []).
  { apply StronglySorted_app in Hs as (Hb & _ & _). clear Hn. induction l1 as [|e1 l1 IH]; [done|]. cbn [List.filter].
    assert (Hlt : listed_before sort e1 e) by (apply Hb; [apply list_elem_of_here|apply list_elem_of_here]).
    unfold listed_before in Hlt. rewrite Hlt. apply IH. intros x y Hx Hy. apply Hb; [by apply list_elem_of_further|done]. }
  rewrite E1. cbn [app]. apply StronglySorted_app_1_r in Hs. rewrite fmap_app in Hn. apply list.NoDup_app in Hn as (_ & _ & Hn).
  inversion Hs as [|? ? _ Hf]; subst. cbn in Hn. apply list.NoDup_cons in Hn as [Hni _].
  assert (Hall : forall e', e' ∈ l2 -> key_lt (row_key sort e') (row_key sort e) = true).
  { intros e' He'. rewrite list.Forall_forall in Hf. specialize (Hf e' He'). unfold listed_before in Hf.
    destruct (key_lt_total (row_key sort e') (row_key sort e)) as [Hk|[Ek|Hk]]; [done| |by rewrite Hk in Hf].
    destruct Hni. apply list_elem_of_fmap. exists e'. split; [|done]. injection Ek as _ Ek. by apply id_text_inj in Ek. }
  clear -Hall. induction l2 as [|e2 l2 IH]; [done|]. cbn [List.filter].
  rewrite (Hall e2) by apply list_elem_of_here. f_equal. apply IH. intros e' He'. apply Hall. by apply list_elem_of_further.
Qed.

Definition row_matches (matches : ThreadId -> ProjectionRow -> bool) (entry : ThreadId * ProjectionRow) : bool :=
  matches (fst entry) (snd entry).

Lemma ordered_rows_perm sort matches rows :
  ordered_rows sort matches rows ≡ₚ List.filter (row_matches matches) (map_to_list rows).
Proof. apply merge_sort_Permutation. Qed.

Lemma filter_threads (p : ThreadId * ProjectionRow -> bool) entries : NoDup entries.*1 -> NoDup (List.filter p entries).*1.
Proof.
  induction entries as [|e entries IH]; [done|]. cbn. intros [Hni Hn]%list.NoDup_cons. destruct (p e); [|by apply IH].
  cbn. apply list.NoDup_cons. split; [|by apply IH]. intros (e' & Ee & He')%list_elem_of_fmap. apply Hni, list_elem_of_fmap.
  exists e'. split; [done|]. apply list_elem_of_In in He'. apply filter_In in He' as [He' _]. by apply list_elem_of_In.
Qed.

Lemma ordered_rows_listed sort matches rows : listed sort (ordered_rows sort matches rows).
Proof.
  split; [apply (StronglySorted_merge_sort (listed_before sort))|]. rewrite ordered_rows_perm.
  apply filter_threads, NoDup_fst_map_to_list.
Qed.

(** The listing holds exactly the rows that match. *)
Lemma ordered_rows_elem sort matches rows t row :
  (t, row) ∈ ordered_rows sort matches rows <-> rows !! t = Some row /\ matches t row = true.
Proof.
  rewrite ordered_rows_perm, list_elem_of_In, filter_In, <- list_elem_of_In, elem_of_map_to_list. done.
Qed.

Lemma filter_sorted {A} (R : relation A) (p : A -> bool) l : StronglySorted R l -> StronglySorted R (List.filter p l).
Proof.
  induction 1 as [|x l Hs IH Hf]; [constructor|]. cbn. destruct (p x); [|done]. constructor; [done|].
  rewrite list.Forall_forall in *. intros y Hy. apply list_elem_of_In, filter_In in Hy as [Hy _]. by apply Hf, list_elem_of_In.
Qed.

Lemma filter_filter {A} (p q : A -> bool) l : List.filter p (List.filter q l) = List.filter (fun x => q x && p x) l.
Proof. induction l as [|x l IH]; [done|]. cbn. destruct (q x); cbn; [destruct (p x)|]; by rewrite ?IH. Qed.

(** More conditions leave out rows of the listing. *)
Lemma ordered_rows_filter sort matches p rows :
  ordered_rows sort (fun t row => matches t row && p t row) rows
    = List.filter (row_matches p) (ordered_rows sort matches rows).
Proof.
  apply (StronglySorted_unique_strong (listed_before sort)).
  - intros [t1 row1] [t2 row2] H1 H2 H12 H21.
    apply ordered_rows_elem in H1 as [H1 _]. apply list_elem_of_In, filter_In in H2 as [H2 _].
    apply list_elem_of_In, ordered_rows_elem in H2 as [H2 _]. unfold listed_before in H12, H21.
    destruct (key_lt_total (row_key sort (t1, row1)) (row_key sort (t2, row2))) as [Hk|[Ek|Hk]];
      [by rewrite Hk in H12| |by rewrite Hk in H21].
    injection Ek as _ Ek. apply id_text_inj in Ek. congruence.
  - apply ordered_rows_listed.
  - apply filter_sorted, ordered_rows_listed.
  - rewrite ordered_rows_perm.
    assert (E : List.filter (row_matches p) (ordered_rows sort matches rows)
                ≡ₚ List.filter (row_matches p) (List.filter (row_matches matches) (map_to_list rows))).
    { assert (Hp : forall l1 l2 : list (ThreadId * ProjectionRow), l1 ≡ₚ l2 -> List.filter (row_matches p) l1 ≡ₚ List.filter (row_matches p) l2).
      { induction 1 as [|x l1 l2 _ IH|x y l|l1 l2 l3 _ IH1 _ IH2]; cbn; [done|by destruct (row_matches p x); rewrite ?IH| |by rewrite IH1].
        destruct (row_matches p x), (row_matches p y); try done. constructor. }
      apply Hp, ordered_rows_perm. }
    rewrite E, filter_filter. done.
Qed.

End Facts.

(** * Pages *)

Section Pages.
Context `{SqliteLaws, !ListSql, !IdText, !IdTextLaws, !ListSqlLaws}.

Definition summary_of (entry : ThreadId * ProjectionRow) : option ThreadSummary :=
  match row_to_summary (fst entry) (snd entry) with Ok summary => Some summary | Err _ => None end.

Definition summaries : list (ThreadId * ProjectionRow) -> list ThreadSummary := omap summary_of.

(** The rows can be read: their revisions are not negative. *)
Definition readable (rows : gmap ThreadId ProjectionRow) : Prop :=
  forall t row, rows !! t = Some row -> 0 <= val (ro_revision row).

Lemma readable_summary rows t row :
  readable rows -> rows !! t = Some row ->
  exists summary, row_to_summary t row = Ok summary /\ su_thread_id summary = t /\
    su_created_at_unix_ms summary = ro_created_at row /\ su_updated_at_unix_ms summary = ro_updated_at row.
Proof.
  intros Hr Hrow. specialize (Hr t row Hrow). pose proof (val_bounds (ro_revision row)).
  unfold row_to_summary. rewrite (revision_from_i64_Ok _ (revision_of (val (ro_revision row)))).
  - by eexists.
  - symmetry. apply rev_of_small. lia.
Qed.

Lemma summaries_cons e entries :
  summaries (e :: entries)
    = match summary_of e with Some summary => summary :: summaries entries | None => summaries entries end.
Proof. done. Qed.

Lemma collect_summaries rows entries :
  readable rows -> (forall e, e ∈ entries -> rows !! fst e = Some (snd e)) ->
  collect (fun '(t, row) => row_to_summary t row) entries = Ok (summaries entries) /\
  length (summaries entries) = length entries.
Proof.
  intros Hr. induction entries as [|[t row] entries IH]; intros He; [done|].
  destruct (readable_summary rows t row Hr) as (summary & E & _); [apply (He (t, row)), list_elem_of_here|].
  destruct IH as [IH1 IH2]; [intros e Hin; apply He; by apply list_elem_of_further|].
  rewrite summaries_cons. unfold summary_of. cbn [collect fst snd]. rewrite E. cbn [mbind result_bind].
  rewrite IH1. split; [done|]. cbn [length]. by rewrite IH2.
Qed.

Definition query_rows (q : ThreadListQuery) (db : Db) : list (ThreadId * ProjectionRow) :=
  ordered_rows (lq_sort q) (fun _ row => query_matches q row) (db_rows db).

(** The rows that are left for a query with a cursor. *)
Definition rows_left (q : ThreadListQuery) (db : Db) : list (ThreadId * ProjectionRow) :=
  List.filter (row_matches (after_cursor (lq_sort q) (cursor_decode (lq_cursor q) (lq_sort q)))) (query_rows q db).

Definition page_of (q : ThreadListQuery) (entries : list (ThreadId * ProjectionRow)) : ThreadListPage :=
  let items := summaries (take (Z.to_nat (page_limit q)) entries) in {|
  pg_items := items;
  pg_next_cursor := if page_limit q <? len entries then (fun item => cursor_encode item (lq_sort q)) <$> list.last items
                    else None |}.

Lemma page_limit_bounds q : 1 <= page_limit q <= 200.
Proof. unfold page_limit. lia. Qed.

Lemma index_list_runs q db :
  readable (db_rows db) ->
  atomic db (index_list q) (fun page db' => same_tables db db' /\ page = page_of q (rows_left q db)).
Proof.
  intros Hr db' r E. unfold index_list in E. pose proof (page_limit_bounds q) as Hlim.
  set (cursor := cursor_decode (lq_cursor q) (lq_sort q)) in *.
  destruct (sql_select_page (lq_sort q) (fun t row => query_matches q row && after_cursor (lq_sort q) cursor t row)
              (page_limit q + 1) db) as [db1 found] eqn:Es.
  pose proof (sql_select_page_law _ _ _ _ _ _ Es) as [Hw Hf].
  assert (Em : map_error Index (sql_select_page (lq_sort q)
                 (fun t row => query_matches q row && after_cursor (lq_sort q) cursor t row) (page_limit q + 1)) db
               = (db1, map_err Index found)) by (unfold map_error; by rewrite Es).
  destruct found as [found|s]; cbn [map_err] in Em.
  2: { erewrite M_bind_fails in E by exact Em. injection E as <- <-. split; [done|]. destruct Hf as [Hsame Hnw]. eauto. }
  erewrite M_bind_run in E by exact Em. destruct Hf as [Hsame Hfound].
  rewrite (ordered_rows_filter (lq_sort q) (fun _ row => query_matches q row) (after_cursor (lq_sort q) cursor)) in Hfound.
  change (found = take (Z.to_nat (page_limit q + 1)) (rows_left q db)) in Hfound.
  assert (Etake : take (Z.to_nat (page_limit q)) found = take (Z.to_nat (page_limit q)) (rows_left q db)).
  { rewrite Hfound, take_take. f_equal. lia. }
  destruct (collect_summaries (db_rows db) (take (Z.to_nat (page_limit q)) (rows_left q db)) Hr) as [Ec _].
  { intros [t row] Hin. apply elem_of_take in Hin as (i & Hi & _). apply list_elem_of_lookup_2, list_elem_of_In, filter_In in Hi as [Hi _].
    apply list_elem_of_In, ordered_rows_elem in Hi as [Hi _]. exact Hi. }
  rewrite Etake, Ec in E. erewrite M_bind_run in E by reflexivity. injection E as <- <-. split; [done|]. split; [done|].
  unfold page_of. f_equal.
  replace (page_limit q <? len found) with (page_limit q <? len (rows_left q db)); [done|].
  rewrite Hfound, length_take. destruct (Z.ltb_spec (page_limit q) (len (rows_left q db))), (Z.ltb_spec (page_limit q) (Z.of_nat (Nat.min (Z.to_nat (page_limit q + 1)) (length (rows_left q db))))); try done; lia.
Qed.

(** The cursor of a page leaves the rows after the page. *)
Lemma next_cursor_leaves q db (l1 l2 : list (ThreadId * ProjectionRow)) item :
  readable (db_rows db) -> query_rows q db = l1 ++ l2 -> l1 <> [] ->
  list.last (summaries l1) = Some item ->
  rows_left (with_cursor (Some (cursor_encode item (lq_sort q))) q) db = l2.
Proof.
  intros Hr Hrows Hne Hlast. destruct l1 as [|e l1 _] using rev_ind; [done|]. clear Hne.
  rewrite <- app_assoc in Hrows. cbn [app] in Hrows.
  assert (He : db_rows db !! fst e = Some (snd e)).
  { assert (Hin : e ∈ query_rows q db) by (rewrite Hrows; apply elem_of_app; right; apply list_elem_of_here).
    destruct e as [t row]. by apply ordered_rows_elem in Hin as [Hin _]. }
  destruct (readable_summary _ _ _ Hr He) as (summary & Es & Et & Ec & Eu).
  unfold summaries in Hlast. rewrite omap_app in Hlast. cbn [omap list_omap] in Hlast. unfold summary_of at 2 in Hlast.
  rewrite Es, list.last_app in Hlast. cbn in Hlast. injection Hlast as <-.
  unfold rows_left. cbn [lq_cursor lq_sort with_cursor]. unfold cursor_encode. rewrite cursor_decode_text, bool_decide_eq_true_2 by done.
  change (query_rows (with_cursor _ q) db) with (query_rows q db). rewrite Hrows.
  rewrite <- (listed_after (lq_sort q) l1 e l2) at 2 by (rewrite <- Hrows; apply ordered_rows_listed).
  apply filter_ext. intros e'. unfold row_matches, after_cursor. cbn [lc_sort_value lc_thread_id]. rewrite Et.
  destruct e' as [t' row'], e as [t row]. cbn [fst snd] in *. unfold row_key at 2, sort_column. cbn [fst snd].
  destruct (lq_sort q); by rewrite ?Ec, ?Eu.
Qed.

Lemma summaries_app l1 l2 : summaries (l1 ++ l2) = summaries l1 ++ summaries l2.
Proof. apply omap_app. Qed.

Lemma rows_left_same q db db' : same_tables db db' -> rows_left q db' = rows_left q db /\ query_rows q db' = query_rows q db.
Proof. intros [E _]. unfold rows_left, query_rows. by rewrite E. Qed.

Lemma summaries_length q db l1 l2 :
  readable (db_rows db) -> query_rows q db = l1 ++ l2 ->
  length (summaries l1) = length l1 /\ length (summaries l2) = length l2.
Proof.
  intros Hr Hrows.
  assert (Hsub : forall e, e ∈ l1 ++ l2 -> db_rows db !! fst e = Some (snd e)).
  { intros [t row] Hin. rewrite <- Hrows in Hin. by apply ordered_rows_elem in Hin as [Hin _]. }
  split; eapply collect_summaries; try exact Hr; intros e He; apply Hsub, elem_of_app; auto.
Qed.

(** Following the cursors reads the rest of the listing. *)
Lemma list_pages_run fuel q db l1 :
  readable (db_rows db) -> db_works db -> query_rows q db = l1 ++ rows_left q db -> (length (rows_left q db) < fuel)%nat ->
  exists db' pages, list_pages fuel q db = (db', Ok pages) /\ same_tables db db' /\ db_works db' /\
    concat (map pg_items pages) = summaries (rows_left q db) /\
    Forall (fun page => len (pg_items page) <= page_limit q) pages.
Proof.
  revert q db l1. induction fuel as [|fuel IH]; intros q db l1 Hr Hw Hrows Hfuel; [lia|].
  pose proof (page_limit_bounds q) as Hlim. cbn [list_pages]. unfold list_threads.
  destruct (index_list q db) as [db1 r1] eqn:E. destruct (index_list_runs q db Hr _ _ E) as [Hw1 Hr1].
  destruct r1 as [page|err]; [|by destruct Hr1 as (_ & Hnw & _)]. destruct Hr1 as [Hsame ->].
  erewrite M_bind_run by exact E. specialize (Hw1 Hw).
  set (l2 := rows_left q db) in *. set (k := Z.to_nat (page_limit q)).
  destruct (summaries_length q db (l1 ++ take k l2) (drop k l2) Hr) as [_ Hl2']; [by rewrite <- app_assoc, take_drop|].
  destruct (summaries_length q db l1 l2 Hr Hrows) as [Hl1 Hl2].
  assert (Htk : length (summaries (take k l2)) = length (take k l2)).
  { pose proof (f_equal length (take_drop k l2)) as E1. pose proof (f_equal length (summaries_app (take k l2) (drop k l2))) as E2.
    rewrite take_drop in E2. rewrite length_app in E1, E2. lia. }
  assert (Hpage : len (summaries (take k l2)) <= page_limit q) by (rewrite Htk, length_take; lia).
  unfold page_of. cbn [pg_next_cursor]. fold k. destruct (Z.ltb_spec (page_limit q) (len l2)) as [Hmore|Hend].
  - destruct (list.last (summaries (take k l2))) as [item|] eqn:Elast.
    2: { apply last_None in Elast. rewrite Elast, length_take in Htk. cbn in Htk. lia. }
    cbn [fmap option_fmap option_map].
    set (q' := with_cursor (Some (cursor_encode item (lq_sort q))) q).
    assert (Hnext : rows_left q' db = drop k l2).
    { apply (next_cursor_leaves q db (l1 ++ take k l2) (drop k l2) item Hr).
      - by rewrite <- app_assoc, take_drop.
      - intros Enil. apply app_eq_nil in Enil as [_ Enil]. rewrite Enil in Htk, Elast. discriminate Elast.
      - rewrite summaries_app, list.last_app, Elast. done. }
    destruct (rows_left_same q' db db1 Hsame) as [El Eq].
    destruct (IH q' db1 (l1 ++ take k l2)) as (db' & pages & Hrun & Hsame' & Hw' & Hcat & Hlen).
    + destruct Hsame as [Er _]. by rewrite Er.
    + done.
    + rewrite El, Eq, Hnext. change (query_rows q' db) with (query_rows q db). by rewrite <- app_assoc, take_drop.
    + rewrite El, Hnext, length_drop. unfold k. lia.
    + exists db'. eexists. split; [erewrite M_bind_run by exact Hrun; reflexivity|].
      split; [by eapply same_tables_trans|]. split; [done|]. split; [|by constructor].
      cbn [map concat pg_items]. rewrite Hcat, El, Hnext, <- summaries_app. fold k. by rewrite take_drop.
  - exists db1. eexists. split; [reflexivity|]. do 2 (split; [done|]). split; [|by repeat constructor].
    cbn [map concat pg_items]. rewrite app_nil_r. f_equal. apply take_ge. unfold k. lia.
Qed.

End Pages.
