(* ===== verification/Capabilities.v ===== *)
(** Capabilities, scopes and their dependency graph (capability-runtime: ids.rs,
    manifest.rs, scope.rs, graph.rs).  Strings are the bytes of valid UTF-8. *)

From stdpp Require Import sorting.
From S2P Require Import Prelude BTree Text.

Open Scope string_scope.
Open Scope list_scope.
Open Scope Z_scope.

(** * Identifiers *)

Inductive IdError :=
  | IdEmpty (kind : string)
  | IdUntrimmed (kind : string) (value : string)
  | IdControlCharacter (kind : string) (value : string).

#[export] Instance IdError_eq_dec : EqDecision IdError.
Proof. solve_decision. Defined.

(** [new] of the types made by [string_id!]; [$label] is [label]. *)
Definition string_id_new (label : string) (value : string) : result IdError string :=
  if bool_decide (value = EmptyString) then Err (IdEmpty label)
  else if bool_decide (trim (chars (str_bytes value)) <> chars (str_bytes value)) then Err (IdUntrimmed label value)
  else if existsb is_control (chars (str_bytes value)) then Err (IdControlCharacter label value)
  else Ok value.

Record CapabilityId := CapId { cap_str : string }.
Record CapabilityOwnerId := OwnerId { owner_str : string }.
Record ScopeId := Scope { scope_str : string }.

Definition CapabilityId_new (value : string) : result IdError CapabilityId := CapId <$> string_id_new "capability" value.
Definition CapabilityOwnerId_new (value : string) : result IdError CapabilityOwnerId :=
  OwnerId <$> string_id_new "capability owner" value.
Definition ScopeId_new (value : string) : result IdError ScopeId := Scope <$> string_id_new "scope" value.

Definition ScopeId_process : ScopeId := Scope "process".

Definition GenerationId := u64.

#[export] Instance CapabilityId_eq_dec : EqDecision CapabilityId.
Proof. solve_decision. Defined.
#[export] Instance CapabilityOwnerId_eq_dec : EqDecision CapabilityOwnerId.
Proof. solve_decision. Defined.
#[export] Instance ScopeId_eq_dec : EqDecision ScopeId.
Proof. solve_decision. Defined.
#[export] Instance GenerationId_eq_dec : EqDecision GenerationId := ranged_eq_dec.

Lemma cap_str_inj x y : cap_str x = cap_str y -> x = y.
Proof. destruct x, y. cbn. congruence. Qed.
Lemma scope_str_inj x y : scope_str x = scope_str y -> x = y.
Proof. destruct x, y. cbn. congruence. Qed.

#[export] Instance CapabilityId_order : KeyOrder CapabilityId := order_through cap_str cap_str_inj.
#[export] Instance ScopeId_order : KeyOrder ScopeId := order_through scope_str scope_str_inj.
#[export] Instance GenerationId_order : KeyOrder GenerationId := ranged_order.

(** * Manifests *)

Inductive CapabilityKind :=
  | KindService | KindTool | KindProvider | KindHook | KindSkill | KindMcpServer | KindApp
  | KindEditorAction | KindEditorTab | KindKeyBinding | KindContextMenu | KindGameSystem
  | KindGameResource | KindGameEvent | KindGameAction | KindPresentation | KindCustom.

#[export] Instance CapabilityKind_eq_dec : EqDecision CapabilityKind.
Proof. solve_decision. Defined.

Record CapabilityManifest := {
  mf_id : CapabilityId;
  mf_kind : CapabilityKind;
  mf_owner : CapabilityOwnerId;
  mf_scope : ScopeId;
  mf_dependencies : bset CapabilityId;
  mf_conflicts : bset CapabilityId
}.

#[export] Instance CapabilityManifest_eq_dec : EqDecision CapabilityManifest.
Proof. solve_decision. Defined.

Definition manifest_new (id : CapabilityId) (kind : CapabilityKind) (owner : CapabilityOwnerId) (scope : ScopeId)
    : CapabilityManifest :=
  {| mf_id := id; mf_kind := kind; mf_owner := owner; mf_scope := scope;
     mf_dependencies := bt_empty; mf_conflicts := bt_empty |}.

Definition with_dependencies (dependencies : list CapabilityId) (m : CapabilityManifest) : CapabilityManifest :=
  {| mf_id := mf_id m; mf_kind := mf_kind m; mf_owner := mf_owner m; mf_scope := mf_scope m;
     mf_dependencies := bs_extend dependencies (mf_dependencies m); mf_conflicts := mf_conflicts m |}.

Definition with_conflicts (conflicts : list CapabilityId) (m : CapabilityManifest) : CapabilityManifest :=
  {| mf_id := mf_id m; mf_kind := mf_kind m; mf_owner := mf_owner m; mf_scope := mf_scope m;
     mf_dependencies := mf_dependencies m; mf_conflicts := bs_extend conflicts (mf_conflicts m) |}.

(** * Scopes *)

Inductive ScopeKind :=
  | ScopeProcess | ScopeWorkspace | ScopeThread | ScopeTurn | ScopeToolCall | ScopeGame | ScopeWorld
  | ScopeLevel | ScopeEntity | ScopeConversation | ScopeCustom.

#[export] Instance ScopeKind_eq_dec : EqDecision ScopeKind.
Proof. solve_decision. Defined.

Record ScopeNode := { sn_kind : ScopeKind; sn_parent : option ScopeId }.

#[export] Instance ScopeNode_eq_dec : EqDecision ScopeNode.
Proof. solve_decision. Defined.

Abbreviation ScopeGraph := (btree ScopeId ScopeNode).

Inductive ScopeGraphError :=
  | DuplicateScope (id : ScopeId)
  | MissingParent (id parent : ScopeId)
  | ConflictingScope (id : ScopeId) (existing_kind : ScopeKind) (existing_parent : option ScopeId)
      (requested_kind : ScopeKind) (requested_parent : option ScopeId).

#[export] Instance ScopeGraphError_eq_dec : EqDecision ScopeGraphError.
Proof. solve_decision. Defined.

Definition single_root (id : ScopeId) (kind : ScopeKind) : ScopeGraph :=
  bt_insert id {| sn_kind := kind; sn_parent := None |} bt_empty.

Definition scope_insert (id : ScopeId) (kind : ScopeKind) (parent : option ScopeId) (g : ScopeGraph)
    : result ScopeGraphError ScopeGraph :=
  if bt_contains id g then Err (DuplicateScope id)
  else Ok (bt_insert id {| sn_kind := kind; sn_parent := parent |} g).

Definition add_root (id : ScopeId) (kind : ScopeKind) (g : ScopeGraph) : result ScopeGraphError ScopeGraph :=
  scope_insert id kind None g.

Definition add_child (id : ScopeId) (kind : ScopeKind) (parent : ScopeId) (g : ScopeGraph)
    : result ScopeGraphError ScopeGraph :=
  if negb (bt_contains parent g) then Err (MissingParent id parent)
  else scope_insert id kind (Some parent) g.

Definition ensure_child (id : ScopeId) (kind : ScopeKind) (parent : ScopeId) (g : ScopeGraph)
    : result ScopeGraphError ScopeGraph :=
  match bt_get id g with
  | Some existing =>
      if bool_decide (sn_kind existing = kind) && bool_decide (sn_parent existing = Some parent) then Ok g
      else Err (ConflictingScope id (sn_kind existing) (sn_parent existing) kind (Some parent))
  | None =>
      if negb (bt_contains parent g) then Err (MissingParent id parent)
      else scope_insert id kind (Some parent) g
  end.

Definition scope_contains (g : ScopeGraph) (id : ScopeId) : bool := bt_contains id g.
Definition scope_kind (g : ScopeGraph) (id : ScopeId) : option ScopeKind := sn_kind <$> bt_get id g.
Definition scope_parent (g : ScopeGraph) (id : ScopeId) : option ScopeId := bt_get id g ≫= sn_parent.

(** The walk of [can_see]; [None] when the fuel runs out. *)
Fixpoint can_see_loop (fuel : nat) (g : ScopeGraph) (contribution_scope : ScopeId) (current : option ScopeId)
    (visited : bset ScopeId) : option bool :=
  match fuel with
  | O => None
  | S fuel =>
      match current with
      | None => Some false
      | Some scope =>
          if bool_decide (scope = contribution_scope) then Some true
          else if bt_contains scope visited then Some false
          else can_see_loop fuel g contribution_scope (scope_parent g scope) (bs_add scope visited)
      end
  end.

(** Two steps more than there are scopes are enough. *)
Definition can_see (g : ScopeGraph) (request_scope contribution_scope : ScopeId) : bool :=
  default false (can_see_loop (S (S (bt_size g))) g contribution_scope (Some request_scope) bt_empty).

Definition can_coexist (g : ScopeGraph) (first second : ScopeId) : bool :=
  can_see g first second || can_see g second first.

(** * The graph of capabilities *)

Record ScopedCapabilityKey := ScopedKey { key_id : CapabilityId; key_scope : ScopeId }.

#[export] Instance ScopedCapabilityKey_eq_dec : EqDecision ScopedCapabilityKey.
Proof. solve_decision. Defined.

Lemma key_pair_inj (x y : ScopedCapabilityKey) : (key_id x, key_scope x) = (key_id y, key_scope y) -> x = y.
Proof. destruct x, y. cbn. congruence. Qed.

#[export] Instance ScopedCapabilityKey_order : KeyOrder ScopedCapabilityKey :=
  order_through (fun k => (key_id k, key_scope k)) key_pair_inj.

Record CapabilityGraph := {
  cg_scopes : ScopeGraph;
  cg_manifests : btree ScopedCapabilityKey CapabilityManifest
}.

Inductive CapabilityGraphError :=
  | MissingScope (capability : CapabilityId) (scope : ScopeId)
  | MissingRequestScope (scope : ScopeId)
  | DuplicateCapability (id : CapabilityId) (first_owner second_owner : CapabilityOwnerId)
  | MissingRoot (capability : CapabilityId)
  | MissingDependency (capability dependency : CapabilityId)
  | InvisibleRoot (capability : CapabilityId) (capability_scope request_scope : ScopeId)
  | InvisibleDependency (capability : CapabilityId) (capability_scope : ScopeId) (dependency : CapabilityId)
      (dependency_scope : ScopeId)
  | DependencyCycle (cycle : list CapabilityId)
  | Conflict (capability conflict : CapabilityId).

#[export] Instance CapabilityGraphError_eq_dec : EqDecision CapabilityGraphError.
Proof. solve_decision. Defined.

Record ResolvedCapabilityGraph := { rg_request_scope : ScopeId; rg_ordered : list CapabilityId }.

Definition graph_new (scopes : ScopeGraph) : CapabilityGraph := {| cg_scopes := scopes; cg_manifests := bt_empty |}.

(** [manifests]: the values of the map, in the order of its keys *)
Definition manifests (g : CapabilityGraph) : list CapabilityManifest := bt_values (cg_manifests g).

Definition visible (g : CapabilityGraph) (request_scope : ScopeId) (id : CapabilityId) : option CapabilityManifest :=
  List.find (fun m => bool_decide (mf_id m = id) && can_see (cg_scopes g) request_scope (mf_scope m)) (manifests g).

Definition any (g : CapabilityGraph) (id : CapabilityId) : option CapabilityManifest :=
  List.find (fun m => bool_decide (mf_id m = id)) (manifests g).

Definition manifest_key (m : CapabilityManifest) : ScopedCapabilityKey := ScopedKey (mf_id m) (mf_scope m).

Definition graph_insert (m : CapabilityManifest) (g : CapabilityGraph) : result CapabilityGraphError CapabilityGraph :=
  if negb (scope_contains (cg_scopes g) (mf_scope m)) then Err (MissingScope (mf_id m) (mf_scope m))
  else
    match List.find
            (fun existing => bool_decide (mf_id existing = mf_id m)
                             && can_coexist (cg_scopes g) (mf_scope existing) (mf_scope m)) (manifests g) with
    | Some existing => Err (DuplicateCapability (mf_id m) (mf_owner existing) (mf_owner m))
    | None => Ok {| cg_scopes := cg_scopes g; cg_manifests := bt_insert (manifest_key m) m (cg_manifests g) |}
    end.

Definition remove_in_scope (id : CapabilityId) (scope : ScopeId) (g : CapabilityGraph) : CapabilityGraph :=
  {| cg_scopes := cg_scopes g; cg_manifests := bt_remove (ScopedKey id scope) (cg_manifests g) |}.

(** [for x in l { f(x)?; }] *)
Fixpoint try_each {E A} (f : A -> result E unit) (l : list A) : result E unit :=
  match l with
  | [] => Ok tt
  | x :: l => _ ← f x; try_each f l
  end.

(** ** Resolution *)

(** A computation that may run out of fuel, then may fail. *)
Definition and_then {E A B} (r : option (result E A)) (k : A -> option (result E B)) : option (result E B) :=
  match r with
  | Some (Ok a) => k a
  | Some (Err e) => Some (Err e)
  | None => None
  end.

(** [pending.sort()] *)
Definition id_le (x y : CapabilityId) : Prop := key_ltb y x = false.
#[export] Instance id_le_dec x y : Decision (id_le x y).
Proof. unfold id_le. apply _. Defined.

(** What a missing root is reported as. *)
Definition root_error (g : CapabilityGraph) (request_scope : ScopeId) (id : CapabilityId) : CapabilityGraphError :=
  match any g id with
  | Some m => InvisibleRoot id (mf_scope m) request_scope
  | None => MissingRoot id
  end.

(** The loop over [pending], a stack with its top first. *)
Fixpoint close (fuel : nat) (g : CapabilityGraph) (request_scope : ScopeId) (closure : bset CapabilityId)
    (pending : list CapabilityId) : option (result CapabilityGraphError (bset CapabilityId)) :=
  match fuel with
  | O => None
  | S fuel =>
      match pending with
      | [] => Some (Ok closure)
      | id :: pending =>
          if bt_contains id closure then close fuel g request_scope closure pending
          else
            match visible g request_scope id with
            | None => Some (Err (root_error g request_scope id))
            | Some m =>
                close fuel g request_scope (bs_add id closure) (bs_list (mf_dependencies m) ++ pending)
            end
      end
  end.

(** The state of the depth-first search. *)
Record Search := {
  se_visiting : bset CapabilityId;
  se_visited : bset CapabilityId;
  se_path : list CapabilityId;
  se_ordered : list CapabilityId
}.

Definition search_start : Search :=
  {| se_visiting := bt_empty; se_visited := bt_empty; se_path := []; se_ordered := [] |}.

Definition search_enter (id : CapabilityId) (st : Search) : Search :=
  {| se_visiting := bs_add id (se_visiting st); se_visited := se_visited st;
     se_path := se_path st ++ [id]; se_ordered := se_ordered st |}.

Definition search_leave (id : CapabilityId) (st : Search) : Search :=
  {| se_visiting := bt_remove id (se_visiting st); se_visited := bs_add id (se_visited st);
     se_path := removelast (se_path st); se_ordered := se_ordered st ++ [id] |}.

(** [path.iter().position(..)] *)
Fixpoint position (id : CapabilityId) (path : list CapabilityId) : option nat :=
  match path with
  | [] => None
  | x :: path => if decide (x = id) then Some 0%nat else S <$> position id path
  end.

Definition cycle_of (id : CapabilityId) (path : list CapabilityId) : list CapabilityId :=
  drop (default 0%nat (position id path)) path ++ [id].

(** The loop of [visit] over the dependencies of [m]; [rec] is [visit]. *)
Fixpoint visit_dependencies (g : CapabilityGraph) (m : CapabilityManifest) (id : CapabilityId)
    (included : bset CapabilityId) (rec : CapabilityId -> Search -> option (result CapabilityGraphError Search))
    (dependencies : list CapabilityId) (st : Search) : option (result CapabilityGraphError Search) :=
  match dependencies with
  | [] => Some (Ok st)
  | dependency :: dependencies =>
      match visible g (mf_scope m) dependency with
      | None => Some (Err (MissingDependency id dependency))
      | Some _ =>
          if bt_contains dependency included
          then and_then (rec dependency st) (visit_dependencies g m id included rec dependencies)
          else visit_dependencies g m id included rec dependencies st
      end
  end.

Fixpoint visit (fuel : nat) (g : CapabilityGraph) (request_scope : ScopeId) (included : bset CapabilityId)
    (id : CapabilityId) (st : Search) : option (result CapabilityGraphError Search) :=
  match fuel with
  | O => None
  | S fuel =>
      if bt_contains id (se_visited st) then Some (Ok st)
      else if bt_contains id (se_visiting st) then Some (Err (DependencyCycle (cycle_of id (se_path st))))
      else
        match visible g request_scope id with
        | None => Some (Err (MissingRoot id))
        | Some m =>
            and_then (visit_dependencies g m id included (visit fuel g request_scope included)
                        (bs_list (mf_dependencies m)) (search_enter id st))
              (fun st => Some (Ok (search_leave id st)))
        end
  end.

(** [for id in &included { self.visit(..)?; }] *)
Fixpoint visit_all (fuel : nat) (g : CapabilityGraph) (request_scope : ScopeId) (included : bset CapabilityId)
    (ids : list CapabilityId) (st : Search) : option (result CapabilityGraphError Search) :=
  match ids with
  | [] => Some (Ok st)
  | id :: ids =>
      and_then (visit fuel g request_scope included id st) (visit_all fuel g request_scope included ids)
  end.

(** The search goes at most one call deeper than there are identifiers. *)
Definition topological_order (g : CapabilityGraph) (request_scope : ScopeId) (ids : list CapabilityId)
    : option (result CapabilityGraphError (list CapabilityId)) :=
  let included := bs_collect ids in
  and_then (visit_all (S (bt_size included)) g request_scope included (bs_list included) search_start)
    (fun st => Some (Ok (se_ordered st))).

(** Each manifest pushes its dependencies at most once. *)
Definition total_dependencies (g : CapabilityGraph) : nat :=
  sum_list_with (fun m => bt_size (mf_dependencies m)) (manifests g).

Definition resolution_fuel (g : CapabilityGraph) (roots : list CapabilityId) : nat :=
  S (length roots + total_dependencies g).

(** The loops of [resolve] one after the other; [None] when fuel runs out. *)
Definition resolve_bounded (g : CapabilityGraph) (request_scope : ScopeId) (roots : list CapabilityId)
    : option (result CapabilityGraphError ResolvedCapabilityGraph) :=
  if negb (scope_contains (cg_scopes g) request_scope) then Some (Err (MissingRequestScope request_scope))
  else
    and_then (close (resolution_fuel g roots) g request_scope bt_empty (merge_sort id_le roots)) (fun closure =>
    and_then (topological_order g request_scope (bs_list closure)) (fun ordered =>
    and_then
      (Some (try_each (fun id =>
         m ← ok_or (visible g request_scope id) (MissingRoot id);
         try_each (fun conflict => ensure (negb (bt_contains conflict closure)) (Conflict id conflict))
           (bs_list (mf_conflicts m))) ordered)) (fun _ =>
    Some (Ok {| rg_request_scope := request_scope; rg_ordered := ordered |})))).

(** The fuel always suffices ([resolve_bounded_returns]), so the last case is dead. *)
Definition resolve (g : CapabilityGraph) (request_scope : ScopeId) (roots : list CapabilityId)
    : result CapabilityGraphError ResolvedCapabilityGraph :=
  match resolve_bounded g request_scope roots with
  | Some r => r
  | None => Err (MissingRequestScope request_scope)
  end.

(** ** Validation *)

Definition dependency_error (g : CapabilityGraph) (m : CapabilityManifest) (dependency : CapabilityId)
    : CapabilityGraphError :=
  match any g dependency with
  | Some other => InvisibleDependency (mf_id m) (mf_scope m) dependency (mf_scope other)
  | None => MissingDependency (mf_id m) dependency
  end.

Definition validate_manifest (g : CapabilityGraph) (m : CapabilityManifest) : result CapabilityGraphError unit :=
  _ ← try_each (fun dependency =>
        match visible g (mf_scope m) dependency with
        | Some _ => Ok tt
        | None => Err (dependency_error g m dependency)
        end) (bs_list (mf_dependencies m));
  _ ← try_each (fun conflict =>
        ensure (negb (existsb (fun other => bool_decide (mf_id other = conflict)
                                && can_coexist (cg_scopes g) (mf_scope m) (mf_scope other)) (manifests g)))
          (Conflict (mf_id m) conflict)) (bs_list (mf_conflicts m));
  _ ← resolve g (mf_scope m) [mf_id m];
  Ok tt.

Definition validate (g : CapabilityGraph) : result CapabilityGraphError unit :=
  try_each (validate_manifest g) (manifests g).
