(* ===== verification/ScopeFacts.v ===== *)
(** Scopes form a forest, walks up it end, and a capability is visible from a
    scope through at most one manifest (lemmas on Capabilities). *)

From S2P Require Import Prelude BTree Text Capabilities.

Open Scope Z_scope.

(** * Lists *)

Lemma find_Some_iff {A} (f : A -> bool) (l : list A) x :
  List.find f l = Some x -> x ∈ l /\ f x = true.
Proof. intros E%List.find_some. by rewrite list_elem_of_In. Qed.

Lemma find_None_iff {A} (f : A -> bool) (l : list A) :
  List.find f l = None <-> forall x, x ∈ l -> f x = false.
Proof.
  split.
  - intros E x Hx. eapply List.find_none; [exact E|]. by apply list_elem_of_In.
  - intros Hf. destruct (List.find f l) as [x|] eqn:E; [|done]. apply find_Some_iff in E as [Hx E].
    rewrite Hf in E; done.
Qed.

Lemma find_total {A} (f : A -> bool) (l : list A) x :
  x ∈ l -> f x = true -> exists y, List.find f l = Some y.
Proof.
  intros Hx Hf. destruct (List.find f l) as [y|] eqn:E; [by exists y|].
  rewrite find_None_iff in E. rewrite E in Hf; done.
Qed.

Lemma try_each_Ok {E A} (f : A -> result E unit) l : try_each f l = Ok tt <-> forall x, x ∈ l -> f x = Ok tt.
Proof.
  induction l as [|x l IH]; cbn; [set_solver|]. rewrite bind_Ok. setoid_rewrite elem_of_cons. split.
  - intros ([] & Hx & Hl) y [->|Hy]; [done|]. by apply IH.
  - intros Hf. exists tt. split; [by apply Hf; left|]. apply IH. intros y Hy. apply Hf. by right.
Qed.

Lemma try_each_Err {E A} (f : A -> result E unit) l e :
  try_each f l = Err e -> exists x, x ∈ l /\ f x = Err e.
Proof.
  induction l as [|x l IH]; cbn; [done|]. destruct (f x) as [[]|e'] eqn:Ex; cbn.
  - intros (y & Hy & E')%IH. exists y. split; [by right|done].
  - intros [= ->]. exists x. split; [by left|done].
Qed.

(** * Identifiers *)

Lemma trim_start_length cs : (length (trim_start cs) <= length cs)%nat.
Proof. induction cs as [|c cs IH]; cbn; [lia|]. destruct (is_whitespace c); cbn; lia. Qed.

Lemma trim_start_same cs : trim_start cs = cs <-> forall c, head cs = Some c -> is_whitespace c = false.
Proof.
  destruct cs as [|c cs]; cbn; [by split|]. destruct (is_whitespace c) eqn:E; split.
  - intros Hs. pose proof (trim_start_length cs) as Hl. rewrite Hs in Hl. cbn in Hl. lia.
  - intros Hc. specialize (Hc c eq_refl). congruence.
  - by intros _ c' [= <-].
  - done.
Qed.

(** A text is its own trimming when it neither starts nor ends with a space. *)
Lemma trim_same cs :
  trim cs = cs <->
  (forall c, head cs = Some c -> is_whitespace c = false) /\ (forall c, list.last cs = Some c -> is_whitespace c = false).
Proof.
  assert (forall c, list.last cs = Some c <-> head (rev cs) = Some c) as Hlast.
  { intros c. destruct (list_snoc_cases cs) as [->|(l & x & ->)]; [done|]. by rewrite last_snoc, rev_app_distr. }
  setoid_rewrite Hlast. rewrite <- !trim_start_same. unfold trim. split.
  - intros E. pose proof (trim_start_length cs) as H1. pose proof (trim_start_length (rev (trim_start cs))) as H2.
    pose proof (f_equal length E) as Hl. rewrite !length_rev in *.
    assert (trim_start cs = cs) as Es.
    { apply trim_start_same. intros c Hc. destruct cs as [|c' cs]; [done|]. injection Hc as ->. cbn in *.
      destruct (is_whitespace c); [|done]. pose proof (trim_start_length cs). lia. }
    split; [done|]. rewrite Es in E. rewrite <- E at 2. by rewrite rev_involutive.
  - intros [-> ->]. apply rev_involutive.
Qed.

(** What an identifier may be. *)
Definition valid_id (value : string) : Prop :=
  value <> EmptyString
  /\ (forall c, head (chars (str_bytes value)) = Some c -> is_whitespace c = false)
  /\ (forall c, list.last (chars (str_bytes value)) = Some c -> is_whitespace c = false)
  /\ (forall c, c ∈ chars (str_bytes value) -> is_control c = false).

Lemma string_id_new_Ok label value v : string_id_new label value = Ok v <-> v = value /\ valid_id value.
Proof.
  unfold string_id_new, valid_id. case_bool_decide as E1; [naive_solver|]. case_bool_decide as E2.
  - split; [done|]. intros (_ & _ & Hh & Hl & _). exfalso. apply E2. by apply trim_same.
  - apply trim_same in E2 as [Hh Hl]. destruct (existsb is_control _) eqn:Ec.
    + split; [done|]. intros (_ & _ & _ & _ & Hc). apply List.existsb_exists in Ec as (c & Hin & Ec).
      apply list_elem_of_In in Hin. by rewrite Hc in Ec.
    + split; [|by intros [-> _]]. intros [= <-]. do 4 (split; [done|]). intros c Hin. apply not_true_is_false. intros Hc.
      assert (existsb is_control (chars (str_bytes value)) = true); [|congruence]. apply List.existsb_exists. exists c.
      split; [by apply list_elem_of_In|done].
Qed.

(** * Walks *)

Definition parent_of (g : ScopeGraph) (c p : ScopeId) : Prop := scope_parent g c = Some p.

Lemma parent_of_contains g c p : parent_of g c p -> bt_contains c g = true.
Proof.
  unfold parent_of, scope_parent. rewrite bt_contains_spec. destruct (bt_get c g); cbn; [by eexists|done].
Qed.

Lemma visited_bound (g : ScopeGraph) (visited : bset ScopeId) :
  (forall k, bt_contains k visited = true -> bt_contains k g = true) -> (bt_size visited <= bt_size g)%nat.
Proof.
  intros Hsub. replace (bt_size visited) with (length (bt_keys visited)) by apply length_fmap.
  apply bt_size_keys; [apply bt_keys_NoDup|]. intros k Hk. rewrite <- bt_contains_spec. by apply Hsub, bs_elem.
Qed.

Lemma bs_size_add {K} `{EqDecision K, KeyOrder K} (k : K) (s : bset K) :
  bt_contains k s = false -> bt_size (bs_add k s) = S (bt_size s).
Proof. intros. by apply bt_size_insert, bt_contains_false. Qed.

(** [can_see] ends, on any graph of scopes. *)
Lemma can_see_loop_total fuel g target current visited :
  (forall k, bt_contains k visited = true -> bt_contains k g = true) ->
  (bt_size g + 2 <= fuel + bt_size visited)%nat ->
  is_Some (can_see_loop fuel g target current visited).
Proof.
  revert current visited. induction fuel as [|fuel IH]; intros current visited Hsub Hfuel.
  { pose proof (visited_bound _ _ Hsub). lia. }
  cbn. destruct current as [scope|]; [|done]. case_bool_decide; [done|].
  destruct (bt_contains scope visited) eqn:Ev; [done|]. destruct (bt_contains scope g) eqn:Eg.
  - apply IH.
    + intros k. rewrite bs_contains_add, orb_true_iff, bool_decide_eq_true. intros [->|?]; auto.
    + rewrite bs_size_add by done. lia.
  - unfold scope_parent. apply bt_contains_false in Eg. rewrite Eg. cbn [mbind option_bind].
    pose proof (visited_bound _ _ Hsub). destruct fuel; [lia|done].
Qed.

Lemma can_see_loop_true fuel g target current visited :
  can_see_loop fuel g target current visited = Some true ->
  exists scope, current = Some scope /\ rtc (parent_of g) scope target.
Proof.
  revert current visited. induction fuel as [|fuel IH]; intros current visited; cbn; [done|].
  destruct current as [scope|]; [|done]. case_bool_decide as E; [subst; by eexists|].
  destruct (bt_contains scope visited); [done|]. intros (p & Hp & Hr)%IH. exists scope.
  split; [done|]. by eapply rtc_l.
Qed.

Lemma closed_misses (g : ScopeGraph) (P : ScopeId -> Prop) target :
  (forall v, P v -> v <> target /\ forall p, parent_of g v p -> P p) ->
  forall scope, P scope -> ~ rtc (parent_of g) scope target.
Proof.
  intros Hinv scope Hs Hr. revert Hs. induction Hr as [s|s p t Hsp _ IH]; intros Hs.
  - by apply (Hinv s).
  - apply IH; [done|]. by apply (Hinv s).
Qed.

(** What has been visited is closed under parents but for where the walk stands. *)
Lemma can_see_loop_false fuel g target current visited :
  (forall v, bt_contains v visited = true ->
     v <> target /\ forall p, parent_of g v p -> bt_contains p visited = true \/ current = Some p) ->
  can_see_loop fuel g target current visited = Some false ->
  forall scope, bt_contains scope visited = true \/ current = Some scope -> ~ rtc (parent_of g) scope target.
Proof.
  revert current visited. induction fuel as [|fuel IH]; intros current visited Hinv; cbn; [done|].
  destruct current as [scope|].
  - case_bool_decide as Ene; [done|]. destruct (bt_contains scope visited) eqn:Ev; intros E s Hs.
    + apply closed_misses with (P := fun v => bt_contains v visited = true); [|by destruct Hs as [?|[= <-]]].
      intros v Hv. destruct (Hinv v Hv) as [? Hp]. split; [done|]. intros p Hvp. by destruct (Hp p Hvp) as [?|[= <-]].
    + apply (IH _ _) with (2 := E).
      * intros v. rewrite bs_contains_add, orb_true_iff, bool_decide_eq_true. intros [->|Hv].
        -- split; [done|]. intros p Hp. by right.
        -- destruct (Hinv v Hv) as [? Hp]. split; [done|]. intros p Hvp. left. rewrite bs_contains_add.
           destruct (Hp p Hvp) as [->|[= ->]]; [by rewrite orb_true_r|by rewrite bool_decide_eq_true_2].
      * left. rewrite bs_contains_add. destruct Hs as [->|[= ->]]; [by rewrite orb_true_r|by rewrite bool_decide_eq_true_2].
  - intros _ s [Hs|?]; [|done].
    apply closed_misses with (P := fun v => bt_contains v visited = true); [|done].
    intros v Hv. destruct (Hinv v Hv) as [? Hp]. split; [done|]. intros p Hvp. by destruct (Hp p Hvp).
Qed.

Theorem can_see_spec g a b : can_see g a b = true <-> rtc (parent_of g) a b.
Proof.
  unfold can_see. destruct (can_see_loop_total (S (S (bt_size g))) g b (Some a) bt_empty) as [r Hr]; [done|cbn; lia|].
  rewrite Hr. cbn [default]. destruct r; split; intros E; try done.
  - by apply can_see_loop_true in Hr as (? & [= <-] & ?).
  - exfalso. eapply can_see_loop_false with (scope := a) (2 := Hr); [|by right|done]. done.
Qed.

Lemma can_see_false g a b : can_see g a b = false <-> ~ rtc (parent_of g) a b.
Proof. by rewrite <- not_true_iff_false, can_see_spec. Qed.

Lemma can_see_refl g a : can_see g a a = true.
Proof. by apply can_see_spec. Qed.

(** The scopes above a scope form a chain. *)
Lemma ancestors_chain g a b c :
  rtc (parent_of g) a b -> rtc (parent_of g) a c -> rtc (parent_of g) b c \/ rtc (parent_of g) c b.
Proof.
  intros Hab. revert c. induction Hab as [a|a p b Hap Hpb IH]; intros c Hac; [by left|].
  inversion Hac as [|? p' ? Hap' Hpc]; subst.
  - right. by eapply rtc_l.
  - assert (p' = p) as -> by (unfold parent_of in *; congruence). by apply IH.
Qed.

(** * Well-formed scopes *)

(** Every parent is registered, and parents come before their children. *)
Definition scopes_ok (g : ScopeGraph) : Prop :=
  exists rank : ScopeId -> nat,
    (forall c p, parent_of g c p -> bt_contains p g = true /\ (rank p < rank c)%nat)
    /\ forall c, bt_contains c g = true -> (rank c < bt_size g)%nat.

Lemma scopes_ok_empty : scopes_ok bt_empty.
Proof. by exists (fun _ => 0%nat). Qed.

Lemma scopes_ok_parent g c p : scopes_ok g -> parent_of g c p -> bt_contains p g = true.
Proof. intros (rank & Hg & _) Hcp. by apply (Hg c). Qed.

Lemma scopes_ok_contains g c a :
  scopes_ok g -> rtc (parent_of g) c a -> bt_contains c g = true -> bt_contains a g = true.
Proof. intros Hg Hr. induction Hr as [|c p a Hcp _ IH]; [done|]. intros _. apply IH. by eapply scopes_ok_parent. Qed.

Lemma scopes_antisym g a b : scopes_ok g -> rtc (parent_of g) a b -> rtc (parent_of g) b a -> a = b.
Proof.
  intros (rank & Hg & _).
  assert (forall x y, rtc (parent_of g) x y -> x = y \/ (rank y < rank x)%nat) as Hrank.
  { intros x y Hr. induction Hr as [|x p y Hxp _ IH]; [by left|]. right.
    destruct (Hg _ _ Hxp) as (_ & ?). destruct IH as [->|?]; lia. }
  intros [?|?]%Hrank [?|?]%Hrank; [congruence..|lia].
Qed.

Lemma scope_parent_insert id node g c :
  scope_parent (bt_insert id node g) c = if decide (c = id) then sn_parent node else scope_parent g c.
Proof. unfold scope_parent. rewrite bt_get_insert. by case_decide. Qed.

Lemma bt_contains_insert {K V} `{EqDecision K, KeyOrder K} (k k' : K) (v : V) m :
  bt_contains k' (bt_insert k v m) = bool_decide (k' = k) || bt_contains k' m.
Proof. unfold bt_contains. rewrite bt_get_insert. case_decide; by case_bool_decide. Qed.

(** A new scope under a registered parent, or none. *)
Definition extends_scopes (g g' : ScopeGraph) : Prop :=
  exists id node, bt_contains id g = false /\ g' = bt_insert id node g
    /\ forall p, sn_parent node = Some p -> bt_contains p g = true.

Lemma extends_ok g g' : scopes_ok g -> extends_scopes g g' -> scopes_ok g'.
Proof.
  intros (rank & Hg & Hrank) (id & node & Hid & -> & Hp).
  assert (forall q, bt_contains q g = true -> q <> id) as Hold by congruence.
  exists (fun c => if decide (c = id) then bt_size g else rank c). split.
  - intros c p. unfold parent_of. rewrite scope_parent_insert, bt_contains_insert. destruct (decide (c = id)) as [->|Hc].
    + intros E. pose proof (Hp p E) as Hpg. rewrite Hpg, orb_true_r, decide_False by auto. split; [done|]. by apply Hrank.
    + intros E. destruct (Hg c p E) as [Hpg ?]. rewrite Hpg, orb_true_r, decide_False by auto. done.
  - intros c. rewrite bt_contains_insert, bt_size_insert by by apply bt_contains_false.
    case_bool_decide as Ec; [by rewrite decide_True; [lia|]|]. rewrite decide_False by done. intros Hc%Hrank. lia.
Qed.

(** The scopes registered before keep their ancestors. *)
Lemma extends_walks g g' a b :
  scopes_ok g -> extends_scopes g g' -> bt_contains a g = true ->
  rtc (parent_of g') a b <-> rtc (parent_of g) a b.
Proof.
  intros Hok (id & node & Hid & -> & Hp) Ha.
  assert (forall c p, bt_contains c g = true -> parent_of (bt_insert id node g) c p <-> parent_of g c p) as Hpar.
  { intros c p Hc. unfold parent_of. rewrite scope_parent_insert, decide_False by congruence. done. }
  split; intros Hr.
  - induction Hr as [|a p b Hap _ IH]; [done|]. apply Hpar in Hap; [|done].
    eapply rtc_l; [exact Hap|]. apply IH. by eapply scopes_ok_parent.
  - induction Hr as [|a p b Hap _ IH]; [done|].
    eapply rtc_l; [apply Hpar; [done|exact Hap]|]. apply IH. by eapply scopes_ok_parent.
Qed.

Lemma extends_contains g g' c : extends_scopes g g' -> bt_contains c g = true -> bt_contains c g' = true.
Proof. intros (id & node & _ & -> & _) Hc. by rewrite bt_contains_insert, Hc, orb_true_r. Qed.

Lemma scope_insert_extends id kind parent g g' :
  (forall p, parent = Some p -> bt_contains p g = true) -> scope_insert id kind parent g = Ok g' -> extends_scopes g g'.
Proof.
  unfold scope_insert. intros Hp. destruct (bt_contains id g) eqn:Eid; [done|]. intros [= <-]. by exists id, {| sn_kind := kind; sn_parent := parent |}.
Qed.

Lemma add_root_extends id kind g g' : add_root id kind g = Ok g' -> extends_scopes g g'.
Proof. by apply scope_insert_extends. Qed.

Lemma add_child_extends id kind parent g g' : add_child id kind parent g = Ok g' -> extends_scopes g g'.
Proof.
  unfold add_child. destruct (bt_contains parent g) eqn:Ep; [|done]. apply scope_insert_extends. by intros ? [= <-].
Qed.

Lemma ensure_child_extends id kind parent g g' :
  ensure_child id kind parent g = Ok g' ->
  bt_get id g' = Some {| sn_kind := kind; sn_parent := Some parent |} /\ (g' = g \/ extends_scopes g g').
Proof.
  unfold ensure_child. destruct (bt_get id g) as [[k p]|] eqn:Eid; cbn [sn_kind sn_parent].
  - destruct (bool_decide (k = kind)) eqn:Ek; [|done]. destruct (bool_decide (p = Some parent)) eqn:Epar; [|done].
    inv_bool. subst. intros [= <-]. split; [done|by left].
  - destruct (bt_contains parent g) eqn:Ep; [|done]. intros E. split.
    + unfold scope_insert in E. destruct (bt_contains id g); [done|]. injection E as <-. apply bt_get_insert_eq.
    + right. eapply scope_insert_extends; [|exact E]. by intros ? [= <-].
Qed.

Lemma ensure_child_ok id kind parent g g' : scopes_ok g -> ensure_child id kind parent g = Ok g' -> scopes_ok g'.
Proof. intros Hg E. apply ensure_child_extends in E as [_ [->|He]]; [done|by eapply extends_ok]. Qed.

(** The graphs of scopes that the public operations make. *)
Inductive scopes_built : ScopeGraph -> Prop :=
  | built_new : scopes_built bt_empty
  | built_single_root id kind : scopes_built (single_root id kind)
  | built_add_root id kind g g' : scopes_built g -> add_root id kind g = Ok g' -> scopes_built g'
  | built_add_child id kind parent g g' : scopes_built g -> add_child id kind parent g = Ok g' -> scopes_built g'
  | built_ensure_child id kind parent g g' : scopes_built g -> ensure_child id kind parent g = Ok g' -> scopes_built g'.

Lemma scopes_built_ok g : scopes_built g -> scopes_ok g.
Proof.
  induction 1 as [|id kind|id kind g g' _ IH E|id kind parent g g' _ IH E|id kind parent g g' _ IH E].
  - apply scopes_ok_empty.
  - eapply extends_ok; [apply scopes_ok_empty|]. by exists id, {| sn_kind := kind; sn_parent := None |}.
  - eapply extends_ok; [exact IH|]. by eapply add_root_extends.
  - eapply extends_ok; [exact IH|]. by eapply add_child_extends.
  - by eapply ensure_child_ok.
Qed.

(** * Well-formed graphs *)

(** Every manifest stands under its own key in a registered scope, and no two
    manifests of one capability are visible from one scope. *)
Record graph_ok (g : CapabilityGraph) : Prop := {
  gok_scopes : scopes_ok (cg_scopes g);
  gok_key k m : bt_get k (cg_manifests g) = Some m -> k = manifest_key m;
  gok_scope k m : bt_get k (cg_manifests g) = Some m -> bt_contains (mf_scope m) (cg_scopes g) = true;
  gok_unique k m k' m' :
    bt_get k (cg_manifests g) = Some m -> bt_get k' (cg_manifests g) = Some m' ->
    mf_id m = mf_id m' -> rtc (parent_of (cg_scopes g)) (mf_scope m) (mf_scope m') -> m = m'
}.

Lemma manifests_elem g m : graph_ok g -> m ∈ manifests g <-> bt_get (manifest_key m) (cg_manifests g) = Some m.
Proof.
  intros Hg. unfold manifests. rewrite bt_value. split; [|by eexists].
  intros [k Hk]. by rewrite <- (gok_key _ Hg _ _ Hk).
Qed.

(** [m] is the manifest of [id] on the way up from [s]. *)
Definition sees (g : CapabilityGraph) (s : ScopeId) (id : CapabilityId) (m : CapabilityManifest) : Prop :=
  m ∈ manifests g /\ mf_id m = id /\ rtc (parent_of (cg_scopes g)) s (mf_scope m).

Lemma sees_unique g s id m m' : graph_ok g -> sees g s id m -> sees g s id m' -> m = m'.
Proof.
  intros Hg (Hm & E & Hr) (Hm' & E' & Hr').
  apply manifests_elem in Hm, Hm'; [|done..].
  destruct (ancestors_chain _ _ _ _ Hr Hr') as [Hc|Hc]; [|symmetry].
  all: eapply (gok_unique _ Hg); [done|done|congruence|done].
Qed.

Lemma visible_sees g s id m : visible g s id = Some m -> sees g s id m.
Proof.
  unfold visible, sees. intros [Hm E]%find_Some_iff. apply andb_true_iff in E as [E%bool_decide_eq_true Hc].
  by apply can_see_spec in Hc.
Qed.

Lemma visible_spec g s id m : graph_ok g -> visible g s id = Some m <-> sees g s id m.
Proof.
  intros Hg. split; [apply visible_sees|]. intros Hs.
  destruct (find_total (fun m => bool_decide (mf_id m = id) && can_see (cg_scopes g) s (mf_scope m)) (manifests g) m)
    as [m' Hm'].
  - apply Hs.
  - destruct Hs as (_ & E & Hr). by rewrite bool_decide_eq_true_2, (proj2 (can_see_spec _ _ _) Hr).
  - fold (visible g s id) in Hm'. rewrite Hm'. f_equal. eapply sees_unique; [done|by apply visible_sees|done].
Qed.

Lemma visible_None g s id : visible g s id = None <-> forall m, ~ sees g s id m.
Proof.
  unfold visible. rewrite find_None_iff. unfold sees. split.
  - intros Hn m (Hm & E & Hr). specialize (Hn m Hm). by rewrite bool_decide_eq_true_2, (proj2 (can_see_spec _ _ _) Hr) in Hn.
  - intros Hn m Hm. apply andb_false_iff. rewrite bool_decide_eq_false, can_see_false.
    destruct (decide (mf_id m = id)) as [E|]; [right|by left]. intros Hr. by apply (Hn m).
Qed.

Lemma graph_new_ok scopes : scopes_ok scopes -> graph_ok (graph_new scopes).
Proof. by split. Qed.

Lemma graph_insert_spec m g g' :
  graph_ok g -> graph_insert m g = Ok g' <->
  bt_contains (mf_scope m) (cg_scopes g) = true
  /\ (forall e, e ∈ manifests g -> mf_id e = mf_id m ->
       ~ rtc (parent_of (cg_scopes g)) (mf_scope e) (mf_scope m) /\ ~ rtc (parent_of (cg_scopes g)) (mf_scope m) (mf_scope e))
  /\ g' = {| cg_scopes := cg_scopes g; cg_manifests := bt_insert (manifest_key m) m (cg_manifests g) |}.
Proof.
  intros Hg. unfold graph_insert, scope_contains. destruct (bt_contains (mf_scope m) (cg_scopes g)); [|naive_solver].
  cbn [negb]. destruct (List.find _ _) as [e|] eqn:Ef.
  - split; [done|]. intros (_ & Hn & _). apply find_Some_iff in Ef as [He E]. apply andb_true_iff in E as [E Hc].
    apply bool_decide_eq_true in E. destruct (Hn e He E) as [? ?].
    apply orb_true_iff in Hc as [Hc|Hc]; by apply can_see_spec in Hc.
  - rewrite find_None_iff in Ef. split; [|by intros (_ & _ & ->)]. intros [= <-]. split; [done|]. split; [|done].
    intros e He E. specialize (Ef e He). rewrite bool_decide_eq_true_2 in Ef by done. apply orb_false_iff in Ef as [? ?].
    by rewrite <- !can_see_false.
Qed.

Lemma graph_insert_ok m g g' : graph_ok g -> graph_insert m g = Ok g' -> graph_ok g'.
Proof.
  intros Hg E. apply graph_insert_spec in E as (Hs & Hn & ->); [|done].
  assert (forall k e, bt_get k (bt_insert (manifest_key m) m (cg_manifests g)) = Some e ->
            (k = manifest_key m /\ e = m) \/ (bt_get k (cg_manifests g) = Some e /\ e ∈ manifests g)) as Hget.
  { intros k e. rewrite bt_get_insert. case_decide; [intros [= <-]; by left|]. intros He. right. split; [done|].
    apply bt_value. by exists k. }
  split; cbn [cg_scopes cg_manifests].
  - apply Hg.
  - intros k e [[-> ->]|[He _]]%Hget; [done|by apply (gok_key _ Hg)].
  - intros k e [[-> ->]|[He _]]%Hget; [done|by eapply (gok_scope _ Hg)].
  - intros k e k' e' [[-> ->]|[He Hm]]%Hget [[-> ->]|[He' Hm']]%Hget E Hr; [done|..|by eapply (gok_unique _ Hg)].
    + by destruct (Hn e' Hm' (eq_sym E)).
    + by destruct (Hn e Hm E).
Qed.

Lemma graph_submap_ok g manifests' :
  graph_ok g -> (forall k m, bt_get k manifests' = Some m -> bt_get k (cg_manifests g) = Some m) ->
  graph_ok {| cg_scopes := cg_scopes g; cg_manifests := manifests' |}.
Proof.
  intros Hg Hsub. split; cbn [cg_scopes cg_manifests].
  - apply Hg.
  - intros k m Hk. by apply (gok_key _ Hg), Hsub.
  - intros k m Hk. by eapply (gok_scope _ Hg), Hsub.
  - intros k m k' m' Hk Hk'. eapply (gok_unique _ Hg); by apply Hsub.
Qed.

Lemma remove_in_scope_get id scope g k :
  bt_get k (cg_manifests (remove_in_scope id scope g))
    = if decide (k = ScopedKey id scope) then None else bt_get k (cg_manifests g).
Proof. apply bt_get_remove. Qed.

Lemma remove_in_scope_ok id scope g : graph_ok g -> graph_ok (remove_in_scope id scope g).
Proof.
  intros Hg. apply graph_submap_ok; [done|]. intros k m Hk.
  change (bt_get k (cg_manifests (remove_in_scope id scope g)) = Some m) in Hk.
  rewrite remove_in_scope_get in Hk. by case_decide.
Qed.

Lemma graph_scopes_ok g scopes' :
  graph_ok g -> scopes' = cg_scopes g \/ extends_scopes (cg_scopes g) scopes' ->
  graph_ok {| cg_scopes := scopes'; cg_manifests := cg_manifests g |}.
Proof.
  intros Hg [->|He]; [by apply graph_submap_ok|]. split; cbn [cg_scopes cg_manifests].
  - eapply extends_ok; [apply Hg|done].
  - apply (gok_key _ Hg).
  - intros k m Hk. eapply extends_contains; [done|]. by eapply (gok_scope _ Hg).
  - intros k m k' m' Hk Hk' E Hr. eapply (gok_unique _ Hg); [done..|].
    exact (proj1 (extends_walks _ scopes' _ _ (gok_scopes _ Hg) He (gok_scope _ Hg _ _ Hk)) Hr).
Qed.

(** New scopes change nothing that was visible from the others. *)
Lemma extends_sees g scopes' s id m :
  graph_ok g -> extends_scopes (cg_scopes g) scopes' -> bt_contains s (cg_scopes g) = true ->
  sees {| cg_scopes := scopes'; cg_manifests := cg_manifests g |} s id m <-> sees g s id m.
Proof.
  intros Hg He Hs. unfold sees. cbn [cg_scopes]. rewrite (extends_walks _ _ _ _ (gok_scopes _ Hg) He Hs). done.
Qed.
