(* ===== verification/ResolveFacts.v ===== *)
(** The closure of a set of capabilities and the order of their activation: the
    loops of [resolve] end, and what they return (lemmas on Capabilities). *)

From stdpp Require Import sorting.
From S2P Require Import Prelude BTree Capabilities ScopeFacts.

Open Scope Z_scope.

(** * Chains *)

Section Chains.
Context {A : Type} (R : A -> A -> Prop).

(** Each element is related to the next. *)
Definition chain (l : list A) : Prop := forall i x y, l !! i = Some x -> l !! S i = Some y -> R x y.

Lemma chain_nil : chain [].
Proof. done. Qed.

Lemma chain_snoc l x : chain l -> (forall y, list.last l = Some y -> R y x) -> chain (l ++ [x]).
Proof.
  intros Hl Hx i y z Hy Hz. destruct (decide (S i < length l)%nat) as [Hi|Hi].
  - rewrite lookup_app_l in Hy, Hz by lia. by eapply Hl.
  - apply lookup_lt_Some in Hz as Hlen. rewrite length_app in Hlen. cbn in Hlen.
    rewrite lookup_app_r in Hz by lia. replace (S i - length l)%nat with 0%nat in Hz by lia. injection Hz as <-.
    rewrite lookup_app_l in Hy by lia. apply Hx. rewrite last_lookup. by replace (pred (length l)) with i by lia.
Qed.

Lemma chain_drop k l : chain l -> chain (drop k l).
Proof. intros Hl i x y. rewrite !lookup_drop. intros Hx Hy. eapply Hl; [exact Hx|]. by rewrite <- Nat.add_succ_r. Qed.

Lemma chain_prefix l1 l2 : chain (l1 ++ l2) -> chain l1.
Proof.
  intros Hl i x y Hx Hy. eapply Hl; by apply lookup_app_l_Some.
Qed.

(** A chain that starts and ends with the same element. *)
Definition cycle (l : list A) : Prop := exists x l', l = x :: l' ++ [x] /\ chain l.

Lemma chain_rtc x l y : chain (x :: l ++ [y]) -> tc R x y.
Proof.
  revert x. induction l as [|z l IH]; intros x Hc.
  - apply tc_once. by apply (Hc 0%nat).
  - eapply tc_l; [by apply (Hc 0%nat)|]. apply IH. by apply (chain_drop 1) in Hc.
Qed.

Lemma cycle_tc l : cycle l -> exists x, x ∈ l /\ tc R x x.
Proof. intros (x & l' & -> & Hc). exists x. split; [by left|]. by eapply chain_rtc. Qed.
End Chains.

Lemma sum_list_with_less {A} (f f' : A -> nat) l x :
  x ∈ l -> f' x = 0%nat -> (forall y, (f' y <= f y)%nat) -> (sum_list_with f' l + f x <= sum_list_with f l)%nat.
Proof.
  intros Hx Hf' Hle. assert (forall l, (sum_list_with f' l <= sum_list_with f l)%nat) as Hmono.
  { clear l Hx. intros l. induction l as [|y l IH]; cbn; [lia|]. specialize (Hle y). lia. }
  induction l as [|y l IH]; [set_solver|]. cbn. apply elem_of_cons in Hx as [->|Hx].
  - specialize (Hmono l). lia.
  - specialize (IH Hx). specialize (Hle y). lia.
Qed.

Lemma bs_list_length {K} `{EqDecision K, KeyOrder K} (s : bset K) : length (bs_list s) = bt_size s.
Proof. apply length_fmap. Qed.

(** * The graph seen from one scope *)

Section Resolution.
Context (g : CapabilityGraph) (s : ScopeId).

(** [d] is a dependency of the manifest of [id] that is visible from [s]. *)
Definition edge (id d : CapabilityId) : Prop :=
  exists m, visible g s id = Some m /\ bt_contains d (mf_dependencies m) = true.

(** The capabilities needed for [roots]. *)
Definition needed (roots : list CapabilityId) (id : CapabilityId) : Prop := exists r, r ∈ roots /\ rtc edge r id.

Lemma needed_step roots id d : needed roots id -> edge id d -> needed roots d.
Proof. intros (r & Hr & Hid) Hd. exists r. split; [done|]. by eapply rtc_r. Qed.

Lemma needed_root roots id : id ∈ roots -> needed roots id.
Proof. intros. by exists id. Qed.

(** ** The closure *)

(** The dependencies that are still to be pushed. *)
Definition unpushed (closure : bset CapabilityId) (m : CapabilityManifest) : nat :=
  if bt_contains (mf_id m) closure then 0 else bt_size (mf_dependencies m).

Lemma unpushed_add closure m :
  m ∈ manifests g -> bt_contains (mf_id m) closure = false ->
  (sum_list_with (unpushed (bs_add (mf_id m) closure)) (manifests g) + bt_size (mf_dependencies m)
    <= sum_list_with (unpushed closure) (manifests g))%nat.
Proof.
  intros Hm Hid.
  assert (bt_size (mf_dependencies m) = unpushed closure m) as -> by (unfold unpushed; by rewrite Hid).
  apply sum_list_with_less; [done|..].
  - unfold unpushed. by rewrite bs_contains_add, bool_decide_eq_true_2.
  - intros m'. unfold unpushed. rewrite bs_contains_add. case_bool_decide; cbn; [|done]. lia.
Qed.

Lemma close_total fuel closure pending :
  (length pending + sum_list_with (unpushed closure) (manifests g) < fuel)%nat ->
  is_Some (close fuel g s closure pending).
Proof.
  revert closure pending. induction fuel as [|fuel IH]; intros closure pending Hfuel; [lia|]. cbn.
  destruct pending as [|id pending]; [done|]. cbn in Hfuel. destruct (bt_contains id closure) eqn:Eid; [apply IH; lia|].
  destruct (visible g s id) as [m|] eqn:Em; [|done]. apply IH. rewrite length_app, bs_list_length.
  apply visible_sees in Em as (Hm & <- & _). pose proof (unpushed_add closure m Hm Eid). lia.
Qed.

(** A set of capabilities that are visible, with all their dependencies. *)
Definition closed (closure : bset CapabilityId) : Prop :=
  forall id, bt_contains id closure = true ->
    exists m, visible g s id = Some m /\ forall d, edge id d -> bt_contains d closure = true.

Lemma close_Ok fuel closure pending cl :
  (forall id, bt_contains id closure = true -> exists m, visible g s id = Some m
     /\ forall d, edge id d -> bt_contains d closure = true \/ d ∈ pending) ->
  close fuel g s closure pending = Some (Ok cl) ->
  closed cl
  /\ (forall id, bt_contains id closure = true \/ id ∈ pending -> bt_contains id cl = true)
  /\ (forall id, bt_contains id cl = true -> bt_contains id closure = true \/ needed pending id).
Proof.
  revert closure pending. induction fuel as [|fuel IH]; intros closure pending Hinv; cbn; [done|].
  destruct pending as [|id pending].
  - intros [= <-]. split; [|set_solver]. intros id Hid. destruct (Hinv id Hid) as (m & Hm & Hd). exists m.
    split; [done|]. set_solver.
  - destruct (bt_contains id closure) eqn:Eid.
    + intros E. apply IH in E as (Hcl & Hin & Hout).
      * split; [done|]. split; [set_solver|]. intros x [?|(r & Hr & Hx)]%Hout; [by left|]. right. exists r. set_solver.
      * intros x Hx. destruct (Hinv x Hx) as (m & Hm & Hd). exists m. split; [done|]. set_solver.
    + destruct (visible g s id) as [m|] eqn:Em; [|done]. intros E. apply IH in E as (Hcl & Hin & Hout).
      * split; [done|]. split.
        -- intros x Hx. apply Hin. rewrite bs_contains_add, orb_true_iff, bool_decide_eq_true, elem_of_app. set_solver.
        -- intros x [Hx|(r & Hr & Hx)]%Hout.
           ++ rewrite bs_contains_add, orb_true_iff, bool_decide_eq_true in Hx. destruct Hx as [->|?]; [|by left].
              right. apply needed_root. by left.
           ++ right. apply elem_of_app in Hr as [Hr|Hr]; [|exists r; set_solver]. exists id. split; [by left|].
              eapply rtc_l; [|done]. exists m. split; [done|]. by apply bs_elem.
      * intros x. rewrite bs_contains_add, orb_true_iff, bool_decide_eq_true. intros [->|Hx].
        -- exists m. split; [done|]. intros d (m' & Hm' & Hd). replace m' with m in Hd by congruence. right.
           apply elem_of_app. left. by apply bs_elem.
        -- destruct (Hinv x Hx) as (m' & Hm' & Hd). exists m'. split; [done|]. intros d Hxd.
           rewrite bs_contains_add, orb_true_iff, bool_decide_eq_true, elem_of_app. specialize (Hd d Hxd). set_solver.
Qed.

Lemma close_Err fuel closure pending e :
  close fuel g s closure pending = Some (Err e) ->
  exists id, needed pending id /\ visible g s id = None /\ e = root_error g s id.
Proof.
  revert closure pending. induction fuel as [|fuel IH]; intros closure pending; cbn; [done|].
  destruct pending as [|id pending]; [done|]. destruct (bt_contains id closure).
  - intros (x & (r & Hr & Hx) & Hn & He)%IH. exists x. split; [|done]. exists r. set_solver.
  - destruct (visible g s id) as [m|] eqn:Em.
    + intros (x & (r & Hr & Hx) & Hn & He)%IH. exists x. split; [|done].
      apply elem_of_app in Hr as [Hr|Hr]; [|exists r; set_solver]. exists id. split; [by left|].
      eapply rtc_l; [|done]. exists m. split; [done|]. by apply bs_elem.
    + intros [= <-]. exists id. split; [apply needed_root; by left|done].
Qed.

(** ** The depth-first search *)

Section Search.
Context (included : bset CapabilityId) (Hclosed : closed included).

(** Every dependency of [id] is visible from the scope [id] was registered in. *)
Definition dependencies_visible (id : CapabilityId) : Prop :=
  forall m d, visible g s id = Some m -> bt_contains d (mf_dependencies m) = true ->
    is_Some (visible g (mf_scope m) d).

Record search_ok (st : Search) : Prop := {
  so_visited id : bt_contains id (se_visited st) = true <-> id ∈ se_ordered st;
  so_visiting id : bt_contains id (se_visiting st) = true <-> id ∈ se_path st;
  so_nodup : NoDup (se_path st ++ se_ordered st);
  so_included id : id ∈ se_path st ++ se_ordered st -> bt_contains id included = true;
  so_chain : chain edge (se_path st);
  so_order i id d : se_ordered st !! i = Some id -> edge id d -> exists j, (j < i)%nat /\ se_ordered st !! j = Some d;
  so_visible id : id ∈ se_ordered st -> dependencies_visible id
}.

(** What the errors of the search say of the graph. *)
Definition search_error (e : CapabilityGraphError) : Prop :=
  match e with
  | DependencyCycle c => cycle edge c /\ forall id, id ∈ c -> bt_contains id included = true
  | MissingDependency id d =>
      bt_contains id included = true
      /\ exists m, visible g s id = Some m /\ bt_contains d (mf_dependencies m) = true /\ visible g (mf_scope m) d = None
  | _ => False
  end.

(** A step of the search: the path is as before, the order has grown. *)
Definition search_step (st st' : Search) : Prop :=
  search_ok st' /\ se_path st' = se_path st /\ se_ordered st `prefix_of` se_ordered st'.

Definition visits (id : CapabilityId) (st : Search) (r : option (result CapabilityGraphError Search)) : Prop :=
  match r with
  | None => False
  | Some (Ok st') => search_step st st' /\ id ∈ se_ordered st'
  | Some (Err e) => search_error e
  end.

Lemma path_bound st : search_ok st -> (length (se_path st) <= bt_size included)%nat.
Proof.
  intros Hst. apply bt_size_keys; [apply (proj1 (proj1 (list.NoDup_app _ _) (so_nodup _ Hst)))|]. intros k Hk. rewrite <- bt_contains_spec.
  apply (so_included _ Hst). apply elem_of_app. by left.
Qed.

Lemma search_step_trans st1 st2 st3 : search_step st1 st2 -> search_step st2 st3 -> search_step st1 st3.
Proof. intros (_ & E1 & P1) (H3 & E2 & P2). split; [done|]. split; [congruence|by etrans]. Qed.

Lemma position_elem id path : id ∈ path -> exists k, position id path = Some k /\ path !! k = Some id.
Proof.
  induction path as [|x path IH]; [set_solver|]. cbn. intros Hid. case_decide; [subst; by exists 0%nat|].
  destruct IH as (k & -> & Hl); [set_solver|]. by exists (S k).
Qed.

Lemma cycle_found id st :
  search_ok st -> id ∈ se_path st -> (forall x, list.last (se_path st) = Some x -> edge x id) ->
  search_error (DependencyCycle (cycle_of id (se_path st))).
Proof.
  intros Hst Hid Hlast. destruct (position_elem _ _ Hid) as (k & Hk & Hl). unfold cycle_of. rewrite Hk.
  change (default 0%nat (Some k)) with k.
  pose proof (chain_drop edge k _ (chain_snoc edge _ id (so_chain _ Hst) Hlast)) as Hc.
  rewrite drop_app_le in Hc by (apply lookup_lt_Some in Hl; lia).
  rewrite (drop_S _ _ _ Hl) in Hc |- *. split; [by exists id, (drop (S k) (se_path st))|].
  intros x. rewrite elem_of_app, list_elem_of_singleton. intros Hx. apply (so_included _ Hst), elem_of_app. left.
  destruct Hx as [Hx| ->]; [|done]. rewrite <- (drop_S _ _ _ Hl) in Hx. rewrite <- (take_drop k (se_path st)).
  apply elem_of_app. by right.
Qed.

Lemma search_enter_ok id st :
  search_ok st -> bt_contains id included = true -> bt_contains id (se_visited st) = false ->
  bt_contains id (se_visiting st) = false -> (forall x, list.last (se_path st) = Some x -> edge x id) ->
  search_ok (search_enter id st).
Proof.
  intros Hst Hin Hnv Hnp Hlast. split; cbn [search_enter se_visiting se_visited se_path se_ordered].
  - apply (so_visited _ Hst).
  - intros x. rewrite bs_contains_add, orb_true_iff, bool_decide_eq_true, elem_of_app, list_elem_of_singleton.
    rewrite (so_visiting _ Hst). naive_solver.
  - rewrite <- (assoc_L (++)). cbn. apply NoDup_Permutation_proper with (x := id :: se_path st ++ se_ordered st).
    + apply Permutation_middle.
    + apply list.NoDup_cons. split; [|apply (so_nodup _ Hst)]. rewrite elem_of_app, <- (so_visited _ Hst), <- (so_visiting _ Hst).
      rewrite Hnv, Hnp. naive_solver.
  - intros x. rewrite !elem_of_app, list_elem_of_singleton. intros [[?| ->]|?]; [|done|];
      apply (so_included _ Hst), elem_of_app; auto.
  - apply chain_snoc; [apply (so_chain _ Hst)|done].
  - apply (so_order _ Hst).
  - apply (so_visible _ Hst).
Qed.

Lemma search_leave_ok id st st' :
  search_ok st -> search_ok st' -> se_path st' = se_path st ++ [id] ->
  se_ordered (search_enter id st) `prefix_of` se_ordered st' ->
  (forall d, edge id d -> d ∈ se_ordered st') -> dependencies_visible id ->
  search_step st (search_leave id st').
Proof.
  intros Hst Hst' Hpath [l Hl] Hdeps Hvis. cbn [search_enter se_ordered] in Hl.
  pose proof (so_nodup _ Hst') as Hnd. rewrite Hpath in Hnd.
  assert (id ∉ se_path st) as Hnid.
  { apply list.NoDup_app in Hnd as [Hnd _]. apply list.NoDup_app in Hnd as (_ & Hnd & _). intros Hid.
    apply (Hnd id Hid). by left. }
  assert (removelast (se_path st') = se_path st) as Hrem by (rewrite Hpath; apply removelast_last).
  split; [split; cbn [search_leave se_visiting se_visited se_path se_ordered]; rewrite ?Hrem|].
  - intros x. rewrite bs_contains_add, orb_true_iff, bool_decide_eq_true, elem_of_app, list_elem_of_singleton.
    rewrite (so_visited _ Hst'). naive_solver.
  - intros x. rewrite bs_contains_remove, andb_true_iff, negb_true_iff, bool_decide_eq_false, (so_visiting _ Hst'), Hpath.
    rewrite elem_of_app, list_elem_of_singleton. naive_solver.
  - eapply NoDup_Permutation_proper; [|exact Hnd]. rewrite <- (assoc_L (++)). apply Permutation_app_head.
    by rewrite Permutation_app_comm.
  - intros x Hx. apply (so_included _ Hst'). rewrite Hpath. set_solver.
  - apply (so_chain _ Hst).
  - intros i x d Hx Hd. apply lookup_snoc_Some in Hx as [[Hi Hx]|[-> <-]].
    + destruct (so_order _ Hst' i x d Hx Hd) as (j & Hj & Hjd). exists j. split; [done|]. by apply lookup_app_l_Some.
    + apply Hdeps, list_elem_of_lookup in Hd as [j Hj]. exists j. split; [by eapply lookup_lt_Some|].
      by apply lookup_app_l_Some.
  - intros x. rewrite elem_of_app, list_elem_of_singleton. intros [Hx| ->]; [by apply (so_visible _ Hst')|done].
  - cbn. split; [done|]. rewrite Hl. rewrite <- (assoc_L (++)). by eexists.
Qed.

(** The loop over dependencies, given that its recursive call visits. *)
Lemma visit_dependencies_spec rec path m id ds st :
  (forall d st, search_ok st -> bt_contains d included = true -> edge id d -> se_path st = path ++ [id] ->
     visits d st (rec d st)) ->
  visible g s id = Some m -> bt_contains id included = true ->
  (forall d, d ∈ ds -> bt_contains d (mf_dependencies m) = true) ->
  search_ok st -> se_path st = path ++ [id] ->
  match visit_dependencies g m id included rec ds st with
  | None => False
  | Some (Ok st') =>
      search_step st st' /\ forall d, d ∈ ds -> d ∈ se_ordered st' /\ is_Some (visible g (mf_scope m) d)
  | Some (Err e) => search_error e
  end.
Proof.
  intros Hrec Hm Hid. revert st. induction ds as [|d ds IH]; intros st Hds Hst Hpath; cbn.
  { split; [done|set_solver]. }
  assert (edge id d) as Hedge by (exists m; split; [done|]; apply Hds; by left).
  destruct (visible g (mf_scope m) d) as [m'|] eqn:Ed.
  - destruct (Hclosed id Hid) as (m0 & Hm0 & Hcl). rewrite (Hcl d Hedge).
    pose proof (Hrec d st Hst (Hcl d Hedge) Hedge Hpath) as Hv.
    destruct (rec d st) as [[st1|e]|]; [|exact Hv|exact Hv]. destruct Hv as [Hstep Hd]. cbn [and_then].
    assert (search_ok st1) as Hst1 by apply Hstep. assert (se_path st1 = se_path st) as Hp1 by apply Hstep.
    rewrite <- Hp1 in Hpath. specialize (IH st1 (fun d Hd => Hds d (list_elem_of_further _ _ _ Hd)) Hst1 Hpath).
    destruct (visit_dependencies g m id included rec ds st1) as [[st2|e]|]; [|exact IH|exact IH].
    destruct IH as [Hstep' Hds']. split; [by eapply search_step_trans|].
    intros x [->|Hx]%elem_of_cons; [|by apply Hds'].
    split; [|by eexists]. destruct Hstep' as (_ & _ & [l ->]). apply elem_of_app. by left.
  - split; [done|]. exists m. split; [done|]. split; [|done]. apply Hds. by left.
Qed.

(** A visit with enough fuel ends, puts the capability into the order after its
    dependencies, and reports only what is wrong with the graph. *)
Lemma visit_spec fuel id st :
  search_ok st -> bt_contains id included = true -> (forall x, list.last (se_path st) = Some x -> edge x id) ->
  (bt_size included < fuel + length (se_path st))%nat -> visits id st (visit fuel g s included id st).
Proof.
  revert id st. induction fuel as [|fuel IH]; intros id st Hst Hid Hlast Hfuel.
  { pose proof (path_bound _ Hst). lia. }
  cbn [visit]. destruct (bt_contains id (se_visited st)) eqn:Ev.
  { split; [done|]. by apply (so_visited _ Hst). }
  destruct (bt_contains id (se_visiting st)) eqn:Ep.
  { apply cycle_found; [done| |done]. by apply (so_visiting _ Hst). }
  destruct (Hclosed id Hid) as (m & Hm & _). rewrite Hm.
  pose proof (search_enter_ok id st Hst Hid Ev Ep Hlast) as Hent.
  assert (forall d st', search_ok st' -> bt_contains d included = true -> edge id d -> se_path st' = se_path st ++ [id] ->
            visits d st' (visit fuel g s included d st')) as Hrec.
  { intros d st' Hst' Hd Hedge Hpath. apply IH; [done..| |].
    - intros x. rewrite Hpath, last_snoc. by intros [= <-].
    - rewrite Hpath, length_app. cbn. lia. }
  pose proof (visit_dependencies_spec _ _ m id (bs_list (mf_dependencies m)) (search_enter id st) Hrec Hm Hid
                (fun d => proj1 (bs_elem d _)) Hent eq_refl) as Hvd.
  destruct (visit_dependencies _ _ _ _ _ _ _) as [[st1|e]|]; cbn [and_then]; [|exact Hvd|exact Hvd].
  destruct Hvd as [(Hst1 & Hp1 & Hpre) Hds]. split.
  - apply search_leave_ok; [done..| |].
    + intros d (m' & Hm' & Hd). replace m' with m in Hd by congruence. by apply Hds, bs_elem.
    + intros m' d Hm' Hd. replace m' with m in * by congruence. by apply Hds, bs_elem.
  - cbn. apply elem_of_app. right. by left.
Qed.

Lemma visit_all_spec fuel ids st :
  (bt_size included < fuel)%nat -> (forall id, id ∈ ids -> bt_contains id included = true) ->
  search_ok st -> se_path st = [] ->
  match visit_all fuel g s included ids st with
  | None => False
  | Some (Ok st') => search_step st st' /\ forall id, id ∈ ids -> id ∈ se_ordered st'
  | Some (Err e) => search_error e
  end.
Proof.
  intros Hfuel. revert st. induction ids as [|id ids IH]; intros st Hids Hst Hpath; cbn.
  { split; [done|set_solver]. }
  assert (visits id st (visit fuel g s included id st)) as Hv.
  { apply visit_spec; [done|apply Hids; by left|by rewrite Hpath|rewrite Hpath; cbn; lia]. }
  destruct (visit fuel g s included id st) as [[st1|e]|]; [|exact Hv|exact Hv]. destruct Hv as [Hstep Hid].
  cbn [and_then]. specialize (IH st1 (fun d Hd => Hids d (list_elem_of_further _ _ _ Hd))).
  destruct (visit_all fuel g s included ids st1) as [[st2|e]|]; [|by apply IH; [apply Hstep|rewrite <- Hpath; apply Hstep]..].
  destruct IH as [Hstep' Hids']; [apply Hstep|rewrite <- Hpath; apply Hstep|]. split; [by eapply search_step_trans|].
  intros x [->|Hx]%elem_of_cons; [|by apply Hids']. destruct Hstep' as (_ & _ & [l ->]). apply elem_of_app. by left.
Qed.

Lemma search_start_ok : search_ok search_start.
Proof.
  split; cbn; try set_solver.
  - constructor.
  - apply chain_nil.
Qed.

(** The order of a closed set: a permutation of it, dependencies first. *)
Record ordering (ordered : list CapabilityId) : Prop := {
  ord_NoDup : NoDup ordered;
  ord_elem id : id ∈ ordered <-> bt_contains id included = true;
  ord_before i id d : ordered !! i = Some id -> edge id d -> exists j, (j < i)%nat /\ ordered !! j = Some d;
  ord_visible id : id ∈ ordered -> dependencies_visible id
}.

Lemma visit_all_included :
  match visit_all (S (bt_size included)) g s included (bs_list included) search_start with
  | None => False
  | Some (Ok st) => ordering (se_ordered st)
  | Some (Err e) => search_error e
  end.
Proof.
  pose proof (visit_all_spec (S (bt_size included)) (bs_list included) search_start) as Hv.
  destruct (visit_all _ _ _ _ _ _) as [[st|e]|].
  - destruct Hv as [(Hst & Hp & _) Hids]; [lia|by intros id; rewrite bs_elem|apply search_start_ok|done|].
    pose proof (so_nodup _ Hst) as Hnd. rewrite Hp in Hnd. split.
    + done.
    + intros id. split; [|by intros Hid; apply Hids, bs_elem].
      intros Hid. apply (so_included _ Hst). rewrite Hp. done.
    + apply (so_order _ Hst).
    + apply (so_visible _ Hst).
  - apply Hv; [lia|by intros id; rewrite bs_elem|apply search_start_ok|done].
  - apply Hv; [lia|by intros id; rewrite bs_elem|apply search_start_ok|done].
Qed.
End Search.
End Resolution.

(** * Resolution *)

Section Resolve.
Context (g : CapabilityGraph) (s : ScopeId).

(** What it takes for [roots] to be resolved from [s]. *)
Record resolvable (roots : list CapabilityId) : Prop := {
  rs_scope : bt_contains s (cg_scopes g) = true;
  rs_visible id : needed g s roots id -> is_Some (visible g s id);
  rs_dependencies id : needed g s roots id -> dependencies_visible g s id;
  rs_conflicts id m c : needed g s roots id -> visible g s id = Some m -> needed g s roots c ->
    bt_contains c (mf_conflicts m) = false;
  rs_acyclic id : needed g s roots id -> ~ tc (edge g s) id id
}.

(** The order of activation: what is needed, once each, dependencies first. *)
Record dependency_first (roots ordered : list CapabilityId) : Prop := {
  df_NoDup : NoDup ordered;
  df_elem id : id ∈ ordered <-> needed g s roots id;
  df_before i id d : ordered !! i = Some id -> edge g s id d -> exists j, (j < i)%nat /\ ordered !! j = Some d
}.

(** What each error says of the graph. *)
Definition resolve_error (roots : list CapabilityId) (e : CapabilityGraphError) : Prop :=
  match e with
  | MissingRequestScope s' => s' = s /\ bt_contains s (cg_scopes g) = false
  | MissingRoot id => needed g s roots id /\ forall m, m ∈ manifests g -> mf_id m <> id
  | InvisibleRoot id scope s' =>
      s' = s /\ needed g s roots id /\ visible g s id = None
      /\ exists m, m ∈ manifests g /\ mf_id m = id /\ mf_scope m = scope
  | MissingDependency id d =>
      needed g s roots id
      /\ exists m, visible g s id = Some m /\ bt_contains d (mf_dependencies m) = true /\ visible g (mf_scope m) d = None
  | DependencyCycle c => cycle (edge g s) c /\ forall id, id ∈ c -> needed g s roots id
  | Conflict id c =>
      needed g s roots id /\ needed g s roots c
      /\ exists m, visible g s id = Some m /\ bt_contains c (mf_conflicts m) = true
  | _ => False
  end.

Lemma dependency_first_acyclic roots ordered id :
  dependency_first roots ordered -> needed g s roots id -> ~ tc (edge g s) id id.
Proof.
  intros Hd Hid Hcycle.
  assert (forall x y, tc (edge g s) x y -> forall i, ordered !! i = Some x -> exists j, (j < i)%nat /\ ordered !! j = Some y)
    as Hdown.
  { intros x y Hxy. induction Hxy as [x y Hxy|x y z Hxy _ IH]; intros i Hi.
    - by eapply df_before.
    - destruct (df_before _ _ Hd i x y Hi Hxy) as (j & Hj & Hjy). destruct (IH j Hjy) as (k & Hk & Hkz).
      exists k. split; [lia|done]. }
  apply (df_elem _ _ Hd), list_elem_of_lookup in Hid as [i Hi]. destruct (Hdown _ _ Hcycle i Hi) as (j & Hj & Hjid).
  assert (i = j) by (by eapply NoDup_lookup; [apply Hd|..]). lia.
Qed.

Lemma root_error_explains roots id :
  needed g s roots id -> visible g s id = None -> resolve_error roots (root_error g s id).
Proof.
  intros Hid Hn. unfold root_error. destruct (any g id) as [m|] eqn:Ea.
  - apply find_Some_iff in Ea as [Hm E%bool_decide_eq_true]. repeat split; try done. by exists m.
  - split; [done|]. intros m Hm E. pose proof (proj1 (find_None_iff _ _) Ea m Hm) as Hf. cbn in Hf.
    by rewrite bool_decide_eq_true_2 in Hf.
Qed.

Lemma unpushed_none :
  (sum_list_with (unpushed bt_empty) (manifests g) <= total_dependencies g)%nat.
Proof. unfold total_dependencies. induction (manifests g) as [|m l IH]; cbn; [lia|]. unfold unpushed at 1. cbn. lia. Qed.

Definition resolves (roots : list CapabilityId) (r : option (result CapabilityGraphError ResolvedCapabilityGraph)) : Prop :=
  match r with
  | None => False
  | Some (Ok rg) => rg_request_scope rg = s /\ dependency_first roots (rg_ordered rg) /\ resolvable roots
  | Some (Err e) => resolve_error roots e
  end.

(** The check for conflicts within what is resolved. *)
Definition conflict_check (closure : bset CapabilityId) (id : CapabilityId) : result CapabilityGraphError unit :=
  m ← ok_or (visible g s id) (MissingRoot id);
  try_each (fun conflict => ensure (negb (bt_contains conflict closure)) (Conflict id conflict)) (bs_list (mf_conflicts m)).

Lemma conflict_check_Err closure id e m :
  visible g s id = Some m -> conflict_check closure id = Err e ->
  exists c, e = Conflict id c /\ bt_contains c (mf_conflicts m) = true /\ bt_contains c closure = true.
Proof.
  intros Hm. unfold conflict_check. rewrite Hm. cbn. intros (c & Hc & E)%try_each_Err. apply bs_elem in Hc. exists c.
  destruct (bt_contains c closure) eqn:Ec; [|done]. by injection E as <-.
Qed.

Lemma conflict_check_Ok closure id m c :
  visible g s id = Some m -> conflict_check closure id = Ok tt -> bt_contains c (mf_conflicts m) = true ->
  bt_contains c closure = false.
Proof.
  intros Hm. unfold conflict_check. rewrite Hm. cbn. intros Hall Hc%bs_elem.
  pose proof (proj1 (try_each_Ok _ _) Hall c Hc) as E. apply ensure_Ok in E. by apply negb_true_iff in E.
Qed.

Lemma resolve_closed roots closure :
  bt_contains s (cg_scopes g) = true -> closed g s closure ->
  (forall id, bt_contains id closure = true <-> needed g s roots id) ->
  resolves roots
    (and_then (topological_order g s (bs_list closure)) (fun ordered =>
     and_then (Some (try_each (conflict_check closure) ordered)) (fun _ =>
     Some (Ok {| rg_request_scope := s; rg_ordered := ordered |})))).
Proof.
  intros Hs Hcl Hneed. unfold topological_order.
  assert (bs_collect (bs_list closure) = closure) as ->.
  { apply bs_ext. intros k. apply eq_true_iff_eq. by rewrite bs_collect_elem, bs_elem. }
  pose proof (visit_all_included g s closure Hcl) as Hv.
  destruct (visit_all _ _ _ _ _ _) as [[st|e]|]; cbn [and_then]; [| |done].
  2: { destruct e; try done; cbn in Hv |- *.
       - destruct Hv as [Hid Hm]. split; [by apply Hneed|done].
       - destruct Hv as [Hc Hin]. split; [done|]. intros id Hid. by apply Hneed, Hin. }
  assert (dependency_first roots (se_ordered st)) as Hdf.
  { split; [apply Hv| |apply Hv]. intros id. rewrite <- Hneed. apply Hv. }
  assert (forall id, id ∈ se_ordered st -> is_Some (visible g s id)) as Hvis.
  { intros id Hid. apply (ord_elem _ _ _ _ Hv) in Hid. destruct (Hcl id Hid) as (m & -> & _). by eexists. }
  destruct (try_each _ _) as [[]|e] eqn:Et; cbn.
  - split; [done|]. split; [done|]. split.
    + done.
    + intros id Hid. apply Hvis. by apply (df_elem _ _ Hdf).
    + intros id Hid. apply (ord_visible _ _ _ _ Hv). by apply (df_elem _ _ Hdf).
    + intros id m c Hid Hm Hc. apply not_true_iff_false. intros Hconf.
      pose proof (proj1 (try_each_Ok _ _) Et id (proj2 (df_elem _ _ Hdf id) Hid)) as Hcheck.
      pose proof (conflict_check_Ok _ _ _ c Hm Hcheck Hconf) as Hout. apply Hneed in Hc. congruence.
    + intros id. by apply dependency_first_acyclic with (ordered := se_ordered st).
  - apply try_each_Err in Et as (id & Hid & E). destruct (Hvis id Hid) as [m Hm].
    destruct (conflict_check_Err _ _ _ m Hm E) as (c & Ee & Hc & Hin). rewrite Ee.
    split; [by apply (df_elem _ _ Hdf)|]. split; [by apply Hneed|]. by exists m.
Qed.

Lemma needed_permutation roots roots' id : Permutation roots roots' -> needed g s roots id -> needed g s roots' id.
Proof. intros Hp (r & Hr & Hid). exists r. by rewrite <- Hp. Qed.

Lemma resolves_permutation roots roots' r : Permutation roots roots' -> resolves roots r -> resolves roots' r.
Proof.
  intros Hp. assert (forall id, needed g s roots id <-> needed g s roots' id) as E.
  { intros id. split; [by apply needed_permutation|apply needed_permutation; by symmetry]. }
  destruct r as [[rg|e]|]; cbn; [| |done].
  - intros (? & [] & []). split; [done|]. split; split; try done; intros *; rewrite <- ?E; eauto.
  - destruct e; cbn; rewrite <- ?E; try done. intros [? Hc]. split; [done|]. intros id Hid. by apply E, Hc.
Qed.

(** Resolution ends, with an order or with an error that the graph explains. *)
Lemma resolve_bounded_spec roots : resolves roots (resolve_bounded g s roots).
Proof.
  unfold resolve_bounded, scope_contains. destruct (bt_contains s (cg_scopes g)) eqn:Es; cbn [negb]; [|done].
  apply resolves_permutation with (roots := merge_sort id_le roots); [apply merge_sort_Permutation|].
  set (sorted := merge_sort id_le roots).
  destruct (close_total g s (resolution_fuel g roots) bt_empty sorted) as [[closure|e] Hr].
  { unfold resolution_fuel, sorted. rewrite (Permutation_length (merge_sort_Permutation id_le roots)).
    pose proof unpushed_none. lia. }
  - rewrite Hr. cbn [and_then]. destruct (close_Ok g s _ bt_empty _ _ ltac:(by intros id Hid) Hr) as (Hcl & Hin & Hout).
    apply resolve_closed; [done..|]. intros id. split.
    + intros [?|?]%Hout; done.
    + intros (r & Hsr & Hid). assert (bt_contains r closure = true) as Hrc by (apply Hin; by right).
      clear Hsr. induction Hid as [|r x id Hrx _ IH]; [done|]. apply IH.
      destruct (Hcl r Hrc) as (m & _ & Hd). by apply Hd.
  - rewrite Hr. cbn [and_then]. apply close_Err in Hr as (id & Hid & Hn & ->). by apply root_error_explains.
Qed.

Lemma resolve_spec roots : resolves roots (Some (resolve g s roots)).
Proof.
  pose proof (resolve_bounded_spec roots) as Hr. unfold resolve. by destruct (resolve_bounded g s roots).
Qed.

Lemma resolve_error_not_resolvable roots e : resolve_error roots e -> ~ resolvable roots.
Proof.
  intros He Hr. destruct e as [| | |id|id d|id sc s'| |c|id c]; cbn in He; try done.
  - destruct He as [_ He]. rewrite (rs_scope _ Hr) in He. done.
  - destruct He as [Hid Hn]. destruct (rs_visible _ Hr id Hid) as [m Hm]. apply visible_sees in Hm as (Hm & E & _).
    by apply (Hn m).
  - destruct He as (Hid & m & Hm & Hd & Hn). destruct (rs_dependencies _ Hr id Hid m d Hm Hd) as [? ?]. congruence.
  - destruct He as (_ & Hid & Hn & _). destruct (rs_visible _ Hr id Hid). congruence.
  - destruct He as [Hc Hin]. apply cycle_tc in Hc as (x & Hx & Hc). by apply (rs_acyclic _ Hr x); [apply Hin|].
  - destruct He as (Hid & Hc & m & Hm & Hconf). by rewrite (rs_conflicts _ Hr id m c) in Hconf.
Qed.

Lemma resolve_Ok_iff roots : is_ok (resolve g s roots) = true <-> resolvable roots.
Proof.
  pose proof (resolve_spec roots) as Hr. destruct (resolve g s roots) as [rg|e]; cbn.
  - split; [by intros; apply Hr|done].
  - split; [done|]. intros. by apply resolve_error_not_resolvable in Hr.
Qed.
End Resolve.

(** The order of the roots does not matter. *)
Lemma id_le_total x y : id_le x y \/ id_le y x.
Proof.
  unfold id_le. destruct (key_ltb x y) eqn:Ex; [left|by right].
  apply not_true_iff_false. intros Ey. pose proof (key_ltb_trans _ _ _ Ex Ey) as E. by rewrite key_ltb_irrefl in E.
Qed.

#[local] Instance id_le_Total : Total id_le.
Proof. intros x y. apply id_le_total. Qed.

#[local] Instance id_le_Transitive : Transitive id_le.
Proof.
  intros x y z. unfold id_le. intros Hxy Hyz. apply not_true_iff_false. intros Hzx.
  destruct (key_ltb_total y z) as [E|[->|E]]; [|congruence..].
  pose proof (key_ltb_trans _ _ _ E Hzx). congruence.
Qed.

#[local] Instance id_le_AntiSymm : AntiSymm (=) id_le.
Proof. intros x y. unfold id_le. intros Hxy Hyx. destruct (key_ltb_total x y) as [?|[?|?]]; congruence. Qed.

Lemma resolve_permutation g s roots roots' : Permutation roots roots' -> resolve g s roots = resolve g s roots'.
Proof.
  intros Hp. assert (merge_sort id_le roots = merge_sort id_le roots') as E.
  { eapply StronglySorted_unique; [apply _|apply StronglySorted_merge_sort; apply _..|].
    by rewrite !merge_sort_Permutation. }
  unfold resolve, resolve_bounded, resolution_fuel. by rewrite E, (Permutation_length Hp).
Qed.

(** ** Validation *)

(** What a valid graph is: every dependency is visible where it is declared, no
    conflicts can meet, and every capability resolves in its own scope. *)
Record valid_manifest (g : CapabilityGraph) (m : CapabilityManifest) : Prop := {
  vm_dependencies d : bt_contains d (mf_dependencies m) = true -> is_Some (visible g (mf_scope m) d);
  vm_conflicts c other : bt_contains c (mf_conflicts m) = true -> other ∈ manifests g -> mf_id other = c ->
    can_coexist (cg_scopes g) (mf_scope m) (mf_scope other) = false;
  vm_resolvable : resolvable g (mf_scope m) [mf_id m]
}.

Definition valid_graph (g : CapabilityGraph) : Prop := forall m, m ∈ manifests g -> valid_manifest g m.

Lemma existsb_false {A} (f : A -> bool) l : existsb f l = false <-> forall x, x ∈ l -> f x = false.
Proof.
  induction l as [|x l IH]; cbn; [set_solver|]. rewrite orb_false_iff, IH. setoid_rewrite elem_of_cons. naive_solver.
Qed.

Lemma validate_manifest_Ok g m : validate_manifest g m = Ok tt <-> valid_manifest g m.
Proof.
  unfold validate_manifest. rewrite bind_Ok. setoid_rewrite bind_Ok. setoid_rewrite bind_Ok. split.
  - intros ([] & Hd & [] & Hc & rg & Hr & _). split.
    + intros d Hin%bs_elem. pose proof (proj1 (try_each_Ok _ _) Hd d Hin) as E. cbn in E.
      destruct (visible g (mf_scope m) d); [by eexists|done].
    + intros c other Hin%bs_elem Ho Eid. pose proof (proj1 (try_each_Ok _ _) Hc c Hin) as E. cbn in E.
      apply ensure_Ok, negb_true_iff in E. pose proof (proj1 (existsb_false _ _) E other Ho) as Ef. cbn in Ef.
      by rewrite bool_decide_eq_true_2 in Ef.
    + apply resolve_Ok_iff. by rewrite Hr.
  - intros [Hd Hc Hr%resolve_Ok_iff]. exists tt. split; [|exists tt; split].
    + apply try_each_Ok. intros d Hin%bs_elem. destruct (Hd d Hin) as [? ->]. done.
    + apply try_each_Ok. intros c Hin%bs_elem. apply ensure_Ok, negb_true_iff, existsb_false. intros other Ho.
      case_bool_decide as Eid; [|done]. cbn. by apply (Hc c).
    + destruct (resolve g (mf_scope m) [mf_id m]); [|done]. by eexists.
Qed.

Lemma validate_Ok g : validate g = Ok tt <-> valid_graph g.
Proof. unfold validate, valid_graph. rewrite try_each_Ok. by setoid_rewrite validate_manifest_Ok. Qed.
