(* ===== verification/Generations.v ===== *)
(** The generations of published capabilities (capability-runtime: runtime.rs,
    lease.rs): the state word that packs a lifecycle and a lease count, the
    compare-and-swap loops on it, and the steps of threads that acquire, clone,
    drop and retire at the same time. *)

From S2P Require Import Prelude BTree Capabilities.

Open Scope string_scope.
Open Scope list_scope.
Open Scope Z_scope.

(** A machine word of a 64-bit target. *)
Abbreviation usize := u64.

(** What panics: [Err] carries the message. *)
Abbreviation panicking := (result string).

(** * Data *)

Inductive CapabilityLifecycle :=
  | Discovered | Resolved | Staged | Validated | Active | Quiescing | Retired | Disposed.

#[export] Instance CapabilityLifecycle_eq_dec : EqDecision CapabilityLifecycle.
Proof. solve_decision. Defined.

(** [Arc<dyn Any + Send + Sync>]: where the value is and its dynamic type. *)
Record Payload := { pl_type : string; pl_address : Z }.

#[export] Instance Payload_eq_dec : EqDecision Payload.
Proof. solve_decision. Defined.

(** What calling a disposer does. *)
Inductive Disposal := DisposalOk | DisposalErr (reason : string) | DisposalPanics.

#[export] Instance Disposal_eq_dec : EqDecision Disposal.
Proof. solve_decision. Defined.

(** [CapabilityDisposer], a boxed closure: which one it is, and its outcome. *)
Record CapabilityDisposer := { di_id : Z; di_outcome : Disposal }.

#[export] Instance CapabilityDisposer_eq_dec : EqDecision CapabilityDisposer.
Proof. solve_decision. Defined.

Record GenerationRecord := {
  gr_id : GenerationId;
  gr_owner : CapabilityOwnerId;
  gr_scope : ScopeId;
  gr_capabilities : list CapabilityId;
  gr_state : usize;
  gr_payloads : btree CapabilityId Payload;
  gr_disposers : list CapabilityDisposer;
  gr_disposal_failures : list string
}.

Definition set_state (state : usize) (r : GenerationRecord) : GenerationRecord :=
  {| gr_id := gr_id r; gr_owner := gr_owner r; gr_scope := gr_scope r; gr_capabilities := gr_capabilities r;
     gr_state := state; gr_payloads := gr_payloads r; gr_disposers := gr_disposers r;
     gr_disposal_failures := gr_disposal_failures r |}.

(** [payloads.store(Arc::new(BTreeMap::new()))] *)
Definition clear_payloads (r : GenerationRecord) : GenerationRecord :=
  {| gr_id := gr_id r; gr_owner := gr_owner r; gr_scope := gr_scope r; gr_capabilities := gr_capabilities r;
     gr_state := gr_state r; gr_payloads := bt_empty; gr_disposers := gr_disposers r;
     gr_disposal_failures := gr_disposal_failures r |}.

(** [std::mem::take(&mut resources.disposers)] *)
Definition take_disposers (r : GenerationRecord) : list CapabilityDisposer * GenerationRecord :=
  (gr_disposers r,
   {| gr_id := gr_id r; gr_owner := gr_owner r; gr_scope := gr_scope r; gr_capabilities := gr_capabilities r;
      gr_state := gr_state r; gr_payloads := gr_payloads r; gr_disposers := [];
      gr_disposal_failures := gr_disposal_failures r |}).

(** [disposal_failures.extend(failures)] *)
Definition add_failures (failures : list string) (r : GenerationRecord) : GenerationRecord :=
  {| gr_id := gr_id r; gr_owner := gr_owner r; gr_scope := gr_scope r; gr_capabilities := gr_capabilities r;
     gr_state := gr_state r; gr_payloads := gr_payloads r; gr_disposers := gr_disposers r;
     gr_disposal_failures := gr_disposal_failures r ++ failures |}.

(** * The state word *)

Definition LIFECYCLE_BITS : Z := 3.
Definition LIFECYCLE_MASK : Z := Z.shiftl 1 LIFECYCLE_BITS - 1.

(** [lifecycle as usize] *)
Definition lifecycle_index (lifecycle : CapabilityLifecycle) : Z :=
  match lifecycle with
  | Discovered => 0 | Resolved => 1 | Staged => 2 | Validated => 3
  | Active => 4 | Quiescing => 5 | Retired => 6 | Disposed => 7
  end.

Definition pack_generation_state (lifecycle : CapabilityLifecycle) (leases : usize) : panicking usize :=
  match checked 0 (2 ^ 64) (val leases * Z.shiftl 1 LIFECYCLE_BITS) with
  | Some shifted => Ok (u64_of (Z.lor (val shifted) (lifecycle_index lifecycle)))
  | None => Err "capability lease count overflow"
  end.

(** The masked bits are at most seven, so the last case is [7]. *)
Definition unpack_generation_state (state : usize) : CapabilityLifecycle * usize :=
  let bits := Z.land (val state) LIFECYCLE_MASK in
  (if bits =? 0 then Discovered
   else if bits =? 1 then Resolved
   else if bits =? 2 then Staged
   else if bits =? 3 then Validated
   else if bits =? 4 then Active
   else if bits =? 5 then Quiescing
   else if bits =? 6 then Retired
   else Disposed,
   u64_of (Z.shiftr (val state) LIFECYCLE_BITS)).

Definition lifecycle_of (state : usize) : CapabilityLifecycle := fst (unpack_generation_state state).
Definition leases_of (state : usize) : usize := snd (unpack_generation_state state).

(** * One turn of each loop: what it stores instead of what it loaded *)

(** [leases.checked_add(1).expect(..)], packed *)
Definition one_more (lifecycle : CapabilityLifecycle) (leases : usize) : panicking usize :=
  leases ← ok_or (u64_checked_add leases 1) "capability lease count overflow";
  pack_generation_state lifecycle leases.

(** [try_acquire]; [None] is [return false] *)
Definition acquire_next (current : usize) : panicking (option usize) :=
  let (lifecycle, leases) := unpack_generation_state current in
  if bool_decide (lifecycle <> Active) then Ok None
  else next ← one_more lifecycle leases; Ok (Some next).

(** [retain_lease]; [None] is [return false] *)
Definition retain_next (current : usize) : panicking (option usize) :=
  let (lifecycle, leases) := unpack_generation_state current in
  if bool_decide (lifecycle = Retired) || bool_decide (lifecycle = Disposed) then Ok None
  else next ← one_more lifecycle leases; Ok (Some next).

(** [begin_quiescing]; [None] is [break] without a store *)
Definition quiesce_next (current : usize) : panicking (option usize) :=
  let (lifecycle, leases) := unpack_generation_state current in
  if bool_decide (lifecycle <> Active) then Ok None
  else next ← pack_generation_state Quiescing leases; Ok (Some next).

(** [release_lease] *)
Definition release_next (current : usize) : panicking usize :=
  let (lifecycle, leases) := unpack_generation_state current in
  pack_generation_state lifecycle (u64_saturating_sub leases 1).

(** [complete_disposal] *)
Definition dispose_next (current : usize) : panicking usize :=
  let (_, leases) := unpack_generation_state current in
  pack_generation_state Disposed leases.

(** The words of the exchange in [take_disposal_if_drained]. *)
Definition quiescing_word : panicking usize := pack_generation_state Quiescing (u64_of 0).
Definition retired_word : panicking usize := pack_generation_state Retired (u64_of 0).

(** * Running disposers *)

Definition disposal_failure (d : CapabilityDisposer) : option string :=
  match di_outcome d with
  | DisposalOk => None
  | DisposalErr reason => Some reason
  | DisposalPanics => Some "capability disposer panicked"
  end.

(** [dispose_all]: the disposers in the order they are called, and what failed. *)
Definition dispose_all (disposers : list CapabilityDisposer) : list CapabilityDisposer * list string :=
  (rev disposers, omap disposal_failure (rev disposers)).

(** The record [commit] publishes. *)
Definition generation_new (id : GenerationId) (owner : CapabilityOwnerId) (scope : ScopeId)
    (activated : list CapabilityId) (payloads : btree CapabilityId Payload) (disposers : list CapabilityDisposer)
    : panicking GenerationRecord :=
  state ← pack_generation_state (match activated with [] => Disposed | _ => Active end) (u64_of 0);
  Ok {| gr_id := id; gr_owner := owner; gr_scope := scope; gr_capabilities := activated; gr_state := state;
        gr_payloads := payloads; gr_disposers := disposers; gr_disposal_failures := [] |}.

(** * Calls that run alone *)

Definition lifecycle (r : GenerationRecord) : CapabilityLifecycle := lifecycle_of (gr_state r).

Definition snapshot_state (r : GenerationRecord) : CapabilityLifecycle * usize * list string :=
  let (lifecycle, leases) := unpack_generation_state (gr_state r) in (lifecycle, leases, gr_disposal_failures r).

Definition payload (r : GenerationRecord) (capability : CapabilityId) : option Payload :=
  bt_get capability (gr_payloads r).

Definition stored (next : option usize) (r : GenerationRecord) : bool * GenerationRecord :=
  match next with
  | Some next => (true, set_state next r)
  | None => (false, r)
  end.

Definition try_acquire (r : GenerationRecord) : panicking (bool * GenerationRecord) :=
  next ← acquire_next (gr_state r); Ok (stored next r).

Definition retain_lease (r : GenerationRecord) : panicking (bool * GenerationRecord) :=
  next ← retain_next (gr_state r); Ok (stored next r).

Definition take_disposal_if_drained (r : GenerationRecord)
    : panicking (option (list CapabilityDisposer) * GenerationRecord) :=
  quiescing ← quiescing_word;
  retired ← retired_word;
  if bool_decide (gr_state r <> quiescing) then Ok (None, r)
  else
    let (disposers, r) := take_disposers (clear_payloads (set_state retired r)) in
    Ok (Some disposers, r).

Definition begin_quiescing (r : GenerationRecord) : panicking (option (list CapabilityDisposer) * GenerationRecord) :=
  next ← quiesce_next (gr_state r);
  take_disposal_if_drained (snd (stored next r)).

(** [complete_disposal] *)
Definition complete_disposal (failures : list string) (r : GenerationRecord) : panicking GenerationRecord :=
  let r := add_failures failures r in
  next ← dispose_next (gr_state r); Ok (set_state next r).

(** [schedule_disposal]: [Some] disposers are sent to the reaper. *)
Definition schedule_disposal (disposers : list CapabilityDisposer) (r : GenerationRecord)
    : panicking (option (list CapabilityDisposer) * GenerationRecord) :=
  match disposers with
  | [] => r ← complete_disposal [] r; Ok (None, r)
  | _ => Ok (Some disposers, r)
  end.

(** [release_lease]: what is sent to the reaper. *)
Definition release_lease (r : GenerationRecord) : panicking (option (list CapabilityDisposer) * GenerationRecord) :=
  next ← release_next (gr_state r);
  '(disposers, r) ← take_disposal_if_drained (set_state next r);
  match disposers with
  | Some disposers => schedule_disposal disposers r
  | None => Ok (None, r)
  end.

(** * Threads *)

(** Who runs the disposers: [commit] itself, or the reaper. *)
Inductive Runner := ByCommit | ByReaper.

(** Where a call on a generation stands.  [current] is what its loop loaded. *)
Inductive Thread :=
  | Acquiring (current : usize)               (* try_acquire *)
  | Retaining (current : usize)               (* retain_lease, in the clone of a lease *)
  | Releasing (current : usize)               (* release_lease *)
  | BeginQuiescing (runner : Runner) (current : usize)
  | Draining (runner : Runner)                (* take_disposal_if_drained: before its exchange *)
  | Clearing (runner : Runner)                (* after it, before the payloads go *)
  | Taking (runner : Runner)                  (* before the disposers are taken *)
  | Scheduling (disposers : list CapabilityDisposer)
  | Sent (disposers : list CapabilityDisposer)   (* a job of the reaper or of its fallback *)
  | Disposing (rest : list CapabilityDisposer) (failures : list string)
  | Recording (failures : list string)        (* complete_disposal: before the failures are kept *)
  | Completing (current : usize).             (* complete_disposal: its loop *)

(** A generation, the leases that are held on it, the calls under way, and the
    disposers that were called, in that order. *)
Record Shared := {
  sh_record : GenerationRecord;
  sh_held : nat;
  sh_threads : list Thread;
  sh_called : list CapabilityDisposer
}.

Section Steps.
(** Whether the reaper's channel is open, as it is while the process lives. *)
Context (channel_open : bool).

(** A step of one call: the call that is left, the record, the leases it hands
    out and the disposers it calls. *)
Inductive thread_step (r : GenerationRecord) :
    Thread -> option Thread -> GenerationRecord -> nat -> list CapabilityDisposer -> Prop :=
  | acquire_refused current :
      acquire_next current = Ok None -> thread_step r (Acquiring current) None r 0 []
  | acquire_panics current m :
      acquire_next current = Err m -> thread_step r (Acquiring current) None r 0 []
  | acquire_stores next :
      acquire_next (gr_state r) = Ok (Some next) ->
      thread_step r (Acquiring (gr_state r)) None (set_state next r) 1 []
  | acquire_retries current next :
      acquire_next current = Ok (Some next) ->
      thread_step r (Acquiring current) (Some (Acquiring (gr_state r))) r 0 []
  | retain_refused current :
      retain_next current = Ok None -> thread_step r (Retaining current) None r 1 []
  | retain_panics current m :
      retain_next current = Err m -> thread_step r (Retaining current) None r 1 []
  | retain_stores next :
      retain_next (gr_state r) = Ok (Some next) ->
      thread_step r (Retaining (gr_state r)) None (set_state next r) 2 []
  | retain_retries current next :
      retain_next current = Ok (Some next) ->
      thread_step r (Retaining current) (Some (Retaining (gr_state r))) r 0 []
  | release_stores next :
      release_next (gr_state r) = Ok next ->
      thread_step r (Releasing (gr_state r)) (Some (Draining ByReaper)) (set_state next r) 0 []
  | release_retries current :
      thread_step r (Releasing current) (Some (Releasing (gr_state r))) r 0 []
  | quiesce_breaks runner current :
      quiesce_next current = Ok None -> thread_step r (BeginQuiescing runner current) (Some (Draining runner)) r 0 []
  | quiesce_stores runner next :
      quiesce_next (gr_state r) = Ok (Some next) ->
      thread_step r (BeginQuiescing runner (gr_state r)) (Some (Draining runner)) (set_state next r) 0 []
  | quiesce_retries runner current next :
      quiesce_next current = Ok (Some next) ->
      thread_step r (BeginQuiescing runner current) (Some (BeginQuiescing runner (gr_state r))) r 0 []
  | drain_fails runner quiescing :
      quiescing_word = Ok quiescing -> gr_state r <> quiescing -> thread_step r (Draining runner) None r 0 []
  | drain_wins runner retired :
      quiescing_word = Ok (gr_state r) -> retired_word = Ok retired ->
      thread_step r (Draining runner) (Some (Clearing runner)) (set_state retired r) 0 []
  | clears runner :
      thread_step r (Clearing runner) (Some (Taking runner)) (clear_payloads r) 0 []
  | takes_for_commit :
      thread_step r (Taking ByCommit) (Some (Disposing (rev (fst (take_disposers r))) [])) (snd (take_disposers r)) 0 []
  | takes_for_reaper :
      thread_step r (Taking ByReaper) (Some (Scheduling (fst (take_disposers r)))) (snd (take_disposers r)) 0 []
  | schedules_nothing :
      thread_step r (Scheduling []) (Some (Recording [])) r 0 []
  | sends d ds :
      thread_step r (Scheduling (d :: ds)) (Some (Sent (d :: ds))) r 0 []
  | loses d ds :
      (* the channel is closed and no fallback thread can be started *)
      channel_open = false -> thread_step r (Scheduling (d :: ds)) None r 0 []
  | receives ds :
      thread_step r (Sent ds) (Some (Disposing (rev ds) [])) r 0 []
  | disposes d ds failures :
      thread_step r (Disposing (d :: ds) failures)
        (Some (Disposing ds (failures ++ omap disposal_failure [d]))) r 0 [d]
  | disposed failures :
      thread_step r (Disposing [] failures) (Some (Recording failures)) r 0 []
  | records failures :
      thread_step r (Recording failures) (Some (Completing (gr_state (add_failures failures r)))) (add_failures failures r) 0 []
  | complete_stores next :
      dispose_next (gr_state r) = Ok next ->
      thread_step r (Completing (gr_state r)) None (set_state next r) 0 []
  | complete_retries current :
      thread_step r (Completing current) (Some (Completing (gr_state r))) r 0 [].

(** A step of all: a call goes on, or a new one loads the state word. *)
Inductive shared_step : Shared -> Shared -> Prop :=
  | goes_on r held before t after called t' r' leases called' :
      thread_step r t t' r' leases called' ->
      shared_step
        {| sh_record := r; sh_held := held; sh_threads := before ++ t :: after; sh_called := called |}
        {| sh_record := r'; sh_held := leases + held; sh_threads := before ++ option_list t' ++ after;
           sh_called := called ++ called' |}
  | starts_acquire r held threads called :
      shared_step
        {| sh_record := r; sh_held := held; sh_threads := threads; sh_called := called |}
        {| sh_record := r; sh_held := held; sh_threads := Acquiring (gr_state r) :: threads; sh_called := called |}
  | starts_retain r held threads called :
      (* the clone borrows a lease until it returns *)
      shared_step
        {| sh_record := r; sh_held := S held; sh_threads := threads; sh_called := called |}
        {| sh_record := r; sh_held := held; sh_threads := Retaining (gr_state r) :: threads; sh_called := called |}
  | starts_release r held threads called :
      shared_step
        {| sh_record := r; sh_held := S held; sh_threads := threads; sh_called := called |}
        {| sh_record := r; sh_held := held; sh_threads := Releasing (gr_state r) :: threads; sh_called := called |}
  | starts_quiescing runner r held threads called :
      shared_step
        {| sh_record := r; sh_held := held; sh_threads := threads; sh_called := called |}
        {| sh_record := r; sh_held := held; sh_threads := BeginQuiescing runner (gr_state r) :: threads;
           sh_called := called |}.
End Steps.
