(* ===== verification/GenerationFacts.v ===== *)
(** The state word, and what holds of a generation whatever the calls on it do at
    the same time (lemmas on Generations). *)

From S2P Require Import Prelude BTree Capabilities Generations.

Open Scope Z_scope.

(** * The state word *)

#[global] Arguments lifecycle_of state : simpl never.
#[global] Arguments leases_of state : simpl never.

Lemma lifecycle_index_bounds lc : 0 <= lifecycle_index lc < 8.
Proof. destruct lc; cbn; lia. Qed.

Lemma lor_low_bits n k : 0 <= k < 8 -> Z.lor (n * 8) k = n * 8 + k.
Proof.
  intros Hk. symmetry. apply Z.add_nocarry_lor. apply Z.bits_inj'. intros i Hi.
  rewrite Z.land_spec, Z.bits_0. change 8 with (2 ^ 3). destruct (decide (i < 3)) as [Hlt|Hge].
  - by rewrite Z.mul_pow2_bits_low.
  - replace (Z.testbit k i) with false; [by rewrite andb_false_r|]. symmetry.
    rewrite <- (Z.mod_small k (2 ^ 3)) by lia. apply Z.mod_pow2_bits_high. lia.
Qed.

Lemma pack_spec lc n w : pack_generation_state lc n = Ok w <-> val w = val n * 8 + lifecycle_index lc.
Proof.
  unfold pack_generation_state. change (Z.shiftl 1 LIFECYCLE_BITS) with 8.
  pose proof (lifecycle_index_bounds lc) as Hlc. pose proof (val_bounds n). pose proof (val_bounds w).
  destruct (checked 0 (2 ^ 64) (val n * 8)) as [x|] eqn:E.
  - apply checked_Some in E. rewrite <- E, lor_low_bits by done. split.
    + intros [= <-]. apply val_u64_of_small. pose proof (val_bounds x). rewrite E in *.
      split; [lia|]. assert (val x < 2 ^ 64) by lia.
      assert (val n <= 2 ^ 61 - 1) by lia. lia.
    + intros Hw. f_equal. apply val_inj. rewrite val_u64_of_small; lia.
  - apply checked_None in E. split; [done|]. intros Hw. lia.
Qed.

Lemma pack_Err lc n m : pack_generation_state lc n = Err m -> 2 ^ 61 <= val n.
Proof.
  unfold pack_generation_state. change (Z.shiftl 1 LIFECYCLE_BITS) with 8. pose proof (val_bounds n).
  destruct (checked 0 (2 ^ 64) (val n * 8)) as [x|] eqn:E; [done|]. apply checked_None in E. lia.
Qed.

Lemma pack_fits lc n : val n < 2 ^ 61 -> exists w, pack_generation_state lc n = Ok w.
Proof.
  intros Hn. destruct (pack_generation_state lc n) as [w|m] eqn:E; [by exists w|]. apply pack_Err in E. lia.
Qed.

Lemma leases_of_val w : val (leases_of w) = val w / 8.
Proof.
  unfold leases_of, unpack_generation_state. cbn [snd]. rewrite Z.shiftr_div_pow2 by done.
  change (2 ^ LIFECYCLE_BITS) with 8. pose proof (val_bounds w). apply val_u64_of_small. split; [apply Z.div_pos; lia|].
  apply Z.div_lt_upper_bound; lia.
Qed.

Lemma leases_of_bound w : val (leases_of w) < 2 ^ 61.
Proof. rewrite leases_of_val. pose proof (val_bounds w). apply Z.div_lt_upper_bound; lia. Qed.

Lemma lifecycle_of_index w : lifecycle_index (lifecycle_of w) = val w mod 8.
Proof.
  unfold lifecycle_of, unpack_generation_state. cbn [fst]. change LIFECYCLE_MASK with (Z.ones 3).
  rewrite Z.land_ones by done. change (2 ^ 3) with 8. pose proof (Z.mod_pos_bound (val w) 8 ltac:(lia)).
  repeat match goal with |- context [?a =? ?b] => destruct (Z.eqb_spec a b) end; cbn; lia.
Qed.

Lemma lifecycle_index_inj lc lc' : lifecycle_index lc = lifecycle_index lc' -> lc = lc'.
Proof. by destruct lc, lc'. Qed.

Lemma word_val w : val w = val (leases_of w) * 8 + lifecycle_index (lifecycle_of w).
Proof. rewrite leases_of_val, lifecycle_of_index, Z.mul_comm. apply Z.div_mod. lia. Qed.

(** A packed word unpacks to what was packed. *)
Lemma pack_Ok lc n w : pack_generation_state lc n = Ok w <-> lifecycle_of w = lc /\ leases_of w = n.
Proof.
  rewrite pack_spec, (word_val w). pose proof (lifecycle_index_bounds lc). pose proof (lifecycle_index_bounds (lifecycle_of w)).
  split; [|by intros [-> ->]]. intros E. split; [apply lifecycle_index_inj|apply val_inj]; lia.
Qed.

Lemma unpack_of w : unpack_generation_state w = (lifecycle_of w, leases_of w).
Proof. unfold lifecycle_of, leases_of. by destruct (unpack_generation_state w). Qed.

Lemma word_ext w w' : lifecycle_of w = lifecycle_of w' -> leases_of w = leases_of w' -> w = w'.
Proof. intros E1 E2. apply val_inj. by rewrite (word_val w), (word_val w'), E1, E2. Qed.

(** * The turns of the loops *)

Lemma one_more_Ok lc n w :
  one_more lc n = Ok w <-> lifecycle_of w = lc /\ val (leases_of w) = val n + 1.
Proof.
  unfold one_more. rewrite bind_Ok. setoid_rewrite ok_or_Ok. unfold u64_checked_add. setoid_rewrite checked_Some.
  setoid_rewrite pack_Ok. split.
  - intros (n' & -> & -> & ->). done.
  - intros [-> E]. by exists (leases_of w).
Qed.

(** Only a full count refuses one more lease. *)
Lemma one_more_full w m : one_more (lifecycle_of w) (leases_of w) = Err m -> val (leases_of w) = 2 ^ 61 - 1.
Proof.
  unfold one_more, u64_checked_add. pose proof (leases_of_bound w). pose proof (val_bounds (leases_of w)).
  destruct (checked_in 0 (2 ^ 64) (val (leases_of w) + 1)) as (n & -> & Hn); [lia|]. cbn [ok_or mbind result_bind].
  intros Ep%pack_Err. lia.
Qed.

Lemma acquire_next_Some w w' :
  acquire_next w = Ok (Some w') <->
  lifecycle_of w = Active /\ lifecycle_of w' = Active /\ val (leases_of w') = val (leases_of w) + 1.
Proof.
  unfold acquire_next. rewrite unpack_of. case_bool_decide as E; [naive_solver|].
  rewrite E, bind_Ok. setoid_rewrite one_more_Ok. split.
  - intros (w0 & ? & [= ->]). done.
  - intros (_ & ? & ?). by exists w'.
Qed.

Lemma acquire_next_None w : acquire_next w = Ok None <-> lifecycle_of w <> Active.
Proof.
  unfold acquire_next. rewrite unpack_of. case_bool_decide as E; [done|].
  rewrite bind_Ok. split; [|done]. by intros (? & ? & ?).
Qed.

Lemma acquire_next_Err w m : acquire_next w = Err m -> val (leases_of w) = 2 ^ 61 - 1.
Proof.
  unfold acquire_next. rewrite unpack_of. case_bool_decide; [done|].
  destruct (one_more _ _) eqn:E; [done|]. intros _. by apply one_more_full in E.
Qed.

Definition is_live (w : usize) : Prop := lifecycle_of w <> Retired /\ lifecycle_of w <> Disposed.

Lemma retain_next_Some w w' :
  retain_next w = Ok (Some w') <->
  is_live w /\ lifecycle_of w' = lifecycle_of w /\ val (leases_of w') = val (leases_of w) + 1.
Proof.
  unfold retain_next, is_live. rewrite unpack_of. repeat case_bool_decide; cbn; [naive_solver..|].
  rewrite bind_Ok. setoid_rewrite one_more_Ok. split.
  - intros (w0 & ? & [= ->]). done.
  - intros (_ & ? & ?). by exists w'.
Qed.

Lemma retain_next_None w : retain_next w = Ok None <-> ~ is_live w.
Proof.
  unfold retain_next, is_live. rewrite unpack_of. repeat case_bool_decide; cbn; [naive_solver..|].
  rewrite bind_Ok. split; [by intros (? & ? & ?)|naive_solver].
Qed.

Lemma retain_next_Err w m : retain_next w = Err m -> val (leases_of w) = 2 ^ 61 - 1.
Proof.
  unfold retain_next. rewrite unpack_of. destruct (_ || _); [done|].
  destruct (one_more _ _) eqn:E; [done|]. intros _. by apply one_more_full in E.
Qed.

Lemma quiesce_next_Some w w' :
  quiesce_next w = Ok (Some w') <->
  lifecycle_of w = Active /\ lifecycle_of w' = Quiescing /\ leases_of w' = leases_of w.
Proof.
  unfold quiesce_next. rewrite unpack_of. case_bool_decide as E; [naive_solver|].
  rewrite bind_Ok. setoid_rewrite pack_Ok. split.
  - intros (w0 & ? & [= ->]). done.
  - intros (_ & ? & ?). by exists w'.
Qed.

Lemma quiesce_next_None w : quiesce_next w = Ok None <-> lifecycle_of w <> Active.
Proof.
  unfold quiesce_next. rewrite unpack_of. case_bool_decide as E; [done|].
  rewrite bind_Ok. split; [|done]. by intros (? & ? & ?).
Qed.

Lemma quiesce_next_returns w : exists next, quiesce_next w = Ok next.
Proof.
  unfold quiesce_next. rewrite unpack_of. case_bool_decide; [by eexists|].
  destruct (pack_fits Quiescing (leases_of w)) as [w' ->]; [apply leases_of_bound|]. by eexists.
Qed.

Lemma release_next_Ok w w' :
  release_next w = Ok w' <->
  lifecycle_of w' = lifecycle_of w /\ val (leases_of w') = Z.max 0 (val (leases_of w) - 1).
Proof.
  unfold release_next. rewrite unpack_of, pack_Ok. rewrite <- (u64_saturating_sub_val (leases_of w) 1) by lia.
  split; [by intros [-> ->]|]. intros [-> E]. split; [done|]. by apply val_inj.
Qed.

Lemma release_next_returns w : exists w', release_next w = Ok w'.
Proof.
  unfold release_next. rewrite unpack_of. apply pack_fits. rewrite u64_saturating_sub_val by lia.
  pose proof (leases_of_bound w). pose proof (val_bounds (leases_of w)). lia.
Qed.

Lemma dispose_next_Ok w w' : dispose_next w = Ok w' <-> lifecycle_of w' = Disposed /\ leases_of w' = leases_of w.
Proof. unfold dispose_next. by rewrite unpack_of, pack_Ok. Qed.

Lemma dispose_next_returns w : exists w', dispose_next w = Ok w'.
Proof. unfold dispose_next. rewrite unpack_of. apply pack_fits, leases_of_bound. Qed.

Lemma val_u64_0 : val (u64_of 0) = 0.
Proof. done. Qed.

Lemma quiescing_word_is w : quiescing_word = Ok w <-> lifecycle_of w = Quiescing /\ val (leases_of w) = 0.
Proof.
  unfold quiescing_word. rewrite pack_Ok. split; [by intros [-> ->]|]. intros [-> E]. split; [done|].
  apply val_inj. by rewrite E.
Qed.

Lemma retired_word_is w : retired_word = Ok w <-> lifecycle_of w = Retired /\ val (leases_of w) = 0.
Proof.
  unfold retired_word. rewrite pack_Ok. split; [by intros [-> ->]|]. intros [-> E]. split; [done|].
  apply val_inj. by rewrite E.
Qed.

(** Opens the fields of a generation and its calls. *)
Ltac cbn_shared := cbn [sh_record sh_held sh_threads sh_called set_state gr_state gr_payloads gr_disposers gr_disposal_failures] in *.

(** * The invariant *)

(** The calls whose lease the word still counts. *)
Definition counted (t : Thread) : nat := match t with Retaining _ | Releasing _ => 1 | _ => 0 end.

(** The calls that won the disposal. *)
Definition winner (t : Thread) : nat :=
  match t with
  | Clearing _ | Taking _ | Scheduling _ | Sent _ | Disposing _ _ | Recording _ | Completing _ => 1
  | _ => 0
  end.

Definition drainer (t : Thread) : nat := match t with Draining _ => 1 | _ => 0 end.

Section Invariant.
Context (channel_open : bool) (payloads : btree CapabilityId Payload) (disposers : list CapabilityDisposer).

(** What a call knows of the word it loaded. *)
Definition loaded_ok (t : Thread) : Prop :=
  match t with
  | Retaining current => is_live current
  | Releasing current => 0 < val (leases_of current)
  | _ => True
  end.

(** The disposers have not been touched. *)
Definition untouched (r : GenerationRecord) (called : list CapabilityDisposer) : Prop :=
  gr_disposers r = disposers /\ gr_disposal_failures r = [] /\ called = [].

(** How far the winner has come. *)
Definition phase (r : GenerationRecord) (called : list CapabilityDisposer) (t : Thread) : Prop :=
  match t with
  | Clearing _ => gr_payloads r = payloads /\ untouched r called
  | Taking _ => gr_payloads r = bt_empty /\ untouched r called
  | Scheduling ds | Sent ds =>
      gr_payloads r = bt_empty /\ gr_disposers r = [] /\ gr_disposal_failures r = [] /\ called = [] /\ ds = disposers
  | Disposing rest failures =>
      gr_payloads r = bt_empty /\ gr_disposers r = [] /\ gr_disposal_failures r = []
      /\ called ++ rest = rev disposers /\ failures = omap disposal_failure called
  | Recording failures =>
      gr_payloads r = bt_empty /\ gr_disposers r = [] /\ gr_disposal_failures r = []
      /\ called = rev disposers /\ failures = omap disposal_failure called
  | Completing _ =>
      gr_payloads r = bt_empty /\ gr_disposers r = []
      /\ called = rev disposers /\ gr_disposal_failures r = omap disposal_failure called
  | _ => True
  end.

(** What holds in each lifecycle. *)
Definition lifecycle_ok (sh : Shared) : Prop :=
  let r := sh_record sh in
  let winners := sum_list_with winner (sh_threads sh) in
  match lifecycle_of (gr_state r) with
  | Active => winners = 0%nat /\ gr_payloads r = payloads /\ untouched r (sh_called sh)
  | Quiescing =>
      winners = 0%nat /\ gr_payloads r = payloads /\ untouched r (sh_called sh)
      /\ (val (leases_of (gr_state r)) = 0 -> (0 < sum_list_with drainer (sh_threads sh))%nat)
  | Retired =>
      val (leases_of (gr_state r)) = 0 /\ Forall (phase r (sh_called sh)) (sh_threads sh)
      /\ (winners = 1%nat \/ (winners = 0%nat /\ channel_open = false /\ sh_called sh = []))
  | Disposed =>
      val (leases_of (gr_state r)) = 0 /\ winners = 0%nat /\ gr_payloads r = bt_empty /\ gr_disposers r = []
      /\ sh_called sh = rev disposers /\ gr_disposal_failures r = omap disposal_failure (rev disposers)
  | _ => False
  end.

Record shared_ok (sh : Shared) : Prop := {
  sok_leases : val (leases_of (gr_state (sh_record sh)))
               = Z.of_nat (sh_held sh + sum_list_with counted (sh_threads sh));
  sok_loaded : Forall loaded_ok (sh_threads sh);
  sok_lifecycle : lifecycle_ok sh
}.

(** ** Lists of calls with one in the middle *)

Lemma sum_mid (f : Thread -> nat) before mid after :
  sum_list_with f (before ++ mid ++ after) = (sum_list_with f mid + sum_list_with f (before ++ after))%nat.
Proof. rewrite !sum_list_with_app. lia. Qed.

Lemma sum_here (f : Thread -> nat) before t after :
  sum_list_with f (before ++ t :: after) = (f t + sum_list_with f (before ++ after))%nat.
Proof. change (t :: after) with ([t] ++ after). rewrite sum_mid. cbn. lia. Qed.

Lemma Forall_mid {A} (P : A -> Prop) before mid after :
  Forall P (before ++ mid ++ after) <-> Forall P mid /\ Forall P (before ++ after).
Proof. rewrite !list.Forall_app. tauto. Qed.

Lemma Forall_here {A} (P : A -> Prop) before t after :
  Forall P (before ++ t :: after) <-> P t /\ Forall P (before ++ after).
Proof. change (t :: after) with ([t] ++ after). by rewrite Forall_mid, list.Forall_singleton. Qed.

Lemma phases_trivial r called l : sum_list_with winner l = 0%nat -> Forall (phase r called) l.
Proof.
  induction l as [|t l IH]; cbn; [by constructor|]. intros E. constructor; [|apply IH; lia].
  destruct t; cbn in E |- *; done || lia.
Qed.

(** ** What the invariant says of one call *)

Lemma counted_live r held threads called :
  shared_ok {| sh_record := r; sh_held := held; sh_threads := threads; sh_called := called |} ->
  (0 < held + sum_list_with counted threads)%nat -> is_live (gr_state r) /\ 0 < val (leases_of (gr_state r)).
Proof.
  intros [Hl _ Hlc] Hpos. cbn_shared. assert (0 < val (leases_of (gr_state r))) as Hn by lia. split; [|done].
  unfold lifecycle_ok in Hlc. cbn_shared. unfold is_live. destruct (lifecycle_of (gr_state r)); try done; lia.
Qed.

Lemma winner_retired r held before t after called :
  shared_ok {| sh_record := r; sh_held := held; sh_threads := before ++ t :: after; sh_called := called |} ->
  winner t = 1%nat ->
  lifecycle_of (gr_state r) = Retired /\ val (leases_of (gr_state r)) = 0 /\ phase r called t
  /\ sum_list_with winner (before ++ after) = 0%nat.
Proof.
  intros [_ _ Hlc] Ht. unfold lifecycle_ok in Hlc. cbn_shared. rewrite sum_here, Ht in Hlc.
  destruct (lifecycle_of (gr_state r)); try done; try lia.
  destruct Hlc as (? & Hph & Hw). apply Forall_here in Hph as [? _]. repeat split; try done. lia.
Qed.

(** A call that leaves the record as it is, and wins or loses nothing. *)
Lemma same_record_step r held held' before t after called t' :
  shared_ok {| sh_record := r; sh_held := held; sh_threads := before ++ t :: after; sh_called := called |} ->
  (held' + sum_list_with counted (option_list t') = held + counted t)%nat ->
  sum_list_with winner (option_list t') = winner t ->
  (phase r called t -> Forall (phase r called) (option_list t')) -> Forall loaded_ok (option_list t') ->
  (lifecycle_of (gr_state r) = Quiescing -> val (leases_of (gr_state r)) = 0 ->
     (drainer t <= sum_list_with drainer (option_list t'))%nat) ->
  shared_ok {| sh_record := r; sh_held := held'; sh_threads := before ++ option_list t' ++ after; sh_called := called |}.
Proof.
  intros [Hl Hld Hlc] Hc Hw Hph Hloaded Hd. split; cbn_shared.
  - rewrite Hl, sum_mid, sum_here. lia.
  - apply Forall_here in Hld as [_ Hld]. by apply Forall_mid.
  - unfold lifecycle_ok in *. cbn_shared. rewrite sum_here in Hlc. rewrite !sum_mid, Hw.
    destruct (lifecycle_of (gr_state r)); try done.
    + destruct Hlc as (? & ? & ? & Hq). do 3 (split; [done|]). intros E. rewrite sum_here in Hq.
      specialize (Hq E). specialize (Hd eq_refl E). lia.
    + destruct Hlc as (? & Hf & ?). apply Forall_here in Hf as [? ?]. split; [done|]. split; [|done].
      apply Forall_mid. auto.
Qed.

(** A call that stores a word in which the generation still lives. *)
Lemma live_store r held held' before t after called t' w :
  shared_ok {| sh_record := r; sh_held := held; sh_threads := before ++ t :: after; sh_called := called |} ->
  is_live (gr_state r) -> lifecycle_of w = lifecycle_of (gr_state r) \/ lifecycle_of w = Quiescing ->
  val (leases_of w) - val (leases_of (gr_state r))
    = Z.of_nat (held' + sum_list_with counted (option_list t')) - Z.of_nat (held + counted t) ->
  winner t = 0%nat -> sum_list_with winner (option_list t') = 0%nat -> Forall loaded_ok (option_list t') ->
  (val (leases_of w) = 0 -> (0 < sum_list_with drainer (option_list t'))%nat) ->
  shared_ok {| sh_record := set_state w r; sh_held := held'; sh_threads := before ++ option_list t' ++ after;
               sh_called := called |}.
Proof.
  intros [Hl Hld Hlc] [Hlive1 Hlive2] Hlw Hn Hw Hw' Hloaded Hd. split; cbn_shared.
  - rewrite sum_mid. rewrite sum_here in Hl. lia.
  - apply Forall_here in Hld as [_ Hld]. by apply Forall_mid.
  - unfold lifecycle_ok in *. cbn_shared. rewrite sum_here, Hw in Hlc. rewrite !sum_mid, Hw'.
    assert (sum_list_with winner (before ++ after) = 0%nat /\ gr_payloads r = payloads /\ untouched r called) as Hun.
    { destruct (lifecycle_of (gr_state r)); try done. naive_solver. }
    assert (lifecycle_of w = Active \/ lifecycle_of w = Quiescing) as [E|E].
    { destruct Hlw as [->| ->]; [|by right]. destruct (lifecycle_of (gr_state r)); try done; auto. }
    + rewrite E. exact Hun.
    + rewrite E. destruct Hun as (? & ? & ?). do 3 (split; [done|]). intros E0. specialize (Hd E0). lia.
Qed.

(** The call that disposes goes on. *)
Lemma winner_step r held before t after called t' r' called' :
  shared_ok {| sh_record := r; sh_held := held; sh_threads := before ++ t :: after; sh_called := called |} ->
  winner t = 1%nat -> winner t' = 1%nat -> gr_state r' = gr_state r -> counted t = 0%nat -> counted t' = 0%nat ->
  loaded_ok t' -> (phase r called t -> phase r' (called ++ called') t') ->
  shared_ok {| sh_record := r'; sh_held := held; sh_threads := before ++ t' :: after; sh_called := called ++ called' |}.
Proof.
  intros Hok Hw Hw' Hst Hc Hc' Hloaded Hph. destruct (winner_retired _ _ _ _ _ _ Hok Hw) as (Hr & Hz & Hpt & Hrest).
  destruct Hok as [Hl Hld _]. split; cbn_shared.
  - rewrite Hst, Hl, !sum_here. lia.
  - apply Forall_here. apply Forall_here in Hld as [_ ?]. done.
  - unfold lifecycle_ok. cbn_shared. rewrite Hst, Hr. split; [done|]. split; [|left; rewrite sum_here; lia].
    apply Forall_here. split; [by apply Hph|]. by apply phases_trivial.
Qed.

Ltac forall_one := first [by constructor | constructor; [cbn; done|by constructor]].

Ltac same_record Hok t' :=
  apply (same_record_step _ _ _ _ _ _ _ t' Hok); cbn;
  [lia|done|intros; forall_one|forall_one|intros; lia].

Ltac live_store Hok t' :=
  apply (live_store _ _ _ _ _ _ _ t' _ Hok); cbn; try done; try forall_one;
  first [by left|by right|by split; congruence|by left; congruence|lia].

(** The exchange of the one that finds no lease left. *)
Lemma drain_wins_ok r held before runner after called retired :
  shared_ok {| sh_record := r; sh_held := held; sh_threads := before ++ Draining runner :: after; sh_called := called |} ->
  quiescing_word = Ok (gr_state r) -> retired_word = Ok retired ->
  shared_ok {| sh_record := set_state retired r; sh_held := held; sh_threads := before ++ Clearing runner :: after;
               sh_called := called |}.
Proof.
  intros [Hl Hld Hlc] [Eq Ez]%quiescing_word_is [Er Erz]%retired_word_is. split; cbn_shared.
  - rewrite Erz, <- Ez, Hl, !sum_here. done.
  - apply Forall_here. apply Forall_here in Hld as [_ ?]. done.
  - unfold lifecycle_ok in *. cbn_shared. rewrite Eq, sum_here in Hlc. destruct Hlc as (Hw & Hp & Hun & _). cbn in Hw.
    rewrite Er. split; [done|]. split; [|left; rewrite sum_here, Hw; done].
    apply Forall_here. split; [by split|]. by apply phases_trivial.
Qed.

(** A job that is lost with the channel. *)
Lemma loses_ok r held before ds after called :
  shared_ok {| sh_record := r; sh_held := held; sh_threads := before ++ Scheduling ds :: after; sh_called := called |} ->
  channel_open = false ->
  shared_ok {| sh_record := r; sh_held := held; sh_threads := before ++ after; sh_called := called |}.
Proof.
  intros Hok Hlost. destruct (winner_retired _ _ _ _ _ _ Hok eq_refl) as (Hr & Hz & Hpt & Hrest).
  destruct Hok as [Hl Hld _]. split; cbn_shared.
  - by rewrite Hl, sum_here.
  - by apply Forall_here in Hld as [_ ?].
  - unfold lifecycle_ok. cbn_shared. rewrite Hr. split; [done|]. split; [by apply phases_trivial|]. right.
    split; [done|]. split; [done|]. apply Hpt.
Qed.

(** The last store: the generation is disposed. *)
Lemma complete_stores_ok r held before after called next :
  shared_ok {| sh_record := r; sh_held := held; sh_threads := before ++ Completing (gr_state r) :: after; sh_called := called |} ->
  dispose_next (gr_state r) = Ok next ->
  shared_ok {| sh_record := set_state next r; sh_held := held; sh_threads := before ++ after; sh_called := called |}.
Proof.
  intros Hok [Ed El]%dispose_next_Ok. destruct (winner_retired _ _ _ _ _ _ Hok eq_refl) as (Hr & Hz & Hpt & Hrest).
  destruct Hok as [Hl Hld _]. split; cbn_shared.
  - rewrite El, Hl, sum_here. done.
  - by apply Forall_here in Hld as [_ ?].
  - unfold lifecycle_ok. cbn_shared. rewrite Ed, El. destruct Hpt as (? & ? & Hc & Hf). rewrite Hf, Hc. done.
Qed.

(** The steps of the winner that call nothing. *)
Ltac winner_step Hok :=
  match goal with |- shared_ok {| sh_called := ?called |} => rewrite <- (app_nil_r called) at 1 end;
  eapply winner_step; [exact Hok|done..|]; cbn; rewrite ?app_nil_r.

(** A call that has just loaded the word. *)
Lemma starts_ok r held held' threads called t :
  shared_ok {| sh_record := r; sh_held := held; sh_threads := threads; sh_called := called |} ->
  winner t = 0%nat -> drainer t = 0%nat -> (held' + counted t = held)%nat -> loaded_ok t ->
  shared_ok {| sh_record := r; sh_held := held'; sh_threads := t :: threads; sh_called := called |}.
Proof.
  intros [Hl Hld Hlc] Hw Hd Hh Hload. split; cbn_shared.
  - rewrite Hl. cbn [sum_list_with]. lia.
  - by constructor.
  - unfold lifecycle_ok in *. cbn_shared. cbn [sum_list_with]. rewrite Hw, Hd.
    destruct (lifecycle_of (gr_state r)); try done. destruct Hlc as (? & Hf & ?). split; [done|]. split; [|done].
    constructor; [|done]. destruct t; done.
Qed.

Lemma thread_step_ok r held before t after called t' r' leases called' :
  shared_ok {| sh_record := r; sh_held := held; sh_threads := before ++ t :: after; sh_called := called |} ->
  thread_step channel_open r t t' r' leases called' ->
  shared_ok {| sh_record := r'; sh_held := leases + held; sh_threads := before ++ option_list t' ++ after;
               sh_called := called ++ called' |}.
Proof.
  intros Hok Hstep.
  assert (counted t = 1%nat -> is_live (gr_state r) /\ 0 < val (leases_of (gr_state r))) as Hlive.
  { intros Ht. apply (counted_live _ _ _ _ Hok). rewrite sum_here. lia. }
  assert (loaded_ok t) as Hload by (destruct Hok as [_ Hld _]; by apply Forall_here in Hld as [? _]).
  pose proof (val_bounds (leases_of (gr_state r))) as Hbounds.
  destruct Hstep as [current E|current m E|next E|current next E|current E|current m E|next E|current next E|next E
    |current|runner current E|runner next E|runner current next E|runner quiescing E Hne|runner retired E Er|runner
    | | | |d ds|d ds Hlost|ds|d ds failures|failures|failures|next E|current]; rewrite ?app_nil_r.
  - by same_record Hok (@None Thread).
  - by same_record Hok (@None Thread).
  - apply acquire_next_Some in E as (E1 & E2 & E3).
    live_store Hok (@None Thread).
  - by same_record Hok (Some (Acquiring (gr_state r))).
  - by same_record Hok (@None Thread).
  - by same_record Hok (@None Thread).
  - apply retain_next_Some in E as (E1 & E2 & E3). live_store Hok (@None Thread).
  - destruct Hlive as [? _]; [done|]. by same_record Hok (Some (Retaining (gr_state r))).
  - apply release_next_Ok in E as [E1 E2]. destruct Hlive as [? ?]; [done|].
    live_store Hok (Some (Draining ByReaper)).
  - destruct Hlive as [_ ?]; [done|]. by same_record Hok (Some (Releasing (gr_state r))).
  - by same_record Hok (Some (Draining runner)).
  - apply quiesce_next_Some in E as (E1 & E2 & E3). apply (f_equal val) in E3.
    live_store Hok (Some (Draining runner)).
  - by same_record Hok (Some (BeginQuiescing runner (gr_state r))).
  - apply (same_record_step _ _ _ _ _ _ _ (@None Thread) Hok); cbn; try done; try (intros; by constructor).
    apply quiescing_word_is in E as [E1 E2]. intros E3 E4. exfalso. apply Hne, word_ext; [congruence|].
    apply val_inj. congruence.
  - by eapply drain_wins_ok.
  - winner_step Hok. intros (Hp & Hun). by split.
  - winner_step Hok. intros (Hp & <- & Hf & ->). done.
  - winner_step Hok. intros (Hp & <- & Hf & ->). done.
  - winner_step Hok. intros (Hp & Hd & Hf & -> & <-). done.
  - winner_step Hok. done.
  - by eapply loses_ok.
  - winner_step Hok. intros (Hp & Hd & Hf & -> & ->). done.
  - eapply winner_step; [exact Hok|done..|]. intros (Hp & Hd & Hf & Hc & ->). cbn. rewrite <- (assoc_L (++)).
    by rewrite omap_app.
  - winner_step Hok. done.
  - winner_step Hok. intros (Hp & Hd & Hf & Hc & ->). cbn. by rewrite Hf.
  - by eapply complete_stores_ok.
  - winner_step Hok. done.
Qed.

Lemma shared_step_ok sh sh' : shared_ok sh -> shared_step channel_open sh sh' -> shared_ok sh'.
Proof.
  intros Hok Hstep. destruct Hstep as [r held before t after called t' r' leases called' Hstep|r held threads called
    |r held threads called|r held threads called|runner r held threads called].
  - by eapply thread_step_ok.
  - by apply starts_ok with (held := held).
  - apply starts_ok with (held := S held); [done..|cbn; lia|]. apply (counted_live _ _ _ _ Hok). cbn. lia.
  - apply starts_ok with (held := S held); [done..|cbn; lia|]. apply (counted_live _ _ _ _ Hok). cbn. lia.
  - by apply starts_ok with (held := held).
Qed.

(** Every state that calls lead to from a sound one is sound. *)
Lemma shared_steps_ok sh sh' : shared_ok sh -> rtc (shared_step channel_open) sh sh' -> shared_ok sh'.
Proof. intros Hok Hsteps. induction Hsteps; [done|]. eauto using shared_step_ok. Qed.

(** ** Consequences *)

Lemma generation_new_spec id owner scope activated payloads' disposers' :
  exists r, generation_new id owner scope activated payloads' disposers' = Ok r
    /\ gr_id r = id /\ gr_owner r = owner /\ gr_scope r = scope /\ gr_capabilities r = activated
    /\ gr_payloads r = payloads' /\ gr_disposers r = disposers' /\ gr_disposal_failures r = []
    /\ lifecycle_of (gr_state r) = (match activated with [] => Disposed | _ => Active end)
    /\ val (leases_of (gr_state r)) = 0.
Proof.
  unfold generation_new.
  destruct (pack_fits (match activated with [] => Disposed | _ => Active end) (u64_of 0)) as [w Hw]; [done|].
  rewrite Hw. cbn. eexists. split; [done|]. cbn. apply pack_Ok in Hw as [Hlc Hn]. rewrite Hlc, Hn. done.
Qed.

Lemma generation_new_ok id owner scope activated r :
  generation_new id owner scope activated payloads disposers = Ok r ->
  (activated = [] -> payloads = bt_empty /\ disposers = []) ->
  shared_ok {| sh_record := r; sh_held := 0; sh_threads := []; sh_called := [] |}.
Proof.
  intros E He. destruct (generation_new_spec id owner scope activated payloads disposers)
    as (r' & E' & _ & _ & _ & _ & Hp & Hd & Hf & Hlc & Hn). assert (r' = r) as -> by congruence.
  split; cbn_shared; [done|constructor|]. unfold lifecycle_ok. cbn_shared. rewrite Hlc.
  destruct activated as [|c l]; [|done]. destruct (He eq_refl) as [-> ->]. done.
Qed.

(** The disposers are called in reverse order, each at most once, and only when
    no lease is left; leased generations keep their values. *)
Lemma shared_ok_called sh :
  shared_ok sh ->
  (exists rest, sh_called sh ++ rest = rev disposers)
  /\ (sh_called sh <> [] -> sh_held sh = 0%nat /\ sum_list_with counted (sh_threads sh) = 0%nat
                            /\ ~ is_live (gr_state (sh_record sh))).
Proof.
  destruct sh as [r held threads called]. intros [Hl _ Hlc]. unfold lifecycle_ok in Hlc. cbn_shared. unfold is_live.
  assert (called = [] -> exists rest, called ++ rest = rev disposers) as Hnil by (intros ->; by eexists).
  destruct (lifecycle_of (gr_state r)); try done.
  - destruct Hlc as (_ & _ & _ & _ & ->). split; [by eexists|done].
  - destruct Hlc as (_ & _ & (_ & _ & ->) & _). split; [by eexists|done].
  - destruct Hlc as (Hz & Hf & Hw). split; [|intros _; split; [lia|split; [lia|naive_solver]]].
    destruct Hw as [Hw|(_ & _ & ->)]; [|by eexists].
    assert (exists t, t ∈ threads /\ winner t = 1%nat) as (t & Ht & Hwt).
    { clear -Hw. induction threads as [|t threads IH]; cbn in Hw; [done|]. destruct (winner t) as [|[|n]] eqn:E.
      - destruct IH as (t' & ? & ?); [done|]. exists t'. split; [by right|done].
      - exists t. split; [by left|done].
      - lia. }
    rewrite list.Forall_forall in Hf. specialize (Hf t Ht). destruct t; cbn in Hf, Hwt; try done.
    + apply Hnil, Hf. + apply Hnil, Hf. + apply Hnil, Hf. + apply Hnil, Hf.
    + exists rest. apply Hf.
    + exists []. rewrite app_nil_r. apply Hf.
    + exists []. rewrite app_nil_r. apply Hf.
  - destruct Hlc as (Hz & _ & _ & _ & -> & _). split; [exists []; by rewrite app_nil_r|]. intros _.
    split; [lia|]. split; [lia|naive_solver].
Qed.

Lemma shared_ok_leased sh :
  shared_ok sh -> (0 < sh_held sh + sum_list_with counted (sh_threads sh))%nat ->
  is_live (gr_state (sh_record sh)) /\ gr_payloads (sh_record sh) = payloads
  /\ gr_disposers (sh_record sh) = disposers /\ sh_called sh = [].
Proof.
  destruct sh as [r held threads called]. intros Hok Hpos. cbn_shared.
  pose proof (counted_live _ _ _ _ Hok Hpos) as [Hlive _]. split; [done|]. destruct Hok as [_ _ Hlc].
  unfold lifecycle_ok in Hlc. cbn_shared. destruct Hlive as [Hl1 Hl2]. unfold untouched in Hlc.
  destruct (lifecycle_of (gr_state r)); try done; tauto.
Qed.

(** When every call has returned and no lease is left, a generation that was
    retired is disposed. *)
Lemma shared_ok_settled sh :
  shared_ok sh -> channel_open = true -> sh_threads sh = [] -> sh_held sh = 0%nat ->
  lifecycle_of (gr_state (sh_record sh)) <> Active ->
  lifecycle_of (gr_state (sh_record sh)) = Disposed /\ sh_called sh = rev disposers
  /\ gr_disposal_failures (sh_record sh) = omap disposal_failure (rev disposers).
Proof.
  destruct sh as [r held threads called]. intros [Hl _ Hlc] Hopen Ht Hh Hna. cbn_shared. subst threads held.
  unfold lifecycle_ok in Hlc. cbn_shared. cbn in Hl, Hlc. destruct (lifecycle_of (gr_state r)); try done.
  - destruct Hlc as (_ & _ & _ & Hd). specialize (Hd Hl). lia.
  - destruct Hlc as (_ & _ & [?|(_ & ? & _)]); [done|congruence].
  - tauto.
Qed.

(** ** The calls under way can finish *)

(** How many steps a call has left, at most. *)
Definition weight (t : Thread) : nat :=
  match t with
  | Acquiring _ | Retaining _ => 1
  | Releasing _ | BeginQuiescing _ _ => length disposers + 14
  | Draining _ => length disposers + 12
  | Clearing _ => length disposers + 10
  | Taking _ => length disposers + 9
  | Scheduling ds => length ds + 8
  | Sent ds => length ds + 7
  | Disposing rest _ => length rest + 5
  | Recording _ => 4
  | Completing _ => 3
  end.

Definition retaining (t : Thread) : bool := match t with Retaining _ => true | _ => false end.

Lemma one_step r held t after called t' r' leases called' :
  thread_step channel_open r t t' r' leases called' ->
  shared_step channel_open
    {| sh_record := r; sh_held := held; sh_threads := t :: after; sh_called := called |}
    {| sh_record := r'; sh_held := leases + held; sh_threads := option_list t' ++ after; sh_called := called ++ called' |}.
Proof. apply (goes_on channel_open r held []). Qed.

(** A call goes on to [t'] without handing out a lease. *)
Definition reaches (r : GenerationRecord) (held : nat) (t : Thread) (after : list Thread)
    (called : list CapabilityDisposer) (t' : option Thread) (r' : GenerationRecord) (called' : list CapabilityDisposer)
    : Prop :=
  rtc (shared_step channel_open)
    {| sh_record := r; sh_held := held; sh_threads := t :: after; sh_called := called |}
    {| sh_record := r'; sh_held := held; sh_threads := option_list t' ++ after; sh_called := called' |}.

Lemma reaches_once r held t after called t' r' called' :
  thread_step channel_open r t t' r' 0 called' -> reaches r held t after called t' r' (called ++ called').
Proof. intros Hs. apply rtc_once. exact (one_step r held t after called t' r' 0 called' Hs). Qed.

Lemma reaches_pure r held t after called t' r' :
  thread_step channel_open r t t' r' 0 [] -> reaches r held t after called t' r' called.
Proof. intros Hs. rewrite <- (app_nil_r called) at 2. by apply reaches_once. Qed.

Lemma reaches_retry r held t t1 after called t' r' called' :
  thread_step channel_open r t (Some t1) r 0 [] -> reaches r held t1 after called t' r' called' ->
  reaches r held t after called t' r' called'.
Proof. intros Hs Hr. unfold reaches. etrans; [exact (reaches_pure _ held _ after called _ _ Hs)|exact Hr]. Qed.

Lemma advances r held t after called :
  shared_ok {| sh_record := r; sh_held := held; sh_threads := t :: after; sh_called := called |} ->
  channel_open = true -> lifecycle_of (gr_state r) <> Active -> retaining t = false ->
  exists t' r' called', reaches r held t after called t' r' called'
    /\ lifecycle_of (gr_state r') <> Active /\ (sum_list_with weight (option_list t') < weight t)%nat
    /\ existsb retaining (option_list t') = false.
Proof.
  intros Hok Hopen Hna Hret.
  assert (winner t = 1%nat -> phase r called t) as Hph.
  { intros Hw. by apply (winner_retired r held [] t after called). }
  destruct t as [cur|cur|cur|runner cur|runner|runner|runner|ds|ds|rest fs|fs|cur]; cbn in Hret; try done.
  - exists None, r, called. split; [|cbn; repeat split; [done|lia]]. destruct (acquire_next cur) as [[next|]|m] eqn:E.
    + eapply reaches_retry; [by eapply acquire_retries|]. apply reaches_pure, acquire_refused. by apply acquire_next_None.
    + by apply reaches_pure, acquire_refused.
    + by eapply reaches_pure, acquire_panics.
  - destruct (release_next_returns (gr_state r)) as [w Hw]. exists (Some (Draining ByReaper)), (set_state w r), called.
    split; [|cbn; apply release_next_Ok in Hw as [Hw _]; repeat split; [congruence|lia]].
    eapply reaches_retry; [apply release_retries|]. by apply reaches_pure, release_stores.
  - exists (Some (Draining runner)), r, called. split; [|cbn; repeat split; [done|lia]].
    destruct (quiesce_next_returns cur) as [[next|] E].
    + eapply reaches_retry; [by eapply quiesce_retries|]. apply reaches_pure, quiesce_breaks. by apply quiesce_next_None.
    + by apply reaches_pure, quiesce_breaks.
  - destruct (pack_fits Quiescing (u64_of 0) ltac:(done)) as [q Hq]. destruct (pack_fits Retired (u64_of 0) ltac:(done)) as [w Hw].
    destruct (decide (gr_state r = q)) as [<-|Hne].
    + exists (Some (Clearing runner)), (set_state w r), called. split; [by apply reaches_pure, drain_wins|].
      apply pack_Ok in Hw as [Hw _]. cbn. rewrite Hw. repeat split; [done|lia].
    + exists None, r, called. split; [by eapply reaches_pure, drain_fails|]. cbn. repeat split; [done|lia].
  - exists (Some (Taking runner)), (clear_payloads r), called. split; [apply reaches_pure, clears|]. cbn. repeat split; [done|lia].
  - destruct (Hph eq_refl) as (_ & Hd & _). destruct runner.
    + eexists _, _, called. split; [apply reaches_pure, takes_for_commit|]. cbn. rewrite Hd, length_rev. repeat split; [done|lia].
    + eexists _, _, called. split; [apply reaches_pure, takes_for_reaper|]. cbn. rewrite Hd. repeat split; [done|lia].
  - destruct ds as [|d ds].
    + eexists _, _, called. split; [apply reaches_pure, schedules_nothing|]. cbn. repeat split; [done|lia].
    + eexists _, _, called. split; [apply reaches_pure, sends|]. cbn. repeat split; [done|lia].
  - eexists _, _, called. split; [apply reaches_pure, receives|]. cbn. rewrite length_rev. repeat split; [done|lia].
  - destruct rest as [|d rest].
    + eexists _, _, called. split; [apply reaches_pure, disposed|]. cbn. repeat split; [done|lia].
    + eexists _, _, _. split; [apply reaches_once, disposes|]. cbn. repeat split; [done|lia].
  - eexists _, _, called. split; [apply reaches_pure, records|]. cbn. repeat split; [done|lia].
  - destruct (dispose_next_returns (gr_state r)) as [w Hw]. exists None, (set_state w r), called.
    split; [|cbn; apply dispose_next_Ok in Hw as [Hw _]; repeat split; [congruence|lia]].
    eapply reaches_retry; [apply complete_retries|]. by apply reaches_pure, complete_stores.
Qed.

(** From any state in which a retired generation has no lease left, the calls
    under way can finish, and then it is disposed. *)
Lemma settles r threads called :
  shared_ok {| sh_record := r; sh_held := 0; sh_threads := threads; sh_called := called |} ->
  channel_open = true -> lifecycle_of (gr_state r) <> Active -> existsb retaining threads = false ->
  exists r' called',
    rtc (shared_step channel_open)
      {| sh_record := r; sh_held := 0; sh_threads := threads; sh_called := called |}
      {| sh_record := r'; sh_held := 0; sh_threads := []; sh_called := called' |}
    /\ lifecycle_of (gr_state r') = Disposed /\ called' = rev disposers
    /\ gr_disposal_failures r' = omap disposal_failure (rev disposers).
Proof.
  intros Hok Hopen. remember (sum_list_with weight threads) as n eqn:En. revert r threads called En Hok.
  induction (lt_wf n) as [n _ IH]. intros r threads called -> Hok Hna Hret. destruct threads as [|t after].
  - exists r, called. split; [done|]. exact (shared_ok_settled _ Hok Hopen eq_refl eq_refl Hna).
  - cbn in Hret. apply orb_false_iff in Hret as [Hret Hrets].
    destruct (advances _ _ _ _ _ Hok Hopen Hna Hret) as (t' & r1 & called1 & Hreach & Hna1 & Hless & Hret1).
    edestruct (IH (sum_list_with weight (option_list t' ++ after))) as (r' & called' & Hsteps & Hend).
    + rewrite sum_list_with_app. cbn. lia.
    + reflexivity.
    + eapply shared_steps_ok; [exact Hok|exact Hreach].
    + done.
    + by rewrite existsb_app, Hret1.
    + exists r', called'. split; [|done]. by etrans.
Qed.
End Invariant.

(** * A call that runs alone is a run of its steps *)

Section Alone.
Context (channel_open : bool).

Abbreviation shared r held threads called :=
  {| sh_record := r; sh_held := held; sh_threads := threads; sh_called := called |}.

Abbreviation runs := (rtc (shared_step channel_open)).

Lemma run_step r held t after called t' r' leases called' sh :
  thread_step channel_open r t t' r' leases called' ->
  runs (shared r' (leases + held) (option_list t' ++ after) (called ++ called')) sh ->
  runs (shared r held (t :: after) called) sh.
Proof. intros Hs. apply rtc_l. exact (one_step channel_open _ held _ after called _ _ _ _ Hs). Qed.

Ltac run_step Hs := eapply run_step; [eapply Hs|cbn [option_list app]; rewrite ?app_nil_r].

Lemma try_acquire_runs r held threads called b r' :
  try_acquire r = Ok (b, r') ->
  runs (shared r held threads called) (shared r' (if b then S held else held) threads called).
Proof.
  unfold try_acquire. rewrite bind_Ok. intros (next & E & [= Hb]). eapply rtc_l; [apply starts_acquire|].
  destruct next as [next|]; cbn in Hb; injection Hb as <- <-.
  - run_step acquire_stores; done.
  - run_step acquire_refused; done.
Qed.

Lemma retain_lease_runs r held threads called b r' :
  retain_lease r = Ok (b, r') ->
  runs (shared r (S held) threads called) (shared r' (if b then S (S held) else S held) threads called).
Proof.
  unfold retain_lease. rewrite bind_Ok. intros (next & E & [= Hb]). eapply rtc_l; [apply starts_retain|].
  destruct next as [next|]; cbn in Hb; injection Hb as <- <-.
  - run_step retain_stores; done.
  - run_step retain_refused; done.
Qed.

(** The call that is left when the disposers were taken. *)
Definition after_take (runner : Runner) (taken : option (list CapabilityDisposer)) : list Thread :=
  match taken, runner with
  | None, _ => []
  | Some ds, ByCommit => [Disposing (rev ds) []]
  | Some ds, ByReaper => [Scheduling ds]
  end.

Lemma take_disposal_runs runner r held after called taken r' :
  take_disposal_if_drained r = Ok (taken, r') ->
  runs (shared r held (Draining runner :: after) called) (shared r' held (after_take runner taken ++ after) called).
Proof.
  unfold take_disposal_if_drained. rewrite bind_Ok. setoid_rewrite bind_Ok. intros (q & Hq & w & Hw & E).
  case_bool_decide as Hne.
  - injection E as <- <-. run_step drain_fails; done.
  - subst q. injection E as <- <-. run_step drain_wins; [done..|]. run_step clears.
    destruct runner; [run_step takes_for_commit|run_step takes_for_reaper]; done.
Qed.

Lemma begin_quiescing_runs runner r held threads called taken r' :
  begin_quiescing r = Ok (taken, r') ->
  runs (shared r held threads called) (shared r' held (after_take runner taken ++ threads) called).
Proof.
  unfold begin_quiescing. rewrite bind_Ok. intros (next & E & Ht). eapply rtc_l; [apply (starts_quiescing _ runner)|].
  destruct next as [next|]; cbn in Ht.
  - run_step quiesce_stores; [done|]. by apply take_disposal_runs.
  - run_step quiesce_breaks; [done|]. by apply take_disposal_runs.
Qed.

Lemma complete_disposal_runs failures r held after called r' :
  complete_disposal failures r = Ok r' ->
  runs (shared r held (Recording failures :: after) called) (shared r' held after called).
Proof.
  unfold complete_disposal. rewrite bind_Ok. intros (next & E & [= <-]). run_step records. run_step complete_stores; done.
Qed.

Lemma disposing_runs ds failures r held after called :
  runs (shared r held (Disposing ds failures :: after) called)
       (shared r held (Recording (failures ++ omap disposal_failure ds) :: after) (called ++ ds)).
Proof.
  revert failures called. induction ds as [|d ds IH]; intros failures called.
  - rewrite !app_nil_r. run_step disposed. done.
  - run_step disposes. etrans; [apply IH|]. rewrite <- !(assoc_L (++)). cbn. by destruct (disposal_failure d).
Qed.

(** [dispose_all], then [complete_disposal] *)
Lemma dispose_all_runs ds r held after called r' :
  complete_disposal (snd (dispose_all ds)) r = Ok r' ->
  runs (shared r held (Disposing (rev ds) [] :: after) called) (shared r' held after (called ++ fst (dispose_all ds))).
Proof. intros E. etrans; [apply disposing_runs|]. by apply complete_disposal_runs. Qed.

Lemma reaper_runs ds r held after called r' :
  complete_disposal (snd (dispose_all ds)) r = Ok r' ->
  runs (shared r held (Sent ds :: after) called) (shared r' held after (called ++ fst (dispose_all ds))).
Proof. intros E. run_step receives. by apply dispose_all_runs. Qed.

Definition sent (job : option (list CapabilityDisposer)) : list Thread :=
  match job with Some ds => [Sent ds] | None => [] end.

Lemma schedule_disposal_runs ds r held after called job r' :
  schedule_disposal ds r = Ok (job, r') ->
  runs (shared r held (Scheduling ds :: after) called) (shared r' held (sent job ++ after) called).
Proof.
  unfold schedule_disposal. destruct ds as [|d ds].
  - rewrite bind_Ok. intros (r1 & E & [= <- <-]). run_step schedules_nothing. by apply complete_disposal_runs.
  - intros [= <- <-]. run_step sends. done.
Qed.

Lemma release_lease_runs r held threads called job r' :
  release_lease r = Ok (job, r') ->
  runs (shared r (S held) threads called) (shared r' held (sent job ++ threads) called).
Proof.
  unfold release_lease. rewrite bind_Ok. setoid_rewrite bind_Ok. intros (next & E & [taken r1] & Ht & Hs).
  eapply rtc_l; [apply starts_release|]. run_step release_stores; [done|].
  etrans; [by apply (take_disposal_runs ByReaper)|]. destruct taken as [ds|]; cbn in Hs |- *.
  - by apply schedule_disposal_runs.
  - injection Hs as <- <-. done.
Qed.
End Alone.
