(* ===== verification/CapabilityRuntime.v ===== *)
(** The runtime that publishes generations of capabilities (capability-runtime:
    runtime.rs): its state, the routes that readers follow, transactions and
    their commit, scopes that retire what they own.  An [Arc<GenerationRecord>]
    is an index into the heap of records, which all holders share. *)

From S2P Require Import Prelude BTree Disk Listing Capabilities Generations.

Open Scope string_scope.
Open Scope list_scope.
Open Scope Z_scope.

(** * State *)

(** [Arc<GenerationRecord>] *)
Abbreviation ptr := nat.

Record RouteSnapshot := {
  rs_scopes : ScopeGraph;
  rs_routes : btree ScopedCapabilityKey ptr
}.

Record RuntimeState := {
  st_revision : u64;
  st_next_generation : u64;
  st_graph : CapabilityGraph;
  st_scope_handles : btree ScopeId usize;
  st_active_generations : btree ScopedCapabilityKey GenerationId;
  st_generations : btree GenerationId ptr
}.

(** [DisposalJob] *)
Record DisposalJob := { jb_generation : ptr; jb_disposers : list CapabilityDisposer }.

(** What has been called: an activation, the disposer of a capability that was
    never published, or a disposer of a generation. *)
Inductive Effect :=
  | Activated (activation : Z)
  | RolledBack (disposer : CapabilityDisposer)
  | Called (generation : ptr) (disposer : CapabilityDisposer).

#[export] Instance Effect_eq_dec : EqDecision Effect.
Proof. solve_decision. Defined.

(** [RuntimeInner], the heap of records, the reaper's queue and what was called. *)
Record Runtime := {
  rt_state : RuntimeState;
  rt_routes : RouteSnapshot;
  rt_heap : list GenerationRecord;
  rt_jobs : list DisposalJob;
  rt_effects : list Effect
}.

Definition with_state (st : RuntimeState) (rt : Runtime) : Runtime :=
  {| rt_state := st; rt_routes := rt_routes rt; rt_heap := rt_heap rt; rt_jobs := rt_jobs rt; rt_effects := rt_effects rt |}.
Definition with_routes (routes : RouteSnapshot) (rt : Runtime) : Runtime :=
  {| rt_state := rt_state rt; rt_routes := routes; rt_heap := rt_heap rt; rt_jobs := rt_jobs rt; rt_effects := rt_effects rt |}.
Definition with_heap (heap : list GenerationRecord) (rt : Runtime) : Runtime :=
  {| rt_state := rt_state rt; rt_routes := rt_routes rt; rt_heap := heap; rt_jobs := rt_jobs rt; rt_effects := rt_effects rt |}.
Definition with_jobs (jobs : list DisposalJob) (rt : Runtime) : Runtime :=
  {| rt_state := rt_state rt; rt_routes := rt_routes rt; rt_heap := rt_heap rt; rt_jobs := jobs; rt_effects := rt_effects rt |}.
Definition with_effects (effects : list Effect) (rt : Runtime) : Runtime :=
  {| rt_state := rt_state rt; rt_routes := rt_routes rt; rt_heap := rt_heap rt; rt_jobs := rt_jobs rt;
     rt_effects := rt_effects rt ++ effects |}.

(** A call through a pointer; pointers are never dangling. *)
Definition through {A} (p : ptr) (call : GenerationRecord -> panicking (A * GenerationRecord)) (rt : Runtime)
    : panicking (A * Runtime) :=
  r ← ok_or (rt_heap rt !! p) "dangling pointer";
  '(a, r) ← call r;
  Ok (a, with_heap (<[p := r]> (rt_heap rt)) rt).

(** * Routes *)

Definition routes_from_state (st : RuntimeState) : RouteSnapshot :=
  {| rs_scopes := cg_scopes (st_graph st);
     rs_routes :=
       bt_collect (omap (fun e => p ← bt_get (snd e) (st_generations st); Some (fst e, p))
                     (entries (st_active_generations st))) |}.

(** The walk of [RouteSnapshot::visible]; the outer [None] when the fuel runs out. *)
Fixpoint routes_visible_loop (fuel : nat) (routes : RouteSnapshot) (capability : CapabilityId) (current : option ScopeId)
    : option (option ptr) :=
  match fuel with
  | O => None
  | S fuel =>
      match current with
      | None => Some None
      | Some scope =>
          match bt_get (ScopedKey capability scope) (rs_routes routes) with
          | Some p => Some (Some p)
          | None => routes_visible_loop fuel routes capability (scope_parent (rs_scopes routes) scope)
          end
      end
  end.

(** The walk visits no scope twice, since scopes are a forest. *)
Definition routes_visible (routes : RouteSnapshot) (request_scope : ScopeId) (capability : CapabilityId) : option ptr :=
  default None (routes_visible_loop (S (S (bt_size (rs_scopes routes)))) routes capability (Some request_scope)).

(** * Scopes *)

Definition runtime_new (scopes : ScopeGraph) : Runtime :=
  let st := {| st_revision := u64_of 0; st_next_generation := u64_of 1; st_graph := graph_new scopes;
               st_scope_handles := bt_empty; st_active_generations := bt_empty; st_generations := bt_empty |} in
  {| rt_state := st; rt_routes := routes_from_state st; rt_heap := []; rt_jobs := []; rt_effects := [] |}.

(** [state.revision.wrapping_add(1)] *)
Definition next_revision (st : RuntimeState) : u64 := u64_of (val (st_revision st) + 1).

Definition with_scopes (scopes : ScopeGraph) (handles : btree ScopeId usize) (st : RuntimeState) : RuntimeState :=
  {| st_revision := next_revision st; st_next_generation := st_next_generation st;
     st_graph := {| cg_scopes := scopes; cg_manifests := cg_manifests (st_graph st) |};
     st_scope_handles := handles; st_active_generations := st_active_generations st;
     st_generations := st_generations st |}.

(** Stores a state and the routes made from it. *)
Definition publish_state (st : RuntimeState) (rt : Runtime) : Runtime := with_routes (routes_from_state st) (with_state st rt).

Definition ensure_child_scope (id : ScopeId) (kind : ScopeKind) (parent : ScopeId) (rt : Runtime)
    : result ScopeGraphError Runtime :=
  let st := rt_state rt in
  scopes ← ensure_child id kind parent (cg_scopes (st_graph st));
  Ok (publish_state (with_scopes scopes (st_scope_handles st) st) rt).

Definition open_child_scope (id : ScopeId) (kind : ScopeKind) (parent : ScopeId) (rt : Runtime)
    : result ScopeGraphError Runtime :=
  let st := rt_state rt in
  scopes ← ensure_child id kind parent (cg_scopes (st_graph st));
  let handles := default (u64_of 0) (bt_get id (st_scope_handles st)) in
  Ok (publish_state (with_scopes scopes (bt_insert id (u64_of (val handles + 1)) (st_scope_handles st)) st) rt).

(** * Leases *)

Record CapabilityLease := { ls_capability : CapabilityId; ls_generation : ptr }.

(** One turn of the loops of [acquire] and [acquire_typed]. *)
Inductive Turn := Invisible | Leased (generation : ptr) | Again.

Definition acquire_turn (request_scope : ScopeId) (capability : CapabilityId) (rt : Runtime) : panicking (Turn * Runtime) :=
  match routes_visible (rt_routes rt) request_scope capability with
  | None => Ok (Invisible, rt)
  | Some p =>
      '(leased, rt) ← through p try_acquire rt;
      Ok (if leased : bool then Leased p else Again, rt)
  end.

(** The loop of [acquire]; the outer [None] when it has not ended after [turns]. *)
Fixpoint acquire (turns : nat) (request_scope : ScopeId) (capability : CapabilityId) (rt : Runtime)
    : panicking (option (option CapabilityLease) * Runtime) :=
  match turns with
  | O => Ok (None, rt)
  | S turns =>
      '(turn, rt) ← acquire_turn request_scope capability rt;
      match turn with
      | Invisible => Ok (Some None, rt)
      | Leased p => Ok (Some (Some {| ls_capability := capability; ls_generation := p |}), rt)
      | Again => acquire turns request_scope capability rt
      end
  end.

Definition push_job (p : ptr) (job : option (list CapabilityDisposer)) (rt : Runtime) : Runtime :=
  match job with
  | Some ds => with_jobs (rt_jobs rt ++ [{| jb_generation := p; jb_disposers := ds |}]) rt
  | None => rt
  end.

(** [Drop] of a lease *)
Definition drop_lease (p : ptr) (rt : Runtime) : panicking Runtime :=
  '(job, rt) ← through p release_lease rt;
  Ok (push_job p job rt).

(** [Clone] of a lease *)
Definition clone_lease (p : ptr) (rt : Runtime) : panicking Runtime :=
  '(retained, rt) ← through p retain_lease rt;
  if retained : bool then Ok rt else Err "cannot clone a retired capability lease".

(** [generation_id] and [lifecycle] of a lease *)
Definition lease_generation_id (l : CapabilityLease) (rt : Runtime) : option GenerationId :=
  gr_id <$> rt_heap rt !! ls_generation l.
Definition lease_lifecycle (l : CapabilityLease) (rt : Runtime) : option CapabilityLifecycle :=
  lifecycle <$> rt_heap rt !! ls_generation l.

Inductive CapabilityPayloadError :=
  | MissingPayload (capability : CapabilityId) (generation : GenerationId)
  | TypeMismatch (capability : CapabilityId) (generation : GenerationId) (requested_type : string).

Record TypedCapability := { tc_value : Payload; tc_lease : CapabilityLease }.

(** [Arc::downcast]: the value, if its dynamic type is the one asked for. *)
Definition downcast (requested_type : string) (p : Payload) : option Payload :=
  if decide (pl_type p = requested_type) then Some p else None.

(** [acquire_typed]; the outer [None] when the loop has not ended. *)
Fixpoint acquire_typed (turns : nat) (requested_type : string) (request_scope : ScopeId) (capability : CapabilityId)
    (rt : Runtime) : panicking (option (result CapabilityPayloadError (option TypedCapability)) * Runtime) :=
  match turns with
  | O => Ok (None, rt)
  | S turns =>
      '(turn, rt) ← acquire_turn request_scope capability rt;
      match turn with
      | Invisible => Ok (Some (Ok None), rt)
      | Leased p =>
          r ← ok_or (rt_heap rt !! p) "dangling pointer";
          match payload r capability with
          | None => rt ← drop_lease p rt; Ok (Some (Err (MissingPayload capability (gr_id r))), rt)
          | Some value =>
              match downcast requested_type value with
              | None => rt ← drop_lease p rt; Ok (Some (Err (TypeMismatch capability (gr_id r) requested_type)), rt)
              | Some value =>
                  Ok (Some (Ok (Some {| tc_value := value;
                                        tc_lease := {| ls_capability := capability; ls_generation := p |} |})), rt)
              end
          end
      | Again => acquire_typed turns requested_type request_scope capability rt
      end
  end.

(** * The reaper *)

(** One turn of the reaper's loop, when a job is waiting. *)
Definition reap (rt : Runtime) : panicking Runtime :=
  match rt_jobs rt with
  | [] => Ok rt
  | job :: jobs =>
      let (called, failures) := dispose_all (jb_disposers job) in
      '(_, rt) ← through (jb_generation job) (fun r => r ← complete_disposal failures r; Ok (tt, r)) rt;
      Ok (with_jobs jobs (with_effects (map (Called (jb_generation job)) called) rt))
  end.

(** * Retiring a scope *)

(** [begin_quiescing] of each record, and what each leaves to dispose. *)
Fixpoint quiesce_all (ps : list ptr) (rt : Runtime) : panicking (list (ptr * list CapabilityDisposer) * Runtime) :=
  match ps with
  | [] => Ok ([], rt)
  | p :: ps =>
      '(taken, rt) ← through p begin_quiescing rt;
      '(rest, rt) ← quiesce_all ps rt;
      Ok (match taken with Some ds => (p, ds) :: rest | None => rest end, rt)
  end.

(** The same with [schedule_disposal] after each. *)
Fixpoint quiesce_and_schedule (ps : list ptr) (rt : Runtime) : panicking Runtime :=
  match ps with
  | [] => Ok rt
  | p :: ps =>
      '(taken, rt) ← through p begin_quiescing rt;
      rt ← match taken with
           | Some ds => '(job, rt) ← through p (schedule_disposal ds) rt; Ok (push_job p job rt)
           | None => Ok rt
           end;
      quiesce_and_schedule ps rt
  end.

(** [active_generations.remove(..)] of each key, and the generations removed. *)
Fixpoint remove_active (ids : list CapabilityId) (scope : ScopeId) (active : btree ScopedCapabilityKey GenerationId)
    : list GenerationId * btree ScopedCapabilityKey GenerationId :=
  match ids with
  | [] => ([], active)
  | id :: ids =>
      let key := ScopedKey id scope in
      let (removed, active') := remove_active ids scope (bt_remove key active) in
      (match bt_get key active with Some g => g :: removed | None => removed end, active')
  end.

Definition remove_all (ids : list CapabilityId) (scope : ScopeId) (g : CapabilityGraph) : CapabilityGraph :=
  fold_left (fun g id => remove_in_scope id scope g) ids g.

Definition retire_scope (scope : ScopeId) (rt : Runtime) : panicking Runtime :=
  let st := rt_state rt in
  match bt_get scope (st_scope_handles st) with
  | None => Ok rt
  | Some handles =>
      let handles := u64_saturating_sub handles 1 in
      if 0 <? val handles then
        Ok (with_state {| st_revision := st_revision st; st_next_generation := st_next_generation st;
                          st_graph := st_graph st; st_scope_handles := bt_insert scope handles (st_scope_handles st);
                          st_active_generations := st_active_generations st;
                          st_generations := st_generations st |} rt)
      else
        let retired_capabilities :=
          map mf_id (List.filter (fun m => bool_decide (mf_scope m = scope)) (manifests (st_graph st))) in
        let (removed, active) := remove_active retired_capabilities scope (st_active_generations st) in
        let retired_generation_ids := bs_list (bs_collect removed) in
        let st' := {| st_revision := next_revision st; st_next_generation := st_next_generation st;
                      st_graph := remove_all retired_capabilities scope (st_graph st);
                      st_scope_handles := bt_remove scope (st_scope_handles st);
                      st_active_generations := active; st_generations := st_generations st |} in
        let retired_generations := omap (fun g => bt_get g (st_generations st)) retired_generation_ids in
        rt ← quiesce_and_schedule retired_generations (with_state st' rt);
        Ok (with_routes (routes_from_state st') rt)
  end.

(** * Transactions *)

(** What calling an activation does. *)
Inductive Activation :=
  | ActivationOk (payload : Payload) (disposer : CapabilityDisposer)
  | ActivationErr (reason : string)
  | ActivationPanics.

(** [StagedCapability]: its manifest, and its boxed closure. *)
Record StagedCapability := { sc_manifest : CapabilityManifest; sc_activate : Z; sc_outcome : Activation }.

Record CapabilityTransaction := {
  tx_owner : CapabilityOwnerId;
  tx_scope : ScopeId;
  tx_staged : btree CapabilityId StagedCapability
}.

Inductive CapabilityCommitError :=
  | GraphError (e : CapabilityGraphError)
  | OwnerMismatch (transaction_owner manifest_owner : CapabilityOwnerId)
  | ScopeMismatch (transaction_scope manifest_scope : ScopeId)
  | DuplicateStagedCapability (capability : CapabilityId)
  | ActivationFailed (capability : CapabilityId) (reason : string) (rollback_failures : list string)
  | InternalInvariant (reason : string) (rollback_failures : list string)
  | ConcurrentMutation (expected_revision actual_revision : u64) (rollback_failures : list string).

Definition begin_transaction (owner : CapabilityOwnerId) (scope : ScopeId) : CapabilityTransaction :=
  {| tx_owner := owner; tx_scope := scope; tx_staged := bt_empty |}.

Definition stage_typed (m : CapabilityManifest) (activate : Z) (outcome : Activation) (tx : CapabilityTransaction)
    : result CapabilityCommitError CapabilityTransaction :=
  if bool_decide (mf_owner m <> tx_owner tx) then Err (OwnerMismatch (tx_owner tx) (mf_owner m))
  else if bool_decide (mf_scope m <> tx_scope tx) then Err (ScopeMismatch (tx_scope tx) (mf_scope m))
  else if bt_contains (mf_id m) (tx_staged tx) then Err (DuplicateStagedCapability (mf_id m))
  else Ok {| tx_owner := tx_owner tx; tx_scope := tx_scope tx;
             tx_staged := bt_insert (mf_id m) {| sc_manifest := m; sc_activate := activate; sc_outcome := outcome |}
                            (tx_staged tx) |}.

(** [stage]: the payload is a unit; [None] is an activation that panics. *)
Definition stage (m : CapabilityManifest) (activate address : Z) (outcome : option (result string CapabilityDisposer))
    (tx : CapabilityTransaction) : result CapabilityCommitError CapabilityTransaction :=
  stage_typed m activate
    (match outcome with
     | Some (Ok disposer) => ActivationOk {| pl_type := "()"; pl_address := address |} disposer
     | Some (Err reason) => ActivationErr reason
     | None => ActivationPanics
     end) tx.

(** ** The first critical section of [commit] *)

Record Prepared := {
  pr_candidate : CapabilityGraph;
  pr_replaced : list CapabilityId;
  pr_activation_order : list CapabilityId;
  pr_expected_revision : u64
}.

(** [for staged in .. { candidate.insert(..)?; }] *)
Fixpoint insert_all (ms : list CapabilityManifest) (g : CapabilityGraph) : result CapabilityGraphError CapabilityGraph :=
  match ms with
  | [] => Ok g
  | m :: ms => g ← graph_insert m g; insert_all ms g
  end.

Definition commit_prepare (tx : CapabilityTransaction) (st : RuntimeState) : result CapabilityCommitError Prepared :=
  let staged_ids := bs_collect (bt_keys (tx_staged tx)) in
  let replaced :=
    map mf_id (List.filter (fun m => bool_decide (mf_owner m = tx_owner tx) && bool_decide (mf_scope m = tx_scope tx))
                 (manifests (st_graph st))) in
  map_err GraphError (
    candidate ← insert_all (map sc_manifest (bt_values (tx_staged tx))) (remove_all replaced (tx_scope tx) (st_graph st));
    _ ← validate candidate;
    resolved ← resolve candidate (tx_scope tx) (bs_list staged_ids);
    Ok {| pr_candidate := candidate; pr_replaced := replaced;
          pr_activation_order := List.filter (fun id => bt_contains id staged_ids) (rg_ordered resolved);
          pr_expected_revision := st_revision st |}).

(** ** Activation, outside the locks *)

Record ActivatedCapabilities := {
  av_activated : list CapabilityId;
  av_payloads : btree CapabilityId Payload;
  av_disposers : list CapabilityDisposer
}.

(** A panic of an activation unwinds out of [commit], and what was activated is
    dropped. *)
Inductive Activating :=
  | AllActivated (activated : ActivatedCapabilities)
  | ActivationStopped (e : CapabilityCommitError)
  | ActivationUnwound.

Definition nothing_activated : ActivatedCapabilities :=
  {| av_activated := []; av_payloads := bt_empty; av_disposers := [] |}.

Definition one_activated (id : CapabilityId) (payload : Payload) (disposer : CapabilityDisposer)
    (av : ActivatedCapabilities) : ActivatedCapabilities :=
  {| av_activated := av_activated av ++ [id]; av_payloads := bt_insert id payload (av_payloads av);
     av_disposers := av_disposers av ++ [disposer] |}.

Definition roll_back (disposers : list CapabilityDisposer) : list Effect := map RolledBack (fst (dispose_all disposers)).

Fixpoint commit_activate (order : list CapabilityId) (staged : btree CapabilityId StagedCapability)
    (av : ActivatedCapabilities) : Activating * list Effect :=
  match order with
  | [] => (AllActivated av, [])
  | id :: order =>
      match bt_get id staged with
      | None =>
          (ActivationStopped (InternalInvariant
             ("activation order referenced unstaged capability " +:+ cap_str id) (snd (dispose_all (av_disposers av)))),
           roll_back (av_disposers av))
      | Some sc =>
          match sc_outcome sc with
          | ActivationOk payload disposer =>
              let (r, effects) := commit_activate order (bt_remove id staged) (one_activated id payload disposer av) in
              (r, Activated (sc_activate sc) :: effects)
          | ActivationErr reason =>
              (ActivationStopped (ActivationFailed id reason (snd (dispose_all (av_disposers av)))),
               Activated (sc_activate sc) :: roll_back (av_disposers av))
          | ActivationPanics => (ActivationUnwound, [Activated (sc_activate sc)])
          end
      end
  end.

(** ** The second critical section, up to the new routes *)

Record CapabilityCommitReport := {
  cr_generation : GenerationId;
  cr_owner : CapabilityOwnerId;
  cr_scope : ScopeId;
  cr_activated : list CapabilityId;
  cr_retired : list GenerationId;
  cr_disposal_failures : list string
}.

Record Published := {
  pb_generation : GenerationId;
  pb_retired : list GenerationId;
  pb_retired_records : list ptr;
  pb_routes : RouteSnapshot
}.

(** [state.next_generation += 1], which wraps in release builds. *)
Definition next_generation (st : RuntimeState) : u64 := u64_of (val (st_next_generation st) + 1).

Definition insert_active (ids : list CapabilityId) (scope : ScopeId) (g : GenerationId)
    (active : btree ScopedCapabilityKey GenerationId) : btree ScopedCapabilityKey GenerationId :=
  fold_left (fun active id => bt_insert (ScopedKey id scope) g active) ids active.

Definition commit_publish (tx : CapabilityTransaction) (pr : Prepared) (av : ActivatedCapabilities) (rt : Runtime)
    : panicking (result CapabilityCommitError Published * Runtime) :=
  let st := rt_state rt in
  if bool_decide (st_revision st <> pr_expected_revision pr) then
    Ok (Err (ConcurrentMutation (pr_expected_revision pr) (st_revision st) (snd (dispose_all (av_disposers av)))),
        with_effects (roll_back (av_disposers av)) rt)
  else
    let generation := st_next_generation st in
    let (removed, active) := remove_active (pr_replaced pr) (tx_scope tx) (st_active_generations st) in
    let retired := bs_list (bs_collect removed) in
    record ← generation_new generation (tx_owner tx) (tx_scope tx) (av_activated av) (av_payloads av) (av_disposers av);
    let st' := {| st_revision := next_revision st; st_next_generation := next_generation st;
                  st_graph := pr_candidate pr; st_scope_handles := st_scope_handles st;
                  st_active_generations := insert_active (av_activated av) (tx_scope tx) generation active;
                  st_generations := bt_insert generation (length (rt_heap rt)) (st_generations st) |} in
    Ok (Ok {| pb_generation := generation; pb_retired := retired;
              pb_retired_records := omap (fun g => bt_get g (st_generations st')) retired;
              pb_routes := routes_from_state st' |},
        with_heap (rt_heap rt ++ [record]) (with_state st' rt)).

(** ** What is disposed of at once *)

(** [format!("generation {}: {failure}", record.id())] *)
Definition generation_failure (g : GenerationId) (failure : string) : string :=
  "generation " +:+ string_of_bytes (dec_text (val g)) +:+ ": " +:+ failure.

Fixpoint dispose_immediately (jobs : list (ptr * list CapabilityDisposer)) (rt : Runtime)
    : panicking (list string * Runtime) :=
  match jobs with
  | [] => Ok ([], rt)
  | (p, ds) :: jobs =>
      let (called, failures) := dispose_all ds in
      '(id, rt) ← through p (fun r => r' ← complete_disposal failures r; Ok (gr_id r, r')) rt;
      '(rest, rt) ← dispose_immediately jobs (with_effects (map (Called p) called) rt);
      Ok (map (generation_failure id) failures ++ rest, rt)
  end.

(** From the second time [commit] takes the gate. *)
Definition commit_finish (tx : CapabilityTransaction) (pr : Prepared) (av : ActivatedCapabilities) (rt : Runtime)
    : panicking (result CapabilityCommitError CapabilityCommitReport * Runtime) :=
  '(published, rt) ← commit_publish tx pr av rt;
  match published with
  | Err e => Ok (Err e, rt)
  | Ok pb =>
      '(immediate, rt) ← quiesce_all (pb_retired_records pb) rt;
      '(failures, rt) ← dispose_immediately immediate (with_routes (pb_routes pb) rt);
      Ok (Ok {| cr_generation := pb_generation pb; cr_owner := tx_owner tx; cr_scope := tx_scope tx;
                cr_activated := av_activated av; cr_retired := pb_retired pb; cr_disposal_failures := failures |}, rt)
  end.

(** What [commit] comes to: a report, an error, or the panic of an activation. *)
Inductive Commit :=
  | Committed (report : CapabilityCommitReport)
  | CommitFailed (e : CapabilityCommitError)
  | CommitUnwound.

(** [commit], with nothing else running between its critical sections. *)
Definition commit (tx : CapabilityTransaction) (rt : Runtime) : panicking (Commit * Runtime) :=
  match commit_prepare tx (rt_state rt) with
  | Err e => Ok (CommitFailed e, rt)
  | Ok pr =>
      let (activating, effects) := commit_activate (pr_activation_order pr) (tx_staged tx) nothing_activated in
      let rt := with_effects effects rt in
      match activating with
      | AllActivated av =>
          '(r, rt) ← commit_finish tx pr av rt;
          Ok (match r with Ok report => Committed report | Err e => CommitFailed e end, rt)
      | ActivationStopped e => Ok (CommitFailed e, rt)
      | ActivationUnwound => Ok (CommitUnwound, rt)
      end
  end.

(** [CapabilityScope]: the handle of a scope, and its calls. *)
Definition scope_begin_transaction (id : ScopeId) (owner : CapabilityOwnerId) : CapabilityTransaction :=
  begin_transaction owner id.

Definition scope_acquire_typed (turns : nat) (requested_type : string) (id : ScopeId) (capability : CapabilityId)
    (rt : Runtime) : panicking (option (result CapabilityPayloadError (option TypedCapability)) * Runtime) :=
  acquire_typed turns requested_type id capability rt.

(** * Snapshots *)

Record CapabilitySnapshot := {
  cs_id : CapabilityId;
  cs_kind : CapabilityKind;
  cs_owner : CapabilityOwnerId;
  cs_scope : ScopeId;
  cs_generation : GenerationId;
  cs_lifecycle : CapabilityLifecycle
}.

Record GenerationSnapshot := {
  gs_id : GenerationId;
  gs_owner : CapabilityOwnerId;
  gs_scope : ScopeId;
  gs_lifecycle : CapabilityLifecycle;
  gs_leases : usize;
  gs_capabilities : list CapabilityId;
  gs_disposal_failures : list string
}.

Record RuntimeSnapshot := {
  sn_capabilities : list CapabilitySnapshot;
  sn_generations : list GenerationSnapshot
}.

Definition snapshot (rt : Runtime) : RuntimeSnapshot :=
  let st := rt_state rt in
  {| sn_capabilities :=
       omap (fun m =>
         generation ← bt_get (manifest_key m) (st_active_generations st);
         p ← bt_get generation (st_generations st);
         r ← rt_heap rt !! p;
         Some {| cs_id := mf_id m; cs_kind := mf_kind m; cs_owner := mf_owner m; cs_scope := mf_scope m;
                 cs_generation := generation; cs_lifecycle := lifecycle r |}) (manifests (st_graph st));
     sn_generations :=
       omap (fun e =>
         r ← rt_heap rt !! snd e;
         let '(lifecycle, leases, failures) := snapshot_state r in
         Some {| gs_id := fst e; gs_owner := gr_owner r; gs_scope := gr_scope r; gs_lifecycle := lifecycle;
                 gs_leases := leases; gs_capabilities := gr_capabilities r; gs_disposal_failures := failures |})
         (entries (st_generations st)) |}.
