(* ===== verification/RuntimeFacts.v ===== *)
(** Lemmas on CapabilityRuntime: its maps and routes, and the heap of generations
    under its calls: what each call does to a record is a run of its steps, so
    that its invariant is kept; the invariant of the runtime, the routes its
    readers follow, and the calls that keep it. *)

From S2P Require Import Prelude BTree Disk Listing Capabilities ScopeFacts ResolveFacts Generations GenerationFacts CapabilityRuntime.

Open Scope Z_scope.

(** * Maps *)

Lemma bt_collect_spec {K V} `{EqDecision K, KeyOrder K} (l : list (K * V)) k v :
  NoDup l.*1 -> bt_get k (bt_collect l) = Some v <-> (k, v) ∈ l.
Proof.
  unfold bt_collect.
  assert (forall m : btree K V, NoDup l.*1 -> (forall k, k ∈ l.*1 -> bt_get k m = None) ->
    bt_get k (fold_left (fun m e => bt_insert e.1 e.2 m) l m) = Some v <-> (k, v) ∈ l \/ bt_get k m = Some v) as Hgen.
  { induction l as [|[k0 v0] l IH]; intros m Hnd Hm; cbn; [set_solver|].
    apply list.NoDup_cons in Hnd as [Hk0 Hnd]. rewrite IH; [|done|].
    - rewrite bt_get_insert, elem_of_cons. case_decide as E; [|naive_solver]. subst k0.
      rewrite (Hm k) by by left. split; [intros [?|[= ->]]; [tauto|by left; left]|].
      intros [[[= ->]|?]|?]; [by right|by left|done].
    - intros k' Hk'. rewrite bt_get_insert_ne; [by apply Hm; right|]. intros ->. done. }
  intros Hnd. rewrite Hgen; [|done|done]. naive_solver.
Qed.

Lemma omap_keys_NoDup {K A B} (f : K * A -> option B) (l : list (K * A)) :
  NoDup l.*1 -> NoDup (omap (fun e => b ← f e; Some (e.1, b)) l).*1.
Proof.
  induction l as [|[k a] l IH]; cbn; [constructor|]. intros [Hk Hl]%list.NoDup_cons.
  destruct (f (k, a)) as [b|]; cbn; [|by apply IH]. constructor; [|by apply IH].
  rewrite list_elem_of_fmap. intros ([k' b'] & -> & Hin). apply list_elem_of_omap in Hin as ([k2 a2] & Hin & E).
  destruct (f (k2, a2)); [|done]. cbn in E. injection E as -> ->. apply Hk. apply list_elem_of_fmap. by exists (k', a2).
Qed.

(** The routes follow each active capability to its record. *)
Lemma routes_from_state_get st k p :
  bt_get k (rs_routes (routes_from_state st)) = Some p <->
  exists g, bt_get k (st_active_generations st) = Some g /\ bt_get g (st_generations st) = Some p.
Proof.
  cbn [rs_routes routes_from_state]. rewrite bt_collect_spec.
  - rewrite list_elem_of_omap. split.
    + intros ([k' g] & Hin & E). cbn in E. destruct (bt_get g (st_generations st)) as [p'|] eqn:Eg; [|done].
      injection E as -> ->. exists g. split; [by apply bt_entry|done].
    + intros (g & Hk & Hg). exists (k, g). split; [by apply bt_entry|]. cbn. by rewrite Hg.
  - apply (omap_keys_NoDup (fun e => bt_get e.2 (st_generations st))), bt_keys_NoDup.
Qed.

(** The capabilities of [ids] in [scope]. *)
Definition in_scope (ids : list CapabilityId) (scope : ScopeId) (k : ScopedCapabilityKey) : Prop :=
  key_scope k = scope /\ key_id k ∈ ids.

#[export] Instance in_scope_dec ids scope k : Decision (in_scope ids scope k).
Proof. unfold in_scope. apply _. Defined.

Lemma in_scope_cons id ids scope k : in_scope (id :: ids) scope k <-> k = ScopedKey id scope \/ in_scope ids scope k.
Proof.
  unfold in_scope. rewrite elem_of_cons. destruct k as [i s]. cbn. split; [|naive_solver].
  intros [-> [->|?]]; [by left|by right].
Qed.

Lemma remove_active_get ids scope active k :
  bt_get k (snd (remove_active ids scope active)) = if decide (in_scope ids scope k) then None else bt_get k active.
Proof.
  revert active. induction ids as [|id ids IH]; intros active; cbn [remove_active fold_left].
  - case_decide as Hin; [|done]. destruct Hin as [_ Hin]. by apply elem_of_nil in Hin.
  - specialize (IH (bt_remove (ScopedKey id scope) active)). destruct (remove_active ids scope _) as [removed active'].
    cbn [snd] in IH |- *. rewrite IH, bt_get_remove. pose proof (in_scope_cons id ids scope k). repeat case_decide; tauto.
Qed.

Lemma remove_active_elem ids scope active g :
  g ∈ fst (remove_active ids scope active) <->
  exists k, in_scope ids scope k /\ bt_get k active = Some g.
Proof.
  revert active. induction ids as [|id ids IH]; intros active; cbn [remove_active fold_left].
  - split; [by intros ?%elem_of_nil|]. intros (k & [_ Hin] & _). by apply elem_of_nil in Hin.
  - specialize (IH (bt_remove (ScopedKey id scope) active)). destruct (remove_active ids scope _) as [removed active'].
    cbn [fst] in IH |- *. transitivity (bt_get (ScopedKey id scope) active = Some g \/ g ∈ removed).
    { destruct (bt_get (ScopedKey id scope) active) as [g'|]; [|naive_solver]. rewrite elem_of_cons. naive_solver. }
    rewrite IH. split.
    + intros [Hg|(k & Hk & Hg)].
      * exists (ScopedKey id scope). rewrite in_scope_cons. auto.
      * rewrite bt_get_remove in Hg. case_decide; [done|]. exists k. rewrite in_scope_cons. auto.
    + intros (k & Hk & Hg). apply in_scope_cons in Hk. destruct (decide (k = ScopedKey id scope)) as [->|Hne]; [by left|].
      right. exists k. rewrite bt_get_remove, decide_False by done. destruct Hk; [done|auto].
Qed.

Lemma insert_active_get ids scope g active k :
  bt_get k (insert_active ids scope g active) = if decide (in_scope ids scope k) then Some g else bt_get k active.
Proof.
  unfold insert_active. revert active. induction ids as [|id ids IH]; intros active; cbn [remove_active fold_left].
  - case_decide as Hin; [|done]. destruct Hin as [_ Hin]. by apply elem_of_nil in Hin.
  - rewrite IH, bt_get_insert. pose proof (in_scope_cons id ids scope k). repeat case_decide; tauto.
Qed.

(** * Graphs *)

Lemma remove_all_scopes ids scope g : cg_scopes (remove_all ids scope g) = cg_scopes g.
Proof. unfold remove_all. revert g. induction ids as [|id ids IH]; intros g; cbn; [done|]. by rewrite IH. Qed.

Lemma remove_all_get ids scope g k :
  bt_get k (cg_manifests (remove_all ids scope g)) = if decide (in_scope ids scope k) then None else bt_get k (cg_manifests g).
Proof.
  unfold remove_all. revert g. induction ids as [|id ids IH]; intros g; cbn.
  - case_decide as Hin; [|done]. destruct Hin as [_ Hin]. by apply elem_of_nil in Hin.
  - rewrite IH, remove_in_scope_get. pose proof (in_scope_cons id ids scope k). repeat case_decide; tauto.
Qed.

Lemma remove_all_ok ids scope g : graph_ok g -> graph_ok (remove_all ids scope g).
Proof.
  unfold remove_all. revert g. induction ids as [|id ids IH]; intros g Hg; cbn; [done|]. by apply IH, remove_in_scope_ok.
Qed.

Lemma insert_all_spec ms g g' :
  graph_ok g -> insert_all ms g = Ok g' ->
  graph_ok g' /\ cg_scopes g' = cg_scopes g
  /\ (forall m, m ∈ ms -> bt_contains (mf_scope m) (cg_scopes g) = true)
  /\ forall k m, bt_get k (cg_manifests g') = Some m <->
       (k = manifest_key m /\ m ∈ ms) \/ bt_get k (cg_manifests g) = Some m.
Proof.
  revert g. induction ms as [|m0 ms IH]; intros g Hg; cbn.
  { intros [= <-]. split; [done|]. split; [done|]. split; [set_solver|]. set_solver. }
  rewrite bind_Ok. intros (g1 & E1 & E). pose proof (graph_insert_ok _ _ _ Hg E1) as Hg1.
  apply IH in E as (Hg' & Hs & Hc & Hget); [|done]. apply graph_insert_spec in E1 as (Hs0 & Hnew & ->); [|done].
  cbn [cg_scopes cg_manifests] in *. split; [done|]. split; [done|]. split.
  { intros m. rewrite elem_of_cons. intros [->|?]; auto. }
  intros k m. rewrite Hget, bt_get_insert, elem_of_cons. case_decide as Ek.
  2: { split; [tauto|]. intros [[-> [->|?]]|?]; [done|by left|by right]. }
  subst k.
  assert (bt_get (manifest_key m0) (cg_manifests g) = None) as Hnone.
  { apply eq_None_not_Some. intros [e He]. pose proof (gok_key _ Hg _ _ He) as Hke. unfold manifest_key in Hke.
    injection Hke as Hid Hsc. destruct (Hnew e) as [Hn _].
    - apply bt_value. by eexists.
    - done.
    - apply Hn. rewrite <- Hsc. done. }
  rewrite Hnone. split.
  - intros [[? ?]|[= <-]]; left; auto.
  - intros [[E0 [->|?]]|?]; [by right|by left|done].
Qed.

(** The ids of the manifests that meet a condition on owner and scope. *)
Lemma filter_ids_in_scope g (f : CapabilityManifest -> bool) scope k m :
  graph_ok g -> (forall m, f m = true -> mf_scope m = scope) -> bt_get k (cg_manifests g) = Some m ->
  in_scope (map mf_id (List.filter f (manifests g))) scope k <-> exists m', m' ∈ manifests g /\ f m' = true /\ manifest_key m' = k.
Proof.
  intros Hg Hf Hk. unfold in_scope. rewrite list_elem_of_In, List.in_map_iff. setoid_rewrite List.filter_In. split.
  - intros [Hs (m' & Hid & Hin & Hfm)]. exists m'. rewrite list_elem_of_In. split; [done|]. split; [done|].
    unfold manifest_key. rewrite (Hf m' Hfm), Hid, <- Hs. by destruct k.
  - intros (m' & Hin & Hfm & <-). split; [by apply Hf|]. exists m'. by rewrite <- list_elem_of_In.
Qed.

Lemma filter_ids_spec g (f : CapabilityManifest -> bool) scope k m :
  graph_ok g -> (forall m, f m = true -> mf_scope m = scope) -> bt_get k (cg_manifests g) = Some m ->
  in_scope (map mf_id (List.filter f (manifests g))) scope k <-> f m = true.
Proof.
  intros Hg Hf Hk. rewrite (filter_ids_in_scope g f scope k m Hg Hf Hk). split.
  - intros (m' & Hin & Hfm & <-). apply manifests_elem in Hin; [|done]. congruence.
  - intros Hfm. exists m. split; [apply bt_value; by eexists|]. split; [done|]. symmetry. by apply (gok_key _ Hg).
Qed.

(** * One generation among the calls of the runtime *)

(** What a generation was published with. *)
Abbreviation origin := (btree CapabilityId Payload * list CapabilityDisposer)%type.

Lemma sum_list_with_permutation {A} (f : A -> nat) l l' :
  Permutation l l' -> sum_list_with f l = sum_list_with f l'.
Proof. induction 1; cbn; lia. Qed.

Lemma shared_ok_permutation payloads disposers r held threads threads' called :
  Permutation threads threads' ->
  shared_ok true payloads disposers {| sh_record := r; sh_held := held; sh_threads := threads; sh_called := called |} ->
  shared_ok true payloads disposers {| sh_record := r; sh_held := held; sh_threads := threads'; sh_called := called |}.
Proof.
  intros Hp [Hl Hld Hlc]. split; unfold lifecycle_ok in *; cbn_shared.
  - by rewrite <- (sum_list_with_permutation _ _ _ Hp).
  - by rewrite <- Hp.
  - rewrite <- !(sum_list_with_permutation _ _ _ Hp). destruct (lifecycle_of (gr_state r)); try done.
    destruct Hlc as (? & Hf & ?). split; [done|]. split; [|done]. by rewrite <- Hp.
Qed.

(** The calls under way on the generation at [p]. *)
Definition flights_of (p : ptr) (flights : list (ptr * Thread)) : list Thread :=
  omap (fun f => if decide (fst f = p) then Some (snd f) else None) flights.

Definition job_flights (jobs : list DisposalJob) : list (ptr * Thread) :=
  map (fun j => (jb_generation j, Sent (jb_disposers j))) jobs.

Definition leases_on (p : ptr) (leases : list ptr) : nat := length (List.filter (fun q => bool_decide (q = p)) leases).

Definition called_on (p : ptr) (effects : list Effect) : list CapabilityDisposer :=
  omap (fun e => match e with Called q d => if decide (q = p) then Some d else None | _ => None end) effects.

Lemma flights_of_app p l l' : flights_of p (l ++ l') = flights_of p l ++ flights_of p l'.
Proof. apply omap_app. Qed.

Lemma flights_of_same p threads : flights_of p (map (pair p) threads) = threads.
Proof. induction threads as [|t l IH]; [done|]. cbn. rewrite decide_True by done. by rewrite <- IH at 2. Qed.

Lemma flights_of_other p q threads : p <> q -> flights_of q (map (pair p) threads) = [].
Proof. intros Hne. induction threads as [|t l IH]; [done|]. cbn. by rewrite decide_False. Qed.

Lemma called_on_app p l l' : called_on p (l ++ l') = called_on p l ++ called_on p l'.
Proof. apply omap_app. Qed.

Lemma called_on_same p ds : called_on p (map (Called p) ds) = ds.
Proof. induction ds as [|d ds IH]; [done|]. cbn. rewrite decide_True by done. by rewrite <- IH at 2. Qed.

Lemma called_on_other p q ds : p <> q -> called_on q (map (Called p) ds) = [].
Proof. intros Hne. induction ds as [|d ds IH]; [done|]. cbn. by rewrite decide_False. Qed.

Lemma called_on_unpublished p effects :
  (forall q d, Called q d ∉ effects) -> called_on p effects = [].
Proof.
  intros Hno. induction effects as [|e effects IH]; [done|]. destruct e as [a|d|q d]; cbn.
  - apply IH. set_solver.
  - apply IH. set_solver.
  - exfalso. apply (Hno q d). by left.
Qed.

Lemma leases_on_cons p q leases : leases_on p (q :: leases) = ((if decide (q = p) then 1 else 0) + leases_on p leases)%nat.
Proof. unfold leases_on. cbn. case_bool_decide; case_decide; done. Qed.

Lemma leases_on_elem p leases : p ∈ leases <-> (0 < leases_on p leases)%nat.
Proof.
  induction leases as [|q leases IH].
  - split; [by intros ?%elem_of_nil|]. cbn. lia.
  - rewrite leases_on_cons, elem_of_cons, IH. case_decide as E; [subst; split; [lia|by left]|].
    split; [intros [->|?]; [done|lia]|intros; right; lia].
Qed.

Lemma leases_on_permutation p l l' : Permutation l l' -> leases_on p l = leases_on p l'.
Proof. intros Hp. induction Hp; rewrite ?leases_on_cons in *; lia. Qed.

(** * The heap *)

(** The statics of a record never change. *)
Definition same_generation (r r' : GenerationRecord) : Prop :=
  gr_id r' = gr_id r /\ gr_owner r' = gr_owner r /\ gr_scope r' = gr_scope r /\ gr_capabilities r' = gr_capabilities r.

Record record_ok (leases : list ptr) (flights : list (ptr * Thread)) (effects : list Effect) (p : ptr)
    (o : origin) (r : GenerationRecord) : Prop := {
  rk_shared : shared_ok true (fst o) (snd o)
    {| sh_record := r; sh_held := leases_on p leases; sh_threads := flights_of p flights; sh_called := called_on p effects |};
  rk_payloads c : is_Some (bt_get c (fst o)) <-> c ∈ gr_capabilities r
}.

Record heap_ok (heap : list GenerationRecord) (published : list origin) (leases : list ptr)
    (flights : list (ptr * Thread)) (effects : list Effect) : Prop := {
  hk_length : length published = length heap;
  hk_record p r o : heap !! p = Some r -> published !! p = Some o -> record_ok leases flights effects p o r;
  hk_leases p : p ∈ leases -> (p < length heap)%nat;
  hk_flights p t : (p, t) ∈ flights -> (p < length heap)%nat;
  hk_effects p d : Called p d ∈ effects -> (p < length heap)%nat
}.

Lemma heap_ok_origin heap published leases flights effects p r :
  heap_ok heap published leases flights effects -> heap !! p = Some r -> exists o, published !! p = Some o.
Proof.
  intros Hok Hr. apply lookup_lt_is_Some. rewrite (hk_length _ _ _ _ _ Hok). apply lookup_lt_is_Some. by eexists.
Qed.

(** One record takes steps; everything else is as it was. *)
Lemma heap_ok_run heap published leases leases' flights flights' effects effects' p r r' :
  heap_ok heap published leases flights effects -> heap !! p = Some r -> same_generation r r' ->
  (forall q, q <> p -> leases_on q leases' = leases_on q leases /\ Permutation (flights_of q flights) (flights_of q flights')
             /\ called_on q effects' = called_on q effects) ->
  (forall q, q ∈ leases' -> q ∈ leases \/ q = p) ->
  (forall q t, (q, t) ∈ flights' -> (exists t', (q, t') ∈ flights) \/ q = p) ->
  (forall q d, Called q d ∈ effects' -> Called q d ∈ effects \/ q = p) ->
  (forall o, published !! p = Some o ->
     rtc (shared_step true)
       {| sh_record := r; sh_held := leases_on p leases; sh_threads := flights_of p flights; sh_called := called_on p effects |}
       {| sh_record := r'; sh_held := leases_on p leases'; sh_threads := flights_of p flights'; sh_called := called_on p effects' |}) ->
  heap_ok (<[p := r']> heap) published leases' flights' effects'.
Proof.
  intros Hok Hr Hsame Hothers Hl Hf He Hrun.
  assert (p < length heap)%nat as Hp by (by eapply lookup_lt_Some).
  split; rewrite ?length_insert.
  - apply (hk_length _ _ _ _ _ Hok).
  - intros q rq o Hq Ho. destruct (decide (q = p)) as [->|Hne].
    + rewrite list_lookup_insert_eq in Hq by done. injection Hq as <-.
      destruct (hk_record _ _ _ _ _ Hok p r o Hr Ho) as [Hsh Hpay]. split.
      * eapply shared_steps_ok; [exact Hsh|by apply (Hrun o)].
      * intros c. destruct Hsame as (_ & _ & _ & ->). apply Hpay.
    + rewrite list_lookup_insert_ne in Hq by done. destruct (Hothers q Hne) as (El & Ef & Ec).
      destruct (hk_record _ _ _ _ _ Hok q rq o Hq Ho) as [Hsh Hpay]. split; [|done].
      rewrite El, Ec. by eapply shared_ok_permutation.
  - intros q [Hq| ->]%Hl; [by eapply hk_leases|done].
  - intros q t [[t' Hq]| ->]%Hf; [by eapply hk_flights|done].
  - intros q d [Hq| ->]%He; [by eapply hk_effects|done].
Qed.

(** ** Calls leave the statics alone *)

Lemma set_state_same w r : same_generation r (set_state w r).
Proof. done. Qed.

Lemma same_generation_trans r1 r2 r3 : same_generation r1 r2 -> same_generation r2 r3 -> same_generation r1 r3.
Proof. unfold same_generation. intros (? & ? & ? & ?) (? & ? & ? & ?). repeat split; congruence. Qed.

Lemma stored_same_generation next r : same_generation r (snd (stored next r)).
Proof. by destruct next. Qed.

Lemma try_acquire_same r b r' : try_acquire r = Ok (b, r') -> same_generation r r'.
Proof. unfold try_acquire. intros E. inv_ok. pose proof (stored_same_generation a r) as Hs. by rewrite E in Hs. Qed.

Lemma retain_lease_same r b r' : retain_lease r = Ok (b, r') -> same_generation r r'.
Proof. unfold retain_lease. intros E. inv_ok. pose proof (stored_same_generation a r) as Hs. by rewrite E in Hs. Qed.

Lemma take_disposal_same r taken r' : take_disposal_if_drained r = Ok (taken, r') -> same_generation r r'.
Proof. unfold take_disposal_if_drained. intros E. inv_ok. case_bool_decide; by injection E as <- <-. Qed.

Lemma begin_quiescing_same r taken r' : begin_quiescing r = Ok (taken, r') -> same_generation r r'.
Proof.
  unfold begin_quiescing. intros E. inv_ok. apply take_disposal_same in E.
  eapply same_generation_trans; [apply stored_same_generation|exact E].
Qed.

Lemma complete_disposal_same fs r r' : complete_disposal fs r = Ok r' -> same_generation r r'.
Proof. unfold complete_disposal. intros E. inv_ok. done. Qed.

Lemma schedule_disposal_same ds r job r' : schedule_disposal ds r = Ok (job, r') -> same_generation r r'.
Proof.
  unfold schedule_disposal. intros E. destruct ds; inv_ok; [by eapply complete_disposal_same|done].
Qed.

Lemma release_lease_same r job r' : release_lease r = Ok (job, r') -> same_generation r r'.
Proof.
  unfold release_lease. intros E. inv_ok. destruct a0 as [taken r1]. apply take_disposal_same in Hr0.
  assert (same_generation r r1) as Hs by (eapply same_generation_trans; [apply set_state_same|exact Hr0]).
  destruct taken as [ds|]; [|by injection E as <- <-]. apply schedule_disposal_same in E.
  by eapply same_generation_trans.
Qed.

(** * Runtimes *)

(** [extra] are the calls under way that no job holds. *)
Definition runtime_heap_ok (rt : Runtime) (published : list origin) (leases : list ptr) (extra : list (ptr * Thread)) : Prop :=
  heap_ok (rt_heap rt) published leases (extra ++ job_flights (rt_jobs rt)) (rt_effects rt).

(** Records stay where they are; those not in [S] stay active. *)
Definition heap_evolves (S : ptr -> Prop) (heap heap' : list GenerationRecord) : Prop :=
  forall p r, heap !! p = Some r ->
    exists r', heap' !! p = Some r' /\ same_generation r r'
      /\ (~ S p -> lifecycle_of (gr_state r) = Active -> lifecycle_of (gr_state r') = Active)
      /\ (lifecycle_of (gr_state r) <> Active -> lifecycle_of (gr_state r') <> Active).

Lemma heap_evolves_refl S heap : heap_evolves S heap heap.
Proof. intros p r Hr. by exists r. Qed.

Lemma heap_evolves_trans (S1 S2 S : ptr -> Prop) h1 h2 h3 :
  heap_evolves S1 h1 h2 -> heap_evolves S2 h2 h3 -> (forall p, S1 p \/ S2 p -> S p) -> heap_evolves S h1 h3.
Proof.
  intros H12 H23 HS p r Hr. destruct (H12 p r Hr) as (r2 & Hr2 & Hs2 & Ha2 & Hi2).
  destruct (H23 p r2 Hr2) as (r3 & Hr3 & Hs3 & Ha3 & Hi3). exists r3. split; [done|].
  split; [by eapply same_generation_trans|]. split; [|auto]. intros HnS Ha. apply Ha3; [|apply Ha2; [|done]]; intros ?; apply HnS, HS; auto.
Qed.

Lemma heap_evolves_insert (S : ptr -> Prop) heap p r r' :
  heap !! p = Some r -> same_generation r r' ->
  (~ S p -> lifecycle_of (gr_state r) = Active -> lifecycle_of (gr_state r') = Active) ->
  (lifecycle_of (gr_state r) <> Active -> lifecycle_of (gr_state r') <> Active) ->
  heap_evolves S heap (<[p := r']> heap).
Proof.
  intros Hr Hs Ha Hi q rq Hq. destruct (decide (q = p)) as [->|Hne].
  - exists r'. rewrite list_lookup_insert_eq by by eapply lookup_lt_Some. split; [done|].
    assert (rq = r) as -> by congruence. done.
  - exists rq. rewrite list_lookup_insert_ne by done. done.
Qed.

Lemma through_Ok {A} p (call : GenerationRecord -> panicking (A * GenerationRecord)) rt a rt' :
  through p call rt = Ok (a, rt') ->
  exists r r', rt_heap rt !! p = Some r /\ call r = Ok (a, r') /\ rt' = with_heap (<[p := r']> (rt_heap rt)) rt.
Proof.
  unfold through. intros E. inv_ok. destruct a1 as [a' r']. injection E as -> <-. by exists a0, r'.
Qed.

(** What a call does to the rest of the runtime: nothing. *)
Record frame (rt rt' : Runtime) : Prop := {
  fr_state : rt_state rt' = rt_state rt;
  fr_routes : rt_routes rt' = rt_routes rt
}.

Lemma frame_refl rt : frame rt rt.
Proof. done. Qed.

Lemma frame_trans rt1 rt2 rt3 : frame rt1 rt2 -> frame rt2 rt3 -> frame rt1 rt3.
Proof. intros [E1 E2] [E3 E4]. split; congruence. Qed.

Lemma heap_ok_permutation heap published leases leases' flights flights' effects :
  Permutation leases leases' -> Permutation flights flights' ->
  heap_ok heap published leases flights effects -> heap_ok heap published leases' flights' effects.
Proof.
  intros Hpl Hpf Hok. split.
  - apply Hok.
  - intros p r o Hr Ho. destruct (hk_record _ _ _ _ _ Hok p r o Hr Ho) as [Hsh Hpay]. split; [|done].
    rewrite <- (leases_on_permutation p _ _ Hpl). eapply shared_ok_permutation; [|exact Hsh]. unfold flights_of. by rewrite Hpf.
  - intros p. rewrite <- Hpl. apply Hok.
  - intros p t. rewrite <- Hpf. apply Hok.
  - apply Hok.
Qed.

(** A call on [p] whose threads go from [before] to [after]. *)
Lemma call_ok rt published leases leases' extra before after effects p r r' :
  runtime_heap_ok rt published leases (map (pair p) before ++ extra) ->
  rt_heap rt !! p = Some r -> same_generation r r' ->
  (forall q, q <> p -> leases_on q leases' = leases_on q leases) -> (forall q, q ∈ leases' -> q ∈ leases \/ q = p) ->
  (forall o threads, published !! p = Some o ->
     rtc (shared_step true)
       {| sh_record := r; sh_held := leases_on p leases; sh_threads := before ++ threads;
          sh_called := called_on p (rt_effects rt) |}
       {| sh_record := r'; sh_held := leases_on p leases'; sh_threads := after ++ threads;
          sh_called := called_on p (rt_effects rt) ++ effects |}) ->
  runtime_heap_ok (with_effects (map (Called p) effects) (with_heap (<[p := r']> (rt_heap rt)) rt)) published leases'
    (map (pair p) after ++ extra).
Proof.
  intros Hok Hr Hsame Hl1 Hl2 Hrun. unfold runtime_heap_ok in *. cbn [rt_heap rt_jobs rt_effects with_effects with_heap].
  rewrite <- !(assoc_L (++)) in *.
  eapply heap_ok_run; [exact Hok|done|done| | | | |].
  - intros q Hq. rewrite !flights_of_app, !flights_of_other, called_on_app, called_on_other, app_nil_r by done.
    split; [by apply Hl1|done].
  - done.
  - intros q t. rewrite !elem_of_app. intros [Hq|Hq].
    + right. apply list_elem_of_fmap in Hq as (t' & [= -> ->] & _). done.
    + left. exists t. rewrite !elem_of_app. by right.
  - intros q d. rewrite elem_of_app. intros [?|Hq]; [by left|]. right.
    apply list_elem_of_fmap in Hq as (d' & [= -> ->] & _). done.
  - intros o Ho. rewrite !flights_of_app, !flights_of_same, called_on_app, called_on_same. by apply (Hrun o).
Qed.

Lemma no_effects rt : with_effects [] rt = rt.
Proof. unfold with_effects. rewrite app_nil_r. by destruct rt. Qed.

Lemma call_ok_pure rt published leases leases' extra before after p r r' :
  runtime_heap_ok rt published leases (map (pair p) before ++ extra) ->
  rt_heap rt !! p = Some r -> same_generation r r' ->
  (forall q, q <> p -> leases_on q leases' = leases_on q leases) -> (forall q, q ∈ leases' -> q ∈ leases \/ q = p) ->
  (forall threads called,
     rtc (shared_step true)
       {| sh_record := r; sh_held := leases_on p leases; sh_threads := before ++ threads; sh_called := called |}
       {| sh_record := r'; sh_held := leases_on p leases'; sh_threads := after ++ threads; sh_called := called |}) ->
  runtime_heap_ok (with_heap (<[p := r']> (rt_heap rt)) rt) published leases' (map (pair p) after ++ extra).
Proof.
  intros Hok Hr Hs Hl1 Hl2 Hrun.
  rewrite <- (no_effects (with_heap (<[p:=r']> (rt_heap rt)) rt)). apply (call_ok rt published leases leases' extra before after [] p r r' Hok Hr Hs Hl1 Hl2).
  intros o threads _. rewrite app_nil_r. apply Hrun.
Qed.

(** ** Leases *)

Lemma lifecycle_stored_acquire r b r' :
  try_acquire r = Ok (b, r') ->
  lifecycle_of (gr_state r') = lifecycle_of (gr_state r) /\ (b = true <-> lifecycle_of (gr_state r) = Active).
Proof.
  unfold try_acquire. rewrite bind_Ok. intros (next & E & [= Hb]). destruct next as [w|]; cbn in Hb; injection Hb as <- <-.
  - apply acquire_next_Some in E as (E1 & E2 & _). cbn. split; [congruence|done].
  - apply acquire_next_None in E. done.
Qed.

Lemma lifecycle_retain r b r' :
  retain_lease r = Ok (b, r') ->
  lifecycle_of (gr_state r') = lifecycle_of (gr_state r) /\ (b = true <-> is_live (gr_state r)).
Proof.
  unfold retain_lease. rewrite bind_Ok. intros (next & E & [= Hb]). destruct next as [w|]; cbn in Hb; injection Hb as <- <-.
  - apply retain_next_Some in E as (E1 & E2 & _). cbn. done.
  - apply retain_next_None in E. done.
Qed.

(** A generation that is not quiescing is not drained. *)
Lemma take_disposal_other r taken r' :
  take_disposal_if_drained r = Ok (taken, r') -> lifecycle_of (gr_state r) <> Quiescing -> taken = None /\ r' = r.
Proof.
  unfold take_disposal_if_drained. rewrite bind_Ok. setoid_rewrite bind_Ok. intros (q & Hq & w & Hw & E) Hne.
  case_bool_decide as Eq; [by injection E as <- <-|]. subst q. apply quiescing_word_is in Hq as [Hq _]. done.
Qed.

Lemma release_lease_active r job r' :
  release_lease r = Ok (job, r') -> lifecycle_of (gr_state r) = Active -> lifecycle_of (gr_state r') = Active.
Proof.
  unfold release_lease. rewrite bind_Ok. setoid_rewrite bind_Ok. intros (w & Hw & [taken r1] & Ht & E) Ha.
  apply release_next_Ok in Hw as [Hlw _]. apply take_disposal_other in Ht as [-> ->]; [|cbn; rewrite Hlw, Ha; done].
  injection E as <- <-. cbn. congruence.
Qed.

Lemma take_disposal_lifecycle r taken r' :
  take_disposal_if_drained r = Ok (taken, r') ->
  lifecycle_of (gr_state r') = lifecycle_of (gr_state r) \/ lifecycle_of (gr_state r') = Retired.
Proof.
  unfold take_disposal_if_drained. rewrite bind_Ok. setoid_rewrite bind_Ok. intros (q & Hq & w & Hw & E).
  case_bool_decide as Eq; injection E as <- <-; [by left|]. right. cbn. by apply retired_word_is in Hw as [Hw _].
Qed.

Lemma begin_quiescing_inactive r taken r' :
  begin_quiescing r = Ok (taken, r') -> lifecycle_of (gr_state r') <> Active.
Proof.
  unfold begin_quiescing. rewrite bind_Ok. intros (next & E & Ht). apply take_disposal_lifecycle in Ht.
  destruct next as [w|]; cbn in Ht.
  - apply quiesce_next_Some in E as (_ & E & _). rewrite E in Ht. destruct Ht as [->| ->]; done.
  - apply quiesce_next_None in E. destruct Ht as [->| ->]; done.
Qed.

Lemma take_disposal_inactive r taken r' :
  take_disposal_if_drained r = Ok (taken, r') -> lifecycle_of (gr_state r) <> Active -> lifecycle_of (gr_state r') <> Active.
Proof. intros Ht Hi. apply take_disposal_lifecycle in Ht as [->| ->]; done. Qed.

Lemma complete_disposal_disposed fs r r' : complete_disposal fs r = Ok r' -> lifecycle_of (gr_state r') = Disposed.
Proof.
  unfold complete_disposal. rewrite bind_Ok. intros (w & Hw & [= <-]). cbn. by apply dispose_next_Ok in Hw as [Hw _].
Qed.

Lemma schedule_disposal_inactive ds r job r' :
  schedule_disposal ds r = Ok (job, r') -> lifecycle_of (gr_state r) <> Active -> lifecycle_of (gr_state r') <> Active.
Proof.
  unfold schedule_disposal. destruct ds as [|d ds]; [|by intros [= <- <-]]. rewrite bind_Ok. intros (r1 & Hc & [= <- <-]) _.
  by rewrite (complete_disposal_disposed _ _ _ Hc).
Qed.

Lemma release_lease_inactive r job r' :
  release_lease r = Ok (job, r') -> lifecycle_of (gr_state r) <> Active -> lifecycle_of (gr_state r') <> Active.
Proof.
  unfold release_lease. rewrite bind_Ok. setoid_rewrite bind_Ok. intros (w & Hw & [taken r1] & Ht & E) Hi.
  apply release_next_Ok in Hw as [Hlw _]. apply take_disposal_inactive in Ht; [|cbn; by rewrite Hlw].
  destruct taken; [by eapply schedule_disposal_inactive|by injection E as <- <-].
Qed.

Lemma acquire_turn_ok request_scope capability rt published leases extra turn rt' :
  runtime_heap_ok rt published leases extra -> acquire_turn request_scope capability rt = Ok (turn, rt') ->
  runtime_heap_ok rt' published (match turn with Leased p => p :: leases | _ => leases end) extra
  /\ frame rt rt' /\ heap_evolves (fun _ => False) (rt_heap rt) (rt_heap rt')
  /\ match routes_visible (rt_routes rt) request_scope capability with
     | None => turn = Invisible
     | Some p => exists r, rt_heap rt !! p = Some r
                   /\ turn = (if decide (lifecycle_of (gr_state r) = Active) then Leased p else Again)
     end.
Proof.
  intros Hok. unfold acquire_turn. destruct (routes_visible _ _ _) as [p|].
  - rewrite bind_Ok. intros ([b rt1] & Ht & [= <- <-]). apply through_Ok in Ht as (r & r' & Hr & Ht & ->).
    pose proof (lifecycle_stored_acquire r b r' Ht) as [Hlc Hb]. pose proof (try_acquire_same _ _ _ Ht) as Hs.
    split.
    + assert (runtime_heap_ok (with_heap (<[p:=r']> (rt_heap rt)) rt) published (if b then p :: leases else leases)
                (map (pair p) [] ++ extra)) as Hc; [|by destruct b].
      apply (call_ok_pure rt published leases _ extra [] [] p r r' Hok Hr Hs).
      * intros q Hq. destruct b; [by rewrite leases_on_cons, decide_False|done].
      * intros q. destruct b; [intros [?|?]%elem_of_cons; auto|auto].
      * intros threads called. pose proof (try_acquire_runs true r (leases_on p leases) threads called b r' Ht) as Hrun.
        destruct b; [by rewrite leases_on_cons, decide_True|done].
    + split; [done|]. split; [by eapply heap_evolves_insert; [done..|intros _; congruence|congruence]|].
      exists r. split; [done|]. destruct b; case_decide; naive_solver.
  - intros [= <- <-]. split; [done|]. split; [done|]. split; [apply heap_evolves_refl|done].
Qed.

Lemma drop_lease_ok p rt published leases extra rt' :
  runtime_heap_ok rt published (p :: leases) extra -> drop_lease p rt = Ok rt' ->
  runtime_heap_ok rt' published leases extra /\ frame rt rt' /\ heap_evolves (fun _ => False) (rt_heap rt) (rt_heap rt')
  /\ rt_effects rt' = rt_effects rt.
Proof.
  intros Hok. unfold drop_lease. rewrite bind_Ok. intros ([job rt1] & Ht & [= <-]).
  apply through_Ok in Ht as (r & r' & Hr & Ht & ->). pose proof (release_lease_same _ _ _ Ht) as Hs.
  pose proof (call_ok_pure rt published (p :: leases) leases extra [] (sent job) p r r' Hok Hr Hs) as Hc. split.
  - assert (runtime_heap_ok (with_heap (<[p:=r']> (rt_heap rt)) rt) published leases (map (pair p) (sent job) ++ extra)) as Hc'.
    { apply Hc.
      - intros q Hq. by rewrite leases_on_cons, decide_False.
      - intros q Hq. left. by right.
      - intros threads called. rewrite leases_on_cons, decide_True by done. by apply release_lease_runs. }
    destruct job as [ds|]; [|exact Hc']. unfold runtime_heap_ok in *. cbn in *.
    eapply heap_ok_permutation; [done| |exact Hc']. unfold job_flights. rewrite map_app. cbn.
    rewrite (assoc_L (++)). apply Permutation_cons_append.
  - destruct job; (split; [done|]; split; [|done]); cbn; (eapply heap_evolves_insert; [done..| |]);
      [intros _; by eapply release_lease_active|by eapply release_lease_inactive|
       intros _; by eapply release_lease_active|by eapply release_lease_inactive].
Qed.

Lemma clone_lease_ok p rt published leases extra rt' :
  runtime_heap_ok rt published leases extra -> p ∈ leases -> clone_lease p rt = Ok rt' ->
  runtime_heap_ok rt' published (p :: leases) extra /\ frame rt rt' /\ heap_evolves (fun _ => False) (rt_heap rt) (rt_heap rt')
  /\ rt_effects rt' = rt_effects rt.
Proof.
  intros Hok Hp. unfold clone_lease. rewrite bind_Ok. intros ([b rt1] & Ht & E). destruct b; [|done]. injection E as <-.
  apply through_Ok in Ht as (r & r' & Hr & Ht & ->). pose proof (retain_lease_same _ _ _ Ht) as Hs. split.
  - apply (call_ok_pure rt published leases (p :: leases) extra [] [] p r r' Hok Hr Hs).
    + intros q Hq. by rewrite leases_on_cons, decide_False.
    + intros q [?|?]%elem_of_cons; auto.
    + intros threads called. rewrite leases_on_cons, decide_True by done. apply leases_on_elem in Hp.
      destruct (leases_on p leases) as [|n]; [lia|]. by apply (retain_lease_runs true _ _ _ _ true).
  - split; [done|]. split; [|done]. apply lifecycle_retain in Ht as [Hlc _].
    eapply heap_evolves_insert; [done..|intros _; congruence|congruence].
Qed.

(** A lease that is held can be cloned, unless the count is full. *)
Lemma clone_lease_returns p rt published leases extra m :
  runtime_heap_ok rt published leases extra -> p ∈ leases -> clone_lease p rt = Err m ->
  exists r, rt_heap rt !! p = Some r /\ val (leases_of (gr_state r)) = 2 ^ 61 - 1.
Proof.
  intros Hok Hp. unfold clone_lease, through. destruct (lookup_lt_is_Some_2 (rt_heap rt) p) as [r Hr].
  { by eapply hk_leases. }
  destruct (heap_ok_origin _ _ _ _ _ _ _ Hok Hr) as [o Ho].
  destruct (hk_record _ _ _ _ _ Hok p r o Hr Ho) as [Hsh _].
  apply shared_ok_leased in Hsh as (Hlive & _); [|apply leases_on_elem in Hp; cbn; lia]. cbn in Hlive.
  rewrite Hr. unfold retain_lease. cbn [ok_or mbind result_bind]. destruct (retain_next (gr_state r)) as [[w|]|m'] eqn:E.
  - by cbn.
  - by apply retain_next_None in E.
  - intros _. exists r. split; [done|]. by eapply retain_next_Err.
Qed.

(** ** Disposal *)

Lemma quiesce_ok runner p rt published leases extra taken rt' :
  runtime_heap_ok rt published leases extra -> through p begin_quiescing rt = Ok (taken, rt') ->
  runtime_heap_ok rt' published leases (map (pair p) (after_take runner taken) ++ extra)
  /\ frame rt rt' /\ heap_evolves (fun q => q = p) (rt_heap rt) (rt_heap rt') /\ rt_effects rt' = rt_effects rt.
Proof.
  intros Hok Ht. apply through_Ok in Ht as (r & r' & Hr & Ht & ->). pose proof (begin_quiescing_same _ _ _ Ht) as Hs. split.
  - apply (call_ok_pure rt published leases leases extra [] (after_take runner taken) p r r' Hok Hr Hs); [done|auto|].
    intros threads called. by apply begin_quiescing_runs.
  - split; [done|]. split; [|done]. eapply heap_evolves_insert; [done..|].
    intros _. by eapply begin_quiescing_inactive.
Qed.

(** A call on a generation that is being disposed of has seen it retired. *)
Lemma flight_inactive rt published leases p t extra r :
  runtime_heap_ok rt published leases ((p, t) :: extra) -> winner t = 1%nat -> rt_heap rt !! p = Some r ->
  lifecycle_of (gr_state r) <> Active.
Proof.
  intros Hok Ht Hr. destruct (heap_ok_origin _ _ _ _ _ _ _ Hok Hr) as [o Ho].
  destruct (hk_record _ _ _ _ _ Hok p r o Hr Ho) as [Hsh _]. cbn in Hsh. rewrite decide_True in Hsh by done.
  apply (winner_retired true _ _ _ _ []) in Hsh as [-> _]; done.
Qed.

Lemma schedule_ok p ds rt published leases extra job rt' :
  runtime_heap_ok rt published leases ((p, Scheduling ds) :: extra) ->
  through p (schedule_disposal ds) rt = Ok (job, rt') ->
  runtime_heap_ok (push_job p job rt') published leases extra
  /\ frame rt (push_job p job rt') /\ heap_evolves (fun _ => False) (rt_heap rt) (rt_heap (push_job p job rt'))
  /\ rt_effects (push_job p job rt') = rt_effects rt.
Proof.
  intros Hok Ht. apply through_Ok in Ht as (r & r' & Hr & Ht & ->). pose proof (schedule_disposal_same _ _ _ _ Ht) as Hs.
  pose proof (flight_inactive _ _ _ _ _ _ _ Hok eq_refl Hr) as Hna. split.
  - assert (runtime_heap_ok (with_heap (<[p:=r']> (rt_heap rt)) rt) published leases (map (pair p) (sent job) ++ extra)) as Hc.
    { apply (call_ok_pure rt published leases leases extra [Scheduling ds] (sent job) p r r' Hok Hr Hs); [done|auto|].
      intros threads called. by apply schedule_disposal_runs. }
    destruct job as [ds'|]; [|exact Hc]. unfold runtime_heap_ok in *. cbn in *.
    eapply heap_ok_permutation; [done| |exact Hc]. unfold job_flights. rewrite map_app. cbn.
    rewrite (assoc_L (++)). apply Permutation_cons_append.
  - destruct job; (split; [done|]; split; [|done]); cbn; (eapply heap_evolves_insert; [done..|by intros _ Ha|]);
      by eapply schedule_disposal_inactive.
Qed.

(** Disposers are called and their failures recorded. *)
Lemma dispose_ok {A} (view : GenerationRecord -> A) t p ds rt published leases extra a rt' :
  t = Sent ds \/ t = Disposing (rev ds) [] ->
  runtime_heap_ok rt published leases ((p, t) :: extra) ->
  through p (fun r => r' ← complete_disposal (snd (dispose_all ds)) r; Ok (view r, r')) rt = Ok (a, rt') ->
  runtime_heap_ok (with_effects (map (Called p) (fst (dispose_all ds))) rt') published leases extra
  /\ frame rt rt' /\ heap_evolves (fun _ => False) (rt_heap rt) (rt_heap rt').
Proof.
  intros Hds Hok Ht. apply through_Ok in Ht as (r & r' & Hr & Ht & ->). apply bind_Ok in Ht as (r1 & Hc & [= <- <-]).
  rename r1 into r'.
  pose proof (complete_disposal_same _ _ _ Hc) as Hs.
  assert (winner t = 1%nat) as Hw by (by destruct Hds as [->| ->]).
  pose proof (flight_inactive _ _ _ _ _ _ _ Hok Hw Hr) as Hna. split; [|split; [done|]].
  - apply (call_ok rt published leases leases extra [t] [] (fst (dispose_all ds)) p r r' Hok Hr Hs); [done|auto|].
    intros o threads _. destruct Hds as [->| ->]; [by apply reaper_runs|by apply dispose_all_runs].
  - eapply heap_evolves_insert; [done..|by intros _ Ha|]. intros _. by rewrite (complete_disposal_disposed _ _ _ Hc).
Qed.

Lemma reap_ok rt published leases extra rt' :
  runtime_heap_ok rt published leases extra -> reap rt = Ok rt' ->
  runtime_heap_ok rt' published leases extra /\ frame rt rt' /\ heap_evolves (fun _ => False) (rt_heap rt) (rt_heap rt').
Proof.
  intros Hok. unfold reap. destruct (rt_jobs rt) as [|job jobs] eqn:Ej.
  { intros [= <-]. split; [done|]. split; [done|apply heap_evolves_refl]. }
  destruct (dispose_all (jb_disposers job)) as [called failures] eqn:Ed. rewrite bind_Ok.
  intros ([u rt1] & Ht & [= <-]).
  assert (runtime_heap_ok (with_jobs jobs rt) published leases ((jb_generation job, Sent (jb_disposers job)) :: extra)) as Hok'.
  { unfold runtime_heap_ok in *. rewrite Ej in Hok. cbn in Hok |- *. eapply heap_ok_permutation; [done| |exact Hok].
    symmetry. apply Permutation_middle. }
  apply through_Ok in Ht as (r & r' & Hr & Ht & ->).
  pose proof (dispose_ok (fun _ => tt) (Sent (jb_disposers job)) (jb_generation job) (jb_disposers job) (with_jobs jobs rt) published leases extra u
                (with_heap (<[jb_generation job := r']> (rt_heap rt)) (with_jobs jobs rt))) as Hd.
  rewrite Ed in Hd. cbn [fst snd] in Hd. destruct Hd as (Hd & _ & Hev); [by left|exact Hok'| |].
  - apply bind_Ok in Ht as (r1 & Hc & [= <- <-]). unfold through. cbn [rt_heap with_jobs] in Hr |- *. rewrite Hr.
    cbn [ok_or mbind result_bind]. by rewrite Hc.
  - split; [exact Hd|]. split; [done|exact Hev].
Qed.

(** ** Only a full lease count makes these calls panic *)

Lemma take_disposal_returns r : exists taken r', take_disposal_if_drained r = Ok (taken, r').
Proof.
  unfold take_disposal_if_drained. destruct (pack_fits Quiescing (u64_of 0)) as [q Hq]; [done|].
  destruct (pack_fits Retired (u64_of 0)) as [w Hw]; [done|]. unfold quiescing_word, retired_word. rewrite Hq, Hw.
  cbn [mbind result_bind]. case_bool_decide; eauto.
Qed.

Lemma begin_quiescing_returns r : exists taken r', begin_quiescing r = Ok (taken, r').
Proof.
  unfold begin_quiescing. destruct (quiesce_next_returns (gr_state r)) as [next ->]. apply take_disposal_returns.
Qed.

Lemma complete_disposal_returns fs r : exists r', complete_disposal fs r = Ok r'.
Proof.
  unfold complete_disposal. destruct (dispose_next_returns (gr_state (add_failures fs r))) as [w Hw]. rewrite Hw.
  cbn [mbind result_bind]. eauto.
Qed.

Lemma schedule_disposal_returns ds r : exists job r', schedule_disposal ds r = Ok (job, r').
Proof.
  unfold schedule_disposal. destruct ds as [|d ds]; [|eauto]. destruct (complete_disposal_returns [] r) as [r' ->].
  cbn [mbind result_bind]. eauto.
Qed.

Lemma release_lease_returns r : exists job r', release_lease r = Ok (job, r').
Proof.
  unfold release_lease. destruct (release_next_returns (gr_state r)) as [w ->]. cbn [mbind result_bind].
  destruct (take_disposal_returns (set_state w r)) as (taken & r1 & ->). cbn [mbind result_bind].
  destruct taken; [apply schedule_disposal_returns|eauto].
Qed.

Lemma through_returns {A} p (call : GenerationRecord -> panicking (A * GenerationRecord)) rt :
  (p < length (rt_heap rt))%nat -> (forall r, exists a r', call r = Ok (a, r')) -> exists a rt', through p call rt = Ok (a, rt').
Proof.
  intros Hp Hcall. unfold through. apply lookup_lt_is_Some in Hp as [r ->]. cbn [ok_or mbind result_bind].
  destruct (Hcall r) as (a & r' & ->). cbn [mbind result_bind]. eauto.
Qed.

(** ** Several generations at once *)

Lemma heap_evolves_length S h h' p : heap_evolves S h h' -> (p < length h)%nat -> (p < length h')%nat.
Proof.
  intros Hev [r Hr]%lookup_lt_is_Some. destruct (Hev p r Hr) as (r' & Hr' & _). by eapply lookup_lt_Some.
Qed.

Definition inactive_at (heap : list GenerationRecord) (p : ptr) : Prop :=
  forall r, heap !! p = Some r -> lifecycle_of (gr_state r) <> Active.

Lemma inactive_evolves S h h' p : heap_evolves S h h' -> (p < length h)%nat -> inactive_at h p -> inactive_at h' p.
Proof.
  intros Hev [r Hr]%lookup_lt_is_Some Hi r' Hr'. destruct (Hev p r Hr) as (r2 & Hr2 & _ & _ & Hi2).
  assert (r2 = r') as <- by congruence. apply Hi2. by apply Hi.
Qed.

Lemma quiesced_inactive p rt taken rt' : through p begin_quiescing rt = Ok (taken, rt') -> inactive_at (rt_heap rt') p.
Proof.
  intros (r & r' & Hr & Ht & ->)%through_Ok r2. cbn. rewrite list_lookup_insert_eq by by eapply lookup_lt_Some.
  intros [= <-]. by eapply begin_quiescing_inactive.
Qed.

(** What is quiesced of a list of generations. *)
Definition quiesced (ps : list ptr) (rt rt' : Runtime) : Prop :=
  frame rt rt' /\ heap_evolves (fun q => q ∈ ps) (rt_heap rt) (rt_heap rt') /\ rt_effects rt' = rt_effects rt
  /\ forall p, p ∈ ps -> inactive_at (rt_heap rt') p.

Lemma quiesced_step p ps rt rt1 rt' :
  (forall q, q ∈ p :: ps -> (q < length (rt_heap rt))%nat) ->
  frame rt rt1 -> heap_evolves (fun q => q = p) (rt_heap rt) (rt_heap rt1) -> rt_effects rt1 = rt_effects rt ->
  inactive_at (rt_heap rt1) p -> quiesced ps rt1 rt' -> quiesced (p :: ps) rt rt'.
Proof.
  intros Hps Hf1 Hev1 He1 Hi (Hf2 & Hev2 & He2 & Hin). split; [by eapply frame_trans|]. split.
  { eapply heap_evolves_trans; [exact Hev1|exact Hev2|]. intros q. rewrite elem_of_cons. done. }
  split; [congruence|]. intros q [->|Hq]%elem_of_cons; [|by apply Hin].
  eapply inactive_evolves; [exact Hev2| |exact Hi]. eapply heap_evolves_length; [exact Hev1|]. apply Hps. by left.
Qed.

Lemma quiesce_and_schedule_ok ps rt published leases extra :
  runtime_heap_ok rt published leases extra -> (forall p, p ∈ ps -> (p < length (rt_heap rt))%nat) ->
  exists rt', quiesce_and_schedule ps rt = Ok rt' /\ runtime_heap_ok rt' published leases extra /\ quiesced ps rt rt'.
Proof.
  revert rt. induction ps as [|p ps IH]; intros rt Hok Hps; cbn.
  { exists rt. split; [done|]. split; [done|]. split; [done|]. split; [apply heap_evolves_refl|]. split; [done|].
    by intros p ?%elem_of_nil. }
  destruct (through_returns p begin_quiescing rt (Hps p (list_elem_of_here _ _)) begin_quiescing_returns) as (taken & rt1 & Ht).
  rewrite Ht. cbn [mbind result_bind].
  destruct (quiesce_ok ByReaper _ _ _ _ _ _ _ Hok Ht) as (Hok1 & Hf1 & Hev1 & He1).
  pose proof (quiesced_inactive _ _ _ _ Ht) as Hi1.
  assert (forall q, q ∈ p :: ps -> (q < length (rt_heap rt1))%nat) as Hps1.
  { intros q Hq. eapply heap_evolves_length; [exact Hev1|]. by apply Hps. }
  destruct taken as [ds|]; cbn [after_take map app] in Hok1.
  - destruct (through_returns p (schedule_disposal ds) rt1 (Hps1 p (list_elem_of_here _ _)) (schedule_disposal_returns ds))
      as (job & rt2 & Hs).
    rewrite Hs. cbn [mbind result_bind]. destruct (schedule_ok _ _ _ _ _ _ _ _ Hok1 Hs) as (Hok2 & Hf2 & Hev2 & He2).
    destruct (IH (push_job p job rt2)) as (rt' & E & Hok' & Hq); [done| |].
    { intros q Hq. eapply heap_evolves_length; [exact Hev2|]. apply Hps1. by right. }
    exists rt'. split; [done|]. split; [done|]. eapply quiesced_step; [done| | | | |exact Hq].
    + by eapply frame_trans.
    + eapply heap_evolves_trans; [exact Hev1|exact Hev2|]. naive_solver.
    + congruence.
    + eapply inactive_evolves; [exact Hev2| |exact Hi1]. apply Hps1. by left.
  - destruct (IH rt1) as (rt' & E & Hok' & Hq); [done|intros q Hq; apply Hps1; by right|].
    exists rt'. split; [done|]. split; [done|]. by eapply quiesced_step.
Qed.

(** The disposals that a commit has taken on. *)
Definition commit_flights (jobs : list (ptr * list CapabilityDisposer)) : list (ptr * Thread) :=
  map (fun j => (fst j, Disposing (rev (snd j)) [])) jobs.

Lemma quiesce_all_ok ps rt published leases extra :
  runtime_heap_ok rt published leases extra -> (forall p, p ∈ ps -> (p < length (rt_heap rt))%nat) ->
  exists jobs rt', quiesce_all ps rt = Ok (jobs, rt')
    /\ runtime_heap_ok rt' published leases (commit_flights jobs ++ extra) /\ quiesced ps rt rt'.
Proof.
  revert rt extra. induction ps as [|p ps IH]; intros rt extra Hok Hps; cbn.
  { exists [], rt. split; [done|]. split; [done|]. split; [done|]. split; [apply heap_evolves_refl|]. split; [done|].
    by intros p ?%elem_of_nil. }
  destruct (through_returns p begin_quiescing rt (Hps p (list_elem_of_here _ _)) begin_quiescing_returns) as (taken & rt1 & Ht).
  rewrite Ht. cbn [mbind result_bind].
  destruct (quiesce_ok ByCommit _ _ _ _ _ _ _ Hok Ht) as (Hok1 & Hf1 & Hev1 & He1).
  pose proof (quiesced_inactive _ _ _ _ Ht) as Hi1.
  destruct (IH rt1 _ Hok1) as (jobs & rt' & E & Hok' & Hq).
  { intros q Hq. eapply heap_evolves_length; [exact Hev1|]. apply Hps. by right. }
  rewrite E. cbn [mbind result_bind]. eexists _, rt'. split; [done|]. split; [|by eapply quiesced_step].
  unfold runtime_heap_ok in *. destruct taken as [ds|]; [|exact Hok']. cbn.
  eapply heap_ok_permutation; [done| |exact Hok']. cbn. rewrite <- !(assoc_L (++)). cbn. symmetry. apply Permutation_middle.
Qed.

Lemma runtime_heap_ok_mono rt published leases extra effects :
  runtime_heap_ok rt published leases extra -> (forall q d, Called q d ∉ effects) ->
  runtime_heap_ok (with_effects effects rt) published leases extra.
Proof.
  intros Hok Hno. destruct Hok as [H1 H2 H3 H4 H5]. split; cbn [with_effects rt_heap rt_jobs rt_effects]; try done.
  - intros p r o Hr Ho. destruct (H2 p r o Hr Ho) as [Hsh Hpay]. split; [|done].
    by rewrite called_on_app, (called_on_unpublished p effects Hno), app_nil_r.
  - intros p d. rewrite elem_of_app. intros [?|?]; [by eapply H5|]. by destruct (Hno p d).
Qed.

Lemma dispose_immediately_ok jobs rt published leases extra :
  runtime_heap_ok rt published leases (commit_flights jobs ++ extra) ->
  exists failures rt', dispose_immediately jobs rt = Ok (failures, rt')
    /\ runtime_heap_ok rt' published leases extra /\ frame rt rt'
    /\ heap_evolves (fun _ => False) (rt_heap rt) (rt_heap rt')
    /\ rt_effects rt' = rt_effects rt ++ (j ← jobs; map (Called (fst j)) (fst (dispose_all (snd j)))).
Proof.
  revert rt. induction jobs as [|[p ds] jobs IH]; intros rt Hok.
  { exists [], rt. rewrite app_nil_r. split; [done|]. split; [done|]. split; [done|]. split; [apply heap_evolves_refl|done]. }
  cbn [dispose_immediately]. destruct (dispose_all ds) as [called failures] eqn:Ed.
  destruct (through_returns p (fun r => r' ← complete_disposal failures r; Ok (gr_id r, r')) rt) as (id & rt1 & Ht).
  { eapply hk_flights; [exact Hok|]. cbn. by left. }
  { intros r. destruct (complete_disposal_returns failures r) as [r' ->]. cbn [mbind result_bind]. eauto. }
  rewrite Ht. cbn [mbind result_bind].
  pose proof (dispose_ok gr_id (Disposing (rev ds) []) p ds rt published leases (commit_flights jobs ++ extra) id rt1) as Hd.
  rewrite Ed in Hd. cbn [fst snd] in Hd. destruct Hd as (Hok1 & Hf1 & Hev1); [by right|exact Hok|exact Ht|].
  assert (rt_effects rt1 = rt_effects rt) as He1 by (apply through_Ok in Ht as (? & ? & _ & _ & ->); done).
  destruct (IH _ Hok1) as (rest & rt' & E & Hok' & Hf' & Hev' & He'). rewrite E. cbn [mbind result_bind].
  eexists _, rt'. split; [done|]. split; [done|].
  split; [eapply frame_trans; [exact Hf1|]; destruct Hf' as [Hs Hr]; by split|].
  split; [by eapply heap_evolves_trans; [exact Hev1|exact Hev'|naive_solver]|].
  rewrite He'. cbn [with_effects rt_effects]. rewrite He1, bind_cons. cbn [fst snd]. rewrite Ed. by rewrite <- (assoc_L (++)).
Qed.

(** * The invariant *)

(** The manifest [m] is served by the record [r] at [p], generation [g]. *)
Definition served (st : RuntimeState) (heap : list GenerationRecord) (k : ScopedCapabilityKey) (m : CapabilityManifest)
    (g : GenerationId) (p : ptr) (r : GenerationRecord) : Prop :=
  bt_get k (st_active_generations st) = Some g /\ bt_get g (st_generations st) = Some p /\ heap !! p = Some r
  /\ lifecycle_of (gr_state r) = Active /\ gr_owner r = mf_owner m /\ gr_scope r = mf_scope m
  /\ mf_id m ∈ gr_capabilities r.

Record state_ok (st : RuntimeState) (heap : list GenerationRecord) : Prop := {
  sk_graph : graph_ok (st_graph st);
  sk_active k g : bt_get k (st_active_generations st) = Some g -> is_Some (bt_get k (cg_manifests (st_graph st)));
  sk_served k m : bt_get k (cg_manifests (st_graph st)) = Some m -> exists g p r, served st heap k m g p r;
  sk_shared k m g k' m' g' :
    bt_get k (cg_manifests (st_graph st)) = Some m -> bt_get k' (cg_manifests (st_graph st)) = Some m' ->
    bt_get k (st_active_generations st) = Some g -> bt_get k' (st_active_generations st) = Some g' ->
    mf_owner m = mf_owner m' -> mf_scope m = mf_scope m' -> g = g';
  sk_generation g p : bt_get g (st_generations st) = Some p ->
    (exists r, heap !! p = Some r /\ gr_id r = g) /\ val g < val (st_next_generation st)
}.

Record runtime_ok (rt : Runtime) (leases : list ptr) (published : list origin) : Prop := {
  ro_heap : runtime_heap_ok rt published leases [];
  ro_state : state_ok (rt_state rt) (rt_heap rt);
  ro_routes : rt_routes rt = routes_from_state (rt_state rt)
}.

Lemma state_ok_evolves S st heap heap' :
  state_ok st heap -> heap_evolves S heap heap' ->
  (forall k g p, bt_get k (st_active_generations st) = Some g -> bt_get g (st_generations st) = Some p -> ~ S p) ->
  state_ok st heap'.
Proof.
  intros [Hg Ha Hs Hsh Hgen] Hev HS. split; try done.
  - intros k m Hk. destruct (Hs k m Hk) as (g & p & r & Hkg & Hgp & Hr & Hact & Ho & Hsc & Hc).
    destruct (Hev p r Hr) as (r' & Hr' & (Ei & Eo & Es & Ec) & Hact' & _). exists g, p, r'.
    repeat split; try congruence. apply Hact'; [|done]. by eapply HS.
  - intros g p Hgp. destruct (Hgen g p Hgp) as [(r & Hr & Hid) ?]. split; [|done].
    destruct (Hev p r Hr) as (r' & Hr' & (Ei & _) & _). exists r'. split; [done|congruence].
Qed.

(** Calls that leave the state alone. *)
Lemma runtime_ok_frame rt rt' leases leases' published :
  runtime_ok rt leases published -> runtime_heap_ok rt' published leases' [] -> frame rt rt' ->
  heap_evolves (fun _ => False) (rt_heap rt) (rt_heap rt') -> runtime_ok rt' leases' published.
Proof.
  intros [_ Hst Hro] Hok [Es Er] Hev. split; [done| |congruence]. rewrite Es.
  eapply state_ok_evolves; [exact Hst|exact Hev|]. by intros ? ? ? _ _ [].
Qed.

Lemma runtime_new_ok scopes : scopes_ok scopes -> runtime_ok (runtime_new scopes) [] [].
Proof.
  intros Hs. split; [|split; try done; by apply graph_new_ok|done].
  split; try done; intros *; cbn; intros ?%elem_of_nil; done.
Qed.

(** * Routes *)

Lemma routes_visible_loop_total routes capability (rank : ScopeId -> nat) fuel current :
  (forall c p, parent_of (rs_scopes routes) c p -> (rank p < rank c)%nat) ->
  match current with
  | None => (0 < fuel)%nat
  | Some s => (1 < fuel)%nat /\ (is_Some (scope_parent (rs_scopes routes) s) -> (rank s + 2 < fuel)%nat)
  end -> is_Some (routes_visible_loop fuel routes capability current).
Proof.
  intros Hrank. revert current. induction fuel as [|fuel IH]; intros current Hfuel; [destruct current; lia|].
  cbn [routes_visible_loop]. destruct current as [s|]; [|done]. destruct (bt_get _ _); [done|]. apply IH.
  destruct Hfuel as [H1 H2]. destruct (scope_parent (rs_scopes routes) s) as [q|] eqn:Eq; [|lia].
  specialize (H2 ltac:(done)). specialize (Hrank s q Eq). split; [lia|]. intros _. lia.
Qed.

Lemma routes_visible_loop_Some routes capability fuel s p :
  routes_visible_loop fuel routes capability (Some s) = Some (Some p) ->
  exists a, rtc (parent_of (rs_scopes routes)) s a /\ bt_get (ScopedKey capability a) (rs_routes routes) = Some p.
Proof.
  revert s. induction fuel as [|fuel IH]; intros s; cbn [routes_visible_loop]; [done|].
  destruct (bt_get _ _) as [p'|] eqn:Eg; [intros [= ->]; by exists s|].
  destruct (scope_parent (rs_scopes routes) s) as [q|] eqn:Eq.
  - intros (a & Ha & Hp)%IH. exists a. split; [|done]. by eapply rtc_l.
  - destruct fuel; cbn; done.
Qed.

Lemma routes_visible_loop_None routes capability fuel s :
  routes_visible_loop fuel routes capability (Some s) = Some None ->
  forall a, rtc (parent_of (rs_scopes routes)) s a -> bt_get (ScopedKey capability a) (rs_routes routes) = None.
Proof.
  revert s. induction fuel as [|fuel IH]; intros s; cbn [routes_visible_loop]; [done|].
  destruct (bt_get _ _) as [p'|] eqn:Eg; [done|]. intros E a Ha.
  inversion Ha as [|? q ? Hq Hqa]; subst; [done|]. unfold parent_of in Hq. rewrite Hq in E. by apply (IH q E).
Qed.

Lemma routes_visible_cases routes request_scope capability :
  scopes_ok (rs_scopes routes) ->
  match routes_visible routes request_scope capability with
  | Some p => exists a, rtc (parent_of (rs_scopes routes)) request_scope a
                /\ bt_get (ScopedKey capability a) (rs_routes routes) = Some p
  | None => forall a, rtc (parent_of (rs_scopes routes)) request_scope a ->
              bt_get (ScopedKey capability a) (rs_routes routes) = None
  end.
Proof.
  intros (rank & Hrank & Hbound). unfold routes_visible.
  destruct (routes_visible_loop_total routes capability rank (S (S (bt_size (rs_scopes routes)))) (Some request_scope)) as [r Hr].
  - intros c p Hcp. by apply Hrank.
  - split; [lia|]. intros [q Hq]. pose proof (parent_of_contains _ _ _ Hq) as Hc. specialize (Hbound _ Hc). lia.
  - rewrite Hr. change (default None (Some r)) with r. destruct r as [p|].
    + by eapply routes_visible_loop_Some.
    + by eapply routes_visible_loop_None.
Qed.

(** The routes lead to the record that serves what the graph shows. *)
Lemma routes_visible_spec st heap request_scope capability :
  state_ok st heap ->
  match routes_visible (routes_from_state st) request_scope capability with
  | Some p => exists m g r, visible (st_graph st) request_scope capability = Some m
                /\ served st heap (manifest_key m) m g p r
  | None => visible (st_graph st) request_scope capability = None
  end.
Proof.
  intros Hok. pose proof (sk_graph _ _ Hok) as Hg.
  pose proof (routes_visible_cases (routes_from_state st) request_scope capability (gok_scopes _ Hg)) as Hc.
  cbn [rs_scopes routes_from_state] in Hc. destruct (routes_visible _ _ _) as [p|].
  - destruct Hc as (a & Ha & Hp). apply routes_from_state_get in Hp as (g & Hkg & Hgp).
    destruct (sk_active _ _ Hok _ _ Hkg) as [m Hm]. pose proof (gok_key _ Hg _ _ Hm) as Hk.
    destruct (sk_served _ _ Hok _ _ Hm) as (g' & p' & r & Hs). exists m, g', r. split.
    + apply visible_spec; [done|]. unfold manifest_key in Hk. injection Hk as Hid Hsc. split; [apply bt_value; by eexists|].
      split; [done|]. by rewrite <- Hsc.
    + rewrite <- Hk. assert (p' = p) as -> by (destruct Hs as (? & ? & _); congruence). exact Hs.
  - apply visible_None. intros m (Hm & Hid & Hr). apply manifests_elem in Hm; [|done].
    destruct (sk_served _ _ Hok _ _ Hm) as (g & p & r & Hkg & Hgp & _). specialize (Hc _ Hr).
    assert (bt_get (manifest_key m) (rs_routes (routes_from_state st)) = Some p) as Hroute
      by (apply routes_from_state_get; eauto).
    unfold manifest_key in Hroute. rewrite Hid in Hroute. congruence.
Qed.

(** * Snapshots *)

Lemma omap_Forall2 {A B} (f : A -> option B) (R : A -> B -> Prop) (l : list A) :
  (forall x, x ∈ l -> exists y, f x = Some y /\ R x y) -> Forall2 R l (omap f l).
Proof.
  induction l as [|x l IH]; intros Hf; [constructor|]. destruct (Hf x) as (y & E & HR); [by left|]. cbn. rewrite E.
  constructor; [done|]. apply IH. intros z Hz. apply Hf. by right.
Qed.

(** A snapshot lists every manifest with the active generation that serves it. *)
Lemma snapshot_spec rt leases published :
  runtime_ok rt leases published ->
  Forall2 (fun m c => cs_id c = mf_id m /\ cs_kind c = mf_kind m /\ cs_owner c = mf_owner m /\ cs_scope c = mf_scope m
             /\ bt_get (manifest_key m) (st_active_generations (rt_state rt)) = Some (cs_generation c)
             /\ cs_lifecycle c = Active)
    (manifests (st_graph (rt_state rt))) (sn_capabilities (snapshot rt)).
Proof.
  intros [_ Hs _]. apply omap_Forall2. intros m Hm. apply manifests_elem in Hm; [|apply Hs].
  destruct (sk_served _ _ Hs _ _ Hm) as (g & p & r & Hkg & Hgp & Hp & Ha & _). rewrite Hkg. cbn [mbind option_bind].
  rewrite Hgp. cbn [mbind option_bind]. rewrite Hp. cbn [mbind option_bind]. by eexists.
Qed.

(** * Scopes *)

Lemma publish_state_heap st rt published leases extra :
  runtime_heap_ok (publish_state st rt) published leases extra <-> runtime_heap_ok rt published leases extra.
Proof. done. Qed.

Lemma with_scopes_ok st heap scopes handles :
  state_ok st heap -> scopes = cg_scopes (st_graph st) \/ extends_scopes (cg_scopes (st_graph st)) scopes ->
  state_ok (with_scopes scopes handles st) heap.
Proof.
  intros [Hg Ha Hs Hsh Hgen] He. split; try done. cbn. by apply graph_scopes_ok.
Qed.

Lemma ensure_child_scope_ok id kind parent rt rt' leases published :
  runtime_ok rt leases published -> ensure_child_scope id kind parent rt = Ok rt' -> runtime_ok rt' leases published.
Proof.
  intros [Hh Hs Hr] E. unfold ensure_child_scope in E. apply bind_Ok in E as (scopes & E & [= <-]).
  apply ensure_child_extends in E as [_ E]. split; [done| |done]. cbn. by apply with_scopes_ok.
Qed.

Lemma open_child_scope_ok id kind parent rt rt' leases published :
  runtime_ok rt leases published -> open_child_scope id kind parent rt = Ok rt' -> runtime_ok rt' leases published.
Proof.
  intros [Hh Hs Hr] E. unfold open_child_scope in E. apply bind_Ok in E as (scopes & E & [= <-]).
  apply ensure_child_extends in E as [_ E]. split; [done| |done]. cbn. by apply with_scopes_ok.
Qed.

(** * Taking capabilities out *)

(** The capabilities of [ids] in [scope] go: the manifests that meet [f]. *)
Section Taking.
Context (st : RuntimeState) (heap : list GenerationRecord) (Hok : state_ok st heap).
Context (f : CapabilityManifest -> bool) (scope : ScopeId).
Context (f_scope : forall m, f m = true -> mf_scope m = scope).
Context (f_owner : forall m m', mf_owner m = mf_owner m' -> mf_scope m = mf_scope m' -> f m = f m').

Definition taken_ids : list CapabilityId := map mf_id (List.filter f (manifests (st_graph st))).
Definition taken_generations : list GenerationId :=
  bs_list (bs_collect (fst (remove_active taken_ids scope (st_active_generations st)))).
Definition taken_records (gens : btree GenerationId ptr) : list ptr := omap (fun g => bt_get g gens) taken_generations.

Lemma taken_spec k m : bt_get k (cg_manifests (st_graph st)) = Some m -> in_scope taken_ids scope k <-> f m = true.
Proof. intros Hk. by eapply filter_ids_spec; [apply Hok| |]. Qed.

Lemma taken_generations_elem g :
  g ∈ taken_generations <->
  exists k m, bt_get k (cg_manifests (st_graph st)) = Some m /\ f m = true /\ bt_get k (st_active_generations st) = Some g.
Proof.
  unfold taken_generations. rewrite bs_elem, bs_collect_elem, remove_active_elem. split.
  - intros (k & Hk & Hg). destruct (sk_active _ _ Hok _ _ Hg) as [m Hm]. exists k, m. split; [done|]. split; [|done].
    by eapply taken_spec.
  - intros (k & m & Hm & Hf & Hg). exists k. split; [|done]. by eapply taken_spec.
Qed.

Lemma taken_records_bound gens p :
  (forall g q, g ∈ taken_generations -> bt_get g gens = Some q -> bt_get g (st_generations st) = Some q) ->
  p ∈ taken_records gens -> (p < length heap)%nat.
Proof.
  intros Hsub Hp. apply list_elem_of_omap in Hp as (g & Hg & Hp). apply Hsub in Hp; [|done].
  destruct (sk_generation _ _ Hok _ _ Hp) as [(r & Hr & _) _]. by eapply lookup_lt_Some.
Qed.

(** A generation that serves a manifest that stays is not taken. *)
Lemma kept_generation gens k m g p :
  (forall g q, g ∈ taken_generations -> bt_get g gens = Some q -> bt_get g (st_generations st) = Some q) ->
  bt_get k (cg_manifests (st_graph st)) = Some m -> f m = false ->
  bt_get k (st_active_generations st) = Some g -> bt_get g (st_generations st) = Some p -> p ∉ taken_records gens.
Proof.
  intros Hsub Hm Hfm Hg Hp Hin. apply list_elem_of_omap in Hin as (g' & Hg' & Hp'). pose proof Hp' as Hold.
  apply Hsub in Hold; [|done]. apply taken_generations_elem in Hg' as (k' & m' & Hm' & Hfm' & Hk').
  destruct (sk_served _ _ Hok _ _ Hm) as (g1 & p1 & r & Hkg & Hgp & Hr & _ & Ho & Hs & _).
  destruct (sk_served _ _ Hok _ _ Hm') as (g2 & p2 & r' & Hkg' & Hgp' & Hr' & _ & Ho' & Hs' & _).
  assert (p1 = p) as -> by congruence. assert (p2 = p) as -> by congruence. assert (r' = r) as -> by congruence.
  rewrite (f_owner m m') in Hfm; [congruence|congruence|congruence].
Qed.
End Taking.

(** * Retiring a scope *)

Lemma remove_active_pair ids scope active :
  remove_active ids scope active = (fst (remove_active ids scope active), snd (remove_active ids scope active)).
Proof. apply surjective_pairing. Qed.

(** The state without the manifests that meet [f]. *)
Lemma removed_state_ok st heap (f : CapabilityManifest -> bool) scope revision handles :
  state_ok st heap -> (forall m, f m = true -> mf_scope m = scope) ->
  state_ok {| st_revision := revision; st_next_generation := st_next_generation st;
              st_graph := remove_all (taken_ids st f) scope (st_graph st); st_scope_handles := handles;
              st_active_generations := snd (remove_active (taken_ids st f) scope (st_active_generations st));
              st_generations := st_generations st |} heap.
Proof.
  intros Hok Hf. pose proof Hok as [Hg Ha Hs Hsh Hgen]. split; cbn.
  - by apply remove_all_ok.
  - intros k g. rewrite remove_active_get, remove_all_get. case_decide; [done|]. apply Ha.
  - intros k m. rewrite remove_all_get. case_decide as Hin; [done|]. intros Hm.
    destruct (Hs k m Hm) as (g & p & r & Hkg & Hrest). exists g, p, r. split; [|exact Hrest].
    cbn [st_active_generations]. by rewrite remove_active_get, decide_False.
  - intros k m g k' m' g'. rewrite !remove_all_get, !remove_active_get. repeat case_decide; try done. apply Hsh.
  - done.
Qed.

(** What dropping the last handle of a scope does. *)
Definition scope_retired (scope : ScopeId) (rt rt' : Runtime) : Prop :=
  (forall k, bt_get k (cg_manifests (st_graph (rt_state rt')))
     = if decide (key_scope k = scope) then None else bt_get k (cg_manifests (st_graph (rt_state rt))))
  /\ cg_scopes (st_graph (rt_state rt')) = cg_scopes (st_graph (rt_state rt))
  /\ bt_get scope (st_scope_handles (rt_state rt')) = None
  /\ (forall k g p, key_scope k = scope -> bt_get k (st_active_generations (rt_state rt)) = Some g ->
        bt_get g (st_generations (rt_state rt)) = Some p -> inactive_at (rt_heap rt') p).

Definition in_this_scope (scope : ScopeId) (m : CapabilityManifest) : bool := bool_decide (mf_scope m = scope).

Lemma retire_scope_ok scope rt leases published :
  runtime_ok rt leases published ->
  exists rt', retire_scope scope rt = Ok rt' /\ runtime_ok rt' leases published /\ rt_effects rt' = rt_effects rt
    /\ match bt_get scope (st_scope_handles (rt_state rt)) with
       | None => rt' = rt
       | Some handles =>
           if 1 <? val handles then st_graph (rt_state rt') = st_graph (rt_state rt)
           else scope_retired scope rt rt'
       end.
Proof.
  intros Hok. unfold retire_scope. destruct (bt_get scope _) as [handles|]; [|by exists rt].
  pose proof (val_bounds handles). rewrite u64_saturating_sub_val by lia.
  assert ((0 <? Z.max 0 (val handles - 1)) = (1 <? val handles)) as ->.
  { apply eq_true_iff_eq. rewrite !Z.ltb_lt. lia. }
  destruct Hok as [Hh Hs Hr]. destruct (1 <? val handles).
  { eexists. split; [done|]. split; [|done]. split; [done| |done]. destruct Hs. by split. }
  assert (forall m, in_this_scope scope m = true -> mf_scope m = scope) as Hf
    by (intros m; unfold in_this_scope; apply bool_decide_eq_true).
  assert (forall m m', mf_owner m = mf_owner m' -> mf_scope m = mf_scope m' -> in_this_scope scope m = in_this_scope scope m') as Hfo
    by (unfold in_this_scope; by intros m m' _ ->).
  change (map mf_id (List.filter _ (manifests (st_graph (rt_state rt))))) with (taken_ids (rt_state rt) (in_this_scope scope)).
  rewrite remove_active_pair. cbv zeta beta iota.
  change (omap _ (bs_list _)) with (taken_records (rt_state rt) (in_this_scope scope) scope (st_generations (rt_state rt))).
  set (st := rt_state rt) in *. set (st' := {| st_revision := next_revision st |}) in *.
  destruct (quiesce_and_schedule_ok (taken_records st (in_this_scope scope) scope (st_generations st)) (with_state st' rt) published leases [])
    as (rt1 & E & Hok1 & (Hf1 & Hev1 & He1 & Hin1)); [done| |].
  { intros p Hp. by eapply taken_records_bound. }
  rewrite E. cbn [mbind result_bind]. eexists. split; [done|]. pose proof (fr_state _ _ Hf1) as Est. cbn in Est.
  split; [|split; [exact He1|]].
  - split; [exact Hok1| |by cbn; rewrite Est]. cbn [with_routes rt_state rt_heap]. rewrite Est.
    eapply state_ok_evolves; [by apply removed_state_ok|exact Hev1|].
    cbn [st' st_active_generations st_generations]. intros k g p. rewrite remove_active_get. case_decide as Hns; [done|].
    intros Hkg Hgp. destruct (sk_active _ _ Hs _ _ Hkg) as [m Hm].
    eapply kept_generation; [exact Hs|exact Hf|exact Hfo|done|exact Hm| |done|done].
    apply not_true_is_false. intros Hfm. apply Hns. eapply taken_spec; [exact Hs|exact Hf|exact Hm|done].
  - split; [|split; [|split]]; cbn [with_routes rt_state rt_heap]; rewrite ?Est.
    + intros k. cbn [st' st_graph]. rewrite remove_all_get. destruct (bt_get k (cg_manifests (st_graph st))) as [m|] eqn:Hm.
      2: { by repeat case_decide. }
      pose proof (taken_spec st (rt_heap rt) Hs (in_this_scope scope) scope Hf k m Hm) as Htk. unfold in_this_scope in Htk.
      rewrite bool_decide_eq_true in Htk. pose proof (gok_key _ (sk_graph _ _ Hs) _ _ Hm) as ->. cbn.
      repeat case_decide; naive_solver.
    + apply remove_all_scopes.
    + cbn [st' st_scope_handles]. by rewrite bt_get_remove, decide_True.
    + intros k g p Hk Hkg Hgp. apply Hin1. apply list_elem_of_omap. exists g. split; [|done].
      eapply taken_generations_elem; [exact Hs|exact Hf|]. destruct (sk_active _ _ Hs _ _ Hkg) as [m Hm]. exists k, m.
      split; [done|]. split; [|done]. unfold in_this_scope. apply bool_decide_eq_true.
      pose proof (gok_key _ (sk_graph _ _ Hs) _ _ Hm) as E0. by rewrite <- Hk, E0.
Qed.
