(* ===== verification/CommitFacts.v ===== *)
(** Transactions: what a commit prepares, activates and publishes (lemmas on
    CapabilityRuntime). *)

From S2P Require Import Prelude BTree Disk Listing Capabilities ScopeFacts ResolveFacts Generations GenerationFacts CapabilityRuntime RuntimeFacts.

Open Scope Z_scope.

(** * Staging *)

(** Everything staged belongs to the transaction. *)
Definition tx_ok (tx : CapabilityTransaction) : Prop :=
  forall id sc, bt_get id (tx_staged tx) = Some sc ->
    mf_id (sc_manifest sc) = id /\ mf_owner (sc_manifest sc) = tx_owner tx /\ mf_scope (sc_manifest sc) = tx_scope tx.

Lemma begin_transaction_ok owner scope : tx_ok (begin_transaction owner scope).
Proof. done. Qed.

Lemma stage_typed_ok m activate outcome tx tx' :
  tx_ok tx -> stage_typed m activate outcome tx = Ok tx' ->
  tx_ok tx' /\ bt_get (mf_id m) (tx_staged tx) = None
  /\ tx_staged tx' = bt_insert (mf_id m) {| sc_manifest := m; sc_activate := activate; sc_outcome := outcome |} (tx_staged tx).
Proof.
  intros Hok. unfold stage_typed. case_bool_decide as Ho; [done|]. case_bool_decide as Hs; [done|].
  destruct (bt_contains _ _) eqn:Ec; [done|]. intros [= <-]. split; [|split; [by apply bt_contains_false|done]].
  intros id sc. cbn [tx_staged tx_owner tx_scope]. rewrite bt_get_insert. case_decide as E; [|apply Hok]. subst id.
  intros [= <-]. done.
Qed.

(** * Preparing *)

(** The manifests a commit replaces: those of its owner in its scope. *)
Definition replaces (tx : CapabilityTransaction) (m : CapabilityManifest) : bool :=
  bool_decide (mf_owner m = tx_owner tx) && bool_decide (mf_scope m = tx_scope tx).

Lemma replaces_spec tx m : replaces tx m = true <-> mf_owner m = tx_owner tx /\ mf_scope m = tx_scope tx.
Proof. unfold replaces. by rewrite andb_true_iff, !bool_decide_eq_true. Qed.

Lemma replaces_scope tx m : replaces tx m = true -> mf_scope m = tx_scope tx.
Proof. by intros [_ E]%replaces_spec. Qed.

Lemma replaces_owner tx m m' :
  mf_owner m = mf_owner m' -> mf_scope m = mf_scope m' -> replaces tx m = replaces tx m'.
Proof. unfold replaces. intros E1 E2. by rewrite E1, E2. Qed.

Definition staged_ids (tx : CapabilityTransaction) : bset CapabilityId := bs_collect (bt_keys (tx_staged tx)).

Lemma staged_ids_elem tx id : bt_contains id (staged_ids tx) = true <-> is_Some (bt_get id (tx_staged tx)).
Proof. unfold staged_ids. rewrite bs_collect_elem. apply bt_key. Qed.

(** The graph a commit publishes: its own manifests instead of the ones they replace. *)
Record candidate_of (tx : CapabilityTransaction) (g candidate : CapabilityGraph) : Prop := {
  cd_ok : graph_ok candidate;
  cd_scopes : cg_scopes candidate = cg_scopes g;
  cd_valid : valid_graph candidate;
  cd_get k m : bt_get k (cg_manifests candidate) = Some m <->
    (exists sc, bt_get (mf_id m) (tx_staged tx) = Some sc /\ sc_manifest sc = m /\ k = manifest_key m)
    \/ (bt_get k (cg_manifests g) = Some m /\ replaces tx m = false)
}.

Record prepared_ok (tx : CapabilityTransaction) (st : RuntimeState) (pr : Prepared) : Prop := {
  pk_candidate : candidate_of tx (st_graph st) (pr_candidate pr);
  pk_replaced : pr_replaced pr = taken_ids st (replaces tx);
  pk_revision : pr_expected_revision pr = st_revision st;
  pk_NoDup : NoDup (pr_activation_order pr);
  pk_order id : id ∈ pr_activation_order pr <-> is_Some (bt_get id (tx_staged tx));
  pk_before i id d : pr_activation_order pr !! i = Some id -> edge (pr_candidate pr) (tx_scope tx) id d ->
    is_Some (bt_get d (tx_staged tx)) -> exists j, (j < i)%nat /\ pr_activation_order pr !! j = Some d
}.

Lemma staged_values tx m :
  tx_ok tx -> m ∈ map sc_manifest (bt_values (tx_staged tx)) <->
  exists sc, bt_get (mf_id m) (tx_staged tx) = Some sc /\ sc_manifest sc = m.
Proof.
  intros Hok. rewrite list_elem_of_fmap. split.
  - intros (sc & -> & [id Hid]%bt_value). exists sc. destruct (Hok id sc Hid) as (-> & _). done.
  - intros (sc & Hid & <-). exists sc. split; [done|]. apply bt_value. eauto.
Qed.

Lemma filter_NoDup {A} (f : A -> bool) (l : list A) : NoDup l -> NoDup (List.filter f l).
Proof.
  induction l as [|x l IH]; cbn; [done|]. intros [Hx Hl]%list.NoDup_cons. destruct (f x); [|by apply IH].
  constructor; [|by apply IH]. rewrite list_elem_of_In, List.filter_In, <- list_elem_of_In. tauto.
Qed.

(** Filtering keeps the order. *)
Lemma filter_before {A} (f : A -> bool) (l : list A) (R : A -> A -> Prop) :
  (forall i x y, l !! i = Some x -> R x y -> exists j, (j < i)%nat /\ l !! j = Some y) ->
  forall i x y, List.filter f l !! i = Some x -> R x y -> f y = true ->
    exists j, (j < i)%nat /\ List.filter f l !! j = Some y.
Proof.
  intros Hl i x y Hx HR Hy.
  assert (forall (l : list A) i x, List.filter f l !! i = Some x ->
            exists k, l !! k = Some x /\ List.filter f (take k l) = take i (List.filter f l)) as Hpos.
  { clear. induction l as [|a l IH]; intros i x; cbn; [done|]. destruct (f a) eqn:Ea.
    - destruct i as [|i]; cbn; [intros [= ->]; by exists 0%nat|]. intros (k & Hk & E)%IH. exists (S k). cbn.
      by rewrite Ea, E.
    - intros (k & Hk & E)%IH. exists (S k). cbn. by rewrite Ea. }
  destruct (Hpos l i x Hx) as (k & Hk & E). destruct (Hl k x y Hk HR) as (j & Hj & Hjy).
  assert (y ∈ List.filter f (take k l)) as Hin.
  { apply list_elem_of_In, List.filter_In. split; [|done]. apply list_elem_of_In, list_elem_of_lookup. exists j.
    by rewrite lookup_take_lt. }
  rewrite E in Hin. apply list_elem_of_lookup in Hin as [j' Hj']. apply lookup_take_Some in Hj' as [Hj' ?].
  by exists j'.
Qed.

Lemma commit_prepare_ok tx st pr :
  tx_ok tx -> graph_ok (st_graph st) -> commit_prepare tx st = Ok pr -> prepared_ok tx st pr.
Proof.
  intros Htx Hg. unfold commit_prepare. intros E. apply map_err_Ok in E. apply bind_Ok in E as (candidate & Ei & E).
  apply bind_Ok in E as ([] & Hv & E). apply bind_Ok in E as (resolved & Er & [= <-]).
  apply validate_Ok in Hv.
  pose proof (resolve_spec candidate (tx_scope tx) (bs_list (staged_ids tx))) as Hres.
  change (bs_collect (bt_keys (tx_staged tx))) with (staged_ids tx) in Er. rewrite Er in Hres. destruct Hres as (_ & Hdf & _).
  apply insert_all_spec in Ei as (Hcok & Hsc & _ & Hget); [|by apply remove_all_ok].
  rewrite remove_all_scopes in Hsc. split; cbn [pr_candidate pr_replaced pr_activation_order pr_expected_revision]; try done.
  - split; [done..|]. intros k m. rewrite Hget, staged_values by done. rewrite remove_all_get.
    change (map mf_id (List.filter _ (manifests (st_graph st)))) with (taken_ids st (replaces tx)).
    assert (bt_get k (cg_manifests (st_graph st)) = Some m ->
              in_scope (taken_ids st (replaces tx)) (tx_scope tx) k <-> replaces tx m = true) as Htk.
    { intros Hm. eapply filter_ids_spec; [done|apply replaces_scope|done]. }
    split.
    + intros [[-> Hm]|Hm]; [left|right].
      * destruct Hm as (sc & ? & ?). by exists sc.
      * case_decide as Hin; [done|]. split; [done|]. apply not_true_is_false. intros Hr. by apply Hin, Htk.
    + intros [(sc & ? & ? & ->)|[Hm Hr]]; [left|right].
      * split; [done|]. by exists sc.
      * rewrite decide_False; [done|]. intros Hin. apply (Htk Hm) in Hin. congruence.
  - apply filter_NoDup, Hdf.
  - intros id. rewrite list_elem_of_In, List.filter_In, <- list_elem_of_In, (df_elem _ _ _ _ Hdf).
    change (bs_collect (bt_keys (tx_staged tx))) with (staged_ids tx). rewrite staged_ids_elem. split; [tauto|].
    intros Hid. split; [|done]. apply needed_root, bs_elem. by apply staged_ids_elem.
  - intros i id d Hid Hd Hstaged. eapply filter_before; [apply (df_before _ _ _ _ Hdf)|exact Hid|exact Hd|].
    by apply staged_ids_elem.
Qed.

(** * Activating *)

Definition activation_of (staged : btree CapabilityId StagedCapability) (id : CapabilityId) : option Z :=
  sc_activate <$> bt_get id staged.

Definition outcome_of (staged : btree CapabilityId StagedCapability) (id : CapabilityId) : option Activation :=
  sc_outcome <$> bt_get id staged.

(** The activations of [ids] succeed with these payloads and disposers. *)
Definition activates (staged : btree CapabilityId StagedCapability) (ids : list CapabilityId)
    (results : list (Payload * CapabilityDisposer)) : Prop :=
  Forall2 (fun id res => outcome_of staged id = Some (ActivationOk (fst res) (snd res))) ids results.

Definition activation_effects (staged : btree CapabilityId StagedCapability) (ids : list CapabilityId) : list Effect :=
  map Activated (omap (activation_of staged) ids).

Definition one_of (av : ActivatedCapabilities) (p : CapabilityId * (Payload * CapabilityDisposer)) : ActivatedCapabilities :=
  one_activated (fst p) (fst (snd p)) (snd (snd p)) av.

(** What [commit] has after activating [ids]. *)
Definition all_activated (av : ActivatedCapabilities) (ids : list CapabilityId)
    (results : list (Payload * CapabilityDisposer)) : ActivatedCapabilities := fold_left one_of (zip ids results) av.

(** Activation goes through the order until one fails or panics; a failure calls
    the disposers of all before it in reverse order, a panic calls none. *)
Definition activation_result (staged : btree CapabilityId StagedCapability) (order : list CapabilityId)
    (av : ActivatedCapabilities) (r : Activating) (effects : list Effect) : Prop :=
  match r with
  | AllActivated av' => exists results, activates staged order results /\ av' = all_activated av order results
                          /\ effects = activation_effects staged order
  | ActivationStopped e =>
      exists before id after results reason, order = before ++ id :: after /\ activates staged before results
        /\ outcome_of staged id = Some (ActivationErr reason)
        /\ e = ActivationFailed id reason (snd (dispose_all (av_disposers av ++ map snd results)))
        /\ effects = activation_effects staged (before ++ [id]) ++ roll_back (av_disposers av ++ map snd results)
  | ActivationUnwound =>
      exists before id after results, order = before ++ id :: after /\ activates staged before results
        /\ outcome_of staged id = Some ActivationPanics /\ effects = activation_effects staged (before ++ [id])
  end.

Lemma activation_effects_cons staged id sc ids :
  bt_get id staged = Some sc -> activation_effects staged (id :: ids) = Activated (sc_activate sc) :: activation_effects staged ids.
Proof. intros E. unfold activation_effects, activation_of. cbn. by rewrite E. Qed.

Lemma commit_activate_spec staged staged' order av :
  NoDup order -> (forall id, id ∈ order -> is_Some (bt_get id staged)) ->
  (forall id, id ∈ order -> bt_get id staged' = bt_get id staged) ->
  activation_result staged order av (fst (commit_activate order staged' av)) (snd (commit_activate order staged' av)).
Proof.
  revert staged' av. induction order as [|id order IH]; intros staged' av Hnd Hall Hsame; cbn [commit_activate].
  { exists []. split; [constructor|done]. }
  apply list.NoDup_cons in Hnd as [Hid Hnd]. rewrite (Hsame id) by by left. destruct (Hall id) as [sc Hsc]; [by left|].
  rewrite Hsc. assert (outcome_of staged id = Some (sc_outcome sc)) as Hout by (unfold outcome_of; by rewrite Hsc).
  destruct (sc_outcome sc) as [payload disposer|reason|] eqn:Eo.
  - specialize (IH (bt_remove id staged') (one_activated id payload disposer av) Hnd).
    destruct (commit_activate order _ _) as [r effects]. cbn [fst snd] in *. assert (activation_result staged order
      (one_activated id payload disposer av) r effects) as Hr.
    { apply IH; [intros; apply Hall; by right|]. intros x Hx. rewrite bt_get_remove, decide_False by congruence. apply Hsame. by right. }
    destruct r as [av'|e|]; cbn [activation_result] in Hr |- *.
    + destruct Hr as (results & Hact & -> & ->). exists ((payload, disposer) :: results).
      split; [by constructor|]. split; [done|]. by erewrite activation_effects_cons.
    + destruct Hr as (before & x & after & results & reason & -> & Hact & Hx & -> & ->).
      exists (id :: before), x, after, ((payload, disposer) :: results), reason. cbn [map snd app one_activated av_disposers].
      rewrite <- !(assoc_L (++)). cbn [app].
      split; [done|]. split; [by constructor|]. split; [done|]. split; [done|].
      by rewrite (activation_effects_cons _ _ _ _ Hsc).
    + destruct Hr as (before & x & after & results & -> & Hact & Hx & ->).
      exists (id :: before), x, after, ((payload, disposer) :: results).
      split; [done|]. split; [by constructor|]. split; [done|]. cbn [app]. by rewrite (activation_effects_cons _ _ _ _ Hsc).
  - exists [], id, order, [], reason. cbn [map app fst snd]. rewrite !app_nil_r. split; [done|]. split; [constructor|].
    split; [done|]. split; [done|]. by rewrite (activation_effects_cons _ _ _ _ Hsc).
  - exists [], id, order, []. cbn [app fst snd]. split; [done|]. split; [constructor|]. split; [done|].
    by rewrite (activation_effects_cons _ _ _ _ Hsc).
Qed.

Lemma activates_length staged ids results : activates staged ids results -> length ids = length results.
Proof. apply Forall2_length. Qed.

Lemma all_activated_fields av ids results :
  length ids = length results ->
  av_activated (all_activated av ids results) = av_activated av ++ ids
  /\ av_disposers (all_activated av ids results) = av_disposers av ++ map snd results
  /\ forall c, is_Some (bt_get c (av_payloads (all_activated av ids results)))
       <-> c ∈ ids \/ is_Some (bt_get c (av_payloads av)).
Proof.
  revert av results. unfold all_activated. induction ids as [|id ids IH]; intros av [|res results] Hlen; try done.
  - cbn. rewrite !app_nil_r. split; [done|]. split; [done|]. intros c. rewrite elem_of_nil. tauto.
  - cbn [zip zip_with fold_left]. destruct (IH (one_of av (id, res)) results) as (-> & -> & Hp); [by injection Hlen|].
    cbn [one_of one_activated av_activated av_disposers map fst snd]. rewrite <- !(assoc_L (++)). split; [done|]. split; [done|].
    intros c. rewrite Hp. cbn [one_of one_activated av_payloads fst snd]. rewrite bt_get_insert, elem_of_cons.
    case_decide; [subst; split; [by left; left|by right]|]. naive_solver.
Qed.

(** * Publishing *)

Lemma heap_ok_append heap published leases flights effects record o :
  heap_ok heap published leases flights effects ->
  shared_ok true (fst o) (snd o) {| sh_record := record; sh_held := 0; sh_threads := []; sh_called := [] |} ->
  (forall c, is_Some (bt_get c (fst o)) <-> c ∈ gr_capabilities record) ->
  heap_ok (heap ++ [record]) (published ++ [o]) leases flights effects.
Proof.
  intros [Hlen Hrec Hl Hf He] Hsh Hpay. split; rewrite ?length_app; cbn [length].
  - lia.
  - intros p r o' Hr Ho. apply lookup_snoc_Some in Hr as [[Hp Hr]|[-> <-]].
    + rewrite lookup_app_l in Ho by lia. by apply Hrec.
    + apply lookup_snoc_Some in Ho as [[Hp _]|[_ <-]]; [lia|]. split; [|done].
      assert (leases_on (length heap) leases = 0%nat) as ->.
      { destruct (decide (length heap ∈ leases)) as [Hin|Hnin]; [apply Hl in Hin; lia|].
        rewrite leases_on_elem in Hnin. lia. }
      assert (flights_of (length heap) flights = []) as ->.
      { apply elem_of_nil_inv. intros t Ht. apply list_elem_of_omap in Ht as ([q t'] & Hin & E). cbn in E. case_decide; [|done].
        subst q. apply Hf in Hin. lia. }
      assert (called_on (length heap) effects = []) as ->; [|done].
      { apply elem_of_nil_inv. intros d Hd. apply list_elem_of_omap in Hd as (e & Hin & E). destruct e as [| |q d']; try done.
        case_decide; [|done]. subst q. apply He in Hin. lia. }
  - intros p Hp%Hl. lia.
  - intros p t Hp%Hf. lia.
  - intros p d Hp%He. lia.
Qed.

(** Everything prepared was activated. *)
Record activated_ok (pr : Prepared) (av : ActivatedCapabilities) : Prop := {
  ak_activated : av_activated av = pr_activation_order pr;
  ak_payloads c : is_Some (bt_get c (av_payloads av)) <-> c ∈ pr_activation_order pr;
  ak_disposers : length (av_disposers av) = length (pr_activation_order pr)
}.

Lemma all_activated_ok staged pr results :
  activates staged (pr_activation_order pr) results ->
  activated_ok pr (all_activated nothing_activated (pr_activation_order pr) results).
Proof.
  intros Hact. pose proof (activates_length _ _ _ Hact) as Hlen.
  destruct (all_activated_fields nothing_activated _ _ Hlen) as (Ea & Ed & Ep). split.
  - by rewrite Ea.
  - intros c. rewrite Ep. cbn. split; [intros [?|[? ?]]; done|by left].
  - by rewrite Ed; cbn [nothing_activated av_disposers app]; rewrite length_map, Hlen.
Qed.

(** The state a commit publishes. *)
Definition committed_state (tx : CapabilityTransaction) (pr : Prepared) (av : ActivatedCapabilities) (p : ptr)
    (st : RuntimeState) : RuntimeState :=
  {| st_revision := next_revision st; st_next_generation := next_generation st; st_graph := pr_candidate pr;
     st_scope_handles := st_scope_handles st;
     st_active_generations :=
       insert_active (av_activated av) (tx_scope tx) (st_next_generation st)
         (snd (remove_active (pr_replaced pr) (tx_scope tx) (st_active_generations st)));
     st_generations := bt_insert (st_next_generation st) p (st_generations st) |}.

Section Publishing.
Context (tx : CapabilityTransaction) (st : RuntimeState) (pr : Prepared) (av : ActivatedCapabilities)
  (heap : list GenerationRecord) (record : GenerationRecord).
Context (Htx : tx_ok tx) (Hok : state_ok st heap) (Hpr : prepared_ok tx st pr) (Hav : activated_ok pr av).
Context (Hroom : val (st_next_generation st) + 1 < 2 ^ 64).
Context (Hid : gr_id record = st_next_generation st) (Howner : gr_owner record = tx_owner tx)
  (Hscope : gr_scope record = tx_scope tx) (Hcaps : gr_capabilities record = av_activated av)
  (Hactive : av_activated av <> [] -> lifecycle_of (gr_state record) = Active).

Lemma next_fresh : bt_get (K := GenerationId) (st_next_generation st) (st_generations st) = None.
Proof.
  apply eq_None_not_Some. intros [p Hp]. destruct (sk_generation _ _ Hok _ _ Hp) as [_ ?]. lia.
Qed.

Lemma activated_elem id : id ∈ av_activated av <-> is_Some (bt_get id (tx_staged tx)).
Proof. rewrite (ak_activated _ _ Hav). apply (pk_order _ _ _ Hpr). Qed.

Lemma committed_active k :
  bt_get k (st_active_generations (committed_state tx pr av (length heap) st))
    = if decide (in_scope (av_activated av) (tx_scope tx) k) then Some (st_next_generation st)
      else if decide (in_scope (taken_ids st (replaces tx)) (tx_scope tx) k) then None
      else bt_get k (st_active_generations st).
Proof.
  cbn [committed_state st_active_generations]. rewrite insert_active_get, remove_active_get, (pk_replaced _ _ _ Hpr).
  repeat case_decide; done.
Qed.

(** A manifest of the candidate is staged by the transaction, or stays. *)
Lemma candidate_cases k m :
  bt_get k (cg_manifests (pr_candidate pr)) = Some m ->
  (in_scope (av_activated av) (tx_scope tx) k /\ replaces tx m = true)
  \/ (~ in_scope (av_activated av) (tx_scope tx) k /\ ~ in_scope (taken_ids st (replaces tx)) (tx_scope tx) k
      /\ bt_get k (cg_manifests (st_graph st)) = Some m /\ replaces tx m = false).
Proof.
  intros Hm. pose proof (pk_candidate _ _ _ Hpr) as Hc. pose proof Hm as Hcases.
  apply (cd_get _ _ _ Hc) in Hcases as [(sc & Hsc & <- & ->)|[Hg Hr]].
  - left. destruct (Htx _ _ Hsc) as (_ & Ho & Hs). split; [|by apply replaces_spec].
    split; [done|]. cbn. apply activated_elem. by eexists.
  - right. split; [|split; [|done]].
    + intros [Hs Hin]. apply activated_elem in Hin as [sc Hsc]. destruct (Htx _ _ Hsc) as (Hid' & Ho & Hs').
      assert (bt_get k (cg_manifests (pr_candidate pr)) = Some (sc_manifest sc)) as Hm'.
      { apply (cd_get _ _ _ Hc). left. exists sc. rewrite Hid'. split; [done|]. split; [done|].
        unfold manifest_key. rewrite Hid', Hs', <- Hs. by destruct k. }
      assert (sc_manifest sc = m) as <- by congruence. assert (replaces tx (sc_manifest sc) = true) as E by by apply replaces_spec.
      congruence.
    + intros Hin. eapply taken_spec in Hin; [|exact Hok|apply replaces_scope|exact Hg]. congruence.
Qed.

Lemma committed_served k m :
  bt_get k (cg_manifests (pr_candidate pr)) = Some m ->
  exists g p r, served (committed_state tx pr av (length heap) st) (heap ++ [record]) k m g p r.
Proof.
  intros Hm. unfold served. rewrite committed_active. cbn [committed_state st_generations].
  destruct (candidate_cases k m Hm) as [[Hin Hr]|(Hnin & Hntk & Hg & Hr)].
  - exists (st_next_generation st), (length heap), record. rewrite decide_True by done.
    split; [done|]. split; [apply bt_get_insert_eq|]. split; [by apply list_lookup_middle|].
    apply replaces_spec in Hr as [Ho Hs]. destruct Hin as [Hks Hki]. split.
    { apply Hactive. intros E. by rewrite E, elem_of_nil in Hki. }
    rewrite Howner, Hscope, Hcaps. split; [done|]. split; [done|].
    pose proof (gok_key _ (cd_ok _ _ _ (pk_candidate _ _ _ Hpr)) _ _ Hm) as E. by rewrite E in Hki.
  - destruct (sk_served _ _ Hok _ _ Hg) as (g & p & r & Hkg & Hgp & Hp & Hrest). exists g, p, r.
    rewrite !decide_False by done. split; [done|]. split; [|split; [by apply lookup_app_l_Some|done]].
    rewrite bt_get_insert_ne; [done|]. intros ->. by rewrite next_fresh in Hgp.
Qed.

Lemma committed_state_ok : state_ok (committed_state tx pr av (length heap) st) (heap ++ [record]).
Proof.
  pose proof (pk_candidate _ _ _ Hpr) as Hc. split.
  - apply Hc.
  - intros k g. rewrite committed_active. cbn [committed_state st_graph]. case_decide as Hin.
    + intros _. destruct Hin as [Hs Hin]. apply activated_elem in Hin as [sc Hsc]. destruct (Htx _ _ Hsc) as (Hid' & Ho & Hs').
      exists (sc_manifest sc). apply (cd_get _ _ _ Hc). left. exists sc. rewrite Hid'. split; [done|]. split; [done|].
      unfold manifest_key. rewrite Hid', Hs', <- Hs. by destruct k.
    + case_decide as Htk; [done|]. intros Hg. destruct (sk_active _ _ Hok _ _ Hg) as [m Hm]. exists m.
      apply (cd_get _ _ _ Hc). right. split; [done|]. apply not_true_is_false. intros Hr. apply Htk.
      eapply taken_spec; [exact Hok|apply replaces_scope|exact Hm|done].
  - apply committed_served.
  - intros k m g k' m' g' Hm Hm'. cbn [committed_state st_graph] in Hm, Hm'. rewrite !committed_active.
    intros Hg Hg' Ho Hs. pose proof (replaces_owner tx m m' Ho Hs) as Er.
    destruct (candidate_cases k m Hm) as [[Hin Hr]|(Hnin & Hntk & Hgm & Hr)],
      (candidate_cases k' m' Hm') as [[Hin' Hr']|(Hnin' & Hntk' & Hgm' & Hr')]; try congruence.
    + rewrite decide_True in Hg by done. rewrite decide_True in Hg' by done. congruence.
    + rewrite !decide_False in Hg by done. rewrite !decide_False in Hg' by done.
      exact (sk_shared _ _ Hok k m g k' m' g' Hgm Hgm' Hg Hg' Ho Hs).
  - intros g p. cbn [committed_state st_generations st_next_generation]. rewrite bt_get_insert. unfold next_generation.
    pose proof (val_bounds (st_next_generation st)). rewrite val_u64_of_small by lia. case_decide as E.
    + subst g. intros [= <-]. split; [|lia]. exists record. split; [by apply list_lookup_middle|done].
    + intros Hp. destruct (sk_generation _ _ Hok _ _ Hp) as [(r & Hr & Hrid) ?]. split; [|lia]. exists r.
      split; [by apply lookup_app_l_Some|done].
Qed.

(** The generations a commit takes out of service. *)
Lemma committed_generations g q :
  g ∈ taken_generations st (replaces tx) (tx_scope tx) ->
  bt_get g (st_generations (committed_state tx pr av (length heap) st)) = Some q -> bt_get g (st_generations st) = Some q.
Proof.
  intros Hg. cbn [committed_state st_generations]. rewrite bt_get_insert. case_decide as E; [|done]. subst g.
  apply (taken_generations_elem _ _ Hok) in Hg as (k & m & Hm & _ & Hk); [|apply replaces_scope].
  destruct (sk_served _ _ Hok _ _ Hm) as (g & p & r & Hkg & Hgp & _). assert (g = st_next_generation st) as -> by congruence.
  by rewrite next_fresh in Hgp.
Qed.

Definition retired_records : list ptr :=
  taken_records st (replaces tx) (tx_scope tx) (st_generations (committed_state tx pr av (length heap) st)).

Lemma retired_records_bound p : p ∈ retired_records -> (p < length heap)%nat.
Proof. apply (taken_records_bound st heap Hok). apply committed_generations. Qed.

Lemma served_not_retired k g p :
  bt_get k (st_active_generations (committed_state tx pr av (length heap) st)) = Some g ->
  bt_get g (st_generations (committed_state tx pr av (length heap) st)) = Some p -> p ∉ retired_records.
Proof.
  intros Hkg Hgp Hin. pose proof (retired_records_bound p Hin) as Hp.
  destruct (sk_active _ _ committed_state_ok _ _ Hkg) as [m Hm]. cbn [committed_state st_graph] in Hm.
  rewrite committed_active in Hkg. cbn [committed_state st_generations] in Hgp.
  destruct (candidate_cases k m Hm) as [[Hks Hr]|(Hnin & Hntk & Hg & Hr)].
  - rewrite decide_True in Hkg by done. injection Hkg as <-. rewrite bt_get_insert_eq in Hgp. injection Hgp as <-. lia.
  - rewrite !decide_False in Hkg by done. rewrite bt_get_insert in Hgp. case_decide; [injection Hgp as <-; lia|].
    eapply (kept_generation st heap Hok (replaces tx) (tx_scope tx) (replaces_scope tx) (replaces_owner tx));
      [apply committed_generations|exact Hg|done|exact Hkg|exact Hgp|exact Hin].
Qed.
End Publishing.

(** ** The whole second half *)

(** What publishing changes: the graph is the candidate, the staged capabilities
    are served by the new generation, the generations they replace stop. *)
Record published_by (tx : CapabilityTransaction) (pr : Prepared) (av : ActivatedCapabilities) (rt rt' : Runtime)
    (report : CapabilityCommitReport) : Prop := {
  pub_state : rt_state rt' = committed_state tx pr av (length (rt_heap rt)) (rt_state rt);
  pub_generation : cr_generation report = st_next_generation (rt_state rt);
  pub_activated : cr_activated report = av_activated av;
  pub_retired g : g ∈ cr_retired report <-> g ∈ taken_generations (rt_state rt) (replaces tx) (tx_scope tx);
  pub_inactive g p : g ∈ cr_retired report -> bt_get g (st_generations (rt_state rt)) = Some p -> inactive_at (rt_heap rt') p;
  pub_effects : exists called, rt_effects rt' = rt_effects rt ++ called /\ forall e, e ∈ called -> exists p d, e = Called p d
}.

Lemma no_calls_in_activation staged ids q d : Called q d ∉ activation_effects staged ids.
Proof. unfold activation_effects. rewrite list_elem_of_fmap. by intros (? & ? & _). Qed.

Lemma no_calls_in_rollback disposers q d : Called q d ∉ roll_back disposers.
Proof. unfold roll_back. rewrite list_elem_of_fmap. by intros (? & ? & _). Qed.

Lemma with_effects_ok effects rt leases published :
  runtime_ok rt leases published -> (forall q d, Called q d ∉ effects) ->
  runtime_ok (with_effects effects rt) leases published.
Proof. intros [Hh Hs Hr] Hno. split; [by apply runtime_heap_ok_mono|done|done]. Qed.

Lemma commit_finish_ok tx pr av rt leases published :
  runtime_ok rt leases published -> tx_ok tx -> prepared_ok tx (rt_state rt) pr -> activated_ok pr av ->
  val (st_next_generation (rt_state rt)) + 1 < 2 ^ 64 ->
  exists report rt', commit_finish tx pr av rt = Ok (Ok report, rt')
    /\ runtime_ok rt' leases (published ++ [(av_payloads av, av_disposers av)]) /\ published_by tx pr av rt rt' report.
Proof.
  intros [Hh Hs Hr] Htx Hpr Hav Hroom. unfold commit_finish, commit_publish.
  rewrite bool_decide_eq_false_2 by (intros Hne; apply Hne; symmetry; apply (pk_revision _ _ _ Hpr)).
  rewrite remove_active_pair. cbv zeta beta iota.
  destruct (generation_new_spec (st_next_generation (rt_state rt)) (tx_owner tx) (tx_scope tx) (av_activated av)
              (av_payloads av) (av_disposers av)) as (record & Hrec & Hid & Ho & Hsc & Hcaps & Hpay & Hdis & Hfail & Hlc & Hle).
  rewrite Hrec. cbn [mbind result_bind].
  change {| st_revision := next_revision (rt_state rt) |} with (committed_state tx pr av (length (rt_heap rt)) (rt_state rt)).
  set (st := rt_state rt) in *. set (st' := committed_state tx pr av (length (rt_heap rt)) st) in *.
  cbn [pb_retired_records pb_routes pb_generation pb_retired].
  rewrite (pk_replaced _ _ _ Hpr).
  change (omap _ (bs_list _)) with (retired_records tx st pr av (rt_heap rt)).
  change (bs_list _) with (taken_generations st (replaces tx) (tx_scope tx)).
  assert (av_activated av <> [] -> lifecycle_of (gr_state record) = Active) as Hact.
  { rewrite Hlc. by destruct (av_activated av). }
  pose proof (committed_state_ok tx st pr av (rt_heap rt) record Htx Hs Hpr Hav Hroom Hid Ho Hsc Hcaps Hact) as Hst'.
  set (rt1 := with_heap (rt_heap rt ++ [record]) (with_state st' rt)).
  assert (runtime_heap_ok rt1 (published ++ [(av_payloads av, av_disposers av)]) leases []) as Hok1.
  { apply heap_ok_append; [exact Hh| |].
    - cbn [fst snd]. eapply generation_new_ok; [exact Hrec|]. intros Hnil. rewrite (ak_activated _ _ Hav) in Hnil. split.
      + apply bt_ext. intros c. rewrite bt_get_empty. apply eq_None_not_Some. rewrite (ak_payloads _ _ Hav), Hnil. apply not_elem_of_nil.
      + apply nil_length_inv. by rewrite (ak_disposers _ _ Hav), Hnil.
    - intros c. rewrite Hcaps, (ak_activated _ _ Hav). apply (ak_payloads _ _ Hav). }
  destruct (quiesce_all_ok (retired_records tx st pr av (rt_heap rt)) rt1 _ _ _ Hok1)
    as (jobs & rt2 & E2 & Hok2 & (Hf2 & Hev2 & He2 & Hin2)).
  { intros p Hp. cbn. rewrite length_app. cbn. apply (retired_records_bound tx st pr av (rt_heap rt) Hs) in Hp; [lia|..]. }
  rewrite E2. cbn [mbind result_bind].
  destruct (dispose_immediately_ok jobs (with_routes (routes_from_state st') rt2) _ _ _ Hok2)
    as (failures & rt3 & E3 & Hok3 & Hf3 & Hev3 & He3).
  rewrite E3. cbn [mbind result_bind]. eexists _, rt3. split; [done|].
  assert (rt_state rt3 = st') as Est3.
  { rewrite (fr_state _ _ Hf3). cbn. by rewrite (fr_state _ _ Hf2). }
  split.
  - split; [exact Hok3| |].
    + rewrite Est3. eapply state_ok_evolves; [|exact Hev3|by intros ? ? ? _ _ []]. cbn [with_routes rt_heap].
      eapply state_ok_evolves; [exact Hst'|exact Hev2|]. intros k g p.
      apply (served_not_retired tx st pr av (rt_heap rt) record Htx Hs Hpr Hav Hroom Hid Ho Hsc Hcaps Hact).
    + rewrite (fr_routes _ _ Hf3), Est3. done.
  - split; cbn [cr_generation cr_activated cr_retired]; try done.
    + intros g p Hg Hp. eapply inactive_evolves; [exact Hev3| |].
      * eapply heap_evolves_length; [exact Hev2|]. cbn. rewrite length_app. cbn.
        destruct (sk_generation _ _ Hs _ _ Hp) as [(r & Hr' & _) _]. apply lookup_lt_Some in Hr'. lia.
      * apply Hin2. apply list_elem_of_omap. exists g. split; [done|]. cbn [st' committed_state st_generations].
        rewrite bt_get_insert_ne; [done|]. intros ->. destruct (sk_generation _ _ Hs _ _ Hp) as [_ ?]. lia.
    + exists (j ← jobs; map (Called (fst j)) (fst (dispose_all (snd j)))). rewrite He3. cbn [with_routes rt_effects]. rewrite He2.
      split; [done|]. intros e He. apply list_elem_of_bind in He as (j & He & _). apply list_elem_of_fmap in He as (d & -> & _).
      eauto.
Qed.

(** A state that changed since the preparation refuses the commit, and what was
    activated is rolled back. *)
Lemma commit_finish_stale tx pr av rt :
  st_revision (rt_state rt) <> pr_expected_revision pr ->
  commit_finish tx pr av rt
  = Ok (Err (ConcurrentMutation (pr_expected_revision pr) (st_revision (rt_state rt)) (snd (dispose_all (av_disposers av)))),
        with_effects (roll_back (av_disposers av)) rt).
Proof. intros Hne. unfold commit_finish, commit_publish. rewrite bool_decide_eq_true_2 by done. done. Qed.
