(* ===== verification/RuntimeCalls.v ===== *)
(** The capability runtime under any sequence of calls: commits are open between
    their critical sections while other calls change the runtime, leases are
    taken, cloned and dropped, and the reaper runs (lemmas on CapabilityRuntime). *)

From S2P Require Import Prelude BTree Disk Listing Capabilities ScopeFacts ResolveFacts Generations GenerationFacts CapabilityRuntime RuntimeFacts CommitFacts.

Open Scope Z_scope.

(** A commit between its critical sections. *)
Inductive Pending :=
  | Activates (tx : CapabilityTransaction) (pr : Prepared)
  | Publishes (tx : CapabilityTransaction) (pr : Prepared) (av : ActivatedCapabilities).

(** The runtime, the leases its clients hold, what each generation was published
    with, and the commits under way. *)
Record System := {
  sy_runtime : Runtime;
  sy_leases : list ptr;
  sy_published : list origin;
  sy_commits : list Pending
}.

Abbreviation system rt leases published commits :=
  {| sy_runtime := rt; sy_leases := leases; sy_published := published; sy_commits := commits |}.

(** The counters do not wrap: fewer than [2 ^ 64] changes and commits. *)
Definition room (rt : Runtime) : Prop :=
  val (st_revision (rt_state rt)) + 1 < 2 ^ 64 /\ val (st_next_generation (rt_state rt)) + 1 < 2 ^ 64.

Inductive call : System -> System -> Prop :=
  | calls_ensure_child_scope id kind parent rt rt' leases published commits :
      room rt -> ensure_child_scope id kind parent rt = Ok rt' ->
      call (system rt leases published commits) (system rt' leases published commits)
  | calls_open_child_scope id kind parent rt rt' leases published commits :
      room rt -> open_child_scope id kind parent rt = Ok rt' ->
      call (system rt leases published commits) (system rt' leases published commits)
  | drops_scope scope rt rt' leases published commits :
      room rt -> retire_scope scope rt = Ok rt' ->
      call (system rt leases published commits) (system rt' leases published commits)
  | turns_acquire scope capability turn rt rt' leases published commits :
      acquire_turn scope capability rt = Ok (turn, rt') ->
      call (system rt leases published commits)
           (system rt' (match turn with Leased p => p :: leases | _ => leases end) published commits)
  | clones_lease p rt rt' leases published commits :
      p ∈ leases -> clone_lease p rt = Ok rt' ->
      call (system rt leases published commits) (system rt' (p :: leases) published commits)
  | drops_lease p rt rt' before after published commits :
      drop_lease p rt = Ok rt' ->
      call (system rt (before ++ p :: after) published commits) (system rt' (before ++ after) published commits)
  | reaps rt rt' leases published commits :
      reap rt = Ok rt' -> call (system rt leases published commits) (system rt' leases published commits)
  | prepares tx pr rt leases published commits :
      tx_ok tx -> commit_prepare tx (rt_state rt) = Ok pr ->
      call (system rt leases published commits) (system rt leases published (Activates tx pr :: commits))
  | activates_all tx pr av effects rt leases published before after :
      commit_activate (pr_activation_order pr) (tx_staged tx) nothing_activated = (AllActivated av, effects) ->
      call (system rt leases published (before ++ Activates tx pr :: after))
           (system (with_effects effects rt) leases published (before ++ Publishes tx pr av :: after))
  | activation_stops tx pr e effects rt leases published before after :
      commit_activate (pr_activation_order pr) (tx_staged tx) nothing_activated = (ActivationStopped e, effects) ->
      call (system rt leases published (before ++ Activates tx pr :: after))
           (system (with_effects effects rt) leases published (before ++ after))
  | activation_unwinds tx pr effects rt leases published before after :
      commit_activate (pr_activation_order pr) (tx_staged tx) nothing_activated = (ActivationUnwound, effects) ->
      call (system rt leases published (before ++ Activates tx pr :: after))
           (system (with_effects effects rt) leases published (before ++ after))
  | publishes tx pr av report rt rt' leases published before after :
      room rt -> commit_finish tx pr av rt = Ok (Ok report, rt') ->
      call (system rt leases published (before ++ Publishes tx pr av :: after))
           (system rt' leases (published ++ [(av_payloads av, av_disposers av)]) (before ++ after))
  | refuses tx pr av e rt rt' leases published before after :
      commit_finish tx pr av rt = Ok (Err e, rt') ->
      call (system rt leases published (before ++ Publishes tx pr av :: after))
           (system rt' leases published (before ++ after)).

(** * What a commit under way may rely on *)

(** Its preparation is still right, unless the revision has moved on. *)
Definition prepared_still (tx : CapabilityTransaction) (pr : Prepared) (st : RuntimeState) : Prop :=
  tx_ok tx /\ NoDup (pr_activation_order pr)
  /\ (forall id, id ∈ pr_activation_order pr -> is_Some (bt_get id (tx_staged tx)))
  /\ val (pr_expected_revision pr) <= val (st_revision st)
  /\ (pr_expected_revision pr = st_revision st -> prepared_ok tx st pr).

Definition pending_ok (st : RuntimeState) (c : Pending) : Prop :=
  match c with
  | Activates tx pr => prepared_still tx pr st
  | Publishes tx pr av => prepared_still tx pr st /\ activated_ok pr av
  end.

(** The graph and the revision stay, or the revision moves on. *)
Definition state_moves (st st' : RuntimeState) : Prop :=
  (st_graph st' = st_graph st /\ st_revision st' = st_revision st) \/ val (st_revision st) < val (st_revision st').

Lemma prepared_ok_same tx st st' pr :
  st_graph st' = st_graph st -> st_revision st' = st_revision st -> prepared_ok tx st pr -> prepared_ok tx st' pr.
Proof.
  intros Eg Er [H1 H2 H3 H4 H5 H6]. split; try done; [by rewrite Eg| |congruence]. unfold taken_ids in *. by rewrite Eg.
Qed.

Lemma prepared_still_moves tx pr st st' : state_moves st st' -> prepared_still tx pr st -> prepared_still tx pr st'.
Proof.
  intros Hmove (Htx & Hnd & Hstaged & Hle & Hpr). split; [done|]. split; [done|]. split; [done|].
  destruct Hmove as [[Eg Er]|Hlt].
  - rewrite Er. split; [done|]. intros E. by eapply prepared_ok_same; [..|apply Hpr].
  - split; [lia|]. intros E. rewrite E in Hle. lia.
Qed.

Lemma pending_ok_moves st st' c : state_moves st st' -> pending_ok st c -> pending_ok st' c.
Proof. intros Hm. destruct c; cbn; [|intros [? ?]; split; [|done]]; by eapply prepared_still_moves. Qed.

Lemma state_stays st : state_moves st st.
Proof. by left. Qed.

Lemma next_revision_moves st st' : val (st_revision st) + 1 < 2 ^ 64 -> st_revision st' = next_revision st -> state_moves st st'.
Proof.
  intros Hroom E. right. rewrite E. unfold next_revision. pose proof (val_bounds (st_revision st)).
  rewrite val_u64_of_small by lia. lia.
Qed.

(** * The invariant *)

Record system_ok (sy : System) : Prop := {
  yk_runtime : runtime_ok (sy_runtime sy) (sy_leases sy) (sy_published sy);
  yk_commits : Forall (pending_ok (rt_state (sy_runtime sy))) (sy_commits sy)
}.

Lemma system_ok_moves rt rt' leases leases' published published' commits commits' :
  system_ok (system rt leases published commits) -> runtime_ok rt' leases' published' ->
  state_moves (rt_state rt) (rt_state rt') -> (forall c, c ∈ commits' -> c ∈ commits) ->
  system_ok (system rt' leases' published' commits').
Proof.
  intros [_ Hc] Hrt Hm Hsub. split; [done|]. cbn in *. rewrite list.Forall_forall in Hc |- *. intros c Hin.
  by eapply pending_ok_moves, Hc, Hsub.
Qed.

Lemma retire_scope_moves scope rt rt' :
  room rt -> retire_scope scope rt = Ok rt' ->
  (forall ps rt1 rt2, quiesce_and_schedule ps rt1 = Ok rt2 -> frame rt1 rt2) -> state_moves (rt_state rt) (rt_state rt').
Proof.
  intros [Hroom _] E Hframe. unfold retire_scope in E. destruct (bt_get scope _) as [handles|]; [|injection E as <-; apply state_stays].
  destruct (0 <? _); [injection E as <-; by left|]. rewrite remove_active_pair in E.
  apply bind_Ok in E as (rt1 & Eq & [= <-]). apply Hframe in Eq. cbn. rewrite (fr_state _ _ Eq). by apply next_revision_moves.
Qed.

Lemma push_job_frame p job rt : frame rt (push_job p job rt).
Proof. by destruct job. Qed.

Lemma through_frame {A} p (f : GenerationRecord -> panicking (A * GenerationRecord)) rt a rt' :
  through p f rt = Ok (a, rt') -> frame rt rt'.
Proof. by intros (r & r' & _ & _ & ->)%through_Ok. Qed.

Lemma quiesce_and_schedule_frame ps rt rt' : quiesce_and_schedule ps rt = Ok rt' -> frame rt rt'.
Proof.
  revert rt. induction ps as [|p ps IH]; intros rt; cbn; [by intros [= <-]|].
  rewrite bind_Ok. intros ([taken rt1] & Ht%through_frame & E). eapply frame_trans; [exact Ht|].
  apply bind_Ok in E as (rt2 & E2 & E). eapply frame_trans; [|by apply IH].
  destruct taken as [ds|]; [|by injection E2 as <-]. apply bind_Ok in E2 as ([job rt3] & Hs%through_frame & [= <-]).
  eapply frame_trans; [exact Hs|apply push_job_frame].
Qed.

Lemma commit_finish_Ok tx pr av rt report rt' :
  commit_finish tx pr av rt = Ok (Ok report, rt') -> pr_expected_revision pr = st_revision (rt_state rt).
Proof.
  intros E. destruct (decide (st_revision (rt_state rt) = pr_expected_revision pr)) as [?|Hne]; [done|].
  by rewrite commit_finish_stale in E.
Qed.

Lemma commit_finish_Err tx pr av rt e rt' :
  commit_finish tx pr av rt = Ok (Err e, rt') ->
  rt' = with_effects (roll_back (av_disposers av)) rt /\ st_revision (rt_state rt) <> pr_expected_revision pr.
Proof.
  destruct (decide (st_revision (rt_state rt) = pr_expected_revision pr)) as [E|Hne].
  - unfold commit_finish, commit_publish. rewrite bool_decide_eq_false_2 by (intros Hn; by apply Hn).
    rewrite remove_active_pair. cbv zeta beta iota. destruct (generation_new _ _ _ _ _ _); cbn [mbind result_bind]; [|done].
    destruct (quiesce_all _ _) as [[? ?]|]; cbn [mbind result_bind]; [|done].
    destruct (dispose_immediately _ _) as [[? ?]|]; cbn [mbind result_bind]; done.
  - rewrite commit_finish_stale by done. intros [= _ <-]. done.
Qed.

Lemma call_keeps_ok sy sy' : system_ok sy -> call sy sy' -> system_ok sy'.
Proof.
  intros Hok Hcall.
  destruct Hcall as [id kind parent rt rt' leases published commits Hroom E|id kind parent rt rt' leases published commits Hroom E
    |scope rt rt' leases published commits Hroom E|scope capability turn rt rt' leases published commits E
    |p rt rt' leases published commits Hp E|p rt rt' before after published commits E|rt rt' leases published commits E
    |tx pr rt leases published commits Htx E|tx pr av effects rt leases published before after E
    |tx pr e effects rt leases published before after E|tx pr effects rt leases published before after E
    |tx pr av report rt rt' leases published before after Hroom E|tx pr av e rt rt' leases published before after E];
    pose proof (yk_runtime _ Hok) as Hrt; cbn [sy_runtime sy_leases sy_published] in Hrt.
  - eapply system_ok_moves; [exact Hok|by eapply ensure_child_scope_ok| |done]. unfold ensure_child_scope in E.
    apply bind_Ok in E as (scopes & _ & [= <-]). by apply next_revision_moves; [apply Hroom|].
  - eapply system_ok_moves; [exact Hok|by eapply open_child_scope_ok| |done]. unfold open_child_scope in E.
    apply bind_Ok in E as (scopes & _ & [= <-]). by apply next_revision_moves; [apply Hroom|].
  - destruct (retire_scope_ok scope rt leases published Hrt) as (rt2 & E2 & Hrt' & _). assert (rt2 = rt') as -> by congruence.
    eapply system_ok_moves; [exact Hok|exact Hrt'| |done]. eapply retire_scope_moves; [done|exact E|apply quiesce_and_schedule_frame].
  - apply (acquire_turn_ok _ _ _ published leases []) in E as (Hh & Hf & Hev & _); [|apply Hrt].
    eapply system_ok_moves; [exact Hok|by eapply runtime_ok_frame| |done]. rewrite (fr_state _ _ Hf). apply state_stays.
  - apply (clone_lease_ok _ _ published leases []) in E as (Hh & Hf & Hev & _); [|apply Hrt|done].
    eapply system_ok_moves; [exact Hok|by eapply runtime_ok_frame| |done]. rewrite (fr_state _ _ Hf). apply state_stays.
  - apply (drop_lease_ok _ _ published (before ++ after) []) in E as (Hh & Hf & Hev & _).
    + eapply system_ok_moves; [exact Hok|by eapply runtime_ok_frame| |done]. rewrite (fr_state _ _ Hf). apply state_stays.
    + eapply heap_ok_permutation; [|done|apply Hrt]. symmetry. apply Permutation_middle.
  - apply (reap_ok _ published leases []) in E as (Hh & Hf & Hev); [|apply Hrt].
    eapply system_ok_moves; [exact Hok|by eapply runtime_ok_frame| |done]. rewrite (fr_state _ _ Hf). apply state_stays.
  - pose proof (commit_prepare_ok _ _ _ Htx (sk_graph _ _ (ro_state _ _ _ Hrt)) E) as Hpr. split; [done|].
    constructor; [|apply Hok]. split; [done|]. split; [apply Hpr|]. split; [by intros id ?%(pk_order _ _ _ Hpr)|].
    split; [by rewrite (pk_revision _ _ _ Hpr)|done].
  - destruct Hok as [_ Hc]. cbn in Hc. apply Forall_here in Hc as [Hp Hc]. destruct Hp as (Htx & Hnd & Hst & Hrest).
    pose proof (commit_activate_spec _ _ _ nothing_activated Hnd Hst (fun _ _ => eq_refl)) as Hact. rewrite E in Hact. cbn [fst snd activation_result] in Hact.
    destruct Hact as (results & Hact & -> & ->). split.
    + apply with_effects_ok; [done|]. intros q d. apply no_calls_in_activation.
    + cbn. apply Forall_here. split; [|done]. split; [done|]. by eapply all_activated_ok.
  - assert (Activates tx pr ∈ before ++ Activates tx pr :: after) as Hin by (apply elem_of_app; right; by left).
    pose proof (proj1 (list.Forall_forall _ _) (yk_commits _ Hok) _ Hin) as (Htx & Hnd & Hst & _).
    pose proof (commit_activate_spec _ _ _ nothing_activated Hnd Hst (fun _ _ => eq_refl)) as Hact. rewrite E in Hact. cbn [fst snd activation_result] in Hact.
    destruct Hact as (bf & id & af & results & reason & _ & _ & _ & _ & ->).
    eapply system_ok_moves; [exact Hok| |apply state_stays|set_solver].
    apply with_effects_ok; [done|]. intros q d. rewrite elem_of_app. intros [?%no_calls_in_activation|?%no_calls_in_rollback]; done.
  - assert (Activates tx pr ∈ before ++ Activates tx pr :: after) as Hin by (apply elem_of_app; right; by left).
    pose proof (proj1 (list.Forall_forall _ _) (yk_commits _ Hok) _ Hin) as (Htx & Hnd & Hst & _).
    pose proof (commit_activate_spec _ _ _ nothing_activated Hnd Hst (fun _ _ => eq_refl)) as Hact. rewrite E in Hact. cbn [fst snd activation_result] in Hact.
    destruct Hact as (bf & id & af & results & _ & _ & _ & ->).
    eapply system_ok_moves; [exact Hok| |apply state_stays|set_solver].
    apply with_effects_ok; [done|]. intros q d. apply no_calls_in_activation.
  - assert (Publishes tx pr av ∈ before ++ Publishes tx pr av :: after) as Hin by (apply elem_of_app; right; by left).
    pose proof (proj1 (list.Forall_forall _ _) (yk_commits _ Hok) _ Hin) as [(Htx & _ & _ & _ & Hpr) Hav].
    specialize (Hpr (commit_finish_Ok _ _ _ _ _ _ E)).
    destruct (commit_finish_ok _ _ _ _ _ _ Hrt Htx Hpr Hav (proj2 Hroom)) as (report' & rt2 & E2 & Hrt' & Hpub).
    assert (rt2 = rt') as -> by congruence.
    eapply system_ok_moves; [exact Hok|exact Hrt'| |set_solver]. rewrite (pub_state _ _ _ _ _ _ Hpub).
    by apply next_revision_moves; [apply Hroom|].
  - apply commit_finish_Err in E as [-> _]. eapply system_ok_moves; [exact Hok| |apply state_stays|set_solver].
    apply with_effects_ok; [done|]. intros q d. apply no_calls_in_rollback.
Qed.

Definition system_new (scopes : ScopeGraph) : System := system (runtime_new scopes) [] [] [].

Lemma system_new_ok scopes : scopes_ok scopes -> system_ok (system_new scopes).
Proof. intros Hs. split; [by apply runtime_new_ok|constructor]. Qed.

Lemma calls_keep_ok sy sy' : system_ok sy -> rtc call sy sy' -> system_ok sy'.
Proof. intros Hok Hcalls. induction Hcalls; [done|]. eauto using call_keeps_ok. Qed.

(** * Acquiring *)

Lemma try_acquire_active r :
  lifecycle_of (gr_state r) = Active -> val (leases_of (gr_state r)) < 2 ^ 61 - 1 ->
  exists w, try_acquire r = Ok (true, set_state w r).
Proof.
  intros Ha Hn. unfold try_acquire. destruct (acquire_next (gr_state r)) as [[w|]|m] eqn:E; cbn [mbind result_bind].
  - by exists w.
  - by apply acquire_next_None in E.
  - apply acquire_next_Err in E. lia.
Qed.

(** A turn leases the generation that serves what the graph shows. *)
Lemma acquire_turn_served s c rt leases published :
  runtime_ok rt leases published ->
  match visible (st_graph (rt_state rt)) s c with
  | None => acquire_turn s c rt = Ok (Invisible, rt)
  | Some m => exists g p r, served (rt_state rt) (rt_heap rt) (manifest_key m) m g p r
      /\ (val (leases_of (gr_state r)) < 2 ^ 61 - 1 ->
           exists w, acquire_turn s c rt = Ok (Leased p, with_heap (<[p := set_state w r]> (rt_heap rt)) rt))
  end.
Proof.
  intros [_ Hs Hr]. unfold acquire_turn. rewrite Hr. pose proof (routes_visible_spec _ _ s c Hs) as Hv.
  destruct (routes_visible _ s c) as [p|].
  - destruct Hv as (m & g & r & -> & Hsv). exists g, p, r. split; [done|]. intros Hn.
    destruct Hsv as (_ & _ & Hp & Ha & _). destruct (try_acquire_active r Ha Hn) as [w Hw]. exists w.
    unfold through. rewrite Hp. cbn [ok_or mbind result_bind]. rewrite Hw. done.
  - by rewrite Hv.
Qed.

(** An active generation holds what it was published with. *)
Lemma active_payload rt leases published p r o c :
  runtime_ok rt leases published -> rt_heap rt !! p = Some r -> lifecycle_of (gr_state r) = Active ->
  published !! p = Some o -> gr_payloads r = fst o /\ (c ∈ gr_capabilities r -> is_Some (bt_get c (fst o))).
Proof.
  intros [Hh _ _] Hr Ha Ho. destruct (hk_record _ _ _ _ _ Hh p r o Hr Ho) as [[_ _ Hlc] Hpay]. split; [|apply Hpay].
  unfold lifecycle_ok in Hlc. cbn_shared. rewrite Ha in Hlc. apply Hlc.
Qed.

Lemma drop_lease_returns p rt : (p < length (rt_heap rt))%nat -> exists rt', drop_lease p rt = Ok rt'.
Proof.
  intros Hp. unfold drop_lease. destruct (through_returns p release_lease rt Hp release_lease_returns) as (job & rt' & ->).
  cbn [mbind result_bind]. eauto.
Qed.

Lemma drop_lease_effects p rt rt' : drop_lease p rt = Ok rt' -> rt_effects rt' = rt_effects rt.
Proof.
  unfold drop_lease. rewrite bind_Ok. intros ([job rt1] & Ht & [= <-]). apply through_Ok in Ht as (r & r' & _ & _ & ->).
  by destruct job.
Qed.

Lemma reap_returns rt leases published : runtime_ok rt leases published -> exists rt', reap rt = Ok rt'.
Proof.
  intros [Hh _ _]. unfold reap. destruct (rt_jobs rt) as [|job jobs] eqn:Ej; [eauto|].
  destruct (dispose_all (jb_disposers job)) as [called failures].
  destruct (through_returns (jb_generation job) (fun r => r' ← complete_disposal failures r; Ok (tt, r')) rt) as (a & rt' & E).
  - eapply (hk_flights _ _ _ _ _ Hh). cbn. rewrite Ej. by left.
  - intros r. destruct (complete_disposal_returns failures r) as [r' ->]. cbn [mbind result_bind]. eauto.
  - rewrite E. cbn [mbind result_bind]. eauto.
Qed.
