(* ===== verification/Fork.v ===== *)
(** Deleting and forking threads (thread-store: store.rs): a fork replays the
    facts of its source, read from a snapshot, as commands on a new thread.  The
    two threads have different journal directories. *)

From stdpp Require Import pretty.
From S2P Require Import Prelude Canonical Events Commands Receipts Format CommandIndex Disk Model Recovery Journal.
From S2P Require Import Projection ThreadIndex LiveThread Store.

Open Scope string_scope.
Open Scope list_scope.
Open Scope Z_scope.

(** [tokio::fs::remove_dir_all] of a thread's directory; a failure can leave a
    part of the files behind. *)
Definition fs_remove_dir_all : io unit := fun d =>
  let (d, fault) := take_fault d in
  let left k := {| d_files := list_to_map (drop k (map_to_list (d_files d))); d_others := d_others d;
                   d_synced := d_synced d; d_synced_names := d_synced_names d; d_lock_file := d_lock_file d;
                   d_lock_held := d_lock_held d; d_writers := d_writers d; d_faults := d_faults d |} in
  match fault with
  | Some k => (left k, Err OtherIo)
  | None => ({| d_files := ∅; d_others := ∅; d_synced := d_synced d; d_synced_names := d_synced_names d;
                d_lock_file := false; d_lock_held := d_lock_held d; d_writers := d_writers d;
                d_faults := d_faults d |}, Ok tt)
  end.

(** * Records of a replay *)

Inductive ForkReplayRecord :=
  | ReplayCreated (source workspace : string)
  | ReplayCommand (revision : ThreadRevision) (command : ThreadCommand)
  | ReplayComplete.

(** [fs_sent] is what the receiver has been sent; [fs_accepts] counts the sends
    until it is gone, when it goes. *)
Record ForkReplayStream := {
  fs_through : ThreadRevision;
  fs_sent : list ForkReplayRecord;
  fs_accepts : option nat;
  fs_created : bool;
  fs_reached_through : bool;
  fs_receiver_closed : bool
}.

Definition fork_replay_stream_new (through : ThreadRevision) (accepts : option nat) : ForkReplayStream := {|
  fs_through := through; fs_sent := []; fs_accepts := accepts;
  fs_created := false; fs_reached_through := false; fs_receiver_closed := false |}.

(** [blocking_send] *)
Definition fork_send (record : ForkReplayRecord) (s : ForkReplayStream) : ForkReplayStream * bool :=
  match fs_accepts s with
  | Some O => (s, false)
  | accepts =>
      ({| fs_through := fs_through s; fs_sent := fs_sent s ++ [record]; fs_accepts := pred <$> accepts;
          fs_created := fs_created s; fs_reached_through := fs_reached_through s;
          fs_receiver_closed := fs_receiver_closed s |}, true)
  end.

(** What a replay draws from outside: for each command, and for imported
    events the new item's identifier and the text serde_json gives; the text of
    a thread identifier; how many sends the receiver takes before it is gone;
    and the records that were sent before a journal that cannot be read failed. *)
Record ForkInputs := {
  fi_draws : nat -> Draws;
  fi_item : ThreadRevision -> ItemId;
  fi_import_text : string -> ContentRef -> string;
  fi_thread_text : ThreadId -> string;
  fi_accepts : option nat;
  fi_partial : list ForkReplayRecord
}.

(** [replay_command]; [item] is [ItemId::new()]. *)
Definition replay_command (inputs : ForkInputs) (item : ItemId) (body : ThreadEventBody) : option ThreadCommand :=
  match body with
  | ThreadCreated _ _ _ | ThreadArchived _ | TranscriptHeadMoved _ _ _ | ExternalHistoryImported _ _ _ _ _ _ _ => None
  | ThreadNameSet name => Some (SetName name)
  | ThreadSummarySet summary => Some (SetSummary summary)
  | ThreadWorkspaceSet workspace => Some (SetWorkspace workspace)
  | TurnStarted turn_id collaboration_mode => Some (StartTurn turn_id collaboration_mode)
  | TurnExecutionContextCaptured turn_id context => Some (CaptureTurnExecutionContext turn_id context)
  | NativeAgentEventRecorded agent_sequence event_id turn_id route payload =>
      Some (RecordNativeAgentEvent agent_sequence event_id turn_id route payload)
  | TranscriptItemCreated item_id turn_id item_kind content =>
      Some (AppendTranscriptItem item_id turn_id item_kind content)
  | TranscriptItemFinalized item_id content => Some (FinalizeTranscriptItem item_id content)
  | TranscriptItemCancelled item_id reason => Some (CancelTranscriptItem item_id reason)
  | TurnCompleted turn_id => Some (CompleteTurn turn_id)
  | TurnAborted turn_id reason => Some (AbortTurn turn_id reason)
  | TurnFailed turn_id error_code message => Some (FailTurn turn_id error_code message)
  | ModelContextBaselineReplaced basis_revision summary retained_item_ids =>
      Some (ReplaceModelContextBaseline basis_revision summary retained_item_ids)
  | ModelContextSnapshotReplaced basis_revision snapshot =>
      Some (ReplaceModelContextSnapshot basis_revision snapshot)
  | ModelContextRolledBack user_turns => Some (RollbackModelContext user_turns)
  | ContentRedacted item_id replacement reason => Some (RedactContent item_id replacement reason)
  | OpaqueImportedEvent _ original_type payload =>
      Some (AppendTranscriptItem item None OpaqueImported
              (InlineText (fi_import_text inputs original_type payload)))
  | ModelContextItemRecorded item_id turn_id content => Some (RecordModelContextItem item_id turn_id content)
  | TurnCostRecorded cost_micros => Some (RecordTurnCost cost_micros)
  | ThreadResumeConfigSet model model_provider reasoning_effort =>
      Some (SetResumeConfig model model_provider reasoning_effort)
  | ThreadDynamicToolsSet tools => Some (SetDynamicTools tools)
  | ThreadPreviewSet preview first_user_message => Some (SetPreview preview first_user_message)
  | AgentEventMetadataReconciled generation => Some (MarkAgentEventMetadataReconciled generation)
  | AgentEventTimelineReconciled generation created_at updated_at =>
      Some (ReconcileAgentEventTimeline generation created_at updated_at)
  end.

Definition rebase_fork_command (target_revision : ThreadRevision) (command : ThreadCommand) : ThreadCommand :=
  match command with
  | ReplaceModelContextBaseline _ summary retained_item_ids =>
      ReplaceModelContextBaseline target_revision summary retained_item_ids
  | ReplaceModelContextSnapshot _ snapshot => ReplaceModelContextSnapshot target_revision snapshot
  | command => command
  end.

Definition fork_record (inputs : ForkInputs) (event : ThreadEventEnvelope) : option ForkReplayRecord * bool :=
  let replayed := ReplayCommand (ev_revision event) <$> replay_command inputs (fi_item inputs (ev_revision event)) (ev_body event) in
  match ev_body event with
  | ThreadCreated source workspace _ =>
      if bool_decide (ev_revision event = revision_of 1) then (Some (ReplayCreated source workspace), true)
      else (replayed, false)
  | _ => (replayed, false)
  end.

(** [ForkReplayStream::push] *)
Definition fork_push (inputs : ForkInputs) (s : ForkReplayStream) (event : ThreadEventEnvelope) : ForkReplayStream :=
  if rev (fs_through s) <? rev (ev_revision event) then s
  else
    let (record, creates) := fork_record inputs event in
    let '(s, closes) := match record with
                        | Some record => if fs_receiver_closed s then (s, false)
                                         else let (s, sent) := fork_send record s in (s, negb sent)
                        | None => (s, false)
                        end in
    {| fs_through := fs_through s; fs_sent := fs_sent s; fs_accepts := fs_accepts s;
       fs_created := fs_created s || creates;
       fs_reached_through := fs_reached_through s || bool_decide (ev_revision event = fs_through s);
       fs_receiver_closed := fs_receiver_closed s || closes |}.

Section Fork.
Context `{External, JsonCodec, Sqlite}.

Abbreviation live_io := (M (LiveThreadStore * Disk * Db) ThreadStoreError).
Abbreviation store_io := (M (Disk * Db) ThreadStoreError).

(** [ForkReplayStream::complete]: the records sent at the end, and the result. *)
Definition fork_complete (s : ForkReplayStream) : list ForkReplayRecord * result ThreadStoreError unit :=
  if negb (fs_reached_through s) then (fs_sent s, Err (RevisionNotFound (revision_get (fs_through s))))
  else if negb (fs_created s) then (fs_sent s, Err ThreadNotCreated)
  else (fs_sent (fst (fork_send ReplayComplete s)), Ok tt).

(** ** Deleting *)

Definition in_directory (m : io unit) : store_io unit := fun '(d, db) =>
  let (d, r) := m d in ((d, db), map_err (fun _ => Worker "remove_dir_all") r).

(** The directory the identifier names is below [threads/], so the check of its
    parent passes. *)
Definition delete_thread (thread_id : ThreadId) (exists_ : bool) : store_io bool :=
  if negb exists_ then mret false
  else
    _ ← in_index (index_remove thread_id);
    _ ← in_directory fs_remove_dir_all;
    mret true.

(** ** Replaying *)

Definition fork_correlation (inputs : ForkInputs) (source_id : ThreadId) (revision : ThreadRevision) : string :=
  String.append "fork:" (String.append (fi_thread_text inputs source_id)
    (String.append ":" (pretty (Z.to_N (val (revision_get revision)))))).

(** The loop over the records; [seen] are the commands [transform] was given,
    [calls] counts the commands run. *)
Fixpoint replay_loop (inputs : ForkInputs) (source_id : ThreadId)
    (transform : list ThreadCommand -> ThreadCommand -> result ThreadStoreError (option ThreadCommand))
    (target_revision : ThreadRevision) (calls : nat) (seen : list ThreadCommand)
    (records : list ForkReplayRecord) : live_io unit :=
  match records with
  | ReplayCommand revision command :: records =>
      let command := rebase_fork_command target_revision command in
      transformed ← of_result (transform seen command);
      match transformed with
      | None => replay_loop inputs source_id transform target_revision calls (seen ++ [command]) records
      | Some transformed =>
          receipt ← execute (fi_draws inputs calls) ActorSystem
                      (Some (fork_correlation inputs source_id revision)) transformed CommitBuffered;
          replay_loop inputs source_id transform (r_revision_after receipt) (S calls) (seen ++ [command]) records
      end
  | ReplayComplete :: _ => _ ← live_sync; mret tt
  | ReplayCreated _ _ :: _ => throw (Worker "fork source contains duplicate creation facts")
  | [] => throw (Worker "fork source ended before validation completed")
  end.

Definition replay_on_target (inputs : ForkInputs) (source_id : ThreadId) (through : ThreadRevision)
    (transform : list ThreadCommand -> ThreadCommand -> result ThreadStoreError (option ThreadCommand))
    (source workspace : string) (records : list ForkReplayRecord) : live_io unit :=
  receipt ← ensure_created (fi_draws inputs 0) source workspace
              (Some {| ref_thread_id := source_id; ref_revision := through |});
  replay_loop inputs source_id transform (r_revision_after receipt) 1 [] records.

(** The target is dropped and deleted when the replay fails; a failure to
    delete it is ignored. *)
Definition replay_fork_records (process : nat) (root : string) (inputs : ForkInputs)
    (source_id : ThreadId) (through : ThreadRevision) (target_id : ThreadId)
    (records : list ForkReplayRecord)
    (transform : list ThreadCommand -> ThreadCommand -> result ThreadStoreError (option ThreadCommand))
    : store_io LiveThreadStore :=
  match records with
  | ReplayCreated source workspace :: records =>
      target ← open_thread process root target_id;
      if negb (bool_decide (tj_head (lt_journal target) = HEAD_EMPTY)) then
        _ ← modify (fun '(d, db) => (drop_journal (lt_journal target) d, db));
        throw ThreadAlreadyExists
      else fun '(d, db) =>
        let '((target, d, db), r) :=
          replay_on_target inputs source_id through transform source workspace records (target, d, db) in
        match r with
        | Ok _ => ((d, db), Ok target)
        | Err e => (fst (delete_thread target_id true (drop_journal (lt_journal target) d, db)), Err e)
        end
  | _ => throw (Worker "fork source ended before its creation fact")
  end.

(** [fork_thread] over the directories of the source and of the target; the
    producer and the consumer meet in the records alone. *)
Definition fork_thread (process : nat) (root : string) (inputs : ForkInputs)
    (source_id : ThreadId) (source_exists : bool) (through : ThreadRevision) (target_id : ThreadId)
    (transform : list ThreadCommand -> ThreadCommand -> result ThreadStoreError (option ThreadCommand))
    : M (Disk * Disk * Db) ThreadStoreError LiveThreadStore := fun '(source_disk, target_disk, db) =>
  if negb source_exists then ((source_disk, target_disk, db), Err ThreadNotCreated)
  else
    let (source_disk, folded) :=
      consume_snapshot (journal_config_new root) source_id
        (fork_replay_stream_new through (fi_accepts inputs)) (fork_push inputs) source_disk in
    let (records, source_result) := match folded with
                                    | Ok stream => fork_complete stream
                                    | Err e => (fi_partial inputs, Err (Journal e))
                                    end in
    let '((target_disk, db), target_result) :=
      replay_fork_records process root inputs source_id through target_id records transform (target_disk, db) in
    match source_result, target_result with
    | Err e, Ok target =>
        let '((target_disk, db), _) := delete_thread target_id true (drop_journal (lt_journal target) target_disk, db) in
        ((source_disk, target_disk, db), Err e)
    | Err e, Err _ => ((source_disk, target_disk, db), Err e)
    | Ok _, r => ((source_disk, target_disk, db), r)
    end.

End Fork.
