(* ===== verification/ForkFacts.v ===== *)
(** What a fork holds: the facts of its source through a revision, as the
    transformation left them, after a creation that names the source. *)

From S2P Require Import Prelude Canonical Events Commands Receipts Format FormatFacts CommandIndex Disk Model Recovery JournalSpec.
From S2P Require Import RecoveryFacts Journal JournalFacts AppendFacts CrashFacts RangeFacts Projection ProjectionFacts ThreadIndex IndexFacts IndexReads.
From S2P Require Import OpenFacts Service LiveThread LiveFacts Store StoreFacts Fork.

Open Scope string_scope.
Open Scope list_scope.
Open Scope Z_scope.

(** * The facts a fork keeps *)

(** The fact a fork keeps of an event; an imported event becomes an item. *)
Definition kept_fact (inputs : ForkInputs) (item : ItemId) (body : ThreadEventBody) : option ThreadEventBody :=
  match body with
  | ThreadCreated _ _ _ | ThreadArchived _ | TranscriptHeadMoved _ _ _ | ExternalHistoryImported _ _ _ _ _ _ _ => None
  | OpaqueImportedEvent _ original_type payload =>
      Some (TranscriptItemCreated item None OpaqueImported (InlineText (fi_import_text inputs original_type payload)))
  | body => Some body
  end.

(** The events a command adds to a thread that exists. *)
Definition added_bodies (command : ThreadCommand) : list ThreadEventBody :=
  if is_create command then [] else event_bodies command.

Lemma replay_command_kept inputs item body :
  added_bodies <$> replay_command inputs item body = (fun fact => [fact]) <$> kept_fact inputs item body.
Proof. by destruct body. Qed.

(** A fact of the model's context rests on the revision before it. *)
Definition rebase_fact (revision : ThreadRevision) (body : ThreadEventBody) : ThreadEventBody :=
  match body with
  | ModelContextBaselineReplaced _ summary retained_item_ids => ModelContextBaselineReplaced revision summary retained_item_ids
  | ModelContextSnapshotReplaced _ snapshot => ModelContextSnapshotReplaced revision snapshot
  | body => body
  end.

Lemma rebase_added revision inputs item body command :
  replay_command inputs item body = Some command ->
  added_bodies (rebase_fork_command revision command) = map (rebase_fact revision) (added_bodies command).
Proof. destruct body; cbn; intros E; try discriminate E; injection E as <-; done. Qed.

(** Consecutive facts, rebased from a revision on. *)
Fixpoint rebased_facts (revision : Z) (facts : list ThreadEventBody) : list ThreadEventBody :=
  match facts with
  | [] => []
  | fact :: facts => rebase_fact (revision_of revision) fact :: rebased_facts (revision + 1) facts
  end.

Section Facts.
Context `{External, JsonCodec, SqliteLaws} (root : string) (tid : ThreadId).

Definition Transform : Type := list ThreadCommand -> ThreadCommand -> result ThreadStoreError (option ThreadCommand).
Definition keep_commands : Transform := fun _ command => Ok (Some command).

(** What the records of a whole replay add after a revision, under a transformation. *)
Fixpoint replay_facts (transform : Transform) (revision : Z) (seen : list ThreadCommand) (records : list ForkReplayRecord)
    : option (list ThreadEventBody) :=
  match records with
  | ReplayCommand _ command :: records =>
      let command := rebase_fork_command (revision_of revision) command in
      match transform seen command with
      | Ok (Some transformed) =>
          let added := added_bodies transformed in
          app added <$> replay_facts transform (revision + len added) (seen ++ [command]) records
      | Ok None => replay_facts transform revision (seen ++ [command]) records
      | Err _ => None
      end
  | ReplayComplete :: _ => Some []
  | _ => None
  end.

(** * The stream of records *)

(** The record of each event through a revision. *)
Definition stream_records (inputs : ForkInputs) (through : ThreadRevision) (es : list ThreadEventEnvelope)
    : list ForkReplayRecord :=
  omap (fun e => if rev through <? rev (ev_revision e) then None else fst (fork_record inputs e)) es.

Definition incomplete (records : list ForkReplayRecord) : Prop := ReplayComplete ∉ records.

(** The stream after some events: either all went through, or the receiver has gone. *)
Record streamed (inputs : ForkInputs) (through : ThreadRevision) (es : list ThreadEventEnvelope) (s : ForkReplayStream)
    : Prop := {
  sr_through : fs_through s = through;
  sr_reached : fs_reached_through s = existsb (fun e => bool_decide (ev_revision e = through)) es;
  sr_incomplete : incomplete (fs_sent s);
  sr_length : len (fs_sent s) <= len es;
  sr_sent : (fs_receiver_closed s = false /\ fs_sent s = stream_records inputs through es) \/
            (fs_receiver_closed s = true /\ fs_accepts s = Some O)
}.

Lemma fork_record_incomplete inputs e record : fst (fork_record inputs e) = Some record -> record <> ReplayComplete.
Proof.
  unfold fork_record. destruct (ev_body e); cbn; try case_bool_decide; cbn; intros [= <-]; done.
Qed.

Lemma stream_records_snoc inputs through es e :
  stream_records inputs through (es ++ [e])
    = stream_records inputs through es ++
      option_list (if rev through <? rev (ev_revision e) then None else fst (fork_record inputs e)).
Proof. unfold stream_records. rewrite omap_app. cbn [omap list_omap]. by destruct (if _ <? _ then _ else _). Qed.

Lemma fork_push_streamed inputs through es s e :
  streamed inputs through es s -> streamed inputs through (es ++ [e]) (fork_push inputs s e).
Proof.
  intros [Ht Hre Hi Hlen Hs]. unfold fork_push. rewrite Ht. pose proof (stream_records_snoc inputs through es e) as Esn.
  assert (Hre' : existsb (fun e => bool_decide (ev_revision e = through)) (es ++ [e])
                   = fs_reached_through s || bool_decide (ev_revision e = through))
    by (rewrite existsb_app, Hre; cbn; by rewrite orb_false_r).
  assert (Hlen' : len (fs_sent s) + 1 <= len (es ++ [e])) by (rewrite length_app; cbn; lia).
  destruct (Z.ltb_spec (rev through) (rev (ev_revision e))) as [Hlt|Hle].
  { cbn [option_list] in Esn. rewrite app_nil_r in Esn. rewrite bool_decide_eq_false_2, orb_false_r in Hre' by (intros E; rewrite E in Hlt; lia).
    split; [done|by rewrite Hre'|done|lia|by rewrite Esn]. }
  pose proof (fork_record_incomplete inputs e) as Hr. destruct (fork_record inputs e) as [[record|] creates]; cbn [fst option_list] in *.
  2: { rewrite app_nil_r in Esn. split; cbn [fs_through fs_reached_through fs_sent fs_receiver_closed fs_accepts];
         [done|by rewrite Hre', ?Ht|done|lia|]. by rewrite orb_false_r, Esn. }
  specialize (Hr record eq_refl). destruct Hs as [[Ec Es]|[Ec Ea]]; rewrite Ec.
  2: { split; cbn [fs_through fs_reached_through fs_sent fs_receiver_closed fs_accepts];
         [done|by rewrite Hre', ?Ht|done|lia|]. right. by rewrite Ec. }
  unfold fork_send. destruct (fs_accepts s) as [[|n]|] eqn:Ea;
    (split; cbn [fs_through fs_reached_through fs_sent fs_receiver_closed fs_accepts]; [done|by rewrite Hre', ?Ht| | |]);
    try (rewrite length_app; cbn [length]); try lia; try done; try (left; by rewrite Ec, Es, Esn);
    try (right; by rewrite orb_true_r);
    intros [Hin|Hin%list_elem_of_singleton]%elem_of_app; [by apply Hi|by subst|by apply Hi|by subst].
Qed.

Lemma fold_push_streamed inputs through accepts es :
  streamed inputs through es (fold_left (fork_push inputs) es (fork_replay_stream_new through accepts)).
Proof.
  induction es as [|e es IH] using rev_ind; [split; [done|done|by apply not_elem_of_nil|done|by left]|].
  rewrite fold_left_app. by apply fork_push_streamed.
Qed.

(** Only a stream that went to its end completes, with a record for each event. *)
Lemma complete_streamed inputs through es s :
  streamed inputs through es s ->
  exists records r, fork_complete s = (records, r) /\ len records <= len es + 1 /\
    (ReplayComplete ∈ records ->
     r = Ok tt /\ records = stream_records inputs through es ++ [ReplayComplete] /\
     exists e, e ∈ es /\ ev_revision e = through).
Proof.
  intros [Ht Hre Hi Hlen Hs]. unfold fork_complete.
  destruct (fs_reached_through s); cbn [negb]; [|do 2 eexists; split; [reflexivity|]; split; [lia|by intros Hin%Hi]].
  destruct (fs_created s); cbn [negb]; [|do 2 eexists; split; [reflexivity|]; split; [lia|by intros Hin%Hi]].
  do 2 eexists. split; [reflexivity|]. unfold fork_send.
  destruct Hs as [[_ Es]|[_ Ea]]; [|rewrite Ea; cbn; split; [lia|by intros Hin%Hi]].
  symmetry in Hre. apply existsb_exists in Hre as (e & Hin%list_elem_of_In & Ee%bool_decide_eq_true).
  destruct (fs_accepts s) as [[|n]|]; cbn; [split; [lia|by intros Hc%Hi]|rewrite length_app; cbn; split; [lia|]..];
    rewrite Es; eauto 6.
Qed.

Lemma replay_facts_complete transform revision seen records facts :
  replay_facts transform revision seen records = Some facts -> ReplayComplete ∈ records.
Proof.
  revert revision seen facts. induction records as [|[source workspace|origin command|] records IH]; intros revision seen facts; try done.
  - cbn [replay_facts]. intros E. apply list_elem_of_further. destruct (transform _ _) as [[transformed|]|err]; [|by eapply IH|discriminate E].
    destruct (replay_facts transform _ _ records) as [more|] eqn:Em; [|done]. by eapply IH.
  - intros _. apply list_elem_of_here.
Qed.

(** ** The records of a thread *)

Lemma stream_records_through inputs through es :
  numbered 0 es ->
  stream_records inputs through es = omap (fun e => fst (fork_record inputs e)) (take (Z.to_nat (rev through)) es).
Proof.
  intros Hn. induction es as [|e es IH] using rev_ind; [by rewrite take_nil|].
  rewrite stream_records_snoc. apply numbered_split in Hn as [Hn He]. rewrite (IH Hn).
  pose proof (He 0%nat e eq_refl) as Er. pose proof (rev_bounds through).
  destruct (Z.ltb_spec (rev through) (rev (ev_revision e))) as [Hlt|Hle]; cbn [option_list].
  - rewrite app_nil_r, take_app_le; [done|lia].
  - rewrite !take_ge by (rewrite ?length_app; cbn; lia). rewrite omap_app. cbn [omap list_omap].
    by destruct (fst (fork_record inputs e)).
Qed.

(** What a replay of the commands of some events adds, when it keeps them all. *)
Definition kept_facts (inputs : ForkInputs) (es : list ThreadEventEnvelope) : list ThreadEventBody :=
  omap (fun e => kept_fact inputs (fi_item inputs (ev_revision e)) (ev_body e)) es.

Lemma replay_keeps_facts inputs es revision seen :
  Forall (fun e => is_created e = false) es ->
  replay_facts keep_commands revision seen (omap (fun e => fst (fork_record inputs e)) es ++ [ReplayComplete])
    = Some (rebased_facts revision (kept_facts inputs es)).
Proof.
  intros Hes. revert revision seen. induction Hes as [|e es He _ IH]; intros revision seen; [done|].
  assert (Er : fst (fork_record inputs e)
            = ReplayCommand (ev_revision e) <$> replay_command inputs (fi_item inputs (ev_revision e)) (ev_body e)).
  { unfold fork_record, is_created in *. by destruct (ev_body e). }
  unfold kept_facts. cbn [omap list_omap]. rewrite Er.
  pose proof (replay_command_kept inputs (fi_item inputs (ev_revision e)) (ev_body e)) as Ek.
  destruct (replay_command inputs (fi_item inputs (ev_revision e)) (ev_body e)) as [command|] eqn:Ec; cbn in Ek |- *.
  - destruct (kept_fact inputs _ (ev_body e)) as [fact|]; [|done]. injection Ek as Ek.
    rewrite (rebase_added _ _ _ _ _ Ec), Ek. cbn. by rewrite IH.
  - destruct (kept_fact inputs _ (ev_body e)); [done|]. apply IH.
Qed.

Lemma first_record inputs e :
  is_created e = true -> rev (ev_revision e) = 1 ->
  exists source workspace parent, ev_body e = ThreadCreated source workspace parent /\
    fst (fork_record inputs e) = Some (ReplayCreated source workspace).
Proof.
  unfold is_created, fork_record. intros Hc Hr. destruct (ev_body e) as [source workspace parent| | | | | | | | | | | | | | | | | | | | | | | | | | |]; try done.
  exists source, workspace, parent. split; [done|]. rewrite bool_decide_eq_true_2; [done|].
  rewrite <- (revision_of_rev (ev_revision e)). by rewrite Hr.
Qed.

(** * Commands under new identifiers *)

Section Commands.
Context (cfg : JournalConfig).

(** The receipt of a committed batch ends at its last event. *)
Lemma committed_receipt_end batch durability f r e :
  committed_frame_of cfg batch durability f -> frame_receipt f = Some r ->
  list.last (jb_events batch) = Some e -> r_revision_after r = ev_revision e.
Proof.
  intros (enc & He & ->) Hr Hl. unfold frame_receipt, frame_of in Hr. cbn [fr_stored] in Hr.
  rewrite into_receipt_normalized in Hr.
  apply encode_batch_Ok in He as (first & last & n & _ & _ & Es & _). rewrite Es in Hr.
  unfold into_receipt, derive_receipt in Hr. cbn in Hr. injection Hr as <-. cbn.
  by rewrite fmap_last, Hl.
Qed.

Lemma numbered_last es e : numbered 0 es -> list.last es = Some e -> rev (ev_revision e) = len es.
Proof.
  intros Hn Hl. rewrite last_lookup in Hl. pose proof (lookup_lt_Some _ _ _ Hl). rewrite (Hn _ _ Hl). lia.
Qed.

(** What a command adds, and where its receipt ends. *)
Lemma fresh_command_result draws actor corr command mode frames frames' o :
  execute_spec cfg tid draws actor corr command mode frames frames' (Ok o) ->
  frames_ok cfg tid HEAD_EMPTY frames' -> dr_command_id draws ∉ map frame_id frames ->
  map ev_body (frames_events frames')
    = map ev_body (frames_events frames) ++ (if is_empty frames then event_bodies command else added_bodies command) /\
  rev (r_revision_after (co_receipt o)) = len (frames_events frames').
Proof.
  intros Hs Hok Hfresh. pose proof (execute_spec_events _ _ _ _ _ _ _ _ _ _ Hs) as [Hcat _].
  pose proof (frames_numbered _ _ _ _ Hok) as Hn. pose proof (frames_ok_end _ _ _ _ Hok) as Hend.
  change (rev (head_revision HEAD_EMPTY)) with 0 in Hn, Hend. change (concat (map frame_events frames')) with (frames_events frames') in *.
  assert (Hhead : forall now, frames' = frames -> frames <> [] -> added_bodies command = [] ->
            map ev_body (frames_events frames') = map ev_body (frames_events frames) ++
              (if is_empty frames then event_bodies command else added_bodies command) /\
            rev (r_revision_after (co_receipt (no_op_at tid draws actor corr command (last_head HEAD_EMPTY frames) now)))
              = len (frames_events frames')).
  { intros now E Hne Hadd. subst frames'. replace (is_empty frames) with false by (by destruct frames).
    rewrite Hadd, app_nil_r. split; [done|]. cbn [co_receipt no_op_at receipt_no_op r_revision_after]. lia. }
  inversion Hs as [|now Hnow Hcr Hne E| |now Hnow Hcr Hne Hnil E| |now events frames1 r Hnow Hiff Hne Ee Ha Ef Er].
  - subst frames. apply (Hhead now); try done. unfold added_bodies. by rewrite Hcr.
  - subst frames. apply (Hhead now); try done. unfold added_bodies. by rewrite Hcr.
  - subst frames1. clear Hhead. apply events_at_facts in Ee as (_ & Hb & _).
    inversion Ha as [f r' Hin Hid ? ?|? ? ? ?|? ?|? ? ?|? ? ? ? ?|f r' ? ? Hf Hr Hbf Ef]; subst r; try discriminate Er.
    { subst frames. destruct Hfresh. apply list_elem_of_fmap. exists f. by split. }
    injection Er as <-. subst frames'. cbn [co_receipt co_events] in *. rewrite Hcat at 1. rewrite map_app, Hb. split.
    + f_equal. unfold added_bodies. destruct frames as [|f0 fs]; [done|]. cbn [is_empty].
      destruct (is_create command) eqn:Ec; [|done]. by pose proof (proj1 Hiff eq_refl).
    + destruct (list.last events) as [e|] eqn:El.
      2: { apply last_None in El. subst events. cbn in Hb. by rewrite <- Hb in Hne. }
      rewrite (committed_receipt_end _ _ _ _ e Hf Hr El). apply (numbered_last _ _ Hn).
      rewrite Hcat. by rewrite last_app, El.
Qed.

(** So many commands drawn from a point on are new to a journal, and distinct. *)
Definition new_draws (inputs : ForkInputs) (calls count : nat) (layout : Layout) : Prop :=
  (forall k, (calls <= k < calls + count)%nat -> dr_command_id (fi_draws inputs k) ∉ map frame_id (concat layout)) /\
  (forall k k', (calls <= k < k')%nat -> (k' < calls + count)%nat ->
     dr_command_id (fi_draws inputs k) <> dr_command_id (fi_draws inputs k')).

Lemma new_draws_fewer inputs calls count count' layout :
  new_draws inputs calls count layout -> (count' <= count)%nat -> new_draws inputs calls count' layout.
Proof. intros [Hnew Hdist] Hle. split; intros; [apply Hnew|apply Hdist]; lia. Qed.

Lemma new_draws_next inputs calls count layout layout' actor corr command mode r :
  new_draws inputs calls (S count) layout ->
  execute_spec cfg tid (fi_draws inputs calls) actor corr command mode (concat layout) (concat layout') r ->
  new_draws inputs (S calls) count layout'.
Proof.
  intros [Hnew Hdist] Hs. split; [|intros k k' Hk Hk'; apply Hdist; lia]. intros k Hk Hin.
  apply list_elem_of_fmap in Hin as (f & Ef & Hf). destruct (spec_commands _ _ _ _ _ _ _ _ _ _ Hs f Hf) as [Hold|E].
  - apply (Hnew k); [lia|]. apply list_elem_of_fmap. by exists f.
  - apply (Hdist calls k); [lia|lia|]. congruence.
Qed.

(** One command of a replay. *)
Lemma replay_step inputs calls count actor corr command mode layout l d db :
  live_inv cfg tid layout l d -> append_room cfg (lt_journal l) layout -> new_draws inputs calls (S count) layout ->
  exists l' layout' d' db' r,
    execute (fi_draws inputs calls) actor corr command mode (l, d, db) = ((l', d', db'), r) /\
    live_inv cfg tid layout' l' d' /\ grows (lt_journal l) layout (lt_journal l') layout' /\
    tj_process (lt_journal l') = tj_process (lt_journal l) /\ new_draws inputs (S calls) count layout' /\
    (exists es, layout_events layout' = layout_events layout ++ es) /\
    (forall receipt, r = Ok receipt ->
       map ev_body (layout_events layout') = map ev_body (layout_events layout) ++
         (if is_empty (layout_events layout) then event_bodies command else added_bodies command) /\
       rev (r_revision_after receipt) = len (layout_events layout') /\
       (in_step tid (layout_events layout) db -> fits_index (layout_events layout') ->
        in_step tid (layout_events layout') db')).
Proof.
  intros Hl Hroom Hnew.
  destruct (execute_run cfg tid (fi_draws inputs calls) actor corr command mode layout l d db Hl Hroom)
    as (l' & layout' & d' & db' & ro & r & Hrun & Hspec & Hl' & (_ & Hproc & Hg) & Hrec & Hans).
  exists l', layout', d', db', r. do 4 (split; [done|]). split; [by eapply new_draws_next|].
  split; [by eapply spec_extends|]. intros receipt ->.
  destruct (Hrec receipt eq_refl) as (o & -> & ->).
  assert (Hok : frames_ok cfg tid HEAD_EMPTY (concat layout'))
    by apply (layout_frames_ok _ _ _ _ _ (ji_layout _ _ _ _ _ (li_journal _ _ _ _ _ Hl'))).
  assert (Hok0 : frames_ok cfg tid HEAD_EMPTY (concat layout))
    by apply (layout_frames_ok _ _ _ _ _ (ji_layout _ _ _ _ _ (li_journal _ _ _ _ _ Hl))).
  destruct (fresh_command_result _ _ _ _ _ _ _ _ Hspec Hok (proj1 Hnew calls ltac:(lia))) as [Hb Hend].
  split; [|split; [done|]].
  - rewrite !layout_events_frames, Hb. f_equal.
    replace (is_empty (frames_events (concat layout))) with (is_empty (concat layout)); [done|].
    pose proof (frames_events_nil cfg tid _ Hok0) as Hnil. destruct (concat layout) as [|f0 fs]; [done|].
    destruct (frames_events (f0 :: fs)); [by specialize (Hnil eq_refl)|done].
  - intros [Hs Hw] Hfit. destruct (Hans (shows_honest _ _ _ Hs) Hfit) as (Hw' & _ & _ & Hres).
    destruct Hres as [(_ & Hnil & Hsome)|[_ Hnw]]; [|by destruct (Hnw Hw)]. split; [|by apply Hw'].
    destruct (decide (co_events o = [])) as [E|Hne]; [|by apply Hsome]. rewrite (Hnil E).
    pose proof (execute_spec_events _ _ _ _ _ _ _ _ _ _ Hspec) as [Hcat _].
    rewrite E, app_nil_r in Hcat. by rewrite layout_events_frames, Hcat.
Qed.

(** What a replay of the records establishes: a success adds the facts of a
    whole replay and leaves nothing to sync. *)
Definition replays transform revision seen records layout l db
    (run : (LiveThreadStore * Disk * Db) * result ThreadStoreError unit) : Prop :=
  exists l' layout' d' db' r,
    run = ((l', d', db'), r) /\
    live_inv cfg tid layout' l' d' /\ len layout' <= len layout + len records /\
    tj_process (lt_journal l') = tj_process (lt_journal l) /\
    (exists es, layout_events layout' = layout_events layout ++ es) /\
    (r = Ok tt ->
       (exists facts, replay_facts transform revision seen records = Some facts /\
          map ev_body (layout_events layout') = map ev_body (layout_events layout) ++ facts) /\
       val (tj_dirty_batch_count (lt_journal l')) = 0 /\
       (in_step tid (layout_events layout) db -> fits_index (layout_events layout') ->
        in_step tid (layout_events layout') db')).

Lemma replays_stop transform revision seen records layout l d db e :
  live_inv cfg tid layout l d -> replays transform revision seen records layout l db ((l, d, db), Err e).
Proof.
  intros Hl. exists l, layout, d, db, (Err e). do 2 (split; [done|]). split; [lia|]. split; [done|].
  split; [exists []; by rewrite app_nil_r|done].
Qed.

Lemma replays_end transform revision seen records layout l d db :
  live_inv cfg tid layout l d -> replay_facts transform revision seen records = Some [] ->
  replays transform revision seen records layout l db ((_ ← live_sync; mret tt) (l, d, db)).
Proof.
  intros Hl Hfacts. destruct (sync_run cfg tid (lt_journal l) layout d) as (j' & d' & Hrun & Hj' & Hsame & Hp & _ & Hdirty & _);
    [apply Hl|apply Hl|].
  exists (with_journal j' l), layout, d', db, (Ok tt). split.
  { unfold live_sync, mbind at 1, M_bind at 1, mbind, M_bind, on_journal, map_error. by rewrite Hrun. }
  destruct Hl as [Hid Hj Hd Hte]. split; [split; [done|done|unfold healthy; rewrite (se_faults _ _ Hsame); done|done]|]. split; [lia|].
  split; [done|]. split; [exists []; by rewrite app_nil_r|]. intros _. split; [|done].
  exists []. by rewrite app_nil_r.
Qed.

(** The loop over the records of a replay. *)
Lemma replay_loop_run inputs source_id transform records revision calls seen layout l d db :
  live_inv cfg tid layout l d -> calls_room cfg (len records) l layout -> new_draws inputs calls (length records) layout ->
  rev revision = len (layout_events layout) -> layout_events layout <> [] ->
  replays transform (rev revision) seen records layout l db
    (replay_loop inputs source_id transform revision calls seen records (l, d, db)).
Proof.
  revert revision calls seen layout l d db.
  induction records as [|record records IH]; intros revision calls seen layout l d db Hl Hroom Hnew Hrev Hne;
    [by apply replays_stop|].
  destruct record as [source workspace|origin command|]; [by apply replays_stop| |by apply replays_end].
  cbn [replay_loop]. unfold replays. cbn [replay_facts]. rewrite revision_of_rev.
  set (c := rebase_fork_command revision command). cbn [length] in Hroom.
  assert (Hlen : forall (layout' : Layout), len layout' <= len layout + len records -> len layout' <= len layout + len (ReplayCommand origin command :: records))
    by (cbn [length]; lia).
  destruct (transform seen c) as [[transformed|]|err]; [|..].
  - destruct (replay_step inputs calls (length records) ActorSystem (Some (fork_correlation inputs source_id origin)) transformed
                CommitBuffered layout l d db Hl)
      as (l1 & layout1 & d1 & db1 & r1 & Hrun & Hl1 & Hg & Hp & Hnew1 & [es1 Ees1] & Hok); [|done|].
    { eapply calls_room_append; [done|lia]. }
    pose proof (calls_room_grows _ _ _ _ _ _ Hroom Hg) as Hroom1.
    replace (Z.of_nat (S (length records)) - 1) with (len records) in Hroom1 by lia.
    erewrite M_bind_run by reflexivity.
    destruct r1 as [receipt|err].
    2: { erewrite M_bind_fails by exact Hrun.
         exists l1, layout1, d1, db1, (Err err). do 2 (split; [done|]). destruct Hg as [Hg _].
         split; [cbn [length]; lia|]. split; [done|]. split; [by exists es1|done]. }
    erewrite M_bind_run by exact Hrun. destruct (Hok receipt eq_refl) as (Hb & Hend & Hstep). clear Hok.
    destruct (IH (r_revision_after receipt) (S calls) (seen ++ [c]) layout1 l1 d1 db1 Hl1 Hroom1 Hnew1 Hend)
      as (l' & layout' & d' & db' & r & Hrest & Hl' & Hlen' & Hp' & [es Ees] & Hres).
    { rewrite Ees1. by destruct (layout_events layout). }
    exists l', layout', d', db', r. split; [exact Hrest|]. split; [done|]. destruct Hg as [Hg _].
    split; [cbn [length]; lia|]. split; [congruence|]. split; [exists (es1 ++ es); by rewrite Ees, Ees1, app_assoc|].
    intros Er. destruct (Hres Er) as ((facts & Hf & Ef) & Hdirty & Hin).
    replace (is_empty (layout_events layout)) with false in Hb by (by destruct (layout_events layout)).
    split; [|split; [done|]].
    + exists (added_bodies transformed ++ facts). split; [|by rewrite Ef, Hb, app_assoc].
      apply (f_equal length) in Hb. rewrite length_app, !length_map in Hb.
      replace (rev revision + len (added_bodies transformed)) with (rev (r_revision_after receipt)) by lia. by rewrite Hf.
    + intros Hs Hfit. apply Hin; [|done]. apply Hstep; [done|]. rewrite Ees in Hfit. by eapply fits_index_prefix.
  - erewrite M_bind_run by reflexivity.
    destruct (IH revision calls (seen ++ [c]) layout l d db Hl) as (l' & layout' & d' & db' & r & Hrun & Hl' & Hlen' & Hrest);
      [| |done..|].
    { destruct Hroom as (Hf & Hx & Hy). split; [done|]. lia. }
    { eapply new_draws_fewer; [done|cbn; lia]. }
    exists l', layout', d', db', r. split; [exact Hrun|]. split; [done|]. split; [by apply Hlen|]. exact Hrest.
  - erewrite M_bind_fails by reflexivity. exists l, layout, d, db, (Err err). do 2 (split; [done|]). split; [lia|].
    split; [done|]. split; [exists []; by rewrite app_nil_r|done].
Qed.

End Commands.

(** * The target *)

(** Its directory is gone, and so is its row, unless the database failed. *)
Definition discarded (d : Disk) (db : Db) : Prop :=
  (d_files d = ∅ /\ db_rows db !! tid = None) \/
  exists db0 s, index_remove tid db0 = (db, Err (Index s)) /\ ~ db_works db0.

Lemma delete_thread_run d db :
  healthy d -> exists d' db' r, delete_thread tid true (d, db) = ((d', db'), r) /\ discarded d' db'.
Proof.
  intros Hd. unfold delete_thread. cbn [negb].
  destruct (sql_delete tid db) as [db1 r1] eqn:E. pose proof (sql_delete_law _ _ _ _ E) as [_ Hr].
  assert (Er : index_remove tid db = (db1, map_err Index r1)) by (unfold index_remove, map_error; by rewrite E).
  destruct r1 as [n|s]; cbn [map_err] in Er.
  - erewrite M_bind_run by exact (in_index_run _ d _ _ _ Er).
    do 3 eexists. split; [unfold mbind, M_bind, in_directory, fs_remove_dir_all, take_fault; rewrite Hd; reflexivity|].
    left. split; [done|]. destruct Hr as [-> _]. apply lookup_delete_eq.
  - erewrite M_bind_fails by exact (in_index_run _ d _ _ _ Er). do 3 eexists. split; [reflexivity|].
    right. exists db, s. split; [done|]. apply Hr.
Qed.

(** On any directory and database: what a removal leaves, whether it fails or not. *)
Lemma delete_thread_any d db :
  let '((d', db'), r) := delete_thread tid true (d, db) in
  match r with
  | Ok _ => d_files d' = ∅ /\ db_rows db' !! tid = None
  | Err (Index _) => d' = d /\ ~ db_works db
  | Err _ => db_rows db' !! tid = None /\ d_files d' ⊆ d_files d /\ exists k, head (d_faults d) = Some (Some k)
  end.
Proof.
  unfold delete_thread. cbn [negb]. destruct (sql_delete tid db) as [db1 r1] eqn:E.
  pose proof (sql_delete_law _ _ _ _ E) as [_ Hr].
  assert (Er : index_remove tid db = (db1, map_err Index r1)) by (unfold index_remove, map_error; by rewrite E).
  destruct r1 as [n|s]; cbn [map_err] in Er.
  - erewrite M_bind_run by exact (in_index_run _ d _ _ _ Er).
    assert (Hrow : db_rows db1 !! tid = None) by (destruct Hr as [-> _]; apply lookup_delete_eq).
    unfold mbind, M_bind, in_directory, fs_remove_dir_all, take_fault.
    destruct (d_faults d) as [|[k|] faults] eqn:Ef; cbn; [by split|split; [done|]|by split].
    split; [|by exists k]. intros name. unfold option_relation.
    destruct (list_to_map (drop k (map_to_list (d_files d))) !! name) as [content|] eqn:El; [|by destruct (d_files d !! name)].
    apply elem_of_list_to_map_2 in El.
    assert (Hin : (name, content) ∈ map_to_list (d_files d)).
    { rewrite <- (take_drop k (map_to_list (d_files d))). apply elem_of_app. by right. }
    apply elem_of_map_to_list in Hin. by rewrite Hin.
  - erewrite M_bind_fails by exact (in_index_run _ d _ _ _ Er). split; [done|]. apply Hr.
Qed.

(** The creation of the target and the replay on it. *)
Lemma replay_on_target_run inputs source_id through transform source workspace records layout l d db :
  let cfg := journal_config_new root in
  live_inv cfg tid layout l d -> calls_room cfg (1 + len records) l layout -> new_draws inputs 0 (S (length records)) layout ->
  layout_events layout = [] ->
  exists l' layout' d' db' r,
    replay_on_target inputs source_id through transform source workspace records (l, d, db) = ((l', d', db'), r) /\
    live_inv cfg tid layout' l' d' /\ len layout' <= len layout + 1 + len records /\
    tj_process (lt_journal l') = tj_process (lt_journal l) /\
    (r = Ok tt ->
       (exists facts, replay_facts transform 1 [] records = Some facts /\
          map ev_body (layout_events layout')
            = ThreadCreated source workspace (Some {| ref_thread_id := source_id; ref_revision := through |}) :: facts) /\
       val (tj_dirty_batch_count (lt_journal l')) = 0 /\
       (in_step tid [] db -> fits_index (layout_events layout') -> in_step tid (layout_events layout') db')).
Proof.
  intros cfg Hl Hroom Hnew Hnil.
  destruct (replay_step cfg inputs 0 (length records) ActorRuntime None
              (Create source workspace (Some {| ref_thread_id := source_id; ref_revision := through |})) CommitDurable
              layout l d db Hl) as (l1 & layout1 & d1 & db1 & r1 & Hrun & Hl1 & Hg & Hp & Hnew1 & _ & Hok); [|done|].
  { eapply calls_room_append; [done|lia]. }
  pose proof (calls_room_grows _ _ _ _ _ _ Hroom Hg) as Hroom1.
  replace (1 + len records - 1) with (len records) in Hroom1 by lia.
  unfold replay_on_target, ensure_created. destruct r1 as [receipt|err].
  2: { erewrite M_bind_fails by exact Hrun. exists l1, layout1, d1, db1, (Err err). destruct Hg as [Hg _].
       do 2 (split; [done|]). split; [lia|done]. }
  erewrite M_bind_run by exact Hrun. destruct (Hok receipt eq_refl) as (Hb & Hend & Hstep). clear Hok.
  rewrite Hnil in Hb, Hstep. cbn in Hb.
  destruct (replay_loop_run cfg inputs source_id transform records (r_revision_after receipt) 1 [] layout1 l1 d1 db1
              Hl1 Hroom1 Hnew1 Hend) as (l' & layout' & d' & db' & r & Hrest & Hl' & Hlen' & Hp' & [es Ees] & Hres).
  { intros E. by rewrite E in Hb. }
  exists l', layout', d', db', r. destruct Hg as [Hg _]. do 2 (split; [done|]). split; [lia|]. split; [congruence|].
  intros Er. destruct (Hres Er) as ((facts & Hf & Ef) & Hdirty & Hin). split; [|split; [done|]].
  - exists facts. rewrite Ef, Hb. split; [|done]. rewrite <- Hf. f_equal. rewrite Hend.
    apply (f_equal length) in Hb. rewrite length_map in Hb. by rewrite Hb.
  - intros Hs Hfit. apply Hin; [|done]. apply Hstep; [done|]. rewrite Ees in Hfit. by eapply fits_index_prefix.
Qed.

(** What is left of a target whose replay fails. *)
Inductive fork_refused (process : nat) (layout : Layout) (d : Disk) (db : Db) : Disk -> Db -> ThreadStoreError -> Prop :=
  | refused_records e : fork_refused process layout d db d db e
  | refused_open d' db' s : ~ db_works db -> fork_refused process layout d db d' db' (Index s)
  | refused_exists d' db' :
      layout_events layout <> [] -> closed root tid process layout d' ->
      fork_refused process layout d db d' db' ThreadAlreadyExists
  | refused_replay d' db' e :
      layout_events layout = [] -> discarded d' db' -> fork_refused process layout d db d' db' e.

(** What the open target of a fork holds. *)
Definition fork_made (process : nat) (inputs : ForkInputs) source_id through transform (records : list ForkReplayRecord)
    (db : Db) (target : LiveThreadStore) (d' : Disk) (db' : Db) : Prop :=
  exists source workspace rest layout' facts,
    records = ReplayCreated source workspace :: rest /\ replay_facts transform 1 [] rest = Some facts /\
    live_inv (journal_config_new root) tid layout' target d' /\ tj_process (lt_journal target) = process /\
    val (tj_dirty_batch_count (lt_journal target)) = 0 /\
    map ev_body (layout_events layout')
      = ThreadCreated source workspace (Some {| ref_thread_id := source_id; ref_revision := through |}) :: facts /\
    (db_works db -> fits_index (layout_events layout') -> in_step tid (layout_events layout') db').

Lemma head_empty_events cfg layout (l : LiveThreadStore) d :
  live_inv cfg tid layout l d ->
  bool_decide (tj_head (lt_journal l) = HEAD_EMPTY) = is_empty (layout_events layout).
Proof.
  intros Hl. pose proof (li_journal _ _ _ _ _ Hl) as Hj. pose proof (layout_frames_ok _ _ _ _ _ (ji_layout _ _ _ _ _ Hj)) as Hok.
  rewrite (ji_head _ _ _ _ _ Hj), (frames_head_empty cfg tid _ Hok).
  pose proof (frames_events_nil cfg tid _ Hok) as Hnil. rewrite layout_events_frames.
  destruct (concat layout) as [|f0 fs]; [done|]. destruct (frames_events (f0 :: fs)); [by specialize (Hnil eq_refl)|done].
Qed.

Lemma replay_fork_records_run process inputs source_id through transform records layout d db :
  closed root tid process layout d -> indexable (layout_events layout) -> recoverable_index tid db (layout_events layout) ->
  new_draws inputs 0 (length records) layout -> len layout + len records + 1 < 2 ^ 64 ->
  exists d' db' r,
    replay_fork_records process root inputs source_id through tid records transform (d, db) = ((d', db'), r) /\
    match r with
    | Ok target => layout_events layout = [] /\
                   fork_made process inputs source_id through transform records db target d' db'
    | Err e => fork_refused process layout d db d' db' e
    end.
Proof.
  intros Hcl Hix Hri Hnew Hlen. unfold replay_fork_records.
  destruct records as [|[source workspace|origin command|] records];
    try (do 3 eexists; split; [reflexivity|apply refused_records]).
  destruct (open_thread_run root tid process layout d db Hcl Hix Hri) as (d1 & db1 & r1 & Hopen & Hw & Hr1).
  destruct r1 as [target|err].
  2: { exists d1, db1, (Err err). split; [by erewrite M_bind_fails by exact Hopen|].
       destruct Hr1 as ([s ->] & Hnw & _). by apply refused_open. }
  destruct Hr1 as (Hl & [Hproc Hdirty] & _ & Hs & _). erewrite M_bind_run by exact Hopen.
  rewrite (head_empty_events _ _ _ _ Hl). destruct (layout_events layout) as [|e es] eqn:Enil; cbn [is_empty negb].
  2: { do 3 eexists. split; [by erewrite M_bind_run by reflexivity|].
       apply refused_exists; [by rewrite Enil|]. rewrite <- Hproc. apply dropped_closed; [exact Hl|lia]. }
  destruct (replay_on_target_run inputs source_id through transform source workspace records layout target d1 db1 Hl)
    as (l' & layout' & d2 & db2 & r & Hrun & Hl' & _ & Hp & Hres); [|done|done|].
  { split; [apply default_config_room|]. rewrite Hdirty. cbn [length] in Hlen. split; [lia|]. cbn. lia. }
  rewrite Hrun. destruct r as [u|err].
  - do 3 eexists. split; [reflexivity|]. cbn. split; [done|]. destruct u.
    destruct (Hres eq_refl) as ((facts & Hf & Eb) & Hd & Hin).
    exists source, workspace, records, layout', facts. do 3 (split; [done|]). split; [congruence|].
    do 2 (split; [done|]). intros Hworks. apply Hin. split; [done|]. by apply Hw.
  - assert (Hd : healthy (drop_journal (lt_journal l') d2)) by apply (li_healthy _ _ _ _ _ Hl').
    destruct (delete_thread_run _ db2 Hd) as (d3 & db3 & r3 & Hdel & Hdisc).
    exists d3, db3, (Err err). split; [by rewrite Hdel|]. by apply refused_replay.
Qed.

End Facts.

(** * The whole fork *)

Section Fork.
Context `{External, JsonCodec, SqliteLaws} (root : string) (source_id target_id : ThreadId).

(** What a fork through a revision holds of the events of its source. *)
Definition fork_copy (inputs : ForkInputs) (through : ThreadRevision) (es : list ThreadEventEnvelope) : list ThreadEventBody :=
  match take (Z.to_nat (rev through)) es with
  | e :: rest =>
      match ev_body e with
      | ThreadCreated source workspace _ =>
          ThreadCreated source workspace (Some {| ref_thread_id := source_id; ref_revision := through |})
            :: rebased_facts 1 (kept_facts inputs rest)
      | _ => []
      end
  | [] => []
  end.

Lemma fork_copy_records inputs through es source workspace rest facts :
  thread_events source_id es -> stream_records inputs through es ++ [ReplayComplete] = ReplayCreated source workspace :: rest ->
  replay_facts keep_commands 1 [] rest = Some facts ->
  fork_copy inputs through es
    = ThreadCreated source workspace (Some {| ref_thread_id := source_id; ref_revision := through |}) :: facts.
Proof.
  intros Hte. rewrite (stream_records_through inputs through es (te_numbered _ _ Hte)). unfold fork_copy.
  pose proof (te_created _ _ Hte) as Hcr. pose proof (te_numbered _ _ Hte) as Hn.
  rewrite <- (take_drop (Z.to_nat (rev through)) es) in Hcr, Hn.
  destruct (take (Z.to_nat (rev through)) es) as [|e es1]; [done|].
  destruct (first_record inputs e) as (source1 & workspace1 & parent & Eb & Er);
    [apply (Hcr 0%nat); done|rewrite (Hn 0%nat e eq_refl); done|].
  cbn [omap list_omap]. rewrite Er, Eb. cbn [app]. intros [= -> -> <-].
  rewrite replay_keeps_facts; [by intros [= ->]|]. apply list.Forall_lookup. intros k e1 Hk.
  apply (Hcr (S k) e1). cbn. by apply lookup_app_l_Some.
Qed.

Lemma fork_thread_run process source_process inputs through transform source_layout source_disk layout target_disk db :
  closed root source_id source_process source_layout source_disk ->
  closed root target_id process layout target_disk -> indexable (layout_events layout) ->
  recoverable_index target_id db (layout_events layout) -> new_draws inputs 0 (length (layout_events source_layout) + 1) layout ->
  len layout + len (layout_events source_layout) + 2 < 2 ^ 64 ->
  exists target_disk' db' r,
    fork_thread process root inputs source_id true through target_id transform (source_disk, target_disk, db)
      = ((source_disk, target_disk', db'), r) /\
    match r with
    | Ok target =>
        layout_events layout = [] /\ (exists e, e ∈ layout_events source_layout /\ ev_revision e = through) /\
        fork_made root target_id process inputs source_id through transform
          (stream_records inputs through (layout_events source_layout) ++ [ReplayComplete]) db target target_disk' db'
    | Err _ => exists e, fork_refused root target_id process layout target_disk db target_disk' db' e
    end.
Proof.
  intros Hsrc Hcl Hix Hri Hnew Hlen. unfold fork_thread. cbn [negb].
  rewrite (consume_snapshot_run (journal_config_new root) source_id (fork_push inputs)
             (fork_replay_stream_new through (fi_accepts inputs)) source_layout source_disk)
    by (apply Hsrc || apply default_config_valid).
  destruct (complete_streamed inputs through (layout_events source_layout) _
              (fold_push_streamed inputs through (fi_accepts inputs) (layout_events source_layout)))
    as (records & sr & -> & Hrl & Hcomplete).
  destruct (replay_fork_records_run root target_id process inputs source_id through transform records layout target_disk db
              Hcl Hix Hri) as (d' & db' & r & -> & Hr); [eapply new_draws_fewer; [done|lia]|lia|].
  destruct r as [target|err].
  - destruct Hr as [Hnil Hmade]. pose proof Hmade as (source & workspace & rest & layout' & facts & Er & Hf & _).
    destruct Hcomplete as (-> & Erec & Hthrough).
    { rewrite Er. apply list_elem_of_further. by eapply replay_facts_complete. }
    exists d', db', (Ok target). split; [done|]. by rewrite <- Erec.
  - exists d', db', (match sr with Err e => Err e | Ok _ => Err err end).
    destruct sr; (split; [done|by exists err]).
Qed.

End Fork.
