(* ===== verification/Effects.v ===== *)
(** What a tool call may touch (loop: tool/effects.rs): effects on keys of a
    hierarchy, when two of them conflict, when a plan covers an effect, and the
    journal of the effects a run was seen to have. *)

From S2P Require Import Prelude.

Open Scope string_scope.
Open Scope list_scope.

(** * Definitions *)

Inductive EffectAccess := AccessRead | AccessWrite | AccessExclusive.

#[export] Instance EffectAccess_eq_dec : EqDecision EffectAccess.
Proof. solve_decision. Defined.

Definition access_conflicts (self other : EffectAccess) : bool :=
  negb match self, other with AccessRead, AccessRead => true | _, _ => false end.

Definition access_covers (self actual : EffectAccess) : bool :=
  match self with
  | AccessRead => bool_decide (actual = AccessRead)
  | AccessWrite | AccessExclusive => true
  end.

Record EffectKey := { ek_domain : string; ek_segments : list string }.

#[export] Instance EffectKey_eq_dec : EqDecision EffectKey.
Proof. solve_decision. Defined.

Definition key_root (domain : string) : EffectKey := {| ek_domain := domain; ek_segments := [] |}.

Definition key_hierarchical (domain : string) (segments : list string) : EffectKey :=
  {| ek_domain := domain; ek_segments := segments |}.

Definition is_prefix (prefix value : list string) : bool :=
  (length prefix <=? length value)%nat && forallb (fun '(l, r) => bool_decide (l = r)) (zip prefix value).

Definition key_overlaps (self other : EffectKey) : bool :=
  (bool_decide (ek_domain self = "*") || bool_decide (ek_domain other = "*")
    || bool_decide (ek_domain self = ek_domain other))
  && (is_prefix (ek_segments self) (ek_segments other) || is_prefix (ek_segments other) (ek_segments self)).

Definition key_covers (self actual : EffectKey) : bool :=
  (bool_decide (ek_domain self = "*") || bool_decide (ek_domain self = ek_domain actual))
  && is_prefix (ek_segments self) (ek_segments actual).

Record ToolEffect := { ef_key : EffectKey; ef_access : EffectAccess }.

#[export] Instance ToolEffect_eq_dec : EqDecision ToolEffect.
Proof. solve_decision. Defined.

Definition effect_read (key : EffectKey) : ToolEffect := {| ef_key := key; ef_access := AccessRead |}.
Definition effect_write (key : EffectKey) : ToolEffect := {| ef_key := key; ef_access := AccessWrite |}.
Definition effect_exclusive (key : EffectKey) : ToolEffect := {| ef_key := key; ef_access := AccessExclusive |}.

Definition effect_conflicts (self other : ToolEffect) : bool :=
  key_overlaps (ef_key self) (ef_key other) && access_conflicts (ef_access self) (ef_access other).

Definition effect_covers (self actual : ToolEffect) : bool :=
  key_covers (ef_key self) (ef_key actual) && access_covers (ef_access self) (ef_access actual).

(** [ToolEffects]: the field [effects]. *)
Record ToolEffects := Effects { tool_effects : list ToolEffect }.

#[export] Instance ToolEffects_eq_dec : EqDecision ToolEffects.
Proof. solve_decision. Defined.

Definition effects_read (key : EffectKey) : ToolEffects := Effects [effect_read key].
Definition effects_pure : ToolEffects := Effects [].
Definition effects_write (key : EffectKey) : ToolEffects := Effects [effect_write key].
Definition effects_exclusive (key : EffectKey) : ToolEffects := Effects [effect_exclusive key].
Definition unknown_read : ToolEffects := effects_read (key_root "*").
Definition unknown_write : ToolEffects := effects_write (key_root "*").

Definition conflicts (self other : ToolEffects) : bool :=
  existsb (fun l => existsb (fun r => effect_conflicts l r) (tool_effects other)) (tool_effects self).

Definition covers (self : ToolEffects) (actual : ToolEffect) : bool :=
  existsb (fun planned => effect_covers planned actual) (tool_effects self).

(** The journal: what is behind its mutex. *)
Definition EffectJournal := list ToolEffect.

Definition journal_record (effect : ToolEffect) (recorded : EffectJournal) : EffectJournal :=
  if bool_decide (effect ∈ recorded) then recorded else recorded ++ [effect].

Definition journal_record_all (effects : ToolEffects) (recorded : EffectJournal) : EffectJournal :=
  fold_left (fun recorded effect => journal_record effect recorded) (tool_effects effects) recorded.

Definition journal_snapshot (journal : EffectJournal) : ToolEffects := Effects journal.

Record EffectValidation := { ev_observed : ToolEffects; ev_unexpected : list ToolEffect }.

Definition journal_validate (planned : ToolEffects) (journal : EffectJournal) : EffectValidation :=
  let observed := journal_snapshot journal in
  {| ev_observed := observed;
     ev_unexpected := List.filter (fun effect => negb (covers planned effect)) (tool_effects observed) |}.

Definition is_valid (validation : EffectValidation) : bool :=
  match ev_unexpected validation with [] => true | _ => false end.

(** * Keys as sets of resources *)

Lemma is_prefix_true prefix value : is_prefix prefix value = true <-> prefix `prefix_of` value.
Proof.
  unfold is_prefix. rewrite andb_true_iff, Nat.leb_le. revert value.
  induction prefix as [|a prefix IH]; intros value; cbn; [split; [intros _; apply prefix_nil|split; [lia|done]]|].
  destruct value as [|b value]; cbn.
  { split; [lia|]. intros Hp. by apply prefix_nil_not in Hp. }
  rewrite andb_true_iff, bool_decide_eq_true. split.
  - intros (Hl & -> & Hf). apply prefix_cons, IH. split; [lia|done].
  - intros Hp. pose proof (prefix_cons_inv_1 _ _ _ _ Hp) as ->. apply prefix_cons_inv_2, IH in Hp as [Hl Hf].
    split; [lia|done].
Qed.

Definition under_domain (domain : string) (key : EffectKey) : Prop := domain = "*" \/ domain = ek_domain key.

Lemma key_covers_true self actual :
  key_covers self actual = true <-> under_domain (ek_domain self) actual /\ ek_segments self `prefix_of` ek_segments actual.
Proof.
  unfold key_covers, under_domain. by rewrite andb_true_iff, orb_true_iff, !bool_decide_eq_true, is_prefix_true.
Qed.

Lemma key_overlaps_true self other :
  key_overlaps self other = true <->
  (ek_domain self = "*" \/ ek_domain other = "*" \/ ek_domain self = ek_domain other) /\
  (ek_segments self `prefix_of` ek_segments other \/ ek_segments other `prefix_of` ek_segments self).
Proof.
  unfold key_overlaps. rewrite andb_true_iff, !orb_true_iff, !bool_decide_eq_true, !is_prefix_true. tauto.
Qed.

Lemma key_covers_self key : key_covers key key = true.
Proof. apply key_covers_true. split; [by right|done]. Qed.

Lemma key_overlaps_sym self other : key_overlaps self other = key_overlaps other self.
Proof. apply eq_bool_prop_intro. rewrite !Is_true_true, !key_overlaps_true. naive_solver. Qed.

(** Two keys overlap when some resource is under both. *)
Lemma key_overlaps_shared self other :
  key_overlaps self other = true <-> exists key, key_covers self key = true /\ key_covers other key = true.
Proof.
  setoid_rewrite key_covers_true. rewrite key_overlaps_true. split.
  - intros [Hd Hs].
    exists {| ek_domain := if bool_decide (ek_domain self = "*") then ek_domain other else ek_domain self;
              ek_segments := if bool_decide (ek_segments self `prefix_of` ek_segments other)
                             then ek_segments other else ek_segments self |}.
    unfold under_domain. cbn. repeat case_bool_decide; naive_solver.
  - intros (key & [Hd1 Hs1] & [Hd2 Hs2]). unfold under_domain in *. split; [naive_solver congruence|].
    by eapply prefix_weak_total.
Qed.

(** * Conflicts and plans *)

Lemma access_conflicts_sym self other : access_conflicts self other = access_conflicts other self.
Proof. by destruct self, other. Qed.

Lemma effect_conflicts_sym self other : effect_conflicts self other = effect_conflicts other self.
Proof. unfold effect_conflicts. by rewrite key_overlaps_sym, access_conflicts_sym. Qed.

Lemma conflicts_true self other :
  conflicts self other = true <->
  exists l r, l ∈ tool_effects self /\ r ∈ tool_effects other /\ effect_conflicts l r = true.
Proof.
  unfold conflicts. rewrite existsb_exists. setoid_rewrite existsb_exists. setoid_rewrite <- list_elem_of_In.
  naive_solver.
Qed.

Lemma conflicts_sym self other : conflicts self other = conflicts other self.
Proof.
  apply eq_bool_prop_intro. rewrite !Is_true_true, !conflicts_true.
  split; intros (l & r & Hl & Hr & Hc); exists r, l; by rewrite effect_conflicts_sym.
Qed.

Lemma covers_true self actual :
  covers self actual = true <-> exists planned, planned ∈ tool_effects self /\ effect_covers planned actual = true.
Proof. unfold covers. rewrite existsb_exists. by setoid_rewrite <- list_elem_of_In. Qed.

(** What a plan covers conflicts with nothing the plan does not conflict with. *)
Lemma effect_covers_conflicts planned actual other :
  effect_covers planned actual = true -> effect_conflicts actual other = true -> effect_conflicts planned other = true.
Proof.
  unfold effect_covers, effect_conflicts. rewrite !andb_true_iff. intros [Hk Ha] [Ho Hc]. split.
  - apply key_overlaps_true. apply key_covers_true in Hk as [Hd Hs]. apply key_overlaps_true in Ho as [Hd' Hs'].
    unfold under_domain in Hd. split; [naive_solver congruence|].
    destruct Hs' as [Hs'|Hs']; [left; by etrans|by eapply prefix_weak_total].
  - by destruct (ef_access planned), (ef_access actual), (ef_access other).
Qed.

Lemma covers_conflicts plan1 plan2 effect1 effect2 :
  conflicts plan1 plan2 = false -> covers plan1 effect1 = true -> covers plan2 effect2 = true ->
  effect_conflicts effect1 effect2 = false.
Proof.
  intros Hn (p1 & Hp1 & Hc1)%covers_true (p2 & Hp2 & Hc2)%covers_true.
  apply not_true_iff_false. intros Hc. apply not_true_iff_false in Hn. apply Hn, conflicts_true. exists p1, p2.
  split; [done|]. split; [done|]. eapply effect_covers_conflicts; [done|].
  rewrite effect_conflicts_sym. eapply effect_covers_conflicts; [done|]. by rewrite effect_conflicts_sym.
Qed.

Lemma is_valid_true planned journal :
  is_valid (journal_validate planned journal) = true <-> forall effect, effect ∈ journal -> covers planned effect = true.
Proof.
  unfold is_valid, journal_validate, journal_snapshot. cbn. split.
  - intros Hv effect Hin. destruct (covers planned effect) eqn:Ec; [done|].
    assert (In effect (List.filter (fun effect => negb (covers planned effect)) journal)) as Hf
      by (apply List.filter_In; rewrite Ec; split; [by apply list_elem_of_In|done]).
    by destruct (List.filter _ _).
  - intros Hc. induction journal as [|effect journal IH]; [done|]. cbn.
    rewrite Hc by apply elem_of_cons, or_introl, eq_refl. cbn. apply IH. intros e He. apply Hc, elem_of_cons. by right.
Qed.

Lemma journal_record_in effect recorded e : e ∈ journal_record effect recorded <-> e = effect \/ e ∈ recorded.
Proof. unfold journal_record. case_bool_decide; set_solver. Qed.

Lemma journal_record_all_in effects recorded e :
  e ∈ journal_record_all effects recorded <-> e ∈ tool_effects effects \/ e ∈ recorded.
Proof.
  unfold journal_record_all. destruct effects as [l]. cbn. revert recorded.
  induction l as [|effect l IH]; intros recorded; cbn; [set_solver|]. rewrite IH, journal_record_in. set_solver.
Qed.

Lemma journal_record_nodup effect recorded : NoDup recorded -> NoDup (journal_record effect recorded).
Proof.
  unfold journal_record. case_bool_decide; [done|]. intros Hn. apply list.NoDup_app. split; [done|].
  split; [set_solver|]. apply NoDup_singleton.
Qed.
