(* ===== verification/LoopModel.v ===== *)
(** The data of a turn (loop: outcome.rs, model/*.rs, tool/types/*.rs, guard.rs,
    state.rs, state/*.rs, context.rs, decisions/*.rs, services/*.rs, prompt.rs,
    tool/errors.rs): calls, results and items, the state a turn keeps, the limit
    on tool calls, what hooks and services answer, and the prompt made of it. *)

From S2P Require Import Prelude BTree.

Open Scope string_scope.
Open Scope list_scope.
Open Scope Z_scope.

(** * Errors and outcomes *)

Inductive TurnErrorKind := KindCancelled | KindGuard | KindHook | KindInternal | KindModel | KindTool.

Record TurnError := { te_kind : TurnErrorKind; te_message : string }.

Abbreviation LoopResult := (result TurnError).

Definition error_cancelled : TurnError := {| te_kind := KindCancelled; te_message := "turn was cancelled" |}.

(** [{:?}] of the kind. *)
Definition kind_debug (kind : TurnErrorKind) : string :=
  match kind with
  | KindCancelled => "Cancelled"
  | KindGuard => "Guard"
  | KindHook => "Hook"
  | KindInternal => "Internal"
  | KindModel => "Model"
  | KindTool => "Tool"
  end.

Definition error_display (error : TurnError) : string := (kind_debug (te_kind error) ++ ": " ++ te_message error)%string.

Inductive TurnCompletionMessage := NoMessage | Text (text : string).

Definition from_option (message : option string) : TurnCompletionMessage :=
  match message with Some message => Text message | None => NoMessage end.

Definition into_option (message : TurnCompletionMessage) : option string :=
  match message with NoMessage => None | Text message => Some message end.

(** * Tools *)

Record ToolCall := {
  tc_id : string;
  tc_name : string;
  tc_namespace : option string;
  tc_arguments : string;
  tc_metadata : btree string string
}.

Definition tool_call_new (id name : string) : ToolCall :=
  {| tc_id := id; tc_name := name; tc_namespace := None; tc_arguments := ""; tc_metadata := bt_empty |}.

Inductive ToolResultStatus := StatusSuccess | StatusError.

Definition from_error_flag (is_error : bool) : ToolResultStatus := if is_error then StatusError else StatusSuccess.
Definition from_success_flag (success : bool) : ToolResultStatus := if success then StatusSuccess else StatusError.
Definition status_is_error (status : ToolResultStatus) : bool :=
  match status with StatusError => true | StatusSuccess => false end.
Definition status_is_success (status : ToolResultStatus) : bool :=
  match status with StatusSuccess => true | StatusError => false end.

Record ToolResult := { tr_call_id : string; tr_content : string; tr_status : ToolResultStatus }.

Definition with_status (call_id content : string) (status : ToolResultStatus) : ToolResult :=
  {| tr_call_id := call_id; tr_content := content; tr_status := status |}.
Definition result_success (call_id content : string) : ToolResult := with_status call_id content StatusSuccess.
Definition result_error (call_id content : string) : ToolResult := with_status call_id content StatusError.
Definition result_is_error (result : ToolResult) : bool := status_is_error (tr_status result).
Definition result_is_success (result : ToolResult) : bool := status_is_success (tr_status result).

Record ToolProgress := { tp_call_id : string; tp_content : string }.

Record ToolSpec := { ts_name : string; ts_description : string }.

Definition missing_tool_result (call : ToolCall) : ToolResult :=
  result_error (tc_id call) ("tool `" ++ tc_name call ++ "` is not registered")%string.

Definition cancelled_tool_result (call : ToolCall) : ToolResult :=
  result_error (tc_id call) ("tool `" ++ tc_name call ++ "` was cancelled before execution")%string.

Inductive RoundOutcome :=
  | OutcomeEmpty
  | FinalAnswer (message : TurnCompletionMessage)
  | OutcomeFollowupRequired
  | ToolCalls (calls : list ToolCall)
  | TerminatedByTool (message : TurnCompletionMessage).

(** * Items and events *)

Inductive TurnItem :=
  | ItemAssistantText (item_id : option string) (text : string)
  | ItemReasoning (item_id : option string) (text : string)
  | ItemToolCall (call : ToolCall)
  | ItemToolStarted (call_id name : string)
  | ItemToolProgress (call_id content : string)
  | ItemToolResult (result : ToolResult)
  | ItemSystemText (text : string)
  | ItemUserText (text : string).

Inductive PromptItem :=
  | PromptSystemText (text : string)
  | PromptUserText (text : string)
  | PromptAssistantText (text : string)
  | PromptToolCall (call_id name arguments : string)
  | PromptImageUrl (url : string)
  | PromptLocalImagePath (path : string)
  | PromptSkill (name path : string)
  | PromptMention (name path : string)
  | PromptToolResult (call_id content : string) (status : ToolResultStatus)
  | PromptOpaque (format data : string).

Record TokenUsage := { tu_input : u64; tu_output : u64; tu_total : u64; tu_reasoning : u64 }.

Definition usage_zero : TokenUsage :=
  {| tu_input := u64_zero; tu_output := u64_zero; tu_total := u64_zero; tu_reasoning := u64_zero |}.

(** [+=] of u64 as the release profile compiles it: it wraps. *)
Definition u64_add (x y : u64) : u64 := u64_of (val x + val y).

Definition usage_add_assign (usage self : TokenUsage) : TokenUsage :=
  {| tu_input := u64_add (tu_input self) (tu_input usage);
     tu_output := u64_add (tu_output self) (tu_output usage);
     tu_total := u64_add (tu_total self) (tu_total usage);
     tu_reasoning := u64_add (tu_reasoning self) (tu_reasoning usage) |}.

Inductive ModelEvent :=
  | ModelTextDelta (item_id : option string) (text : string)
  | ModelReasoningDelta (item_id : option string) (summary_index content_index : option i64) (text : string)
  | ModelToolCall (call : ToolCall)
  | ModelFinalText (item_id : option string) (text : string)
  | ModelRecordedFinalText (item_id : option string) (text : string)
  | ModelFollowupRequired
  | ModelCompleted (usage : TokenUsage).

Inductive TurnEvent :=
  | TurnTextDelta (item_id : option string) (text : string)
  | TurnReasoningDelta (item_id : option string) (summary_index content_index : option i64) (text : string)
  | TurnToolStarted (call_id name : string)
  | TurnToolExecutionCompleted (result : ToolResult)
  | TurnToolFinished (result : ToolResult)
  | TurnToolProgress (call_id content : string)
  | TurnAborted (message : string)
  | TurnCompleted.

(** * The limit on tool calls *)

Inductive ToolCallLimit := Unlimited | Capped (max_tool_calls : u64).

Inductive ToolCallAdmission := Accepted | Rejected (attempted_tool_call_count : u64).

(** [LoopGuard]: the field [tool_call_limit]. *)
Record LoopGuard := Guard { tool_call_limit : ToolCallLimit }.

Definition guard_default : LoopGuard := Guard Unlimited.
Definition with_max_tool_calls (max_tool_calls : u64) : LoopGuard := Guard (Capped max_tool_calls).

Definition limit_allows (self : ToolCallLimit) (next_tool_call_count : u64) : bool :=
  match self with
  | Unlimited => true
  | Capped max_tool_calls => val next_tool_call_count <=? val max_tool_calls
  end.

Definition from_optional_cap (max_tool_calls : option u64) : ToolCallLimit :=
  match max_tool_calls with Some max_tool_calls => Capped max_tool_calls | None => Unlimited end.

(** What [Serialize] writes of a limit. *)
Definition to_optional_cap (self : ToolCallLimit) : option u64 :=
  match self with Unlimited => None | Capped max_tool_calls => Some max_tool_calls end.

Definition admit_tool_calls (guard : LoopGuard) (attempted_tool_call_count : u64) : ToolCallAdmission :=
  if limit_allows (tool_call_limit guard) attempted_tool_call_count then Accepted
  else Rejected attempted_tool_call_count.

(** * The state of a turn *)

Inductive TurnDiffStatus := DiffClean | DiffChanged.

Definition diff_has_changes (status : TurnDiffStatus) : bool :=
  match status with DiffChanged => true | DiffClean => false end.
Definition from_has_changes (has_changes : bool) : TurnDiffStatus := if has_changes then DiffChanged else DiffClean.

Record TokenLedger := { tl_cumulative : TokenUsage; tl_turn_delta : TokenUsage }.

Definition ledger_record_usage (usage : TokenUsage) (ledger : TokenLedger) : TokenLedger :=
  {| tl_cumulative := usage_add_assign usage (tl_cumulative ledger);
     tl_turn_delta := usage_add_assign usage (tl_turn_delta ledger) |}.

Record TurnState := {
  st_transcript_delta : list TurnItem;
  st_token_usage : TokenLedger;
  st_tool_call_count : u64;
  st_round_count : u64;
  st_last_agent_message : option string;
  st_guard : LoopGuard;
  st_diff : TurnDiffStatus
}.

Definition state_default : TurnState :=
  {| st_transcript_delta := []; st_token_usage := {| tl_cumulative := usage_zero; tl_turn_delta := usage_zero |};
     st_tool_call_count := u64_zero; st_round_count := u64_zero; st_last_agent_message := None;
     st_guard := guard_default; st_diff := DiffClean |}.

Definition with_guard (guard : LoopGuard) (st : TurnState) : TurnState :=
  {| st_transcript_delta := st_transcript_delta st; st_token_usage := st_token_usage st;
     st_tool_call_count := st_tool_call_count st; st_round_count := st_round_count st;
     st_last_agent_message := st_last_agent_message st; st_guard := guard; st_diff := st_diff st |}.

Definition start_round (st : TurnState) : u64 * TurnState :=
  let round_count := u64_saturating_add (st_round_count st) 1 in
  (round_count,
   {| st_transcript_delta := st_transcript_delta st; st_token_usage := st_token_usage st;
      st_tool_call_count := st_tool_call_count st; st_round_count := round_count;
      st_last_agent_message := st_last_agent_message st; st_guard := st_guard st; st_diff := st_diff st |}).

(** [u64::try_from] of a [usize] succeeds on 64-bit machines. *)
Definition record_tool_calls (count : nat) (st : TurnState) : ToolCallAdmission * TurnState :=
  let tool_call_count := u64_saturating_add (st_tool_call_count st) (Z.of_nat count) in
  (admit_tool_calls (st_guard st) tool_call_count,
   {| st_transcript_delta := st_transcript_delta st; st_token_usage := st_token_usage st;
      st_tool_call_count := tool_call_count; st_round_count := st_round_count st;
      st_last_agent_message := st_last_agent_message st; st_guard := st_guard st; st_diff := st_diff st |}).

Definition record_items (items : list TurnItem) (st : TurnState) : TurnState :=
  match items with
  | [] => st
  | _ =>
      {| st_transcript_delta := st_transcript_delta st ++ items; st_token_usage := st_token_usage st;
         st_tool_call_count := st_tool_call_count st; st_round_count := st_round_count st;
         st_last_agent_message := st_last_agent_message st; st_guard := st_guard st; st_diff := DiffChanged |}
  end.

Definition record_usage (usage : TokenUsage) (st : TurnState) : TurnState :=
  {| st_transcript_delta := st_transcript_delta st; st_token_usage := ledger_record_usage usage (st_token_usage st);
     st_tool_call_count := st_tool_call_count st; st_round_count := st_round_count st;
     st_last_agent_message := st_last_agent_message st; st_guard := st_guard st; st_diff := st_diff st |}.

Definition mark_transcript_delta_absorbed_by_prompt_refresh (st : TurnState) : TurnState :=
  {| st_transcript_delta := []; st_token_usage := st_token_usage st;
     st_tool_call_count := st_tool_call_count st; st_round_count := st_round_count st;
     st_last_agent_message := st_last_agent_message st; st_guard := st_guard st; st_diff := st_diff st |}.

Definition record_last_agent_message (message : string) (st : TurnState) : TurnState :=
  {| st_transcript_delta := st_transcript_delta st; st_token_usage := st_token_usage st;
     st_tool_call_count := st_tool_call_count st; st_round_count := st_round_count st;
     st_last_agent_message := Some message; st_guard := st_guard st; st_diff := st_diff st |}.

Definition record_completion_message (message : TurnCompletionMessage) (st : TurnState) : TurnState :=
  match into_option message with Some message => record_last_agent_message message st | None => st end.

Definition last_completion_message (st : TurnState) : TurnCompletionMessage := from_option (st_last_agent_message st).

Inductive TurnResult :=
  | Complete (st : TurnState)
  | WantsFollowup (st : TurnState)
  | Aborted (st : TurnState) (reason : TurnError).

(** * The context of a turn *)

Record ModelSpec := {
  ms_slug : string;
  ms_provider_id : option string;
  ms_context_window : option u64;
  ms_input_modalities : list string
}.

Record EffectivePermissions := { ep_write : bool; ep_network : bool; ep_approval_required : bool }.

Inductive CollaborationMode := ReadOnly | WorkspaceWrite | FullAccess.

Record TurnFeatures := { ft_streaming : bool; ft_tool_calls : bool }.

Record TurnContext := {
  cx_turn_id : string;
  cx_thread_id : string;
  cx_trace_id : string;
  cx_model : ModelSpec;
  cx_reasoning : option string;
  cx_service_tier : option string;
  cx_permissions : EffectivePermissions;
  cx_collaboration_mode : CollaborationMode;
  cx_cwd : option string;
  cx_tools : list ToolSpec;
  cx_features : TurnFeatures;
  cx_initial_prompt_items : list PromptItem
}.

Definition context_new (turn_id thread_id trace_id : string) (model : ModelSpec) : TurnContext :=
  {| cx_turn_id := turn_id; cx_thread_id := thread_id; cx_trace_id := trace_id; cx_model := model;
     cx_reasoning := None; cx_service_tier := None;
     cx_permissions := {| ep_write := false; ep_network := false; ep_approval_required := true |};
     cx_collaboration_mode := FullAccess; cx_cwd := None; cx_tools := [];
     cx_features := {| ft_streaming := true; ft_tool_calls := true |}; cx_initial_prompt_items := [] |}.

Definition replace_initial_prompt (prompt_items : list PromptItem) (ctx : TurnContext) : TurnContext :=
  {| cx_turn_id := cx_turn_id ctx; cx_thread_id := cx_thread_id ctx; cx_trace_id := cx_trace_id ctx;
     cx_model := cx_model ctx; cx_reasoning := cx_reasoning ctx; cx_service_tier := cx_service_tier ctx;
     cx_permissions := cx_permissions ctx; cx_collaboration_mode := cx_collaboration_mode ctx; cx_cwd := cx_cwd ctx;
     cx_tools := cx_tools ctx; cx_features := cx_features ctx; cx_initial_prompt_items := prompt_items |}.

(** [TurnInput]: the field [prompt_items]. *)
Record TurnInput := Input { input_prompt_items : list PromptItem }.

Record RoundSettings := { rs_model : ModelSpec; rs_reasoning : option string; rs_service_tier : option string }.

Record ModelRequest := {
  rq_turn_id : string;
  rq_round : u64;
  rq_settings : RoundSettings;
  rq_prompt : list PromptItem
}.

(** [SteeringMessage]: the field [prompt_items]. *)
Record SteeringMessage := Steering { steering_prompt_items : list PromptItem }.

Inductive SteeringControl :=
  | SteeringContinue
  | SteeringRetryWithoutModelRequest
  | SteeringStopWithoutModelRequest (message : TurnCompletionMessage).

Record SteeringDrain := { dr_messages : list SteeringMessage; dr_control : SteeringControl }.

(** * What hooks decide, and what they are shown *)

Inductive TurnStartDecision :=
  | StartProceed
  | ReplaceInitialPrompt (prompt_items : list PromptItem)
  | StartAbort (reason : TurnError).

Inductive ContextPressureDecision :=
  | PressureProceed
  | Compacted (prompt_items : list PromptItem) (transcript_items : list TurnItem)
  | PressureAbort (reason : TurnError).

Inductive PrepareContextDecision :=
  | Prepared (items : list PromptItem)
  | PrepareStop (message : TurnCompletionMessage)
  | PrepareAbort (reason : TurnError).

Inductive SteeringDecision := InjectAndContinue | DropAndContinue.

Inductive ToolDecision := Allow | Block (reason : string) | Modify (call : ToolCall).

Inductive ToolResultDecision := AsIs | Rewrite (result : ToolResult) | Terminate (result : ToolResult).

Inductive RoundPromptUpdate := UpdateReuse | UpdateReplace (prompt_items : list PromptItem).

Inductive RoundDecision :=
  | RoundContinue (prompt_update : RoundPromptUpdate)
  | RoundStop (message : TurnCompletionMessage)
  | RoundAbort (reason : TurnError).

Record RoundAdjustment := { ra_model : option ModelSpec; ra_reasoning : option string }.

Inductive PrepareNextRoundDecision := NextReuse | NextAdjust (adjustment : RoundAdjustment).

Inductive TurnStopDecision := StopComplete | StopContinueTurn | StopAbort (reason : TurnError).

Inductive TurnCompletionDecision := CompletionComplete | CompletionWantsFollowup.

Record ContextPressureView := { pv_usage : TokenLedger; pv_context_window : option u64 }.
Record PrepareContextView := { cv_ctx : TurnContext; cv_transcript_delta : list TurnItem; cv_input : TurnInput }.
Record ToolCallView := { kv_call : ToolCall; kv_permissions : EffectivePermissions }.
Record ToolResultView := { rv_call : ToolCall; rv_result : ToolResult }.
Record RoundOutcomeView := { ov_outcome : RoundOutcome; ov_usage : TokenLedger }.
Record TurnStopView := { sv_ctx : TurnContext; sv_last_agent_message : option string }.

(** * Prompts *)

Inductive PromptProjection := Include (item : PromptItem) | RuntimeOnly.

Definition append_to (projection : PromptProjection) (prompt : list PromptItem) : list PromptItem :=
  match projection with Include item => prompt ++ [item] | RuntimeOnly => prompt end.

Definition prompt_projection_from_turn_item (item : TurnItem) : PromptProjection :=
  match item with
  | ItemAssistantText _ text => Include (PromptAssistantText text)
  | ItemReasoning _ _ => RuntimeOnly
  | ItemToolCall call => Include (PromptToolCall (tc_id call) (tc_name call) (tc_arguments call))
  | ItemToolStarted _ _ | ItemToolProgress _ _ => RuntimeOnly
  | ItemToolResult result => Include (PromptToolResult (tr_call_id result) (tr_content result) (tr_status result))
  | ItemSystemText text => Include (PromptSystemText text)
  | ItemUserText text => Include (PromptUserText text)
  end.

Definition build_initial_prompt (ctx : TurnContext) (input : TurnInput) : list PromptItem :=
  cx_initial_prompt_items ctx ++ input_prompt_items input.

Definition build_round_prompt (prompt_base : list PromptItem) (st : TurnState) : list PromptItem :=
  fold_left (fun prompt item => append_to (prompt_projection_from_turn_item item) prompt)
    (st_transcript_delta st) prompt_base.
