(* ===== verification/ToolBatch.v ===== *)
(** The tool calls of a round (loop: tool/batch/run.rs, tool/batch/plan.rs,
    tool/lifecycle.rs, the data of tool/traits.rs): calls are prepared in the
    order of the provider, run while others are prepared, wait for the earlier
    calls they conflict with, and are settled when the turn is cancelled.

    The task runs until it awaits; then a preparation, a tool, the sink or the
    cancellation answers.  [step] takes one such answer, so that the runs of
    [bstep] are the interleavings of the task with its futures.  A future is
    polled only where the task awaits the active ones. *)

From S2P Require Import Prelude BTree Effects LoopModel.

Open Scope list_scope.

(** [Arc<dyn Tool>], and what [Box<dyn Any>] holds. *)
Class ToolTypes := { Tool : Type; AnyState : Type }.

Section Batch.
Context `{ToolTypes}.

(** * Data *)

Record PreparedToolCall := { pc_effects : ToolEffects; pc_state : option AnyState }.

Definition prepared_new (effects : ToolEffects) : PreparedToolCall := {| pc_effects := effects; pc_state := None |}.
Definition with_state (state : AnyState) (prepared : PreparedToolCall) : PreparedToolCall :=
  {| pc_effects := pc_effects prepared; pc_state := Some state |}.

(** The default of [Tool::prepare]. *)
Definition default_prepare : LoopResult PreparedToolCall := Ok (prepared_new unknown_write).

Record PlannedTool := {
  pt_call : ToolCall;
  pt_tool : Tool;
  pt_effects : ToolEffects;
  pt_prepared : PreparedToolCall
}.

Record ToolRun := {
  run_call : ToolCall;
  run_result : LoopResult ToolResult;
  run_lifecycle_items : list TurnItem;
  run_effect_validation : EffectValidation
}.

Inductive ToolBatchEntry := EntryImmediate (item : TurnItem) | EntryRun (run : ToolRun).

Inductive ProviderPosition := PosImmediate (item : TurnItem) | PosNode (index : nat).

(** * One run *)

(** Where [run_one] is: not polled yet, or awaiting [tool_started], the tool,
    [tool_execution_completed]. *)
Inductive RunStage :=
  | NotPolled
  | AwaitsStarted
  | AwaitsTool
  | AwaitsCompleted (result : ToolResult) (progress : list ToolProgress) (journal : EffectJournal).

Record Running := { rn_index : nat; rn_pending : PlannedTool; rn_stage : RunStage }.

(** What the awaited futures of a run answer.  A tool reports progress and
    effects while it executes; they are taken together with its result. *)
Record RunAnswer := {
  an_started : LoopResult unit;
  an_progress : list ToolProgress;
  an_effects : list ToolEffect;
  an_result : LoopResult ToolResult;
  an_completed : LoopResult unit
}.

Definition started_item (call : ToolCall) : TurnItem := ItemToolStarted (tc_id call) (tc_name call).
Definition progress_item (progress : ToolProgress) : TurnItem :=
  ItemToolProgress (tp_call_id progress) (tp_content progress).

(** The events that an [EventSink] emits for [tool_started] and [tool_progress]. *)
Definition started_event (call : ToolCall) : TurnEvent := TurnToolStarted (tc_id call) (tc_name call).
Definition progress_event (progress : ToolProgress) : TurnEvent :=
  TurnToolProgress (tp_call_id progress) (tp_content progress).

Definition journal_of (effects : list ToolEffect) : EffectJournal := journal_record_all (Effects effects) [].

Definition cancelled_run (pending : PlannedTool) : ToolRun :=
  {| run_call := pt_call pending; run_result := Ok (cancelled_tool_result (pt_call pending));
     run_lifecycle_items := []; run_effect_validation := journal_validate (pt_effects pending) [] |}.

Definition settled_result (call : ToolCall) (result : LoopResult ToolResult) : ToolResult :=
  match result with Ok result => result | Err error => result_error (tc_id call) (error_display error) end.

(** Its next await, or the run it returns; and the events it sends to the sink. *)
Definition run_one (cancelled : bool) (answer : RunAnswer) (pending : PlannedTool) (stage : RunStage)
    : (RunStage + ToolRun) * list TurnEvent :=
  let call := pt_call pending in
  match stage with
  | NotPolled =>
      if cancelled then (inr (cancelled_run pending), []) else (inl AwaitsStarted, [started_event call])
  | AwaitsStarted =>
      match an_started answer with
      | Err reason =>
          (inr {| run_call := call; run_result := Err reason; run_lifecycle_items := [started_item call];
                  run_effect_validation := journal_validate (pt_effects pending) [] |}, [])
      | Ok _ => (inl AwaitsTool, [])
      end
  | AwaitsTool =>
      let result := settled_result call (an_result answer) in
      (inl (AwaitsCompleted result (an_progress answer) (journal_of (an_effects answer))),
       map progress_event (an_progress answer) ++ [TurnToolExecutionCompleted result])
  | AwaitsCompleted result progress journal =>
      (inr {| run_call := call;
              run_result := match an_completed answer with Ok _ => Ok result | Err error => Err error end;
              run_lifecycle_items := started_item call :: map progress_item progress;
              run_effect_validation := journal_validate (pt_effects pending) journal |}, [])
  end.

(** * The batch *)

(** What the task does after starting what is ready. *)
Inductive AwaitAt :=
  | ForPreparation (call : ToolCall) (tool : Tool) (calls : list ToolCall)
  | ForDrain.

Inductive Phase :=
  | NextCall (calls : list ToolCall)
  | StartReady (next : AwaitAt)
  | Awaiting (at_ : AwaitAt)
  | Finished (entries : list ToolBatchEntry)
  | Panicked.

(** The locals of [prepare_and_run_tool_calls]; [b_log] has what was sent to the
    sink, with the node that sent it. *)
Record Batch := {
  b_cancelled : bool;
  b_positions : list ProviderPosition;
  b_nodes : list (option PlannedTool);
  b_effects : list ToolEffects;
  b_remaining : list nat;
  b_dependents : list (list nat);
  b_completed : list bool;
  b_ready : list nat;
  b_active : list Running;
  b_ordered : list (option ToolRun);
  b_log : list (nat * TurnEvent);
  b_phase : Phase
}.

Definition batch_start (calls : list ToolCall) (cancelled : bool) : Batch :=
  {| b_cancelled := cancelled; b_positions := []; b_nodes := []; b_effects := []; b_remaining := [];
     b_dependents := []; b_completed := []; b_ready := []; b_active := []; b_ordered := []; b_log := [];
     b_phase := NextCall calls |}.

Definition at_phase (phase : Phase) (b : Batch) : Batch :=
  {| b_cancelled := b_cancelled b; b_positions := b_positions b; b_nodes := b_nodes b; b_effects := b_effects b;
     b_remaining := b_remaining b; b_dependents := b_dependents b; b_completed := b_completed b;
     b_ready := b_ready b; b_active := b_active b; b_ordered := b_ordered b; b_log := b_log b; b_phase := phase |}.

Definition cancel (b : Batch) : Batch :=
  {| b_cancelled := true; b_positions := b_positions b; b_nodes := b_nodes b; b_effects := b_effects b;
     b_remaining := b_remaining b; b_dependents := b_dependents b; b_completed := b_completed b;
     b_ready := b_ready b; b_active := b_active b; b_ordered := b_ordered b; b_log := b_log b;
     b_phase := b_phase b |}.

(** A call that is answered without a run. *)
Definition push_immediate (result : ToolResult) (calls : list ToolCall) (b : Batch) : Batch :=
  {| b_cancelled := b_cancelled b; b_positions := b_positions b ++ [PosImmediate (ItemToolResult result)];
     b_nodes := b_nodes b; b_effects := b_effects b; b_remaining := b_remaining b;
     b_dependents := b_dependents b; b_completed := b_completed b; b_ready := b_ready b;
     b_active := b_active b; b_ordered := b_ordered b; b_log := b_log b; b_phase := NextCall calls |}.

(** One turn of the loop of [start_ready_tools]; past its end the task awaits. *)
Definition start_ready_tools (next : AwaitAt) (b : Batch) : Batch :=
  if b_cancelled b then at_phase (Awaiting next) b
  else
    match b_ready b with
    | [] => at_phase (Awaiting next) b
    | index :: ready =>
        match b_nodes b !! index with
        | Some (Some pending) =>
            {| b_cancelled := b_cancelled b; b_positions := b_positions b; b_nodes := <[index:=None]> (b_nodes b);
               b_effects := b_effects b; b_remaining := b_remaining b; b_dependents := b_dependents b;
               b_completed := b_completed b; b_ready := ready;
               b_active := b_active b ++ [{| rn_index := index; rn_pending := pending; rn_stage := NotPolled |}];
               b_ordered := b_ordered b; b_log := b_log b; b_phase := StartReady next |}
        | _ => at_phase Panicked b
        end
    end.

(** The loop of [complete_run] over the dependents; [None] when an index is out of
    bounds or the subtraction overflows. *)
Fixpoint release (dependents : list nat) (remaining ready : list nat) : option (list nat * list nat) :=
  match dependents with
  | [] => Some (remaining, ready)
  | dependent :: dependents =>
      match remaining !! dependent with
      | Some (S count) =>
          release dependents (<[dependent:=count]> remaining)
            (if (count =? 0)%nat then ready ++ [dependent] else ready)
      | _ => None
      end
  end.

Definition complete_run (index : nat) (run : ToolRun) (next : AwaitAt) (b : Batch) : Batch :=
  match b_ordered b !! index, b_completed b !! index, b_dependents b !! index with
  | Some _, Some _, Some dependents =>
      match release dependents (b_remaining b) (b_ready b) with
      | Some (remaining, ready) =>
          {| b_cancelled := b_cancelled b; b_positions := b_positions b; b_nodes := b_nodes b;
             b_effects := b_effects b; b_remaining := remaining; b_dependents := b_dependents b;
             b_completed := <[index:=true]> (b_completed b); b_ready := ready;
             b_active := List.filter (fun r => negb (rn_index r =? index)%nat) (b_active b);
             b_ordered := <[index:=Some run]> (b_ordered b); b_log := b_log b; b_phase := StartReady next |}
      | None => at_phase Panicked b
      end
  | _, _, _ => at_phase Panicked b
  end.

(** The nodes a new one depends on. *)
Fixpoint dependencies_from (index : nat) (effects : list ToolEffects) (completed : list bool)
    (node_effects : ToolEffects) : option (list nat) :=
  match effects with
  | [] => Some []
  | prior_effects :: effects =>
      match completed !! index with
      | Some done =>
          dependencies ← dependencies_from (S index) effects completed node_effects;
          Some (if negb done && conflicts node_effects prior_effects then index :: dependencies else dependencies)
      | None => None
      end
  end.

Fixpoint add_dependent (index : nat) (dependencies : list nat) (dependents : list (list nat)) : option (list (list nat)) :=
  match dependencies with
  | [] => Some dependents
  | dependency :: dependencies =>
      match dependents !! dependency with
      | Some l => add_dependent index dependencies (<[dependency:=l ++ [index]]> dependents)
      | None => None
      end
  end.

Definition plan_node (call : ToolCall) (tool : Tool) (prepared : PreparedToolCall) (calls : list ToolCall) (b : Batch)
    : Batch :=
  let node_effects := pc_effects prepared in
  let index := length (b_nodes b) in
  match dependencies_from 0 (b_effects b) (b_completed b) node_effects with
  | Some dependencies =>
      match add_dependent index dependencies (b_dependents b) with
      | Some dependents =>
          {| b_cancelled := b_cancelled b; b_positions := b_positions b ++ [PosNode index];
             b_nodes := b_nodes b ++ [Some {| pt_call := call; pt_tool := tool; pt_effects := node_effects;
                                              pt_prepared := prepared |}];
             b_effects := b_effects b ++ [node_effects];
             b_remaining := b_remaining b ++ [length dependencies];
             b_dependents := dependents ++ [[]];
             b_completed := b_completed b ++ [false];
             b_ready := match dependencies with [] => b_ready b ++ [index] | _ => b_ready b end;
             b_active := b_active b;
             b_ordered := b_ordered b ++ [None]; b_log := b_log b; b_phase := NextCall calls |}
      | None => at_phase Panicked b
      end
  | None => at_phase Panicked b
  end.

(** What was never started is settled as cancelled. *)
Fixpoint settle_pending (index : nat) (nodes : list (option PlannedTool)) (ordered : list (option ToolRun))
    : option (list (option ToolRun)) :=
  match nodes with
  | [] => Some ordered
  | Some pending :: nodes =>
      match ordered !! index with
      | Some _ => settle_pending (S index) nodes (<[index:=Some (cancelled_run pending)]> ordered)
      | None => None
      end
  | None :: nodes => settle_pending (S index) nodes ordered
  end.

(** The entries in the order of the provider; [None] is the [expect]. *)
Fixpoint take_entries (positions : list ProviderPosition) (ordered : list (option ToolRun))
    : option (list ToolBatchEntry) :=
  match positions with
  | [] => Some []
  | PosImmediate item :: positions =>
      entries ← take_entries positions ordered;
      Some (EntryImmediate item :: entries)
  | PosNode index :: positions =>
      match ordered !! index with
      | Some (Some run) =>
          entries ← take_entries positions (<[index:=None]> ordered);
          Some (EntryRun run :: entries)
      | _ => None
      end
  end.

Definition finish (b : Batch) : Batch :=
  match settle_pending 0 (b_nodes b) (b_ordered b) with
  | Some ordered =>
      match take_entries (b_positions b) ordered with
      | Some entries => at_phase (Finished entries) b
      | None => at_phase Panicked b
      end
  | None => at_phase Panicked b
  end.

(** * Steps *)

(** What happens next: the turn is cancelled, the task goes on, a tool is looked
    up, a preparation answers or is given up, a run is polled and answered. *)
Inductive Choice :=
  | Cancel
  | Advance
  | Look (found : option Tool)
  | PreparationDone (answer : LoopResult PreparedToolCall)
  | PreparationCancelled
  | Poll (index : nat) (answer : RunAnswer).

Definition preparation_failed (call : ToolCall) (error : TurnError) (calls : list ToolCall) (b : Batch) : Batch :=
  push_immediate (result_error (tc_id call) (error_display error)) calls b.

Definition set_stage (index : nat) (stage : RunStage) (active : list Running) : list Running :=
  map (fun r => if (rn_index r =? index)%nat
                then {| rn_index := rn_index r; rn_pending := rn_pending r; rn_stage := stage |} else r) active.

Definition poll (index : nat) (answer : RunAnswer) (at_ : AwaitAt) (b : Batch) : option Batch :=
  r ← List.find (fun r => rn_index r =? index)%nat (b_active b);
  let (outcome, events) := run_one (b_cancelled b) answer (rn_pending r) (rn_stage r) in
  Some match outcome with
       | inl stage =>
           {| b_cancelled := b_cancelled b; b_positions := b_positions b; b_nodes := b_nodes b;
              b_effects := b_effects b; b_remaining := b_remaining b; b_dependents := b_dependents b;
              b_completed := b_completed b; b_ready := b_ready b; b_active := set_stage index stage (b_active b);
              b_ordered := b_ordered b; b_log := b_log b ++ map (pair index) events; b_phase := b_phase b |}
       | inr run => complete_run index run at_ b
       end.

(** [None] when the choice is not open. *)
Definition step (choice : Choice) (b : Batch) : option Batch :=
  match choice, b_phase b with
  | Cancel, (NextCall _ | StartReady _ | Awaiting _) => if b_cancelled b then None else Some (cancel b)
  | Advance, NextCall [] => Some (at_phase (StartReady ForDrain) b)
  | Advance, NextCall (call :: calls) =>
      if b_cancelled b then Some (push_immediate (cancelled_tool_result call) calls b) else None
  | Look found, NextCall (call :: calls) =>
      if b_cancelled b then None
      else
        Some match found with
             | None => push_immediate (missing_tool_result call) calls b
             | Some tool => at_phase (StartReady (ForPreparation call tool calls)) b
             end
  | Advance, StartReady next => Some (start_ready_tools next b)
  | Advance, Awaiting ForDrain => match b_active b with [] => Some (finish b) | _ => None end
  | PreparationDone (Ok prepared), Awaiting (ForPreparation call tool calls) =>
      Some (plan_node call tool prepared calls b)
  | PreparationDone (Err error), Awaiting (ForPreparation call tool calls) =>
      Some (preparation_failed call error calls b)
  | PreparationCancelled, Awaiting (ForPreparation call tool calls) =>
      if b_cancelled b then Some (preparation_failed call error_cancelled calls b) else None
  | Poll index answer, Awaiting at_ => poll index answer at_ b
  | _, _ => None
  end.

Definition bstep (b b' : Batch) : Prop := exists choice, step choice b = Some b'.

(** The batches that a list of calls can come to. *)
Definition batch_of (calls : list ToolCall) (b : Batch) : Prop :=
  exists cancelled, rtc bstep (batch_start calls cancelled) b.

(** * Running a batch to its end *)

(** The answers of everything that can be awaited, and which of them comes first. *)
Record Answers := {
  as_pick : nat;
  as_found : option Tool;
  as_prepared : LoopResult PreparedToolCall;
  as_run : RunAnswer
}.

(** The choices that are open, but for the cancellation. *)
Definition open_choices (answers : Answers) (b : Batch) : list Choice :=
  match b_phase b with
  | NextCall [] => [Advance]
  | NextCall (_ :: _) => if b_cancelled b then [Advance] else [Look (as_found answers)]
  | StartReady _ => [Advance]
  | Awaiting ForDrain =>
      match b_active b with
      | [] => [Advance]
      | active => map (fun r => Poll (rn_index r) (as_run answers)) active
      end
  | Awaiting (ForPreparation _ _ _) =>
      [PreparationDone (as_prepared answers)] ++ (if b_cancelled b then [PreparationCancelled] else [])
      ++ map (fun r => Poll (rn_index r) (as_run answers)) (b_active b)
  | Finished _ | Panicked => []
  end.

(** One of the open choices, or the cancellation when it is due. *)
Definition next_choice (cancelled : bool) (answers : Answers) (b : Batch) : option Choice :=
  if cancelled && negb (b_cancelled b) then Some Cancel
  else
    let choices := open_choices answers b in
    choices !! (as_pick answers mod length choices)%nat.

(** A batch in a world that answers it: the task goes on until it is finished. *)
Fixpoint run_batch {W} (schedule : Batch -> W -> Answers * W) (is_cancelled : W -> bool) (fuel : nat) (b : Batch) (w : W)
    : Batch * W :=
  match fuel with
  | O => (b, w)
  | S fuel =>
      match b_phase b with
      | Finished _ | Panicked => (b, w)
      | _ =>
          let (answers, w) := schedule b w in
          match (choice ← next_choice (is_cancelled w) answers b; step choice b) with
          | Some b => run_batch schedule is_cancelled fuel b w
          | None => (b, w)
          end
      end
  end.

(** A bound on the steps of any batch of these calls. *)
Definition batch_fuel (calls : list ToolCall) : nat := (10 * length calls + 4)%nat.

End Batch.
