(* ===== verification/BatchFacts.v ===== *)
(** Lemmas about the batch of tool calls: the bookkeeping of dependencies is the
    relation it stands for, every step keeps the batch well formed and none
    panics, the batch ends after a bounded number of steps in whatever order the
    futures are answered, calls start in the order of their conflicts, and the
    choices of a run alone say what its entries are. *)

From S2P Require Import Prelude BTree Effects LoopModel ToolBatch.

Open Scope list_scope.

(** * Loops over indices *)

Lemma insert_lookup_cases {A} (l : list A) i j a :
  <[i:=a]> l !! j = if decide (i = j) then (fun _ => a) <$> (l !! j) else l !! j.
Proof.
  case_decide as E; [subst|by rewrite list_lookup_insert_ne].
  destruct (l !! j) as [x|] eqn:El; cbn.
  - rewrite list_lookup_insert_eq; [done|]. by eapply lookup_lt_Some.
  - apply lookup_ge_None. rewrite length_insert. by apply lookup_ge_None.
Qed.

Lemma lookup_snoc_cases {A} (l : list A) x i : (l ++ [x]) !! i = if decide (i = length l) then Some x else l !! i.
Proof.
  case_decide as E; [subst|].
  - by rewrite lookup_app_r, Nat.sub_diag by lia.
  - destruct (decide (i < length l)%nat); [by apply lookup_app_l|].
    rewrite !(proj2 (lookup_ge_None _ _)); [done|lia|]. rewrite length_app. cbn. lia.
Qed.

Lemma length_filter_ne (x : nat) (l : list nat) :
  NoDup l -> length (filter (fun y => y <> x) l) = if decide (x ∈ l) then pred (length l) else length l.
Proof.
  induction l as [|y l IH]; intros Hn; [by rewrite decide_False by apply not_elem_of_nil|].
  apply list.NoDup_cons in Hn as [Hy Hn]. specialize (IH Hn). rewrite list.filter_cons.
  destruct (decide (y <> x)) as [Hyx|Hyx]; cbn [length].
  - rewrite IH. destruct (decide (x ∈ l)) as [Hx|Hx].
    + rewrite decide_True by set_solver. destruct l; [by apply not_elem_of_nil in Hx|done].
    + rewrite decide_False by set_solver. done.
  - assert (y = x) as -> by (by destruct (decide (y = x))).
    rewrite IH, decide_False by done. by rewrite decide_True by set_solver.
Qed.

Lemma release_spec dependents remaining ready :
  NoDup dependents -> (forall d, d ∈ dependents -> exists k, remaining !! d = Some (S k)) ->
  exists remaining' ready',
    release dependents remaining ready = Some (remaining', ready') /\
    length remaining' = length remaining /\
    (forall i, remaining' !! i = if decide (i ∈ dependents) then pred <$> remaining !! i else remaining !! i) /\
    ready' = ready ++ filter (fun d => remaining !! d = Some 1%nat) dependents.
Proof.
  revert remaining ready. induction dependents as [|d dependents IH]; intros remaining ready Hn Hk.
  { exists remaining, ready. cbn. split_and!; [done|done| |by rewrite app_nil_r].
    intros i. rewrite decide_False by set_solver. done. }
  apply list.NoDup_cons in Hn as [Hd Hn]. destruct (Hk d) as [k Ek]; [set_solver|].
  cbn [release]. rewrite Ek.
  assert (forall e, e ∈ dependents -> <[d:=k]> remaining !! e = remaining !! e) as Hsame.
  { intros e He. rewrite list_lookup_insert_ne; [done|]. by intros ->. }
  destruct (IH (<[d:=k]> remaining) (if (k =? 0)%nat then ready ++ [d] else ready) Hn) as (rem' & rd' & Er & El & Ei & Erd).
  { intros e He. rewrite Hsame by done. apply Hk. set_solver. }
  exists rem', rd'. rewrite Er, El, length_insert. split_and!; [done|done| |].
  - intros i. rewrite Ei, insert_lookup_cases. destruct (decide (d = i)) as [<-|Hne].
    + rewrite decide_False by done. rewrite decide_True by set_solver. by rewrite Ek.
    + destruct (decide (i ∈ dependents)).
      * rewrite decide_True by set_solver. done.
      * rewrite decide_False by set_solver. done.
  - rewrite Erd. rewrite list.filter_cons, Ek.
    assert (filter (fun e => <[d:=k]> remaining !! e = Some 1%nat) dependents
            = filter (fun e => remaining !! e = Some 1%nat) dependents) as ->.
    { clear -Hsame. induction dependents as [|e l IHl]; [done|].
      rewrite !list.filter_cons, Hsame by set_solver. rewrite IHl by set_solver. done. }
    destruct k as [|k]; cbn [Nat.eqb].
    + rewrite decide_True by done. by rewrite <- app_assoc.
    + rewrite decide_False by congruence. done.
Qed.

Lemma dependencies_from_spec index effects completed node_effects :
  (index + length effects <= length completed)%nat ->
  exists deps,
    dependencies_from index effects completed node_effects = Some deps /\ NoDup deps /\
    forall d, d ∈ deps <->
      (index <= d)%nat /\ completed !! d = Some false /\
      exists e, effects !! (d - index)%nat = Some e /\ conflicts node_effects e = true.
Proof.
  revert index. induction effects as [|prior effects IH]; intros index Hl; cbn in *.
  { exists []. split_and!; [done|apply NoDup_nil_2|]. intros d. split; [set_solver|]. intros (_ & _ & e & Ee & _). done. }
  destruct (lookup_lt_is_Some_2 completed index ltac:(lia)) as [done' Ed]. rewrite Ed.
  destruct (IH (S index) ltac:(lia)) as (deps & Edeps & Hn & Hd). rewrite Edeps. cbn.
  eexists. split; [done|].
  assert (index ∉ deps) as Hni by (rewrite Hd; lia).
  assert (forall d, (d ∈ deps \/ d = index /\ completed !! index = Some false /\ conflicts node_effects prior = true) <->
     (index <= d)%nat /\ completed !! d = Some false /\
      exists e, (prior :: effects) !! (d - index)%nat = Some e /\ conflicts node_effects e = true) as Hiff.
  { intros d. rewrite Hd. destruct (decide (d = index)) as [->|Hne].
    - rewrite Nat.sub_diag. cbn. naive_solver lia.
    - split.
      + intros [(Hle & Hc & e & Ee & Hcf)|[? _]]; [|done]. split; [lia|]. split; [done|]. exists e.
        replace (d - index)%nat with (S (d - S index))%nat by lia. done.
      + intros (Hle & Hc & e & Ee & Hcf). left. split; [lia|]. split; [done|]. exists e.
        replace (d - index)%nat with (S (d - S index))%nat in Ee by lia. done. }
  destruct (negb done' && conflicts node_effects prior) eqn:Eb.
  - apply andb_true_iff in Eb as [Eb Hc]. destruct done'; [done|]. split; [by apply list.NoDup_cons|].
    intros d. rewrite <- Hiff, elem_of_cons. naive_solver.
  - split; [done|]. intros d. rewrite <- Hiff. split; [by left|]. intros [?|(-> & E1 & E2)]; [done|].
    rewrite Ed in E1. injection E1 as ->. by rewrite E2 in Eb.
Qed.

Lemma add_dependent_spec index dependencies dependents :
  NoDup dependencies -> (forall d, d ∈ dependencies -> (d < length dependents)%nat) ->
  exists dependents',
    add_dependent index dependencies dependents = Some dependents' /\ length dependents' = length dependents /\
    forall d, dependents' !! d =
      if decide (d ∈ dependencies) then (fun l => l ++ [index]) <$> dependents !! d else dependents !! d.
Proof.
  revert dependents. induction dependencies as [|d0 dependencies IH]; intros dependents Hn Hl; cbn.
  { exists dependents. split_and!; [done..|]. intros d. by rewrite decide_False by set_solver. }
  apply list.NoDup_cons in Hn as [Hd0 Hn].
  destruct (lookup_lt_is_Some_2 dependents d0) as [l El]; [apply Hl; set_solver|]. rewrite El.
  destruct (IH (<[d0:=l ++ [index]]> dependents) Hn) as (deps' & E1 & E2 & E3).
  { intros d Hd. rewrite length_insert. apply Hl. set_solver. }
  exists deps'. rewrite E1, E2, length_insert. split_and!; [done..|]. intros d. rewrite E3, insert_lookup_cases.
  destruct (decide (d0 = d)) as [<-|Hne].
  - rewrite decide_False by done. rewrite decide_True by set_solver. by rewrite El.
  - destruct (decide (d ∈ dependencies)); [rewrite decide_True by set_solver|rewrite decide_False by set_solver]; done.
Qed.

Section Facts.
Context `{ToolTypes}.
Implicit Types (b : Batch) (i d k index : nat) (plans : list PlannedTool).

(** * The books of a batch *)

Definition pending b i : Prop := exists p, b_nodes b !! i = Some (Some p).
Definition active b i : Prop := exists r, r ∈ b_active b /\ rn_index r = i.
Definition completed b i : Prop := b_completed b !! i = Some true.

(** The runs that polling a call to its end can give, but for the one that the
    cancellation stops first. *)
Inductive ran (p : PlannedTool) : ToolRun -> Prop :=
  | ran_refused reason :
      ran p {| run_call := pt_call p; run_result := Err reason; run_lifecycle_items := [started_item (pt_call p)];
               run_effect_validation := journal_validate (pt_effects p) [] |}
  | ran_through answer progress effects (reported : LoopResult unit) :
      ran p {| run_call := pt_call p;
               run_result := match reported with
                             | Ok _ => Ok (settled_result (pt_call p) answer) | Err error => Err error end;
               run_lifecycle_items := started_item (pt_call p) :: map progress_item progress;
               run_effect_validation := journal_validate (pt_effects p) (journal_of effects) |}.

Definition stage_ok (p : PlannedTool) (stage : RunStage) : Prop :=
  match stage with
  | AwaitsCompleted result progress journal =>
      exists answer effects, result = settled_result (pt_call p) answer /\ journal = journal_of effects
  | _ => True
  end.

Definition run_ok (cancelled : bool) (p : PlannedTool) (run : ToolRun) : Prop :=
  ran p run \/ run = cancelled_run p /\ cancelled = true.

Definition conflicting plans i d : Prop :=
  exists p q, plans !! i = Some p /\ plans !! d = Some q /\ conflicts (pt_effects p) (pt_effects q) = true.

(** [W] are the nodes that [i] waits for. *)
Definition waits b i (W : list nat) : Prop :=
  NoDup W /\ forall d, d ∈ W <-> b_completed b !! d = Some false /\ exists l, b_dependents b !! d = Some l /\ i ∈ l.

Record books plans b : Prop := {
  bk_nodes : length (b_nodes b) = length plans;
  bk_effects : b_effects b = map pt_effects plans;
  bk_remaining : length (b_remaining b) = length plans;
  bk_dependents_length : length (b_dependents b) = length plans;
  bk_completed : length (b_completed b) = length plans;
  bk_ordered_length : length (b_ordered b) = length plans;
  bk_pending i p : b_nodes b !! i = Some (Some p) -> plans !! i = Some p /\ b_completed b !! i = Some false;
  bk_active r : r ∈ b_active b ->
    plans !! rn_index r = Some (rn_pending r) /\ b_nodes b !! rn_index r = Some None /\
    b_completed b !! rn_index r = Some false /\ stage_ok (rn_pending r) (rn_stage r);
  bk_active_nodup : NoDup (map rn_index (b_active b));
  bk_started i : b_nodes b !! i = Some None -> b_completed b !! i = Some true \/ active b i;
  bk_ordered i run : b_ordered b !! i = Some (Some run) -> exists p, plans !! i = Some p /\ run_ok (b_cancelled b) p run;
  bk_done i : b_completed b !! i = Some true ->
    b_nodes b !! i = Some None /\ exists run, b_ordered b !! i = Some (Some run);
  bk_undone i : b_completed b !! i = Some false -> b_ordered b !! i = Some None;
  bk_ready_nodup : NoDup (b_ready b);
  bk_ready i : i ∈ b_ready b <-> (exists p, b_nodes b !! i = Some (Some p)) /\ b_remaining b !! i = Some 0%nat;
  bk_free i : b_nodes b !! i = Some None -> b_remaining b !! i = Some 0%nat;
  bk_dependents d l : b_dependents b !! d = Some l ->
    NoDup l /\ forall i, i ∈ l -> (d < i < length plans)%nat /\ conflicting plans i d;
  bk_waits i k : b_remaining b !! i = Some k -> exists W, waits b i W /\ length W = k;
  bk_conflicts d i : (d < i)%nat -> conflicting plans i d ->
    b_completed b !! d = Some true \/ exists l, b_dependents b !! d = Some l /\ i ∈ l
}.

Lemma books_start calls cancelled : books [] (batch_start calls cancelled).
Proof.
  constructor; cbn; try done; try apply NoDup_nil_2; try (intros ? Hx; by apply not_elem_of_nil in Hx).
  - intros i. split; [intros Hi; by apply not_elem_of_nil in Hi|]. intros [[p Ep] _]. done.
  - intros d i _ (p & q & Hp & _). done.
Qed.

Lemma books_at_phase plans phase b : books plans b -> books plans (at_phase phase b).
Proof. by intros []; constructor. Qed.

Lemma run_ok_weaken c c' p run : (c = true -> c' = true) -> run_ok c p run -> run_ok c' p run.
Proof. intros Hc [Hr|[-> Ec]]; [by left|right; auto]. Qed.

Lemma books_cancel plans b : books plans b -> books plans (cancel b).
Proof.
  intros []; constructor; try done. cbn. intros i run Ho.
  destruct (bk_ordered0 i run Ho) as (p & Hp & Hr). exists p. split; [done|]. eapply run_ok_weaken; [|done]. done.
Qed.

Lemma books_push_immediate plans result calls b : books plans b -> books plans (push_immediate result calls b).
Proof. by intros []; constructor. Qed.

Lemma active_plan plans b i : books plans b -> active b i -> exists p, plans !! i = Some p.
Proof. intros Hb (r & Hr & <-). apply (bk_active _ _ Hb) in Hr as [Hr _]. by eexists. Qed.

(** * What starting does *)

Lemma books_start_ready plans next b :
  books plans b -> books plans (start_ready_tools next b) /\
  b_phase (start_ready_tools next b) =
    (if b_cancelled b then Awaiting next else match b_ready b with [] => Awaiting next | _ => StartReady next end).
Proof.
  intros Hb. unfold start_ready_tools. destruct (b_cancelled b) eqn:Ec; [by split; [apply books_at_phase|]|].
  destruct (b_ready b) as [|index ready] eqn:Er; [by split; [apply books_at_phase|]|].
  pose proof (bk_ready_nodup _ _ Hb) as Hnd. rewrite Er in Hnd. apply list.NoDup_cons in Hnd as [Hni Hnd].
  assert (index ∈ b_ready b) as Hin by (rewrite Er; set_solver).
  apply (bk_ready _ _ Hb) in Hin as [[p Ep] Ez]. rewrite Ep. split; [|done].
  destruct (bk_pending _ _ Hb _ _ Ep) as [Hpl Hco].
  assert (forall i, active b i -> i <> index) as Hact.
  { intros i (r & Hr & <-) E. apply (bk_active _ _ Hb) in Hr as (_ & Hr & _). rewrite E, Ep in Hr. done. }
  constructor; cbn; try apply Hb.
  - by rewrite length_insert, (bk_nodes _ _ Hb).
  - intros i q. rewrite insert_lookup_cases. destruct (decide (index = i)) as [<-|Hne]; [by rewrite Ep|].
    apply Hb.
  - intros r. rewrite elem_of_app, list_elem_of_singleton. intros [Hr| ->]; cbn.
    + destruct (bk_active _ _ Hb r Hr) as (H1 & H2 & H3 & H4). split_and!; [done| |done..].
      rewrite insert_lookup_cases, H2. by destruct (decide _).
    + rewrite insert_lookup_cases, Ep, decide_True by done. done.
  - rewrite map_app. cbn. apply list.NoDup_app. split; [apply Hb|]. split; [|apply NoDup_singleton].
    intros i Hi. apply list_elem_of_fmap in Hi as (r & -> & Hr). rewrite list_elem_of_singleton.
    apply Hact. by exists r.
  - intros i. rewrite insert_lookup_cases. unfold active. cbn. setoid_rewrite elem_of_app.
    setoid_rewrite list_elem_of_singleton. destruct (decide (index = i)) as [<-|Hne].
    + intros _. right. eexists. split; [by right|done].
    + intros Hi. destruct (bk_started _ _ Hb i Hi) as [?|(r & Hr & <-)]; [by left|right; exists r; auto].
  - rewrite <- Ec. apply Hb.
  - intros i Hi. destruct (bk_done _ _ Hb i Hi) as [H1 H2]. split; [|done].
    rewrite insert_lookup_cases, H1. by destruct (decide _).
  - done.
  - intros i. rewrite insert_lookup_cases. destruct (decide (index = i)) as [<-|Hne].
    + rewrite Ep. cbn. split; [done|]. intros [[q Eq] _]. done.
    + rewrite <- (bk_ready _ _ Hb i), Er. set_solver.
  - intros i. rewrite insert_lookup_cases. destruct (decide (index = i)) as [<-|Hne]; [done|apply Hb].
Qed.

(** * What polling and completing do *)

Lemma map_set_stage index stage active : map rn_index (set_stage index stage active) = map rn_index active.
Proof.
  unfold set_stage. rewrite map_map. apply map_ext. intros r. by destruct (rn_index r =? index)%nat.
Qed.

Lemma set_stage_in index stage actives r :
  r ∈ set_stage index stage actives ->
  exists r0, r0 ∈ actives /\ rn_index r = rn_index r0 /\ rn_pending r = rn_pending r0 /\
    (rn_stage r = rn_stage r0 \/ rn_index r0 = index /\ rn_stage r = stage).
Proof.
  unfold set_stage. intros (r0 & -> & Hr0)%list_elem_of_fmap. exists r0. split; [done|].
  destruct (rn_index r0 =? index)%nat eqn:E; [|by auto]. apply Nat.eqb_eq in E. cbn. auto.
Qed.

Lemma in_set_stage index stage actives i :
  (exists r, r ∈ actives /\ rn_index r = i) -> exists r, r ∈ set_stage index stage actives /\ rn_index r = i.
Proof.
  intros (r & Hr & Ei). unfold set_stage. eexists. split; [by apply list_elem_of_fmap_2|].
  cbn. by destruct (rn_index r =? index)%nat.
Qed.

(** The batch in which one run has come to another stage. *)
Definition with_stage index stage (events : list TurnEvent) b : Batch :=
  {| b_cancelled := b_cancelled b; b_positions := b_positions b; b_nodes := b_nodes b;
     b_effects := b_effects b; b_remaining := b_remaining b; b_dependents := b_dependents b;
     b_completed := b_completed b; b_ready := b_ready b; b_active := set_stage index stage (b_active b);
     b_ordered := b_ordered b; b_log := b_log b ++ map (pair index) events; b_phase := b_phase b |}.

Lemma active_unique plans b r r' :
  books plans b -> r ∈ b_active b -> r' ∈ b_active b -> rn_index r = rn_index r' -> r = r'.
Proof.
  intros Hb Hr Hr' E. pose proof (bk_active_nodup _ _ Hb) as Hn.
  apply list_elem_of_lookup in Hr as [k Ek], Hr' as [k' Ek'].
  assert (k = k') as <-; [|congruence].
  eapply NoDup_lookup; [done| |]; rewrite list_lookup_fmap; [by rewrite Ek|by rewrite Ek', E].
Qed.

Lemma books_with_stage plans r stage events b :
  books plans b -> r ∈ b_active b -> stage_ok (rn_pending r) stage ->
  books plans (with_stage (rn_index r) stage events b).
Proof.
  intros Hb Hr Hs. constructor; cbn; try apply Hb.
  - intros r' (r0 & Hr0 & -> & Ep & Est)%set_stage_in. rewrite Ep.
    destruct (bk_active _ _ Hb r0 Hr0) as (H1 & H2 & H3 & H4). split_and!; [done..|].
    destruct Est as [->|[E ->]]; [done|]. by rewrite (active_unique _ _ _ _ Hb Hr0 Hr E).
  - rewrite map_set_stage. apply Hb.
  - intros i Hi. destruct (bk_started _ _ Hb i Hi) as [?|Ha]; [by left|right]. by apply in_set_stage.
Qed.

Lemma release_dependents plans b index dependents :
  books plans b -> b_completed b !! index = Some false -> b_dependents b !! index = Some dependents ->
  exists remaining ready,
    release dependents (b_remaining b) (b_ready b) = Some (remaining, ready) /\ length remaining = length plans /\
    (forall i, remaining !! i = if decide (i ∈ dependents) then pred <$> b_remaining b !! i else b_remaining b !! i) /\
    ready = b_ready b ++ filter (fun d => b_remaining b !! d = Some 1%nat) dependents /\
    forall i, i ∈ dependents -> exists k, b_remaining b !! i = Some (S k).
Proof.
  intros Hb Hc Hd. destruct (bk_dependents _ _ Hb _ _ Hd) as [Hnd Hin].
  assert (forall i, i ∈ dependents -> exists k, b_remaining b !! i = Some (S k)) as Hpos.
  { intros i Hi. destruct (Hin i Hi) as [Hlt _].
    destruct (lookup_lt_is_Some_2 (b_remaining b) i) as [k Ek]; [rewrite (bk_remaining _ _ Hb); lia|].
    destruct (bk_waits _ _ Hb i k Ek) as (W & [_ HW] & <-).
    assert (index ∈ W) as Hw by (apply HW; split; [done|by exists dependents]).
    destruct W as [|w W]; [by apply not_elem_of_nil in Hw|]. by exists (length W). }
  destruct (release_spec dependents (b_remaining b) (b_ready b) Hnd Hpos) as (rem & rd & E1 & E2 & E3 & E4).
  exists rem, rd. rewrite E2, (bk_remaining _ _ Hb). done.
Qed.

Lemma waits_complete b b' index i W dependents :
  waits b i W -> b_completed b !! index = Some false -> b_dependents b !! index = Some dependents ->
  b_dependents b' = b_dependents b -> b_completed b' = <[index:=true]> (b_completed b) ->
  exists W', waits b' i W' /\ length W' = if decide (i ∈ dependents) then pred (length W) else length W.
Proof.
  intros [Hn HW] Hc Hd Ed Ec. exists (filter (fun d => d <> index) W). split.
  - split; [by apply list.NoDup_filter|]. intros d. rewrite list_elem_of_filter, HW, Ed, Ec, insert_lookup_cases.
    destruct (decide (index = d)) as [<-|Hne]; [rewrite Hc; cbn; naive_solver|naive_solver].
  - assert (index ∈ W <-> i ∈ dependents) as Hiff.
    { rewrite HW, Hd. naive_solver. }
    rewrite length_filter_ne by done. by rewrite (decide_ext _ _ _ _ Hiff).
Qed.

Lemma in_others index (actives : list Running) r :
  r ∈ List.filter (fun r => negb (rn_index r =? index)%nat) actives <-> r ∈ actives /\ rn_index r <> index.
Proof.
  rewrite list_elem_of_In, List.filter_In, <- list_elem_of_In, negb_true_iff, Nat.eqb_neq. done.
Qed.

Lemma nodup_others index (actives : list Running) :
  NoDup (map rn_index actives) ->
  NoDup (map rn_index (List.filter (fun r => negb (rn_index r =? index)%nat) actives)).
Proof.
  induction actives as [|r actives IH]; [done|]. cbn. intros [Hr Hn]%list.NoDup_cons.
  destruct (negb (rn_index r =? index)%nat); [|by apply IH]. cbn. apply list.NoDup_cons. split; [|by apply IH].
  intros (r' & E & Hr')%list_elem_of_fmap. apply Hr. rewrite E. apply list_elem_of_fmap_2. by apply in_others in Hr' as [? _].
Qed.

Lemma books_complete plans r run next b :
  books plans b -> r ∈ b_active b -> run_ok (b_cancelled b) (rn_pending r) run ->
  books plans (complete_run (rn_index r) run next b) /\
  b_phase (complete_run (rn_index r) run next b) = StartReady next.
Proof.
  intros Hb Hr Hrun. destruct (bk_active _ _ Hb r Hr) as (Hp & Hno & Hco & _).
  set (index := rn_index r) in *. pose proof (lookup_lt_Some _ _ _ Hp) as Hlt.
  destruct (lookup_lt_is_Some_2 (b_dependents b) index) as [deps Ed]; [by rewrite (bk_dependents_length _ _ Hb)|].
  destruct (release_dependents _ _ _ _ Hb Hco Ed) as (rem & rd & Er & Hlen & Hrem & -> & Hpos).
  unfold complete_run. rewrite (bk_undone _ _ Hb _ Hco), Hco, Ed, Er. split; [|done].
  assert (forall i, pending b i -> i <> index) as Hpi by (intros i [p Ep] ->; congruence).
  constructor; cbn; try apply Hb.
  - done.
  - by rewrite length_insert, (bk_completed _ _ Hb).
  - by rewrite length_insert, (bk_ordered_length _ _ Hb).
  - intros i p Ep. rewrite list_lookup_insert_ne by (intros E; by apply (Hpi i); [exists p|]). by apply Hb.
  - intros r' [Hr' Hne]%in_others. rewrite list_lookup_insert_ne by done. by apply Hb.
  - apply nodup_others, Hb.
  - intros i Hi. rewrite insert_lookup_cases. destruct (decide (index = i)) as [<-|Hne]; [left; by rewrite Hco|].
    destruct (bk_started _ _ Hb i Hi) as [?|(r' & Hr' & <-)]; [by left|right]. exists r'. split; [|done].
    cbn. by apply in_others.
  - intros i run' Ho. rewrite insert_lookup_cases in Ho. destruct (decide (index = i)) as [<-|Hne]; [|by apply Hb].
    rewrite (bk_undone _ _ Hb _ Hco) in Ho. injection Ho as <-. by exists (rn_pending r).
  - intros i. rewrite !insert_lookup_cases. destruct (decide (index = i)) as [<-|Hne]; [|apply Hb].
    intros _. split; [done|]. exists run. by rewrite (bk_undone _ _ Hb _ Hco).
  - intros i. rewrite !insert_lookup_cases. destruct (decide (index = i)) as [<-|Hne]; [by rewrite Hco|apply Hb].
  - apply list.NoDup_app. split; [apply Hb|]. split; [|apply list.NoDup_filter, (bk_dependents _ _ Hb _ _ Ed)].
    intros i [_ Hi]%(bk_ready _ _ Hb) [Hi' _]%list_elem_of_filter. congruence.
  - intros i. rewrite elem_of_app, list_elem_of_filter, (bk_ready _ _ Hb i), Hrem. split.
    + intros [[Hpe Ez]|[E1 Hi]].
      * split; [done|]. rewrite decide_False; [done|]. intros [k Ek]%Hpos. congruence.
      * rewrite decide_True, E1 by done. split; [|done]. destruct (b_nodes b !! i) as [[p|]|] eqn:En; [by eexists| |].
        -- apply (bk_free _ _ Hb) in En. congruence.
        -- apply lookup_ge_None in En. apply lookup_lt_Some in E1.
           rewrite (bk_nodes _ _ Hb) in En. rewrite (bk_remaining _ _ Hb) in E1. lia.
    + intros [Hpe Ez]. case_decide as Hi; [|by left]. right. destruct (Hpos i Hi) as [k Ek]. rewrite Ek in Ez |- *.
      cbn in Ez. split; [congruence|done].
  - intros i Hi. rewrite Hrem. rewrite (bk_free _ _ Hb i Hi). by case_decide.
  - intros i k. rewrite Hrem. intros Ek.
    assert (exists k0, b_remaining b !! i = Some k0 /\ k = if decide (i ∈ deps) then pred k0 else k0) as (k0 & E0 & ->).
    { case_decide; [|by exists k]. destruct (b_remaining b !! i) as [k0|]; [|done]. exists k0. cbn in Ek. by split; congruence. }
    destruct (bk_waits _ _ Hb i k0 E0) as (W & HW & <-). eapply waits_complete; try done; by cbn.
  - intros d i Hlt' Hc. rewrite insert_lookup_cases. destruct (decide (index = d)) as [<-|Hne].
    + left. by rewrite Hco.
    + by apply Hb.
Qed.

(** * What planning does *)

Lemma conflicting_snoc plans p i d :
  conflicting (plans ++ [p]) i d -> (d < i)%nat ->
  conflicting plans i d \/
  i = length plans /\ exists q, plans !! d = Some q /\ conflicts (pt_effects p) (pt_effects q) = true.
Proof.
  intros (p1 & q & E1 & E2 & Hc) Hlt. rewrite lookup_snoc_cases in E1, E2.
  destruct (decide (i = length plans)) as [->|Hne].
  - right. injection E1 as <-. split; [done|]. exists q. destruct (decide (d = length plans)); [lia|done].
  - left. exists p1, q. destruct (decide (d = length plans)) as [->|]; [|done].
    apply lookup_lt_Some in E1. lia.
Qed.

Lemma conflicting_app plans p i d : conflicting plans i d -> conflicting (plans ++ [p]) i d.
Proof. intros (p1 & q & E1 & E2 & Hc). exists p1, q. split_and!; [by apply lookup_app_l_Some..|done]. Qed.

Section Planning.
Context (plans : list PlannedTool) (b : Batch) (p : PlannedTool) (deps : list nat) (dts : list (list nat)).
Hypothesis Hb : books plans b.
Hypothesis Hdn : NoDup deps.
Hypothesis Hdeps : forall d, d ∈ deps <-> b_completed b !! d = Some false /\
  exists q, plans !! d = Some q /\ conflicts (pt_effects p) (pt_effects q) = true.
Hypothesis Hal : length dts = length (b_dependents b).
Hypothesis Hai : forall d, dts !! d =
  if decide (d ∈ deps) then (fun l => l ++ [length plans]) <$> b_dependents b !! d else b_dependents b !! d.

Lemma planned_below d : d ∈ deps -> (d < length plans)%nat.
Proof. intros (_ & q & Eq & _)%Hdeps. by apply lookup_lt_Some in Eq. Qed.

Lemma planned_ready i :
  i ∈ match deps with [] => b_ready b ++ [length plans] | _ => b_ready b end <->
  (exists q, (b_nodes b ++ [Some p]) !! i = Some (Some q)) /\ (b_remaining b ++ [length deps]) !! i = Some 0%nat.
Proof.
  rewrite !lookup_snoc_cases, (bk_nodes _ _ Hb), (bk_remaining _ _ Hb).
  assert (i ∈ match deps with [] => b_ready b ++ [length plans] | _ => b_ready b end <->
          i ∈ b_ready b \/ i = length plans /\ deps = []) as ->.
  { destruct deps; [|naive_solver]. rewrite elem_of_app, list_elem_of_singleton. naive_solver. }
  rewrite (bk_ready _ _ Hb i). case_decide as Ei.
  - subst i. split.
    + intros [[_ Ez]|[_ ->]]; [apply lookup_lt_Some in Ez; rewrite (bk_remaining _ _ Hb) in Ez; lia|].
      split; [by eexists|done].
    + intros [_ [= Hl]]. right. split; [done|by destruct deps].
  - split; [intros [?|[? _]]; done|by left].
Qed.

Lemma planned_dependents d l :
  (dts ++ [[]]) !! d = Some l ->
  NoDup l /\ forall i, i ∈ l -> (d < i < length (plans ++ [p]))%nat /\ conflicting (plans ++ [p]) i d.
Proof.
  rewrite lookup_snoc_cases, Hal, (bk_dependents_length _ _ Hb). case_decide as Ei.
  { intros [= <-]. split; [apply NoDup_nil_2|]. intros i Hi. by apply not_elem_of_nil in Hi. }
  rewrite Hai. case_decide as Hd.
  - intros (l0 & El & ->)%fmap_Some. destruct (bk_dependents _ _ Hb _ _ El) as [Hl1 Hl2].
    apply Hdeps in Hd as (_ & q & Eq & Hc). split.
    + apply list.NoDup_app. split; [done|]. split; [|apply NoDup_singleton].
      intros i Hi. rewrite list_elem_of_singleton. apply Hl2 in Hi. lia.
    + intros i. rewrite elem_of_app, list_elem_of_singleton, length_app. cbn. intros [Hi| ->].
      * destruct (Hl2 i Hi) as [? Hcf]. split; [lia|by apply conflicting_app].
      * pose proof (lookup_lt_Some _ _ _ Eq). split; [lia|]. exists p, q. rewrite !lookup_snoc_cases.
         rewrite decide_True by done. rewrite decide_False by lia. done.
  - intros El. destruct (bk_dependents _ _ Hb _ _ El) as [Hl1 Hl2]. split; [done|].
    intros i Hi. destruct (Hl2 i Hi) as [? Hcf]. rewrite length_app. cbn. split; [lia|by apply conflicting_app].
Qed.

Lemma planned_waits b' i k :
  b_completed b' = b_completed b ++ [false] -> b_dependents b' = dts ++ [[]] ->
  (b_remaining b ++ [length deps]) !! i = Some k -> exists W, waits b' i W /\ length W = k.
Proof.
  intros Ec' Ed'. rewrite lookup_snoc_cases, (bk_remaining _ _ Hb). case_decide as Ei.
  - intros [= <-]. subst i. exists deps. split; [|done]. split; [done|]. intros d. rewrite Ec', Ed'.
    rewrite !lookup_snoc_cases, Hal, (bk_completed _ _ Hb), (bk_dependents_length _ _ Hb), Hai. case_decide as Edd.
    + subst d. split; [intros Hd; apply planned_below in Hd; lia|].
      intros (_ & l & [= <-] & Hl). by apply not_elem_of_nil in Hl.
    + split.
      * intros Hd. apply Hdeps in Hd as Hd'. destruct Hd' as (Hc & q & Eq & _). split; [done|].
         rewrite decide_True by done.
         destruct (lookup_lt_is_Some_2 (b_dependents b) d) as [l El]; [rewrite (bk_dependents_length _ _ Hb); by apply planned_below|].
         rewrite El. eexists. split; [done|]. rewrite elem_of_app, list_elem_of_singleton. by right.
      * intros (Hc & l & El & Hl). case_decide as Hd; [done|]. apply (bk_dependents _ _ Hb) in El as [_ El].
         apply El in Hl. lia.
  - intros Ek. destruct (bk_waits _ _ Hb i k Ek) as (W & [HW1 HW2] & <-). exists W. split; [|done]. split; [done|].
    intros d. rewrite Ec', Ed', HW2, !lookup_snoc_cases, Hal, (bk_completed _ _ Hb), (bk_dependents_length _ _ Hb), Hai.
    case_decide as Edd.
    + subst d. split.
      * intros [Hc _]. apply lookup_lt_Some in Hc. rewrite (bk_completed _ _ Hb) in Hc. lia.
      * intros (_ & l & [= <-] & Hl). by apply not_elem_of_nil in Hl.
    + case_decide as Hd; [|done]. apply and_iff_compat_l. split.
      * intros (l & -> & Hl). eexists. split; [done|]. rewrite elem_of_app. by left.
      * intros (l & (l0 & El & ->)%fmap_Some & Hl). exists l0. split; [done|].
         rewrite elem_of_app, list_elem_of_singleton in Hl. by destruct Hl.
Qed.

Lemma planned_conflicts d i :
  (d < i)%nat -> conflicting (plans ++ [p]) i d ->
  (b_completed b ++ [false]) !! d = Some true \/ exists l, (dts ++ [[]]) !! d = Some l /\ i ∈ l.
Proof.
  intros Hlt Hc. rewrite !lookup_snoc_cases, Hal, (bk_completed _ _ Hb), (bk_dependents_length _ _ Hb), Hai.
  apply conflicting_snoc in Hc as [Hc|(-> & q & Eq & Hc)]; [| |done].
  - assert (d < length plans)%nat by (destruct Hc as (? & ? & _ & Hq & _); by apply lookup_lt_Some in Hq).
    rewrite !decide_False by lia. destruct (bk_conflicts _ _ Hb d i Hlt Hc) as [?|(l & El & Hl)]; [by left|right].
    case_decide; [|by exists l]. rewrite El. eexists. split; [done|]. rewrite elem_of_app. by left.
  - rewrite !decide_False by lia.
    destruct (lookup_lt_is_Some_2 (b_completed b) d) as [[|] Ec]; [rewrite (bk_completed _ _ Hb); lia|by left|right].
    destruct (lookup_lt_is_Some_2 (b_dependents b) d) as [l El]; [rewrite (bk_dependents_length _ _ Hb); lia|].
    rewrite decide_True by (apply Hdeps; eauto). rewrite El. eexists. split; [done|].
    rewrite elem_of_app, list_elem_of_singleton. by right.
Qed.

End Planning.

Lemma books_plan plans call tool prepared calls b :
  books plans b ->
  let p := {| pt_call := call; pt_tool := tool; pt_effects := pc_effects prepared; pt_prepared := prepared |} in
  books (plans ++ [p]) (plan_node call tool prepared calls b) /\
  b_phase (plan_node call tool prepared calls b) = NextCall calls /\
  b_positions (plan_node call tool prepared calls b) = b_positions b ++ [PosNode (length plans)] /\
  b_cancelled (plan_node call tool prepared calls b) = b_cancelled b.
Proof.
  intros Hb p. unfold plan_node. pose proof (bk_nodes _ _ Hb) as Hn.
  destruct (dependencies_from_spec 0 (b_effects b) (b_completed b) (pc_effects prepared)) as (deps & Ed & Hdn & Hdi).
  { rewrite (bk_effects _ _ Hb), length_map, (bk_completed _ _ Hb). lia. }
  rewrite Ed.
  assert (forall d, d ∈ deps <-> b_completed b !! d = Some false /\
      exists q, plans !! d = Some q /\ conflicts (pt_effects p) (pt_effects q) = true) as Hdeps.
  { intros d. rewrite Hdi, Nat.sub_0_r, (bk_effects _ _ Hb).
    setoid_rewrite list_lookup_fmap. setoid_rewrite fmap_Some. naive_solver lia. }
  clear Hdi.
  destruct (add_dependent_spec (length (b_nodes b)) deps (b_dependents b)) as (dts & Ea & Hal & Hai); [done| |].
  { intros d Hd. rewrite (bk_dependents_length _ _ Hb). by eapply planned_below. }
  rewrite Ea, Hn. cbn [b_phase b_positions b_cancelled]. split_and!; [|done..].
  rewrite Hn in Hai.
  constructor; cbn.
  - rewrite !length_app. cbn. lia.
  - by rewrite map_app, (bk_effects _ _ Hb).
  - rewrite !length_app, (bk_remaining _ _ Hb). done.
  - rewrite !length_app, Hal, (bk_dependents_length _ _ Hb). done.
  - rewrite !length_app, (bk_completed _ _ Hb). done.
  - rewrite !length_app, (bk_ordered_length _ _ Hb). done.
  - intros i q. rewrite !lookup_snoc_cases, Hn, (bk_completed _ _ Hb).
    case_decide; [intros [= <-]; done|]. apply Hb.
  - intros r Hr. destruct (bk_active _ _ Hb r Hr) as (H1 & H2 & H3 & H4). rewrite !lookup_snoc_cases, Hn, (bk_completed _ _ Hb).
    apply lookup_lt_Some in H1 as Hlt.
    rewrite !decide_False by lia. done.
  - apply Hb.
  - intros i. rewrite !lookup_snoc_cases, Hn, (bk_completed _ _ Hb). case_decide; [done|]. apply Hb.
  - intros i run. rewrite !lookup_snoc_cases, (bk_ordered_length _ _ Hb). case_decide; [done|]. apply Hb.
  - intros i. rewrite !lookup_snoc_cases, Hn, (bk_completed _ _ Hb), (bk_ordered_length _ _ Hb). case_decide; [done|]. apply Hb.
  - intros i. rewrite !lookup_snoc_cases, (bk_completed _ _ Hb), (bk_ordered_length _ _ Hb). case_decide; [done|]. apply Hb.
  - destruct deps; [|apply Hb]. apply list.NoDup_app. split; [apply Hb|]. split; [|apply NoDup_singleton].
    intros i [[q Eq] _]%(bk_ready _ _ Hb). apply lookup_lt_Some in Eq. rewrite list_elem_of_singleton. lia.
  - intros i. by eapply planned_ready with (p := p) (dts := dts).
  - intros i. rewrite !lookup_snoc_cases, Hn, (bk_remaining _ _ Hb). case_decide; [done|]. apply Hb.
  - intros d l. by eapply planned_dependents with (p := p) (dts := dts).
  - intros i k. by eapply planned_waits with (p := p) (dts := dts).
  - intros d i. by eapply planned_conflicts with (p := p) (dts := dts).
Qed.

End Facts.

Section Runs.
Context `{ToolTypes}.
Implicit Types (b : Batch) (i d k index : nat) (plans : list PlannedTool) (calls : list ToolCall).

(** * Positions *)

(** The calls that have no position yet. *)
Definition calls_left (phase : Phase) : list ToolCall :=
  match phase with
  | NextCall calls => calls
  | StartReady (ForPreparation call _ calls) | Awaiting (ForPreparation call _ calls) => call :: calls
  | _ => []
  end.

Definition position_node (position : ProviderPosition) : option nat :=
  match position with PosImmediate _ => None | PosNode index => Some index end.

(** How a call is answered that is not run. *)
Definition without_run (cancelled : bool) (call : ToolCall) (item : TurnItem) : Prop :=
  exists result, item = ItemToolResult result /\
    (result = missing_tool_result call \/ result = cancelled_tool_result call /\ cancelled = true \/
     exists error, result = result_error (tc_id call) (error_display error)).

Definition position_ok (cancelled : bool) plans (call : ToolCall) (position : ProviderPosition) : Prop :=
  match position with
  | PosImmediate item => without_run cancelled call item
  | PosNode index => exists p, plans !! index = Some p /\ pt_call p = call
  end.

(** How an entry answers its call. *)
Definition entry_ok (cancelled : bool) (call : ToolCall) (entry : ToolBatchEntry) : Prop :=
  match entry with
  | EntryImmediate item => without_run cancelled call item
  | EntryRun run => exists p, pt_call p = call /\ run_ok cancelled p run
  end.

Definition phase_ok calls b : Prop :=
  match b_phase b with
  | Finished entries => Forall2 (entry_ok (b_cancelled b)) calls entries
  | Panicked => False
  | Awaiting _ => b_cancelled b = true \/ b_ready b = []
  | _ => True
  end.

Record batch_ok calls plans b : Prop := {
  ok_books : books plans b;
  ok_nodes : omap position_node (b_positions b) = seq 0 (length plans);
  ok_positions : exists settled, calls = settled ++ calls_left (b_phase b) /\
    Forall2 (position_ok (b_cancelled b) plans) settled (b_positions b);
  ok_phase : phase_ok calls b
}.

Lemma without_run_weaken c c' call item : (c = true -> c' = true) -> without_run c call item -> without_run c' call item.
Proof. intros Hc (r & Hi & Hr). exists r. split; [done|]. naive_solver. Qed.

Lemma position_ok_weaken c c' plans p call position :
  (c = true -> c' = true) -> position_ok c plans call position -> position_ok c' (plans ++ p) call position.
Proof.
  intros Hc. destruct position as [item|index]; cbn; [by apply without_run_weaken|].
  intros (q & Hq & E). exists q. split; [by apply lookup_app_l_Some|done].
Qed.

Lemma positions_weaken c c' plans p calls positions :
  (c = true -> c' = true) -> Forall2 (position_ok c plans) calls positions ->
  Forall2 (position_ok c' (plans ++ p)) calls positions.
Proof. intros Hc. apply Forall2_impl. intros call position. by apply position_ok_weaken. Qed.

Lemma batch_ok_start calls cancelled : batch_ok calls [] (batch_start calls cancelled).
Proof.
  constructor; [apply books_start|done| |done]. exists []. split; [done|]. constructor.
Qed.

(** * The end of the batch *)

Lemma settle_pending_spec index (nodes : list (option PlannedTool)) (ordered : list (option ToolRun)) :
  (index + length nodes <= length ordered)%nat ->
  exists ordered', settle_pending index nodes ordered = Some ordered' /\
    forall i, ordered' !! i =
      match (if decide (index <= i)%nat then nodes !! (i - index)%nat else None) with
      | Some (Some p) => Some (Some (cancelled_run p)) | _ => ordered !! i end.
Proof.
  revert index ordered. induction nodes as [|[p|] nodes IH]; intros index ordered Hl; cbn in *.
  - exists ordered. split; [done|]. intros i. by case_decide.
  - destruct (lookup_lt_is_Some_2 ordered index ltac:(lia)) as [o Eo]. rewrite Eo.
    destruct (IH (S index) (<[index:=Some (cancelled_run p)]> ordered)) as (o' & E1 & E2); [rewrite length_insert; lia|].
    exists o'. split; [done|]. intros i. rewrite E2, insert_lookup_cases. destruct (decide (index = i)) as [<-|Hne].
    + rewrite decide_False by lia. rewrite decide_True, Nat.sub_diag by lia. cbn. by rewrite Eo.
    + destruct (decide (S index <= i)%nat).
      * rewrite decide_True by lia. replace (i - index)%nat with (S (i - S index)) by lia. done.
      * rewrite decide_False by lia. done.
  - destruct (IH (S index) ordered ltac:(lia)) as (o' & E1 & E2). exists o'. split; [done|]. intros i. rewrite E2.
    destruct (decide (S index <= i)%nat).
    + rewrite decide_True by lia. replace (i - index)%nat with (S (i - S index)) by lia. done.
    + destruct (decide (index <= i)%nat); [|done]. replace (i - index)%nat with 0%nat by lia. done.
Qed.

Definition entry_at (ordered : list (option ToolRun)) (position : ProviderPosition) (entry : ToolBatchEntry) : Prop :=
  match position, entry with
  | PosImmediate item, EntryImmediate item' => item = item'
  | PosNode index, EntryRun run => ordered !! index = Some (Some run)
  | _, _ => False
  end.

Lemma take_entries_spec positions (ordered : list (option ToolRun)) :
  NoDup (omap position_node positions) ->
  (forall i, i ∈ omap position_node positions -> exists run, ordered !! i = Some (Some run)) ->
  exists entries, take_entries positions ordered = Some entries /\ Forall2 (entry_at ordered) positions entries.
Proof.
  revert ordered. induction positions as [|[item|index] positions IH]; intros ordered Hn Ho; cbn in *.
  - by exists [].
  - destruct (IH ordered Hn Ho) as (entries & E & Hf). rewrite E. cbn. eexists. split; [done|]. by constructor.
  - apply list.NoDup_cons in Hn as [Hni Hn]. destruct (Ho index) as [run Er]; [set_solver|]. rewrite Er.
    assert (forall i, i ∈ omap position_node positions -> <[index:=None]> ordered !! i = ordered !! i) as Hsame.
    { intros i Hi. rewrite list_lookup_insert_ne; [done|]. by intros ->. }
    destruct (IH (<[index:=None]> ordered) Hn) as (entries & E & Hf).
    { intros i Hi. rewrite Hsame by done. apply Ho. set_solver. }
    rewrite E. cbn. eexists. split; [done|]. constructor; [done|].
    clear -Hf Hsame. induction Hf as [|[item|i] [item'|run'] positions entries He Hf IH]; constructor; try done.
    + apply IH. intros i Hi. apply Hsame. set_solver.
    + cbn in He |- *. rewrite <- Hsame; [done|]. set_solver.
    + apply IH. intros i' Hi. apply Hsame. set_solver.
Qed.

(** When nothing runs and nothing is ready, nothing waits. *)
Lemma nothing_pending plans b i : books plans b -> b_active b = [] -> b_ready b = [] -> ~ pending b i.
Proof.
  intros Hb Ha Hr. induction (lt_wf i) as [i _ IH]. intros [p Ep].
  destruct (lookup_lt_is_Some_2 (b_remaining b) i) as [k Ek].
  { rewrite (bk_remaining _ _ Hb), <- (bk_nodes _ _ Hb). by eapply lookup_lt_Some. }
  destruct (bk_waits _ _ Hb i k Ek) as (W & [_ HW] & Hl). destruct W as [|d W].
  - cbn in Hl. subst k. assert (i ∈ b_ready b) as Hi by (apply (bk_ready _ _ Hb); split; [by exists p|done]).
    rewrite Hr in Hi. by apply not_elem_of_nil in Hi.
  - destruct (proj1 (HW d)) as (Hc & l & El & Hil); [set_solver|].
    apply (bk_dependents _ _ Hb) in El as [_ El]. destruct (El i Hil) as [Hlt _]. apply (IH d); [lia|].
    destruct (lookup_lt_is_Some_2 (b_nodes b) d) as [[q|] Eq].
    + rewrite (bk_nodes _ _ Hb), <- (bk_completed _ _ Hb). by eapply lookup_lt_Some.
    + by exists q.
    + destruct (bk_started _ _ Hb d Eq) as [?|(r & Hra & _)]; [congruence|]. rewrite Ha in Hra.
      by apply not_elem_of_nil in Hra.
Qed.

Lemma settled_runs plans b (ordered : list (option ToolRun)) :
  books plans b -> b_active b = [] -> b_cancelled b = true \/ b_ready b = [] ->
  (forall i, ordered !! i = match b_nodes b !! i with
                            | Some (Some p) => Some (Some (cancelled_run p)) | _ => b_ordered b !! i end) ->
  forall i p, plans !! i = Some p -> exists run, ordered !! i = Some (Some run) /\ run_ok (b_cancelled b) p run.
Proof.
  intros Hb Ha Hcr Ho i p Hp. rewrite Ho.
  destruct (lookup_lt_is_Some_2 (b_nodes b) i) as [[q|] En].
  { rewrite (bk_nodes _ _ Hb). by eapply lookup_lt_Some. }
  - rewrite En. destruct (bk_pending _ _ Hb _ _ En) as [Hq _]. assert (q = p) as -> by congruence.
    eexists. split; [done|]. right. split; [done|]. destruct Hcr as [?|Hr]; [done|].
    destruct (nothing_pending _ _ i Hb Ha Hr). by exists p.
  - rewrite En. destruct (bk_started _ _ Hb i En) as [Hc|(r & Hr & _)].
    + destruct (bk_done _ _ Hb i Hc) as [_ [run Er]]. exists run. split; [done|].
      destruct (bk_ordered _ _ Hb i run Er) as (q & Hq & Hrun). by replace q with p in Hrun by congruence.
    + rewrite Ha in Hr. by apply not_elem_of_nil in Hr.
Qed.

Lemma entries_ok c plans (ordered : list (option ToolRun)) calls positions entries :
  (forall i p, plans !! i = Some p -> exists run, ordered !! i = Some (Some run) /\ run_ok c p run) ->
  Forall2 (position_ok c plans) calls positions -> Forall2 (entry_at ordered) positions entries ->
  Forall2 (entry_ok c) calls entries.
Proof.
  intros Hr Hp. revert entries. induction Hp as [|call position calls positions Hc Hp IH]; intros entries He;
    inversion He as [|? entry ? entries' Hent He']; subst; constructor; [|by apply IH].
  destruct position as [item|i], entry as [item'|run]; cbn in *; try done; [by subst|].
  destruct Hc as (p & Hpl & Ec). exists p. split; [done|]. destruct (Hr i p Hpl) as (run' & E & Hok). congruence.
Qed.

Lemma finish_ok calls plans b :
  batch_ok calls plans b -> b_phase b = Awaiting ForDrain -> b_active b = [] ->
  exists entries, finish b = at_phase (Finished entries) b /\ Forall2 (entry_ok (b_cancelled b)) calls entries.
Proof.
  intros [Hb Hn (settled & -> & Hpos) Hph] Ep Ha. unfold phase_ok in Hph. rewrite Ep in Hph |- *.
  cbn [calls_left]. rewrite app_nil_r. unfold finish.
  destruct (settle_pending_spec 0 (b_nodes b) (b_ordered b)) as (ordered & E1 & E2).
  { rewrite (bk_nodes _ _ Hb), (bk_ordered_length _ _ Hb). lia. }
  rewrite E1. assert (forall i, ordered !! i = match b_nodes b !! i with
      | Some (Some p) => Some (Some (cancelled_run p)) | _ => b_ordered b !! i end) as Ho.
  { intros i. rewrite E2, decide_True, Nat.sub_0_r by lia. done. }
  pose proof (settled_runs _ _ _ Hb Ha Hph Ho) as Hruns.
  destruct (take_entries_spec (b_positions b) ordered) as (entries & E & He).
  - rewrite Hn. apply list.NoDup_seq.
  - intros i. rewrite Hn, elem_of_seq. intros [_ Hi].
    destruct (lookup_lt_is_Some_2 plans i Hi) as [p Hp]. destruct (Hruns i p Hp) as (run & Er & _). by exists run.
  - rewrite E. exists entries. split; [done|]. by eapply entries_ok.
Qed.

(** * Every step keeps the invariant *)

Lemma run_one_settles c answer p stage run events :
  stage_ok p stage -> run_one c answer p stage = (inr run, events) -> run_ok c p run.
Proof.
  unfold run_one. destruct stage as [| | |result progress journal]; intros Hs.
  - destruct c; intros [= <- <-]. by right.
  - destruct (an_started answer); intros [= <- <-]. left. apply ran_refused.
  - done.
  - intros [= <- <-]. left. destruct Hs as (res & effects & -> & ->). apply ran_through.
Qed.

Lemma run_one_stage c answer p stage stage' events :
  run_one c answer p stage = (inl stage', events) -> stage_ok p stage'.
Proof.
  unfold run_one. destruct stage as [| | |result progress journal].
  - by destruct c; intros [= <- <-].
  - by destruct (an_started answer); intros [= <- <-].
  - intros [= <- <-]. by eexists _, _.
  - done.
Qed.

Lemma find_active (actives : list Running) index r :
  List.find (fun r => rn_index r =? index)%nat actives = Some r -> r ∈ actives /\ rn_index r = index.
Proof. intros [Hin E]%List.find_some. split; [by apply list_elem_of_In|by apply Nat.eqb_eq]. Qed.

(** A polled run comes to its next await, or is settled. *)
Lemma poll_cases index answer at_ b b' :
  poll index answer at_ b = Some b' ->
  exists r, r ∈ b_active b /\ rn_index r = index /\
    ((exists stage events, run_one (b_cancelled b) answer (rn_pending r) (rn_stage r) = (inl stage, events) /\
        b' = with_stage index stage events b) \/
     (exists run events, run_one (b_cancelled b) answer (rn_pending r) (rn_stage r) = (inr run, events) /\
        b' = complete_run index run at_ b)).
Proof.
  unfold poll. intros (r & Er & Hb)%bind_Some. apply find_active in Er as [Hr Hi]. exists r. split; [done|]. split; [done|].
  destruct (run_one _ _ _ _) as [[stage|run] events]; injection Hb as <-; [left|right]; by eexists _, _.
Qed.

Lemma complete_run_others plans r run next b :
  books plans b -> r ∈ b_active b ->
  b_positions (complete_run (rn_index r) run next b) = b_positions b /\
  b_cancelled (complete_run (rn_index r) run next b) = b_cancelled b.
Proof.
  intros Hb Hr. unfold complete_run. by repeat case_match.
Qed.

Lemma batch_ok_poll calls plans index answer at_ b b' :
  batch_ok calls plans b -> b_phase b = Awaiting at_ -> poll index answer at_ b = Some b' -> batch_ok calls plans b'.
Proof.
  intros [Hb Hn Hpos Hph] Ep (r & Hr & <- & [(stage & events & E & ->)|(run & events & E & ->)])%poll_cases.
  - constructor; [|done..]. apply books_with_stage; [done..|]. by eapply run_one_stage.
  - assert (run_ok (b_cancelled b) (rn_pending r) run) as Hok.
    { eapply run_one_settles; [|done]. by apply (bk_active _ _ Hb). }
    destruct (books_complete plans r run at_ b Hb Hr Hok) as [Hb' Ep'].
    destruct (complete_run_others plans r run at_ b Hb Hr) as [E1 E2].
    constructor; [done|by rewrite E1| |unfold phase_ok; by rewrite Ep'].
    rewrite E1, E2, Ep'. by rewrite Ep in Hpos.
Qed.

Lemma batch_ok_start_ready calls plans next b :
  batch_ok calls plans b -> b_phase b = StartReady next -> batch_ok calls plans (start_ready_tools next b).
Proof.
  intros [Hb Hn Hpos Hph] Ep. destruct (books_start_ready plans next b Hb) as [Hb' Ep'].
  assert (b_positions (start_ready_tools next b) = b_positions b /\
          b_cancelled (start_ready_tools next b) = b_cancelled b) as [E1 E2].
  { unfold start_ready_tools. by repeat case_match. }
  constructor; [done|by rewrite E1| |].
  - rewrite E1, E2, Ep'. rewrite Ep in Hpos. by destruct (b_cancelled b), (b_ready b).
  - unfold phase_ok. rewrite Ep'. destruct (b_cancelled b) eqn:Ec; [by left; rewrite E2|].
    destruct (b_ready b) eqn:Er; [|done]. right. unfold start_ready_tools. by rewrite Ec, Er.
Qed.

Lemma batch_ok_immediate plans calls call result left b :
  batch_ok calls plans b -> calls_left (b_phase b) = call :: left ->
  without_run (b_cancelled b) call (ItemToolResult result) -> batch_ok calls plans (push_immediate result left b).
Proof.
  intros [Hb Hn (settled & -> & Hpos) Hph] Ec Hw. constructor; [by apply books_push_immediate| | |done]; cbn.
  - by rewrite omap_app, Hn, app_nil_r.
  - exists (settled ++ [call]). rewrite Ec, <- app_assoc. split; [done|]. apply Forall2_app; [done|]. by constructor.
Qed.

Lemma batch_ok_plan calls plans call tool prepared left b :
  batch_ok calls plans b -> calls_left (b_phase b) = call :: left ->
  exists p, batch_ok calls (plans ++ [p]) (plan_node call tool prepared left b).
Proof.
  intros [Hb Hn (settled & -> & Hpos) Hph] Ec.
  destruct (books_plan plans call tool prepared left b Hb) as (Hb' & Ep & E1 & E2).
  eexists. constructor; [done| | |unfold phase_ok; by rewrite Ep].
  - rewrite E1, omap_app, Hn, length_app, seq_app. done.
  - exists (settled ++ [call]). rewrite Ec, Ep, <- app_assoc. split; [done|]. rewrite E1, E2.
    apply Forall2_app; [eapply positions_weaken; [|exact Hpos]; done|]. constructor; [|constructor]. cbn. eexists.
    split; [by rewrite lookup_app_r, Nat.sub_diag by lia|done].
Qed.

Lemma batch_ok_cancel calls plans b : batch_ok calls plans b -> batch_ok calls plans (cancel b).
Proof.
  intros [Hb Hn (settled & E & Hpos) Hph]. constructor; [by apply books_cancel|done| |].
  - exists settled. split; [done|]. cbn. rewrite <- (app_nil_r plans). eapply positions_weaken; [|exact Hpos]. done.
  - unfold phase_ok in *. cbn. destruct (b_phase b); try done; [by left|].
    revert Hph. apply Forall2_impl. intros call [item|run]; cbn; [by apply without_run_weaken|].
    intros (p & Hp & Hr). exists p. split; [done|]. eapply run_ok_weaken; [|exact Hr]. done.
Qed.

Lemma batch_ok_move calls plans phase b :
  batch_ok calls plans b -> calls_left phase = calls_left (b_phase b) ->
  match phase with NextCall _ | StartReady _ => True | _ => False end -> batch_ok calls plans (at_phase phase b).
Proof.
  intros [Hb Hn Hpos Hph] E Hp. constructor; [by apply books_at_phase|done| |by destruct phase].
  cbn. by rewrite E.
Qed.

Theorem step_keeps_batch_ok calls plans choice b b' :
  batch_ok calls plans b -> step choice b = Some b' -> exists plans', plans `prefix_of` plans' /\ batch_ok calls plans' b'.
Proof.
  intros Hok Hs.
  assert (batch_ok calls plans b' -> exists plans', plans `prefix_of` plans' /\ batch_ok calls plans' b') as Hsame
    by (intros ?; by exists plans).
  unfold step in Hs. destruct choice as [| |found|answer| |index answer].
  - apply Hsame. destruct (b_phase b), (b_cancelled b); try done; injection Hs as <-; by apply batch_ok_cancel.
  - apply Hsame. destruct (b_phase b) as [[|call calls']|next|[call tool calls'|]| |] eqn:Ep; try done.
    + injection Hs as <-. apply batch_ok_move; [done|by rewrite Ep|done].
    + destruct (b_cancelled b) eqn:Ec; [|done]. injection Hs as <-. eapply batch_ok_immediate; [done|by rewrite Ep|].
      eexists. split; [done|]. auto.
    + injection Hs as <-. by apply batch_ok_start_ready.
    + destruct (b_active b) eqn:Ea; [|done]. injection Hs as <-.
      destruct (finish_ok _ _ _ Hok Ep Ea) as (entries & -> & He). destruct Hok as [Hb Hn (settled & E & Hpos) Hph].
      constructor; [by apply books_at_phase|done| |done]. exists settled. by rewrite Ep in E.
  - apply Hsame. destruct (b_phase b) as [[|call calls']|next|at_| |] eqn:Ep; try done.
    destruct (b_cancelled b) eqn:Ec; [done|]. injection Hs as <-. destruct found as [tool|].
    + apply batch_ok_move; [done|by rewrite Ep|done].
    + eapply batch_ok_immediate; [done|by rewrite Ep|]. eexists. split; [done|]. auto.
  - destruct answer as [prepared|error], (b_phase b) as [|next|[call tool calls'|]| |] eqn:Ep; try done;
      injection Hs as <-.
    + destruct (batch_ok_plan calls plans call tool prepared calls' b Hok) as [p Hp]; [by rewrite Ep|].
      exists (plans ++ [p]). split; [by apply prefix_app_r|done].
    + apply Hsame. eapply batch_ok_immediate; [done|by rewrite Ep|]. eexists. split; [done|]. eauto.
  - apply Hsame. destruct (b_phase b) as [|next|[call tool calls'|]| |] eqn:Ep; try done.
    destruct (b_cancelled b) eqn:Ec; [|done]. injection Hs as <-. eapply batch_ok_immediate; [done|by rewrite Ep|].
    eexists. split; [done|]. eauto.
  - apply Hsame. destruct (b_phase b) eqn:Ep; try done. by eapply batch_ok_poll.
Qed.

Lemma bstep_keeps_batch_ok calls plans b b' :
  batch_ok calls plans b -> bstep b b' -> exists plans', plans `prefix_of` plans' /\ batch_ok calls plans' b'.
Proof. intros Hok [choice Hs]. by eapply step_keeps_batch_ok. Qed.

Lemma rtc_keeps_batch_ok calls plans b b' :
  batch_ok calls plans b -> rtc bstep b b' -> exists plans', plans `prefix_of` plans' /\ batch_ok calls plans' b'.
Proof.
  intros Hok Hr. revert plans Hok. induction Hr as [b|b b1 b' Hs _ IH]; intros plans Hok; [by exists plans|].
  destruct (bstep_keeps_batch_ok _ _ _ _ Hok Hs) as (plans1 & Hp1 & Hok1).
  destruct (IH plans1 Hok1) as (plans2 & Hp2 & Hok2). exists plans2. split; [by etrans|done].
Qed.

Lemma batch_of_ok calls b : batch_of calls b -> exists plans, batch_ok calls plans b.
Proof.
  intros [c Hr]. destruct (rtc_keeps_batch_ok calls [] _ _ (batch_ok_start calls c) Hr) as (plans & _ & Hok). by exists plans.
Qed.

(** * Every step comes closer to the end *)

Definition stage_weight (stage : RunStage) : nat :=
  match stage with NotPolled => 5 | AwaitsStarted => 4 | AwaitsTool => 3 | AwaitsCompleted _ _ _ => 2 end.

Definition node_weight (node : option PlannedTool) : nat := match node with Some _ => 6 | None => 0 end.

Definition phase_weight (phase : Phase) : nat :=
  match phase with
  | NextCall calls => 10 * length calls + 3
  | StartReady (ForPreparation _ _ calls) => 10 * length calls + 12
  | Awaiting (ForPreparation _ _ calls) => 10 * length calls + 11
  | StartReady ForDrain => 2
  | Awaiting ForDrain => 1
  | Finished _ | Panicked => 0
  end.

Definition actives_weight (actives : list Running) : nat := list_sum (map (fun r => stage_weight (rn_stage r)) actives).

Definition batch_weight b : nat :=
  (if b_cancelled b then 0 else 1) + phase_weight (b_phase b) + actives_weight (b_active b)
  + list_sum (map node_weight (b_nodes b)).

Lemma active_split (actives : list Running) r :
  NoDup (map rn_index actives) -> r ∈ actives ->
  exists l1 l2, actives = l1 ++ r :: l2 /\
    (forall stage, set_stage (rn_index r) stage actives
       = l1 ++ {| rn_index := rn_index r; rn_pending := rn_pending r; rn_stage := stage |} :: l2) /\
    List.filter (fun r' => negb (rn_index r' =? rn_index r)%nat) actives = l1 ++ l2.
Proof.
  intros Hn (l1 & l2 & ->)%list_elem_of_split. exists l1, l2. split; [done|].
  rewrite map_app in Hn. cbn in Hn. apply list.NoDup_app in Hn as (_ & Hd & Hn).
  apply list.NoDup_cons in Hn as [Hr _].
  assert (forall l, (forall r', r' ∈ l -> rn_index r' <> rn_index r) ->
    (forall stage, set_stage (rn_index r) stage l = l) /\
    List.filter (fun r' => negb (rn_index r' =? rn_index r)%nat) l = l) as Hl.
  { intros l Hl. induction l as [|r' l IH]; [done|]. destruct IH as [I1 I2]; [intros; apply Hl; set_solver|].
    assert ((rn_index r' =? rn_index r)%nat = false) as E by (apply Nat.eqb_neq, Hl; set_solver).
    split; [intros stage; unfold set_stage in *; cbn; by rewrite E, I1|]. cbn. by rewrite E, I2. }
  destruct (Hl l1) as [A1 A2].
  { intros r' Hr' E. apply (Hd (rn_index r')); [by apply list_elem_of_fmap_2|]. rewrite E. set_solver. }
  destruct (Hl l2) as [B1 B2].
  { intros r' Hr' E. apply Hr. rewrite <- E. by apply list_elem_of_fmap_2. }
  unfold set_stage in *. split; [intros stage|].
  - rewrite map_app. cbn. by rewrite A1, B1, Nat.eqb_refl.
  - rewrite List.filter_app. cbn. by rewrite Nat.eqb_refl, A2, B2.
Qed.

Lemma list_sum_cons x (l : list nat) : list_sum (x :: l) = (x + list_sum l)%nat.
Proof. done. Qed.

Lemma actives_weight_split l1 r l2 :
  actives_weight (l1 ++ r :: l2) = (actives_weight (l1 ++ l2) + stage_weight (rn_stage r))%nat.
Proof. unfold actives_weight. rewrite !map_app, !list_sum_app. cbn [map]. rewrite list_sum_cons. lia. Qed.

Lemma nodes_weight_take index (nodes : list (option PlannedTool)) p :
  nodes !! index = Some (Some p) ->
  list_sum (map node_weight nodes) = (list_sum (map node_weight (<[index:=None]> nodes)) + 6)%nat.
Proof.
  revert index. induction nodes as [|o nodes IH]; intros [|index] Hi; try done.
  - injection Hi as ->. change (<[0%nat:=None]> (Some p :: nodes)) with (None :: nodes).
    cbn [map]. rewrite !list_sum_cons. cbn [node_weight]. lia.
  - change (<[S index:=None]> (o :: nodes)) with (o :: <[index:=None]> nodes).
    cbn [map]. rewrite !list_sum_cons, (IH index Hi). lia.
Qed.

Lemma run_one_weight c answer p stage stage' events :
  run_one c answer p stage = (inl stage', events) -> (stage_weight stage' < stage_weight stage)%nat.
Proof.
  unfold run_one. destruct stage as [| | |result progress journal].
  - destruct c; intros [= <- <-]. cbn. lia.
  - destruct (an_started answer); intros [= <- <-]. cbn. lia.
  - intros [= <- <-]. cbn. lia.
  - done.
Qed.

Lemma stage_weight_least stage : (2 <= stage_weight stage)%nat.
Proof. destruct stage; cbn; lia. Qed.

Lemma poll_decreases plans index answer at_ b b' :
  books plans b -> b_phase b = Awaiting at_ -> poll index answer at_ b = Some b' ->
  (batch_weight b' < batch_weight b)%nat.
Proof.
  intros Hb Ep (r & Hr & <- & Hc)%poll_cases.
  destruct (active_split _ r (bk_active_nodup _ _ Hb) Hr) as (l1 & l2 & E1 & E2 & E3). unfold batch_weight.
  destruct Hc as [(stage & events & E & ->)|(run & events & E & ->)].
  - cbn [with_stage b_cancelled b_phase b_active b_nodes]. rewrite E2, E1, !actives_weight_split.
    cbn [rn_stage]. apply run_one_weight in E. lia.
  - assert (run_ok (b_cancelled b) (rn_pending r) run) as Hok.
    { eapply run_one_settles; [|done]. by apply (bk_active _ _ Hb). }
    destruct (books_complete plans r run at_ b Hb Hr Hok) as [_ Ep']. rewrite Ep', Ep.
    assert (b_active (complete_run (rn_index r) run at_ b) = l1 ++ l2 /\
            b_nodes (complete_run (rn_index r) run at_ b) = b_nodes b) as [-> ->].
    { unfold complete_run in *. rewrite <- E3. by repeat case_match. }
    destruct (complete_run_others plans r run at_ b Hb Hr) as [_ ->].
    rewrite E1, actives_weight_split. pose proof (stage_weight_least (rn_stage r)).
    destruct at_; cbn [phase_weight]; lia.
Qed.

Ltac weigh :=
  unfold batch_weight;
  cbn [at_phase push_immediate preparation_failed cancel b_cancelled b_phase b_active b_nodes phase_weight length];
  repeat match goal with E : b_phase ?b = _ |- _ => rewrite E | E : b_cancelled ?b = _ |- _ => rewrite E end;
  cbn [phase_weight length]; lia.

Lemma start_ready_decreases next b :
  b_phase b = StartReady next -> (batch_weight (start_ready_tools next b) < batch_weight b)%nat.
Proof.
  intros Ep. unfold start_ready_tools.
  destruct (b_cancelled b) eqn:Ec; [destruct next; weigh|].
  destruct (b_ready b) as [|index ready]; [destruct next; weigh|].
  destruct (b_nodes b !! index) as [[p|]|] eqn:En; try (destruct next; weigh).
  unfold batch_weight. rewrite Ep, ?Ec.
  cbn [b_cancelled b_phase b_active b_nodes]. rewrite (nodes_weight_take index (b_nodes b) p) by done.
  change (b_active b ++ [?r]) with (b_active b ++ r :: []). rewrite actives_weight_split, app_nil_r. cbn [rn_stage stage_weight]. lia.
Qed.

Lemma plan_node_decreases plans call tool prepared calls b :
  books plans b -> b_phase b = Awaiting (ForPreparation call tool calls) ->
  (batch_weight (plan_node call tool prepared calls b) < batch_weight b)%nat.
Proof.
  intros Hb Ep. destruct (books_plan plans call tool prepared calls b Hb) as (_ & Ep' & _ & Ec).
  unfold batch_weight. rewrite Ep', Ec, Ep.
  assert (b_active (plan_node call tool prepared calls b) = b_active b /\
          list_sum (map node_weight (b_nodes (plan_node call tool prepared calls b)))
          = (list_sum (map node_weight (b_nodes b)) + 6)%nat) as [-> ->].
  { unfold plan_node in *. repeat case_match; try done; cbn [b_active b_nodes]; by rewrite map_app, list_sum_app. }
  cbn [phase_weight]. lia.
Qed.

Theorem step_decreases calls plans choice b b' :
  batch_ok calls plans b -> step choice b = Some b' -> (batch_weight b' < batch_weight b)%nat.
Proof.
  intros Hok Hs. pose proof (ok_books _ _ _ Hok) as Hb. unfold step in Hs.
  destruct choice as [| |found|answer| |index answer].
  - destruct (b_phase b) eqn:Ep, (b_cancelled b) eqn:Ec; try done; injection Hs as <-; weigh.
  - destruct (b_phase b) as [[|call calls']|next|[call tool calls'|]| |] eqn:Ep; try done.
    + injection Hs as <-. weigh.
    + destruct (b_cancelled b) eqn:Ec; [|done]. injection Hs as <-. weigh.
    + injection Hs as <-. by apply start_ready_decreases.
    + destruct (b_active b) eqn:Ea; [|done]. injection Hs as <-.
      destruct (finish_ok _ _ _ Hok Ep Ea) as (entries & -> & _). weigh.
  - destruct (b_phase b) as [[|call calls']|next|at_| |] eqn:Ep; try done. destruct (b_cancelled b) eqn:Ec; [done|].
    injection Hs as <-. destruct found; weigh.
  - destruct answer as [prepared|error], (b_phase b) as [|next|[call tool calls'|]| |] eqn:Ep; try done;
      injection Hs as <-; [by eapply plan_node_decreases|]. weigh.
  - destruct (b_phase b) as [|next|[call tool calls'|]| |] eqn:Ep; try done. destruct (b_cancelled b) eqn:Ec; [|done].
    injection Hs as <-. weigh.
  - destruct (b_phase b) eqn:Ep; try done. by eapply poll_decreases.
Qed.

Lemma rtc_weight calls plans b b' n :
  batch_ok calls plans b -> nsteps bstep n b b' -> (n + batch_weight b' <= batch_weight b)%nat.
Proof.
  intros Hok Hn. revert plans Hok. induction Hn as [b|n b b1 b' [choice Hs] _ IH]; intros plans Hok; [lia|].
  destruct (step_keeps_batch_ok _ _ _ _ _ Hok Hs) as (plans1 & _ & Hok1). specialize (IH plans1 Hok1).
  pose proof (step_decreases _ _ _ _ _ Hok Hs). lia.
Qed.

Lemma batch_weight_start calls cancelled : (batch_weight (batch_start calls cancelled) <= batch_fuel calls)%nat.
Proof. unfold batch_weight, batch_fuel. destruct cancelled; cbn [batch_start b_cancelled b_phase b_active b_nodes phase_weight]; cbn; lia. Qed.

(** * Something is always awaited that can be answered *)

Lemma poll_open index answer at_ b : active b index -> exists b', poll index answer at_ b = Some b'.
Proof.
  intros (r & Hr & Ei). unfold poll. destruct (List.find (fun r => rn_index r =? index)%nat (b_active b)) as [r'|] eqn:Ef.
  - cbn. destruct (run_one _ _ _ _) as [[]]; by eexists.
  - exfalso. apply (List.find_none _ _ Ef r) in Hr as Hf || (apply list_elem_of_In in Hr; apply (List.find_none _ _ Ef r) in Hr as Hf).
    apply Nat.eqb_neq in Hf. done.
Qed.

Lemma open_choice_steps answers b choice : choice ∈ open_choices answers b -> exists b', step choice b = Some b'.
Proof.
  unfold open_choices, step. destruct (b_phase b) as [[|call calls]|next|[call tool calls|]|entries|] eqn:Ep.
  - intros ->%list_elem_of_singleton. by eexists.
  - destruct (b_cancelled b); intros ->%list_elem_of_singleton; by eexists.
  - intros ->%list_elem_of_singleton. by eexists.
  - rewrite !elem_of_app, list_elem_of_singleton, list_elem_of_fmap. intros [->|[Hc|(r & -> & Hr)]].
    + destruct (as_prepared answers); by eexists.
    + destruct (b_cancelled b); [apply list_elem_of_singleton in Hc as ->; by eexists|by apply not_elem_of_nil in Hc].
    + apply poll_open. by exists r.
  - destruct (b_active b) as [|r0 actives] eqn:Ea; [intros ->%list_elem_of_singleton; by eexists|].
    intros (r & -> & Hr)%list_elem_of_fmap. apply poll_open. exists r. by rewrite Ea.
  - intros Hc. by apply not_elem_of_nil in Hc.
  - intros Hc. by apply not_elem_of_nil in Hc.
Qed.

Lemma open_choices_end calls plans answers b :
  batch_ok calls plans b -> open_choices answers b = [] -> exists entries, b_phase b = Finished entries.
Proof.
  intros Hok. pose proof (ok_phase _ _ _ Hok) as Hp. unfold open_choices, phase_ok in *.
  destruct (b_phase b) as [[|call calls']|next|[call tool calls'|]|entries|]; try done.
  - by destruct (b_cancelled b).
  - by destruct (b_active b).
  - by exists entries.
Qed.

(** No interleaving is left out: every step but the cancellation is an open choice
    for some answers. *)
Lemma step_is_open choice b b' :
  step choice b = Some b' -> choice = Cancel \/ exists answers, choice ∈ open_choices answers b.
Proof.
  intros Hs. set (ans := fun found prepared run =>
    {| as_pick := 0; as_found := found; as_prepared := prepared; as_run := run |} : Answers).
  set (ok := {| an_started := Ok tt; an_progress := []; an_effects := []; an_result := Err error_cancelled;
                an_completed := Ok tt |} : RunAnswer).
  destruct choice as [| |found|answer| |index answer]; [by left|right..]; unfold step in Hs; unfold open_choices.
  - exists (ans None (Err error_cancelled) ok).
    destruct (b_phase b) as [[|call calls]|next|[call tool calls|]| |]; try done; try (by apply list_elem_of_singleton).
    + destruct (b_cancelled b); [by apply list_elem_of_singleton|done].
    + destruct (b_active b); [by apply list_elem_of_singleton|done].
  - exists (ans found (Err error_cancelled) ok).
    destruct (b_phase b) as [[|call calls]|next|at_| |]; try done. destruct (b_cancelled b); [done|].
    by apply list_elem_of_singleton.
  - exists (ans None answer ok). destruct answer, (b_phase b) as [|next|[call tool calls|]| |]; try done; cbn; set_solver.
  - exists (ans None (Err error_cancelled) ok). destruct (b_phase b) as [|next|[call tool calls|]| |]; try done.
    destruct (b_cancelled b); [|done]. cbn. set_solver.
  - exists (ans None (Err error_cancelled) answer).
    assert (forall at_, poll index answer at_ b = Some b' -> Poll index answer ∈ map (fun r => Poll (rn_index r) answer) (b_active b)) as Hp.
    { intros at_ (r & Hr & <- & _)%poll_cases. by apply (list_elem_of_fmap_2 (fun r => Poll (rn_index r) answer)). }
    destruct (b_phase b) as [|next|[call tool calls|]| |]; try done; apply Hp in Hs; cbn.
    + rewrite elem_of_cons, elem_of_app. by right; right.
    + destruct (b_active b); [by apply not_elem_of_nil in Hs|done].
Qed.

(** * A batch that is driven ends *)

Lemma next_choice_steps calls plans cancelled answers b :
  batch_ok calls plans b -> (forall entries, b_phase b <> Finished entries) ->
  exists b', (choice ← next_choice cancelled answers b; step choice b) = Some b'.
Proof.
  intros Hok Hf. unfold next_choice. destruct (cancelled && negb (b_cancelled b)) eqn:Ec.
  - apply andb_true_iff in Ec as [_ Ec]. apply negb_true_iff in Ec. exists (cancel b). cbn.
    pose proof (ok_phase _ _ _ Hok) as Hp. unfold phase_ok in Hp. rewrite Ec.
    destruct (b_phase b) as [calls'|next|at_|entries|]; try done. by destruct (Hf entries).
  - destruct (lookup_lt_is_Some_2 (open_choices answers b) (as_pick answers mod length (open_choices answers b))%nat)
      as [choice Hc].
    + apply Nat.mod_upper_bound. intros E%nil_length_inv.
      destruct (open_choices_end _ _ _ _ Hok E) as [entries E']. by destruct (Hf entries).
    + rewrite Hc. by apply list_elem_of_lookup_2, open_choice_steps in Hc.
Qed.

Lemma run_batch_finishes {W} (schedule : Batch -> W -> Answers * W) is_cancelled fuel calls plans b w :
  batch_ok calls plans b -> (batch_weight b <= fuel)%nat ->
  let (b', _) := run_batch schedule is_cancelled fuel b w in
  rtc bstep b b' /\ exists entries, b_phase b' = Finished entries.
Proof.
  revert plans b w. induction fuel as [|fuel IH]; intros plans b w Hok Hw.
  - cbn. split; [done|]. pose proof (ok_phase _ _ _ Hok) as Hp. unfold phase_ok in Hp. unfold batch_weight in Hw.
    destruct (b_phase b) as [calls'|[call tool calls'|]|[call tool calls'|]|entries|]; cbn in Hw; try lia; try done.
    by exists entries.
  - cbn. destruct (b_phase b) as [calls'|next|at_|entries|] eqn:Ep; [| | |by split; [|exists entries]|].
    4: { pose proof (ok_phase _ _ _ Hok) as Hp. unfold phase_ok in Hp. by rewrite Ep in Hp. }
    all: destruct (schedule b w) as [answers w'];
      destruct (next_choice_steps calls plans (is_cancelled w') answers b Hok ltac:(congruence)) as [b1 Hs]; rewrite Hs;
      apply bind_Some in Hs as (choice & _ & Hs);
      destruct (step_keeps_batch_ok _ _ _ _ _ Hok Hs) as (plans1 & _ & Hok1);
      pose proof (step_decreases _ _ _ _ _ Hok Hs); specialize (IH plans1 b1 w' Hok1 ltac:(lia));
      destruct (run_batch schedule is_cancelled fuel b1 w') as [b2 w2]; destruct IH as [Hr Hf]; split; [|done];
      eapply rtc_l; [by exists choice|done].
Qed.

(** What is driven takes steps. *)
Lemma run_batch_reaches {W} (schedule : Batch -> W -> Answers * W) is_cancelled fuel b w :
  rtc bstep b (fst (run_batch schedule is_cancelled fuel b w)).
Proof.
  revert b w. induction fuel as [|fuel IH]; intros b w; [done|]. cbn.
  destruct (b_phase b); try done; destruct (schedule b w) as [answers w'];
    (destruct (next_choice (is_cancelled w') answers b) as [choice|]; [cbn|done]);
    (destruct (step choice b) as [b1|] eqn:Es; [|done]); (eapply rtc_l; [by exists choice|apply IH]).
Qed.

(** * Conflicts and the order of calls *)

Lemma conflicting_sym plans i d : conflicting plans i d -> conflicting plans d i.
Proof. intros (p & q & Hp & Hq & Hc). exists q, p. by rewrite conflicts_sym. Qed.

Lemma conflicting_effects plans b i d ei ed :
  books plans b -> b_effects b !! i = Some ei -> b_effects b !! d = Some ed -> conflicts ei ed = true -> conflicting plans i d.
Proof.
  intros Hb. rewrite (bk_effects _ _ Hb), !list_lookup_fmap. intros (p & Hp & ->)%fmap_Some (q & Hq & ->)%fmap_Some Hc.
  by exists p, q.
Qed.

(** What has been started had nothing left to wait for. *)
Lemma started_after plans b i d :
  books plans b -> b_nodes b !! i = Some None -> (d < i)%nat -> conflicting plans i d -> completed b d.
Proof.
  intros Hb Hi Hlt Hc. destruct (bk_conflicts _ _ Hb d i Hlt Hc) as [?|(l & El & Hl)]; [done|].
  destruct (bk_waits _ _ Hb i 0 (bk_free _ _ Hb i Hi)) as (W & [_ HW] & Hlen).
  assert (d < length plans)%nat as Hd by (destruct Hc as (? & ? & _ & Hq & _); by apply lookup_lt_Some in Hq).
  destruct (lookup_lt_is_Some_2 (b_completed b) d) as [[|] Ec]; [by rewrite (bk_completed _ _ Hb)|done|].
  exfalso. assert (d ∈ W) as Hw by (apply HW; eauto). apply nil_length_inv in Hlen as ->. by apply not_elem_of_nil in Hw.
Qed.

Lemma active_apart plans b i d :
  books plans b -> active b i -> active b d -> i <> d -> ~ conflicting plans i d.
Proof.
  intros Hb. assert (forall i d, active b i -> active b d -> (d < i)%nat -> ~ conflicting plans i d) as Hlt.
  { intros i' d' (r & Hr & <-) (r' & Hr' & <-) Hlt Hc. apply (bk_active _ _ Hb) in Hr as (_ & Hr & _), Hr' as (_ & _ & Hr' & _).
    pose proof (started_after _ _ _ _ Hb Hr Hlt Hc) as Hd. unfold completed in Hd. congruence. }
  intros Hi Hd Hne Hc. destruct (decide (d < i)%nat); [by eapply (Hlt i d)|].
  eapply (Hlt d i); [done..|lia|by apply conflicting_sym].
Qed.

(** Only a conflict with an unfinished earlier call keeps a call from being started. *)
Lemma waits_for plans b i :
  books plans b -> b_ready b = [] -> pending b i ->
  exists d, (d < i)%nat /\ conflicting plans i d /\ ~ completed b d.
Proof.
  intros Hb Hr [p Ep]. destruct (lookup_lt_is_Some_2 (b_remaining b) i) as [k Ek].
  { rewrite (bk_remaining _ _ Hb), <- (bk_nodes _ _ Hb). by eapply lookup_lt_Some. }
  destruct (bk_waits _ _ Hb i k Ek) as (W & [_ HW] & Hl). destruct W as [|d W].
  - cbn in Hl. subst k. assert (i ∈ b_ready b) as Hi by (apply (bk_ready _ _ Hb); split; [by exists p|done]).
    rewrite Hr in Hi. by apply not_elem_of_nil in Hi.
  - destruct (proj1 (HW d)) as (Hc & l & El & Hil); [set_solver|]. exists d.
    apply (bk_dependents _ _ Hb) in El as [_ El]. destruct (El i Hil) as [Hlt Hcf].
    split; [lia|]. split; [done|]. unfold completed. congruence.
Qed.

(** * Cancellation *)

Lemma run_one_cancelled answer p stage outcome events index id name :
  run_one true answer p stage = (outcome, events) -> (index, TurnToolStarted id name) ∉ map (pair (A := nat) index) events.
Proof.
  unfold run_one. destruct stage as [| | |result progress journal]; [intros [= <- <-]| |intros [= <- <-]|intros [= <- <-]];
    try (by apply not_elem_of_nil).
  - destruct (an_started answer); intros [= <- <-]; by apply not_elem_of_nil.
  - intros (event & [= <-] & He)%list_elem_of_fmap. rewrite elem_of_app, list_elem_of_singleton in He.
    destruct He as [(progress & E & _)%list_elem_of_fmap|E]; done.
Qed.

Lemma step_cancelled choice b b' : step choice b = Some b' -> b_cancelled b = true -> b_cancelled b' = true.
Proof.
  intros Hs Hc. unfold step in Hs. destruct choice as [| |found|answer| |index answer].
  6: { destruct (b_phase b) as [|next|at_| |]; try done.
       apply poll_cases in Hs as (r & Hr & <- & [(stage & events & E & ->)|(run & events & E & ->)]); [done|].
       unfold complete_run. by repeat case_match. }
  all: repeat (case_match; simplify_eq; try done).
  - unfold start_ready_tools. by repeat case_match.
  - unfold finish. by repeat case_match.
  - unfold plan_node. by repeat case_match.
Qed.

(** The events of a batch. *)
Definition tool_event (event : TurnEvent) : bool :=
  match event with
  | TurnToolStarted _ _ | TurnToolProgress _ _ | TurnToolExecutionCompleted _ => true
  | _ => false
  end.

Lemma run_one_tool_events c answer p stage outcome events :
  run_one c answer p stage = (outcome, events) -> Forall (fun event => tool_event event = true) events.
Proof.
  unfold run_one. destruct stage as [| | |result progress journal].
  - destruct c; intros [= <- <-]; by repeat constructor.
  - destruct (an_started answer); intros [= <- <-]; constructor.
  - intros [= <- <-]. apply list.Forall_app. split; [|by repeat constructor].
    apply list.Forall_fmap, list.Forall_forall. done.
  - intros [= <- <-]. constructor.
Qed.

Lemma step_log choice b b' :
  step choice b = Some b' ->
  b_log b' = b_log b \/
  exists index answer r stage events, choice = Poll index answer /\
    run_one (b_cancelled b) answer (rn_pending r) (rn_stage r) = (inl stage, events) /\
    b_log b' = b_log b ++ map (pair index) events.
Proof.
  intros Hs. unfold step in Hs. destruct choice as [| |found|answer| |index answer].
  6: { destruct (b_phase b) as [|next|at_| |]; try done. apply poll_cases in Hs as (r & Hr & <- & [(stage & events & E & ->)|(run & events & E & ->)]).
       - right. by exists (rn_index r), answer, r, stage, events.
       - left. unfold complete_run. by repeat case_match. }
  all: left; repeat (case_match; simplify_eq; try done).
  all: try (unfold start_ready_tools; by repeat case_match).
  all: try (unfold finish; by repeat case_match).
  all: unfold plan_node; by repeat case_match.
Qed.

Definition log_ok b : Prop := Forall (fun '(_, event) => tool_event event = true) (b_log b).

Lemma batch_log_ok b b' : rtc bstep b b' -> log_ok b -> log_ok b'.
Proof.
  induction 1 as [b|b b1 b' [choice Hs] _ IH]; [done|]. intros Hl. apply IH. unfold log_ok in *.
  destruct (step_log _ _ _ Hs) as [->|(index & answer & r & stage & events & _ & E & ->)]; [done|].
  apply list.Forall_app. split; [done|]. apply list.Forall_fmap. by eapply run_one_tool_events.
Qed.

(** A batch that is driven, from its start to its end. *)
Lemma batch_runs {W} (schedule : Batch -> W -> Answers * W) is_cancelled calls cancelled w :
  let (b, _) := run_batch schedule is_cancelled (batch_fuel calls) (batch_start calls cancelled) w in
  rtc bstep (batch_start calls cancelled) b /\ log_ok b /\
  exists entries, b_phase b = Finished entries /\ Forall2 (entry_ok (b_cancelled b)) calls entries.
Proof.
  pose proof (run_batch_finishes schedule is_cancelled (batch_fuel calls) calls [] _ w (batch_ok_start calls cancelled)
    (batch_weight_start calls cancelled)) as Hrun.
  destruct (run_batch _ _ _ _ _) as [b w']. destruct Hrun as (Hr & entries & Ep). split; [done|]. split.
  { eapply batch_log_ok; [done|]. constructor. }
  exists entries. split; [done|].
  destruct (rtc_keeps_batch_ok calls [] _ _ (batch_ok_start calls cancelled) Hr) as (plans & _ & Hok).
  pose proof (ok_phase _ _ _ Hok) as Hp. unfold phase_ok in Hp. by rewrite Ep in Hp.
Qed.

End Runs.

(** * What the answers of a batch come to

    A batch is determined by the calls and by the choices that were taken; read from
    left to right these say how each call is answered, without any of the books that
    the batch keeps. *)

Section Traces.
Context `{ToolTypes}.
Implicit Types (b : Batch) (i index : nat) (calls : list ToolCall) (choices : list Choice).

(** The batches that a list of choices leads to. *)
Inductive leads_to (b0 : Batch) : list Choice -> Batch -> Prop :=
  | leads_nowhere : leads_to b0 [] b0
  | leads_on choices choice b b' : leads_to b0 choices b -> step choice b = Some b' -> leads_to b0 (choices ++ [choice]) b'.

(** What becomes of a call: its tool is missing, its preparation fails, it is planned,
    or nobody asked for its tool before the turn was cancelled. *)
Inductive Fate := Missing | PreparationFailed (error : TurnError) | Planned (tool : Tool) (prepared : PreparedToolCall) | Unasked.

Record Reading := { rd_fates : list Fate; rd_tool : option Tool }.

Definition decided_fate (fate : Fate) (rd : Reading) : Reading := {| rd_fates := rd_fates rd ++ [fate]; rd_tool := None |}.

Definition read_choice (rd : Reading) (choice : Choice) : Reading :=
  match choice with
  | Look None => decided_fate Missing rd
  | Look (Some tool) => {| rd_fates := rd_fates rd; rd_tool := Some tool |}
  | PreparationDone (Err error) => decided_fate (PreparationFailed error) rd
  | PreparationDone (Ok prepared) =>
      match rd_tool rd with Some tool => decided_fate (Planned tool prepared) rd | None => rd end
  | PreparationCancelled => decided_fate (PreparationFailed error_cancelled) rd
  | Cancel | Advance | Poll _ _ => rd
  end.

Definition reading (choices : list Choice) : Reading := fold_left read_choice choices {| rd_fates := []; rd_tool := None |}.

(** One fate for each call; those behind the last that was decided were not asked for. *)
Definition fates_of (calls : list ToolCall) (choices : list Choice) : list Fate :=
  rd_fates (reading choices) ++ repeat Unasked (length calls - length (rd_fates (reading choices))).

Definition is_cancel (choice : Choice) : bool := match choice with Cancel => true | _ => false end.

(** Whether the turn is cancelled after these choices. *)
Definition cancelled_by (cancelled : bool) (choices : list Choice) : bool := cancelled || existsb is_cancel choices.

(** The answers of the polls of a node, each with whether the turn was cancelled then. *)
Fixpoint polls_of (index : nat) (cancelled : bool) (choices : list Choice) : list (bool * RunAnswer) :=
  match choices with
  | [] => []
  | Cancel :: choices => polls_of index true choices
  | Poll other answer :: choices =>
      if (other =? index)%nat then (cancelled, answer) :: polls_of index cancelled choices else polls_of index cancelled choices
  | _ :: choices => polls_of index cancelled choices
  end.

Definition planned_call (call : ToolCall) (tool : Tool) (prepared : PreparedToolCall) : PlannedTool :=
  {| pt_call := call; pt_tool := tool; pt_effects := pc_effects prepared; pt_prepared := prepared |}.

(** The run that the polls of a planned call give: not started when it was never polled
    or cancelled before its first poll; refused when the start could not be told; else
    what the third poll brings of the tool, unless the fourth says that the end could
    not be told. *)
Definition run_by (p : PlannedTool) (polls : list (bool * RunAnswer)) : ToolRun :=
  let call := pt_call p in
  let run result items effects :=
    {| run_call := call; run_result := result; run_lifecycle_items := items;
       run_effect_validation := journal_validate (pt_effects p) (journal_record_all (Effects effects) []) |} in
  let stopped := run (Ok (cancelled_tool_result call)) [] [] in
  match polls with
  | (false, _) :: (_, start) :: rest =>
      match an_started start, rest with
      | Err reason, _ => run (Err reason) [ItemToolStarted (tc_id call) (tc_name call)] []
      | Ok _, (_, ran) :: (_, reported) :: _ =>
          run match an_completed reported, an_result ran with
              | Err error, _ => Err error
              | Ok _, Ok result => Ok result
              | Ok _, Err error => Ok (result_error (tc_id call) (error_display error))
              end
            (ItemToolStarted (tc_id call) (tc_name call)
             :: map (fun progress => ItemToolProgress (tp_call_id progress) (tp_content progress)) (an_progress ran))
            (an_effects ran)
      | _, _ => stopped
      end
  | _ => stopped
  end.

(** The entries that the calls are answered with; the planned calls are numbered. *)
Fixpoint entries_by (polls : nat -> list (bool * RunAnswer)) (index : nat) (calls : list ToolCall) (fates : list Fate)
    : list ToolBatchEntry :=
  match calls, fates with
  | call :: calls, Planned tool prepared :: fates =>
      EntryRun (run_by (planned_call call tool prepared) (polls index)) :: entries_by polls (S index) calls fates
  | call :: calls, fate :: fates =>
      EntryImmediate (ItemToolResult
        match fate with
        | Missing => missing_tool_result call
        | PreparationFailed error => result_error (tc_id call) (error_display error)
        | _ => cancelled_tool_result call
        end) :: entries_by polls index calls fates
  | _, _ => []
  end.

(** ** The batch keeps to them *)

Definition fate_result (call : ToolCall) (fate : Fate) : ToolResult :=
  match fate with
  | Missing => missing_tool_result call
  | PreparationFailed error => result_error (tc_id call) (error_display error)
  | _ => cancelled_tool_result call
  end.

Fixpoint positions_by (index : nat) (calls : list ToolCall) (fates : list Fate) : list ProviderPosition :=
  match calls, fates with
  | call :: calls, Planned _ _ :: fates => PosNode index :: positions_by (S index) calls fates
  | call :: calls, fate :: fates => PosImmediate (ItemToolResult (fate_result call fate)) :: positions_by index calls fates
  | _, _ => []
  end.

Fixpoint plans_by (calls : list ToolCall) (fates : list Fate) : list PlannedTool :=
  match calls, fates with
  | call :: calls, Planned tool prepared :: fates => planned_call call tool prepared :: plans_by calls fates
  | _ :: calls, _ :: fates => plans_by calls fates
  | _, _ => []
  end.

Lemma positions_by_snoc index calls fates call fate :
  length calls = length fates ->
  positions_by index (calls ++ [call]) (fates ++ [fate])
  = positions_by index calls fates
    ++ [match fate with
        | Planned _ _ => PosNode (index + length (plans_by calls fates))
        | _ => PosImmediate (ItemToolResult (fate_result call fate))
        end].
Proof.
  revert index fates. induction calls as [|c calls IH]; intros index [|f fates] E; [|done|done|].
  - destruct fate; try done. cbn. by rewrite Nat.add_0_r.
  - injection E as E. cbn [app positions_by]. destruct f; cbn [plans_by length]; rewrite IH by done; try done.
    cbn [app]. do 2 f_equal. destruct fate; try done. by rewrite Nat.add_succ_r.
Qed.

Lemma plans_by_snoc calls fates call fate :
  length calls = length fates ->
  plans_by (calls ++ [call]) (fates ++ [fate])
  = plans_by calls fates ++ match fate with Planned tool prepared => [planned_call call tool prepared] | _ => [] end.
Proof.
  revert fates. induction calls as [|c calls IH]; intros [|f fates] E; [|done|done|].
  { by destruct fate. }
  injection E as E. cbn [app plans_by]. destruct f; by rewrite IH by done.
Qed.

Lemma polls_of_snoc index cancelled choices choice :
  polls_of index cancelled (choices ++ [choice])
  = polls_of index cancelled choices
    ++ match choice with
       | Poll other answer => if (other =? index)%nat then [(cancelled_by cancelled choices, answer)] else []
       | _ => []
       end.
Proof.
  revert cancelled. induction choices as [|c choices IH]; intros cancelled.
  - cbn. unfold cancelled_by. cbn. rewrite orb_false_r. by destruct choice.
  - cbn [app polls_of]. unfold cancelled_by in *. cbn [existsb]. destruct c; cbn [is_cancel orb]; rewrite ?IH, ?orb_true_r; try done.
    by destruct (_ =? _)%nat.
Qed.

Lemma cancelled_by_snoc cancelled choices choice :
  cancelled_by cancelled (choices ++ [choice]) = cancelled_by cancelled choices || is_cancel choice.
Proof. unfold cancelled_by. rewrite existsb_app. cbn. by rewrite orb_false_r, orb_assoc. Qed.

Lemma reading_snoc choices choice : reading (choices ++ [choice]) = read_choice (reading choices) choice.
Proof. unfold reading. by rewrite fold_left_app. Qed.

(** How far the polls of a run have brought it. *)
Definition stage_by (p : PlannedTool) (polls : list (bool * RunAnswer)) (stage : RunStage) : Prop :=
  match stage with
  | NotPolled => polls = []
  | AwaitsStarted => exists a, polls = [(false, a)]
  | AwaitsTool => exists a c start, polls = [(false, a); (c, start)] /\ an_started start = Ok tt
  | AwaitsCompleted result progress journal => exists a c start c' ran,
      polls = [(false, a); (c, start); (c', ran)] /\ an_started start = Ok tt /\
      result = settled_result (pt_call p) (an_result ran) /\ progress = an_progress ran /\ journal = journal_of (an_effects ran)
  end.

Lemma run_one_by_stage c answer p polls stage stage' events :
  stage_by p polls stage -> run_one c answer p stage = (inl stage', events) -> stage_by p (polls ++ [(c, answer)]) stage'.
Proof.
  unfold run_one. destruct stage as [| | |result progress journal].
  - intros -> E. destruct c; [done|]. injection E as <- <-. by exists answer.
  - intros (a & ->). destruct (an_started answer) as [[]|] eqn:Es; [|done]. intros [= <- <-]. by exists a, c, answer.
  - intros (a & c' & start & -> & Es) [= <- <-]. by exists a, c', start, c, answer.
  - done.
Qed.

Lemma run_one_by_run c answer p polls stage run events :
  stage_by p polls stage -> run_one c answer p stage = (inr run, events) -> run = run_by p (polls ++ [(c, answer)]).
Proof.
  unfold run_one. destruct stage as [| | |result progress journal].
  - intros -> E. destruct c; [|done]. by injection E as <- <-.
  - intros (a & ->). destruct (an_started answer) as [[]|reason] eqn:Es; [done|]. intros [= <- <-]. cbn. by rewrite Es.
  - done.
  - intros (a & c' & start & c2 & ran & -> & Es & -> & -> & ->) [= <- <-]. cbn. rewrite Es. unfold settled_result.
    by destruct (an_completed answer), (an_result ran).
Qed.

(** Up to an await the batch is what the fates [F] of the settled calls and the polls of
    the planned ones make it. *)
Record tracks (polls : nat -> list (bool * RunAnswer)) (settled : list ToolCall) (F : list Fate) b : Prop := {
  tr_length : length settled = length F;
  tr_positions : b_positions b = positions_by 0 settled F;
  tr_nodes : length (b_nodes b) = length (plans_by settled F);
  tr_pending i p : b_nodes b !! i = Some (Some p) -> plans_by settled F !! i = Some p /\ polls i = [];
  tr_active r : r ∈ b_active b ->
    plans_by settled F !! rn_index r = Some (rn_pending r) /\ stage_by (rn_pending r) (polls (rn_index r)) (rn_stage r);
  tr_done i run : b_ordered b !! i = Some (Some run) ->
    exists p, plans_by settled F !! i = Some p /\ run = run_by p (polls i);
  tr_polled i : (length (b_nodes b) <= i)%nat -> polls i = []
}.

Lemma tracks_ext polls polls' settled F b : (forall i, polls i = polls' i) -> tracks polls settled F b -> tracks polls' settled F b.
Proof. intros E []. constructor; intros; rewrite <- ?E; auto. Qed.

Lemma tracks_at_phase polls settled F phase b : tracks polls settled F b -> tracks polls settled F (at_phase phase b).
Proof. by intros []; constructor. Qed.

Lemma tracks_cancel polls settled F b : tracks polls settled F b -> tracks polls settled F (cancel b).
Proof. by intros []; constructor. Qed.

Lemma tracks_immediate polls settled F call fate left b :
  match fate with Planned _ _ => False | _ => True end -> tracks polls settled F b ->
  tracks polls (settled ++ [call]) (F ++ [fate]) (push_immediate (fate_result call fate) left b).
Proof.
  intros Hf [Hl Hp Hn H1 H2 H3 H4].
  assert (plans_by (settled ++ [call]) (F ++ [fate]) = plans_by settled F) as E.
  { rewrite plans_by_snoc by done. destruct fate; by rewrite ?app_nil_r. }
  constructor; rewrite ?E; try done.
  - rewrite !length_app. cbn. lia.
  - cbn. rewrite positions_by_snoc, Hp by done. by destruct fate.
Qed.

Lemma tracks_plan plans polls settled F call tool prepared left b :
  books plans b -> tracks polls settled F b ->
  tracks polls (settled ++ [call]) (F ++ [Planned tool prepared]) (plan_node call tool prepared left b).
Proof.
  intros Hb [Hl Hp Hn H1 H2 H3 H4]. destruct (books_plan plans call tool prepared left b Hb) as (Hb' & Ep & Epos & _).
  assert (b_nodes (plan_node call tool prepared left b) = b_nodes b ++ [Some (planned_call call tool prepared)] /\
          b_active (plan_node call tool prepared left b) = b_active b /\
          b_ordered (plan_node call tool prepared left b) = b_ordered b ++ [None]) as (E1 & E2 & E3).
  { unfold plan_node in *. by repeat case_match. }
  pose proof (plans_by_snoc settled F call (Planned tool prepared) Hl) as Es. cbn in Es.
  constructor; rewrite ?E1, ?E2, ?E3, ?Es, ?length_app.
  - cbn. lia.
  - by rewrite Epos, positions_by_snoc, Hp, <- Hn, <- (bk_nodes _ _ Hb) by done.
  - cbn. lia.
  - intros i p. rewrite !lookup_snoc_cases, Hn. case_decide; [intros [= <-]; split; [done|apply H4; lia]|]. by apply H1.
  - intros r Hr. destruct (H2 r Hr) as [Ep' Hs]. split; [by apply lookup_app_l_Some|done].
  - intros i run. rewrite lookup_snoc_cases. case_decide; [done|]. intros (p & Ep' & Er)%H3.
    exists p. split; [by apply lookup_app_l_Some|done].
  - cbn. intros i Hi. apply H4. lia.
Qed.

Lemma tracks_start_ready plans polls settled F next b :
  books plans b -> tracks polls settled F b -> tracks polls settled F (start_ready_tools next b).
Proof.
  intros Hb Ht. unfold start_ready_tools.
  destruct (b_cancelled b); [by apply tracks_at_phase|].
  destruct (b_ready b) as [|index ready]; [by apply tracks_at_phase|].
  destruct (b_nodes b !! index) as [[p|]|] eqn:En; [|by apply tracks_at_phase..].
  destruct Ht as [Hl Hp Hn H1 H2 H3 H4]. destruct (H1 _ _ En) as [Hpl Hno].
  constructor; cbn; rewrite ?length_insert; try done.
  - intros i q. rewrite insert_lookup_cases. destruct (decide (index = i)) as [<-|Hne]; [by rewrite En|]. by apply H1.
  - intros r. rewrite elem_of_app, list_elem_of_singleton. intros [Hr| ->]; [by apply H2|done].
Qed.

Lemma tracks_poll plans polls settled F index answer at_ b b' :
  books plans b -> tracks polls settled F b -> poll index answer at_ b = Some b' ->
  tracks (fun i => polls i ++ if (index =? i)%nat then [(b_cancelled b, answer)] else []) settled F b'.
Proof.
  intros Hb [Hl Hp Hn H1 H2 H3 H4] (r & Hr & <- & Hc)%poll_cases.
  destruct (bk_active _ _ Hb r Hr) as (Hpl & Hno & Hco & _). destruct (H2 r Hr) as [Hplan Hst].
  pose proof (lookup_lt_Some _ _ _ Hno) as Hlt.
  assert (forall i, i <> rn_index r -> polls i ++ (if (rn_index r =? i)%nat then [(b_cancelled b, answer)] else []) = polls i) as Hne.
  { intros i Hi. destruct (rn_index r =? i)%nat eqn:E; [by apply Nat.eqb_eq in E|]. by rewrite app_nil_r. }
  assert (forall i p, b_nodes b !! i = Some (Some p) -> i <> rn_index r) as Hpend by congruence.
  destruct Hc as [(stage & events & E & ->)|(run & events & E & ->)].
  - constructor; cbn; try done.
    + intros i p Hi. rewrite Hne by (by eapply Hpend). by apply H1.
    + intros r' (r0 & -> & Hr0)%list_elem_of_fmap. destruct (H2 r0 Hr0) as [Hp0 Hs0].
      destruct (rn_index r0 =? rn_index r)%nat eqn:Ei; cbn.
      * apply Nat.eqb_eq in Ei. assert (r0 = r) as -> by (by eapply active_unique). rewrite Nat.eqb_refl.
        split; [done|]. by eapply run_one_by_stage.
      * apply Nat.eqb_neq in Ei. by rewrite Hne.
    + intros i run' Ho. rewrite Hne; [by apply H3|]. intros ->. rewrite (bk_undone _ _ Hb _ Hco) in Ho. done.
    + intros i Hi. rewrite Hne by lia. by apply H4.
  - assert (exists ordered, b_ordered b !! rn_index r = Some None /\ ordered = <[rn_index r:=Some run]> (b_ordered b) /\
      b_positions (complete_run (rn_index r) run at_ b) = b_positions b /\
      b_nodes (complete_run (rn_index r) run at_ b) = b_nodes b /\
      b_ordered (complete_run (rn_index r) run at_ b) = ordered /\
      b_active (complete_run (rn_index r) run at_ b)
        = List.filter (fun r' => negb (rn_index r' =? rn_index r)%nat) (b_active b)) as (ordered & Eu & -> & E1 & E2 & E3 & E4).
    { assert (run_ok (b_cancelled b) (rn_pending r) run) as Hok by (eapply run_one_settles; [apply (bk_active _ _ Hb r Hr)|exact E]).
      destruct (books_complete plans r run at_ b Hb Hr Hok) as [_ Ep']. eexists. split; [by apply (bk_undone _ _ Hb)|].
      split; [done|]. unfold complete_run in *. by repeat case_match. }
    constructor; rewrite ?E1, ?E2, ?E3, ?E4; try done.
    + intros i p Hi. rewrite Hne by (by eapply Hpend). by apply H1.
    + intros r' [Hr' Hi]%in_others. rewrite Hne by done. by apply H2.
    + intros i run'. rewrite insert_lookup_cases. destruct (decide (rn_index r = i)) as [<-|Hi].
      * rewrite Eu, Nat.eqb_refl. intros [= <-]. exists (rn_pending r). split; [done|]. by eapply run_one_by_run.
      * rewrite Hne by done. by apply H3.
    + intros i Hi. rewrite Hne by lia. by apply H4.
Qed.

Lemma entries_by_ext polls polls' index settled F :
  (forall i, polls i = polls' i) -> entries_by polls index settled F = entries_by polls' index settled F.
Proof.
  intros E. revert index F. induction settled as [|call settled IH]; intros index [|[] F]; cbn; try done; f_equal; auto.
  by rewrite E.
Qed.

Lemma entries_are polls (ordered : list (option ToolRun)) index settled F entries :
  length settled = length F ->
  (forall i p, plans_by settled F !! i = Some p -> ordered !! (index + i)%nat = Some (Some (run_by p (polls (index + i)%nat)))) ->
  Forall2 (entry_at ordered) (positions_by index settled F) entries -> entries = entries_by polls index settled F.
Proof.
  revert index F entries. induction settled as [|call settled IH]; intros index [|fate F] entries Hl Ho He; try done.
  { by inversion He. }
  injection Hl as Hl. destruct fate as [|error|tool prepared|]; cbn in He, Ho |- *;
    inversion He as [|? entry ? entries' Hent He']; subst.
  3: { destruct entry as [item|run]; [done|]. cbn in Hent. pose proof (Ho 0%nat _ eq_refl) as Hr. rewrite Nat.add_0_r in Hr.
       f_equal; [congruence|]. apply IH; [done| |done]. intros i p Hp. pose proof (Ho (S i) p Hp) as Hi.
       by rewrite <- Nat.add_succ_comm in Hi. }
  all: destruct entry as [item|run]; [|done]; cbn in Hent; subst; f_equal; by apply IH.
Qed.

Lemma tracks_finish calls plans polls F b :
  batch_ok calls plans b -> tracks polls calls F b -> b_phase b = Awaiting ForDrain -> b_active b = [] ->
  finish b = at_phase (Finished (entries_by polls 0 calls F)) b.
Proof.
  intros [Hb Hn _ Hph] [Hl Hp Hlen H1 H2 H3 H4] Ep Ha. unfold phase_ok in Hph. rewrite Ep in Hph. unfold finish.
  destruct (settle_pending_spec 0 (b_nodes b) (b_ordered b)) as (ordered & E1 & E2).
  { rewrite (bk_nodes _ _ Hb), (bk_ordered_length _ _ Hb). lia. }
  rewrite E1. assert (forall i, ordered !! i = match b_nodes b !! i with
      | Some (Some p) => Some (Some (cancelled_run p)) | _ => b_ordered b !! i end) as Ho.
  { intros i. rewrite E2, decide_True, Nat.sub_0_r by lia. done. }
  destruct (take_entries_spec (b_positions b) ordered) as (entries & E & He).
  - rewrite Hn. apply list.NoDup_seq.
  - intros i. rewrite Hn, elem_of_seq. intros [_ Hi]. destruct (lookup_lt_is_Some_2 plans i Hi) as [p Hpl].
    destruct (settled_runs _ _ _ Hb Ha Hph Ho i p Hpl) as (run & Er & _). by exists run.
  - rewrite E. do 2 f_equal. apply (entries_are polls ordered 0); [done| |by rewrite <- Hp]. cbn. intros i p Hpl.
    rewrite Ho. destruct (lookup_lt_is_Some_2 (b_nodes b) i) as [[q|] En].
    + rewrite Hlen. by eapply lookup_lt_Some.
    + rewrite En. destruct (H1 i q En) as [Hq ->]. replace q with p by congruence. done.
    + rewrite En. destruct (bk_started _ _ Hb i En) as [Hc|(r & Hr & _)]; [|rewrite Ha in Hr; by apply not_elem_of_nil in Hr].
      destruct (bk_done _ _ Hb i Hc) as [_ [run Er]]. rewrite Er. destruct (H3 i run Er) as (q & Hq & ->).
      by replace q with p by congruence.
Qed.

(** The batch after [choices]; [unasked] calls were answered because of the
    cancellation, behind those whose fates the choices decide. *)
Definition follows (cancelled : bool) calls choices b : Prop :=
  let polls i := polls_of i cancelled choices in
  let decided := rd_fates (reading choices) in
  b_cancelled b = cancelled_by cancelled choices /\
  match b_phase b with
  | Finished entries =>
      entries = entries_by polls 0 calls (fates_of calls choices) /\
      (b_cancelled b = false -> length decided = length calls)
  | Panicked => False
  | phase => exists settled unasked,
      calls = settled ++ calls_left phase /\ ((0 < unasked)%nat -> b_cancelled b = true) /\
      match phase with
      | StartReady (ForPreparation _ tool _) | Awaiting (ForPreparation _ tool _) =>
          rd_tool (reading choices) = Some tool /\ unasked = 0%nat
      | _ => True
      end /\
      tracks polls settled (decided ++ repeat Unasked unasked) b
  end.

Lemma follows_start cancelled calls : follows cancelled calls [] (batch_start calls cancelled).
Proof.
  unfold follows, cancelled_by. cbn. rewrite orb_false_r. split; [done|]. exists [], 0%nat. split; [done|]. split; [lia|].
  split; [done|]. constructor; cbn; try done. intros r Hr. by apply not_elem_of_nil in Hr.
Qed.

Lemma repeat_snoc {A} (x : A) n : repeat x n ++ [x] = repeat x (S n).
Proof. induction n as [|n IH]; [done|]. cbn. by rewrite IH. Qed.

Lemma polls_kept cancelled choices choice i :
  match choice with Poll _ _ => False | _ => True end ->
  polls_of i cancelled choices = polls_of i cancelled (choices ++ [choice]).
Proof. intros Hc. rewrite polls_of_snoc. by destruct choice; rewrite ?app_nil_r. Qed.

(** Steps that do not settle a call nor poll. *)
Lemma follows_move cancelled calls choices choice b b' :
  follows cancelled calls choices b -> cancelled_by cancelled (choices ++ [choice]) = b_cancelled b' ->
  (b_cancelled b = true -> b_cancelled b' = true) ->
  rd_fates (reading (choices ++ [choice])) = rd_fates (reading choices) ->
  calls_left (b_phase b') = calls_left (b_phase b) ->
  match b_phase b with Finished _ => False | _ => True end ->
  match b_phase b' with Finished _ | Panicked => False | _ => True end ->
  (forall unasked, ((0 < unasked)%nat -> b_cancelled b = true) ->
   match b_phase b' with
   | StartReady (ForPreparation _ tool _) | Awaiting (ForPreparation _ tool _) =>
       (match b_phase b with
        | StartReady (ForPreparation _ tool _) | Awaiting (ForPreparation _ tool _) =>
            rd_tool (reading choices) = Some tool /\ unasked = 0%nat
        | _ => True
        end) -> rd_tool (reading (choices ++ [choice])) = Some tool /\ unasked = 0%nat
   | _ => True
   end) ->
  (forall settled F, tracks (fun i => polls_of i cancelled choices) settled F b ->
                     tracks (fun i => polls_of i cancelled (choices ++ [choice])) settled F b') ->
  follows cancelled calls (choices ++ [choice]) b'.
Proof.
  intros [Hc Hf] Ec Hm Er El Hfin Hfin' Hp Ht. split; [done|]. rewrite Er.
  assert (exists settled unasked, calls = settled ++ calls_left (b_phase b') /\
    ((0 < unasked)%nat -> b_cancelled b' = true) /\
    match b_phase b' with
    | StartReady (ForPreparation _ tool _) | Awaiting (ForPreparation _ tool _) =>
        rd_tool (reading (choices ++ [choice])) = Some tool /\ unasked = 0%nat
    | _ => True
    end /\ tracks (fun i => polls_of i cancelled (choices ++ [choice])) settled (rd_fates (reading choices) ++ repeat Unasked unasked) b')
    as (settled & unasked & H1 & H2 & H3 & H4).
  { rewrite El. destruct (b_phase b) as [calls'|[call tool calls'|]|[call tool calls'|]|entries|]; try done;
      destruct Hf as (settled & unasked & H1 & H2 & H3 & H4); exists settled, unasked; specialize (Hp unasked H2);
      (split; [done|]); (split; [auto|]); (split; [|auto]);
      destruct (b_phase b') as [calls2|[call2 tool2 calls2|]|[call2 tool2 calls2|]|entries2|]; auto. }
  destruct (b_phase b') as [calls'|[call tool calls'|]|[call tool calls'|]|entries|]; try done; by exists settled, unasked.
Qed.

(** Steps that answer a call without a run. *)
Lemma follows_immediate cancelled calls choices choice call fate left b :
  follows cancelled calls choices b -> is_cancel choice = false ->
  match choice with Poll _ _ => False | _ => True end ->
  calls_left (b_phase b) = call :: left -> match b_phase b with Finished _ => False | _ => True end ->
  match fate with
  | Planned _ _ => False
  | Unasked => b_cancelled b = true /\ rd_fates (reading (choices ++ [choice])) = rd_fates (reading choices)
  | _ => (match b_phase b with NextCall _ => b_cancelled b = false | _ => True end) /\
         rd_fates (reading (choices ++ [choice])) = rd_fates (reading choices) ++ [fate]
  end ->
  follows cancelled calls (choices ++ [choice]) (push_immediate (fate_result call fate) left b).
Proof.
  intros [Hc Hf] Ec Hch El Hfin Hfate. split; [by rewrite cancelled_by_snoc, Ec, orb_false_r|]. cbn [push_immediate b_phase b_cancelled].
  assert (exists settled unasked, calls = settled ++ call :: left /\ ((0 < unasked)%nat -> b_cancelled b = true) /\
    match b_phase b with NextCall _ => True | _ => unasked = 0%nat end /\
    tracks (fun i => polls_of i cancelled choices) settled (rd_fates (reading choices) ++ repeat Unasked unasked) b)
    as (settled & unasked & -> & H2 & H3 & H4).
  { destruct (b_phase b) as [calls'|[call' tool calls'|]|[call' tool calls'|]|entries|]; try done; cbn in El;
      destruct Hf as (settled & unasked & H1 & H2 & H3 & H4); exists settled, unasked; rewrite <- El; by destruct_and?. }
  exists (settled ++ [call]). cbn [calls_left].
  assert (exists n, (0 < n -> b_cancelled b = true)%nat /\
    rd_fates (reading (choices ++ [choice])) ++ repeat Unasked n = (rd_fates (reading choices) ++ repeat Unasked unasked) ++ [fate])
    as (n & Hn & En).
  { assert (match fate with Unasked => True | _ => unasked = 0%nat end) as Hu.
    { destruct fate; try done; destruct Hfate as [Hnc _], (b_phase b); try done; destruct unasked; try done; by rewrite H2 in Hnc by lia. }
    destruct fate; try done; destruct Hfate as [Hcc ->]; [exists 0%nat; subst; by rewrite !app_nil_r..|].
    exists (S unasked). by rewrite <- app_assoc, repeat_snoc. }
  exists n. split; [by rewrite <- app_assoc|]. split; [done|]. split; [done|]. rewrite En.
  eapply tracks_ext; [intros i; by apply polls_kept|]. apply tracks_immediate; [by destruct fate|done].
Qed.

Lemma follows_plan cancelled calls plans choices call tool prepared left b :
  follows cancelled calls choices b -> books plans b -> b_phase b = Awaiting (ForPreparation call tool left) ->
  follows cancelled calls (choices ++ [PreparationDone (Ok prepared)]) (plan_node call tool prepared left b).
Proof.
  intros [Hc Hf] Hb Ep. rewrite Ep in Hf. destruct Hf as (settled & unasked & -> & _ & [Ht ->] & Htr).
  destruct (books_plan plans call tool prepared left b Hb) as (_ & Ep' & _ & Ec').
  split; [by rewrite Ec', cancelled_by_snoc, orb_false_r|]. rewrite Ep'. exists (settled ++ [call]), 0%nat. cbn [calls_left].
  split; [by rewrite <- app_assoc|]. split; [lia|]. split; [done|].
  rewrite reading_snoc. cbn [read_choice]. rewrite Ht. cbn [decided_fate rd_fates repeat]. cbn [repeat] in Htr.
  rewrite app_nil_r in Htr |- *.
  eapply tracks_ext; [intros i; by apply polls_kept|]. by eapply tracks_plan.
Qed.

Lemma follows_poll cancelled calls plans choices index answer at_ b b' :
  follows cancelled calls choices b -> books plans b -> b_phase b = Awaiting at_ -> poll index answer at_ b = Some b' ->
  follows cancelled calls (choices ++ [Poll index answer]) b'.
Proof.
  intros Hf Hb Ep Hs.
  assert (b_cancelled b' = b_cancelled b /\ (b_phase b' = Awaiting at_ \/ b_phase b' = StartReady at_)) as [Ec Ep'].
  { apply poll_cases in Hs as (r & Hr & <- & [(stage & events & E & ->)|(run & events & E & ->)]); [by split; [|left]|].
    assert (run_ok (b_cancelled b) (rn_pending r) run) as Hok by (eapply run_one_settles; [apply (bk_active _ _ Hb r Hr)|exact E]).
    destruct (books_complete plans r run at_ b Hb Hr Hok) as [_ Ep2].
    destruct (complete_run_others plans r run at_ b Hb Hr) as [_ E2]. auto. }
  pose proof Hf as [Hc _]. apply follows_move with b; try done.
  - by rewrite cancelled_by_snoc, orb_false_r, Ec.
  - by rewrite Ec.
  - by rewrite reading_snoc.
  - by destruct Ep' as [-> | ->]; rewrite Ep.
  - by rewrite Ep.
  - by destruct Ep' as [-> | ->].
  - intros unasked _. rewrite reading_snoc. by destruct Ep' as [-> | ->]; rewrite Ep; destruct at_.
  - intros settled F Ht. eapply tracks_ext; [|by eapply tracks_poll]. intros i. cbn. by rewrite polls_of_snoc, Hc.
Qed.

Lemma follows_step cancelled calls plans choices choice b b' :
  follows cancelled calls choices b -> batch_ok calls plans b -> step choice b = Some b' ->
  follows cancelled calls (choices ++ [choice]) b'.
Proof.
  intros Hf Hok Hs. pose proof (ok_books _ _ _ Hok) as Hb. pose proof Hf as [Hc Hf'].
  unfold step in Hs. destruct choice as [| |found|answer| |index answer].
  - destruct (b_cancelled b) eqn:Ec; [by destruct (b_phase b)|].
    assert (b' = cancel b /\ match b_phase b with Finished _ | Panicked => False | _ => True end) as [-> Hp]
      by (destruct (b_phase b); try done; by injection Hs as <-).
    apply follows_move with b; try done.
    + by rewrite cancelled_by_snoc, orb_true_r.
    + by rewrite reading_snoc.
    + by destruct (b_phase b).
    + intros unasked _. rewrite reading_snoc. cbn. destruct (b_phase b) as [|[]|[]| |]; auto.
    + intros settled F Ht. eapply tracks_ext; [intros i; by apply polls_kept|]. by apply tracks_cancel.
  - destruct (b_phase b) as [[|call calls']|next|[call tool calls'|]| |] eqn:Ep; try done.
    + injection Hs as <-. apply follows_move with b; try done; cbn [at_phase b_cancelled b_phase].
      * by rewrite cancelled_by_snoc, orb_false_r.
      * by rewrite reading_snoc.
      * by rewrite Ep.
      * by rewrite Ep.
      * intros settled F Ht. eapply tracks_ext; [intros i; by apply polls_kept|]. by apply tracks_at_phase.
    + destruct (b_cancelled b) eqn:Ec; [|done]. injection Hs as <-.
      change (cancelled_tool_result call) with (fate_result call Unasked).
      apply follows_immediate; rewrite ?Ep; try done. by rewrite reading_snoc.
    + injection Hs as <-.
      destruct (books_start_ready plans next b Hb) as [_ Ep'].
      assert (b_cancelled (start_ready_tools next b) = b_cancelled b) as Ec.
      { unfold start_ready_tools. by repeat case_match. }
      assert (b_phase (start_ready_tools next b) = Awaiting next \/ b_phase (start_ready_tools next b) = StartReady next)
        as Ep2 by (rewrite Ep'; destruct (b_cancelled b), (b_ready b); auto).
      apply follows_move with b; try done.
      * by rewrite cancelled_by_snoc, orb_false_r, Ec.
      * by rewrite Ec.
      * by rewrite reading_snoc.
      * by destruct Ep2 as [-> | ->]; rewrite Ep.
      * by rewrite Ep.
      * by destruct Ep2 as [-> | ->].
      * intros unasked _. rewrite reading_snoc. by destruct Ep2 as [-> | ->]; rewrite Ep; destruct next.
      * intros settled F Ht. eapply tracks_ext; [intros i; by apply polls_kept|]. by eapply tracks_start_ready.
    + destruct (b_active b) eqn:Ea; [|done]. injection Hs as <-.
      destruct Hf' as (settled & unasked & El & Hu & _ & Ht). cbn in El. rewrite app_nil_r in El. subst settled.
      rewrite (tracks_finish _ _ _ _ _ Hok Ht Ep Ea).
      split; [by rewrite cancelled_by_snoc, orb_false_r|]. cbn [at_phase b_phase b_cancelled].
      pose proof (tr_length _ _ _ _ Ht) as Hl. rewrite length_app, repeat_length in Hl.
      unfold fates_of. rewrite reading_snoc. cbn [read_choice]. split.
      * replace (length calls - length (rd_fates (reading choices)))%nat with unasked by lia.
        apply entries_by_ext. intros i. by apply polls_kept.
      * intros Ec. destruct unasked; [lia|]. rewrite Hu in Ec by lia. done.
  - destruct (b_phase b) as [[|call calls']|next|at_| |] eqn:Ep; try done.
    destruct (b_cancelled b) eqn:Ec; [done|]. injection Hs as <-. destruct found as [tool|].
    + apply follows_move with b; try done; cbn [at_phase b_cancelled b_phase].
      * by rewrite cancelled_by_snoc, orb_false_r, Ec.
      * by rewrite reading_snoc.
      * by rewrite Ep.
      * by rewrite Ep.
      * intros unasked Hu _. rewrite reading_snoc. split; [done|]. destruct unasked; [done|]. by rewrite Hu in Ec by lia.
      * intros settled F Ht. eapply tracks_ext; [intros i; by apply polls_kept|]. by apply tracks_at_phase.
    + change (missing_tool_result call) with (fate_result call Missing).
      apply follows_immediate; rewrite ?Ep; try done. by rewrite reading_snoc.
  - destruct answer as [prepared|error], (b_phase b) as [|next|[call tool calls'|]| |] eqn:Ep; try done;
      injection Hs as <-; [by eapply follows_plan|].
    change (preparation_failed call error calls' b) with (push_immediate (fate_result call (PreparationFailed error)) calls' b).
    apply follows_immediate; rewrite ?Ep; try done. by rewrite reading_snoc.
  - destruct (b_phase b) as [|next|[call tool calls'|]| |] eqn:Ep; try done.
    destruct (b_cancelled b) eqn:Ec; [|done]. injection Hs as <-.
    change (preparation_failed call error_cancelled calls' b) with (push_immediate (fate_result call (PreparationFailed error_cancelled)) calls' b).
    apply follows_immediate; rewrite ?Ep; try done. by rewrite reading_snoc.
  - destruct (b_phase b) eqn:Ep; try done. by eapply follows_poll.
Qed.

Lemma leads_to_follows cancelled calls choices b :
  leads_to (batch_start calls cancelled) choices b ->
  follows cancelled calls choices b /\ exists plans, batch_ok calls plans b.
Proof.
  induction 1 as [|choices choice b b' _ [Hf [plans Hok]] Hs].
  - split; [apply follows_start|]. eexists. apply batch_ok_start.
  - split; [by eapply follows_step|]. destruct (step_keeps_batch_ok _ _ _ _ _ Hok Hs) as (plans' & _ & Hok'). by exists plans'.
Qed.

(** Nothing but the cancellation leaves a call unasked. *)
Lemma read_never_unasked choices : Unasked ∉ rd_fates (reading choices).
Proof.
  induction choices as [|choice choices IH] using rev_ind; [apply not_elem_of_nil|].
  rewrite reading_snoc. destruct choice as [| |[tool|]|[prepared|error]| |index answer]; cbn; try done;
    try (destruct (rd_tool (reading choices)); [|done]; cbn); rewrite elem_of_app, list_elem_of_singleton; by intros [?|?].
Qed.

(** The batches that runs come to are those that choices lead to. *)
Lemma runs_are_choices b0 b : rtc bstep b0 b <-> exists choices, leads_to b0 choices b.
Proof.
  split.
  - revert b. apply rtc_ind_r; [exists []; constructor|]. intros b b' _ [choice Hs] [choices Hl].
    exists (choices ++ [choice]). by econstructor.
  - intros [choices Hl]. induction Hl as [|choices choice b b' _ IH Hs]; [done|]. eapply rtc_r; [done|by exists choice].
Qed.

(** The choices taken one after the other, where each is open. *)
Fixpoint taking choices b : option Batch :=
  match choices with [] => Some b | choice :: choices => b' ← step choice b; taking choices b' end.

Lemma taking_leads b0 choices b : taking choices b0 = Some b -> leads_to b0 choices b.
Proof.
  assert (forall rest before b1, leads_to b0 before b1 -> taking rest b1 = Some b -> leads_to b0 (before ++ rest) b) as Ht.
  { induction rest as [|choice rest IH]; intros before b1 Hl.
    - intros [= <-]. by rewrite app_nil_r.
    - intros (b2 & Es & Et)%bind_Some. rewrite cons_middle, app_assoc. eapply IH; [|done]. by econstructor. }
  apply (Ht choices []). constructor.
Qed.

End Traces.
