(* ===== verification/Hooks.v ===== *)
(** The hooks of a turn (loop: hooks.rs, noop.rs, compose.rs, compose/*.rs): what
    they decide by default, and two of them one behind the other.

    A hook is asynchronous code with state of its own: it runs over an
    environment [W] that it may change. *)

From S2P Require Import Prelude BTree LoopModel.

Open Scope list_scope.

(** Code that awaits: it changes the environment and returns. *)
Definition Async (W A : Type) : Type := W -> A * W.

#[export] Instance async_ret {W} : MRet (Async W) := fun A a w => (a, w).
#[export] Instance async_bind {W} : MBind (Async W) := fun A B k m w => let (a, w) := m w in k a w.

Record TurnHooks (W : Type) := {
  on_turn_start : TurnContext -> Async W TurnStartDecision;
  on_context_pressure : ContextPressureView -> Async W ContextPressureDecision;
  prepare_context : PrepareContextView -> Async W PrepareContextDecision;
  on_steering_input : list SteeringMessage -> Async W SteeringDecision;
  before_tool_call : ToolCallView -> Async W ToolDecision;
  after_tool_call : ToolResultView -> Async W ToolResultDecision;
  after_model_round : RoundOutcomeView -> Async W RoundDecision;
  prepare_next_round : TurnContext -> Async W PrepareNextRoundDecision;
  on_turn_stop : TurnStopView -> Async W TurnStopDecision;
  after_turn_complete : TurnContext -> Async W TurnCompletionDecision
}.
Arguments on_turn_start {W}.
Arguments on_context_pressure {W}.
Arguments prepare_context {W}.
Arguments on_steering_input {W}.
Arguments before_tool_call {W}.
Arguments after_tool_call {W}.
Arguments after_model_round {W}.
Arguments prepare_next_round {W}.
Arguments on_turn_stop {W}.
Arguments after_turn_complete {W}.

(** The default of [after_model_round]. *)
Definition default_after_model_round (outcome : RoundOutcome) : RoundDecision :=
  match outcome with
  | OutcomeFollowupRequired => RoundContinue UpdateReuse
  | ToolCalls _ => RoundContinue UpdateReuse
  | FinalAnswer message => RoundStop message
  | TerminatedByTool message => RoundStop message
  | OutcomeEmpty => RoundStop NoMessage
  end.

(** [NoopHooks]: every default. *)
Definition noop_hooks {W} : TurnHooks W := {|
  on_turn_start _ := mret StartProceed;
  on_context_pressure _ := mret PressureProceed;
  prepare_context _ := mret (Prepared []);
  on_steering_input _ := mret InjectAndContinue;
  before_tool_call _ := mret Allow;
  after_tool_call _ := mret AsIs;
  after_model_round view := mret (default_after_model_round (ov_outcome view));
  prepare_next_round _ := mret NextReuse;
  on_turn_stop _ := mret StopComplete;
  after_turn_complete _ := mret CompletionComplete
|}.

(** * [ChainedHooks] *)

Section Chain.
Context {W : Type} (first second : TurnHooks W).

Definition chain_on_turn_start (ctx : TurnContext) : Async W TurnStartDecision :=
  decision ← on_turn_start first ctx;
  match decision with
  | StartProceed => on_turn_start second ctx
  | ReplaceInitialPrompt prompt_items => mret (ReplaceInitialPrompt prompt_items)
  | decision => mret decision
  end.

Definition chain_on_context_pressure (view : ContextPressureView) : Async W ContextPressureDecision :=
  decision ← on_context_pressure first view;
  match decision with
  | PressureProceed => on_context_pressure second view
  | decision => mret decision
  end.

Definition chain_prepare_context (view : PrepareContextView) : Async W PrepareContextDecision :=
  decision ← prepare_context first view;
  match decision with
  | Prepared items =>
      decision ← prepare_context second view;
      match decision with
      | Prepared second => mret (Prepared (items ++ second))
      | decision => mret decision
      end
  | decision => mret decision
  end.

Definition chain_on_steering_input (messages : list SteeringMessage) : Async W SteeringDecision :=
  decision ← on_steering_input first messages;
  match decision with
  | DropAndContinue => mret DropAndContinue
  | InjectAndContinue => on_steering_input second messages
  end.

Definition chain_before_tool_call (view : ToolCallView) : Async W ToolDecision :=
  decision ← before_tool_call first view;
  match decision with
  | Allow => before_tool_call second view
  | Block reason => mret (Block reason)
  | Modify modified =>
      let chained_view := {| kv_call := modified; kv_permissions := kv_permissions view |} in
      decision ← before_tool_call second chained_view;
      match decision with
      | Allow => mret (Modify modified)
      | decision => mret decision
      end
  end.

Definition chain_after_tool_call (view : ToolResultView) : Async W ToolResultDecision :=
  decision ← after_tool_call first view;
  match decision with
  | AsIs => after_tool_call second view
  | Terminate result => mret (Terminate result)
  | Rewrite result =>
      let chained_view := {| rv_call := rv_call view; rv_result := result |} in
      decision ← after_tool_call second chained_view;
      match decision with
      | AsIs => mret (Rewrite result)
      | decision => mret decision
      end
  end.

Definition chain_after_model_round (view : RoundOutcomeView) : Async W RoundDecision :=
  decision ← after_model_round first view;
  match decision with
  | RoundContinue UpdateReuse => after_model_round second view
  | decision => mret decision
  end.

Definition chain_prepare_next_round (ctx : TurnContext) : Async W PrepareNextRoundDecision :=
  decision ← prepare_next_round first ctx;
  match decision with
  | NextReuse => prepare_next_round second ctx
  | decision => mret decision
  end.

Definition chain_on_turn_stop (view : TurnStopView) : Async W TurnStopDecision :=
  decision ← on_turn_stop first view;
  match decision with
  | StopComplete => on_turn_stop second view
  | decision => mret decision
  end.

Definition chain_after_turn_complete (ctx : TurnContext) : Async W TurnCompletionDecision :=
  decision ← after_turn_complete first ctx;
  match decision with
  | CompletionComplete => after_turn_complete second ctx
  | CompletionWantsFollowup => mret CompletionWantsFollowup
  end.

Definition chained_hooks : TurnHooks W := {|
  on_turn_start := chain_on_turn_start;
  on_context_pressure := chain_on_context_pressure;
  prepare_context := chain_prepare_context;
  on_steering_input := chain_on_steering_input;
  before_tool_call := chain_before_tool_call;
  after_tool_call := chain_after_tool_call;
  after_model_round := chain_after_model_round;
  prepare_next_round := chain_prepare_next_round;
  on_turn_stop := chain_on_turn_stop;
  after_turn_complete := chain_after_turn_complete
|}.

End Chain.

(** * Hooks that decide alike *)

(** Two hooks that cannot be told apart, but for [after_model_round]. *)
Record alike_but_rounds {W} (h1 h2 : TurnHooks W) : Prop := {
  alike_start ctx w : on_turn_start h1 ctx w = on_turn_start h2 ctx w;
  alike_pressure view w : on_context_pressure h1 view w = on_context_pressure h2 view w;
  alike_prepare view w : prepare_context h1 view w = prepare_context h2 view w;
  alike_steering messages w : on_steering_input h1 messages w = on_steering_input h2 messages w;
  alike_before view w : before_tool_call h1 view w = before_tool_call h2 view w;
  alike_after view w : after_tool_call h1 view w = after_tool_call h2 view w;
  alike_next ctx w : prepare_next_round h1 ctx w = prepare_next_round h2 ctx w;
  alike_stop view w : on_turn_stop h1 view w = on_turn_stop h2 view w;
  alike_complete ctx w : after_turn_complete h1 ctx w = after_turn_complete h2 ctx w
}.

Definition same_rounds {W} (h1 h2 : TurnHooks W) : Prop :=
  forall view w, after_model_round h1 view w = after_model_round h2 view w.

Definition alike {W} (h1 h2 : TurnHooks W) : Prop := alike_but_rounds h1 h2 /\ same_rounds h1 h2.

(** Opens what hooks decided, one decision after the other. *)
Ltac open_decisions :=
  repeat (cbn in *;
          match goal with
          | |- context [match ?x with _ => _ end] =>
              lazymatch x with context [match _ with _ => _ end] => fail | _ => destruct x end
          end); try reflexivity.

Ltac run_chains :=
  cbv [chained_hooks on_turn_start on_context_pressure prepare_context on_steering_input before_tool_call
    after_tool_call after_model_round prepare_next_round on_turn_stop after_turn_complete chain_on_turn_start
    chain_on_context_pressure chain_prepare_context chain_on_steering_input chain_before_tool_call
    chain_after_tool_call chain_after_model_round chain_prepare_next_round chain_on_turn_stop
    chain_after_turn_complete mbind async_bind mret async_ret noop_hooks];
  open_decisions.

Lemma chain_assoc_but_rounds {W} (a b c : TurnHooks W) :
  alike_but_rounds (chained_hooks (chained_hooks a b) c) (chained_hooks a (chained_hooks b c)).
Proof.
  constructor; intros ? w; run_chains.
  by rewrite app_assoc.
Qed.

Lemma chain_assoc_rounds {W} (a b c : TurnHooks W) :
  same_rounds (chained_hooks (chained_hooks a b) c) (chained_hooks a (chained_hooks b c)).
Proof.
  intros view w. run_chains.
Qed.

Lemma noop_first {W} (a : TurnHooks W) : alike_but_rounds (chained_hooks noop_hooks a) a.
Proof.
  constructor; intros x w; run_chains.
Qed.

Lemma noop_second {W} (a : TurnHooks W) : alike_but_rounds (chained_hooks a noop_hooks) a.
Proof.
  constructor; intros x w; run_chains.
  by rewrite app_nil_r.
Qed.

(** Where the defaults stop a turn, what stands behind them is not asked. *)
Lemma noop_first_rounds {W} (a : TurnHooks W) view w :
  after_model_round (chained_hooks noop_hooks a) view w =
  match default_after_model_round (ov_outcome view) with
  | RoundContinue _ => after_model_round a view w
  | decision => (decision, w)
  end.
Proof. destruct view as [outcome usage]. by destruct outcome. Qed.

(** Behind hooks that let a turn go on, the defaults decide. *)
Lemma noop_second_rounds {W} (a : TurnHooks W) view w :
  after_model_round (chained_hooks a noop_hooks) view w =
  match after_model_round a view w with
  | (RoundContinue UpdateReuse, w) => (default_after_model_round (ov_outcome view), w)
  | answer => answer
  end.
Proof. run_chains. Qed.
