(* ===== verification/TurnLoop.v ===== *)
(** A turn (loop: turn_loop.rs, turn_loop/*.rs, turn_start.rs, turn_start/*.rs,
    turn_finish/*.rs, round/*.rs, stream.rs, stream/*.rs, stream_tools.rs,
    turn_items.rs, tool/prepare.rs, tool/dispatch.rs, tool/dispatch/outcome.rs):
    rounds of a prompt, a model's stream and the tools it calls, until a hook or
    the guard stops it.

    The code runs over the services of its caller and over the cancellation
    token, which other tasks may fire at any time.  They are one environment [W];
    an await is a function of it.  What the turn does to the services is kept in a
    log beside it. *)

From S2P Require Import Prelude BTree Effects LoopModel ToolBatch Hooks.

Open Scope list_scope.

(** * Services *)

(** What one poll of the stream finds when its await returns: the turn cancelled
    meanwhile, the next answer of the stream, or its end; and steering, which
    comes first where the await listens to it. *)
Inductive StreamAnswer := StreamCancelled | StreamNext (event : option (LoopResult ModelEvent)).
Record StreamPoll := { sp_steering : option (LoopResult unit); sp_answer : StreamAnswer }.

(** A stream that ends, as the polls that consume it. *)
Definition ModelStream (W : Type) : Type := list (Async W StreamPoll).

(** How the await of a request ends once the request has been made. *)
Inductive ModelRace (W : Type) :=
  | RaceCancelled
  | RaceSteering (answer : LoopResult unit)
  | RaceStream (stream : LoopResult (ModelStream W)).
Arguments RaceCancelled {W}.
Arguments RaceSteering {W}.
Arguments RaceStream {W}.

(** [TurnServices], the token and the schedule of the tools.  [steering_ready] is
    whether [wait_for_steering] answers before the request is made. *)
Class TurnServices (W : Type) := {
  services_tools :: ToolTypes;
  is_cancelled : W -> bool;
  emit_event : TurnEvent -> Async W (LoopResult unit);
  persist_items : list TurnItem -> Async W (LoopResult unit);
  drain_steering : Async W (LoopResult SteeringDrain);
  steering_ready : Async W (option (LoopResult unit));
  stream_model : ModelRequest -> Async W (ModelRace W);
  schedule : Batch -> Async W Answers
}.

Section Turn.
Context {W : Type} `{!TurnServices W}.

(** What a turn has done. *)
Inductive Act :=
  | ActEvent (event : TurnEvent) (answer : LoopResult unit)
  | ActPersist (items : list TurnItem) (answer : LoopResult unit)
  | ActDrain (answer : LoopResult SteeringDrain)
  | ActRequest (request : ModelRequest)
  | ActModelEvent (event : ModelEvent)
  | ActTools (calls : list ToolCall)
  | ActToolEvent (index : nat) (event : TurnEvent).

Record World := { w_env : W; w_log : list Act }.

Definition Turn (A : Type) : Type := World -> A * World.

#[local] Instance turn_ret : MRet Turn := fun A a w => (a, w).
#[local] Instance turn_bind : MBind Turn := fun A B k m w => let (a, w) := m w in k a w.

Definition logged (act : Act) (w : World) : World := {| w_env := w_env w; w_log := w_log w ++ [act] |}.

(** An await that leaves no trace, and one that does. *)
Definition await {A} (m : Async W A) : Turn A :=
  fun w => let (a, env) := m (w_env w) in (a, {| w_env := env; w_log := w_log w |}).
Definition await_act {A} (m : Async W A) (act : A -> Act) : Turn A :=
  fun w => let (a, env) := m (w_env w) in (a, logged (act a) {| w_env := env; w_log := w_log w |}).

Definition emit (event : TurnEvent) : Turn (LoopResult unit) := await_act (emit_event event) (ActEvent event).
Definition persist (items : list TurnItem) : Turn (LoopResult unit) := await_act (persist_items items) (ActPersist items).
Definition drain : Turn (LoopResult SteeringDrain) := await_act drain_steering ActDrain.
Definition cancelled : Turn bool := fun w => (is_cancelled (w_env w), w).
Definition act (a : Act) : Turn unit := fun w => (tt, logged a w).

(** * Items *)

Fixpoint emit_finished (items : list TurnItem) : Turn (LoopResult unit) :=
  match items with
  | [] => mret (Ok tt)
  | ItemToolResult result :: items =>
      r ← emit (TurnToolFinished result);
      match r with Ok _ => emit_finished items | Err error => mret (Err error) end
  | _ :: items => emit_finished items
  end.

Definition persist_turn_items (items : list TurnItem) (st : TurnState) : Turn (LoopResult unit * TurnState) :=
  match items with
  | [] => mret (Ok tt, st)
  | _ =>
      r ← persist items;
      match r with
      | Err error => mret (Err error, st)
      | Ok _ => r ← emit_finished items; mret (r, record_items items st)
      end
  end.

(** * The model's stream *)

Inductive AssistantTextRecordState := NeedsRecord | AlreadyRecorded.

Record AssistantTextAccumulator := {
  at_item_id : option string;
  at_text : string;
  at_record_state : AssistantTextRecordState
}.

Definition capture_item_id (item_id : option string) (a : AssistantTextAccumulator) : AssistantTextAccumulator :=
  {| at_item_id := match at_item_id a with None => item_id | Some id => Some id end;
     at_text := at_text a; at_record_state := at_record_state a |}.

Definition push_delta (item_id : option string) (text : string) (a : AssistantTextAccumulator) : AssistantTextAccumulator :=
  let a := capture_item_id item_id a in
  {| at_item_id := at_item_id a; at_text := at_text a ++ text; at_record_state := at_record_state a |}.

Definition push_final (item_id : option string) (text : string) (a : AssistantTextAccumulator) : AssistantTextAccumulator :=
  let a := capture_item_id item_id a in
  {| at_item_id := at_item_id a; at_text := at_text a ++ text; at_record_state := at_record_state a |}.

Definition push_recorded_final (item_id : option string) (text : string) (a : AssistantTextAccumulator)
    : AssistantTextAccumulator :=
  let a := push_final item_id text a in
  {| at_item_id := at_item_id a; at_text := at_text a; at_record_state := AlreadyRecorded |}.

(** The final text, and what it leaves of the state and of the new items. *)
Definition commit_text (a : AssistantTextAccumulator) (st : TurnState) (new_items : list TurnItem)
    : option string * TurnState * list TurnItem :=
  if bool_decide (at_text a = EmptyString) then (None, st, new_items)
  else
    (Some (at_text a), record_last_agent_message (at_text a) st,
     match at_record_state a with
     | NeedsRecord => new_items ++ [ItemAssistantText (at_item_id a) (at_text a)]
     | AlreadyRecorded => new_items
     end).

Inductive FollowupSignal := FollowupNone | FollowupRequired.

Definition into_round_outcome (signal : FollowupSignal) (final_text : option string) : RoundOutcome :=
  match signal with
  | FollowupRequired => OutcomeFollowupRequired
  | FollowupNone => match final_text with Some message => FinalAnswer (Text message) | None => OutcomeEmpty end
  end.

Record ModelStreamState := {
  ss_calls : list ToolCall;
  ss_new_items : list TurnItem;
  ss_assistant_text : AssistantTextAccumulator;
  ss_followup : FollowupSignal;
  ss_observed_model_output : bool
}.

Definition stream_state_default : ModelStreamState :=
  {| ss_calls := []; ss_new_items := [];
     ss_assistant_text := {| at_item_id := None; at_text := EmptyString; at_record_state := NeedsRecord |};
     ss_followup := FollowupNone; ss_observed_model_output := false |}.

Definition can_preempt_for_steering (ss : ModelStreamState) : bool := negb (ss_observed_model_output ss).

(** The accumulator and the flag of output after an event. *)
Definition with_text (a : AssistantTextAccumulator) (ss : ModelStreamState) : ModelStreamState :=
  {| ss_calls := ss_calls ss; ss_new_items := ss_new_items ss; ss_assistant_text := a;
     ss_followup := ss_followup ss; ss_observed_model_output := ss_observed_model_output ss |}.
Definition observe (event : ModelEvent) (ss : ModelStreamState) : ModelStreamState :=
  {| ss_calls := ss_calls ss; ss_new_items := ss_new_items ss; ss_assistant_text := ss_assistant_text ss;
     ss_followup := ss_followup ss;
     ss_observed_model_output :=
       match event with ModelCompleted _ => ss_observed_model_output ss | _ => true end |}.

Definition record_event (event : ModelEvent) (ss : ModelStreamState) (st : TurnState)
    : Turn (LoopResult bool * ModelStreamState * TurnState) :=
  _ ← act (ActModelEvent event);
  let ss := observe event ss in
  match event with
  | ModelTextDelta item_id text =>
      let ss := with_text (push_delta item_id text (ss_assistant_text ss)) ss in
      r ← emit (TurnTextDelta item_id text);
      mret (match r with Ok _ => Ok false | Err error => Err error end, ss, st)
  | ModelReasoningDelta item_id summary_index content_index text =>
      r ← emit (TurnReasoningDelta item_id summary_index content_index text);
      match r with
      | Ok _ =>
          mret (Ok false,
                {| ss_calls := ss_calls ss; ss_new_items := ss_new_items ss ++ [ItemReasoning item_id text];
                   ss_assistant_text := ss_assistant_text ss; ss_followup := ss_followup ss;
                   ss_observed_model_output := ss_observed_model_output ss |}, st)
      | Err error => mret (Err error, ss, st)
      end
  | ModelToolCall call =>
      mret (Ok false,
            {| ss_calls := ss_calls ss ++ [call]; ss_new_items := ss_new_items ss;
               ss_assistant_text := ss_assistant_text ss; ss_followup := ss_followup ss;
               ss_observed_model_output := ss_observed_model_output ss |}, st)
  | ModelFinalText item_id text =>
      mret (Ok false, with_text (push_final item_id text (ss_assistant_text ss)) ss, st)
  | ModelRecordedFinalText item_id text =>
      mret (Ok false, with_text (push_recorded_final item_id text (ss_assistant_text ss)) ss, st)
  | ModelFollowupRequired =>
      mret (Ok false,
            {| ss_calls := ss_calls ss; ss_new_items := ss_new_items ss; ss_assistant_text := ss_assistant_text ss;
               ss_followup := FollowupRequired; ss_observed_model_output := ss_observed_model_output ss |}, st)
  | ModelCompleted usage => mret (Ok true, ss, record_usage usage st)
  end.

Record ModelStreamCompletion := {
  mc_calls : list ToolCall;
  mc_new_items : list TurnItem;
  mc_no_tool_outcome : RoundOutcome
}.

Definition stream_complete (ss : ModelStreamState) (st : TurnState) : ModelStreamCompletion * TurnState :=
  let '(final_text, st, new_items) := commit_text (ss_assistant_text ss) st (ss_new_items ss) in
  ({| mc_calls := ss_calls ss; mc_new_items := new_items;
      mc_no_tool_outcome := into_round_outcome (ss_followup ss) final_text |}, st).

(** How the loop over the stream is left. *)
Inductive StreamLeft := LeftCancelled | LeftSteering | LeftBroken (error : TurnError) | LeftAtEnd.

Fixpoint read_stream (stream : ModelStream W) (ss : ModelStreamState) (st : TurnState)
    : Turn (StreamLeft * ModelStreamState * TurnState) :=
  c ← cancelled;
  if c : bool then mret (LeftCancelled, ss, st)
  else
    match stream with
    | [] => mret (LeftAtEnd, ss, st)
    | poll :: stream =>
        found ← await poll;
        match (if can_preempt_for_steering ss then sp_steering found else None), sp_answer found with
        | Some (Ok _), _ => mret (LeftSteering, ss, st)
        | Some (Err error), _ => mret (LeftBroken error, ss, st)
        | None, StreamCancelled => mret (LeftCancelled, ss, st)
        | None, StreamNext None => mret (LeftAtEnd, ss, st)
        | None, StreamNext (Some (Err error)) => mret (LeftBroken error, ss, st)
        | None, StreamNext (Some (Ok event)) =>
            recorded ← record_event event ss st;
            let '(r, ss, st) := recorded in
            match r with
            | Err error => mret (LeftBroken error, ss, st)
            | Ok true => mret (LeftAtEnd, ss, st)
            | Ok false => read_stream stream ss st
            end
        end
    end.

(** * Tools *)

(** The items and the calls that a decision about a call leaves. *)
Definition decided (original_call : ToolCall) (decision : ToolDecision) : list TurnItem * list ToolCall :=
  match decision with
  | Allow => ([ItemToolCall original_call], [original_call])
  | Modify call => ([ItemToolCall call], [call])
  | Block reason =>
      ([ItemToolCall original_call; ItemToolResult (result_error (tc_id original_call) reason)], [])
  end.

Definition prepare_tool_call (hooks : TurnHooks W) (permissions : EffectivePermissions) (original_call : ToolCall)
    : Turn (list TurnItem * list ToolCall) :=
  decision ← await (before_tool_call hooks {| kv_call := original_call; kv_permissions := permissions |});
  mret (decided original_call decision).

Fixpoint prepare_tool_calls (hooks : TurnHooks W) (permissions : EffectivePermissions) (calls : list ToolCall)
    : Turn (list TurnItem * list ToolCall) :=
  match calls with
  | [] => mret ([], [])
  | call :: calls =>
      one ← prepare_tool_call hooks permissions call;
      rest ← prepare_tool_calls hooks permissions calls;
      mret (one.1 ++ rest.1, one.2 ++ rest.2)
  end.

Inductive ToolDispatchStatus := DispatchContinue | DispatchTerminated (message : TurnCompletionMessage).

Record ToolDispatchOutcome := { do_items : list TurnItem; do_status : ToolDispatchStatus }.

Definition dispatch_default : ToolDispatchOutcome := {| do_items := []; do_status := DispatchContinue |}.

Definition record_more_items (items : list TurnItem) (outcome : ToolDispatchOutcome) : ToolDispatchOutcome :=
  {| do_items := do_items outcome ++ items; do_status := do_status outcome |}.

(** Whether the loop over the entries goes on, and what it has. *)
Definition record_result_decision (original : ToolResult) (decision : ToolResultDecision) (outcome : ToolDispatchOutcome)
    : bool * ToolDispatchOutcome :=
  match decision with
  | AsIs => (true, record_more_items [ItemToolResult original] outcome)
  | Rewrite result => (true, record_more_items [ItemToolResult result] outcome)
  | Terminate result =>
      (false, {| do_items := do_items outcome ++ [ItemToolResult result];
                 do_status := DispatchTerminated (Text (tr_content result)) |})
  end.

Fixpoint dispatch_entries (hooks : TurnHooks W) (entries : list ToolBatchEntry) (outcome : ToolDispatchOutcome)
    : Turn (LoopResult ToolDispatchOutcome) :=
  match entries with
  | [] => mret (Ok outcome)
  | EntryImmediate item :: entries => dispatch_entries hooks entries (record_more_items [item] outcome)
  | EntryRun run :: entries =>
      let outcome := record_more_items (run_lifecycle_items run) outcome in
      match run_result run with
      | Err error => mret (Err error)
      | Ok result =>
          decision ← await (after_tool_call hooks {| rv_call := run_call run; rv_result := result |});
          let (goes_on, outcome) := record_result_decision result decision outcome in
          if goes_on then dispatch_entries hooks entries outcome else mret (Ok outcome)
      end
  end.

(** [prepare_and_run_tool_calls]: the batch, and what it sent to the sink. *)
Definition run_tools (calls : list ToolCall) : Turn (list ToolBatchEntry) :=
  fun w =>
    let (b, env) := run_batch schedule is_cancelled (batch_fuel calls)
                      (batch_start calls (is_cancelled (w_env w))) (w_env w) in
    (match b_phase b with Finished entries => entries | _ => [] end,
     {| w_env := env;
        w_log := w_log w ++ ActTools calls :: map (fun '(index, event) => ActToolEvent index event) (b_log b) |}).

Definition dispatch_tool_calls (hooks : TurnHooks W) (calls : list ToolCall) : Turn (LoopResult ToolDispatchOutcome) :=
  entries ← run_tools calls;
  dispatch_entries hooks entries dispatch_default.

Definition run_tool_round (hooks : TurnHooks W) (ctx : TurnContext) (calls : list ToolCall) (st : TurnState)
    : Turn (LoopResult RoundOutcome * TurnState) :=
  let (admission, st) := record_tool_calls (length calls) st in
  match admission with
  | Rejected _ => mret (Ok (FinalAnswer (last_completion_message st)), st)
  | Accepted =>
      preparation ← prepare_tool_calls hooks (cx_permissions ctx) calls;
      let (preparation_items, prepared_calls) := preparation : list TurnItem * list ToolCall in
      persisted ← persist_turn_items preparation_items st;
      let (r, st) := persisted : LoopResult unit * TurnState in
      match r with
      | Err error => mret (Err error, st)
      | Ok _ =>
          match prepared_calls with
          | [] => mret (Ok OutcomeFollowupRequired, st)
          | _ =>
              dispatch ← dispatch_tool_calls hooks prepared_calls;
              match dispatch with
              | Err error => mret (Err error, st)
              | Ok outcome =>
                  persisted ← persist_turn_items (do_items outcome) st;
                  let (r, st) := persisted : LoopResult unit * TurnState in
                  mret (match r with
                        | Err error => Err error
                        | Ok _ =>
                            Ok match do_status outcome with
                               | DispatchContinue => ToolCalls prepared_calls
                               | DispatchTerminated message => TerminatedByTool message
                               end
                        end, st)
              end
          end
      end
  end.

Inductive ModelStreamConsumption := ConsumptionCompleted (outcome : RoundOutcome) | SteeringPending.

Definition consume_model_stream (hooks : TurnHooks W) (ctx : TurnContext) (stream : ModelStream W) (st : TurnState)
    : Turn (LoopResult ModelStreamConsumption * TurnState) :=
  read ← read_stream stream stream_state_default st;
  let '(left_, ss, st) := read in
  match left_ with
  | LeftCancelled => mret (Err error_cancelled, st)
  | LeftSteering => mret (Ok SteeringPending, st)
  | LeftBroken error => mret (Err error, st)
  | LeftAtEnd =>
      let (completion, st) := stream_complete ss st in
      persisted ← persist_turn_items (mc_new_items completion) st;
      let (r, st) := persisted : LoopResult unit * TurnState in
      match r with
      | Err error => mret (Err error, st)
      | Ok _ =>
          match mc_calls completion with
          | [] => mret (Ok (ConsumptionCompleted (mc_no_tool_outcome completion)), st)
          | calls =>
              ran ← run_tool_round hooks ctx calls st;
              let (r, st) := ran : LoopResult RoundOutcome * TurnState in
              mret (match r with Ok outcome => Ok (ConsumptionCompleted outcome) | Err error => Err error end, st)
          end
      end
  end.

(** * Rounds *)

Definition apply_context_pressure (hooks : TurnHooks W) (active_model : ModelSpec) (prompt_base : list PromptItem)
    (st : TurnState) : Turn (LoopResult unit * list PromptItem * TurnState) :=
  decision ← await (on_context_pressure hooks
    {| pv_usage := st_token_usage st; pv_context_window := ms_context_window active_model |});
  match decision with
  | PressureProceed => mret (Ok tt, prompt_base, st)
  | Compacted prompt_items [] =>
      mret (Ok tt, prompt_items, mark_transcript_delta_absorbed_by_prompt_refresh st)
  | Compacted prompt_items transcript_items =>
      r ← persist transcript_items;
      match r with
      | Err error => mret (Err error, prompt_items, st)
      | Ok _ =>
          mret (Ok tt, prompt_items,
                mark_transcript_delta_absorbed_by_prompt_refresh (record_items transcript_items st))
      end
  | PressureAbort reason => mret (Err reason, prompt_base, st)
  end.

Inductive RoundPromptDecision :=
  | Sample (prompt : list PromptItem)
  | PromptRetryWithoutModelRequest
  | PromptStopWithoutModelRequest (message : TurnCompletionMessage).

Definition prepare_round_prompt (hooks : TurnHooks W) (prompt_base : list PromptItem) (st : TurnState)
    : Turn (LoopResult RoundPromptDecision * list PromptItem * TurnState) :=
  let prompt := build_round_prompt prompt_base st in
  drained ← drain;
  match drained with
  | Err error => mret (Err error, prompt_base, st)
  | Ok drained =>
      match dr_control drained with
      | SteeringRetryWithoutModelRequest => mret (Ok PromptRetryWithoutModelRequest, prompt_base, st)
      | SteeringStopWithoutModelRequest message => mret (Ok (PromptStopWithoutModelRequest message), prompt_base, st)
      | SteeringContinue =>
          match dr_messages drained with
          | [] => mret (Ok (Sample prompt), prompt_base, st)
          | messages =>
              decision ← await (on_steering_input hooks messages);
              match decision with
              | InjectAndContinue =>
                  let prompt := prompt ++ concat (map steering_prompt_items messages) in
                  mret (Ok (Sample prompt), prompt, mark_transcript_delta_absorbed_by_prompt_refresh st)
              | DropAndContinue => mret (Ok (Sample prompt), prompt_base, st)
              end
          end
      end
  end.

Inductive RoundLoopAction :=
  | ActionContinue (prompt_update : RoundPromptUpdate)
  | ActionStop (message : TurnCompletionMessage)
  | ActionRetryWithoutModelRequest
  | ActionAbort (reason : TurnError).

Definition after_steering (answer : LoopResult unit) : RoundLoopAction :=
  match answer with Ok _ => ActionRetryWithoutModelRequest | Err reason => ActionAbort reason end.

(** The biased [select!] around the request: the token first, then steering, then
    the request, which is made when the others are not ready. *)
Definition await_model (request : ModelRequest) : Turn (RoundLoopAction + ModelStream W) :=
  c ← cancelled;
  if c : bool then mret (inl (ActionAbort error_cancelled))
  else
    ready ← await steering_ready;
    match ready with
    | Some answer => mret (inl (after_steering answer))
    | None =>
        _ ← act (ActRequest request);
        race ← await (stream_model request);
        mret match race with
             | RaceCancelled => inl (ActionAbort error_cancelled)
             | RaceSteering answer => inl (after_steering answer)
             | RaceStream (Ok stream) => inr stream
             | RaceStream (Err reason) => inl (ActionAbort reason)
             end
    end.

Definition round_action (decision : RoundDecision) : RoundLoopAction :=
  match decision with
  | RoundContinue prompt_update => ActionContinue prompt_update
  | RoundStop message => ActionStop message
  | RoundAbort reason => ActionAbort reason
  end.

(** The rest of a round once there is a prompt. *)
Definition sample_model (hooks : TurnHooks W) (ctx : TurnContext) (settings : RoundSettings) (round : u64)
    (prompt : list PromptItem) (st : TurnState) : Turn (RoundLoopAction * TurnState) :=
  let request := {| rq_turn_id := cx_turn_id ctx; rq_round := round; rq_settings := settings; rq_prompt := prompt |} in
  answered ← await_model request;
  match answered with
  | inl action => mret (action, st)
  | inr stream =>
      consumed ← consume_model_stream hooks ctx stream st;
      let (r, st) := consumed : LoopResult ModelStreamConsumption * TurnState in
      match r with
      | Err reason => mret (ActionAbort reason, st)
      | Ok SteeringPending => mret (ActionRetryWithoutModelRequest, st)
      | Ok (ConsumptionCompleted outcome) =>
          decision ← await (after_model_round hooks {| ov_outcome := outcome; ov_usage := st_token_usage st |});
          mret (round_action decision, st)
      end
  end.

Definition run_model_round (hooks : TurnHooks W) (ctx : TurnContext) (settings : RoundSettings)
    (prompt_base : list PromptItem) (st : TurnState) : Turn (RoundLoopAction * list PromptItem * TurnState) :=
  let (round, st) := start_round st in
  pressed ← apply_context_pressure hooks (rs_model settings) prompt_base st;
  let '(r, prompt_base, st) := pressed : LoopResult unit * list PromptItem * TurnState in
  match r with
  | Err reason => mret (ActionAbort reason, prompt_base, st)
  | Ok _ =>
      prepared ← prepare_round_prompt hooks prompt_base st;
      let '(r, prompt_base, st) := prepared : LoopResult RoundPromptDecision * list PromptItem * TurnState in
      match r with
      | Err reason => mret (ActionAbort reason, prompt_base, st)
      | Ok PromptRetryWithoutModelRequest => mret (ActionRetryWithoutModelRequest, prompt_base, st)
      | Ok (PromptStopWithoutModelRequest message) => mret (ActionStop message, prompt_base, st)
      | Ok (Sample prompt) =>
          sampled ← sample_model hooks ctx settings round prompt st;
          let (action, st) := sampled : RoundLoopAction * TurnState in
          mret (action, prompt_base, st)
      end
  end.

Definition adjust_settings (adjustment : RoundAdjustment) (settings : RoundSettings) : RoundSettings :=
  {| rs_model := default (rs_model settings) (ra_model adjustment);
     rs_reasoning := match ra_reasoning adjustment with
                     | Some reasoning => Some reasoning | None => rs_reasoning settings end;
     rs_service_tier := rs_service_tier settings |}.

Definition apply_round_continuation (hooks : TurnHooks W) (ctx : TurnContext) (prompt_update : RoundPromptUpdate)
    (prompt_base : list PromptItem) (st : TurnState) (settings : RoundSettings)
    : Turn (list PromptItem * TurnState * RoundSettings) :=
  let (prompt_base, st) :=
    match prompt_update with
    | UpdateReplace prompt_items => (prompt_items, mark_transcript_delta_absorbed_by_prompt_refresh st)
    | UpdateReuse => (prompt_base, st)
    end in
  decision ← await (prepare_next_round hooks ctx);
  mret (prompt_base, st,
        match decision with NextReuse => settings | NextAdjust adjustment => adjust_settings adjustment settings end).

(** * The end of a turn *)

Definition run_turn_stop_hooks (hooks : TurnHooks W) (ctx : TurnContext) (message : TurnCompletionMessage) (st : TurnState)
    : Turn (TurnStopDecision * TurnState) :=
  let st := record_completion_message message st in
  decision ← await (on_turn_stop hooks {| sv_ctx := ctx; sv_last_agent_message := st_last_agent_message st |});
  mret (decision, st).

Definition complete_turn (hooks : TurnHooks W) (ctx : TurnContext) (st : TurnState) : Turn TurnResult :=
  r ← emit TurnCompleted;
  match r with
  | Err reason => mret (Aborted st reason)
  | Ok _ =>
      decision ← await (after_turn_complete hooks ctx);
      mret match decision with
           | CompletionComplete => Complete st
           | CompletionWantsFollowup => WantsFollowup st
           end
  end.

Definition abort_with_event (st : TurnState) (reason : TurnError) : Turn TurnResult :=
  _ ← emit (TurnAborted (te_message reason));
  mret (Aborted st reason).

(** * The start of a turn *)

Inductive TurnStartFlow :=
  | Ready (ctx : TurnContext) (st : TurnState) (prompt_base : list PromptItem) (active_settings : RoundSettings)
  | StartFinished (result : TurnResult).

Definition start_ready (ctx : TurnContext) (st : TurnState) (prompt_base : list PromptItem) : TurnStartFlow :=
  Ready ctx st prompt_base
    {| rs_model := cx_model ctx; rs_reasoning := cx_reasoning ctx; rs_service_tier := cx_service_tier ctx |}.

Definition apply_turn_start_decision (hooks : TurnHooks W) (ctx : TurnContext) : Turn (LoopResult TurnContext) :=
  decision ← await (on_turn_start hooks ctx);
  mret match decision with
       | StartProceed => Ok ctx
       | ReplaceInitialPrompt prompt_items => Ok (replace_initial_prompt prompt_items ctx)
       | StartAbort reason => Err reason
       end.

Definition prepare_start_context (hooks : TurnHooks W) (ctx : TurnContext) (st : TurnState) (input : TurnInput)
    (prompt_base : list PromptItem) : Turn TurnStartFlow :=
  decision ← await (prepare_context hooks
    {| cv_ctx := ctx; cv_transcript_delta := st_transcript_delta st; cv_input := input |});
  match decision with
  | Prepared items => mret (start_ready ctx st (prompt_base ++ items))
  | PrepareStop message =>
      stopped ← run_turn_stop_hooks hooks ctx message st;
      let (decision, st) := stopped : TurnStopDecision * TurnState in
      match decision with
      | StopComplete => result ← complete_turn hooks ctx st; mret (StartFinished result)
      | StopContinueTurn => mret (start_ready ctx st prompt_base)
      | StopAbort reason => mret (StartFinished (Aborted st reason))
      end
  | PrepareAbort reason => mret (StartFinished (Aborted st reason))
  end.

Definition prepare_turn_start (hooks : TurnHooks W) (ctx : TurnContext) (st : TurnState) (input : TurnInput)
    : Turn TurnStartFlow :=
  c ← cancelled;
  if c : bool then mret (StartFinished (Aborted st error_cancelled))
  else
    started ← apply_turn_start_decision hooks ctx;
    match started with
    | Err reason => mret (StartFinished (Aborted st reason))
    | Ok ctx => prepare_start_context hooks ctx st input (build_initial_prompt ctx input)
    end.

(** * The turn *)

(** The loop ['rounds], with a bound on its rounds; [None] is a turn that has not
    ended within them. *)
Fixpoint run_rounds (fuel : nat) (hooks : TurnHooks W) (ctx : TurnContext) (st : TurnState)
    (prompt_base : list PromptItem) (settings : RoundSettings) : Turn (option TurnResult) :=
  match fuel with
  | O => mret None
  | S fuel =>
      c ← cancelled;
      if c : bool then result ← abort_with_event st error_cancelled; mret (Some result)
      else
        rounded ← run_model_round hooks ctx settings prompt_base st;
        let '(action, prompt_base, st) := rounded : RoundLoopAction * list PromptItem * TurnState in
        match action with
        | ActionContinue prompt_update =>
            continued ← apply_round_continuation hooks ctx prompt_update prompt_base st settings;
            let '(prompt_base, st, settings) := continued : list PromptItem * TurnState * RoundSettings in
            run_rounds fuel hooks ctx st prompt_base settings
        | ActionStop message =>
            stopped ← run_turn_stop_hooks hooks ctx message st;
            let (decision, st) := stopped : TurnStopDecision * TurnState in
            match decision with
            | StopComplete => result ← complete_turn hooks ctx st; mret (Some result)
            | StopContinueTurn => run_rounds fuel hooks ctx st prompt_base settings
            | StopAbort reason => mret (Some (Aborted st reason))
            end
        | ActionRetryWithoutModelRequest => run_rounds fuel hooks ctx st prompt_base settings
        | ActionAbort reason => mret (Some (Aborted st reason))
        end
  end.

Definition run_turn (fuel : nat) (hooks : TurnHooks W) (ctx : TurnContext) (st : TurnState) (input : TurnInput)
    : Turn (option TurnResult) :=
  started ← prepare_turn_start hooks ctx st input;
  match started with
  | StartFinished result => mret (Some result)
  | Ready ctx st prompt_base settings => run_rounds fuel hooks ctx st prompt_base settings
  end.

End Turn.

Arguments World : clear implicits.
Arguments Turn : clear implicits.
