(* ===== verification/TurnFacts.v ===== *)
(** What holds throughout a turn.  [TurnInvariant] is the interface: what an
    invariant of the prompt, the state and the acts of a turn has to survive.  The
    walk over the code of the turn is proved against it, once.  Its instances:
    events that end a turn come last, the guard bounds the calls that are run, and
    the prompts of the requests replay what the turn committed. *)

From S2P Require Import Prelude BTree Effects LoopModel ToolBatch BatchFacts Hooks TurnLoop.

Open Scope list_scope.
Open Scope Z_scope.

(** * Prompts as projections *)

Definition projected (item : TurnItem) : option PromptItem :=
  match prompt_projection_from_turn_item item with Include item => Some item | RuntimeOnly => None end.

Lemma build_round_prompt_project prompt_base st :
  build_round_prompt prompt_base st = prompt_base ++ omap projected (st_transcript_delta st).
Proof.
  unfold build_round_prompt. generalize (st_transcript_delta st). intros items. revert prompt_base.
  induction items as [|item items IH]; intros base; cbn [fold_left]; [by rewrite app_nil_r|].
  rewrite IH. unfold projected at 2. cbn. unfold projected. destruct (prompt_projection_from_turn_item item); cbn; [|done].
  by rewrite <- app_assoc.
Qed.

Lemma prompt_record_items base items st :
  build_round_prompt base (record_items items st) = build_round_prompt base st ++ omap projected items.
Proof.
  rewrite !build_round_prompt_project. destruct items; cbn [record_items st_transcript_delta]; [by rewrite app_nil_r|].
  by rewrite omap_app, app_assoc.
Qed.

Lemma prompt_absorbed base st : build_round_prompt base (mark_transcript_delta_absorbed_by_prompt_refresh st) = base.
Proof. done. Qed.

Section Walk.
Context {W : Type} `{!TurnServices W}.

(** * Running code of a turn *)

Definition wp {A} (m : Turn W A) (w : World W) (Q : A -> World W -> Prop) : Prop := let (a, w') := m w in Q a w'.

Lemma wp_bind {A B} (m : Turn W A) (k : A -> Turn W B) w (Q : B -> World W -> Prop) :
  wp m w (fun a w' => wp (k a) w' Q) -> wp (turn_bind A B k m) w Q.
Proof. unfold wp, turn_bind. by destruct (m w). Qed.

Lemma wp_await {A} (m : Async W A) w (Q : A -> World W -> Prop) :
  (forall a env env', m env = (a, env') -> Q a {| w_env := env'; w_log := w_log w |}) -> wp (await m) w Q.
Proof. unfold wp, await. intros HQ. destruct (m (w_env w)) as [a env] eqn:E. by eapply HQ. Qed.

Lemma wp_await_act {A} (m : Async W A) (mk : A -> Act) w (Q : A -> World W -> Prop) :
  (forall a env, Q a {| w_env := env; w_log := w_log w ++ [mk a] |}) -> wp (await_act m mk) w Q.
Proof. unfold wp, await_act. intros HQ. destruct (m (w_env w)) as [a env]. apply HQ. Qed.

Lemma wp_mono {A} (m : Turn W A) w (Q Q' : A -> World W -> Prop) :
  wp m w Q -> (forall a w', Q a w' -> Q' a w') -> wp m w Q'.
Proof. unfold wp. destruct (m w). auto. Qed.

(** Runs the code at the head of the goal by its lemma, from what holds before. *)
Tactic Notation "walk_by" uconstr(lemma) hyp(w) hyp(Hw) :=
  eapply wp_mono; [eapply lemma; (exact Hw || assumption || reflexivity)|]; cbn beta; clear w Hw.

(** * Invariants *)

(** Events that end a turn. *)
Definition terminal (event : TurnEvent) : bool :=
  match event with TurnAborted _ | TurnCompleted => true | _ => false end.

(** Acts that neither add to the prompt nor end the turn. *)
Definition silent (a : Act) : bool :=
  match a with
  | ActEvent event _ | ActToolEvent _ event => negb (terminal event)
  | ActPersist _ (Err _) | ActDrain (Err _) | ActModelEvent _ => true
  | ActDrain (Ok drained) =>
      match dr_control drained, dr_messages drained with SteeringContinue, _ :: _ => false | _, _ => true end
  | _ => false
  end.

(** [inv budget prompt_base st acts]: [acts] is what the turn has done so far,
    [budget] the number of calls that have been admitted and not been run. *)
Class TurnInvariant (hooks : TurnHooks W) (inv : nat -> list PromptItem -> TurnState -> list Act -> Prop) := {
  inv_silent k base st acts a : silent a = true -> inv k base st acts -> inv k base st (acts ++ [a]);
  inv_persist k base st acts items :
    inv k base st acts -> inv k base (record_items items st) (acts ++ [ActPersist items (Ok tt)]);
  inv_usage k base st acts usage : inv k base st acts -> inv k base (record_usage usage st) acts;
  inv_message k base st acts message : inv k base st acts -> inv k base (record_last_agent_message message st) acts;
  inv_round k base st acts : inv k base st acts -> inv k base (snd (start_round st)) acts;
  inv_admitted base st st' acts n :
    inv 0%nat base st acts -> record_tool_calls n st = (Accepted, st') -> inv n base st' acts;
  inv_rejected base st st' acts n count :
    inv 0%nat base st acts -> record_tool_calls n st = (Rejected count, st') -> inv 0%nat base st' acts;
  inv_tools base st acts n calls :
    inv n base st acts -> (length calls <= n)%nat -> inv 0%nat base st (acts ++ [ActTools calls]);
  inv_unused base st acts n : inv n base st acts -> inv 0%nat base st acts;
  inv_request k base st acts request :
    inv k base st acts -> rq_prompt request = build_round_prompt base st -> inv k base st (acts ++ [ActRequest request]);
  inv_inject k base st acts drained :
    inv k base st acts -> dr_control drained = SteeringContinue ->
    inv k (build_round_prompt base st ++ concat (map steering_prompt_items (dr_messages drained)))
      (mark_transcript_delta_absorbed_by_prompt_refresh st) (acts ++ [ActDrain (Ok drained)]);
  inv_drop k base st acts drained env env' :
    inv k base st acts -> on_steering_input hooks (dr_messages drained) env = (DropAndContinue, env') ->
    inv k base st (acts ++ [ActDrain (Ok drained)]);
  inv_compacted k base st acts view env env' prompt_items transcript_items :
    inv k base st acts -> on_context_pressure hooks view env = (Compacted prompt_items transcript_items, env') ->
    inv k prompt_items (mark_transcript_delta_absorbed_by_prompt_refresh st) acts /\
    inv k prompt_items (mark_transcript_delta_absorbed_by_prompt_refresh (record_items transcript_items st))
      (acts ++ [ActPersist transcript_items (Ok tt)]) /\
    forall error, inv k prompt_items st (acts ++ [ActPersist transcript_items (Err error)]);
  inv_replace k base st acts view env env' prompt_items :
    inv k base st acts -> after_model_round hooks view env = (RoundContinue (UpdateReplace prompt_items), env') ->
    inv k prompt_items (mark_transcript_delta_absorbed_by_prompt_refresh st) acts
}.

Context (hooks : TurnHooks W) (inv : nat -> list PromptItem -> TurnState -> list Act -> Prop).
Context `{!TurnInvariant hooks inv} (log0 : list Act).

Definition holds k base st (w : World W) : Prop := exists acts, w_log w = log0 ++ acts /\ inv k base st acts.

Lemma holds_log k base st w w' : w_log w' = w_log w -> holds k base st w -> holds k base st w'.
Proof. unfold holds. by intros ->. Qed.

Lemma holds_silent k base st (w w' : World W) a :
  silent a = true -> w_log w' = w_log w ++ [a] -> holds k base st w -> holds k base st w'.
Proof.
  intros Ha Ew (acts & El & Hi). exists (acts ++ [a]). split; [by rewrite Ew, El, app_assoc|]. by apply inv_silent.
Qed.

Lemma holds_step k k' base base' st st' (w w' : World W) a :
  w_log w' = w_log w ++ [a] -> (forall acts, inv k base st acts -> inv k' base' st' (acts ++ [a])) ->
  holds k base st w -> holds k' base' st' w'.
Proof.
  intros Ew Hs (acts & El & Hi). exists (acts ++ [a]). split; [by rewrite Ew, El, app_assoc|]. by apply Hs.
Qed.

Lemma holds_state k k' base base' st st' (w : World W) :
  (forall acts, inv k base st acts -> inv k' base' st' acts) -> holds k base st w -> holds k' base' st' w.
Proof. intros Hs (acts & El & Hi). exists acts. auto. Qed.

Lemma wp_emit_silent k base st event w :
  terminal event = false -> holds k base st w -> wp (emit event) w (fun _ w' => holds k base st w').
Proof.
  intros Ht Hw. apply wp_await_act. intros r env. eapply holds_silent; [|done..]. cbn. by rewrite Ht.
Qed.

Lemma wp_await_keeps {A} k base st (m : Async W A) w :
  holds k base st w -> wp (await m) w (fun _ w' => holds k base st w').
Proof. intros Hw. apply wp_await. intros a env env' _. by eapply holds_log. Qed.

(** * Items *)

Lemma emit_finished_keeps k base st items w :
  holds k base st w -> wp (emit_finished items) w (fun _ w' => holds k base st w').
Proof.
  revert w. induction items as [|item items IH]; intros w Hw; [done|]. destruct item; try (by apply IH).
  apply wp_bind. eapply wp_mono; [by eapply wp_emit_silent|]. cbn. intros [r|error] w' Hw'; [by apply IH|done].
Qed.

Lemma persist_turn_items_keeps k base st items w :
  holds k base st w ->
  wp (persist_turn_items items st) w (fun out w' => holds k base (snd out) w').
Proof.
  intros Hw. unfold persist_turn_items. destruct items as [|item items]; [done|]. apply wp_bind, wp_await_act.
  intros r env. destruct r as [[]|error].
  - apply wp_bind. eapply wp_mono.
    + apply (emit_finished_keeps k base (record_items (item :: items) st)). eapply holds_step; [done| |done].
      intros acts. apply inv_persist.
    + by intros r w' Hw'.
  - eapply holds_silent; [|done..]. done.
Qed.

(** * Streams *)

Lemma wp_act_silent k base st a w :
  silent a = true -> holds k base st w -> wp (act a) w (fun _ w' => holds k base st w').
Proof. intros Ha Hw. unfold wp. cbn. by eapply holds_silent. Qed.

Lemma record_event_keeps k base st event ss w :
  holds k base st w -> wp (record_event event ss st) w (fun out w' => holds k base (snd out) w').
Proof.
  intros Hw. apply wp_bind. walk_by wp_act_silent w Hw. intros [] w Hw.
  destruct event; try done.
  - apply wp_bind. eapply wp_mono; [by eapply wp_emit_silent|]. by intros r w'.
  - apply wp_bind. eapply wp_mono; [by eapply wp_emit_silent|]. by intros [r|error] w'.
  - unfold wp. cbn. eapply holds_state; [|done]. intros acts. apply inv_usage.
Qed.

Lemma read_stream_keeps k base stream ss st w :
  holds k base st w -> wp (read_stream stream ss st) w (fun out w' => holds k base (snd out) w').
Proof.
  revert ss st w. induction stream as [|poll stream IH]; intros ss st w Hw; cbn [read_stream]; apply wp_bind; unfold wp at 1;
    cbn [cancelled]; (destruct (is_cancelled (w_env w)); [done|]); [done|].
  apply wp_bind. walk_by wp_await_keeps w Hw. intros found w Hw.
  destruct (if can_preempt_for_steering ss then sp_steering found else None) as [[]|]; [done..|].
  destruct (sp_answer found) as [|[[event|error]|]]; [done| |done..].
  apply wp_bind. walk_by record_event_keeps w Hw. intros [[r ss'] st'] w Hw.
  destruct r as [[|]|error]; [done| |done]. by apply IH.
Qed.

(** * Tools *)

Lemma holds_silents k base st (w w' : World W) acts :
  Forall (fun a => silent a = true) acts -> w_log w' = w_log w ++ acts -> holds k base st w -> holds k base st w'.
Proof.
  intros Ha. revert w w'. induction Ha as [|a acts Ha _ IH]; intros w w' E Hw.
  - rewrite app_nil_r in E. by eapply holds_log.
  - eapply (IH {| w_env := w_env w; w_log := w_log w ++ [a] |}); [cbn; by rewrite <- app_assoc|].
    by eapply holds_silent.
Qed.

Lemma tool_event_silent index event : tool_event event = true -> silent (ActToolEvent index event) = true.
Proof. by destruct event. Qed.

Lemma run_tools_keeps n base st calls w :
  holds n base st w -> (length calls <= n)%nat ->
  wp (run_tools calls) w (fun entries w' =>
    holds 0 base st w' /\ exists c, Forall2 (entry_ok c) calls entries).
Proof.
  intros Hw Hl. unfold wp, run_tools.
  pose proof (batch_runs schedule is_cancelled calls (is_cancelled (w_env w)) (w_env w)) as Hb.
  destruct (run_batch _ _ _ _ _) as [b env]. destruct Hb as (_ & Hlog & entries & -> & He).
  split; [|by exists (b_cancelled b)].
  eapply (holds_silents _ _ _ {| w_env := env; w_log := w_log w ++ [ActTools calls] |} _
    (map (fun '(index, event) => ActToolEvent index event) (b_log b))).
  - apply List.Forall_map. eapply List.Forall_impl; [|exact Hlog]. intros [index event] He'. by apply (tool_event_silent index).
  - cbn [w_log]. by rewrite <- app_assoc.
  - eapply holds_step; [done| |done]. intros acts Hi. by eapply inv_tools.
Qed.

Lemma prepare_tool_calls_keeps k base st permissions calls w :
  holds k base st w ->
  wp (prepare_tool_calls hooks permissions calls) w (fun out w' =>
    holds k base st w' /\ (length (snd out) <= length calls)%nat).
Proof.
  revert w. induction calls as [|call calls IH]; intros w Hw; [done|]. apply wp_bind, wp_bind.
  walk_by wp_await_keeps w Hw. intros decision w Hw. unfold wp at 1. cbn [mret turn_ret].
  apply wp_bind. walk_by IH w Hw. intros [items prepared] w [Hw Hl].
  split; [done|]. destruct decision; cbn in *; lia.
Qed.

Lemma dispatch_entries_keeps k base st entries outcome w :
  holds k base st w -> wp (dispatch_entries hooks entries outcome) w (fun _ w' => holds k base st w').
Proof.
  revert outcome w. induction entries as [|[item|run] entries IH]; intros outcome w Hw; [done|by apply IH|].
  cbn [dispatch_entries]. destruct (run_result run) as [result|error]; [|done].
  apply wp_bind. walk_by wp_await_keeps w Hw. intros decision w Hw.
  destruct decision; cbn [record_result_decision]; [by apply IH..|done].
Qed.

Lemma holds_unused n base st w : holds n base st w -> holds 0 base st w.
Proof. apply holds_state. intros acts. apply inv_unused. Qed.

Lemma run_tool_round_keeps base ctx calls st w :
  holds 0 base st w -> wp (run_tool_round hooks ctx calls st) w (fun out w' => holds 0 base (snd out) w').
Proof.
  intros Hw. unfold run_tool_round. destruct (record_tool_calls (length calls) st) as [admission st1] eqn:Er.
  destruct admission as [|count]; [|eapply holds_state; [|exact Hw]; intros acts Hi; by eapply inv_rejected].
  assert (holds (length calls) base st1 w) as Hw1.
  { eapply holds_state; [|exact Hw]. intros acts Hi. by eapply inv_admitted. }
  apply wp_bind. eapply wp_mono; [eapply prepare_tool_calls_keeps; exact Hw1|]; cbn beta. clear w Hw Hw1. intros [items prepared] w [Hw Hl].
  apply wp_bind. walk_by persist_turn_items_keeps w Hw. intros [r st2] w Hw.
  destruct r as [[]|error]; [|by eapply holds_unused].
  destruct prepared as [|call prepared]; [by eapply holds_unused|].
  apply wp_bind, wp_bind. walk_by run_tools_keeps w Hw. intros entries w [Hw _].
  walk_by dispatch_entries_keeps w Hw. intros [outcome|error] w Hw; [|done].
  apply wp_bind. eapply wp_mono; [by eapply persist_turn_items_keeps|]. by intros [r st3] w' Hw'.
Qed.

Lemma stream_complete_keeps k base ss st w completion st' :
  holds k base st w -> stream_complete ss st = (completion, st') -> holds k base st' w.
Proof.
  intros Hw. unfold stream_complete, commit_text. case_bool_decide; intros [= <- <-]; [done|].
  eapply holds_state; [|done]. intros acts. apply inv_message.
Qed.

Lemma consume_model_stream_keeps base ctx stream st w :
  holds 0 base st w -> wp (consume_model_stream hooks ctx stream st) w (fun out w' => holds 0 base (snd out) w').
Proof.
  intros Hw. apply wp_bind. walk_by read_stream_keeps w Hw. intros [[left_ ss] st1] w Hw.
  destruct left_; [done..|]. destruct (stream_complete ss st1) as [completion st2] eqn:Es.
  eapply stream_complete_keeps in Hw; [|done].
  apply wp_bind. walk_by persist_turn_items_keeps w Hw. intros [r st3] w Hw.
  destruct r as [[]|error]; [|done]. destruct (mc_calls completion) as [|call calls]; [done|].
  apply wp_bind. eapply wp_mono; [by eapply run_tool_round_keeps|]. by intros [r st4] w' Hw'.
Qed.

(** * Rounds *)

Lemma apply_context_pressure_keeps model base st w :
  holds 0 base st w ->
  wp (apply_context_pressure hooks model base st) w (fun out w' => holds 0 (snd (fst out)) (snd out) w').
Proof.
  intros Hw. apply wp_bind, wp_await. intros decision env env' E.
  set (w1 := {| w_env := env'; w_log := w_log w |}).
  assert (holds 0 base st w1) as Hw1 by (by eapply holds_log). destruct decision as [|items transcript|reason]; [done| |done].
  assert (holds 0 items (mark_transcript_delta_absorbed_by_prompt_refresh st) w1) as Hw2.
  { eapply holds_state; [|exact Hw1]. intros acts Hi. by destruct (inv_compacted _ _ _ _ _ _ _ _ _ Hi E) as (C1 & _). }
  destruct transcript as [|item transcript]; [done|].
  apply wp_bind, wp_await_act. intros r env2. destruct r as [[]|error]; (eapply holds_step; [done| |exact Hw1]);
    intros acts Hi;
    destruct (inv_compacted _ _ _ _ _ _ _ _ _ Hi E) as (_ & C2 & C3); [exact C2|apply C3].
Qed.

Lemma prepare_round_prompt_keeps base st w :
  holds 0 base st w ->
  wp (prepare_round_prompt hooks base st) w (fun out w' =>
    holds 0 (snd (fst out)) (snd out) w' /\
    forall prompt, fst (fst out) = Ok (Sample prompt) -> prompt = build_round_prompt (snd (fst out)) (snd out)).
Proof.
  intros Hw. apply wp_bind, wp_await_act. intros [drained|error] env;
    [|split; [eapply holds_silent; [|done|exact Hw]; done|by intros prompt [=]]].
  set (w1 := {| w_env := env; w_log := w_log w ++ [ActDrain (Ok drained)] |}).
  assert (silent (ActDrain (Ok drained)) = true -> holds 0 base st w1) as Hquiet
    by (intros Hs; eapply holds_silent; [exact Hs|done|exact Hw]).
  destruct (dr_control drained) eqn:Ec; [|by split; [apply Hquiet; cbn; by rewrite Ec|]..].
  destruct (dr_messages drained) as [|message messages] eqn:Em.
  { split; [apply Hquiet; cbn; by rewrite Ec, Em|by intros prompt [= <-]]. }
  apply wp_bind, wp_await. intros decision env1 env2 E. destruct decision.
  - split; [|by intros prompt [= <-]]. eapply (holds_step 0 0 base _ st _ w); [done| |exact Hw].
    intros acts Hi. rewrite <- Em. by apply inv_inject.
  - split; [|by intros prompt [= <-]]. eapply (holds_step 0 0 base _ st _ w); [done| |exact Hw].
    intros acts Hi. eapply inv_drop; [done|]. by rewrite Em.
Qed.

Lemma await_model_keeps k base st request w :
  holds k base st w -> rq_prompt request = build_round_prompt base st ->
  wp (await_model request) w (fun _ w' => holds k base st w').
Proof.
  intros Hw Hp. apply wp_bind. unfold wp at 1. cbn [cancelled]. destruct (is_cancelled (w_env w)); [done|].
  apply wp_bind. walk_by wp_await_keeps w Hw. intros [answer|] w Hw; [done|].
  apply wp_bind. unfold wp at 1. cbn [act].
  assert (holds k base st (logged (ActRequest request) w)) as Hw'.
  { eapply holds_step; [done| |exact Hw]. intros acts Hi. by apply inv_request. }
  apply wp_bind. eapply wp_mono; [eapply wp_await_keeps; exact Hw'|]. by intros race w1.
Qed.

(** An action that replaces the prompt comes from a hook that does. *)
Definition replaces (action : RoundLoopAction) : Prop :=
  match action with
  | ActionContinue (UpdateReplace prompt_items) =>
      exists view env env', after_model_round hooks view env = (RoundContinue (UpdateReplace prompt_items), env')
  | _ => True
  end.

Lemma await_model_action request w :
  wp (await_model request) w (fun out _ => match out with inl action => replaces action | inr _ => True end).
Proof.
  apply wp_bind. unfold wp at 1. cbn [cancelled]. destruct (is_cancelled (w_env w)); [done|].
  apply wp_bind, wp_await. intros [[]|] env env' _; [done..|].
  apply wp_bind. unfold wp at 1. cbn [act]. apply wp_bind, wp_await. by intros [|[]|[]].
Qed.

Lemma sample_model_keeps ctx settings round prompt base st w :
  holds 0 base st w -> prompt = build_round_prompt base st ->
  wp (sample_model hooks ctx settings round prompt st) w (fun out w' => holds 0 base (snd out) w' /\ replaces (fst out)).
Proof.
  intros Hw Hp. apply wp_bind. set (request := Build_ModelRequest _ _ _ _).
  pose proof (await_model_action request w) as Ha. pose proof (await_model_keeps 0 base st request w Hw Hp) as Hk.
  unfold wp in Ha, Hk |- * at 1. destruct (await_model request w) as [[action|stream] w1]; [done|]. clear w Hw Ha.
  apply wp_bind. eapply wp_mono; [eapply consume_model_stream_keeps; exact Hk|]. clear w1 Hk. cbn beta. intros [r st1] w Hw.
  destruct r as [[outcome|]|reason]; [|done..]. apply wp_bind, wp_await. intros decision env env' E.
  split; [by eapply holds_log|]. cbn. destruct decision as [[|prompt_items]| |]; cbn; try done. by eexists _, _, _.
Qed.

Lemma run_model_round_keeps ctx settings base st w :
  holds 0 base st w ->
  wp (run_model_round hooks ctx settings base st) w (fun out w' =>
    holds 0 (snd (fst out)) (snd out) w' /\ replaces (fst (fst out))).
Proof.
  intros Hw. unfold run_model_round. destruct (start_round st) as [round st1] eqn:Es.
  assert (holds 0 base st1 w) as Hw1.
  { replace st1 with (snd (start_round st)) by (by rewrite Es). eapply holds_state; [|exact Hw]. intros acts. apply inv_round. }
  apply wp_bind. eapply wp_mono; [eapply apply_context_pressure_keeps; exact Hw1|]. cbn beta. clear w Hw Hw1.
  intros [[r base1] st2] w Hw. destruct r as [[]|reason]; [|done].
  apply wp_bind. walk_by prepare_round_prompt_keeps w Hw. intros [[r base2] st3] w [Hw Hp].
  destruct r as [[prompt| |message]|reason]; [|done..].
  apply wp_bind. eapply wp_mono; [eapply sample_model_keeps; [exact Hw|by apply Hp]|]. by intros [action st4] w'.
Qed.

Lemma apply_round_continuation_keeps ctx prompt_update base st settings w :
  holds 0 base st w -> replaces (ActionContinue prompt_update) ->
  wp (apply_round_continuation hooks ctx prompt_update base st settings) w (fun out w' =>
    holds 0 (fst (fst out)) (snd (fst out)) w').
Proof.
  intros Hw Hr. unfold apply_round_continuation. destruct prompt_update as [|prompt_items].
  - apply wp_bind. by walk_by wp_await_keeps w Hw.
  - destruct Hr as (view & env & env' & E).
    assert (holds 0 prompt_items (mark_transcript_delta_absorbed_by_prompt_refresh st) w) as Hw1.
    { eapply holds_state; [|exact Hw]. intros acts Hi. by eapply inv_replace. }
    apply wp_bind. eapply wp_mono; [eapply wp_await_keeps; exact Hw1|]. by intros decision w'.
Qed.

Lemma record_completion_message_keeps k base message st w :
  holds k base st w -> holds k base (record_completion_message message st) w.
Proof.
  apply holds_state. intros acts Hi. unfold record_completion_message. destruct (into_option message); [by apply inv_message|done].
Qed.

Lemma run_turn_stop_hooks_keeps ctx message base st w :
  holds 0 base st w -> wp (run_turn_stop_hooks hooks ctx message st) w (fun out w' => holds 0 base (snd out) w').
Proof.
  intros Hw. apply (record_completion_message_keeps _ _ message) in Hw. apply wp_bind. by walk_by wp_await_keeps w Hw.
Qed.

(** * Ends *)

Definition result_state (result : TurnResult) : TurnState :=
  match result with Complete st | WantsFollowup st | Aborted st _ => st end.

(** What a turn does at its end, by its result. *)
Definition ending (result : TurnResult) (last : list Act) : Prop :=
  match result with
  | Complete _ | WantsFollowup _ => last = [ActEvent TurnCompleted (Ok tt)]
  | Aborted _ reason =>
      last = [] \/ last = [ActEvent TurnCompleted (Err reason)] \/
      reason = error_cancelled /\ exists answer, last = [ActEvent (TurnAborted (te_message error_cancelled)) answer]
  end.

Lemma ending_act result last : ending result last -> last = [] \/ exists event answer, last = [ActEvent event answer].
Proof. destruct result; cbn; naive_solver. Qed.

Definition ended (result : TurnResult) (w : World W) : Prop :=
  exists base acts last, w_log w = log0 ++ acts ++ last /\ inv 0 base (result_state result) acts /\ ending result last.

Lemma aborted_ends base st reason w : holds 0 base st w -> ended (Aborted st reason) w.
Proof.
  intros (acts & El & Hi). exists base, acts, []. split; [by rewrite app_nil_r|]. split; [done|]. by left.
Qed.

Lemma complete_turn_ends ctx base st w : holds 0 base st w -> wp (complete_turn hooks ctx st) w ended.
Proof.
  intros (acts & El & Hi). apply wp_bind, wp_await_act. intros [[]|reason] env.
  - apply wp_bind, wp_await. intros decision env1 env' _.
    exists base, acts, [ActEvent TurnCompleted (Ok tt)]. cbn [w_log]. rewrite El, <- app_assoc. by destruct decision.
  - exists base, acts, [ActEvent TurnCompleted (Err reason)]. cbn [w_log]. rewrite El, <- app_assoc.
    split; [done|]. split; [done|]. by right; left.
Qed.

Lemma abort_with_event_ends base st w : holds 0 base st w -> wp (abort_with_event st error_cancelled) w ended.
Proof.
  intros (acts & El & Hi). apply wp_bind, wp_await_act. intros r env.
  exists base, acts, [ActEvent (TurnAborted (te_message error_cancelled)) r]. cbn [w_log]. rewrite El, <- app_assoc.
  split; [done|]. split; [done|]. right; right. split; [done|]. by exists r.
Qed.

Definition left_off (out : option TurnResult) (w : World W) : Prop :=
  match out with Some result => ended result w | None => exists base st, holds 0 base st w end.

Lemma run_rounds_keeps fuel ctx st base settings w :
  holds 0 base st w -> wp (run_rounds fuel hooks ctx st base settings) w left_off.
Proof.
  revert st base settings w. induction fuel as [|fuel IH]; intros st base settings w Hw; [by exists base, st|].
  cbn [run_rounds]. apply wp_bind. unfold wp at 1. cbn [cancelled]. destruct (is_cancelled (w_env w)).
  { apply wp_bind. by walk_by abort_with_event_ends w Hw. }
  apply wp_bind. walk_by run_model_round_keeps w Hw. intros [[action base1] st1] w [Hw Hr].
  destruct action as [prompt_update|message| |reason].
  - apply wp_bind. eapply wp_mono; [eapply apply_round_continuation_keeps; [exact Hw|exact Hr]|]. clear w Hw.
    cbn beta. intros [[base2 st2] settings2] w Hw. by apply (IH st2 base2).
  - apply wp_bind. walk_by run_turn_stop_hooks_keeps w Hw. intros [decision st2] w Hw.
    destruct decision; [|by apply (IH st2 base1)|by eapply aborted_ends].
    apply wp_bind. by walk_by complete_turn_ends w Hw.
  - by apply (IH st1 base1).
  - by eapply aborted_ends.
Qed.

End Walk.

(** * Events *)

Definition act_terminal (a : Act) : bool :=
  match a with ActEvent event _ | ActToolEvent _ event => terminal event | _ => false end.

Definition open_turn (acts : list Act) : Prop := Forall (fun a => act_terminal a = false) acts.

(** * Calls that are run *)

(** The calls handed to batches. *)
Definition tools_run (acts : list Act) : Z :=
  fold_right Z.add 0 (map (fun a => match a with ActTools calls => len calls | _ => 0 end) acts).

Lemma tools_run_snoc acts a :
  tools_run (acts ++ [a]) = tools_run acts + match a with ActTools calls => len calls | _ => 0 end.
Proof.
  unfold tools_run. rewrite map_app. induction (map _ acts) as [|z l IH]; cbn in *; [lia|]. rewrite IH. lia.
Qed.

Lemma tools_run_nonneg acts : 0 <= tools_run acts.
Proof. unfold tools_run. induction acts as [|[]]; cbn in *; lia. Qed.

Definition count st : Z := val (st_tool_call_count st).

Lemma count_nonneg st : 0 <= count st < 2 ^ 64.
Proof. apply (val_bounds (st_tool_call_count st)). Qed.

(** What recording calls does to the count and says of the guard. *)
Lemma record_tool_calls_spec n st admission st' :
  record_tool_calls n st = (admission, st') ->
  st_guard st' = st_guard st /\ count st' = Z.min (2 ^ 64 - 1) (count st + Z.of_nat n) /\
  st_transcript_delta st' = st_transcript_delta st /\ st_last_agent_message st' = st_last_agent_message st /\
  (admission = Accepted <-> forall max, tool_call_limit (st_guard st) = Capped max -> count st' <= val max).
Proof.
  unfold record_tool_calls. intros [= <- <-]. split; [done|]. split.
  { unfold count. cbn [st_tool_call_count]. pose proof (val_bounds (st_tool_call_count st)). apply u64_saturating_add_val. lia. }
  split; [done|]. split; [done|]. unfold admit_tool_calls, limit_allows, count. cbn [st_tool_call_count].
  destruct (tool_call_limit (st_guard st)) as [|max]; [by split|].
  destruct (val _ <=? val max) eqn:E; [apply Z.leb_le in E|apply Z.leb_gt in E].
  - split; [|done]. intros _ max' [= <-]. done.
  - split; [done|]. intros Hm. specialize (Hm max eq_refl). lia.
Qed.

(** The guard, as it bounds the calls since a state [st0]. *)
Definition guarded (st0 : TurnState) (k : nat) (base : list PromptItem) (st : TurnState) (acts : list Act) : Prop :=
  st_guard st = st_guard st0 /\
  forall max, tool_call_limit (st_guard st0) = Capped max -> val max < 2 ^ 64 - 1 ->
    count st0 + tools_run acts + Z.of_nat k <= count st /\
    (tools_run acts + Z.of_nat k = 0 \/ count st0 + tools_run acts + Z.of_nat k <= val max).

Lemma guarded_same st0 k base base' st st' acts acts' :
  st_guard st' = st_guard st -> count st' = count st -> tools_run acts' = tools_run acts ->
  guarded st0 k base st acts -> guarded st0 k base' st' acts'.
Proof. unfold guarded. by intros -> -> ->. Qed.

Lemma guarded_admitted st0 base base' st st' acts n :
  guarded st0 0 base st acts -> record_tool_calls n st = (Accepted, st') -> guarded st0 n base' st' acts.
Proof.
  intros [Eg Hg] (E1 & E2 & _ & _ & Ha)%record_tool_calls_spec. split; [congruence|]. intros max Em Hm.
  destruct (Hg max Em Hm) as [H1 H2]. assert (count st' <= val max) by (apply (proj1 Ha eq_refl); congruence).
  pose proof (tools_run_nonneg acts). pose proof (count_nonneg st). lia.
Qed.

Lemma guarded_rejected st0 base base' st st' acts n c :
  guarded st0 0 base st acts -> record_tool_calls n st = (Rejected c, st') -> guarded st0 0 base' st' acts.
Proof.
  intros [Eg Hg] (E1 & E2 & _)%record_tool_calls_spec. split; [congruence|]. intros max Em Hm.
  destruct (Hg max Em Hm) as [H1 H2]. pose proof (count_nonneg st). lia.
Qed.

Lemma guarded_tools st0 base st acts n calls :
  guarded st0 n base st acts -> (length calls <= n)%nat -> guarded st0 0 base st (acts ++ [ActTools calls]).
Proof.
  intros [Eg Hg] Hl. split; [done|]. intros max Em Hm. destruct (Hg max Em Hm) as [H1 H2].
  rewrite tools_run_snoc. pose proof (tools_run_nonneg acts). lia.
Qed.

Lemma guarded_unused st0 base st acts n : guarded st0 n base st acts -> guarded st0 0 base st acts.
Proof.
  intros [Eg Hg]. split; [done|]. intros max Em Hm. destruct (Hg max Em Hm) as [H1 H2].
  pose proof (tools_run_nonneg acts). lia.
Qed.

Lemma record_items_guard items st : st_guard (record_items items st) = st_guard st.
Proof. by destruct items. Qed.

Lemma record_items_count items st : count (record_items items st) = count st.
Proof. by destruct items. Qed.

(** * Prompts *)

(** What an act adds to the prompts that come after it. *)
Definition replay_act (a : Act) : list PromptItem :=
  match a with
  | ActPersist items (Ok _) => omap projected items
  | ActDrain (Ok drained) =>
      match dr_control drained with
      | SteeringContinue => concat (map steering_prompt_items (dr_messages drained))
      | _ => []
      end
  | _ => []
  end.

Definition replay (acts : list Act) : list PromptItem := concat (map replay_act acts).

Lemma replay_snoc acts a : replay (acts ++ [a]) = replay acts ++ replay_act a.
Proof. unfold replay. rewrite map_app, concat_app. cbn. by rewrite app_nil_r. Qed.

(** Every request has the prompt [start] and what was committed before it. *)
Definition requests_replay (start : list PromptItem) (acts : list Act) : Prop :=
  forall before request after, acts = before ++ ActRequest request :: after -> rq_prompt request = start ++ replay before.

Lemma requests_replay_snoc start acts a :
  requests_replay start acts ->
  match a with ActRequest request => rq_prompt request = start ++ replay acts | _ => True end ->
  requests_replay start (acts ++ [a]).
Proof.
  intros Hr Ha before request after E. destruct (list_snoc_cases after) as [->|(after' & x & ->)].
  - apply app_inj_tail in E as [-> ->]. done.
  - rewrite app_comm_cons, app_assoc in E. apply app_inj_tail in E as [-> _]. by eapply Hr.
Qed.

Definition replays (start : list PromptItem) (k : nat) (base : list PromptItem) (st : TurnState) (acts : list Act) : Prop :=
  build_round_prompt base st = start ++ replay acts /\ requests_replay start acts.

Lemma replays_snoc start k base base' st st' acts a :
  replays start k base st acts -> (forall request, a <> ActRequest request) ->
  build_round_prompt base' st' = build_round_prompt base st ++ replay_act a ->
  replays start k base' st' (acts ++ [a]).
Proof.
  intros [Ep Hr] Ha Eq. split.
  - by rewrite Eq, Ep, replay_snoc, app_assoc.
  - apply requests_replay_snoc; [done|]. destruct a; try done. by destruct (Ha request).
Qed.

Section Instances.
Context {W : Type} `{!TurnServices W} (hooks : TurnHooks W).

(** Nothing but that a turn only adds to its acts. *)
#[export] Instance any_invariant : TurnInvariant hooks (fun _ _ _ _ => True).
Proof. by split. Qed.

#[export] Instance open_turn_invariant : TurnInvariant hooks (fun _ _ _ acts => open_turn acts).
Proof.
  unfold open_turn.
  split; intros; try assumption; try (apply list.Forall_app; split; [assumption|by repeat constructor]).
  - apply list.Forall_app. split; [done|]. constructor; [|constructor].
    destruct a; cbn in *; try done; by apply negb_true_iff.
  - split; [done|]. split; [|intros error]; apply list.Forall_app; split; try done; by repeat constructor.
Qed.

#[export] Instance guarded_invariant st0 : TurnInvariant hooks (guarded st0).
Proof.
  split; intros;
    match goal with
    | E : record_tool_calls _ _ = (Accepted, _) |- _ => by eapply guarded_admitted
    | E : record_tool_calls _ _ = (Rejected _, _) |- _ => by eapply guarded_rejected
    | |- guarded _ _ _ _ (_ ++ [ActTools _]) => by eapply guarded_tools
    | Hg : guarded _ ?n _ _ _ |- guarded _ 0 _ _ _ => tryif is_var n then by eapply guarded_unused else fail
    | _ => idtac
    end.
  all: try (eapply guarded_same; [| | |eassumption]; rewrite ?tools_run_snoc, ?record_items_guard, ?record_items_count; cbn; lia || done).
  - eapply guarded_same; [| | |eassumption]; [done..|]. rewrite tools_run_snoc. destruct a; cbn in *; done || lia.
  - split_and!; [|destruct transcript_items|intros error]; (eapply guarded_same; [| | |eassumption]);
      rewrite ?tools_run_snoc; cbn; done || lia.
Qed.

(** Hooks that add to the prompt of a round or stop the turn, and change nothing. *)
Record leaves_prompt : Prop := {
  lp_start ctx env env' items : on_turn_start hooks ctx env <> (ReplaceInitialPrompt items, env');
  lp_pressure view env env' p t : on_context_pressure hooks view env <> (Compacted p t, env');
  lp_steering messages env env' : on_steering_input hooks messages env <> (DropAndContinue, env');
  lp_round view env env' p : after_model_round hooks view env <> (RoundContinue (UpdateReplace p), env')
}.

Lemma record_tool_calls_prompt n st admission st' base :
  record_tool_calls n st = (admission, st') -> build_round_prompt base st' = build_round_prompt base st.
Proof. intros (_ & _ & E & _)%record_tool_calls_spec. unfold build_round_prompt. by rewrite E. Qed.

#[export] Instance replays_invariant start : leaves_prompt -> TurnInvariant hooks (replays start).
Proof.
  intros [Ls Lp Lst Lr]. split.
  - intros k base st acts a Ha Hi. apply (replays_snoc _ _ base _ st); [done|by destruct a|].
    destruct a as [| |answer| | | |]; cbn in *; rewrite ?app_nil_r; try done.
    + by destruct answer; rewrite ?app_nil_r.
    + destruct answer as [drained|]; [|by rewrite app_nil_r].
      destruct (dr_control drained), (dr_messages drained); cbn; by rewrite ?app_nil_r.
  - intros k base st acts items Hi. eapply replays_snoc; [exact Hi|done|]. by rewrite prompt_record_items.
  - done.
  - done.
  - done.
  - intros base st st' acts n [Ep Hr] E. split; [|done]. by rewrite (record_tool_calls_prompt _ _ _ _ _ E).
  - intros base st st' acts n c [Ep Hr] E. split; [|done]. by rewrite (record_tool_calls_prompt _ _ _ _ _ E).
  - intros base st acts n calls Hi _. eapply replays_snoc; [exact Hi|done|by rewrite app_nil_r].
  - done.
  - intros k base st acts request [Ep Hr] Erq. split; [by rewrite replay_snoc, app_nil_r|].
    apply requests_replay_snoc; [done|]. by rewrite Erq.
  - intros k base st acts drained Hi Ec. eapply replays_snoc; [exact Hi|done|]. cbn. rewrite Ec. done.
  - intros k base st acts drained env env' _ E. by apply Lst in E.
  - intros k base st acts view env env' p t _ E. by apply Lp in E.
  - intros k base st acts view env env' p _ E. by apply Lr in E.
Qed.

End Instances.
