(* ===== verification/TurnEnds.v ===== *)
(** How turns start and end and what hooks add at the start, what a batch of tools,
    as the hooks decided about its calls, and a stream that has been read leave in
    the transcript, and why a turn with a limit on its tool calls ends. *)

From S2P Require Import Prelude BTree Effects LoopModel ToolBatch BatchFacts Hooks TurnLoop TurnFacts.

Open Scope list_scope.
Open Scope Z_scope.

Section Ends.
Context {W : Type} `{!TurnServices W} (hooks : TurnHooks W).

(** * The start of a turn *)

(** The state in which the rounds begin. *)
Definition started_from (st st' : TurnState) : Prop :=
  st' = st \/ exists message, st' = record_completion_message message st.

(** What [prepare_context] adds to the prompt, after [on_turn_start]. *)
Definition prepared_items (ctx : TurnContext) (st : TurnState) (input : TurnInput) (env : W) : list PromptItem :=
  match fst (prepare_context hooks
               {| cv_ctx := ctx; cv_transcript_delta := st_transcript_delta st; cv_input := input |} env) with
  | Prepared items => items
  | _ => []
  end.

Definition added_at_start (ctx : TurnContext) (st : TurnState) (input : TurnInput) (env : W) : list PromptItem :=
  let (decision, env) := on_turn_start hooks ctx env in
  prepared_items (match decision with ReplaceInitialPrompt items => replace_initial_prompt items ctx | _ => ctx end)
    st input env.

Definition start_flow (ctx : TurnContext) (st : TurnState) (input : TurnInput) (w : World W) (flow : TurnStartFlow) (w' : World W)
    : Prop :=
  match flow with
  | Ready ctx' st' base settings =>
      w_log w' = w_log w /\ started_from st st' /\
      base = build_initial_prompt ctx' input ++ added_at_start ctx st input (w_env w) /\
      (ctx' = ctx \/ exists items env env', on_turn_start hooks ctx env = (ReplaceInitialPrompt items, env'))
  | StartFinished result =>
      exists last, w_log w' = w_log w ++ last /\ ending result last /\ started_from st (result_state result)
  end.

Lemma complete_turn_log ctx st w :
  wp (complete_turn hooks ctx st) w (fun result w' =>
    result_state result = st /\ exists last, w_log w' = w_log w ++ last /\ ending result last).
Proof.
  apply wp_bind, wp_await_act. intros [[]|reason] env.
  - apply wp_bind, wp_await. intros decision env1 env' _. split; [by destruct decision|].
    exists [ActEvent TurnCompleted (Ok tt)]. by destruct decision.
  - split; [done|]. exists [ActEvent TurnCompleted (Err reason)]. split; [done|]. by right; left.
Qed.

Lemma prepare_turn_start_flow ctx st input w :
  wp (prepare_turn_start hooks ctx st input) w (start_flow ctx st input w).
Proof.
  assert (forall (w' : World W) st' reason, w_log w' = w_log w -> started_from st st' ->
    start_flow ctx st input w (StartFinished (Aborted st' reason)) w') as Habort.
  { intros w' st' reason El Hs. exists []. rewrite app_nil_r. split; [done|]. split; [by left|done]. }
  apply wp_bind. unfold wp at 1. cbn [cancelled]. destruct (is_cancelled (w_env w)); [apply Habort; [done|by left]|].
  apply wp_bind, wp_bind.
  assert (forall ctx' (w1 : World W), w_log w1 = w_log w ->
    added_at_start ctx st input (w_env w) = prepared_items ctx' st input (w_env w1) ->
    (ctx' = ctx \/ exists items env env', on_turn_start hooks ctx env = (ReplaceInitialPrompt items, env')) ->
    wp (prepare_start_context hooks ctx' st input (build_initial_prompt ctx' input)) w1 (start_flow ctx st input w)) as Hctx.
  { intros ctx' w1 El Ea Hc. unfold prepared_items in Ea. apply wp_bind. unfold wp at 1, await.
    destruct (prepare_context hooks _ (w_env w1)) as [[items|message|reason] env3]; cbn [fst] in Ea; [| |by apply Habort; [|left]].
    - split; [done|]. split; [by left|]. split; [by rewrite Ea|done].
    - apply wp_bind, wp_bind, wp_await. intros decision env4 env5 _. unfold wp at 1. cbn [mret turn_ret].
      destruct decision as [| |reason]; [| |by apply Habort; [|right; exists message]].
      + apply wp_bind. eapply wp_mono; [apply complete_turn_log|]. cbn beta. intros result w2 (Est & last & El' & He).
        exists last. split; [by rewrite El'; cbn; rewrite El|]. split; [done|]. rewrite Est. right. by exists message.
      + split; [done|]. split; [by right; exists message|]. split; [by rewrite Ea, app_nil_r|done]. }
  unfold added_at_start in Hctx. unfold wp at 1, await. destruct (on_turn_start hooks ctx (w_env w)) as [start env1] eqn:Es.
  cbn [mret turn_ret]. destruct start as [|items|reason]; [|apply Hctx; [done|done|right; by eexists _, _, _]|].
  - apply Hctx; [done|done|by left].
  - apply Habort; [done|by left].
Qed.

(** A turn ends at its start, or runs its rounds. *)
Lemma run_turn_cases fuel ctx st input w out w' :
  run_turn fuel hooks ctx st input w = (out, w') ->
  (exists result last, out = Some result /\ w_log w' = w_log w ++ last /\ ending result last /\
     started_from st (result_state result)) \/
  exists ctx' st' base settings w1, start_flow ctx st input w (Ready ctx' st' base settings) w1 /\
    run_rounds fuel hooks ctx' st' base settings w1 = (out, w').
Proof.
  unfold run_turn, mbind, turn_bind. pose proof (prepare_turn_start_flow ctx st input w) as Hs. unfold wp in Hs.
  destruct (prepare_turn_start hooks ctx st input w) as [[ctx' st' base settings|result] w1].
  - intros E. right. by exists ctx', st', base, settings, w1.
  - intros [= <- <-]. left. destruct Hs as (last & El & He & Hst). by exists result, last.
Qed.

(** The invariants of the rounds hold of the whole turn. *)
Lemma run_turn_keeps inv `{!TurnInvariant hooks inv} fuel ctx st input w out w' :
  run_turn fuel hooks ctx st input w = (out, w') ->
  (forall base st', started_from st st' -> inv 0%nat base st' []) ->
  exists base st' acts last, w_log w' = w_log w ++ acts ++ last /\ inv 0%nat base st' acts /\
    match out with Some result => st' = result_state result /\ ending result last | None => last = [] end.
Proof.
  intros [(result & last & -> & El & He & Hst)|(ctx' & st' & base & settings & w1 & (El & Hst & _) & E)]%run_turn_cases Hi.
  - exists [], (result_state result), [], last. split; [done|]. split; [by apply Hi|done].
  - pose proof (run_rounds_keeps hooks inv (w_log w) fuel ctx' st' base settings w1) as Hr.
    unfold wp in Hr. rewrite E in Hr. specialize (Hr ltac:(exists []; rewrite app_nil_r; auto)).
    destruct out as [result|]; cbn in Hr.
    + destruct Hr as (base' & acts & last & El' & Hinv & He). by exists base', (result_state result), acts, last.
    + destruct Hr as (base' & st2 & acts & El' & Hinv). exists base', st2, acts, [].
      by rewrite app_nil_r.
Qed.

(** * What a batch commits *)

Definition tool_results (items : list TurnItem) : list ToolResult :=
  omap (fun item => match item with ItemToolResult result => Some result | _ => None end) items.

Definition tool_calls (items : list TurnItem) : list ToolCall :=
  omap (fun item => match item with ItemToolCall call => Some call | _ => None end) items.

(** What can be committed for a call: the answer without a run, or what
    [after_tool_call] makes of the result of its run. *)
Definition committed (call : ToolCall) (result : ToolResult) : Prop :=
  (exists c, without_run c call (ItemToolResult result)) \/
  exists c p run answer env env' decision,
    pt_call p = call /\ run_ok c p run /\ run_result run = Ok answer /\
    after_tool_call hooks {| rv_call := call; rv_result := answer |} env = (decision, env') /\
    match decision with AsIs => result = answer | Rewrite rewritten => result = rewritten | Terminate last => result = last end.

Lemma run_ok_call c p run : run_ok c p run -> run_call run = pt_call p.
Proof. by intros [[]|[-> _]]. Qed.

Lemma lifecycle_no_results c p run : run_ok c p run -> tool_results (run_lifecycle_items run) = [].
Proof.
  intros [[reason|answer progress effects reported]|[-> _]]; cbn; try done. unfold tool_results. cbn.
  induction progress as [|pr progress IH]; [done|]. apply IH.
Qed.

(** The entries are committed in order, up to one that terminates the round. *)
Lemma dispatch_entries_commits c calls entries outcome w :
  Forall2 (entry_ok c) calls entries -> do_status outcome = DispatchContinue ->
  wp (dispatch_entries hooks entries outcome) w (fun out _ =>
    forall outcome', out = Ok outcome' ->
      exists answered left_ items, calls = answered ++ left_ /\ do_items outcome' = do_items outcome ++ items /\
        Forall2 committed answered (tool_results items) /\ tool_calls items = [] /\
        (do_status outcome' = DispatchContinue -> left_ = [])).
Proof.
  intros Hf. revert outcome w. induction Hf as [|call entry calls entries He Hf IH]; intros outcome w Hs.
  { intros outcome' [= <-]. exists [], [], []. rewrite !app_nil_r. split_and!; [done|done|constructor|done|done]. }
  assert (forall more w1, tool_calls more = [] ->
    Forall2 committed [call] (tool_results more) ->
    wp (dispatch_entries hooks entries (record_more_items more outcome)) w1 (fun out _ =>
      forall outcome', out = Ok outcome' ->
        exists answered left_ items, call :: calls = answered ++ left_ /\ do_items outcome' = do_items outcome ++ items /\
          Forall2 committed answered (tool_results items) /\ tool_calls items = [] /\
          (do_status outcome' = DispatchContinue -> left_ = []))) as Hgo.
  { intros more w1 Hc Hm. eapply wp_mono; [by apply IH|]. cbn beta. intros out w2 Ho outcome' E.
    destruct (Ho outcome' E) as (answered & left_ & items & -> & Ei & Hcm & Htc & Hst).
    exists (call :: answered), left_, (more ++ items). split; [done|]. split; [by rewrite Ei; cbn; rewrite app_assoc|].
    unfold tool_results, tool_calls in *. rewrite !omap_app. split; [by apply (Forall2_app (l1 := [call]))|].
    split; [by rewrite Hc, Htc|done]. }
  destruct entry as [item|run]; cbn [dispatch_entries].
  - cbn in He. destruct He as (result & -> & Hr). apply Hgo; [done|]. constructor; [|constructor]. left.
    exists c, result. done.
  - destruct He as (p & <- & Hrun). destruct (run_result run) as [answer|error] eqn:Er; [|done].
    apply wp_bind, wp_await. intros decision env env' Ed. rewrite (run_ok_call _ _ _ Hrun) in Ed.
    assert (forall result, match decision with AsIs => result = answer | Rewrite r => result = r | Terminate r => result = r end ->
      tool_calls (run_lifecycle_items run ++ [ItemToolResult result]) = [] /\
      Forall2 committed [pt_call p] (tool_results (run_lifecycle_items run ++ [ItemToolResult result]))) as Hone.
    { intros result Hres. split.
      - unfold tool_calls. rewrite omap_app, app_nil_r. destruct Hrun as [[reason|answer' progress effects reported]|[-> _]]; [done| |done].
        cbn. induction progress as [|pr progress IHp]; done.
      - unfold tool_results in *. rewrite omap_app. pose proof (lifecycle_no_results _ _ _ Hrun) as Hn. unfold tool_results in Hn.
        rewrite Hn. constructor; [|constructor]. right. by exists c, p, run, answer, env, env', decision. }
    destruct decision as [|result|result]; cbn [record_result_decision];
      [destruct (Hone answer eq_refl)|destruct (Hone result eq_refl)|].
    + unfold record_more_items. cbn [do_items do_status]. rewrite <- app_assoc. by apply Hgo.
    + unfold record_more_items. cbn [do_items do_status]. rewrite <- app_assoc. by apply Hgo.
    + intros outcome' [= <-]. destruct (Hone result eq_refl) as [H1 H2].
      exists [pt_call p], calls, (run_lifecycle_items run ++ [ItemToolResult result]). cbn. by rewrite <- app_assoc.
Qed.

Lemma dispatch_commits calls w :
  wp (dispatch_tool_calls hooks calls) w (fun out _ =>
    forall outcome, out = Ok outcome ->
      exists answered left_, calls = answered ++ left_ /\ Forall2 committed answered (tool_results (do_items outcome)) /\
        tool_calls (do_items outcome) = [] /\ (do_status outcome = DispatchContinue -> left_ = [])).
Proof.
  apply wp_bind. unfold wp at 1, run_tools.
  pose proof (batch_runs schedule is_cancelled calls (is_cancelled (w_env w)) (w_env w)) as Hb.
  destruct (run_batch _ _ _ _ _) as [b env]. destruct Hb as (_ & _ & entries & -> & He).
  eapply wp_mono; [by eapply dispatch_entries_commits|]. cbn beta. intros out w1 Ho outcome E.
  destruct (Ho outcome E) as (answered & left_ & items & Ec & Ei & H1 & H2 & H3). cbn in Ei. rewrite <- Ei in *.
  by exists answered, left_.
Qed.

(** What the hooks decide about the calls, asked in their order. *)
Fixpoint decisions_on (permissions : EffectivePermissions) (calls : list ToolCall) (env : W) : list ToolDecision :=
  match calls with
  | [] => []
  | call :: calls =>
      let (decision, env) := before_tool_call hooks {| kv_call := call; kv_permissions := permissions |} env in
      decision :: decisions_on permissions calls env
  end.

(** The calls they let through, and what they leave in the transcript. *)
Definition let_through (call : ToolCall) (decision : ToolDecision) : list ToolCall :=
  match decision with Allow => [call] | Modify modified => [modified] | Block _ => [] end.

Definition noted (call : ToolCall) (decision : ToolDecision) : list TurnItem :=
  match decision with
  | Allow => [ItemToolCall call]
  | Modify modified => [ItemToolCall modified]
  | Block reason => [ItemToolCall call; ItemToolResult (result_error (tc_id call) reason)]
  end.

Lemma prepare_tool_calls_out permissions calls w :
  wp (prepare_tool_calls hooks permissions calls) w (fun out _ =>
    fst out = concat (zip_with noted calls (decisions_on permissions calls (w_env w))) /\
    snd out = concat (zip_with let_through calls (decisions_on permissions calls (w_env w)))).
Proof.
  revert w. induction calls as [|call calls IH]; intros w; [done|].
  apply wp_bind, wp_bind. unfold wp at 1, await. cbn [decisions_on].
  destruct (before_tool_call hooks _ (w_env w)) as [decision env']. unfold wp at 1. cbn [mret turn_ret].
  apply wp_bind. eapply wp_mono; [apply IH|]. cbn beta. intros [items prepared] w1 [E1 E2].
  cbn in *. rewrite E1, E2. by destruct decision.
Qed.

Lemma persist_turn_items_delta items st w :
  wp (persist_turn_items items st) w (fun out _ =>
    (fst out = Ok tt -> st_transcript_delta (snd out) = st_transcript_delta st ++ items) /\
    st_last_agent_message (snd out) = st_last_agent_message st).
Proof.
  unfold persist_turn_items. destruct items as [|item items]; [split; [by rewrite app_nil_r|done]|].
  apply wp_bind, wp_await_act. intros [[]|error] env; [|by split]. apply wp_bind. unfold wp at 1.
  by destruct (emit_finished (item :: items) _) as [r w1].
Qed.

(** The guard leaves room for the calls. *)
Definition room_for (calls : list ToolCall) (st : TurnState) : Prop :=
  forall max, tool_call_limit (st_guard st) = Capped max -> Z.min (2 ^ 64 - 1) (count st + len calls) <= val max.

(** How a tool round that succeeds leaves the transcript, with the decisions that the
    hooks take in [env], where it starts. *)
Definition round_commits (ctx : TurnContext) (calls : list ToolCall) (st : TurnState) (env : W) (outcome : RoundOutcome)
    (st' : TurnState) : Prop :=
  let decisions := decisions_on (cx_permissions ctx) calls env in
  match outcome with
  | FinalAnswer message =>
      ~ room_for calls st /\ message = last_completion_message st /\ st_transcript_delta st' = st_transcript_delta st
  | OutcomeEmpty => False
  | _ =>
      room_for calls st /\
      exists items answered left_,
        st_transcript_delta st' = st_transcript_delta st ++ concat (zip_with noted calls decisions) ++ items /\
        concat (zip_with let_through calls decisions) = answered ++ left_ /\
        Forall2 committed answered (tool_results items) /\ tool_calls items = [] /\
        match outcome with
        | OutcomeFollowupRequired => answered = [] /\ left_ = [] /\ items = []
        | ToolCalls prepared => left_ = [] /\ prepared = answered
        | _ => True
        end
  end.

Lemma run_tool_round_commits ctx calls st w :
  wp (run_tool_round hooks ctx calls st) w (fun out _ =>
    forall outcome, fst out = Ok outcome -> round_commits ctx calls st (w_env w) outcome (snd out)).
Proof.
  unfold run_tool_round. destruct (record_tool_calls (length calls) st) as [admission st1] eqn:Er.
  destruct (record_tool_calls_spec _ _ _ _ Er) as (Eg & Ec & Ed & Em & Hg).
  assert (admission = Accepted <-> room_for calls st) as Hroom.
  { rewrite Hg. unfold room_for. by rewrite Ec. }
  destruct admission as [|c].
  2: { intros outcome [= <-]. split; [by intros Hr%Hroom|]. split; [|done]. unfold last_completion_message. cbn. by rewrite Em. }
  pose proof (proj1 Hroom eq_refl) as Hr. clear Hroom.
  apply wp_bind. eapply wp_mono; [apply prepare_tool_calls_out|]. cbn beta.
  intros [prep prepared] w1 [E1 E2]. cbn [fst snd] in E1, E2.
  apply wp_bind. eapply wp_mono; [apply persist_turn_items_delta|]. cbn beta. intros [r st2] w2 [Hd2 _]. cbn [fst snd] in Hd2.
  destruct r as [[]|error]; [|by intros outcome [=]]. specialize (Hd2 eq_refl).
  destruct prepared as [|call prepared].
  { intros outcome [= <-]. split; [done|]. exists [], [], []. cbn [snd]. rewrite app_nil_r, <- E1, <- E2, Hd2, Ed. by repeat constructor. }
  apply wp_bind. eapply wp_mono; [apply dispatch_commits|]. cbn beta. intros dispatch w3 Hdis.
  destruct dispatch as [outcome|error]; [|by intros outcome [=]].
  destruct (Hdis outcome eq_refl) as (answered & left_ & Ea & Hc & Ht & Hs).
  apply wp_bind. eapply wp_mono; [apply persist_turn_items_delta|]. cbn beta. intros [r st3] w4 [Hd3 _]. cbn [fst snd] in Hd3.
  destruct r as [[]|error]; [|by intros outcome' [=]]. specialize (Hd3 eq_refl). intros outcome' [= <-].
  assert (st_transcript_delta st3 = st_transcript_delta st
            ++ concat (zip_with noted calls (decisions_on (cx_permissions ctx) calls (w_env w))) ++ do_items outcome) as Hd.
  { by rewrite Hd3, Hd2, Ed, E1, <- app_assoc. }
  destruct (do_status outcome) as [|message]; (split; [done|]); exists (do_items outcome), answered, left_;
    (split; [exact Hd|]; split; [congruence|]; split; [done|]; split; [done|]); [|done].
  specialize (Hs eq_refl) as ->. by rewrite app_nil_r in Ea.
Qed.

End Ends.

Open Scope string_scope.
Open Scope list_scope.
Open Scope Z_scope.

(** * The answer of a stream *)

Definition event_text (event : ModelEvent) : option string :=
  match event with
  | ModelTextDelta _ text | ModelFinalText _ text | ModelRecordedFinalText _ text => Some text
  | _ => None
  end.

Definition event_item_id (event : ModelEvent) : option string :=
  match event with
  | ModelTextDelta item_id _ | ModelFinalText item_id _ | ModelRecordedFinalText item_id _ => item_id
  | _ => None
  end.

Definition event_call (event : ModelEvent) : option ToolCall :=
  match event with ModelToolCall call => Some call | _ => None end.

Definition event_reasoning (event : ModelEvent) : option TurnItem :=
  match event with ModelReasoningDelta item_id _ _ text => Some (ItemReasoning item_id text) | _ => None end.

Definition event_usage (event : ModelEvent) : option TokenUsage :=
  match event with ModelCompleted usage => Some usage | _ => None end.

Definition is_recorded_final (event : ModelEvent) : bool :=
  match event with ModelRecordedFinalText _ _ => true | _ => false end.

Definition is_followup (event : ModelEvent) : bool :=
  match event with ModelFollowupRequired => true | _ => false end.

(** The text of a stream: its pieces, one after the other. *)
Definition streamed_text (events : list ModelEvent) : string :=
  fold_left String.append (omap event_text events) "".

Definition streamed_id (events : list ModelEvent) : option string := head (omap event_item_id events).

(** The items a stream commits, how it ends the round, and the message it leaves. *)
Definition streamed_items (events : list ModelEvent) : list TurnItem :=
  omap event_reasoning events ++
  (if bool_decide (streamed_text events = "") || existsb is_recorded_final events then []
   else [ItemAssistantText (streamed_id events) (streamed_text events)]).

Definition streamed_outcome (events : list ModelEvent) : RoundOutcome :=
  if existsb is_followup events then OutcomeFollowupRequired
  else if bool_decide (streamed_text events = "") then OutcomeEmpty else FinalAnswer (Text (streamed_text events)).

Definition streamed_message (events : list ModelEvent) (before : option string) : option string :=
  if bool_decide (streamed_text events = "") then before else Some (streamed_text events).

(** What a stream state holds after its events. *)
Record has_read (events : list ModelEvent) (ss : ModelStreamState) : Prop := {
  hr_calls : ss_calls ss = omap event_call events;
  hr_items : ss_new_items ss = omap event_reasoning events;
  hr_text : at_text (ss_assistant_text ss) = streamed_text events;
  hr_id : at_item_id (ss_assistant_text ss) = streamed_id events;
  hr_recorded : at_record_state (ss_assistant_text ss) = if existsb is_recorded_final events then AlreadyRecorded else NeedsRecord;
  hr_followup : ss_followup ss = if existsb is_followup events then FollowupRequired else FollowupNone
}.

Lemma has_read_nothing : has_read [] stream_state_default.
Proof. by constructor. Qed.

Lemma streamed_text_snoc events event :
  streamed_text (events ++ [event]) =
  match event_text event with Some text => (streamed_text events ++ text)%string | None => streamed_text events end.
Proof. unfold streamed_text. rewrite omap_app, fold_left_app. cbn. by destruct (event_text event). Qed.

Lemma streamed_id_snoc events event :
  streamed_id (events ++ [event]) = match streamed_id events with Some id => Some id | None => event_item_id event end.
Proof.
  unfold streamed_id. rewrite omap_app. destruct (omap event_item_id events); [|done]. cbn. by destruct (event_item_id event).
Qed.

(** The events that the acts of a turn have read. *)
Definition model_events (acts : list Act) : list ModelEvent :=
  omap (fun a => match a with ActModelEvent event => Some event | _ => None end) acts.

Section Progress.
Context {W : Type} `{!TurnServices W} (hooks : TurnHooks W).

(** The count and the guard are those of another state. *)
Definition same_count (st st' : TurnState) : Prop := st_guard st' = st_guard st /\ count st' = count st.

Lemma persist_turn_items_out items st w :
  wp (persist_turn_items items st) w (fun out w' =>
    same_count st (snd out) /\
    (fst out = Ok tt -> snd out = record_items items st) /\
    exists acts, w_log w' = w_log w ++ acts /\ model_events acts = []).
Proof.
  assert (forall items (w1 : World W), wp (emit_finished items) w1 (fun _ w2 =>
    exists acts, w_log w2 = w_log w1 ++ acts /\ model_events acts = [])) as Hem.
  { intros items'. induction items' as [|item items' IH]; intros w1; [exists []; by rewrite app_nil_r|].
    destruct item; try apply IH. apply wp_bind, wp_await_act. intros [r|error] env; [|by eexists].
    eapply wp_mono; [apply IH|]. cbn beta. intros r' w2 (acts & -> & Ha). cbn [w_log]. rewrite <- app_assoc.
    eexists. split; [done|]. exact Ha. }
  unfold persist_turn_items. destruct items as [|item items]; [by split; [|split; [|exists []; rewrite app_nil_r]]|].
  apply wp_bind, wp_await_act. intros [[]|error] env; [|split; [done|]; split; [done|by eexists]].
  apply wp_bind. eapply wp_mono; [apply Hem|]. cbn beta. intros r w2 (acts & El & Ha).
  unfold wp. cbn [mret turn_ret fst snd].
  split; [by split; [apply (record_items_guard (item :: items))|apply (record_items_count (item :: items))]|]. split; [done|].
  cbn [w_log] in El. rewrite <- app_assoc in El. eexists. split; [exact El|]. exact Ha.
Qed.

(** An event that is taken up does to the state what it says. *)
Lemma record_event_reads events event ss st w :
  has_read events ss ->
  wp (record_event event ss st) w (fun out w' =>
    let '(r, ss', st') := out in
    same_count st st' /\ st_transcript_delta st' = st_transcript_delta st /\
    st_last_agent_message st' = st_last_agent_message st /\
    (r = Ok true <-> exists usage, event = ModelCompleted usage) /\
    (is_ok r = true -> has_read (events ++ [event]) ss' /\
       st_token_usage st' = fold_left (fun l u => ledger_record_usage u l) (omap event_usage [event]) (st_token_usage st)) /\
    exists acts, w_log w' = w_log w ++ acts /\ model_events acts = [event]).
Proof.
  intros [H1 H2 H3 H4 H5 H6].
  assert (forall ss', ss_calls ss' = ss_calls ss ++ omap event_call [event] ->
    ss_new_items ss' = ss_new_items ss ++ omap event_reasoning [event] ->
    at_text (ss_assistant_text ss') = (match event_text event with
      | Some text => (at_text (ss_assistant_text ss) ++ text)%string | None => at_text (ss_assistant_text ss) end) ->
    at_item_id (ss_assistant_text ss') = (match at_item_id (ss_assistant_text ss) with
      | Some id => Some id | None => event_item_id event end) ->
    at_record_state (ss_assistant_text ss') = (if is_recorded_final event then AlreadyRecorded else at_record_state (ss_assistant_text ss)) ->
    ss_followup ss' = (if is_followup event then FollowupRequired else ss_followup ss) ->
    has_read (events ++ [event]) ss') as Hread.
  { intros ss' E1 E2 E3 E4 E5 E6. constructor.
    - by rewrite E1, H1, omap_app.
    - by rewrite E2, H2, omap_app.
    - by rewrite E3, H3, streamed_text_snoc.
    - by rewrite E4, H4, streamed_id_snoc.
    - rewrite E5, H5, existsb_app. cbn. rewrite orb_false_r. by destruct (is_recorded_final event), (existsb is_recorded_final events).
    - rewrite E6, H6, existsb_app. cbn. rewrite orb_false_r. by destruct (is_followup event), (existsb is_followup events). }
  assert (forall acts, exists acts' : list Act, (w_log w ++ [ActModelEvent event]) ++ acts = w_log w ++ acts' /\
    model_events acts' = event :: model_events acts) as Hlog.
  { intros acts. exists (ActModelEvent event :: acts). by rewrite <- app_assoc. }
  apply wp_bind. unfold wp at 1. cbn [act].
  destruct event as [item_id text|item_id summary_index content_index text|call|item_id text|item_id text| |usage].
  1, 2: apply wp_bind, wp_await_act; intros [r|error] env; unfold wp; cbn [mret turn_ret w_log logged];
    (split; [done|]; split; [done|]; split; [done|]; split; [split; [done|by intros (? & ?)]|]; split; [|apply Hlog]);
    [|done]; intros _; (split; [|done]); apply Hread; cbn; rewrite ?app_nil_r; try done; by destruct (at_item_id _).
  all: unfold wp; cbn [mret turn_ret w_log logged];
    (split; [done|]; split; [done|]; split; [done|]; split; [|split; [|by eexists]]);
    try (split; [done|by intros (? & ?)]).
  all: try (intros _; split; [|done]; apply Hread; cbn; rewrite ?app_nil_r; try done; by destruct (at_item_id _)).
  split; [intros _; by exists usage|done].
Qed.

Lemma read_stream_reads stream events ss st w :
  has_read events ss ->
  wp (read_stream stream ss st) w (fun out w' =>
    let '(left_, ss', st') := out in
    same_count st st' /\ st_transcript_delta st' = st_transcript_delta st /\
    st_last_agent_message st' = st_last_agent_message st /\
    exists acts, w_log w' = w_log w ++ acts /\
      (left_ = LeftAtEnd -> has_read (events ++ model_events acts) ss' /\
         st_token_usage st' = fold_left (fun l u => ledger_record_usage u l) (omap event_usage (model_events acts)) (st_token_usage st))).
Proof.
  revert events ss st w. induction stream as [|poll stream IH]; intros events ss st w Hr; cbn [read_stream];
    apply wp_bind; unfold wp at 1; cbn [cancelled].
  - destruct (is_cancelled (w_env w)); unfold wp; cbn [mret turn_ret];
      (split; [done|]; split; [done|]; split; [done|]; exists []; rewrite !app_nil_r; by split).
  - assert (forall left_ (w1 : World W), w_log w1 = w_log w -> left_ <> LeftAtEnd ->
      same_count st st /\ st_transcript_delta st = st_transcript_delta st /\
      st_last_agent_message st = st_last_agent_message st /\
      exists acts, w_log w1 = w_log w ++ acts /\ (left_ = LeftAtEnd -> has_read (events ++ model_events acts) ss /\
         st_token_usage st = fold_left (fun l u => ledger_record_usage u l) (omap event_usage (model_events acts)) (st_token_usage st)))
      as Hleft.
    { intros left_ w1 El Hne. split; [done|]. split; [done|]. split; [done|]. exists []. by rewrite El, app_nil_r. }
    destruct (is_cancelled (w_env w)); [by apply Hleft|].
    apply wp_bind, wp_await. intros found env env' _.
    destruct (if can_preempt_for_steering ss then sp_steering found else None) as [[]|]; [by apply Hleft..|].
    destruct (sp_answer found) as [|[[event|error]|]]; [by apply Hleft| |by apply Hleft|].
    2: { split; [done|]. split; [done|]. split; [done|]. exists []. rewrite !app_nil_r. by split. }
    apply wp_bind. eapply wp_mono; [by apply record_event_reads|]. cbn beta. intros [[r ss1] st1] w1 (Hc & Hd & Hm & Hdone & Hok & acts1 & El1 & Ea1).
    cbn [w_log] in El1. destruct r as [[|]|error].
    + destruct (Hok eq_refl) as [Hr1 Hu1]. split; [done|]. split; [done|]. split; [done|]. exists acts1. rewrite Ea1. by split.
    + destruct (Hok eq_refl) as [Hr1 Hu1]. eapply wp_mono; [by apply (IH (events ++ [event]))|]. cbn beta.
      intros [[left_ ss2] st2] w2 ([Hc1 Hc2] & Hd2 & Hm2 & acts2 & El2 & Hrd). destruct Hc as [Hc3 Hc4].
      split; [by split; congruence|]. split; [congruence|]. split; [congruence|].
      exists (acts1 ++ acts2). split; [by rewrite El2, El1, app_assoc|]. intros E. destruct (Hrd E) as [Hrd1 Hrd2].
      unfold model_events in *. rewrite omap_app, Ea1. split; [by rewrite app_assoc|].
      rewrite Hrd2, Hu1. by rewrite (omap_app _ [event]), fold_left_app.
    + split; [done|]. split; [done|]. split; [done|]. by exists acts1.
Qed.

Lemma stream_complete_out events ss st completion st' :
  has_read events ss -> stream_complete ss st = (completion, st') ->
  mc_calls completion = omap event_call events /\ mc_new_items completion = streamed_items events /\
  mc_no_tool_outcome completion = streamed_outcome events /\ same_count st st' /\
  st_transcript_delta st' = st_transcript_delta st /\ st_token_usage st' = st_token_usage st /\
  st_last_agent_message st' = streamed_message events (st_last_agent_message st).
Proof.
  intros [H1 H2 H3 H4 H5 H6]. unfold stream_complete, commit_text, streamed_items, streamed_outcome, streamed_message.
  rewrite H3, H4, H5, H1, H2, H6. case_bool_decide as E; intros [= <- <-]; cbn; rewrite ?app_nil_r.
  - by destruct (existsb is_followup events).
  - destruct (existsb is_followup events), (existsb is_recorded_final events); by rewrite ?app_nil_r.
Qed.

Lemma run_tool_round_log ctx calls st w out w' :
  run_tool_round hooks ctx calls st w = (out, w') -> exists acts, w_log w' = w_log w ++ acts.
Proof.
  intros E. pose proof (run_tool_round_keeps hooks (fun _ _ _ _ => True) (w_log w) [] ctx calls st w) as Hk.
  unfold wp in Hk. rewrite E in Hk. destruct Hk as (acts & El & _); [|by exists acts].
  exists []. by rewrite app_nil_r.
Qed.

(** A stream without tool calls that is consumed commits its items, and ends the
    round by what it said. *)
Lemma consume_commits ctx stream st w :
  wp (consume_model_stream hooks ctx stream st) w (fun out w' =>
    forall outcome, fst out = Ok (ConsumptionCompleted outcome) ->
      exists acts, w_log w' = w_log w ++ acts /\
        (omap event_call (model_events acts) = [] ->
         outcome = streamed_outcome (model_events acts) /\
         st_transcript_delta (snd out) = st_transcript_delta st ++ streamed_items (model_events acts) /\
         st_last_agent_message (snd out) = streamed_message (model_events acts) (st_last_agent_message st) /\
         st_token_usage (snd out)
           = fold_left (fun l u => ledger_record_usage u l) (omap event_usage (model_events acts)) (st_token_usage st))).
Proof.
  apply wp_bind. eapply wp_mono; [apply (read_stream_reads stream []), has_read_nothing|]. cbn beta.
  intros [[left_ ss] st1] w1 (_ & Hd & Hm & acts & El & Hrd). destruct left_; try (intros outcome [=]).
  destruct (Hrd eq_refl) as [Hr Hu]. destruct (stream_complete ss st1) as [completion st2] eqn:Es.
  destruct (stream_complete_out _ _ _ _ _ Hr Es) as (E1 & E2 & E3 & _ & E4 & E5 & E6). cbn [app] in *.
  apply wp_bind. eapply wp_mono; [apply persist_turn_items_out|]. cbn beta.
  intros [r st3] w2 (_ & Hst & acts2 & El2 & Ea2). cbn [fst snd] in *.
  destruct r as [[]|error]; [|intros outcome [=]]. specialize (Hst eq_refl) as ->. rewrite E1, E2 in *.
  assert (forall acts3, model_events (acts ++ acts2 ++ acts3) = model_events acts ++ model_events acts3) as Hev.
  { intros acts3. unfold model_events in *. by rewrite !omap_app, Ea2. }
  destruct (omap event_call (model_events acts)) as [|call calls] eqn:Ec.
  - intros outcome [= <-]. exists (acts ++ acts2). split; [by rewrite El2, El, app_assoc|]. intros _.
    specialize (Hev []). rewrite app_nil_r in Hev. cbn in Hev. rewrite app_nil_r in Hev. rewrite Hev.
    cbn [snd]. split; [done|]. rewrite <- Hd, <- Hm, <- Hu, <- E4, <- E5.
    destruct (streamed_items (model_events acts)) eqn:Ei; cbn; rewrite ?app_nil_r; split_and!; try done; by rewrite E6.
  - apply wp_bind. unfold wp. destruct (run_tool_round hooks ctx (call :: calls) (record_items (streamed_items (model_events acts)) st2) w2)
      as [[r st4] w3] eqn:Et. intros outcome _.
    destruct (run_tool_round_log _ _ _ _ _ _ Et) as [acts3 El3]. exists (acts ++ acts2 ++ acts3).
    split; [by rewrite El3, El2, El, <- !app_assoc|]. intros Hnone. exfalso. rewrite Hev, omap_app, Ec in Hnone. done.
Qed.

(** * Turns with a limit *)

(** A poll that finds neither steering nor a request for a followup. *)
Definition calm_poll (poll : Async W StreamPoll) : Prop :=
  forall env found env', poll env = (found, env') ->
    sp_steering found <> Some (Ok tt) /\ sp_answer found <> StreamNext (Some (Ok ModelFollowupRequired)).

(** Hooks and services that neither interrupt the requests nor keep a turn going:
    no steering restarts a round, no stream asks for a followup, the round is
    judged by the default and a stop is a stop. *)
Record undisturbed : Prop := {
  ud_steering env env' : steering_ready env <> (Some (Ok tt), env');
  ud_drain env drained env' : drain_steering env = (Ok drained, env') -> dr_control drained <> SteeringRetryWithoutModelRequest;
  ud_race request env race env' : stream_model request env = (race, env') ->
    match race with
    | RaceSteering (Ok _) => False
    | RaceStream (Ok stream) =>
        Forall calm_poll stream
    | _ => True
    end;
  ud_round view env decision env' :
    after_model_round hooks view env = (decision, env') -> decision = default_after_model_round (ov_outcome view);
  ud_stop view env env' : on_turn_stop hooks view env <> (StopContinueTurn, env')
}.

Lemma record_event_followup event ss st w :
  event <> ModelFollowupRequired -> ss_followup ss = FollowupNone ->
  wp (record_event event ss st) w (fun out _ => ss_followup (snd (fst out)) = FollowupNone).
Proof.
  intros Hne Hf. apply wp_bind. unfold wp at 1. cbn [act].
  destruct event; try done; apply wp_bind, wp_await_act; by intros [] env.
Qed.

Lemma read_stream_calm stream ss st w :
  Forall calm_poll stream -> ss_followup ss = FollowupNone ->
  wp (read_stream stream ss st) w (fun out _ =>
    fst (fst out) <> LeftSteering /\ (fst (fst out) = LeftAtEnd -> ss_followup (snd (fst out)) = FollowupNone)).
Proof.
  intros Hc. revert ss st w. induction Hc as [|poll stream Hp _ IH]; intros ss st w Hf; cbn [read_stream];
    apply wp_bind; unfold wp at 1; cbn [cancelled]; (destruct (is_cancelled (w_env w)); [by split|]); [by split|].
  apply wp_bind, wp_await. intros found env env' E. destruct (Hp _ _ _ E) as [Hs Ha].
  destruct (if can_preempt_for_steering ss then sp_steering found else None) as [[[]|error]|] eqn:Est; [|by split|].
  { exfalso. destruct (can_preempt_for_steering ss); congruence. }
  destruct (sp_answer found) as [|[[event|error]|]]; [by split| |by split..].
  apply wp_bind. eapply wp_mono; [apply record_event_followup; [congruence|done]|]. cbn beta.
  intros [[r ss1] st1] w1 Hf1. destruct r as [[|]|error]; [by split|by apply IH|by split].
Qed.

(** The calls of a round are counted, and the round goes on only when all calls
    so far are within the limit. *)
Lemma run_tool_round_counts ctx calls st w max :
  tool_call_limit (st_guard st) = Capped max -> val max < 2 ^ 64 - 1 ->
  wp (run_tool_round hooks ctx calls st) w (fun out _ =>
    st_guard (snd out) = st_guard st /\
    match fst out with
    | Ok OutcomeFollowupRequired | Ok (ToolCalls _) => count (snd out) = count st + len calls /\ count (snd out) <= val max
    | _ => True
    end).
Proof.
  intros Em Hm. unfold run_tool_round. destruct (record_tool_calls (length calls) st) as [admission st1] eqn:Er.
  destruct (record_tool_calls_spec _ _ _ _ Er) as (Eg & Ec & _ & _ & Ha). pose proof (count_nonneg st) as Hn.
  destruct admission as [|c]; [|by split]. pose proof (proj1 Ha eq_refl max Em) as Hle. clear Ha Er.
  assert (count st1 = count st + len calls) as Ec' by lia. clear Ec.
  apply wp_bind. unfold wp at 1. destruct (prepare_tool_calls hooks (cx_permissions ctx) calls w) as [[items prepared] w1].
  apply wp_bind. eapply wp_mono; [apply persist_turn_items_out|]. cbn beta. intros [r st2] w2 ([G2 C2] & _). cbn [snd] in *.
  destruct r as [[]|error]; [|split; [cbn; congruence|done]].
  destruct prepared as [|call prepared]; [split; [cbn; congruence|]; cbn; lia|].
  apply wp_bind. unfold wp at 1. destruct (dispatch_tool_calls hooks (call :: prepared) w2) as [[outcome|error] w3];
    [|split; [cbn; congruence|done]].
  apply wp_bind. eapply wp_mono; [apply persist_turn_items_out|]. cbn beta. intros [r st3] w4 ([G3 C3] & _). cbn [snd] in *.
  split; [cbn; congruence|]. cbn. destruct r as [[]|error]; [|done]. destruct (do_status outcome); [lia|done].
Qed.

(** A sample whose round goes on has made calls within the limit. *)
Definition counted (max : u64) (st : TurnState) (out : RoundLoopAction * TurnState) : Prop :=
  match fst out with
  | ActionContinue _ => st_guard (snd out) = st_guard st /\ count st < count (snd out) <= val max
  | ActionRetryWithoutModelRequest => False
  | _ => True
  end.

Lemma consume_counts ctx stream st w max :
  Forall calm_poll stream -> tool_call_limit (st_guard st) = Capped max -> val max < 2 ^ 64 - 1 ->
  wp (consume_model_stream hooks ctx stream st) w (fun out _ =>
    match fst out with
    | Ok SteeringPending => False
    | Ok (ConsumptionCompleted outcome) =>
        match default_after_model_round outcome with
        | RoundContinue _ => st_guard (snd out) = st_guard st /\ count st < count (snd out) <= val max
        | _ => True
        end
    | Err _ => True
    end).
Proof.
  intros Hc Em Hm. apply wp_bind. pose proof (read_stream_calm stream stream_state_default st w Hc eq_refl) as Hcalm.
  pose proof (read_stream_reads stream [] stream_state_default st w has_read_nothing) as Hread.
  unfold wp in Hcalm, Hread |- * at 1.
  destruct (read_stream stream stream_state_default st w) as [[[left_ ss] st1] w1]. cbn [fst snd] in Hcalm.
  destruct Hcalm as [Hns Hf], Hread as ([G1 C1] & _ & _ & acts & _ & Hrd). destruct left_; [done..|].
  destruct (Hrd eq_refl) as [Hr _]. specialize (Hf eq_refl).
  destruct (stream_complete ss st1) as [completion st2] eqn:Es.
  destruct (stream_complete_out _ _ _ _ _ Hr Es) as (E1 & E2 & E3 & [G2 C2] & _).
  apply wp_bind. eapply wp_mono; [apply persist_turn_items_out|]. cbn beta. intros [r st3] w2 ([G3 C3] & _). cbn [snd] in *.
  destruct r as [[]|error]; [|done]. destruct (mc_calls completion) as [|call calls].
  - unfold wp. cbn. rewrite E3. unfold streamed_outcome.
    replace (existsb is_followup ([] ++ model_events acts)) with false; [by case_bool_decide|].
    pose proof (hr_followup _ _ Hr) as Hfo. rewrite Hf in Hfo. by destruct (existsb is_followup _).
  - apply wp_bind. eapply wp_mono; [apply (run_tool_round_counts ctx (call :: calls) st3 w2 max); [congruence|done]|].
    cbn beta. intros [r st4] w3 [G4 C4]. cbn [fst snd] in *.
    destruct r as [outcome|error]; [|done]. unfold wp. cbn [mret turn_ret fst snd].
    destruct outcome; cbn; try done; cbn [length] in C4; split; [congruence|lia|congruence|lia].
Qed.

Lemma sample_model_counts ctx settings round prompt st w max :
  undisturbed -> tool_call_limit (st_guard st) = Capped max -> val max < 2 ^ 64 - 1 ->
  wp (sample_model hooks ctx settings round prompt st) w (fun out _ => counted max st out).
Proof.
  intros [Us _ Ur Ua _] Em Hm. apply wp_bind. set (request := Build_ModelRequest _ _ _ _).
  assert (wp (await_model request) w (fun out _ =>
    match out with inl (ActionAbort _) => True | inl _ => False | inr stream => Forall calm_poll stream end)) as Hq.
  { apply wp_bind. unfold wp at 1. cbn [cancelled]. destruct (is_cancelled (w_env w)); [done|].
    apply wp_bind, wp_await. intros [[[]|error]|] env env' E; [by apply Us in E|done|].
    apply wp_bind. unfold wp at 1. cbn [act]. apply wp_bind, wp_await. intros race env1 env2 Er.
    apply Ur in Er. destruct race as [|[|error]|[stream|error]]; done. }
  eapply wp_mono; [exact Hq|]. cbn beta. intros [action|stream] w1 Hs; [by destruct action|].
  apply wp_bind. eapply wp_mono; [by eapply consume_counts|]. cbn beta. intros [r st1] w2 Hc. cbn [fst snd] in Hc.
  destruct r as [[outcome|]|reason]; [|done..]. apply wp_bind, wp_await. intros decision env env' E.
  apply Ua in E as ->. cbn [ov_outcome]. unfold wp, counted. cbn [mret turn_ret fst snd].
  by destruct (default_after_model_round outcome).
Qed.

Lemma run_model_round_counts ctx settings base st w max :
  undisturbed -> tool_call_limit (st_guard st) = Capped max -> val max < 2 ^ 64 - 1 ->
  wp (run_model_round hooks ctx settings base st) w (fun out _ => counted max st (fst (fst out), snd out)).
Proof.
  intros Hu Em Hm. unfold run_model_round. destruct (start_round st) as [round st1] eqn:Es.
  assert (same_count st st1) as [G1 C1] by (unfold start_round in Es; by injection Es as <- <-).
  assert (wp (apply_context_pressure hooks (rs_model settings) base st1) w (fun out _ => same_count st1 (snd out))) as Hp.
  { apply wp_bind, wp_await. intros [|items [|item transcript]|reason] env env' _; try done.
    apply wp_bind, wp_await_act. by intros [[]|error] env2. }
  apply wp_bind. eapply wp_mono; [exact Hp|]. cbn beta. intros [[r base1] st2] w1 [G2 C2]. cbn [snd] in *.
  destruct r as [[]|reason]; [|done].
  assert (wp (prepare_round_prompt hooks base1 st2) w1 (fun out _ => same_count st2 (snd out) /\
    fst (fst out) <> Ok PromptRetryWithoutModelRequest)) as Hq.
  { unfold prepare_round_prompt. apply wp_bind. unfold wp at 1, drain, await_act.
    destruct (drain_steering (w_env w1)) as [[drained|error] env] eqn:Ed; [|done]. apply (ud_drain Hu) in Ed.
    destruct (dr_control drained); [|done..]. destruct (dr_messages drained); [done|].
    apply wp_bind, wp_await. by intros [] env1 env2 _. }
  apply wp_bind. eapply wp_mono; [exact Hq|]. cbn beta. intros [[r base2] st3] w2 [[G3 C3] Hne]. cbn [fst snd] in *.
  destruct r as [[prompt| |message]|reason]; [|done..].
  apply wp_bind. eapply wp_mono; [apply (sample_model_counts ctx settings round prompt st3 w2 max Hu); [congruence|done]|].
  cbn beta. intros [action st4] w3 Hc. unfold wp, counted in *. cbn [mret turn_ret fst snd] in *.
  destruct action; try done. destruct Hc as [G4 C4]. split; [congruence|lia].
Qed.

(** Each round that goes on uses up the limit, so the rounds end. *)
Lemma run_rounds_end fuel ctx settings base st w max :
  undisturbed -> tool_call_limit (st_guard st) = Capped max -> val max < 2 ^ 64 - 1 ->
  (Z.to_nat (val max - count st) < fuel)%nat ->
  wp (run_rounds fuel hooks ctx st base settings) w (fun out _ => is_Some out).
Proof.
  intros Hu. revert st base settings w. induction fuel as [|fuel IH]; intros st base settings w Em Hm Hf; [lia|].
  cbn [run_rounds]. apply wp_bind. unfold wp at 1. cbn [cancelled]. destruct (is_cancelled (w_env w)).
  { apply wp_bind. unfold wp at 1. destruct (abort_with_event st error_cancelled w). by eexists. }
  apply wp_bind. eapply wp_mono; [by apply (run_model_round_counts ctx settings base st w max)|]. cbn beta.
  intros [[action base1] st1] w1 Hc. unfold counted in Hc. cbn [fst snd] in Hc. destruct action as [update|message| |reason].
  - destruct Hc as [G1 C1]. apply wp_bind.
    assert (wp (apply_round_continuation hooks ctx update base1 st1 settings) w1 (fun out _ => same_count st1 (snd (fst out)))) as Hk.
    { unfold apply_round_continuation. destruct update; apply wp_bind, wp_await; done. }
    eapply wp_mono; [exact Hk|]. cbn beta. intros [[base2 st2] settings2] w2 [G2 C2]. cbn [fst snd] in *.
    apply IH; [congruence|done|lia].
  - apply wp_bind, wp_bind, wp_await. intros decision env env' E. unfold wp at 1. cbn [mret turn_ret].
    destruct decision; [|by apply (ud_stop Hu) in E|by eexists].
    apply wp_bind. unfold wp at 1. destruct (complete_turn _ _ _ _). by eexists.
  - done.
  - by eexists.
Qed.

End Progress.
