(* ===== verification/Truncation.v ===== *)
(** Truncation of what tools and commands put out (utils/string: truncate.rs,
    lib.rs; utils/output-truncation: lib.rs; protocol: [TruncationPolicy], the
    items of models/function_call_output.rs): a text that is too long keeps its
    beginning and its end, cut between characters, around a marker of what was
    removed; then the lemmas on what the loops over characters keep, cut and count.

    Texts are the bytes of well-formed UTF-8.  A [usize] is a [Z] with its
    saturation written out; lengths and positions of texts are naturals. *)

From Stdlib Require Import Floats.SpecFloat.
From S2P Require Import Prelude Disk Text TextFacts Listing ListingFacts.

Open Scope string_scope.
Open Scope list_scope.
Open Scope Z_scope.

(** * Sizes *)

Definition USIZE_MAX : Z := 2 ^ 64 - 1.
Definition saturating_add (x y : Z) : Z := Z.min USIZE_MAX (x + y).
Definition saturating_sub (x y : Z) : Z := Z.max 0 (x - y).
Definition saturating_mul (x y : Z) : Z := Z.min USIZE_MAX (x * y).

Definition APPROX_BYTES_PER_TOKEN : Z := 4.

Definition approx_token_count (text : bytes) : Z :=
  saturating_add (len text) (saturating_sub APPROX_BYTES_PER_TOKEN 1) / APPROX_BYTES_PER_TOKEN.

Definition approx_bytes_for_tokens (tokens : Z) : Z := saturating_mul tokens APPROX_BYTES_PER_TOKEN.

Definition approx_tokens_from_byte_count (n : Z) : Z :=
  saturating_add n (saturating_sub APPROX_BYTES_PER_TOKEN 1) / APPROX_BYTES_PER_TOKEN.

Definition approx_tokens_from_byte_count_i64 (n : Z) : Z :=
  if n <=? 0 then 0 else Z.min (2 ^ 63 - 1) (approx_tokens_from_byte_count n).

(** * Splitting a text *)

Definition len_utf8 (c : Z) : nat := length (encode_utf8 c).

(** The locals of the loop of [split_string]; [sp_started] is [suffix_started]. *)
Record Split := { sp_prefix_end : nat; sp_suffix_start : nat; sp_removed : Z; sp_started : bool }.

(** One turn, for the character [c] at [idx]. *)
Definition split_char (beginning_bytes tail_start_target : Z) (idx : nat) (c : Z) (sp : Split) : Split :=
  let char_end := (idx + len_utf8 c)%nat in
  if Z.of_nat char_end <=? beginning_bytes then
    {| sp_prefix_end := char_end; sp_suffix_start := sp_suffix_start sp; sp_removed := sp_removed sp;
       sp_started := sp_started sp |}
  else if tail_start_target <=? Z.of_nat idx then
    if sp_started sp then sp
    else
      {| sp_prefix_end := sp_prefix_end sp; sp_suffix_start := idx; sp_removed := sp_removed sp; sp_started := true |}
  else
    {| sp_prefix_end := sp_prefix_end sp; sp_suffix_start := sp_suffix_start sp;
       sp_removed := saturating_add (sp_removed sp) 1; sp_started := sp_started sp |}.

Fixpoint split_loop (beginning_bytes tail_start_target : Z) (idx : nat) (cs : list Z) (sp : Split) : Split :=
  match cs with
  | [] => sp
  | c :: cs =>
      split_loop beginning_bytes tail_start_target (idx + len_utf8 c) cs
        (split_char beginning_bytes tail_start_target idx c sp)
  end.

Definition split_string (s : bytes) (beginning_bytes end_bytes : Z) : Z * bytes * bytes :=
  match s with
  | [] => (0, [], [])
  | _ =>
      let tail_start_target := saturating_sub (len s) end_bytes in
      let sp := split_loop beginning_bytes tail_start_target 0 (chars s)
                  {| sp_prefix_end := 0; sp_suffix_start := length s; sp_removed := 0; sp_started := false |} in
      let suffix_start := if (sp_suffix_start sp <? sp_prefix_end sp)%nat then sp_prefix_end sp else sp_suffix_start sp in
      (sp_removed sp, take (sp_prefix_end sp) s, drop suffix_start s)
  end.

Definition split_budget (budget : Z) : Z * Z := let left_ := budget / 2 in (left_, budget - left_).

Definition format_truncation_marker (use_tokens : bool) (removed_count : Z) : bytes :=
  str_bytes "…" ++ dec_text removed_count ++
  (if use_tokens then str_bytes " tokens truncated…" else str_bytes " chars truncated…").

Definition removed_units (use_tokens : bool) (removed_bytes removed_chars : Z) : Z :=
  if use_tokens then approx_tokens_from_byte_count removed_bytes else removed_chars.

Definition assemble_truncated_output (prefix suffix marker : bytes) : bytes := prefix ++ marker ++ suffix.

Definition truncate_with_byte_estimate (s : bytes) (max_bytes : Z) (use_tokens : bool) : bytes :=
  match s with
  | [] => []
  | _ =>
      let total_chars := len (chars s) in
      if max_bytes =? 0 then format_truncation_marker use_tokens (removed_units use_tokens (len s) total_chars)
      else if len s <=? max_bytes then s
      else
        let (left_budget, right_budget) := split_budget max_bytes in
        let '(removed_chars, left_, right_) := split_string s left_budget right_budget in
        let marker := format_truncation_marker use_tokens
                        (removed_units use_tokens (saturating_sub (len s) max_bytes) removed_chars) in
        assemble_truncated_output left_ right_ marker
  end.

Definition truncate_middle_chars (s : bytes) (max_bytes : Z) : bytes := truncate_with_byte_estimate s max_bytes false.

Definition truncate_middle_with_token_budget (s : bytes) (max_tokens : Z) : bytes * option Z :=
  match s with
  | [] => ([], None)
  | _ =>
      if (0 <? max_tokens) && (len s <=? approx_bytes_for_tokens max_tokens) then (s, None)
      else
        let truncated := truncate_with_byte_estimate s (approx_bytes_for_tokens max_tokens) true in
        let total_tokens := approx_token_count s in
        if bool_decide (truncated = s) then (truncated, None) else (truncated, Some total_tokens)
  end.

(** * Prefixes and suffixes *)

Fixpoint prefix_boundary (max_bytes : Z) (idx : nat) (cs : list Z) (end_ : nat) : nat :=
  match cs with
  | [] => end_
  | c :: cs => if max_bytes <? Z.of_nat idx then end_ else prefix_boundary max_bytes (idx + len_utf8 c) cs idx
  end.

Definition utf8_prefix_boundary (content : bytes) (max_bytes : Z) : nat := prefix_boundary max_bytes 0 (chars content) 0.

Fixpoint last_ok_loop (maxb : Z) (idx : nat) (cs : list Z) (last_ok : nat) : nat :=
  match cs with
  | [] => last_ok
  | c :: cs =>
      let nb := (idx + len_utf8 c)%nat in
      if maxb <? Z.of_nat nb then last_ok else last_ok_loop maxb nb cs nb
  end.

Definition take_bytes_at_char_boundary (s : bytes) (maxb : Z) : bytes :=
  if len s <=? maxb then s else take (last_ok_loop maxb 0 (chars s) 0) s.

(** The characters from the last one on; [start] is where the one before ends. *)
Fixpoint last_bytes_loop (maxb : Z) (cs : list Z) (start : nat) (used : Z) : nat :=
  match cs with
  | [] => start
  | c :: cs =>
      let nb := len_utf8 c in
      if maxb <? used + Z.of_nat nb then start else last_bytes_loop maxb cs (start - nb) (used + Z.of_nat nb)
  end.

Definition take_last_bytes_at_char_boundary (s : bytes) (maxb : Z) : bytes :=
  if len s <=? maxb then s else drop (last_bytes_loop maxb (rev (chars s)) (length s) 0) s.

Definition truncate_utf8_bytes_with_ellipsis (content : bytes) (max_bytes : Z) : bytes :=
  if len content <=? max_bytes then content
  else take (utf8_prefix_boundary content max_bytes) content ++ str_bytes "...".

Definition NEWLINE : bytes := [x0a].

Definition truncate_utf8_bytes_with_omitted_marker (content : bytes) (max_bytes : Z) : bytes :=
  if len content <=? max_bytes then content
  else
    let cut := utf8_prefix_boundary content max_bytes in
    let omitted := saturating_sub (len content) (Z.of_nat cut) in
    take cut content ++ NEWLINE ++ NEWLINE ++ str_bytes "[... " ++ dec_text omitted ++ str_bytes " more bytes truncated]".

Definition truncate_to_char_boundary (value : bytes) (max_len : Z) : bytes :=
  if len value <=? max_len then value else take (utf8_prefix_boundary value max_len) value.

(** [chars().take(n).collect()] *)
Fixpoint take_chars (n : Z) (cs : list Z) : list Z :=
  match cs with
  | [] => []
  | c :: cs => if n <=? 0 then [] else c :: take_chars (n - 1) cs
  end.

Definition truncate_end_chars_with_ellipsis (content : bytes) (max_chars : Z) : bytes :=
  if len (chars content) <=? max_chars then content
  else encode_all (take_chars (saturating_sub max_chars 3) (chars content)) ++ str_bytes "...".

Definition trim_and_truncate_end_chars_with_ellipsis (content : bytes) (max_chars : Z) : bytes :=
  let trimmed := trim_str content in
  if len (chars trimmed) <=? max_chars then trimmed
  else encode_all (take_chars max_chars (chars trimmed)) ++ str_bytes "...".

(** * Policies *)

Inductive TruncationPolicy := PolicyBytes (n : u64) | PolicyTokens (n : u64).

Definition token_budget (policy : TruncationPolicy) : Z :=
  match policy with
  | PolicyBytes n => approx_tokens_from_byte_count (val n)
  | PolicyTokens n => val n
  end.

Definition byte_budget (policy : TruncationPolicy) : Z :=
  match policy with
  | PolicyBytes n => val n
  | PolicyTokens n => approx_bytes_for_tokens (val n)
  end.

(** [f64]: 53 bits of precision. *)
Definition f64_of_usize (n : Z) : spec_float := binary_normalize 53 1024 n 0 false.
Definition f64_mul : spec_float -> spec_float -> spec_float := SFmul 53 1024.

(** [.ceil() as usize], which saturates and takes a NaN to zero. *)
Definition ceil_as_usize (x : spec_float) : Z :=
  match x with
  | S754_finite false m e =>
      Z.min USIZE_MAX (if 0 <=? e then Z.pos m * 2 ^ e else (Z.pos m + 2 ^ (- e) - 1) / 2 ^ (- e))
  | S754_infinity false => USIZE_MAX
  | _ => 0
  end.

Definition policy_mul (policy : TruncationPolicy) (multiplier : spec_float) : TruncationPolicy :=
  match policy with
  | PolicyBytes n => PolicyBytes (u64_of (ceil_as_usize (f64_mul (f64_of_usize (val n)) multiplier)))
  | PolicyTokens n => PolicyTokens (u64_of (ceil_as_usize (f64_mul (f64_of_usize (val n)) multiplier)))
  end.

Definition truncate_text (content : bytes) (policy : TruncationPolicy) : bytes :=
  match policy with
  | PolicyBytes n => truncate_middle_chars content (val n)
  | PolicyTokens n => fst (truncate_middle_with_token_budget content (val n))
  end.

(** [content.lines().count()] *)
Definition lines_count (content : bytes) : Z :=
  len (List.filter (fun b => bool_decide (b = x0a)) content)
  + match list.last content with Some b => if bool_decide (b = x0a) then 0 else 1 | None => 0 end.

Definition formatted_truncate_text (content : bytes) (policy : TruncationPolicy) : bytes :=
  if len content <=? byte_budget policy then content
  else
    str_bytes "Total output lines: " ++ dec_text (lines_count content) ++ NEWLINE ++ NEWLINE ++ truncate_text content policy.

(** * Items of outputs *)

Inductive ImageDetail := DetailAuto | DetailLow | DetailHigh | DetailOriginal.

Inductive FunctionCallOutputContentItem :=
  | OutputInputText (text : bytes)
  | OutputInputImage (image_url : bytes) (detail : option ImageDetail).

(** The first loop: whether there is a text, and the length of them joined. *)
Fixpoint combined_len (items : list FunctionCallOutputContentItem) (has_text : bool) (combined : Z) : bool * Z :=
  match items with
  | [] => (has_text, combined)
  | OutputInputText text :: items =>
      combined_len items true
        (saturating_add (if combined =? 0 then combined else saturating_add combined 1) (len text))
  | OutputInputImage _ _ :: items => combined_len items has_text combined
  end.

Fixpoint combine_texts (items : list FunctionCallOutputContentItem) (combined : bytes) : bytes :=
  match items with
  | [] => combined
  | OutputInputText text :: items =>
      combine_texts items ((match combined with [] => [] | _ => combined ++ NEWLINE end) ++ text)
  | OutputInputImage _ _ :: items => combine_texts items combined
  end.

Definition image_only (item : FunctionCallOutputContentItem) : bool :=
  match item with OutputInputImage _ _ => true | OutputInputText _ => false end.

Definition formatted_truncate_owned_text_content_items_with_policy (items : list FunctionCallOutputContentItem)
    (policy : TruncationPolicy) : list FunctionCallOutputContentItem * option Z :=
  let (has_text, combined) := combined_len items false 0 in
  if negb has_text || (combined <=? byte_budget policy) then (items, None)
  else
    let combined := combine_texts items [] in
    (OutputInputText (formatted_truncate_text combined policy) :: List.filter image_only items,
     Some (approx_token_count combined)).

Definition text_cost (policy : TruncationPolicy) (text : bytes) : Z :=
  match policy with PolicyBytes _ => len text | PolicyTokens _ => approx_token_count text end.

Definition snippet_policy (policy : TruncationPolicy) (remaining_budget : Z) : TruncationPolicy :=
  match policy with
  | PolicyBytes _ => PolicyBytes (u64_of remaining_budget)
  | PolicyTokens _ => PolicyTokens (u64_of remaining_budget)
  end.

(** The loop over the items: what is put out, and how many texts are omitted. *)
Fixpoint truncate_items_loop (policy : TruncationPolicy) (items : list FunctionCallOutputContentItem)
    (remaining_budget omitted : Z) : list FunctionCallOutputContentItem * Z :=
  match items with
  | [] => ([], omitted)
  | OutputInputText text :: items =>
      if remaining_budget =? 0 then truncate_items_loop policy items remaining_budget (omitted + 1)
      else
        let cost := text_cost policy text in
        if cost <=? remaining_budget then
          let (out, omitted) := truncate_items_loop policy items (saturating_sub remaining_budget cost) omitted in
          (OutputInputText text :: out, omitted)
        else
          match truncate_text text (snippet_policy policy remaining_budget) with
          | [] => truncate_items_loop policy items 0 (omitted + 1)
          | snippet =>
              let (out, omitted) := truncate_items_loop policy items 0 omitted in
              (OutputInputText snippet :: out, omitted)
          end
  | OutputInputImage image_url detail :: items =>
      let (out, omitted) := truncate_items_loop policy items remaining_budget omitted in
      (OutputInputImage image_url detail :: out, omitted)
  end.

Definition initial_budget (policy : TruncationPolicy) : Z :=
  match policy with PolicyBytes _ => byte_budget policy | PolicyTokens _ => token_budget policy end.

Definition truncate_function_output_items_with_policy (items : list FunctionCallOutputContentItem)
    (policy : TruncationPolicy) : list FunctionCallOutputContentItem :=
  let (out, omitted) := truncate_items_loop policy items (initial_budget policy) 0 in
  if 0 <? omitted then
    out ++ [OutputInputText (str_bytes "[omitted " ++ dec_text omitted ++ str_bytes " text items ...]")]
  else out.

(** * Sizes of characters *)

Lemma scalar_width c : scalar c -> (1 <= len_utf8 c <= 4)%nat.
Proof.
  intros Hc. pose proof (is_char_nonempty _ _ Hc). unfold len_utf8. split; [lia|].
  unfold encode_utf8. repeat case_match; cbn; lia.
Qed.

Lemma length_encode_all_cons c cs : length (encode_all (c :: cs)) = (len_utf8 c + length (encode_all cs))%nat.
Proof. by rewrite encode_all_cons, length_app. Qed.

Lemma length_encode_all_app cs ds :
  length (encode_all (cs ++ ds)) = (length (encode_all cs) + length (encode_all ds))%nat.
Proof. by rewrite encode_all_app, length_app. Qed.

Lemma length_encode_all_bound cs : Forall scalar cs -> (length cs <= length (encode_all cs))%nat.
Proof.
  induction 1 as [|c cs Hc _ IH]; [done|]. rewrite length_encode_all_cons. cbn. pose proof (scalar_width c Hc). lia.
Qed.

(** * The longest prefix within a budget, and the characters that start before a limit *)

Fixpoint fit_prefix (budget : Z) (cs : list Z) : list Z :=
  match cs with
  | [] => []
  | c :: cs => if Z.of_nat (len_utf8 c) <=? budget then c :: fit_prefix (budget - Z.of_nat (len_utf8 c)) cs else []
  end.

Fixpoint fit_rest (budget : Z) (cs : list Z) : list Z :=
  match cs with
  | [] => []
  | c :: cs' => if Z.of_nat (len_utf8 c) <=? budget then fit_rest (budget - Z.of_nat (len_utf8 c)) cs' else cs
  end.

Fixpoint started (limit : Z) (cs : list Z) : list Z :=
  match cs with
  | [] => []
  | c :: cs => if 0 <? limit then c :: started (limit - Z.of_nat (len_utf8 c)) cs else []
  end.

Fixpoint not_started (limit : Z) (cs : list Z) : list Z :=
  match cs with
  | [] => []
  | c :: cs' => if 0 <? limit then not_started (limit - Z.of_nat (len_utf8 c)) cs' else cs
  end.

Lemma fit_split budget cs : fit_prefix budget cs ++ fit_rest budget cs = cs.
Proof. revert budget. induction cs as [|c cs IH]; intros; cbn; [done|]. case_match; cbn; by rewrite ?IH. Qed.

Lemma started_split limit cs : started limit cs ++ not_started limit cs = cs.
Proof. revert limit. induction cs as [|c cs IH]; intros; cbn; [done|]. case_match; cbn; by rewrite ?IH. Qed.

Lemma fit_prefix_size budget cs : 0 <= budget -> len (encode_all (fit_prefix budget cs)) <= budget.
Proof.
  revert budget. induction cs as [|c cs IH]; intros budget Hb; cbn [fit_prefix]; [done|].
  destruct (Z.leb_spec (Z.of_nat (len_utf8 c)) budget); [|done].
  rewrite length_encode_all_cons. specialize (IH (budget - Z.of_nat (len_utf8 c))). lia.
Qed.

Lemma fit_rest_head budget cs c rest :
  fit_rest budget cs = c :: rest -> budget < len (encode_all (fit_prefix budget cs)) + Z.of_nat (len_utf8 c).
Proof.
  revert budget. induction cs as [|c' cs IH]; intros budget; cbn [fit_prefix fit_rest]; [done|].
  destruct (Z.leb_spec (Z.of_nat (len_utf8 c')) budget); intros E.
  - rewrite length_encode_all_cons. apply IH in E. lia.
  - injection E as -> ->. cbn. lia.
Qed.

Lemma fit_prefix_all budget cs : len (encode_all cs) <= budget -> fit_prefix budget cs = cs /\ fit_rest budget cs = [].
Proof.
  revert budget. induction cs as [|c cs IH]; intros budget; cbn [fit_prefix fit_rest]; [done|].
  rewrite length_encode_all_cons. intros Hb. destruct (Z.leb_spec (Z.of_nat (len_utf8 c)) budget); [|lia].
  destruct (IH (budget - Z.of_nat (len_utf8 c))) as [-> ->]; [lia|done].
Qed.

Lemma not_started_start limit cs :
  not_started limit cs <> [] -> limit <= len (encode_all (started limit cs)).
Proof.
  revert limit. induction cs as [|c cs IH]; intros limit; cbn [started not_started]; [done|].
  destruct (Z.ltb_spec 0 limit); [|cbn; lia]. rewrite length_encode_all_cons. intros Hne. apply IH in Hne. lia.
Qed.

Lemma started_last limit cs before c : started limit cs = before ++ [c] -> len (encode_all before) < limit.
Proof.
  revert limit before. induction cs as [|c' cs IH]; intros limit before; cbn [started]; [by destruct before|].
  destruct (Z.ltb_spec 0 limit); [|by destruct before]. destruct before as [|b before]; cbn [app]; intros [= <- E].
  - cbn. lia.
  - rewrite length_encode_all_cons. apply IH in E. lia.
Qed.

(** * The loop of [split_string] *)

Definition at_prefix (idx st : nat) (rem : Z) : Split :=
  {| sp_prefix_end := idx; sp_suffix_start := st; sp_removed := rem; sp_started := false |}.

Lemma split_loop_prefix b t idx cs st rem :
  split_loop b t idx cs (at_prefix idx st rem) =
  split_loop b t (idx + length (encode_all (fit_prefix (b - Z.of_nat idx) cs))) (fit_rest (b - Z.of_nat idx) cs)
    (at_prefix (idx + length (encode_all (fit_prefix (b - Z.of_nat idx) cs))) st rem).
Proof.
  revert idx. induction cs as [|c cs IH]; intros idx; cbn [fit_prefix fit_rest split_loop]; [by rewrite Nat.add_0_r|].
  destruct (Z.leb_spec (Z.of_nat (len_utf8 c)) (b - Z.of_nat idx)) as [Hle|Hgt].
  - unfold split_char. replace (Z.of_nat (idx + len_utf8 c) <=? b) with true by (symmetry; compare).
    rewrite length_encode_all_cons, Nat.add_assoc, <- (Z.sub_add_distr b), <- Nat2Z.inj_add. exact (IH (idx + len_utf8 c)%nat).
  - cbn [encode_all map concat length split_loop]. by rewrite Nat.add_0_r.
Qed.

(** Past the prefix: characters are removed until one starts in the tail. *)
Definition in_tail (p st : nat) (rem : Z) (post : list Z) (idx : nat) : Split :=
  {| sp_prefix_end := p; sp_suffix_start := match post with [] => st | _ => idx end; sp_removed := rem;
     sp_started := match post with [] => false | _ => true end |}.

Lemma split_loop_tail b t idx cs sp :
  sp_started sp = true -> b < Z.of_nat idx -> t <= Z.of_nat idx -> split_loop b t idx cs sp = sp.
Proof.
  intros Hs. revert idx. induction cs as [|c cs IH]; intros idx Hb Ht; cbn [split_loop]; [done|].
  unfold split_char. rewrite Hs, (proj2 (Z.leb_gt _ _)) by lia. rewrite (proj2 (Z.leb_le _ _)) by lia. apply IH; lia.
Qed.

Lemma split_loop_middle b t idx cs p st rem :
  Forall scalar cs -> 0 <= rem -> rem + len cs <= USIZE_MAX ->
  (forall c rest, cs = c :: rest -> b < Z.of_nat (idx + len_utf8 c)) ->
  split_loop b t idx cs (at_prefix p st rem) =
  let mid := started (t - Z.of_nat idx) cs in
  in_tail p st (rem + len mid) (not_started (t - Z.of_nat idx) cs) (idx + length (encode_all mid)).
Proof.
  intros Hcs. revert idx rem. induction Hcs as [|c cs Hc Hcs IH]; intros idx rem H0 Hrem Hb; cbv zeta.
  { cbn. unfold in_tail, at_prefix. f_equal. lia. }
  specialize (Hb c cs eq_refl). pose proof (scalar_width c Hc) as Hw. cbn [split_loop started not_started].
  unfold split_char at 1. rewrite (proj2 (Z.leb_gt _ _)) by lia.
  destruct (Z.ltb_spec 0 (t - Z.of_nat idx)) as [Hlt|Hge].
  - rewrite (proj2 (Z.leb_gt t _)) by lia. cbn [at_prefix sp_prefix_end sp_suffix_start sp_removed sp_started].
    cbn [length] in Hrem |- *.
    fold (at_prefix p st (saturating_add rem 1)). replace (saturating_add rem 1) with (rem + 1) by (unfold saturating_add; lia).
    rewrite IH; [|lia|lia|intros c' rest ->; inversion Hcs as [|? ? Hc' _]; pose proof (scalar_width _ Hc'); lia].
    cbv zeta. rewrite length_encode_all_cons, Nat.add_assoc, <- (Z.sub_add_distr t), <- Nat2Z.inj_add.
    unfold in_tail. f_equal. lia.
  - rewrite (proj2 (Z.leb_le t _)) by lia. cbn [at_prefix sp_prefix_end sp_suffix_start sp_removed sp_started].
    cbn [encode_all map concat length]. rewrite Nat.add_0_r, Z.add_0_r. by apply split_loop_tail; [|lia..].
Qed.

(** What [split_string] keeps of the characters [cs]: as many from the beginning
    and from the end as the budgets hold. *)
Record cut_of (cs : list Z) (b e : Z) (pre mid post : list Z) : Prop := {
  co_all : cs = pre ++ mid ++ post;
  co_pre : len (encode_all pre) <= b;
  co_more c rest : mid = c :: rest -> b < len (encode_all pre) + Z.of_nat (len_utf8 c);
  co_post : len (encode_all post) <= e;
  co_less rest c : mid = rest ++ [c] -> e < Z.of_nat (len_utf8 c) + len (encode_all post)
}.

Definition cut (cs : list Z) (b t : Z) : list Z * list Z * list Z :=
  let pre := fit_prefix b cs in
  let rest := fit_rest b cs in
  (pre, started (t - len (encode_all pre)) rest, not_started (t - len (encode_all pre)) rest).

Lemma cut_cut_of cs b e pre mid post :
  0 <= b -> 0 <= e -> cut cs b (saturating_sub (len (encode_all cs)) e) = (pre, mid, post) -> cut_of cs b e pre mid post.
Proof.
  intros Hb He [= <- <- <-]. set (t := saturating_sub _ _).
  pose proof (fit_split b cs) as Ef. pose proof (started_split (t - len (encode_all (fit_prefix b cs))) (fit_rest b cs)) as Es.
  assert (len (encode_all cs) = len (encode_all (fit_prefix b cs)) + len (encode_all (fit_rest b cs))) as El.
  { rewrite <- Ef at 1. rewrite length_encode_all_app. lia. }
  assert (forall a c, a ++ c = fit_rest b cs -> len (encode_all (fit_rest b cs)) = len (encode_all a) + len (encode_all c)) as Er.
  { intros a c <-. rewrite length_encode_all_app. lia. }
  pose proof (Er _ _ Es) as Er'. constructor.
  - by rewrite Es, Ef.
  - by apply fit_prefix_size.
  - intros c rest E. eapply (fit_rest_head b cs c). by rewrite <- Es, E.
  - destruct (decide (not_started (t - len (encode_all (fit_prefix b cs))) (fit_rest b cs) = [])) as [->|Hne]; [done|].
    apply not_started_start in Hne. unfold t, saturating_sub in *. lia.
  - intros rest c E. pose proof (started_last _ _ _ _ E) as Hl. rewrite E in Er'.
    rewrite length_encode_all_app in Er'. cbn [encode_all map concat] in Er'. rewrite app_nil_r in Er'. fold (len_utf8 c) in Er'.
    unfold t, saturating_sub in *. lia.
Qed.

Lemma split_string_cut s b e :
  utf8_valid s = true -> len s <= USIZE_MAX -> 0 <= b -> 0 <= e ->
  exists pre mid post, cut_of (chars s) b e pre mid post /\
    split_string s b e = (len mid, encode_all pre, encode_all post).
Proof.
  intros Hv Hmax Hb He. pose proof (encode_chars s Hv) as Es. pose proof (chars_scalar s Hv) as Hcs.
  destruct (cut (chars s) b (saturating_sub (len s) e)) as [[pre mid] post] eqn:Ec.
  rewrite <- Es in Ec at 2. pose proof (cut_cut_of _ _ _ _ _ _ Hb He Ec) as Hc. exists pre, mid, post. split; [done|].
  rewrite Es in Ec. destruct s as [|x s']; [injection Ec as <- <- <-; done|]. unfold split_string.
  set (s := x :: s') in *. clearbody s. set (t := saturating_sub (len s) e) in *.
  assert (len (chars s) <= len s) as Hn by (pose proof (length_encode_all_bound _ Hcs) as Hn; rewrite Es in Hn; lia).
  change {| sp_prefix_end := 0; sp_suffix_start := length s; sp_removed := 0; sp_started := false |} with (at_prefix 0 (length s) 0).
  rewrite split_loop_prefix, Z.sub_0_r. cbn [Z.of_nat Nat.add]. pose proof (fit_split b (chars s)) as Ef.
  unfold cut in Ec. injection Ec as Epre Emid Epost. rewrite Epre in *.
  rewrite split_loop_middle; [| |lia| |].
  - cbv zeta. rewrite Emid, Epost. cbn [in_tail sp_prefix_end sp_suffix_start sp_removed].
    assert (s = encode_all pre ++ encode_all mid ++ encode_all post) as Ecat.
    { by rewrite <- !encode_all_app, <- (co_all _ _ _ _ _ _ Hc), Es. }
    assert (length s = length (encode_all pre) + (length (encode_all mid) + length (encode_all post)))%nat as El.
    { by rewrite Ecat at 1; rewrite !length_app. }
    assert ((match post with [] => length s | _ => length (encode_all pre) + length (encode_all mid) end)
            = (length (encode_all pre) + length (encode_all mid)))%nat as ->.
    { destruct post; [|done]. cbn in El. lia. }
    rewrite (proj2 (Nat.ltb_ge _ _)) by lia. rewrite Ecat at 1 2. f_equal; [f_equal|].
    + by rewrite take_app_length.
    + rewrite app_assoc, <- length_app. by rewrite drop_app_length.
  - rewrite <- Ef in Hcs. by apply Forall_app in Hcs as [_ ?].
  - rewrite <- Ef, length_app in Hn. lia.
  - intros c rest E. pose proof (fit_rest_head b (chars s) c rest E) as Hh. rewrite Epre in Hh. lia.
Qed.

(** * Truncated texts *)

Lemma dec_width_fuel fuel z : (dec_width fuel z <= S fuel)%nat.
Proof. revert z. induction fuel as [|fuel IH]; intros z; cbn; [lia|]. case_match; [lia|]. specialize (IH (z / 10)). lia. Qed.

Lemma length_marker use_tokens n : len (format_truncation_marker use_tokens n) <= 44.
Proof.
  unfold format_truncation_marker, dec_text. rewrite !length_app, length_dec_digits.
  pose proof (dec_width_fuel 20 n). destruct use_tokens; cbn [length str_bytes]; vm_compute (length (str_bytes _)); lia.
Qed.

Definition removed_count (use_tokens : bool) (s mid : bytes) (max_bytes : Z) : Z :=
  if use_tokens then approx_tokens_from_byte_count (len s - max_bytes) else len (chars mid).

Lemma truncate_middle s max_bytes use_tokens :
  utf8_valid s = true -> len s <= USIZE_MAX -> 0 < max_bytes < len s ->
  exists before mid after,
    s = before ++ mid ++ after /\ mid <> [] /\
    utf8_valid before = true /\ utf8_valid mid = true /\ utf8_valid after = true /\
    len before <= max_bytes / 2 < len before + 4 /\
    len after <= max_bytes - max_bytes / 2 < len after + 4 /\
    truncate_with_byte_estimate s max_bytes use_tokens
      = before ++ format_truncation_marker use_tokens (removed_count use_tokens s mid max_bytes) ++ after.
Proof.
  intros Hv Hlen Hmax. pose proof (chars_scalar s Hv) as Hcs. pose proof (encode_chars s Hv) as Es.
  pose proof (Z.div_pos max_bytes 2). pose proof (Z.div_le_upper_bound max_bytes 2 max_bytes).
  destruct (split_string_cut s (max_bytes / 2) (max_bytes - max_bytes / 2)) as (pre & mid & post & Hc & Esp); [done..|lia|lia|].
  destruct Hc as [Eall Hpre Hmore Hpost Hless]. rewrite Eall in Hcs.
  apply Forall_app in Hcs as [Hspre Hcs]. apply Forall_app in Hcs as [Hsmid Hspost].
  assert (s = encode_all pre ++ encode_all mid ++ encode_all post) as Ecat by (by rewrite <- !encode_all_app, <- Eall).
  assert (len s = len (encode_all pre) + len (encode_all mid) + len (encode_all post)) as El.
  { rewrite Ecat at 1. rewrite !length_app. lia. }
  exists (encode_all pre), (encode_all mid), (encode_all post). split; [done|].
  assert (mid <> []) as Hne by (intros ->; cbn in El; lia).
  split. { intros E. apply Hne. rewrite <- (chars_encode mid Hsmid), E. done. }
  split; [by apply encode_all_valid|]. split; [by apply encode_all_valid|]. split; [by apply encode_all_valid|].
  split. { split; [done|]. destruct mid as [|c rest]; [done|]. specialize (Hmore c rest eq_refl).
    inversion Hsmid as [|? ? Hc _]. pose proof (scalar_width c Hc). lia. }
  split. { split; [done|]. destruct (list_snoc_cases mid) as [->|(rest & c & ->)]; [done|]. specialize (Hless rest c eq_refl).
    apply Forall_app in Hsmid as [_ Hc]. inversion Hc as [|? ? Hc' _]. pose proof (scalar_width c Hc'). lia. }
  unfold truncate_with_byte_estimate. destruct s as [|x s']; [cbn in Hmax; lia|]. set (s := x :: s') in *. clearbody s.
  rewrite (proj2 (Z.eqb_neq _ _)), (proj2 (Z.leb_gt _ _)) by lia. cbn [split_budget]. unfold split_budget.
  rewrite Esp. unfold assemble_truncated_output, removed_count, removed_units.
  replace (saturating_sub (len s) max_bytes) with (len s - max_bytes) by (unfold saturating_sub; lia).
  by rewrite (chars_encode mid Hsmid).
Qed.

(** * Prefixes *)

Lemma prefix_boundary_fit max_bytes cs idx :
  Forall scalar cs -> Z.of_nat idx <= max_bytes -> max_bytes < Z.of_nat idx + len (encode_all cs) ->
  forall end_, prefix_boundary max_bytes idx cs end_ = (idx + length (encode_all (fit_prefix (max_bytes - Z.of_nat idx) cs)))%nat.
Proof.
  intros Hcs. revert idx. induction Hcs as [|c cs Hc Hcs IH]; intros idx H1 H2 end_; cbn [prefix_boundary fit_prefix].
  { cbn in H2. lia. }
  rewrite (proj2 (Z.ltb_ge _ _)) by lia. rewrite length_encode_all_cons in H2. pose proof (scalar_width c Hc).
  destruct (Z.leb_spec (Z.of_nat (len_utf8 c)) (max_bytes - Z.of_nat idx)).
  - rewrite length_encode_all_cons, Nat.add_assoc, <- (Z.sub_add_distr max_bytes), <- Nat2Z.inj_add. apply IH; lia.
  - cbn [encode_all map concat length]. rewrite Nat.add_0_r. destruct cs as [|c' cs]; [done|]. cbn [prefix_boundary].
    by rewrite (proj2 (Z.ltb_lt _ _)) by lia.
Qed.

Lemma last_ok_fit maxb cs idx :
  Z.of_nat idx <= maxb -> last_ok_loop maxb idx cs idx = (idx + length (encode_all (fit_prefix (maxb - Z.of_nat idx) cs)))%nat.
Proof.
  revert idx. induction cs as [|c cs IH]; intros idx H1; cbn [last_ok_loop fit_prefix]; [by rewrite Nat.add_0_r|].
  destruct (Z.leb_spec (Z.of_nat (len_utf8 c)) (maxb - Z.of_nat idx)).
  - rewrite (proj2 (Z.ltb_ge _ _)) by lia. rewrite IH by lia.
    by rewrite length_encode_all_cons, Nat.add_assoc, <- (Z.sub_add_distr maxb), <- Nat2Z.inj_add.
  - rewrite (proj2 (Z.ltb_lt _ _)) by lia. cbn. by rewrite Nat.add_0_r.
Qed.

Lemma fit_last maxb cs start used :
  0 <= used <= maxb ->
  (length (encode_all cs) <= start)%nat ->
  last_bytes_loop maxb cs start used = (start - length (encode_all (fit_prefix (maxb - used) cs)))%nat.
Proof.
  revert start used. induction cs as [|c cs IH]; intros start used Hu Hs; cbn [last_bytes_loop fit_prefix]; [cbn; lia|].
  rewrite length_encode_all_cons in Hs. destruct (Z.leb_spec (Z.of_nat (len_utf8 c)) (maxb - used)).
  - rewrite (proj2 (Z.ltb_ge _ _)) by lia. rewrite IH by lia. rewrite length_encode_all_cons, <- Z.sub_add_distr. lia.
  - rewrite (proj2 (Z.ltb_lt _ _)) by lia. cbn. lia.
Qed.

Lemma take_encode_app cs ds : take (length (encode_all cs)) (encode_all (cs ++ ds)) = encode_all cs.
Proof. rewrite encode_all_app. apply take_app_length. Qed.

(** The ways to cut a prefix agree, and take as many characters as fit. *)
Lemma prefixes_fit s max_bytes :
  utf8_valid s = true -> 0 <= max_bytes < len s ->
  exists before c rest, s = before ++ encode_utf8 c ++ rest /\ utf8_valid before = true /\
    len before <= max_bytes < len before + Z.of_nat (len_utf8 c) /\
    take (utf8_prefix_boundary s max_bytes) s = before /\ take_bytes_at_char_boundary s max_bytes = before.
Proof.
  intros Hv Hm. pose proof (chars_scalar s Hv) as Hcs. pose proof (encode_chars s Hv) as Es.
  pose proof (fit_split max_bytes (chars s)) as Ef. pose proof (fit_prefix_size max_bytes (chars s) ltac:(lia)) as Hsize.
  destruct (fit_rest max_bytes (chars s)) as [|c rest] eqn:Er.
  { rewrite app_nil_r in Ef. rewrite Ef, Es in Hsize. lia. }
  assert (s = encode_all (fit_prefix max_bytes (chars s)) ++ encode_all (c :: rest)) as Ecat by (by rewrite <- encode_all_app, Ef, Es).
  exists (encode_all (fit_prefix max_bytes (chars s))), c, (encode_all rest). rewrite <- encode_all_cons. split; [done|].
  split. { apply encode_all_valid. rewrite <- Ef in Hcs. by apply Forall_app in Hcs as [? _]. }
  split. { split; [done|]. eapply fit_rest_head. exact Er. }
  assert (take (length (encode_all (fit_prefix max_bytes (chars s)))) s = encode_all (fit_prefix max_bytes (chars s))) as Et.
  { rewrite Ecat at 2. apply take_app_length. }
  unfold utf8_prefix_boundary, take_bytes_at_char_boundary. rewrite (proj2 (Z.leb_gt _ _)) by lia. split.
  - rewrite prefix_boundary_fit; [|done|lia|rewrite Es; lia]. cbn [Z.of_nat Nat.add]. by rewrite Z.sub_0_r.
  - rewrite last_ok_fit by lia. cbn [Z.of_nat Nat.add]. by rewrite Z.sub_0_r.
Qed.
