(* ===== verification/History.v ===== *)
(** The history a session keeps and shows to its model (core:
    context_manager/history.rs, context_manager/normalize.rs; event_mapping.rs
    and contextual_user_message.rs, what of a message is context;
    instructions/fragment.rs; protocol: models.rs, token.rs): items in their
    order, calls paired with outputs, turns that can be rolled back.

    Texts are the bytes of well-formed UTF-8; identifiers, names and roles are
    [string]s, which are only compared. *)

From Stdlib Require Import Floats.SpecFloat.
From S2P Require Import Prelude Disk Text Truncation.

Open Scope string_scope.
Open Scope list_scope.
Open Scope Z_scope.

(** [serde_json::Value], and the fields of a [TurnContextItem] that nothing here
    reads. *)
Class HistoryTypes := { Json : Type; TurnContextRest : Type }.

Section History.
Context `{HistoryTypes}.

(** * Items *)

Inductive ContentItem :=
  | InputText (text : bytes)
  | InputImage (image_url : bytes)
  | OutputText (text : bytes).

Inductive MessagePhase := Commentary | FinalAnswerPhase.

Inductive ReasoningItemReasoningSummary := SummaryText (text : bytes).
Inductive ReasoningItemContent := ReasoningText (text : bytes) | ReasoningPlainText (text : bytes).

Inductive LocalShellStatus := ShellCompleted | ShellInProgress | ShellIncomplete.

Record LocalShellExecAction := {
  ls_command : list string;
  ls_timeout_ms : option u64;
  ls_working_directory : option string;
  ls_env : option (gmap string string);
  ls_user : option string
}.
Inductive LocalShellAction := ShellExec (action : LocalShellExecAction).

Inductive WebSearchAction :=
  | WebSearch (query : option string) (queries : option (list string))
  | WebOpenPage (url : option string)
  | WebFindInPage (url pattern : option string)
  | WebOther.

Inductive FunctionCallOutputBody :=
  | BodyText (text : bytes)
  | BodyContentItems (items : list FunctionCallOutputContentItem).

Record FunctionCallOutputPayload := { fo_body : FunctionCallOutputBody; fo_success : option bool }.

Definition from_text (content : bytes) : FunctionCallOutputPayload := {| fo_body := BodyText content; fo_success := None |}.

Record WorkspaceCheckpointRef := {
  wc_id : string;
  wc_workspace_root : string;
  wc_thread_id : option string;
  wc_turn_id : option string;
  wc_created_at_unix_ms : i64;
  wc_changed_file_count : u32
}.

Inductive ResponseItem :=
  | Message (id : option string) (role : string) (content : list ContentItem) (end_turn : option bool)
      (phase : option MessagePhase)
  | Reasoning (id : string) (summary : list ReasoningItemReasoningSummary) (content : option (list ReasoningItemContent))
      (encrypted_content : option bytes)
  | LocalShellCall (id call_id : option string) (status : LocalShellStatus) (action : LocalShellAction)
  | FunctionCall (id : option string) (provider_metadata : option Json) (name : string) (namespace : option string)
      (arguments : bytes) (call_id : string)
  | ToolSearchCall (id call_id status : option string) (execution : string) (arguments : Json)
  | FunctionCallOutput (call_id : string) (output : FunctionCallOutputPayload)
  | CustomToolCall (id status : option string) (call_id name : string) (input : bytes)
  | CustomToolCallOutput (call_id : string) (name : option string) (output : FunctionCallOutputPayload)
  | ToolSearchOutput (call_id : option string) (status execution : string) (tools : list Json)
  | WebSearchCall (id status : option string) (action : option WebSearchAction)
  | ImageGenerationCall (id status : string) (revised_prompt : option string) (result : bytes)
  | WorkspaceCheckpoint (checkpoint : WorkspaceCheckpointRef)
  | Compaction (encrypted_content : bytes)
  | OtherItem.

(** * What of a message is context *)

Definition to_ascii_lowercase (b : byte) : byte :=
  if in_range 65 91 (Z_of_byte b) then byte_of_Z (Z_of_byte b + 32) else b.

Definition eq_ignore_ascii_case (a b : bytes) : bool :=
  bool_decide (map to_ascii_lowercase a = map to_ascii_lowercase b).

(** [text.get(..n)] and [text.get(n..)] *)
Definition get_to (n : nat) (text : bytes) : option bytes :=
  if (n <=? length text)%nat && is_char_boundary text n then Some (take n text) else None.
Definition get_from (n : nat) (text : bytes) : option bytes :=
  if (n <=? length text)%nat && is_char_boundary text n then Some (drop n text) else None.

Definition is_some_and {A} (o : option A) (p : A -> bool) : bool := match o with Some a => p a | None => false end.

Definition trim_start_str (text : bytes) : bytes := encode_all (trim_start (chars text)).
Definition trim_end_str (text : bytes) : bytes := encode_all (rev (trim_start (rev (chars text)))).

Record ContextualUserFragmentDefinition := { fd_start_marker : bytes; fd_end_marker : bytes }.

Definition matches_text (definition : ContextualUserFragmentDefinition) (text : bytes) : bool :=
  let trimmed := trim_start_str text in
  let starts_with_marker :=
    is_some_and (get_to (length (fd_start_marker definition)) trimmed)
      (fun candidate => eq_ignore_ascii_case candidate (fd_start_marker definition)) in
  let trimmed := trim_end_str trimmed in
  let ends_with_marker :=
    is_some_and (get_from (length trimmed - length (fd_end_marker definition)) trimmed)
      (fun candidate => eq_ignore_ascii_case candidate (fd_end_marker definition)) in
  starts_with_marker && ends_with_marker.

Definition fragment (start_marker end_marker : string) : ContextualUserFragmentDefinition :=
  {| fd_start_marker := str_bytes start_marker; fd_end_marker := str_bytes end_marker |}.

Definition CONTEXTUAL_USER_FRAGMENTS : list ContextualUserFragmentDefinition :=
  [fragment "# AGENTS.md instructions for " "</INSTRUCTIONS>";
   fragment "<environment_context>" "</environment_context>";
   fragment "<skill>" "</skill>";
   fragment "<user_shell_command>" "</user_shell_command>";
   fragment "<turn_aborted>" "</turn_aborted>";
   fragment "<subagent_notification>" "</subagent_notification>";
   fragment "<praxis_runtime_recovery>" "</praxis_runtime_recovery>";
   fragment "<praxis_internal_context" "</praxis_internal_context>"].

Definition is_standard_contextual_user_text (text : bytes) : bool :=
  existsb (fun definition => matches_text definition text) CONTEXTUAL_USER_FRAGMENTS.

Definition CONTEXTUAL_DEVELOPER_PREFIXES : list bytes :=
  map str_bytes ["<permissions instructions>"; "<model_switch>"; "<collaboration_mode>"; "<realtime_conversation>";
                 "<personality_spec>"].

Definition is_contextual_dev_fragment (content_item : ContentItem) : bool :=
  match content_item with
  | InputText text =>
      let trimmed := trim_start_str text in
      existsb (fun prefix =>
        is_some_and (get_to (length prefix) trimmed) (fun candidate => eq_ignore_ascii_case candidate prefix))
        CONTEXTUAL_DEVELOPER_PREFIXES
  | _ => false
  end.

Definition is_contextual_dev_message_content (message : list ContentItem) : bool :=
  existsb is_contextual_dev_fragment message.

Definition has_non_contextual_dev_message_content (message : list ContentItem) : bool :=
  existsb (fun content_item => negb (is_contextual_dev_fragment content_item)) message.

(** * Boundaries of turns *)

Record InterAgentCommunication := {
  ia_author : string;
  ia_recipient : string;
  ia_other_recipients : list string;
  ia_content : bytes;
  ia_trigger_turn : bool
}.

(** What quick-xml reads of a [HookPromptXml], its text and its run, and what
    serde_json reads of an [InterAgentCommunication]. *)
Class HistoryCodecs := {
  from_hook_prompt_xml : bytes -> option (bytes * bytes);
  from_inter_agent_json : bytes -> option InterAgentCommunication
}.
Context `{HistoryCodecs}.

Record HookPromptFragment := { hp_text : bytes; hp_hook_run_id : bytes }.

Definition parse_hook_prompt_fragment (text : bytes) : option HookPromptFragment :=
  let trimmed := trim_str text in
  xml ← from_hook_prompt_xml trimmed;
  let (text, hook_run_id) := xml : bytes * bytes in
  match trim_str hook_run_id with
  | [] => None
  | _ => Some {| hp_text := text; hp_hook_run_id := hook_run_id |}
  end.

Definition is_contextual_user_fragment (content_item : ContentItem) : bool :=
  match content_item with
  | InputText text =>
      match parse_hook_prompt_fragment text with Some _ => true | None => is_standard_contextual_user_text text end
  | _ => false
  end.

Definition is_contextual_user_message_content (message : list ContentItem) : bool :=
  existsb is_contextual_user_fragment message.

Definition from_message_content (content : list ContentItem) : option InterAgentCommunication :=
  match content with
  | [InputText text] | [OutputText text] => from_inter_agent_json text
  | _ => None
  end.

Definition is_inter_agent_instruction_content (content : list ContentItem) : bool :=
  match from_message_content content with Some _ => true | None => false end.

Definition is_user_turn_boundary (item : ResponseItem) : bool :=
  match item with
  | Message _ role content _ _ =>
      (bool_decide (role = "user") && negb (is_contextual_user_message_content content))
      || (bool_decide (role = "assistant") && is_inter_agent_instruction_content content)
  | _ => false
  end.

(** Whether a user message only shows prompts of hooks, beside context. *)
Fixpoint parse_visible_hook_prompt_message (content : list ContentItem) (fragments : list HookPromptFragment)
    : option (list HookPromptFragment) :=
  match content with
  | [] => match fragments with [] => None | _ => Some fragments end
  | InputText text :: content =>
      match parse_hook_prompt_fragment text with
      | Some fragment => parse_visible_hook_prompt_message content (fragments ++ [fragment])
      | None =>
          if is_standard_contextual_user_text text then parse_visible_hook_prompt_message content fragments else None
      end
  | _ => None
  end.

(** Whether [parse_turn_item] makes a [TurnItem::UserMessage] of an item. *)
Definition is_real_user_message_boundary (item : ResponseItem) : bool :=
  match item with
  | Message _ role content _ _ =>
      bool_decide (role = "user")
      && match parse_visible_hook_prompt_message content [] with
         | Some _ => false
         | None => negb (is_contextual_user_message_content content)
         end
  | _ => false
  end.

Definition is_trigger_turn_boundary (item : ResponseItem) : bool :=
  match item with
  | Message _ role content _ _ =>
      (bool_decide (role = "assistant") || bool_decide (role = "user"))
      && is_some_and (from_message_content content) ia_trigger_turn
  | _ => false
  end.

Definition is_model_generated_item (item : ResponseItem) : bool :=
  match item with
  | Message _ role _ _ _ => bool_decide (role = "assistant")
  | Reasoning _ _ _ _ | FunctionCall _ _ _ _ _ _ | ToolSearchCall _ _ _ _ _ | WebSearchCall _ _ _
  | ImageGenerationCall _ _ _ _ | CustomToolCall _ _ _ _ _ | LocalShellCall _ _ _ _ | Compaction _ => true
  | FunctionCallOutput _ _ | ToolSearchOutput _ _ _ _ | CustomToolCallOutput _ _ _ | WorkspaceCheckpoint _ | OtherItem => false
  end.

Definition is_praxis_generated_item (item : ResponseItem) : bool :=
  match item with
  | FunctionCallOutput _ _ | ToolSearchOutput _ _ _ _ | CustomToolCallOutput _ _ _ => true
  | Message _ role _ _ _ => bool_decide (role = "developer")
  | _ => false
  end.

Definition is_api_message (message : ResponseItem) : bool :=
  match message with
  | Message _ role _ _ _ => negb (bool_decide (role = "system"))
  | FunctionCallOutput _ _ | FunctionCall _ _ _ _ _ _ | ToolSearchCall _ _ _ _ _ | ToolSearchOutput _ _ _ _
  | CustomToolCall _ _ _ _ _ | CustomToolCallOutput _ _ _ | LocalShellCall _ _ _ _ | Reasoning _ _ _ _
  | WebSearchCall _ _ _ | ImageGenerationCall _ _ _ _ | Compaction _ => true
  | WorkspaceCheckpoint _ | OtherItem => false
  end.

Definition is_workspace_checkpoint (item : ResponseItem) : bool :=
  match item with WorkspaceCheckpoint _ => true | _ => false end.

(** * Normalization *)

Definition tool_call_id (item : ResponseItem) : option string :=
  match item with
  | FunctionCall _ _ _ _ _ call_id | CustomToolCall _ _ call_id _ _ => Some call_id
  | LocalShellCall _ call_id _ _ => call_id
  | _ => None
  end.

Definition tool_output_call_id (item : ResponseItem) : option string :=
  match item with
  | FunctionCallOutput call_id _ | CustomToolCallOutput call_id _ _ => Some call_id
  | _ => None
  end.

Definition is_search_output_of (call_id : string) (item : ResponseItem) : bool :=
  match item with ToolSearchOutput (Some existing) _ _ _ => bool_decide (existing = call_id) | _ => false end.

Definition is_search_call_of (call_id : string) (item : ResponseItem) : bool :=
  match item with ToolSearchCall _ (Some existing) _ _ _ => bool_decide (existing = call_id) | _ => false end.

Definition is_output_of (call_id : string) (item : ResponseItem) : bool :=
  bool_decide (tool_output_call_id item = Some call_id).

Definition is_call_of (call_id : string) (item : ResponseItem) : bool :=
  bool_decide (tool_call_id item = Some call_id).

Definition aborted : FunctionCallOutputPayload := from_text (str_bytes "aborted").

(** The output that an item lacks among [items]. *)
Definition missing_output (items : list ResponseItem) (item : ResponseItem) : option ResponseItem :=
  match item with
  | FunctionCall _ _ _ _ _ call_id | LocalShellCall _ (Some call_id) _ _ =>
      if existsb (is_output_of call_id) items then None else Some (FunctionCallOutput call_id aborted)
  | ToolSearchCall _ (Some call_id) _ _ _ =>
      if existsb (is_search_output_of call_id) items then None
      else Some (ToolSearchOutput (Some call_id) "completed" "client" [])
  | CustomToolCall _ _ call_id _ _ =>
      if existsb (is_output_of call_id) items then None else Some (CustomToolCallOutput call_id None aborted)
  | _ => None
  end.

(** The loop that collects them with their positions. *)
Fixpoint missing_outputs (all : list ResponseItem) (idx : nat) (items : list ResponseItem) : list (nat * ResponseItem) :=
  match items with
  | [] => []
  | item :: items =>
      match missing_output all item with
      | Some output => (idx, output) :: missing_outputs all (S idx) items
      | None => missing_outputs all (S idx) items
      end
  end.

(** [Vec::insert] *)
Definition vec_insert {A} (at_ : nat) (a : A) (l : list A) : list A := take at_ l ++ a :: drop at_ l.

Definition ensure_call_outputs_present (items : list ResponseItem) : list ResponseItem :=
  fold_left (fun items '(idx, output_item) => vec_insert (idx + 1) output_item items)
    (rev (missing_outputs items 0 items)) items.

Definition search_call_id (item : ResponseItem) : option string :=
  match item with ToolSearchCall _ call_id _ _ _ => call_id | _ => None end.

(** Whether an output is kept, given the calls of the history. *)
Definition retained (tool_call_ids tool_search_call_ids : gset string) (item : ResponseItem) : bool :=
  match item with
  | FunctionCallOutput call_id _ | CustomToolCallOutput call_id _ _ => bool_decide (call_id ∈ tool_call_ids)
  | ToolSearchOutput call_id _ execution _ =>
      if bool_decide (execution = "server") then true
      else match call_id with Some call_id => bool_decide (call_id ∈ tool_search_call_ids) | None => true end
  | _ => true
  end.

Definition remove_orphan_outputs (items : list ResponseItem) : list ResponseItem :=
  let tool_call_ids : gset string := list_to_set (omap tool_call_id items) in
  let tool_search_call_ids : gset string := list_to_set (omap search_call_id items) in
  List.filter (retained tool_call_ids tool_search_call_ids) items.

(** [position] and [remove] *)
Fixpoint remove_first_matching (predicate : ResponseItem -> bool) (items : list ResponseItem) : list ResponseItem :=
  match items with
  | [] => []
  | item :: items => if predicate item then items else item :: remove_first_matching predicate items
  end.

Definition remove_corresponding_for (items : list ResponseItem) (item : ResponseItem) : list ResponseItem :=
  match item with
  | FunctionCall _ _ _ _ _ call_id | CustomToolCall _ _ call_id _ _ | LocalShellCall _ (Some call_id) _ _ =>
      remove_first_matching (is_output_of call_id) items
  | FunctionCallOutput call_id _ | CustomToolCallOutput call_id _ _ => remove_first_matching (is_call_of call_id) items
  | ToolSearchCall _ (Some call_id) _ _ _ => remove_first_matching (is_search_output_of call_id) items
  | ToolSearchOutput (Some call_id) _ _ _ => remove_first_matching (is_search_call_of call_id) items
  | _ => items
  end.

Definition IMAGE_CONTENT_OMITTED_PLACEHOLDER : bytes := str_bytes "image content omitted because you do not support image input".

Inductive InputModality := ModalityText | ModalityImage.
#[export] Instance InputModality_eq_dec : EqDecision InputModality.
Proof. solve_decision. Defined.

Definition strip_output (output : FunctionCallOutputPayload) : FunctionCallOutputPayload :=
  {| fo_body := match fo_body output with
                | BodyText text => BodyText text
                | BodyContentItems items =>
                    BodyContentItems (map (fun content_item =>
                      match content_item with
                      | OutputInputImage _ _ => OutputInputText IMAGE_CONTENT_OMITTED_PLACEHOLDER
                      | _ => content_item
                      end) items)
                end;
     fo_success := fo_success output |}.

Definition strip_item (item : ResponseItem) : ResponseItem :=
  match item with
  | Message id role content end_turn phase =>
      Message id role (map (fun content_item =>
        match content_item with InputImage _ => InputText IMAGE_CONTENT_OMITTED_PLACEHOLDER | _ => content_item end) content)
        end_turn phase
  | FunctionCallOutput call_id output => FunctionCallOutput call_id (strip_output output)
  | CustomToolCallOutput call_id name output => CustomToolCallOutput call_id name (strip_output output)
  | ImageGenerationCall id status revised_prompt _ => ImageGenerationCall id status revised_prompt []
  | _ => item
  end.

Definition strip_images_when_unsupported (input_modalities : list InputModality) (items : list ResponseItem)
    : list ResponseItem :=
  if bool_decide (ModalityImage ∈ input_modalities) then items else map strip_item items.

(** * Usage of tokens

    Sums of [+=] wrap, as they do in release builds. *)

Definition i64_add (x y : i64) : i64 := i64_of (val x + val y).
Definition i64_saturating_sub (x y : i64) : i64 :=
  i64_of (Z.max (- 2 ^ 63) (Z.min (2 ^ 63 - 1) (val x - val y))).
Definition i64_zero : i64 := i64_of 0.

(** [i64::try_from(n).unwrap_or(i64::MAX)] of a [usize] *)
Definition i64_of_usize (n : Z) : i64 := i64_of (Z.min (2 ^ 63 - 1) n).

Record TokenUsage := {
  input_tokens : i64;
  cached_input_tokens : i64;
  cache_reported_input_tokens : i64;
  output_tokens : i64;
  reasoning_output_tokens : i64;
  total_tokens : i64
}.

Definition TokenUsage_default : TokenUsage :=
  {| input_tokens := i64_zero; cached_input_tokens := i64_zero; cache_reported_input_tokens := i64_zero;
     output_tokens := i64_zero; reasoning_output_tokens := i64_zero; total_tokens := i64_zero |}.

Definition add_assign (self other : TokenUsage) : TokenUsage :=
  {| input_tokens := i64_add (input_tokens self) (input_tokens other);
     cached_input_tokens := i64_add (cached_input_tokens self) (cached_input_tokens other);
     cache_reported_input_tokens := i64_add (cache_reported_input_tokens self) (cache_reported_input_tokens other);
     output_tokens := i64_add (output_tokens self) (output_tokens other);
     reasoning_output_tokens := i64_add (reasoning_output_tokens self) (reasoning_output_tokens other);
     total_tokens := i64_add (total_tokens self) (total_tokens other) |}.

Definition tokens_in_context_window (self : TokenUsage) : i64 :=
  let input_tokens := Z.max 0 (val (input_tokens self)) in
  if 0 <? input_tokens then i64_of input_tokens else i64_of (Z.max 0 (val (total_tokens self))).

Inductive TokenSavingKind :=
  | OutputRepetition | OutputDelta | ArtifactProjection | UnchangedResource | SearchDelta | ToolSchemaElision
  | WorkingStateProjection | ToolOutputProjection.

Record TokenSavingCategoryUsage := {
  sc_kind : TokenSavingKind;
  sc_total_saved_tokens : i64;
  sc_last_saved_tokens : i64;
  sc_occurrences : i64
}.

Record TokenSavingsInfo := {
  total_saved_tokens : i64;
  last_saved_tokens : i64;
  categories : list TokenSavingCategoryUsage
}.

Definition TokenSavingsInfo_default : TokenSavingsInfo :=
  {| total_saved_tokens := i64_zero; last_saved_tokens := i64_zero; categories := [] |}.

#[export] Instance TokenSavingKind_eq_dec : EqDecision TokenSavingKind.
Proof. solve_decision. Defined.

Record TokenSavingEvent := {
  se_kind : TokenSavingKind;
  se_original_tokens : i64;
  se_sent_tokens : i64;
  se_reversible : bool;
  se_reference : option bytes
}.

Definition saving_event_new (kind : TokenSavingKind) (original_tokens sent_tokens : i64) (reversible : bool)
    (reference : option bytes) : TokenSavingEvent :=
  {| se_kind := kind; se_original_tokens := i64_of (Z.max 0 (val original_tokens));
     se_sent_tokens := i64_of (Z.max 0 (val sent_tokens)); se_reversible := reversible; se_reference := reference |}.

Definition saved_tokens (event : TokenSavingEvent) : i64 :=
  i64_of (Z.max 0 (val (i64_saturating_sub (se_original_tokens event) (se_sent_tokens event)))).

(** [iter_mut().find], and the change of the usage of its kind *)
Fixpoint update_category (kind : TokenSavingKind) (saved_tokens : i64) (categories : list TokenSavingCategoryUsage)
    : list TokenSavingCategoryUsage :=
  match categories with
  | [] => [{| sc_kind := kind; sc_total_saved_tokens := saved_tokens; sc_last_saved_tokens := saved_tokens;
              sc_occurrences := i64_of 1 |}]
  | category :: categories =>
      if bool_decide (sc_kind category = kind) then
        {| sc_kind := sc_kind category;
           sc_total_saved_tokens := i64_saturating_add (sc_total_saved_tokens category) saved_tokens;
           sc_last_saved_tokens := saved_tokens;
           sc_occurrences := i64_saturating_add (sc_occurrences category) (i64_of 1) |} :: categories
      else category :: update_category kind saved_tokens categories
  end.

Definition record_event (event : TokenSavingEvent) (info : TokenSavingsInfo) : TokenSavingsInfo :=
  let saved_tokens := saved_tokens event in
  if negb (se_reversible event) || (val saved_tokens =? 0) then info
  else {| total_saved_tokens := i64_saturating_add (total_saved_tokens info) saved_tokens;
          last_saved_tokens := saved_tokens;
          categories := update_category (se_kind event) saved_tokens (categories info) |}.

Definition record_savings (saved_tokens : i64) (info : TokenSavingsInfo) : TokenSavingsInfo :=
  record_event (saving_event_new ToolOutputProjection saved_tokens i64_zero true None) info.

Record TokenUsageInfo := {
  total_token_usage : TokenUsage;
  last_token_usage : TokenUsage;
  internal_savings : TokenSavingsInfo;
  model_context_window : option i64;
  model_auto_compact_token_limit : option i64
}.

Definition append_last_usage (last : TokenUsage) (info : TokenUsageInfo) : TokenUsageInfo :=
  {| total_token_usage := add_assign (total_token_usage info) last;
     last_token_usage := last;
     internal_savings := internal_savings info;
     model_context_window := model_context_window info;
     model_auto_compact_token_limit := model_auto_compact_token_limit info |}.

Definition new_or_append (info : option TokenUsageInfo) (last : option TokenUsage) (context_window auto_compact_limit : option i64)
    : option TokenUsageInfo :=
  match info, last with
  | None, None => None
  | _, _ =>
      let info := default {| total_token_usage := TokenUsage_default; last_token_usage := TokenUsage_default;
                             internal_savings := TokenSavingsInfo_default; model_context_window := context_window;
                             model_auto_compact_token_limit := auto_compact_limit |} info in
      let info := match last with Some last => append_last_usage last info | None => info end in
      Some {| total_token_usage := total_token_usage info;
              last_token_usage := last_token_usage info;
              internal_savings := internal_savings info;
              model_context_window :=
                match context_window with Some _ => context_window | None => model_context_window info end;
              model_auto_compact_token_limit :=
                match auto_compact_limit with Some _ => auto_compact_limit | None => model_auto_compact_token_limit info end |}
  end.

Definition fill_to_context_window (context_window : i64) (info : TokenUsageInfo) : TokenUsageInfo :=
  {| total_token_usage := total_token_usage info;
     last_token_usage :=
       {| input_tokens := context_window; cached_input_tokens := i64_zero; cache_reported_input_tokens := i64_zero;
          output_tokens := i64_zero; reasoning_output_tokens := i64_zero; total_tokens := context_window |};
     internal_savings := internal_savings info;
     model_context_window := Some context_window;
     model_auto_compact_token_limit := model_auto_compact_token_limit info |}.

Definition full_context_window (context_window : i64) : TokenUsageInfo :=
  fill_to_context_window context_window
    {| total_token_usage := TokenUsage_default; last_token_usage := TokenUsage_default;
       internal_savings := TokenSavingsInfo_default; model_context_window := Some context_window;
       model_auto_compact_token_limit := None |}.

(** * The context manager *)

Record TurnContextItem := {
  tc_turn_id : option string;
  tc_model : string;
  tc_realtime_active : option bool;
  tc_rest : TurnContextRest
}.

Record ContextManager := {
  cm_items : list ResponseItem;
  cm_token_info : option TokenUsageInfo;
  cm_reference_context_item : option TurnContextItem
}.

Definition ContextManager_new : ContextManager :=
  {| cm_items := []; cm_token_info := new_or_append None None None None; cm_reference_context_item := None |}.

Definition set_token_info (info : option TokenUsageInfo) (cm : ContextManager) : ContextManager :=
  {| cm_items := cm_items cm; cm_token_info := info; cm_reference_context_item := cm_reference_context_item cm |}.

Definition set_reference_context_item (item : option TurnContextItem) (cm : ContextManager) : ContextManager :=
  {| cm_items := cm_items cm; cm_token_info := cm_token_info cm; cm_reference_context_item := item |}.

Definition replace (items : list ResponseItem) (cm : ContextManager) : ContextManager :=
  {| cm_items := items; cm_token_info := cm_token_info cm; cm_reference_context_item := cm_reference_context_item cm |}.

Definition set_token_usage_full (context_window : i64) (cm : ContextManager) : ContextManager :=
  match cm_token_info cm with
  | Some info => set_token_info (Some (fill_to_context_window context_window info)) cm
  | None => set_token_info (Some (full_context_window context_window)) cm
  end.

Definition update_token_info (usage : TokenUsage) (context_window auto_compact_limit : option i64) (cm : ContextManager)
    : ContextManager :=
  set_token_info (new_or_append (cm_token_info cm) (Some usage) context_window auto_compact_limit) cm.

Definition truncate_function_output_payload (output : FunctionCallOutputPayload) (policy : TruncationPolicy)
    : FunctionCallOutputPayload :=
  {| fo_body := match fo_body output with
                | BodyText content => BodyText (truncate_text content policy)
                | BodyContentItems items => BodyContentItems (truncate_function_output_items_with_policy items policy)
                end;
     fo_success := fo_success output |}.

(** [policy * 1.2] *)
Definition SERIALIZATION_BUDGET : spec_float := S754_finite false 5404319552844595 (-52).

Definition process_item (item : ResponseItem) (policy : TruncationPolicy) : ResponseItem :=
  let policy_with_serialization_budget := policy_mul policy SERIALIZATION_BUDGET in
  match item with
  | FunctionCallOutput call_id output =>
      FunctionCallOutput call_id (truncate_function_output_payload output policy_with_serialization_budget)
  | CustomToolCallOutput call_id name output =>
      CustomToolCallOutput call_id name (truncate_function_output_payload output policy_with_serialization_budget)
  | _ => item
  end.

Fixpoint record_items (items : list ResponseItem) (policy : TruncationPolicy) (cm : ContextManager) : ContextManager :=
  match items with
  | [] => cm
  | item :: items =>
      if negb (is_api_message item) && negb (is_workspace_checkpoint item) then record_items items policy cm
      else record_items items policy (replace (cm_items cm ++ [process_item item policy]) cm)
  end.

Definition normalize_history (input_modalities : list InputModality) (items : list ResponseItem) : list ResponseItem :=
  strip_images_when_unsupported input_modalities (remove_orphan_outputs (ensure_call_outputs_present items)).

Definition for_prompt (input_modalities : list InputModality) (cm : ContextManager) : list ResponseItem :=
  List.filter (fun item => negb (is_workspace_checkpoint item)) (normalize_history input_modalities (cm_items cm)).

Definition clone_message_items (cm : ContextManager) : list ResponseItem :=
  List.filter (fun item => match item with Message _ _ _ _ _ => true | _ => false end) (cm_items cm).

Definition user_turn_count (cm : ContextManager) : nat := length (List.filter is_user_turn_boundary (cm_items cm)).

(** [pop] *)
Definition remove_last_item (cm : ContextManager) : bool * ContextManager :=
  match rev (cm_items cm) with
  | removed :: items => (true, replace (remove_corresponding_for (rev items) removed) cm)
  | [] => (false, cm)
  end.

(** The places, from [idx] on, of the items that satisfy a predicate. *)
Fixpoint positions (predicate : ResponseItem -> bool) (idx : nat) (items : list ResponseItem) : list nat :=
  match items with
  | [] => []
  | item :: items =>
      if predicate item then idx :: positions predicate (S idx) items else positions predicate (S idx) items
  end.

Fixpoint trim_pre_turn_context_updates (items : list ResponseItem) (first_instruction_turn_idx cut_idx : nat)
    (clear_reference_context : bool) : nat * bool :=
  match cut_idx with
  | O => (O, clear_reference_context)
  | S idx =>
      if (first_instruction_turn_idx <? S idx)%nat then
        match items !! idx with
        | Some (Message _ role content _ _) =>
            if bool_decide (role = "developer") && is_contextual_dev_message_content content then
              trim_pre_turn_context_updates items first_instruction_turn_idx idx
                (if has_non_contextual_dev_message_content content then true else clear_reference_context)
            else if bool_decide (role = "user") && is_contextual_user_message_content content then
              trim_pre_turn_context_updates items first_instruction_turn_idx idx clear_reference_context
            else (S idx, clear_reference_context)
        | _ => (S idx, clear_reference_context)
        end
      else (S idx, clear_reference_context)
  end.

Definition drop_last_n_user_turns (num_turns : u32) (cm : ContextManager) : ContextManager :=
  if val num_turns =? 0 then cm
  else
    let user_turns := positions is_user_turn_boundary 0 (cm_items cm) in
    match user_turns with
    | [] => cm
    | first_instruction_turn_idx :: _ =>
        let n_from_end := Z.to_nat (val num_turns) in
        let cut_idx := default first_instruction_turn_idx (rev user_turns !! (n_from_end - 1)%nat) in
        let (cut_idx, clear_reference_context) :=
          trim_pre_turn_context_updates (cm_items cm) first_instruction_turn_idx cut_idx false in
        let cm := if clear_reference_context then set_reference_context_item None cm else cm in
        replace (take cut_idx (cm_items cm)) cm
    end.

(** * Estimates of what the model sees *)

(** The length of an item's JSON, where serde_json can write it, what base64 decodes,
    and the width and height the image crate reads. *)
Class HistoryEstimates := {
  item_json_length : ResponseItem -> option nat;
  base64_decode : bytes -> option bytes;
  load_image_size : bytes -> option (u32 * u32)
}.
Context `{HistoryEstimates}.

Definition estimate_reasoning_length (encoded_len : Z) : Z := saturating_sub (saturating_mul encoded_len 3 / 4) 650.

Definition RESIZED_IMAGE_BYTES_ESTIMATE : i64 := i64_of 7373.
Definition ORIGINAL_IMAGE_PATCH_SIZE : Z := 32.

Fixpoint find_byte (b : byte) (text : bytes) : option nat :=
  match text with
  | [] => None
  | c :: text => if bool_decide (c = b) then Some O else S <$> find_byte b text
  end.

(** [str::split] at one ASCII byte *)
Fixpoint split_byte (b : byte) (text : bytes) : list bytes :=
  match text with
  | [] => [[]]
  | c :: text =>
      match split_byte b text with
      | part :: parts => if bool_decide (c = b) then [] :: part :: parts else (c :: part) :: parts
      | [] => [[c]]
      end
  end.

Definition starts_ignoring_case (prefix text : bytes) : bool :=
  is_some_and (get_to (length prefix) text) (fun candidate => eq_ignore_ascii_case candidate prefix).

Definition parse_base64_image_data_url (url : bytes) : option bytes :=
  if negb (starts_ignoring_case (str_bytes "data:") url) then None
  else
    comma_index ← find_byte x2c url;
    let metadata := take comma_index url in
    let payload := drop (comma_index + 1) url in
    let metadata_parts := split_byte x3b (drop 5 metadata) in
    let mime_type := default [] (head metadata_parts) in
    let has_base64_marker := existsb (fun part => eq_ignore_ascii_case part (str_bytes "base64")) (tail metadata_parts) in
    if negb (starts_ignoring_case (str_bytes "image/") mime_type) then None
    else if negb has_base64_marker then None
    else Some payload.

(** Widths and heights are [u32]s, so that the sums and products do not saturate
    before [2 ^ 63]; the cache keeps what this function gives. *)
Definition estimate_original_image_bytes (image_url : bytes) : option i64 :=
  payload ← parse_base64_image_data_url image_url;
  data ← base64_decode payload;
  size ← load_image_size data;
  let (width, height) := size : u32 * u32 in
  let patches_wide := (val width + (ORIGINAL_IMAGE_PATCH_SIZE - 1)) / ORIGINAL_IMAGE_PATCH_SIZE in
  let patches_high := (val height + (ORIGINAL_IMAGE_PATCH_SIZE - 1)) / ORIGINAL_IMAGE_PATCH_SIZE in
  Some (i64_of_usize (approx_bytes_for_tokens (patches_wide * patches_high))).

Definition accumulate (image_url : bytes) (detail : option ImageDetail) (sums : i64 * i64) : i64 * i64 :=
  let (payload_bytes, replacement_bytes) := sums in
  match parse_base64_image_data_url image_url with
  | Some payload =>
      (i64_saturating_add payload_bytes (i64_of_usize (Z.of_nat (length payload))),
       i64_saturating_add replacement_bytes
         match detail with
         | Some DetailOriginal => default RESIZED_IMAGE_BYTES_ESTIMATE (estimate_original_image_bytes image_url)
         | _ => RESIZED_IMAGE_BYTES_ESTIMATE
         end)
  | None => sums
  end.

Definition image_data_url_estimate_adjustment (item : ResponseItem) : i64 * i64 :=
  match item with
  | Message _ _ content _ _ =>
      fold_left (fun sums content_item =>
        match content_item with InputImage image_url => accumulate image_url None sums | _ => sums end) content (i64_zero, i64_zero)
  | FunctionCallOutput _ output | CustomToolCallOutput _ _ output =>
      match fo_body output with
      | BodyContentItems items =>
          fold_left (fun sums content_item =>
            match content_item with
            | OutputInputImage image_url detail => accumulate image_url detail sums
            | _ => sums
            end) items (i64_zero, i64_zero)
      | BodyText _ => (i64_zero, i64_zero)
      end
  | _ => (i64_zero, i64_zero)
  end.

Definition estimate_response_item_model_visible_bytes (item : ResponseItem) : i64 :=
  match item with
  | WorkspaceCheckpoint _ => i64_zero
  | Reasoning _ _ _ (Some content) | Compaction content =>
      i64_of_usize (estimate_reasoning_length (Z.of_nat (length content)))
  | _ =>
      let raw := match item_json_length item with Some len => i64_of_usize (Z.of_nat len) | None => i64_zero end in
      let (payload_bytes, replacement_bytes) := image_data_url_estimate_adjustment item in
      if (val payload_bytes =? 0) || (val replacement_bytes =? 0) then raw
      else i64_saturating_add (i64_saturating_sub raw payload_bytes) replacement_bytes
  end.

Definition estimate_item_token_count (item : ResponseItem) : i64 :=
  i64_of (approx_tokens_from_byte_count_i64 (val (estimate_response_item_model_visible_bytes item))).

Definition sum_saturating (counts : list i64) : i64 := fold_left i64_saturating_add counts i64_zero.

Definition estimate_token_count_with_base_instructions (base_instructions : bytes) (cm : ContextManager) : option i64 :=
  let base_tokens := i64_of_usize (approx_token_count base_instructions) in
  let items_tokens := sum_saturating (map estimate_item_token_count (cm_items cm)) in
  Some (i64_saturating_add base_tokens items_tokens).

Definition get_non_last_reasoning_items_tokens (cm : ContextManager) : i64 :=
  match list.last (positions is_user_turn_boundary 0 (cm_items cm)) with
  | None => i64_zero
  | Some last_user_index =>
      sum_saturating (map estimate_item_token_count
        (List.filter (fun item => match item with Reasoning _ _ _ (Some _) => true | _ => false end)
          (take last_user_index (cm_items cm))))
  end.

Definition items_after_last_model_generated_item (cm : ContextManager) : list ResponseItem :=
  let start :=
    match list.last (positions is_model_generated_item 0 (cm_items cm)) with
    | Some index => (index + 1)%nat
    | None => length (cm_items cm)
    end in
  drop start (cm_items cm).

Definition get_total_token_usage (server_reasoning_included : bool) (cm : ContextManager) : i64 :=
  let last_tokens :=
    match cm_token_info cm with Some info => tokens_in_context_window (last_token_usage info) | None => i64_zero end in
  let items_after_last_model_generated_tokens :=
    sum_saturating (map estimate_item_token_count (items_after_last_model_generated_item cm)) in
  if server_reasoning_included then i64_saturating_add last_tokens items_after_last_model_generated_tokens
  else i64_saturating_add (i64_saturating_add last_tokens (get_non_last_reasoning_items_tokens cm))
         items_after_last_model_generated_tokens.

End History.
