(* ===== verification/HistoryFacts.v ===== *)
(** What holds of a session's history: calls and outputs pair up in what the model
    sees, and rolling turns back cuts at their boundaries. *)

From S2P Require Import Prelude Disk Text Truncation History.

Open Scope list_scope.
Open Scope nat_scope.

Section HistoryFacts.
Context `{HistoryTypes}.

(** * Missing outputs *)

(** An item with the output it lacks right behind it. *)
Definition answered_by (all : list ResponseItem) (item : ResponseItem) : list ResponseItem :=
  item :: option_list (missing_output all item).

Lemma insert_missing all (pre items : list ResponseItem) :
  fold_left (fun items '(idx, output_item) => vec_insert (idx + 1) output_item items)
    (rev (missing_outputs all (length pre) items)) (pre ++ items)
  = pre ++ flat_map (answered_by all) items.
Proof.
  revert pre. induction items as [|item items IH]; intros pre; simpl; [done|].
  specialize (IH (pre ++ [item])). rewrite length_app, Nat.add_1_r, <- !app_assoc in IH. simpl in IH.
  unfold answered_by at 1. destruct (missing_output all item) as [output|]; simpl; [|exact IH].
  rewrite fold_left_app, IH. simpl. unfold vec_insert.
  replace (length pre + 1) with (length (pre ++ [item])) by (rewrite length_app; simpl; lia).
  set (rest := flat_map _ items). assert (E : pre ++ item :: rest = (pre ++ [item]) ++ rest) by by rewrite <- app_assoc.
  rewrite E, take_app_length, drop_app_length, <- !app_assoc. done.
Qed.

Lemma ensure_flat items : ensure_call_outputs_present items = flat_map (answered_by items) items.
Proof. apply (insert_missing items [] items). Qed.

Lemma elem_of_ensure items item :
  item ∈ ensure_call_outputs_present items ↔
  item ∈ items ∨ ∃ call, call ∈ items ∧ missing_output items call = Some item.
Proof.
  rewrite ensure_flat, list_elem_of_In, in_flat_map. setoid_rewrite <- list_elem_of_In. split.
  - intros (call & Hin & Hitem). unfold answered_by in Hitem. apply elem_of_cons in Hitem as [->|Hitem]; [by left|].
    right. exists call. destruct (missing_output items call); simpl in Hitem; [|by apply elem_of_nil in Hitem].
    apply list_elem_of_singleton in Hitem as ->. done.
  - intros [Hin|(call & Hin & E)].
    + exists item. split; [done|]. unfold answered_by. apply elem_of_cons. by left.
    + exists call. split; [done|]. unfold answered_by. rewrite E. set_solver.
Qed.

(** What an item that is put in can be. *)
Lemma missing_output_is items call output :
  missing_output items call = Some output ->
  tool_call_id output = None /\ search_call_id output = None /\ is_workspace_checkpoint output = false /\
  (∀ id, tool_call_id call = Some id -> tool_output_call_id output = Some id) /\
  (∀ id, search_call_id call = Some id -> is_search_output_of id output = true).
Proof.
  destruct call; simpl; try done; repeat case_match; intros [= <-]; subst; simpl; split_and!; try done;
    intros i [= <-]; try done; by apply bool_decide_eq_true.
Qed.

Definition has_output (items : list ResponseItem) (item : ResponseItem) : Prop :=
  (∀ id, tool_call_id item = Some id -> existsb (is_output_of id) items = true) /\
  (∀ id, search_call_id item = Some id -> existsb (is_search_output_of id) items = true).

Definition client_search_output (item : ResponseItem) : option string :=
  match item with
  | ToolSearchOutput call_id _ execution _ => if bool_decide (execution = "server"%string) then None else call_id
  | _ => None
  end.

Definition has_call (items : list ResponseItem) (item : ResponseItem) : Prop :=
  (∀ id, tool_output_call_id item = Some id -> existsb (is_call_of id) items = true) /\
  (∀ id, client_search_output item = Some id -> existsb (is_search_call_of id) items = true).

Lemma missing_output_None items item : missing_output items item = None ↔ has_output items item.
Proof.
  unfold has_output. split.
  - intros E. destruct item; simpl in *; repeat case_match; simplify_eq; split; intros i [= <-]; done.
  - intros [H1 H2]. destruct item; simpl in *; repeat case_match; simplify_eq; try done;
      first [specialize (H1 _ eq_refl) | specialize (H2 _ eq_refl)]; congruence.
Qed.

Lemma existsb_elem {A} (p : A -> bool) l : existsb p l = true ↔ ∃ a, a ∈ l ∧ p a = true.
Proof. rewrite existsb_exists. by setoid_rewrite list_elem_of_In. Qed.

Lemma existsb_mono {A} (p : A -> bool) l l' :
  (∀ a, a ∈ l -> p a = true -> a ∈ l') -> existsb p l = true -> existsb p l' = true.
Proof. rewrite !existsb_elem. intros Hsub (a & Hin & Ha). by eauto. Qed.

Lemma has_output_mono l l' item :
  (∀ out, out ∈ l -> is_workspace_checkpoint out = false -> tool_call_id out = None -> out ∈ l') ->
  has_output l item -> has_output l' item.
Proof.
  intros Hsub [H1 H2]. split; intros i E.
  - refine (existsb_mono _ _ _ _ (H1 i E)). intros out Hin Hp. apply bool_decide_eq_true in Hp.
    apply Hsub; [done|by destruct out|by destruct out].
  - refine (existsb_mono _ _ _ _ (H2 i E)). intros out Hin Hp. apply Hsub; [done|by destruct out|by destruct out].
Qed.

Lemma ensure_answers items : Forall (has_output (ensure_call_outputs_present items)) (ensure_call_outputs_present items).
Proof.
  apply list.Forall_forall. intros item Hin.
  apply elem_of_ensure in Hin as [Hin|(call & _ & E)].
  - destruct (missing_output items item) as [output|] eqn:E.
    + pose proof E as E'. apply missing_output_is in E' as (_ & _ & _ & H1 & H2).
      assert (Hout : output ∈ ensure_call_outputs_present items) by (apply elem_of_ensure; eauto).
      split; intros i Ei; apply existsb_elem; exists output; split; [done| |done|by auto].
      apply bool_decide_eq_true. by auto.
    + apply missing_output_None in E. revert E. apply has_output_mono. intros out ? _ _. apply elem_of_ensure. by left.
  - apply missing_output_is in E as (E1 & E2 & _). split; intros i; congruence.
Qed.

(** * Orphans *)

Lemma retained_has_call items item :
  retained (list_to_set (omap tool_call_id items)) (list_to_set (omap search_call_id items)) item = true ↔
  has_call items item.
Proof.
  assert (Ht : ∀ i, i ∈ (list_to_set (omap tool_call_id items) : gset string) ↔ existsb (is_call_of i) items = true).
  { intros i. rewrite elem_of_list_to_set, list_elem_of_omap, existsb_elem. unfold is_call_of.
    by setoid_rewrite bool_decide_eq_true. }
  assert (Hs : ∀ i, i ∈ (list_to_set (omap search_call_id items) : gset string)
                    ↔ existsb (is_search_call_of i) items = true).
  { intros i. rewrite elem_of_list_to_set, list_elem_of_omap, existsb_elem.
    split; intros (a & Ha & E); exists a; (split; [done|]); destruct a as [|? | | |? [?|]| | | | | | | | |]; simpl in *;
      try done; [injection E as ->; by apply bool_decide_eq_true|].
    apply bool_decide_eq_true in E. by subst. }
  unfold has_call. destruct item as [|? | | | |c ? | |c ? ? |[c|] ? ex ? | | | | |]; simpl;
    try (split; [intros _; split; by intros ?|done]).
  - rewrite bool_decide_eq_true, Ht. split; [|intros [H1 _]; by apply H1]. intros E. split; [intros i [= <-]; done|by intros ?].
  - rewrite bool_decide_eq_true, Ht. split; [|intros [H1 _]; by apply H1]. intros E. split; [intros i [= <-]; done|by intros ?].
  - case_bool_decide; [split; [intros _; split; by intros ?|done]|].
    rewrite bool_decide_eq_true, Hs. split; [|intros [_ H2]; by apply H2]. intros E. split; [by intros ?|intros i [= <-]; done].
  - split; [intros _; split; [by intros ?|]|by case_bool_decide]. intros i. by case_bool_decide.
Qed.

Lemma elem_of_remove_orphans items item :
  item ∈ remove_orphan_outputs items ↔ item ∈ items ∧ has_call items item.
Proof. unfold remove_orphan_outputs. by rewrite list_elem_of_In, List.filter_In, <- list_elem_of_In, retained_has_call. Qed.

(** Only outputs can be orphans. *)
Lemma others_have_calls items item :
  tool_output_call_id item = None -> client_search_output item = None -> has_call items item.
Proof. intros E1 E2. split; intros i; congruence. Qed.

Lemma call_is_no_output item :
  is_Some (tool_call_id item) \/ is_Some (search_call_id item) ->
  tool_output_call_id item = None /\ client_search_output item = None.
Proof. destruct item; simpl; intros [[? E]|[? E]]; done. Qed.

Lemma is_search_call_of_spec i item : is_search_call_of i item = true ↔ search_call_id item = Some i.
Proof.
  destruct item as [| | | |? [?|]| | | | | | | | |]; simpl; try (split; by intros ?).
  rewrite bool_decide_eq_true. split; [by intros ->|by intros [= ->]].
Qed.

Lemma has_call_mono l l' item :
  (∀ call, call ∈ l -> is_Some (tool_call_id call) \/ is_Some (search_call_id call) -> call ∈ l') ->
  has_call l item -> has_call l' item.
Proof.
  intros Hsub [H1 H2]. split; intros i E.
  - refine (existsb_mono _ _ _ _ (H1 i E)). intros call Hin Hp. apply bool_decide_eq_true in Hp.
    apply Hsub; [done|left; by eexists].
  - refine (existsb_mono _ _ _ _ (H2 i E)). intros call Hin Hp. apply is_search_call_of_spec in Hp.
    apply Hsub; [done|right; by eexists].
Qed.

Definition paired (items : list ResponseItem) : Prop := Forall (has_output items) items /\ Forall (has_call items) items.

Lemma remove_orphans_paired items :
  Forall (has_output items) items -> paired (remove_orphan_outputs items).
Proof.
  intros Hout. rewrite list.Forall_forall in Hout. split; apply list.Forall_forall; intros item Hin;
    apply elem_of_remove_orphans in Hin as [Hin Hcall].
  - destruct (Hout _ Hin) as [H1 H2]. split; intros i E.
    + specialize (H1 i E). apply existsb_elem in H1 as (out & Ho & Hp). apply existsb_elem. exists out. split; [|done].
      apply elem_of_remove_orphans. split; [done|]. apply bool_decide_eq_true in Hp.
      split; intros j Ej; [|by destruct out]. assert (j = i) as -> by congruence.
      apply existsb_elem. exists item. split; [done|]. by apply bool_decide_eq_true.
    + specialize (H2 i E). apply existsb_elem in H2 as (out & Ho & Hp). apply existsb_elem. exists out. split; [|done].
      apply elem_of_remove_orphans. split; [done|]. split; intros j Ej; [by destruct out|].
      apply existsb_elem. exists item. split; [done|]. apply is_search_call_of_spec.
      destruct out as [| | | | | | | |[c|] ? ? ?| | | | |]; simpl in *; try done.
      apply bool_decide_eq_true in Hp. case_bool_decide; congruence.
  - revert Hcall. apply has_call_mono. intros call Hc Hid. apply elem_of_remove_orphans. split; [done|].
    apply call_is_no_output in Hid as [E1 E2]. by apply others_have_calls.
Qed.

(** * What the model sees *)

(** A change of an item that leaves alone what it calls or answers. *)
Definition keeps_ids (f : ResponseItem -> ResponseItem) : Prop := ∀ item,
  tool_call_id (f item) = tool_call_id item /\ search_call_id (f item) = search_call_id item /\
  tool_output_call_id (f item) = tool_output_call_id item /\ client_search_output (f item) = client_search_output item /\
  (∀ i, is_search_output_of i (f item) = is_search_output_of i item) /\
  is_workspace_checkpoint (f item) = is_workspace_checkpoint item.

Lemma strip_keeps_ids : keeps_ids strip_item.
Proof. intros item. by destruct item. Qed.

Lemma existsb_map_same {A} (f : A -> A) p l : (∀ a, p (f a) = p a) -> existsb p (map f l) = existsb p l.
Proof. intros E. induction l as [|a l IH]; simpl; [done|]. by rewrite E, IH. Qed.

Lemma paired_map f items : keeps_ids f -> paired items -> paired (map f items).
Proof.
  intros Hf [Hout Hcall]. split.
  - apply List.Forall_map. revert Hout. apply Forall_impl. intros item [H1 H2]. split; intros i E.
    + rewrite existsb_map_same; [apply H1|]; [by rewrite <- (proj1 (Hf item))|].
      intros a. unfold is_output_of. by rewrite (proj1 (proj2 (proj2 (Hf a)))).
    + destruct (Hf item) as (_ & E2 & _). rewrite existsb_map_same; [apply H2; congruence|]. intros a. apply Hf.
  - apply List.Forall_map. revert Hcall. apply Forall_impl. intros item [H1 H2]. destruct (Hf item) as (_ & _ & E1 & E2 & _).
    split; intros i E.
    + rewrite existsb_map_same; [apply H1; congruence|]. intros a. unfold is_call_of. by rewrite (proj1 (Hf a)).
    + rewrite existsb_map_same; [apply H2; congruence|]. intros a. apply eq_true_iff_eq.
      by rewrite !is_search_call_of_spec, (proj1 (proj2 (Hf a))).
Qed.

Lemma strip_paired modalities items : paired items -> paired (strip_images_when_unsupported modalities items).
Proof. unfold strip_images_when_unsupported. case_bool_decide; [done|]. apply paired_map, strip_keeps_ids. Qed.

Definition without_checkpoints (items : list ResponseItem) : list ResponseItem :=
  List.filter (fun item => negb (is_workspace_checkpoint item)) items.

Lemma elem_of_without_checkpoints items item :
  item ∈ without_checkpoints items ↔ item ∈ items ∧ is_workspace_checkpoint item = false.
Proof. unfold without_checkpoints. by rewrite list_elem_of_In, List.filter_In, <- list_elem_of_In, negb_true_iff. Qed.

Lemma without_checkpoints_paired items : paired items -> paired (without_checkpoints items).
Proof.
  intros [Hout Hcall]. rewrite list.Forall_forall in Hout, Hcall. split; apply list.Forall_forall; intros item Hin;
    apply elem_of_without_checkpoints in Hin as [Hin _].
  - generalize (Hout _ Hin). apply has_output_mono. intros out ? ? _. by apply elem_of_without_checkpoints.
  - generalize (Hcall _ Hin). apply has_call_mono. intros call ? Hid. apply elem_of_without_checkpoints. split; [done|].
    by destruct call; simpl in Hid; destruct Hid as [[? ?]|[? ?]].
Qed.

Lemma normalize_paired modalities items : paired (normalize_history modalities items).
Proof. apply strip_paired, remove_orphans_paired, ensure_answers. Qed.

Lemma for_prompt_paired modalities cm : paired (for_prompt modalities cm).
Proof. apply without_checkpoints_paired, normalize_paired. Qed.

Lemma ensure_paired items : paired items -> ensure_call_outputs_present items = items.
Proof.
  intros [Hout _]. rewrite ensure_flat. unfold answered_by.
  assert (E : Forall (fun item => missing_output items item = None) items).
  { revert Hout. apply Forall_impl. intros item. apply missing_output_None. }
  clear Hout. revert E. generalize items at 1 3. intros all Hall.
  induction Hall as [|item items E _ IH]; simpl in *; [done|]. rewrite E, IH. done.
Qed.

Lemma filter_all {A} (p : A -> bool) l : Forall (fun a => p a = true) l -> List.filter p l = l.
Proof. induction 1 as [|a l E _ IH]; simpl; [done|]. by rewrite E, IH. Qed.

Lemma remove_orphans_of_paired items : paired items -> remove_orphan_outputs items = items.
Proof. intros [_ Hcall]. apply filter_all. revert Hcall. apply Forall_impl. intros item. apply retained_has_call. Qed.

Lemma strip_item_again item : strip_item (strip_item item) = strip_item item.
Proof.
  assert (Hc : ∀ content, let f := fun c => match c with InputImage _ => InputText IMAGE_CONTENT_OMITTED_PLACEHOLDER | _ => c end in
                 map f (map f content) = map f content).
  { intros content f. rewrite map_map. apply map_ext. intros c. by destruct c. }
  assert (Ho : ∀ output, strip_output (strip_output output) = strip_output output).
  { intros [body success]. unfold strip_output. simpl. f_equal. destruct body as [|items]; [done|]. f_equal.
    rewrite map_map. apply map_ext. intros c. by destruct c. }
  destruct item; simpl; rewrite ?Ho; try done. f_equal. apply Hc.
Qed.

(** Images are gone where the model takes none. *)
Definition strip_for (modalities : list InputModality) (item : ResponseItem) : ResponseItem :=
  if bool_decide (ModalityImage ∈ modalities) then item else strip_item item.

Lemma strip_is_map modalities items : strip_images_when_unsupported modalities items = map (strip_for modalities) items.
Proof. unfold strip_images_when_unsupported, strip_for. case_bool_decide; [by rewrite map_id|done]. Qed.

Lemma strip_for_keeps_ids modalities : keeps_ids (strip_for modalities).
Proof. unfold strip_for. case_bool_decide; [done|apply strip_keeps_ids]. Qed.

Lemma strip_for_again modalities item : strip_for modalities (strip_for modalities item) = strip_for modalities item.
Proof. unfold strip_for. case_bool_decide; [done|apply strip_item_again]. Qed.

Lemma without_checkpoints_map f items :
  keeps_ids f -> without_checkpoints (map f items) = map f (without_checkpoints items).
Proof.
  intros Hf. induction items as [|item items IH]; simpl; [done|].
  destruct (Hf item) as (_ & _ & _ & _ & _ & ->). by destruct (is_workspace_checkpoint item); simpl; rewrite IH.
Qed.

Lemma for_prompt_stable modalities cm : for_prompt modalities (replace (for_prompt modalities cm) cm) = for_prompt modalities cm.
Proof.
  unfold for_prompt at 1. simpl. unfold normalize_history.
  rewrite ensure_paired by apply for_prompt_paired. rewrite remove_orphans_of_paired by apply for_prompt_paired.
  fold (without_checkpoints (strip_images_when_unsupported modalities (for_prompt modalities cm))).
  unfold for_prompt, normalize_history. fold (without_checkpoints (strip_images_when_unsupported modalities
    (remove_orphan_outputs (ensure_call_outputs_present (cm_items cm))))).
  rewrite !strip_is_map, !without_checkpoints_map by apply strip_for_keeps_ids.
  rewrite map_map. rewrite (map_ext _ (strip_for modalities)) by apply strip_for_again.
  f_equal. apply filter_all. apply list.Forall_forall. intros item Hin. apply elem_of_without_checkpoints in Hin as [_ ->]. done.
Qed.

(** Everything but outputs and checkpoints stays, in its order. *)
(** The output of a search that names no call: a server's, or one without an id. *)
Definition is_free_search (item : ResponseItem) : bool :=
  match item with ToolSearchOutput _ _ _ _ => bool_decide (client_search_output item = None) | _ => false end.

Lemma free_searches_stay modalities cm item :
  item ∈ cm_items cm -> is_free_search item = true -> item ∈ for_prompt modalities cm.
Proof.
  intros Hin Hf. destruct item as [| | | | | | | |call_id status execution tools| | | | |]; try done.
  set (item := ToolSearchOutput call_id status execution tools) in *. apply bool_decide_eq_true in Hf.
  unfold for_prompt, normalize_history. apply elem_of_without_checkpoints. split; [|done].
  rewrite strip_is_map. apply list_elem_of_fmap. exists item. split; [unfold strip_for; by case_bool_decide|].
  apply elem_of_remove_orphans. split; [apply elem_of_ensure; by left|]. split; [done|]. intros id E. congruence.
Qed.

Definition is_tool_output (item : ResponseItem) : bool :=
  match item with FunctionCallOutput _ _ | CustomToolCallOutput _ _ _ | ToolSearchOutput _ _ _ _ => true | _ => false end.

Definition no_outputs (items : list ResponseItem) : list ResponseItem :=
  List.filter (fun item => negb (is_tool_output item)) items.

Lemma no_outputs_ensure items : no_outputs (ensure_call_outputs_present items) = no_outputs items.
Proof.
  rewrite ensure_flat. generalize items at 1. intros all. unfold no_outputs.
  induction items as [|item items IH]; simpl; [done|]. rewrite List.filter_app, IH.
  assert (E : List.filter (fun item => negb (is_tool_output item)) (option_list (missing_output all item)) = []).
  { destruct item; simpl; repeat case_match; done. }
  by destruct (is_tool_output item); simpl; rewrite E.
Qed.

Lemma no_outputs_orphans items : no_outputs (remove_orphan_outputs items) = no_outputs items.
Proof.
  unfold remove_orphan_outputs, no_outputs.
  generalize (list_to_set (omap tool_call_id items) : gset string) (list_to_set (omap search_call_id items) : gset string).
  intros calls searches. induction items as [|item items IH]; simpl; [done|].
  destruct (retained calls searches item) eqn:E; simpl; rewrite IH; [done|]. by destruct item.
Qed.

Lemma no_outputs_map modalities items : no_outputs (map (strip_for modalities) items) = map (strip_for modalities) (no_outputs items).
Proof.
  unfold no_outputs. induction items as [|item items IH]; simpl; [done|].
  replace (is_tool_output (strip_for modalities item)) with (is_tool_output item)
    by (unfold strip_for; case_bool_decide; [done|by destruct item]).
  by destruct (is_tool_output item); simpl; rewrite IH.
Qed.

Lemma filter_swap {A} (p q : A -> bool) l : List.filter p (List.filter q l) = List.filter q (List.filter p l).
Proof.
  induction l as [|a l IH]; simpl; [done|].
  destruct (p a) eqn:Ep, (q a) eqn:Eq; simpl; rewrite ?Ep, ?Eq, ?IH; done.
Qed.

Lemma for_prompt_keeps modalities cm :
  no_outputs (for_prompt modalities cm) = map (strip_for modalities) (without_checkpoints (no_outputs (cm_items cm))).
Proof.
  unfold for_prompt, normalize_history. fold (without_checkpoints (strip_images_when_unsupported modalities
    (remove_orphan_outputs (ensure_call_outputs_present (cm_items cm))))).
  rewrite strip_is_map, without_checkpoints_map by apply strip_for_keeps_ids. rewrite no_outputs_map. f_equal.
  unfold no_outputs at 1, without_checkpoints. rewrite filter_swap.
  fold (no_outputs (remove_orphan_outputs (ensure_call_outputs_present (cm_items cm)))).
  by rewrite no_outputs_orphans, no_outputs_ensure.
Qed.

(** * Turns that are rolled back *)

Context `{HistoryCodecs}.

(** What [trim_pre_turn_context_updates] goes over. *)
Definition is_context_update (item : ResponseItem) : bool :=
  match item with
  | Message _ role content _ _ =>
      (bool_decide (role = "developer"%string) && is_contextual_dev_message_content content)
      || (bool_decide (role = "user"%string) && is_contextual_user_message_content content)
  | _ => false
  end.

(** What makes it forget the baseline. *)
Definition is_mixed_bundle (item : ResponseItem) : bool :=
  match item with
  | Message _ role content _ _ =>
      bool_decide (role = "developer"%string) && is_contextual_dev_message_content content
      && has_non_contextual_dev_message_content content
  | _ => false
  end.

Lemma boundary_is_no_update item : is_user_turn_boundary item = true -> is_context_update item = false.
Proof.
  destruct item as [? role content| | | | | | | | | | | | |]; try done. unfold is_user_turn_boundary, is_context_update.
  repeat case_bool_decide; simplify_eq; simpl; by destruct (is_contextual_user_message_content content).
Qed.

Lemma trim_split pre rest first clear :
  first <= length pre ->
  ∃ kept trimmed,
    pre = kept ++ trimmed /\ first <= length kept /\
    trim_pre_turn_context_updates (pre ++ rest) first (length pre) clear
      = (length kept, clear || existsb is_mixed_bundle trimmed) /\
    Forall (fun item => is_context_update item = true) trimmed /\
    (length kept = first \/ ∃ kept' item, kept = kept' ++ [item] /\ is_context_update item = false).
Proof.
  revert rest clear. induction pre as [|item pre IH] using rev_ind; intros rest clear Hfirst.
  - exists [], []. simpl in *. rewrite orb_false_r. split_and!; try done; lia.
  - rewrite length_app, Nat.add_1_r in *. cbn [trim_pre_turn_context_updates length] in *.
    assert (Hdone : ∀ P : nat * bool, P = (S (length pre), clear) ->
      (first = S (length pre) \/ is_context_update item = false) ->
      ∃ kept trimmed, pre ++ [item] = kept ++ trimmed /\ first <= length kept /\
        P = (length kept, clear || existsb is_mixed_bundle trimmed) /\
        Forall (fun item => is_context_update item = true) trimmed /\
        (length kept = first \/ ∃ kept' item, kept = kept' ++ [item] /\ is_context_update item = false)).
    { intros P -> Hend. exists (pre ++ [item]), []. rewrite app_nil_r, length_app, orb_false_r, Nat.add_1_r.
      split_and!; try done. destruct Hend as [->|]; [by left|]. right. by eauto. }
    destruct (Nat.ltb_spec first (S (length pre))) as [Hlt|Hge]; [|apply Hdone; [done|left; lia]].
    rewrite <- app_assoc. change ([item] ++ rest) with (item :: rest). rewrite list_lookup_middle by done.
    destruct item as [i role content e ph| | | | | | | | | | | | |]; try (apply Hdone; [done|by right]).
    assert (Hrec : is_context_update (Message i role content e ph) = true -> ∀ clear',
      clear' = clear || is_mixed_bundle (Message i role content e ph) ->
      ∃ kept trimmed, pre ++ [Message i role content e ph] = kept ++ trimmed /\ first <= length kept /\
        trim_pre_turn_context_updates (pre ++ Message i role content e ph :: rest) first (length pre) clear'
          = (length kept, clear || existsb is_mixed_bundle trimmed) /\
        Forall (fun item => is_context_update item = true) trimmed /\
        (length kept = first \/ ∃ kept' item, kept = kept' ++ [item] /\ is_context_update item = false)).
    { intros Hc clear' ->. destruct (IH (Message i role content e ph :: rest)
        (clear || is_mixed_bundle (Message i role content e ph)) ltac:(lia)) as (kept & trimmed & Ep & Hk & -> & Hall & Hend).
      exists kept, (trimmed ++ [Message i role content e ph]). rewrite Ep, <- app_assoc. split_and!; try done.
      - f_equal. rewrite existsb_app. simpl. rewrite orb_false_r, <- orb_assoc. f_equal. apply orb_comm.
      - apply list.Forall_app. split; [done|]. by constructor. }
    unfold is_context_update, is_mixed_bundle in Hrec, Hdone.
    destruct (bool_decide (role = "developer"%string) && is_contextual_dev_message_content content) eqn:Edev.
    + apply Hrec; [done|]. destruct (has_non_contextual_dev_message_content content); simpl; by rewrite ?orb_true_r, ?orb_false_r.
    + destruct (bool_decide (role = "user"%string) && is_contextual_user_message_content content) eqn:Euser.
      * apply Hrec; [done|]. simpl. by rewrite orb_false_r.
      * apply Hdone; [done|by right].
Qed.

Definition user_turns (items : list ResponseItem) : nat := length (List.filter is_user_turn_boundary items).

Lemma user_turns_app l l' : user_turns (l ++ l') = user_turns l + user_turns l'.
Proof. unfold user_turns. by rewrite List.filter_app, length_app. Qed.

Lemma user_turns_cons item l : user_turns (item :: l) = (if is_user_turn_boundary item then 1 else 0) + user_turns l.
Proof. unfold user_turns. simpl. by destruct (is_user_turn_boundary item). Qed.

Lemma updates_no_turns l : Forall (fun item => is_context_update item = true) l -> user_turns l = 0.
Proof.
  induction 1 as [|item l E _ IH]; [done|]. rewrite user_turns_cons, IH.
  destruct (is_user_turn_boundary item) eqn:B; [|done]. apply boundary_is_no_update in B. congruence.
Qed.

Lemma positions_lookup p idx items k i :
  positions p idx items !! k = Some i ->
  ∃ pre item post, items = pre ++ item :: post /\ i = idx + length pre /\ p item = true /\ length (List.filter p pre) = k.
Proof.
  revert idx k. induction items as [|item items IH]; intros idx k E; simpl in E; [done|].
  destruct (p item) eqn:Ep.
  - destruct k as [|k]; simpl in E.
    + injection E as <-. exists [], item, items. split_and!; [done|simpl; lia|done|done].
    + destruct (IH _ _ E) as (pre & b & post & -> & -> & Hb & <-). exists (item :: pre), b, post.
      simpl. rewrite Ep. split_and!; [done|lia|done|done].
  - destruct (IH _ _ E) as (pre & b & post & -> & -> & Hb & <-). exists (item :: pre), b, post.
    simpl. rewrite Ep. split_and!; [done|lia|done|done].
Qed.

Lemma length_positions p idx items : length (positions p idx items) = length (List.filter p items).
Proof. revert idx. induction items as [|item items IH]; intros idx; simpl; [done|]. destruct (p item); simpl; by rewrite IH. Qed.

Lemma take_S_middle {A} (pre post : list A) a : take (S (length pre)) (pre ++ a :: post) = pre ++ [a].
Proof. induction pre as [|b pre IH]; simpl in *; [by rewrite take_0|]. by rewrite IH. Qed.

(** Where [drop_last_n_user_turns] cuts, before it trims. *)
Lemma cut_position n items first rest :
  0 < n -> positions is_user_turn_boundary 0 items = first :: rest ->
  ∃ pre item post,
    items = pre ++ item :: post /\ is_user_turn_boundary item = true /\
    default first (rev (first :: rest) !! (n - 1)) = length pre /\ first <= length pre /\
    user_turns (item :: post) = Nat.min n (user_turns items) /\
    user_turns (take first items) = 0 /\ (∃ b, items !! first = Some b /\ is_user_turn_boundary b = true).
Proof.
  intros Hn E. pose proof (length_positions is_user_turn_boundary 0 items) as Hlen. fold (user_turns items) in Hlen. rewrite E in Hlen. simpl in Hlen.
  assert (Hp0 : positions is_user_turn_boundary 0 items !! 0 = Some first) by by rewrite E.
  apply positions_lookup in Hp0 as (pre0 & b0 & post0 & E0 & -> & Hb0 & Hp0). simpl (0 + _) in *.
  assert (Hfirst : ∃ b, items !! length pre0 = Some b /\ is_user_turn_boundary b = true).
  { exists b0. split; [|done]. rewrite E0. by apply list_lookup_middle. }
  assert (Hbefore : user_turns (take (length pre0) items) = 0) by (rewrite E0, take_app_length; exact Hp0).
  destruct (rev (length pre0 :: rest) !! (n - 1)) as [cut|] eqn:Hcut.
  - pose proof (lookup_lt_Some _ _ _ Hcut) as Hlt. rewrite length_rev in Hlt.
    rewrite List.rev_alt in Hcut. fold (reverse (length pre0 :: rest)) in Hcut.
    apply reverse_lookup_Some in Hcut as [Hcut _]. rewrite <- E in Hcut.
    apply positions_lookup in Hcut as (pre & b & post & E1 & -> & Hb & Hp). simpl (0 + _).
    exists pre, b, post. split_and!; try done.
    + assert (Hle : user_turns pre0 = 0) by exact Hp0. destruct (decide (length pre0 <= length pre)) as [|Hgt]; [done|exfalso].
      assert (pre ++ [b] = take (S (length pre)) pre0) as Ht.
      { transitivity (take (S (length pre)) items).
        - rewrite E1. symmetry. apply take_S_middle.
        - rewrite E0, take_app_le by lia. done. }
      assert (Hz : user_turns (take (S (length pre)) pre0) = 0).
      { pose proof (user_turns_app (take (S (length pre)) pre0) (drop (S (length pre)) pre0)) as Hs. rewrite take_drop in Hs. lia. }
      rewrite <- Ht, user_turns_app, user_turns_cons, Hb in Hz. simpl in Hz. lia.
    + assert (Hsum : user_turns items = user_turns pre + user_turns (b :: post)) by (rewrite E1; apply user_turns_app).
      fold (user_turns pre) in Hp. rewrite E in Hp. simpl in Hp, Hlt. lia.
  - apply lookup_ge_None in Hcut. rewrite length_rev in Hcut. exists pre0, b0, post0. split_and!; try done.
    assert (Hsum : user_turns items = user_turns pre0 + user_turns (b0 :: post0)) by (rewrite E0 at 1; apply user_turns_app).
    fold (user_turns pre0) in Hp0. simpl in Hcut. lia.
Qed.

(** The parts of a history that is rolled back. *)
Lemma drop_decomposes (num_turns : u32) cm :
  val num_turns <> 0%Z -> 0 < user_turns (cm_items cm) ->
  ∃ kept trimmed dropped,
    cm_items cm = kept ++ trimmed ++ dropped /\
    cm_items (drop_last_n_user_turns num_turns cm) = kept /\
    cm_reference_context_item (drop_last_n_user_turns num_turns cm)
      = (if existsb is_mixed_bundle trimmed then None else cm_reference_context_item cm) /\
    cm_token_info (drop_last_n_user_turns num_turns cm) = cm_token_info cm /\
    user_turns dropped = Nat.min (Z.to_nat (val num_turns)) (user_turns (cm_items cm)) /\
    (∃ item post, dropped = item :: post /\ is_user_turn_boundary item = true) /\
    Forall (fun item => is_context_update item = true) trimmed /\
    ((user_turns kept = 0 /\ trimmed = [])
     \/ (0 < user_turns kept /\ ∃ kept' item, kept = kept' ++ [item] /\ is_context_update item = false)).
Proof.
  intros Hn Hturns. unfold drop_last_n_user_turns. rewrite (proj2 (Z.eqb_neq _ _) Hn).
  pose proof (length_positions is_user_turn_boundary 0 (cm_items cm)) as Hlen. fold (user_turns (cm_items cm)) in Hlen.
  destruct (positions is_user_turn_boundary 0 (cm_items cm)) as [|first rest] eqn:E; [simpl in Hlen; lia|].
  pose proof (val_bounds num_turns).
  destruct (cut_position (Z.to_nat (val num_turns)) (cm_items cm) first rest ltac:(lia) E)
    as (pre & item & post & Eitems & Hitem & -> & Hfirst & Hcount & Hbefore & (b & Hb & Hboundary)).
  destruct (trim_split pre (item :: post) first false Hfirst) as (kept & trimmed & -> & Hk & Etrim & Hall & Hend).
  rewrite <- Eitems in Etrim. rewrite Etrim. simpl. exists kept, trimmed, (item :: post).
  assert (Ekept : take (length kept) (cm_items cm) = kept) by by rewrite Eitems, <- app_assoc, take_app_length.
  split_and!.
  - by rewrite Eitems, <- app_assoc.
  - by destruct (existsb is_mixed_bundle trimmed); simpl.
  - by destruct (existsb is_mixed_bundle trimmed); simpl.
  - by destruct (existsb is_mixed_bundle trimmed); simpl.
  - done.
  - by eauto.
  - done.
  - destruct (decide (length kept = first)) as [Hf|Hf].
    + left. rewrite <- Hf in Hb, Hbefore. rewrite Ekept in Hbefore. split; [done|].
      destruct trimmed as [|t trimmed]; [done|exfalso]. rewrite Eitems, <- app_assoc in Hb.
      simpl in Hb. rewrite list_lookup_middle in Hb by done. injection Hb as ->.
      apply boundary_is_no_update in Hboundary. inversion Hall; subst. congruence.
    + right. destruct Hend as [?|Hend]; [done|]. split; [|done].
      rewrite Eitems, <- app_assoc, lookup_app_l in Hb by lia.
      apply list_elem_of_split_length in Hb as (l1 & l2 & -> & _). rewrite user_turns_app, user_turns_cons, Hboundary. lia.
Qed.

Lemma drop_nothing (num_turns : u32) cm :
  val num_turns = 0%Z \/ user_turns (cm_items cm) = 0 -> drop_last_n_user_turns num_turns cm = cm.
Proof.
  unfold drop_last_n_user_turns. case (Z.eqb_spec (val num_turns) 0); [done|]. intros Hn [?|Hz]; [done|].
  pose proof (length_positions is_user_turn_boundary 0 (cm_items cm)) as Hlen. fold (user_turns (cm_items cm)) in Hlen.
  destruct (positions is_user_turn_boundary 0 (cm_items cm)); [done|]. simpl in Hlen. lia.
Qed.

(** A reference: the items before the last [n] turns, without the updates that
    stood right before them. *)
Fixpoint before_turns (n : nat) (items : list ResponseItem) : list ResponseItem :=
  match items with
  | [] => []
  | item :: rest =>
      if is_user_turn_boundary item && (user_turns (item :: rest) <=? n) then [] else item :: before_turns n rest
  end.

Fixpoint drop_updates (items : list ResponseItem) : list ResponseItem :=
  match items with
  | item :: rest => if is_context_update item then drop_updates rest else items
  | [] => []
  end.

Definition rolled_back (n : nat) (items : list ResponseItem) : list ResponseItem :=
  let before := before_turns n items in
  if user_turns before =? 0 then before else rev (drop_updates (rev before)).

Lemma user_turns_before n items : user_turns (before_turns n items) = user_turns items - n.
Proof.
  induction items as [|item rest IH]; [done|]. cbn [before_turns]. rewrite !user_turns_cons.
  destruct (is_user_turn_boundary item) eqn:B; cbn [andb].
  - destruct (Nat.leb_spec (1 + user_turns rest) n) as [Hle|Hgt].
    + change (user_turns []) with 0. lia.
    + rewrite user_turns_cons, B, IH. lia.
  - by rewrite user_turns_cons, B, IH.
Qed.

Lemma before_turns_none n items : user_turns items = 0 -> before_turns n items = items.
Proof.
  induction items as [|item rest IH]; [done|]. rewrite user_turns_cons. cbn [before_turns].
  destruct (is_user_turn_boundary item); simpl; [lia|]. intros E. by rewrite IH.
Qed.

Lemma before_turns_again m n items : before_turns n (before_turns m items) = before_turns (m + n) items.
Proof.
  induction items as [|item rest IH]; [done|]. cbn [before_turns]. rewrite user_turns_cons.
  destruct (is_user_turn_boundary item) eqn:B; cbn [andb].
  - destruct (Nat.leb_spec (1 + user_turns rest) m).
    + destruct (Nat.leb_spec (1 + user_turns rest) (m + n)); [done|lia].
    + cbn [before_turns]. rewrite B, user_turns_cons, B, user_turns_before. cbn [andb].
      destruct (Nat.leb_spec (1 + (user_turns rest - m)) n), (Nat.leb_spec (1 + user_turns rest) (m + n)); try lia; [done|].
      by rewrite IH.
  - cbn [before_turns]. rewrite B. cbn [andb]. by rewrite IH.
Qed.

Lemma before_turns_cut n pre item post :
  is_user_turn_boundary item = true -> user_turns (item :: post) = Nat.min n (user_turns (pre ++ item :: post)) ->
  before_turns n (pre ++ item :: post) = pre.
Proof.
  intros B. induction pre as [|a pre IH]; intros E.
  - cbn [app before_turns] in *. rewrite B. cbn [andb]. destruct (Nat.leb_spec (user_turns (item :: post)) n); [done|lia].
  - simpl app in *. cbn [before_turns]. rewrite (user_turns_cons a), user_turns_app in E |- *. rewrite user_turns_app in IH.
    assert (0 < user_turns (item :: post)) by (rewrite user_turns_cons, B; lia).
    set (after := user_turns (item :: post)) in *. clearbody after. destruct (is_user_turn_boundary a); cbn [andb].
    + destruct (Nat.leb_spec (1 + (user_turns pre + after)) n); [lia|]. rewrite IH; [done|lia].
    + rewrite IH; [done|lia].
Qed.

Lemma before_turns_behind n l l' :
  0 < n -> 0 < user_turns l -> user_turns l' = 0 -> before_turns n (l ++ l') = before_turns n l.
Proof.
  intros Hn Hl Hl'. induction l as [|a l IH]; [unfold user_turns in Hl; simpl in Hl; lia|].
  cbn [app before_turns]. rewrite !user_turns_cons, user_turns_app, Hl', Nat.add_0_r in *.
  destruct (is_user_turn_boundary a) eqn:Ba; cbn [andb].
  - destruct (Nat.leb_spec (1 + user_turns l) n); [done|]. by rewrite IH by lia.
  - by rewrite IH by lia.
Qed.

Lemma drop_updates_split items : ∃ updates,
  items = rev (drop_updates (rev items)) ++ updates /\ Forall (fun item => is_context_update item = true) updates.
Proof.
  induction items as [|item items IH] using rev_ind; [by exists []|]. rewrite rev_app_distr. simpl.
  destruct (is_context_update item) eqn:E.
  - destruct IH as (updates & Eq & Hall). exists (updates ++ [item]). rewrite app_assoc, <- Eq. split; [done|].
    apply list.Forall_app. split; [done|]. by constructor.
  - exists []. simpl. rewrite rev_involutive, app_nil_r. by split.
Qed.

Lemma drop_updates_of kept updates :
  Forall (fun item => is_context_update item = true) updates ->
  (∃ kept' item, kept = kept' ++ [item] /\ is_context_update item = false) ->
  rev (drop_updates (rev (kept ++ updates))) = kept.
Proof.
  intros Hall (kept' & item & -> & E). rewrite rev_app_distr.
  assert (Hu : Forall (fun item => is_context_update item = true) (rev updates)) by (rewrite List.rev_alt; by apply Forall_reverse).
  assert (Ed : drop_updates (rev updates ++ rev (kept' ++ [item])) = drop_updates (rev (kept' ++ [item]))).
  { induction Hu as [|u us Eu _ IH]; simpl; [done|]. by rewrite Eu. }
  rewrite Ed, rev_app_distr. simpl. rewrite E. simpl. by rewrite rev_involutive.
Qed.

Lemma drop_is_rolled_back (num_turns : u32) cm :
  cm_items (drop_last_n_user_turns num_turns cm)
  = if (val num_turns =? 0)%Z then cm_items cm else rolled_back (Z.to_nat (val num_turns)) (cm_items cm).
Proof.
  case Z.eqb_spec; intros Hn; [by rewrite drop_nothing by (by left)|].
  destruct (decide (user_turns (cm_items cm) = 0)) as [Hz|Hz].
  - rewrite drop_nothing by by right. unfold rolled_back. by rewrite before_turns_none, Hz.
  - destruct (drop_decomposes num_turns cm Hn ltac:(lia))
      as (kept & trimmed & dropped & E & -> & _ & _ & Hcount & (item & post & -> & Hitem) & Hall & Hend).
    unfold rolled_back. rewrite E in Hcount |- *. rewrite app_assoc in Hcount |- *.
    rewrite before_turns_cut by done. rewrite user_turns_app, (updates_no_turns trimmed Hall), Nat.add_0_r.
    destruct Hend as [[Hk ->]|[Hk Hend]].
    + by rewrite Hk, app_nil_r.
    + destruct (Nat.eqb_spec (user_turns kept) 0); [lia|]. by rewrite drop_updates_of.
Qed.
Lemma rolled_back_again m n items : 0 < n -> rolled_back n (rolled_back m items) = rolled_back (m + n) items.
Proof.
  intros Hn. assert (E : before_turns n (rolled_back m items) = before_turns (m + n) items).
  { rewrite <- before_turns_again. unfold rolled_back.
    destruct (Nat.eqb_spec (user_turns (before_turns m items)) 0); [done|].
    destruct (drop_updates_split (before_turns m items)) as (updates & Es & Hall).
    pose proof (updates_no_turns _ Hall) as Hz. rewrite Es at 2. symmetry. apply before_turns_behind; [done| |done].
    rewrite Es, user_turns_app in n0. lia. }
  unfold rolled_back at 1. rewrite E. done.
Qed.

(** * What is recorded *)

Lemma record_items_are items policy cm :
  record_items items policy cm
  = replace (cm_items cm ++ map (fun item => process_item item policy)
                              (List.filter (fun item => is_api_message item || is_workspace_checkpoint item) items)) cm.
Proof.
  revert cm. induction items as [|item items IH]; intros cm; simpl; [by rewrite app_nil_r; destruct cm|].
  destruct (is_api_message item), (is_workspace_checkpoint item); simpl; rewrite IH; simpl; by rewrite <- ?app_assoc.
Qed.

End HistoryFacts.
