(* ===== verification/Resume.v ===== *)
(** How a session's history is rebuilt from its rollout, and what a fork keeps of
    it (core: praxis/rollout_reconstruction, initial_history,
    thread_rollout_truncation.rs, thread_manager/fork_snapshot and fork;
    protocol: rollout_history.rs, turn_lifecycle.rs).

    A rollout is scanned from its end for the newest compaction and for the
    settings of the last turn; the items after the compaction are then replayed.
    The definitions come first, then what holds of scans, positions and forks: the
    items that survive rollbacks, and the turns that a rollout leaves open. *)

From S2P Require Import Prelude Disk Text Truncation History HistoryFacts.

Open Scope string_scope.
Open Scope list_scope.
Open Scope Z_scope.

(** The events that nothing here looks into, the metadata of a session, why a turn
    was aborted, what a rollback restored, the limits of a plan, and the identity
    and the path of a resumed thread. *)
Class RolloutTypes := {
  OtherEventMsg : Type;
  SessionMetaLine : Type;
  TurnAbortReason : Type;
  Interrupted : TurnAbortReason;
  WorkspaceRestoreEvent : Type;
  RateLimitSnapshot : Type;
  ResumedFrom : Type
}.

Section Resume.
Context `{HistoryTypes} `{RolloutTypes}.

(** * Rollouts *)

Inductive NonSteerableTurnKind := KindReview | KindCompact.

Inductive PraxisErrorInfo :=
  | ContextWindowExceeded | UsageLimitExceeded | ServerOverloaded
  | HttpConnectionFailed (http_status_code : option u16)
  | ResponseStreamConnectionFailed (http_status_code : option u16)
  | InternalServerError | Unauthorized | BadRequest | SandboxError
  | ResponseStreamDisconnected (http_status_code : option u16)
  | ResponseTooManyFailedAttempts (http_status_code : option u16)
  | ActiveTurnNotSteerable (turn_kind : NonSteerableTurnKind)
  | ThreadRollbackFailed
  | OtherError.

Definition error_info_affects_turn_status (info : PraxisErrorInfo) : bool :=
  match info with ThreadRollbackFailed | ActiveTurnNotSteerable _ => false | _ => true end.

Inductive EventMsg :=
  | TurnStarted (turn_id : string)
  | TurnComplete (turn_id : string)
  | TurnAborted (turn_id : option string) (reason : TurnAbortReason)
  | ThreadRolledBack (num_turns : u32) (workspace_restore : option WorkspaceRestoreEvent)
  | UserMessage (message : bytes)
  | ErrorMsg (message : bytes) (praxis_error_info : option PraxisErrorInfo)
  | TokenCount (info : option TokenUsageInfo) (rate_limits : option RateLimitSnapshot)
  | OtherEvent (event : OtherEventMsg).

Definition affects_turn_status (praxis_error_info : option PraxisErrorInfo) : bool :=
  match praxis_error_info with Some info => error_info_affects_turn_status info | None => true end.

Record CompactedItem := { ci_message : bytes; ci_replacement_history : option (list ResponseItem) }.

Inductive RolloutItem :=
  | SessionMeta (meta : SessionMetaLine)
  | RolloutResponse (item : ResponseItem)
  | Compacted (compacted : CompactedItem)
  | RolloutTurnContext (ctx : TurnContextItem)
  | RolloutEvent (event : EventMsg).

Inductive InitialHistory :=
  | NewHistory
  | ResumedHistory (from : ResumedFrom) (history : list RolloutItem)
  | ForkedHistory (history : list RolloutItem).

Definition get_rollout_items (history : InitialHistory) : list RolloutItem :=
  match history with NewHistory => [] | ResumedHistory _ history | ForkedHistory history => history end.

Definition last_token_info_from_rollout (rollout_items : list RolloutItem) : option TokenUsageInfo :=
  list.head (omap (fun item => match item with RolloutEvent (TokenCount info _) => info | _ => None end) (rev rollout_items)).

(** * The scan *)

Record PreviousTurnSettings := { pts_model : string; pts_realtime_active : option bool }.

Inductive TurnReferenceContextItem := NeverSet | Cleared | Latest (item : TurnContextItem).

Definition is_never_set (item : TurnReferenceContextItem) : bool := match item with NeverSet => true | _ => false end.

Definition into_resolved (item : TurnReferenceContextItem) : option TurnContextItem :=
  match item with NeverSet | Cleared => None | Latest item => Some item end.

Record ActiveReplaySegment := {
  as_turn_id : option string;
  as_counts_as_user_turn : bool;
  as_previous_turn_settings : option PreviousTurnSettings;
  as_reference_context_item : TurnReferenceContextItem;
  as_base_replacement_history : option (list ResponseItem)
}.

Definition ActiveReplaySegment_default : ActiveReplaySegment :=
  {| as_turn_id := None; as_counts_as_user_turn := false; as_previous_turn_settings := None;
     as_reference_context_item := NeverSet; as_base_replacement_history := None |}.

Record RolloutReplayPlan := {
  plan_base_replacement_history : option (list ResponseItem);
  plan_previous_turn_settings : option PreviousTurnSettings;
  plan_reference_context_item : TurnReferenceContextItem;
  plan_rollout_suffix : list RolloutItem
}.

Record RolloutReplayScanner := {
  rs_base_replacement_history : option (list ResponseItem);
  rs_previous_turn_settings : option PreviousTurnSettings;
  rs_reference_context_item : TurnReferenceContextItem;
  rs_pending_rollback_turns : Z;
  rs_rollout_suffix : list RolloutItem;
  rs_active_segment : option ActiveReplaySegment
}.

Definition scanner_new (rollout_items : list RolloutItem) : RolloutReplayScanner :=
  {| rs_base_replacement_history := None; rs_previous_turn_settings := None; rs_reference_context_item := NeverSet;
     rs_pending_rollback_turns := 0; rs_rollout_suffix := rollout_items; rs_active_segment := None |}.

Definition turn_ids_are_compatible (active_turn_id item_turn_id : option string) : bool :=
  match active_turn_id, item_turn_id with
  | Some turn_id, Some item_turn_id => bool_decide (item_turn_id = turn_id)
  | _, _ => true
  end.

(** [finalize_active_segment] of segment.rs, after the scanner has taken the segment. *)
Definition finalize_segment (segment : ActiveReplaySegment) (sc : RolloutReplayScanner) : RolloutReplayScanner :=
  if 0 <? rs_pending_rollback_turns sc then
    {| rs_base_replacement_history := rs_base_replacement_history sc;
       rs_previous_turn_settings := rs_previous_turn_settings sc;
       rs_reference_context_item := rs_reference_context_item sc;
       rs_pending_rollback_turns :=
         if as_counts_as_user_turn segment then rs_pending_rollback_turns sc - 1 else rs_pending_rollback_turns sc;
       rs_rollout_suffix := rs_rollout_suffix sc;
       rs_active_segment := None |}
  else
    {| rs_base_replacement_history :=
         match rs_base_replacement_history sc with
         | None => as_base_replacement_history segment
         | Some _ => rs_base_replacement_history sc
         end;
       rs_previous_turn_settings :=
         match rs_previous_turn_settings sc with
         | None => if as_counts_as_user_turn segment then as_previous_turn_settings segment else None
         | Some _ => rs_previous_turn_settings sc
         end;
       rs_reference_context_item :=
         if is_never_set (rs_reference_context_item sc)
            && (as_counts_as_user_turn segment
                || match as_reference_context_item segment with Cleared => true | _ => false end)
         then as_reference_context_item segment
         else rs_reference_context_item sc;
       rs_pending_rollback_turns := rs_pending_rollback_turns sc;
       rs_rollout_suffix := rs_rollout_suffix sc;
       rs_active_segment := None |}.

Definition finalize_active_segment (sc : RolloutReplayScanner) : RolloutReplayScanner :=
  match rs_active_segment sc with Some segment => finalize_segment segment sc | None => sc end.

Definition with_segment (segment : ActiveReplaySegment) (sc : RolloutReplayScanner) : RolloutReplayScanner :=
  {| rs_base_replacement_history := rs_base_replacement_history sc;
     rs_previous_turn_settings := rs_previous_turn_settings sc;
     rs_reference_context_item := rs_reference_context_item sc;
     rs_pending_rollback_turns := rs_pending_rollback_turns sc;
     rs_rollout_suffix := rs_rollout_suffix sc;
     rs_active_segment := Some segment |}.

(** [get_or_insert_with(ActiveReplaySegment::default)] *)
Definition active_segment (sc : RolloutReplayScanner) : ActiveReplaySegment :=
  default ActiveReplaySegment_default (rs_active_segment sc).

Definition with_turn_id (turn_id : option string) (segment : ActiveReplaySegment) : ActiveReplaySegment :=
  {| as_turn_id := turn_id;
     as_counts_as_user_turn := as_counts_as_user_turn segment;
     as_previous_turn_settings := as_previous_turn_settings segment;
     as_reference_context_item := as_reference_context_item segment;
     as_base_replacement_history := as_base_replacement_history segment |}.

Definition counting (counts : bool) (segment : ActiveReplaySegment) : ActiveReplaySegment :=
  {| as_turn_id := as_turn_id segment;
     as_counts_as_user_turn := as_counts_as_user_turn segment || counts;
     as_previous_turn_settings := as_previous_turn_settings segment;
     as_reference_context_item := as_reference_context_item segment;
     as_base_replacement_history := as_base_replacement_history segment |}.

Definition scan_turn_aborted (turn_id : option string) (sc : RolloutReplayScanner) : RolloutReplayScanner :=
  match rs_active_segment sc, turn_id with
  | Some segment, Some _ =>
      match as_turn_id segment with None => with_segment (with_turn_id turn_id segment) sc | Some _ => sc end
  | None, Some _ => with_segment (with_turn_id turn_id ActiveReplaySegment_default) sc
  | _, None => sc
  end.

Definition scan_compacted (compacted : CompactedItem) (after : list RolloutItem) (sc : RolloutReplayScanner)
    : RolloutReplayScanner :=
  let segment := active_segment sc in
  let reference := if is_never_set (as_reference_context_item segment) then Cleared else as_reference_context_item segment in
  let (base, suffix) :=
    match as_base_replacement_history segment, ci_replacement_history compacted with
    | None, Some replacement_history => (Some replacement_history, after)
    | base, _ => (base, rs_rollout_suffix sc)
    end in
  {| rs_base_replacement_history := rs_base_replacement_history sc;
     rs_previous_turn_settings := rs_previous_turn_settings sc;
     rs_reference_context_item := rs_reference_context_item sc;
     rs_pending_rollback_turns := rs_pending_rollback_turns sc;
     rs_rollout_suffix := suffix;
     rs_active_segment :=
       Some {| as_turn_id := as_turn_id segment;
               as_counts_as_user_turn := as_counts_as_user_turn segment;
               as_previous_turn_settings := as_previous_turn_settings segment;
               as_reference_context_item := reference;
               as_base_replacement_history := base |} |}.

Definition scan_turn_context (ctx : TurnContextItem) (sc : RolloutReplayScanner) : RolloutReplayScanner :=
  let segment := active_segment sc in
  let segment := match as_turn_id segment with None => with_turn_id (tc_turn_id ctx) segment | Some _ => segment end in
  with_segment
    (if turn_ids_are_compatible (as_turn_id segment) (tc_turn_id ctx) then
       {| as_turn_id := as_turn_id segment;
          as_counts_as_user_turn := as_counts_as_user_turn segment;
          as_previous_turn_settings := Some {| pts_model := tc_model ctx; pts_realtime_active := tc_realtime_active ctx |};
          as_reference_context_item :=
            if is_never_set (as_reference_context_item segment) then Latest ctx else as_reference_context_item segment;
          as_base_replacement_history := as_base_replacement_history segment |}
     else segment) sc.

Context `{HistoryCodecs}.

(** One item, with the items after it ([rollout_items[index + 1..]]). *)
Definition scan_item (item : RolloutItem) (after : list RolloutItem) (sc : RolloutReplayScanner) : RolloutReplayScanner :=
  match item with
  | Compacted compacted => scan_compacted compacted after sc
  | RolloutEvent (ThreadRolledBack num_turns _) =>
      {| rs_base_replacement_history := rs_base_replacement_history sc;
         rs_previous_turn_settings := rs_previous_turn_settings sc;
         rs_reference_context_item := rs_reference_context_item sc;
         rs_pending_rollback_turns := saturating_add (rs_pending_rollback_turns sc) (val num_turns);
         rs_rollout_suffix := rs_rollout_suffix sc;
         rs_active_segment := rs_active_segment sc |}
  | RolloutEvent (TurnComplete turn_id) =>
      let segment := active_segment sc in
      with_segment (match as_turn_id segment with None => with_turn_id (Some turn_id) segment | Some _ => segment end) sc
  | RolloutEvent (TurnAborted turn_id _) => scan_turn_aborted turn_id sc
  | RolloutEvent (UserMessage _) => with_segment (counting true (active_segment sc)) sc
  | RolloutTurnContext ctx => scan_turn_context ctx sc
  | RolloutEvent (TurnStarted turn_id) =>
      match rs_active_segment sc with
      | Some segment =>
          if turn_ids_are_compatible (as_turn_id segment) (Some turn_id) then finalize_active_segment sc else sc
      | None => sc
      end
  | RolloutResponse response_item =>
      with_segment (counting (is_user_turn_boundary response_item) (active_segment sc)) sc
  | RolloutEvent _ | SessionMeta _ => sc
  end.

Definition has_enough_metadata (sc : RolloutReplayScanner) : bool :=
  match rs_base_replacement_history sc, rs_previous_turn_settings sc with
  | Some _, Some _ => negb (is_never_set (rs_reference_context_item sc))
  | _, _ => false
  end.

(** The loop, over the items before and from the place it has come to. *)
Fixpoint scan_loop (before after : list RolloutItem) (sc : RolloutReplayScanner) : RolloutReplayScanner :=
  match before with
  | [] => sc
  | item :: before =>
      let sc := scan_item item after sc in
      if has_enough_metadata sc then sc else scan_loop before (item :: after) sc
  end.

Definition into_plan (sc : RolloutReplayScanner) : RolloutReplayPlan :=
  {| plan_base_replacement_history := rs_base_replacement_history sc;
     plan_previous_turn_settings := rs_previous_turn_settings sc;
     plan_reference_context_item := rs_reference_context_item sc;
     plan_rollout_suffix := rs_rollout_suffix sc |}.

Definition scan_rollout_replay (rollout_items : list RolloutItem) : RolloutReplayPlan :=
  into_plan (finalize_active_segment (scan_loop (rev rollout_items) [] (scanner_new rollout_items))).

(** * The replay *)

Definition replay_item (policy : TruncationPolicy) (history : ContextManager) (item : RolloutItem) : ContextManager :=
  match item with
  | RolloutResponse response_item => record_items [response_item] policy history
  | Compacted compacted =>
      match ci_replacement_history compacted with
      | Some replacement_history => replace replacement_history history
      | None => history
      end
  | RolloutEvent (ThreadRolledBack num_turns _) => drop_last_n_user_turns num_turns history
  | RolloutEvent _ | RolloutTurnContext _ | SessionMeta _ => history
  end.

Definition replay (policy : TruncationPolicy) (items : list RolloutItem) (history : ContextManager) : ContextManager :=
  fold_left (replay_item policy) items history.

(** The policy is [turn_context.truncation_policy]. *)
Definition materialize_history_from_replay (policy : TruncationPolicy) (base_replacement_history : option (list ResponseItem))
    (rollout_suffix : list RolloutItem) : list ResponseItem :=
  let history := ContextManager_new in
  let history := match base_replacement_history with Some base => replace base history | None => history end in
  cm_items (replay policy rollout_suffix history).

Record RolloutReconstruction := {
  rr_history : list ResponseItem;
  rr_previous_turn_settings : option PreviousTurnSettings;
  rr_reference_context_item : option TurnContextItem
}.

Definition reconstruct_history_from_rollout (policy : TruncationPolicy) (rollout_items : list RolloutItem)
    : RolloutReconstruction :=
  let plan := scan_rollout_replay rollout_items in
  {| rr_history := materialize_history_from_replay policy (plan_base_replacement_history plan) (plan_rollout_suffix plan);
     rr_previous_turn_settings := plan_previous_turn_settings plan;
     rr_reference_context_item := into_resolved (plan_reference_context_item plan) |}.

(** What a resumed session starts with. *)
Definition resume_history (policy : TruncationPolicy) (rollout_items : list RolloutItem) (cm : ContextManager)
    : ContextManager * option PreviousTurnSettings :=
  let reconstructed := reconstruct_history_from_rollout policy rollout_items in
  let cm := set_reference_context_item (rr_reference_context_item reconstructed) (replace (rr_history reconstructed) cm) in
  let cm := match last_token_info_from_rollout rollout_items with Some info => set_token_info (Some info) cm | None => cm end in
  (cm, rr_previous_turn_settings reconstructed).

(** * Turns of a rollout *)

Inductive TurnLifecycleStatus := InProgress | Completed | TurnInterrupted | Failed.
#[local] Instance TurnLifecycleStatus_eq_dec : EqDecision TurnLifecycleStatus.
Proof. solve_decision. Defined.

Record TurnLifecycleSnapshot := {
  tl_id : string;
  tl_status : TurnLifecycleStatus;
  tl_opened_explicitly : bool;
  tl_rollout_start_index : nat
}.

Record TurnLifecycleTracker := {
  tt_turns : list TurnLifecycleSnapshot;
  tt_current_turn : option TurnLifecycleSnapshot;
  tt_current_rollout_index : nat;
  tt_next_rollout_index : nat
}.

Definition tracker_new : TurnLifecycleTracker :=
  {| tt_turns := []; tt_current_turn := None; tt_current_rollout_index := 0; tt_next_rollout_index := 0 |}.

Definition with_turns (turns : list TurnLifecycleSnapshot) (current : option TurnLifecycleSnapshot)
    (tracker : TurnLifecycleTracker) : TurnLifecycleTracker :=
  {| tt_turns := turns; tt_current_turn := current; tt_current_rollout_index := tt_current_rollout_index tracker;
     tt_next_rollout_index := tt_next_rollout_index tracker |}.

Definition set_status (status : TurnLifecycleStatus) (turn : TurnLifecycleSnapshot) : TurnLifecycleSnapshot :=
  {| tl_id := tl_id turn; tl_status := status; tl_opened_explicitly := tl_opened_explicitly turn;
     tl_rollout_start_index := tl_rollout_start_index turn |}.

Definition mark_completed (turn : TurnLifecycleSnapshot) : TurnLifecycleSnapshot :=
  match tl_status turn with Completed | InProgress => set_status Completed turn | _ => turn end.

Definition finish_current_turn (tracker : TurnLifecycleTracker) : TurnLifecycleTracker :=
  match tt_current_turn tracker with
  | Some turn => with_turns (tt_turns tracker ++ [turn]) None tracker
  | None => tracker
  end.

(** [iter_mut().find], and the change of what it finds *)
Fixpoint update_first (turn_id : string) (f : TurnLifecycleSnapshot -> TurnLifecycleSnapshot)
    (turns : list TurnLifecycleSnapshot) : option (list TurnLifecycleSnapshot) :=
  match turns with
  | [] => None
  | turn :: turns =>
      if bool_decide (tl_id turn = turn_id) then Some (f turn :: turns) else cons turn <$> update_first turn_id f turns
  end.

Definition handle_turn_complete (turn_id : string) (tracker : TurnLifecycleTracker) : TurnLifecycleTracker :=
  let complete_current turn := finish_current_turn (with_turns (tt_turns tracker) (Some (mark_completed turn)) tracker) in
  let complete_other :=
    match update_first turn_id mark_completed (tt_turns tracker) with
    | Some turns => with_turns turns (tt_current_turn tracker) tracker
    | None => match tt_current_turn tracker with Some turn => complete_current turn | None => tracker end
    end in
  match tt_current_turn tracker with
  | Some turn => if bool_decide (tl_id turn = turn_id) then complete_current turn else complete_other
  | None => complete_other
  end.

Definition handle_turn_aborted (turn_id : option string) (tracker : TurnLifecycleTracker) : TurnLifecycleTracker :=
  let interrupt_current :=
    match tt_current_turn tracker with
    | Some turn => with_turns (tt_turns tracker) (Some (set_status TurnInterrupted turn)) tracker
    | None => tracker
    end in
  match turn_id with
  | Some turn_id =>
      if match tt_current_turn tracker with Some turn => bool_decide (tl_id turn = turn_id) | None => false end
      then interrupt_current
      else
        match update_first turn_id (set_status TurnInterrupted) (tt_turns tracker) with
        | Some turns => with_turns turns (tt_current_turn tracker) tracker
        | None => interrupt_current
        end
  | None => interrupt_current
  end.

Definition handle_event (event : EventMsg) (tracker : TurnLifecycleTracker) : TurnLifecycleTracker :=
  match event with
  | TurnStarted turn_id =>
      let tracker := finish_current_turn tracker in
      with_turns (tt_turns tracker)
        (Some {| tl_id := turn_id; tl_status := InProgress; tl_opened_explicitly := true;
                 tl_rollout_start_index := tt_current_rollout_index tracker |}) tracker
  | TurnComplete turn_id => handle_turn_complete turn_id tracker
  | TurnAborted turn_id _ => handle_turn_aborted turn_id tracker
  | ThreadRolledBack num_turns _ =>
      let tracker := finish_current_turn tracker in
      let n := Z.to_nat (val num_turns) in
      if (length (tt_turns tracker) <=? n)%nat then with_turns [] (tt_current_turn tracker) tracker
      else with_turns (take (length (tt_turns tracker) - n) (tt_turns tracker)) (tt_current_turn tracker) tracker
  | ErrorMsg _ praxis_error_info =>
      if affects_turn_status praxis_error_info then
        match tt_current_turn tracker with
        | Some turn => with_turns (tt_turns tracker) (Some (set_status Failed turn)) tracker
        | None => tracker
        end
      else tracker
  | _ => tracker
  end.

Definition handle_rollout_item (tracker : TurnLifecycleTracker) (item : RolloutItem) : TurnLifecycleTracker :=
  let tracker :=
    {| tt_turns := tt_turns tracker; tt_current_turn := tt_current_turn tracker;
       tt_current_rollout_index := tt_next_rollout_index tracker;
       tt_next_rollout_index := S (tt_next_rollout_index tracker) |} in
  match item with RolloutEvent event => handle_event event tracker | _ => tracker end.

(** * Positions of turns in a rollout *)

Fixpoint user_positions_loop (idx : nat) (items : list RolloutItem) (user_positions : list nat) : list nat :=
  match items with
  | [] => user_positions
  | item :: items =>
      user_positions_loop (S idx) items
        match item with
        | RolloutResponse item => if is_real_user_message_boundary item then user_positions ++ [idx] else user_positions
        | RolloutEvent (ThreadRolledBack num_turns _) =>
            take (length user_positions - Z.to_nat (val num_turns)) user_positions
        | _ => user_positions
        end
  end.

Definition user_message_positions_in_rollout (items : list RolloutItem) : list nat := user_positions_loop 0 items [].

Definition fork_step (idx : nat) (item : RolloutItem) (positions : list nat * list nat) : list nat * list nat :=
  let (rollback_turn_positions, fork_turn_positions) := positions in
  match item with
  | RolloutResponse item =>
      (if is_user_turn_boundary item then rollback_turn_positions ++ [idx] else rollback_turn_positions,
       if is_real_user_message_boundary item || is_trigger_turn_boundary item then fork_turn_positions ++ [idx]
       else fork_turn_positions)
  | RolloutEvent (ThreadRolledBack num_turns _) =>
      let num_turns := Z.to_nat (val num_turns) in
      if (num_turns =? 0)%nat then positions
      else
        let rollback_start :=
          if (num_turns <=? length rollback_turn_positions)%nat
          then rollback_turn_positions !! (length rollback_turn_positions - num_turns)%nat
          else None in
        let rollback_start_idx :=
          match rollback_start with Some start => Some start | None => list.head rollback_turn_positions end in
        match rollback_start_idx with
        | None => positions
        | Some rollback_start_idx =>
            (take (length rollback_turn_positions - num_turns) rollback_turn_positions,
             List.filter (fun position => (position <? rollback_start_idx)%nat) fork_turn_positions)
        end
  | _ => positions
  end.

Fixpoint fork_positions_loop (idx : nat) (items : list RolloutItem) (positions : list nat * list nat) : list nat * list nat :=
  match items with
  | [] => positions
  | item :: items => fork_positions_loop (S idx) items (fork_step idx item positions)
  end.

Definition fork_turn_positions_in_rollout (items : list RolloutItem) : list nat := (fork_positions_loop 0 items ([], [])).2.

Definition truncate_rollout_before_nth_user_message_from_start (items : list RolloutItem) (n_from_start : Z)
    : list RolloutItem :=
  if n_from_start =? USIZE_MAX then items
  else
    let user_positions := user_message_positions_in_rollout items in
    if Z.of_nat (length user_positions) <=? n_from_start then items
    else match user_positions !! Z.to_nat n_from_start with Some cut_idx => take cut_idx items | None => items end.

Definition truncate_rollout_to_last_n_fork_turns (items : list RolloutItem) (n_from_end : Z) : list RolloutItem :=
  if n_from_end =? 0 then []
  else
    let fork_turn_positions := fork_turn_positions_in_rollout items in
    if Z.of_nat (length fork_turn_positions) <=? n_from_end then items
    else
      match fork_turn_positions !! (length fork_turn_positions - Z.to_nat n_from_end)%nat with
      | Some keep_idx => drop keep_idx items
      | None => items
      end.

(** * Forks *)

Record SnapshotTurnState := {
  ends_mid_turn : bool;
  active_turn_id : option string;
  active_turn_start_index : option nat
}.

Definition is_turn_end (item : RolloutItem) : bool :=
  match item with RolloutEvent (TurnComplete _) | RolloutEvent (TurnAborted _ _) => true | _ => false end.

(** The end of [snapshot_turn_state], where no turn is open. *)
Definition snapshot_of_users (rollout_items : list RolloutItem) : SnapshotTurnState :=
  match list.last (user_message_positions_in_rollout rollout_items) with
  | None => {| ends_mid_turn := false; active_turn_id := None; active_turn_start_index := None |}
  | Some last_user_position =>
      {| ends_mid_turn := negb (existsb is_turn_end (drop (last_user_position + 1) rollout_items));
         active_turn_id := None; active_turn_start_index := None |}
  end.

Definition snapshot_turn_state (history : InitialHistory) : SnapshotTurnState :=
  let rollout_items := get_rollout_items history in
  let builder := fold_left handle_rollout_item rollout_items tracker_new in
  match tt_current_turn builder with
  | Some turn =>
      if tl_opened_explicitly turn then
        if bool_decide (tl_status turn = InProgress) then
          {| ends_mid_turn := true; active_turn_id := Some (tl_id turn);
             active_turn_start_index := Some (tl_rollout_start_index turn) |}
        else {| ends_mid_turn := false; active_turn_id := None; active_turn_start_index := None |}
      else snapshot_of_users rollout_items
  | None => snapshot_of_users rollout_items
  end.

Definition truncate_before_nth_user_message (history : InitialHistory) (n : Z) (snapshot_state : SnapshotTurnState)
    : InitialHistory :=
  let items := get_rollout_items history in
  let user_positions := user_message_positions_in_rollout items in
  let rolled :=
    if ends_mid_turn snapshot_state && (Z.of_nat (length user_positions) <=? n) then
      match active_turn_start_index snapshot_state with
      | Some cut_idx => take cut_idx items
      | None => match list.last user_positions with Some cut_idx => take cut_idx items | None => items end
      end
    else truncate_rollout_before_nth_user_message_from_start items n in
  match rolled with [] => NewHistory | _ => ForkedHistory rolled end.

Definition TURN_ABORTED_INTERRUPTED_GUIDANCE : string :=
  "The user interrupted the previous turn on purpose. Any running unified exec processes may still be running in the background. If any tools/commands were aborted, they may have partially executed.".

Definition interrupted_turn_history_marker : ResponseItem :=
  Message None "user"
    [InputText (str_bytes "<turn_aborted>" ++ NEWLINE ++ str_bytes TURN_ABORTED_INTERRUPTED_GUIDANCE ++ NEWLINE
                ++ str_bytes "</turn_aborted>")] None None.

Definition append_interrupted_boundary (history : InitialHistory) (turn_id : option string) : InitialHistory :=
  let aborted_event := RolloutEvent (TurnAborted turn_id Interrupted) in
  let boundary := [RolloutResponse interrupted_turn_history_marker; aborted_event] in
  match history with
  | NewHistory => ForkedHistory boundary
  | ForkedHistory history | ResumedHistory _ history => ForkedHistory (history ++ boundary)
  end.

Inductive ThreadForkSnapshot :=
  | TruncateBeforeNthUserMessage (n : Z)
  | CurrentPersistedWithClosedTurn.

Definition committed_fork_history (history : InitialHistory) : InitialHistory :=
  match history with
  | NewHistory => NewHistory
  | ForkedHistory history | ResumedHistory _ history => ForkedHistory history
  end.

Definition fork_initial_history (snapshot : ThreadForkSnapshot) (history : InitialHistory) : InitialHistory :=
  let snapshot_state := snapshot_turn_state history in
  match snapshot with
  | TruncateBeforeNthUserMessage nth_user_message => truncate_before_nth_user_message history nth_user_message snapshot_state
  | CurrentPersistedWithClosedTurn =>
      let history := committed_fork_history history in
      if ends_mid_turn snapshot_state then append_interrupted_boundary history (active_turn_id snapshot_state) else history
  end.

End Resume.

(** * The scan finds the history *)

Section ResumeFacts.
Context `{HistoryTypes} `{RolloutTypes} `{HistoryCodecs}.

(** The history an item resets the replay to. *)
Definition reset_of (item : RolloutItem) : option (list ResponseItem) :=
  match item with Compacted compacted => ci_replacement_history compacted | _ => None end.

Definition is_rollback (item : RolloutItem) : bool :=
  match item with RolloutEvent (ThreadRolledBack _ _) => true | _ => false end.

Lemma replay_item_items policy h h' item :
  cm_items h = cm_items h' -> cm_items (replay_item policy h item) = cm_items (replay_item policy h' item).
Proof.
  intros E. destruct item as [| |c| |[]]; cbn [replay_item]; try done.
  - rewrite !record_items_are. simpl. by rewrite E.
  - by destruct (ci_replacement_history c).
  - by rewrite !drop_is_rolled_back, E.
Qed.

Lemma replay_items policy items h h' :
  cm_items h = cm_items h' -> cm_items (replay policy items h) = cm_items (replay policy items h').
Proof.
  unfold replay. revert h h'. induction items as [|item items IH]; intros h h' E; simpl; [done|].
  by apply IH, replay_item_items.
Qed.

Lemma replay_reset policy before item base after h h' :
  reset_of item = Some base ->
  cm_items (replay policy (before ++ item :: after) h) = cm_items (replay policy after (replace base h')).
Proof.
  intros E. unfold replay. rewrite fold_left_app. simpl. apply replay_items.
  destruct item; simpl in *; try done. by rewrite E.
Qed.

(** What a scanner knows of the base of its open segment. *)
Definition segment_base (sc : RolloutReplayScanner) : option (list ResponseItem) :=
  match rs_active_segment sc with Some segment => as_base_replacement_history segment | None => None end.

Lemma scan_item_cases item after sc :
  let sc' := scan_item item after sc in
  (rs_base_replacement_history sc' = rs_base_replacement_history sc /\ rs_rollout_suffix sc' = rs_rollout_suffix sc /\
   segment_base sc' = segment_base sc /\ (reset_of item = None \/ is_Some (segment_base sc)) /\
   (is_rollback item = false -> rs_pending_rollback_turns sc' = rs_pending_rollback_turns sc))
  \/ (∃ base, reset_of item = Some base /\ segment_base sc = None /\
      rs_base_replacement_history sc' = rs_base_replacement_history sc /\ rs_rollout_suffix sc' = after /\
      segment_base sc' = Some base /\ rs_pending_rollback_turns sc' = rs_pending_rollback_turns sc)
  \/ (sc' = finalize_active_segment sc /\ reset_of item = None).
Proof.
  assert (Hsame : ∀ sc', rs_base_replacement_history sc' = rs_base_replacement_history sc ->
    rs_rollout_suffix sc' = rs_rollout_suffix sc -> segment_base sc' = segment_base sc ->
    rs_pending_rollback_turns sc' = rs_pending_rollback_turns sc -> reset_of item = None ->
    (rs_base_replacement_history sc' = rs_base_replacement_history sc /\ rs_rollout_suffix sc' = rs_rollout_suffix sc /\
     segment_base sc' = segment_base sc /\ (reset_of item = None \/ is_Some (segment_base sc)) /\
     (is_rollback item = false -> rs_pending_rollback_turns sc' = rs_pending_rollback_turns sc))).
  { intros. split_and!; try done. by left. }
  unfold segment_base in *. destruct item as [| |c|ctx|[id|id|id r|n w|m|m i|i l|e]]; cbn zeta; cbn [scan_item reset_of is_rollback] in *;
    try (left; by apply Hsame).
  - left. apply Hsame; try done. unfold active_segment. by destruct (rs_active_segment sc).
  - unfold scan_compacted, active_segment. destruct (rs_active_segment sc) as [segment|]; simpl.
    + destruct (as_base_replacement_history segment) eqn:Eb; simpl.
      * left. split_and!; try done. right. by eexists.
      * destruct (ci_replacement_history c) as [b|]; simpl; [right; left; by exists b|]. left. split_and!; try done. by left.
    + destruct (ci_replacement_history c) as [b|]; simpl; [right; left; by exists b|]. left. split_and!; try done. by left.
  - left. apply Hsame; try done. unfold scan_turn_context, active_segment. destruct (rs_active_segment sc); simpl;
      repeat case_match; done.
  - destruct (rs_active_segment sc) as [segment|] eqn:Es; [|left; by apply Hsame; rewrite ?Es].
    destruct (turn_ids_are_compatible _ _); [right; right; by split|left; by apply Hsame; rewrite ?Es].
  - left. apply Hsame; try done. unfold active_segment. destruct (rs_active_segment sc) as [segment|]; simpl; [|done].
    by destruct (as_turn_id segment).
  - left. unfold scan_turn_aborted. destruct (rs_active_segment sc) as [segment|] eqn:Es, id as [i|];
      try destruct (as_turn_id segment); apply Hsame; simpl; rewrite ?Es; done.
  - left. split_and!; try done. by left.
  - left. apply Hsame; try done. unfold active_segment. by destruct (rs_active_segment sc).
Qed.

(** What it knows of the items it has scanned. *)
Record scanned_ok (rollout scanned : list RolloutItem) (sc : RolloutReplayScanner) : Prop := {
  so_suffix :
    (rs_rollout_suffix sc = rollout /\ Forall (fun item => reset_of item = None) scanned)
    \/ ∃ before item, scanned = before ++ item :: rs_rollout_suffix sc /\ is_Some (reset_of item);
  so_segment : ∀ base, segment_base sc = Some base ->
    ∃ before item, scanned = before ++ item :: rs_rollout_suffix sc /\ reset_of item = Some base;
  so_base : ∀ base, rs_base_replacement_history sc = Some base ->
    ∃ before item after, scanned = before ++ item :: after /\ reset_of item = Some base /\
      (rs_rollout_suffix sc = after \/ ∃ more, rs_rollout_suffix sc = more ++ item :: after);
  so_found : Forall (fun item => is_rollback item = false) scanned ->
    rs_pending_rollback_turns sc = 0 /\
    (Forall (fun item => reset_of item = None) scanned \/ is_Some (segment_base sc) \/ is_Some (rs_base_replacement_history sc))
}.

Lemma finalize_ok rollout scanned sc :
  scanned_ok rollout scanned sc -> scanned_ok rollout scanned (finalize_active_segment sc).
Proof.
  intros [Hsuf Hseg Hbase Hfound]. unfold finalize_active_segment. destruct (rs_active_segment sc) as [segment|] eqn:Es; [|done].
  unfold segment_base in Hseg, Hfound. rewrite Es in Hseg, Hfound. unfold finalize_segment.
  destruct (Z.ltb_spec 0 (rs_pending_rollback_turns sc)); split; simpl; try done.
  - intros Hr. destruct (Hfound Hr). lia.
  - intros base. destruct (rs_base_replacement_history sc) eqn:Eb; [apply Hbase|]. intros E.
    destruct (Hseg _ E) as (before & item & -> & Er). exists before, item, (rs_rollout_suffix sc). split_and!; try done. by left.
  - intros Hr. destruct (Hfound Hr) as [-> Hor]. split; [done|]. destruct Hor as [?|[Hs|Hs]]; [by left| |]; right; right.
    + destruct (rs_base_replacement_history sc); [by eexists|done].
    + destruct (rs_base_replacement_history sc); [done|by destruct Hs].
Qed.

Lemma more_scanned rollout scanned item sc :
  scanned_ok rollout scanned sc -> reset_of item = None \/ is_Some (segment_base sc) ->
  scanned_ok rollout (item :: scanned) sc.
Proof.
  intros [Hsuf Hseg Hbase Hfound] Hitem. split.
  - destruct Hsuf as [[Hs Hall]|(before & i & -> & Hr)]; [|right; by exists (item :: before), i].
    destruct Hitem as [Hn|[base Hs']]; [left; split; [done|by constructor]|].
    destruct (Hseg _ Hs') as (before & i & -> & Hr). right. exists (item :: before), i. split; [done|by eexists].
  - intros base E. destruct (Hseg _ E) as (before & i & -> & Hr). by exists (item :: before), i.
  - intros base E. destruct (Hbase _ E) as (before & i & after & -> & Hr & Hor). by exists (item :: before), i, after.
  - intros Hall. inversion Hall as [|? ? _ Hall']; subst. destruct (Hfound Hall') as [? Hor]. split; [done|].
    destruct Hitem as [Hn|Hs]; [|by right; left]. destruct Hor as [?|?]; [left; by constructor|by right].
Qed.

Lemma scan_item_ok rollout item after sc :
  scanned_ok rollout after sc -> scanned_ok rollout (item :: after) (scan_item item after sc).
Proof.
  intros Hok. destruct (scan_item_cases item after sc) as
    [(Eb & Es & Eg & Hitem & Ep)|[(base & Er & En & Eb & Es & Eg & Ep)|[-> Hr]]].
  - destruct (more_scanned _ _ _ _ Hok Hitem) as [Hsuf Hseg Hbase Hfound]. split; rewrite ?Eb, ?Es, ?Eg; try done.
    intros Hall. destruct (Hfound Hall) as [? ?]. inversion Hall; subst. by rewrite Ep.
  - destruct Hok as [Hsuf Hseg Hbase Hfound]. split; rewrite ?Eb, ?Es, ?Eg, ?Ep.
    + right. exists [], item. split; [done|by eexists].
    + intros b [= <-]. by exists [], item.
    + intros b E. destruct (Hbase _ E) as (before & i & rest & -> & Hr & _). exists (item :: before), i, rest.
      split_and!; try done. right. by exists before.
    + intros Hall. inversion Hall as [|? ? _ Hall']; subst. destruct (Hfound Hall') as [? _]. split; [done|].
      right. left. by eexists.
  - apply more_scanned; [by apply finalize_ok|by left].
Qed.

Lemma scan_loop_ok rollout before after sc :
  scanned_ok rollout after sc ->
  ∃ before' before'', before = before' ++ before'' /\ scanned_ok rollout (rev before' ++ after) (scan_loop before after sc) /\
    (before'' = [] \/ has_enough_metadata (scan_loop before after sc) = true).
Proof.
  revert after sc. induction before as [|item before IH]; intros after sc Hok.
  - exists [], []. split_and!; try done. by left.
  - simpl. pose proof (scan_item_ok _ item _ _ Hok) as Hok'. destruct (has_enough_metadata (scan_item item after sc)) eqn:E.
    + exists [item], before. split_and!; try done. by right.
    + destruct (IH _ _ Hok') as (b1 & b2 & -> & Hb & Hor). exists (item :: b1), b2. split_and!; try done.
      simpl. by rewrite <- app_assoc.
Qed.

Lemma scanner_new_ok rollout : scanned_ok rollout [] (scanner_new rollout).
Proof. split; try done; [left; by split|]. intros _. split; [done|by left]. Qed.

(** A base replays as the whole rollout does. *)
Lemma base_replays policy rollout before scanned sc base :
  rollout = before ++ scanned -> scanned_ok rollout scanned sc -> rs_base_replacement_history sc = Some base ->
  cm_items (replay policy (rs_rollout_suffix sc) (replace base ContextManager_new))
  = cm_items (replay policy rollout ContextManager_new).
Proof.
  intros -> [_ _ Hbase _] E. destruct (Hbase _ E) as (b & item & after & -> & Er & Hsuf). rewrite app_assoc.
  rewrite (replay_reset _ _ _ base _ _ ContextManager_new Er). destruct Hsuf as [->|[more ->]]; [done|].
  by rewrite (replay_reset _ _ _ base _ _ ContextManager_new Er).
Qed.

(** The state of the scanner when it is done. *)
Definition scan_end (rollout : list RolloutItem) : RolloutReplayScanner :=
  finalize_active_segment (scan_loop (rev rollout) [] (scanner_new rollout)).

Lemma scan_end_ok rollout : ∃ before scanned,
  rollout = before ++ scanned /\ scanned_ok rollout scanned (scan_end rollout) /\
  (before = [] \/ is_Some (rs_base_replacement_history (scan_end rollout))).
Proof.
  destruct (scan_loop_ok rollout (rev rollout) [] _ (scanner_new_ok rollout)) as (b1 & b2 & E & Hok & Hor).
  rewrite app_nil_r in Hok. exists (rev b2), (rev b1). split_and!.
  - by rewrite <- rev_app_distr, <- E, rev_involutive.
  - by apply finalize_ok.
  - destruct Hor as [->|Hm]; [by left|right]. unfold scan_end, finalize_active_segment, finalize_segment.
    unfold has_enough_metadata in Hm. destruct (rs_base_replacement_history _) eqn:Eb; [|done].
    destruct (rs_active_segment _); [|rewrite Eb; by eexists]. destruct (0 <? _)%Z; simpl; rewrite ?Eb; by eexists.
Qed.

Lemma finalized_segment sc : segment_base (finalize_active_segment sc) = None.
Proof.
  unfold segment_base, finalize_active_segment. destruct (rs_active_segment sc) eqn:E; [|by rewrite E].
  unfold finalize_segment. by destruct (0 <? _)%Z.
Qed.

Lemma reconstruct_is_replay policy rollout :
  is_Some (plan_base_replacement_history (scan_rollout_replay rollout))
  \/ Forall (fun item => reset_of item = None) rollout \/ Forall (fun item => is_rollback item = false) rollout ->
  rr_history (reconstruct_history_from_rollout policy rollout) = cm_items (replay policy rollout ContextManager_new).
Proof.
  intros Hor. unfold reconstruct_history_from_rollout, scan_rollout_replay, materialize_history_from_replay in *. simpl in *.
  fold (scan_end rollout) in *. destruct (scan_end_ok rollout) as (before & scanned & E & Hok & Hbefore).
  destruct (rs_base_replacement_history (scan_end rollout)) as [base|] eqn:Eb; [by eapply base_replays|].
  destruct Hbefore as [->|Hs]; [|by destruct Hs]. simpl in E. subst scanned.
  assert (Hnone : Forall (fun item => reset_of item = None) rollout).
  { destruct Hor as [Hs|[?|Hr]]; [by destruct Hs|done|]. destruct Hok as [_ _ _ Hfound].
    destruct (Hfound Hr) as [_ [?|[Hs|Hs]]]; [done| |rewrite Eb in Hs; by destruct Hs].
    unfold scan_end in Hs. rewrite finalized_segment in Hs. by destruct Hs. }
  destruct (so_suffix _ _ _ Hok) as [[-> _]|(b & item & Erol & [base Hr])]; [done|].
  rewrite list.Forall_forall in Hnone. rewrite (Hnone item) in Hr; [done|]. rewrite Erol. apply elem_of_app. right. by left.
Qed.
End ResumeFacts.

(** * The scan may stop early *)

Section ScanFacts.
Context `{HistoryTypes} `{RolloutTypes} `{HistoryCodecs}.

(** The loop without its [break]. *)
Fixpoint scan_all (before after : list RolloutItem) (sc : RolloutReplayScanner) : RolloutReplayScanner :=
  match before with
  | [] => sc
  | item :: before => scan_all before (item :: after) (scan_item item after sc)
  end.

Definition scan_whole_rollout (rollout_items : list RolloutItem) : RolloutReplayPlan :=
  into_plan (finalize_active_segment (scan_all (rev rollout_items) [] (scanner_new rollout_items))).

Definition settled (sc sc' : RolloutReplayScanner) : Prop :=
  rs_base_replacement_history sc' = rs_base_replacement_history sc /\
  rs_previous_turn_settings sc' = rs_previous_turn_settings sc /\
  rs_reference_context_item sc' = rs_reference_context_item sc.

Lemma settled_trans sc1 sc2 sc3 : settled sc1 sc2 -> settled sc2 sc3 -> settled sc1 sc3.
Proof. intros (? & ? & ?) (? & ? & ?). split_and!; congruence. Qed.

Lemma settled_enough sc sc' : settled sc sc' -> has_enough_metadata sc' = has_enough_metadata sc.
Proof. intros (E1 & E2 & E3). unfold has_enough_metadata. by rewrite E1, E2, E3. Qed.

Lemma finalize_settled sc : has_enough_metadata sc = true -> settled sc (finalize_active_segment sc).
Proof.
  unfold has_enough_metadata, finalize_active_segment. destruct sc as [[b|] [p|] r n s [segment|]]; try done. simpl.
  intros Hr. unfold finalize_segment. simpl. destruct (0 <? n)%Z; split_and!; try done. simpl. by destruct r.
Qed.

Lemma scan_item_settled item after sc : has_enough_metadata sc = true -> settled sc (scan_item item after sc).
Proof.
  intros He. destruct item as [| |c|ctx|[id|id|id r|n w|m|m i|i l|e]]; cbn [scan_item]; try (by split_and!).
  - unfold scan_compacted. by destruct (as_base_replacement_history _), (ci_replacement_history c).
  - destruct (rs_active_segment sc); [|by split_and!]. destruct (turn_ids_are_compatible _ _); [|by split_and!].
    by apply finalize_settled.
  - unfold scan_turn_aborted. destruct (rs_active_segment sc) as [segment|], id; try by split_and!.
    by destruct (as_turn_id segment).
Qed.

Lemma scan_all_settled before after sc : has_enough_metadata sc = true -> settled sc (scan_all before after sc).
Proof.
  revert after sc. induction before as [|item before IH]; intros after sc He; simpl; [by split_and!|].
  pose proof (scan_item_settled item after sc He) as Hs. eapply settled_trans; [exact Hs|]. apply IH.
  by rewrite (settled_enough _ _ Hs).
Qed.

Lemma scan_loop_or_all before after sc :
  scan_loop before after sc = scan_all before after sc \/
  (has_enough_metadata (scan_loop before after sc) = true /\
   settled (scan_loop before after sc) (scan_all before after sc)).
Proof.
  revert after sc. induction before as [|item before IH]; intros after sc; simpl; [by left|].
  destruct (has_enough_metadata (scan_item item after sc)) eqn:E; [|apply IH]. right. split; [done|].
  by apply scan_all_settled.
Qed.

Lemma scan_all_ok rollout before after sc :
  scanned_ok rollout after sc -> scanned_ok rollout (rev before ++ after) (scan_all before after sc).
Proof.
  revert after sc. induction before as [|item before IH]; intros after sc Hok; simpl; [done|].
  rewrite <- app_assoc. apply IH. by apply scan_item_ok.
Qed.

Lemma early_stop_same policy rollout :
  plan_base_replacement_history (scan_rollout_replay rollout) = plan_base_replacement_history (scan_whole_rollout rollout) /\
  plan_previous_turn_settings (scan_rollout_replay rollout) = plan_previous_turn_settings (scan_whole_rollout rollout) /\
  plan_reference_context_item (scan_rollout_replay rollout) = plan_reference_context_item (scan_whole_rollout rollout) /\
  materialize_history_from_replay policy (plan_base_replacement_history (scan_rollout_replay rollout))
      (plan_rollout_suffix (scan_rollout_replay rollout))
  = materialize_history_from_replay policy (plan_base_replacement_history (scan_whole_rollout rollout))
      (plan_rollout_suffix (scan_whole_rollout rollout)).
Proof.
  unfold scan_rollout_replay, scan_whole_rollout. simpl.
  destruct (scan_loop_or_all (rev rollout) [] (scanner_new rollout)) as [->|[He Hs]]; [done|].
  pose proof (finalize_settled _ He) as (F1 & F2 & F3).
  rewrite <- (settled_enough _ _ Hs) in He. pose proof (finalize_settled _ He) as (G1 & G2 & G3).
  destruct Hs as (S1 & S2 & S3).
  split_and!; try congruence. fold (scan_end rollout) in *.
  destruct (scan_end_ok rollout) as (before & scanned & E & Hok & _).
  assert (Hall : scanned_ok rollout (rev (rev rollout) ++ []) (finalize_active_segment (scan_all (rev rollout) [] (scanner_new rollout)))).
  { apply finalize_ok, scan_all_ok, scanner_new_ok. }
  rewrite rev_involutive, app_nil_r in Hall.
  set (whole := finalize_active_segment (scan_all (rev rollout) [] (scanner_new rollout))) in *.
  assert (Hb : ∃ base, rs_base_replacement_history (scan_end rollout) = Some base /\ rs_base_replacement_history whole = Some base).
  { unfold has_enough_metadata in He. destruct (rs_base_replacement_history (scan_all _ _ _)) as [base|] eqn:Eb; [|done].
    exists base. split; congruence. }
  destruct Hb as (base & Eb & Eb'). rewrite Eb, Eb'. unfold materialize_history_from_replay.
  rewrite (base_replays policy rollout before scanned _ base E Hok Eb).
  by rewrite (base_replays policy rollout [] rollout _ base eq_refl Hall Eb').
Qed.
End ScanFacts.

(** * Positions of turns *)

Section PositionFacts.
Context `{HistoryTypes} `{RolloutTypes} `{HistoryCodecs}.
#[local] Open Scope nat_scope.

Lemma user_positions_app idx pre post st :
  user_positions_loop idx (pre ++ post) st = user_positions_loop (idx + length pre) post (user_positions_loop idx pre st).
Proof.
  revert idx st. induction pre as [|item pre IH]; intros idx st; simpl; [by rewrite Nat.add_0_r|]. rewrite IH.
  f_equal. lia.
Qed.

(** Rollbacks only pop: the positions found before stay a prefix. *)
Lemma user_positions_prefix idx items st :
  ∃ j new, user_positions_loop idx items st = take j st ++ new /\ Forall (fun i => idx <= i) new.
Proof.
  revert idx st. induction items as [|item items IH]; intros idx st; simpl.
  - exists (length st), []. by rewrite firstn_all, app_nil_r.
  - assert (Hpop : ∀ m, ∃ j new, user_positions_loop (S idx) items (take m st) = take j st ++ new /\ Forall (fun i => idx <= i) new).
    { intros m. destruct (IH (S idx) (take m st)) as (j & new & -> & Hall). exists (Nat.min j m), new. rewrite take_take.
      split; [done|]. eapply list.Forall_impl; [exact Hall|]. simpl. lia. }
    assert (Hkeep : ∃ j new, user_positions_loop (S idx) items st = take j st ++ new /\ Forall (fun i => idx <= i) new).
    { destruct (Hpop (length st)) as (j & new & E & Hall). rewrite firstn_all in E. by exists j, new. }
    destruct item as [|item|c|ctx|[]]; try exact Hkeep; [|apply Hpop].
    destruct (is_real_user_message_boundary item); [|exact Hkeep].
    destruct (IH (S idx) (st ++ [idx])) as (j & new & -> & Hall). exists j, (take (j - length st) [idx] ++ new).
    rewrite take_app, <- app_assoc. split; [done|]. apply list.Forall_app. split.
    + destruct (j - length st); simpl; [done|]. rewrite take_nil. by constructor.
    + eapply list.Forall_impl; [exact Hall|]. simpl. lia.
Qed.

Lemma user_positions_below idx items st :
  Forall (fun i => i < idx) st -> Forall (fun i => i < idx + length items) (user_positions_loop idx items st).
Proof.
  revert idx st. induction items as [|item items IH]; intros idx st Hst; simpl; [by rewrite Nat.add_0_r|].
  rewrite <- Nat.add_succ_comm. apply IH.
  assert (Hs : Forall (fun i => i < S idx) st) by (eapply list.Forall_impl; [exact Hst|]; simpl; lia).
  destruct item as [|item|c|ctx|[]]; try exact Hs; [|by apply Forall_take].
  destruct (is_real_user_message_boundary item); [|exact Hs].
  apply list.Forall_app. split; [done|]. constructor; [lia|done].
Qed.

Lemma cut_at_user_position items n cut :
  user_message_positions_in_rollout items !! n = Some cut ->
  user_message_positions_in_rollout (take cut items) = take n (user_message_positions_in_rollout items) /\
  cut < length items.
Proof.
  unfold user_message_positions_in_rollout. intros Hn.
  assert (Hcut : cut < length items).
  { pose proof (user_positions_below 0 items [] ltac:(done)) as Hall. by apply (Forall_lookup_1 _ _ _ _ Hall Hn). }
  split; [|done]. rewrite <- (take_drop cut items) in Hn |- * at 2. rewrite user_positions_app in Hn |- *.
  rewrite length_take_le in Hn |- * by lia. simpl in Hn |- *.
  set (st := user_positions_loop 0 (take cut items) []) in *.
  assert (Hst : Forall (fun i => i < cut) st).
  { pose proof (user_positions_below 0 (take cut items) [] ltac:(done)) as Hall. rewrite length_take_le in Hall by lia. exact Hall. }
  destruct (drop cut items) as [|item rest] eqn:Ed.
  { apply (f_equal length) in Ed. rewrite length_drop in Ed. simpl in Ed. lia. }
  simpl in Hn |- *.
  assert (Hpop : ∀ m, user_positions_loop (S cut) rest (take m st) !! n <> Some cut).
  { intros m E. destruct (user_positions_prefix (S cut) rest (take m st)) as (j & new & E' & Hall). rewrite E', take_take in E.
    apply lookup_app_Some in E as [E|[_ E]].
    - pose proof (Forall_lookup_1 _ _ _ _ (Forall_take _ (Nat.min j m) _ Hst) E). simpl in *. lia.
    - pose proof (Forall_lookup_1 _ _ _ _ Hall E). simpl in *. lia. }
  assert (Hkeep : user_positions_loop (S cut) rest st !! n <> Some cut) by (rewrite <- (firstn_all st) at 1; apply Hpop).
  destruct item as [|item|c|ctx|[]]; try by destruct (Hkeep Hn).
  - destruct (is_real_user_message_boundary item); [|by destruct (Hkeep Hn)].
    destruct (user_positions_prefix (S cut) rest (st ++ [cut])) as (j & new & E & Hall). rewrite E in Hn |- *.
    destruct (decide (length st < j)) as [Hj|Hj].
    + rewrite (take_ge (st ++ [cut]) j), <- app_assoc in Hn |- * by (rewrite length_app; simpl; lia).
      assert (n = length st) as ->.
      { apply lookup_app_Some in Hn as [Hn|[Hge Hn]].
        - pose proof (Forall_lookup_1 _ _ _ _ Hst Hn). simpl in *. lia.
        - destruct (n - length st) as [|k] eqn:Ek; [lia|]. simpl in Hn.
          pose proof (Forall_lookup_1 _ _ _ _ Hall Hn). simpl in *. lia. }
      by rewrite take_app_length.
    + exfalso. rewrite (take_app_le st [cut] j) in Hn by lia. apply lookup_app_Some in Hn as [Hn|[_ Hn]].
      * pose proof (Forall_lookup_1 _ _ _ _ (Forall_take _ j _ Hst) Hn). simpl in *. lia.
      * pose proof (Forall_lookup_1 _ _ _ _ Hall Hn). simpl in *. lia.
  - by destruct (Hpop _ Hn).
Qed.
End PositionFacts.

(** * Fork turns *)

Section ForkTurnFacts.
Context `{HistoryTypes} `{RolloutTypes} `{HistoryCodecs}.
#[local] Open Scope nat_scope.

Definition shifted (k : nat) (l : list nat) : list nat := map (fun i => k + i) l.

Lemma length_shifted k l : length (shifted k l) = length l.
Proof. apply length_map. Qed.

Lemma shifted_lookup k l i : shifted k l !! i = (fun p => k + p) <$> (l !! i).
Proof. unfold shifted. apply list_lookup_fmap. Qed.

Lemma filter_shifted k start l :
  List.filter (fun p => p <? k + start) (shifted k l) = shifted k (List.filter (fun p => p <? start) l).
Proof.
  induction l as [|p l IH]; simpl; [done|].
  destruct (Nat.ltb_spec (k + p) (k + start)), (Nat.ltb_spec p start); try lia; simpl; by rewrite IH.
Qed.

Lemma filter_below start l : Forall (fun p => p < start) l -> List.filter (fun p => p <? start) l = l.
Proof. induction 1 as [|p l Hp _ IH]; simpl; [done|]. destruct (Nat.ltb_spec p start); [by rewrite IH|lia]. Qed.

(** The positions of a whole rollout and of its items from [keep] on. *)
Definition same_from (keep : nat) (whole part : list nat * list nat) : Prop :=
  ∃ r0 f0, Forall (fun p => p < keep) r0 /\ Forall (fun p => p < keep) f0 /\
    whole.1 = r0 ++ shifted keep part.1 /\ whole.2 = f0 ++ shifted keep part.2.

Lemma fork_step_other idx item positions :
  (∀ response, item <> RolloutResponse response) -> is_rollback item = false -> fork_step idx item positions = positions.
Proof. destruct positions, item as [|i|c|ctx|[]]; simpl; try done. intros Hi. by destruct (Hi i). Qed.

(** The position before which a rollback drops the fork turns. *)
Definition rollback_start (n : nat) (r : list nat) : option nat :=
  match (if n <=? length r then r !! (length r - n) else None) with Some start => Some start | None => list.head r end.

Lemma fork_step_rollback idx num_turns w r f :
  fork_step idx (RolloutEvent (ThreadRolledBack num_turns w)) (r, f)
  = let n := Z.to_nat (val num_turns) in
    if n =? 0 then (r, f)
    else match rollback_start n r with
         | None => (r, f)
         | Some start => (take (length r - n) r, List.filter (fun p => p <? start) f)
         end.
Proof. done. Qed.

Lemma rollback_start_in n r start : rollback_start n r = Some start -> start ∈ r.
Proof.
  unfold rollback_start. destruct (n <=? length r).
  - destruct (r !! (length r - n)) eqn:E; [intros [= <-]; by eapply list_elem_of_lookup_2|].
    destruct r; [done|]. intros [= <-]. by left.
  - destruct r; [done|]. intros [= <-]. by left.
Qed.

Lemma rollback_start_from keep n r0 r start :
  0 < n -> Forall (fun p => p < keep) r0 -> rollback_start n (r0 ++ shifted keep r) = Some start ->
  start < keep \/
  (∃ start', start = keep + start' /\ rollback_start n r = Some start' /\
     take (length (r0 ++ shifted keep r) - n) (r0 ++ shifted keep r) = r0 ++ shifted keep (take (length r - n) r)).
Proof.
  intros Hn H0' E. unfold rollback_start in E |- *. rewrite length_app, length_shifted in E |- *.
  assert (Hhead : list.head (r0 ++ shifted keep r) = Some start -> length r < n ->
    start < keep \/ (r0 = [] /\ ∃ start', start = keep + start' /\ list.head r = Some start')).
  { intros Eh _. destruct r0 as [|p r0]; simpl in Eh.
    - destruct r as [|p r]; [done|]. injection Eh as <-. right. split; [done|]. by exists p.
    - injection Eh as <-. left. by inversion H0'. }
  destruct (Nat.leb_spec n (length r0 + length r)) as [Hle|Hgt].
  - destruct (decide (n <= length r)) as [Hr|Hr].
    + rewrite lookup_app_r in E by lia. rewrite shifted_lookup in E.
      replace (length r0 + length r - n - length r0) with (length r - n) in E by lia.
      destruct (r !! (length r - n)) as [s|] eqn:Es; [|apply lookup_ge_None in Es; lia]. injection E as <-.
      right. exists s. rewrite (proj2 (Nat.leb_le _ _) Hr). split_and!; [done|done|].
      rewrite take_app_ge by lia. unfold shifted. rewrite <- fmap_take.
      f_equal. f_equal. f_equal. lia.
    + rewrite lookup_app_l in E by lia.
      destruct (r0 !! (length r0 + length r - n)) as [s|] eqn:Es; [|apply lookup_ge_None in Es; lia]. injection E as <-.
      left. by apply (Forall_lookup_1 _ _ _ _ H0' Es).
  - destruct (Hhead E ltac:(lia)) as [?|(-> & start' & -> & Eh)]; [by left|]. right. exists start'. simpl in *.
    rewrite (proj2 (Nat.leb_gt _ _) Hgt). split_and!; [done|done|].
    by replace (length r - n) with 0 by lia.
Qed.

Lemma fork_step_same keep idx item whole part :
  same_from keep whole part -> list.head part.2 = Some 0 ->
  keep ∈ (fork_step (keep + idx) item whole).2 ->
  same_from keep (fork_step (keep + idx) item whole) (fork_step idx item part) /\
  list.head (fork_step idx item part).2 = Some 0.
Proof.
  intros Hsame Hhead Hin. destruct whole as [wr wf], part as [r f].
  destruct Hsame as (r0 & f0 & Hr0 & Hf0 & Er & Ef). simpl in Er, Ef, Hhead. subst wr wf.
  destruct item as [|item|c|ctx|[id|id|id rs|num_turns w|m|m i|i l|e]];
    try (rewrite !fork_step_other by done; split; [by exists r0, f0|done]).
  - simpl. split.
    + exists r0, f0. simpl. split_and!; try done; unfold shifted.
      * destruct (is_user_turn_boundary item); [|done]. by rewrite map_app, app_assoc.
      * destruct (is_real_user_message_boundary item || is_trigger_turn_boundary item); [|done]. by rewrite map_app, app_assoc.
    + destruct (is_real_user_message_boundary item || is_trigger_turn_boundary item); [|done]. by destruct f.
  - rewrite !fork_step_rollback in *. cbn zeta in *. set (n := Z.to_nat (val num_turns)) in *.
    destruct (Nat.eqb_spec n 0) as [Hn|Hn]; [split; [by exists r0, f0|done]|].
    destruct (rollback_start n (r0 ++ shifted keep r)) as [start|] eqn:Es.
    + assert (Hstart : keep < start).
      { simpl in Hin. apply list_elem_of_In, List.filter_In in Hin as [_ Hlt]. by apply Nat.ltb_lt in Hlt. }
      destruct (rollback_start_from keep n r0 r start ltac:(lia) Hr0 Es) as [?|(start' & -> & -> & ->)]; [lia|]. split.
      * exists r0, f0. simpl. split_and!; try done. rewrite List.filter_app, filter_shifted, filter_below; [done|].
        eapply list.Forall_impl; [exact Hf0|]. simpl. lia.
      * destruct f as [|p f]; [done|]. simpl in *. injection Hhead as ->. destruct (Nat.ltb_spec 0 start'); [done|lia].
    + assert (r0 = [] /\ r = []) as [-> ->].
      { unfold rollback_start in Es. destruct r0 as [|p r0]; [|by repeat case_match]. simpl in Es. split; [done|].
        destruct r as [|p r]; [done|]. by repeat case_match. }
      assert (En : rollback_start n [] = None) by (unfold rollback_start; by destruct (n <=? _)). rewrite En.
      split; [exists [], f0; by split_and!|done].
Qed.

Lemma fork_step_in idx item positions p : p < idx -> p ∈ (fork_step idx item positions).2 -> p ∈ positions.2.
Proof.
  intros Hp. destruct positions as [r f], item as [|item|c|ctx|[id|id|id rs|num_turns w|m|m i|i l|e]]; try done.
  - simpl. destruct (_ || _); [|done]. rewrite elem_of_app, list_elem_of_singleton. intros [?|?]; [done|lia].
  - rewrite fork_step_rollback. cbn zeta. destruct (_ =? 0); [done|]. destruct (rollback_start _ r); [|done].
    simpl. by rewrite list_elem_of_In, List.filter_In, <- list_elem_of_In; intros [? _].
Qed.

Lemma fork_loop_in idx items positions p : p < idx -> p ∈ (fork_positions_loop idx items positions).2 -> p ∈ positions.2.
Proof.
  revert idx positions. induction items as [|item items IH]; intros idx positions Hp Hin; simpl in *; [done|].
  apply IH in Hin; [|lia]. by apply fork_step_in in Hin.
Qed.

Lemma fork_loop_same keep idx items whole part :
  same_from keep whole part -> list.head part.2 = Some 0 -> 0 < idx ->
  keep ∈ (fork_positions_loop (keep + idx) items whole).2 ->
  same_from keep (fork_positions_loop (keep + idx) items whole) (fork_positions_loop idx items part) /\
  list.head (fork_positions_loop idx items part).2 = Some 0.
Proof.
  revert idx whole part. induction items as [|item items IH]; intros idx whole part Hsame Hhead Hidx Hin; simpl in *; [done|].
  pose proof (fork_loop_in (S (keep + idx)) items _ keep ltac:(lia) Hin) as Hin'.
  destruct (fork_step_same keep idx item whole part Hsame Hhead Hin') as [Hsame' Hhead'].
  rewrite <- Nat.add_succ_r in Hin |- *. apply IH; [done|done|lia|done].
Qed.

Lemma fork_loop_app idx pre post positions :
  fork_positions_loop idx (pre ++ post) positions
  = fork_positions_loop (idx + length pre) post (fork_positions_loop idx pre positions).
Proof.
  revert idx positions. induction pre as [|item pre IH]; intros idx positions; simpl; [by rewrite Nat.add_0_r|].
  rewrite IH. f_equal. lia.
Qed.

Lemma fork_step_below idx item positions :
  Forall (fun p => p < idx) positions.1 -> Forall (fun p => p < idx) positions.2 ->
  Forall (fun p => p < S idx) (fork_step idx item positions).1 /\ Forall (fun p => p < S idx) (fork_step idx item positions).2.
Proof.
  intros H1' H2'. assert (Hs : Forall (fun p => p < S idx) positions.1 /\ Forall (fun p => p < S idx) positions.2).
  { split; (eapply list.Forall_impl; [eassumption|]); simpl; lia. }
  destruct positions as [r f], item as [|item|c|ctx|[id|id|id rs|num_turns w|m|m i|i l|e]]; try exact Hs; simpl in Hs.
  - destruct Hs. simpl. split; [destruct (is_user_turn_boundary item)|destruct (_ || _)]; try done;
      (apply list.Forall_app; split; [done|constructor; [lia|done]]).
  - rewrite fork_step_rollback. cbn zeta. destruct (_ =? 0); [exact Hs|]. destruct (rollback_start _ r); [|exact Hs].
    destruct Hs as [? Hf]. simpl. split; [by apply Forall_take|]. rewrite list.Forall_forall in Hf |- *.
    intros p Hp. apply Hf. by apply list_elem_of_In, List.filter_In in Hp as [?%list_elem_of_In _].
Qed.

Lemma fork_loop_below idx items positions :
  Forall (fun p => p < idx) positions.1 -> Forall (fun p => p < idx) positions.2 ->
  Forall (fun p => p < idx + length items) (fork_positions_loop idx items positions).1 /\
  Forall (fun p => p < idx + length items) (fork_positions_loop idx items positions).2.
Proof.
  revert idx positions. induction items as [|item items IH]; intros idx positions H1' H2'; simpl; [by rewrite Nat.add_0_r|].
  rewrite <- Nat.add_succ_comm. destruct (fork_step_below idx item positions H1' H2'). by apply IH.
Qed.

(** Only the first of the positions can be 0. *)
Lemma fork_step_tail idx item positions :
  0 < idx -> Forall (fun p => 0 < p) (tail positions.2) -> Forall (fun p => 0 < p) (tail (fork_step idx item positions).2).
Proof.
  intros Hidx Ht. destruct positions as [r f], item as [|item|c|ctx|[id|id|id rs|num_turns w|m|m i|i l|e]]; try exact Ht; simpl in Ht.
  - simpl. destruct (_ || _); [|done]. destruct f; [by constructor|]. simpl. apply list.Forall_app. split; [done|].
    by repeat constructor.
  - rewrite fork_step_rollback. cbn zeta. destruct (_ =? 0); [exact Ht|]. destruct (rollback_start _ r) as [start|]; [|exact Ht].
    destruct f as [|p f]; [by constructor|]. simpl in *.
    assert (Hf : Forall (fun p => 0 < p) (List.filter (fun p => p <? start) f)).
    { rewrite list.Forall_forall in Ht |- *. intros q Hq. apply Ht. by apply list_elem_of_In, List.filter_In in Hq as [?%list_elem_of_In _]. }
    destruct (p <? start); simpl; [done|]. by destruct Hf; [constructor|].
Qed.

Lemma fork_loop_tail idx items positions :
  0 < idx -> Forall (fun p => 0 < p) (tail positions.2) -> Forall (fun p => 0 < p) (tail (fork_positions_loop idx items positions).2).
Proof.
  revert idx positions. induction items as [|item items IH]; intros idx positions Hidx Ht; simpl; [done|].
  apply IH; [lia|]. by apply fork_step_tail.
Qed.

(** Cut at a fork turn, a rollout has exactly the fork turns from there on. *)
Lemma cut_at_fork_turn items i keep :
  fork_turn_positions_in_rollout items !! i = Some keep ->
  shifted keep (fork_turn_positions_in_rollout (drop keep items)) = drop i (fork_turn_positions_in_rollout items).
Proof.
  unfold fork_turn_positions_in_rollout. intros Hi.
  assert (Hkeep : keep < length items).
  { destruct (fork_loop_below 0 items ([], [])) as [_ Hall]; [done|done|]. by apply (Forall_lookup_1 _ _ _ _ Hall Hi). }
  rewrite <- (take_drop keep items) in Hi |- * at 2. rewrite fork_loop_app in Hi |- *.
  rewrite length_take_le in Hi |- * by lia. simpl (0 + keep) in *.
  destruct (fork_loop_below 0 (take keep items) ([], [])) as [Hr Hf]; [done|done|]. rewrite length_take_le in Hr, Hf by lia.
  set (positions := fork_positions_loop 0 (take keep items) ([], [])) in *. clearbody positions. simpl in Hr, Hf.
  destruct (drop keep items) as [|item rest] eqn:Ed.
  { apply (f_equal length) in Ed. rewrite length_drop in Ed. simpl in Ed. lia. }
  cbn [fork_positions_loop] in Hi |- *. pose proof (list_elem_of_lookup_2 _ _ _ Hi) as Hin.
  pose proof (fork_loop_in (S keep) rest _ keep ltac:(lia) Hin) as Hin'.
  assert (Hstep : same_from keep (fork_step keep item positions) (fork_step 0 item ([], [])) /\
                  list.head (fork_step 0 item ([], [])).2 = Some 0).
  { destruct positions as [r f]. assert (Hno : keep ∉ f) by (intros Hk; rewrite list.Forall_forall in Hf; specialize (Hf _ Hk); simpl in *; lia).
    destruct item as [|item|c|ctx|[id|id|id rs|num_turns w|m|m j|j l|e]]; try by destruct (Hno Hin').
    - simpl in Hin' |- *. destruct (is_real_user_message_boundary item || is_trigger_turn_boundary item); [|by destruct (Hno Hin')].
      split; [|done]. exists r, f. simpl. rewrite Nat.add_0_r. split_and!; try done.
      destruct (is_user_turn_boundary item); simpl; by rewrite ?Nat.add_0_r, ?app_nil_r.
    - exfalso. rewrite fork_step_rollback in Hin'. cbn zeta in Hin'. destruct (_ =? 0); [done|].
      destruct (rollback_start _ r); [|done]. simpl in Hin'. apply list_elem_of_In, List.filter_In in Hin' as [?%list_elem_of_In _]. done. }
  destruct Hstep as [Hsame Hhead]. rewrite <- (Nat.add_1_r keep) in Hi, Hin |- *.
  destruct (fork_loop_same keep 1 rest _ _ Hsame Hhead ltac:(lia) Hin) as [(r0 & f0 & _ & Hf0 & _ & Ef) Hh].
  assert (Ht : Forall (fun p => 0 < p) (tail (fork_positions_loop 1 rest (fork_step 0 item ([], []))).2)).
  { apply fork_loop_tail; [lia|]. destruct item as [|item'|c|ctx|[]]; simpl; try by constructor.
    - destruct (_ || _); simpl; constructor.
    - destruct (_ =? 0); [by constructor|]. repeat case_match; simpl; constructor. }
  rewrite Ef in Hi |- *. set (part := (fork_positions_loop 1 rest (fork_step 0 item ([], []))).2) in *. clearbody part.
  destruct part as [|p part]; [done|]. injection Hh as ->. simpl in Ht, Hi.
  apply lookup_app_Some in Hi as [Hi|[Hge Hi]]; [pose proof (Forall_lookup_1 _ _ _ _ Hf0 Hi); simpl in *; lia|].
  destruct (i - length f0) as [|k] eqn:Ek; simpl in Hi.
  - replace i with (length f0) by lia. by rewrite drop_app_length.
  - fold (shifted keep part) in Hi. rewrite shifted_lookup in Hi. destruct (part !! k) as [q|] eqn:Eq; [|done].
    pose proof (Forall_lookup_1 _ _ _ _ Ht Eq). simpl in *. injection Hi. lia.
Qed.
End ForkTurnFacts.

(** * What rollbacks leave *)

Section SurvivorFacts.
Context `{HistoryTypes} `{RolloutTypes} `{HistoryCodecs}.
#[local] Open Scope nat_scope.

(** The items before the [n]-th turn from the end, each with its position. *)
Definition without_turns (n : nat) (kept : list (nat * ResponseItem)) : list (nat * ResponseItem) :=
  take (length (before_turns n kept.*2)) kept.

(** The reference for positions: the items that come, less what every rollback
    takes off the end of them.  It knows nothing of lists of positions. *)
Fixpoint survivors_from (idx : nat) (items : list RolloutItem) (kept : list (nat * ResponseItem)) : list (nat * ResponseItem) :=
  match items with
  | [] => kept
  | item :: items =>
      survivors_from (S idx) items
        match item with
        | RolloutResponse item => kept ++ [(idx, item)]
        | RolloutEvent (ThreadRolledBack num_turns _) => without_turns (Z.to_nat (val num_turns)) kept
        | _ => kept
        end
  end.

Definition survivors (items : list RolloutItem) : list (nat * ResponseItem) := survivors_from 0 items [].

Definition selecting (p : ResponseItem -> bool) (kept : list (nat * ResponseItem)) : list (nat * ResponseItem) :=
  List.filter (fun at_ => p at_.2) kept.

Definition surviving (p : ResponseItem -> bool) (items : list RolloutItem) : list (nat * ResponseItem) :=
  selecting p (survivors items).

Definition is_fork_turn (item : ResponseItem) : bool := is_real_user_message_boundary item || is_trigger_turn_boundary item.

Definition none_is (p : RolloutItem -> bool) (items : list RolloutItem) : Prop := Forall (fun item => p item = false) items.

(** A turn that another agent opened. *)
Definition is_task (item : RolloutItem) : bool :=
  match item with
  | RolloutResponse (Message _ role content _ _) => bool_decide (role = "assistant") && is_inter_agent_instruction_content content
  | _ => false
  end.

Lemma selecting_app p l l' : selecting p (l ++ l') = selecting p l ++ selecting p l'.
Proof. apply List.filter_app. Qed.

Lemma selecting_snd p l : (selecting p l).*2 = List.filter p l.*2.
Proof.
  induction l as [|[i item] l IH]; [done|]. unfold selecting in *. rewrite fmap_cons. cbn [List.filter snd].
  destruct (p item); rewrite ?fmap_cons; by rewrite IH.
Qed.

Lemma before_turns_prefix n l : ∃ rest,
  l = before_turns n l ++ rest /\ user_turns rest = Nat.min n (user_turns l) /\
  (rest = [] \/ ∃ item post, rest = item :: post /\ is_user_turn_boundary item = true).
Proof.
  induction l as [|item l (rest & E & Ec & Hr)]; [exists []; split_and!; [done|by destruct n|by left]|].
  cbn [before_turns]. rewrite user_turns_cons. destruct (is_user_turn_boundary item) eqn:B; cbn [andb].
  - destruct (Nat.leb_spec (1 + user_turns l) n).
    + exists (item :: l). split_and!; [done|rewrite user_turns_cons, B; lia|right; by exists item, l].
    + exists rest. split_and!; [simpl; by rewrite <- E|lia|done].
  - exists rest. split_and!; [simpl; by rewrite <- E|lia|done].
Qed.

Lemma without_turns_split n kept : ∃ rest,
  kept = without_turns n kept ++ rest /\ user_turns rest.*2 = Nat.min n (user_turns kept.*2) /\
  (rest = [] \/ ∃ at_ post, rest = at_ :: post /\ is_user_turn_boundary at_.2 = true).
Proof.
  destruct (before_turns_prefix n kept.*2) as (rest & E & Ec & Hr). exists (drop (length (before_turns n kept.*2)) kept).
  unfold without_turns. rewrite take_drop.
  assert (Es : (drop (length (before_turns n kept.*2)) kept).*2 = rest).
  { rewrite fmap_drop. rewrite E at 2. apply drop_app_length. }
  rewrite Es. split_and!; [done|done|]. destruct (drop _ kept) as [|at_ post]; [by left|]. right. exists at_, post. split; [done|].
  destruct Hr as [->|(item & post' & -> & B)]; [done|]. simpl in Es. by injection Es as -> _.
Qed.

Lemma turns_selected kept : length (selecting is_user_turn_boundary kept) = user_turns kept.*2.
Proof. unfold user_turns. by rewrite <- selecting_snd, length_fmap. Qed.

(** A rollback takes the last turns that are left. *)
Lemma without_turns_takes n kept :
  selecting is_user_turn_boundary (without_turns n kept)
  = take (length (selecting is_user_turn_boundary kept) - n) (selecting is_user_turn_boundary kept).
Proof.
  destruct (without_turns_split n kept) as (rest & E & Ec & _).
  remember (without_turns n kept) as w eqn:Ew. clear Ew. subst kept. rewrite fmap_app, user_turns_app in Ec.
  rewrite selecting_app, length_app, !turns_selected, take_app_le by (rewrite turns_selected; lia).
  rewrite take_ge; [done|]. rewrite turns_selected. lia.
Qed.

Lemma without_none kept : without_turns 0 kept = kept.
Proof.
  destruct (without_turns_split 0 kept) as (rest & E & Ec & Hr). destruct Hr as [->|(at_ & post & -> & B)].
  - by rewrite app_nil_r in E.
  - rewrite fmap_cons in Ec. rewrite user_turns_cons, B in Ec. lia.
Qed.

(** ** User messages *)

Lemma visible_prompts_are_context content fragments prompts :
  parse_visible_hook_prompt_message content fragments = Some prompts ->
  fragments <> [] \/ is_contextual_user_message_content content = true.
Proof.
  revert fragments. induction content as [|item content IH]; intros fragments; simpl.
  - destruct fragments; [done|]. by left.
  - destruct item; try done. simpl. destruct (parse_hook_prompt_fragment _); [by right|].
    destruct (is_standard_contextual_user_text _); [by right|done].
Qed.

Lemma real_users_are_turns item :
  is_task (RolloutResponse item) = false -> is_real_user_message_boundary item = is_user_turn_boundary item.
Proof.
  destruct item as [? role content| | | | | | | | | | | | |]; try done. simpl. intros ->. rewrite orb_false_r.
  destruct (bool_decide (role = "user")); [|done]. simpl.
  destruct (parse_visible_hook_prompt_message content []) eqn:E; [|done].
  apply visible_prompts_are_context in E as [?| ->]; done.
Qed.

Lemma user_positions_survive idx items kept st :
  Forall (fun item => is_task item = false) items ->
  Forall (fun at_ => is_task (RolloutResponse at_.2) = false) kept ->
  st = (selecting is_real_user_message_boundary kept).*1 ->
  user_positions_loop idx items st = (selecting is_real_user_message_boundary (survivors_from idx items kept)).*1.
Proof.
  intros Hi. revert idx kept st. induction Hi as [|item items Ei Hi IH]; intros idx kept st Hk ->; simpl; [done|].
  destruct item as [|item|c|ctx|[id|id|id r|num_turns w|m|m i|i l|e]]; try (by apply IH).
  - apply IH; [apply list.Forall_app; by repeat constructor|]. rewrite selecting_app, fmap_app. simpl.
    destruct (is_real_user_message_boundary item); simpl; by rewrite ?app_nil_r.
  - destruct (without_turns_split (Z.to_nat (val num_turns)) kept) as (rest & Es & _).
    assert (Hk' : Forall (fun at_ => is_task (RolloutResponse at_.2) = false) (without_turns (Z.to_nat (val num_turns)) kept)).
    { rewrite Es in Hk. by apply list.Forall_app in Hk as [? _]. }
    apply IH; [done|]. assert (Eb : ∀ l, Forall (fun at_ => is_task (RolloutResponse at_.2) = false) l ->
      selecting is_real_user_message_boundary l = selecting is_user_turn_boundary l).
    { clear. induction 1 as [|at_ l E _ IH]; simpl; [done|]. by rewrite real_users_are_turns, IH. }
    rewrite !Eb by done. by rewrite without_turns_takes, fmap_take, length_fmap.
Qed.

Lemma user_positions_are_survivors items :
  Forall (fun item => is_task item = false) items ->
  user_message_positions_in_rollout items = (surviving is_real_user_message_boundary items).*1.
Proof. intros Hi. by apply user_positions_survive. Qed.

(** ** Fork turns *)

Lemma selected_before start w rest :
  Forall (fun at_ => at_.1 < start) w -> Forall (fun at_ => start <= at_.1) rest ->
  ∀ p, List.filter (fun i => i <? start) (selecting p (w ++ rest)).*1 = (selecting p w).*1.
Proof.
  intros Hw Hr p. rewrite selecting_app, fmap_app, List.filter_app.
  assert (E1 : List.filter (fun i => i <? start) (selecting p w).*1 = (selecting p w).*1).
  { apply filter_below, list.Forall_fmap, list.Forall_forall. intros at_ Hin. apply list_elem_of_In, List.filter_In in Hin as [Hin _].
    rewrite list.Forall_forall in Hw. by apply Hw, list_elem_of_In. }
  rewrite E1. assert (E2 : List.filter (fun i => i <? start) (selecting p rest).*1 = []); [|by rewrite E2, app_nil_r].
  clear -Hr. induction Hr as [|at_ rest Ha _ IH]; simpl; [done|]. destruct (p at_.2); simpl; [|done].
  destruct (Nat.ltb_spec at_.1 start); [lia|done].
Qed.

(** The positions kept are those of items, in order. *)
Definition in_order (idx : nat) (kept : list (nat * ResponseItem)) : Prop :=
  Forall (fun at_ => at_.1 < idx) kept /\ ∀ pre at_ post, kept = pre ++ at_ :: post ->
    Forall (fun b => b.1 < at_.1) pre /\ Forall (fun b => at_.1 <= b.1) post.

Lemma in_order_snoc idx kept item : in_order idx kept -> in_order (S idx) (kept ++ [(idx, item)]).
Proof.
  intros [Hall Ho]. split.
  - apply list.Forall_app. split; [|by repeat constructor; simpl]. eapply list.Forall_impl; [exact Hall|]. simpl. lia.
  - intros pre at_ post E. destruct (list_snoc_cases post) as [->|(post' & b & ->)].
    + apply app_inj_tail in E as [-> <-]. split; [done|constructor].
    + rewrite app_comm_cons, app_assoc in E. apply app_inj_tail in E as [E <-]. destruct (Ho _ _ _ E) as [? Hp].
      split; [done|]. apply list.Forall_app. split; [done|]. repeat constructor. simpl.
      rewrite E in Hall. apply list.Forall_app in Hall as [_ Hall]. inversion Hall. simpl in *. lia.
Qed.

Lemma in_order_prefix idx w rest : in_order idx (w ++ rest) -> in_order idx w.
Proof.
  intros [Hall Ho]. apply list.Forall_app in Hall as [Hw _]. split; [done|]. intros pre at_ post ->.
  destruct (Ho pre at_ (post ++ rest)) as [? Hp]; [by rewrite <- app_assoc|]. by apply list.Forall_app in Hp as [? _].
Qed.

Lemma in_order_later idx idx' kept : idx <= idx' -> in_order idx kept -> in_order idx' kept.
Proof. intros Hle [Hall Ho]. split; [|done]. eapply list.Forall_impl; [exact Hall|]. simpl. lia. Qed.

Lemma fork_rollback_survives idx num_turns restored kept :
  in_order idx kept ->
  fork_step idx (RolloutEvent (ThreadRolledBack num_turns restored))
    ((selecting is_user_turn_boundary kept).*1, (selecting is_fork_turn kept).*1)
  = ((selecting is_user_turn_boundary (without_turns (Z.to_nat (val num_turns)) kept)).*1,
     (selecting is_fork_turn (without_turns (Z.to_nat (val num_turns)) kept)).*1).
Proof.
  intros [Hall Ho]. rewrite fork_step_rollback. cbv zeta. set (n := Z.to_nat (val num_turns)).
  destruct (Nat.eqb_spec n 0) as [->|Hn]; [by rewrite without_none|].
  rewrite without_turns_takes, fmap_take, length_fmap.
  destruct (without_turns_split n kept) as (rest & E & Ec & Hr).
  remember (without_turns n kept) as w eqn:Ew. clear Ew. subst kept. rewrite fmap_app, user_turns_app in Ec.
  destruct Hr as [->|(at_ & post & -> & B)].
  - rewrite app_nil_r in *. change (user_turns [].*2) with 0 in Ec. rewrite Nat.add_0_r in Ec.
    assert (Ez : selecting is_user_turn_boundary w = []) by (apply length_zero_iff_nil; rewrite turns_selected; lia).
    rewrite Ez. unfold rollback_start. destruct (n <=? length _); simpl; by rewrite ?take_nil.
  - assert (Es : rollback_start n (selecting is_user_turn_boundary (w ++ at_ :: post)).*1 = Some at_.1).
    { pose proof (turns_selected w) as Hw. pose proof (turns_selected (at_ :: post)) as Hp.
      rewrite <- (length_fmap fst) in Hw, Hp. unfold rollback_start. rewrite selecting_app, fmap_app, length_app.
      assert (Ep : (selecting is_user_turn_boundary (at_ :: post)).*1 = at_.1 :: (selecting is_user_turn_boundary post).*1)
        by (unfold selecting; simpl; by rewrite B).
      destruct (Nat.leb_spec n (length (selecting is_user_turn_boundary w).*1 + length (selecting is_user_turn_boundary (at_ :: post)).*1)).
      - rewrite lookup_app_r by lia. rewrite Ep in *. by replace (_ - _ - _) with 0 by lia.
      - assert (En : (selecting is_user_turn_boundary w).*1 = []) by (apply length_zero_iff_nil; lia).
        by rewrite En, Ep. }
    rewrite Es. f_equal. destruct (Ho _ _ _ eq_refl) as [H1' H2']. apply selected_before; [done|]. by constructor.
Qed.

Lemma fork_positions_survive idx items kept :
  in_order idx kept ->
  fork_positions_loop idx items ((selecting is_user_turn_boundary kept).*1, (selecting is_fork_turn kept).*1)
  = ((selecting is_user_turn_boundary (survivors_from idx items kept)).*1,
     (selecting is_fork_turn (survivors_from idx items kept)).*1).
Proof.
  revert idx kept. induction items as [|item items IH]; intros idx kept Ho; cbn [fork_positions_loop survivors_from]; [done|].
  destruct item as [|item|c|ctx|[id|id|id r|num_turns w|m|m i|i l|e]];
    try (rewrite fork_step_other by done; apply IH; apply (in_order_later idx); [lia|done]).
  - rewrite <- (IH (S idx) (kept ++ [(idx, item)])); [|by apply in_order_snoc]. f_equal. rewrite !selecting_app, !fmap_app. cbn [fork_step].
    fold (is_fork_turn item).
    assert (Eone : ∀ p, selecting p [(idx, item)] = if p item then [(idx, item)] else []) by done. rewrite !Eone.
    destruct (is_user_turn_boundary item), (is_fork_turn item); cbn; by rewrite ?app_nil_r.
  - rewrite fork_rollback_survives by done. apply IH. apply (in_order_later idx); [lia|].
    destruct (without_turns_split (Z.to_nat (val num_turns)) kept) as (rest & E & _). rewrite E in Ho. by apply in_order_prefix in Ho.
Qed.

Lemma fork_positions_are_survivors items :
  fork_turn_positions_in_rollout items = (surviving is_fork_turn items).*1.
Proof.
  unfold fork_turn_positions_in_rollout. change ([], []) with
    ((selecting is_user_turn_boundary []).*1, (selecting is_fork_turn []).*1).
  rewrite fork_positions_survive; [done|]. split; [constructor|]. by intros [|? ?] ? ?.
Qed.

(** ** What survives is what the history keeps *)

Lemma process_keeps_boundary item policy :
  is_user_turn_boundary (process_item item policy) = is_user_turn_boundary item /\
  (is_user_turn_boundary item = true -> process_item item policy = item).
Proof. by destruct item. Qed.

Lemma boundary_is_api item : is_user_turn_boundary item = true -> is_api_message item = true.
Proof.
  destruct item as [? role content| | | | | | | | | | | | |]; try done. simpl. intros Hb.
  destruct (decide (role = "system")) as [->|]; [done|]. by rewrite bool_decide_eq_false_2.
Qed.

Lemma rolled_back_turns n items :
  List.filter is_user_turn_boundary (rolled_back n items) = List.filter is_user_turn_boundary (before_turns n items).
Proof.
  unfold rolled_back. destruct (_ =? 0); [done|]. destruct (drop_updates_split (before_turns n items)) as (updates & E & Hall).
  rewrite E at 2. rewrite List.filter_app. apply updates_no_turns in Hall. unfold user_turns in Hall.
  apply length_zero_iff_nil in Hall. by rewrite Hall, app_nil_r.
Qed.

Lemma before_turns_takes n items :
  List.filter is_user_turn_boundary (before_turns n items) = take (user_turns items - n) (List.filter is_user_turn_boundary items).
Proof.
  destruct (before_turns_prefix n items) as (rest & E & Ec & _).
  remember (before_turns n items) as w eqn:Ew. clear Ew. subst items.
  rewrite List.filter_app, user_turns_app in *. unfold user_turns in *.
  rewrite take_app_le by lia. rewrite take_ge by lia. done.
Qed.

Lemma replay_survives policy idx items kept cm :
  Forall (fun item => reset_of item = None) items ->
  List.filter is_user_turn_boundary (cm_items cm) = (selecting is_user_turn_boundary kept).*2 ->
  List.filter is_user_turn_boundary (cm_items (replay policy items cm))
  = (selecting is_user_turn_boundary (survivors_from idx items kept)).*2.
Proof.
  intros Hi. revert idx kept cm. induction Hi as [|item items Ei Hi IH]; intros idx kept cm E; [done|].
  cbn [replay fold_left survivors_from]. apply IH.
  destruct item as [|item|c|ctx|[id|id|id r|num_turns w|m|m i|i l|e]]; try done; cbn [replay_item].
  - rewrite record_items_are, selecting_app, fmap_app. cbn [replace cm_items]. rewrite List.filter_app, E. f_equal.
    destruct (process_keeps_boundary item policy) as [Eb Ep]. pose proof (boundary_is_api item) as Ha. simpl.
    destruct (is_user_turn_boundary item) eqn:B.
    + rewrite Ha by done. simpl. by rewrite Eb, Ep.
    + destruct (is_api_message item || is_workspace_checkpoint item); [|done]. simpl. by rewrite Eb.
  - simpl in Ei. by rewrite Ei.
  - rewrite drop_is_rolled_back. rewrite without_turns_takes, fmap_take, turns_selected, <- E. unfold user_turns.
    rewrite <- selecting_snd, <- E.
    destruct (Z.eqb_spec (val num_turns) 0) as [Ez|Hn].
    + rewrite Ez. rewrite take_ge; [done|]. simpl. lia.
    + by rewrite rolled_back_turns, before_turns_takes.
Qed.

(** ** The cuts *)

Lemma survivors_are_items idx items kept (at_item : nat -> option RolloutItem) :
  Forall (fun at_ => at_item at_.1 = Some (RolloutResponse at_.2)) kept ->
  (∀ k item, items !! k = Some item -> at_item (idx + k) = Some item) ->
  Forall (fun at_ => at_item at_.1 = Some (RolloutResponse at_.2)) (survivors_from idx items kept).
Proof.
  revert idx kept. induction items as [|item items IH]; intros idx kept Hk Hi; simpl; [done|].
  assert (Hhead : at_item idx = Some item) by (rewrite <- (Nat.add_0_r idx); by apply Hi).
  apply IH; [|intros k other E; specialize (Hi (S k) other E); by rewrite Nat.add_succ_r in Hi].
  destruct item as [|item|c|ctx|[]]; try done.
  - apply list.Forall_app. by repeat constructor.
  - by apply Forall_take.
Qed.

Lemma surviving_are_items p items :
  Forall (fun at_ => items !! at_.1 = Some (RolloutResponse at_.2)) (surviving p items).
Proof.
  pose proof (survivors_are_items 0 items [] (fun i => items !! i) ltac:(constructor) ltac:(done)) as Hall.
  rewrite list.Forall_forall in Hall |- *. intros at_ Hin. apply list_elem_of_In, List.filter_In in Hin as [Hin _].
  by apply Hall, list_elem_of_In.
Qed.

Lemma same_positions (items : list RolloutItem) (l l' : list (nat * ResponseItem)) :
  Forall (fun at_ => items !! at_.1 = Some (RolloutResponse at_.2)) l ->
  Forall (fun at_ => items !! at_.1 = Some (RolloutResponse at_.2)) l' -> l.*1 = l'.*1 -> l = l'.
Proof.
  intros Hl. revert l'. induction Hl as [|[i item] l E _ IH]; intros [|[i' item'] l'] Hl' Ef; try done.
  inversion Hl'; subst. rewrite !fmap_cons in Ef. simpl in *. injection Ef as -> Ef.
  assert (item' = item) as -> by congruence. f_equal. by apply IH.
Qed.

Lemma nth_user_beyond items n :
  (0 <= n)%Z -> none_is is_task items -> (len (surviving is_real_user_message_boundary items) <= n)%Z ->
  truncate_rollout_before_nth_user_message_from_start items n = items.
Proof.
  intros Hn Ht Hle. unfold truncate_rollout_before_nth_user_message_from_start.
  rewrite user_positions_are_survivors, length_fmap by done. rewrite (proj2 (Z.leb_le _ _) Hle). by destruct (_ =? _)%Z.
Qed.

Lemma nth_user_cut items n :
  (0 <= n < USIZE_MAX)%Z -> none_is is_task items -> (n < len (surviving is_real_user_message_boundary items))%Z ->
  let fork := truncate_rollout_before_nth_user_message_from_start items n in
  ∃ cut message, surviving is_real_user_message_boundary items !! Z.to_nat n = Some (cut, message) /\
    items !! cut = Some (RolloutResponse message) /\ fork = take cut items /\
    surviving is_real_user_message_boundary fork = take (Z.to_nat n) (surviving is_real_user_message_boundary items).
Proof.
  intros Hn Ht Hlt fork. pose proof (user_positions_are_survivors items Ht) as Ep.
  destruct (surviving is_real_user_message_boundary items !! Z.to_nat n) as [[cut message]|] eqn:E; [|apply lookup_ge_None in E; lia].
  pose proof (surviving_are_items is_real_user_message_boundary items) as Hall.
  assert (Ec : user_message_positions_in_rollout items !! Z.to_nat n = Some cut) by (rewrite Ep, list_lookup_fmap, E; done).
  assert (Ef : fork = take cut items).
  { unfold fork, truncate_rollout_before_nth_user_message_from_start. rewrite (proj2 (Z.eqb_neq _ _)) by lia.
    rewrite (proj2 (Z.leb_gt _ _)) by by rewrite Ep, length_fmap. by rewrite Ec. }
  exists cut, message. split_and!; [done|exact (Forall_lookup_1 _ _ _ _ Hall E)|done|]. rewrite Ef.
  destruct (cut_at_user_position items (Z.to_nat n) cut Ec) as [Hp _]. apply (same_positions items).
  - eapply list.Forall_impl; [apply surviving_are_items|]. intros [i item]. simpl. by intros [? _]%lookup_take_Some.
  - by apply Forall_take.
  - by rewrite <- user_positions_are_survivors, Hp, Ep, fmap_take by by apply Forall_take.
Qed.

Lemma last_turns_beyond items n :
  (0 < n)%Z -> (len (surviving is_fork_turn items) <= n)%Z -> truncate_rollout_to_last_n_fork_turns items n = items.
Proof.
  intros Hn Hle. unfold truncate_rollout_to_last_n_fork_turns. rewrite fork_positions_are_survivors, length_fmap.
  rewrite (proj2 (Z.leb_le _ _) Hle). by destruct (Z.eqb_spec n 0); [lia|].
Qed.

Lemma last_turns_cut items n :
  (0 < n < len (surviving is_fork_turn items))%Z ->
  let fork := truncate_rollout_to_last_n_fork_turns items n in
  let first := length (surviving is_fork_turn items) - Z.to_nat n in
  ∃ keep message, surviving is_fork_turn items !! first = Some (keep, message) /\
    items !! keep = Some (RolloutResponse message) /\ fork = drop keep items /\
    (surviving is_fork_turn fork).*2 = drop first (surviving is_fork_turn items).*2.
Proof.
  intros Hn fork first. pose proof (fork_positions_are_survivors items) as Ep.
  destruct (surviving is_fork_turn items !! first) as [[keep message]|] eqn:E; [|apply lookup_ge_None in E; lia].
  pose proof (surviving_are_items is_fork_turn items) as Hall.
  assert (Ec : fork_turn_positions_in_rollout items !! first = Some keep) by (rewrite Ep, list_lookup_fmap, E; done).
  assert (Ef : fork = drop keep items).
  { unfold fork, truncate_rollout_to_last_n_fork_turns. rewrite (proj2 (Z.eqb_neq _ _)) by lia.
    rewrite Ep, length_fmap, (proj2 (Z.leb_gt _ _)) by lia. fold first. by rewrite <- Ep, Ec. }
  exists keep, message. split_and!; [done|exact (Forall_lookup_1 _ _ _ _ Hall E)|done|]. rewrite Ef.
  pose proof (cut_at_fork_turn items first keep Ec) as Hp. rewrite Ep, fork_positions_are_survivors in Hp.
  rewrite <- fmap_drop.
  rewrite <- (same_positions items (prod_map (fun i => keep + i) id <$> surviving is_fork_turn (drop keep items))
                (drop first (surviving is_fork_turn items))).
  - rewrite <- list_fmap_compose. by apply list_fmap_ext.
  - apply list.Forall_fmap. eapply list.Forall_impl; [apply surviving_are_items|]. intros [i item]. simpl.
    by rewrite lookup_drop.
  - by apply Forall_drop.
  - rewrite fmap_drop, <- Hp. unfold shifted. rewrite <- list_fmap_compose. rewrite <- (list_fmap_compose fst). by apply list_fmap_ext.
Qed.

Lemma replayed_turns_are_survivors policy items :
  Forall (fun item => reset_of item = None) items ->
  List.filter is_user_turn_boundary (cm_items (replay policy items ContextManager_new)) = (surviving is_user_turn_boundary items).*2.
Proof. intros Hi. by apply replay_survives. Qed.
End SurvivorFacts.

(** * Open turns *)

Section OpenTurnFacts.
Context `{HistoryTypes} `{RolloutTypes} `{HistoryCodecs}.
#[local] Open Scope nat_scope.

Definition is_turn_start (item : RolloutItem) : bool := match item with RolloutEvent (TurnStarted _) => true | _ => false end.

Definition is_real_user (item : RolloutItem) : bool :=
  match item with RolloutResponse item => is_real_user_message_boundary item | _ => false end.

(** What says nothing of how turns start and end. *)
Definition is_quiet (item : RolloutItem) : bool :=
  match item with
  | RolloutEvent (TurnStarted _ | TurnComplete _ | TurnAborted _ _ | ThreadRolledBack _ _) => false
  | RolloutEvent (ErrorMsg _ info) => negb (affects_turn_status info)
  | _ => true
  end.

(** An abort or an error that stops the turn [id]. *)
Definition stops (id : string) (item : RolloutItem) : bool :=
  match item with
  | RolloutEvent (TurnAborted None _) => true
  | RolloutEvent (TurnAborted (Some other) _) => bool_decide (other = id)
  | RolloutEvent (ErrorMsg _ info) => affects_turn_status info
  | _ => false
  end.

Definition all_quiet (items : list RolloutItem) : Prop := Forall (fun item => is_quiet item = true) items.

(** No turn has been announced, or the last one announced has completed. *)
Inductive no_turn_runs : list RolloutItem -> Prop :=
  | never_started items : none_is is_turn_start items -> no_turn_runs items
  | last_completed before id middle after :
      all_quiet middle -> none_is is_turn_start after ->
      no_turn_runs (before ++ RolloutEvent (TurnStarted id) :: middle ++ RolloutEvent (TurnComplete id) :: after).

(** A rollout that ends inside a turn: one that was announced, or one that only its
    user message shows. *)
Inductive leaves_open : list RolloutItem -> option string -> Prop :=
  | announced before id after : all_quiet after -> leaves_open (before ++ RolloutEvent (TurnStarted id) :: after) (Some id)
  | unannounced before user after :
      no_turn_runs (before ++ user :: after) -> is_real_user user = true ->
      none_is is_turn_end after -> none_is is_rollback after -> leaves_open (before ++ user :: after) None.

(** One that does not. *)
Inductive leaves_closed : list RolloutItem -> Prop :=
  | without_users items : no_turn_runs items -> none_is is_real_user items -> leaves_closed items
  | behind_the_end before item after :
      no_turn_runs (before ++ item :: after) -> is_turn_end item = true -> none_is is_real_user after ->
      leaves_closed (before ++ item :: after)
  | stopped before id middle item after :
      all_quiet middle -> stops id item = true -> all_quiet after ->
      leaves_closed (before ++ RolloutEvent (TurnStarted id) :: middle ++ item :: after).

Lemma quiet_items_keep_turns items tracker :
  all_quiet items -> tt_current_turn (fold_left handle_rollout_item items tracker) = tt_current_turn tracker.
Proof.
  intros Hq. revert tracker. induction Hq as [|item items Eq _ IH]; intros tracker; [done|]. cbn [fold_left]. rewrite IH.
  destruct item as [| | | |[]]; try done. simpl in *. by destruct (affects_turn_status _).
Qed.

Lemma no_start_no_turn items tracker :
  none_is is_turn_start items -> tt_current_turn tracker = None ->
  tt_current_turn (fold_left handle_rollout_item items tracker) = None.
Proof.
  intros Hn. revert tracker. induction Hn as [|item items En _ IH]; intros tracker Et; [done|]. cbn [fold_left]. apply IH.
  destruct item as [| | | |[id|id|id r|n w|m|m info|i l|e]]; try done; cbn [handle_rollout_item handle_event].
  - unfold handle_turn_complete. simpl. rewrite Et. by destruct (update_first _ _ _).
  - unfold handle_turn_aborted. simpl. rewrite Et. destruct id; [|done]. by destruct (update_first _ _ _).
  - unfold finish_current_turn. simpl. rewrite Et. simpl. destruct (_ <=? _); done.
  - destruct (affects_turn_status _); [|done]. simpl. by rewrite Et.
Qed.

Lemma started_turn before id after :
  all_quiet after ->
  tt_current_turn (fold_left handle_rollout_item (before ++ RolloutEvent (TurnStarted id) :: after) tracker_new)
  = Some {| tl_id := id; tl_status := InProgress; tl_opened_explicitly := true; tl_rollout_start_index := length before |}.
Proof.
  intros Hq. rewrite fold_left_app. cbn [fold_left]. rewrite quiet_items_keep_turns by done. simpl.
  assert (Ei : ∀ items tracker, tt_next_rollout_index (fold_left handle_rollout_item items tracker)
                                = tt_next_rollout_index tracker + length items).
  { induction items as [|item items IH]; intros tracker; [simpl; lia|]. cbn [fold_left length]. rewrite IH.
    assert (Eone : tt_next_rollout_index (handle_rollout_item tracker item) = S (tt_next_rollout_index tracker)); [|lia].
    clear. destruct item as [| | | |[id|id|id r|n w|m|m info|i l|e]]; try done;
      cbn [handle_rollout_item handle_event]; unfold handle_turn_complete, handle_turn_aborted, finish_current_turn;
      simpl; repeat (case_match; simpl in *; simplify_eq); done. }
  unfold finish_current_turn. simpl. rewrite !Ei. by destruct (tt_current_turn _).
Qed.

Lemma no_turn_runs_current items :
  no_turn_runs items -> tt_current_turn (fold_left handle_rollout_item items tracker_new) = None.
Proof.
  intros [items' Hn|before id middle after Hm Ha]; [by apply no_start_no_turn|].
  rewrite app_comm_cons, app_assoc, fold_left_app. cbn [fold_left]. apply no_start_no_turn; [done|].
  pose proof (started_turn before id middle Hm) as Et. cbn [handle_rollout_item handle_event]. unfold handle_turn_complete.
  simpl. rewrite Et. simpl. rewrite bool_decide_eq_true_2 by done. done.
Qed.

Lemma user_positions_grow idx items st :
  none_is is_rollback items ->
  ∃ new, user_positions_loop idx items st = st ++ new /\ Forall (fun i => idx <= i) new.
Proof.
  intros Hn. revert idx st. induction Hn as [|item items En _ IH]; intros idx st; simpl; [exists []; by rewrite app_nil_r|].
  assert (Hkeep : ∃ new, user_positions_loop (S idx) items st = st ++ new /\ Forall (fun i => idx <= i) new).
  { destruct (IH (S idx) st) as (new & -> & Hall). exists new. split; [done|]. eapply list.Forall_impl; [exact Hall|]. simpl. lia. }
  destruct item as [|item|c|ctx|[]]; try done. destruct (is_real_user_message_boundary item); [|done].
  destruct (IH (S idx) (st ++ [idx])) as (new & -> & Hall). exists (idx :: new). rewrite <- app_assoc. split; [done|].
  constructor; [done|]. eapply list.Forall_impl; [exact Hall|]. simpl. lia.
Qed.

Lemma user_positions_stay idx items st :
  none_is is_real_user items -> ∃ j, user_positions_loop idx items st = take j st.
Proof.
  intros Hn. revert idx st. induction Hn as [|item items En _ IH]; intros idx st; simpl; [exists (length st); by rewrite firstn_all|].
  destruct item as [|item|c|ctx|[]]; try apply IH; [simpl in En; rewrite En; apply IH|].
  destruct (IH (S idx) (take (length st - Z.to_nat (val num_turns)) st)) as (j & ->). rewrite take_take. by eexists.
Qed.

Lemma open_users before user after :
  is_real_user user = true -> none_is is_turn_end after -> none_is is_rollback after ->
  snapshot_of_users (before ++ user :: after)
  = {| ends_mid_turn := true; active_turn_id := None; active_turn_start_index := None |}.
Proof.
  intros Eu He Hr. unfold snapshot_of_users, user_message_positions_in_rollout. rewrite user_positions_app. cbn [user_positions_loop Nat.add].
  destruct user as [|item|c|ctx|e]; try done. simpl in Eu. rewrite Eu.
  destruct (user_positions_grow (S (length before)) after (user_positions_loop 0 before [] ++ [length before]) Hr) as (new & -> & Hall).
  assert (Hl : ∃ p, list.last ((user_positions_loop 0 before [] ++ [length before]) ++ new) = Some p /\ length before <= p).
  { rewrite last_app. destruct (list.last new) as [p|] eqn:El.
    - exists p. split; [done|]. rewrite last_lookup in El. pose proof (Forall_lookup_1 _ _ _ _ Hall El). simpl in *. lia.
    - exists (length before). rewrite last_app. by split. }
  destruct Hl as (p & -> & Hp). f_equal. apply negb_true_iff.
  apply not_true_is_false. intros Ht. apply existsb_elem in Ht as (e & Hin & Ee).
  rewrite cons_middle, app_assoc, drop_app_ge in Hin by (rewrite length_app; simpl; lia).
  apply list_elem_of_lookup in Hin as [k Hk]. rewrite lookup_drop in Hk.
  pose proof (Forall_lookup_1 _ _ _ _ He Hk). simpl in *. congruence.
Qed.

Lemma ended_users before item after :
  is_turn_end item = true -> none_is is_real_user after -> ends_mid_turn (snapshot_of_users (before ++ item :: after)) = false.
Proof.
  intros Ee Hu. unfold snapshot_of_users, user_message_positions_in_rollout. rewrite user_positions_app. cbn [user_positions_loop Nat.add].
  pose proof (user_positions_below 0 before [] ltac:(done)) as Hall. set (st := user_positions_loop 0 before []) in *. clearbody st.
  assert (Hj : ∃ j, user_positions_loop (S (length before)) after st = take j st) by by apply user_positions_stay.
  destruct Hj as [j Ej]. destruct item as [|item|c|ctx|[]]; try done; rewrite Ej;
    (destruct (list.last (take j st)) as [p|] eqn:El; [|done]; simpl; apply negb_false_iff, existsb_elem;
     assert (p < length before);
     [rewrite last_lookup in El; by apply (Forall_lookup_1 _ _ _ _ (Forall_take _ j _ Hall) El)
     |eexists; split; [|exact Ee]; rewrite drop_app_le by lia; apply elem_of_app; right; by left]).
Qed.

Lemma no_users_no_turn items : none_is is_real_user items -> ends_mid_turn (snapshot_of_users items) = false.
Proof.
  intros Hu. unfold snapshot_of_users, user_message_positions_in_rollout.
  destruct (user_positions_stay 0 items [] Hu) as [j ->]. by rewrite take_nil.
Qed.

(** The detector finds the turn that is open, and only then. *)
Lemma snapshot_of_open history turn_id :
  leaves_open (get_rollout_items history) turn_id ->
  ends_mid_turn (snapshot_turn_state history) = true /\ active_turn_id (snapshot_turn_state history) = turn_id.
Proof.
  intros Ho. unfold snapshot_turn_state. destruct Ho as [before id after Hq|before user after Hn Hu He Hr].
  - by rewrite started_turn.
  - rewrite no_turn_runs_current by done. by rewrite open_users.
Qed.

Lemma snapshot_of_closed history :
  leaves_closed (get_rollout_items history) -> ends_mid_turn (snapshot_turn_state history) = false.
Proof.
  intros Hc. unfold snapshot_turn_state. destruct Hc as [items Hn Hu|before item after Hn He Hu|before id middle item after Hm Hs Ha].
  - rewrite no_turn_runs_current by done. by apply no_users_no_turn.
  - rewrite no_turn_runs_current by done. by apply ended_users.
  - rewrite app_comm_cons, app_assoc, fold_left_app. cbn [fold_left]. rewrite quiet_items_keep_turns by done.
    pose proof (started_turn before id middle Hm) as Et.
    destruct item as [| | | |[| |[other|] r| | |m info| |]]; try done; simpl in Hs; cbn [handle_rollout_item handle_event].
    + unfold handle_turn_aborted. simpl. rewrite Et. simpl. apply bool_decide_eq_true in Hs as ->.
      rewrite bool_decide_eq_true_2 by done. done.
    + unfold handle_turn_aborted. simpl. by rewrite Et.
    + rewrite Hs. simpl. by rewrite Et.
Qed.
End OpenTurnFacts.

(** * Closed forks *)

Section ForkedHistoryFacts.
Context `{HistoryTypes} `{RolloutTypes} `{HistoryCodecs}.
#[local] Open Scope nat_scope.

Lemma marker_is_context : is_real_user_message_boundary interrupted_turn_history_marker = false.
Proof.
  assert (E : is_standard_contextual_user_text
    (str_bytes "<turn_aborted>" ++ NEWLINE ++ str_bytes TURN_ABORTED_INTERRUPTED_GUIDANCE ++ NEWLINE
     ++ str_bytes "</turn_aborted>") = true) by by vm_compute.
  unfold is_real_user_message_boundary, interrupted_turn_history_marker, is_contextual_user_message_content, is_contextual_user_fragment.
  cbn [parse_visible_hook_prompt_message existsb]. destruct (parse_hook_prompt_fragment _); [by simpl|].
  by rewrite E.
Qed.

Lemma committed_items history : get_rollout_items (committed_fork_history history) = get_rollout_items history.
Proof. by destruct history. Qed.

Lemma append_items history turn_id :
  get_rollout_items (append_interrupted_boundary history turn_id)
  = get_rollout_items history ++ [RolloutResponse interrupted_turn_history_marker; RolloutEvent (TurnAborted turn_id Interrupted)].
Proof. by destruct history. Qed.

Lemma snapshot_of_users_closed items turn_id :
  ends_mid_turn (snapshot_of_users
    (items ++ [RolloutResponse interrupted_turn_history_marker; RolloutEvent (TurnAborted turn_id Interrupted)])) = false.
Proof.
  unfold snapshot_of_users, user_message_positions_in_rollout. rewrite user_positions_app. cbn [user_positions_loop].
  rewrite marker_is_context. pose proof (user_positions_below 0 items [] ltac:(done)) as Hall.
  destruct (list.last (user_positions_loop 0 items [])) as [p|] eqn:E; [|done]. simpl.
  assert (p < length items).
  { rewrite last_lookup in E. by apply (Forall_lookup_1 _ _ _ _ Hall E). }
  rewrite drop_app_le by lia. apply negb_false_iff, existsb_exists. eexists. split; [|by instantiate (1 := RolloutEvent (TurnAborted _ _))].
  apply in_app_iff. right. right. by left.
Qed.

Lemma closed_fork_items history :
  get_rollout_items (fork_initial_history CurrentPersistedWithClosedTurn history)
  = get_rollout_items history
    ++ (if ends_mid_turn (snapshot_turn_state history)
        then [RolloutResponse interrupted_turn_history_marker;
              RolloutEvent (TurnAborted (active_turn_id (snapshot_turn_state history)) Interrupted)]
        else []).
Proof.
  unfold fork_initial_history. destruct (ends_mid_turn (snapshot_turn_state history)).
  - by rewrite append_items, committed_items.
  - by rewrite committed_items, app_nil_r.
Qed.

(** Behind the boundary, a turn that was open has ended. *)
Lemma boundary_closes items turn_id :
  leaves_open items turn_id ->
  leaves_closed (items ++ [RolloutResponse interrupted_turn_history_marker; RolloutEvent (TurnAborted turn_id Interrupted)]).
Proof.
  intros [before id after Hq|before user after Hn Hu He Hr].
  - set (marker := RolloutResponse interrupted_turn_history_marker).
    set (end_ := RolloutEvent (TurnAborted (Some id) Interrupted)).
    rewrite <- app_assoc, <- app_comm_cons, (app_assoc after [marker] [end_] : after ++ [marker; end_] = _).
    apply stopped; [|by apply bool_decide_eq_true_2|constructor]. apply list.Forall_app. by repeat constructor.
  - set (marker := RolloutResponse interrupted_turn_history_marker).
    set (end_ := RolloutEvent (TurnAborted None Interrupted)).
    rewrite (app_assoc _ [marker] [end_] : _ ++ [marker; end_] = _).
    apply behind_the_end; [|done|constructor]. rewrite <- app_assoc.
    destruct Hn as [items' Hn|b id middle rest Hm Ha].
    + apply never_started. apply list.Forall_app. by repeat constructor.
    + rewrite <- app_assoc, <- app_comm_cons, <- app_assoc, <- app_comm_cons.
      apply last_completed; [done|]. apply list.Forall_app. by repeat constructor.
Qed.

Lemma closed_fork_not_mid_turn history :
  ends_mid_turn (snapshot_turn_state (fork_initial_history CurrentPersistedWithClosedTurn history)) = false.
Proof.
  unfold fork_initial_history. destruct (ends_mid_turn (snapshot_turn_state history)) eqn:Emid.
  - revert Emid. unfold snapshot_turn_state. rewrite append_items, committed_items. set (items := get_rollout_items history).
    rewrite fold_left_app. set (tracker := fold_left handle_rollout_item items tracker_new). clearbody tracker.
    destruct (tt_current_turn tracker) as [turn|] eqn:Et; [destruct (tl_opened_explicitly turn) eqn:Eo|].
    + destruct (bool_decide (tl_status turn = InProgress)); [|done]. intros _. simpl. rewrite Et.
      rewrite bool_decide_eq_true_2 by done. simpl. by rewrite Eo.
    + intros _. assert (Ea : active_turn_id (snapshot_of_users items) = None) by (unfold snapshot_of_users; by destruct (list.last _)).
      rewrite Ea. simpl. rewrite Et. simpl. rewrite Eo. apply snapshot_of_users_closed.
    + intros _. assert (Ea : active_turn_id (snapshot_of_users items) = None) by (unfold snapshot_of_users; by destruct (list.last _)).
      rewrite Ea. simpl. rewrite Et. apply snapshot_of_users_closed.
  - revert Emid. unfold snapshot_turn_state. by rewrite committed_items.
Qed.
End ForkedHistoryFacts.
