(* ===== verification/Instances.v ===== *)
(** Concrete functions for the parameters of the model - digests, checksums,
    name-based identifiers and the JSON codec - and concrete values of the
    data types, on which the properties with hypotheses are instantiated; and a
    database for the index, two maps and the answers to the coming statements,
    which satisfies the laws. *)

From stdpp Require Import countable.
From S2P Require Import Prelude Canonical Events Commands Receipts Format CommandIndex Disk Model Projection ThreadIndex.

Open Scope string_scope.
Open Scope list_scope.
Open Scope Z_scope.

(** * A codec for the stored batch

    Values become trees of numbers and byte strings, and trees become bytes
    through their enumeration. *)

Abbreviation tree := (gen_tree (Z + bytes)).

Class Tree (A : Type) := {
  to_tree : A -> tree;
  of_tree : tree -> option A;
  tree_round : forall a, of_tree (to_tree a) = Some a
}.

Arguments to_tree : simpl never.
Arguments of_tree : simpl never.

Definition leaf (z : Z) : tree := GenLeaf (inl z).
Definition of_leaf (t : tree) : option Z := match t with GenLeaf (inl z) => Some z | _ => None end.

#[export] Instance tree_bytes : Tree bytes.
Proof.
  refine {| to_tree b := GenLeaf (inr b);
            of_tree t := match t with GenLeaf (inr b) => Some b | _ => None end |}.
  done.
Defined.

#[export] Instance tree_ranged lo hi : Tree (ranged lo hi).
Proof.
  refine {| to_tree x := leaf (val x); of_tree t := z ← of_leaf t; checked lo hi z |}.
  intros x. cbn. by apply checked_Some.
Defined.

(** A type whose values are determined by those of another. *)
Definition tree_via {A B} `{Tree B} (f : A -> B) (g : B -> option A) (E : forall a, g (f a) = Some a) : Tree A.
Proof.
  refine {| to_tree a := to_tree (f a); of_tree t := b ← of_tree t; g b |}.
  intros a. rewrite tree_round. apply E.
Defined.

#[export] Instance tree_string : Tree string.
Proof.
  refine (tree_via str_bytes (fun b => Some (String.string_of_list_byte b)) _).
  intros s. unfold str_bytes. by rewrite String.string_of_list_byte_of_string.
Defined.

#[export] Instance tree_array n : Tree (byte_array n).
Proof. refine (tree_via array_bytes (array_of n) _). intros a. by apply array_of_Some. Defined.

#[export] Instance tree_pair {A B} `{Tree A, Tree B} : Tree (A * B).
Proof.
  refine {| to_tree '(a, b) := GenNode 0 [to_tree a; to_tree b];
            of_tree t := match t with
                         | GenNode _ [a; b] => a ← of_tree a; b ← of_tree b; Some (a, b)
                         | _ => None
                         end |}.
  intros [a b]. cbn. by rewrite !tree_round.
Defined.

#[export] Instance tree_option {A} `{Tree A} : Tree (option A).
Proof.
  refine {| to_tree o := match o with Some a => GenNode 1 [to_tree a] | None => GenNode 0 [] end;
            of_tree t := match t with
                         | GenNode 0 [] => Some None
                         | GenNode _ [a] => a ← of_tree a; Some (Some a)
                         | _ => None
                         end |}.
  intros [a|]; [|done]. cbn. by rewrite tree_round.
Defined.

#[export] Instance tree_list {A} `{Tree A} : Tree (list A).
Proof.
  refine {| to_tree l := GenNode 0 (map to_tree l);
            of_tree t := match t with GenNode _ ts => mapM of_tree ts | _ => None end |}.
  intros l. induction l as [|a l IH]; [done|]. cbn. rewrite tree_round. cbn. cbn in IH. by rewrite IH.
Defined.

(** Enumerations without fields. *)
Definition tree_enum {A} (values : list A) (index : A -> nat) (E : forall a, values !! index a = Some a) : Tree A.
Proof.
  refine {| to_tree a := leaf (Z.of_nat (index a)); of_tree t := z ← of_leaf t; values !! Z.to_nat z |}.
  intros a. cbn. by rewrite Nat2Z.id, E.
Defined.

Ltac tree_cases := intros []; first [reflexivity | cbn; repeat (rewrite tree_round; cbn); done].

#[export] Instance tree_bool : Tree bool.
Proof. refine (tree_enum [false; true] (fun b => if b then 1 else 0)%nat _). tree_cases. Defined.
#[export] Instance tree_id k : Tree (uuid_id k).
Proof. refine (tree_via as_uuid (fun u => Some (from_uuid u)) _). tree_cases. Defined.
#[export] Instance tree_receipt_id : Tree ReceiptId.
Proof. refine (tree_via receipt_uuid (fun u => Some {| receipt_uuid := u |}) _). tree_cases. Defined.
#[export] Instance tree_digest : Tree Digest.
Proof. refine (tree_via digest_array (fun a => Some (digest_from_bytes a)) _). tree_cases. Defined.
#[export] Instance tree_revision : Tree ThreadRevision.
Proof. refine (tree_via revision_get (fun r => Some (revision_new r)) _). tree_cases. Defined.
#[export] Instance tree_revision_ref : Tree ThreadRevisionRef.
Proof.
  refine (tree_via (fun r => (ref_thread_id r, ref_revision r))
            (fun '(t, r) => Some {| ref_thread_id := t; ref_revision := r |}) _). tree_cases.
Defined.
#[export] Instance tree_actor : Tree ThreadActor.
Proof.
  refine {| to_tree a := match a with
              | ActorUser => GenNode 0 [] | ActorAgent => GenNode 1 [] | ActorRuntime => GenNode 2 []
              | ActorSystem => GenNode 3 [] | ActorImporter i => GenNode 4 [to_tree i] end;
            of_tree t := match t with
              | GenNode 0 [] => Some ActorUser | GenNode 1 [] => Some ActorAgent
              | GenNode 2 [] => Some ActorRuntime | GenNode 3 [] => Some ActorSystem
              | GenNode _ [i] => ActorImporter <$> of_tree i
              | _ => None end |}.
  tree_cases.
Defined.
#[export] Instance tree_content : Tree ContentRef.
Proof.
  refine {| to_tree c := match c with
              | InlineText text => GenNode 0 [to_tree text]
              | Artifact d n m => GenNode 1 [to_tree d; to_tree n; to_tree m] end;
            of_tree t := match t with
              | GenNode 0 [text] => InlineText <$> of_tree text
              | GenNode _ [d; n; m] => d ← of_tree d; n ← of_tree n; m ← of_tree m; Some (Artifact d n m)
              | _ => None end |}.
  tree_cases.
Defined.
#[export] Instance tree_item_kind : Tree TranscriptItemKind.
Proof.
  refine (tree_enum [UserMessage; AssistantMessage; ReasoningSummary; ToolCall; ToolResult; FileChange;
                     CollaborationAction; SystemNotice; OpaqueImported] (fun k => Z.to_nat (item_kind_tag k)) _).
  tree_cases.
Defined.
#[export] Instance tree_abort_reason : Tree TurnAbortReason.
Proof.
  refine {| to_tree r := match r with
              | Interrupted => GenNode 0 [] | Replaced => GenNode 1 [] | ReviewEnded => GenNode 2 []
              | OtherReason d => GenNode 3 [to_tree d] end;
            of_tree t := match t with
              | GenNode 0 [] => Some Interrupted | GenNode 1 [] => Some Replaced
              | GenNode 2 [] => Some ReviewEnded | GenNode _ [d] => OtherReason <$> of_tree d
              | _ => None end |}.
  tree_cases.
Defined.
#[export] Instance tree_route : Tree AgentEventRoute.
Proof.
  refine (tree_enum [RouteTurnStarted; RouteUserMessage; RouteAssistantMessage; RouteTranscript; RouteOther]
            (fun r => Z.to_nat (route_tag r)) _). tree_cases.
Defined.

(** ** Event bodies *)

Definition body_to_tree (b : ThreadEventBody) : tree :=
  match b with
  | ThreadCreated a b c => GenNode 0 [to_tree a; to_tree b; to_tree c]
  | ThreadNameSet a => GenNode 1 [to_tree a]
  | ThreadSummarySet a => GenNode 2 [to_tree a]
  | ThreadArchived a => GenNode 3 [to_tree a]
  | ThreadWorkspaceSet a => GenNode 4 [to_tree a]
  | TurnStarted a b => GenNode 5 [to_tree a; to_tree b]
  | TurnExecutionContextCaptured a b => GenNode 6 [to_tree a; to_tree b]
  | NativeAgentEventRecorded a b c d e => GenNode 7 [to_tree a; to_tree b; to_tree c; to_tree d; to_tree e]
  | TranscriptItemCreated a b c d => GenNode 8 [to_tree a; to_tree b; to_tree c; to_tree d]
  | TranscriptItemFinalized a b => GenNode 9 [to_tree a; to_tree b]
  | TranscriptItemCancelled a b => GenNode 10 [to_tree a; to_tree b]
  | TurnCompleted a => GenNode 11 [to_tree a]
  | TurnAborted a b => GenNode 12 [to_tree a; to_tree b]
  | TurnFailed a b c => GenNode 13 [to_tree a; to_tree b; to_tree c]
  | ModelContextBaselineReplaced a b c => GenNode 14 [to_tree a; to_tree b; to_tree c]
  | ModelContextSnapshotReplaced a b => GenNode 15 [to_tree a; to_tree b]
  | ModelContextRolledBack a => GenNode 16 [to_tree a]
  | TranscriptHeadMoved a b c => GenNode 17 [to_tree a; to_tree b; to_tree c]
  | ContentRedacted a b c => GenNode 18 [to_tree a; to_tree b; to_tree c]
  | ExternalHistoryImported a b c d e f g =>
      GenNode 19 [to_tree a; to_tree b; to_tree c; to_tree d; to_tree e; to_tree f; to_tree g]
  | OpaqueImportedEvent a b c => GenNode 20 [to_tree a; to_tree b; to_tree c]
  | ModelContextItemRecorded a b c => GenNode 21 [to_tree a; to_tree b; to_tree c]
  | TurnCostRecorded a => GenNode 22 [to_tree a]
  | ThreadResumeConfigSet a b c => GenNode 23 [to_tree a; to_tree b; to_tree c]
  | ThreadDynamicToolsSet a => GenNode 24 [to_tree a]
  | ThreadPreviewSet a b => GenNode 25 [to_tree a; to_tree b]
  | AgentEventMetadataReconciled a => GenNode 26 [to_tree a]
  | AgentEventTimelineReconciled a b c => GenNode 27 [to_tree a; to_tree b; to_tree c]
  end.

(** Reads the fields of a constructor. *)
Section Read.
Context {A B C D E F G R : Type} `{Tree A, Tree B, Tree C, Tree D, Tree E, Tree F, Tree G}.
Definition read1 (k : A -> R) (ts : list tree) : option R :=
  match ts with [a] => a ← of_tree a; Some (k a) | _ => None end.
Definition read2 (k : A -> B -> R) (ts : list tree) : option R :=
  match ts with [a; b] => a ← of_tree a; b ← of_tree b; Some (k a b) | _ => None end.
Definition read3 (k : A -> B -> C -> R) (ts : list tree) : option R :=
  match ts with
  | [a; b; c] => a ← of_tree a; b ← of_tree b; c ← of_tree c; Some (k a b c)
  | _ => None end.
Definition read4 (k : A -> B -> C -> D -> R) (ts : list tree) : option R :=
  match ts with
  | [a; b; c; d] => a ← of_tree a; b ← of_tree b; c ← of_tree c; d ← of_tree d; Some (k a b c d)
  | _ => None end.
Definition read5 (k : A -> B -> C -> D -> E -> R) (ts : list tree) : option R :=
  match ts with
  | [a; b; c; d; e] =>
      a ← of_tree a; b ← of_tree b; c ← of_tree c; d ← of_tree d; e ← of_tree e; Some (k a b c d e)
  | _ => None end.
Definition read7 (k : A -> B -> C -> D -> E -> F -> G -> R) (ts : list tree) : option R :=
  match ts with
  | [a; b; c; d; e; f; g] =>
      a ← of_tree a; b ← of_tree b; c ← of_tree c; d ← of_tree d; e ← of_tree e; f ← of_tree f;
      g ← of_tree g; Some (k a b c d e f g)
  | _ => None end.
End Read.

Definition body_of_tree (t : tree) : option ThreadEventBody :=
  match t with
  | GenLeaf _ => None
  | GenNode n ts =>
      match n with
      | 0 => read3 ThreadCreated ts
      | 1 => read1 ThreadNameSet ts
      | 2 => read1 ThreadSummarySet ts
      | 3 => read1 ThreadArchived ts
      | 4 => read1 ThreadWorkspaceSet ts
      | 5 => read2 TurnStarted ts
      | 6 => read2 TurnExecutionContextCaptured ts
      | 7 => read5 NativeAgentEventRecorded ts
      | 8 => read4 TranscriptItemCreated ts
      | 9 => read2 TranscriptItemFinalized ts
      | 10 => read2 TranscriptItemCancelled ts
      | 11 => read1 TurnCompleted ts
      | 12 => read2 TurnAborted ts
      | 13 => read3 TurnFailed ts
      | 14 => read3 ModelContextBaselineReplaced ts
      | 15 => read2 ModelContextSnapshotReplaced ts
      | 16 => read1 ModelContextRolledBack ts
      | 17 => read3 TranscriptHeadMoved ts
      | 18 => read3 ContentRedacted ts
      | 19 => read7 ExternalHistoryImported ts
      | 20 => read3 OpaqueImportedEvent ts
      | 21 => read3 ModelContextItemRecorded ts
      | 22 => read1 TurnCostRecorded ts
      | 23 => read3 ThreadResumeConfigSet ts
      | 24 => read1 ThreadDynamicToolsSet ts
      | 25 => read2 ThreadPreviewSet ts
      | 26 => read1 AgentEventMetadataReconciled ts
      | 27 => read3 AgentEventTimelineReconciled ts
      | _ => None
      end%nat
  end.

Lemma body_tree_round b : body_of_tree (body_to_tree b) = Some b.
Proof.
  destruct b; cbn; unfold read1, read2, read3, read4, read5, read7; repeat (rewrite tree_round; cbn); done.
Qed.

#[export] Instance tree_body : Tree ThreadEventBody :=
  {| to_tree := body_to_tree; of_tree := body_of_tree; tree_round := body_tree_round |}.

(** ** Envelopes, receipts and the stored batch, as nested pairs *)

#[export] Instance tree_envelope : Tree ThreadEventEnvelope.
Proof.
  refine (tree_via
    (fun e => (ev_schema_version e, ev_thread_id e, ev_revision e, ev_event_id e, ev_batch_id e,
               ev_sequence e, ev_recorded_at_unix_ms e, ev_actor e, ev_correlation_id e, ev_causation_id e,
               ev_body e, ev_payload_digest e, ev_previous_record_digest e, ev_record_digest e))
    (fun '(a, b, c, d, e, f, g, h, i, j, k, l, m, n) => Some
       {| ev_schema_version := a; ev_thread_id := b; ev_revision := c; ev_event_id := d; ev_batch_id := e;
          ev_sequence := f; ev_recorded_at_unix_ms := g; ev_actor := h; ev_correlation_id := i;
          ev_causation_id := j; ev_body := k; ev_payload_digest := l; ev_previous_record_digest := m;
          ev_record_digest := n |}) _).
  by intros [].
Defined.

#[export] Instance tree_status : Tree ReceiptStatus.
Proof.
  refine (tree_enum [StatusApplied; StatusNoOp; StatusRejected]
            (fun s => match s with StatusApplied => 0 | StatusNoOp => 1 | StatusRejected => 2 end)%nat _).
  by intros [].
Defined.
#[export] Instance tree_durability : Tree AchievedDurability.
Proof.
  refine (tree_enum [DurNone; DurVolatile; DurBuffered; DurDurable]
            (fun d => match d with DurNone => 0 | DurVolatile => 1 | DurBuffered => 2 | DurDurable => 3 end)%nat _).
  by intros [].
Defined.
#[export] Instance tree_diagnostic : Tree ReceiptDiagnostic.
Proof.
  refine (tree_via (fun d => (diag_code d, diag_message d, diag_path d))
            (fun '(c, m, p) => Some {| diag_code := c; diag_message := m; diag_path := p |}) _).
  by intros [].
Defined.
#[export] Instance tree_event_ref : Tree CommittedEventRef.
Proof.
  refine (tree_via (fun r => (cr_event_id r, cr_revision r))
            (fun '(e, r) => Some {| cr_event_id := e; cr_revision := r |}) _).
  by intros [].
Defined.
#[export] Instance tree_receipt : Tree ThreadCommandReceipt.
Proof.
  refine (tree_via
    (fun r => (r_schema_version r, r_receipt_id r, r_command_id r, r_command_digest r, r_batch_id r,
               r_status r, r_expected_revision r, r_revision_before r, r_revision_after r, r_events r,
               r_batch_digest r, r_durability r, r_diagnostics r, r_recorded_at_unix_ms r))
    (fun '(a, b, c, d, e, f, g, h, i, j, k, l, m, n) => Some
       {| r_schema_version := a; r_receipt_id := b; r_command_id := c; r_command_digest := d; r_batch_id := e;
          r_status := f; r_expected_revision := g; r_revision_before := h; r_revision_after := i;
          r_events := j; r_batch_digest := k; r_durability := l; r_diagnostics := m;
          r_recorded_at_unix_ms := n |}) _).
  by intros [].
Defined.
#[export] Instance tree_stored : Tree StoredBatchJson.
Proof.
  refine (tree_via
    (fun s => (sb_schema_version s, sb_thread_id s, sb_batch_id s, sb_command_id s, sb_command_digest s,
               sb_expected_revision s, sb_recorded_at_unix_ms s, sb_batch_digest s, sb_legacy_receipt s,
               sb_durability s, sb_receipt_schema_version s, sb_events s))
    (fun '(a, b, c, d, e, f, g, h, i, j, k, l) => Some
       {| sb_schema_version := a; sb_thread_id := b; sb_batch_id := c; sb_command_id := d;
          sb_command_digest := e; sb_expected_revision := f; sb_recorded_at_unix_ms := g;
          sb_batch_digest := h; sb_legacy_receipt := i; sb_durability := j;
          sb_receipt_schema_version := k; sb_events := l |}) _).
  by intros [].
Defined.

(** * The parameters *)

(** The bytes of a positive number, least significant first. *)
Fixpoint positive_size (p : positive) : nat :=
  match p with xH => 1 | xO p | xI p => S (positive_size p) end.

Definition tree_to_bytes (t : tree) : bytes :=
  let p := encode t in le_bytes (S (positive_size p / 8)) (Zpos p).

Definition tree_of_bytes (b : bytes) : option tree :=
  match le_value b with Zpos p => decode p | _ => None end.

Lemma positive_size_bound p : Zpos p < 2 ^ Z.of_nat (positive_size p).
Proof.
  induction p as [p IH|p IH|]; cbn [positive_size]; [| |done];
    rewrite Nat2Z.inj_succ, Z.pow_succ_r by lia; lia.
Qed.

Lemma tree_bytes_round t : tree_of_bytes (tree_to_bytes t) = Some t.
Proof.
  unfold tree_of_bytes, tree_to_bytes. set (p := encode t).
  rewrite le_value_le_bytes; [apply decode_encode|]. split; [done|].
  apply Z.lt_le_trans with (2 ^ Z.of_nat (positive_size p)); [apply positive_size_bound|].
  change 256 with (2 ^ 8). rewrite <- Z.pow_mul_r by lia. apply Z.pow_le_mono_r; [done|].
  pose proof (Nat.div_mod_eq (positive_size p) 8). pose proof (Nat.mod_upper_bound (positive_size p) 8). lia.
Qed.

#[export] Instance toy_codec : JsonCodec.
Proof.
  refine {| json_chunks s := [tree_to_bytes (to_tree s)];
            json_from_slice b := ok_or (t ← tree_of_bytes b; of_tree t) "malformed payload" |}.
  intros w. cbn [concat]. rewrite app_nil_r, tree_bytes_round. cbn. by rewrite tree_round.
Defined.

(** A checksum in place of the hash functions. *)
Definition checksum (seed modulus : Z) (b : bytes) : Z :=
  fold_left (fun acc x => (acc * 257 + Z_of_byte x + 1) mod modulus) b seed.

#[export] Instance toy_external : External := {|
  sha256 b := array_from 32 (le_bytes 32 (checksum 7 (2 ^ 61) b));
  crc32c b := u32_of (checksum 3 (2 ^ 32) b);
  uuid_v5 namespace b := array_from 16 (le_bytes 16 (checksum 5 (2 ^ 61) (array_bytes namespace ++ b)))
|}.

(** * Concrete values *)

Definition example_id (k : IdKind) (n : Z) : uuid_id k := from_uuid (array_from 16 (le_bytes 16 n)).
Definition example_thread : ThreadId := example_id ThreadKind 1.
Definition example_digest (n : Z) : Digest := digest_from_bytes (array_from 32 (le_bytes 32 n)).
Definition example_time : i64 := i64_of 1700000000000.

(** The [index]-th event of a batch after [revision], sealed onto [prior]. *)
Definition example_event (batch index revision : Z) (prior : Digest) : ThreadEventEnvelope :=
  envelope_new {|
    ne_thread_id := example_thread;
    ne_revision := revision_of (revision + index + 1);
    ne_event_id := example_id EventKind (batch * 100 + index);
    ne_batch_id := example_id BatchKind batch;
    ne_sequence := u32_of index;
    ne_recorded_at_unix_ms := example_time;
    ne_actor := ActorUser;
    ne_correlation_id := None;
    ne_causation_id := None;
    ne_body := ThreadNameSet (Some "name");
    ne_previous_record_digest := prior |}.

(** Batch [n], of the command with the same number, with one event on [head]. *)
Definition example_batch (n : Z) (head : ThreadHead) : JournalBatch := {|
  jb_thread_id := example_thread;
  jb_batch_id := example_id BatchKind n;
  jb_command_id := example_id CommandKind n;
  jb_command_digest := example_digest n;
  jb_expected_revision := head_revision head;
  jb_recorded_at_unix_ms := example_time;
  jb_events := [example_event n 0 (rev (head_revision head)) (head_digest head)]
|}.

Definition example_batch1 : JournalBatch := example_batch 1 HEAD_EMPTY.

(** A statement fails when its answer is [true]. *)
Record Tables := {
  tb_rows : gmap ThreadId ProjectionRow;
  tb_checkpoints : gmap ThreadId (list CheckpointRow);
  tb_failures : list bool
}.

Definition checkpoints_of (d : Tables) (t : ThreadId) : list CheckpointRow := default [] (tb_checkpoints d !! t).

Definition with_failures (failures : list bool) (d : Tables) : Tables :=
  {| tb_rows := tb_rows d; tb_checkpoints := tb_checkpoints d; tb_failures := failures |}.
Definition with_rows (rows : gmap ThreadId ProjectionRow) (d : Tables) : Tables :=
  {| tb_rows := rows; tb_checkpoints := tb_checkpoints d; tb_failures := tb_failures d |}.
Definition with_checkpoints (t : ThreadId) (rows : list CheckpointRow) (d : Tables) : Tables :=
  {| tb_rows := tb_rows d; tb_checkpoints := <[t := rows]> (tb_checkpoints d); tb_failures := tb_failures d |}.

Definition answer {A} (m : M Tables unit A) : M Tables unit A := fun d =>
  match tb_failures d with
  | true :: failures => (with_failures failures d, Err tt)
  | _ :: failures => m (with_failures failures d)
  | [] => m d
  end.

Definition tables_transaction {E A} (of_sql : unit -> E) (keep : A -> bool) (body : M Tables E A) : M Tables E A :=
  fun d =>
    match answer (fun d => (d, Ok tt)) d with
    | (d1, Err e) => (d1, Err (of_sql e))
    | (d1, Ok _) =>
        let '(d2, r) := body d1 in
        let undone := {| tb_rows := tb_rows d1; tb_checkpoints := tb_checkpoints d1; tb_failures := tb_failures d2 |} in
        match r with
        | Err e => (undone, Err e)
        | Ok a =>
            if keep a then
              match answer (fun d => (d, Ok tt)) d2 with
              | (d3, Ok _) => (d3, Ok a)
              | (d3, Err e) => (with_failures (tb_failures d3) undone, Err (of_sql e))
              end
            else (undone, Ok a)
        end
    end.

#[export] Instance tables_sqlite : Sqlite := {|
  Db := Tables;
  SqlError := unit;
  db_rows := tb_rows;
  db_checkpoints := checkpoints_of;
  db_works d := tb_failures d = [];
  sql_update t guard f := answer (fun d =>
    match tb_rows d !! t with
    | Some row => if guard row then (with_rows (<[t := default row (f row)]> (tb_rows d)) d, Ok 1) else (d, Ok 0)
    | None => (d, Ok 0)
    end);
  sql_upsert t row replace := answer (fun d =>
    match tb_rows d !! t with
    | Some old => if replace old then (with_rows (<[t := row]> (tb_rows d)) d, Ok tt) else (d, Ok tt)
    | None => (with_rows (<[t := row]> (tb_rows d)) d, Ok tt)
    end);
  sql_select t guard := answer (fun d =>
    (d, Ok (row ← tb_rows d !! t; if guard row then Some row else None)));
  sql_delete t := answer (fun d => (with_checkpoints t [] (with_rows (delete t (tb_rows d)) d), Ok tt));
  sql_insert_checkpoint t c := answer (fun d =>
    if bool_decide (is_Some (tb_rows d !! t)) && bool_decide (ck_ordinal c ∉ map ck_ordinal (checkpoints_of d t))
    then (with_checkpoints t (insert_row c (checkpoints_of d t)) d, Ok tt) else (d, Err tt));
  sql_delete_checkpoints t which := answer (fun d =>
    (with_checkpoints t (List.filter (fun c => negb (which (checkpoints_of d t) c)) (checkpoints_of d t)) d, Ok tt));
  sql_select_checkpoints t := answer (fun d => (d, Ok (checkpoints_of d t)));
  sql_transaction E A of_sql keep body := tables_transaction of_sql keep body
|}.

(** The outcomes of an answered statement. *)
Lemma answer_cases {A} (m : M Tables unit A) d d' r :
  answer m d = (d', r) ->
  exists d0, tb_rows d0 = tb_rows d /\ tb_checkpoints d0 = tb_checkpoints d /\
    (tb_failures d = [] -> tb_failures d0 = []) /\
    ((m d0 = (d', r)) \/ (d' = d0 /\ r = Err tt /\ tb_failures d <> [])).
Proof.
  unfold answer. destruct (tb_failures d) as [|[] failures] eqn:Ef.
  - intros E. exists d. do 3 (split; [done|]). by left.
  - intros [= <- <-]. exists (with_failures failures d). do 2 (split; [done|]). split; [done|]. by right.
  - intros E. exists (with_failures failures d). do 2 (split; [done|]). split; [done|]. by left.
Qed.

Lemma checkpoints_of_same d d0 t : tb_checkpoints d0 = tb_checkpoints d -> checkpoints_of d0 t = checkpoints_of d t.
Proof. unfold checkpoints_of. by intros ->. Qed.

Lemma checkpoints_of_with d t rows t' :
  checkpoints_of (with_checkpoints t rows d) t' = if bool_decide (t' = t) then rows else checkpoints_of d t'.
Proof.
  unfold checkpoints_of. cbn. case_bool_decide as E; [by subst; rewrite lookup_insert_eq|].
  by rewrite lookup_insert_ne.
Qed.

(** An answered statement, from what its body does on the same tables. *)
Lemma answer_statement {A} (m : M Tables unit A) d d' r (effect : Tables -> A -> Tables -> Prop) :
  answer m d = (d', r) ->
  (forall d0 d1 r0, tb_rows d0 = tb_rows d -> tb_checkpoints d0 = tb_checkpoints d -> m d0 = (d1, r0) ->
     tb_failures d1 = tb_failures d0 /\ exists a, r0 = Ok a /\ effect d0 a d1) ->
  (forall d0 a, tb_rows d0 = tb_rows d -> tb_checkpoints d0 = tb_checkpoints d -> effect d0 a d' -> effect d a d') ->
  statement (H := tables_sqlite) d d' r (fun a => effect d a d').
Proof.
  intros E Hm Hs. apply answer_cases in E as (d0 & Er & Ec & Hf & [E|(-> & -> & Hne)]).
  - destruct (Hm _ _ _ Er Ec E) as (Hf' & a & -> & Ha). split; [cbn; rewrite Hf'; done|]. by apply (Hs d0).
  - split; [done|]. split; [|done]. split; [done|]. intros t. by apply checkpoints_of_same.
Qed.

#[export] Instance tables_laws : SqliteLaws.
Proof.
  split.
  - intros t guard f d d' r E. apply (answer_statement _ _ _ _ (fun d n d' => (forall t, checkpoints_of d' t = checkpoints_of d t) /\
      match tb_rows d !! t with
      | Some row =>
          if guard row then
            n = 1 /\ forall row', f row = Some row' -> tb_rows d' = <[t := row']> (tb_rows d)
          else n = 0 /\ tb_rows d' = tb_rows d
      | None => n = 0 /\ tb_rows d' = tb_rows d
      end) E).
    + intros d0 d1 r0 _ _ E0. destruct (tb_rows d0 !! t) as [row|]; [destruct (guard row)|];
        injection E0 as <- <-; (split; [done|]); eexists; (split; [done|]); (split; [done|]); try done.
      split; [done|]. intros row' ->. done.
    + intros d0 n Er Ec [Hc Hn]. rewrite Er in Hn. split; [|done]. intros t'. rewrite Hc. by apply checkpoints_of_same.
  - intros t row replace d d' r E. apply (answer_statement _ _ _ _ (fun d _ d' => (forall t, checkpoints_of d' t = checkpoints_of d t) /\
      tb_rows d' = match tb_rows d !! t with
                   | Some old => if replace old then <[t := row]> (tb_rows d) else tb_rows d
                   | None => <[t := row]> (tb_rows d)
                   end) E).
    + intros d0 d1 r0 _ _ E0. destruct (tb_rows d0 !! t) as [old|]; [destruct (replace old)|];
        injection E0 as <- <-; (split; [done|]); eexists; (split; [done|]); (split; [done|]); done.
    + intros d0 n Er Ec [Hc Hn]. rewrite Er in Hn. split; [|done]. intros t'. rewrite Hc. by apply checkpoints_of_same.
  - intros t guard d d' r E. apply (answer_statement _ _ _ _ (fun (d : Tables) found (d' : Tables) => same_tables (H := tables_sqlite) d d' /\
      found = (row ← tb_rows d !! t; if guard row then Some row else None)) E).
    + intros d0 d1 r0 _ _ [= <- <-]. split; [done|]. by eexists.
    + intros d0 n Er Ec [[E1 E2] Hn]. cbn in *. rewrite Er in Hn, E1. split; [|done]. split; [done|].
      intros t'. cbn. rewrite E2. by apply checkpoints_of_same.
  - intros t d d' r E. apply (answer_statement _ _ _ _ (fun d _ d' => tb_rows d' = delete t (tb_rows d) /\
      forall t', checkpoints_of d' t' = if bool_decide (t' = t) then [] else checkpoints_of d t') E).
    + intros d0 d1 r0 _ _ [= <- <-]. split; [done|]. eexists. split; [done|]. split; [done|].
      intros t'. rewrite checkpoints_of_with. done.
    + intros d0 n Er Ec [E1 E2]. rewrite Er in E1. split; [done|]. intros t'. rewrite E2.
      by rewrite (checkpoints_of_same d d0).
  - intros t c d d' r E Hrow Hord. cbn in Hrow, Hord.
    apply (answer_statement _ _ _ _ (fun d _ d' => tb_rows d' = tb_rows d /\
      forall t', checkpoints_of d' t' =
        if bool_decide (t' = t) then insert_row c (checkpoints_of d t) else checkpoints_of d t') E).
    + intros d0 d1 r0 Er Ec E0. rewrite Er, (checkpoints_of_same d d0 t Ec) in E0.
      rewrite !bool_decide_eq_true_2 in E0 by done. injection E0 as <- <-. split; [done|]. eexists. split; [done|].
      split; [done|]. intros t'. rewrite checkpoints_of_with. by rewrite (checkpoints_of_same d d0 t Ec).
    + intros d0 n Er Ec [E1 E2]. rewrite Er in E1. split; [done|]. intros t'. rewrite E2.
      by rewrite !(checkpoints_of_same d d0).
  - intros t which d d' r E. apply (answer_statement _ _ _ _ (fun d _ d' => tb_rows d' = tb_rows d /\
      forall t', checkpoints_of d' t' =
        if bool_decide (t' = t)
        then List.filter (fun c => negb (which (checkpoints_of d t) c)) (checkpoints_of d t)
        else checkpoints_of d t') E).
    + intros d0 d1 r0 _ _ [= <- <-]. split; [done|]. eexists. split; [done|]. split; [done|].
      intros t'. by rewrite checkpoints_of_with.
    + intros d0 n Er Ec [E1 E2]. rewrite Er in E1. split; [done|]. intros t'. rewrite E2.
      by rewrite !(checkpoints_of_same d d0).
  - intros t d d' r E. apply (answer_statement _ _ _ _ (fun (d : Tables) found (d' : Tables) => same_tables (H := tables_sqlite) d d' /\
      found = checkpoints_of d t) E).
    + intros d0 d1 r0 _ _ [= <- <-]. split; [done|]. by eexists.
    + intros d0 n Er Ec [[E1 E2] Hn]. cbn in *. rewrite Er in E1. rewrite (checkpoints_of_same d d0 t Ec) in Hn.
      split; [|done]. split; [done|]. intros t'. cbn. rewrite E2. by apply checkpoints_of_same.
  - intros E A of_sql keep body d d' r Er. cbn in Er. unfold tables_transaction in Er.
    destruct (answer (fun d => (d, Ok tt)) d) as [d1 [[]|[]]] eqn:Eb;
      apply answer_cases in Eb as (d0 & Hr0 & Hc0 & Hf0 & [Hd|(-> & Hx & Hne)]); try discriminate; try (injection Hd as <-).
    2: { injection Er as <- <-. left. split; [split; [done|intros; by apply checkpoints_of_same]|]. split; [done|eauto]. }
    destruct (body d0) as [d2 rb] eqn:Ebody. right. exists d0, d2, rb. split; [done|].
    split; [split; [done|intros; by apply checkpoints_of_same]|]. split; [done|].
    assert (Hundone : forall f, same_tables d {| tb_rows := tb_rows d0; tb_checkpoints := tb_checkpoints d0; tb_failures := f |})
      by (intros f; split; [done|intros; by apply checkpoints_of_same]).
    destruct rb as [a|e]; [destruct (keep a)|].
    + destruct (answer (fun d => (d, Ok tt)) d2) as [d3 [[]|[]]] eqn:Ec;
        apply answer_cases in Ec as (d4 & Hr4 & Hc4 & Hf4 & [Hd|(-> & Hx & Hne)]); try discriminate; try (injection Hd as <-);
        injection Er as <- <-.
      * split; [tauto|]. left. split; [done|]. split; [done|intros; by apply checkpoints_of_same].
      * split; [intros _ Hw; by rewrite Hw in Hne|]. right. split; [apply Hundone|]. split; [done|eauto].
    + injection Er as <- <-. split; [tauto|]. split; [apply Hundone|done].
    + injection Er as <- <-. split; [tauto|]. split; [apply Hundone|done].
Qed.
