(* ===== verification/Examples.v ===== *)
(** Concrete journals: an empty directory, the journal a process opens in it,
    and the journal after one batch. *)

From S2P Require Import Prelude Canonical Events Commands Receipts Format FormatFacts.
From S2P Require Import CommandIndex Disk Model Recovery JournalSpec RecoveryFacts Journal JournalFacts AppendFacts CrashFacts OpenFacts.
From S2P Require Import SoundFacts Service Instances.

Open Scope string_scope.
Open Scope list_scope.
Open Scope Z_scope.

Definition example_config : JournalConfig := journal_config_new "root".

Definition empty_disk : Disk := {|
  d_files := ∅; d_others := ∅; d_synced := ∅; d_synced_names := ∅;
  d_lock_file := false; d_lock_held := false; d_writers := ∅; d_faults := [] |}.

Lemma example_config_valid : validate_config example_config = Ok tt.
Proof. vm_compute. reflexivity. Qed.

Lemma example_room : frame_room example_config.
Proof. vm_compute. reflexivity. Qed.

Lemma empty_dir : dir_holds [] empty_disk.
Proof.
  split.
  - by intros ? ? ?%not_elem_of_nil.
  - intros name content Hc. cbn in Hc. by rewrite lookup_empty in Hc.
  - intros name [c Hc]. cbn in Hc. by rewrite lookup_empty in Hc.
  - intros name Hn. cbn in Hn. set_solver.
Qed.

Lemma empty_fresh : fresh empty_disk.
Proof. split; [apply empty_dir|done]. Qed.

(** The journal process 1 opens in the empty directory. *)
Definition opened_disk : Disk := with_lock true true {[ 1%nat ]} empty_disk.
Definition opened_journal : ThreadJournal := {|
  tj_config := example_config; tj_thread_id := example_thread; tj_process := 1;
  tj_head := HEAD_EMPTY; tj_segments := []; tj_command_index := command_index_new;
  tj_pending_syncs := pending_default; tj_dirty_batch_count := u64_zero |}.

Lemma opened_inv : journal_inv example_config example_thread opened_journal [] opened_disk.
Proof.
  split; try done.
  - apply NoDup_nil_2.
  - split; constructor.
  - destruct empty_dir. by split.
Qed.

Lemma opened_room : append_room example_config opened_journal [].
Proof. split; [apply example_room|]. split; vm_compute; reflexivity. Qed.

Lemma opened_durable : durable_inv opened_journal [] opened_disk.
Proof. by intros k fs Hk. Qed.

(** After the first batch. *)
Definition first_append : (ThreadJournal * Disk) * result JournalError AppendOutcome :=
  append example_batch1 Durable (opened_journal, opened_disk).
Abbreviation first_journal := (fst (fst first_append)).
Abbreviation first_disk := (snd (fst first_append)).

Definition is_committed (r : result JournalError AppendOutcome) : bool :=
  match r with Ok (Committed _ _) => true | _ => false end.

Lemma first_committed : is_committed (snd first_append) = true.
Proof. vm_compute. reflexivity. Qed.

(** The state a committed first batch leaves. *)
Lemma committed_run batch durability run :
  append batch durability (opened_journal, opened_disk) = run -> is_committed (snd run) = true ->
  exists layout f, concat layout = [f] /\ frame_id f = jb_command_id batch /\
    frame_events f = jb_events batch /\ sb_command_digest (fr_stored f) = jb_command_digest batch /\
    journal_inv example_config example_thread (fst (fst run)) layout (snd (fst run)) /\
    append_room example_config (fst (fst run)) layout /\ healthy (snd (fst run)) /\
    durable_inv (fst (fst run)) layout (snd (fst run)).
Proof.
  intros Erun Hc.
  destruct (append_run example_config example_thread batch durability opened_journal [] opened_disk)
    as (j' & layout & d' & r & Hrun & Hspec & Hj & Hd & Hdirty & Hdur & _);
    [done|apply opened_inv|apply opened_room|].
  rewrite Hrun in Erun. subst run. cbn [fst snd] in *.
  inversion Hspec as [| | | | |f rc Hni Ha Hf Hrec Hbf Eframes Eout];
    try (subst r; discriminate Hc).
  destruct Hbf as (_ & Hid & Hev & Hdig). exists layout, f. cbn [concat app] in Eframes. rewrite <- Eframes.
  do 4 (split; [done|]). split; [done|].
  pose proof (layout_length _ _ _ _ _ (ji_layout _ _ _ _ _ Hj)) as Hl. rewrite <- Eframes in Hl. simpl length in Hl.
  change (val (tj_dirty_batch_count opened_journal)) with 0 in Hdirty.
  split; [split; [apply example_room|lia]|]. split; [done|]. apply Hdur.
  intros k fs Hk. done.
Qed.

Lemma first_inv : exists layout f,
  concat layout = [f] /\ frame_id f = jb_command_id example_batch1 /\
  frame_events f = jb_events example_batch1 /\
  sb_command_digest (fr_stored f) = jb_command_digest example_batch1 /\
  journal_inv example_config example_thread first_journal layout first_disk /\
  append_room example_config first_journal layout /\ healthy first_disk /\
  durable_inv first_journal layout first_disk.
Proof. exact (committed_run example_batch1 Durable first_append eq_refl first_committed). Qed.

Lemma first_head : rev (head_revision (tj_head first_journal)) = 1.
Proof. vm_compute. reflexivity. Qed.

(** The same for a reader that does not look inside the state. *)
Lemma first_state : exists j d layout f,
  concat layout = [f] /\ frame_id f = jb_command_id example_batch1 /\
  layout_events layout = jb_events example_batch1 /\
  layout_ok example_config example_thread 0 HEAD_EMPTY layout /\ distinct_commands layout /\
  dir_holds (segment_files example_thread 0 HEAD_EMPTY layout []) d /\ len layout <= 2 /\
  journal_inv example_config example_thread j layout d /\
  append_room example_config j layout /\ healthy d /\ durable_inv j layout d /\
  rev (head_revision (tj_head j)) = 1.
Proof.
  pose proof first_head as Hhead.
  destruct first_inv as (layout & f & El & Hid & Hev & _ & Hj & Hroom & Hd & Hdur).
  generalize dependent first_journal. generalize dependent first_disk. intros disk Hd j Hhead Hj Hroom Hdur.
  exists j, disk, layout, f.
  pose proof (layout_length _ _ _ _ _ (ji_layout _ _ _ _ _ Hj)) as Hl. rewrite El in Hl.
  do 2 (split; [done|]). split; [unfold layout_events; rewrite El; cbn [map concat]; by rewrite Hev, app_nil_r|].
  split; [apply (ji_layout _ _ _ _ _ Hj)|]. split; [apply (ji_distinct _ _ _ _ _ Hj)|].
  split; [apply (ji_dir _ _ _ _ _ Hj)|]. split; [simpl length in Hl; lia|done].
Qed.

(** The result of a committed append, taken apart. *)
Lemma committed_shape (call run : (ThreadJournal * Disk) * result JournalError AppendOutcome) :
  call = run -> is_committed (snd run) = true ->
  exists r events, call = ((fst (fst run), snd (fst run)), Ok (Committed r events)).
Proof. intros ->. destruct run as [[j d] [[r events|r]|e]]; try done. intros _. by exists r, events. Qed.

Lemma first_append_eq : exists r events,
  append example_batch1 Durable (opened_journal, opened_disk)
    = ((first_journal, first_disk), Ok (Committed r events)).
Proof.
  exact (committed_shape (append example_batch1 Durable (opened_journal, opened_disk)) first_append
           eq_refl first_committed).
Qed.

Definition example_max : u64 := jc_max_frame_payload_bytes example_config.

Lemma example_max_room : val example_max + 236 < 2 ^ 64.
Proof. vm_compute. reflexivity. Qed.

(** The frame of the first batch, and its validation. *)
Lemma encodes_and_validates :
  match encode_batch example_batch1 Durable example_max with
  | Ok e => is_ok (validate_stored_batch (ef_header e) (ef_stored e) example_thread HEAD_EMPTY)
  | Err _ => false
  end = true.
Proof. vm_compute. reflexivity. Qed.

Lemma example_encoded : exists e h',
  encode_batch example_batch1 Durable example_max = Ok e /\
  validate_stored_batch (ef_header e) (ef_stored e) example_thread HEAD_EMPTY = Ok h'.
Proof.
  pose proof encodes_and_validates as E.
  destruct (encode_batch example_batch1 Durable example_max) as [e|]; [|discriminate E].
  destruct (validate_stored_batch (ef_header e) (ef_stored e) example_thread HEAD_EMPTY) as [h'|] eqn:Ev;
    [by exists e, h'|discriminate E].
Qed.

(** A frame whose content does not matter. *)
Definition blank_frame : EncodedFrame := {|
  ef_bytes := repeat Byte.x00 5;
  ef_header := {| fh_payload_len := u64_zero; fh_start_revision := REVISION_ZERO; fh_end_revision := REVISION_ZERO;
                  fh_event_count := u32_of 0; fh_batch_id := array_zero 16; fh_command_id := array_zero 16;
                  fh_command_digest := DIGEST_ZERO; fh_previous_record_digest := DIGEST_ZERO;
                  fh_last_record_digest := DIGEST_ZERO; fh_payload_crc32c := u32_of 0 |};
  ef_stored := stored_of_batch example_batch1 Durable |}.

(** A directory with one file of three bytes. *)
Definition one_file_disk : Disk := with_files {[ "file" := repeat Byte.x01 3 ]} empty_disk.

(** The second batch, on the head the first one leaves. *)
Definition example_head1 : ThreadHead := {|
  head_revision := revision_of 1;
  head_digest := ev_record_digest (example_event 1 0 0 (head_digest HEAD_EMPTY)) |}.
Definition example_batch2 : JournalBatch := example_batch 2 example_head1.

(** Two processes: the second is refused while the first has the journal; the
    first repeats a command, then dies inside an append that wrote 100 bytes
    and could not truncate them; the second opens the remnant and goes on. *)
Definition step_of (c : Call) : Step := {| st_call := c; st_faults := [] |}.
Definition example_steps : list Step := [
  step_of (OpenCall 1); step_of (OpenCall 2);
  step_of (AppendCall 0 example_batch1 Durable); step_of (AppendCall 0 example_batch1 Durable);
  {| st_call := Crash 0 example_batch2 Buffered; st_faults := [None; None; Some 100%nat; Some 0%nat] |};
  step_of (OpenCall 2); step_of (AppendCall 0 example_batch2 Buffered);
  step_of (SyncCall 0); step_of (DropCall 0)].

(** The replies, in short. *)
Definition reply_code (r : Reply) : Z :=
  match r with
  | Opened (Ok _) => 1 | Opened (Err WriterBusy) => 2 | Opened (Err _) => 3
  | Appended (Ok (Committed _ _)) => 4 | Appended (Ok (Duplicate _)) => 5 | Appended (Err _) => 6
  | Synced (Ok _) => 7 | Synced (Err _) => 8 | Probed _ => 9 | Nothing => 0
  end.

Lemma example_replies :
  map reply_code (snd (perform_all example_config example_thread example_steps
                         {| w_open := []; w_disk := empty_disk |})) = [1; 2; 4; 5; 0; 1; 4; 7; 0].
Proof. vm_compute. reflexivity. Qed.

(** A directory in which a crash cut the header of the first segment. *)
Definition torn_header_disk : Disk :=
  with_files {[ segment_file_name (u64_of 0) := repeat Byte.x01 10 ]} empty_disk.

Lemma torn_header_crashed : crashed example_config example_thread [] torn_header_disk.
Proof.
  apply (crashed_header _ _ _ _ (repeat Byte.x01 10)); [done|constructor|]. cbn [segment_files app].
  change (u64_of (len [])) with (u64_of 0).
  assert (Hone : forall name content, d_files torn_header_disk !! name = Some content <->
            segment_file_name (u64_of 0) = name /\ repeat Byte.x01 10 = content)
    by (intros; apply lookup_singleton_Some).
  split.
  - intros name content [= -> ->]%list_elem_of_singleton. by apply Hone.
  - intros name content [<- <-]%Hone _. by apply list_elem_of_singleton.
  - intros name [c [<- _]%Hone]. apply segment_file_name_utf8.
  - intros name Hn. cbn in Hn. set_solver.
Qed.

(** A check of [plain_directory] that evaluates. *)
Definition plain_check (d : Disk) : bool :=
  forallb (fun '(name, content) =>
      match parse_segment_name name with
      | Some s => bool_decide (name = segment_file_name s)
      | None => true
      end && (len content <? 2 ^ 64)) (map_to_list (d_files d))
  && forallb (fun name => bool_decide (parse_segment_name name = None)) (elements (d_others d))
  && (Z.of_nat (size (d_files d)) <? 2 ^ 64).

Lemma plain_check_sound d : plain_check d = true -> plain_directory d.
Proof.
  unfold plain_check. rewrite !andb_true_iff, !forallb_forall. intros [[Hf Ho] Hs].
  assert (Hfile : forall name content, d_files d !! name = Some content ->
            (match parse_segment_name name with
             | Some s => bool_decide (name = segment_file_name s) | None => true end
             && (len content <? 2 ^ 64)) = true).
  { intros name content Hc. apply (Hf (name, content)). by apply list_elem_of_In, elem_of_map_to_list. }
  split.
  - intros name s [c Hc] Hp. apply Hfile in Hc. rewrite Hp in Hc. apply andb_true_iff in Hc as [Hc _].
    by apply bool_decide_eq_true in Hc.
  - intros name Hn. specialize (Ho name). rewrite bool_decide_eq_true in Ho.
    apply Ho, list_elem_of_In. by apply elem_of_elements.
  - intros name content Hc%Hfile. apply andb_true_iff in Hc as [_ Hc]. by apply Z.ltb_lt in Hc.
  - by apply Z.ltb_lt.
Qed.

(** What the recovery of the first batch's directory counts. *)
Definition recovery_counts (d : Disk) : option nat :=
  match snd (recover_with_mode (fun n _ => S n) example_config example_thread Writer 0%nat d) with
  | Ok (_, n) => Some n | Err _ => None
  end.

Lemma first_recovery : plain_check first_disk = true /\ recovery_counts first_disk = Some 1%nat.
Proof. split; vm_compute; reflexivity. Qed.

(** An append during which the write stops after 100 bytes and the truncation
    after it fails too. *)
Definition failing_disk : Disk :=
  with_faults [None; None; None; None; Some 100%nat; Some 0%nat] opened_disk.

Lemma failed_shape {A B} (call : A * result JournalError B) :
  is_ok (snd call) = false -> exists a e, call = (a, Err e).
Proof. destruct call as [a [b|e]]; [done|]. by exists a, e. Qed.

Lemma failing_append_fails : is_ok (snd (append example_batch1 Durable (opened_journal, failing_disk))) = false.
Proof. vm_compute. reflexivity. Qed.

Lemma failing_append : exists left r, append example_batch1 Durable (opened_journal, failing_disk) = (left, Err r).
Proof. exact (failed_shape _ failing_append_fails). Qed.

Lemma failing_inv : journal_inv example_config example_thread opened_journal [] failing_disk.
Proof. apply (journal_inv_dir _ _ _ _ opened_disk); [done|apply opened_inv]. Qed.

(** The power loss that keeps nothing but what was synced. *)
Definition worst_power_loss (d : Disk) : Disk := {|
  d_files := filter (fun p => bool_decide (p.1 ∈ d_synced_names d)
                              && (bool_decide (p.1 ∉ d_others d) || bool_decide (is_Some (d_files d !! p.1))))
                    (d_synced d);
  d_others := d_others d; d_synced := d_synced d; d_synced_names := d_synced_names d;
  d_lock_file := d_lock_file d; d_lock_held := false; d_writers := ∅; d_faults := [] |}.

Lemma worst_power_loss_is_one d : power_loss d (worst_power_loss d).
Proof.
  split; cbn [worst_power_loss d_files d_others d_lock_held d_writers d_faults]; [| |done|done].
  - intros name content Hn Hf Hs. apply map_lookup_filter_Some. split; [done|]. cbn [fst].
    rewrite bool_decide_eq_true_2 by done. rewrite (bool_decide_eq_true_2 (is_Some _)) by eauto.
    cbn [andb]. rewrite orb_true_r. done.
  - intros name [content [_ Hc]%map_lookup_filter_Some]. cbn [fst] in Hc.
    apply Is_true_true, andb_true_iff in Hc as [Hn Ho].
    apply bool_decide_eq_true in Hn. apply orb_true_iff in Ho as [Ho|Ho]; apply bool_decide_eq_true in Ho; tauto.
Qed.

(** A journal with small segments: the first batch is buffered, the journal is
    closed and opened again, and the second batch, in a new segment, is
    committed durably. *)
Definition small_config : JournalConfig := with_max_segment_bytes (u64_of 300) example_config.
Definition reopening_steps : list Step := [
  step_of (OpenCall 1); step_of (AppendCall 0 example_batch1 Buffered); step_of (DropCall 0);
  step_of (OpenCall 1); step_of (AppendCall 0 example_batch2 Durable)].
