(* ===== verification/StoreExamples.v ===== *)
(** Concrete threads: an empty directory with empty tables, the thread opened
    in it, the thread after its creation, and after some events of its agent. *)

From S2P Require Import Prelude Canonical Events Commands Receipts Format FormatFacts CommandIndex Disk Model Recovery JournalSpec.
From S2P Require Import RecoveryFacts Journal JournalFacts AppendFacts CrashFacts RangeFacts Projection ProjectionFacts ThreadIndex IndexFacts IndexReads.
From S2P Require Import OpenFacts Service LiveThread LiveFacts Interleaving Store StoreFacts Instances Examples.

Open Scope string_scope.
Open Scope list_scope.
Open Scope Z_scope.

(** * Journals whose numbers are not in question *)

Definition plain_body (b : ThreadEventBody) : bool :=
  match b with
  | TurnCostRecorded _ => false
  | NativeAgentEventRecorded agent_sequence _ _ _ _ => val agent_sequence <? 2 ^ 63
  | _ => true
  end.

Lemma plain_costs_exact `{External} es p : Forall (fun e => plain_body (ev_body e) = true) es -> exact_costs es p.
Proof.
  intros Hes. revert p. induction Hes as [|e es He _ IH]; intros p; [done|]. split; [|apply IH].
  unfold exact_cost, mutation_from_event. destruct (ev_body e); try done; by repeat case_match.
Qed.

Lemma plain_fits `{External} es :
  numbered 0 es -> len es < 2 ^ 63 -> Forall (fun b => plain_body b = true) (map ev_body es) -> fits_index es.
Proof.
  intros Hn Hl Hp. apply List.Forall_map in Hp. split.
  - split; [done|done|]. clear Hn Hl. induction es as [|e es IH] using rev_ind; [done|].
    apply list.Forall_app in Hp as [Hp He]. apply list.Forall_cons in He as [He _]. rewrite agent_max_snoc.
    specialize (IH Hp). unfold agent_sequence_of, agent_event. destruct (ev_body e); try lia. cbn in He.
    apply Z.ltb_lt in He. lia.
  - destruct es as [|e es]; [done|]. intros p _. apply plain_costs_exact. by apply list.Forall_cons in Hp as [_ Hp].
Qed.

(** * The empty store *)

Definition empty_tables : Db := {| tb_rows := ∅; tb_checkpoints := ∅; tb_failures := [] |}.

Definition example_draws (n : Z) : Draws := {|
  dr_clock := Some 1700000000000;
  dr_command_id := example_id CommandKind n;
  dr_batch_id := example_id BatchKind n;
  dr_event_id k := example_id EventKind (100 * n + Z.of_nat k) |}.

Lemma empty_crashed : crashed example_config example_thread [] empty_disk.
Proof.
  apply (crashed_tail _ _ _ _ []); [by constructor|done| |apply empty_dir].
  by intros ? ? ?%not_elem_of_nil.
Qed.

Lemma no_thread_events t : thread_events t [].
Proof. split; [by intros ? ? ?|constructor|by intros ? ? ?]. Qed.

Lemma empty_closed : closed "root" example_thread 1 [] empty_disk.
Proof.
  split; try done; [apply NoDup_nil_2|apply empty_crashed].
Qed.

Lemma empty_indexable : indexable [].
Proof. split; [by intros ? ? ?|done|done]. Qed.

Lemma empty_recoverable es : recoverable_index example_thread empty_tables es.
Proof. by intros row Hrow. Qed.

(** * The thread process 1 opens, and creates *)

Definition opened_store : (Disk * Db) * result ThreadStoreError LiveThreadStore :=
  open_thread 1 "root" example_thread (empty_disk, empty_tables).

(** A call on the thread a call before it left, if that succeeded. *)
Definition store_run (A : Type) : Type := (LiveThreadStore * Disk * Db) * result ThreadStoreError A.

Definition then_run {A B} (k : M (LiveThreadStore * Disk * Db) ThreadStoreError B) (run : option (store_run A))
    : option (store_run B) :=
  match run with Some (s, Ok _) => Some (k s) | _ => None end.

Definition opened_run : option (store_run unit) :=
  match opened_store with ((d, db), Ok l) => Some ((l, d, db), Ok tt) | _ => None end.

Definition created_run : option (store_run ThreadCommandReceipt) :=
  then_run (ensure_created (example_draws 1) "cli" "/work" None) opened_run.

(** A run that succeeded and left a journal of [n] events. *)
Definition run_reaches {A} (n : Z) (run : option (store_run A)) : bool :=
  match run with
  | Some (l, d, db, Ok _) => rev (head_revision (tj_head (lt_journal l))) =? n
  | _ => false
  end.

Lemma created_reaches : run_reaches 1 created_run = true.
Proof. vm_compute. reflexivity. Qed.

Lemma run_reached {A} n (run : option (store_run A)) :
  run_reaches n run = true ->
  exists l d db a, run = Some ((l, d, db), Ok a) /\ rev (head_revision (tj_head (lt_journal l))) = n.
Proof.
  destruct run as [[[[l d] db] [a|]]|]; try done. cbn. intros E%Z.eqb_eq. by exists l, d, db, a.
Qed.

(** What is known of a thread whose journal holds the bodies, after [k] commands. *)
Record example_state (k : Z) (bodies : list ThreadEventBody) (layout : Layout) (l : LiveThreadStore) (d : Disk) (db : Db)
    : Prop := {
  es_live : live_inv example_config example_thread layout l d;
  es_shows : shows db example_thread (layout_events layout);
  es_works : db_works db;
  es_process : tj_process (lt_journal l) = 1%nat;
  es_segments : len layout <= k;
  es_dirty : val (tj_dirty_batch_count (lt_journal l)) <= k;
  es_bodies : map ev_body (layout_events layout) = bodies
}.

Lemma state_room k bodies layout l d db :
  example_state k bodies layout l d db -> k < 1000 -> append_room example_config (lt_journal l) layout.
Proof. intros [] Hk. split; [apply example_room|]. split; lia. Qed.

Lemma opened_state : exists l d db,
  opened_run = Some ((l, d, db), Ok tt) /\ example_state 0 [] [] l d db /\
  lt_session_metadata l = session_metadata_of None.
Proof.
  destruct (open_thread_run "root" example_thread 1 [] empty_disk empty_tables empty_closed empty_indexable
              (empty_recoverable [])) as (d & db & r & Hrun & Hw & Hr).
  destruct r as [l|err]; [|destruct Hr as (_ & Hnw & _); by destruct (Hnw eq_refl)].
  destruct Hr as (Hl & [Hp Hdirty] & Hm & Hs & _). exists l, d, db.
  split; [unfold opened_run, opened_store; by rewrite Hrun|]. split; [|done].
  split; try done; [by apply Hw|]. by rewrite Hdirty.
Qed.

(** A command that adds all its events, as the journal's revision shows. *)
Lemma example_executes k bodies layout l d db draws actor corr command mode :
  example_state k bodies layout l d db -> k < 1000 ->
  event_bodies command <> [] -> len (bodies ++ event_bodies command) < 1000 ->
  forallb plain_body (bodies ++ event_bodies command) = true ->
  run_reaches (len (bodies ++ event_bodies command)) (Some (execute draws actor corr command mode (l, d, db))) = true ->
  exists l' d' db' receipt layout',
    execute draws actor corr command mode (l, d, db) = ((l', d', db'), Ok receipt) /\
    lt_session_metadata l' = lt_session_metadata l /\ fits_index (layout_events layout') /\
    (forall f, f ∈ concat layout' -> f ∈ concat layout \/ frame_id f = dr_command_id draws) /\
    example_state (k + 1) (bodies ++ event_bodies command) layout' l' d' db'.
Proof.
  intros Hst Hk Hne Hshort Hplain Hreach. pose proof Hst as [Hl Hs Hw Hp Hseg Hdirty Hb].
  destruct (execute_run example_config example_thread draws actor corr command mode layout l d db Hl)
    as (l' & layout' & d' & db' & ro & r & Hrun & Hspec & Hl' & (Hm & Hp' & Hg1 & Hg2) & _ & Hans);
    [by eapply state_room|].
  destruct (run_reached _ _ Hreach) as (l1 & d1 & db1 & a & E & Hrev). rewrite Hrun in E. injection E as -> -> -> ->.
  pose proof (live_head_revision _ _ _ _ _ Hl') as Hhead. rewrite Hrev in Hhead.
  pose proof (execute_spec_events _ _ _ _ _ _ _ _ _ _ Hspec) as Hev.
  assert (Hbodies : len (bodies ++ event_bodies command) = len (layout_events layout) + len (event_bodies command))
    by (rewrite <- Hb at 1; rewrite length_app, length_map; lia).
  assert (Hpos : 0 < len (event_bodies command)) by (destruct (event_bodies command); [done|cbn [length]; lia]).
  destruct ro as [o|e]; cbn [outcome_events] in Hev; [|rewrite layout_events_frames, Hev, <- layout_events_frames in Hhead; lia].
  destruct Hev as [Hcat [Ho|Ho]].
  { rewrite Ho, app_nil_r in Hcat. rewrite layout_events_frames, Hcat, <- layout_events_frames in Hhead. lia. }
  assert (Hfull : map ev_body (layout_events layout') = bodies ++ event_bodies command)
    by (rewrite layout_events_frames, Hcat, map_app, Ho, <- layout_events_frames; by rewrite Hb).
  assert (Hfit : fits_index (layout_events layout')).
  { apply plain_fits; [apply (te_numbered _ _ (li_events _ _ _ _ _ Hl'))|lia|].
    rewrite Hfull. apply list.Forall_forall. intros b Hb'. rewrite forallb_forall in Hplain.
    by apply Hplain, list_elem_of_In. }
  exists l1, d1, db1, a, layout'. split; [done|]. split; [done|]. split; [done|].
  split; [by apply (spec_commands _ _ _ _ _ _ _ _ _ _ Hspec)|].
  destruct (Hans (shows_honest _ _ _ Hs) Hfit) as (Hw' & _ & _ & [(_ & _ & Hshows)|[_ Hnw]]); [|by destruct (Hnw Hw)].
  split; try done; [|by apply Hw'|by rewrite Hp'|lia|lia].
  apply Hshows. intros E. rewrite E in Ho. cbn in Ho. by rewrite <- Ho in Hne.
Qed.

Definition created_body : ThreadEventBody := ThreadCreated "cli" "/work" None.

Lemma created_state : exists l d db receipt layout,
  created_run = Some ((l, d, db), Ok receipt) /\ example_state 1 [created_body] layout l d db /\
  fits_index (layout_events layout) /\ lt_session_metadata l = session_metadata_of None /\
  (forall f, f ∈ concat layout -> frame_id f = example_id CommandKind 1).
Proof.
  destruct opened_state as (l & d & db & Hopen & Hst & Hm). pose proof created_reaches as Hreach.
  unfold created_run in *. rewrite Hopen in *. cbn [then_run] in *.
  destruct (example_executes 0 [] [] l d db (example_draws 1) ActorRuntime None (Create "cli" "/work" None) CommitDurable Hst)
    as (l' & d' & db' & receipt & layout & Hrun & Hm' & Hfit & Hids & Hst'); try done.
  exists l', d', db', receipt, layout. split; [by rewrite <- Hrun|]. split; [exact Hst'|].
  split; [done|]. split; [by rewrite Hm', Hm|]. intros f [Hf|Hf]%Hids; [by apply not_elem_of_nil in Hf|done].
Qed.

(** The created thread closed again, with the index or without. *)
Lemma created_closed : exists layout d db,
  closed "root" example_thread 1 layout d /\ indexable (layout_events layout) /\
  map ev_body (layout_events layout) = [created_body] /\ len layout <= 1 /\
  shows db example_thread (layout_events layout) /\ db_works db.
Proof.
  destruct created_state as (l & d & db & receipt & layout & _ & Hst & [Hix _] & _).
  pose proof Hst as [Hl Hs Hw Hp Hseg _ Hb].
  exists layout, (drop_journal (lt_journal l) d), db. split; [|done].
  rewrite <- Hp. apply dropped_closed; [exact Hl|lia].
Qed.

(** Events of the agent after the creation. *)
Definition agent_body (n : Z) (route : AgentEventRoute) : ThreadEventBody :=
  NativeAgentEventRecorded (u64_of n) "event" None route (InlineText "payload").

Definition thread_event_at (revision batch sequence : Z) (body : ThreadEventBody) : ThreadEventEnvelope :=
  envelope_new {|
    ne_thread_id := example_thread;
    ne_revision := revision_of revision;
    ne_event_id := example_id EventKind revision;
    ne_batch_id := example_id BatchKind batch;
    ne_sequence := u32_of sequence;
    ne_recorded_at_unix_ms := example_time;
    ne_actor := ActorAgent;
    ne_correlation_id := None;
    ne_causation_id := None;
    ne_body := body;
    ne_previous_record_digest := example_digest revision |}.

Definition agent_batch : list ThreadEventEnvelope := [
  thread_event_at 2 2 0 (agent_body 1 RouteTurnStarted); thread_event_at 3 2 1 (agent_body 2 RouteOther);
  thread_event_at 4 2 2 (agent_body 3 RouteUserMessage)].

Lemma agent_batch_after es : numbered 0 es -> len es = 1 -> numbered 0 (es ++ agent_batch).
Proof.
  intros Hn Hl k e Hk. apply lookup_app_Some in Hk as [Hk|[Hge Hk]]; [by apply Hn|].
  destruct es as [|e0 [|]]; cbn [length] in *; try lia.
  destruct k as [|[|[|[|k]]]]; [lia| | | |done]; injection Hk as <-; vm_compute; reflexivity.
Qed.

(** The metadata of a session reconciled on the created thread. *)
Definition example_metadata : ThreadSessionMetadata := {|
  sm_name := Some "name"; sm_model := "model"; sm_model_provider := None; sm_reasoning_effort := None;
  sm_dynamic_tools := InlineText "tools" |}.

Definition reconciled_run : option (store_run bool) :=
  then_run (reconcile_session_metadata (example_draws 2) example_metadata CommitBuffered) created_run.

Lemma reconciled_reaches : run_reaches 4 reconciled_run = true.
Proof. vm_compute. reflexivity. Qed.

(** Two clones of a thread: one commits its creation, the other names it; the
    second is done with the index before the first begins. *)
Definition created_event : ThreadEventEnvelope := thread_event_at 1 1 0 created_body.
Definition named_event : ThreadEventEnvelope := thread_event_at 2 2 0 (ThreadNameSet (Some "name")).

Lemma two_events_numbered : numbered 0 [created_event; named_event].
Proof. intros [|[|k]] e Hk; [| |done]; injection Hk as <-; vm_compute; reflexivity. Qed.

Lemma two_thread_events : thread_events example_thread [created_event; named_event].
Proof.
  split; [apply two_events_numbered|repeat constructor|].
  intros [|[|k]] e Hk; [| |done]; by injection Hk as <-.
Qed.

Lemma two_events_fit : fits_index [created_event; named_event].
Proof. apply plain_fits; [apply two_events_numbered|done|by repeat constructor]. Qed.

Definition named_turn := apply_turn [named_event] empty_tables.
Definition named_projection : option ThreadIndexProjection := project [created_event; named_event].
Definition named_write : Db :=
  match named_projection with Some p => fst (index_replace p (fst named_turn)) | None => empty_tables end.
Definition late_turn := apply_turn [created_event] named_write.

(** The last turn succeeds, and leaves the row at the first revision. *)
Definition late_row : option (Z * option string) :=
  (fun row => (val (ro_revision row), ro_name row)) <$> db_rows (fst late_turn) !! example_thread.

Definition turn_misses {A E} (r : result E (option (list A))) : bool :=
  match r with Ok None => true | _ => false end.
Definition turn_ends {A E} (r : result E (option (list A))) : bool :=
  match r with Ok (Some []) => true | _ => false end.

Lemma turn_misses_eq {A E} (r : result E (option (list A))) : turn_misses r = true -> r = Ok None.
Proof. by destruct r as [[|]|]. Qed.
Lemma turn_ends_eq {A E} (r : result E (option (list A))) : turn_ends r = true -> r = Ok (Some []).
Proof. by destruct r as [[[|]|]|]. Qed.

Definition late_check : bool :=
  turn_misses (snd named_turn) && turn_ends (snd late_turn)
  && bool_decide (late_row = Some (1, None)) && is_empty (tb_failures (fst late_turn)).

Lemma late_checked : late_check = true.
Proof. vm_compute. reflexivity. Qed.

Lemma late_turn_run :
  snd named_turn = Ok None /\ snd late_turn = Ok (Some []) /\
  late_row = Some (1, None) /\ db_works (fst late_turn).
Proof.
  pose proof late_checked as E. unfold late_check in E. rewrite !andb_true_iff in E. destruct E as [[[En El] Er] Ew].
  split; [exact (turn_misses_eq _ En)|]. split; [exact (turn_ends_eq _ El)|].
  split; [by apply bool_decide_eq_true in Er|]. cbn. by destruct (tb_failures (fst late_turn)).
Qed.
