(* ===== verification/CapabilityExamples.v ===== *)
(** Concrete scopes, transactions and generations on which the theorems of the
    capability runtime are applied. *)

From S2P Require Import Prelude BTree Disk Listing Capabilities ScopeFacts ResolveFacts Generations GenerationFacts CapabilityRuntime RuntimeFacts CommitFacts RuntimeCalls.

Open Scope string_scope.
Open Scope list_scope.
Open Scope Z_scope.

(** The value of a call that succeeds; [d] is never used. *)
Definition the {E A} (d : A) (r : result E A) : A := match r with Ok a => a | Err _ => d end.

Lemma the_Ok {E A} (d : A) (r : result E A) : is_ok r = true -> r = Ok (the d r).
Proof. by destruct r. Qed.

Definition process : ScopeId := ScopeId_process.
Definition workspace : ScopeId := Scope "workspace".
Definition thread : ScopeId := Scope "thread".

Definition process_scopes : ScopeGraph := single_root process ScopeProcess.

Lemma process_scopes_built : scopes_built process_scopes.
Proof. constructor. Qed.

Definition storage : CapabilityId := CapId "storage".
Definition search : CapabilityId := CapId "search".
Definition editor : CapabilityId := CapId "editor".

Definition storage_manifest : CapabilityManifest := manifest_new storage KindService (OwnerId "core") workspace.
Definition search_manifest : CapabilityManifest :=
  with_dependencies [storage] (manifest_new search KindTool (OwnerId "plugin") thread).
Definition editor_manifest : CapabilityManifest := manifest_new editor KindApp (OwnerId "shell") process.

Definition payload_of (address : Z) : Payload := {| pl_type := "Service"; pl_address := address |}.
Definition disposer_of (id : Z) : CapabilityDisposer := {| di_id := id; di_outcome := DisposalOk |}.

(** A transaction that stages one capability. *)
Definition staging (m : CapabilityManifest) (n : Z) : CapabilityTransaction :=
  let tx := begin_transaction (mf_owner m) (mf_scope m) in
  the tx (stage_typed m n (ActivationOk (payload_of n) (disposer_of n)) tx).

Lemma staging_ok m n : tx_ok (staging m n).
Proof.
  unfold staging. destruct (stage_typed _ _ _ _) as [tx|e] eqn:E; [|apply begin_transaction_ok].
  apply stage_typed_ok in E as [? _]; [done|apply begin_transaction_ok].
Qed.

(** ** One capability published, and leased *)

Definition tx_editor : CapabilityTransaction := staging editor_manifest 7.

Definition nothing_prepared : Prepared :=
  {| pr_candidate := graph_new bt_empty; pr_replaced := []; pr_activation_order := []; pr_expected_revision := u64_of 0 |}.

Definition rt_new : Runtime := runtime_new process_scopes.
Definition pr_editor : Prepared := the nothing_prepared (commit_prepare tx_editor (rt_state rt_new)).
Definition act_editor : Activating * list Effect :=
  commit_activate (pr_activation_order pr_editor) (tx_staged tx_editor) nothing_activated.
Definition av_editor : ActivatedCapabilities := match fst act_editor with AllActivated av => av | _ => nothing_activated end.
Definition rt_activated : Runtime := with_effects (snd act_editor) rt_new.

Definition no_report : CapabilityCommitReport :=
  {| cr_generation := u64_of 0; cr_owner := OwnerId ""; cr_scope := process; cr_activated := []; cr_retired := [];
     cr_disposal_failures := [] |}.
Definition fin_editor := the (Ok no_report, rt_new) (commit_finish tx_editor pr_editor av_editor rt_activated).
Definition rt_published : Runtime := snd fin_editor.

Definition turn_editor := the (Invisible, rt_new) (acquire_turn process editor rt_published).
Definition rt_leased : Runtime := snd turn_editor.

Definition published_editor : list origin := [(av_payloads av_editor, av_disposers av_editor)].

Lemma activating_shape (r : Activating * list Effect) :
  match fst r with AllActivated _ => true | _ => false end = true ->
  r = (AllActivated (match fst r with AllActivated av => av | _ => nothing_activated end), snd r).
Proof. destruct r as [[| |] ?]; done. Qed.

Lemma finish_shape (r : result CapabilityCommitError CapabilityCommitReport * Runtime) :
  is_ok (fst r) = true -> r = (Ok (the no_report (fst r)), snd r).
Proof. by destruct r as [[|] ?]. Qed.

Lemma turn_shape (r : Turn * Runtime) p :
  match fst r with Leased q => Nat.eqb q p | _ => false end = true -> r = (Leased p, snd r).
Proof. destruct r as [[|q|] ?]; cbn; try done. intros E. by apply Nat.eqb_eq in E as ->. Qed.

Definition roomy (rt : Runtime) : bool :=
  (val (st_revision (rt_state rt)) + 1 <? 2 ^ 64) && (val (st_next_generation (rt_state rt)) + 1 <? 2 ^ 64).

Lemma roomy_room rt : roomy rt = true -> room rt.
Proof. unfold roomy, room. rewrite andb_true_iff, !Z.ltb_lt. done. Qed.

Lemma editor_published : rtc call (system_new process_scopes) (system rt_published [] published_editor []).
Proof.
  eapply rtc_l.
  { apply (prepares tx_editor pr_editor); [apply staging_ok|]. apply the_Ok. vm_compute. reflexivity. }
  eapply rtc_l.
  { apply (activates_all tx_editor pr_editor av_editor (snd act_editor) _ _ _ [] []).
    apply (activating_shape act_editor). vm_compute. reflexivity. }
  apply rtc_once. apply (publishes tx_editor pr_editor av_editor (the no_report (fst fin_editor)) _ _ [] [] [] []).
  - apply roomy_room. vm_compute. reflexivity.
  - etransitivity; [apply (the_Ok (Ok no_report, rt_new)); vm_compute; reflexivity|].
    apply (f_equal Ok), (finish_shape fin_editor). vm_compute. reflexivity.
Qed.

Lemma editor_leased : rtc call (system_new process_scopes) (system rt_leased [0%nat] published_editor []).
Proof.
  eapply rtc_r; [exact editor_published|]. apply (turns_acquire process editor (Leased 0)).
  etransitivity; [apply (the_Ok (Invisible, rt_new)); vm_compute; reflexivity|].
  apply (f_equal Ok), (turn_shape turn_editor 0). vm_compute. reflexivity.
Qed.

(** What the graph shows of it. *)
Definition editor_visible : CapabilityManifest :=
  default editor_manifest (visible (st_graph (rt_state rt_leased)) process editor).

(** ** Transactions of two capabilities

    The second rests on the first; how its activation goes is the parameter. *)

Definition two_staged (outcome : Activation) : CapabilityTransaction :=
  let tx := begin_transaction (OwnerId "core") process in
  let tx := the tx (stage_typed (manifest_new storage KindService (OwnerId "core") process) 1
                      (ActivationOk (payload_of 1) (disposer_of 1)) tx) in
  the tx (stage_typed (with_dependencies [storage] (manifest_new search KindTool (OwnerId "core") process)) 2 outcome tx).

Lemma two_staged_ok outcome : tx_ok (two_staged outcome).
Proof.
  unfold two_staged. set (tx := the _ (stage_typed _ 1 _ _)).
  assert (Htx : tx_ok tx).
  { unfold tx. destruct (stage_typed _ _ _ _) as [tx'|e] eqn:E; [|apply begin_transaction_ok].
    apply stage_typed_ok in E as [? _]; [done|apply begin_transaction_ok]. }
  destruct (stage_typed _ 2 _ _) as [tx'|e] eqn:E; [|done]. by apply stage_typed_ok in E as [? _].
Qed.

(** How a commit ends: published, refused, failed in an activation, or unwound. *)
Inductive CommitEnd := Published | RefusedBefore | FailedActivating | Unwound.

Definition commit_end (r : panicking (Commit * Runtime)) : option CommitEnd :=
  match r with
  | Ok (Committed _, _) => Some Published
  | Ok (CommitFailed (ActivationFailed _ _ _), _) => Some FailedActivating
  | Ok (CommitFailed _, _) => Some RefusedBefore
  | Ok (CommitUnwound, _) => Some Unwound
  | Err _ => None
  end.

Lemma commit_ends :
  commit_end (commit (two_staged (ActivationOk (payload_of 2) (disposer_of 2))) rt_leased) = Some Published /\
  commit_end (commit (two_staged (ActivationErr "no index")) rt_leased) = Some FailedActivating /\
  commit_end (commit (two_staged ActivationPanics) rt_leased) = Some Unwound /\
  commit_end (commit (staging storage_manifest 1) rt_leased) = Some RefusedBefore.
Proof. split; [|split; [|split]]; vm_compute; reflexivity. Qed.

Definition failed_runtime (outcome : Activation) : Runtime :=
  match commit (two_staged outcome) rt_leased with Ok (_, rt) => rt | Err _ => rt_leased end.

Lemma failed_effects :
  rt_effects (failed_runtime (ActivationErr "no index"))
  = rt_effects rt_leased ++ [Activated 1; Activated 2; RolledBack (disposer_of 1)].
Proof. vm_compute. reflexivity. Qed.

Lemma unwound_effects : rt_effects (failed_runtime ActivationPanics) = rt_effects rt_leased ++ [Activated 1; Activated 2].
Proof. vm_compute. reflexivity. Qed.

Lemma failing_two_prepared : is_ok (commit_prepare (two_staged (ActivationErr "no index")) (rt_state rt_leased)) = true.
Proof. vm_compute. reflexivity. Qed.

Lemma rt_leased_room : room rt_leased.
Proof. apply roomy_room. vm_compute. reflexivity. Qed.

(** ** A generation that is leased, quiesced and released *)

Definition record_new : GenerationRecord :=
  {| gr_id := u64_of 0; gr_owner := OwnerId ""; gr_scope := process; gr_capabilities := []; gr_state := u64_of 0;
     gr_payloads := bt_empty; gr_disposers := []; gr_disposal_failures := [] |}.

Definition editor_payloads : btree CapabilityId Payload := bt_insert editor (payload_of 7) bt_empty.
Definition editor_generation : panicking GenerationRecord :=
  generation_new (u64_of 1) (OwnerId "shell") process [editor] editor_payloads [disposer_of 7].

Definition r_fresh : GenerationRecord := the record_new editor_generation.
Definition r_acquired : GenerationRecord := snd (the (false, record_new) (try_acquire r_fresh)).
Definition r_quiescing : GenerationRecord := snd (the (None, record_new) (begin_quiescing r_acquired)).
Definition r_released : GenerationRecord := snd (the (None, record_new) (release_lease r_quiescing)).

Lemma acquired_shape (r : panicking (bool * GenerationRecord)) b :
  match r with Ok (b', _) => Bool.eqb b' b | Err _ => false end = true -> r = Ok (b, snd (the (false, record_new) r)).
Proof. destruct r as [[b' r]|]; [|done]. cbn. intros E. by apply Bool.eqb_prop in E as ->. Qed.

Lemma taken_shape (r : panicking (option (list CapabilityDisposer) * GenerationRecord)) taken :
  match r with Ok (t, _) => bool_decide (t = taken) | Err _ => false end = true ->
  r = Ok (taken, snd (the (None, record_new) r)).
Proof. destruct r as [[t r]|]; [|done]. cbn. intros E. by apply bool_decide_eq_true in E as ->. Qed.

Lemma editor_fresh : editor_generation = Ok r_fresh.
Proof. apply the_Ok. vm_compute. reflexivity. Qed.

Lemma editor_held :
  rtc (shared_step true) {| sh_record := r_fresh; sh_held := 0; sh_threads := []; sh_called := [] |}
    {| sh_record := r_acquired; sh_held := 1; sh_threads := []; sh_called := [] |}.
Proof. apply (try_acquire_runs true _ 0 [] [] true). apply acquired_shape. vm_compute. reflexivity. Qed.

Lemma editor_drained :
  rtc (shared_step true) {| sh_record := r_fresh; sh_held := 0; sh_threads := []; sh_called := [] |}
    {| sh_record := r_released; sh_held := 0; sh_threads := [Sent [disposer_of 7]]; sh_called := [] |}.
Proof.
  etrans; [exact editor_held|].
  etrans; [apply (begin_quiescing_runs true ByCommit r_acquired 1 [] [] None); apply taken_shape; vm_compute; reflexivity|].
  apply (release_lease_runs true r_quiescing 0 [] [] (Some [disposer_of 7])). apply taken_shape. vm_compute. reflexivity.
Qed.

(** ** Graphs *)

Definition inserted (ms : list CapabilityManifest) (g : CapabilityGraph) : CapabilityGraph := the g (insert_all ms g).

Definition one_graph : CapabilityGraph := inserted [editor_manifest] (graph_new process_scopes).

Lemma one_graph_ok : graph_ok one_graph.
Proof.
  apply (insert_all_spec [editor_manifest] (graph_new process_scopes)).
  - apply graph_new_ok, scopes_built_ok, process_scopes_built.
  - apply the_Ok. vm_compute. reflexivity.
Qed.

(** Two capabilities that need each other. *)
Definition circular_graph : CapabilityGraph :=
  inserted [with_dependencies [editor] (manifest_new search KindTool (OwnerId "plugin") process);
            with_dependencies [search] (manifest_new editor KindApp (OwnerId "shell") process)]
    (graph_new process_scopes).

(** ** A scope that goes before the ones below it *)

Definition scope_call {A} (r : result ScopeGraphError A) : panicking A := map_err (fun _ => "scope"%string) r.

Definition stranded : panicking Runtime :=
  rt ← scope_call (open_child_scope workspace ScopeWorkspace process rt_new);
  rt ← scope_call (open_child_scope thread ScopeThread workspace rt);
  '(_, rt) ← commit (staging storage_manifest 1) rt;
  '(_, rt) ← commit (staging search_manifest 2) rt;
  retire_scope workspace rt.

Definition lease_of (r : panicking (option (option CapabilityLease) * Runtime)) : option ptr :=
  match r with Ok (Some (Some lease), _) => Some (ls_generation lease) | _ => None end.
