(* ===== verification/LoopExamples.v ===== *)
(** Concrete services and hooks for a turn: a script of streams, tools that are
    found by their names and answer at once, and picks that order their answers. *)

From S2P Require Import Prelude BTree Effects LoopModel ToolBatch BatchFacts Hooks TurnLoop TurnFacts TurnEnds.

Open Scope string_scope.
Open Scope list_scope.

Record SimTool := { sim_effects : ToolEffects; sim_content : string }.

#[export] Instance sim_tools : ToolTypes := {| Tool := SimTool; AnyState := unit |}.

(** What is left of the script: the streams of the coming requests and the picks. *)
Record Sim := { sim_cancelled : bool; sim_streams : list (list ModelEvent); sim_picks : list nat }.

Definition file (name : string) : EffectKey := key_hierarchical "filesystem" ["repo"; name].

Definition sim_tool (name : string) : option SimTool :=
  if bool_decide (name = "read") then Some {| sim_effects := effects_read (file "a.rs"); sim_content := "contents" |}
  else if bool_decide (name = "write") then Some {| sim_effects := effects_write (file "a.rs"); sim_content := "written" |}
  else if bool_decide (name = "other") then Some {| sim_effects := effects_write (file "b.rs"); sim_content := "other" |}
  else None.

(** The run that a pick chooses, and what it answers. *)
Definition sim_run (b : Batch) (pick : nat) : RunAnswer :=
  let chosen :=
    match b_phase b with
    | Awaiting (ForPreparation _ _ _) => b_active b !! (pick - 1)%nat
    | _ => b_active b !! (pick mod length (b_active b))%nat
    end in
  {| an_started := Ok tt; an_progress := []; an_effects := []; an_completed := Ok tt;
     an_result := match chosen with
                  | Some r => Ok (result_success (tc_id (pt_call (rn_pending r))) (sim_content (pt_tool (rn_pending r))))
                  | None => Err error_cancelled
                  end |}.

Definition sim_schedule (b : Batch) (s : Sim) : Answers * Sim :=
  let pick := default 0%nat (head (sim_picks s)) in
  ({| as_pick := pick;
      as_found := match b_phase b with NextCall (call :: _) => sim_tool (tc_name call) | _ => None end;
      as_prepared := match b_phase b with
                     | Awaiting (ForPreparation _ tool _) => Ok (prepared_new (sim_effects tool))
                     | _ => Err error_cancelled
                     end;
      as_run := sim_run b pick |},
   {| sim_cancelled := sim_cancelled s; sim_streams := sim_streams s; sim_picks := tail (sim_picks s) |}).

(** The script has no followups: such an event ends the stream. *)
Definition sim_poll (event : ModelEvent) : Async Sim StreamPoll :=
  mret {| sp_steering := None;
          sp_answer := StreamNext match event with ModelFollowupRequired => None | _ => Some (Ok event) end |}.

Definition sim_stream_model (request : ModelRequest) (s : Sim) : ModelRace Sim * Sim :=
  match sim_streams s with
  | [] => (RaceStream (Err error_cancelled), s)
  | stream :: streams =>
      (RaceStream (Ok (map sim_poll stream)),
       {| sim_cancelled := sim_cancelled s; sim_streams := streams; sim_picks := sim_picks s |})
  end.

#[export] Instance sim_services : TurnServices Sim := {|
  services_tools := sim_tools;
  is_cancelled := sim_cancelled;
  emit_event _ := mret (Ok tt);
  persist_items _ := mret (Ok tt);
  drain_steering := mret (Ok {| dr_messages := []; dr_control := SteeringContinue |});
  steering_ready := mret None;
  stream_model := sim_stream_model;
  schedule := sim_schedule
|}.

(** * Batches *)

Definition call_of (id name : string) : ToolCall := tool_call_new id name.

(** Two reads, then a write of what they read, and a write of something else. *)
Definition sim_calls : list ToolCall :=
  [call_of "r1" "read"; call_of "r2" "read"; call_of "w" "write"; call_of "o" "other"; call_of "x" "unknown"].

Definition idle : Sim := {| sim_cancelled := false; sim_streams := []; sim_picks := [] |}.

Definition sim_batch (picks : list nat) (fuel : nat) (calls : list ToolCall) : Batch :=
  fst (run_batch sim_schedule sim_cancelled fuel (batch_start calls false)
         {| sim_cancelled := false; sim_streams := []; sim_picks := picks |}).

Lemma sim_batch_of picks fuel calls : batch_of calls (sim_batch picks fuel calls).
Proof. exists false. apply run_batch_reaches. Qed.

Definition entry_text (entry : ToolBatchEntry) : string * string :=
  match entry with
  | EntryRun run => match run_result run with Ok r => (tc_id (run_call run), tr_content r) | Err _ => ("", "") end
  | EntryImmediate (ItemToolResult r) => (tr_call_id r, tr_content r)
  | _ => ("", "")
  end.

(** Every call is answered in its place. *)
Example sim_batch_settles :
  match b_phase (sim_batch [] 54 sim_calls) with Finished entries => map entry_text entries | _ => [] end
  = [("r1", "contents"); ("r2", "contents"); ("w", "written"); ("o", "other");
     ("x", "tool `unknown` is not registered")].
Proof. vm_compute. reflexivity. Qed.

(** A batch that is cancelled while its first call runs and its third is prepared. *)
Definition stopped_calls : list ToolCall := [call_of "r1" "read"; call_of "x" "unknown"; call_of "r2" "read"; call_of "o" "other"].

Definition read_answer : RunAnswer :=
  {| an_started := Ok tt; an_progress := []; an_effects := [];
     an_result := Ok (result_success "r1" "contents"); an_completed := Ok tt |}.

Definition stopped_choices : list Choice :=
  match sim_tool "read" with
  | Some read =>
      [Look (Some read); Advance; PreparationDone (Ok (prepared_new (sim_effects read))); Look None; Look (Some read);
       Advance; Advance; Poll 0 read_answer; Poll 0 read_answer; Poll 0 read_answer; Cancel; Poll 0 read_answer]
      ++ [Advance; PreparationCancelled; Advance; Advance; Advance; Advance]
  | None => []
  end.

(** * Turns *)

Definition sim_context : TurnContext :=
  context_new "turn" "thread" "trace" {| ms_slug := "model"; ms_provider_id := None; ms_context_window := None; ms_input_modalities := [] |}.

Definition sim_input : TurnInput := Input [PromptUserText "hello"].

Definition sim_streams_of (calls : list ToolCall) : list (list ModelEvent) :=
  [map ModelToolCall calls ++ [ModelCompleted usage_zero];
   [ModelTextDelta None "do"; ModelTextDelta None "ne"; ModelCompleted usage_zero]].

Definition sim_world (streams : list (list ModelEvent)) : World Sim :=
  {| w_env := {| sim_cancelled := false; sim_streams := streams; sim_picks := [] |}; w_log := [] |}.

Definition sim_turn (hooks : TurnHooks Sim) (st : TurnState) (calls : list ToolCall) : option TurnResult * World Sim :=
  run_turn 9 hooks sim_context st sim_input (sim_world (sim_streams_of calls)).

(** Unfolded before what it calls, so that the theorems on turns apply to it. *)
#[global] Strategy expand [sim_turn].

Definition capped_state (max : Z) : TurnState := with_guard (with_max_tool_calls (u64_of max)) state_default.

(** A hook that ends the turn with the first result it sees. *)
Definition terminating : TurnHooks Sim := {|
  on_turn_start := on_turn_start noop_hooks;
  on_context_pressure := on_context_pressure noop_hooks;
  prepare_context := prepare_context noop_hooks;
  on_steering_input := on_steering_input noop_hooks;
  before_tool_call := before_tool_call noop_hooks;
  after_tool_call view := mret (Terminate (rv_result view));
  after_model_round := after_model_round noop_hooks;
  prepare_next_round := prepare_next_round noop_hooks;
  on_turn_stop := on_turn_stop noop_hooks;
  after_turn_complete := after_turn_complete noop_hooks
|}.

(** One that prepares an item for the prompt, and one that blocks and modifies calls. *)
Definition preparing : TurnHooks Sim := {|
  on_turn_start := on_turn_start noop_hooks;
  on_context_pressure := on_context_pressure noop_hooks;
  prepare_context _ := mret (Prepared [PromptUserText "prepared"]);
  on_steering_input := on_steering_input noop_hooks;
  before_tool_call := before_tool_call noop_hooks;
  after_tool_call := after_tool_call noop_hooks;
  after_model_round := after_model_round noop_hooks;
  prepare_next_round := prepare_next_round noop_hooks;
  on_turn_stop := on_turn_stop noop_hooks;
  after_turn_complete := after_turn_complete noop_hooks
|}.

Definition gatekeeper : TurnHooks Sim := {|
  on_turn_start := on_turn_start noop_hooks;
  on_context_pressure := on_context_pressure noop_hooks;
  prepare_context := prepare_context noop_hooks;
  on_steering_input := on_steering_input noop_hooks;
  before_tool_call view := mret (if String.eqb (tc_id (kv_call view)) "r1" then Block "not this one"
                                 else if String.eqb (tc_id (kv_call view)) "r2" then Modify (call_of "changed" "read")
                                 else Allow);
  after_tool_call := after_tool_call noop_hooks;
  after_model_round := after_model_round noop_hooks;
  prepare_next_round := prepare_next_round noop_hooks;
  on_turn_stop := on_turn_stop noop_hooks;
  after_turn_complete := after_turn_complete noop_hooks
|}.

Lemma preparing_leaves_prompt : leaves_prompt preparing.
Proof. split; try (by intros; intros [=]). intros [[] usage] env env' p [=]. Qed.

Lemma noop_leaves_prompt : leaves_prompt (W := Sim) noop_hooks.
Proof. split; try (by intros; intros [=]). intros [[] usage] env env' p [=]. Qed.

Lemma noop_undisturbed : undisturbed (W := Sim) noop_hooks.
Proof.
  split; try (by intros; intros [=]).
  - by intros env drained env' [= <- <-].
  - intros request env race env'. cbn. unfold sim_stream_model. destruct (sim_streams env) as [|stream streams]; intros [= <- <-]; [done|].
    apply List.Forall_map, List.Forall_forall. intros event _ env1 found env2 [= <- <-]. cbn. split; [done|]. by destruct event.
  - by intros view env decision env' [= <- <-].
Qed.
