(* ===== verification/ContractTheorems.v ===== *)
(** What the data of the thread store guarantees: the on-disk format, the
    receipts, the digests of events and commands, the turn state machine, the
    command index and the smaller pieces the journal relies on. *)

From stdpp Require Import sorting.
From S2P Require Import Prelude Canonical Events Commands Lifecycle Receipts Format FormatFacts.
From S2P Require Import CommandIndex Disk Model Recovery JournalSpec RecoveryFacts Journal JournalFacts AppendFacts CrashFacts.
From S2P Require Import OpenFacts Service Instances Examples.

Open Scope string_scope.
Open Scope list_scope.
Open Scope Z_scope.

Section Format.
Context `{External, JsonCodec}.

(** C32. Decoding an encoded batch yields its header and the batch, with its events
    in order. *)
Theorem frame_decodes_to_its_batch batch durability max f :
  encode_batch batch durability max = Ok f ->
  exists stored, decode_complete_frame (ef_bytes f) = Ok {| df_header := ef_header f; df_stored := stored |} /\
    stored_list (sb_events stored) = jb_events batch /\ sb_command_id stored = jb_command_id batch /\
    sb_command_digest stored = jb_command_digest batch /\ sb_expected_revision stored = jb_expected_revision batch /\
    sb_batch_digest stored = compute_batch_digest batch.
Proof.
  intros E. exists (normalized (ef_stored f)). split; [by eapply frame_roundtrip|].
  apply encode_batch_Ok in E as (? & ? & ? & _ & _ & -> & _). split; [apply stored_list_visit_seq|done].
Qed.

(** A batch becomes a frame exactly when it has events, no more than a frame
    can count, and a payload within the configured maximum. *)
Theorem encoding_succeeds_within_the_limits batch durability max :
  val max + 236 < 2 ^ 64 ->
  is_ok (encode_batch batch durability max) = true <->
  jb_events batch <> [] /\ len (jb_events batch) < 2 ^ 32 /\
  len (payload_of (stored_of_batch batch durability)) <= val max.
Proof.
  intros Hmax. split.
  - destruct (encode_batch batch durability max) as [f|] eqn:E; [|done]. intros _.
    apply encode_batch_Ok in E as (first & last & n & Hf & _ & _ & _ & _ & Hc & Hl & _).
    pose proof (val_bounds (fh_event_count (ef_header f))). split; [by destruct (jb_events batch)|]. lia.
  - intros (Hne & Hc & Hl). by destruct (encode_batch_succeeds batch durability max Hne Hc Hl Hmax) as [e ->].
Qed.

(** A segment header is read back, and every header that is accepted is the
    encoding of what was read: no two contents of the 80 bytes mean the same. *)
Theorem segment_header_codec b sequence first thread previous :
  decode_segment_header b = Ok {| sh_sequence := sequence; sh_first_revision := first;
                                  sh_thread_id := as_uuid thread; sh_previous_record_digest := previous |} <->
  b = encode_segment_header sequence first thread previous.
Proof.
  split; [|intros ->; apply segment_header_roundtrip].
  intros E. apply segment_header_exact in E. by destruct thread.
Qed.

(** [validate_stored_batch] accepts exactly the stored batches that continue
    the head: identity, revisions, hash chain, digests, distinct event
    identifiers and a receipt that describes the batch. *)
Theorem validation_is_continuation header stored thread h h' :
  validate_stored_batch header stored thread h = Ok h' <->
  continues thread h header stored /\ h' = header_head header.
Proof. apply validate_stored_batch_iff. Qed.

(** The receipt that [derive_receipt] builds for the events of a chain. *)
Lemma applied_receipt_causal tid stored revision prior durability :
  let events := stored_list (sb_events stored) in
  events_chain tid (sb_batch_id stored) (rev revision) 0 prior events -> events <> [] ->
  is_committed_durability durability = true ->
  validate_causality
    (receipt_applied (sb_command_id stored) (sb_command_digest stored) (sb_batch_id stored) revision
       (map (fun event => {| cr_event_id := ev_event_id event; cr_revision := ev_revision event |}) events)
       (sb_batch_digest stored) durability (sb_recorded_at_unix_ms stored))
    (sb_command_digest stored) = Ok tt.
Proof.
  intros events Hchain Hne Hd. unfold validate_causality. cbn [receipt_applied r_schema_version r_receipt_id
    r_command_id r_command_digest r_status].
  rewrite !bool_decide_eq_true_2 by done. cbn [ensure mbind result_bind]. apply validate_applied_Ok.
  cbn [receipt_applied r_expected_revision r_revision_before r_batch_id r_batch_digest r_durability
    r_diagnostics r_events r_revision_after].
  assert (Hlookup : forall k e, events !! k = Some e -> rev (ev_revision e) = rev revision + Z.of_nat k + 1).
  { intros k e Hk. rewrite (events_chain_lookup _ _ _ _ _ _ _ _ Hchain Hk). lia. }
  split; [done|]. split; [eauto|]. split; [eauto|]. split; [by destruct durability|]. split; [done|].
  split; [by destruct events|]. rewrite length_map. split.
  - destruct (list_snoc_cases events) as [?|(l & e & El)]; [done|].
    assert (Hlast : events !! length l = Some e) by (rewrite El; by apply list_lookup_middle).
    apply Hlookup in Hlast. rewrite El, map_app. cbn [map]. rewrite last_snoc. cbn [cr_revision].
    rewrite Hlast, length_app. simpl. lia.
  - intros k c Hk. rewrite list_lookup_fmap in Hk. apply fmap_Some in Hk as (e & He & ->). cbn [cr_revision].
    rewrite (Hlookup k e He). lia.
Qed.

(** The receipt of a validated batch passes the causality check for the
    batch's command. *)
Theorem committed_receipt_is_causal header stored thread h h' :
  validate_stored_batch header stored thread h = Ok h' ->
  exists r, into_receipt stored = Ok r /\ r_command_id r = sb_command_id stored /\
    validate_causality r (sb_command_digest stored) = Ok tt.
Proof.
  rewrite validate_stored_batch_iff. intros [Hc _]. pose proof (continues_nonempty _ _ _ _ Hc) as Hlen.
  destruct Hc as [Hr _ _ _ _ Hexp _ _ _ Hchain _ _ _].
  unfold validate_receipt_encoding, into_receipt, derive_receipt in *.
  destruct (val (sb_schema_version stored) =? LEGACY_STORED_BATCH_SCHEMA_VERSION).
  - inv_ok. inv_bool. match goal with Hl : sb_legacy_receipt stored = Some ?a |- _ => rewrite Hl; exists a end. done.
  - destruct (val (sb_schema_version stored) =? STORED_BATCH_SCHEMA_VERSION); [|done]. inv_ok. inv_bool.
    destruct (sb_durability stored) as [durability|]; [|done]. cbn [ok_or mbind result_bind].
    match goal with Hv : sb_receipt_schema_version stored = Some _ |- _ => rewrite Hv end.
    eexists. split; [reflexivity|]. split; [done|]. rewrite Hexp.
    apply (applied_receipt_causal thread stored (head_revision h) (head_digest h)); [done| |done].
    intros E. rewrite E in Hlen. simpl in Hlen. lia.
Qed.

End Format.

Section Digests.
Context `{External}.

(** Two events with valid digests and the same record digest are the same
    event, unless SHA-256 collides on the messages hashed for them. *)
Theorem record_digest_determines_event e e' :
  has_valid_digests e = true -> has_valid_digests e' = true ->
  Forall fits (event_messages e) ->
  collision_free (event_messages e ++ event_messages e') ->
  ev_record_digest e = ev_record_digest e' -> e = e'.
Proof. apply valid_events_equal. Qed.

(** Two commands with valid digests and the same digest are the same command,
    unless SHA-256 collides, provided both or neither of their resume
    configurations name a provider. *)
Theorem command_digest_determines_command c d :
  has_valid_digest c = true -> has_valid_digest d = true ->
  unmarked_provider (ce_command c) = unmarked_provider (ce_command d) ->
  fits (command_message c) -> collision_free [command_message c; command_message d] ->
  ce_command_digest c = ce_command_digest d -> c = d.
Proof.
  unfold has_valid_digest. rewrite !bool_decide_eq_true. intros Hc Hd Hu Hf Hcf E.
  apply command_message_inj; [done..|]. unfold command_message.
  eapply (finish_inj _ _ _ Hcf); [set_solver..|]. rewrite Hc, Hd in E. exact E.
Qed.

(** A metadata command that names a provider and one that names none can have
    the same canonical encoding, and so the same digest under any hash. *)
Theorem command_digest_ignores_a_provider actor :
  exists c d : ThreadCommand, c <> d /\ canonical_bytes c = canonical_bytes d /\
    forall version id thread revision correlation,
      compute_command_digest version id thread revision actor correlation c
        = compute_command_digest version id thread revision actor correlation d.
Proof.
  set (none := {| rc_model := None; rc_model_provider := None; rc_reasoning_effort := None |}).
  set (some := {| rc_model := None; rc_model_provider := Some (String Ascii.zero EmptyString);
                  rc_reasoning_effort := None |}).
  exists (ReconcileSessionMetadata None (Some some) None),
         (ReconcileSessionMetadata None (Some none) (Some (InlineText EmptyString))).
  assert (E : canonical_bytes (ReconcileSessionMetadata None (Some some) None)
            = canonical_bytes (ReconcileSessionMetadata None (Some none) (Some (InlineText EmptyString))))
    by (vm_compute; reflexivity).
  split; [discriminate|]. split; [exact E|]. intros version id thread revision correlation.
  unfold compute_command_digest, command_hasher, hasher_finish. do 2 f_equal. by rewrite !lawful, E.
Qed.

End Digests.

(** * The turn state machine *)

(** [apply] takes a turn along the allowed transitions and no others, answers
    [NoOp] when the turn is already there, and otherwise refuses without
    changing it. *)
Theorem turn_lifecycle_follows_its_transitions s t :
  let (s', r) := lifecycle_apply s t in
  (r = Ok Applied <-> lifecycle_step s t (target t)) /\
  (r = Ok NoOp <-> s = target t) /\
  (r = Ok Applied -> s' = target t) /\ (r <> Ok Applied -> s' = s) /\
  (forall e, r = Err e -> e = {| le_from := s; le_to := target t |}).
Proof.
  destruct (lifecycle_apply_cases s t) as [[-> E]|[[-> Hs]|(-> & Hne & Hno)]].
  - split; [split; [done|]|]; [|split; [done|]; split; [done|]; split; [done|]; done].
    intros Hs. exfalso. rewrite E in Hs at 1. destruct t; inversion Hs.
  - split; [done|]. split; [split; [done|]|]; [|split; [done|]; split; done].
    intros E. exfalso. rewrite E in Hs at 1. destruct t; inversion Hs.
  - split; [split; [done|]|]; [intros Hs; by destruct (Hno _ Hs)|].
    split; [split; [done|by intros]|]. split; [done|]. split; [done|]. by intros ? [= <-].
Qed.

(** A turn that completed, was aborted or failed stays so, whatever is asked of it. *)
Theorem finished_turns_stay_finished s ts : terminal s = true -> lifecycle_run s ts = s.
Proof. apply terminal_stable. Qed.

(** * Receipts *)

(** The receipts of commands that changed nothing, or were refused, are causal
    for their commands. *)
Theorem constructed_receipts_are_causal `{External} id digest revision current diagnostic time :
  validate_causality (receipt_no_op id digest revision time) digest = Ok tt /\
  validate_causality (receipt_rejected id digest revision current diagnostic time) digest = Ok tt /\
  forall other, other <> digest ->
    validate_causality (receipt_no_op id digest revision time) other = Err CommandDigest.
Proof.
  unfold validate_causality, receipt_no_op, receipt_rejected, validate_no_op, validate_rejected. cbn.
  rewrite !bool_decide_eq_true_2 by done. split; [done|]. split; [done|]. intros other Hne.
  by rewrite bool_decide_eq_false_2.
Qed.

(** An applied receipt is causal exactly when its events are numbered without
    gaps from the revision before them to the revision after. *)
Theorem applied_receipts_are_contiguous `{External} r digest :
  r_status r = StatusApplied -> validate_causality r digest = Ok tt <->
  r_schema_version r = THREAD_STORE_SCHEMA_VERSION /\ r_receipt_id r = ReceiptId_for_command (r_command_id r) /\
  r_command_digest r = digest /\ r_expected_revision r = r_revision_before r /\
  is_Some (r_batch_id r) /\ is_Some (r_batch_digest r) /\
  r_durability r <> DurNone /\ r_diagnostics r = [] /\ r_events r <> [] /\
  rev (r_revision_after r) = rev (r_revision_before r) + len (r_events r) /\
  contiguous_from (rev (r_revision_before r)) (r_events r).
Proof.
  intros Hs. unfold validate_causality. rewrite Hs. split.
  - intros E. inv_ok. inv_bool. apply validate_applied_Ok in E. tauto.
  - intros (-> & -> & -> & Hrest). rewrite !bool_decide_eq_true_2 by done.
    cbn [ensure mbind result_bind]. by apply validate_applied_Ok.
Qed.

(** * Pieces of the journal *)

(** Marking a segment keeps the pending segments sorted without duplicates, and
    adds just that segment. *)
Theorem pending_syncs_stay_sorted sequence p :
  StronglySorted (fun a b => val a < val b) (ps_sequences p) ->
  StronglySorted (fun a b => val a < val b) (ps_sequences (mark sequence p)) /\
  (forall s, s ∈ ps_sequences (mark sequence p) <-> s = sequence \/ s ∈ ps_sequences p).
Proof. intros Hs. split; [by apply mark_sorted|]. intros s. by apply mark_elem. Qed.

(** A sync visits each pending segment and the current one once. *)
Theorem syncs_visit_each_segment_once p current :
  StronglySorted (fun a b => val a < val b) (ps_sequences p) ->
  NoDup (iter_including p current) /\
  (forall s, s ∈ iter_including p current <-> s ∈ ps_sequences p \/ current = Some s).
Proof.
  intros Hs. split; [by apply iter_including_nodup|]. intros s.
  split; [apply iter_including_elem|apply iter_including_all].
Qed.

(** After any insertions, the index recognises every inserted command, caches
    at most 512 of them, and a cached pointer is one inserted for that command. *)
Theorem command_index_has_no_false_negatives pointers :
  let c := index_of pointers command_index_new in
  (forall id p, (id, p) ∈ pointers -> maybe_contains c id = true) /\
  (length (ci_order c) <= 512)%nat /\
  (forall id p, recent_frame c id = Some p -> (id, p) ∈ pointers).
Proof.
  intros c. split; [|split].
  - intros id p Hin. apply index_of_contains; [apply index_ok_new|]. left.
    apply list_elem_of_In, in_map_iff. exists (id, p). by rewrite <- list_elem_of_In.
  - apply (io_capacity _ (index_of_ok pointers _ index_ok_new)).
  - intros id p Hp. by apply index_of_recent in Hp as [Hp|Hp].
Qed.

(** The file name of a segment is read back as its number, and is well-formed
    UTF-8; so different segments have different files. *)
Theorem segment_names_round_trip sequence :
  parse_segment_name (segment_file_name sequence) = Some sequence /\
  utf8_valid (str_bytes (segment_file_name sequence)) = true.
Proof. split; [apply parse_segment_file_name|apply segment_file_name_utf8]. Qed.

(** [ThreadRevisionRange::inclusive] accepts exactly the non-empty ranges that
    start at an event's revision. *)
Theorem ranges_are_valid first last :
  (exists range, range_inclusive first last = Ok range) <->
  1 <= rev first <= rev last.
Proof.
  unfold range_inclusive. pose proof (rev_bounds first).
  assert (Hz : first = REVISION_ZERO <-> rev first = 0).
  { split; [by intros ->|]. intros E. by apply rev_inj. }
  split.
  - intros [range E]. inv_ok. inv_bool. assert (rev first <> 0) by tauto. lia.
  - intros [H1 H2]. rewrite bool_decide_eq_false_2 by (rewrite Hz; lia). cbn [negb ensure mbind result_bind].
    rewrite (proj2 (Z.ltb_ge _ _)) by lia. cbn. eauto.
Qed.

(** Revisions advance by the exact number of events, or not at all. *)
Theorem revisions_advance_exactly r (n : u64) :
  checked_advance r n = if rev r + val n <? 2 ^ 64 then Some (revision_of (rev r + val n)) else None.
Proof.
  pose proof (rev_bounds r). pose proof (val_bounds n).
  destruct (Z.ltb_spec (rev r + val n) (2 ^ 64)) as [Hlt|Hge].
  - apply checked_advance_Some. rewrite rev_of_small; lia.
  - destruct (checked_advance r n) as [s|] eqn:E; [|done]. apply checked_advance_Some in E.
    pose proof (rev_bounds s). lia.
Qed.

(** * Instances *)

Lemma frame_decodes_to_its_batch_witness : exists f stored,
  encode_batch example_batch1 Durable example_max = Ok f /\
  decode_complete_frame (ef_bytes f) = Ok {| df_header := ef_header f; df_stored := stored |} /\
  stored_list (sb_events stored) = jb_events example_batch1.
Proof.
  destruct example_encoded as (f & h' & E & _).
  destruct (frame_decodes_to_its_batch example_batch1 Durable example_max f E) as (stored & Hd & He & _).
  exists f, stored. split; [exact E|]. split; [exact Hd|exact He].
Defined.

Lemma encoding_succeeds_within_the_limits_witness :
  len (payload_of (stored_of_batch example_batch1 Durable)) <= val example_max.
Proof.
  apply (encoding_succeeds_within_the_limits example_batch1 Durable example_max example_max_room).
  destruct example_encoded as (f & h' & E & _). by rewrite E.
Defined.

Lemma committed_receipt_is_causal_witness : exists f h' r,
  encode_batch example_batch1 Durable example_max = Ok f /\
  validate_stored_batch (ef_header f) (ef_stored f) example_thread HEAD_EMPTY = Ok h' /\
  into_receipt (ef_stored f) = Ok r /\ validate_causality r (sb_command_digest (ef_stored f)) = Ok tt.
Proof.
  destruct example_encoded as (f & h' & E & Hv).
  destruct (committed_receipt_is_causal (ef_header f) (ef_stored f) example_thread HEAD_EMPTY h' Hv) as (r & Hr & _ & Hc).
  exists f, h', r. split; [exact E|]. split; [exact Hv|]. split; [exact Hr|exact Hc].
Defined.

(** A check of [collision_free] that evaluates. *)
Lemma collision_free_pair `{External} m m' :
  bool_decide (sha256 m = sha256 m') = false -> forall ms, Forall (fun x => x = m \/ x = m') ms -> collision_free ms.
Proof.
  intros E%bool_decide_eq_false ms Hms x y Hx Hy Exy. rewrite list.Forall_forall in Hms.
  destruct (Hms _ Hx) as [->| ->], (Hms _ Hy) as [->| ->]; try done.
Qed.

Definition sample_event : ThreadEventEnvelope := example_event 1 0 0 DIGEST_ZERO.

Lemma fits_check l : (len l <? 2 ^ 64) = true -> fits l.
Proof. apply Z.ltb_lt. Qed.

Lemma record_digest_determines_event_witness : exists e, has_valid_digests e = true /\ e = sample_event.
Proof.
  exists sample_event. assert (Hv : has_valid_digests sample_event = true) by (vm_compute; reflexivity).
  assert (F1 : fits (payload_message (ev_body sample_event))) by (apply fits_check; vm_compute; reflexivity).
  assert (F2 : fits (record_message sample_event)) by (apply fits_check; vm_compute; reflexivity).
  split; [exact Hv|].
  apply (record_digest_determines_event sample_event sample_event Hv Hv); [| |reflexivity].
  - exact (Forall_cons_2 _ _ _ F1 (Forall_cons_2 _ _ _ F2 (Forall_nil_2 _))).
  - apply (collision_free_pair (payload_message (ev_body sample_event)) (record_message sample_event));
      [vm_compute; reflexivity|].
    repeat constructor; tauto.
Defined.

Definition sample_command : ThreadCommandEnvelope :=
  command_envelope_new (example_id CommandKind 1) example_thread (revision_of 1) ActorUser None
    (ReconcileSessionMetadata (Some "name")
       (Some {| rc_model := None; rc_model_provider := Some "provider"; rc_reasoning_effort := None |}) None).

Lemma command_digest_determines_command_witness : exists c, has_valid_digest c = true /\ c = sample_command.
Proof.
  exists sample_command. assert (Hv : has_valid_digest sample_command = true) by (vm_compute; reflexivity).
  split; [exact Hv|].
  apply (command_digest_determines_command sample_command sample_command Hv Hv eq_refl); [| |reflexivity].
  - apply fits_check. vm_compute. reflexivity.
  - apply (collision_free_pair (command_message sample_command) []);
      [vm_compute; reflexivity|repeat constructor; tauto].
Defined.

Lemma finished_turns_stay_finished_witness :
  lifecycle_run Completed [Start; Fail_ EmptyString; Abort Interrupted] = Completed.
Proof. apply finished_turns_stay_finished. reflexivity. Defined.

Definition sample_receipt : ThreadCommandReceipt :=
  receipt_applied (example_id CommandKind 1) (example_digest 1) (example_id BatchKind 1) (revision_of 4)
    [{| cr_event_id := example_id EventKind 1; cr_revision := revision_of 5 |}] (example_digest 2) DurDurable example_time.

Lemma applied_receipts_are_contiguous_witness : contiguous_from 4 (r_events sample_receipt).
Proof.
  apply (applied_receipts_are_contiguous sample_receipt (example_digest 1)); [reflexivity|vm_compute; reflexivity].
Defined.

Definition sample_pending : PendingSegmentSyncs := {| ps_sequences := [u64_of 1; u64_of 3] |}.

Lemma sample_pending_sorted : StronglySorted (fun a b => val a < val b) (ps_sequences sample_pending).
Proof. repeat constructor. Qed.

Lemma pending_syncs_stay_sorted_witness :
  ps_sequences (mark (u64_of 2) sample_pending) = [u64_of 1; u64_of 2; u64_of 3] /\
  StronglySorted (fun a b => val a < val b) (ps_sequences (mark (u64_of 2) sample_pending)).
Proof.
  split; [vm_compute; reflexivity|]. apply (pending_syncs_stay_sorted (u64_of 2) sample_pending sample_pending_sorted).
Defined.

Lemma syncs_visit_each_segment_once_witness :
  iter_including sample_pending (Some (u64_of 5)) = [u64_of 1; u64_of 3; u64_of 5] /\
  NoDup (iter_including sample_pending (Some (u64_of 5))).
Proof.
  split; [vm_compute; reflexivity|].
  apply (syncs_visit_each_segment_once sample_pending (Some (u64_of 5)) sample_pending_sorted).
Defined.
