(* ===== verification/JournalTheorems.v ===== *)
(** What the journal of a thread guarantees: the properties of its calls, of
    recovery, of crashes and failing calls, of durability and of the writer
    lock, each with an instance. *)

From stdpp Require Import sorting.
From S2P Require Import Prelude Canonical Events Commands Receipts Format FormatFacts.
From S2P Require Import CommandIndex Disk Model Recovery JournalSpec RecoveryFacts Journal JournalFacts AppendFacts CrashFacts.
From S2P Require Import SoundFacts RangeFacts OpenFacts Service Instances Examples.

Open Scope string_scope.
Open Scope list_scope.
Open Scope Z_scope.

Section Theorems.
Context `{External, JsonCodec} (cfg : JournalConfig) (tid : ThreadId).

(** C1. Over any sequence of opens, appends, syncs, probes, closes, process ends
    and process deaths in the middle of an append, starting from a directory
    without segments, the journal holds every acknowledged batch exactly once
    under its receipt, and when nobody has it open the next process opens it and
    folds exactly the committed events. *)
Theorem acknowledged_batches_survive steps d :
  validate_config cfg = Ok tt -> frame_room cfg -> fresh d ->
  Forall clean steps -> len steps + 4 < 2 ^ 64 ->
  let (w, replies) := perform_all cfg tid steps {| w_open := []; w_disk := d |} in
  exists layout, layout_ok cfg tid 0 HEAD_EMPTY layout /\ distinct_commands layout /\
    Forall2 (fun s r => answered s r (concat layout)) steps replies /\
    (w_open w = [] -> forall process St (fold : St -> ThreadEventEnvelope -> St) st,
       exists j d', open_and_fold process cfg tid st fold (with_faults [] (w_disk w))
           = (d', Ok (j, fold_left fold (layout_events layout) st)) /\
         tj_head j = last_head HEAD_EMPTY (concat layout)).
Proof.
  intros Hconfig Hroom Hfresh Hclean Hlen.
  destruct (perform_all_inv cfg tid Hconfig Hroom 0 [] _ steps (fresh_inv cfg tid d Hfresh) Hclean)
    as (layout & Hw & _ & Hans); [lia|].
  destruct (perform_all _ _ _ _) as [w replies]. cbn [fst snd] in *. pose proof Hw as [Hok Hdist Hn Hlock Hst].
  exists layout. do 3 (split; [done|]). intros Ew process St fold st.
  unfold lock_inv in Hlock. rewrite Ew in Hlock, Hst. destruct Hlock as [Hh Hwr].
  pose proof (layout_length _ _ _ _ _ Hok).
  destruct (open_run cfg tid process fold st layout (with_faults [] (w_disk w)))
    as (j & d' & Hrun & Hj & _); try done; [|by apply (crashed_dir _ _ _ (w_disk w))|lia|].
  { cbn. rewrite Hwr. set_solver. }
  exists j, d'. split; [done|]. apply (ji_head _ _ _ _ _ Hj).
Qed.

(** C2. Without failing calls, [append] does what the abstract specification
    says: it returns the recorded receipt for a repeated command, refuses a
    reused command identifier, a foreign thread, a stale revision and a batch
    that does not continue the head, and otherwise commits exactly the batch. *)
Theorem append_meets_specification batch durability j layout d :
  healthy d -> journal_inv cfg tid j layout d -> append_room cfg j layout ->
  exists j' layout' d' r,
    append batch durability (j, d) = ((j', d'), r) /\
    append_spec cfg tid batch durability (concat layout) (concat layout') r /\
    journal_inv cfg tid j' layout' d' /\ healthy d'.
Proof.
  intros Hd Hj Hroom.
  destruct (append_run cfg tid batch durability j layout d Hd Hj Hroom)
    as (j' & layout' & d' & r & ? & ? & ? & ? & _). eauto 8.
Qed.

(** C3. Recovery of whatever a crash leaves behind - part of a frame after the
    last segment, or a new segment whose header was cut short - yields the
    state of the committed frames and folds their events in order; a writer's
    recovery also repairs the directory, a snapshot's changes nothing. *)
Theorem recovery_restores_committed_frames {St} (visit : St -> ThreadEventEnvelope -> St) mode layout st d :
  healthy d -> layout_ok cfg tid 0 HEAD_EMPTY layout -> distinct_commands layout ->
  crashed cfg tid layout d -> len layout + 1 < 2 ^ 64 ->
  exists d', recover_with_mode visit cfg tid mode st d
      = (d', Ok (recovered_state mode layout, fold_left visit (layout_events layout) st)) /\
    repaired tid mode layout d d'.
Proof. by apply recover_crashed_run. Qed.

(** C4. Whatever directory a writer's recovery accepts, and whichever calls
    failed on the way, that directory held a chained journal with distinct
    commands, whose state and events are what recovery returns. *)
Theorem recovery_accepts_only_journals {St} (visit : St -> ThreadEventEnvelope -> St) st d d' rs st' :
  plain_directory d ->
  recover_with_mode visit cfg tid Writer st d = (d', Ok (rs, st')) ->
  exists layout, layout_ok cfg tid 0 HEAD_EMPTY layout /\ distinct_commands layout /\
    rs = recovered_state Writer layout /\ st' = fold_left visit (layout_events layout) st /\
    dir_holds (segment_files tid 0 HEAD_EMPTY layout []) d'.
Proof. by apply recover_sound. Qed.

(** C5. Whichever calls fail while a batch is appended, and however many of its
    bytes were written, the directory afterwards recovers to the frames
    committed before, or to those and the frame of the batch. *)
Theorem append_is_crash_safe batch durability j layout d j' d' r :
  journal_inv cfg tid j layout d -> frame_room cfg -> len layout + 3 < 2 ^ 64 ->
  append batch durability (j, d) = ((j', d'), r) ->
  append_left cfg tid batch j layout d'.
Proof. apply append_recoverable. Qed.

(** C6. Over any sequence of calls, with any failing system calls, at most one
    journal is open at a time, its process alone is registered as a writer, and
    the lock is held exactly while it is open. *)
Theorem at_most_one_writer steps w :
  lock_inv w -> let (w', _) := perform_all cfg tid steps w in
  (length (w_open w') <= 1)%nat /\
  (d_lock_held (w_disk w') = true <-> w_open w' <> []) /\
  d_writers (w_disk w') = list_to_set (map tj_process (w_open w')).
Proof.
  intros Hw. pose proof (perform_all_lock_inv cfg tid steps w Hw) as Hl.
  destruct (perform_all cfg tid steps w) as [w' rs]. unfold lock_inv in Hl. cbn [fst] in Hl.
  destruct (w_open w') as [|j [|]]; [| |done]; destruct Hl as [-> ->]; cbn.
  - split; [lia|]. split; [|done]. by split.
  - split; [lia|]. split; [|set_solver]. by split.
Qed.

(** C31. A batch committed durably to a journal whose past is synced is still
    there after a power loss, with everything before it: recovery folds all the
    events. *)
Theorem durable_commit_survives_power_loss batch j layout d j' d' r events :
  healthy d -> journal_inv cfg tid j layout d -> append_room cfg j layout -> len layout + 2 < 2 ^ 64 ->
  durable_inv j layout d ->
  append batch Durable (j, d) = ((j', d'), Ok (Committed r events)) ->
  exists layout', durable_inv j' layout' d' /\
    forall d'', power_loss d' d'' ->
    forall St (fold : St -> ThreadEventEnvelope -> St) st, exists d3,
      recover_fold fold cfg tid st d''
        = (d3, Ok (recovered_state Writer layout',
                   fold_left fold (layout_events layout ++ jb_events batch) st)).
Proof.
  intros Hd Hj Hroom Hlen Hdur Hr.
  destruct (durable_append_run cfg tid batch j layout d j' d' r events Hd Hj Hroom Hdur Hr)
    as (layout' & f & Hcat & _ & Hev & _ & Hdur' & Hgrow & Hj' & Hloss).
  exists layout'. split; [done|]. intros d'' Hpl St fold st. destruct (Hloss d'' Hpl) as (Hok & Hdist & Hdir).
  assert (Hev' : layout_events layout' = layout_events layout ++ jb_events batch).
  { unfold layout_events. rewrite Hcat, map_app, concat_app. simpl. by rewrite Hev, app_nil_r. }
  rewrite <- Hev'.
  destruct (recover_crashed_run cfg tid fold Writer layout' st d'') as (d3 & Hrec & _).
  - apply (pl_lock _ _ Hpl).
  - done.
  - done.
  - by apply crashed_intact.
  - lia.
  - eauto.
Qed.

(** A range fold over an open journal folds exactly the events of the
    requested revisions, in order, and refuses a range beyond the head; the
    files stay as they are. *)
Theorem range_fold_is_exact {St} (fold : St -> ThreadEventEnvelope -> St) range j layout st d :
  healthy d -> journal_inv cfg tid j layout d -> range_valid range ->
  fold_range range st fold j d
    = (d, if rev (range_end_inclusive range) <=? rev (head_revision (tj_head j))
          then Ok (fold_left fold (range_events range (layout_events layout)) st)
          else Err (InvalidRange (String.append "requested end "
                 (String.append (revision_debug (range_end_inclusive range))
                    (String.append " exceeds thread head " (revision_debug (head_revision (tj_head j)))))))).
Proof.
  intros Hd [] Hr. unfold fold_range. rewrite ji_config, ji_thread, ji_head, ji_segments.
  destruct (Z.leb_spec (rev (range_end_inclusive range)) (rev (head_revision (last_head HEAD_EMPTY (concat layout))))).
  - by apply visit_range_run.
  - unfold visit_range. rewrite (proj2 (Z.ltb_lt _ _)) by done. by erewrite M_bind_fails by reflexivity.
Qed.

(** [receipt] finds the receipt of every committed command, also of those
    that left the cache of recent commands, and nothing for any other. *)
Theorem receipt_lookup_is_exact id j layout d :
  healthy d -> journal_inv cfg tid j layout d ->
  (exists f r, f ∈ concat layout /\ frame_id f = id /\ frame_receipt f = Some r /\
     receipt id j d = (d, Ok (Some r))) \/
  ((id ∉ map frame_id (concat layout)) /\ receipt id j d = (d, Ok None)).
Proof.
  intros Hd Hj. destruct (decide (id ∈ map frame_id (concat layout))) as [Hin|Hni].
  - left. apply list_elem_of_In, in_map_iff in Hin as (f & <- & Hf%list_elem_of_In).
    destruct (committed_command_run cfg tid f j layout d Hd Hj Hf) as (p & r & Hfind & Hr & Hread).
    exists f, r. do 3 (split; [done|]). unfold receipt. rewrite (M_bind_run _ _ _ _ _ Hfind). cbn beta iota.
    by rewrite (M_bind_run _ _ _ _ _ Hread).
  - right. split; [done|]. unfold receipt.
    rewrite (M_bind_run _ _ _ _ _ (find_command_frame_run cfg tid id j layout d Hd Hj)).
    by rewrite (proj2 (lookup_pointer_None id (layout_pointers layout))) by (by rewrite layout_pointers_ids).
Qed.

(** A snapshot reader folds the committed events of a journal, also while
    a writer has it open or has left part of a frame, and writes nothing. *)
Theorem snapshot_reads_committed_events {St} (fold : St -> ThreadEventEnvelope -> St) layout st d :
  healthy d -> validate_config cfg = Ok tt ->
  layout_ok cfg tid 0 HEAD_EMPTY layout -> distinct_commands layout -> crashed cfg tid layout d ->
  len layout + 1 < 2 ^ 64 ->
  fold_snapshot cfg tid st fold d = (d, Ok (fold_left fold (layout_events layout) st)).
Proof.
  intros Hd Hv Hok Hdist Hcr Hlen. unfold fold_snapshot. by apply (consume_snapshot_run cfg tid fold st layout d).
Qed.

(** [open] on the remnant of a crash takes the lock and establishes the
    invariant of an open journal. *)
Theorem open_establishes_the_invariant {St} process (fold : St -> ThreadEventEnvelope -> St) st layout d :
  healthy d -> validate_config cfg = Ok tt -> process ∉ d_writers d -> d_lock_held d = false ->
  layout_ok cfg tid 0 HEAD_EMPTY layout -> distinct_commands layout -> crashed cfg tid layout d ->
  len layout + 1 < 2 ^ 64 ->
  exists j d', open_and_fold process cfg tid st fold d
      = (d', Ok (j, fold_left fold (layout_events layout) st)) /\
    journal_inv cfg tid j layout d' /\ d_lock_held d' = true /\
    d_writers d' = {[ process ]} ∪ d_writers d.
Proof.
  intros Hd Hv Hp Hl Hok Hdist Hcr Hlen.
  destruct (open_run cfg tid process fold st layout d) as (j & d' & Hrun & Hj & _); try done.
  exists j, d'. split; [done|]. split; [done|]. apply open_locks in Hrun. tauto.
Qed.

(** Opening a journal that is open, in this process or another, is refused
    and changes neither the directory nor the lock. *)
Theorem open_refuses_a_second_writer {St} process (fold : St -> ThreadEventEnvelope -> St) st d :
  healthy d -> validate_config cfg = Ok tt -> process ∈ d_writers d \/ d_lock_held d = true ->
  exists d', open_and_fold process cfg tid st fold d = (d', Err WriterBusy) /\ same_dir d d' /\
    d_lock_held d' = d_lock_held d /\ d_writers d' = d_writers d.
Proof.
  intros Hd Hv Hb. destruct (open_busy_run cfg tid process fold st d Hd Hv Hb) as (d' & ? & ? & ? & ? & _). eauto.
Qed.

(** The probe answers whether a writer has the journal open, and leaves
    the directory and the lock as they were. *)
Theorem probe_is_exact process w :
  lock_inv w -> (w_open w <> [] -> d_lock_file (w_disk w) = true) -> healthy (w_disk w) ->
  validate_config cfg = Ok tt ->
  exists d', writer_is_busy process cfg (w_disk w) = (d', Ok (negb (is_empty (w_open w)))) /\
    same_dir (w_disk w) d' /\ d_lock_held d' = d_lock_held (w_disk w) /\
    d_writers d' = d_writers (w_disk w).
Proof.
  intros Hl Hf Hd Hv. destruct (probe_run cfg process (w_disk w) Hd Hv) as (d' & Hrun & Hfiles & Ho & _).
  exists d'. pose proof (probe_locks _ _ _ _ _ Hrun) as [Eh Ew]. rewrite Hrun. split; [|done].
  do 2 f_equal. unfold lock_inv in Hl. destruct (w_open w) as [|j [|]]; [| |done]; destruct Hl as [Hh Hw].
  - rewrite Hh, Hw, andb_false_r, orb_false_r. cbn. apply bool_decide_eq_false. set_solver.
  - rewrite Hf, Hh by done. cbn. apply orb_true_r.
Qed.

(** [sync] clears the bookkeeping and, in a journal whose other segments
    are synced, leaves every segment's content and name synced. *)
Theorem sync_makes_all_durable j layout d :
  healthy d -> journal_inv cfg tid j layout d -> durable_inv j layout d ->
  exists j' d', sync (j, d)
      = ((j', d'), Ok {| db_through := tj_head j; db_batch_count := tj_dirty_batch_count j |}) /\
    journal_inv cfg tid j' layout d' /\ needs_sync j' = false /\ d_files d' = d_files d /\
    forall k fs, layout !! k = Some fs -> fs <> [] ->
      let name := segment_file_name (u64_of (Z.of_nat k)) in
      d_synced d' !! name = d_files d' !! name /\ name ∈ d_synced_names d'.
Proof.
  intros Hd Hj Hdur.
  destruct (sync_run cfg tid j layout d Hd Hj) as (j' & d' & Hrun & Hj' & Hs & _ & Hp & Hz & Hd').
  exists j', d'. split; [done|]. split; [done|]. split; [unfold needs_sync; by rewrite Hz|].
  split; [apply (se_files _ _ Hs)|]. intros k fs Hk Hne name.
  destruct (Hd' Hdur k fs Hk Hne) as (_ & ? & ?); [rewrite Hp; apply not_elem_of_nil|done].
Qed.

(** The checks of [append] accept exactly the batches of the thread that
    continue the head event by event, repeat no event identifier and fit a
    frame. *)
Theorem accepted_batches_are_the_acceptable_ones h batch durability :
  val (jc_max_frame_payload_bytes cfg) + 236 < 2 ^ 64 ->
  acceptable cfg tid h batch durability <->
  jb_thread_id batch = tid /\ jb_expected_revision batch = head_revision h /\
  exists e h', encode_batch batch durability (jc_max_frame_payload_bytes cfg) = Ok e /\
    validate_stored_batch (ef_header e) (ef_stored e) tid h = Ok h'.
Proof. apply acceptable_iff. Qed.

(** A write that fails part-way, with the truncation that follows
    succeeding, leaves the file as it was and reports the failure. *)
Theorem failed_write_is_rolled_back path content e k d :
  d_faults d = [None; None; Some k] -> d_files d !! path = Some content ->
  exists d', write_frame path (len content) e d = (d', Err (Io OtherIo)) /\
    d_files d' = d_files d /\ d_others d' = d_others d /\ d_synced d' !! path = Some content.
Proof.
  intros Hf Hc. set (d1 := with_faults [None; Some k] d). set (d2 := with_faults [Some k] d).
  set (d3 := with_files (<[path := content ++ take k (ef_bytes e)]> (d_files d)) (with_faults [] d)).
  assert (H1 : fs_open path d = (d1, Ok tt)).
  { unfold fs_open, syscall, take_fault. rewrite Hf. cbn. by rewrite Hc. }
  assert (H2 : fs_len path d1 = (d2, Ok (len content))).
  { unfold fs_len, syscall, take_fault. cbn -[Z.of_nat]. by rewrite Hc. }
  assert (H3 : fs_write_all path (ef_bytes e) d2 = (d3, Err OtherIo)).
  { unfold fs_write_all, take_fault. cbn. by rewrite Hc. }
  assert (Happ : append_at path (len content) (ef_bytes e) d = (d3, Err (DuringWrite OtherIo))).
  { unfold append_at. rewrite (M_bind_run _ _ _ _ _ (map_error_run BeforeWrite _ _ _ _ H1)).
    rewrite (M_bind_run _ _ _ _ _ (map_error_run BeforeWrite _ _ _ _ H2)).
    rewrite Z.eqb_refl. erewrite M_bind_run by reflexivity. unfold map_error. by rewrite H3. }
  pose proof (truncate_and_sync_healthy path d3 content (take k (ef_bytes e)) (len content) eq_refl) as Ht.
  eexists. split.
  - unfold write_frame. erewrite M_bind_run by (unfold outcome; rewrite Happ; reflexivity). cbn beta iota.
    erewrite M_bind_run; [reflexivity|]. apply map_error_run, Ht; [|done]. cbn. by rewrite lookup_insert_eq.
  - cbn. rewrite insert_insert_eq, insert_id by done. by rewrite lookup_insert_eq.
Qed.

(** A segment file that something else made longer or shorter is noticed
    before anything is written. *)
Theorem changed_file_is_noticed path content expected e d :
  healthy d -> d_files d !! path = Some content -> len content <> expected ->
  exists reason, write_frame path expected e d = (d, Err (CorruptSegment path (len content) reason)).
Proof.
  intros Hd Hc Hne. unfold write_frame.
  assert (Happ : append_at path expected (ef_bytes e) d = (d, Err (OffsetChanged (len content)))).
  { unfold append_at.
    rewrite (M_bind_run _ _ _ _ _ (map_error_run BeforeWrite _ _ _ _ (fs_open_healthy _ _ _ Hd Hc))).
    rewrite (M_bind_run _ _ _ _ _ (map_error_run BeforeWrite _ _ _ _ (fs_len_healthy _ _ _ Hd Hc))).
    rewrite (proj2 (Z.eqb_neq _ _)) by done. by erewrite M_bind_fails by reflexivity. }
  erewrite M_bind_run by (unfold outcome; rewrite Happ; reflexivity). eexists. reflexivity.
Qed.

End Theorems.

(** * Instances *)

Lemma acknowledged_batches_survive_witness :
  exists layout, layout_ok example_config example_thread 0 HEAD_EMPTY layout /\ distinct_commands layout /\
    Forall2 (fun s r => answered s r (concat layout)) example_steps
      (snd (perform_all example_config example_thread example_steps {| w_open := []; w_disk := empty_disk |})).
Proof.
  pose proof (acknowledged_batches_survive example_config example_thread example_steps empty_disk
                example_config_valid example_room empty_fresh) as W.
  destruct (perform_all _ _ _ _) as [w replies]. destruct W as (layout & ? & ? & ? & _); [|done|by exists layout].
  repeat constructor.
Defined.

Lemma append_meets_specification_witness :
  exists j' layout' d' r,
    append example_batch1 Buffered (opened_journal, opened_disk) = ((j', d'), r) /\
    append_spec example_config example_thread example_batch1 Buffered [] (concat layout') r /\
    journal_inv example_config example_thread j' layout' d' /\ healthy d'.
Proof.
  apply (append_meets_specification example_config example_thread example_batch1 Buffered opened_journal [] opened_disk);
    [done|apply opened_inv|apply opened_room].
Defined.

Lemma recovery_restores_committed_frames_witness : exists layout d d',
  length (concat layout) = 1%nat /\
  recover_with_mode (fun n _ => S n) example_config example_thread Writer 0%nat d
    = (d', Ok (recovered_state Writer layout, fold_left (fun n _ => S n) (jb_events example_batch1) 0%nat)).
Proof.
  destruct first_state as (j & d & layout & f & El & _ & Hev & Hok & Hdist & Hdir & Hlen & _ & _ & Hd & _).
  destruct (recovery_restores_committed_frames example_config example_thread (fun n _ => S n) Writer layout 0%nat d)
    as (d' & Hr & _); [done|done|done|by apply crashed_intact|lia|].
  exists layout, d, d'. rewrite El. split; [done|]. by rewrite <- Hev.
Defined.

Lemma recovery_accepts_only_journals_witness : exists d layout,
  plain_directory d /\ recovery_counts d = Some 1%nat /\
  layout_ok example_config example_thread 0 HEAD_EMPTY layout /\
  fold_left (fun n _ => S n) (layout_events layout) 0%nat = 1%nat.
Proof.
  destruct first_recovery as [Hp Hc]. generalize dependent first_disk. intros d Hp Hc.
  exists d. pose proof Hc as Hc'. unfold recovery_counts in Hc'.
  destruct (recover_with_mode _ _ _ _ _ d) as [d' [[rs n]|e]] eqn:E; [|done].
  destruct (recovery_accepts_only_journals example_config example_thread (fun n _ => S n) 0%nat d d' rs n
              (plain_check_sound d Hp) E) as (layout & ? & _ & _ & Hn & _).
  exists layout. split; [by apply plain_check_sound|]. split; [done|]. split; [done|]. cbn [snd] in Hc'. congruence.
Defined.

Lemma append_is_crash_safe_witness : exists j' d' r,
  append example_batch1 Durable (opened_journal, failing_disk) = ((j', d'), Err r) /\
  append_left example_config example_thread example_batch1 opened_journal [] d'.
Proof.
  destruct failing_append as ([j' d'] & r & E). exists j', d', r. split; [exact E|].
  apply (append_is_crash_safe example_config example_thread example_batch1 Durable opened_journal [] failing_disk j' d' (Err r));
    [apply failing_inv|apply example_room|reflexivity|exact E].
Defined.

Lemma at_most_one_writer_witness :
  (length (w_open (fst (perform_all example_config example_thread example_steps
                          {| w_open := []; w_disk := empty_disk |}))) <= 1)%nat.
Proof.
  pose proof (at_most_one_writer example_config example_thread example_steps {| w_open := []; w_disk := empty_disk |}) as W.
  destruct (perform_all _ _ _ _) as [w' rs]. apply W. by split.
Defined.

Lemma durable_commit_survives_power_loss_witness : exists j' d' r events layout',
  append example_batch1 Durable (opened_journal, opened_disk) = ((j', d'), Ok (Committed r events)) /\
  durable_inv j' layout' d' /\
  forall d'', power_loss d' d'' -> exists d3,
    recover_fold (fun n _ => S n) example_config example_thread 0%nat d''
      = (d3, Ok (recovered_state Writer layout', 1%nat)).
Proof.
  destruct first_append_eq as (r & events & E). generalize dependent first_journal. generalize dependent first_disk.
  intros d' j' E.
  destruct (durable_commit_survives_power_loss example_config example_thread example_batch1 opened_journal []
              opened_disk j' d' r events) as (layout' & Hd & Hl);
    [reflexivity|apply opened_inv|apply opened_room|reflexivity|apply opened_durable|exact E|].
  exists j', d', r, events, layout'. split; [exact E|]. split; [done|]. intros d'' Hpl.
    destruct (Hl d'' Hpl nat (fun n _ => S n) 0%nat) as (d3 & Hr). by exists d3.
Defined.


Lemma range_fold_is_exact_witness : exists j d,
  fold_range {| range_start := revision_of 1; range_end_inclusive := revision_of 1 |} 0%nat (fun n _ => S n) j d
    = (d, Ok 1%nat).
Proof.
  destruct first_state as (j & d & layout & f & El & _ & Hev & Hok & _ & _ & _ & Hj & _ & Hd & _ & Hhead).
  exists j, d.
  rewrite (range_fold_is_exact example_config example_thread (fun n _ => S n) _ j layout 0%nat d Hd Hj) by done.
  by rewrite Hhead, Hev.
Defined.

Lemma receipt_lookup_is_exact_witness : exists j d r,
  receipt (jb_command_id example_batch1) j d = (d, Ok (Some r)) /\
  receipt (jb_command_id example_batch2) j d = (d, Ok None).
Proof.
  destruct first_state as (j & d & layout & f & El & Hid & _ & _ & _ & _ & _ & Hj & _ & Hd & _).
  pose proof (receipt_lookup_is_exact example_config example_thread (jb_command_id example_batch1) j layout d Hd Hj) as W1.
  pose proof (receipt_lookup_is_exact example_config example_thread (jb_command_id example_batch2) j layout d Hd Hj) as W2.
  rewrite El in W1, W2. cbn [map] in W1, W2. rewrite Hid in W1, W2. exists j, d.
  destruct W1 as [(f1 & r & _ & _ & _ & W1)|[Hni _]]; [|by destruct Hni; apply list_elem_of_singleton].
  exists r. split; [done|]. destruct W2 as [(f2 & r2 & Hf2 & Hid2 & _)|[_ W2]]; [|done].
  apply list_elem_of_singleton in Hf2 as ->. rewrite Hid in Hid2. vm_compute in Hid2. discriminate Hid2.
Defined.

Lemma snapshot_reads_committed_events_witness : exists d,
  fold_snapshot example_config example_thread 0%nat (fun n _ => S n) d = (d, Ok 1%nat).
Proof.
  destruct first_state as (j & d & layout & f & El & _ & Hev & Hok & Hdist & Hdir & Hlen & Hj & _ & Hd & _).
  exists d. rewrite (snapshot_reads_committed_events example_config example_thread (fun n _ => S n) layout 0%nat d);
    [by rewrite Hev|done|apply example_config_valid|done|done|by apply crashed_intact|lia].
Defined.

Lemma open_establishes_the_invariant_witness : exists j d',
  open_and_fold 2 example_config example_thread 0%nat (fun n _ => S n) torn_header_disk = (d', Ok (j, 0%nat)) /\
  journal_inv example_config example_thread j [] d' /\ d_lock_held d' = true.
Proof.
  destruct (open_establishes_the_invariant example_config example_thread 2%nat (fun n _ => S n) 0%nat [] torn_header_disk)
    as (j & d' & Hr & Hj & Hl & _).
  - reflexivity.
  - apply example_config_valid.
  - apply not_elem_of_empty.
  - reflexivity.
  - apply opened_inv.
  - apply NoDup_nil_2.
  - apply torn_header_crashed.
  - reflexivity.
  - exists j, d'. split; [exact Hr|]. split; [exact Hj|exact Hl].
Defined.

Lemma open_refuses_a_second_writer_witness : exists d',
  open_and_fold 2 example_config example_thread 0%nat (fun n _ => S n) opened_disk = (d', Err WriterBusy) /\
  d_writers d' = {[ 1%nat ]}.
Proof.
  destruct (open_refuses_a_second_writer example_config example_thread 2%nat (fun n _ => S n) 0%nat opened_disk)
    as (d' & Hr & _ & _ & Hw); [reflexivity|apply example_config_valid|right; reflexivity|].
  exists d'. split; [exact Hr|exact Hw].
Defined.

Lemma probe_is_exact_witness : exists d',
  writer_is_busy 2 example_config opened_disk = (d', Ok true).
Proof.
  destruct (probe_is_exact example_config 2%nat {| w_open := [opened_journal]; w_disk := opened_disk |})
    as (d' & Hr & _); [by split|done|reflexivity|apply example_config_valid|].
  exists d'. exact Hr.
Defined.

Lemma sync_makes_all_durable_witness : exists j d j' d',
  sync (j, d) = ((j', d'), Ok {| db_through := tj_head j; db_batch_count := tj_dirty_batch_count j |}) /\
  rev (head_revision (tj_head j)) = 1 /\ needs_sync j' = false.
Proof.
  destruct first_state as (j & d & layout & f & _ & _ & _ & _ & _ & _ & _ & Hj & _ & Hd & Hdur & Hhead).
  destruct (sync_makes_all_durable example_config example_thread j layout d Hd Hj Hdur)
    as (j' & d' & Hr & _ & Hs & _).
  exists j, d, j', d'. split; [exact Hr|]. split; [exact Hhead|exact Hs].
Defined.

Lemma accepted_batches_are_the_acceptable_ones_witness :
  acceptable example_config example_thread HEAD_EMPTY example_batch1 Durable.
Proof.
  apply (accepted_batches_are_the_acceptable_ones example_config example_thread HEAD_EMPTY example_batch1 Durable
           example_max_room).
  split; [reflexivity|]. split; [reflexivity|]. apply example_encoded.
Defined.

Lemma failed_write_is_rolled_back_witness : exists d',
  write_frame "file" 3 blank_frame (with_faults [None; None; Some 3%nat] one_file_disk) = (d', Err (Io OtherIo)) /\
  d_files d' = d_files one_file_disk.
Proof.
  destruct (failed_write_is_rolled_back "file" (repeat Byte.x01 3) blank_frame 3%nat
              (with_faults [None; None; Some 3%nat] one_file_disk)) as (d' & Hr & Hf & _);
    [reflexivity|apply lookup_singleton_eq|].
  exists d'. split; [exact Hr|exact Hf].
Defined.

Lemma changed_file_is_noticed_witness : exists reason,
  write_frame "file" 5 blank_frame one_file_disk = (one_file_disk, Err (CorruptSegment "file" 3 reason)).
Proof.
  apply (changed_file_is_noticed "file" (repeat Byte.x01 3) 5 blank_frame one_file_disk);
    [reflexivity|apply lookup_singleton_eq|done].
Defined.

(** A durable commit does not cover the batches that an earlier, closed, writer
    only buffered: closing and reopening forgets which segments wait for a sync,
    and after a power loss the journal with the durably committed batch can be
    unrecoverable. *)
Theorem reopening_forgets_pending_syncs :
  let (w, replies) := perform_all small_config example_thread reopening_steps {| w_open := []; w_disk := empty_disk |} in
  map reply_code replies = [1; 4; 0; 1; 4] /\
  exists d', power_loss (w_disk w) d' /\
    is_ok (snd (recover_fold (fun n _ => S n) small_config example_thread 0%nat d')) = false.
Proof.
  set (run := perform_all _ _ _ _).
  assert (E : map reply_code (snd run) = [1; 4; 0; 1; 4] /\
              is_ok (snd (recover_fold (fun n _ => S n) small_config example_thread 0%nat
                            (worst_power_loss (w_disk (fst run))))) = false)
    by (split; vm_compute; reflexivity).
  destruct run as [w replies]. destruct E as [E1 E2]. split; [exact E1|].
  exists (worst_power_loss (w_disk w)). split; [apply worst_power_loss_is_one|exact E2].
Qed.
