(* ===== verification/StoreTheorems.v ===== *)
(** What the thread store guarantees: its commands, the index that follows
    them, the opening that brings journal and index together, and what is read
    back, each with an instance. *)

From S2P Require Import Prelude Canonical Events Commands Receipts Format FormatFacts CommandIndex Disk Model Recovery JournalSpec.
From S2P Require Import RecoveryFacts Journal JournalFacts AppendFacts CrashFacts RangeFacts Projection ProjectionFacts ThreadIndex IndexFacts IndexReads.
From S2P Require Import OpenFacts Service LiveThread LiveFacts Interleaving Store StoreFacts Instances Examples StoreExamples.

Open Scope string_scope.
Open Scope list_scope.
Open Scope Z_scope.

Section Theorems.
Context `{External, JsonCodec, SqliteLaws} (cfg : JournalConfig) (tid : ThreadId).
Implicit Types (es : list ThreadEventEnvelope) (p q : ThreadIndexProjection) (db : Db).

(** C7. While the database works, any sequence of commands on an open thread,
    of failing ones too, does to the journal exactly what the specification of
    each command says, answers each with the outcome specified, and leaves the
    index showing the journal. *)
Theorem commands_keep_journal_and_index_in_step calls layout l d db :
  live_inv cfg tid layout l d -> calls_room cfg (len calls) l layout ->
  shows db tid (layout_events layout) -> db_works db ->
  exists l' layout' d' db' ros rs,
    run_calls calls (l, d, db) = ((l', d', db'), rs) /\
    calls_spec cfg tid calls (concat layout) (concat layout') ros /\ live_inv cfg tid layout' l' d' /\
    (fits_index (layout_events layout') ->
     rs = map receipt_of ros /\ shows db' tid (layout_events layout') /\ db_works db').
Proof.
  intros Hl Hroom Hs Hw.
  destruct (run_calls_run cfg tid calls layout l d db Hl Hroom)
    as (l' & layout' & d' & db' & ros & rs & Hrun & Hspec & Hl' & Hfit).
  exists l', layout', d', db', ros, rs. do 3 (split; [done|]). intros Hf. by apply Hfit.
Qed.

(** C9. Whatever statements of the database fail, a command never writes to
    the rows of other threads and never leaves the index with something the
    journal does not hold; it reports an error of the index only when the
    database failed, and the commit it reports has then happened. *)
Theorem failing_index_writes_stay_honest draws actor corr command mode layout l d db :
  live_inv cfg tid layout l d -> append_room cfg (lt_journal l) layout -> honest db tid (layout_events layout) ->
  exists l' layout' d' db' ro r,
    execute draws actor corr command mode (l, d, db) = ((l', d', db'), r) /\
    execute_spec cfg tid draws actor corr command mode (concat layout) (concat layout') ro /\
    (fits_index (layout_events layout') ->
     others_kept tid db db' /\ honest db' tid (layout_events layout') /\
     (r = co_receipt <$> ro \/ (exists s, r = Err (Index s)) /\ ~ db_works db) /\
     (forall receipt, r = Ok receipt -> layout_events layout' <> layout_events layout ->
      shows db' tid (layout_events layout'))).
Proof.
  intros Hl Hroom Hh.
  destruct (execute_run cfg tid draws actor corr command mode layout l d db Hl Hroom)
    as (l' & layout' & d' & db' & ro & r & Hrun & Hspec & _ & _ & _ & Hans).
  exists l', layout', d', db', ro, r. do 2 (split; [done|]). intros Hfit.
  destruct (Hans Hh Hfit) as (_ & Ho & Hh' & Hres). do 2 (split; [done|]).
  pose proof (execute_spec_events _ _ _ _ _ _ _ _ _ _ Hspec) as Hev. destruct ro as [o|e].
  - destruct Hres as [(-> & _ & Hsome)|[[s ->] Hnw]]; [|by split; [right; eauto|]]. split; [by left|].
    intros _ _ Hne. apply Hsome. intros E. destruct Hev as [Hcat _]. rewrite E, app_nil_r in Hcat. by apply Hne.
  - destruct Hres as [-> _]. by split; [left|].
Qed.

(** Applied to an index that shows a prefix of the journal, a batch leaves
    it at the fold of the journal up to some event of the batch, the last one
    unless the database fails: runs of agent events, written by one statement
    each, are their events applied one by one. *)
Theorem applied_batches_are_folds es events p db :
  indexable (es ++ events) -> project es = Some p -> stored db p ->
  (forall e, e ∈ events -> ev_thread_id e = su_thread_id (pr_summary p) /\ is_created e = false) -> exact_costs events p ->
  let (db', r) := apply_all events db in
  exists now rest, events = now ++ rest /\ project (es ++ now) = Some (project_all now p) /\
    stored db' (project_all now p) /\ others_kept (su_thread_id (pr_summary p)) db db' /\
    ((rest = [] /\ r = Ok true) \/ ((exists s, r = Err (Index s)) /\ ~ db_works db)).
Proof.
  intros Hix Hp Hst Hev Hx. destruct (apply_all events db) as [db' r] eqn:Er.
  destruct (apply_loop_applies (length events) es events p db db' r ltac:(lia) Hix Hp Hst Hev Hx Er)
    as (_ & now & rest & -> & Hst' & Ho & Hr).
  exists now, rest. split; [done|]. split; [|by split; [|split]].
  pose proof (ix_numbered _ Hix) as Hn. rewrite app_assoc in Hn. apply numbered_split in Hn as [Hn _].
  by apply project_app.
Qed.

(** The loop over a batch ends: it takes at least one event in each turn,
    so that any bound on its turns from the number of events on gives the same
    result. *)
Theorem batch_loop_terminates fuel events db :
  (length events <= fuel)%nat -> apply_loop fuel events db = apply_all events db.
Proof. intros Hf. by apply apply_loop_fuel. Qed.

(** C10. Clones of an open thread may run commands at the same time.  In whatever
    order their commits, statements, journal folds and replacements of the
    projection happen, and whichever statements fail, the index holds what the
    journal held at some revision and the rows of other threads are kept; a
    command that commits alone on a working database afterwards brings the index
    to the journal. *)
Theorem interleaved_calls_stay_honest start s :
  thread_events tid (sh_events start) -> fits_index (sh_events start) ->
  honest (sh_db start) tid (sh_events start) -> sh_work start = [] ->
  rtc (shared_step tid) start s ->
  honest (sh_db s) tid (sh_events s) /\ others_kept tid (sh_db start) (sh_db s) /\
  forall layout l d c, live_inv cfg tid layout l d -> layout_events layout = sh_events s ->
    append_room cfg (lt_journal l) layout -> db_works (sh_db s) ->
    exists l' layout' d' db' r, run_call c (l, d, sh_db s) = ((l', d', db'), r) /\
      (forall receipt, r = Ok receipt -> layout_events layout' <> layout_events layout ->
         fits_index (layout_events layout') -> shows db' tid (layout_events layout')).
Proof.
  intros Hte Hfit Hh Hw Hs.
  assert (Hi : shared_inv tid (sh_db start) start).
  { split; try done. by rewrite Hw. }
  destruct (shared_reachable_inv tid _ _ _ Hi Hs) as [_ _ Hh' Ho _]. split; [done|]. split; [done|].
  intros layout l d c Hl Ees Hroom Hworks. rewrite <- Ees in Hh'.
  destruct (execute_run cfg tid (lc_draws c) (lc_actor c) (lc_correlation c) (lc_command c) (lc_mode c) layout l d (sh_db s) Hl Hroom)
    as (l' & layout' & d' & db' & ro & r & Hrun & Hspec & _ & _ & Hrec & Hans).
  exists l', layout', d', db', r. split; [exact Hrun|]. intros receipt -> Hne Hf.
  destruct (Hans Hh' Hf) as (_ & _ & _ & Hres). destruct (Hrec _ eq_refl) as (o & -> & _).
  destruct Hres as [(_ & _ & Hsome)|[_ Hnw]]; [|by destruct (Hnw Hworks)]. apply Hsome. intros E.
  destruct (execute_spec_events _ _ _ _ _ _ _ _ _ _ Hspec) as [Hcat _]. rewrite E, app_nil_r in Hcat. by apply Hne.
Qed.

(** A preview is the longest prefix of the text of at most 160 characters:
    the text itself when it is not longer, and whole characters of it always. *)
Theorem previews_are_bounded_prefixes text :
  let cut := str_bytes (preview text) in
  cut `prefix_of` str_bytes text /\
  char_count cut = Nat.min PREVIEW_MAX_CHARS (char_count (str_bytes text)) /\
  ((char_count (str_bytes text) <= PREVIEW_MAX_CHARS)%nat -> preview text = text) /\
  (utf8_valid (str_bytes text) = true -> utf8_valid cut = true).
Proof.
  assert (Ecut : str_bytes (preview text) = char_prefix PREVIEW_MAX_CHARS (str_bytes text))
    by apply String.list_byte_of_string_of_list_byte.
  cbn zeta. rewrite Ecut. split; [apply char_prefix_prefix|]. split; [apply char_prefix_count|].
  split; [|by apply char_prefix_utf8]. intros Hc. unfold preview. rewrite char_prefix_all by done.
  apply String.string_of_list_byte_of_string.
Qed.

(** A scan plan that the index gives starts exactly at the turn asked for:
    the events up to where it starts scanning begin that many turns and their
    highest agent sequence is the plan's; for the last 256 turns, for the first
    and for the end there is a plan. *)
Theorem scan_plans_are_exact es select db :
  indexable es -> es <> [] -> thread_events tid es -> shows db tid es ->
  let (db', r) := index_transcript_scan_plan tid select db in
  exists total : u64, val total = turns es /\
  match r with
  | Ok (Some plan) => exists first, select total = Some first /\ plans es (Z.min (val first) (turns es)) plan
  | Ok None => forall first, select total = Some first ->
                 val first <> 0 /\ val first < turns es - Z.of_nat RECENT_TURN_CHECKPOINT_CAPACITY
  | Err err => (exists s, err = Index s) /\ ~ db_works db
  end /\ same_tables db db'.
Proof.
  intros Hix Hne Hte Hs. destruct (project_thread_events tid es Hte Hne) as (p & Hp & _).
  unfold shows in Hs. rewrite Hp in Hs. destruct Hs as [Ht Hst].
  destruct (index_transcript_scan_plan tid select db) as [db' r] eqn:Er.
  pose proof (scan_plan_runs db tid es p select Hix Hp Ht Hst _ _ Er) as [_ Hr].
  pose proof (project_transcript es p (ix_numbered _ Hix) Hp) as Hok.
  exists (ti_total_turns (pr_transcript_index p)). split; [apply (to_total _ _ Hok)|].
  destruct r as [plan|err]; [|by destruct Hr as (? & ? & ?)]. destruct Hr as (Hsame & q & Hq & ->).
  split; [|done]. assert (Hok' : transcript_ok es q) by (by rewrite Hq).
  destruct (select _) as [first|]; [|intros first Efirst; discriminate Efirst]. cbn [mbind option_bind].
  destruct (plan_from (pr_transcript_index q) first) as [plan|] eqn:Epl.
  - exists first. split; [done|]. apply (plan_from_exact es q); [apply (ix_numbered _ Hix)|done|done].
  - intros ? [= <-]. destruct (decide (val first = 0 \/ turns es - Z.of_nat RECENT_TURN_CHECKPOINT_CAPACITY <= val first)) as [Hd|Hd];
      [|split; [intros E; apply Hd; by left|lia]].
    destruct (plan_from_recent es q first (ix_numbered _ Hix) Hok') as [plan E]; [tauto|]. by rewrite E in Epl.
Qed.

(** A window of the journal of an open thread is folded exactly: the
    events after one revision through another, in order and each once; a bound
    beyond the head or below the start is refused and named. *)
Theorem journal_windows_are_exact {St} after through (st : St) fold layout l d db :
  live_inv cfg tid layout l d ->
  let es := layout_events layout in
  fold_between after through st fold (l, d, db)
    = ((l, d, db),
       if len es <? rev through then Err (RevisionNotFound (revision_get through))
       else if rev through <? rev after then Err (RevisionNotFound (revision_get after))
       else Ok (fold_left fold (events_between after through es) st)) /\
  fold_all st fold (l, d, db) = ((l, d, db), Ok (fold_left fold es st)).
Proof.
  intros Hl es. split; [|by apply (fold_all_run cfg tid)]. unfold fold_between.
  by rewrite (fold_window_run cfg tid layout) by done.
Qed.

(** Reconciling the same metadata again finds nothing to do: it answers
    [false] and changes neither the journal nor the index. *)
Theorem reconciliation_is_idempotent draws draws' desired mode mode' (s s' : LiveThreadStore * Disk * Db) b :
  reconcile_session_metadata draws desired mode s = (s', Ok b) ->
  reconcile_session_metadata draws' desired mode' s' = (s', Ok false).
Proof.
  assert (Hdone : forall l d db, is_none (changed_name (lt_session_metadata l) desired)
            && is_none (changed_resume_config (lt_session_metadata l) desired)
            && is_none (changed_dynamic_tools (lt_session_metadata l) desired) = true ->
            forall dr mo, reconcile_session_metadata dr desired mo (l, d, db) = ((l, d, db), Ok false)).
  { intros l d db E dr mo. unfold reconcile_session_metadata. rewrite live_bind. by rewrite E. }
  destruct s as [[l d] db]. unfold reconcile_session_metadata at 1. rewrite live_bind.
  destruct (_ && _) eqn:E; [intros [= <- <-]; by apply Hdone|].
  intros Hr. apply M_bind_cases in Hr as [([[l1 d1] db1] & receipt & _ & Hr)|(err & _ & [=])].
  injection Hr as <- <-. apply Hdone.
  destruct (reconciled_unchanged (lt_session_metadata l) desired) as (E1 & E2 & E3).
  change (lt_session_metadata (with_session_metadata _ l1)) with (reconciled (lt_session_metadata l) desired).
  by rewrite E1, E2, E3.
Qed.

(** When it succeeds under a new command identifier, reconciliation leaves
    the journal, the metadata held in memory and the metadata asked for in
    agreement, whatever it had to change. *)
Theorem reconciled_metadata_matches_the_journal draws desired mode layout l d db :
  live_inv cfg tid layout l d -> append_room cfg (lt_journal l) layout ->
  lt_session_metadata l = session_metadata_of (project (layout_events layout)) ->
  dr_command_id draws ∉ map frame_id (concat layout) ->
  exists l' layout' d' (db' : Db) (r : result ThreadStoreError bool),
    reconcile_session_metadata draws desired mode (l, d, db) = ((l', d', db'), r) /\
    live_inv cfg tid layout' l' d' /\
    match r with
    | Ok _ => lt_session_metadata l' = session_metadata_of (project (layout_events layout')) /\
              lt_session_metadata l' = reconciled (lt_session_metadata l) desired
    | Err _ => lt_session_metadata l' = lt_session_metadata l
    end.
Proof.
  intros Hl Hroom Hmeta Hfresh. unfold reconcile_session_metadata. rewrite live_bind.
  set (m := lt_session_metadata l) in *. set (name := changed_name m desired). set (rc := changed_resume_config m desired).
  set (tools := changed_dynamic_tools m desired). pose proof (reconciliation_metadata m desired) as Hrec.
  fold name rc tools in Hrec. destruct (is_none name && is_none rc && is_none tools) eqn:Enone.
  { exists l, layout, d, db, (Ok false). split; [done|]. split; [done|]. split; [done|].
    rewrite !andb_true_iff in Enone. destruct Enone as [[En Er] Et]. by destruct name, rc, tools. }
  destruct (execute_run cfg tid draws ActorRuntime None (ReconcileSessionMetadata name rc tools) mode layout l d db Hl Hroom)
    as (l1 & layout1 & d1 & db1 & ro & r & Hrun & Hspec & Hl1 & (Hkeep & _ & _) & Hok & _).
  destruct r as [receipt|err].
  2: { exists l1, layout1, d1, db1, (Err err). split; [by erewrite M_bind_fails by exact Hrun|]. done. }
  destruct (Hok _ eq_refl) as (o & -> & _).
  exists (with_session_metadata (reconciled m desired) l1), layout1, d1, db1, (Ok true).
  split; [by erewrite M_bind_run by exact Hrun|]. split; [by destruct Hl1|]. split; [|done].
  change (lt_session_metadata (with_session_metadata _ l1)) with (reconciled m desired).
  assert (Hne : event_bodies (ReconcileSessionMetadata name rc tools) <> [])
    by (cbn; unfold metadata_event_bodies; by destruct name, rc, tools).
  destruct (fresh_command_commits cfg tid _ _ _ _ _ _ _ _ Hspec Hfresh eq_refl Hne) as (Hframes & Hcat & Hbodies).
  rewrite <- !layout_events_frames in Hcat.
  pose proof (li_events _ _ _ _ _ Hl) as Hte. pose proof (te_numbered _ _ (li_events _ _ _ _ _ Hl1)) as Hn. rewrite Hcat in *.
  destruct (project_thread_events tid (layout_events layout) Hte) as (p & Hp & _).
  { intros E. apply Hframes. apply (frames_events_nil cfg tid); [|by rewrite <- layout_events_frames].
    apply (layout_frames_ok _ _ _ _ _ (ji_layout _ _ _ _ _ (li_journal _ _ _ _ _ Hl))). }
  rewrite (project_app _ _ p Hn Hp). rewrite Hp in Hmeta.
  change (session_metadata_of (Some ?x)) with (metadata_of_projection x) in *.
  rewrite project_all_metadata, Hbodies, <- Hmeta. by rewrite <- Hrec.
Qed.

End Theorems.

Section Opening.
Context `{External, JsonCodec, SqliteLaws} (root : string) (tid : ThreadId).
Implicit Types (es : list ThreadEventEnvelope) (p q : ThreadIndexProjection) (db : Db).

Abbreviation recoverable_index := (recoverable_index tid).
Abbreviation closed := (closed root tid).
Abbreviation live_inv := (live_inv (journal_config_new root) tid).

(** C8. Where the index holds nothing of a thread, the projection of an earlier
    part of its journal, or one of a journal that has lost its end, and the events
    fit the index, opening the closed journal succeeds while the database works: the
    fold covers every committed event, the index shows the journal afterwards and
    the metadata in memory is the journal's; when the database fails the journal is
    closed again.  A row that is at the journal's revision with other content than
    its projection is outside of these hypotheses: it is taken as it is. *)
Theorem opening_repairs_the_index {St} process (initialize : option ThreadIndexProjection -> St) fold layout d db :
  closed process layout d -> indexable (layout_events layout) -> recoverable_index db (layout_events layout) ->
  exists d' db' r,
    open_thread_and_fold process root tid initialize fold (d, db) = ((d', db'), r) /\
    (db_works db -> is_ok r = true) /\
    match r with
    | Ok (thread, state, coverage) =>
        live_inv layout thread d' /\ shows db' tid (layout_events layout) /\ others_kept tid db db' /\
        lt_session_metadata thread = session_metadata_of (project (layout_events layout)) /\
        exists indexed, indexed_ok tid db (layout_events layout) indexed /\
          state = fold_left fold (layout_events layout) (initialize indexed) /\
          coverage = model_context_fold_coverage (open_model_context_checkpoint indexed)
                       (projection ← project (layout_events layout); pr_model_context_checkpoint projection)
    | Err err => (exists s, err = Index s) /\ same_tables db db' /\ d_lock_held d' = false /\ process ∉ d_writers d'
    end.
Proof.
  intros Hcl Hix Hri.
  destruct (open_thread_and_fold_run root tid process initialize fold layout d db Hcl Hix Hri)
    as (d' & db' & r & Hrun & _ & Hr).
  exists d', db', r. split; [done|]. destruct r as [[[thread state] coverage]|err].
  - split; [done|]. destruct Hr as (indexed & summary & Hi & (Hl & _ & Hm & Hst & Hcov & _) & Hs & Ho).
    do 4 (split; [done|]). by exists indexed.
  - destruct Hr as (Hs & Hnw & Hr). by split.
Qed.

(** The fold that an opening resumes from the index, with the rebuilding of
    a projection that is ahead of the journal, ends at the projection of the
    whole journal, up to the absent frontier of a thread without agent events. *)
Theorem resumed_fold_is_the_journals j layout d db indexed :
  healthy d -> journal_inv (journal_config_new root) tid j layout d ->
  indexed_ok tid db (layout_events layout) indexed ->
  let start := match indexed with Some p => Projected p | None => AwaitingCreation end in
  exists a, recover_index j (accumulate (layout_events layout) start) d = (d, Ok a) /\
    match project (layout_events layout) with
    | Some p => exists q, accumulator_finish a = Some q /\ q ≡ p
    | None => accumulator_finish a = None
    end.
Proof.
  intros Hd Hj Hi start. exists (recovered indexed (layout_events layout)).
  split; [by apply (recover_index_run root tid)|].
  apply (recovered_recovers tid db); [|done]. exact (layout_numbered _ _ _ _ _ (ji_layout _ _ _ _ _ Hj)).
Qed.

(** A prepared projection is folded forward: the events of the whole
    journal reach the caller's fold, the summary is the journal's and the index
    is brought along; a journal that has lost events the projection shows is
    refused before anything is written. *)
Theorem prepared_projections_fold_forward {St} q p es0 (state : St) fold process layout d db :
  closed process layout d -> indexable (layout_events layout) ->
  numbered 0 es0 -> project es0 = Some p -> su_thread_id (pr_summary p) = tid -> q ≡ p ->
  let es := layout_events layout in
  let prepared := {| pt_store_root := root; pt_thread_id := tid; pt_projection := q |} in
  if len es <? len es0 then
    exists recovered, rev recovered = len es /\
      fold_prepared_thread_events root prepared state fold (d, db)
        = ((d, db), Err (PreparedProjectionAhead (revision_get (su_revision (pr_summary q))) (revision_get recovered)))
  else
    (exists es2, es = es0 ++ es2) -> recoverable_index db es ->
    exists db' r, fold_prepared_thread_events root prepared state fold (d, db) = ((d, db'), r) /\
      match r with
      | Ok (state', folded) =>
          state' = fold_left fold es state /\
          pr_summary <$> project es = Some (pf_summary folded) /\
          pf_model_context_coverage folded = model_context_fold_coverage (pr_model_context_checkpoint p)
            (projection ← project es; pr_model_context_checkpoint projection) /\
          (len es0 < len es -> shows db' tid es)
      | Err err => (exists s, err = Index s) /\ ~ db_works db /\ same_tables db db'
      end.
Proof.
  intros Hcl Hix Hn Hp Ht Hq es prepared.
  pose proof (fold_prepared_run root tid q p es0 state fold process layout d db Hcl Hix Hn Hp Ht Hq) as Hrun.
  cbn zeta in Hrun. fold es prepared in Hrun. destruct (len es <? len es0); [done|]. intros Hes Hri.
  destruct (Hrun Hes Hri) as (db' & r & E & _ & Hr). by exists db', r.
Qed.

(** An administrative command opens the thread, runs on it as its
    specification says, and leaves it closed with the index showing the journal;
    an index that cannot be written is reported, and the command then either
    has not started or is committed. *)
Theorem administrative_commands_commit_and_close process draws command layout d db :
  closed process layout d -> indexable (layout_events layout) -> recoverable_index db (layout_events layout) ->
  len layout + 2 < 2 ^ 64 ->
  exists d' db' r,
    run_command process root tid draws command (d, db) = ((d', db'), r) /\
    (((exists s, r = Err (Index s)) /\ ~ db_works db /\ same_tables db db' /\
      d_lock_held d' = false /\ process ∉ d_writers d') \/
     exists layout' ro, closed process layout' d' /\
       execute_spec (journal_config_new root) tid draws ActorUser None command CommitDurable
         (concat layout) (concat layout') ro /\
       (fits_index (layout_events layout') ->
        match ro with
        | Ok _ => (r = Ok tt /\ shows db' tid (layout_events layout')) \/ ((exists s, r = Err (Index s)) /\ ~ db_works db)
        | Err e => r = Err e /\ shows db' tid (layout_events layout')
        end)).
Proof. apply run_command_run. Qed.

(** A summary read without opening the thread is that of the projection
    the index shows; where it shows none, it is the journal's, which the index
    shows from then on. *)
Theorem summaries_are_shown_or_rebuilt process layout d db :
  closed process layout d -> indexable (layout_events layout) -> recoverable_index db (layout_events layout) ->
  exists db' r, read_summary root tid true (d, db) = ((d, db'), r) /\
    match r with
    | Ok o =>
        (exists p, shows_some tid db (layout_events layout) p /\ o = Some (pr_summary p)) \/
        (found db tid = None /\ o = pr_summary <$> project (layout_events layout) /\
         (layout_events layout <> [] -> shows db' tid (layout_events layout)))
    | Err err => (exists s, err = Index s) /\ ~ db_works db /\ same_tables db db'
    end.
Proof.
  intros Hcl Hix Hri. destruct (read_summary_run root tid process layout d db Hcl Hix Hri) as (db' & r & E & _ & Hr).
  by exists db', r.
Qed.

End Opening.

(** * Instances *)

Definition example_call (n : Z) (command : ThreadCommand) : LiveCall := {|
  lc_draws := example_draws n; lc_actor := ActorUser; lc_correlation := None; lc_command := command;
  lc_mode := CommitBuffered |}.

Definition example_calls : list LiveCall := [
  example_call 2 (SetName (Some "first")); example_call 2 (SetName (Some "first"));
  example_call 3 (RecordNativeAgentEvents [])].

Lemma calls_witness_room k bodies layout (l : LiveThreadStore) d db :
  example_state k bodies layout l d db -> k < 1000 -> calls_room example_config 3 l layout.
Proof. intros [] Hk. split; [apply example_room|]. split; lia. Qed.

Lemma commands_keep_journal_and_index_in_step_witness : exists layout l d db,
  live_inv example_config example_thread layout l d /\ len (layout_events layout) = 1 /\
  exists l' layout' d' db' ros rs,
    run_calls example_calls (l, d, db) = ((l', d', db'), rs) /\
    calls_spec example_config example_thread example_calls (concat layout) (concat layout') ros /\
    live_inv example_config example_thread layout' l' d' /\
    (fits_index (layout_events layout') ->
     rs = map receipt_of ros /\ shows db' example_thread (layout_events layout') /\ db_works db').
Proof.
  destruct created_state as (l & d & db & receipt & layout & _ & Hst & _). pose proof Hst as [Hl Hs Hw _ _ _ Hb].
  exists layout, l, d, db. split; [exact Hl|].
  split; [apply (f_equal length) in Hb; rewrite length_map in Hb; rewrite Hb; reflexivity|].
  apply (commands_keep_journal_and_index_in_step example_config example_thread example_calls layout l d db Hl);
    [exact (calls_witness_room _ _ _ _ _ _ Hst eq_refl)|exact Hs|exact Hw].
Defined.

Lemma failing_index_writes_stay_honest_witness : exists layout l d db,
  live_inv example_config example_thread layout l d /\ honest db example_thread (layout_events layout) /\
  exists l' layout' d' db' ro r,
    execute (example_draws 2) ActorUser None (SetName (Some "name")) CommitBuffered (l, d, db) = ((l', d', db'), r) /\
    execute_spec example_config example_thread (example_draws 2) ActorUser None (SetName (Some "name")) CommitBuffered
      (concat layout) (concat layout') ro /\
    (fits_index (layout_events layout') ->
     others_kept example_thread db db' /\ honest db' example_thread (layout_events layout') /\
     (r = co_receipt <$> ro \/ (exists s, r = Err (Index s)) /\ ~ db_works db) /\
     (forall receipt, r = Ok receipt -> layout_events layout' <> layout_events layout ->
      shows db' example_thread (layout_events layout'))).
Proof.
  destruct created_state as (l & d & db & receipt & layout & _ & Hst & _). pose proof Hst as [Hl Hs Hw _ _ _ Hb].
  exists layout, l, d, db. split; [exact Hl|]. split; [exact (shows_honest _ _ _ Hs)|].
  apply (failing_index_writes_stay_honest example_config example_thread);
    [exact Hl|exact (state_room _ _ _ _ _ _ Hst eq_refl)|exact (shows_honest _ _ _ Hs)].
Defined.

Lemma applied_batches_are_folds_witness : exists es p (db : Db),
  project es = Some p /\ stored db p /\
  let (db', r) := apply_all agent_batch db in
  exists now rest, agent_batch = now ++ rest /\ project (es ++ now) = Some (project_all now p) /\
    stored db' (project_all now p) /\ others_kept (su_thread_id (pr_summary p)) db db' /\
    ((rest = [] /\ r = Ok true) \/ ((exists s, r = Err (Index s)) /\ ~ db_works db)).
Proof.
  destruct created_state as (l & d & db & receipt & layout & _ & Hst & _). pose proof Hst as [Hl Hs Hw _ _ _ Hb].
  pose proof (li_events _ _ _ _ _ Hl) as Hte. pose proof (te_numbered _ _ Hte) as Hn.
  assert (Hlen : len (layout_events layout) = 1) by (rewrite <- (length_map ev_body), Hb; reflexivity).
  destruct (project_thread_events example_thread (layout_events layout) Hte) as (p & Hp & Ht);
    [intros E; rewrite E in Hlen; discriminate Hlen|].
  unfold shows in Hs. rewrite Hp in Hs. destruct Hs as [_ Hstored].
  exists (layout_events layout), p, db. split; [exact Hp|]. split; [exact Hstored|].
  apply (applied_batches_are_folds (layout_events layout) agent_batch p db); [|exact Hp|exact Hstored| |].
  - refine (proj1 (plain_fits _ (agent_batch_after _ Hn Hlen) _ _)); [rewrite length_app, Nat2Z.inj_add, Hlen; reflexivity|].
    rewrite map_app, Hb. repeat constructor.
  - rewrite Ht. intros e [->|[->|[->|[]%not_elem_of_nil]%elem_of_cons]%elem_of_cons]%elem_of_cons; by split.
  - apply plain_costs_exact. repeat constructor.
Defined.

Lemma batch_loop_terminates_witness :
  (3 <= 10)%nat /\ apply_loop 10 agent_batch empty_tables = apply_all agent_batch empty_tables.
Proof. split; [lia|]. apply (batch_loop_terminates 10 agent_batch empty_tables). cbn [length agent_batch]. lia. Defined.

Lemma scan_plans_are_exact_witness : exists es (db : Db),
  shows db example_thread es /\
  let (db', r) := index_transcript_scan_plan example_thread (fun total => Some total) db in
  exists total : u64, val total = turns es /\
  match r with
  | Ok (Some plan) => exists first, Some total = Some first /\ plans es (Z.min (val first) (turns es)) plan
  | Ok None => forall first, Some total = Some first ->
                 val first <> 0 /\ val first < turns es - Z.of_nat RECENT_TURN_CHECKPOINT_CAPACITY
  | Err err => (exists s, err = Index s) /\ ~ db_works db
  end /\ same_tables db db'.
Proof.
  destruct created_state as (l & d & db & receipt & layout & _ & Hst & [Hix _] & _). pose proof Hst as [Hl Hs _ _ _ _ Hb].
  exists (layout_events layout), db. split; [exact Hs|].
  apply (scan_plans_are_exact example_thread (layout_events layout) (fun total => Some total) db Hix);
    [|exact (li_events _ _ _ _ _ Hl)|exact Hs].
  intros E. rewrite E in Hb. discriminate Hb.
Defined.

Lemma journal_windows_are_exact_witness : exists layout l d (db : Db),
  live_inv example_config example_thread layout l d /\
  let es := layout_events layout in
  fold_between REVISION_ZERO (revision_of 1) 0 (fun n _ => n + 1) (l, d, db)
    = ((l, d, db),
       if len es <? rev (revision_of 1) then Err (RevisionNotFound (revision_get (revision_of 1)))
       else if rev (revision_of 1) <? rev REVISION_ZERO then Err (RevisionNotFound (revision_get REVISION_ZERO))
       else Ok (fold_left (fun n _ => n + 1) (events_between REVISION_ZERO (revision_of 1) es) 0)) /\
  fold_all 0 (fun n _ => n + 1) (l, d, db) = ((l, d, db), Ok (fold_left (fun n _ => n + 1) es 0)).
Proof.
  destruct created_state as (l & d & db & receipt & layout & _ & [Hl _ _ _ _ _ _] & _).
  exists layout, l, d, db. split; [exact Hl|].
  apply (journal_windows_are_exact example_config example_thread REVISION_ZERO (revision_of 1) 0 (fun n _ => n + 1) layout l d db Hl).
Defined.

Lemma reconciliation_is_idempotent_witness : exists (s s' : LiveThreadStore * Disk * Db) b,
  reconcile_session_metadata (example_draws 2) example_metadata CommitBuffered s = (s', Ok b) /\
  reconcile_session_metadata (example_draws 3) example_metadata CommitDurable s' = (s', Ok false).
Proof.
  destruct created_state as (l & d & db & receipt & layout & Hrun & _).
  destruct (run_reached 4 reconciled_run reconciled_reaches) as (l' & d' & db' & b & Hrec & _).
  unfold reconciled_run in Hrec. rewrite Hrun in Hrec. cbn [then_run] in Hrec. injection Hrec as Hrec.
  exists (l, d, db), (l', d', db'), b. split; [exact Hrec|].
  exact (reconciliation_is_idempotent (example_draws 2) (example_draws 3) example_metadata CommitBuffered CommitDurable
           (l, d, db) (l', d', db') b Hrec).
Defined.

Lemma reconciled_metadata_matches_the_journal_witness : exists layout l d (db : Db),
  live_inv example_config example_thread layout l d /\ lt_session_metadata l = session_metadata_of None /\
  exists l' layout' d' (db' : Db) (r : result ThreadStoreError bool),
    reconcile_session_metadata (example_draws 2) example_metadata CommitBuffered (l, d, db) = ((l', d', db'), r) /\
    live_inv example_config example_thread layout' l' d' /\
    match r with
    | Ok _ => lt_session_metadata l' = session_metadata_of (project (layout_events layout')) /\
              lt_session_metadata l' = reconciled (lt_session_metadata l) example_metadata
    | Err _ => lt_session_metadata l' = lt_session_metadata l
    end.
Proof.
  destruct created_state as (l & d & db & receipt & layout & _ & Hst & _ & Hm & Hids). pose proof Hst as [Hl _ _ _ _ _ Hb].
  exists layout, l, d, db. split; [exact Hl|]. split; [exact Hm|].
  apply (reconciled_metadata_matches_the_journal example_config example_thread _ _ _ layout l d db Hl
           (state_room _ _ _ _ _ _ Hst eq_refl)).
  - rewrite Hm. pose proof (te_numbered _ _ (li_events _ _ _ _ _ Hl)) as Hn.
    destruct (layout_events layout) as [|e [|]]; try discriminate Hb. injection Hb as Hb.
    assert (Hp : exists p, from_created e = Some p /\ session_metadata_of None = session_metadata_of (Some p))
      by (unfold from_created; rewrite Hb; eexists; split; reflexivity).
    destruct Hp as (p & Hp & ->). rewrite (project_cons e [] p Hn Hp). reflexivity.
  - intros (f & E & Hf)%list_elem_of_fmap. rewrite (Hids f Hf) in E. revert E. by vm_compute.
Defined.

Lemma opening_repairs_the_index_witness : exists layout d,
  closed "root" example_thread 1 layout d /\ map ev_body (layout_events layout) = [created_body] /\
  exists d' db' r,
    open_thread_and_fold 1 "root" example_thread (fun _ => 0) (fun n _ => n + 1) (d, empty_tables) = ((d', db'), r) /\
    (db_works empty_tables -> is_ok r = true) /\
    match r with
    | Ok (thread, state, coverage) =>
        live_inv (journal_config_new "root") example_thread layout thread d' /\
        shows db' example_thread (layout_events layout) /\ others_kept example_thread empty_tables db' /\
        lt_session_metadata thread = session_metadata_of (project (layout_events layout)) /\
        exists indexed, indexed_ok example_thread empty_tables (layout_events layout) indexed /\
          state = fold_left (fun n _ => n + 1) (layout_events layout) 0 /\
          coverage = model_context_fold_coverage (open_model_context_checkpoint indexed)
                       (projection ← project (layout_events layout); pr_model_context_checkpoint projection)
    | Err err => (exists s, err = Index s) /\ same_tables empty_tables db' /\ d_lock_held d' = false /\ 1%nat ∉ d_writers d'
    end.
Proof.
  destruct created_closed as (layout & d & db & Hcl & Hix & Hb & _).
  exists layout, d. split; [exact Hcl|]. split; [exact Hb|].
  exact (opening_repairs_the_index "root" example_thread 1 (fun _ => 0) (fun n _ => n + 1) layout d empty_tables
           Hcl Hix (empty_recoverable _)).
Defined.

Lemma created_shown : exists layout d (db : Db) p,
  closed "root" example_thread 1 layout d /\ indexable (layout_events layout) /\ len layout <= 1 /\
  thread_events example_thread (layout_events layout) /\
  project (layout_events layout) = Some p /\ su_thread_id (pr_summary p) = example_thread /\
  stored db p /\ recoverable_index example_thread db (layout_events layout).
Proof.
  destruct created_closed as (layout & d & db & Hcl & Hix & Hb & Hlen & Hs & _). pose proof (cl_events _ _ _ _ _ Hcl) as Hte.
  destruct (project_thread_events example_thread (layout_events layout) Hte) as (p & Hp & Ht);
    [intros E; rewrite E in Hb; discriminate Hb|].
  pose proof (honest_recoverable _ _ _ (te_numbered _ _ Hte) (shows_honest _ _ _ Hs)) as Hri.
  unfold shows in Hs. rewrite Hp in Hs. destruct Hs as [_ Hst].
  exists layout, d, db, p. by do 7 (split; [done|]).
Qed.

Lemma resumed_fold_is_the_journals_witness : exists j layout d (db : Db) indexed,
  indexed_ok example_thread db (layout_events layout) (Some indexed) /\
  exists a, recover_index j (accumulate (layout_events layout) (Projected indexed)) d = (d, Ok a) /\
    match project (layout_events layout) with
    | Some p => exists q, accumulator_finish a = Some q /\ q ≡ p
    | None => accumulator_finish a = None
    end.
Proof.
  destruct created_state as (l & d & db & receipt & layout & _ & [Hl Hs _ _ _ _ Hb] & _).
  pose proof (li_events _ _ _ _ _ Hl) as Hte.
  destruct (project_thread_events example_thread (layout_events layout) Hte) as (p & Hp & Ht);
    [intros E; rewrite E in Hb; discriminate Hb|].
  assert (Hi : indexed_ok example_thread db (layout_events layout) (Some p)).
  { exists p. split; [done|]. exists (layout_events layout). unfold shows in Hs. rewrite Hp in Hs. destruct Hs as [_ Hst].
    do 4 (split; [first [exact (te_numbered _ _ Hte)|done]|]). left. exists []. by rewrite app_nil_r. }
  exists (lt_journal l), layout, d, db, p. split; [exact Hi|].
  exact (resumed_fold_is_the_journals "root" example_thread (lt_journal l) layout d db (Some p)
           (li_healthy _ _ _ _ _ Hl) (li_journal _ _ _ _ _ Hl) Hi).
Defined.

Lemma prepared_projections_fold_forward_witness : exists layout d (db : Db) p,
  project (layout_events layout) = Some p /\
  let es := layout_events layout in
  let prepared := {| pt_store_root := "root"; pt_thread_id := example_thread; pt_projection := p |} in
  if len es <? len es then
    exists recovered, rev recovered = len es /\
      fold_prepared_thread_events "root" prepared 0 (fun n _ => n + 1) (d, db)
        = ((d, db), Err (PreparedProjectionAhead (revision_get (su_revision (pr_summary p))) (revision_get recovered)))
  else
    (exists es2, es = es ++ es2) -> recoverable_index example_thread db es ->
    exists db' r, fold_prepared_thread_events "root" prepared 0 (fun n _ => n + 1) (d, db) = ((d, db'), r) /\
      match r with
      | Ok (state', folded) =>
          state' = fold_left (fun n _ => n + 1) es 0 /\
          pr_summary <$> project es = Some (pf_summary folded) /\
          pf_model_context_coverage folded = model_context_fold_coverage (pr_model_context_checkpoint p)
            (projection ← project es; pr_model_context_checkpoint projection) /\
          (len es < len es -> shows db' example_thread es)
      | Err err => (exists s, err = Index s) /\ ~ db_works db /\ same_tables db db'
      end.
Proof.
  destruct created_shown as (layout & d & db & p & Hcl & Hix & _ & Hte & Hp & Ht & _).
  exists layout, d, db, p. split; [exact Hp|].
  exact (prepared_projections_fold_forward "root" example_thread p p (layout_events layout) 0 (fun n _ => n + 1) 1 layout d db
           Hcl Hix (te_numbered _ _ Hte) Hp Ht (reflexivity p)).
Defined.

Lemma administrative_commands_commit_and_close_witness : exists layout d (db : Db),
  closed "root" example_thread 1 layout d /\ recoverable_index example_thread db (layout_events layout) /\
  exists d' db' r,
    run_command 1 "root" example_thread (example_draws 2) (SetArchived true) (d, db) = ((d', db'), r) /\
    (((exists s, r = Err (Index s)) /\ ~ db_works db /\ same_tables db db' /\
      d_lock_held d' = false /\ 1%nat ∉ d_writers d') \/
     exists layout' ro, closed "root" example_thread 1 layout' d' /\
       execute_spec (journal_config_new "root") example_thread (example_draws 2) ActorUser None (SetArchived true) CommitDurable
         (concat layout) (concat layout') ro /\
       (fits_index (layout_events layout') ->
        match ro with
        | Ok _ => (r = Ok tt /\ shows db' example_thread (layout_events layout')) \/ ((exists s, r = Err (Index s)) /\ ~ db_works db)
        | Err e => r = Err e /\ shows db' example_thread (layout_events layout')
        end)).
Proof.
  destruct created_shown as (layout & d & db & p & Hcl & Hix & Hlen & _ & _ & _ & _ & Hri).
  exists layout, d, db. split; [exact Hcl|]. split; [exact Hri|].
  apply (administrative_commands_commit_and_close "root" example_thread 1 (example_draws 2) (SetArchived true) layout d db
           Hcl Hix Hri).
  apply Z.le_lt_trans with (1 + 2); [apply Z.add_le_mono_r; exact Hlen|reflexivity].
Defined.

Lemma summaries_are_shown_or_rebuilt_witness : exists layout d,
  closed "root" example_thread 1 layout d /\ layout_events layout <> [] /\
  exists db' r, read_summary "root" example_thread true (d, empty_tables) = ((d, db'), r) /\
    match r with
    | Ok o =>
        (exists p, shows_some example_thread empty_tables (layout_events layout) p /\ o = Some (pr_summary p)) \/
        (found empty_tables example_thread = None /\ o = pr_summary <$> project (layout_events layout) /\
         (layout_events layout <> [] -> shows db' example_thread (layout_events layout)))
    | Err err => (exists s, err = Index s) /\ ~ db_works empty_tables /\ same_tables empty_tables db'
    end.
Proof.
  destruct created_closed as (layout & d & db & Hcl & Hix & Hb & _).
  exists layout, d. split; [exact Hcl|]. split; [intros E; rewrite E in Hb; discriminate Hb|].
  exact (summaries_are_shown_or_rebuilt "root" example_thread 1 layout d empty_tables Hcl Hix (empty_recoverable _)).
Defined.

(** ** Clones *)

Lemma interleaved_calls_stay_honest_witness :
  exists s, sh_events s = [created_event; named_event] /\
    honest (sh_db s) example_thread (sh_events s) /\ others_kept example_thread empty_tables (sh_db s) /\
    forall layout l d c, live_inv example_config example_thread layout l d -> layout_events layout = sh_events s ->
      append_room example_config (lt_journal l) layout -> db_works (sh_db s) ->
      exists l' layout' d' db' r, run_call c (l, d, sh_db s) = ((l', d', db'), r) /\
        (forall receipt, r = Ok receipt -> layout_events layout' <> layout_events layout ->
           fits_index (layout_events layout') -> shows db' example_thread (layout_events layout')).
Proof.
  exists {| sh_events := [] ++ [created_event; named_event]; sh_db := empty_tables;
       sh_work := [] ++ [Applying [created_event; named_event]] |}.
  split; [reflexivity|].
  apply (interleaved_calls_stay_honest example_config example_thread
           {| sh_events := []; sh_db := empty_tables; sh_work := [] |}).
  - apply no_thread_events.
  - exact (fits_index_prefix [] _ two_events_fit).
  - intros row Hrow. discriminate Hrow.
  - reflexivity.
  - apply rtc_once. apply step_commit; [discriminate|exact two_thread_events|exact two_events_fit].
Defined.

(** A creation event that reaches the index late replaces the newer projection
    with the thread's first one: all calls have succeeded, none is under way, the
    database works, and the index does not show the journal. *)
Theorem late_creation_regresses_the_index :
  exists s, rtc (shared_step example_thread) {| sh_events := []; sh_db := empty_tables; sh_work := [] |} s /\
    sh_events s = [created_event; named_event] /\ sh_work s = [] /\ db_works (sh_db s) /\
    ~ shows (sh_db s) example_thread (sh_events s).
Proof.
  destruct late_turn_run as (Emiss & Eend & Erow & Hworks).
  destruct (project_thread_events example_thread _ two_thread_events ltac:(discriminate)) as (p & Hp & Ht).
  exists {| sh_events := [created_event; named_event]; sh_db := fst late_turn; sh_work := [] |}.
  split; [|split; [done|]; split; [done|]; split; [exact Hworks|]].
  - eapply rtc_l.
    { apply (step_commit _ [] empty_tables [] [created_event]); [done| |].
      - exact (thread_events_app _ [created_event] [named_event] two_thread_events).
      - exact (fits_index_prefix [created_event] [named_event] two_events_fit). }
    eapply rtc_l; [apply (step_commit _ [created_event] empty_tables _ [named_event]); [done|exact two_thread_events|exact two_events_fit]|].
    eapply rtc_l; [apply (step_turn _ _ _ (fst named_turn) [Applying [created_event]] [named_event] [] (snd named_turn)); apply surjective_pairing|].
    rewrite Emiss. eapply rtc_l; [apply (step_fold _ _ _ [Applying [created_event]] [])|].
    cbn [app]. rewrite Hp. eapply rtc_l.
    { apply (step_replace _ _ _ named_write [Applying [created_event]] p [] (snd (index_replace p (fst named_turn)))).
      unfold named_write, named_projection. rewrite Hp. apply surjective_pairing. }
    eapply rtc_l; [apply (step_turn _ _ _ (fst late_turn) [] [created_event] [] (snd late_turn)); apply surjective_pairing|].
    rewrite Eend. apply rtc_refl.
  - cbn [sh_db sh_events]. unfold shows. rewrite Hp. intros [_ [(row & Hrow & Hro) _]].
    pose proof (rw_revision _ _ Hro) as Er. rewrite (project_revision _ _ two_events_numbered Hp) in Er.
    rewrite Ht in Hrow. unfold late_row in Erow. rewrite Hrow in Erow. cbn in Erow. injection Erow as E _. rewrite E in Er. done.
Qed.
