(* ===== verification/ForkTheorems.v ===== *)
(** What forks guarantee: the facts they copy, and what is left of a target
    when one fails; each with an instance. *)

From S2P Require Import Prelude Canonical Events Commands Receipts Format FormatFacts CommandIndex Disk Model Recovery JournalSpec.
From S2P Require Import RecoveryFacts Journal JournalFacts AppendFacts CrashFacts RangeFacts Projection ProjectionFacts ThreadIndex IndexFacts IndexReads.
From S2P Require Import OpenFacts Service LiveThread LiveFacts Store StoreFacts Fork ForkFacts Instances Examples StoreExamples.

Open Scope string_scope.
Open Scope list_scope.
Open Scope Z_scope.

(** * An example *)

Definition fork_target : ThreadId := example_id ThreadKind 77.

Definition example_fork : ForkInputs := {|
  fi_draws k := example_draws (10 + Z.of_nat k);
  fi_item _ := example_id ItemKind 1;
  fi_import_text _ _ := "imported";
  fi_thread_text _ := "thread";
  fi_accepts := None;
  fi_partial := [] |}.

(** The created thread, named and closed again. *)
Definition named_run : option (store_run ThreadCommandReceipt) :=
  then_run (execute (example_draws 2) ActorUser None (SetName (Some "name")) CommitDurable) created_run.

Definition named_bodies : list ThreadEventBody := [created_body; ThreadNameSet (Some "name")].

Lemma named_reaches : run_reaches 2 named_run = true.
Proof. vm_compute. reflexivity. Qed.

Lemma named_state : exists l d db receipt layout,
  named_run = Some ((l, d, db), Ok receipt) /\ example_state 2 named_bodies layout l d db.
Proof.
  destruct created_state as (l & d & db & receipt & layout & Hrun & Hst & _).
  pose proof named_reaches as Hreach. unfold named_run in *. rewrite Hrun in *. cbn [then_run] in *.
  destruct (example_executes 1 [created_body] layout l d db (example_draws 2) ActorUser None (SetName (Some "name"))
              CommitDurable Hst) as (l' & d' & db' & receipt' & layout' & Hrun' & _ & _ & _ & Hst');
    [done|discriminate|reflexivity|reflexivity|exact Hreach|].
  exists l', d', db', receipt', layout'. split; [by rewrite <- Hrun'|exact Hst'].
Qed.

(** A fork of it, into an empty directory. *)
Definition fork_run (through : Z) transform :=
  match named_run with
  | Some ((l, d, db), Ok _) =>
      Some (fork_thread 1 "root" example_fork example_thread true (revision_of through) fork_target transform
              (drop_journal (lt_journal l) d, empty_disk, db))
  | _ => None
  end.

Definition fork_succeeds (through : Z) transform : bool :=
  match fork_run through transform with Some (_, Ok _) => true | _ => false end.

Definition fork_fails_emptied (through : Z) transform : bool :=
  match fork_run through transform with
  | Some ((_, target_disk, db), Err _) => bool_decide (d_files target_disk = ∅) && bool_decide (db_rows db !! fork_target = None)
  | _ => false
  end.

Lemma whole_fork_succeeds : fork_succeeds 2 keep_commands = true.
Proof. vm_compute. reflexivity. Qed.

Definition refuse_commands : Transform := fun _ _ => Err (Worker "refused").

Lemma refused_fork_fails : fork_fails_emptied 2 refuse_commands = true.
Proof. vm_compute. reflexivity. Qed.

Lemma fork_target_closed : closed "root" fork_target 1 [] empty_disk.
Proof.
  split; try done; [apply NoDup_nil_2|].
  apply (crashed_tail _ _ _ _ []); [by constructor|done| |apply empty_dir]. by intros ? ? ?%not_elem_of_nil.
Qed.

Lemma example_new_draws : new_draws example_fork 0 3 [].
Proof.
  split; [intros k _; apply not_elem_of_nil|]. intros k k' Hk Hk'.
  assert (E : forallb (fun '(a, b) => negb (bool_decide (dr_command_id (fi_draws example_fork a)
                                                        = dr_command_id (fi_draws example_fork b))))
                [(0, 1); (0, 2); (1, 2)]%nat = true) by (vm_compute; reflexivity).
  rewrite forallb_forall in E. specialize (E (k, k')). cbn beta iota in E.
  apply negb_true_iff, bool_decide_eq_false in E; [done|].
  destruct k as [|[|k]], k' as [|[|[|k']]]; try lia; cbn; auto.
Qed.

(** The source of the example, and that nothing is known of the target. *)
Lemma fork_source : exists source_disk db layout,
  closed "root" example_thread 1 layout source_disk /\ map ev_body (layout_events layout) = named_bodies /\
  len layout <= 2 /\ db_works db /\ recoverable_index fork_target db [] /\
  forall through transform,
    fork_run through transform = Some (fork_thread 1 "root" example_fork example_thread true (revision_of through)
                                         fork_target transform (source_disk, empty_disk, db)).
Proof.
  destruct named_state as (l & d & db & receipt & layout & Hrun & [Hl Hs Hw Hp Hseg _ Hb]).
  exists (drop_journal (lt_journal l) d), db, layout. split; [rewrite <- Hp; apply dropped_closed; [exact Hl|lia]|].
  do 3 (split; [done|]). split.
  - assert (Hnone : match named_run with Some ((_, _, db), Ok _) => bool_decide (db_rows db !! fork_target = None) | _ => false end = true)
      by (vm_compute; reflexivity).
    rewrite Hrun in Hnone. apply bool_decide_eq_true in Hnone. intros row Hrow. unfold found in Hrow. by rewrite Hnone in Hrow.
  - intros through transform. unfold fork_run. by rewrite Hrun.
Qed.

(** The same, with failures to come on the directory of the target. *)
Definition failing_fork_run (faults : list (option nat)) transform :=
  match named_run with
  | Some ((l, d, db), Ok _) =>
      Some (fork_thread 1 "root" example_fork example_thread true (revision_of 2) fork_target transform
              (drop_journal (lt_journal l) d, with_faults faults empty_disk, db))
  | _ => None
  end.

(** The fourteenth call removes the directory: where it fails, the files of the
    discarded target stay, without a row, and the fork reports the error of the replay. *)
Example failed_removals_leave_files :
  match failing_fork_run (repeat None 13 ++ [Some 0%nat]) refuse_commands with
  | Some ((_, target_disk, db), Err (Worker message)) =>
      message = "refused" /\ d_files target_disk <> ∅ /\ db_rows db !! fork_target = None
  | _ => False
  end.
Proof.
  assert (E : match failing_fork_run (repeat None 13 ++ [Some 0%nat]) refuse_commands with
              | Some ((_, target_disk, db), Err (Worker message)) =>
                  bool_decide (message = "refused") && negb (bool_decide (d_files target_disk = ∅))
                  && bool_decide (db_rows db !! fork_target = None)
              | _ => false
              end = true) by (vm_compute; reflexivity).
  destruct (failing_fork_run _ _) as [[[[? ?] ?] [|[]]]|]; try discriminate E.
  apply andb_true_iff in E as [[E1 E2]%andb_true_iff E3]. apply bool_decide_eq_true in E1, E3.
  apply negb_true_iff, bool_decide_eq_false in E2. done.
Qed.

Section Theorems.
Context `{External, JsonCodec, SqliteLaws} (root : string) (source_id target_id : ThreadId).

(** C28. A fork that keeps every command, when it succeeds, holds exactly the
    copy of the source's facts through the revision: a creation that names the
    source, then each fact in order, those of the model's context resting on
    the revision before them, an imported event as an item, without archivings,
    moves of the head and imported histories.  The revision is one of the
    source, whose files are untouched, the target had no events, nothing waits
    to be synced and on a working database the index shows the target. *)
Theorem forks_copy_their_source process source_process inputs through source_layout source_disk layout target_disk db :
  closed root source_id source_process source_layout source_disk ->
  closed root target_id process layout target_disk -> indexable (layout_events layout) ->
  recoverable_index target_id db (layout_events layout) ->
  new_draws inputs 0 (length (layout_events source_layout) + 1) layout ->
  len layout + len (layout_events source_layout) + 2 < 2 ^ 64 ->
  exists target_disk' db' r,
    fork_thread process root inputs source_id true through target_id keep_commands (source_disk, target_disk, db)
      = ((source_disk, target_disk', db'), r) /\
    forall target, r = Ok target ->
      1 <= rev through <= len (layout_events source_layout) /\ layout_events layout = [] /\
      exists layout', live_inv (journal_config_new root) target_id layout' target target_disk' /\
        map ev_body (layout_events layout') = fork_copy source_id inputs through (layout_events source_layout) /\
        val (tj_dirty_batch_count (lt_journal target)) = 0 /\
        (db_works db -> fits_index (layout_events layout') -> shows db' target_id (layout_events layout')).
Proof.
  intros Hsrc Hcl Hix Hri Hnew Hlen.
  destruct (fork_thread_run root source_id target_id process source_process inputs through keep_commands source_layout
              source_disk layout target_disk db Hsrc Hcl Hix Hri Hnew Hlen) as (d' & db' & r & Hrun & Hr).
  exists d', db', r. split; [exact Hrun|]. intros target ->.
  destruct Hr as (Hnil & (e & [k Hk]%list_elem_of_lookup & Ee) & source & workspace & rest & layout' & facts & Erec & Hf & Hl & _ & Hd & Hb & Hin).
  pose proof (cl_events _ _ _ _ _ Hsrc) as Hte. split; [|split; [done|]].
  - pose proof (te_numbered _ _ Hte k e Hk). pose proof (lookup_lt_Some _ _ _ Hk). rewrite <- Ee. lia.
  - exists layout'. split; [done|]. split; [|split; [done|]].
    + by rewrite (fork_copy_records _ _ _ _ _ _ _ _ Hte Erec Hf).
    + intros Hw Hfit. by apply Hin.
Qed.

(** C29. Whatever the transformation does, where no file operation fails, a fork
    never touches the files of its source, and one that fails leaves no thread
    behind: the target is refused untouched when it has events already, and
    discarded with its row when the replay fails, unless the database fails.  The
    deletion that discards it, on any directory: it removes row and files; where the
    database fails it touches no file; where the removal of the directory fails the
    row is gone and a part of the files can stay.  The fork ignores both failures. *)
Theorem failed_forks_leave_no_thread process source_process inputs through transform source_layout source_disk layout target_disk db :
  closed root source_id source_process source_layout source_disk ->
  closed root target_id process layout target_disk -> indexable (layout_events layout) ->
  recoverable_index target_id db (layout_events layout) ->
  new_draws inputs 0 (length (layout_events source_layout) + 1) layout ->
  len layout + len (layout_events source_layout) + 2 < 2 ^ 64 ->
  exists target_disk' db' r,
    fork_thread process root inputs source_id true through target_id transform (source_disk, target_disk, db)
      = ((source_disk, target_disk', db'), r) /\
    (layout_events layout <> [] -> is_ok r = false) /\
    (is_ok r = false ->
       (target_disk', db') = (target_disk, db) \/
       (layout_events layout <> [] /\ closed root target_id process layout target_disk') \/
       (layout_events layout = [] /\ d_files target_disk' = ∅ /\ db_rows db' !! target_id = None) \/
       ~ db_works db \/ exists db0 s, ~ db_works db0 /\ index_remove target_id db0 = (db', Err (Index s))) /\
    (forall any_disk any_db,
       let '((left_disk, left_db), deleted) := delete_thread target_id true (any_disk, any_db) in
       match deleted with
       | Ok _ => d_files left_disk = ∅ /\ db_rows left_db !! target_id = None
       | Err (Index _) => left_disk = any_disk /\ ~ db_works any_db
       | Err _ => db_rows left_db !! target_id = None /\ d_files left_disk ⊆ d_files any_disk /\
                  exists k, head (d_faults any_disk) = Some (Some k)
       end).
Proof.
  intros Hsrc Hcl Hix Hri Hnew Hlen.
  destruct (fork_thread_run root source_id target_id process source_process inputs through transform source_layout
              source_disk layout target_disk db Hsrc Hcl Hix Hri Hnew Hlen) as (d' & db' & r & Hrun & Hr).
  exists d', db', r. split; [exact Hrun|]. rewrite (and_assoc (_ -> _) (_ -> _)). split; [|apply delete_thread_any].
  destruct r as [target|err]; cbn [is_ok].
  { destruct Hr as [Hnil _]. by split. }
  split; [done|]. intros _. destruct Hr as [e Hr]. inversion Hr as [|d1 db1 s Hnw|d1 db1 Hne Hcl'|d1 db1 e1 Hnil Hdisc]; subst.
  - by left.
  - do 3 right. by left.
  - right. by left.
  - do 2 right. destruct Hdisc as [[Hfiles Hrow]|(db0 & s & Hrm & Hnw)]; [by left|].
    right. right. by exists db0, s.
Qed.

End Theorems.

(** * Instances *)

Lemma forks_copy_their_source_witness :
  exists source_disk db target_disk target db' layout',
    fork_thread 1 "root" example_fork example_thread true (revision_of 2) fork_target keep_commands (source_disk, empty_disk, db)
      = ((source_disk, target_disk, db'), Ok target) /\
    live_inv example_config fork_target layout' target target_disk /\
    map ev_body (layout_events layout')
      = [ThreadCreated "cli" "/work" (Some {| ref_thread_id := example_thread; ref_revision := revision_of 2 |});
         ThreadNameSet (Some "name")].
Proof.
  destruct fork_source as (source_disk & db & layout & Hcl & Hb & Hlen & _ & Hri & Hrun).
  assert (El : length (layout_events layout) = 2%nat) by (by rewrite <- (length_map ev_body), Hb).
  destruct (forks_copy_their_source "root" example_thread fork_target 1 1 example_fork (revision_of 2) layout source_disk
              [] empty_disk db Hcl fork_target_closed empty_indexable Hri) as (d' & db' & r & Hfork & Hr);
    [rewrite El; exact example_new_draws|rewrite El; done|].
  pose proof whole_fork_succeeds as Hok. unfold fork_succeeds in Hok. rewrite Hrun, Hfork in Hok.
  destruct r as [target|err]; [|discriminate Hok].
  destruct (Hr target eq_refl) as (_ & _ & layout' & Hl & Ebodies & _).
  exists source_disk, db, d', target, db', layout'. split; [exact Hfork|]. split; [exact Hl|]. rewrite Ebodies.
  destruct (layout_events layout) as [|e0 [|e1 [|]]]; try discriminate El. injection Hb as E0 E1.
  unfold fork_copy. change (Z.to_nat (rev (revision_of 2))) with 2%nat. cbn [take]. rewrite E0. unfold kept_facts.
  cbn [omap list_omap]. by rewrite E1.
Defined.

Lemma failed_forks_leave_no_thread_witness :
  exists source_disk db target_disk db' err,
    fork_thread 1 "root" example_fork example_thread true (revision_of 2) fork_target refuse_commands (source_disk, empty_disk, db)
      = ((source_disk, target_disk, db'), Err err) /\ d_files target_disk = ∅.
Proof.
  destruct fork_source as (source_disk & db & layout & Hcl & Hb & Hlen & _ & Hri & Hrun).
  assert (El : length (layout_events layout) = 2%nat) by (by rewrite <- (length_map ev_body), Hb).
  destruct (failed_forks_leave_no_thread "root" example_thread fork_target 1 1 example_fork (revision_of 2) refuse_commands
              layout source_disk [] empty_disk db Hcl fork_target_closed empty_indexable Hri) as (d' & db' & r & Hfork & Hr);
    [rewrite El; exact example_new_draws|rewrite El; done|].
  pose proof refused_fork_fails as Hok. unfold fork_fails_emptied in Hok. rewrite Hrun, Hfork in Hok.
  destruct r as [target|err]; [discriminate Hok|]. apply andb_true_iff in Hok as [Hok _]. apply bool_decide_eq_true in Hok.
  by exists source_disk, db, d', db', err.
Defined.
