(* ===== verification/ListingTheorems.v ===== *)
(** What a listing guarantees: following the cursors visits every matching thread
    once, in order; with a database on which it is instantiated. *)

From stdpp Require Import sorting.
From S2P Require Import Prelude BTree Canonical Events Receipts CommandIndex Disk Model Projection ThreadIndex IndexFacts Listing ListingFacts.
From S2P Require Import Instances.

Open Scope string_scope.
Open Scope list_scope.
Open Scope Z_scope.

(** * An instance *)

#[export] Instance bytes_id_text : IdText := {|
  id_text t := id_bytes t;
  parse_id l := from_uuid <$> array_of 16 l
|}.

#[export] Instance bytes_id_text_laws : IdTextLaws.
Proof.
  intros [a]. change (from_uuid (k := ThreadKind) <$> array_of 16 (array_bytes a) = Some (from_uuid a)).
  by rewrite (proj2 (array_of_Some 16 _ a) eq_refl).
Qed.

(** [LIKE] with its two wildcards, on the bytes of a text. *)
Fixpoint like_bytes (pattern text : bytes) : bool :=
  match pattern with
  | [] => is_empty text
  | p :: pattern =>
      if Z_of_byte p =? 37 then
        (fix any (text : bytes) : bool :=
           like_bytes pattern text || match text with [] => false | _ :: text => any text end) text
      else
        match text with
        | [] => false
        | b :: text => ((Z_of_byte p =? 95) || (Z_of_byte p =? Z_of_byte b)) && like_bytes pattern text
        end
  end.

#[export] Instance tables_list_sql : ListSql (H := tables_sqlite) := {|
  sql_like text pattern := like_bytes (str_bytes pattern) (str_bytes text);
  sql_select_page sort matches limit := answer (fun d =>
    (d, Ok (take (Z.to_nat limit) (ordered_rows sort matches (tb_rows d)))))
|}.

#[export] Instance tables_list_laws : ListSqlLaws.
Proof.
  intros sort matches limit d d' r E.
  apply (answer_statement _ _ _ _ (fun (d : Tables) found (d' : Tables) => same_tables (H := tables_sqlite) d d' /\
    found = take (Z.to_nat limit) (ordered_rows sort matches (tb_rows d))) E).
  - intros d0 d1 r0 _ _ [= <- <-]. split; [done|]. by eexists.
  - intros d0 n Er Ec [[E1 E2] Hn]. cbn in *. rewrite Er in E1, Hn. split; [|done]. split; [done|].
    intros t. cbn. rewrite E2. by apply checkpoints_of_same.
Qed.

(** Three threads, two of them named, updated at 10, 30 and 20. *)
Definition listed_row (name : option string) (updated_at : Z) : ProjectionRow := {|
  ro_revision := i64_of 1; ro_source := "cli"; ro_workspace := "/work"; ro_name := name; ro_summary := None;
  ro_archived := false; ro_created_at := i64_of 5; ro_updated_at := i64_of updated_at; ro_preview := None;
  ro_first_user_message := None; ro_total_cost_micros := None; ro_last_cost_micros := None; ro_model := None;
  ro_model_provider := None; ro_reasoning_effort := None; ro_last_agent_sequence := i64_of 0;
  ro_model_context_checkpoint_revision := None; ro_dynamic_tools_digest := None;
  ro_agent_event_metadata_generation := i64_of 0; ro_transcript_total_turns := i64_of 0;
  ro_projection_generation := CURRENT_PROJECTION_GENERATION |}.

Definition listed_thread (n : Z) : ThreadId := example_id ThreadKind n.

Definition listed_tables : Tables := {|
  tb_rows := {[ listed_thread 1 := listed_row (Some "first") 10; listed_thread 2 := listed_row None 30;
                listed_thread 3 := listed_row (Some "third") 20 ]};
  tb_checkpoints := ∅; tb_failures := [] |}.

Definition named_query : ThreadListQuery := {|
  lq_archived := Some false; lq_workspace := None; lq_sources := Some ["cli"; "tui"]; lq_model_providers := None;
  lq_search := Some "ir"; lq_cursor := None; lq_limit := Some 1; lq_sort := SortUpdatedAt |}.

Section Theorems.
Context `{SqliteLaws, !ListSql, !IdText, !IdTextLaws, !ListSqlLaws}.

(** C30. On a database that works and does not change, a client that follows the
    cursors gets the listing of the query, whatever the limit of its pages: each
    thread whose row matches the conditions exactly once, the latest first and
    threads of the same time by their identifiers; no page is longer than the
    limit, and as many pages as there are rows are enough. *)
Theorem pages_list_each_thread_once q db fuel :
  lq_cursor q = None -> readable (db_rows db) -> db_works db -> (length (query_rows q db) < fuel)%nat ->
  exists db' pages, list_pages fuel q db = (db', Ok pages) /\ same_tables db db' /\
    concat (map pg_items pages) = summaries (query_rows q db) /\
    Forall (fun page => len (pg_items page) <= page_limit q <= 200) pages /\
    length (summaries (query_rows q db)) = length (query_rows q db) /\
    NoDup (query_rows q db).*1 /\ StronglySorted (listed_before (lq_sort q)) (query_rows q db) /\
    (forall t row, (t, row) ∈ query_rows q db <-> db_rows db !! t = Some row /\ query_matches q row = true).
Proof.
  intros Hc Hr Hw Hfuel.
  assert (Hall : rows_left q db = query_rows q db).
  { unfold rows_left. rewrite Hc. cbn [cursor_decode mbind option_bind after_cursor]. apply List.filter_true. }
  destruct (list_pages_run fuel q db [] Hr Hw) as (db' & pages & Hrun & Hsame & _ & Hcat & Hlen);
    [by rewrite Hall|by rewrite Hall|].
  exists db', pages. rewrite Hall in Hcat. do 3 (split; [done|]). pose proof (page_limit_bounds q) as Hlim.
  split; [eapply list.Forall_impl; [exact Hlen|]; cbn; intros page Hp; lia|].
  split; [by destruct (summaries_length q db [] (query_rows q db) Hr eq_refl)|].
  split; [apply ordered_rows_listed|]. split; [apply ordered_rows_listed|]. intros t row. apply ordered_rows_elem.
Qed.

(** A cursor is read back exactly in the order it was made for and ignored
    in the other, whatever its time, the least and the greatest included, and
    whatever the text of identifiers. *)
Theorem cursors_round_trip summary sort sort' sort_value t q :
  cursor_decode (Some (cursor_encode summary sort)) sort'
    = (if bool_decide (sort = sort') then
         Some {| lc_sort_value := match sort with SortCreatedAt => su_created_at_unix_ms summary
                                  | SortUpdatedAt => su_updated_at_unix_ms summary end;
                 lc_thread_id := su_thread_id summary |}
       else None) /\
  cursor_decode (lq_cursor (set_cursor_after sort_value t q)) (lq_sort q)
    = Some {| lc_sort_value := sort_value; lc_thread_id := t |} /\
  parse_i64 (display_i64 sort_value) = Some sort_value.
Proof.
  split; [apply cursor_decode_text|]. split; [|apply parse_display_i64].
  unfold set_cursor_after. cbn [lq_cursor with_cursor]. by rewrite cursor_decode_text, bool_decide_eq_true_2.
Qed.

End Theorems.

(** * Instances *)

Lemma listed_readable : readable (tb_rows listed_tables).
Proof.
  intros t row Hrow. apply elem_of_map_to_list, list_elem_of_In in Hrow.
  assert (Hall : forallb (fun e => 0 <=? val (ro_revision (snd e))) (map_to_list (tb_rows listed_tables)) = true)
    by (vm_compute; reflexivity).
  rewrite forallb_forall in Hall. apply (Hall _), Z.leb_le in Hrow. exact Hrow.
Qed.

Lemma pages_list_each_thread_once_witness :
  exists db' pages, list_pages 4 named_query (listed_tables : Db) = (db', Ok pages) /\
    map su_thread_id (concat (map pg_items pages)) = [listed_thread 3; listed_thread 1].
Proof.
  destruct (@pages_list_each_thread_once tables_sqlite _ _ _ _ named_query listed_tables 4 eq_refl listed_readable eq_refl)
    as (db' & pages & Hrun & _ & Hcat & _); [vm_compute; lia|].
  exists db', pages. split; [exact Hrun|]. rewrite Hcat. vm_compute. reflexivity.
Defined.

Lemma cursors_round_trip_witness :
  cursor_decode (lq_cursor (set_cursor_after (i64_of (- 2 ^ 63)) (listed_thread 7) named_query)) SortUpdatedAt
    = Some {| lc_sort_value := i64_of (- 2 ^ 63); lc_thread_id := listed_thread 7 |}.
Proof.
  apply (cursors_round_trip
           {| su_thread_id := listed_thread 7; su_revision := REVISION_ZERO; su_source := ""; su_workspace := "";
              su_name := None; su_summary := None; su_archived := false; su_created_at_unix_ms := i64_of 0;
              su_updated_at_unix_ms := i64_of 0; su_preview := None; su_first_user_message := None;
              su_total_cost_micros := None; su_last_cost_micros := None; su_model := None; su_model_provider := None;
              su_reasoning_effort := None |} SortUpdatedAt SortCreatedAt (i64_of (- 2 ^ 63)) (listed_thread 7) named_query).
Defined.
