(* ===== verification/CapabilityTheorems.v ===== *)
(** The properties of the capability runtime: its graph, its generations under
    racing calls, its commits and its scopes. *)

From S2P Require Import Prelude BTree Disk Text Listing Capabilities ScopeFacts ResolveFacts Generations GenerationFacts CapabilityRuntime RuntimeFacts CommitFacts RuntimeCalls CapabilityExamples.

Open Scope Z_scope.

(** * Identifiers *)

(** An identifier is accepted exactly when it is not empty, neither starts nor
    ends with a Unicode white space and holds no control character; the error
    names the first of these that fails. *)
Theorem identifiers_are_trimmed_text (label value : string) :
  (string_id_new label value = Ok value <-> valid_id value)
  /\ (string_id_new label value = Err (IdEmpty label) <-> value = EmptyString)
  /\ (string_id_new label value = Err (IdUntrimmed label value) <->
       value <> EmptyString /\ trim (chars (str_bytes value)) <> chars (str_bytes value)).
Proof.
  split; [rewrite string_id_new_Ok; tauto|]. unfold string_id_new. repeat case_bool_decide; try naive_solver.
  destruct (existsb _ _); naive_solver.
Qed.

(** * The graph *)

(** C16. Resolution succeeds exactly when the request scope exists, everything needed
    is visible from it, every dependency is visible from the scope that declares
    it, nothing needed conflicts, and no dependencies form a cycle; what it
    returns is everything needed, once each, dependencies first, whatever order
    the roots were given in. *)
Theorem resolution_is_dependency_first (g : CapabilityGraph) (s : ScopeId) (roots : list CapabilityId) :
  (is_ok (resolve g s roots) = true <-> resolvable g s roots)
  /\ (forall rg, resolve g s roots = Ok rg -> rg_request_scope rg = s /\ dependency_first g s roots (rg_ordered rg))
  /\ (forall roots', Permutation roots roots' -> resolve g s roots' = resolve g s roots).
Proof.
  split; [apply resolve_Ok_iff|]. split.
  - intros rg E. pose proof (resolve_spec g s roots) as Hr. rewrite E in Hr. by destruct Hr as (? & ? & _).
  - intros roots' Hp. symmetry. by apply resolve_permutation.
Qed.

(** Every error of resolution names something wrong with the graph: a missing or
    invisible capability that is needed, a dependency not visible where it is
    declared, two needed capabilities in conflict, or a real cycle of
    dependencies; and then nothing could have been resolved. *)
Theorem resolution_errors_are_explained (g : CapabilityGraph) (s : ScopeId) (roots : list CapabilityId)
    (e : CapabilityGraphError) :
  resolve g s roots = Err e -> resolve_error g s roots e /\ ~ resolvable g s roots.
Proof.
  intros E. pose proof (resolve_spec g s roots) as Hr. rewrite E in Hr. split; [exact Hr|].
  by eapply resolve_error_not_resolvable.
Qed.

(** The loops of the graph end on every graph, also one whose dependencies or
    scopes go round in circles: the walk up the scopes, the stack of [resolve]
    and its depth-first search. *)
Theorem resolution_terminates (g : CapabilityGraph) (s : ScopeId) (roots : list CapabilityId) :
  resolve_bounded g s roots = Some (resolve g s roots)
  /\ forall a b, can_see_loop (S (S (bt_size (cg_scopes g)))) (cg_scopes g) b (Some a) bt_empty
                 = Some (can_see (cg_scopes g) a b)
                 /\ (can_see (cg_scopes g) a b = true <-> rtc (parent_of (cg_scopes g)) a b).
Proof.
  split.
  - pose proof (resolve_bounded_spec g s roots) as Hr. unfold resolve. by destruct (resolve_bounded g s roots).
  - intros a b. split; [|apply can_see_spec]. unfold can_see.
    destruct (can_see_loop_total (S (S (bt_size (cg_scopes g)))) (cg_scopes g) b (Some a) bt_empty) as [r ->];
      [done|cbn; lia|done].
Qed.

(** [insert] and [remove_in_scope] keep at most one manifest of a capability
    visible from any scope, and [validate] accepts exactly the graphs in which
    every dependency is visible, no conflicts can meet and every capability
    resolves where it stands. *)
Theorem validation_accepts_valid_graphs (g : CapabilityGraph) :
  graph_ok g ->
  (validate g = Ok tt <-> valid_graph g)
  /\ (forall m g', graph_insert m g = Ok g' -> graph_ok g')
  /\ (forall id scope, graph_ok (remove_in_scope id scope g))
  /\ (forall s id m, visible g s id = Some m <-> sees g s id m)
  /\ (forall s id m m', sees g s id m -> sees g s id m' -> m = m').
Proof.
  intros Hg. split; [apply validate_Ok|]. split; [by intros m g'; apply graph_insert_ok|].
  split; [by intros; apply remove_in_scope_ok|]. split; [by intros; apply visible_spec|].
  intros s id m m'. by apply sees_unique.
Qed.

(** * Generations *)

(** The state word keeps a lifecycle and a count of up to [2 ^ 61 - 1] leases
    apart; a larger count is refused, and so is one more lease of a full one. *)
Theorem state_words_round_trip :
  (forall lc n w, pack_generation_state lc n = Ok w <-> unpack_generation_state w = (lc, n))
  /\ (forall lc n, (exists w, pack_generation_state lc n = Ok w) <-> val n < 2 ^ 61)
  /\ (forall w m, acquire_next w = Err m -> val (leases_of w) = 2 ^ 61 - 1)
  /\ (forall w w', acquire_next w = Ok (Some w') ->
        lifecycle_of w = Active /\ lifecycle_of w' = Active /\ val (leases_of w') = val (leases_of w) + 1).
Proof.
  split; [|split; [|split]].
  - intros lc n w. rewrite pack_Ok, unpack_of. split; [by intros [-> ->]|by intros [= -> ->]].
  - intros lc n. split; [|apply pack_fits]. intros [w [_ <-]%pack_Ok]. apply leases_of_bound.
  - apply acquire_next_Err.
  - intros w w'. by rewrite acquire_next_Some.
Qed.

(** C13. Whatever calls race on a published generation, step by step: its disposers
    are called in reverse order and each at most once; once one was called no
    lease is left and none can be had; and while a lease is held or on its way
    the values are the ones published and nothing was disposed of. *)
Theorem racing_calls_dispose_once channel_open id owner scope activated payloads disposers r sh :
  generation_new id owner scope activated payloads disposers = Ok r ->
  (activated = [] -> payloads = bt_empty /\ disposers = []) ->
  rtc (shared_step channel_open) {| sh_record := r; sh_held := 0; sh_threads := []; sh_called := [] |} sh ->
  (exists rest, sh_called sh ++ rest = rev disposers)
  /\ (sh_called sh <> [] -> sh_held sh = 0%nat /\ ~ is_live (gr_state (sh_record sh)))
  /\ ((0 < sh_held sh)%nat -> is_live (gr_state (sh_record sh)) /\ gr_payloads (sh_record sh) = payloads
        /\ sh_called sh = [])
  /\ val (leases_of (gr_state (sh_record sh)))
     = Z.of_nat (sh_held sh + sum_list_with counted (sh_threads sh)).
Proof.
  intros Hr Hnil Hsteps.
  pose proof (shared_steps_ok _ _ _ _ _ (generation_new_ok channel_open _ _ _ _ _ _ _ Hr Hnil) Hsteps) as Hok.
  destruct (shared_ok_called _ _ _ _ Hok) as [Hrest Hcalled]. split; [done|]. split; [by intros (? & _ & ?)%Hcalled|].
  split; [|apply Hok]. intros Hpos. destruct (shared_ok_leased _ _ _ _ Hok) as (? & ? & _ & ?); [lia|done].
Qed.

(** From any state that racing calls reach in which a generation was taken out of
    service and no lease is held or being cloned, the calls under way can finish
    on their own, and when all calls have returned it is disposed of: every
    disposer was called, in reverse order, and the failures are recorded. *)
Theorem retired_generations_are_disposed id owner scope activated payloads disposers r0 r threads called :
  generation_new id owner scope activated payloads disposers = Ok r0 ->
  (activated = [] -> payloads = bt_empty /\ disposers = []) ->
  rtc (shared_step true) {| sh_record := r0; sh_held := 0; sh_threads := []; sh_called := [] |}
    {| sh_record := r; sh_held := 0; sh_threads := threads; sh_called := called |} ->
  lifecycle_of (gr_state r) <> Active -> existsb retaining threads = false ->
  (exists r' called',
     rtc (shared_step true) {| sh_record := r; sh_held := 0; sh_threads := threads; sh_called := called |}
       {| sh_record := r'; sh_held := 0; sh_threads := []; sh_called := called' |})
  /\ (forall r' called',
     rtc (shared_step true) {| sh_record := r; sh_held := 0; sh_threads := threads; sh_called := called |}
       {| sh_record := r'; sh_held := 0; sh_threads := []; sh_called := called' |} ->
     lifecycle_of (gr_state r') <> Active ->
     lifecycle_of (gr_state r') = Disposed /\ called' = rev disposers
     /\ gr_disposal_failures r' = omap disposal_failure (rev disposers)).
Proof.
  intros Hr Hnil Hsteps Hna Hret.
  pose proof (shared_steps_ok _ _ _ _ _ (generation_new_ok true _ _ _ _ _ _ _ Hr Hnil) Hsteps) as Hok. split.
  - destruct (settles true _ _ _ _ _ Hok eq_refl Hna Hret) as (r' & called' & Hrun & _). eauto.
  - intros r' called' Hrun Hna'. pose proof (shared_steps_ok _ _ _ _ _ Hok Hrun) as Hok'.
    exact (shared_ok_settled true _ _ _ Hok' eq_refl eq_refl eq_refl Hna').
Qed.

(** A call of [try_acquire], [retain_lease], [release_lease] or [begin_quiescing]
    that runs alone, and the disposal that follows, are runs of their steps. *)
Theorem calls_alone_run_their_steps channel_open r held threads called :
  (forall b r', try_acquire r = Ok (b, r') ->
     rtc (shared_step channel_open) {| sh_record := r; sh_held := held; sh_threads := threads; sh_called := called |}
       {| sh_record := r'; sh_held := if b then S held else held; sh_threads := threads; sh_called := called |})
  /\ (forall b r', retain_lease r = Ok (b, r') ->
     rtc (shared_step channel_open) {| sh_record := r; sh_held := S held; sh_threads := threads; sh_called := called |}
       {| sh_record := r'; sh_held := if b then S (S held) else S held; sh_threads := threads; sh_called := called |})
  /\ (forall job r', release_lease r = Ok (job, r') ->
     rtc (shared_step channel_open) {| sh_record := r; sh_held := S held; sh_threads := threads; sh_called := called |}
       {| sh_record := r'; sh_held := held; sh_threads := sent job ++ threads; sh_called := called |})
  /\ (forall runner taken r', begin_quiescing r = Ok (taken, r') ->
     rtc (shared_step channel_open) {| sh_record := r; sh_held := held; sh_threads := threads; sh_called := called |}
       {| sh_record := r'; sh_held := held; sh_threads := after_take runner taken ++ threads; sh_called := called |})
  /\ (forall ds r', complete_disposal (snd (dispose_all ds)) r = Ok r' ->
     rtc (shared_step channel_open)
       {| sh_record := r; sh_held := held; sh_threads := Sent ds :: threads; sh_called := called |}
       {| sh_record := r'; sh_held := held; sh_threads := threads; sh_called := called ++ fst (dispose_all ds) |}).
Proof.
  split; [|split; [|split; [|split]]].
  - intros b r'. apply try_acquire_runs.
  - intros b r'. apply retain_lease_runs.
  - intros job r'. apply release_lease_runs.
  - intros runner taken r'. apply begin_quiescing_runs.
  - intros ds r'. apply reaper_runs.
Qed.

(** * The runtime *)

(** C15. Whatever sequence of calls runs, with commits open between their critical
    sections: every key names its manifest in a registered scope; every manifest
    is served by an active generation of its owner and scope; what one owner
    publishes in one scope is one generation; the routes that readers follow are
    those of the graph; and a snapshot lists every manifest as active. *)
Theorem capability_runtime_stays_well_formed scopes sy :
  scopes_built scopes -> rtc call (system_new scopes) sy ->
  let st := rt_state (sy_runtime sy) in
  (forall k m, bt_get k (cg_manifests (st_graph st)) = Some m ->
     k = manifest_key m /\ bt_contains (mf_scope m) (cg_scopes (st_graph st)) = true
     /\ exists g p r, served st (rt_heap (sy_runtime sy)) k m g p r /\ gr_id r = g)
  /\ (forall k g, bt_get k (st_active_generations st) = Some g -> is_Some (bt_get k (cg_manifests (st_graph st))))
  /\ (forall k m g k' m' g', bt_get k (cg_manifests (st_graph st)) = Some m ->
       bt_get k' (cg_manifests (st_graph st)) = Some m' -> bt_get k (st_active_generations st) = Some g ->
       bt_get k' (st_active_generations st) = Some g' -> mf_owner m = mf_owner m' -> mf_scope m = mf_scope m' -> g = g')
  /\ (forall s id m m', sees (st_graph st) s id m -> sees (st_graph st) s id m' -> m = m')
  /\ rt_routes (sy_runtime sy) = routes_from_state st
  /\ Forall2 (fun m c => cs_id c = mf_id m /\ cs_kind c = mf_kind m /\ cs_owner c = mf_owner m /\ cs_scope c = mf_scope m
               /\ bt_get (manifest_key m) (st_active_generations st) = Some (cs_generation c) /\ cs_lifecycle c = Active)
       (manifests (st_graph st)) (sn_capabilities (snapshot (sy_runtime sy))).
Proof.
  intros Hs%scopes_built_ok Hcalls. cbn zeta. destruct (calls_keep_ok _ _ (system_new_ok _ Hs) Hcalls) as [Hrt _].
  pose proof (snapshot_spec _ _ _ Hrt) as Hsnap. destruct Hrt as [_ Hst Hr].
  pose proof (sk_graph _ _ Hst) as Hg. split; [|split; [|split; [|split; [|by split]]]].
  - intros k m Hk. split; [by apply (gok_key _ Hg)|]. split; [by eapply (gok_scope _ Hg)|].
    destruct (sk_served _ _ Hst _ _ Hk) as (g & p & r & Hsv). exists g, p, r. split; [done|].
    destruct Hsv as (_ & Hgp & Hp & _). destruct (sk_generation _ _ Hst _ _ Hgp) as [(r' & Hp' & <-) _]. congruence.
  - apply (sk_active _ _ Hst).
  - apply (sk_shared _ _ Hst).
  - intros s id m m'. by apply sees_unique.
Qed.

(** C14. [acquire] finds what the graph shows, at once: nothing when no manifest is
    visible from the scope, else a lease on the active generation that serves the
    visible manifest, unless its lease count is full. *)
Theorem acquire_follows_the_graph scopes sy s c turns :
  scopes_built scopes -> rtc call (system_new scopes) sy ->
  let rt := sy_runtime sy in
  match visible (st_graph (rt_state rt)) s c with
  | None => acquire (S turns) s c rt = Ok (Some None, rt)
  | Some m => exists g p r, served (rt_state rt) (rt_heap rt) (manifest_key m) m g p r
      /\ (val (leases_of (gr_state r)) < 2 ^ 61 - 1 ->
           exists rt', acquire (S turns) s c rt = Ok (Some (Some {| ls_capability := c; ls_generation := p |}), rt')
             /\ call sy (system rt' (p :: sy_leases sy) (sy_published sy) (sy_commits sy)))
  end.
Proof.
  intros Hs%scopes_built_ok Hcalls. cbn zeta. destruct (calls_keep_ok _ _ (system_new_ok _ Hs) Hcalls) as [Hrt _].
  pose proof (acquire_turn_served s c _ _ _ Hrt) as Ht. destruct (visible _ s c) as [m|].
  - destruct Ht as (g & p & r & Hsv & Ht). exists g, p, r. split; [done|]. intros Hn. destruct (Ht Hn) as [w Hw].
    eexists. cbn [acquire]. rewrite Hw. split; [done|]. destruct sy as [rt leases published commits]. cbn in *.
    exact (turns_acquire s c (Leased p) rt _ leases published commits Hw).
  - cbn [acquire]. by rewrite Ht.
Qed.

(** [acquire_typed] hands out the very value that was activated for the visible
    capability when it has the type asked for, and a type mismatch otherwise;
    it never finds the value missing. *)
Theorem typed_values_are_the_activated_ones scopes sy s c m requested_type turns :
  scopes_built scopes -> rtc call (system_new scopes) sy ->
  let rt := sy_runtime sy in
  visible (st_graph (rt_state rt)) s c = Some m ->
  exists g p r o value, served (rt_state rt) (rt_heap rt) (manifest_key m) m g p r
    /\ sy_published sy !! p = Some o /\ bt_get c (fst o) = Some value
    /\ (val (leases_of (gr_state r)) < 2 ^ 61 - 1 ->
         exists rt', acquire_typed (S turns) requested_type s c rt
           = Ok (Some (if decide (pl_type value = requested_type)
                       then Ok (Some {| tc_value := value; tc_lease := {| ls_capability := c; ls_generation := p |} |})
                       else Err (TypeMismatch c g requested_type)), rt')).
Proof.
  intros Hs%scopes_built_ok Hcalls. cbn zeta. intros Hv. destruct (calls_keep_ok _ _ (system_new_ok _ Hs) Hcalls) as [Hrt _].
  pose proof (acquire_turn_served s c _ _ _ Hrt) as Ht. rewrite Hv in Ht. destruct Ht as (g & p & r & Hsv & Ht).
  pose proof (visible_sees _ _ _ _ Hv) as (_ & Hid & _). pose proof Hsv as (_ & Hgp & Hp & Ha & _ & _ & Hc).
  destruct (heap_ok_origin _ _ _ _ _ _ _ (ro_heap _ _ _ Hrt) Hp) as [o Ho].
  destruct (active_payload _ _ _ p r o c Hrt Hp Ha Ho) as [Hpay Hsome]. rewrite Hid in Hc. destruct (Hsome Hc) as [value Hval].
  exists g, p, r, o, value. split; [done|]. split; [done|]. split; [done|]. intros Hn. destruct (Ht Hn) as [w Hw].
  cbn [acquire_typed]. rewrite Hw. cbn [mbind result_bind].
  assert (p < length (rt_heap (sy_runtime sy)))%nat as Hlt by (by eapply lookup_lt_Some).
  cbn [with_heap rt_heap]. rewrite list_lookup_insert_eq by done. cbn [ok_or mbind result_bind].
  unfold payload. cbn [set_state gr_payloads]. rewrite Hpay, Hval. unfold downcast.
  destruct (sk_generation _ _ (ro_state _ _ _ Hrt) _ _ Hgp) as [(r' & Hr' & Hrid) _].
  assert (gr_id r = g) as Hg by congruence. case_decide; [by eexists|].
  destruct (drop_lease_returns p (with_heap (<[p := set_state w r]> (rt_heap (sy_runtime sy))) (sy_runtime sy))) as [rt' Hd].
  { cbn. by rewrite length_insert. }
  rewrite Hd. cbn [mbind result_bind set_state gr_id]. rewrite Hg. by eexists.
Qed.

(** C12. In any sequence of calls, the disposers of a generation are called in reverse
    order of activation and each at most once, and only when no client holds a
    lease on it; while one is held, its values are the ones published, and the
    lease can be cloned unless the count is full, and dropped, which calls no
    disposer itself. *)
Theorem disposers_wait_for_leases scopes sy p o :
  scopes_built scopes -> rtc call (system_new scopes) sy -> sy_published sy !! p = Some o ->
  (exists rest, called_on p (rt_effects (sy_runtime sy)) ++ rest = rev (snd o))
  /\ (called_on p (rt_effects (sy_runtime sy)) <> [] -> p ∉ sy_leases sy)
  /\ (p ∈ sy_leases sy -> exists r, rt_heap (sy_runtime sy) !! p = Some r /\ gr_payloads r = fst o
        /\ gr_disposers r = snd o
        /\ (val (leases_of (gr_state r)) < 2 ^ 61 - 1 -> exists rt', clone_lease p (sy_runtime sy) = Ok rt')
        /\ exists rt', drop_lease p (sy_runtime sy) = Ok rt' /\ rt_effects rt' = rt_effects (sy_runtime sy)).
Proof.
  intros Hs%scopes_built_ok Hcalls Ho. destruct (calls_keep_ok _ _ (system_new_ok _ Hs) Hcalls) as [[Hh _ _] _].
  destruct (lookup_lt_is_Some_2 (rt_heap (sy_runtime sy)) p) as [r Hr].
  { rewrite <- (hk_length _ _ _ _ _ Hh). by eapply lookup_lt_Some. }
  destruct (hk_record _ _ _ _ _ Hh p r o Hr Ho) as [Hsh _]. destruct (shared_ok_called _ _ _ _ Hsh) as [Hrest Hcalled].
  split; [exact Hrest|]. split.
  - intros (Hz & _)%Hcalled Hin%leases_on_elem. cbn in Hz. lia.
  - intros Hin. pose proof Hin as Hpos%leases_on_elem. exists r. split; [done|].
    destruct (shared_ok_leased _ _ _ _ Hsh) as (_ & Hpay & Hdis & _); [cbn; lia|]. split; [done|]. split; [done|]. split.
    + intros Hn. destruct (clone_lease p (sy_runtime sy)) as [rt'|m] eqn:E; [by eexists|].
      destruct (clone_lease_returns _ _ _ _ _ _ Hh Hin E) as (r' & Hr' & Hfull). assert (r' = r) as -> by congruence. lia.
    + destruct (drop_lease_returns p (sy_runtime sy)) as [rt' E]; [by eapply lookup_lt_Some|]. exists rt'. split; [done|].
      by eapply drop_lease_effects.
Qed.

(** C11. A commit that nothing interrupts ends in one of three ways.  It publishes
    exactly what it prepared, after activating everything staged in dependency-first
    order.  Or it fails, refused in preparation before anything ran, or by an
    activation that fails: the state, the routes and the generations are as they
    were, and the activations that ran are followed by the disposers of all that had
    succeeded, in reverse order.  Or an activation panics and unwinds out of it: the
    state, the routes and the generations are as they were too, but the disposers of
    what had been activated are not called.  A commit that was overtaken after its
    activations is refused and calls the disposers of all of them in reverse order. *)
Theorem commit_is_all_or_nothing scopes sy tx :
  scopes_built scopes -> rtc call (system_new scopes) sy -> tx_ok tx -> room (sy_runtime sy) ->
  let rt := sy_runtime sy in
  (exists outcome rt', commit tx rt = Ok (outcome, rt')
    /\ match outcome with
       | Committed report => exists pr results,
           prepared_ok tx (rt_state rt) pr /\ activates (tx_staged tx) (pr_activation_order pr) results
           /\ published_by tx pr (all_activated nothing_activated (pr_activation_order pr) results)
                (with_effects (activation_effects (tx_staged tx) (pr_activation_order pr)) rt) rt' report
       | CommitFailed e => (commit_prepare tx (rt_state rt) = Err e /\ rt' = rt)
           \/ exists pr before id after results reason, commit_prepare tx (rt_state rt) = Ok pr
             /\ pr_activation_order pr = before ++ id :: after /\ activates (tx_staged tx) before results
             /\ outcome_of (tx_staged tx) id = Some (ActivationErr reason)
             /\ e = ActivationFailed id reason (omap disposal_failure (rev (map snd results)))
             /\ rt' = with_effects (activation_effects (tx_staged tx) (before ++ [id])
                                     ++ map RolledBack (rev (map snd results))) rt
       | CommitUnwound => exists pr before id after results, commit_prepare tx (rt_state rt) = Ok pr
             /\ pr_activation_order pr = before ++ id :: after /\ activates (tx_staged tx) before results
             /\ outcome_of (tx_staged tx) id = Some ActivationPanics
             /\ rt' = with_effects (activation_effects (tx_staged tx) (before ++ [id])) rt
       end)
  /\ forall pr av, st_revision (rt_state rt) <> pr_expected_revision pr ->
       commit_finish tx pr av rt
       = Ok (Err (ConcurrentMutation (pr_expected_revision pr) (st_revision (rt_state rt))
                    (omap disposal_failure (rev (av_disposers av)))),
             with_effects (map RolledBack (rev (av_disposers av))) rt).
Proof.
  intros Hs%scopes_built_ok Hcalls Htx [_ Hroom]. cbn zeta.
  destruct (calls_keep_ok _ _ (system_new_ok _ Hs) Hcalls) as [Hrt _]. split; [|by intros; apply commit_finish_stale].
  unfold commit. destruct (commit_prepare tx _) as [pr|e] eqn:Ep; [|eexists _, _; split; [done|]; by left].
  pose proof (commit_prepare_ok _ _ _ Htx (sk_graph _ _ (ro_state _ _ _ Hrt)) Ep) as Hpr.
  pose proof (commit_activate_spec _ _ _ nothing_activated (pk_NoDup _ _ _ Hpr)
                (fun id => proj1 (pk_order _ _ _ Hpr id)) (fun _ _ => eq_refl)) as Hact.
  destruct (commit_activate _ _ _) as [[av|e|] effects]; cbn [fst snd activation_result] in Hact; cbn zeta iota beta.
  - destruct Hact as (results & Hact & -> & ->).
    assert (runtime_ok (with_effects (activation_effects (tx_staged tx) (pr_activation_order pr)) (sy_runtime sy))
              (sy_leases sy) (sy_published sy)) as Hrt'.
    { apply with_effects_ok; [done|]. intros q d. apply no_calls_in_activation. }
    destruct (commit_finish_ok _ _ _ _ _ _ Hrt' Htx Hpr (all_activated_ok _ _ _ Hact) Hroom) as (report & rt' & E & _ & Hpub).
    rewrite E. cbn [mbind result_bind]. eexists _, _. split; [done|]. by exists pr, results.
  - destruct Hact as (before & id & after & results & reason & Ho & Hact & Hid & -> & ->). eexists _, _. split; [done|].
    right. exists pr, before, id, after, results, reason. done.
  - destruct Hact as (before & id & after & results & Ho & Hact & Hid & ->). eexists _, _. split; [done|].
    exists pr, before, id, after, results. done.
Qed.

(** Dropping a handle of a scope never fails; the last handle takes exactly the
    capabilities registered in the scope out of the graph and puts their
    generations out of service, all others go on serving. *)
Theorem last_handle_retires_the_scope scopes sy scope :
  scopes_built scopes -> rtc call (system_new scopes) sy ->
  exists rt', retire_scope scope (sy_runtime sy) = Ok rt' /\ rt_effects rt' = rt_effects (sy_runtime sy)
    /\ runtime_ok rt' (sy_leases sy) (sy_published sy)
    /\ match bt_get scope (st_scope_handles (rt_state (sy_runtime sy))) with
       | None => rt' = sy_runtime sy
       | Some handles =>
           if 1 <? val handles then st_graph (rt_state rt') = st_graph (rt_state (sy_runtime sy))
           else scope_retired scope (sy_runtime sy) rt'
       end.
Proof.
  intros Hs%scopes_built_ok Hcalls. destruct (calls_keep_ok _ _ (system_new_ok _ Hs) Hcalls) as [Hrt _].
  destruct (retire_scope_ok scope _ _ _ Hrt) as (rt' & E & Hok & He & Hspec). by exists rt'.
Qed.

(** Dropping a scope while a scope below it is open publishes a graph that its
    own validation refuses: the capability that depended on the retired one goes
    on being handed out, and a commit of another owner in another scope, which
    has nothing to do with either, fails. *)
Theorem retired_scopes_strand_dependents :
  match stranded with
  | Ok rt =>
      validate (st_graph (rt_state rt)) = Err (MissingDependency search storage)
      /\ (fst <$> commit (staging editor_manifest 7) rt)
         = Ok (CommitFailed (GraphError (MissingDependency search storage)))
      /\ lease_of (acquire 1 thread search rt) = Some 1%nat
  | Err _ => False
  end.
Proof. vm_compute. done. Qed.

(** * Witnesses *)

Lemma resolution_errors_are_explained_witness :
  resolve circular_graph process [search] = Err (DependencyCycle [editor; search; editor])
  /\ resolve_error circular_graph process [search] (DependencyCycle [editor; search; editor])
  /\ ~ resolvable circular_graph process [search].
Proof.
  split; [vm_compute; reflexivity|]. apply (resolution_errors_are_explained circular_graph process [search]).
  vm_compute. reflexivity.
Defined.

Lemma validation_accepts_valid_graphs_witness : validate one_graph = Ok tt <-> valid_graph one_graph.
Proof. apply (validation_accepts_valid_graphs one_graph one_graph_ok). Defined.

Lemma racing_calls_dispose_once_witness :
  is_live (gr_state r_acquired) /\ gr_payloads r_acquired = editor_payloads /\ @nil CapabilityDisposer = [].
Proof.
  refine (proj1 (proj2 (proj2 (racing_calls_dispose_once true (u64_of 1) (OwnerId "shell") process [editor] editor_payloads
    [disposer_of 7] r_fresh _ editor_fresh _ editor_held))) _); [done|cbn; lia].
Defined.

Lemma retired_generations_are_disposed_witness :
  exists r' called',
    rtc (shared_step true) {| sh_record := r_released; sh_held := 0; sh_threads := [Sent [disposer_of 7]]; sh_called := [] |}
      {| sh_record := r'; sh_held := 0; sh_threads := []; sh_called := called' |}.
Proof.
  refine (proj1 (retired_generations_are_disposed (u64_of 1) (OwnerId "shell") process [editor] editor_payloads
    [disposer_of 7] r_fresh r_released _ _ editor_fresh _ editor_drained _ eq_refl)); [done|].
  assert (bool_decide (lifecycle_of (gr_state r_released) <> Active) = true) as E by (vm_compute; reflexivity).
  by apply bool_decide_eq_true in E.
Defined.

Lemma capability_runtime_stays_well_formed_witness :
  rt_routes rt_leased = routes_from_state (rt_state rt_leased).
Proof.
  apply (capability_runtime_stays_well_formed process_scopes _ process_scopes_built editor_leased).
Defined.

Lemma acquire_follows_the_graph_witness :
  match visible (st_graph (rt_state rt_leased)) process editor with
  | None => acquire 1 process editor rt_leased = Ok (Some None, rt_leased)
  | Some m => exists g p r, served (rt_state rt_leased) (rt_heap rt_leased) (manifest_key m) m g p r
      /\ (val (leases_of (gr_state r)) < 2 ^ 61 - 1 ->
           exists rt', acquire 1 process editor rt_leased = Ok (Some (Some {| ls_capability := editor; ls_generation := p |}), rt')
             /\ call (system rt_leased [0%nat] published_editor []) (system rt' (p :: [0%nat]) published_editor []))
  end.
Proof. exact (acquire_follows_the_graph process_scopes _ process editor 0 process_scopes_built editor_leased). Defined.

Lemma typed_values_are_the_activated_ones_witness :
  exists g p r o value, served (rt_state rt_leased) (rt_heap rt_leased) (manifest_key editor_visible) editor_visible g p r
    /\ published_editor !! p = Some o /\ bt_get editor (fst o) = Some value
    /\ (val (leases_of (gr_state r)) < 2 ^ 61 - 1 ->
         exists rt', acquire_typed 1 "Service" process editor rt_leased
           = Ok (Some (if decide (pl_type value = "Service"%string)
                       then Ok (Some {| tc_value := value; tc_lease := {| ls_capability := editor; ls_generation := p |} |})
                       else Err (TypeMismatch editor g "Service")), rt')).
Proof.
  apply (typed_values_are_the_activated_ones process_scopes _ process editor editor_visible "Service" 0
           process_scopes_built editor_leased).
  cbn [sy_runtime]. unfold editor_visible.
  destruct (visible (st_graph (rt_state rt_leased)) process editor) as [m|] eqn:E; [done|].
  assert (match visible (st_graph (rt_state rt_leased)) process editor with Some _ => true | None => false end = true) as Hs
    by (vm_compute; reflexivity).
  by rewrite E in Hs.
Defined.

Lemma disposers_wait_for_leases_witness :
  exists r, rt_heap rt_leased !! 0%nat = Some r /\ gr_payloads r = av_payloads av_editor
    /\ gr_disposers r = av_disposers av_editor
    /\ (val (leases_of (gr_state r)) < 2 ^ 61 - 1 -> exists rt', clone_lease 0 rt_leased = Ok rt')
    /\ exists rt', drop_lease 0 rt_leased = Ok rt' /\ rt_effects rt' = rt_effects rt_leased.
Proof.
  apply (disposers_wait_for_leases process_scopes _ 0 (av_payloads av_editor, av_disposers av_editor)
           process_scopes_built editor_leased eq_refl). by left.
Defined.

(** One transaction for each way a commit ends. *)
Lemma commit_is_all_or_nothing_witness :
  (exists report rt', commit (two_staged (ActivationOk (payload_of 2) (disposer_of 2))) rt_leased = Ok (Committed report, rt')
     /\ cr_generation report = st_next_generation (rt_state rt_leased))
  /\ (exists id reason failures rt' called, commit (two_staged (ActivationErr "no index")) rt_leased
         = Ok (CommitFailed (ActivationFailed id reason failures), rt')
       /\ rt' = with_effects called rt_leased /\ called = [Activated 1; Activated 2; RolledBack (disposer_of 1)])
  /\ (exists rt' called, commit (two_staged ActivationPanics) rt_leased = Ok (CommitUnwound, rt')
       /\ rt' = with_effects called rt_leased /\ called = [Activated 1; Activated 2])
  /\ (exists e, commit (staging storage_manifest 1) rt_leased = Ok (CommitFailed e, rt_leased)).
Proof.
  destruct commit_ends as (E1 & E2 & E3 & E4). split; [|split; [|split]].
  - destruct (proj1 (commit_is_all_or_nothing process_scopes _ _ process_scopes_built editor_leased (two_staged_ok (ActivationOk (payload_of 2) (disposer_of 2))) rt_leased_room))
      as (outcome & rt' & E & Ho).
    cbn [sy_runtime] in E. rewrite E in E1. destruct outcome as [report|[]|]; try discriminate E1.
    destruct Ho as (pr & results & _ & _ & Hpub). exists report, rt'. split; [exact E|]. by destruct Hpub.
  - destruct (proj1 (commit_is_all_or_nothing process_scopes _ _ process_scopes_built editor_leased (two_staged_ok (ActivationErr "no index")) rt_leased_room))
      as (outcome & rt' & E & Ho).
    cbn [sy_runtime] in E. assert (Hcalled : rt_effects (failed_runtime (ActivationErr "no index"))
      = rt_effects rt_leased ++ [Activated 1; Activated 2; RolledBack (disposer_of 1)]) by apply failed_effects.
    unfold failed_runtime in Hcalled. rewrite E in E2, Hcalled. destruct outcome as [|[| | | |id reason failures| |]|]; try discriminate E2.
    exists id, reason, failures, rt'. destruct Ho as [[Hp _]|(pr & before & id' & after & results & reason' & _ & _ & _ & _ & _ & ->)].
    + pose proof failing_two_prepared as Hok. cbn [sy_runtime] in Hp. by rewrite Hp in Hok.
    + eexists. split; [exact E|]. split; [reflexivity|]. by apply app_inv_head in Hcalled.
  - destruct (proj1 (commit_is_all_or_nothing process_scopes _ _ process_scopes_built editor_leased (two_staged_ok ActivationPanics) rt_leased_room))
      as (outcome & rt' & E & Ho).
    cbn [sy_runtime] in E. assert (Hcalled : rt_effects (failed_runtime ActivationPanics)
      = rt_effects rt_leased ++ [Activated 1; Activated 2]) by apply unwound_effects.
    unfold failed_runtime in Hcalled. rewrite E in E3, Hcalled. destruct outcome as [|[]|]; try discriminate E3.
    destruct Ho as (pr & before & id & after & results & _ & _ & _ & _ & ->). eexists _, _.
    split; [exact E|]. split; [reflexivity|]. by apply app_inv_head in Hcalled.
  - destruct (proj1 (commit_is_all_or_nothing process_scopes _ _ process_scopes_built editor_leased (staging_ok storage_manifest 1) rt_leased_room))
      as (outcome & rt' & E & Ho).
    cbn [sy_runtime] in E. rewrite E in E4. destruct outcome as [|e|]; try discriminate E4. exists e.
    destruct Ho as [[_ ->]|(pr & before & id & after & results & reason & _ & _ & _ & _ & -> & _)]; [exact E|discriminate E4].
Defined.

Lemma last_handle_retires_the_scope_witness :
  exists rt', retire_scope process rt_leased = Ok rt' /\ rt_effects rt' = rt_effects rt_leased.
Proof.
  destruct (last_handle_retires_the_scope process_scopes _ process process_scopes_built editor_leased) as (rt' & E & He & _).
  exists rt'. split; [exact E|exact He].
Defined.
