(* ===== verification/ProjectorTheorems.v ===== *)
(** The properties of the stages that project streamed text: what they show and
    extract is what the whole text reads as, whatever pieces it comes in. *)

From S2P Require Import Prelude Disk Text TextFacts Projectors MatcherFacts Streams HiddenFacts LineFacts PlanFacts.

Open Scope string_scope.
Open Scope list_scope.
Open Scope Z_scope.

(** * Hidden tags *)

Section WholeTexts.
Context {T : Type}.

(** A whole text, read without buffers: its first opener, the longest of those that
    begin there, hides what comes up to the next delimiter that closes it; a tag that
    is not closed ends with the text. *)
Inductive reads_whole (specs : list (InlineTagSpec T)) : bytes -> bytes -> list (ExtractedInlineTag T) -> Prop :=
  | whole_text text : earliest (openers_of specs) text = None -> reads_whole specs text text []
  | whole_tag text open_at index spec close_at visible extracted :
      earliest (openers_of specs) text = Some (open_at, index) -> specs !! index = Some spec ->
      let inside := drop (open_at + length (sp_open spec)) text in
      find (sp_close spec) inside = Some close_at ->
      reads_whole specs (drop (close_at + length (sp_close spec)) inside) visible extracted ->
      reads_whole specs text (take open_at text ++ visible)
        ({| ex_tag := sp_tag spec; ex_content := take close_at inside |} :: extracted)
  | whole_unclosed text open_at index spec :
      earliest (openers_of specs) text = Some (open_at, index) -> specs !! index = Some spec ->
      let inside := drop (open_at + length (sp_open spec)) text in
      find (sp_close spec) inside = None ->
      reads_whole specs text (take open_at text) [{| ex_tag := sp_tag spec; ex_content := inside |}].

(** The text ends in an opener that a longer opener goes on from. *)
Definition held_at_end (openers : LiteralMatcher nat) (text : bytes) : Prop :=
  exists tail opener longer, tail `suffix_of` text /\ opener ∈ openers /\ longer ∈ openers /\
    li_text opener `prefix_of` tail /\ tail `prefix_of` li_text longer /\ (length tail < length (li_text longer))%nat.

Lemma held_at_end_suffix openers rest text : rest `suffix_of` text -> held_at_end openers rest -> held_at_end openers text.
Proof. intros Hr (tail & opener & longer & Ht & Hrest). exists tail, opener, longer. split; [by etrans|done]. Qed.

Lemma not_held_not_extended specs text open_at index :
  ~ held_at_end (openers_of specs) text -> earliest (openers_of specs) text = Some (open_at, index) ->
  could_extend_match (openers_of (T := T) specs) (drop open_at text) = false.
Proof.
  intros Hno E. apply not_true_is_false. intros (longer & Hl & Hlen & Hp)%could_extend_iff. apply Hno.
  pose proof (earliest_spec (openers_of specs) text) as Hs. rewrite E in Hs. destruct Hs as (order & opener & (Ho & Hf & _) & _).
  apply find_Some in Hf as [[_ Hpre] _]. apply list_elem_of_lookup_2 in Ho.
  exists (drop open_at text), opener, longer. split; [|done]. exists (take open_at text). by rewrite take_drop.
Qed.

Lemma inside_suffix n m (text : bytes) : drop m (drop n text) `suffix_of` text.
Proof. rewrite drop_drop. exists (take (n + m) text). by rewrite take_drop. Qed.

Lemma reads_whole_reads specs text visible extracted :
  ~ held_at_end (openers_of specs) text -> reads_whole specs text visible extracted <-> reads specs text visible extracted.
Proof.
  intros Hno. split; intros Hr; revert Hno.
  - induction Hr as [text E|text open_at index spec close_at visible extracted E Hs inside Hf _ IH|text open_at index spec E Hs inside Hf];
      intros Hno; [by constructor| |]; pose proof (not_held_not_extended _ _ _ _ Hno E) as Hx.
    + apply (reads_tag _ _ open_at index); [done..|]. apply IH. intros Hh. apply Hno. eapply held_at_end_suffix; [|exact Hh].
      apply inside_suffix.
    + by apply (reads_unclosed _ _ open_at index).
  - induction Hr as [text E|text open_at index E Hx|text open_at index spec close_at visible extracted E _ Hs inside Hf _ IH
                    |text open_at index spec E _ Hs inside Hf]; intros Hno; [by constructor| | |].
    + by rewrite (not_held_not_extended _ _ _ _ Hno E) in Hx.
    + apply (whole_tag _ _ open_at index); [done..|]. apply IH. intros Hh. apply Hno. eapply held_at_end_suffix; [|exact Hh].
      apply inside_suffix.
    + by apply (whole_unclosed _ _ open_at index).
Qed.

(** C25. Where no opener of the tags is inside another, and for a text that does not
    end in an opener that a longer one goes on from, it does not matter how the text
    is cut into pieces: a projector of hidden tags shows and extracts exactly what
    the whole text reads as.  An opener hides everything up to its delimiter, the
    longest of the openers at the first place wins, and a tag that is not closed ends
    with the text.  Without the first condition the pieces matter
    ([inner_openers_depend_on_the_pieces]); at such an end the opener is shown,
    against the documentation ([openers_held_at_the_end_are_shown]). *)
Theorem hidden_tags_read_like_the_whole_text (specs : list (InlineTagSpec T)) self pieces visible extracted :
  hidden_new specs = Ok self -> specs_utf8 specs -> no_inner (openers_of specs) -> texts pieces ->
  ~ held_at_end (openers_of specs) (concat pieces) ->
  reads_whole specs (concat pieces) visible extracted
  <-> renderable (collect pieces self) = visible /\ events (collect pieces self) = extracted.
Proof.
  intros E Hu Ha Hs Hno. rewrite reads_whole_reads by done.
  pose proof (collect_reads specs self pieces E Hu Ha Hs) as Hr. split.
  - intros Hr'. by destruct (reads_functional _ _ _ _ _ _ Hr Hr') as [-> ->].
  - by intros [<- <-].
Qed.

Definition held_check (openers : LiteralMatcher nat) (text : bytes) : bool :=
  existsb (fun longer => existsb (fun n =>
    let tail := take n (li_text longer) in
    bool_decide (tail `suffix_of` text) && existsb (fun opener => bool_decide (li_text opener `prefix_of` tail)) openers)
    (seq 0 (length (li_text longer)))) openers.

Lemma held_check_sound openers text : held_check openers text = false -> ~ held_at_end openers text.
Proof.
  intros Hc (tail & opener & longer & Ht & Ho & Hl & Hpre & Hp & Hlen). apply not_true_iff_false in Hc. apply Hc.
  apply existsb_exists. exists longer. rewrite <- list_elem_of_In. split; [done|]. apply existsb_exists. exists (length tail).
  split; [apply in_seq; lia|]. destruct Hp as [rest ->]. rewrite take_app_length. apply andb_true_iff.
  split; [by apply bool_decide_eq_true_2|]. apply existsb_exists. exists opener. rewrite <- list_elem_of_In.
  split; [done|]. by apply bool_decide_eq_true_2.
Qed.

End WholeTexts.

Lemma project_all_hidden_ok {T} pieces (self : HiddenTagProjector T) :
  hidden_ok self -> texts pieces ->
  hidden_ok (fst (project_all pieces self)) /\ texts_ok (snd (project_all pieces self)).
Proof.
  intros Hok Hs. revert self Hok. induction Hs as [|piece pieces Hv _ IH]; intros self Hok; [split; [done|apply nothing_texts_ok]|].
  cbn [project_all project hidden_projector]. pose proof (project_ok piece self Hok Hv) as Hp.
  destruct (hidden_project piece self) as [self1 out1]. destruct Hp as (Hok1 & Ht1 & _). destruct (IH self1 Hok1) as [H1 H2].
  destruct (project_all pieces self1) as [self2 out2]. cbn [fst snd] in *. split; [done|].
  destruct Ht1, H2. split; [by apply utf8_valid_both|]. by apply Forall_app.
Qed.

(** Whatever tags a projector was made for and whatever texts it has seen, the
    loop over its next piece ends, within a turn for each byte that is pending,
    and all that it shows and extracts is well-formed UTF-8: no text is ever cut
    inside a character. *)
Theorem hidden_projection_ends_with_texts {T} (specs : list (InlineTagSpec T)) self pieces input :
  hidden_new specs = Ok self -> specs_utf8 specs -> texts pieces -> utf8_valid input = true ->
  let (before, out) := project_all pieces self in
  texts_ok out
  /\ exists after out', project_loop (S (length (ht_pending before ++ input))) (with_pending (ht_pending before ++ input) before) nothing
       = Some (after, out') /\ texts_ok out' /\ utf8_valid (ht_pending after) = true
       /\ texts_ok (snd (close after)).
Proof.
  intros E Hu Hs Hi. destruct (hidden_new_ok specs self E Hu) as (Hok & _).
  pose proof (project_all_hidden_ok pieces self Hok Hs) as Hp. destruct (project_all pieces self) as [before out]. destruct Hp as [Hb Ht].
  split; [done|]. destruct (loop_ends (S (length (ht_pending before ++ input))) (extend input before) nothing)
    as (after & out' & El & Ha & Ht' & _); [by apply extend_ok|apply nothing_texts_ok|cbn; lia|].
  exists after, out'. split; [exact El|]. split; [done|]. split; [apply Ha|]. cbn [close hidden_projector]. unfold hidden_close.
  pose proof (ho_mode _ Ha) as Hm. destruct (ht_mode after) as [|active]; cbn [snd].
  - apply texts_ok_renderable; [apply Ha|apply nothing_texts_ok].
  - apply texts_ok_event; [|apply nothing_texts_ok]. apply utf8_valid_both; [apply Hm|apply Ha].
Qed.

(** * Tagged lines *)

Section Lines.
Context {T : Type} `{EqDecision T}.

(** The pieces one after the other, then the end of the text. *)
Fixpoint parse_all (pieces : list bytes) (self : TaggedLineParser T) : list (TaggedLineSegment T) :=
  match pieces with
  | [] => snd (finish self)
  | piece :: pieces => let (self, segments) := parse piece self in segments ++ parse_all pieces self
  end.

Lemma parse_all_reads specs pieces consumed self said :
  follows specs consumed self said -> texts pieces ->
  said ++ items (parse_all pieces self) = items (read_text specs (encode_all consumed ++ concat pieces)).
Proof.
  intros Hf Hs. revert consumed self said Hf. induction Hs as [|piece pieces Hv _ IH]; intros consumed self said Hf; cbn [parse_all concat].
  { rewrite app_nil_r. by eapply finish_reads. }
  pose proof (parse_follows specs piece consumed self said Hv Hf) as Hp. destruct (parse piece self) as [self' segments].
  specialize (IH _ _ _ Hp). rewrite encode_all_app, encode_chars in IH by done. rewrite items_app, app_assoc, IH. by rewrite <- app_assoc.
Qed.

(** C26. The parser of tagged lines decides about a line as soon as it cannot be a
    marker any more, and says nothing before; joined, its segments are those of
    the whole text read line by line, whatever pieces it comes in.  It holds for
    any tags. *)
Theorem tagged_lines_read_like_the_whole_text (specs : list (TagSpec T)) pieces :
  texts pieces -> joined (parse_all pieces (parser_new specs)) = joined (read_text specs (concat pieces)).
Proof.
  intros Hs. apply joined_same.
  apply (parse_all_reads specs pieces [] (parser_new specs) [] (parser_new_follows specs) Hs).
Qed.

End Lines.

(** * Bytes *)

(** C27. The adapter for bytes, in front of any stage whose pieces do not matter: when
    the chunks together are a text, each is accepted, wherever they cut it, and
    the output is that of the text in one piece; when they end inside a
    character, they are accepted and only [close] fails. *)
Theorem bytes_are_projected_like_the_text {P E} `{StreamLaws P E} (inner : P) chunks :
  stream_ok inner ->
  (utf8_valid (concat chunks) = true ->
   exists clean out self tail,
     push_all chunks (adapter_new inner) = (clean, Ok out) /\ adapter_close clean = (self, Ok tail)
     /\ same (merge out tail) (collect [concat chunks] inner))
  /\ (forall good bad, concat chunks = good ++ bad -> utf8_valid good = true -> incomplete_char bad ->
      exists stopped out, push_all chunks (adapter_new inner) = (stopped, Ok out)
        /\ adapter_close stopped = (stopped, Err IncompleteUtf8AtEof)
        /\ into_inner stopped = Err IncompleteUtf8AtEof).
Proof.
  intros Hin. assert (Hok : adapter_ok (adapter_new inner)) by (split; [done|by left]). split.
  - intros Hv. destruct (push_all_pieces chunks (adapter_new inner) [] Hok) as (pieces & bad & Ec & Hs & Hb & Ep).
    { cbn. by rewrite app_nil_r. }
    cbn [adapter_new ad_pending_utf8 ad_inner app] in *. pose proof (rest_of_text _ _ _ Ec Hs Hv Hb) as Ebad. subst bad.
    do 4 eexists. split; [exact Ep|]. split; [apply adapter_close_clean|]. rewrite app_nil_r in Ec. rewrite Ec.
    pose proof (collect_whole pieces inner Hin Hs) as Hw. unfold collect in Hw at 1. by destruct (project_all pieces inner).
  - intros good bad Ec Hg Hbad. pose proof Hbad as [_ [more Hmore]].
    destruct (push_all_pieces chunks (adapter_new inner) more Hok) as (pieces & rest & Ec' & Hs & Hr & Ep).
    { cbn. by rewrite Ec, <- app_assoc, utf8_valid_app. }
    cbn [adapter_new ad_pending_utf8 ad_inner app] in *. destruct Hr as [->|Hr].
    { rewrite app_nil_r in Ec'. apply texts_concat in Hs. rewrite <- Ec', Ec, utf8_valid_app in Hs by done. destruct Hbad. congruence. }
    do 2 eexists. split; [exact Ep|]. split; [by apply adapter_close_incomplete|]. unfold into_inner. cbn [ad_pending_utf8].
    destruct (classify_utf8_spec rest) as [Hv|g b El Hg' Hb'|g b n El Hg' _ Hb']; [destruct Hr; congruence|done|].
    destruct Hr as [_ [m Hm]]. by rewrite El, <- app_assoc, utf8_valid_app, Hb' in Hm.
Qed.

(** A chunk is refused exactly when no bytes after it could make a text of what
    was received; the error says where the first such bytes are, and the adapter
    is as before the chunk, so that another can be pushed. *)
Theorem refused_chunks_are_rolled_back {P E} `{StreamLaws P E} (self : Utf8ProjectionAdapter P) chunk :
  adapter_ok self ->
  let received := ad_pending_utf8 self ++ chunk in
  let (after, r) := push_bytes chunk self in
  match r with
  | Ok out => adapter_ok after /\ exists more, utf8_valid (received ++ more) = true
  | Err e =>
      after = self
      /\ exists at_ n, e = InvalidUtf8 at_ n /\ (n <= 3)%nat /\ utf8_valid (take at_ received) = true
         /\ never_text (drop at_ received) /\ never_text received
  end.
Proof.
  intros Hok received. pose proof (push_bytes_ok chunk self Hok) as Hk.
  destruct (push_bytes_spec chunk self Hok) as [(good & bad & El & Hg & Hb & Ep)|(good & bad & n & El & Hg & Hn & Hn3 & Ep)];
    rewrite Ep in *; fold received in El.
  - split; [done|]. rewrite El. destruct Hb as [->|[_ [more Hm]]].
    + exists []. by rewrite !app_nil_r.
    + exists more. by rewrite <- app_assoc, utf8_valid_app.
  - split; [done|]. exists (length good), n. rewrite El, take_app_length, drop_app_length. do 4 (split; [done|]).
    intros more. by rewrite <- app_assoc, utf8_valid_app.
Qed.

(** * Assistant text *)

Definition citation_specs : list (InlineTagSpec CitationTag) :=
  [{| sp_tag := Citation; sp_open := CITATION_OPEN; sp_close := CITATION_CLOSE |}].

(** Assistant text in any pieces, with any features: the citations are those of
    the whole text, plans are read line by line from what the citations leave,
    and what is shown is what neither takes; captured, the plan is the last one
    of the whole text. *)
Theorem assistant_text_reads_like_the_whole_text features self pieces :
  with_features features = Ok self -> texts pieces ->
  let out := assistant_collect pieces self in
  exists visible extracted,
    (if fe_citations features then reads citation_specs (concat pieces) visible extracted
     else visible = concat pieces /\ extracted = [])
    /\ citations out = map ex_content extracted
    /\ if fe_proposed_plan features then
         let read := read_text plan_specs visible in
         visible_text out = shown read /\ joined (map tagged (plan_segments out)) = joined read
         /\ captured (fold_left observe (plan_segments out) capture_default)
            = captured (fold_left observe (map plan_event read) capture_default)
       else visible_text out = visible /\ plan_segments out = [].
Proof.
  intros E Hs out. destruct citation_new_is as (inner & Ei & Ec & Hin). unfold with_features in E. rewrite Ec in E.
  assert (exists c, self = {| as_citations := c; as_plan := if fe_proposed_plan features then Some plan_new else None |}
    /\ texts (map renderable (cite_all pieces c))
    /\ exists extracted, (if fe_citations features
         then reads citation_specs (concat pieces) (concat (map renderable (cite_all pieces c))) extracted
         else concat (map renderable (cite_all pieces c)) = concat pieces /\ extracted = [])
       /\ concat (map events (cite_all pieces c)) = map ex_content extracted) as (c & -> & Ht & extracted & Hc & Hx).
  { destruct (fe_citations features).
    - injection E as <-. exists (Some {| ci_inner := inner |}). split; [done|].
      destruct (cite_all_some pieces {| ci_inner := inner |} Hin Hs) as (H1 & H2 & H3). split; [done|].
      exists (events (collect pieces inner)).
      pose proof (collect_reads citation_specs inner pieces Ei ltac:(repeat constructor) (single_apart _) Hs) as Hr.
      assert (Ecol : collect pieces {| ci_inner := inner |} = citation_projection (collect pieces inner)) by apply citation_collect.
      rewrite H2, H3, Ecol. by split.
    - injection E as <-. exists None. split; [done|]. destruct (cite_all_none pieces Hs) as (H1 & H2 & H3).
      split; [done|]. by exists []. }
  subst out. rewrite assistant_stages. exists (concat (map renderable (cite_all pieces c))), extracted. split; [done|].
  destruct (fe_proposed_plan features).
  - destruct (route_all_some (cite_all pieces c) plan_new) as (-> & -> & ->). split; [done|].
    destruct (plan_collect _ Ht) as [H1 H2]. rewrite map_segments_is in H1, H2. cbn [renderable events] in H1, H2.
    split; [done|]. split; [apply joined_same; by rewrite H2, tagged_events|by apply captured_same].
  - rewrite route_all_none. by split.
Qed.

(** The functions for whole texts are the stages on one piece. *)
Theorem whole_texts_are_one_piece text :
  utf8_valid text = true ->
  (exists visible extracted, strip_citations text = Ok (visible, map ex_content extracted)
     /\ reads citation_specs text visible extracted)
  /\ strip_proposed_plan_blocks text = shown (read_text plan_specs text)
  /\ extract_proposed_plan_text text
     = captured (fold_left observe (map plan_event (read_text plan_specs text)) capture_default).
Proof.
  intros Hv. split.
  - destruct citation_new_is as (inner & Ei & Ec & Hin). exists (renderable (collect [text] inner)), (events (collect [text] inner)).
    pose proof (collect_reads citation_specs inner [text] Ei ltac:(repeat constructor) (single_apart _) ltac:(by repeat constructor)) as Hr.
    cbn [concat] in Hr. rewrite app_nil_r in Hr. split; [|exact Hr]. unfold strip_citations. rewrite Ec. cbn [mbind result_bind].
    pose proof (citation_collect [text] inner) as Ecol. unfold collect at 1 in Ecol. cbn [project_all] in Ecol.
    destruct (project text {| ci_inner := inner |}) as [p1 out1]. rewrite merge_nothing in Ecol.
    destruct (close p1) as [p2 tail]. cbn [snd] in Ecol. by rewrite Ecol.
  - destruct (plan_collect_whole text Hv) as [H1 H2]. rewrite map_segments_is in H1, H2. cbn [renderable events] in H1, H2.
    unfold strip_proposed_plan_blocks, extract_proposed_plan_text, collect in *. cbn [project_all] in *.
    destruct (project text plan_new) as [p1 out1]. rewrite merge_nothing in *. destruct (close p1) as [p2 tail]. cbn [snd] in *.
    split; [done|]. by apply captured_same.
Qed.

(** * Tags that are not told apart *)

Definition tag (n : Z) (open_ close_ : string) : InlineTagSpec Z :=
  {| sp_tag := n; sp_open := str_bytes open_; sp_close := str_bytes close_ |}.

Definition hidden_from (specs : list (InlineTagSpec Z)) : HiddenTagProjector Z :=
  match hidden_new specs with
  | Ok self => self
  | Err _ => {| ht_specs := []; ht_openers := []; ht_pending := []; ht_mode := Visible |}
  end.

(** What a list of pieces projects to, as strings. *)
Definition projected (specs : list (InlineTagSpec Z)) (pieces : list string) : string * list (Z * string) :=
  let out := collect (map str_bytes pieces) (hidden_from specs) in
  (string_of_bytes (renderable out), map (fun e => (ex_tag e, string_of_bytes (ex_content e))) (events out)).

(** [new] takes tags one of whose openers is inside another's; what is shown then
    depends on where the text is cut: in one piece the longer opener is found, and
    when a piece ends inside of it, the shorter one. *)
Theorem inner_openers_depend_on_the_pieces :
  let specs := [tag 1 "abc" "/"; tag 2 "b" "/"] in
  hidden_new specs = Ok (hidden_from specs)
  /\ projected specs ["abcd/"] = ("", [(1, "d")]) /\ projected specs ["ab"; "cd/"] = ("a", [(2, "cd")]).
Proof. vm_compute. repeat split. Qed.

(** An opener at the end of the text that a longer one starts with is shown, not
    closed with the text; with one more character it is an open tag that is. *)
Theorem openers_held_at_the_end_are_shown :
  let specs := [tag 1 "<x>" "</x>"; tag 2 "<x><y>" "</y></x>"] in
  projected specs ["a<x>"] = ("a<x>", []) /\ projected specs ["a<x>b"] = ("a", [(1, "b")]).
Proof. vm_compute. repeat split. Qed.

(** * Witnesses *)

Definition two_tags : list (InlineTagSpec Z) := [tag 1 "<x>" "</x>"; tag 2 "<x><y>" "</y></x>"].
Definition two_pieces : list bytes := map str_bytes ["a<x"; "><y>long</y></x>b<x>short</x>c"].

Lemma hidden_tags_read_like_the_whole_text_witness :
  hidden_new two_tags = Ok (hidden_from two_tags)
  /\ reads_whole two_tags (concat two_pieces) (str_bytes "abc")
       [{| ex_tag := 2; ex_content := str_bytes "long" |}; {| ex_tag := 1; ex_content := str_bytes "short" |}].
Proof.
  split; [reflexivity|].
  apply (hidden_tags_read_like_the_whole_text two_tags (hidden_from two_tags) two_pieces).
  - reflexivity.
  - repeat constructor.
  - apply no_inner_check_sound. vm_compute. reflexivity.
  - repeat constructor.
  - apply held_check_sound. vm_compute. reflexivity.
  - vm_compute. split; reflexivity.
Defined.

Lemma hidden_projection_ends_with_texts_witness :
  let (before, out) := project_all two_pieces (hidden_from two_tags) in texts_ok out.
Proof.
  pose proof (hidden_projection_ends_with_texts two_tags (hidden_from two_tags) two_pieces (str_bytes "<x>")
                eq_refl ltac:(repeat constructor) ltac:(repeat constructor) eq_refl) as Hw.
  destruct (project_all two_pieces (hidden_from two_tags)) as [before out]. apply Hw.
Defined.

Definition a_line (text : string) : bytes := str_bytes text ++ [x0a].

Definition plan_pieces : list bytes :=
  [str_bytes "before"; [x0a] ++ str_bytes "  <propo"; a_line "sed_plan> " ++ a_line "step" ++ str_bytes "</proposed";
   a_line "_plan>" ++ str_bytes "after"].

Lemma tagged_lines_read_like_the_whole_text_witness :
  texts plan_pieces /\
  joined (parse_all plan_pieces (parser_new plan_specs))
  = [Normal (a_line "before"); TagStart ProposedPlan; TagDelta ProposedPlan (a_line "step"); TagEnd ProposedPlan;
     Normal (str_bytes "after")].
Proof.
  assert (Hs : texts plan_pieces) by repeat constructor. split; [exact Hs|].
  rewrite (tagged_lines_read_like_the_whole_text plan_specs plan_pieces Hs). vm_compute. reflexivity.
Defined.

(** The two bytes of a character, one in each chunk. *)
Definition split_chunks : list bytes := [str_bytes "A" ++ [xc3]; [xa9] ++ str_bytes "<proposed_plan>"].

Lemma bytes_are_projected_like_the_text_witness :
  exists clean out self tail,
    push_all split_chunks (adapter_new plan_new) = (clean, Ok out) /\ adapter_close clean = (self, Ok tail)
    /\ renderable (merge out tail) = str_bytes "A" ++ [xc3; xa9] ++ str_bytes "<proposed_plan>".
Proof.
  destruct (proj1 (bytes_are_projected_like_the_text plan_new split_chunks plan_new_ok) eq_refl)
    as (clean & out & self & tail & E1 & E2 & [Hs _]).
  exists clean, out, self, tail. split; [exact E1|]. split; [exact E2|]. rewrite Hs. vm_compute. reflexivity.
Defined.

Lemma refused_chunks_are_rolled_back_witness :
  push_bytes (str_bytes "ok" ++ [xff]) (adapter_new plan_new) = (adapter_new plan_new, Err (InvalidUtf8 2 1))
  /\ never_text (str_bytes "ok" ++ [xff]).
Proof.
  assert (Hok : adapter_ok (adapter_new plan_new)) by (split; [exact plan_new_ok|by left]).
  assert (E : push_bytes (str_bytes "ok" ++ [xff]) (adapter_new plan_new) = (adapter_new plan_new, Err (InvalidUtf8 2 1)))
    by (vm_compute; reflexivity).
  split; [exact E|]. pose proof (refused_chunks_are_rolled_back (adapter_new plan_new) (str_bytes "ok" ++ [xff]) Hok) as Hw.
  cbv zeta in Hw. rewrite E in Hw. destruct Hw as (_ & at_ & n & _ & _ & _ & _ & Hn). exact Hn.
Defined.

Definition both_features : AssistantTextFeatures := {| fe_citations := true; fe_proposed_plan := true |}.

Definition assistant_with (features : AssistantTextFeatures) : AssistantTextProjector :=
  match with_features features with Ok self => self | Err _ => {| as_citations := None; as_plan := None |} end.

Definition assistant_pieces : list bytes :=
  [str_bytes "Intro <praxis-memory-"; str_bytes "citation>m</praxis-memory-citation>end"].

Lemma assistant_text_reads_like_the_whole_text_witness :
  let out := assistant_collect assistant_pieces (assistant_with both_features) in
  citations out = [str_bytes "m"]
  /\ exists visible extracted, reads citation_specs (concat assistant_pieces) visible extracted
       /\ visible_text out = shown (read_text plan_specs visible).
Proof.
  destruct (assistant_text_reads_like_the_whole_text both_features (assistant_with both_features) assistant_pieces
              eq_refl ltac:(repeat constructor)) as (visible & extracted & Hr & _ & Hv & _).
  split; [vm_compute; reflexivity|]. exists visible, extracted. split; [exact Hr|exact Hv].
Defined.

Lemma whole_texts_are_one_piece_witness :
  strip_proposed_plan_blocks (a_line "a" ++ a_line "<proposed_plan>" ++ a_line "b") = a_line "a".
Proof.
  destruct (whole_texts_are_one_piece (a_line "a" ++ a_line "<proposed_plan>" ++ a_line "b") eq_refl) as (_ & E & _).
  rewrite E. vm_compute. reflexivity.
Defined.
