(* ===== verification/LoopTheorems.v ===== *)
(** What the loop promises: tool calls run in an order that respects their
    conflicts and are all answered, turns end and say so, prompts replay what was
    committed, limits are kept, hooks compose. *)

From S2P Require Import Prelude BTree Effects LoopModel ToolBatch BatchFacts Hooks TurnLoop TurnFacts TurnEnds LoopExamples.

Open Scope string_scope.
Open Scope list_scope.
Open Scope Z_scope.

(** * Batches of tool calls *)

(** C17. Whatever calls a batch is given and whatever is chosen among what answers next
    (lookups, preparations, polls of the running tools and of the sink, the
    cancellation), the task never panics, and when it ends every call has one entry,
    in the order of the provider.  The entries are what the choices say, read
    without the books of the batch: a call whose tool was not found is answered as
    missing, one whose preparation failed with the error of it, and a planned one
    with the result, the progress and the effects that the polls of its own tool
    brought, the error of a sink that refused its start or its end, or the answer of
    a cancelled call when it was cancelled before its first poll.  Only after a
    cancellation are there calls that nobody asked for or that were stopped so. *)
Theorem tool_batches_settle_every_call `{ToolTypes} calls cancelled choices b :
  leads_to (batch_start calls cancelled) choices b ->
  b_phase b <> Panicked /\ b_cancelled b = cancelled_by cancelled choices /\
  forall entries, b_phase b = Finished entries ->
    entries = entries_by (fun i => polls_of i cancelled choices) 0 calls (fates_of calls choices) /\
    (b_cancelled b = false -> Unasked ∉ fates_of calls choices) /\
    Forall2 (entry_ok (b_cancelled b)) calls entries.
Proof.
  intros ([Hc Hf] & plans & Hok)%leads_to_follows. pose proof (ok_phase _ _ _ Hok) as Hp. unfold phase_ok in Hp.
  split; [by intros E; rewrite E in Hp|]. split; [done|]. intros entries E. rewrite E in Hf, Hp.
  destruct Hf as [He Hall]. split; [done|]. split; [|done]. intros Ec. unfold fates_of.
  rewrite Hall, Nat.sub_diag, app_nil_r by done. apply read_never_unasked.
Qed.

(** A call that runs, one whose tool is unknown, one whose preparation is given up, one
    that nobody asks for. *)
Lemma tool_batches_settle_every_call_witness :
  match taking stopped_choices (batch_start stopped_calls false) with
  | Some b =>
      exists entries, b_phase b = Finished entries /\ b_cancelled b = true /\
        entries = entries_by (fun i => polls_of i false stopped_choices) 0 stopped_calls (fates_of stopped_calls stopped_choices) /\
        map entry_text entries = [("r1", "contents"); ("x", "tool `unknown` is not registered"); ("r2", "Cancelled: turn was cancelled");
                                    ("o", "tool `other` was cancelled before execution")]
  | None => False
  end.
Proof.
  destruct (taking stopped_choices (batch_start stopped_calls false)) as [b|] eqn:E; [|vm_compute in E; discriminate].
  destruct (tool_batches_settle_every_call stopped_calls false stopped_choices b (taking_leads _ _ _ E)) as (_ & Hc & He).
  vm_compute in E. injection E as <-. eexists. split; [reflexivity|]. split; [reflexivity|].
  split; [exact (proj1 (He _ eq_refl))|]. vm_compute. reflexivity.
Defined.

(** C18. A batch ends: no order of answers takes more steps than ten for each call and
    four; and until it has ended something is awaited that can be answered, however
    it answers.  These answers and the cancellation are all the steps there are. *)
Theorem tool_batches_end `{ToolTypes} calls cancelled :
  (forall n b, nsteps bstep n (batch_start calls cancelled) b -> (n <= batch_fuel calls)%nat) /\
  forall b, rtc bstep (batch_start calls cancelled) b ->
    ((exists entries, b_phase b = Finished entries) \/
     forall answers, exists choice b', choice ∈ open_choices answers b /\ step choice b = Some b') /\
    forall choice b', step choice b = Some b' -> choice = Cancel \/ exists answers, choice ∈ open_choices answers b.
Proof.
  pose proof (batch_ok_start calls cancelled) as Hok. split.
  - intros n b Hn. pose proof (rtc_weight _ _ _ _ _ Hok Hn). pose proof (batch_weight_start calls cancelled). lia.
  - intros b Hr. split; [|intros choice b'; apply step_is_open]. destruct (rtc_keeps_batch_ok _ _ _ _ Hok Hr) as (plans & _ & Hok').
    destruct (b_phase b) eqn:Ep; try (left; by eexists); right; intros answers;
      (destruct (open_choices answers b) as [|choice choices] eqn:Eo;
         [destruct (open_choices_end _ _ _ _ Hok' Eo) as [? E]; congruence|]);
      (assert (choice ∈ open_choices answers b) as Hc by (rewrite Eo; set_solver));
      (destruct (open_choice_steps _ _ _ Hc) as [b' Hb']); exists choice, b'; by rewrite <- Eo.
Qed.

(** C19. Calls that conflict take turns in the order of the provider: one of them is
    started only when the earlier one has been completed.  Two calls that run at
    the same time do not conflict, and nothing that their plans cover does. *)
Theorem conflicting_tools_take_turns `{ToolTypes} calls b i d ei ed :
  batch_of calls b -> b_effects b !! i = Some ei -> b_effects b !! d = Some ed ->
  (conflicts ei ed = true -> (d < i)%nat -> b_nodes b !! i = Some None -> completed b d) /\
  (active b i -> active b d -> i <> d ->
     conflicts ei ed = false /\
     forall x y, covers ei x = true -> covers ed y = true -> effect_conflicts x y = false).
Proof.
  intros (plans & [Hb _ _ _])%batch_of_ok Hi Hd. split.
  - intros Hc Hlt Hs. eapply started_after; [done..|]. by eapply conflicting_effects.
  - intros Ha Hb' Hne. assert (conflicts ei ed = false) as Hc.
    { apply not_true_iff_false. intros Hc. eapply (active_apart plans b i d); [done..|]. by eapply conflicting_effects. }
    split; [done|]. intros x y. by apply covers_conflicts.
Qed.

Lemma conflicting_tools_take_turns_witness :
  let b := sim_batch [] 30 sim_calls in
  completed b 0 /\ active (sim_batch [] 18 sim_calls) 0 /\ active (sim_batch [] 18 sim_calls) 1 /\
  conflicts (effects_read (file "a.rs")) (effects_read (file "a.rs")) = false.
Proof.
  cbv zeta. assert (active (sim_batch [] 18 sim_calls) 0) as H0.
  { eexists. split; [apply list_elem_of_In; vm_compute; left; reflexivity|vm_compute; reflexivity]. }
  assert (active (sim_batch [] 18 sim_calls) 1) as H1.
  { eexists. split; [apply list_elem_of_In; vm_compute; right; left; reflexivity|vm_compute; reflexivity]. }
  split.
  - refine (proj1 (conflicting_tools_take_turns sim_calls _ 2 0 _ _ (sim_batch_of [] 30 sim_calls) _ _) _ _ _);
      [vm_compute; reflexivity|vm_compute; reflexivity|vm_compute; reflexivity|lia|vm_compute; reflexivity].
  - split; [exact H0|]. split; [exact H1|].
    refine (proj1 (proj2 (conflicting_tools_take_turns sim_calls _ 0 1 _ _ (sim_batch_of [] 18 sim_calls) _ _) H0 H1 _));
      [vm_compute; reflexivity|vm_compute; reflexivity|lia].
Defined.

(** While a batch that is not cancelled waits, only conflicts keep calls from being
    started: a call that is pending has an unfinished earlier call it conflicts
    with, and something is running. *)
Theorem only_conflicts_delay_tools `{ToolTypes} calls b at_ i :
  batch_of calls b -> b_phase b = Awaiting at_ -> b_cancelled b = false -> pending b i ->
  (exists d ei ed, (d < i)%nat /\ b_effects b !! i = Some ei /\ b_effects b !! d = Some ed /\
     conflicts ei ed = true /\ ~ completed b d) /\
  exists d, active b d.
Proof.
  intros (plans & [Hb _ _ Hp])%batch_of_ok Ep Ec Hi. unfold phase_ok in Hp. rewrite Ep, Ec in Hp. destruct Hp as [|Hr]; [done|].
  split.
  - destruct (waits_for _ _ _ Hb Hr Hi) as (d & Hlt & (p & q & Hpi & Hpd & Hc) & Hd).
    exists d, (pt_effects p), (pt_effects q). rewrite (bk_effects _ _ Hb), !list_lookup_fmap, Hpi, Hpd. done.
  - destruct (b_active b) as [|r actives] eqn:Ea; [by destruct (nothing_pending _ _ i Hb Ea Hr)|].
    exists (rn_index r), r. split; [rewrite Ea; set_solver|done].
Qed.

Lemma only_conflicts_delay_tools_witness :
  let b := sim_batch [] 18 sim_calls in
  pending b 2 /\ (exists d, active b d) /\ exists d, (d < 2)%nat /\ ~ completed b d.
Proof.
  cbv zeta. assert (pending (sim_batch [] 18 sim_calls) 2) as Hp by (eexists; vm_compute; reflexivity).
  destruct (only_conflicts_delay_tools sim_calls _ ForDrain 2 (sim_batch_of [] 18 sim_calls)
    ltac:(vm_compute; reflexivity) ltac:(vm_compute; reflexivity) Hp) as [(d & ei & ed & Hd & _ & _ & _ & Hc) Ha].
  split; [exact Hp|]. split; [exact Ha|]. exists d. split; [exact Hd|exact Hc].
Defined.

(** Once a batch is cancelled it stays cancelled, and no step starts another tool. *)
Theorem cancellation_starts_no_tool `{ToolTypes} choice b b' :
  step choice b = Some b' -> b_cancelled b = true ->
  b_cancelled b' = true /\
  forall index id name, (index, TurnToolStarted id name) ∈ b_log b' -> (index, TurnToolStarted id name) ∈ b_log b.
Proof.
  intros Hs Hc. split; [by eapply step_cancelled|]. intros index id name Hin.
  destruct (step_log _ _ _ Hs) as [El|(index' & answer & r & stage & events & _ & E & El)]; rewrite El in Hin; [done|].
  apply elem_of_app in Hin as [?|Hin]; [done|]. rewrite Hc in E. exfalso.
  apply list_elem_of_fmap in Hin as (event & Ei & Hin). injection Ei as <- <-.
  eapply run_one_cancelled; [exact E|]. by apply (list_elem_of_fmap_2 (pair index)).
Qed.

Lemma cancellation_starts_no_tool_witness :
  exists b', step Advance (cancel (sim_batch [] 8 sim_calls)) = Some b' /\ b_cancelled b' = true.
Proof.
  eexists. assert (step Advance (cancel (sim_batch [] 8 sim_calls)) = Some _) as Hs by (vm_compute; reflexivity).
  split; [exact Hs|]. exact (proj1 (cancellation_starts_no_tool _ _ _ Hs ltac:(vm_compute; reflexivity))).
Defined.

(** Effects are sets of resources: two keys overlap exactly when some resource is
    under both; a journal is valid exactly when the plan covers what it observed;
    and journals that are valid for plans without a conflict have no conflict. *)
Theorem effect_plans_isolate :
  (forall k1 k2, key_overlaps k1 k2 = true <-> exists key, key_covers k1 key = true /\ key_covers k2 key = true) /\
  (forall e1 e2, conflicts e1 e2 = conflicts e2 e1) /\
  (forall planned journal, is_valid (journal_validate planned journal) = true <->
     forall effect, effect ∈ journal -> covers planned effect = true) /\
  forall p1 p2 j1 j2, conflicts p1 p2 = false ->
    is_valid (journal_validate p1 j1) = true -> is_valid (journal_validate p2 j2) = true ->
    conflicts (journal_snapshot j1) (journal_snapshot j2) = false.
Proof.
  split; [apply key_overlaps_shared|]. split; [apply conflicts_sym|]. split; [apply is_valid_true|].
  intros p1 p2 j1 j2 Hc Hv1 Hv2. apply not_true_iff_false. intros (x & y & Hx & Hy & Hxy)%conflicts_true.
  rewrite is_valid_true in Hv1, Hv2. cbn in Hx, Hy.
  by rewrite (covers_conflicts _ _ _ _ Hc (Hv1 x Hx) (Hv2 y Hy)) in Hxy.
Qed.

(** * Turns *)

(** C22. A turn with a limit on its tool calls never hands more calls to its tools than
    the limit leaves, whatever hooks and services do; what exceeds it is not run. *)
Theorem guard_limits_tool_calls {W} `{!TurnServices W} (hooks : TurnHooks W) fuel ctx st input w out w' max :
  st_guard st = with_max_tool_calls max -> val max < 2 ^ 64 - 1 ->
  run_turn fuel hooks ctx st input w = (out, w') ->
  exists acts, w_log w' = w_log w ++ acts /\
    (tools_run acts = 0 \/ val (st_tool_call_count st) + tools_run acts <= val max).
Proof.
  intros Eg Hm E. destruct (run_turn_keeps hooks (guarded st) fuel ctx st input w out w' E) as (base & st' & acts & last & El & [_ Hg] & He).
  - intros base st' Hst. assert (st_guard st' = st_guard st /\ count st' = count st) as [E1 E2].
    { destruct Hst as [->|(message & ->)]; [done|]. unfold record_completion_message. by destruct (into_option message). }
    split; [done|]. intros max' _ _. rewrite E2. cbn. lia.
  - exists (acts ++ last). split; [done|]. rewrite Eg in Hg. destruct (Hg max eq_refl Hm) as [_ Hb].
    assert (tools_run (acts ++ last) = tools_run acts) as ->; [|unfold count in Hb; lia].
    assert (last = [] \/ exists event answer, last = [ActEvent event answer]) as [->|(event & answer & ->)].
    { destruct out as [result|]; [destruct He as [_ He]; by eapply ending_act|by left]. }
    + by rewrite app_nil_r.
    + rewrite tools_run_snoc. lia.
Qed.

Lemma guard_limits_tool_calls_witness :
  exists acts, w_log (snd (sim_turn noop_hooks (capped_state 7) sim_calls)) = acts /\
    (tools_run acts = 0 \/ 0 + tools_run acts <= 7) /\ tools_run acts = 5.
Proof.
  assert (tools_run (w_log (snd (sim_turn noop_hooks (capped_state 7) sim_calls))) = 5) as H5 by (vm_compute; reflexivity).
  destruct (sim_turn noop_hooks (capped_state 7) sim_calls) as [out w'] eqn:E. cbn [snd] in H5 |- *.
  destruct (guard_limits_tool_calls noop_hooks 9 sim_context (capped_state 7) sim_input
    (sim_world (sim_streams_of sim_calls)) out w' (u64_of 7) eq_refl ltac:(vm_compute; reflexivity) E) as (acts & El & Hb).
  exists acts. cbn [sim_world w_log app] in El. rewrite <- El. split; [reflexivity|]. split; [|exact H5]. rewrite El. exact Hb.
Defined.

(** C23. With a limit on its tool calls, default judgement of rounds and nothing that
    restarts them, a turn ends within as many rounds as calls are left and one. *)
Theorem capped_turns_end {W} `{!TurnServices W} (hooks : TurnHooks W) fuel ctx st input w out w' max :
  undisturbed hooks -> st_guard st = with_max_tool_calls max -> val max < 2 ^ 64 - 1 ->
  (Z.to_nat (val max - val (st_tool_call_count st)) < fuel)%nat ->
  run_turn fuel hooks ctx st input w = (out, w') -> is_Some out.
Proof.
  intros Hu Eg Hm Hf [(result & last & -> & _)|(ctx' & st' & base & settings & w1 & (_ & Hst & _) & E)]%run_turn_cases; [by eexists|].
  assert (st_guard st' = st_guard st /\ count st' = count st) as [E1 E2].
  { destruct Hst as [->|(message & ->)]; [done|]. unfold record_completion_message. by destruct (into_option message). }
  assert (wp (run_rounds fuel hooks ctx' st' base settings) w1 (fun out _ => is_Some out)) as Hr.
  { apply (run_rounds_end hooks fuel ctx' settings base st' w1 max Hu); [by rewrite E1, Eg|done|by rewrite E2]. }
  unfold wp in Hr. by rewrite E in Hr.
Qed.

Lemma capped_turns_end_witness : is_Some (fst (sim_turn noop_hooks (capped_state 7) sim_calls)).
Proof.
  destruct (sim_turn noop_hooks (capped_state 7) sim_calls) as [out w'] eqn:E. cbn [fst].
  exact (capped_turns_end noop_hooks 9 sim_context (capped_state 7) sim_input (sim_world (sim_streams_of sim_calls)) out
    w' (u64_of 7) noop_undisturbed eq_refl ltac:(vm_compute; reflexivity) ltac:(apply Nat.ltb_lt; vm_compute; reflexivity) E).
Defined.

(** C21. The events that end a turn are emitted at most once, and last: a turn that
    completes has just said so; one that is aborted has emitted nothing of the
    kind, failed to say that it completed, or found itself cancelled between two
    rounds and said that it was aborted. *)
Theorem turns_end_once {W} `{!TurnServices W} (hooks : TurnHooks W) fuel ctx st input w result w' :
  run_turn fuel hooks ctx st input w = (Some result, w') ->
  exists acts last, w_log w' = w_log w ++ acts ++ last /\
    Forall (fun a => act_terminal a = false) acts /\ ending result last.
Proof.
  intros E. destruct (run_turn_keeps hooks (fun _ _ _ acts => open_turn acts) fuel ctx st input w _ w' E)
    as (base & st' & acts & last & El & Ho & _ & He); [intros; constructor|]. by exists acts, last.
Qed.

Lemma turns_end_once_witness :
  exists acts last, w_log (snd (sim_turn noop_hooks (capped_state 7) sim_calls)) = acts ++ last /\
    Forall (fun a => act_terminal a = false) acts.
Proof.
  destruct (sim_turn noop_hooks (capped_state 7) sim_calls) as [[result|] w'] eqn:E; [|vm_compute in E; discriminate].
  destruct (turns_end_once noop_hooks 9 sim_context (capped_state 7) sim_input (sim_world (sim_streams_of sim_calls)) result
    w' E) as (acts & last & El & Ha & _).
  exists acts, last. split; [exact El|exact Ha].
Defined.

(** C20. The model is shown everything the turn committed and nothing else: with hooks
    that only add to the prompt, each request has the initial prompt, the items of
    the input, the items that the hooks prepared at the start, the items the state
    came with, and then, in order, the items persisted and the steering drained
    before it. *)
Theorem prompts_replay_the_turn {W} `{!TurnServices W} (hooks : TurnHooks W) fuel ctx st input w out w' :
  leaves_prompt hooks -> run_turn fuel hooks ctx st input w = (out, w') ->
  exists acts, w_log w' = w_log w ++ acts /\
    requests_replay (cx_initial_prompt_items ctx ++ input_prompt_items input
                     ++ added_at_start hooks ctx st input (w_env w)
                     ++ omap projected (st_transcript_delta st)) acts.
Proof.
  intros Hl [(result & last & -> & El & He & _)|(ctx' & st' & base & settings & w1 & (El & Hst & Eb & Hc) & E)]%run_turn_cases.
  - exists last. split; [done|]. destruct (ending_act _ _ He) as [->|(event & answer & ->)].
    + by intros [|? []].
    + by apply (requests_replay_snoc _ []); [intros [|? []]|].
  - destruct Hc as [->|(items & env & env' & Hs)]; [|by apply (lp_start _ Hl) in Hs].
    assert (st_transcript_delta st' = st_transcript_delta st) as Ed.
    { destruct Hst as [->|(message & ->)]; [done|]. unfold record_completion_message. by destruct (into_option message). }
    set (start := cx_initial_prompt_items ctx ++ _).
    pose proof (replays_invariant hooks start Hl) as Hinv.
    pose proof (run_rounds_keeps hooks (replays start) (w_log w) fuel ctx st' base settings w1) as Hr.
    unfold wp in Hr. rewrite E in Hr.
    assert (holds (replays start) (w_log w) 0 base st' w1) as Hh.
    { exists []. rewrite app_nil_r. split; [done|]. split; [|by intros [|? []] request after].
      rewrite build_round_prompt_project, Ed, Eb, app_nil_r. unfold start, build_initial_prompt. by rewrite <- !app_assoc. }
    specialize (Hr Hh). destruct out as [result|]; cbn in Hr.
    + destruct Hr as (base' & acts & last & El' & [_ Hreq] & He). exists (acts ++ last). split; [done|].
      destruct (ending_act _ _ He) as [->|(event & answer & ->)].
      * by rewrite app_nil_r.
      * by apply requests_replay_snoc.
    + destruct Hr as (base' & st2 & acts & El' & [_ Hreq]). by exists acts.
Qed.

Lemma prompts_replay_the_turn_witness :
  exists acts, w_log (snd (sim_turn preparing (capped_state 7) sim_calls)) = acts /\
    requests_replay [PromptUserText "hello"; PromptUserText "prepared"] acts /\
    length (omap (fun a => match a with ActRequest request => Some request | _ => None end) acts) = 2%nat.
Proof.
  assert (length (omap (fun a => match a with ActRequest request => Some request | _ => None end)
            (w_log (snd (sim_turn preparing (capped_state 7) sim_calls)))) = 2%nat) as H2 by (vm_compute; reflexivity).
  destruct (sim_turn preparing (capped_state 7) sim_calls) as [out w'] eqn:E. cbn [snd] in *.
  destruct (prompts_replay_the_turn preparing 9 sim_context (capped_state 7) sim_input (sim_world (sim_streams_of sim_calls))
    out w' preparing_leaves_prompt E) as (acts & El & Hr).
  exists acts. split; [exact El|]. split; [exact Hr|]. rewrite El in H2. exact H2.
Defined.



(** A hook that terminates a round with the first result leaves the other calls
    without one, although they have been executed and are in the transcript. *)
Example terminated_batches_leave_calls_unanswered :
  match sim_turn terminating state_default (take 2 sim_calls) with
  | (Some (Complete st), w) =>
      map tc_id (tool_calls (st_transcript_delta st)) = ["r1"; "r2"] /\
      map tr_call_id (tool_results (st_transcript_delta st)) = ["r1"] /\
      omap (fun a => match a with ActToolEvent _ (TurnToolExecutionCompleted r) => Some (tr_call_id r) | _ => None end) (w_log w)
        = ["r1"; "r2"]
  | _ => False
  end.
Proof. vm_compute. repeat split. Qed.

(** A stream without tool calls that has been consumed commits its reasoning and
    then, unless it was already recorded, all of its text as one message; the text
    is the answer of the round and the last message of the turn, and the usage is
    added up. *)
Theorem streamed_answers_are_committed {W} `{!TurnServices W} (hooks : TurnHooks W) ctx stream st w outcome st' w' :
  consume_model_stream hooks ctx stream st w = ((Ok (ConsumptionCompleted outcome), st'), w') ->
  exists acts, w_log w' = w_log w ++ acts /\
    (omap event_call (model_events acts) = [] ->
     outcome = streamed_outcome (model_events acts) /\
     st_transcript_delta st' = st_transcript_delta st ++ streamed_items (model_events acts) /\
     st_last_agent_message st' = streamed_message (model_events acts) (st_last_agent_message st) /\
     st_token_usage st'
       = fold_left (fun l u => ledger_record_usage u l) (omap event_usage (model_events acts)) (st_token_usage st)).
Proof.
  intros E. pose proof (consume_commits hooks ctx stream st w) as Hc. unfold wp in Hc. rewrite E in Hc. by apply Hc.
Qed.

Lemma streamed_answers_are_committed_witness :
  let stream := map sim_poll [ModelTextDelta (Some "m") "do"; ModelTextDelta None "ne"; ModelCompleted usage_zero] in
  match consume_model_stream noop_hooks sim_context stream state_default (sim_world []) with
  | ((Ok (ConsumptionCompleted outcome), st'), w') =>
      (exists acts, w_log w' = acts /\ (omap event_call (model_events acts) = [] ->
        st_transcript_delta st' = streamed_items (model_events acts))) /\
      st_transcript_delta st' = [ItemAssistantText (Some "m") "done"] /\ outcome = FinalAnswer (Text "done")
  | _ => False
  end.
Proof.
  cbv zeta. set (stream := map sim_poll _).
  destruct (consume_model_stream noop_hooks sim_context stream state_default (sim_world []))
    as [[[[outcome|]|error] st'] w'] eqn:E; [|vm_compute in E; discriminate..].
  split.
  - destruct (streamed_answers_are_committed noop_hooks sim_context stream state_default (sim_world []) outcome st' w' E)
      as (acts & El & Hc). exists acts. split; [exact El|]. intros Hn. exact (proj1 (proj2 (Hc Hn))).
  - vm_compute in E. injection E as <- <- _. vm_compute. split; reflexivity.
Defined.

(** * Hooks *)

(** Chaining hooks is associative; the default hooks change nothing before or
    behind others, except where rounds are judged: there they decide themselves
    whenever they stand first and stop, and whenever they stand behind hooks that
    let the turn go on. *)
Theorem hooks_compose {W} :
  (forall a b c : TurnHooks W, alike (chained_hooks (chained_hooks a b) c) (chained_hooks a (chained_hooks b c))) /\
  (forall a : TurnHooks W, alike_but_rounds (chained_hooks noop_hooks a) a /\ alike_but_rounds (chained_hooks a noop_hooks) a) /\
  (forall (a : TurnHooks W) view w, after_model_round (chained_hooks noop_hooks a) view w =
     match default_after_model_round (ov_outcome view) with
     | RoundContinue _ => after_model_round a view w
     | decision => (decision, w)
     end) /\
  (forall (a : TurnHooks W) view w, after_model_round (chained_hooks a noop_hooks) view w =
     match after_model_round a view w with
     | (RoundContinue UpdateReuse, w) => (default_after_model_round (ov_outcome view), w)
     | answer => answer
     end).
Proof.
  split; [intros a b c; split; [apply chain_assoc_but_rounds|apply chain_assoc_rounds]|].
  split; [intros a; split; [apply noop_first|apply noop_second]|].
  split; [apply noop_first_rounds|apply noop_second_rounds].
Qed.
