(* ===== verification/HistoryTheorems.v ===== *)
(** The theorems about a session's history: what the model sees of it, what a
    rollback cuts, what a resumed session and a fork get of it, and how outputs
    are shortened. *)

From S2P Require Import Prelude Disk Text TextFacts Listing ListingFacts Truncation History HistoryFacts Resume.

Open Scope string_scope.
Open Scope list_scope.
Open Scope Z_scope.

(** * Concrete histories *)

Module HistoryExamples.

#[export] Instance types : HistoryTypes | 100 := {| Json := unit; TurnContextRest := unit |}.

#[export] Instance rollout_types : RolloutTypes | 100 :=
  {| OtherEventMsg := unit; SessionMetaLine := unit; TurnAbortReason := unit; Interrupted := tt; WorkspaceRestoreEvent := unit;
     RateLimitSnapshot := unit; ResumedFrom := unit |}.

Definition task : InterAgentCommunication :=
  {| ia_author := "root"; ia_recipient := "worker"; ia_other_recipients := []; ia_content := str_bytes "look"; ia_trigger_turn := true |}.

(** Nothing is a prompt of a hook, and one text is a task. *)
#[export] Instance codecs : HistoryCodecs | 100 :=
  {| from_hook_prompt_xml _ := None;
     from_inter_agent_json text := if bool_decide (text = str_bytes "task") then Some task else None |}.

Definition user (text : string) : ResponseItem := Message None "user" [InputText (str_bytes text)] None None.
Definition assistant (text : string) : ResponseItem := Message None "assistant" [OutputText (str_bytes text)] None None.
Definition permissions : ResponseItem :=
  Message None "developer" [InputText (str_bytes "<permissions instructions>"); InputText (str_bytes "rules")] None None.

Definition mixed : ResponseItem :=
  Message None "developer" [InputText (str_bytes "<permissions instructions>"); InputText (str_bytes "be brief")] None None.

Definition baseline : TurnContextItem :=
  {| tc_turn_id := Some "t1"; tc_model := "m"; tc_realtime_active := None; tc_rest := tt |}.

Definition session (items : list ResponseItem) : ContextManager := replace items ContextManager_new.
Definition turns_of (n : Z) : RolloutItem := RolloutEvent (ThreadRolledBack (u32_of n) None).
Definition policy : TruncationPolicy := PolicyBytes (u64_of 1000).

Definition turn (id : string) (items : list RolloutItem) : list RolloutItem :=
  RolloutEvent (TurnStarted id) :: items ++ [RolloutEvent (TurnComplete id)].

Definition compacted : RolloutItem :=
  Compacted {| ci_message := []; ci_replacement_history := Some [user "a"; assistant "summary"; user "c"] |}.

Definition compacted_rollout : list RolloutItem :=
  turn "t1" [RolloutResponse (user "a"); RolloutResponse (assistant "b"); compacted]
  ++ turn "t2" [RolloutResponse (user "d"); RolloutResponse (assistant "e")] ++ [turns_of 1].

Definition compacted_then_rolled_back : list RolloutItem :=
  turn "t1" [RolloutResponse (user "a"); RolloutResponse (assistant "b")]
  ++ turn "t2" [RolloutResponse (user "c"); compacted] ++ [turns_of 1].





End HistoryExamples.
Import HistoryExamples.

(** * What the model sees *)



(** * Rollbacks *)

(** C35. Rolling back [n] turns keeps the items before the turn that is the [n]-th
    from the end, or before the first where there are fewer, less the context
    updates right before it; what was before the first turn stays. The baseline is
    forgotten exactly when a bundle that mixes instructions with context is among
    the updates trimmed right before the cut; a bundle inside the dropped turns goes
    with them and the baseline stays. No turn or none to roll back changes nothing. *)
Theorem rollbacks_cut_at_turns `{HistoryTypes} `{HistoryCodecs} (num_turns : u32) cm :
  let rolled := drop_last_n_user_turns num_turns cm in
  let n := Z.to_nat (val num_turns) in
  ∃ kept trimmed dropped,
    cm_items cm = kept ++ trimmed ++ dropped /\
    cm_items rolled = kept /\
    cm_token_info rolled = cm_token_info cm /\
    cm_reference_context_item rolled = (if existsb is_mixed_bundle trimmed then None else cm_reference_context_item cm) /\
    user_turns dropped = Nat.min n (user_turns (cm_items cm)) /\
    user_turns kept = (user_turns (cm_items cm) - n)%nat /\
    Forall (fun item => is_context_update item = true) trimmed /\
    ((dropped = [] /\ trimmed = [])
     \/ ((∃ item post, dropped = item :: post /\ is_user_turn_boundary item = true) /\
         ((user_turns kept = 0%nat /\ trimmed = []) \/ ∃ before item, kept = before ++ [item] /\ is_context_update item = false))).
Proof.
  intros rolled n. destruct (decide (val num_turns = 0 \/ user_turns (cm_items cm) = 0%nat)) as [Hno|Hsome].
  - exists (cm_items cm), [], []. unfold rolled. rewrite drop_nothing by done. rewrite !app_nil_r. unfold n.
    change (user_turns []) with 0%nat. split_and!; try done; [| |by left]; (destruct Hno as [E|E]; rewrite E; lia).
  - destruct (drop_decomposes num_turns cm ltac:(lia) ltac:(lia))
      as (kept & trimmed & dropped & E & Ek & Er & Et & Hc & Hb & Hall & Hend).
    exists kept, trimmed, dropped. fold rolled n in Ek, Er, Et, Hc |- *. split_and!; try done.
    + pose proof (f_equal user_turns E) as Hs. rewrite !user_turns_app, (updates_no_turns _ Hall) in Hs. lia.
    + right. split; [done|]. destruct Hend as [?|[_ ?]]; [by left|by right].
Qed.

(** A bundle between the turns that are dropped goes, and the baseline that it
    established stays: the next turn is diffed against a context the model has lost. *)
Example dropped_bundles_keep_the_baseline :
  let cm := set_reference_context_item (Some baseline) (session [user "a"; mixed; user "b"]) in
  is_mixed_bundle mixed = true /\
  cm_items (drop_last_n_user_turns (u32_of 2) cm) = [] /\
  cm_reference_context_item (drop_last_n_user_turns (u32_of 2) cm) = Some baseline /\
  cm_items (drop_last_n_user_turns (u32_of 1) cm) = [user "a"] /\
  cm_reference_context_item (drop_last_n_user_turns (u32_of 1) cm) = None.
Proof. split_and!; by vm_compute. Qed.

(** C36. Rollbacks add up: rolling back [m] turns and then [n] leaves the items that
    rolling back [m + n] at once leaves. *)
Theorem rollbacks_add_up `{HistoryTypes} `{HistoryCodecs} (m n both : u32) cm :
  val both = val m + val n ->
  cm_items (drop_last_n_user_turns n (drop_last_n_user_turns m cm)) = cm_items (drop_last_n_user_turns both cm).
Proof.
  intros E. pose proof (val_bounds m). pose proof (val_bounds n). rewrite !drop_is_rolled_back, E.
  destruct (Z.eqb_spec (val m) 0) as [-> |Hm]; [done|]. case (Z.eqb_spec (val n) 0) as [-> |Hn].
  - by rewrite Z.add_0_r, (proj2 (Z.eqb_neq _ _) Hm).
  - rewrite (proj2 (Z.eqb_neq (val m + val n) 0)) by lia. rewrite rolled_back_again by lia. f_equal. lia.
Qed.

Lemma rollbacks_add_up_witness :
  let cm := session [permissions; user "a"; assistant "b"; permissions; user "c"; user "d"] in
  cm_items (drop_last_n_user_turns (u32_of 2) cm) = [permissions; user "a"; assistant "b"] /\
  cm_items (drop_last_n_user_turns (u32_of 1) (drop_last_n_user_turns (u32_of 1) cm))
  = cm_items (drop_last_n_user_turns (u32_of 2) cm).
Proof. split; [by vm_compute|]. apply rollbacks_add_up. reflexivity. Defined.

(** * Resumed sessions *)

(** C33. The history a session resumes with is what replaying its whole rollout
    gives, whenever the scan finds a base, no compaction replaced the history, or
    nothing was rolled back. *)
Theorem resumed_history_is_the_replay `{HistoryTypes} `{RolloutTypes} `{HistoryCodecs} policy rollout :
  is_Some (plan_base_replacement_history (scan_rollout_replay rollout))
  \/ Forall (fun item => reset_of item = None) rollout \/ Forall (fun item => is_rollback item = false) rollout ->
  rr_history (reconstruct_history_from_rollout policy rollout) = cm_items (replay policy rollout ContextManager_new).
Proof. apply reconstruct_is_replay. Qed.

Lemma resumed_history_is_the_replay_witness :
  rr_history (reconstruct_history_from_rollout policy compacted_rollout) = [user "a"; assistant "summary"; user "c"] /\
  rr_history (reconstruct_history_from_rollout policy compacted_rollout)
  = cm_items (replay policy compacted_rollout ContextManager_new).
Proof.
  split; [by vm_compute|]. apply resumed_history_is_the_replay. left.
  eexists. vm_compute. reflexivity.
Defined.

(** C37. The scan may stop as soon as it has a base, settings and a baseline: the
    items before change nothing of what it finds, nor of the history. *)
Theorem early_stops_change_nothing `{HistoryTypes} `{RolloutTypes} `{HistoryCodecs} policy rollout :
  let plan := scan_rollout_replay rollout in
  let whole := scan_whole_rollout rollout in
  plan_base_replacement_history plan = plan_base_replacement_history whole /\
  plan_previous_turn_settings plan = plan_previous_turn_settings whole /\
  plan_reference_context_item plan = plan_reference_context_item whole /\
  materialize_history_from_replay policy (plan_base_replacement_history plan) (plan_rollout_suffix plan)
  = materialize_history_from_replay policy (plan_base_replacement_history whole) (plan_rollout_suffix whole).
Proof. apply early_stop_same. Qed.

(** A compaction of a turn that is rolled back still moves the start of the replay
    behind it, without the history it replaced the older one by: the session that ran
    had the turns before, the one that resumes has nothing. *)
Example rolled_back_compactions_lose_the_history :
  cm_items (replay policy compacted_then_rolled_back ContextManager_new) = [user "a"; assistant "summary"] /\
  rr_history (reconstruct_history_from_rollout policy compacted_then_rolled_back) = [].
Proof. split; by vm_compute. Qed.

(** * Forks *)



(** A rollback counts the turns that a task of another agent opened too, but takes
    as many user messages: one that the history keeps is missed. *)
Example rolled_back_tasks_hide_user_messages :
  let rollout := [RolloutResponse (user "a"); RolloutResponse (assistant "task"); turns_of 1] in
  cm_items (replay policy rollout ContextManager_new) = [user "a"] /\
  user_message_positions_in_rollout rollout = [] /\ fork_turn_positions_in_rollout rollout = [0%nat].
Proof. split_and!; by vm_compute. Qed.



(** * Shortened outputs *)

Lemma byte_budget_nonneg policy : 0 <= byte_budget policy.
Proof.
  destruct policy as [n|n]; pose proof (val_bounds n); simpl; [lia|].
  unfold approx_bytes_for_tokens, saturating_mul, USIZE_MAX, APPROX_BYTES_PER_TOKEN. lia.
Qed.

Lemma tokens_of_bytes n : approx_tokens_from_byte_count n = Z.min (n + 3) USIZE_MAX / 4.
Proof. unfold approx_tokens_from_byte_count, saturating_add, saturating_sub, APPROX_BYTES_PER_TOKEN. by rewrite Z.min_comm. Qed.

Lemma truncate_text_is content policy :
  truncate_text content policy
  = truncate_with_byte_estimate content (byte_budget policy) (match policy with PolicyTokens _ => true | _ => false end).
Proof.
  destruct policy as [n|n]; [done|]. simpl. unfold truncate_middle_with_token_budget. destruct content as [|b content]; [done|].
  set (s := b :: content). pose proof (val_bounds n). destruct (Z.ltb_spec 0 (val n)); cbn [andb].
  - destruct (Z.leb_spec (len s) (approx_bytes_for_tokens (val n))) as [Hle|].
    + unfold truncate_with_byte_estimate, s. fold s. cbn [fst].
      rewrite (proj2 (Z.eqb_neq _ _)), (proj2 (Z.leb_le _ _) Hle); [done|].
      unfold approx_bytes_for_tokens, saturating_mul, USIZE_MAX, APPROX_BYTES_PER_TOKEN. lia.
    + by case_bool_decide.
  - by case_bool_decide.
Qed.

(** What stands for [gone], the middle of a text. *)
Definition marker_for (policy : TruncationPolicy) (content gone : bytes) : bytes :=
  match policy with
  | PolicyBytes _ => str_bytes "…" ++ dec_text (len (chars gone)) ++ str_bytes " chars truncated…"
  | PolicyTokens _ =>
      str_bytes "…" ++ dec_text (Z.min (len content - byte_budget policy + 3) USIZE_MAX / 4) ++ str_bytes " tokens truncated…"
  end.

Lemma texts_are_cut_in_the_middle content policy :
  utf8_valid content = true -> len content <= USIZE_MAX ->
  let budget := byte_budget policy in
  (len content <= budget -> truncate_text content policy = content) /\
  (budget < len content -> budget = 0 -> truncate_text content policy = marker_for policy content content) /\
  (budget < len content -> 0 < budget ->
   ∃ before mid after,
     content = before ++ mid ++ after /\ mid <> [] /\
     truncate_text content policy = before ++ marker_for policy content mid ++ after /\
     utf8_valid before = true /\ utf8_valid mid = true /\ utf8_valid after = true /\
     len before <= budget / 2 < len before + 4 /\
     len after <= budget - budget / 2 < len after + 4 /\
     len (marker_for policy content mid) <= 44).
Proof.
  intros Hv Hlen budget. rewrite truncate_text_is. set (tokens := match policy with PolicyTokens _ => true | _ => false end).
  assert (Hb : 0 <= budget) by apply byte_budget_nonneg.
  assert (Em : ∀ gone, format_truncation_marker tokens (removed_count tokens content gone budget) = marker_for policy content gone).
  { intros gone. unfold format_truncation_marker, removed_count, marker_for, tokens. by destruct policy; rewrite ?tokens_of_bytes by lia. }
  fold budget. split_and!.
  - intros Hle. unfold truncate_with_byte_estimate. destruct content; [done|].
    destruct (Z.eqb_spec budget 0); [simpl in Hle; lia|]. by rewrite (proj2 (Z.leb_le _ _) Hle).
  - intros Hgt E0. rewrite <- Em. unfold truncate_with_byte_estimate. destruct content as [|b content]; [simpl in Hgt; lia|].
    rewrite E0. simpl Z.eqb. cbv iota. unfold removed_units, removed_count. rewrite Z.sub_0_r. done.
  - intros Hgt Hpos. destruct (truncate_middle content budget tokens Hv Hlen ltac:(lia))
      as (before & mid & after & E & Hm & V1 & V2 & V3 & Hbefore & Hafter & ->).
    pose proof (length_marker tokens (removed_count tokens content mid budget)) as Hmk. rewrite Em in *.
    exists before, mid, after. split_and!; try done; lia.
Qed.

(** C40. A text within its budget, of bytes or of tokens, stays as it is.  A text over
    its budget of bytes is shortened to its beginning, a marker and its end: both are
    whole characters and within three bytes of their half of the budget, so that the
    text kept is within the budget; the marker, on top of it, says how many characters
    are gone and takes 44 bytes at most.  With no budget only the marker is left, for
    the whole text. *)
Theorem truncation_keeps_both_ends content budget :
  utf8_valid content = true -> len content <= USIZE_MAX ->
  let truncated := truncate_text content (PolicyBytes budget) in
  let marker gone := str_bytes "…" ++ dec_text (len (chars gone)) ++ str_bytes " chars truncated…" in
  (∀ policy, len content <= byte_budget policy -> truncate_text content policy = content) /\
  (val budget = 0 -> content <> [] -> truncated = marker content) /\
  (0 < val budget < len content ->
   ∃ before mid after,
     content = before ++ mid ++ after /\ mid <> [] /\ truncated = before ++ marker mid ++ after /\
     utf8_valid before = true /\ utf8_valid mid = true /\ utf8_valid after = true /\
     len before <= val budget / 2 < len before + 4 /\
     len after <= val budget - val budget / 2 < len after + 4 /\
     len (marker mid) <= 44 /\ len truncated <= val budget + 44).
Proof.
  intros Hv Hlen truncated marker. destruct (texts_are_cut_in_the_middle content (PolicyBytes budget) Hv Hlen) as (_ & Hzero & Hcut).
  split_and!.
  - intros policy. by apply texts_are_cut_in_the_middle.
  - intros E Hne. apply Hzero; [|done]. change (val budget < len content). destruct content; [done|cbn [length]; lia].
  - intros Hb. destruct Hcut as (before & mid & after & E & Hm & Et & V1 & V2 & V3 & Hbefore & Hafter & Hmk); [simpl; lia..|].
    exists before, mid, after. fold truncated in Et. split_and!; try done; try (change (byte_budget (PolicyBytes budget)) with (val budget) in *; lia).
    change (byte_budget (PolicyBytes budget)) with (val budget) in *. fold (marker mid) in Hmk.
    rewrite Et, !length_app, !Nat2Z.inj_add. lia.
Qed.

Lemma truncation_keeps_both_ends_witness :
  truncate_text (str_bytes "0123456789") (PolicyBytes (u64_of 4)) = str_bytes "01…6 chars truncated…89" /\
  truncate_text (str_bytes "abcdef") (PolicyBytes (u64_of 0)) = str_bytes "…6 chars truncated…" /\
  len (truncate_text (str_bytes "0123456789") (PolicyBytes (u64_of 4))) <= 4 + 44.
Proof.
  split; [by vm_compute|]. split.
  - rewrite (proj1 (proj2 (truncation_keeps_both_ends (str_bytes "abcdef") (u64_of 0)
      ltac:(by vm_compute) ltac:(by vm_compute)))) by by vm_compute. by vm_compute.
  - destruct (proj2 (proj2 (truncation_keeps_both_ends (str_bytes "0123456789") (u64_of 4)
      ltac:(by vm_compute) ltac:(by vm_compute))) ltac:(by vm_compute))
      as (before & mid & after & _ & _ & _ & _ & _ & _ & _ & _ & _ & Hlen).
    exact Hlen.
Defined.

(** A budget of tokens is one of four bytes each, and its marker counts the tokens,
    rounded up, that the text is over it; as with bytes it comes on top, which the
    tests expect and the documentation ("at most [max_tokens]") does not say. *)
Theorem token_budgets_cut_the_middle content tokens :
  utf8_valid content = true -> len content <= USIZE_MAX ->
  let budget := Z.min USIZE_MAX (val tokens * 4) in
  let marker := str_bytes "…" ++ dec_text (Z.min (len content - budget + 3) USIZE_MAX / 4) ++ str_bytes " tokens truncated…" in
  budget < len content ->
  ∃ before mid after,
    content = before ++ mid ++ after /\ truncate_text content (PolicyTokens tokens) = before ++ marker ++ after /\
    len before <= budget / 2 /\ len after <= budget - budget / 2.
Proof.
  intros Hv Hlen budget marker Hgt. destruct (texts_are_cut_in_the_middle content (PolicyTokens tokens) Hv Hlen) as (_ & Hzero & Hcut).
  change (byte_budget (PolicyTokens tokens)) with budget in *.
  assert (Hb : 0 <= budget) by apply (byte_budget_nonneg (PolicyTokens tokens)). destruct (decide (budget = 0)) as [E0|Hne].
  - exists [], content, []. rewrite Hzero by done. rewrite !app_nil_r, E0. split_and!; done.
  - destruct Hcut as (before & mid & after & E & _ & Et & _ & _ & _ & Hbefore & Hafter & _); [lia..|].
    exists before, mid, after. split_and!; [done|exact Et|lia..].
Qed.

(** The marker is put on top of the budget, and may cost more than a budget of tokens. *)
Example markers_exceed_small_budgets :
  let shortened := fst (truncate_middle_with_token_budget (str_bytes "aaaaaaaaa") 1) in
  shortened = str_bytes "aa…2 tokens truncated…aa" /\ approx_token_count shortened = 7.
Proof. split; by vm_compute. Qed.
